(* ===== verification/_CoqProject ===== *)
-Q . S2P
Prelude.v
Mem.v
LibcMem.v
LibcMemProofs.v
ReplaceStr.v
LibcSort.v
LibcSortProofs.v
Adler.v
XArray.v
XArrayProofs.v
RbTree.v
RbInv.v
RbInsert.v
RbSearch.v
RbDelete.v
BlockTrack.v
BlockIndex.v
Printf.v
PrintfProofs.v
LibcStr.v
LibcStrProofs.v
SeqMatch.v
XArrayOf.v
PoolAlloc.v
PoolAllocProofs.v
RangeMap.v
Chains.v
HashTable.v
HashTableProofs.v
ExeContext.v
ExeContextProofs.v
OSet.v
AvlProofs.v
OSetShape.v
OSetOps.v
OSetProofs.v
OSetIter.v
PoolNodes.v
OSetRuns.v
LogBuffer.v
Mx.v
MxFloat.v
MxQuant.v
MxBlock.v
MxStore.v
Options.v
Tool.v
ToolProofs.v
ToolTrace.v
ToolHeap.v
Heap.v
Instrument.v
InstrumentProofs.v
Malloc.v
MallocApi.v
MallocBlocks.v
MallocLists.v
MallocInv.v
MallocSb.v
MallocInit.v
MallocAlloc.v
MallocRequest.v
MallocDone.v
MallocFree.v
MallocClient.v
MallocAligned.v
MallocShrink.v
MallocPerm.v
MallocUse.v
RbTheorems.v
ToolTheorems.v
MxTheorems.v
InstrumentTheorems.v
LibcTheorems.v
XArrayTheorems.v
HashTheorems.v
OSetTheorems.v
PoolTheorems.v
MallocCheck.v
MallocTheorems.v
