(* ===== verification/Prelude.v ===== *)
(** * Verification of Memlog, a Valgrind tool that logs memory stores

    Memlog ([src/valgrind/memlog]) runs a program under Valgrind, tracks the
    blocks it allocates (and regions it names by client requests), and logs
    every allocation, deallocation and store to a tracked block; in its MX mode
    it instead re-encodes what is stored as shared-exponent blocks.  This
    development models the tool and the parts of Valgrind it is built on, as
    executable definitions, and proves what makes them correct.

    ** How the parts interact

    The core calls the tool's replacements of the allocation functions
    ([new_block], [die_block], [ml_realloc], ... in [Tool]); they keep [Block]
    records in a red-black tree keyed by start address ([BlockTrack] on
    [RbTree]) and put entries in the log buffer ([LogBuffer]), which is printed
    by the core's printf ([Printf]).  For every superblock the core calls
    [ml_instrument] ([Instrument]), which adds calls of [log_store] before, or
    of [mx_after_store] after, the stores; these helpers look the address up in
    the tree and log the store or re-encode the touched blocks ([Mx]).  Options
    are read by [Options] on the string functions of [LibcStr]; memory is
    copied and cleared by [LibcMem].  The client's own memory and string
    functions are replaced by those of [ReplaceStr], which are instrumented
    like the rest of the client.  Below the tool, the core's own data
    structures are modelled on the same footing: the stack traces attached to
    log entries are unique records in a hash table ([ExeContext]), tools keep
    their objects in generic hash tables ([HashTable]), ranges of addresses
    are mapped by [RangeMap] on the arrays of [XArray], sorted collections are
    kept in the balanced trees of [OSet], and names are matched
    against wildcards by [SeqMatch]; all of them, and the client's program
    under a tool that replaces malloc, take their memory from the core's heap
    ([Malloc]).

    ** The model

    Stateful code is a computation of type [M S A] (below): a function of the
    state that returns a value and a new state, or [None] where the C code has
    no defined behaviour (a null or dangling pointer, an access out of bounds,
    a failed assertion, a division of the run by a panic) or a loop has
    exhausted its fuel.  [wp m s Q] says that [m] runs to its end from [s] with
    [Q]: every theorem stated with it, or with an equation [m s = Some _],
    includes termination and the absence of undefined behaviour.  Machine
    integers are values of [Z], with their wrap-around written out ([u64],
    [Printf.u32], [Adler.uint]); guest memory is a byte at every address
    ([Mem]); pointers to the tool's own records are locations in finite maps;
    C strings are lists of characters without their terminating null, except
    where a function works on memory.

    ** Files

    - [Prelude], [Mem]: the monad and its total-correctness predicate, 64-bit
      words, lists; guest memory and little-endian words.
    - [LibcMem], [LibcMemProofs]: [memcpy], [memmove], [memset], [memcmp] and
      the string copies of [coregrind/m_libcbase.c].
    - [ReplaceStr]: the memory and string functions the client runs instead of
      its C library's, [shared/vg_replace_strmem.c], with the list functions
      they are compared with.
    - [LibcSort], [LibcSortProofs]: its quicksort; [Adler]: its checksum and
      logarithms; [LibcStr], [LibcStrProofs]: its string functions.
    - [XArray], [XArrayProofs]: the extensible arrays of
      [coregrind/m_xarray.c], on byte memory with an [Allocator].
    - [XArrayOf]: the interface of an extensible array of elements of one type
      ([XArrayOf], its laws [XArrayOfLaws]); arrays as lists and the arrays of
      [XArray] on byte memory, with elements encoded in bytes, are instances.
    - [PoolAlloc]: the pool allocator of [coregrind/m_poolalloc.c] on byte
      memory.  [PoolAllocProofs] has its invariant, the operations, creation
      and deletion, [PoolNodes] its use as the node pool of an ordered set.
    - [RangeMap]: [coregrind/m_rangemap.c] on that interface, with the
      function on words that a list of ranges denotes.
    - [SeqMatch]: the wildcard matcher of [coregrind/m_seqmatch.c] and the
      language of a pattern.
    - [Chains]: linked chains in a store and tables of chains, shared by
      [HashTable], [HashTableProofs] ([coregrind/m_hashtable.c]) and
      [ExeContext], [ExeContextProofs] ([coregrind/m_execontext.c]).
    - [OSet]: the ordered sets of [coregrind/m_oset.c] on a store of AVL nodes,
      over an interface of elements ([OSetElem]) and of a node pool
      ([NodePool]).  [AvlProofs] has the same operations on trees and shows
      that they keep the trees ordered and balanced, [OSetShape] and [OSetOps]
      that the store follows them; [OSetProofs] has the invariant [set_ok] and
      the operations, [OSetIter] the iterator, allocation and destruction,
      [OSetRuns] the number of elements of a high tree and runs of
      operations.
    - [RbTree]: [memlog/rbtree.c] on a store of nodes with parent pointers.
      [RbInv] relates a store to a tree ([Rep]) and has the red-black
      invariant, [RbInsert], [RbSearch] and [RbDelete] prove the operations.
    - [BlockTrack]: the block index of [memlog/ml_main.c]; [BlockIndex]: its
      invariant [bt_inv], which relates it to a finite map from addresses to
      blocks.
    - [Printf], [PrintfProofs]: the printf of [coregrind/m_debuglog.c].
    - [LogBuffer]: the log buffer, with the abstract state [logged]: the list
      of events so far.
    - [Mx]: the MX emulation; [MxFloat] (fields of IEEE patterns), [MxQuant]
      (rounding), [MxBlock] and [MxStore] (blocks in memory) relate it to a
      reference encoding on lists of elements.
    - [Options]: the command line.
    - [Tool]: the handlers, on all of the above and a [ClientHeap] interface
      (its laws are [ClientHeapLaws]; [Heap] has a concrete instance).
      [ToolProofs] has the tool's invariant, [ToolTrace] runs of the tool,
      well-formed logs and that no operation fails, [ToolHeap] the refinement
      of an abstract heap and the file of MX sites.
    - [Instrument], [InstrumentProofs]: the passes over superblocks and a
      simulation between an instrumented superblock and the original.
    - [Malloc]: the core's heap, [coregrind/m_mallocfree.c], on byte memory
      and an interface of the address-space manager ([AddressSpace], its laws
      [AddressSpaceLaws]): arenas, superblocks, free lists, allocation and
      release; [MallocApi]: the services on top of them, the sanity check and
      the description of addresses.  [MallocBlocks] has the layout of a block
      in memory, [MallocLists] the circular free lists, [MallocInv] the
      invariant of an arena ([arena_inv]), [MallocSb] the superblocks,
      [MallocInit] the heap of all arenas ([heap_ok]) and its initialisation,
      [MallocAlloc], [MallocRequest] and [MallocDone] allocation,
      [MallocFree] release, [MallocClient] the blocks of the heap's users
      ([held_by]) and the cleared and reallocated ones, [MallocAligned]
      aligned blocks, [MallocShrink] shrunk ones and [MallocPerm] permanent
      ones, [MallocUse] runs of a user, [MallocCheck] the sanity check and
      descriptions.
    - [RbTheorems], [ToolTheorems], [MxTheorems], [LibcTheorems],
      [XArrayTheorems], [InstrumentTheorems], [HashTheorems], [OSetTheorems],
      [PoolTheorems], [MallocTheorems]: the properties, each with a concrete
      instance; [LibcTheorems] also has those of [SeqMatch], [XArrayTheorems]
      those of [RangeMap], [HashTheorems] those of [ExeContext].

    ** What the theorems show

    - The log: the log of every run is self-consistent and accounts for the
      blocks tracked at the end; without tracking requests the tracked blocks
      are exactly the client's live allocations of at least the minimum size,
      and exactly the stores into them are logged.
    - The handlers: each is characterised on all its branches, and none fails
      for a client that frees only what it allocated.
    - The tree: insertion and deletion keep a red-black search tree with the
      expected entries; search finds the predecessor within a logarithmic
      number of steps.
    - MX: an element is rounded to the nearest multiple of its quantum, blocks
      are re-encoded in place and idempotently, and only near the store.
    - Instrumentation: executing an instrumented superblock is executing the
      original with the logging (or re-encoding) of its stores.
    - The library functions agree with their reference definitions, and so do
      the client's: memory is copied as if all at once whatever the overlap and
      the alignment, strings are copied and appended without writing behind
      what was asked for, searches and comparisons are those of lists.
    - The core's data structures: the hash table is a finite map through every
      resize, its iterator visits each element once and survives removal, and
      destruction frees each node once after it was last read; equal stack
      traces have one execution context and archiving an epoch touches exactly
      the contexts in the archived code; an ordered set is the sorted
      collection of its elements, balanced, and gives all its nodes back when
      it is destroyed, and its iterator works up to an exact size; a pool
      allocator supplies separate objects and gives each of its blocks back
      once; a range map denotes the function its
      bindings define; the matchers decide the language of a pattern.
    - The core's heap: whatever its users allocate, write, reallocate, shrink
      and free, and whatever permanent blocks they take, all blocks are apart
      and keep their bytes, the heap's own checks succeed, its statistics are exact, and addresses are attributed to the
      right block; no operation fails as long as the address space lasts.

    ** Fuel

    The loops of [RbTree] and [BlockTrack] have the number of nodes plus two
    as fuel, those over strings and arrays their length, those of [Printf] the
    length of the format and 65 digits; those that follow a chain of nodes
    ([HashTable], [ExeContext]) the number of nodes plus one, and those over
    ranges the number of ranges; those that walk down an AVL tree ([OSet]) the
    number of nodes plus one, twice that for a removal, which walks down again
    for the node that takes the root's place, and three times that for the
    iterator, which pops each node up to three times; [generic_match_correct]
    states how much fuel the matcher needs.  The functions of [ReplaceStr] that
    run to a NUL return for any fuel greater than the length of the strings
    they walk over.  In the core's heap the search of a free list and the walk
    over a superblock have a 32nd of the bytes in superblocks plus one, since
    no block is smaller, the binary search for a superblock their number plus
    two, and the table of list classes 9891 steps, the number of sizes below
    the last class.  The theorems show that it suffices.

    ** Not modelled

    System calls and I/O, the core's scheduler and translation cache, the VEX
    translators and back ends, debug information, floating-point printing and
    parsing ([%f], [strtod]), the text of usage messages and statistics, and
    the offline scripts.  Of the client's functions the reports of overlapping
    copies, which do nothing in this tool, the variants for Solaris and the
    wrappers of [putenv] and [setenv], which only check that their arguments
    are defined, are left out.  Of the core's heap the analysis of a heap
    profile, the messages when memory runs out and the requests to an outer
    Valgrind are left out.  The core's deduplicating pools are not modelled.  What the core
    says of a thread (its recorded stack trace, the names of its frames), the
    text of a stack trace and the statements of a superblock that the passes
    only copy are parameters. *)
From stdpp Require Import base gmap list fin_maps.
From Stdlib Require Import ZArith Lia.

(** * A state monad with failure *)

(** A computation that reads and writes a state [S] and either returns a
    value with the new state, or has no defined behaviour ([None]: a null or
    dangling pointer is dereferenced, or a loop is cut off by its fuel). *)
Definition M (S A : Type) : Type := S -> option (A * S).

Definition ret {S A} (a : A) : M S A := fun s => Some (a, s).
Definition bind {S A B} (m : M S A) (k : A -> M S B) : M S B :=
  fun s => match m s with Some (a, s') => k a s' | None => None end.
Definition fail {S A} : M S A := fun _ => None.
Definition gets {S A} (f : S -> A) : M S A := fun s => Some (f s, s).
Definition modify {S} (f : S -> S) : M S unit := fun s => Some (tt, f s).

Declare Scope prog_scope.
Delimit Scope prog_scope with prog.
Notation "x <- m ;; k" := (bind m (fun x => k))
  (at level 100, m at next level, right associativity) : prog_scope.
Notation "m ;;; k" := (bind m (fun _ => k))
  (at level 100, right associativity) : prog_scope.

(** Total correctness: [m] started in [s] runs to the end, and its result
    and final state satisfy [Q]. *)
Definition wp {S A} (m : M S A) (s : S) (Q : A -> S -> Prop) : Prop :=
  match m s with Some (a, s') => Q a s' | None => False end.

Section Wp.
Context {S : Type}.

Lemma wp_ret {A} (a : A) (s : S) Q : Q a s -> wp (ret a) s Q.
Proof. done. Qed.

Lemma wp_bind {A B} (m : M S A) (k : A -> M S B) s Q :
  wp m s (fun a s' => wp (k a) s' Q) -> wp (bind m k) s Q.
Proof. unfold wp, bind. destruct (m s) as [[a s']|]; done. Qed.

Lemma wp_mono {A} (m : M S A) s (Q Q' : A -> S -> Prop) :
  wp m s Q -> (forall a s', Q a s' -> Q' a s') -> wp m s Q'.
Proof. unfold wp. destruct (m s) as [[a s']|]; auto. Qed.

Lemma wp_gets {A} (f : S -> A) s Q : Q (f s) s -> wp (gets f) s Q.
Proof. done. Qed.

Lemma wp_modify (f : S -> S) s Q : Q tt (f s) -> wp (modify f) s Q.
Proof. done. Qed.

Lemma wp_ext {A} (m m' : M S A) s Q : m s = m' s -> wp m' s Q -> wp m s Q.
Proof. unfold wp. by intros ->. Qed.

Lemma wp_run {A} (m : M S A) s Q :
  wp m s Q -> exists a s', m s = Some (a, s') /\ Q a s'.
Proof. unfold wp. destruct (m s) as [[a s']|]; [eauto | done]. Qed.

(** A goal about the result of [m] is proved for every result [m] may have. *)
Lemma wp_elim {A} (m : M S A) s (G : Prop) : wp m s (fun a s' => m s = Some (a, s') -> G) -> G.
Proof. unfold wp. destruct (m s) as [[a s']|]; [auto | done]. Qed.
End Wp.

(** Running a computation on a part of the state *)
Definition zoom {S T A} (get : S -> T) (set : T -> S -> S) (m : M T A) : M S A :=
  fun s => match m (get s) with Some (a, t) => Some (a, set t s) | None => None end.

Lemma wp_zoom {S T A} (get : S -> T) (set : T -> S -> S) (m : M T A) s Q :
  wp m (get s) (fun a t => Q a (set t s)) -> wp (zoom get set m) s Q.
Proof. unfold wp, zoom. by destruct (m (get s)) as [[a t]|]. Qed.

(** * Machine integers *)

(** The value of an unsigned 64-bit expression: [UWord], [SizeT], [Addr],
    [ULong] *)
Definition u64 (x : Z) : Z := x mod 2 ^ 64.

Lemma u64_small x : (0 <= x < 2 ^ 64)%Z -> u64 x = x.
Proof. apply Z.mod_small. Qed.

Lemma u64_range x : (0 <= u64 x < 2 ^ 64)%Z.
Proof. by apply Z.mod_pos_bound. Qed.

(** * Lists *)

Lemma NoDup_sub {A} (l k : list A) : NoDup k -> l ⊆+ k -> NoDup l.
Proof.
  intros Hk [k' E]%submseteq_Permutation. rewrite E in Hk. by apply NoDup_app in Hk as [? _].
Qed.
