(* ===== verification/Mem.v ===== *)
(** Memory as the tool reads and writes it: a byte at every address, and
    little-endian words. *)
From stdpp Require Import base list.
From Stdlib Require Import ZArith Lia.
From S2P Require Import Prelude.
Open Scope Z_scope.

(** Guest memory, a byte at every address *)
Definition gmem : Type := Z -> Z.

Definition upd (m : gmem) (a b : Z) : gmem := fun x => if x =? a then b else m x.

(** [n] bytes from address [a], little-endian *)
Fixpoint load_le (n : nat) (m : gmem) (a : Z) : Z :=
  match n with
  | O => 0
  | S n => Z.lor (m a) (Z.shiftl (load_le n m (a + 1)) 8)
  end.

Fixpoint store_le (n : nat) (m : gmem) (a v : Z) : gmem :=
  match n with
  | O => m
  | S n => store_le n (upd m a (v mod 256)) (a + 1) (Z.shiftr v 8)
  end.

Lemma lor_add_pow2 a c n : 0 <= n -> 0 <= a < 2 ^ n -> Z.lor (c * 2 ^ n) a = c * 2 ^ n + a.
Proof.
  intros Hn Ha. rewrite <- Z.add_lor_land.
  assert (Z.land (c * 2 ^ n) a = 0) as ->; [|lia].
  apply Z.bits_inj'. intros i Hi. rewrite Z.land_spec, Z.bits_0.
  destruct (Z.ltb_spec i n).
  - by rewrite Z.mul_pow2_bits_low.
  - destruct (decide (a = 0)) as [->|]; [by rewrite Z.bits_0, andb_false_r|].
    rewrite (Z.bits_above_log2 a i), andb_false_r; [done|lia|].
    apply Z.log2_lt_pow2; [lia|].
    eapply Z.lt_le_trans; [apply Ha|]. apply Z.pow_le_mono_r; lia.
Qed.

(** ** Little-endian words *)

Definition bytes_ok (m : gmem) : Prop := forall a, 0 <= m a < 256.

Lemma upd_ok m a b : bytes_ok m -> 0 <= b < 256 -> bytes_ok (upd m a b).
Proof. intros Hm Hb x. unfold upd. by destruct (x =? a). Qed.

(** The bytes from [a] to [a + n] are the only ones that differ. *)
Definition same_outside (a n : Z) (m m' : gmem) : Prop :=
  forall x, x < a \/ a + n <= x -> m' x = m x.

Lemma store_le_outside n : forall m a v, same_outside a (Z.of_nat n) m (store_le n m a v).
Proof.
  induction n as [|n IH]; intros m a v x Hx; [done|]. cbn [store_le].
  rewrite IH by lia. unfold upd. destruct (Z.eqb_spec x a); [lia|done].
Qed.

Lemma store_le_ok n : forall m a v, bytes_ok m -> bytes_ok (store_le n m a v).
Proof.
  induction n as [|n IH]; intros m a v Hm; [done|]. cbn.
  apply IH, upd_ok; [done|]. by apply Z.mod_pos_bound.
Qed.

(** The loaded word as a sum of bytes *)
Lemma load_le_cons n m a : bytes_ok m ->
  0 <= load_le n m a < 2 ^ (8 * Z.of_nat n) /\
  load_le (S n) m a = m a + 256 * load_le n m (a + 1).
Proof.
  intros Hm. revert a. induction n as [|n IH]; intros a.
  { cbn. split; [lia|]. by rewrite Z.lor_0_r, Z.add_0_r. }
  destruct (IH a) as [_ E]. destruct (IH (a + 1)) as [Hr E1]. pose proof (Hm a) as Ha.
  split.
  - rewrite E. replace (8 * Z.of_nat (S n)) with (8 * Z.of_nat n + 8) by lia.
    rewrite Z.pow_add_r by lia. change (2 ^ 8) with 256. lia.
  - cbn [load_le] in *. rewrite Z.shiftl_mul_pow2, Z.lor_comm by lia.
    rewrite lor_add_pow2 by lia. lia.
Qed.

Lemma load_le_range n m a : bytes_ok m -> 0 <= load_le n m a < 2 ^ (8 * Z.of_nat n).
Proof. intros Hm. by apply load_le_cons. Qed.

Lemma load_le_ext n : forall m m' a,
  (forall x, a <= x < a + Z.of_nat n -> m x = m' x) -> load_le n m a = load_le n m' a.
Proof.
  induction n as [|n IH]; intros m m' a H; [done|]. cbn. rewrite H by lia.
  by rewrite (IH m m') by (intros; apply H; lia).
Qed.

Lemma load_store_same n : forall m a v, bytes_ok m ->
  0 <= v < 2 ^ (8 * Z.of_nat n) -> load_le n (store_le n m a v) a = v.
Proof.
  induction n as [|n IH]; intros m a v Hm Hv; [cbn in *; lia|].
  destruct (load_le_cons n (store_le (S n) m a v) a (store_le_ok _ _ _ _ Hm)) as [_ ->].
  cbn [store_le]. replace (8 * Z.of_nat (S n)) with (8 * Z.of_nat n + 8) in Hv by lia.
  rewrite Z.pow_add_r in Hv by lia. change (2 ^ 8) with 256 in Hv.
  rewrite (IH _ (a + 1)).
  - rewrite store_le_outside by lia. unfold upd. rewrite Z.eqb_refl, Z.shiftr_div_pow2 by lia.
    change (2 ^ 8) with 256. pose proof (Z.div_mod v 256). lia.
  - apply upd_ok; [done|]. by apply Z.mod_pos_bound.
  - rewrite Z.shiftr_div_pow2 by lia. change (2 ^ 8) with 256. split; [apply Z.div_pos; lia|].
    apply Z.div_lt_upper_bound; lia.
Qed.
