(* ===== verification/LibcMem.v ===== *)
(** Memory functions of [coregrind/m_libcbase.c]: [memcpy] with its word
    loops, [memmove], [memset], [memcmp], and the string functions that
    write.  A loop that counts a size down has the size as its fuel; a loop
    that runs to a NUL has an explicit fuel. *)
From stdpp Require Import base list.
From Stdlib Require Import ZArith Lia.
From S2P Require Import Prelude Mem.
Open Scope Z_scope.

(** ** [memcpy] *)

Definition VG_IS_4_ALIGNED (a : Z) : bool := 0 =? Z.land a 3.

(** [dI[0] = sI[0]], on [UInt] pointers *)
Definition copy_word (m : gmem) (d s : Z) : gmem := store_le 4 m d (load_le 4 m s).

(** [d[0] = s[0]], on [UChar] pointers *)
Definition copy_byte (m : gmem) (d s : Z) : gmem := upd m d (m s).

(** Memory, the two pointers and the size left *)
Record copying := mk_cp { c_mem : gmem; c_d : Z; c_s : Z; c_sz : Z }.

Fixpoint copy_words16 (fuel : nat) (c : copying) : copying :=
  match fuel with
  | O => c
  | S fuel =>
      if 16 <=? c_sz c then
        let m := copy_word (c_mem c) (c_d c) (c_s c) in
        let m := copy_word m (c_d c + 4) (c_s c + 4) in
        let m := copy_word m (c_d c + 8) (c_s c + 8) in
        let m := copy_word m (c_d c + 12) (c_s c + 12) in
        copy_words16 fuel (mk_cp m (c_d c + 16) (c_s c + 16) (c_sz c - 16))
      else c
  end.

Fixpoint copy_words4 (fuel : nat) (c : copying) : copying :=
  match fuel with
  | O => c
  | S fuel =>
      if 4 <=? c_sz c then
        copy_words4 fuel (mk_cp (copy_word (c_mem c) (c_d c) (c_s c))
                            (c_d c + 4) (c_s c + 4) (c_sz c - 4))
      else c
  end.

Fixpoint copy_bytes4 (fuel : nat) (c : copying) : copying :=
  match fuel with
  | O => c
  | S fuel =>
      if 4 <=? c_sz c then
        let m := copy_byte (c_mem c) (c_d c) (c_s c) in
        let m := copy_byte m (c_d c + 1) (c_s c + 1) in
        let m := copy_byte m (c_d c + 2) (c_s c + 2) in
        let m := copy_byte m (c_d c + 3) (c_s c + 3) in
        copy_bytes4 fuel (mk_cp m (c_d c + 4) (c_s c + 4) (c_sz c - 4))
      else c
  end.

Fixpoint copy_bytes1 (fuel : nat) (c : copying) : copying :=
  match fuel with
  | O => c
  | S fuel =>
      if 1 <=? c_sz c then
        copy_bytes1 fuel (mk_cp (copy_byte (c_mem c) (c_d c) (c_s c))
                            (c_d c + 1) (c_s c + 1) (c_sz c - 1))
      else c
  end.

Definition copy_tail (c : copying) : gmem :=
  let fuel := Z.to_nat (c_sz c) in
  c_mem (copy_bytes1 fuel (copy_bytes4 fuel c)).

Definition memcpy (m : gmem) (dest src sz : Z) : gmem :=
  let fuel := Z.to_nat sz in
  let c := mk_cp m dest src sz in
  if VG_IS_4_ALIGNED dest && VG_IS_4_ALIGNED src then
    let c := copy_words16 fuel c in
    if c_sz c =? 0 then c_mem c else
    let c := copy_words4 fuel c in
    if c_sz c =? 0 then c_mem c else copy_tail c
  else copy_tail c.

(** ** [memmove] *)

Fixpoint move_up (n : nat) (m : gmem) (dest src i : Z) : gmem :=
  match n with
  | O => m
  | S n => move_up n (copy_byte m (dest + i) (src + i)) dest src (i + 1)
  end.

Fixpoint move_down (n : nat) (m : gmem) (dest src sz i : Z) : gmem :=
  match n with
  | O => m
  | S n => move_down n (copy_byte m (dest + (sz - i - 1)) (src + (sz - i - 1))) dest src sz (i + 1)
  end.

Definition memmove (m : gmem) (dest src sz : Z) : gmem :=
  if sz =? 0 then m
  else if dest <? src then move_up (Z.to_nat sz) m dest src 0
  else if src <? dest then move_down (Z.to_nat sz) m dest src sz 0
  else m.

(** ** [memset] *)

Record filling := mk_fill { f_mem : gmem; f_d : Z; f_sz : Z }.

Fixpoint fill_align (fuel : nat) (uc : Z) (c : filling) : filling :=
  match fuel with
  | O => c
  | S fuel =>
      if negb (VG_IS_4_ALIGNED (f_d c)) && (1 <=? f_sz c) then
        fill_align fuel uc (mk_fill (upd (f_mem c) (f_d c) uc) (f_d c + 1) (f_sz c - 1))
      else c
  end.

Fixpoint fill_words16 (fuel : nat) (c4 : Z) (c : filling) : filling :=
  match fuel with
  | O => c
  | S fuel =>
      if 16 <=? f_sz c then
        let m := store_le 4 (f_mem c) (f_d c) c4 in
        let m := store_le 4 m (f_d c + 4) c4 in
        let m := store_le 4 m (f_d c + 8) c4 in
        let m := store_le 4 m (f_d c + 12) c4 in
        fill_words16 fuel c4 (mk_fill m (f_d c + 16) (f_sz c - 16))
      else c
  end.

Fixpoint fill_words4 (fuel : nat) (c4 : Z) (c : filling) : filling :=
  match fuel with
  | O => c
  | S fuel =>
      if 4 <=? f_sz c then
        fill_words4 fuel c4 (mk_fill (store_le 4 (f_mem c) (f_d c) c4) (f_d c + 4) (f_sz c - 4))
      else c
  end.

Fixpoint fill_bytes (fuel : nat) (uc : Z) (c : filling) : filling :=
  match fuel with
  | O => c
  | S fuel =>
      if 1 <=? f_sz c then
        fill_bytes fuel uc (mk_fill (upd (f_mem c) (f_d c) uc) (f_d c + 1) (f_sz c - 1))
      else c
  end.

Definition memset (m : gmem) (destV c sz : Z) : gmem :=
  let uc := c mod 256 in
  let fuel := Z.to_nat sz in
  let f := fill_align fuel uc (mk_fill m destV sz) in
  if f_sz f =? 0 then f_mem f else
  let c4 := Z.lor uc (Z.shiftl uc 8 mod 2 ^ 32) in
  let c4 := Z.lor c4 (Z.shiftl c4 16 mod 2 ^ 32) in
  let f := fill_words16 fuel c4 f in
  let f := fill_words4 fuel c4 f in
  f_mem (fill_bytes fuel (c mod 256) f).

(** ** [memcmp] *)

Fixpoint memcmp (m : gmem) (p1 p2 : Z) (n : nat) : Z :=
  match n with
  | O => 0
  | S n =>
      let res := m p1 - m p2 in
      if negb (res =? 0) then res else memcmp m (p1 + 1) (p2 + 1) n
  end.

(** ** String functions that write *)

(** [while ( *dest) dest++;] *)
Fixpoint find_nul (fuel : nat) (m : gmem) (p : Z) : option Z :=
  match fuel with
  | O => None
  | S fuel => if m p =? 0 then Some p else find_nul fuel m (p + 1)
  end.

(** [while ( *src) *dest++ = *src++; *dest = 0;] *)
Fixpoint strcpy_loop (fuel : nat) (m : gmem) (dest src : Z) : option gmem :=
  match fuel with
  | O => None
  | S fuel =>
      if m src =? 0 then Some (upd m dest 0)
      else strcpy_loop fuel (upd m dest (m src)) (dest + 1) (src + 1)
  end.

Definition strcpy (fuel : nat) (m : gmem) (dest src : Z) : option gmem :=
  strcpy_loop fuel m dest src.

Definition strcat (fuel : nat) (m : gmem) (dest src : Z) : option gmem :=
  match find_nul fuel m dest with
  | None => None
  | Some dest => strcpy_loop fuel m dest src
  end.

Fixpoint strncat_loop (n : nat) (m : gmem) (dest src : Z) : gmem :=
  match n with
  | O => upd m dest 0
  | S n =>
      if m src =? 0 then upd m dest 0
      else strncat_loop n (upd m dest (m src)) (dest + 1) (src + 1)
  end.

Definition strncat (fuel : nat) (m : gmem) (dest src n : Z) : option gmem :=
  match find_nul fuel m dest with
  | None => None
  | Some dest => Some (strncat_loop (Z.to_nat n) m dest src)
  end.

Fixpoint pad_nul (n : nat) (m : gmem) (p : Z) : gmem :=
  match n with O => m | S n => pad_nul n (upd m p 0) (p + 1) end.

(** [rest] is [ndest - i]. *)
Fixpoint strncpy_loop (rest : nat) (m : gmem) (dest src i : Z) : gmem :=
  match rest with
  | O => m
  | S rest =>
      let m' := upd m (dest + i) (m (src + i)) in
      if m' (src + i) =? 0 then pad_nul rest m' (dest + (i + 1))
      else strncpy_loop rest m' dest src (i + 1)
  end.

Definition strncpy (m : gmem) (dest src ndest : Z) : gmem :=
  strncpy_loop (Z.to_nat ndest) m dest src 0.

(** The copying loop of [strlcpy]: memory, the pointers it stops at *)
Fixpoint strlcpy_loop (fuel : nat) (m : gmem) (dst src mm n : Z) : option (gmem * Z * Z) :=
  match fuel with
  | O => None
  | S fuel =>
      if (mm <? u64 (n - 1)) && negb (m src =? 0)
      then strlcpy_loop fuel (upd m dst (m src)) (dst + 1) (src + 1) (mm + 1) n
      else Some (m, dst, src)
  end.

Definition strlcpy (fuel : nat) (m : gmem) (dst src n : Z) : option (gmem * Z) :=
  match strlcpy_loop fuel m dst src 0 n with
  | None => None
  | Some (m, dst, s) =>
      let m := if 0 <? n then upd m dst 0 else m in
      match find_nul fuel m s with
      | None => None
      | Some s => Some (m, s - src)
      end
  end.
