(* ===== verification/LibcMemProofs.v ===== *)
(** The memory functions of [m_libcbase.c] against byte-wise references. *)
From stdpp Require Import base list.
From Stdlib Require Import ZArith Lia.
From S2P Require Import Prelude Mem LibcMem.
Open Scope Z_scope.

(** ** References *)

(** The [k] bytes at [s] copied to [d], all at once *)
Definition copy (m : gmem) (d s k : Z) : gmem :=
  fun x => if (d <=? x) && (x <? d + k) then m (s + (x - d)) else m x.

(** [k] bytes at [d] set to [v] *)
Definition fill (m : gmem) (d v k : Z) : gmem :=
  fun x => if (d <=? x) && (x <? d + k) then v else m x.

Definition mem_eq (m m' : gmem) : Prop := forall x, m x = m' x.

Ltac ztest :=
  repeat match goal with
  | |- context [?a <=? ?b] => destruct (Z.leb_spec a b)
  | |- context [?a <? ?b] => destruct (Z.ltb_spec a b)
  | |- context [?a =? ?b] => destruct (Z.eqb_spec a b)
  end; cbn [andb orb negb].

(** ** Words as bytes *)

Lemma store_load n m : bytes_ok m -> forall m' d s x,
  store_le n m' d (load_le n m s) x =
  if (d <=? x) && (x <? d + Z.of_nat n) then m (s + (x - d)) else m' x.
Proof.
  intros Hm. induction n as [|n IH]; intros m' d s x.
  { cbn. ztest; done || lia. }
  pose proof (load_le_range n m (s + 1) Hm). pose proof (Hm s) as Hs.
  destruct (load_le_cons n m s Hm) as [_ E]. rewrite E. cbn [store_le].
  assert ((m s + 256 * load_le n m (s + 1)) mod 256 = m s) as ->.
  { rewrite (Z.mul_comm 256), Z.mod_add, Z.mod_small by lia. done. }
  assert (Z.shiftr (m s + 256 * load_le n m (s + 1)) 8 = load_le n m (s + 1)) as ->.
  { rewrite Z.shiftr_div_pow2 by lia. change (2 ^ 8) with 256.
    rewrite (Z.mul_comm 256), Z.div_add, Z.div_small by lia. done. }
  rewrite IH. unfold upd. ztest; try lia; try done; f_equal; lia.
Qed.

Lemma copy_word_eq m d s : bytes_ok m -> mem_eq (copy_word m d s) (copy m d s 4).
Proof. intros Hm x. unfold copy_word, copy. by rewrite (store_load 4 m Hm). Qed.

Lemma copy_byte_eq m d s : mem_eq (copy_byte m d s) (copy m d s 1).
Proof. intros x. unfold copy_byte, copy, upd. ztest; try lia; try done; f_equal; lia. Qed.

(** ** [memcpy] *)

Section Copy.
Context (m0 : gmem) (Hm0 : bytes_ok m0) (d0 s0 sz0 : Z).
(** A forward copy is safe when the source does not start inside the part
    of the destination that is written before it is read. *)
Context (Hsafe : d0 <= s0 \/ s0 + sz0 <= d0).

(** [k] bytes are copied. *)
Definition copied (k : Z) (m : gmem) : Prop := mem_eq m (copy m0 d0 s0 k).

Lemma copied_ok k m : copied k m -> bytes_ok m.
Proof using Hm0. intros H x. rewrite H. unfold copy. ztest; apply Hm0. Qed.

Lemma copied_step k j m m' : 0 <= k -> 0 <= j -> k + j <= sz0 -> copied k m ->
  mem_eq m' (copy m (d0 + k) (s0 + k) j) -> copied (k + j) m'.
Proof using Hsafe.
  intros Hk Hj Hs Hc Hm' x. rewrite Hm'. unfold copy at 1 2.
  ztest; try lia; try done; rewrite Hc; unfold copy; ztest; try lia; try done; f_equal; lia.
Qed.

Lemma copied_word k m : 0 <= k -> k + 4 <= sz0 -> copied k m ->
  copied (k + 4) (copy_word m (d0 + k) (s0 + k)).
Proof using Hsafe Hm0.
  intros. eapply copied_step; [done|lia|lia|done|]. apply copy_word_eq. by eapply copied_ok.
Qed.

Lemma copied_byte k m : 0 <= k -> k + 1 <= sz0 -> copied k m ->
  copied (k + 1) (copy_byte m (d0 + k) (s0 + k)).
Proof using Hsafe.
  intros. eapply copied_step; [done|lia|lia|done|]. apply copy_byte_eq.
Qed.

(** The state of every loop *)
Definition at_copy (c : copying) : Prop := exists k, 0 <= k /\ 0 <= c_sz c /\
  k + c_sz c = sz0 /\ c_d c = d0 + k /\ c_s c = s0 + k /\ copied k (c_mem c).

Lemma copy_words16_spec fuel : forall c, at_copy c -> at_copy (copy_words16 fuel c).
Proof using Hsafe Hm0.
  induction fuel as [|fuel IH]; intros c Hc; cbn [copy_words16]; [done|].
  destruct (Z.leb_spec 16 (c_sz c)); [|done]. apply IH.
  destruct Hc as (k & ? & ? & ? & Ed & Es & Hc). exists (k + 16). cbn [c_mem c_d c_s c_sz].
  do 5 (split; [lia|]). rewrite Ed, Es, <- !Z.add_assoc.
  assert (copied (k + 4) (copy_word (c_mem c) (d0 + k) (s0 + k))) as Hw by (apply copied_word; auto; lia).
  apply (copied_word (k + 4)) in Hw; [|lia|lia].
  replace (k + 4 + 4) with (k + 8) in Hw by lia.
  apply (copied_word (k + 8)) in Hw; [|lia|lia].
  replace (k + 8 + 4) with (k + 12) in Hw by lia.
  apply (copied_word (k + 12)) in Hw; [|lia|lia].
  by replace (k + 12 + 4) with (k + 16) in Hw by lia.
Qed.

Lemma copy_words4_spec fuel : forall c, at_copy c -> at_copy (copy_words4 fuel c).
Proof using Hsafe Hm0.
  induction fuel as [|fuel IH]; intros c Hc; cbn [copy_words4]; [done|].
  destruct (Z.leb_spec 4 (c_sz c)); [|done]. apply IH.
  destruct Hc as (k & ? & ? & ? & Ed & Es & Hc). exists (k + 4). cbn [c_mem c_d c_s c_sz].
  do 5 (split; [lia|]). rewrite Ed, Es. apply copied_word; auto; lia.
Qed.

Lemma copy_bytes4_spec fuel : forall c, at_copy c -> at_copy (copy_bytes4 fuel c).
Proof using Hsafe.
  induction fuel as [|fuel IH]; intros c Hc; cbn [copy_bytes4]; [done|].
  destruct (Z.leb_spec 4 (c_sz c)); [|done]. apply IH.
  destruct Hc as (k & ? & ? & ? & Ed & Es & Hc). exists (k + 4). cbn [c_mem c_d c_s c_sz].
  do 5 (split; [lia|]). rewrite Ed, Es, <- !Z.add_assoc.
  assert (copied (k + 1) (copy_byte (c_mem c) (d0 + k) (s0 + k))) as Hw by (apply copied_byte; auto; lia).
  apply (copied_byte (k + 1)) in Hw; [|lia|lia].
  replace (k + 1 + 1) with (k + 2) in Hw by lia.
  apply (copied_byte (k + 2)) in Hw; [|lia|lia].
  replace (k + 2 + 1) with (k + 3) in Hw by lia.
  apply (copied_byte (k + 3)) in Hw; [|lia|lia].
  by replace (k + 3 + 1) with (k + 4) in Hw by lia.
Qed.

(** The byte loop finishes the copy. *)
Lemma copy_bytes1_spec fuel : forall c, at_copy c -> c_sz c <= Z.of_nat fuel ->
  copied sz0 (c_mem (copy_bytes1 fuel c)).
Proof using Hsafe.
  induction fuel as [|fuel IH]; intros c Hc Hf; cbn [copy_bytes1].
  - destruct Hc as (k & ? & ? & ? & _ & _ & Hc). by replace sz0 with k by lia.
  - destruct Hc as (k & ? & ? & ? & Ed & Es & Hc). destruct (Z.leb_spec 1 (c_sz c)).
    + apply IH; [|cbn; lia]. exists (k + 1). cbn [c_mem c_d c_s c_sz].
      do 5 (split; [lia|]). rewrite Ed, Es. apply copied_byte; auto; lia.
    + by replace sz0 with k by lia.
Qed.

Lemma at_copy_done c : at_copy c -> c_sz c = 0 -> copied sz0 (c_mem c).
Proof using Type. intros (k & ? & ? & ? & _ & _ & Hc) E. by replace sz0 with k by lia. Qed.

Lemma copy_tail_spec c : at_copy c -> copied sz0 (copy_tail c).
Proof using Hsafe Hm0.
  intros Hc. unfold copy_tail. apply copy_bytes1_spec; [by apply copy_bytes4_spec|].
  pose proof (copy_bytes4_spec (Z.to_nat (c_sz c)) c Hc) as (k & ? & ? & ? & _).
  destruct Hc as (k' & ? & ? & ? & _). rewrite Z2Nat.id by lia.
  assert (forall fuel c, c_sz (copy_bytes4 fuel c) <= c_sz c) as Hle; [|apply Hle].
  clear. induction fuel as [|fuel IH]; intros c; cbn; [lia|].
  destruct (4 <=? c_sz c); [|lia]. etrans; [apply IH|]. cbn. lia.
Qed.

Lemma memcpy_copied : 0 <= sz0 -> copied sz0 (memcpy m0 d0 s0 sz0).
Proof using Hsafe Hm0.
  intros Hsz. assert (at_copy (mk_cp m0 d0 s0 sz0)) as H0.
  { exists 0. cbn. do 5 (split; [lia|]). intros x. unfold copy. ztest; done || lia. }
  unfold memcpy. destruct (VG_IS_4_ALIGNED d0 && VG_IS_4_ALIGNED s0); [|by apply copy_tail_spec].
  apply (copy_words16_spec (Z.to_nat sz0)) in H0.
  destruct (Z.eqb_spec (c_sz (copy_words16 (Z.to_nat sz0) (mk_cp m0 d0 s0 sz0))) 0).
  { by apply at_copy_done. }
  apply (copy_words4_spec (Z.to_nat sz0)) in H0.
  destruct (Z.eqb_spec (c_sz (copy_words4 (Z.to_nat sz0)
    (copy_words16 (Z.to_nat sz0) (mk_cp m0 d0 s0 sz0)))) 0); [by apply at_copy_done|].
  by apply copy_tail_spec.
Qed.
End Copy.

(** ** [memmove] *)

Lemma move_up_spec m0 d s n : forall i m, d < s -> 0 <= i ->
  mem_eq m (copy m0 d s i) -> mem_eq (move_up n m d s i) (copy m0 d s (i + Z.of_nat n)).
Proof.
  induction n as [|n IH]; intros i m Hds Hi Hm; cbn [move_up].
  { by rewrite Z.add_0_r. }
  replace (i + Z.of_nat (S n)) with (i + 1 + Z.of_nat n) by lia. apply IH; [done|lia|].
  intros x. unfold copy_byte, upd. rewrite !Hm. unfold copy.
  ztest; try lia; try done; f_equal; lia.
Qed.

Lemma move_down_spec m0 d s sz n : forall i m, s < d -> 0 <= i -> i + Z.of_nat n = sz ->
  mem_eq m (copy m0 (d + (sz - i)) (s + (sz - i)) i) ->
  mem_eq (move_down n m d s sz i) (copy m0 d s sz).
Proof.
  induction n as [|n IH]; intros i m Hds Hi Hn Hm; cbn [move_down].
  { replace (sz - i) with 0 in Hm by lia. rewrite !Z.add_0_r in Hm. by replace sz with i by lia. }
  apply IH; [done|lia|lia|]. intros x. unfold copy_byte, upd. rewrite !Hm. unfold copy.
  ztest; try lia; try done; f_equal; lia.
Qed.

Lemma memmove_copy m d s sz : 0 <= sz -> mem_eq (memmove m d s sz) (copy m d s sz).
Proof.
  intros Hsz. unfold memmove. destruct (Z.eqb_spec sz 0) as [->|].
  { intros x. unfold copy. ztest; done || lia. }
  destruct (Z.ltb_spec d s); [|destruct (Z.ltb_spec s d)].
  - replace sz with (0 + Z.of_nat (Z.to_nat sz)) at 2 by lia. apply move_up_spec; [done|lia|].
    intros x. unfold copy. ztest; done || lia.
  - apply move_down_spec; [done|lia|lia|]. intros x. unfold copy. ztest; done || lia.
  - intros x. unfold copy. ztest; try done; f_equal; lia.
Qed.

(** ** [memset] *)

Lemma store_word_fill m d uc : 0 <= uc < 256 ->
  let c4 := Z.lor uc (Z.shiftl uc 8 mod 2 ^ 32) in
  let c4 := Z.lor c4 (Z.shiftl c4 16 mod 2 ^ 32) in
  mem_eq (store_le 4 m d c4) (fill m d uc 4).
Proof.
  intros Hu. cbv zeta. rewrite !Z.shiftl_mul_pow2 by lia.
  rewrite (Z.mod_small (uc * 2 ^ 8)) by lia. rewrite (Z.lor_comm uc), lor_add_pow2 by lia.
  change (2 ^ 8) with 256. set (c2 := uc * 256 + uc).
  rewrite (Z.mod_small (c2 * 2 ^ 16)) by (unfold c2; lia).
  rewrite (Z.lor_comm c2), lor_add_pow2 by (unfold c2; lia).
  change (2 ^ 16) with 65536. set (c4 := c2 * 65536 + c2).
  intros x. cbn [store_le]. rewrite !Z.shiftr_div_pow2 by lia. change (2 ^ 8) with 256.
  assert (c4 = uc + 256 * (uc + 256 * (uc + 256 * uc))) as -> by (unfold c4, c2; lia).
  assert (forall a, (uc + 256 * a) mod 256 = uc) as Em.
  { intros a. rewrite (Z.mul_comm 256), Z.mod_add, Z.mod_small by lia. done. }
  assert (forall a, (uc + 256 * a) / 256 = a) as Ed.
  { intros a. rewrite (Z.mul_comm 256), Z.div_add, Z.div_small by lia. done. }
  rewrite !Ed, !Em, (Z.mod_small uc) by lia. unfold upd, fill. ztest; done || lia.
Qed.

Section Fill.
Context (m0 : gmem) (d0 uc sz0 : Z) (Huc : 0 <= uc < 256).

Definition filled (k : Z) (m : gmem) : Prop := mem_eq m (fill m0 d0 uc k).

Lemma filled_step k j m m' : 0 <= k -> 0 <= j -> filled k m ->
  mem_eq m' (fill m (d0 + k) uc j) -> filled (k + j) m'.
Proof using Type.
  intros Hk Hj Hc Hm' x. rewrite Hm'. unfold fill at 1 2. rewrite Hc. unfold fill.
  ztest; done || lia.
Qed.

Lemma filled_byte k m : 0 <= k -> filled k m -> filled (k + 1) (upd m (d0 + k) uc).
Proof using Type.
  intros Hk Hm. eapply filled_step; [done|lia|done|]. intros x. unfold upd, fill.
  ztest; done || lia.
Qed.

Definition at_fill (c : filling) : Prop := exists k, 0 <= k /\ 0 <= f_sz c /\
  k + f_sz c = sz0 /\ f_d c = d0 + k /\ filled k (f_mem c).

Lemma fill_align_spec fuel : forall c, at_fill c -> at_fill (fill_align fuel uc c).
Proof using Type.
  induction fuel as [|fuel IH]; intros c Hc; cbn [fill_align]; [done|].
  destruct (VG_IS_4_ALIGNED (f_d c)); cbn [negb andb]; [done|].
  destruct (Z.leb_spec 1 (f_sz c)); [|done]. apply IH.
  destruct Hc as (k & ? & ? & ? & Ed & Hc). exists (k + 1). cbn [f_mem f_d f_sz].
  do 4 (split; [lia|]). rewrite Ed. by apply filled_byte.
Qed.

Lemma fill_bytes_spec fuel : forall c, at_fill c -> f_sz c <= Z.of_nat fuel ->
  filled sz0 (f_mem (fill_bytes fuel uc c)).
Proof using Type.
  induction fuel as [|fuel IH]; intros c Hc Hf; cbn [fill_bytes];
    pose proof Hc as (k & ? & ? & ? & Ed & Hk).
  - by replace sz0 with k by lia.
  - destruct (Z.leb_spec 1 (f_sz c)); [|by replace sz0 with k by lia].
    apply IH; [|cbn; lia]. exists (k + 1). cbn [f_mem f_d f_sz].
    do 4 (split; [lia|]). rewrite Ed. by apply filled_byte.
Qed.

Context (c4 : Z) (Hc4 : forall m d, mem_eq (store_le 4 m d c4) (fill m d uc 4)).

Lemma filled_word k m : 0 <= k -> filled k m -> filled (k + 4) (store_le 4 m (d0 + k) c4).
Proof using Hc4. intros Hk Hm. eapply filled_step; [done|lia|done|apply Hc4]. Qed.

Lemma fill_words16_spec fuel : forall c, at_fill c -> at_fill (fill_words16 fuel c4 c).
Proof using Hc4.
  induction fuel as [|fuel IH]; intros c Hc; cbn [fill_words16]; [done|].
  destruct (Z.leb_spec 16 (f_sz c)); [|done]. apply IH.
  destruct Hc as (k & ? & ? & ? & Ed & Hc). exists (k + 16). cbn [f_mem f_d f_sz].
  do 4 (split; [lia|]). rewrite Ed, <- !Z.add_assoc.
  apply (filled_word k) in Hc; [|lia].
  apply (filled_word (k + 4)) in Hc; [|lia]. replace (k + 4 + 4) with (k + 8) in Hc by lia.
  apply (filled_word (k + 8)) in Hc; [|lia]. replace (k + 8 + 4) with (k + 12) in Hc by lia.
  apply (filled_word (k + 12)) in Hc; [|lia]. by replace (k + 12 + 4) with (k + 16) in Hc by lia.
Qed.

Lemma fill_words4_spec fuel : forall c, at_fill c -> at_fill (fill_words4 fuel c4 c).
Proof using Hc4.
  induction fuel as [|fuel IH]; intros c Hc; cbn [fill_words4]; [done|].
  destruct (Z.leb_spec 4 (f_sz c)); [|done]. apply IH.
  destruct Hc as (k & ? & ? & ? & Ed & Hc). exists (k + 4). cbn [f_mem f_d f_sz].
  do 4 (split; [lia|]). rewrite Ed. by apply filled_word.
Qed.
End Fill.

(** Whatever the alignment and the size, every byte is set. *)
Lemma memset_fill m d c sz : 0 <= sz -> mem_eq (memset m d c sz) (fill m d (c mod 256) sz).
Proof.
  intros Hsz. unfold memset. pose proof (Z.mod_pos_bound c 256 ltac:(lia)) as Huc.
  set (uc := c mod 256) in *. set (fuel := Z.to_nat sz).
  assert (at_fill m d uc sz (mk_fill m d sz)) as H0.
  { exists 0. cbn. do 4 (split; [lia|]). intros x. unfold fill. ztest; done || lia. }
  apply (fill_align_spec m d uc sz fuel) in H0.
  set (f := fill_align fuel uc (mk_fill m d sz)) in *. cbv zeta.
  destruct (Z.eqb_spec (f_sz f) 0) as [E|].
  { destruct H0 as (k & ? & ? & ? & _ & Hk). by replace sz with k by lia. }
  set (c4 := Z.lor (Z.lor uc (Z.shiftl uc 8 mod 2 ^ 32)) _).
  assert (forall m d, mem_eq (store_le 4 m d c4) (fill m d uc 4)) as Hc4
    by (intros; by apply store_word_fill).
  clearbody f c4. apply (fill_words16_spec m d uc sz c4 Hc4 fuel) in H0.
  apply (fill_words4_spec m d uc sz c4 Hc4 fuel) in H0.
  apply (fill_bytes_spec m d uc sz fuel); [done|].
  assert (Z.of_nat fuel = sz) as -> by (unfold fuel; lia).
  destruct H0 as (k & ? & ? & ? & _). lia.
Qed.

(** ** [memcmp] *)

(** The difference at the first byte that differs, zero when none does *)
Lemma memcmp_spec m n : forall p1 p2, let r := memcmp m p1 p2 n in
  (r = 0 <-> forall i, 0 <= i < Z.of_nat n -> m (p1 + i) = m (p2 + i)) /\
  (r <> 0 -> exists i, 0 <= i < Z.of_nat n /\ r = m (p1 + i) - m (p2 + i) /\
     forall j, 0 <= j < i -> m (p1 + j) = m (p2 + j)).
Proof.
  induction n as [|n IH]; intros p1 p2; cbn [memcmp].
  { split; [split; [intros; lia|done]|done]. }
  cbv zeta. destruct (Z.eqb_spec (m p1 - m p2) 0) as [E|E]; cbn [negb].
  - destruct (IH (p1 + 1) (p2 + 1)) as [H1 H2]. split.
    + rewrite H1. split; intros H i Hi.
      * destruct (decide (i = 0)) as [->|]; [rewrite !Z.add_0_r; lia|].
        specialize (H (i - 1) ltac:(lia)). rewrite <- !Z.add_assoc in H.
        by replace (1 + (i - 1)) with i in H by lia.
      * rewrite <- !Z.add_assoc. apply H. lia.
    + intros Hne. destruct (H2 Hne) as (i & Hi & Er & Hj). exists (i + 1).
      rewrite <- !Z.add_assoc, (Z.add_comm 1) in Er. split; [lia|]. split; [done|].
      intros j Hjj. destruct (decide (j = 0)) as [->|]; [rewrite !Z.add_0_r; lia|].
      specialize (Hj (j - 1) ltac:(lia)). rewrite <- !Z.add_assoc in Hj.
      by replace (1 + (j - 1)) with j in Hj by lia.
  - split.
    + split; [done|]. intros H. specialize (H 0 ltac:(lia)). rewrite !Z.add_0_r in H. lia.
    + intros _. exists 0. rewrite !Z.add_0_r. split; [lia|]. split; [done|]. lia.
Qed.

(** ** Strings in memory *)

(** A string of [n] bytes at [p]: none of them NUL, then a NUL *)
Definition cstr (m : gmem) (p n : Z) : Prop :=
  0 <= n /\ (forall i, 0 <= i < n -> m (p + i) <> 0) /\ m (p + n) = 0.

Lemma cstr_tail m p n : cstr m p n -> 0 < n -> cstr m (p + 1) (n - 1).
Proof.
  intros (Hn & Hi & Hz) Hp. split; [lia|]. split.
  - intros i Hb. rewrite <- Z.add_assoc. apply Hi. lia.
  - rewrite <- Z.add_assoc. by replace (1 + (n - 1)) with n by lia.
Qed.

Lemma cstr_head m p n : cstr m p n -> (m p =? 0) = (n =? 0).
Proof.
  intros (Hn & Hi & Hz). destruct (Z.eqb_spec n 0) as [->|].
  - rewrite Z.add_0_r in Hz. by apply Z.eqb_eq.
  - apply Z.eqb_neq. specialize (Hi 0 ltac:(lia)). by rewrite Z.add_0_r in Hi.
Qed.

Lemma cstr_ext m m' p n : cstr m p n -> (forall x, p <= x <= p + n -> m' x = m x) -> cstr m' p n.
Proof.
  intros (Hn & Hi & Hz) He. split; [done|]. split; [|rewrite He by lia; done].
  intros i Hb. rewrite He by lia. by apply Hi.
Qed.

Lemma find_nul_cstr fuel : forall m p n, cstr m p n -> (Z.to_nat n < fuel)%nat ->
  find_nul fuel m p = Some (p + n).
Proof.
  induction fuel as [|fuel IH]; intros m p n Hc Hf; [lia|]. cbn.
  rewrite (cstr_head m p n) by done. destruct (Z.eqb_spec n 0) as [->|]; [by rewrite Z.add_0_r|].
  destruct Hc as [Hn Hc]. rewrite (IH m (p + 1) (n - 1)); [f_equal; lia| |lia].
  apply cstr_tail; [by split|lia].
Qed.

(** [strcpy] copies the string with its NUL. *)
Lemma strcpy_loop_spec fuel : forall m d s n, cstr m s n -> (Z.to_nat n < fuel)%nat ->
  s + n < d \/ d + n < s -> exists m', strcpy_loop fuel m d s = Some m'
    /\ mem_eq m' (copy m d s (n + 1)).
Proof.
  induction fuel as [|fuel IH]; intros m d s n Hc Hf Hd; [lia|]. cbn [strcpy_loop].
  rewrite (cstr_head m s n) by done. pose proof Hc as (Hn & Hi & Hz).
  destruct (Z.eqb_spec n 0) as [->|].
  - eexists. split; [done|]. intros x. unfold upd, copy. rewrite Z.add_0_r in Hz.
    ztest; try lia; try done. rewrite <- Hz. f_equal. lia.
  - destruct (IH (upd m d (m s)) (d + 1) (s + 1) (n - 1)) as (m' & -> & Hm'); [|lia|lia|].
    + apply cstr_ext with (m := m); [apply cstr_tail; [done|lia]|].
      intros x Hx. unfold upd. ztest; [lia|done].
    + eexists. split; [done|]. intros x. rewrite Hm'. unfold copy, upd.
      ztest; try lia; try done; f_equal; lia.
Qed.

(** [strlcpy] with room for at least the NUL copies what fits, ends it with
    a NUL and returns the length of the source. *)
Lemma strlcpy_loop_spec fuel : forall m d s n mm sz, cstr m s n -> (Z.to_nat n < fuel)%nat ->
  0 < sz < 2 ^ 64 -> 0 <= mm < sz -> s + n < d \/ d + (sz - mm) <= s ->
  let k := Z.min n (sz - 1 - mm) in
  exists m', strlcpy_loop fuel m d s mm sz = Some (m', d + k, s + k)
    /\ mem_eq m' (copy m d s k).
Proof.
  induction fuel as [|fuel IH]; intros m d s n mm sz Hc Hf Hsz Hmm Hd k; [lia|].
  cbn [strlcpy_loop]. rewrite (cstr_head m s n) by done. pose proof Hc as (Hn & Hi & Hz).
  rewrite u64_small by lia.
  destruct (Z.ltb_spec mm (sz - 1)), (Z.eqb_spec n 0) as [E|]; cbn [andb negb].
  2: { destruct (IH (upd m d (m s)) (d + 1) (s + 1) (n - 1) (mm + 1) sz) as (m' & -> & Hm');
         [|lia|lia|lia|lia|].
       - apply cstr_ext with (m := m); [apply cstr_tail; [done|lia]|].
         intros x Hx. unfold upd. ztest; [lia|done].
       - eexists. split; [f_equal; f_equal; [f_equal|]; lia|]. intros x. rewrite Hm'.
         unfold copy, upd. ztest; try lia; try done; f_equal; lia. }
  all: eexists; split; [replace k with 0 by lia; by rewrite !Z.add_0_r|];
    intros x; unfold copy; ztest; done || lia.
Qed.

Lemma strlcpy_spec fuel m d s n sz : cstr m s n -> (Z.to_nat n < fuel)%nat ->
  0 < sz < 2 ^ 64 -> s + n < d \/ d + sz <= s ->
  let k := Z.min n (sz - 1) in
  exists m', strlcpy fuel m d s sz = Some (m', n)
    /\ mem_eq m' (upd (copy m d s k) (d + k) 0).
Proof.
  intros Hc Hf Hsz Hd k. pose proof Hc as (Hn & Hi & Hz).
  destruct (strlcpy_loop_spec fuel m d s n 0 sz Hc Hf Hsz) as (m' & E & Hm'); [lia|lia|].
  replace (Z.min n (sz - 1 - 0)) with k in * by lia.
  unfold strlcpy. rewrite E. rewrite (proj2 (Z.ltb_lt 0 sz)) by lia.
  rewrite (find_nul_cstr fuel (upd m' (d + k) 0) (s + k) (n - k)); [| |lia].
  - eexists. split; [do 2 f_equal; lia|]. intros x. unfold upd. destruct (x =? d + k); [done|apply Hm'].
  - apply cstr_ext with (m := m).
    + split; [lia|]. split.
      * intros i Hi'. rewrite <- Z.add_assoc. apply Hi. lia.
      * rewrite <- Z.add_assoc. by replace (k + (n - k)) with n by lia.
    + intros x Hx. unfold upd. ztest; [lia|]. rewrite Hm'. unfold copy. ztest; done || lia.
Qed.
