(* ===== verification/ReplaceStr.v ===== *)
(** The memory and string functions that the client runs under the tool
    instead of its C library's, [shared/vg_replace_strmem.c] (included by
    [memlog/ml_replace_strmem.c]), on byte memory.

    The functions on [char] and on [wchar_t] have the same loops on elements
    of one and of four bytes.  Addresses are pointers, 0 is NULL.  A loop that
    counts a size down has that size as its fuel; a loop that runs to a NUL
    has an explicit fuel.  The macros that report overlaps and copies do
    nothing in this tool and are left out; [tolower] is a parameter. *)
From stdpp Require Import base list sets.
From Stdlib Require Import ZArith Lia.
From S2P Require Import Prelude Mem LibcMem LibcMemProofs.
Open Scope Z_scope.

(** * Elements *)

(** [w] bytes at an address: [*p], [*p = v] and [*d = *s] *)
Definition elt (w : nat) (m : gmem) (a : Z) : Z := load_le w m a.
Definition set_elt (w : nat) (m : gmem) (a v : Z) : gmem := store_le w m a v.
Definition move_elt (w : nat) (m : gmem) (d s : Z) : gmem := store_le w m d (load_le w m s).

(** The size of an element, and the address of the [i]th *)
Definition at_elt (w : nat) (p i : Z) : Z := p + Z.of_nat w * i.

Definition char : nat := 1.
Definition wchar : nat := 4.

(** [(HChar)c] and [(UChar)c] of an [int], as the byte it is compared with *)
Definition as_byte (c : Z) : Z := c mod 2 ^ 8.
(** The four bytes of an [Int] *)
Definition as_word (c : Z) : Z := c mod 2 ^ 32.
(** The [Int] and the [HChar] with these bits *)
Definition as_Int (v : Z) : Z := if v <? 2 ^ 31 then v else v - 2 ^ 32.
Definition as_HChar (v : Z) : Z := if v <? 2 ^ 7 then v else v - 2 ^ 8.

(** * Overlap of [dst .. dst+dstlen-1] and [src .. src+srclen-1] *)

Definition is_overlap (dst src dstlen srclen : Z) : bool :=
  if (dstlen =? 0) || (srclen =? 0) then false
  else
    let loS := src in
    let loD := dst in
    let hiS := u64 (loS + srclen - 1) in
    let hiD := u64 (loD + dstlen - 1) in
    if loS <? loD then negb (hiS <? loD)
    else if loD <? loS then negb (hiD <? loS)
    else true.

(** * Searching *)

Fixpoint STRRCHR_loop (fuel w : nat) (m : gmem) (ch p last : Z) : option Z :=
  match fuel with
  | O => None
  | S fuel =>
      let last := if elt w m p =? ch then p else last in
      if elt w m p =? 0 then Some last
      else STRRCHR_loop fuel w m ch (at_elt w p 1) last
  end.

Definition STRRCHR (fuel : nat) (m : gmem) (s c : Z) : option Z :=
  STRRCHR_loop fuel char m (as_byte c) s 0.
Definition WCSRCHR (fuel : nat) (m : gmem) (s c : Z) : option Z :=
  STRRCHR_loop fuel wchar m (as_word c) s 0.

Fixpoint strchr_loop (fuel w : nat) (m : gmem) (ch p : Z) : option Z :=
  match fuel with
  | O => None
  | S fuel =>
      if elt w m p =? ch then Some p
      else if elt w m p =? 0 then Some 0
      else strchr_loop fuel w m ch (at_elt w p 1)
  end.

Definition STRCHR (fuel : nat) (m : gmem) (s c : Z) : option Z :=
  strchr_loop fuel char m (as_byte c) s.
Definition WCSCHR (fuel : nat) (m : gmem) (s c : Z) : option Z :=
  strchr_loop fuel wchar m (as_word c) s.

Fixpoint strchrnul_loop (fuel : nat) (m : gmem) (c char_ptr : Z) : option Z :=
  match fuel with
  | O => None
  | S fuel =>
      if elt char m char_ptr =? 0 then Some char_ptr
      else if elt char m char_ptr =? c then Some char_ptr
      else strchrnul_loop fuel m c (char_ptr + 1)
  end.

Definition GLIBC232_STRCHRNUL (fuel : nat) (m : gmem) (s c_in : Z) : option Z :=
  strchrnul_loop fuel m (as_byte c_in) s.

Fixpoint rawmemchr_loop (fuel : nat) (m : gmem) (c char_ptr : Z) : option Z :=
  match fuel with
  | O => None
  | S fuel =>
      if elt char m char_ptr =? c then Some char_ptr
      else rawmemchr_loop fuel m c (char_ptr + 1)
  end.

Definition GLIBC232_RAWMEMCHR (fuel : nat) (m : gmem) (s c_in : Z) : option Z :=
  rawmemchr_loop fuel m (as_byte c_in) s.

(** [rest] is [n - i]. *)
Fixpoint memchr_loop (rest w : nat) (m : gmem) (c0 p : Z) : Z :=
  match rest with
  | O => 0
  | S rest =>
      if elt w m p =? c0 then p else memchr_loop rest w m c0 (at_elt w p 1)
  end.

Definition MEMCHR (m : gmem) (s c n : Z) : Z :=
  memchr_loop (Z.to_nat n) char m (as_byte c) s.
Definition WMEMCHR (m : gmem) (s c n : Z) : Z :=
  memchr_loop (Z.to_nat n) wchar m (as_word c) s.

(** [rest] is [n - i], so that [p[n-1-i]] is the element before. *)
Fixpoint memrchr_loop (rest : nat) (m : gmem) (c0 p : Z) : Z :=
  match rest with
  | O => 0
  | S rest =>
      if elt char m (p + Z.of_nat rest) =? c0 then p + Z.of_nat rest
      else memrchr_loop rest m c0 p
  end.

Definition MEMRCHR (m : gmem) (s c n : Z) : Z :=
  memrchr_loop (Z.to_nat n) m (as_byte c) s.

(** * Lengths *)

Fixpoint strlen_loop (fuel w : nat) (m : gmem) (str i : Z) : option Z :=
  match fuel with
  | O => None
  | S fuel =>
      if elt w m (at_elt w str i) =? 0 then Some i
      else strlen_loop fuel w m str (i + 1)
  end.

Definition STRLEN (fuel : nat) (m : gmem) (str : Z) : option Z := strlen_loop fuel char m str 0.
Definition WCSLEN (fuel : nat) (m : gmem) (str : Z) : option Z := strlen_loop fuel wchar m str 0.

(** [rest] is [n - i]. *)
Fixpoint strnlen_loop (rest w : nat) (m : gmem) (str i : Z) : Z :=
  match rest with
  | O => i
  | S rest =>
      if elt w m (at_elt w str i) =? 0 then i else strnlen_loop rest w m str (i + 1)
  end.

Definition STRNLEN (m : gmem) (str n : Z) : Z := strnlen_loop (Z.to_nat n) char m str 0.
Definition WCSNLEN (m : gmem) (s n : Z) : Z := strnlen_loop (Z.to_nat n) wchar m s 0.

(** * Comparing *)

(** The result of three-way comparison at the end of [strcmp] *)
Definition cmp_result (c1 c2 : Z) : Z := if c1 <? c2 then -1 else if c2 <? c1 then 1 else 0.

(** [key] is what a function compares of an element. *)
Fixpoint strcmp_loop (fuel w : nat) (key : Z -> Z) (m : gmem) (s1 s2 : Z) : option Z :=
  match fuel with
  | O => None
  | S fuel =>
      let c1 := key (elt w m s1) in
      let c2 := key (elt w m s2) in
      if negb (c1 =? c2) then Some (cmp_result c1 c2)
      else if c1 =? 0 then Some (cmp_result c1 c2)
      else strcmp_loop fuel w key m (at_elt w s1 1) (at_elt w s2 1)
  end.

(** [rest] is [nmax - n]. *)
Fixpoint strncmp_loop (rest w : nat) (key : Z -> Z) (m : gmem) (s1 s2 : Z) : Z :=
  match rest with
  | O => 0
  | S rest =>
      if (elt w m s1 =? 0) && (elt w m s2 =? 0) then 0
      else if elt w m s1 =? 0 then -1
      else if elt w m s2 =? 0 then 1
      else if key (elt w m s1) <? key (elt w m s2) then -1
      else if key (elt w m s2) <? key (elt w m s1) then 1
      else strncmp_loop rest w key m (at_elt w s1 1) (at_elt w s2 1)
  end.

Definition STRCMP (fuel : nat) (m : gmem) (s1 s2 : Z) : option Z :=
  strcmp_loop fuel char id m s1 s2.
Definition WCSCMP (fuel : nat) (m : gmem) (s1 s2 : Z) : option Z :=
  strcmp_loop fuel wchar as_Int m s1 s2.
Definition STRNCMP (m : gmem) (s1 s2 nmax : Z) : Z :=
  strncmp_loop (Z.to_nat nmax) char id m s1 s2.
Definition WCSNCMP (m : gmem) (s1 s2 nmax : Z) : Z :=
  strncmp_loop (Z.to_nat nmax) wchar as_Int m s1 s2.

Definition STRCASECMP (tolower : Z -> Z) (fuel : nat) (m : gmem) (s1 s2 : Z) : option Z :=
  strcmp_loop fuel char (fun c => as_byte (tolower c)) m s1 s2.
Definition STRNCASECMP (tolower : Z -> Z) (m : gmem) (s1 s2 nmax : Z) : Z :=
  strncmp_loop (Z.to_nat nmax) char tolower m s1 s2.

Definition STRCASECMP_L {Locale} (tolower_l : Z -> Locale -> Z) (fuel : nat) (m : gmem)
    (s1 s2 : Z) (locale : Locale) : option Z :=
  strcmp_loop fuel char (fun c => as_byte (tolower_l c locale)) m s1 s2.
Definition STRNCASECMP_L {Locale} (tolower_l : Z -> Locale -> Z) (m : gmem)
    (s1 s2 nmax : Z) (locale : Locale) : Z :=
  strncmp_loop (Z.to_nat nmax) char (fun c => tolower_l c locale) m s1 s2.

(** The addresses and the size left after the words that are equal *)
Fixpoint memcmp_words (fuel : nat) (m : gmem) (s1A s2A n : Z) : Z * Z * Z :=
  match fuel with
  | O => (s1A, s2A, n)
  | S fuel =>
      if 8 <=? n then
        let w1 := elt 8 m s1A in
        let w2 := elt 8 m s2A in
        if negb (w1 =? w2) then (s1A, s2A, n)
        else memcmp_words fuel m (s1A + 8) (s2A + 8) (n - 8)
      else (s1A, s2A, n)
  end.

Fixpoint memcmp_bytes (n : nat) (m : gmem) (s1 s2 : Z) : Z :=
  match n with
  | O => 0
  | S n =>
      let a0 := elt char m s1 in
      let b0 := elt char m s2 in
      let res := a0 - b0 in
      if negb (res =? 0) then res else memcmp_bytes n m (s1 + 1) (s2 + 1)
  end.

Definition MEMCMP (m : gmem) (s1V s2V n : Z) : Z :=
  let '(s1, s2, n) :=
    if Z.land (Z.lor s1V s2V) 7 =? 0 then memcmp_words (Z.to_nat n) m s1V s2V n
    else (s1V, s2V, n) in
  memcmp_bytes (Z.to_nat n) m s1 s2.

Fixpoint wmemcmp_loop (rest : nat) (m : gmem) (b1 b2 : Z) : Z :=
  match rest with
  | O => 0
  | S rest =>
      let v1 := as_Int (elt wchar m b1) in
      let v2 := as_Int (elt wchar m b2) in
      if negb (v1 =? v2) then if v2 <? v1 then 1 else -1
      else wmemcmp_loop rest m (b1 + 4) (b2 + 4)
  end.

Definition WMEMCMP (m : gmem) (b1 b2 n : Z) : Z := wmemcmp_loop (Z.to_nat n) m b1 b2.

(** * Searching for strings and sets *)

(** [for (i; i < nlen; i++) if (n[i] != h[i]) break;]: the [i] it ends with.
    [rest] is [nlen - i]; [key] is what is compared of a character. *)
Fixpoint match_loop (rest : nat) (key : Z -> Z) (m : gmem) (n h i : Z) : Z :=
  match rest with
  | O => i
  | S rest =>
      if negb (key (elt char m (n + i)) =? key (elt char m (h + i))) then i
      else match_loop rest key m n h (i + 1)
  end.

(** [hkey] is what the test of the first character compares. *)
Fixpoint STRSTR_loop (fuel : nat) (hkey key : Z -> Z) (m : gmem) (n n0 nlen h : Z) : option Z :=
  match fuel with
  | O => None
  | S fuel =>
      let hh := hkey (elt char m h) in
      if hh =? 0 then Some 0
      else if negb (hh =? n0) then STRSTR_loop fuel hkey key m n n0 nlen (h + 1)
      else
        let i := match_loop (Z.to_nat nlen) key m n h 0 in
        if i =? nlen then Some h
        else STRSTR_loop fuel hkey key m n n0 nlen (h + 1)
  end.

Definition STRSTR (fuel : nat) (m : gmem) (haystack needle : Z) : option Z :=
  match strlen_loop fuel char m needle 0 with
  | None => None
  | Some nlen =>
      if nlen =? 0 then Some haystack
      else
        let n0 := elt char m needle in
        STRSTR_loop fuel id id m needle n0 nlen haystack
  end.

(** The characters are not converted to [UChar] before [tolower]. *)
Definition STRCASESTR (tolower : Z -> Z) (fuel : nat) (m : gmem) (haystack needle : Z) : option Z :=
  let key := fun c => tolower (as_HChar c) in
  let hkey := fun c => as_byte (tolower (as_HChar c)) in
  match strlen_loop fuel char m needle 0 with
  | None => None
  | Some nlen =>
      if nlen =? 0 then Some haystack
      else
        let n0 := hkey (elt char m needle) in
        STRSTR_loop fuel hkey key m needle n0 nlen haystack
  end.

Fixpoint memmem_loop (fuel : nat) (m : gmem) (h hlen n nlen n0 : Z) : Z :=
  match fuel with
  | O => 0
  | S fuel =>
      if nlen <=? hlen then
        if negb (elt char m h =? n0) then memmem_loop fuel m (h + 1) (hlen - 1) n nlen n0
        else
          let i := match_loop (Z.to_nat (nlen - 1)) id m n h 1 in
          if i =? nlen then h
          else memmem_loop fuel m (h + 1) (hlen - 1) n nlen n0
      else 0
  end.

Definition MEMMEM (m : gmem) (haystack hlen needle nlen : Z) : Z :=
  if nlen =? 0 then haystack
  else
    let n0 := elt char m needle in
    memmem_loop (Z.to_nat (hlen + 1)) m haystack hlen needle nlen n0.

(** [for (i; i < nacc; i++) if (sc == accept[i]) break;] *)
Fixpoint member_loop (rest : nat) (m : gmem) (accept sc i : Z) : Z :=
  match rest with
  | O => i
  | S rest =>
      if sc =? elt char m (accept + i) then i else member_loop rest m accept sc (i + 1)
  end.

Fixpoint strpbrk_loop (fuel : nat) (m : gmem) (s accept nacc : Z) : option Z :=
  match fuel with
  | O => None
  | S fuel =>
      let sc := elt char m s in
      if sc =? 0 then Some 0
      else if member_loop (Z.to_nat nacc) m accept sc 0 <? nacc then Some s
      else strpbrk_loop fuel m (s + 1) accept nacc
  end.

Definition STRPBRK (fuel : nat) (m : gmem) (sV acceptV : Z) : option Z :=
  match strlen_loop fuel char m acceptV 0 with
  | None => None
  | Some nacc => if nacc =? 0 then Some 0 else strpbrk_loop fuel m sV acceptV nacc
  end.

Fixpoint strcspn_loop (fuel : nat) (m : gmem) (s reject nrej len : Z) : option Z :=
  match fuel with
  | O => None
  | S fuel =>
      let sc := elt char m s in
      if sc =? 0 then Some len
      else if member_loop (Z.to_nat nrej) m reject sc 0 <? nrej then Some len
      else strcspn_loop fuel m (s + 1) reject nrej (len + 1)
  end.

Definition STRCSPN (fuel : nat) (m : gmem) (sV rejectV : Z) : option Z :=
  match strlen_loop fuel char m rejectV 0 with
  | None => None
  | Some nrej => strcspn_loop fuel m sV rejectV nrej 0
  end.

Fixpoint strspn_loop (fuel : nat) (m : gmem) (s accept nacc len : Z) : option Z :=
  match fuel with
  | O => None
  | S fuel =>
      let sc := elt char m s in
      if sc =? 0 then Some len
      else if member_loop (Z.to_nat nacc) m accept sc 0 =? nacc then Some len
      else strspn_loop fuel m (s + 1) accept nacc (len + 1)
  end.

Definition STRSPN (fuel : nat) (m : gmem) (sV acceptV : Z) : option Z :=
  match strlen_loop fuel char m acceptV 0 with
  | None => None
  | Some nacc => if nacc =? 0 then Some 0 else strspn_loop fuel m sV acceptV nacc 0
  end.

(** * Copying memory *)

(** One element up: [*(T* )d = *(T* )s; s += w; d += w; n -= w;] *)
Definition step_up (w : nat) (c : copying) : copying :=
  mk_cp (move_elt w (c_mem c) (c_d c) (c_s c))
    (c_d c + Z.of_nat w) (c_s c + Z.of_nat w) (c_sz c - Z.of_nat w).

(** One element down: [s -= w; d -= w; *(T* )d = *(T* )s; n -= w;] *)
Definition step_down (w : nat) (c : copying) : copying :=
  mk_cp (move_elt w (c_mem c) (c_d c - Z.of_nat w) (c_s c - Z.of_nat w))
    (c_d c - Z.of_nat w) (c_s c - Z.of_nat w) (c_sz c - Z.of_nat w).

(** The loops of one direction *)
Section Direction.
Context (step : nat -> copying -> copying).

(** [while ((s & WM) != 0 && n >= 1)] *)
Fixpoint to_boundary (fuel : nat) (c : copying) : copying :=
  match fuel with
  | O => c
  | S fuel =>
      if negb (Z.land (c_s c) 7 =? 0) && (1 <=? c_sz c) then to_boundary fuel (step 1 c) else c
  end.

(** [while (n >= w * k)], the step for [w] bytes written out [k] times *)
Fixpoint copy_loop (fuel w k : nat) (c : copying) : copying :=
  match fuel with
  | O => c
  | S fuel =>
      if Z.of_nat w * Z.of_nat k <=? c_sz c then copy_loop fuel w k (Nat.iter k (step w) c) else c
  end.

(** By two bytes when both are aligned for it, the rest by bytes *)
Definition copy_leftovers (fuel : nat) (c : copying) : copying :=
  let c := if Z.land (Z.lor (c_s c) (c_d c)) 1 =? 0 then copy_loop fuel 2 1 c else c in
  copy_loop fuel 1 1 c.

(** What both directions do once their pointers are set *)
Definition copy_body (c : copying) : copying :=
  let fuel := Z.to_nat (c_sz c) in
  if Z.land (Z.lxor (c_s c) (c_d c)) 7 =? 0 then
    let c := to_boundary fuel c in
    let c := copy_loop fuel 8 4 c in
    let c := copy_loop fuel 8 1 c in
    if c_sz c =? 0 then c else copy_leftovers fuel c
  else copy_leftovers fuel c.
End Direction.

(** Memory and the value returned *)
Definition MEMMOVE_OR_MEMCPY (m : gmem) (dst src len : Z) : gmem * Z :=
  if 0 <? len then
    if (dst <? src) || negb (is_overlap dst src len len) then
      (c_mem (copy_body step_up (mk_cp m dst src len)), dst)
    else if src <? dst then
      (c_mem (copy_body step_down (mk_cp m (dst + len) (src + len) len)), dst)
    else (m, dst)
  else (m, dst).

Definition MEMMOVE (m : gmem) (dst src len : Z) : gmem * Z := MEMMOVE_OR_MEMCPY m dst src len.
Definition MEMCPY (m : gmem) (dst src len : Z) : gmem * Z := MEMMOVE_OR_MEMCPY m dst src len.

(** [dst[i] = src[i]] and [dst[n-i-1] = src[n-i-1]] are the loops [move_up]
    and [move_down] of [VG_(memmove)]. *)
Definition BCOPY (m : gmem) (srcV dstV n : Z) : gmem :=
  if dstV <? srcV then move_up (Z.to_nat n) m dstV srcV 0
  else if srcV <? dstV then move_down (Z.to_nat n) m dstV srcV n 0
  else m.

(** A function that may report a buffer overflow and end the program *)
Inductive outcome : Type :=
| Returned (m : gmem) (v : Z)
| Terminated (m : gmem).

Definition GLIBC25___MEMMOVE_CHK (m : gmem) (dstV srcV n destlen : Z) : outcome :=
  if destlen <? n then Terminated m
  else if dstV <? srcV then Returned (move_up (Z.to_nat n) m dstV srcV 0) dstV
  else if srcV <? dstV then Returned (move_down (Z.to_nat n) m dstV srcV n 0) dstV
  else Returned m dstV.

(** [while ( len-- ) { *d++ = *s++; }] *)
Fixpoint bytes_up (len : nat) (m : gmem) (d s : Z) : gmem :=
  match len with
  | O => m
  | S len => bytes_up len (copy_byte m d s) (d + 1) (s + 1)
  end.

(** [while ( len-- ) { *d-- = *s--; }] *)
Fixpoint bytes_down (len : nat) (m : gmem) (d s : Z) : gmem :=
  match len with
  | O => m
  | S len => bytes_down len (copy_byte m d s) (d - 1) (s - 1)
  end.

Definition GLIBC25_MEMPCPY (m : gmem) (dst src len : Z) : gmem * Z :=
  if len =? 0 then (m, dst)
  else
    let m :=
      if src <? dst then bytes_down (Z.to_nat len) m (dst + len - 1) (src + len - 1)
      else if dst <? src then bytes_up (Z.to_nat len) m dst src
      else m in
    (m, dst + len).

Definition GLIBC26___MEMCPY_CHK (m : gmem) (dst src len dstlen : Z) : outcome :=
  if dstlen <? len then Terminated m
  else if len =? 0 then Returned m dst
  else if src <? dst then
    Returned (bytes_down (Z.to_nat len) m (dst + len - 1) (src + len - 1)) dst
  else if dst <? src then Returned (bytes_up (Z.to_nat len) m dst src) dst
  else Returned m dst.

(** [rest] is [i] before the test [i-- > 0]. *)
Fixpoint memccpy_loop (rest : nat) (m : gmem) (d s x : Z) : gmem * Z :=
  match rest with
  | O => (m, 0)
  | S rest =>
      let m := move_elt char m d s in
      if elt char m d =? x then (m, d + 1) else memccpy_loop rest m (d + 1) (s + 1) x
  end.

Definition MEMCCPY (m : gmem) (dst src c len : Z) : gmem * Z :=
  memccpy_loop (Z.to_nat len) m dst src (as_byte c).

(** * [memset], with words of eight bytes *)

Definition step_fill (w : nat) (v : Z) (f : filling) : filling :=
  mk_fill (set_elt w (f_mem f) (f_d f) v) (f_d f + Z.of_nat w) (f_sz f - Z.of_nat w).

(** [while ((a & 7) != 0 && n >= 1)] *)
Fixpoint fill_to_boundary (fuel : nat) (v : Z) (f : filling) : filling :=
  match fuel with
  | O => f
  | S fuel =>
      if negb (Z.land (f_d f) 7 =? 0) && (1 <=? f_sz f)
      then fill_to_boundary fuel v (step_fill 1 v f) else f
  end.

Fixpoint fill_loop (fuel w k : nat) (v : Z) (f : filling) : filling :=
  match fuel with
  | O => f
  | S fuel =>
      if Z.of_nat w * Z.of_nat k <=? f_sz f
      then fill_loop fuel w k v (Nat.iter k (step_fill w v) f) else f
  end.

Definition MEMSET (m : gmem) (s c n : Z) : gmem * Z :=
  let c8 := Z.land c 255 in
  let c8 := Z.lor (u64 (Z.shiftl c8 8)) c8 in
  let c8 := Z.lor (u64 (Z.shiftl c8 16)) c8 in
  let c8 := Z.lor (u64 (Z.shiftl c8 32)) c8 in
  let fuel := Z.to_nat n in
  let f := fill_to_boundary fuel (as_byte c) (mk_fill m s n) in
  let f := fill_loop fuel 8 4 c8 f in
  let f := fill_loop fuel 8 1 c8 f in
  let f := fill_loop fuel 1 1 (as_byte c) f in
  (f_mem f, s).

(** * Copying strings *)

(** [while ( *p) p++;] *)
Fixpoint skip_str (fuel : nat) (m : gmem) (p : Z) : option Z :=
  match fuel with
  | O => None
  | S fuel => if elt char m p =? 0 then Some p else skip_str fuel m (p + 1)
  end.

(** [while ( *src) *dst++ = *src++;]: memory and the pointers after it *)
Fixpoint copy_str (fuel w : nat) (mem : gmem) (dst src : Z) : option (gmem * Z * Z) :=
  match fuel with
  | O => None
  | S fuel =>
      if elt w mem src =? 0 then Some (mem, dst, src)
      else copy_str fuel w (move_elt w mem dst src) (at_elt w dst 1) (at_elt w src 1)
  end.

Definition STRCPY (fuel : nat) (mem : gmem) (dst src : Z) : option (gmem * Z) :=
  match copy_str fuel char mem dst src with
  | None => None
  | Some (mem, dst', _) => Some (set_elt char mem dst' 0, dst)
  end.

Definition WCSCPY (fuel : nat) (mem : gmem) (dst src : Z) : option (gmem * Z) :=
  match copy_str fuel wchar mem dst src with
  | None => None
  | Some (mem, dst', _) => Some (set_elt wchar mem dst' 0, dst)
  end.

Definition STPCPY (fuel : nat) (mem : gmem) (dst src : Z) : option (gmem * Z) :=
  match copy_str fuel char mem dst src with
  | None => None
  | Some (mem, dst', _) => Some (set_elt char mem dst' 0, dst')
  end.

Definition STRCAT (fuel : nat) (mem : gmem) (dst src : Z) : option (gmem * Z) :=
  match skip_str fuel mem dst with
  | None => None
  | Some d =>
      match copy_str fuel char mem d src with
      | None => None
      | Some (mem, d, _) => Some (set_elt char mem d 0, dst)
      end
  end.

(** The state of the loops that count what they copy with [m] *)
Record counting_copy : Type := mk_cc { cc_mem : gmem; cc_dst : Z; cc_src : Z; cc_m : Z }.

(** [while (m < n && *src) { m++; *dst++ = *src++; }]; [rest] is [n - m]. *)
Fixpoint copy_upto (rest w : nat) (c : counting_copy) : counting_copy :=
  match rest with
  | O => c
  | S rest =>
      if elt w (cc_mem c) (cc_src c) =? 0 then c
      else copy_upto rest w
        (mk_cc (move_elt w (cc_mem c) (cc_dst c) (cc_src c))
           (at_elt w (cc_dst c) 1) (at_elt w (cc_src c) 1) (cc_m c + 1))
  end.

(** [while (m++ < n) *dst++ = 0;]; [rest] is [n - m]. *)
Fixpoint pad_loop (rest w : nat) (mem : gmem) (dst : Z) : gmem :=
  match rest with
  | O => mem
  | S rest => pad_loop rest w (set_elt w mem dst 0) (at_elt w dst 1)
  end.

Definition STRNCPY (mem : gmem) (dst src n : Z) : gmem * Z :=
  let c := copy_upto (Z.to_nat n) char (mk_cc mem dst src 0) in
  (pad_loop (Z.to_nat (n - cc_m c)) char (cc_mem c) (cc_dst c), dst).

Definition WCSNCPY (mem : gmem) (dst src n : Z) : gmem * Z :=
  let c := copy_upto (Z.to_nat n) wchar (mk_cc mem dst src 0) in
  (pad_loop (Z.to_nat (n - cc_m c)) wchar (cc_mem c) (cc_dst c), dst).

Definition STPNCPY (mem : gmem) (dst src n : Z) : gmem * Z :=
  let c := copy_upto (Z.to_nat n) char (mk_cc mem dst src 0) in
  let dst_str := cc_dst c in
  (pad_loop (Z.to_nat (n - cc_m c)) char (cc_mem c) (cc_dst c), dst_str).

Definition WCPNCPY (mem : gmem) (dst src n : Z) : gmem * Z :=
  let c := copy_upto (Z.to_nat n) wchar (mk_cc mem dst src 0) in
  (pad_loop (Z.to_nat (n - cc_m c)) wchar (cc_mem c) (cc_dst c), dst + (cc_src c - src)).

Definition STRNCAT (fuel : nat) (mem : gmem) (dst src n : Z) : option (gmem * Z) :=
  match skip_str fuel mem dst with
  | None => None
  | Some d =>
      let c := copy_upto (Z.to_nat n) char (mk_cc mem d src 0) in
      Some (set_elt char (cc_mem c) (cc_dst c) 0, dst)
  end.

(** [while (m < n && *dst) { m++; dst++; }]; [rest] is [n - m]. *)
Fixpoint skip_upto (rest : nat) (mem : gmem) (m dst : Z) : Z * Z :=
  match rest with
  | O => (m, dst)
  | S rest =>
      if elt char mem dst =? 0 then (m, dst) else skip_upto rest mem (m + 1) (dst + 1)
  end.

(** [while ( *src) { m++; src++; }] *)
Fixpoint count_str (fuel : nat) (mem : gmem) (m src : Z) : option Z :=
  match fuel with
  | O => None
  | S fuel =>
      if elt char mem src =? 0 then Some m else count_str fuel mem (m + 1) (src + 1)
  end.

Definition STRLCAT (fuel : nat) (mem : gmem) (dst src n : Z) : option (gmem * Z) :=
  let '(m, d) := skip_upto (Z.to_nat n) mem 0 dst in
  let c :=
    if m <? n then
      let c := copy_upto (Z.to_nat (n - 1 - m)) char (mk_cc mem d src m) in
      mk_cc (set_elt char (cc_mem c) (cc_dst c) 0) (cc_dst c) (cc_src c) (cc_m c)
    else mk_cc mem d src m in
  match count_str fuel (cc_mem c) (cc_m c) (cc_src c) with
  | None => None
  | Some m => Some (cc_mem c, m)
  end.

Definition STRLCPY (fuel : nat) (mem : gmem) (dst src n : Z) : option (gmem * Z) :=
  let c := copy_upto (Z.to_nat (n - 1)) char (mk_cc mem dst src 0) in
  let mem := if 0 <? n then set_elt char (cc_mem c) (cc_dst c) 0 else cc_mem c in
  match skip_str fuel mem (cc_src c) with
  | None => None
  | Some s => Some (mem, s - src)
  end.

(** The loop of the checked copies, entered with a positive [len]: memory and
    [dst] after the NUL, or no pointer when [len] is used up *)
Fixpoint chk_loop (len : nat) (mem : gmem) (dst src : Z) : gmem * option Z :=
  match len with
  | O => (mem, None)
  | S len =>
      let mem := move_elt char mem dst src in
      if elt char mem dst =? 0 then (mem, Some (dst + 1))
      else chk_loop len mem (dst + 1) (src + 1)
  end.

Definition GLIBC25___STRCPY_CHK (mem : gmem) (dst src len : Z) : outcome :=
  if len =? 0 then Terminated mem
  else
    match chk_loop (Z.to_nat len) mem dst src with
    | (mem, Some _) => Returned mem dst
    | (mem, None) => Terminated mem
    end.

Definition GLIBC25___STPCPY_CHK (mem : gmem) (dst src len : Z) : outcome :=
  if len =? 0 then Terminated mem
  else
    match chk_loop (Z.to_nat len) mem dst src with
    | (mem, Some dst) => Returned mem (dst - 1)
    | (mem, None) => Terminated mem
    end.

(** * References on lists *)

(** The [n] elements at [p] *)
Fixpoint elts (w : nat) (m : gmem) (p : Z) (n : nat) : list Z :=
  match n with O => [] | S n => elt w m p :: elts w m (at_elt w p 1) n end.

(** The elements of a string at [p], a NUL after the last *)
Fixpoint str_at (w : nat) (m : gmem) (p : Z) (l : list Z) : Prop :=
  match l with
  | [] => elt w m p = 0
  | c :: l => elt w m p = c /\ c <> 0 /\ str_at w m (at_elt w p 1) l
  end.

Definition len (l : list Z) : Z := Z.of_nat (length l).

(** The first and the last index of an element with [P], and the pointer to
    it, NULL when there is none *)
Fixpoint index_of (P : Z -> bool) (l : list Z) : option Z :=
  match l with
  | [] => None
  | c :: l => if P c then Some 0 else Z.succ <$> index_of P l
  end.

Fixpoint last_index (P : Z -> bool) (l : list Z) : option Z :=
  match l with
  | [] => None
  | c :: l => match last_index P l with
              | Some i => Some (Z.succ i)
              | None => if P c then Some 0 else None
              end
  end.

Definition ptr (w : nat) (p : Z) (i : option Z) : Z :=
  match i with Some i => at_elt w p i | None => 0 end.

(** The length of the longest prefix whose elements have [P] *)
Definition span_len (P : Z -> bool) (l : list Z) : Z :=
  match index_of (fun c => negb (P c)) l with Some i => i | None => len l end.

(** The elements before the first NUL *)
Fixpoint before_nul (l : list Z) : list Z :=
  match l with [] => [] | c :: l => if c =? 0 then [] else c :: before_nul l end.

(** The first index at which a list starts with [n] *)
Fixpoint first_match (n l : list Z) : option Z :=
  if decide (n `prefix_of` l) then Some 0
  else match l with [] => None | _ :: l => Z.succ <$> first_match n l end.

(** Lexicographic order *)
Fixpoint lex (l1 l2 : list Z) : Z :=
  match l1, l2 with
  | [], [] => 0
  | [], _ => -1
  | _, [] => 1
  | c1 :: l1, c2 :: l2 => if c1 <? c2 then -1 else if c2 <? c1 then 1 else lex l1 l2
  end.

(** The difference of the first elements that differ *)
Fixpoint first_diff (l1 l2 : list Z) : Z :=
  match l1, l2 with
  | c1 :: l1, c2 :: l2 => if c1 =? c2 then first_diff l1 l2 else c1 - c2
  | _, _ => 0
  end.

Lemma at_elt_0 w p : at_elt w p 0 = p.
Proof. unfold at_elt. lia. Qed.

Lemma at_elt_at w p i j : at_elt w (at_elt w p i) j = at_elt w p (i + j).
Proof. unfold at_elt. ring. Qed.

Lemma at_elt_char p i : at_elt char p i = p + i.
Proof. unfold at_elt, char. lia. Qed.

Lemma at_elt_next w p i : at_elt w (at_elt w p 1) i = at_elt w p (Z.succ i).
Proof. rewrite at_elt_at. f_equal. lia. Qed.

Lemma len_cons c l : len (c :: l) = Z.succ (len l).
Proof. unfold len. cbn [length]. lia. Qed.

Lemma len_nonneg l : 0 <= len l.
Proof. unfold len. lia. Qed.

Lemma elts_length w m n : forall p, length (elts w m p n) = n.
Proof. induction n as [|n IH]; intros p; cbn; [done|by rewrite IH]. Qed.

Lemma str_at_elts w m l : forall p k, str_at w m p l -> (k <= length l)%nat ->
  elts w m p k = take k l.
Proof.
  induction l as [|c l IH]; intros p [|k] H Hk; cbn in *; try lia; try done.
  destruct H as (-> & _ & H). f_equal. apply IH; [done|lia].
Qed.

Lemma str_at_all w m p l : str_at w m p l -> elts w m p (length l) = l.
Proof. intros H. rewrite (str_at_elts w m l) by done. apply firstn_all. Qed.

Lemma str_at_past w m l : forall p k, str_at w m p l -> (length l < k)%nat ->
  0 ∈ elts w m p k.
Proof.
  induction l as [|c l IH]; intros p [|k] H Hk; cbn in *; try lia.
  - rewrite H. apply list_elem_of_here.
  - apply list_elem_of_further, IH; [apply H|lia].
Qed.

Lemma str_at_nonzero w m l : forall p, str_at w m p l -> Forall (fun c => c <> 0) l.
Proof.
  induction l as [|c l IH]; intros p H; [constructor|]. destruct H as (_ & Hc & H).
  constructor; [done|by eapply IH].
Qed.

(** ** Searching *)

#[local] Arguments Z.eqb : simpl never.
#[global] Arguments elt : simpl never.
#[global] Arguments set_elt : simpl never.
#[global] Arguments move_elt : simpl never.
#[global] Arguments at_elt : simpl never.

Section Search.
Context (w : nat) (m : gmem).

Lemma strlen_loop_spec str l : forall fuel i, str_at w m (at_elt w str i) l ->
  (length l < fuel)%nat -> strlen_loop fuel w m str i = Some (i + len l).
Proof using Type.
  induction l as [|c l IH]; intros [|fuel] i H Hf; cbn in H, Hf |- *; try lia.
  - rewrite H, Z.eqb_refl. f_equal. unfold len. cbn. lia.
  - destruct H as (-> & Hc & H). rewrite (proj2 (Z.eqb_neq _ _) Hc), len_cons.
    rewrite at_elt_at in H. rewrite IH by (done || lia). f_equal. lia.
Qed.

Lemma strnlen_loop_spec str n : forall i,
  strnlen_loop n w m str i = i + len (before_nul (elts w m (at_elt w str i) n)).
Proof using Type.
  induction n as [|n IH]; intros i; cbn; [unfold len; cbn; lia|].
  destruct (Z.eqb_spec (elt w m (at_elt w str i)) 0); [unfold len; cbn; lia|].
  rewrite IH, len_cons, at_elt_at. lia.
Qed.

Lemma STRRCHR_loop_spec ch l : forall fuel p last, str_at w m p l -> (length l < fuel)%nat ->
  STRRCHR_loop fuel w m ch p last =
    Some (match last_index (fun c => c =? ch) (l ++ [0]) with
          | Some i => at_elt w p i | None => last end).
Proof using Type.
  induction l as [|c l IH]; intros [|fuel] p last H Hf; cbn in H, Hf |- *; try lia.
  - rewrite H, (Z.eqb_refl 0). destruct (0 =? ch); by rewrite ?at_elt_0.
  - destruct H as (-> & Hc & H). rewrite (proj2 (Z.eqb_neq _ _) Hc). rewrite IH by (done || lia).
    destruct (last_index _ (l ++ [0])) as [i|]; [by rewrite at_elt_next|].
    destruct (c =? ch); by rewrite ?at_elt_0.
Qed.

Lemma ptr_next p i : ptr w (at_elt w p 1) (Some i) = ptr w p (Z.succ <$> Some i).
Proof using Type. cbn. apply at_elt_next. Qed.

Lemma strchr_loop_spec ch l : forall fuel p, str_at w m p l -> (length l < fuel)%nat ->
  strchr_loop fuel w m ch p = Some (ptr w p (index_of (fun c => c =? ch) (l ++ [0]))).
Proof using Type.
  induction l as [|c l IH]; intros [|fuel] p H Hf; cbn in H, Hf |- *; try lia.
  - rewrite H, (Z.eqb_refl 0). destruct (0 =? ch); cbn; by rewrite ?at_elt_0.
  - destruct H as (-> & Hc & H). rewrite (proj2 (Z.eqb_neq _ _) Hc).
    destruct (c =? ch); [cbn; by rewrite at_elt_0|]. rewrite IH by (done || lia).
    destruct (index_of _ (l ++ [0])); [by rewrite ptr_next|done].
Qed.

Lemma memchr_loop_spec c0 n : forall p,
  memchr_loop n w m c0 p = ptr w p (index_of (fun c => c =? c0) (elts w m p n)).
Proof using Type.
  induction n as [|n IH]; intros p; cbn; [done|].
  destruct (elt w m p =? c0); [cbn; by rewrite at_elt_0|]. rewrite IH.
  destruct (index_of _ _); [by rewrite ptr_next|done].
Qed.
End Search.

Lemma strchrnul_loop_spec m ch l : forall fuel p, str_at char m p l -> (length l < fuel)%nat ->
  strchrnul_loop fuel m ch p = Some (p + span_len (fun c => negb (c =? ch)) l).
Proof.
  induction l as [|c l IH]; intros [|fuel] p H Hf; cbn in H, Hf |- *; try lia.
  - rewrite H, Z.eqb_refl. f_equal. unfold span_len, len. cbn. lia.
  - destruct H as (-> & Hc & H). rewrite (proj2 (Z.eqb_neq _ _) Hc). unfold span_len. cbn.
    rewrite negb_involutive. destruct (c =? ch); [f_equal; lia|].
    rewrite at_elt_char in H. rewrite IH by (done || lia). unfold span_len.
    destruct (index_of _ l); cbn; rewrite ?len_cons; f_equal; lia.
Qed.

Lemma rawmemchr_loop_spec m c n : forall fuel p i, (n <= fuel)%nat ->
  index_of (fun x => x =? c) (elts char m p n) = Some i ->
  rawmemchr_loop fuel m c p = Some (p + i).
Proof.
  induction n as [|n IH]; intros [|fuel] p i Hf H; cbn in H, Hf |- *; try lia; try done.
  destruct (elt char m p =? c); [injection H as <-; f_equal; lia|].
  destruct (index_of _ _) as [j|] eqn:E; [|done]. cbn in H. injection H as <-.
  rewrite (IH fuel (p + 1) j); [f_equal; lia|lia|]. by rewrite at_elt_char in E.
Qed.

Lemma elts_S_r w m n : forall p, elts w m p (S n) = elts w m p n ++ [elt w m (at_elt w p (Z.of_nat n))].
Proof.
  induction n as [|n IH]; intros p; [cbn; by rewrite at_elt_0|].
  change (elts w m p (S (S n))) with (elt w m p :: elts w m (at_elt w p 1) (S n)).
  rewrite IH, at_elt_next. by rewrite <- Nat2Z.inj_succ.
Qed.

Lemma last_index_snoc P l c :
  last_index P (l ++ [c]) = if P c then Some (len l) else last_index P l.
Proof.
  induction l as [|d l IH]; cbn [app last_index]; [by destruct (P c)|].
  rewrite IH, len_cons. by destruct (P c).
Qed.

Lemma memrchr_loop_spec m c0 p n :
  memrchr_loop n m c0 p = ptr char p (last_index (fun c => c =? c0) (elts char m p n)).
Proof.
  induction n as [|n IH]; [done|]. cbn [memrchr_loop].
  rewrite elts_S_r, last_index_snoc, at_elt_char. unfold len. rewrite elts_length.
  destruct (_ =? c0); [|done]. cbn. by rewrite at_elt_char.
Qed.

(** ** Comparing *)

Lemma cmp_result_lex c1 c2 l1 l2 : c1 <> c2 -> lex (c1 :: l1) (c2 :: l2) = cmp_result c1 c2.
Proof.
  intros H. cbn. unfold cmp_result. destruct (Z.ltb_spec c1 c2); [done|].
  destruct (Z.ltb_spec c2 c1); [done|lia].
Qed.

Lemma lex_same c l1 l2 : lex (c :: l1) (c :: l2) = lex l1 l2.
Proof. cbn. by rewrite Z.ltb_irrefl. Qed.

(** [key] tells a NUL from the characters of a string. *)
Definition tells_nul (key : Z -> Z) (l : list Z) : Prop := forall c, c ∈ 0 :: l -> key c = 0 <-> c = 0.

Lemma tells_apart key l c : tells_nul key l -> c ∈ l -> c <> 0 -> key c <> key 0.
Proof.
  intros H Hc Hn E. apply Hn, (H c); [set_solver|]. rewrite E. apply (H 0); [set_solver|done].
Qed.

Lemma strcmp_loop_spec w key m l1 : forall l2 fuel s1 s2,
  tells_nul key (l1 ++ l2) ->
  str_at w m s1 l1 -> str_at w m s2 l2 -> (length l1 + length l2 < fuel)%nat ->
  strcmp_loop fuel w key m s1 s2 = Some (lex (key <$> l1 ++ [0]) (key <$> l2 ++ [0])).
Proof.
  induction l1 as [|c1 l1 IH]; intros [|c2 l2] [|fuel] s1 s2 Hkey H1 H2 Hf;
    cbn [length] in Hf; try lia; cbn [strcmp_loop].
  - cbn in H1, H2. rewrite H1, H2, Z.eqb_refl. cbn [negb].
    rewrite (proj2 (Hkey 0 ltac:(set_solver)) eq_refl). cbn. by rewrite Z.ltb_irrefl.
  - destruct H2 as (-> & Hc & H2). cbn in H1. rewrite H1.
    pose proof (tells_apart key _ c2 Hkey ltac:(set_solver) Hc) as Hk.
    rewrite (proj2 (Z.eqb_neq (key 0) (key c2))) by congruence.
    symmetry. cbn [negb app fmap list_fmap]. f_equal. apply cmp_result_lex. congruence.
  - destruct H1 as (-> & Hc & H1). cbn in H2. rewrite H2.
    pose proof (tells_apart key _ c1 Hkey ltac:(set_solver) Hc) as Hk.
    rewrite (proj2 (Z.eqb_neq (key c1) (key 0))) by congruence.
    symmetry. cbn [negb app fmap list_fmap]. f_equal. apply cmp_result_lex. congruence.
  - destruct H1 as (-> & Hc1 & H1), H2 as (-> & Hc2 & H2).
    cbn [app fmap list_fmap]. destruct (Z.eqb_spec (key c1) (key c2)) as [E|E]; cbn [negb].
    + rewrite (proj2 (Z.eqb_neq (key c1) 0)) by (rewrite (Hkey c1); [done|set_solver]).
      rewrite <- E, lex_same. apply IH; [|done|done|lia].
      intros c Hc. apply Hkey. set_solver.
    + f_equal. symmetry. by apply cmp_result_lex.
Qed.

Lemma strncmp_loop_spec w key m n : forall s1 s2,
  strncmp_loop n w key m s1 s2 =
    lex (key <$> before_nul (elts w m s1 n)) (key <$> before_nul (elts w m s2 n)).
Proof.
  induction n as [|n IH]; intros s1 s2; [done|]. cbn [strncmp_loop elts before_nul].
  destruct (Z.eqb_spec (elt w m s1) 0), (Z.eqb_spec (elt w m s2) 0); try done.
  cbn [andb fmap list_fmap lex]. by rewrite IH.
Qed.

Lemma first_diff_app l : forall l1 l2, first_diff (l ++ l1) (l ++ l2) = first_diff l1 l2.
Proof. induction l as [|c l IH]; intros l1 l2; [done|]. cbn. by rewrite Z.eqb_refl. Qed.

Lemma memcmp_bytes_spec m n : forall s1 s2,
  memcmp_bytes n m s1 s2 = first_diff (elts char m s1 n) (elts char m s2 n).
Proof.
  induction n as [|n IH]; intros s1 s2; [done|]. cbn [memcmp_bytes elts first_diff].
  rewrite IH. destruct (Z.eqb_spec (elt char m s1) (elt char m s2)) as [->|].
  - by rewrite Z.sub_diag.
  - destruct (Z.eqb_spec (elt char m s1 - elt char m s2) 0); [lia|done].
Qed.

Lemma elts_app w m a b : forall p,
  elts w m p (a + b) = elts w m p a ++ elts w m (at_elt w p (Z.of_nat a)) b.
Proof.
  induction a as [|a IH]; intros p; cbn [plus elts app]; [by rewrite at_elt_0|].
  rewrite IH, at_elt_next. by rewrite <- Nat2Z.inj_succ.
Qed.

(** Equal words are equal bytes. *)
Lemma load_le_bytes k m : bytes_ok m -> forall a b, load_le k m a = load_le k m b ->
  elts char m a k = elts char m b k.
Proof.
  intros Hm. induction k as [|k IH]; intros a b H; [done|].
  destruct (load_le_cons k m a Hm) as [_ Ea]. destruct (load_le_cons k m b Hm) as [_ Eb].
  rewrite Ea, Eb in H. pose proof (Hm a). pose proof (Hm b).
  assert (m a = m b /\ load_le k m (a + 1) = load_le k m (b + 1)) as [E1 E2] by lia.
  assert (forall x, elt char m x = m x) as E by (intros x; unfold elt; cbn; apply Z.lor_0_r).
  cbn [elts]. rewrite !E, E1, !at_elt_char. f_equal. by apply IH.
Qed.

Lemma memcmp_words_spec m : bytes_ok m -> forall fuel s1 s2 n, 0 <= n ->
  let '(t1, t2, k) := memcmp_words fuel m s1 s2 n in
  0 <= k /\ first_diff (elts char m s1 (Z.to_nat n)) (elts char m s2 (Z.to_nat n)) =
            first_diff (elts char m t1 (Z.to_nat k)) (elts char m t2 (Z.to_nat k)).
Proof.
  intros Hm. induction fuel as [|fuel IH]; intros s1 s2 n Hn; cbn [memcmp_words]; [done|].
  destruct (Z.leb_spec 8 n); [|done].
  destruct (Z.eqb_spec (elt 8 m s1) (elt 8 m s2)) as [E|]; cbn [negb]; [|done].
  specialize (IH (s1 + 8) (s2 + 8) (n - 8) ltac:(lia)).
  destruct (memcmp_words _ _ _ _ _) as [[t1 t2] k]. destruct IH as [Hk <-]. split; [done|].
  replace (Z.to_nat n) with (8 + Z.to_nat (n - 8))%nat by lia.
  rewrite !elts_app, (load_le_bytes 8 m Hm s1 s2 E), first_diff_app. by rewrite !at_elt_char.
Qed.

(** Comparing words first gives the result of comparing bytes. *)
Lemma MEMCMP_spec m s1 s2 n : bytes_ok m -> 0 <= n ->
  MEMCMP m s1 s2 n = first_diff (elts char m s1 (Z.to_nat n)) (elts char m s2 (Z.to_nat n)).
Proof.
  intros Hm Hn. unfold MEMCMP. destruct (Z.land _ 7 =? 0); [|apply memcmp_bytes_spec].
  pose proof (memcmp_words_spec m Hm (Z.to_nat n) s1 s2 n Hn) as H.
  destruct (memcmp_words _ _ _ _ _) as [[t1 t2] k]. destruct H as [_ ->]. apply memcmp_bytes_spec.
Qed.

Lemma wmemcmp_loop_spec m n : forall b1 b2,
  wmemcmp_loop n m b1 b2 = lex (as_Int <$> elts wchar m b1 n) (as_Int <$> elts wchar m b2 n).
Proof.
  induction n as [|n IH]; intros b1 b2; [done|]. cbn [wmemcmp_loop elts fmap list_fmap].
  destruct (Z.eqb_spec (as_Int (elt wchar m b1)) (as_Int (elt wchar m b2))) as [->|H]; cbn [negb].
  - rewrite lex_same. apply IH.
  - rewrite cmp_result_lex by done. unfold cmp_result.
    destruct (Z.ltb_spec (as_Int (elt wchar m b1)) (as_Int (elt wchar m b2))),
      (Z.ltb_spec (as_Int (elt wchar m b2)) (as_Int (elt wchar m b1))); done || lia.
Qed.

(** ** Sets of characters and substrings *)

Definition member (l : list Z) (c : Z) : bool := bool_decide (c ∈ l).

Lemma member_loop_spec m a sc n : forall i,
  let r := member_loop n m a sc i in
  i <= r <= i + Z.of_nat n /\
  (r < i + Z.of_nat n <-> sc ∈ elts char m (a + i) n).
Proof.
  induction n as [|n IH]; intros i; cbn [member_loop elts].
  { split; [lia|]. split; [lia|]. intros H. by apply not_elem_of_nil in H. }
  cbv zeta. rewrite elem_of_cons. destruct (Z.eqb_spec sc (elt char m (a + i))) as [E|E].
  - split; [lia|]. split; [by left|lia].
  - destruct (IH (i + 1)) as [H1 H2]. rewrite at_elt_char, <- Z.add_assoc.
    split; [lia|]. rewrite <- H2. intuition lia.
Qed.

(** The test of all three functions *)
Lemma member_test m a al sc : str_at char m a al ->
  (member_loop (Z.to_nat (len al)) m a sc 0 <? len al) = member al sc /\
  (member_loop (Z.to_nat (len al)) m a sc 0 =? len al) = negb (member al sc).
Proof.
  intros H. unfold len. rewrite Nat2Z.id.
  destruct (member_loop_spec m a sc (length al) 0) as [Hr Hm].
  rewrite Z.add_0_r, Z.add_0_l, (str_at_all char m a al H) in Hm. unfold member.
  destruct (bool_decide_reflect (sc ∈ al)) as [Hin|Hin]; rewrite <- Hm in Hin; split;
    cbn; first [apply Z.ltb_lt|apply Z.eqb_neq|apply Z.ltb_ge|apply Z.eqb_eq]; lia.
Qed.

Section Sets.
Context (m : gmem) (a : Z) (al : list Z) (Ha : str_at char m a al).

Lemma strpbrk_loop_spec l : forall fuel s, str_at char m s l -> (length l < fuel)%nat ->
  strpbrk_loop fuel m s a (len al) = Some (ptr char s (index_of (member al) l)).
Proof using Ha.
  induction l as [|c l IH]; intros [|fuel] s H Hf; cbn in H, Hf |- *; try lia.
  - by rewrite H, Z.eqb_refl.
  - destruct H as (-> & Hc & H). rewrite (proj2 (Z.eqb_neq _ _) Hc).
    rewrite (proj1 (member_test m a al c Ha)).
    destruct (member al c); [cbn; by rewrite at_elt_0|].
    rewrite at_elt_char in H. rewrite IH by (done || lia). rewrite <- (at_elt_char s 1).
    destruct (index_of _ l); [by rewrite ptr_next|done].
Qed.

Lemma strcspn_loop_spec l : forall fuel s k, str_at char m s l -> (length l < fuel)%nat ->
  strcspn_loop fuel m s a (len al) k = Some (k + span_len (fun c => negb (member al c)) l).
Proof using Ha.
  induction l as [|c l IH]; intros [|fuel] s k H Hf; cbn in H, Hf |- *; try lia.
  - rewrite H, Z.eqb_refl. f_equal. unfold span_len, len. cbn. lia.
  - destruct H as (-> & Hc & H). rewrite (proj2 (Z.eqb_neq _ _) Hc).
    rewrite (proj1 (member_test m a al c Ha)). unfold span_len. cbn. rewrite negb_involutive.
    destruct (member al c); [f_equal; lia|]. rewrite at_elt_char in H.
    rewrite IH by (done || lia). unfold span_len.
    destruct (index_of _ l); cbn; rewrite ?len_cons; f_equal; lia.
Qed.

Lemma strspn_loop_spec l : forall fuel s k, str_at char m s l -> (length l < fuel)%nat ->
  strspn_loop fuel m s a (len al) k = Some (k + span_len (member al) l).
Proof using Ha.
  induction l as [|c l IH]; intros [|fuel] s k H Hf; cbn in H, Hf |- *; try lia.
  - rewrite H, Z.eqb_refl. f_equal. unfold span_len, len. cbn. lia.
  - destruct H as (-> & Hc & H). rewrite (proj2 (Z.eqb_neq _ _) Hc).
    rewrite (proj2 (member_test m a al c Ha)). unfold span_len. cbn.
    destruct (member al c); cbn [negb]; [|f_equal; lia]. rewrite at_elt_char in H.
    rewrite IH by (done || lia). unfold span_len.
    destruct (index_of _ l); cbn; rewrite ?len_cons; f_equal; lia.
Qed.
End Sets.

Lemma len_pos l : (len l =? 0) = match l with [] => true | _ => false end.
Proof. destruct l; [done|]. apply Z.eqb_neq. unfold len. cbn. lia. Qed.

(** The inner loop runs to its end when all characters agree. *)
Lemma match_loop_spec key m n h k : forall i,
  let r := match_loop k key m n h i in
  i <= r <= i + Z.of_nat k /\
  (r = i + Z.of_nat k <-> key <$> elts char m (n + i) k = key <$> elts char m (h + i) k).
Proof.
  induction k as [|k IH]; intros i; cbn [match_loop elts].
  { split; [lia|]. split; [done|lia]. }
  cbv zeta. cbn [fmap list_fmap]. destruct (Z.eqb_spec (key (elt char m (n + i))) (key (elt char m (h + i))))
    as [E|E]; cbn [negb].
  - destruct (IH (i + 1)) as [H1 H2]. rewrite !at_elt_char, <- !Z.add_assoc.
    split; [lia|]. rewrite E. transitivity (match_loop k key m n h (i + 1) = i + 1 + Z.of_nat k); [lia|].
    rewrite H2. unfold list_fmap. split; [by intros ->|]. intros Eq. by injection Eq.
  - split; [lia|]. split; [lia|]. intros Eq. by injection Eq.
Qed.

Lemma first_match_short n l : (length l < length n)%nat -> first_match n l = None.
Proof.
  revert n. induction l as [|c l IH]; intros n H; cbn [first_match].
  all: destruct (decide _) as [Hp|_]; [apply prefix_length in Hp; cbn in *; lia|].
  - done.
  - cbn in H. by rewrite IH by lia.
Qed.

Lemma prefix_take {A} (n l : list A) : n = take (length n) l <-> n `prefix_of` l.
Proof.
  split.
  - intros ->. exists (drop (length n) l). by rewrite take_drop.
  - intros [k ->]. by rewrite take_app_length.
Qed.

Lemma elem_of_zero_cons (c d : Z) (l : list Z) : d ∈ 0 :: l -> d ∈ 0 :: c :: l.
Proof. rewrite !elem_of_cons. tauto. Qed.

Section Substring.
Context (key hkey : Z -> Z) (m : gmem) (n : Z) (nl : list Z).
Context (Hn : str_at char m n nl) (Hne : nl <> []).
Context (Hkey : forall c, c ∈ nl -> key c <> key 0).
Context (Hhkey : forall c d, key c = key d -> hkey c = hkey d).

Lemma match_prefix h hl : str_at char m h hl ->
  (match_loop (Z.to_nat (len nl)) key m n h 0 =? len nl) =
    bool_decide (key <$> nl `prefix_of` key <$> hl).
Proof using Hn Hkey.
  intros Hh. unfold len. rewrite Nat2Z.id.
  destruct (match_loop_spec key m n h (length nl) 0) as [_ Hr].
  rewrite !Z.add_0_r, Z.add_0_l, (str_at_all char m n nl Hn) in Hr.
  apply Bool.eq_iff_eq_true. rewrite Z.eqb_eq, bool_decide_eq_true, Hr, <- prefix_take.
  rewrite length_fmap, <- fmap_take.
  destruct (Nat.le_gt_cases (length nl) (length hl)) as [Hle|Hlt].
  { by rewrite (str_at_elts char m hl). }
  rewrite (take_ge hl) by lia. split; intros E.
  - pose proof (str_at_past char m hl h (length nl) Hh Hlt) as H0.
    assert (key 0 ∈ key <$> nl) as (c & Ec & Hc)%list_elem_of_fmap
      by (rewrite E; by apply list_elem_of_fmap_2).
    by destruct (Hkey c Hc).
  - apply (f_equal length) in E. rewrite !length_fmap in E. lia.
Qed.

Lemma STRSTR_loop_spec hl : (forall c, c ∈ 0 :: hl -> hkey c = 0 <-> c = 0) ->
  forall fuel h, str_at char m h hl -> (length hl < fuel)%nat ->
  STRSTR_loop fuel hkey key m n (hkey (elt char m n)) (len nl) h =
    Some (ptr char h (first_match (key <$> nl) (key <$> hl))).
Proof using Hn Hne Hkey Hhkey.
  induction hl as [|c hl IH]; intros Hz [|fuel] h Hh Hf; cbn [length] in Hf; try lia;
    cbn [STRSTR_loop].
  - cbn in Hh. rewrite Hh, (proj2 (Z.eqb_eq (hkey 0) 0)) by (by apply Hz; [set_solver|]).
    destruct nl; [done|]. cbn [fmap list_fmap first_match].
    destruct (decide _) as [Hp|_]; [by apply prefix_nil_inv in Hp|done].
  - pose proof Hh as (Ec & Hc & Hh'). rewrite Ec.
    rewrite (proj2 (Z.eqb_neq (hkey c) 0)) by (rewrite (Hz c); [done|set_solver]).
    rewrite (match_prefix h (c :: hl) Hh).
    cbn [fmap list_fmap first_match]. fold (key <$> hl).
    rewrite at_elt_char in Hh'.
    rewrite IH; [|intros d Hd; apply Hz; by apply elem_of_zero_cons|done|lia].
    assert (hkey c <> hkey (elt char m n) -> ~ (key <$> nl) `prefix_of` (key c :: (key <$> hl))) as Hfirst.
    { destruct nl as [|c0 nl']; [done|]. destruct Hn as (-> & _). intros Hd Hp.
      apply Hd, Hhkey. symmetry. by apply prefix_cons_inv_1 in Hp. }
    change (key <$> c :: hl) with (key c :: (key <$> hl)). rewrite <- (at_elt_char h 1).
    destruct (Z.eqb_spec (hkey c) (hkey (elt char m n))) as [E|E]; cbn [negb].
    2: rewrite decide_False by auto.
    1: case_bool_decide as Hp; [rewrite decide_True by done; cbn; by rewrite at_elt_0|
         rewrite decide_False by done].
    all: destruct (first_match _ (key <$> hl)); [by rewrite ptr_next|done].
Qed.
End Substring.

Lemma memmem_loop_spec m n nl : elts char m n (length nl) = nl -> nl <> [] ->
  forall k fuel h, (k < fuel)%nat ->
  memmem_loop fuel m h (Z.of_nat k) n (len nl) (elt char m n) =
    ptr char h (first_match nl (elts char m h k)).
Proof.
  intros Hn Hne. induction k as [|k IH]; intros [|fuel] h Hf; try lia; cbn [memmem_loop].
  { destruct nl; [done|]. rewrite (proj2 (Z.leb_gt _ _)) by (unfold len; cbn; lia).
    cbn [elts first_match]. destruct (decide _) as [Hp|_]; [by apply prefix_nil_inv in Hp|done]. }
  destruct (Z.leb_spec (len nl) (Z.of_nat (S k))) as [Hle|Hlt].
  2: { rewrite first_match_short; [done|]. rewrite elts_length. unfold len in Hlt. lia. }
  replace (Z.of_nat (S k) - 1) with (Z.of_nat k) by lia. rewrite IH by lia.
  change (elts char m h (S k)) with (elt char m h :: elts char m (at_elt char h 1) k).
  rewrite <- (at_elt_char h 1). cbn [first_match].
  assert ((elt char m h =? elt char m n) &&
    (match_loop (Z.to_nat (len nl - 1)) id m n h 1 =? len nl) =
    bool_decide (nl `prefix_of` elt char m h :: elts char m (at_elt char h 1) k)) as E.
  { destruct nl as [|c nl]; [done|]. cbn [length elts] in Hn. injection Hn as Ec Hn.
    destruct (match_loop_spec id m n h (length nl) 1) as [_ Hr].
    replace (Z.to_nat (len (c :: nl) - 1)) with (length nl) by (rewrite len_cons; unfold len; lia).
    rewrite at_elt_char in Hn. rewrite Hn, !list_fmap_id in Hr.
    apply Bool.eq_iff_eq_true. rewrite andb_true_iff, !Z.eqb_eq, bool_decide_eq_true, Ec.
    assert (length nl <= k)%nat by (rewrite len_cons in Hle; unfold len in Hle; lia).
    replace k with (length nl + (k - length nl))%nat by lia. rewrite elts_app, at_elt_char.
    replace (len (c :: nl)) with (1 + Z.of_nat (length nl)) by (rewrite len_cons; unfold len; lia).
    rewrite Hr. split.
    - intros [E1 E2]. rewrite E1. apply prefix_cons. rewrite E2 at 1. by apply prefix_app_r.
    - intros Hp. pose proof (prefix_cons_inv_1 _ _ _ _ Hp) as ->. split; [done|].
      apply prefix_cons_inv_2, prefix_take in Hp. rewrite Hp at 1.
      rewrite take_app_le, take_ge; rewrite ?elts_length; done || lia. }
  destruct (elt char m h =? elt char m n), (match_loop _ _ _ _ _ _ =? _); cbn [negb andb] in E |- *;
    symmetry in E; rewrite ?bool_decide_eq_true, ?bool_decide_eq_false in E.
  1: rewrite decide_True by done; cbn; by rewrite at_elt_0.
  all: rewrite decide_False by done;
    destruct (first_match nl (elts char m (at_elt char h 1) k)); [by rewrite ptr_next|done].
Qed.

(** ** Copying memory *)

Lemma move_elt_copy w m d s : bytes_ok m -> mem_eq (move_elt w m d s) (copy m d s (Z.of_nat w)).
Proof. intros Hm x. unfold move_elt, copy. by rewrite (store_load w m Hm). Qed.

(** The loops of a direction keep an invariant of its steps and copy all. *)
Section Loops.
Context (step : nat -> copying -> copying) (Inv : copying -> Prop).
Context (Hstep : forall w c, Inv c -> Z.of_nat w <= c_sz c -> Inv (step w c)).
Context (Hsz : forall w c, c_sz (step w c) = c_sz c - Z.of_nat w).
Context (Hpos : forall c, Inv c -> 0 <= c_sz c).

(** [c'] is reached from [c]. *)
Definition progress (c c' : copying) : Prop := Inv c' /\ c_sz c' <= c_sz c.

Lemma to_boundary_progress fuel : forall c, Inv c -> progress c (to_boundary step fuel c).
Proof using Hstep Hsz.
  induction fuel as [|fuel IH]; intros c Hc; cbn [to_boundary]; [by split|].
  destruct (negb _); cbn [andb]; [|by split]. destruct (Z.leb_spec 1 (c_sz c)); [|by split].
  destruct (IH (step 1%nat c)) as [Hi Hle]; [by apply Hstep|]. split; [done|].
  rewrite Hsz in Hle. lia.
Qed.

Lemma iter_step w k : forall c, Inv c -> Z.of_nat w * Z.of_nat k <= c_sz c ->
  Inv (Nat.iter k (step w) c) /\ c_sz (Nat.iter k (step w) c) = c_sz c - Z.of_nat w * Z.of_nat k.
Proof using Hstep Hsz.
  induction k as [|k IH]; intros c Hc Hk; cbn [Nat.iter nat_rect]; [split; [done|lia]|].
  destruct (IH c) as [Hi E]; [done|nia|]. fold (Nat.iter k (step w) c).
  rewrite Hsz, E. split; [apply Hstep; [done|nia]|lia].
Qed.

Lemma copy_loop_progress w k fuel : forall c, Inv c -> progress c (copy_loop step fuel w k c).
Proof using Hstep Hsz.
  induction fuel as [|fuel IH]; intros c Hc; cbn [copy_loop]; [by split|].
  destruct (Z.leb_spec (Z.of_nat w * Z.of_nat k) (c_sz c)) as [Hle|]; [|by split].
  destruct (iter_step w k c Hc Hle) as [Hi E]. destruct (IH _ Hi) as [Hi' Hle'].
  split; [done|]. lia.
Qed.

Lemma copy_loop_done fuel : forall c, Inv c -> c_sz c <= Z.of_nat fuel ->
  Inv (copy_loop step fuel 1 1 c) /\ c_sz (copy_loop step fuel 1 1 c) = 0.
Proof using Hstep Hsz Hpos.
  induction fuel as [|fuel IH]; intros c Hc Hf; cbn [copy_loop]; pose proof (Hpos c Hc).
  - split; [done|lia].
  - destruct (Z.leb_spec (Z.of_nat 1 * Z.of_nat 1) (c_sz c)); [|split; [done|lia]].
    destruct (iter_step 1 1 c Hc ltac:(done)) as [Hi E]. apply IH; [done|]. lia.
Qed.

Lemma copy_body_done c : Inv c -> Inv (copy_body step c) /\ c_sz (copy_body step c) = 0.
Proof using Hstep Hsz Hpos.
  intros Hc. unfold copy_body. cbv zeta. set (fuel := Z.to_nat (c_sz c)).
  assert (forall d, progress c d ->
    Inv (copy_leftovers step fuel d) /\ c_sz (copy_leftovers step fuel d) = 0) as Hrest.
  { intros d [Hd Hle]. pose proof (Hpos c Hc). unfold copy_leftovers. apply copy_loop_done.
    - destruct (_ =? 0); [by apply copy_loop_progress|done].
    - transitivity (c_sz d); [|unfold fuel; lia].
      destruct (_ =? 0); [by apply copy_loop_progress|lia]. }
  destruct (Z.land (Z.lxor _ _) 7 =? 0); [|apply Hrest; by split].
  destruct (to_boundary_progress fuel c Hc) as [H1 L1].
  destruct (copy_loop_progress 8 4 fuel _ H1) as [H2 L2].
  destruct (copy_loop_progress 8 1 fuel _ H2) as [H3 L3].
  destruct (Z.eqb_spec (c_sz (copy_loop step fuel 8 1
    (copy_loop step fuel 8 4 (to_boundary step fuel c)))) 0) as [E|]; [by split|].
  apply Hrest. split; [done|lia].
Qed.
End Loops.

(** Upwards, the invariant is [at_copy] of [VG_(memcpy)]. *)
Lemma step_up_ok m d s sz w c : bytes_ok m -> d <= s \/ s + sz <= d ->
  at_copy m d s sz c -> Z.of_nat w <= c_sz c -> at_copy m d s sz (step_up w c).
Proof.
  intros Hm Hs (k & Hk & Hsz & E & Ed & Es & Hc) Hw. exists (k + Z.of_nat w).
  cbn [step_up c_mem c_d c_s c_sz]. do 5 (split; [lia|]). rewrite Ed, Es.
  eapply copied_step; [done|done|lia|lia|done|]. apply move_elt_copy.
  by eapply copied_ok.
Qed.

(** Downwards, the upper part is copied. *)
Definition at_down (m : gmem) (d s sz : Z) (c : copying) : Prop :=
  0 <= c_sz c <= sz /\ c_d c = d + c_sz c /\ c_s c = s + c_sz c /\
  mem_eq (c_mem c) (copy m (d + c_sz c) (s + c_sz c) (sz - c_sz c)).

Lemma mem_eq_bytes m m' : bytes_ok m' -> mem_eq m m' -> bytes_ok m.
Proof. intros H E x. by rewrite E. Qed.

Lemma copy_bytes m d s k : bytes_ok m -> bytes_ok (copy m d s k).
Proof. intros H x. unfold copy. by destruct (_ && _). Qed.

Lemma step_down_ok m d s sz w c : bytes_ok m -> s <= d ->
  at_down m d s sz c -> Z.of_nat w <= c_sz c -> at_down m d s sz (step_down w c).
Proof.
  intros Hm Hs ([Hk Hsz] & Ed & Es & Hc) Hw. unfold at_down.
  cbn [step_down c_mem c_d c_s c_sz]. do 3 (split; [lia|]). intros x.
  rewrite (move_elt_copy w) by (eapply mem_eq_bytes; [by apply (copy_bytes m)|done]).
  rewrite Ed, Es. unfold copy at 1. rewrite !Hc. unfold copy.
  ztest; try lia; try done; f_equal; lia.
Qed.

Lemma overlap_spec d s k : 0 < k -> 0 <= d -> 0 <= s -> d + k <= 2 ^ 64 -> s + k <= 2 ^ 64 ->
  is_overlap d s k k = negb ((d + k <=? s) || (s + k <=? d)).
Proof.
  intros. unfold is_overlap. rewrite (proj2 (Z.eqb_neq k 0)) by lia. cbn [orb].
  rewrite !u64_small by lia. ztest; done || lia.
Qed.

Lemma copy_0 m d s : mem_eq m (copy m d s 0).
Proof. intros x. unfold copy. ztest; done || lia. Qed.

Lemma copy_self m d k : mem_eq m (copy m d d k).
Proof. intros x. unfold copy. ztest; try done. f_equal. lia. Qed.

(** Whatever the overlap and the alignment *)
Lemma MEMMOVE_OR_MEMCPY_copy m d s k : bytes_ok m -> 0 <= k -> 0 <= d -> 0 <= s ->
  d + k <= 2 ^ 64 -> s + k <= 2 ^ 64 ->
  mem_eq (fst (MEMMOVE_OR_MEMCPY m d s k)) (copy m d s k).
Proof.
  intros Hm Hk Hd Hs Hde Hse. unfold MEMMOVE_OR_MEMCPY.
  destruct (Z.ltb_spec 0 k); [|replace k with 0 by lia; apply copy_0].
  rewrite overlap_spec, negb_involutive by done.
  destruct (Z.ltb_spec d s), (Z.leb_spec (d + k) s), (Z.leb_spec (s + k) d), (Z.ltb_spec s d);
    cbn [orb fst]; try lia.
  5: by replace s with d by lia; apply copy_self.
  4: { destruct (copy_body_done step_down (at_down m d s k)
         ltac:(intros; by apply step_down_ok; [|lia| |]) ltac:(done) ltac:(by intros ? [[? _] _])
         (mk_cp m (d + k) (s + k) k)) as [(_ & _ & _ & Hc) E].
       - split; [cbn; lia|]. cbn. do 2 (split; [done|]). rewrite Z.sub_diag. apply copy_0.
       - intros x. rewrite Hc, E. by rewrite !Z.add_0_r, Z.sub_0_r. }
  all: assert (d <= s \/ s + k <= d) as Hsafe by lia;
    destruct (copy_body_done step_up (at_copy m d s k) ltac:(intros; by apply step_up_ok) ltac:(done)
      ltac:(by intros ? (? & _ & ? & _)) (mk_cp m d s k)) as [(j & _ & _ & Ej & _ & _ & Hc) E];
    [exists 0; cbn; do 5 (split; [lia|]); apply copy_0|];
    intros x; rewrite Hc; by replace j with k by lia.
Qed.

Lemma MEMMOVE_OR_MEMCPY_returns m d s k : snd (MEMMOVE_OR_MEMCPY m d s k) = d.
Proof. unfold MEMMOVE_OR_MEMCPY. by repeat case_match. Qed.

(** The loops with pointers are those with indices. *)
Lemma bytes_up_move n d s : forall m i, bytes_up n m (d + i) (s + i) = move_up n m d s i.
Proof.
  induction n as [|n IH]; intros m i; cbn; [done|]. rewrite <- !Z.add_assoc. apply IH.
Qed.

Lemma bytes_down_move n d s sz : forall m i,
  bytes_down n m (d + (sz - i - 1)) (s + (sz - i - 1)) = move_down n m d s sz i.
Proof.
  induction n as [|n IH]; intros m i; cbn; [done|]. rewrite <- IH.
  f_equal; lia.
Qed.

Lemma moves_memmove m d s n : 0 <= n ->
  (if d <? s then move_up (Z.to_nat n) m d s 0
   else if s <? d then move_down (Z.to_nat n) m d s n 0 else m) = memmove m d s n.
Proof.
  intros Hn. unfold memmove. destruct (Z.eqb_spec n 0) as [->|]; [|done]. cbn.
  by destruct (d <? s), (s <? d).
Qed.

Lemma bytes_memmove m d s n : 0 <= n ->
  (if s <? d then bytes_down (Z.to_nat n) m (d + n - 1) (s + n - 1)
   else if d <? s then bytes_up (Z.to_nat n) m d s else m) = memmove m d s n.
Proof.
  intros Hn. rewrite <- moves_memmove by done.
  rewrite <- (bytes_up_move _ d s m 0), <- (bytes_down_move _ d s n m 0), !Z.add_0_r.
  replace (d + n - 1) with (d + (n - 0 - 1)) by lia.
  replace (s + n - 1) with (s + (n - 0 - 1)) by lia.
  destruct (Z.ltb_spec d s), (Z.ltb_spec s d); done || lia.
Qed.

(** ** Setting memory *)

(** The bytes of a stored word *)
Lemma store_le_byte k : forall m d v x,
  store_le k m d v x =
  if (d <=? x) && (x <? d + Z.of_nat k) then Z.shiftr v (8 * (x - d)) mod 256 else m x.
Proof.
  induction k as [|k IH]; intros m d v x; cbn [store_le]; [ztest; done || lia|].
  rewrite IH. unfold upd. ztest; try lia; try done.
  - rewrite Z.shiftr_shiftr by lia. do 2 f_equal. lia.
  - replace (8 * (x - d)) with 0 by lia. by rewrite Z.shiftr_0_r.
Qed.

(** [w] bytes of [v] are bytes of [uc]. *)
Definition repeats (w : nat) (uc v : Z) : Prop :=
  forall i, 0 <= i < Z.of_nat w -> Z.shiftr v (8 * i) mod 256 = uc.

Lemma set_elt_fill w m d uc v : repeats w uc v -> mem_eq (set_elt w m d v) (fill m d uc (Z.of_nat w)).
Proof.
  intros H x. unfold set_elt, fill. rewrite store_le_byte. ztest; try done. apply H. lia.
Qed.

Lemma repeats_zero w : repeats w 0 0.
Proof. intros i Hi. by rewrite Z.shiftr_0_l. Qed.

Lemma repeats_byte uc : 0 <= uc < 256 -> repeats 1 uc uc.
Proof.
  intros H i Hi. replace (8 * i) with 0 by lia. rewrite Z.shiftr_0_r. by apply Z.mod_small.
Qed.

(** The byte repeated eight times *)
Definition word_of_byte (uc : Z) : Z :=
  let c8 := Z.lor (u64 (Z.shiftl uc 8)) uc in
  let c8 := Z.lor (u64 (Z.shiftl c8 16)) c8 in
  Z.lor (u64 (Z.shiftl c8 32)) c8.

Lemma repeats_word uc : 0 <= uc < 256 -> repeats 8 uc (word_of_byte uc).
Proof.
  intros Hu i Hi.
  assert (forallb (fun u => forallb (fun i =>
    Z.shiftr (word_of_byte (Z.of_nat u)) (8 * Z.of_nat i) mod 256 =? Z.of_nat u) (seq 0 8))
    (seq 0 256) = true) as E by (vm_compute; reflexivity).
  rewrite forallb_forall in E. specialize (E (Z.to_nat uc)).
  rewrite in_seq, Z2Nat.id in E by lia. specialize (E ltac:(lia)).
  rewrite forallb_forall in E. specialize (E (Z.to_nat i)).
  rewrite in_seq, Z2Nat.id in E by lia. by apply Z.eqb_eq, E; lia.
Qed.

Section FillLoops.
Context (m : gmem) (d uc sz : Z).

Lemma step_fill_ok w v f : repeats w uc v -> at_fill m d uc sz f -> Z.of_nat w <= f_sz f ->
  at_fill m d uc sz (step_fill w v f).
Proof using Type.
  intros Hv (k & Hk & Hsz & E & Ed & Hf) Hw. exists (k + Z.of_nat w).
  cbn [step_fill f_mem f_d f_sz]. do 4 (split; [lia|]). rewrite Ed.
  eapply filled_step; [done|lia|done|by apply set_elt_fill].
Qed.

Lemma fill_to_boundary_ok v fuel : repeats 1 uc v -> forall f, at_fill m d uc sz f ->
  at_fill m d uc sz (fill_to_boundary fuel v f).
Proof using Type.
  intros Hv. induction fuel as [|fuel IH]; intros f Hf; cbn [fill_to_boundary]; [done|].
  destruct (negb _); cbn [andb]; [|done]. destruct (Z.leb_spec 1 (f_sz f)); [|done].
  by apply IH, step_fill_ok.
Qed.

Lemma iter_fill w v k : repeats w uc v -> forall f, at_fill m d uc sz f ->
  Z.of_nat w * Z.of_nat k <= f_sz f ->
  at_fill m d uc sz (Nat.iter k (step_fill w v) f) /\
  f_sz (Nat.iter k (step_fill w v) f) = f_sz f - Z.of_nat w * Z.of_nat k.
Proof using Type.
  intros Hv. induction k as [|k IH]; intros f Hf Hk; cbn [Nat.iter nat_rect]; [split; [done|lia]|].
  destruct (IH f) as [Hi E]; [done|nia|]. fold (Nat.iter k (step_fill w v) f).
  split; [apply step_fill_ok; [done|done|nia]|]. cbn [step_fill f_sz]. lia.
Qed.

Lemma fill_loop_ok w k v fuel : repeats w uc v -> forall f, at_fill m d uc sz f ->
  at_fill m d uc sz (fill_loop fuel w k v f).
Proof using Type.
  intros Hv. induction fuel as [|fuel IH]; intros f Hf; cbn [fill_loop]; [done|].
  destruct (Z.leb_spec (Z.of_nat w * Z.of_nat k) (f_sz f)) as [Hle|]; [|done].
  by apply IH, iter_fill.
Qed.

Lemma fill_loop_done v fuel : repeats 1 uc v -> forall f, at_fill m d uc sz f ->
  f_sz f <= Z.of_nat fuel -> filled m d uc sz (f_mem (fill_loop fuel 1 1 v f)).
Proof using Type.
  intros Hv. induction fuel as [|fuel IH]; intros f Hf Hle; cbn [fill_loop];
    pose proof Hf as (k & Hk & Hsz & E & _ & Hm).
  - by replace sz with k by lia.
  - destruct (Z.leb_spec (Z.of_nat 1 * Z.of_nat 1) (f_sz f)) as [H1|]; [|by replace sz with k by lia].
    destruct (iter_fill 1 v 1 Hv f Hf H1) as [Hi Ei]. apply IH; [done|]. lia.
Qed.
End FillLoops.

Lemma as_byte_range c : 0 <= as_byte c < 256.
Proof. by apply Z.mod_pos_bound. Qed.

Lemma MEMSET_fill m s c n : 0 <= n -> mem_eq (fst (MEMSET m s c n)) (fill m s (as_byte c) n).
Proof.
  intros Hn. unfold MEMSET. cbn [fst]. change 255 with (Z.ones 8).
  rewrite Z.land_ones by lia. fold (as_byte c). fold (word_of_byte (as_byte c)).
  pose proof (repeats_byte _ (as_byte_range c)) as H1.
  pose proof (repeats_word _ (as_byte_range c)) as H8.
  assert (at_fill m s (as_byte c) n (mk_fill m s n)) as Hf.
  { exists 0. cbn. do 4 (split; [lia|]). intros x. unfold fill. ztest; done || lia. }
  apply (fill_to_boundary_ok _ _ _ _ _ (Z.to_nat n) H1) in Hf.
  apply (fill_loop_ok _ _ _ _ 8 4 _ (Z.to_nat n) H8) in Hf.
  apply (fill_loop_ok _ _ _ _ 8 1 _ (Z.to_nat n) H8) in Hf.
  apply fill_loop_done; [done|done|]. destruct Hf as (k & ? & ? & ? & _). lia.
Qed.

(** ** Copying strings *)

(** A copy upwards of [k] bytes reads what it has not written. *)
Definition safe (d s k : Z) : Prop := d <= s \/ s + k <= d.

(** [k] elements copied to [d], [z] NULs after them *)
Definition placed (w : nat) (m : gmem) (d s k z : Z) : gmem :=
  fill (copy m d s (Z.of_nat w * k)) (at_elt w d k) 0 (Z.of_nat w * z).

Lemma placed_copy w m m' d s k : mem_eq m' (copy m d s (Z.of_nat w * k)) ->
  mem_eq (set_elt w m' (at_elt w d k) 0) (placed w m d s k 1).
Proof.
  intros H x. rewrite (set_elt_fill w _ _ 0 0 (repeats_zero w)). unfold placed, fill.
  by rewrite H, Z.mul_1_r.
Qed.

Lemma elt_ext w m m' p : (forall x, p <= x < p + Z.of_nat w -> m x = m' x) -> elt w m p = elt w m' p.
Proof. apply load_le_ext. Qed.

Lemma str_at_ext w m m' l : forall p,
  (forall x, p <= x < at_elt w p (len l + 1) -> m x = m' x) -> str_at w m p l -> str_at w m' p l.
Proof.
  induction l as [|c l IH]; intros p He H; cbn in H |- *.
  - rewrite <- H. symmetry. apply elt_ext. intros x Hx. apply He. unfold at_elt, len. cbn. lia.
  - destruct H as (<- & Hc & H). split; [|split; [done|]].
    + symmetry. apply elt_ext. intros x Hx. apply He. rewrite len_cons. unfold at_elt, len. nia.
    + apply IH; [|done]. intros x Hx. apply He. rewrite len_cons. unfold at_elt in *. nia.
Qed.

Lemma before_nul_ext w m m' n : forall p,
  (forall x, p <= x < at_elt w p (Z.min (Z.of_nat n) (len (before_nul (elts w m p n)) + 1)) -> m x = m' x) ->
  before_nul (elts w m' p n) = before_nul (elts w m p n).
Proof.
  induction n as [|n IH]; intros p He; [done|]. cbn [elts before_nul] in He |- *.
  assert (elt w m' p = elt w m p) as ->.
  { symmetry. apply elt_ext. intros x Hx. apply He. unfold at_elt, len. nia. }
  destruct (Z.eqb_spec (elt w m p) 0); [done|]. f_equal. apply IH. intros x Hx. apply He.
  rewrite len_cons. unfold at_elt in *. nia.
Qed.

Lemma before_nul_len w m p n : 0 <= len (before_nul (elts w m p n)) <= Z.of_nat n.
Proof.
  split; [unfold len; lia|]. revert p. induction n as [|n IH]; intros p; cbn [elts before_nul].
  - done.
  - destruct (_ =? 0); [unfold len; cbn; lia|]. rewrite len_cons. specialize (IH (at_elt w p 1)). lia.
Qed.

(** One element copied, then [k] more *)
Lemma copy_one_more w m m1 m' d s k : bytes_ok m -> 0 <= k -> safe d s (at_elt w 0 (k + 1)) ->
  m1 = move_elt w m d s ->
  mem_eq m' (copy m1 (at_elt w d 1) (at_elt w s 1) (Z.of_nat w * k)) ->
  mem_eq m' (copy m d s (Z.of_nat w * Z.succ k)).
Proof.
  intros Hm Hk Hs -> H x. rewrite H. unfold copy at 1. rewrite !(move_elt_copy w m d s Hm).
  unfold copy, at_elt, safe in *. assert (0 <= Z.of_nat w * k) by nia.
  rewrite Z.mul_succ_r. ztest; try lia; try done; f_equal; lia.
Qed.

Lemma move_elt_ok w m d s : bytes_ok m -> bytes_ok (move_elt w m d s).
Proof. apply store_le_ok. Qed.

(** Outside of the element written *)
Lemma move_elt_other w m d s x : x < d \/ d + Z.of_nat w <= x -> move_elt w m d s x = m x.
Proof. apply store_le_outside. Qed.

Lemma copy_str_spec w l : forall fuel m d s, bytes_ok m -> str_at w m s l -> (length l < fuel)%nat ->
  safe d s (at_elt w 0 (len l + 1)) ->
  exists m', copy_str fuel w m d s = Some (m', at_elt w d (len l), at_elt w s (len l)) /\
    mem_eq m' (copy m d s (Z.of_nat w * len l)).
Proof.
  induction l as [|c l IH]; intros [|fuel] m d s Hm H Hf Hs; cbn [length] in Hf; try lia;
    cbn [copy_str].
  - cbn in H. rewrite H, Z.eqb_refl. unfold len at 1 2. rewrite !at_elt_0. eexists. split; [done|].
    replace (Z.of_nat w * len []) with 0 by (unfold len; cbn; lia). apply copy_0.
  - destruct H as (-> & Hc & H). rewrite (proj2 (Z.eqb_neq _ _) Hc). rewrite len_cons in Hs.
    destruct (IH fuel (move_elt w m d s) (at_elt w d 1) (at_elt w s 1)) as (m' & -> & Hm').
    + by apply move_elt_ok.
    + eapply str_at_ext; [|done]. intros x Hx. rewrite move_elt_other; [done|].
      unfold safe, at_elt, len in *. nia.
    + lia.
    + unfold safe, at_elt in *. nia.
    + rewrite !at_elt_next, !len_cons. eexists. split; [done|].
      eapply copy_one_more; [done|unfold len; lia| |done|done].
      unfold safe, at_elt in *. nia.
Qed.

Lemma copy_upto_spec w n : forall c, let L := before_nul (elts w (cc_mem c) (cc_src c) n) in
  bytes_ok (cc_mem c) -> safe (cc_dst c) (cc_src c) (at_elt w 0 (Z.min (Z.of_nat n) (len L + 1))) ->
  exists m', copy_upto n w c = mk_cc m' (at_elt w (cc_dst c) (len L)) (at_elt w (cc_src c) (len L))
      (cc_m c + len L) /\
    mem_eq m' (copy (cc_mem c) (cc_dst c) (cc_src c) (Z.of_nat w * len L)).
Proof.
  induction n as [|n IH]; intros [m d s k] L; unfold L; clear L; cbn [cc_mem cc_dst cc_src cc_m];
    intros Hm Hs; cbn [copy_upto elts before_nul cc_mem cc_dst cc_src cc_m] in Hs |- *.
  { unfold len. cbn [length]. rewrite !at_elt_0, Z.add_0_r. eexists. split; [done|].
    rewrite Z.mul_0_r. apply copy_0. }
  destruct (Z.eqb_spec (elt w m s) 0).
  { unfold len. cbn [length]. rewrite !at_elt_0, Z.add_0_r. eexists. split; [done|].
    rewrite Z.mul_0_r. apply copy_0. }
  set (m1 := move_elt w m d s).
  assert (before_nul (elts w m1 (at_elt w s 1) n) = before_nul (elts w m (at_elt w s 1) n)) as EL.
  { apply before_nul_ext. intros x Hx. symmetry. apply move_elt_other. rewrite len_cons in Hs.
    unfold safe, at_elt in *. nia. }
  destruct (IH (mk_cc m1 (at_elt w d 1) (at_elt w s 1) (k + 1))) as (m' & -> & Hm');
    cbn [cc_mem cc_dst cc_src cc_m].
  - by apply move_elt_ok.
  - rewrite EL. rewrite len_cons in Hs. unfold safe, at_elt in *. nia.
  - rewrite EL, !at_elt_next, !len_cons. eexists. split; [f_equal; lia|].
    cbn [cc_mem cc_dst cc_src cc_m] in Hm'. rewrite EL in Hm'.
    eapply copy_one_more; [done|unfold len; lia| |done|done].
    pose proof (before_nul_len w m (at_elt w s 1) n) as Hl.
    rewrite len_cons in Hs. unfold safe, at_elt in *. nia.
Qed.

Lemma fill_ext m m' d v k : mem_eq m m' -> mem_eq (fill m d v k) (fill m' d v k).
Proof. intros H x. unfold fill. by destruct (_ && _). Qed.

Lemma mem_eq_trans m1 m2 m3 : mem_eq m1 m2 -> mem_eq m2 m3 -> mem_eq m1 m3.
Proof. intros H1 H2 x. by rewrite H1. Qed.

Lemma pad_loop_spec w n : forall m d, mem_eq (pad_loop n w m d) (fill m d 0 (Z.of_nat w * Z.of_nat n)).
Proof.
  induction n as [|n IH]; intros m d x; cbn [pad_loop].
  - unfold fill. ztest; done || lia.
  - rewrite IH. unfold fill at 1. rewrite (set_elt_fill w _ _ 0 0 (repeats_zero w)).
    unfold fill, at_elt. rewrite Nat2Z.inj_succ, Z.mul_succ_r.
    assert (0 <= Z.of_nat w * Z.of_nat n) by nia. ztest; try done; lia.
Qed.

(** What [strncpy] and its variants share *)
Lemma copy_pad w m d s n : bytes_ok m -> 0 <= n ->
  let k := len (before_nul (elts w m s (Z.to_nat n))) in
  safe d s (at_elt w 0 (Z.min n (k + 1))) ->
  let c := copy_upto (Z.to_nat n) w (mk_cc m d s 0) in
  cc_dst c = at_elt w d k /\ cc_src c = at_elt w s k /\
  mem_eq (pad_loop (Z.to_nat (n - cc_m c)) w (cc_mem c) (cc_dst c)) (placed w m d s k (n - k)).
Proof.
  intros Hm Hn k Hs c. destruct (copy_upto_spec w (Z.to_nat n) (mk_cc m d s 0) Hm) as (m' & E & Hm').
  { cbn [cc_mem cc_dst cc_src]. by rewrite Z2Nat.id. }
  fold c in E. cbn [cc_mem cc_dst cc_src cc_m] in E, Hm'. fold k in E, Hm'. rewrite E.
  cbn [cc_mem cc_dst cc_src cc_m]. do 2 (split; [done|]). eapply mem_eq_trans; [apply pad_loop_spec|].
  pose proof (before_nul_len w m s (Z.to_nat n)) as Hk. fold k in Hk.
  unfold placed. rewrite Z.add_0_l, Z2Nat.id by lia. by apply fill_ext.
Qed.

Lemma before_nul_str w m l : forall p n, str_at w m p l -> before_nul (elts w m p n) = take n l.
Proof.
  induction l as [|c l IH]; intros p [|n] H; cbn in H |- *; try done.
  - by rewrite H, Z.eqb_refl.
  - destruct H as (-> & Hc & H). rewrite (proj2 (Z.eqb_neq _ _) Hc). f_equal. by apply IH.
Qed.

Lemma len_take n l : 0 <= n -> len (take (Z.to_nat n) l) = Z.min n (len l).
Proof. intros Hn. unfold len. rewrite length_take. lia. Qed.

Lemma load_le_zero k m a : bytes_ok m -> load_le k m a = 0 -> forall i, 0 <= i < Z.of_nat k -> m (a + i) = 0.
Proof.
  intros Hm. revert a. induction k as [|k IH]; intros a H i Hi; [lia|].
  destruct (load_le_cons k m a Hm) as [_ E]. rewrite E in H.
  pose proof (Hm a). pose proof (load_le_range k m (a + 1) Hm).
  destruct (decide (i = 0)) as [->|]; [rewrite Z.add_0_r; lia|].
  replace (a + i) with (a + 1 + (i - 1)) by lia. apply IH; lia.
Qed.

Lemma str_at_nul w m l : forall p, str_at w m p l -> elt w m (at_elt w p (len l)) = 0.
Proof.
  induction l as [|c l IH]; intros p H; cbn in H.
  - unfold len. by rewrite at_elt_0.
  - rewrite len_cons, <- at_elt_next. apply IH, H.
Qed.

(** The NUL after the copy is the NUL of the string. *)
Lemma placed_str w m d s l : bytes_ok m -> str_at w m s l ->
  mem_eq (placed w m d s (len l) 1) (copy m d s (Z.of_nat w * (len l + 1))).
Proof.
  intros Hm H x. unfold placed, fill, copy.
  pose proof (load_le_zero w m _ Hm (str_at_nul w m l s H)) as Hz. unfold at_elt in *.
  assert (0 <= Z.of_nat w * len l) by (unfold len; nia).
  rewrite Z.mul_add_distr_l, Z.mul_1_r. ztest; try lia; try done.
  rewrite <- (Hz (x - (d + Z.of_nat w * len l))) by lia. f_equal. lia.
Qed.

(** ... and the destination holds the string. *)
Lemma load_le_shift k m m' a b : (forall i, 0 <= i < Z.of_nat k -> m' (a + i) = m (b + i)) ->
  load_le k m' a = load_le k m b.
Proof.
  revert a b. induction k as [|k IH]; intros a b H; [done|]. cbn [load_le]. f_equal.
  - specialize (H 0 ltac:(lia)). by rewrite !Z.add_0_r in H.
  - f_equal. apply IH. intros i Hi. rewrite <- !Z.add_assoc. apply H. lia.
Qed.

Lemma str_at_moved w m m' l : forall d s,
  (forall i, 0 <= i < at_elt w 0 (len l + 1) -> m' (d + i) = m (s + i)) ->
  str_at w m s l -> str_at w m' d l.
Proof.
  induction l as [|c l IH]; intros d s He H; cbn in H |- *.
  - rewrite <- H. apply load_le_shift. intros i Hi. apply He. unfold at_elt, len. cbn. lia.
  - destruct H as (<- & Hc & H). rewrite len_cons in He. split; [|split; [done|]].
    + apply load_le_shift. intros i Hi. apply He. unfold at_elt, len. nia.
    + apply (IH _ (at_elt w s 1)); [|done]. intros i Hi. unfold at_elt in *.
      rewrite <- !Z.add_assoc. apply He. nia.
Qed.

Lemma str_at_copied w m m' d s l : str_at w m s l ->
  mem_eq m' (copy m d s (Z.of_nat w * (len l + 1))) -> str_at w m' d l.
Proof.
  intros H Hm'. apply (str_at_moved w m m' l d s); [|done]. intros i Hi. rewrite Hm'. unfold copy.
  unfold at_elt in Hi. ztest; try lia. f_equal. lia.
Qed.

Lemma str_at_app w m l1 l2 : forall p, Forall (fun c => c <> 0) l1 -> elts w m p (length l1) = l1 ->
  str_at w m (at_elt w p (len l1)) l2 -> str_at w m p (l1 ++ l2).
Proof.
  induction l1 as [|c l1 IH]; intros p Hl He H; cbn [length elts app] in *.
  - unfold len in H. by rewrite at_elt_0 in H.
  - inversion Hl; subst. injection He as Ec He. split; [done|]. split; [done|].
    apply IH; [done|done|]. by rewrite at_elt_next, <- (len_cons c).
Qed.

Lemma elts_ext w m m' n : forall p, (forall x, p <= x < at_elt w p (Z.of_nat n) -> m x = m' x) ->
  elts w m p n = elts w m' p n.
Proof.
  induction n as [|n IH]; intros p He; [done|]. cbn [elts]. f_equal.
  - apply elt_ext. intros x Hx. apply He. unfold at_elt. nia.
  - apply IH. intros x Hx. apply He. unfold at_elt in *. nia.
Qed.

(** ** The functions that copy strings *)

Lemma skip_str_spec m l : forall fuel p, str_at char m p l -> (length l < fuel)%nat ->
  skip_str fuel m p = Some (p + len l).
Proof.
  induction l as [|c l IH]; intros [|fuel] p H Hf; cbn in H, Hf |- *; try lia.
  - rewrite H, Z.eqb_refl. f_equal. unfold len. cbn. lia.
  - destruct H as (-> & Hc & H). rewrite (proj2 (Z.eqb_neq _ _) Hc), len_cons.
    rewrite at_elt_char in H. rewrite IH by (done || lia). f_equal. lia.
Qed.

Lemma count_str_spec m l : forall fuel k p, str_at char m p l -> (length l < fuel)%nat ->
  count_str fuel m k p = Some (k + len l).
Proof.
  induction l as [|c l IH]; intros [|fuel] k p H Hf; cbn in H, Hf |- *; try lia.
  - rewrite H, Z.eqb_refl. f_equal. unfold len. cbn. lia.
  - destruct H as (-> & Hc & H). rewrite (proj2 (Z.eqb_neq _ _) Hc), len_cons.
    rewrite at_elt_char in H. rewrite IH by (done || lia). f_equal. lia.
Qed.

Lemma skip_upto_spec m n : forall k p, let j := len (before_nul (elts char m p n)) in
  skip_upto n m k p = (k + j, p + j).
Proof.
  induction n as [|n IH]; intros k p; cbn [skip_upto elts before_nul].
  { unfold len. cbn. by rewrite !Z.add_0_r. }
  destruct (Z.eqb_spec (elt char m p) 0); [unfold len; cbn; by rewrite !Z.add_0_r|].
  rewrite IH, len_cons, at_elt_char. f_equal; lia.
Qed.

(** [strcpy], [stpcpy], [wcscpy] and the end of [strcat] *)
Lemma copy_str_nul w fuel m d s l : bytes_ok m -> str_at w m s l -> (length l < fuel)%nat ->
  safe d s (at_elt w 0 (len l + 1)) ->
  exists m' s', copy_str fuel w m d s = Some (m', at_elt w d (len l), s') /\
    mem_eq (set_elt w m' (at_elt w d (len l)) 0) (copy m d s (Z.of_nat w * (len l + 1))).
Proof.
  intros Hm H Hf Hs. destruct (copy_str_spec w l fuel m d s Hm H Hf Hs) as (m' & E & Hm').
  exists m', (at_elt w s (len l)). split; [done|].
  eapply mem_eq_trans; [by apply placed_copy|by apply placed_str].
Qed.

(** The checked copies: all of the string when it fits, else what fits *)
Lemma chk_loop_spec l : forall n m d s, bytes_ok m -> str_at char m s l -> safe d s (len l + 1) ->
  exists m', mem_eq m' (copy m d s (Z.min (Z.of_nat n) (len l + 1))) /\
    chk_loop n m d s = (m', if len l <? Z.of_nat n then Some (d + len l + 1) else None).
Proof.
  induction l as [|c l IH]; intros [|n] m d s Hm H Hs; cbn [chk_loop].
  1,3: exists m; rewrite Z.min_l by (unfold len; cbn; lia); split; [apply copy_0|];
    by rewrite (proj2 (Z.ltb_ge _ _)) by (unfold len; cbn; lia).
  all: assert (elt char (move_elt char m d s) d = elt char m s) as ->
    by (by apply load_store_same, load_le_range).
  - cbn in H. rewrite H, Z.eqb_refl. exists (move_elt char m d s). split.
    + replace (Z.min (Z.of_nat (S n)) (len [] + 1)) with 1 by (unfold len; cbn; lia).
      by apply (move_elt_copy char).
    + rewrite (proj2 (Z.ltb_lt _ _)) by (unfold len; cbn; lia). unfold len. cbn. do 2 f_equal. lia.
  - destruct H as (-> & Hc & H). rewrite (proj2 (Z.eqb_neq _ _) Hc). rewrite len_cons in Hs |- *.
    rewrite at_elt_char in H.
    destruct (IH n (move_elt char m d s) (d + 1) (s + 1)) as (m' & Hm' & ->).
    + by apply move_elt_ok.
    + eapply str_at_ext; [|done]. intros x Hx. rewrite move_elt_other; [done|].
      unfold safe, at_elt, char, len in *. lia.
    + unfold safe in *. lia.
    + exists m'. rewrite Nat2Z.inj_succ. split.
      * replace (Z.min (Z.succ (Z.of_nat n)) (Z.succ (len l) + 1))
          with (Z.succ (Z.min (Z.of_nat n) (len l + 1))) by lia.
        pose proof (copy_one_more char m (move_elt char m d s) m' d s (Z.min (Z.of_nat n) (len l + 1)) Hm) as Ho.
        rewrite !at_elt_char, !Z.mul_1_l in Ho. apply Ho; [unfold len; lia| |done|done].
        unfold safe in *. lia.
      * f_equal. destruct (Z.ltb_spec (len l) (Z.of_nat n)), (Z.ltb_spec (Z.succ (len l)) (Z.succ (Z.of_nat n)));
          try lia; [f_equal; lia|done].
Qed.

Lemma index_of_range P l : forall i, index_of P l = Some i -> 0 <= i < Z.of_nat (length l).
Proof.
  induction l as [|c l IH]; intros i H; cbn [index_of length] in *; [done|].
  destruct (P c); [injection H as <-; lia|].
  destruct (index_of P l) as [j|]; [|done]. cbn in H. injection H as <-.
  specialize (IH j eq_refl). lia.
Qed.

Lemma memccpy_loop_spec x n : forall m d s, bytes_ok m -> safe d s (Z.of_nat n) ->
  exists m', match index_of (fun c => c =? x) (elts char m s n) with
    | Some i => mem_eq m' (copy m d s (i + 1)) /\ memccpy_loop n m d s x = (m', d + i + 1)
    | None => mem_eq m' (copy m d s (Z.of_nat n)) /\ memccpy_loop n m d s x = (m', 0)
    end.
Proof.
  induction n as [|n IH]; intros m d s Hm Hs; cbn [memccpy_loop elts index_of].
  { exists m. split; [apply copy_0|done]. }
  assert (elt char (move_elt char m d s) d = elt char m s) as ->
    by (by apply load_store_same, load_le_range).
  destruct (elt char m s =? x).
  { exists (move_elt char m d s). split; [by apply (move_elt_copy char)|]. f_equal. lia. }
  set (m1 := move_elt char m d s). rewrite at_elt_char.
  assert (elts char m1 (s + 1) n = elts char m (s + 1) n) as EL.
  { symmetry. apply elts_ext. intros y Hy. symmetry. apply move_elt_other.
    unfold safe, at_elt, char in *. lia. }
  destruct (IH m1 (d + 1) (s + 1)) as (m' & H); [by apply move_elt_ok|unfold safe in *; lia|].
  rewrite EL in H. exists m'. pose proof (copy_one_more char m m1 m' d s) as Ho.
  destruct (index_of _ _) as [i|] eqn:Ei; destruct H as [Hm' ->]; cbn [fmap option_fmap option_map].
  - assert (0 <= i < Z.of_nat n) as Hi by (by apply index_of_range in Ei; rewrite elts_length in Ei).
    specialize (Ho (i + 1) Hm). rewrite !at_elt_char, !Z.mul_1_l in Ho.
    split; [|f_equal; lia]. replace (Z.succ i + 1) with (Z.succ (i + 1)) by lia.
    apply Ho; [lia|unfold safe in *; lia|done|done].
  - specialize (Ho (Z.of_nat n) Hm). rewrite !at_elt_char, !Z.mul_1_l in Ho.
    split; [|done]. rewrite Nat2Z.inj_succ. apply Ho; [lia|unfold safe in *; lia|done|done].
Qed.

Lemma str_at_drop w m l : forall p k, str_at w m p l -> (k <= length l)%nat ->
  str_at w m (at_elt w p (Z.of_nat k)) (drop k l).
Proof.
  induction l as [|c l IH]; intros p [|k] H Hk; cbn [length drop] in *; try lia;
    rewrite ?at_elt_0; try done.
  rewrite Nat2Z.inj_succ, <- at_elt_next. apply IH; [apply H|lia].
Qed.

(** A copy to [d] leaves the rest of the string as it was. *)
Definition str_apart (d s : Z) (l : list Z) : Prop := d < s \/ s + len l + 1 <= d.

Lemma str_apart_safe d s l k : str_apart d s l -> k <= len l + 1 -> safe d s k.
Proof. unfold str_apart, safe. lia. Qed.

Lemma rest_of_string m m' d s l k : str_at char m s l -> str_apart d s l -> 0 <= k <= len l ->
  mem_eq m' (placed char m d s k 1) -> str_at char m' (s + k) (drop (Z.to_nat k) l).
Proof.
  intros H Ha Hk Hm'. apply (str_at_ext char m).
  - intros x Hx. rewrite Hm'. unfold placed, fill, copy, str_apart, at_elt, char in *.
    unfold len in *. rewrite length_drop in Hx. ztest; try done; lia.
  - replace (s + k) with (at_elt char s (Z.of_nat (Z.to_nat k))) by (rewrite at_elt_char; lia).
    apply str_at_drop; [done|unfold len in Hk; lia].
Qed.

(** The copy of at most [n] characters with a NUL, and what is left of the
    source *)
Lemma copy_upto_nul m d s l n j : bytes_ok m -> str_at char m s l -> str_apart d s l -> 0 <= n ->
  let k := Z.min n (len l) in
  let c := copy_upto (Z.to_nat n) char (mk_cc m d s j) in
  exists m', mem_eq m' (placed char m d s k 1) /\
    cc_src c = s + k /\ cc_m c = j + k /\ set_elt char (cc_mem c) (cc_dst c) 0 = m'.
Proof.
  intros Hm H Ha Hn k c.
  pose proof (copy_upto_spec char (Z.to_nat n) (mk_cc m d s j)) as Hc. cbn [cc_mem cc_dst cc_src cc_m] in Hc.
  rewrite (before_nul_str char m l s _ H), (len_take n l Hn) in Hc. fold k in Hc.
  destruct Hc as (m' & E & Hm'); [done|eapply str_apart_safe; [done|rewrite at_elt_char; lia]|].
  unfold c. rewrite E. cbn [cc_mem cc_dst cc_src cc_m]. eexists.
  split; [by apply placed_copy|]. by rewrite at_elt_char.
Qed.

Lemma len_drop k l : 0 <= k <= len l -> k + len (drop (Z.to_nat k) l) = len l.
Proof. unfold len. rewrite length_drop. lia. Qed.

Lemma drop_fuel k (l : list Z) fuel : (length l < fuel)%nat -> (length (drop k l) < fuel)%nat.
Proof. rewrite length_drop. lia. Qed.

Lemma STRLCPY_spec fuel m dst src l n : bytes_ok m -> str_at char m src l -> (length l < fuel)%nat ->
  str_apart dst src l -> 0 <= n ->
  exists m', STRLCPY fuel m dst src n = Some (m', len l) /\
    mem_eq m' (if 0 <? n then placed char m dst src (Z.min (n - 1) (len l)) 1 else m).
Proof.
  intros Hm H Hf Ha Hn. unfold STRLCPY. destruct (Z.ltb_spec 0 n).
  - destruct (copy_upto_nul m dst src l (n - 1) 0 Hm H Ha ltac:(lia)) as (m' & Hm' & -> & _ & ->).
    set (k := Z.min (n - 1) (len l)) in *.
    assert (0 <= k <= len l) as Hk by (pose proof (len_nonneg l); lia).
    pose proof (rest_of_string m m' dst src l k H Ha Hk Hm') as Hr.
    rewrite (skip_str_spec m' _ fuel _ Hr) by (by apply drop_fuel). exists m'. split; [|done].
    pose proof (len_drop k l Hk). do 2 f_equal. lia.
  - replace (Z.to_nat (n - 1)) with O by lia. cbn [copy_upto cc_mem cc_src].
    rewrite (skip_str_spec m l fuel src H Hf). exists m. split; [|done]. do 2 f_equal. lia.
Qed.

Lemma STRLCAT_spec fuel m dst src l0 l n : bytes_ok m -> str_at char m dst l0 -> str_at char m src l ->
  (length l < fuel)%nat -> str_apart (dst + len l0) src l -> 0 <= n ->
  exists m', STRLCAT fuel m dst src n = Some (m', Z.min n (len l0) + len l) /\
    mem_eq m' (if len l0 <? n
               then placed char m (dst + len l0) src (Z.min (n - 1 - len l0) (len l)) 1 else m).
Proof.
  intros Hm H0 H Hf Ha Hn. unfold STRLCAT. rewrite skip_upto_spec.
  rewrite (before_nul_str char m l0 dst _ H0), (len_take n l0 Hn), Z.add_0_l.
  destruct (Z.ltb_spec (len l0) n).
  - rewrite Z.min_r, (proj2 (Z.ltb_lt _ _)) by lia.
    destruct (copy_upto_nul m (dst + len l0) src l (n - 1 - len l0) (len l0) Hm H Ha ltac:(lia))
      as (m' & Hm' & Es & Ek & Em).
    set (k := Z.min (n - 1 - len l0) (len l)) in *.
    assert (0 <= k <= len l) as Hk by (pose proof (len_nonneg l); lia).
    cbn [cc_mem cc_src cc_m]. rewrite Es, Ek, Em.
    pose proof (rest_of_string m m' _ src l k H Ha Hk Hm') as Hr.
    rewrite (count_str_spec m' _ fuel _ _ Hr) by (by apply drop_fuel). exists m'. split; [|done].
    pose proof (len_drop k l Hk). do 2 f_equal. lia.
  - rewrite Z.min_l, (proj2 (Z.ltb_ge _ _)) by lia. cbn [cc_mem cc_src cc_m].
    rewrite (count_str_spec m l fuel _ src H Hf). by exists m.
Qed.

(** * The functions on lists *)

(** A checked function returns with memory [r], or ends the program with it. *)
Definition returns (o : outcome) (r : gmem) (v : Z) : Prop := exists m', o = Returned m' v /\ mem_eq m' r.
Definition terminates (o : outcome) (r : gmem) : Prop := exists m', o = Terminated m' /\ mem_eq m' r.

Lemma mempcpy_copy m d s n : 0 <= n -> mem_eq (fst (GLIBC25_MEMPCPY m d s n)) (copy m d s n) /\
  snd (GLIBC25_MEMPCPY m d s n) = d + n.
Proof.
  intros Hn. unfold GLIBC25_MEMPCPY. destruct (Z.eqb_spec n 0) as [->|]; cbn [fst snd].
  - split; [apply copy_0|lia].
  - rewrite bytes_memmove by done. split; [by apply memmove_copy|done].
Qed.

Lemma checked_copy m d s n size : 0 <= n ->
  if size <? n
  then GLIBC25___MEMMOVE_CHK m d s n size = Terminated m /\
       GLIBC26___MEMCPY_CHK m d s n size = Terminated m
  else returns (GLIBC25___MEMMOVE_CHK m d s n size) (copy m d s n) d /\
       returns (GLIBC26___MEMCPY_CHK m d s n size) (copy m d s n) d.
Proof.
  intros Hn. unfold GLIBC25___MEMMOVE_CHK, GLIBC26___MEMCPY_CHK.
  destruct (size <? n); [done|]. pose proof (memmove_copy m d s n Hn) as H.
  split; exists (memmove m d s n); (split; [|done]).
  - rewrite <- moves_memmove by done. by destruct (d <? s), (s <? d).
  - destruct (Z.eqb_spec n 0) as [->|]; [done|].
    rewrite <- bytes_memmove by done. by destruct (s <? d), (d <? s).
Qed.

Lemma first_match_nil l : first_match [] l = Some 0.
Proof. destruct l; cbn [first_match]; by rewrite decide_True by apply prefix_nil. Qed.

Lemma span_nil l : span_len (member []) l = 0.
Proof. destruct l as [|c l]; [done|]. unfold span_len, member. cbn. done. Qed.

Lemma index_none l : index_of (member []) l = None.
Proof. induction l as [|c l IH]; [done|]. cbn. by rewrite IH. Qed.

Lemma elt_byte m a : bytes_ok m -> 0 <= elt char m a < 256.
Proof. intros Hm. apply (load_le_range char m a Hm). Qed.

Lemma str_at_bytes m l : bytes_ok m -> forall p, str_at char m p l -> Forall (fun c => 0 < c < 256) l.
Proof.
  intros Hm. induction l as [|c l IH]; intros p H; [constructor|]. destruct H as (<- & Hc & H).
  pose proof (elt_byte m p Hm). constructor; [lia|by eapply IH].
Qed.

Section Needle.
Context (m : gmem) (s a : Z) (l al : list Z) (Hs : str_at char m s l) (Ha : str_at char m a al).
Context (fuel : nat) (Hl : (length l < fuel)%nat) (Hal : (length al < fuel)%nat).

Lemma needle_len : strlen_loop fuel char m a 0 = Some (len al).
Proof using Ha Hal. rewrite (strlen_loop_spec char m a al); [done|by rewrite at_elt_0|done]. Qed.

Lemma STRSPN_spec : STRSPN fuel m s a = Some (span_len (member al) l).
Proof using Hs Ha Hl Hal.
  unfold STRSPN. rewrite needle_len, len_pos. destruct al as [|c al'] eqn:E; [by rewrite span_nil|].
  rewrite <- E in *. by rewrite (strspn_loop_spec m a al Ha l fuel s 0 Hs Hl).
Qed.

Lemma STRCSPN_spec : STRCSPN fuel m s a = Some (span_len (fun c => negb (member al c)) l).
Proof using Hs Ha Hl Hal.
  unfold STRCSPN. rewrite needle_len. by rewrite (strcspn_loop_spec m a al Ha l fuel s 0 Hs Hl).
Qed.

Lemma STRPBRK_spec : STRPBRK fuel m s a = Some (ptr char s (index_of (member al) l)).
Proof using Hs Ha Hl Hal.
  unfold STRPBRK. rewrite needle_len, len_pos.
  destruct al as [|c al'] eqn:E; [by rewrite index_none|].
  rewrite <- E in *. by rewrite (strpbrk_loop_spec m a al Ha l fuel s Hs Hl).
Qed.

Lemma STRSTR_spec : STRSTR fuel m s a = Some (ptr char s (first_match al l)).
Proof using Hs Ha Hl Hal.
  unfold STRSTR. rewrite needle_len, len_pos.
  destruct al as [|c al'] eqn:E; [rewrite first_match_nil; cbn; by rewrite at_elt_0|].
  rewrite <- E in *. pose proof (str_at_nonzero char m al a Ha) as Hnz.
  rewrite Forall_forall in Hnz. change (elt char m a) with (id (elt char m a)).
  rewrite (STRSTR_loop_spec id id m a al Ha) with (hl := l); [|by rewrite E|done|done|done|done|done].
  by rewrite !list_fmap_id.
Qed.

(** ... with [tolower] on signed characters *)
Lemma STRCASESTR_spec tolower : bytes_ok m ->
  (forall c, 0 <= c < 256 -> as_byte (tolower (as_HChar c)) = 0 <-> c = 0) ->
  let low := fun c => tolower (as_HChar c) in
  STRCASESTR tolower fuel m s a = Some (ptr char s (first_match (low <$> al) (low <$> l))).
Proof using Hs Ha Hl Hal.
  intros Hm Ht low. unfold STRCASESTR. rewrite needle_len, len_pos.
  destruct al as [|c al'] eqn:E; [cbn [fmap list_fmap]; rewrite first_match_nil; cbn; by rewrite at_elt_0|].
  rewrite <- E in *. pose proof (str_at_bytes m al Hm a Ha) as Hnz.
  pose proof (str_at_bytes m l Hm s Hs) as Hlz. rewrite Forall_forall in Hnz, Hlz. fold low.
  rewrite (STRSTR_loop_spec low (fun c => as_byte (low c)) m a al Ha) with (hl := l);
    [done|by rewrite E| |by intros ? ? ->| |done|done].
  - intros d Hd Hlow. pose proof (Hnz d Hd) as Hb. assert (d = 0); [|lia].
    apply Ht; [lia|]. fold (low d). rewrite Hlow. by apply Ht.
  - intros d [->|Hd]%elem_of_cons; apply Ht; [lia|]. specialize (Hlz d Hd). lia.
Qed.
End Needle.

Lemma MEMMEM_spec m h hlen n nlen : 0 <= hlen -> 0 <= nlen ->
  MEMMEM m h hlen n nlen =
    ptr char h (first_match (elts char m n (Z.to_nat nlen)) (elts char m h (Z.to_nat hlen))).
Proof.
  intros Hh Hn. unfold MEMMEM. destruct (Z.eqb_spec nlen 0) as [->|Hne].
  { cbn [Z.to_nat elts]. rewrite first_match_nil. cbn. by rewrite at_elt_0. }
  pose proof (memmem_loop_spec m n (elts char m n (Z.to_nat nlen))) as H.
  rewrite elts_length in H. specialize (H eq_refl).
  assert (elts char m n (Z.to_nat nlen) <> []) as Hnil
    by (intros E; apply (f_equal length) in E; rewrite elts_length in E; cbn in E; lia).
  specialize (H Hnil (Z.to_nat hlen) (Z.to_nat (hlen + 1)) h ltac:(lia)).
  unfold len in H. by rewrite elts_length, !Z2Nat.id in H by lia.
Qed.

Lemma take_before_nul w m l p n : str_at w m p l ->
  strnlen_loop n w m p 0 = Z.min (Z.of_nat n) (len l).
Proof.
  intros H. rewrite strnlen_loop_spec, at_elt_0, (before_nul_str w m l) by done.
  unfold len. rewrite length_take. lia.
Qed.

(** The order of strings does not depend on the NUL after them when their
    characters are positive. *)
Lemma lex_nul l1 : forall l2, Forall (fun c => 0 < c) l1 -> Forall (fun c => 0 < c) l2 ->
  lex (l1 ++ [0]) (l2 ++ [0]) = lex l1 l2.
Proof.
  induction l1 as [|c1 l1 IH]; intros [|c2 l2] H1 H2; [done| | |]; cbn [app lex].
  - by rewrite (proj2 (Z.ltb_lt 0 c2)) by apply (Forall_inv H2).
  - pose proof (Forall_inv H1) as Hc. cbn in Hc.
    by rewrite (proj2 (Z.ltb_ge c1 0)), (proj2 (Z.ltb_lt 0 c1)) by lia.
  - by rewrite (IH l2 (Forall_inv_tail H1) (Forall_inv_tail H2)).
Qed.

Section Compare.
Context (m : gmem) (Hm : bytes_ok m) (s1 s2 : Z) (l1 l2 : list Z).
Context (H1 : str_at char m s1 l1) (H2 : str_at char m s2 l2).
Context (fuel : nat) (Hf : (length l1 + length l2 < fuel)%nat).

Lemma char_cmp key : (forall c, 0 <= c < 256 -> 0 <= key c /\ (key c = 0 <-> c = 0)) ->
  strcmp_loop fuel char key m s1 s2 = Some (lex (key <$> l1) (key <$> l2)).
Proof using Hm H1 H2 Hf.
  intros Hk. pose proof (str_at_bytes m l1 Hm s1 H1) as B1. pose proof (str_at_bytes m l2 Hm s2 H2) as B2.
  assert (forall l, Forall (fun c => 0 < c < 256) l -> Forall (fun c => 0 < c) (key <$> l)) as Hpos.
  { intros l Hl. apply Forall_fmap. eapply Forall_impl; [done|]. intros c Hc. cbn in Hc |- *.
    destruct (Hk c ltac:(lia)). lia. }
  rewrite (strcmp_loop_spec char key m l1 l2); [|..|done|done|done].
  - rewrite !fmap_app. cbn [fmap list_fmap]. rewrite (proj2 (proj2 (Hk 0 ltac:(lia))) eq_refl).
    f_equal. apply lex_nul; by apply Hpos.
  - intros c [->|Hc]%elem_of_cons; [by apply Hk|]. apply Hk.
    apply elem_of_app in Hc. rewrite Forall_forall in B1, B2.
    destruct Hc as [Hc|Hc]; [specialize (B1 c Hc)|specialize (B2 c Hc)]; lia.
Qed.

Lemma char_ncmp key n :
  strncmp_loop n char key m s1 s2 = lex (key <$> take n l1) (key <$> take n l2).
Proof using H1 H2. by rewrite strncmp_loop_spec, (before_nul_str char m l1), (before_nul_str char m l2). Qed.
End Compare.

Section Bounded.
Context (w : nat) (m : gmem) (Hm : bytes_ok m) (d s : Z) (l : list Z) (H : str_at w m s l).
Context (Hs : safe d s (at_elt w 0 (len l + 1))).

(** [strncpy] of a string, into [n] elements *)
Lemma copy_pad_str n : 0 <= n ->
  let k := Z.min n (len l) in
  let c := copy_upto (Z.to_nat n) w (mk_cc m d s 0) in
  cc_dst c = at_elt w d k /\ cc_src c = at_elt w s k /\
  mem_eq (pad_loop (Z.to_nat (n - cc_m c)) w (cc_mem c) (cc_dst c)) (placed w m d s k (n - k)).
Proof using Hm H Hs.
  intros Hn k c. pose proof (copy_pad w m d s n Hm Hn) as Hc.
  rewrite (before_nul_str w m l s _ H), (len_take n l Hn) in Hc. apply Hc.
  pose proof (len_nonneg l). unfold safe, at_elt in *. nia.
Qed.

Lemma copy_str_whole fuel : (length l < fuel)%nat -> exists m' s',
  copy_str fuel w m d s = Some (m', at_elt w d (len l), s') /\
  let m'' := set_elt w m' (at_elt w d (len l)) 0 in
  mem_eq m'' (copy m d s (Z.of_nat w * (len l + 1))) /\ str_at w m'' d l.
Proof using Hm H Hs.
  intros Hf. destruct (copy_str_nul w fuel m d s l Hm H Hf Hs) as (m' & s' & E & Hm').
  exists m', s'. do 2 (split; [done|]). by eapply str_at_copied.
Qed.
End Bounded.

Section Copies.
Context (m : gmem) (Hm : bytes_ok m) (dst src : Z) (l : list Z).
Context (Hstr : str_at char m src l) (Ha : str_apart dst src l).

Lemma safe_char : safe dst src (at_elt char 0 (len l + 1)).
Proof using Ha. eapply str_apart_safe; [done|]. rewrite at_elt_char. lia. Qed.

(** Appending to [l0], which ends at [dst], is copying to [dst]. *)
Lemma strcpy_strcat fuel : (length l < fuel)%nat -> exists m',
  STRCPY fuel m dst src = Some (m', dst) /\
  STPCPY fuel m dst src = Some (m', dst + len l) /\
  mem_eq m' (copy m dst src (len l + 1)) /\ str_at char m' dst l /\
  forall d0 l0, str_at char m d0 l0 -> d0 + len l0 = dst -> (length l0 < fuel)%nat ->
    STRCAT fuel m d0 src = Some (m', d0) /\ str_at char m' d0 (l0 ++ l).
Proof using Hm Hstr Ha.
  intros Hf. destruct (copy_str_whole char m Hm dst src l Hstr safe_char fuel Hf)
    as (m1 & s' & E & Hm' & Hd). rewrite at_elt_char in *. rewrite Z.mul_1_l in Hm'.
  exists (set_elt char m1 (dst + len l) 0). unfold STRCPY, STPCPY, STRCAT. rewrite E.
  do 4 (split; [done|]). intros d0 l0 H0 Ed Hf0. rewrite (skip_str_spec m l0 fuel d0 H0 Hf0), Ed, E.
  split; [done|]. apply str_at_app; [by eapply str_at_nonzero| |by rewrite at_elt_char, Ed].
  rewrite <- (str_at_all char m d0 l0 H0) at 2. apply elts_ext. intros x Hx.
  rewrite at_elt_char in Hx. fold (len l0) in Hx. rewrite Hm'. unfold copy. ztest; done || lia.
Qed.

Lemma strncpy_strncat n : 0 <= n -> let k := Z.min n (len l) in
  (exists m', STRNCPY m dst src n = (m', dst) /\ STPNCPY m dst src n = (m', dst + k) /\
     mem_eq m' (placed char m dst src k (n - k))) /\
  exists m', mem_eq m' (placed char m dst src k 1) /\
    forall fuel d0 l0, str_at char m d0 l0 -> d0 + len l0 = dst -> (length l0 < fuel)%nat ->
      STRNCAT fuel m d0 src n = Some (m', d0).
Proof using Hm Hstr Ha.
  intros Hn k. split.
  - destruct (copy_pad_str char m Hm dst src l Hstr safe_char n Hn) as (Ed & _ & Hp). fold k in Ed, Hp.
    unfold STRNCPY, STPNCPY. eexists. split; [done|]. split; [|done]. by rewrite Ed, at_elt_char.
  - destruct (copy_upto_nul m dst src l n 0 Hm Hstr Ha Hn) as (m' & Hm' & _ & _ & E).
    exists m'. split; [done|]. intros fuel d0 l0 H0 Ed Hf. unfold STRNCAT.
    by rewrite (skip_str_spec m l0 fuel d0 H0 Hf), Ed, E.
Qed.

(** The checked copies stop at the size they are told. *)
Lemma strcpy_checked n : 0 <= n ->
  if len l <? n
  then returns (GLIBC25___STRCPY_CHK m dst src n) (copy m dst src (len l + 1)) dst /\
       returns (GLIBC25___STPCPY_CHK m dst src n) (copy m dst src (len l + 1)) (dst + len l)
  else terminates (GLIBC25___STRCPY_CHK m dst src n) (copy m dst src n) /\
       terminates (GLIBC25___STPCPY_CHK m dst src n) (copy m dst src n).
Proof using Hm Hstr Ha.
  intros Hn. unfold GLIBC25___STRCPY_CHK, GLIBC25___STPCPY_CHK. pose proof (len_nonneg l).
  destruct (Z.eqb_spec n 0) as [->|].
  { rewrite (proj2 (Z.ltb_ge _ _)) by lia. split; exists m; (split; [done|apply copy_0]). }
  pose proof safe_char as Hs. rewrite at_elt_char in Hs.
  destruct (chk_loop_spec l (Z.to_nat n) m dst src Hm Hstr Hs) as (m' & Hm' & ->).
  rewrite Z2Nat.id in Hm' |- * by lia. destruct (Z.ltb_spec (len l) n).
  - rewrite Z.min_r in Hm' by lia. split; exists m'; (split; [f_equal; lia|done]).
  - rewrite Z.min_l in Hm' by lia. split; exists m'; done.
Qed.
End Copies.

(** Wide strings *)
Lemma wide_copied m dst src l : bytes_ok m -> str_at wchar m src l ->
  safe dst src (at_elt wchar 0 (len l + 1)) ->
  (forall fuel, (length l < fuel)%nat -> exists m', WCSCPY fuel m dst src = Some (m', dst) /\
     mem_eq m' (copy m dst src (4 * (len l + 1))) /\ str_at wchar m' dst l) /\
  forall n, 0 <= n -> let k := Z.min n (len l) in
    exists m', WCSNCPY m dst src n = (m', dst) /\ WCPNCPY m dst src n = (m', at_elt wchar dst k) /\
      mem_eq m' (placed wchar m dst src k (n - k)).
Proof.
  intros Hm H Hs. split.
  - intros fuel Hf. destruct (copy_str_whole wchar m Hm dst src l H Hs fuel Hf) as (m1 & s' & E & Hr).
    unfold WCSCPY. rewrite E. eexists. split; [done|]. apply Hr.
  - intros n Hn k. destruct (copy_pad_str wchar m Hm dst src l H Hs n Hn) as (Ed & Es & Hp).
    fold k in Ed, Es, Hp. unfold WCSNCPY, WCPNCPY. eexists. split; [done|]. split; [|done].
    rewrite Es. f_equal. unfold at_elt. lia.
Qed.

Lemma wide_cmp m s1 s2 l1 l2 fuel : bytes_ok m -> str_at wchar m s1 l1 -> str_at wchar m s2 l2 ->
  (length l1 + length l2 < fuel)%nat ->
  WCSCMP fuel m s1 s2 = Some (lex (as_Int <$> l1 ++ [0]) (as_Int <$> l2 ++ [0])).
Proof.
  intros Hm H1 H2 Hf. apply strcmp_loop_spec; [|done|done|done].
  assert (forall l s, str_at wchar m s l -> Forall (fun c => 0 <= c < 2 ^ 32) l) as Hr.
  { induction l as [|c l IH]; intros s H; [constructor|]. destruct H as (<- & _ & H).
    constructor; [apply (load_le_range wchar m s Hm)|by eapply IH]. }
  pose proof (Hr l1 s1 H1) as R1. pose proof (Hr l2 s2 H2) as R2. rewrite Forall_forall in R1, R2.
  intros c Hc. assert (0 <= c < 2 ^ 32) as Hb.
  { apply elem_of_cons in Hc as [->|[Hc|Hc]%elem_of_app]; [lia|by apply R1|by apply R2]. }
  unfold as_Int. destruct (Z.ltb_spec c (2 ^ 31)); lia.
Qed.

Lemma wide_ncmp m s1 s2 l1 l2 n : str_at wchar m s1 l1 -> str_at wchar m s2 l2 ->
  WCSNCMP m s1 s2 n = lex (as_Int <$> take (Z.to_nat n) l1) (as_Int <$> take (Z.to_nat n) l2).
Proof.
  intros H1 H2. unfold WCSNCMP.
  by rewrite strncmp_loop_spec, (before_nul_str wchar m l1), (before_nul_str wchar m l2).
Qed.
