(* ===== verification/LibcSort.v ===== *)
(** The Bentley-McIlroy quicksort of [coregrind/m_libcbase.c], behind
    [VG_(ssort)].  An array is a function from element indices; a [Char*]
    into it is the index of the element it points to, so that [es], the size
    of an element, does not appear: exchanging two elements byte by byte or
    word by word ([bm_swapfunc]) exchanges the elements. *)
From stdpp Require Import base list.
From Stdlib Require Import ZArith Lia.
From S2P Require Import Prelude.
Open Scope Z_scope.

Section Sort.
Context {A : Type} (cmp : A -> A -> Z).

Definition array := Z -> A.

(** [BM_SWAP] *)
Definition swap (m : array) (i j : Z) : array :=
  fun x => if x =? i then m j else if x =? j then m i else m x.

(** [BM_VECSWAP]: [n] elements from [a] with [n] elements from [b] *)
Fixpoint vecswap (n : nat) (m : array) (a b : Z) : array :=
  match n with O => m | S n => vecswap n (swap m a b) (a + 1) (b + 1) end.

Definition bm_med3 (m : array) (a b c : Z) : Z :=
  if cmp (m a) (m b) <? 0
  then (if cmp (m b) (m c) <? 0 then b else if cmp (m a) (m c) <? 0 then c else a)
  else (if 0 <? cmp (m b) (m c) then b else if 0 <? cmp (m a) (m c) then c else a).

(** The insertion sort for fewer than seven elements *)
Fixpoint sink (fuel : nat) (m : array) (a pl : Z) : array :=
  match fuel with
  | O => m
  | S fuel =>
      if (a <? pl) && (0 <? cmp (m (pl - 1)) (m pl))
      then sink fuel (swap m pl (pl - 1)) a (pl - 1) else m
  end.

Fixpoint insertion (k : nat) (m : array) (a pm : Z) : array :=
  match k with
  | O => m
  | S k => insertion k (sink (Z.to_nat (pm - a)) m a pm) a (pm + 1)
  end.

(** The pivot: a copy of the element ([swaptype] 0), or the element at
    the start of the array, read again at every comparison *)
Definition pv (pivot : option A) (a : Z) (m : array) : A :=
  match pivot with Some v => v | None => m a end.

Record part := mk_part { arr : array; pa : Z; pb : Z; pc : Z; pd : Z }.

(** [while (pb <= pc && (r = cmp(pb, pv)) <= 0)] *)
Fixpoint scan_up (fuel : nat) (pivot : option A) (a : Z) (s : part) : part :=
  match fuel with
  | O => s
  | S fuel =>
      if (pb s <=? pc s) then
        let r := cmp (arr s (pb s)) (pv pivot a (arr s)) in
        if r <=? 0 then
          if r =? 0
          then scan_up fuel pivot a
                 (mk_part (swap (arr s) (pa s) (pb s)) (pa s + 1) (pb s + 1) (pc s) (pd s))
          else scan_up fuel pivot a (mk_part (arr s) (pa s) (pb s + 1) (pc s) (pd s))
        else s
      else s
  end.

(** [while (pc >= pb && (r = cmp(pc, pv)) >= 0)] *)
Fixpoint scan_down (fuel : nat) (pivot : option A) (a : Z) (s : part) : part :=
  match fuel with
  | O => s
  | S fuel =>
      if (pb s <=? pc s) then
        let r := cmp (arr s (pc s)) (pv pivot a (arr s)) in
        if 0 <=? r then
          if r =? 0
          then scan_down fuel pivot a
                 (mk_part (swap (arr s) (pc s) (pd s)) (pa s) (pb s) (pc s - 1) (pd s - 1))
          else scan_down fuel pivot a (mk_part (arr s) (pa s) (pb s) (pc s - 1) (pd s))
        else s
      else s
  end.

(** The partition loop [for (;;)] *)
Fixpoint partition (fuel : nat) (pivot : option A) (a : Z) (s : part) : part :=
  match fuel with
  | O => s
  | S fuel =>
      let steps := Z.to_nat (pc s - pb s + 1) in
      let s := scan_up steps pivot a s in
      let s := scan_down steps pivot a s in
      if pc s <? pb s then s
      else partition fuel pivot a
             (mk_part (swap (arr s) (pb s) (pc s)) (pa s) (pb s + 1) (pc s - 1) (pd s))
  end.

(** The index of the pivot element *)
Definition choose (m : array) (a n : Z) : Z :=
  let pm := a + n / 2 in
  if 7 <? n then
    let pl := a in
    let pn := a + (n - 1) in
    let '(pl, pm, pn) :=
      if 40 <? n then
        let s := n / 8 in
        (bm_med3 m pl (pl + s) (pl + 2 * s), bm_med3 m (pm - s) pm (pm + s),
         bm_med3 m (pn - 2 * s) (pn - s) pn)
      else (pl, pm, pn) in
    bm_med3 m pl pm pn
  else pm.

(** [by_value]: [swaptype] is 0, elements are aligned words. *)
Fixpoint bm_qsort (fuel : nat) (by_value : bool) (m : array) (a n : Z) : array :=
  match fuel with
  | O => m
  | S fuel =>
      if n <? 7 then insertion (Z.to_nat (n - 1)) m a (a + 1) else
      let pm := choose m a n in
      let '(m, pivot) := if by_value then (m, Some (m pm)) else (swap m a pm, None) in
      let s := partition (Z.to_nat n) pivot a (mk_part m a a (a + (n - 1)) (a + (n - 1))) in
      let pn := a + n in
      let k := Z.min (pa s - a) (pb s - pa s) in
      let m := vecswap (Z.to_nat k) (arr s) a (pb s - k) in
      let k := Z.min (pd s - pc s) (pn - pd s - 1) in
      let m := vecswap (Z.to_nat k) m (pb s) (pn - k) in
      let s1 := pb s - pa s in
      let s2 := pd s - pc s in
      if s1 <? s2 then
        let m := if 1 <? s1 then bm_qsort fuel by_value m a s1 else m in
        if 1 <? s2 then bm_qsort fuel by_value m (pn - s2) s2 else m
      else
        let m := if 1 <? s2 then bm_qsort fuel by_value m (pn - s2) s2 else m in
        if 1 <? s1 then bm_qsort fuel by_value m a s1 else m
  end.

(** Every partition leaves out the pivot, so the number of elements is
    enough fuel. *)
Definition ssort (by_value : bool) (m : array) (base nmemb : Z) : array :=
  bm_qsort (S (Z.to_nat nmemb)) by_value m base nmemb.
End Sort.
