(* ===== verification/LibcSortProofs.v ===== *)
(** [VG_(ssort)] permutes the array into order, for every comparison function
    that is a total preorder, and touches nothing outside it. *)
From stdpp Require Import base list.
From Stdlib Require Import ZArith Lia.
From S2P Require Import Prelude LibcSort.
Open Scope Z_scope.

(** ** Slices of arrays *)

Section Slice.
Context {A : Type}.
Implicit Types m : Z -> A.

Fixpoint slice m (a : Z) (n : nat) : list A :=
  match n with O => [] | S n => m a :: slice m (a + 1) n end.

Lemma slice_app m a n1 n2 :
  slice m a (n1 + n2) = slice m a n1 ++ slice m (a + Z.of_nat n1) n2.
Proof.
  revert a. induction n1 as [|n1 IH]; intros a; cbn; [by rewrite Z.add_0_r|].
  rewrite IH. do 2 f_equal. f_equal. lia.
Qed.

Lemma slice_ext m m' a n : (forall x, a <= x < a + Z.of_nat n -> m x = m' x) ->
  slice m a n = slice m' a n.
Proof.
  revert a. induction n as [|n IH]; intros a H; cbn; [done|].
  rewrite H by lia. f_equal. apply IH. intros. apply H. lia.
Qed.

Lemma slice_Forall m a n (P : A -> Prop) :
  Forall P (slice m a n) <-> forall x, a <= x < a + Z.of_nat n -> P (m x).
Proof.
  revert a. induction n as [|n IH]; intros a; cbn [slice].
  { split; [lia|constructor]. }
  rewrite Forall_cons, IH. split.
  - intros [H0 H] x Hx. destruct (decide (x = a)) as [->|]; [done|]. apply H. lia.
  - intros H. split; [apply H; lia|]. intros x Hx. apply H. lia.
Qed.

(** [m'] is a rearrangement of [m] inside [a, a + n). *)
Definition perm_on (a n : Z) m m' : Prop :=
  (forall x, x < a \/ a + n <= x -> m' x = m x) /\
  slice m' a (Z.to_nat n) ≡ₚ slice m a (Z.to_nat n).

Lemma perm_on_refl a n m : perm_on a n m m.
Proof. done. Qed.

Lemma perm_on_trans a n m1 m2 m3 : perm_on a n m1 m2 -> perm_on a n m2 m3 -> perm_on a n m1 m3.
Proof.
  intros [H1 P1] [H2 P2]. split; [|by etrans]. intros x Hx. by rewrite H2, H1.
Qed.

(** What holds of every element still does. *)
Lemma perm_on_Forall a n m m' (P : A -> Prop) : perm_on a n m m' ->
  (forall x, a <= x < a + n -> P (m x)) -> forall x, a <= x < a + n -> P (m' x).
Proof.
  intros [_ Hp] H. assert (Forall P (slice m' a (Z.to_nat n))) as HF.
  { rewrite Hp. apply slice_Forall. intros. apply H. lia. }
  rewrite slice_Forall in HF. intros x Hx. apply HF. lia.
Qed.

Lemma perm_on_sub a n b k m m' : a <= b -> 0 <= k -> b + k <= a + n ->
  perm_on b k m m' -> perm_on a n m m'.
Proof.
  intros Hb Hk Hn [Ho Hp]. split; [intros x Hx; apply Ho; lia|].
  replace (Z.to_nat n) with (Z.to_nat (b - a) + (Z.to_nat k + Z.to_nat (a + n - b - k)))%nat by lia.
  rewrite !slice_app. rewrite (slice_ext m' m a) by (intros; apply Ho; lia).
  rewrite (slice_ext m' m (a + _ + _)) by (intros; apply Ho; lia).
  replace (a + Z.of_nat (Z.to_nat (b - a))) with b by lia. by rewrite Hp.
Qed.

Lemma swap_sym m i j x : swap m i j x = swap m j i x.
Proof. unfold swap. destruct (Z.eqb_spec x i), (Z.eqb_spec x j); by subst. Qed.

Lemma swap_perm_lt a n m i j : a <= i -> i < j -> j < a + n -> perm_on a n m (swap m i j).
Proof.
  intros Hi Hij Hj. split.
  { intros x Hx. unfold swap. destruct (Z.eqb_spec x i), (Z.eqb_spec x j); (done || lia). }
  replace (Z.to_nat n) with
    (Z.to_nat (i - a) + (1 + (Z.to_nat (j - i - 1) + (1 + Z.to_nat (a + n - j - 1)))))%nat by lia.
  rewrite !slice_app. cbn [slice app].
  replace (a + Z.of_nat (Z.to_nat (i - a))) with i by lia.
  replace (i + Z.of_nat 1 + Z.of_nat (Z.to_nat (j - i - 1))) with j by lia.
  assert (forall b k, (forall x, b <= x < b + Z.of_nat k -> x <> i /\ x <> j) ->
    slice (swap m i j) b k = slice m b k) as Hs.
  { intros b k H. apply slice_ext. intros x Hx. specialize (H x Hx). unfold swap.
    destruct (Z.eqb_spec x i), (Z.eqb_spec x j); (done || lia). }
  rewrite !Hs by (intros; lia).
  assert (swap m i j i = m j) as -> by (unfold swap; by rewrite Z.eqb_refl).
  assert (swap m i j j = m i) as ->.
  { unfold swap. rewrite Z.eqb_refl. destruct (Z.eqb_spec j i); [lia|done]. }
  apply Permutation_app_head. rewrite !Permutation_middle. cbn.
  rewrite <- !Permutation_middle. apply Permutation_swap.
Qed.

Lemma perm_on_ext a n m m' m'' : (forall x, m' x = m'' x) -> perm_on a n m m' -> perm_on a n m m''.
Proof.
  intros E [Ho Hp]. split; [intros x Hx; rewrite <- E; auto|].
  by rewrite <- (slice_ext m' m'') by (intros; apply E).
Qed.

Lemma swap_perm a n m i j : a <= i < a + n -> a <= j < a + n -> perm_on a n m (swap m i j).
Proof.
  intros Hi Hj. destruct (Z.lt_trichotomy i j) as [|[->|]].
  - apply swap_perm_lt; lia.
  - apply perm_on_ext with m; [|apply perm_on_refl]. intros x. unfold swap.
    by destruct (Z.eqb_spec x j) as [->|].
  - apply perm_on_ext with (swap m j i); [intros; apply swap_sym|]. apply swap_perm_lt; lia.
Qed.

Lemma vecswap_perm a n k : forall m x y, a <= x -> a <= y -> x + Z.of_nat k <= a + n ->
  y + Z.of_nat k <= a + n -> perm_on a n m (vecswap k m x y).
Proof.
  induction k as [|k IH]; intros m x y Hx Hy Hx' Hy'; cbn [vecswap]; [apply perm_on_refl|].
  eapply perm_on_trans; [|apply IH; lia]. apply swap_perm; lia.
Qed.

(** Exchanging two disjoint vectors *)
Lemma vecswap_at k : forall m x y, x + Z.of_nat k <= y -> forall i,
  vecswap k m x y i =
  if (x <=? i) && (i <? x + Z.of_nat k) then m (y + (i - x))
  else if (y <=? i) && (i <? y + Z.of_nat k) then m (x + (i - y)) else m i.
Proof.
  induction k as [|k IH]; intros m x y Hd i; cbn [vecswap].
  { destruct (Z.leb_spec x i), (Z.ltb_spec i (x + Z.of_nat 0)); [lia|..]; cbn;
      destruct (Z.leb_spec y i), (Z.ltb_spec i (y + Z.of_nat 0)); (lia || done). }
  rewrite IH by lia. unfold swap.
  repeat match goal with
  | |- context [?a <=? ?b] => destruct (Z.leb_spec a b)
  | |- context [?a <? ?b] => destruct (Z.ltb_spec a b)
  | |- context [?a =? ?b] => destruct (Z.eqb_spec a b)
  end; cbn; try lia; try done; f_equal; lia.
Qed.
End Slice.

(** ** Comparison functions *)

(** The contract of [compar]: a total preorder, read from the sign *)
Record preorder {A} (cmp : A -> A -> Z) : Prop := {
  cmp_opp x y : cmp x y <= 0 <-> 0 <= cmp y x;
  cmp_trans x y z : cmp x y <= 0 -> cmp y z <= 0 -> cmp x z <= 0
}.

Section Sorting.
Context {A : Type} (cmp : A -> A -> Z) (Hcmp : preorder cmp).
Implicit Types m : Z -> A.

Definition sorted m (a n : Z) : Prop :=
  forall i j, a <= i -> i < j -> j < a + n -> cmp (m i) (m j) <= 0.

Lemma cmp_refl x : cmp x x = 0.
Proof using Hcmp. pose proof (cmp_opp _ Hcmp x x). lia. Qed.

Lemma cmp_gt x y : 0 < cmp x y -> cmp y x <= 0.
Proof using Hcmp. intros. apply (cmp_opp _ Hcmp). lia. Qed.

(** ** Insertion sort *)

(** Only the element at [pl] may be below elements before it. *)
Definition sinking m (a pm pl : Z) : Prop :=
  forall i j, a <= i -> i < j -> j <= pm -> j <> pl -> cmp (m i) (m j) <= 0.

Lemma sink_spec a pm fuel : forall m pl, a <= pl <= pm -> pl - a <= Z.of_nat fuel ->
  sinking m a pm pl -> sorted (sink cmp fuel m a pl) a (pm + 1 - a)
    /\ perm_on a (pm + 1 - a) m (sink cmp fuel m a pl).
Proof using Hcmp.
  induction fuel as [|fuel IH]; intros m pl Hpl Hf Hs; cbn [sink].
  { split; [|apply perm_on_refl]. intros i j Hi Hij Hj. apply Hs; lia. }
  destruct (Z.ltb_spec a pl) as [Hlt|Hge]; cbn [andb].
  2:{ split; [|apply perm_on_refl]. intros i j Hi Hij Hj. apply Hs; lia. }
  destruct (Z.ltb_spec 0 (cmp (m (pl - 1)) (m pl))) as [Hgt|Hle].
  - destruct (IH (swap m pl (pl - 1)) (pl - 1)) as [Hsort Hp]; [lia|lia| |].
    + intros i j Hi Hij Hj Hne. unfold swap.
      pose proof (cmp_gt _ _ Hgt) as Hgt'.
      destruct (Z.eqb_spec i pl), (Z.eqb_spec j pl), (Z.eqb_spec i (pl - 1)),
        (Z.eqb_spec j (pl - 1)); subst; try lia; try done; apply Hs; lia.
    + split; [done|]. eapply perm_on_trans; [|done]. apply swap_perm; lia.
  - split; [|apply perm_on_refl]. intros i j Hi Hij Hj.
    destruct (decide (j = pl)) as [->|]; [|apply Hs; lia].
    destruct (decide (i = pl - 1)) as [->|]; [done|].
    eapply (cmp_trans _ Hcmp); [|exact Hle]. apply Hs; lia.
Qed.

Lemma insertion_spec a k : forall m pm, a < pm -> sorted m a (pm - a) ->
  let m' := insertion cmp k m a pm in
  sorted m' a (pm + Z.of_nat k - a) /\ perm_on a (pm + Z.of_nat k - a) m m'.
Proof using Hcmp.
  induction k as [|k IH]; intros m pm Hpm Hs; cbn [insertion].
  { rewrite Z.add_0_r. split; [done|apply perm_on_refl]. }
  destruct (sink_spec a pm (Z.to_nat (pm - a)) m pm) as [Hs' Hp]; [lia|lia| |].
  { intros i j Hi Hij Hj Hne. apply Hs; lia. }
  destruct (IH (sink cmp (Z.to_nat (pm - a)) m a pm) (pm + 1)) as [Hs2 Hp2]; [lia|done|].
  replace (pm + Z.of_nat (S k) - a) with (pm + 1 + Z.of_nat k - a) by lia.
  split; [done|]. eapply perm_on_trans; [|done].
  eapply perm_on_sub; [..|exact Hp]; lia.
Qed.

(** ** Partition *)

Section Part.
Context (pivot : option A) (p : A) (a n : Z) (Hn : 0 < n).

(** Equal, less, unknown, greater, equal *)
Record parted (s : part) : Prop := {
  pt_bounds : a <= pa s <= pb s /\ pb s <= pc s + 1 /\ pc s <= pd s < a + n;
  pt_eql i : a <= i < pa s -> cmp (arr s i) p = 0;
  pt_less i : pa s <= i < pb s -> cmp (arr s i) p < 0;
  pt_greater i : pc s < i <= pd s -> 0 < cmp (arr s i) p;
  pt_eqr i : pd s < i < a + n -> cmp (arr s i) p = 0
}.

(** The pivot is where it is read. *)
Definition located (s : part) : Prop :=
  match pivot with Some v => v = p | None => arr s a = p /\ (pa s = a -> pb s = a) end.

Lemma located_pv s : located s -> pv pivot a (arr s) = p.
Proof using Type. unfold located, pv. destruct pivot; tauto. Qed.

Ltac by_part s Hp :=
  first [apply (pt_eql s Hp); lia | apply (pt_less s Hp); lia
        | apply (pt_greater s Hp); lia | apply (pt_eqr s Hp); lia].

Ltac swap_cases := unfold swap;
  repeat match goal with |- context [?x =? ?y] => destruct (Z.eqb_spec x y) end.

Lemma scan_up_spec fuel : forall s, parted s -> located s -> pc s - pb s + 1 <= Z.of_nat fuel ->
  let s' := scan_up cmp fuel pivot a s in
  parted s' /\ located s' /\ perm_on a n (arr s) (arr s') /\ pc s' = pc s /\ pd s' = pd s
  /\ pb s <= pb s' /\ (pb s' <= pc s' -> 0 < cmp (arr s' (pb s')) p)
  /\ (pivot = None -> a <= pc s -> a < pb s').
Proof using Hcmp Hn.
  induction fuel as [|fuel IH]; intros s Hp Hl Hf; cbn [scan_up];
    pose proof (pt_bounds s Hp) as Hb.
  { do 2 (split; [done|]). split; [apply perm_on_refl|]. do 2 (split; [done|]).
    split; [lia|]. split; [lia|]. lia. }
  rewrite (located_pv s Hl). destruct (Z.leb_spec (pb s) (pc s)) as [Hbc|Hbc].
  2:{ do 2 (split; [done|]). split; [apply perm_on_refl|]. do 2 (split; [done|]).
      split; [lia|]. split; [lia|]. intros; lia. }
  destruct (Z.leb_spec (cmp (arr s (pb s)) p) 0) as [Hr|Hr].
  2:{ do 2 (split; [done|]). split; [apply perm_on_refl|]. do 2 (split; [done|]).
      split; [lia|]. split; [done|]. intros HN Hac. unfold located in Hl. rewrite HN in Hl.
      destruct Hl as [Ha _]. destruct (decide (pb s = a)) as [E|]; [|lia].
      rewrite E, Ha, cmp_refl in Hr. lia. }
  destruct (Z.eqb_spec (cmp (arr s (pb s)) p) 0) as [Er|Er].
  - set (s1 := mk_part (swap (arr s) (pa s) (pb s)) (pa s + 1) (pb s + 1) (pc s) (pd s)).
    destruct (IH s1) as (H1 & H2 & H3 & H4 & H5 & H6 & H7 & H8).
    + split; cbn; [lia|..]; intros i Hi; swap_cases; try lia; subst; try done; by_part s Hp.
    + unfold located in *. destruct pivot; [done|]. cbn. destruct Hl as [Ha Hab].
      split; [|lia]. unfold swap. destruct (Z.eqb_spec a (pa s)) as [E|].
      * by rewrite (Hab (eq_sym E)).
      * destruct (Z.eqb_spec a (pb s)); [lia|done].
    + cbn. lia.
    + cbn in *. do 2 (split; [done|]). split; [|do 2 (split; [done|]); split; [lia|]; split; [done|lia]].
      eapply perm_on_trans; [|exact H3]. apply swap_perm; lia.
  - destruct (IH (mk_part (arr s) (pa s) (pb s + 1) (pc s) (pd s)))
      as (H1 & H2 & H3 & H4 & H5 & H6 & H7 & H8).
    + split; cbn; [lia|..]; intros i Hi;
        [by apply (pt_eql s Hp)| |by apply (pt_greater s Hp)|by apply (pt_eqr s Hp)].
      destruct (decide (i = pb s)) as [->|]; [lia|]. apply (pt_less s Hp). lia.
    + unfold located in *. destruct pivot; [done|]. cbn. destruct Hl as [Ha Hab].
      split; [done|]. intros E. specialize (Hab E). rewrite Hab, Ha, cmp_refl in Er. lia.
    + cbn. lia.
    + cbn in *. do 5 (split; [done|]). split; [lia|]. split; [done|lia].
Qed.

(** The pivot's own position is left of the unknown part. *)
Definition past (s : part (A := A)) : Prop := pivot = None -> a < pb s.

Lemma scan_down_spec fuel : forall s, parted s -> located s -> past s ->
  pc s - pb s + 1 <= Z.of_nat fuel ->
  let s' := scan_down cmp fuel pivot a s in
  parted s' /\ located s' /\ perm_on a n (arr s) (arr s') /\ pa s' = pa s /\ pb s' = pb s
  /\ pc s' <= pc s /\ (pb s' <= pc s' -> cmp (arr s' (pc s')) p < 0)
  /\ (forall i, i <= pc s' -> arr s' i = arr s i).
Proof using Hcmp Hn.
  induction fuel as [|fuel IH]; intros s Hp Hl Hpast Hf; cbn [scan_down];
    pose proof (pt_bounds s Hp) as Hb.
  { do 2 (split; [done|]). split; [apply perm_on_refl|]. do 2 (split; [done|]). split; [lia|]. split; [lia|done]. }
  rewrite (located_pv s Hl). destruct (Z.leb_spec (pb s) (pc s)) as [Hbc|Hbc].
  2:{ do 2 (split; [done|]). split; [apply perm_on_refl|]. do 2 (split; [done|]). split; [lia|]. split; [lia|done]. }
  destruct (Z.leb_spec 0 (cmp (arr s (pc s)) p)) as [Hr|Hr].
  2:{ do 2 (split; [done|]). split; [apply perm_on_refl|]. do 2 (split; [done|]). split; [lia|]. done. }
  destruct (Z.eqb_spec (cmp (arr s (pc s)) p) 0) as [Er|Er].
  - set (s1 := mk_part (swap (arr s) (pc s) (pd s)) (pa s) (pb s) (pc s - 1) (pd s - 1)).
    destruct (IH s1) as (H1 & H2 & H3 & H4 & H5 & H6 & H7 & H8).
    + split; cbn; [lia|..]; intros i Hi; swap_cases; try lia; subst; try done;
        first [by_part s Hp | by replace (pd s) with (pc s) by lia].
    + unfold located, past in *. destruct pivot; [done|]. cbn. destruct Hl as [Ha Hab].
      split; [|done]. specialize (Hpast eq_refl). swap_cases; (done || lia).
    + done.
    + cbn. lia.
    + cbn in *. do 2 (split; [done|]).
      split; [|do 2 (split; [done|]); split; [lia|]; split; [done|]].
      * eapply perm_on_trans; [|exact H3]. apply swap_perm; lia.
      * intros i Hi. rewrite H8 by done. swap_cases; (done || lia).
  - destruct (IH (mk_part (arr s) (pa s) (pb s) (pc s - 1) (pd s)))
      as (H1 & H2 & H3 & H4 & H5 & H6 & H7 & H8).
    + split; cbn; [lia|..]; intros i Hi;
        [by apply (pt_eql s Hp)|by apply (pt_less s Hp)| |by apply (pt_eqr s Hp)].
      destruct (decide (i = pc s)) as [->|]; [lia|]. apply (pt_greater s Hp). lia.
    + done.
    + done.
    + cbn. lia.
    + cbn in *. do 5 (split; [done|]). split; [lia|done].
Qed.

Lemma partition_spec fuel : forall s, parted s -> located s ->
  (pivot = None -> a <= pc s \/ a < pb s) -> pc s - pb s + 1 <= Z.of_nat fuel ->
  let s' := partition cmp fuel pivot a s in
  parted s' /\ pc s' < pb s' /\ perm_on a n (arr s) (arr s').
Proof using Hcmp Hn.
  induction fuel as [|fuel IH]; intros s Hp Hl Hpast Hf; cbn [partition].
  { split; [done|]. split; [lia|apply perm_on_refl]. }
  destruct (scan_up_spec (Z.to_nat (pc s - pb s + 1)) s Hp Hl ltac:(lia))
    as (P1 & L1 & M1 & C1 & D1 & B1 & G1 & X1).
  set (s1 := scan_up cmp _ pivot a s) in *.
  assert (past s1) as Hpast1.
  { intros E. destruct (Hpast E) as [H|H]; [by apply X1|lia]. }
  destruct (scan_down_spec (Z.to_nat (pc s - pb s + 1)) s1 P1 L1 Hpast1 ltac:(lia))
    as (P2 & L2 & M2 & A2 & B2 & C2 & G2 & U2).
  set (s2 := scan_down cmp _ pivot a s1) in *.
  destruct (Z.ltb_spec (pc s2) (pb s2)) as [Hd|Hd].
  { split; [done|]. split; [done|]. by eapply perm_on_trans. }
  pose proof (pt_bounds s1 P1). pose proof (pt_bounds s2 P2).
  assert (0 < cmp (arr s2 (pb s2)) p) as Hgt by (rewrite U2, B2 by done; apply G1; lia).
  specialize (G2 Hd).
  assert (pb s2 <> pc s2) by (intros E; rewrite <- E in G2; lia).
  set (s3 := mk_part (swap (arr s2) (pb s2) (pc s2)) (pa s2) (pb s2 + 1) (pc s2 - 1) (pd s2)).
  destruct (IH s3) as (P3 & D3 & M3).
  - split; cbn; [lia|..]; intros i Hi; swap_cases; try lia; subst; try done; by_part s2 P2.
  - unfold located, past in *. destruct pivot; [done|]. cbn. destruct L2 as [Ha Hab].
    specialize (Hpast1 eq_refl). split; [|lia]. swap_cases; (done || lia).
  - intros E. right. cbn. specialize (Hpast1 E). lia.
  - cbn. lia.
  - split; [done|]. split; [done|]. eapply perm_on_trans; [exact M1|].
    eapply perm_on_trans; [exact M2|]. eapply perm_on_trans; [|exact M3].
    cbn. apply swap_perm; lia.
Qed.
End Part.

(** ** Quicksort *)

Lemma perm_on_sym a n m m' : perm_on a n m m' -> perm_on a n m' m.
Proof using Type. intros [Ho Hp]. split; [|done]. intros x Hx. by rewrite Ho. Qed.

Lemma med3_range m x y z lo hi : lo <= x < hi -> lo <= y < hi -> lo <= z < hi ->
  lo <= bm_med3 cmp m x y z < hi.
Proof using Type. intros. unfold bm_med3. repeat case_match; lia. Qed.

Lemma choose_range m a n : 7 <= n -> a <= choose cmp m a n < a + n.
Proof using Type.
  intros Hn. unfold choose.
  pose proof (Z.div_mod n 2 ltac:(lia)). pose proof (Z.mod_pos_bound n 2 ltac:(lia)).
  pose proof (Z.div_mod n 8 ltac:(lia)). pose proof (Z.mod_pos_bound n 8 ltac:(lia)).
  destruct (7 <? n); [|lia]. destruct (Z.ltb_spec 40 n).
  - apply med3_range; apply med3_range; lia.
  - apply med3_range; lia.
Qed.

(** Less than, equal to and greater than the pivot *)
Definition regions (p : A) (a n s1 s2 : Z) m : Prop :=
  (forall x, a <= x < a + s1 -> cmp (m x) p < 0) /\
  (forall x, a + s1 <= x < a + n - s2 -> cmp (m x) p = 0) /\
  (forall x, a + n - s2 <= x < a + n -> 0 < cmp (m x) p).

Lemma regions_left p a n s1 s2 m m' : 0 <= s1 -> 0 <= s2 -> s1 + s2 <= n ->
  perm_on a s1 m m' -> regions p a n s1 s2 m -> regions p a n s1 s2 m'.
Proof using Type.
  intros H1 H2 Hn Hp (L & E & G). pose proof Hp as [Ho _]. split; [|split].
  - by apply (perm_on_Forall a s1 m m' (fun y => cmp y p < 0)).
  - intros x Hx. rewrite Ho by lia. by apply E.
  - intros x Hx. rewrite Ho by lia. by apply G.
Qed.

Lemma regions_right p a n s1 s2 m m' : 0 <= s1 -> 0 <= s2 -> s1 + s2 <= n ->
  perm_on (a + n - s2) s2 m m' -> regions p a n s1 s2 m -> regions p a n s1 s2 m'.
Proof using Type.
  intros H1 H2 Hn Hp (L & E & G). pose proof Hp as [Ho _]. split; [|split].
  - intros x Hx. rewrite Ho by lia. by apply L.
  - intros x Hx. rewrite Ho by lia. by apply E.
  - intros x Hx. apply (perm_on_Forall (a + n - s2) s2 m m' (fun y => 0 < cmp y p)); [done| |lia].
    intros y Hy. apply G. lia.
Qed.

Lemma sorted_ext m m' a n : (forall x, a <= x < a + n -> m' x = m x) -> sorted m a n -> sorted m' a n.
Proof using Type. intros E H i j Hi Hij Hj. rewrite !E by lia. by apply H. Qed.

(** Sorted outer regions around equal elements make a sorted array. *)
Lemma regions_sorted p a n s1 s2 m : regions p a n s1 s2 m ->
  sorted m a s1 -> sorted m (a + n - s2) s2 -> sorted m a n.
Proof using Hcmp.
  intros (L & E & G) S1 S2 i j Hi Hij Hj.
  assert (forall x y, cmp x p <= 0 -> 0 <= cmp y p -> cmp x y <= 0) as Hmid.
  { intros x y Hx Hy. eapply (cmp_trans _ Hcmp); [exact Hx|]. by apply (cmp_opp _ Hcmp). }
  assert (forall x, a <= x < a + n - s2 -> cmp (m x) p <= 0) as Hlow.
  { intros x Hx. destruct (decide (x < a + s1)); [specialize (L x)|specialize (E x)]; lia. }
  assert (forall x, a + s1 <= x < a + n -> 0 <= cmp (m x) p) as Hhigh.
  { intros x Hx. destruct (decide (x < a + n - s2)); [specialize (E x)|specialize (G x)]; lia. }
  destruct (decide (j < a + s1)); [apply S1; lia|].
  destruct (decide (a + n - s2 <= i)); [apply S2; lia|].
  apply Hmid; [apply Hlow|apply Hhigh]; lia.
Qed.

(** Exchanging two adjacent regions by the smaller one's size *)
Lemma vecswap_regions (P Q : A -> Prop) m lo mid hi : lo <= mid <= hi ->
  (forall x, lo <= x < mid -> P (m x)) -> (forall x, mid <= x < hi -> Q (m x)) ->
  let k := Z.min (mid - lo) (hi - mid) in
  let m' := vecswap (Z.to_nat k) m lo (hi - k) in
  (forall x, lo <= x < lo + (hi - mid) -> Q (m' x)) /\
  (forall x, lo + (hi - mid) <= x < hi -> P (m' x)) /\
  (forall x, x < lo \/ hi <= x -> m' x = m x).
Proof using Type.
  intros Hb HP HQ k m'.
  assert (forall x, m' x = if (lo <=? x) && (x <? lo + k) then m (hi - k + (x - lo))
     else if (hi - k <=? x) && (x <? hi) then m (lo + (x - (hi - k))) else m x) as E.
  { intros x. unfold m'. rewrite vecswap_at by lia. rewrite Z2Nat.id by lia.
    by replace (hi - k + k) with hi by lia. }
  clearbody m'. assert (k = mid - lo /\ k <= hi - mid \/ k = hi - mid /\ k <= mid - lo) as Hk by lia.
  clearbody k. split; [|split]; intros x Hx; rewrite E;
    destruct (Z.leb_spec lo x), (Z.ltb_spec x (lo + k)), (Z.leb_spec (hi - k) x),
      (Z.ltb_spec x hi); cbn [andb]; try lia; try done;
    first [apply HP; lia | apply HQ; lia].
Qed.

(** Moving the equal elements to the middle *)
Lemma gather p a n s : 0 < n -> parted p a n s -> pc s < pb s ->
  let k1 := Z.min (pa s - a) (pb s - pa s) in
  let k2 := Z.min (pd s - pc s) (a + n - pd s - 1) in
  let m := vecswap (Z.to_nat k2) (vecswap (Z.to_nat k1) (arr s) a (pb s - k1)) (pb s) (a + n - k2) in
  regions p a n (pb s - pa s) (pd s - pc s) m /\ perm_on a n (arr s) m.
Proof using Type.
  intros Hn Hp Hd k1 k2 m. pose proof (pt_bounds _ _ _ _ Hp) as Hb.
  assert (pb s = pc s + 1) as Epb by lia. split.
  - destruct (vecswap_regions (fun y => cmp y p = 0) (fun y => cmp y p < 0) (arr s) a (pa s) (pb s))
      as (L1 & E1 & O1); [lia|apply (pt_eql _ _ _ _ Hp)|apply (pt_less _ _ _ _ Hp)|].
    fold k1 in L1, E1, O1. set (m1 := vecswap (Z.to_nat k1) (arr s) a (pb s - k1)) in *.
    destruct (vecswap_regions (fun y => 0 < cmp y p) (fun y => cmp y p = 0) m1 (pb s) (pd s + 1) (a + n))
      as (E2 & G2 & O2); [lia| | |].
    { intros x Hx. rewrite O1 by lia. apply (pt_greater _ _ _ _ Hp). lia. }
    { intros x Hx. rewrite O1 by lia. apply (pt_eqr _ _ _ _ Hp). lia. }
    replace (Z.min (pd s + 1 - pb s) (a + n - (pd s + 1))) with k2 in * by lia. fold m in E2, G2, O2.
    split; [|split]; intros x Hx.
    + rewrite O2 by lia. apply L1. lia.
    + destruct (decide (x < pb s)); [rewrite O2 by lia; apply E1; lia|]. apply E2. lia.
    + apply G2. lia.
  - unfold m. eapply perm_on_trans; apply vecswap_perm; lia.
Qed.

Definition sorts (f : (Z -> A) -> Z -> Z -> Z -> A) (n : Z) : Prop :=
  forall m a k, k < n -> sorted (f m a k) a k /\ perm_on a k m (f m a k).

(** Sorting a region of [k] elements, left alone when it has at most one *)
Lemma sort_side f n m a k : sorts f n -> k < n ->
  let m' := if 1 <? k then f m a k else m in sorted m' a k /\ perm_on a k m m'.
Proof using Type.
  intros Hf Hk. destruct (Z.ltb_spec 1 k); [by apply Hf|].
  split; [intros i j Hi Hij Hj; lia|apply perm_on_refl].
Qed.

Lemma sort_regions f p a n s1 s2 m : sorts f n -> 0 <= s1 -> 0 <= s2 -> s1 + s2 < n ->
  regions p a n s1 s2 m ->
  let m' := if s1 <? s2
    then let m := if 1 <? s1 then f m a s1 else m in
         if 1 <? s2 then f m (a + n - s2) s2 else m
    else let m := if 1 <? s2 then f m (a + n - s2) s2 else m in
         if 1 <? s1 then f m a s1 else m in
  sorted m' a n /\ perm_on a n m m'.
Proof using Hcmp.
  intros Hf H1 H2 Hn Hr. destruct (s1 <? s2); cbv zeta.
  - destruct (sort_side f n m a s1 Hf ltac:(lia)) as [Sl Pl].
    set (m1 := if 1 <? s1 then f m a s1 else m) in *.
    destruct (sort_side f n m1 (a + n - s2) s2 Hf ltac:(lia)) as [Sr Pr].
    set (m2 := if 1 <? s2 then f m1 (a + n - s2) s2 else m1) in *.
    apply (regions_left _ _ _ _ _ _ m1) in Hr; [|lia|lia|lia|done].
    apply (regions_right _ _ _ _ _ _ m2) in Hr; [|lia|lia|lia|done].
    split.
    + eapply regions_sorted; [done| |done]. eapply sorted_ext; [|exact Sl].
      intros x Hx. apply Pr. lia.
    + eapply perm_on_trans; eapply perm_on_sub; [| | |exact Pl| | | |exact Pr]; lia.
  - destruct (sort_side f n m (a + n - s2) s2 Hf ltac:(lia)) as [Sr Pr].
    set (m1 := if 1 <? s2 then f m (a + n - s2) s2 else m) in *.
    destruct (sort_side f n m1 a s1 Hf ltac:(lia)) as [Sl Pl].
    set (m2 := if 1 <? s1 then f m1 a s1 else m1) in *.
    apply (regions_right _ _ _ _ _ _ m1) in Hr; [|lia|lia|lia|done].
    apply (regions_left _ _ _ _ _ _ m2) in Hr; [|lia|lia|lia|done].
    split.
    + eapply regions_sorted; [done|done|]. eapply sorted_ext; [|exact Sr].
      intros x Hx. apply Pl. lia.
    + eapply perm_on_trans; eapply perm_on_sub; [| | |exact Pr| | | |exact Pl]; lia.
Qed.

(** The pivot is one of the elements, so a region leaves it out. *)
Lemma regions_smaller p a n s1 s2 m m' j : 0 <= s1 -> 0 <= s2 -> s1 + s2 <= n ->
  regions p a n s1 s2 m' -> perm_on a n m m' -> a <= j < a + n -> m j = p -> s1 + s2 < n.
Proof using Hcmp.
  intros H1 H2 Hn (L & _ & G) Hp Hj Ej. destruct (decide (s1 + s2 = n)) as [E|]; [|lia].
  exfalso. apply perm_on_sym in Hp.
  assert (forall x, a <= x < a + n -> cmp (m x) p <> 0) as H.
  { apply (perm_on_Forall a n m' m (fun y => cmp y p <> 0) Hp). intros x Hx.
    destruct (decide (x < a + s1)); [specialize (L x)|specialize (G x)]; lia. }
  apply (H j Hj). rewrite Ej. apply cmp_refl.
Qed.

Lemma bm_qsort_spec by_value fuel : sorts (bm_qsort cmp fuel by_value) (Z.of_nat fuel).
Proof using Hcmp.
  induction fuel as [|fuel IH]; intros m a n Hn; cbn [bm_qsort].
  { split; [intros i j Hi Hij Hj; lia|apply perm_on_refl]. }
  destruct (Z.ltb_spec n 7) as [H7|H7].
  { destruct (insertion_spec a (Z.to_nat (n - 1)) m (a + 1)) as [Hs Hp]; [lia| |].
    { intros i j Hi Hij Hj. lia. }
    destruct (decide (n <= 0)).
    - replace (Z.to_nat (n - 1)) with 0%nat by lia. cbn.
      split; [intros i j Hi Hij Hj; lia|apply perm_on_refl].
    - by replace (a + 1 + Z.of_nat (Z.to_nat (n - 1)) - a) with n in * by lia. }
  pose proof (choose_range m a n H7) as Hc.
  set (pm := choose cmp m a n) in *. set (p := m pm).
  match goal with |- context [if by_value then ?x else ?y] =>
    set (mp := if by_value then x else y) end.
  assert (perm_on a n m mp.1 /\
          located mp.2 p a (mk_part mp.1 a a (a + (n - 1)) (a + (n - 1)))) as [Hp0 Hloc].
  { unfold mp. destruct by_value; cbn.
    - split; [apply perm_on_refl|done].
    - split; [apply swap_perm; lia|]. split; [|done]. unfold swap, p. by rewrite Z.eqb_refl. }
  destruct mp as [m0 pivot]. cbn [fst snd] in Hp0, Hloc.
  set (s0 := mk_part m0 a a (a + (n - 1)) (a + (n - 1))) in *.
  destruct (partition_spec pivot p a n ltac:(lia) (Z.to_nat n) s0) as (Hpt & Hd & Hps);
    [split; cbn; lia|done|intros _; left; cbn; lia|cbn; lia|].
  set (s := partition cmp (Z.to_nat n) pivot a s0) in *.
  destruct (gather p a n s ltac:(lia) Hpt Hd) as [Hr Hg]. cbv zeta.
  pose proof (pt_bounds _ _ _ _ Hpt) as Hb.
  set (m2 := vecswap _ (vecswap _ (arr s) a _) (pb s) _) in *.
  assert (perm_on a n m m2) as Hp2.
  { eapply perm_on_trans; [exact Hp0|]. by eapply perm_on_trans. }
  pose proof (regions_smaller p a n (pb s - pa s) (pd s - pc s) m m2 pm ltac:(lia) ltac:(lia) ltac:(lia) Hr Hp2 Hc eq_refl)
    as Hlt.
  destruct (sort_regions (bm_qsort cmp fuel by_value) p a n (pb s - pa s) (pd s - pc s) m2
    ltac:(intros m' a' k' Hk'; apply IH; lia) ltac:(lia) ltac:(lia) Hlt Hr) as [Hs Hp].
  split; [exact Hs|]. by eapply perm_on_trans.
Qed.

Lemma ssort_spec by_value m base n : 0 <= n ->
  sorted (ssort cmp by_value m base n) base n /\ perm_on base n m (ssort cmp by_value m base n).
Proof using Hcmp. intros Hn. unfold ssort. apply bm_qsort_spec. lia. Qed.
End Sorting.
