(* ===== verification/Adler.v ===== *)
(** The Adler-32 checksum of [coregrind/m_libcbase.c]: the deferred
    reductions compute the checksum of the definition, and no sum overflows
    32 bits.  Also the small arithmetic functions next to it. *)
From stdpp Require Import base list.
From Stdlib Require Import ZArith Lia.
From S2P Require Import Prelude.
Open Scope Z_scope.

(** A [UInt] *)
Definition uint (x : Z) : Z := x mod 2 ^ 32.

Lemma uint_small x : 0 <= x < 2 ^ 32 -> uint x = x.
Proof. apply Z.mod_small. Qed.

(** ** The code *)

Definition BASE : Z := 65521.
Definition NMAX : nat := Z.to_nat 5552.

(** [DO1] *)
Definition do1 (s : Z * Z) (b : Z) : Z * Z :=
  let '(adler, sum2) := s in
  let adler := uint (adler + b) in
  (adler, uint (sum2 + adler)).

(** One conditional subtraction of [MOD], and the macros with theirs *)
Definition sub_if (a k : Z) : Z :=
  if Z.shiftl BASE k <=? a then uint (a - Z.shiftl BASE k) else a.

Definition MOD (a : Z) : Z :=
  fold_left sub_if [16; 15; 14; 13; 12; 11; 10; 9; 8; 7; 6; 5; 4; 3; 2; 1; 0] a.
Definition MOD4 (a : Z) : Z := fold_left sub_if [4; 3; 2; 1; 0] a.

Definition reduce (s : Z * Z) : Z * Z := (MOD s.1, MOD s.2).

(** [while (len--)]: the rest of the buffer, byte by byte *)
Definition do_bytes (buf : list Z) (s : Z * Z) : Z * Z := fold_left do1 buf s.

(** [n] times [DO16], the buffer pointer moved along *)
Fixpoint do16s (n : nat) (buf : list Z) (s : Z * Z) : list Z * (Z * Z) :=
  match n with
  | O => (buf, s)
  | S n => do16s n (drop 16 buf) (do_bytes (take 16 buf) s)
  end.

(** [while (len >= NMAX)] *)
Fixpoint do_nmax (fuel : nat) (buf : list Z) (s : Z * Z) : list Z * (Z * Z) :=
  match fuel with
  | O => (buf, s)
  | S fuel =>
      if Nat.leb NMAX (length buf) then
        let '(buf, s) := do16s (Z.to_nat 347) buf s in do_nmax fuel buf (reduce s)
      else (buf, s)
  end.

(** [while (len >= 16)] *)
Fixpoint do_rest16 (fuel : nat) (buf : list Z) (s : Z * Z) : list Z * (Z * Z) :=
  match fuel with
  | O => (buf, s)
  | S fuel =>
      if Nat.leb 16 (length buf)
      then do_rest16 fuel (drop 16 buf) (do_bytes (take 16 buf) s)
      else (buf, s)
  end.

Definition join (s : Z * Z) : Z := Z.lor s.1 (uint (Z.shiftl s.2 16)).

(** [buf] is [None] for a null pointer; otherwise [len] is its length. *)
Definition adler32 (adler : Z) (buf : option (list Z)) : Z :=
  let sum2 := Z.land (Z.shiftr adler 16) 65535 in
  let adler := Z.land adler 65535 in
  match buf with
  | None => 1
  | Some buf =>
      if Nat.eqb (length buf) 1 then
        let adler := uint (adler + nth 0 buf 0) in
        let adler := if BASE <=? adler then uint (adler - BASE) else adler in
        let sum2 := uint (sum2 + adler) in
        let sum2 := if BASE <=? sum2 then uint (sum2 - BASE) else sum2 in
        join (adler, sum2)
      else if Nat.ltb (length buf) 16 then
        let '(adler, sum2) := do_bytes buf (adler, sum2) in
        let adler := if BASE <=? adler then uint (adler - BASE) else adler in
        join (adler, MOD4 sum2)
      else
        let '(buf, s) := do_nmax (length buf) buf (adler, sum2) in
        if Nat.eqb (length buf) 0 then join s else
        let '(buf, s) := do_rest16 (length buf) buf s in
        join (reduce (do_bytes buf s))
  end.

(** ** The definition of the checksum *)

(** Both sums reduced after every byte *)
Definition ref1 (s : Z * Z) (b : Z) : Z * Z :=
  let a := (s.1 + b) mod BASE in (a, (s.2 + a) mod BASE).
Definition adler_ref (buf : list Z) (s : Z * Z) : Z * Z := fold_left ref1 buf s.

Definition bytes (buf : list Z) : Prop := Forall (fun b => 0 <= b < 256) buf.
Definition reduced (s : Z * Z) : Prop := 0 <= s.1 < BASE /\ 0 <= s.2 < BASE.

(** ** Reductions *)

Lemma sub_if_spec a k : 0 <= k <= 16 -> 0 <= a < 2 ^ 32 -> a < BASE * 2 ^ (k + 1) ->
  0 <= sub_if a k < BASE * 2 ^ k /\ sub_if a k < 2 ^ 32 /\ sub_if a k mod BASE = a mod BASE.
Proof.
  intros Hk Ha Hb. unfold sub_if. rewrite Z.shiftl_mul_pow2 by lia.
  rewrite Z.pow_add_r in Hb by lia. pose proof (Z.pow_pos_nonneg 2 k ltac:(lia) ltac:(lia)).
  destruct (Z.leb_spec (BASE * 2 ^ k) a); [|lia]. unfold BASE in *.
  rewrite uint_small by lia. split; [lia|]. split; [lia|].
  replace (a - 65521 * 2 ^ k) with (a + (- 2 ^ k) * 65521) by lia. apply Z.mod_add. lia.
Qed.

(** A countdown of subtractions reduces modulo [BASE]. *)
Lemma sub_chain n : forall a, (n <= 16)%nat -> 0 <= a < 2 ^ 32 -> a < BASE * 2 ^ (Z.of_nat n + 1) ->
  fold_left sub_if (map Z.of_nat (rev (seq 0 (S n)))) a = a mod BASE.
Proof.
  induction n as [|n IH]; intros a Hn Ha Hb.
  - cbn. destruct (sub_if_spec a 0) as (H1 & _ & H3); [lia|done|done|].
    rewrite <- H3, Z.mod_small; [done|]. change (BASE * 2 ^ 0) with (BASE * 1) in H1. lia.
  - rewrite seq_S, rev_app_distr. cbn [rev app map fold_left Nat.add].
    destruct (sub_if_spec a (Z.of_nat (S n))) as (H1 & H2 & <-); [lia|done|done|].
    apply IH; [lia|lia|]. replace (Z.of_nat n + 1) with (Z.of_nat (S n)) by lia. apply H1.
Qed.

Lemma MOD_spec a : 0 <= a < 2 ^ 32 -> MOD a = a mod BASE.
Proof. intros Ha. apply (sub_chain 16 a); [lia|done|]. unfold BASE. cbn. lia. Qed.

Lemma MOD4_spec a : 0 <= a < BASE * 32 -> MOD4 a = a mod BASE.
Proof. intros Ha. apply (sub_chain 4 a); unfold BASE in *; cbn in *; lia. Qed.

(** ** Deferred reduction *)

(** After [k] bytes since the last reduction *)
Definition bounded (k : Z) (s : Z * Z) : Prop :=
  0 <= s.1 <= BASE - 1 + 255 * k /\
  0 <= 2 * s.2 <= 2 * (BASE - 1) + 2 * k * (BASE - 1) + 255 * k * (k + 1).

(** [s] is [r] up to reductions. *)
Definition congr (s r : Z * Z) : Prop := s.1 mod BASE = r.1 /\ s.2 mod BASE = r.2.

(** The number of bytes after which a sum could overflow *)
Lemma bounded_u32 k s : 0 <= k <= 5552 -> bounded k s -> s.1 < 2 ^ 32 /\ s.2 < 2 ^ 32.
Proof. unfold bounded, BASE. intros Hk [H1 H2]. split; [lia|]. nia. Qed.

Lemma do1_step k s r b : 0 <= k < 5552 -> 0 <= b < 256 -> bounded k s -> congr s r ->
  bounded (k + 1) (do1 s b) /\ congr (do1 s b) (ref1 r b).
Proof.
  intros Hk Hb Hs [C1 C2]. destruct s as [a c]. unfold do1.
  assert (bounded (k + 1) (a + b, c + (a + b))) as Hn.
  { unfold bounded, BASE in *. cbn [fst snd] in *. nia. }
  destruct (bounded_u32 (k + 1) _ ltac:(lia) Hn) as [U1 U2].
  unfold bounded in Hs. cbn [fst snd] in *. rewrite (uint_small (a + b)) by lia.
  rewrite uint_small by lia. split; [done|]. unfold congr, ref1. cbn [fst snd].
  assert ((a + b) mod BASE = (r.1 + b) mod BASE) as E1 by (by rewrite <- C1, Z.add_mod_idemp_l).
  split; [done|]. rewrite <- C2, <- E1, Z.add_mod_idemp_l, Z.add_mod_idemp_r by done. done.
Qed.

Lemma do_bytes_spec buf : forall k s r, bytes buf -> 0 <= k -> k + Z.of_nat (length buf) <= 5552 ->
  bounded k s -> congr s r ->
  bounded (k + Z.of_nat (length buf)) (do_bytes buf s) /\ congr (do_bytes buf s) (adler_ref buf r).
Proof.
  induction buf as [|b buf IH]; intros k s r Hb Hk Hl Hs Hc; cbn.
  { by rewrite Z.add_0_r. }
  apply Forall_cons in Hb as [Hb1 Hb]. cbn [length] in Hl.
  destruct (do1_step k s r b) as [H1 H2]; [lia|done..|].
  destruct (IH (k + 1) (do1 s b) (ref1 r b)) as [H3 H4]; [done|lia|lia|done|done|].
  split; [|done]. by replace (k + Z.of_nat (S (length buf))) with (k + 1 + Z.of_nat (length buf)) by lia.
Qed.

Lemma adler_ref_app b1 b2 s : adler_ref (b1 ++ b2) s = adler_ref b2 (adler_ref b1 s).
Proof. apply fold_left_app. Qed.

Lemma bytes_take n buf : bytes buf -> bytes (take n buf).
Proof. apply Forall_take. Qed.
Lemma bytes_drop n buf : bytes buf -> bytes (drop n buf).
Proof. apply Forall_drop. Qed.

Lemma do16s_bytes n : forall buf s, (16 * n <= length buf)%nat ->
  do16s n buf s = (drop (16 * n) buf, do_bytes (take (16 * n) buf) s).
Proof.
  induction n as [|n IH]; intros buf s Hl; cbn [do16s]; [done|].
  rewrite IH by (rewrite length_drop; lia). rewrite drop_drop.
  replace (16 * S n)%nat with (16 + 16 * n)%nat by lia. f_equal.
  unfold do_bytes. by rewrite <- fold_left_app, take_take_drop.
Qed.

Lemma ref_reduced buf : forall s, reduced s -> reduced (adler_ref buf s).
Proof.
  induction buf as [|b buf IH]; intros s Hs; cbn; [done|]. apply IH. unfold reduced, ref1.
  cbn. split; apply Z.mod_pos_bound; done.
Qed.

Lemma congr_reduced s : reduced s -> congr s s.
Proof. intros [H1 H2]. split; by apply Z.mod_small. Qed.

Lemma reduced_bounded s : reduced s -> bounded 0 s.
Proof. unfold reduced, bounded. lia. Qed.

Lemma reduce_spec k s r : 0 <= k <= 5552 -> bounded k s -> congr s r -> reduce s = r.
Proof.
  intros Hk Hb [C1 C2]. destruct (bounded_u32 k s Hk Hb). destruct Hb. unfold reduce.
  rewrite !MOD_spec by lia. rewrite C1, C2. by destruct r.
Qed.

(** One block of [NMAX] bytes *)
Lemma do_nmax_spec fuel : forall buf s, bytes buf -> reduced s -> (length buf <= fuel)%nat ->
  exists b1 b2, buf = b1 ++ b2 /\ do_nmax fuel buf s = (b2, adler_ref b1 s)
    /\ (length b2 < NMAX)%nat.
Proof.
  induction fuel as [|fuel IH]; intros buf s Hb Hs Hf; cbn [do_nmax].
  { exists [], buf. destruct buf; [|cbn in Hf; lia]. split; [done|]. split; [done|].
    unfold NMAX. cbn [length]. lia. }
  destruct (Nat.leb_spec NMAX (length buf)) as [Hn|Hn].
  2:{ exists [], buf. by split. }
  assert (16 * Z.to_nat 347 = NMAX)%nat as E by (unfold NMAX; lia).
  rewrite do16s_bytes by lia. rewrite E.
  assert (length (take NMAX buf) = NMAX) as El by (rewrite length_take; lia).
  destruct (do_bytes_spec (take NMAX buf) 0 s s) as [B C]; [by apply bytes_take|lia| | | |].
  { rewrite El. unfold NMAX. lia. }
  { by apply reduced_bounded. }
  { by apply congr_reduced. }
  rewrite El in B. rewrite (reduce_spec (0 + Z.of_nat NMAX) _ _ ltac:(unfold NMAX; lia) B C).
  destruct (IH (drop NMAX buf) (adler_ref (take NMAX buf) s)) as (b1 & b2 & E1 & E2 & Hl).
  { by apply bytes_drop. }
  { by apply ref_reduced. }
  { rewrite length_drop. unfold NMAX in *. lia. }
  exists (take NMAX buf ++ b1), b2. split; [by rewrite <- app_assoc, <- E1, take_drop|].
  split; [|done]. by rewrite E2, adler_ref_app.
Qed.

Lemma do_rest16_spec fuel : forall buf s, (length buf <= fuel)%nat ->
  exists b1 b2, buf = b1 ++ b2 /\ do_rest16 fuel buf s = (b2, do_bytes b1 s).
Proof.
  induction fuel as [|fuel IH]; intros buf s Hf; cbn [do_rest16].
  { by exists [], buf. }
  destruct (Nat.leb_spec 16 (length buf)); [|by exists [], buf].
  destruct (IH (drop 16 buf) (do_bytes (take 16 buf) s)) as (b1 & b2 & E & ->).
  { rewrite length_drop. lia. }
  exists (take 16 buf ++ b1), b2. rewrite <- app_assoc, <- E, take_drop. split; [done|].
  unfold do_bytes. by rewrite fold_left_app.
Qed.

Lemma join_eq s : reduced s -> join s = s.2 * 65536 + s.1.
Proof.
  unfold reduced, join, BASE. intros [H1 H2]. rewrite Z.shiftl_mul_pow2 by lia.
  change (2 ^ 16) with 65536. rewrite uint_small by lia. rewrite Z.lor_comm.
  change 65536 with (2 ^ 16). rewrite <- Z.add_lor_land.
  assert (Z.land (s.2 * 2 ^ 16) s.1 = 0) as ->; [|lia].
  apply Z.bits_inj'. intros i Hi. rewrite Z.land_spec, Z.bits_0.
  destruct (Z.ltb_spec i 16); [by rewrite Z.mul_pow2_bits_low|].
  destruct (decide (s.1 = 0)) as [->|]; [by rewrite Z.bits_0, andb_false_r|].
  rewrite (Z.bits_above_log2 s.1 i), andb_false_r; [done|lia|].
  apply Z.log2_lt_pow2; [lia|]. apply Z.lt_le_trans with (2 ^ 16); [lia|].
  apply Z.pow_le_mono_r; lia.
Qed.

(** The two sums of a checksum *)
Definition split_sums (adler : Z) : Z * Z := (Z.land adler 65535, Z.land (Z.shiftr adler 16) 65535).

Lemma sub_once x : 0 <= x < 2 * BASE ->
  (if BASE <=? x then uint (x - BASE) else x) = x mod BASE.
Proof.
  intros Hx. unfold BASE in *. destruct (Z.leb_spec 65521 x).
  - rewrite uint_small by lia. apply Z.mod_unique_pos with 1; lia.
  - symmetry. apply Z.mod_small. lia.
Qed.

Lemma adler32_spec adler buf : bytes buf -> reduced (split_sums adler) ->
  let r := adler_ref buf (split_sums adler) in
  adler32 adler (Some buf) = r.2 * 65536 + r.1 /\ reduced r.
Proof.
  intros Hb Hs r. assert (reduced r) as Hr by (by apply ref_reduced). split; [|done].
  unfold adler32. fold (split_sums adler). set (s := split_sums adler) in *.
  change (Z.land adler 65535) with s.1. change (Z.land (Z.shiftr adler 16) 65535) with s.2.
  assert (s = (s.1, s.2)) as Es by (by destruct s).
  destruct (Nat.eqb_spec (length buf) 1) as [E1|_]; [|destruct (Nat.ltb_spec (length buf) 16) as [E16|E16]].
  - destruct buf as [|b [|]]; cbn in E1; try lia. apply Forall_cons in Hb as [Hb _].
    destruct Hs as [H1 H2]. cbn [nth]. unfold BASE in H1, H2.
    rewrite (uint_small (s.1 + b)) by lia. rewrite sub_once by (unfold BASE; lia).
    set (a := (s.1 + b) mod BASE).
    assert (0 <= a < 65521) as Ha by (apply Z.mod_pos_bound; done).
    rewrite uint_small by lia. rewrite sub_once by (unfold BASE; lia). exact (join_eq r Hr).
  - destruct (do_bytes_spec buf 0 s s Hb ltac:(lia) ltac:(lia) (reduced_bounded s Hs)
      (congr_reduced s Hs)) as [B C].
    rewrite <- ?Es. destruct (do_bytes buf s) as [x y]. destruct C as [C1 C2]. cbn [fst snd] in *.
    unfold bounded, BASE in B. cbn [fst snd] in B.
    rewrite sub_once by (unfold BASE; lia). rewrite MOD4_spec by (unfold BASE; nia).
    rewrite C1, C2. fold r. rewrite (join_eq (r.1, r.2)); done.
  - rewrite <- ?Es. destruct (do_nmax_spec (length buf) buf s Hb Hs ltac:(lia)) as (b1 & b2 & Eb & -> & Hl).
    assert (bytes b1 /\ bytes b2) as [Hb1 Hb2] by (rewrite Eb in Hb; by apply Forall_app).
    assert (reduced (adler_ref b1 s)) as Hs1 by (by apply ref_reduced).
    assert (r = adler_ref b2 (adler_ref b1 s)) as Er by (unfold r; by rewrite Eb, adler_ref_app).
    destruct (Nat.eqb_spec (length b2) 0) as [E0|_].
    { destruct b2; [|done]. cbn in Er. rewrite <- Er in *. by apply join_eq. }
    destruct (do_rest16_spec (length b2) b2 (adler_ref b1 s) ltac:(lia)) as (b3 & b4 & Eb2 & ->).
    assert (do_bytes b4 (do_bytes b3 (adler_ref b1 s)) = do_bytes b2 (adler_ref b1 s)) as ->.
    { unfold do_bytes. by rewrite <- fold_left_app, <- Eb2. }
    destruct (do_bytes_spec b2 0 _ _ Hb2 ltac:(lia) ltac:(unfold NMAX in *; lia)
      (reduced_bounded _ Hs1) (congr_reduced _ Hs1)) as [B C].
    rewrite (reduce_spec (0 + Z.of_nat (length b2)) _ _ ltac:(unfold NMAX in *; lia) B C), <- Er.
    by apply join_eq.
Qed.

(** ** Logarithms, random numbers *)

(** The loop from [i], [n] values being left *)
Fixpoint log2_loop (n : nat) (i x : Z) : Z :=
  match n with
  | O => -1
  | S n => if 2 ^ i =? x then i else log2_loop n (i + 1) x
  end.

Definition log2 (x : Z) : Z := log2_loop 32 0 x.
Definition log2_64 (x : Z) : Z := log2_loop 64 0 x.

Lemma log2_loop_spec n : forall i x, 0 <= i ->
  (log2_loop n i x = -1 /\ forall k, i <= k < i + Z.of_nat n -> x <> 2 ^ k) \/
  (i <= log2_loop n i x < i + Z.of_nat n /\ x = 2 ^ log2_loop n i x).
Proof.
  induction n as [|n IH]; intros i x Hi; cbn [log2_loop]; [left; split; [done|lia]|].
  destruct (Z.eqb_spec (2 ^ i) x) as [<-|Hne]; [right; split; [lia|done]|].
  destruct (IH (i + 1) x ltac:(lia)) as [[E H]|[H E]].
  - left. split; [done|]. intros k Hk. destruct (decide (k = i)) as [->|]; [congruence|].
    apply H. lia.
  - right. split; [lia|done].
Qed.

(** [VG_(random)] with its seed *)
Definition random (seed : Z) : Z := uint (1103515245 * seed + 12345).
