(* ===== verification/XArray.v ===== *)
(** Extensible arrays, [coregrind/m_xarray.c], on bytes in memory.  The
    allocation functions an array is created with are an interface, the class
    [Allocator]; an [XArray] structure is passed and returned by value, its
    own storage being only allocated and freed.  A comparison function reads
    the bytes of the two elements it is given. *)
From stdpp Require Import base list.
From Stdlib Require Import ZArith Lia.
From S2P Require Import Prelude Mem LibcMem LibcMemProofs LibcSort.
Open Scope prog_scope.
Open Scope Z_scope.

(** ** The allocation functions *)

(** [alloc_fn] never fails; [live h p n] says that the [n] bytes at [p] are
    allocated. *)
Class Allocator (H : Type) := {
  alloc_fn : Z -> H -> Z * H;
  free_fn : Z -> H -> H;
  live : H -> Z -> Z -> Prop
}.

Class AllocatorLaws (H : Type) `{Allocator H} : Prop := {
  alloc_live n h : 0 <= n -> live (alloc_fn n h).2 (alloc_fn n h).1 n;
  alloc_pos n h : 0 <= n -> 0 < (alloc_fn n h).1;
  alloc_fresh n h p k : 0 <= n -> live h p k ->
    live (alloc_fn n h).2 p k /\ (p + k <= (alloc_fn n h).1 \/ (alloc_fn n h).1 + n <= p);
  free_other p h q k n : live h p n -> live h q k -> p + n <= q \/ q + k <= p -> live (free_fn p h) q k
}.

(** An allocator that never reuses an address: the laws can hold. *)
#[export] Instance bump_alloc : Allocator positive := {
  alloc_fn n h := (Z.pos h, Z.to_pos (Z.pos h + n));
  free_fn _ h := h;
  live h p n := p + n <= Z.pos h
}.

#[export] Instance bump_laws : AllocatorLaws positive.
Proof. split; cbn; intros; lia. Qed.

Section XA.
Context {H : Type} `{Allocator H}.

Record st := mk_st { mem : gmem; heap : H }.

Abbreviation bytes := (list Z).
Abbreviation cmp_t := (bytes -> bytes -> Z).

Record XArray := mk_xa {
  xself : Z;
  cmpFn : option cmp_t;
  elemSzB : Z;
  arr : Z;
  usedsizeE : Z;
  totsizeE : Z;
  xsorted : bool
}.

(** The [n] bytes at [p] *)
Fixpoint bytes_at (m : gmem) (p : Z) (n : nat) : bytes :=
  match n with O => [] | S n => m p :: bytes_at m (p + 1) n end.

(** Bytes written at [p] *)
Fixpoint write_at (m : gmem) (p : Z) (b : bytes) : gmem :=
  match b with [] => m | x :: b => write_at (upd m p x) (p + 1) b end.

Definition vg_assert (b : bool) : M st unit := if b then ret tt else fail.
Definition alloc (n : Z) : M st Z := fun s =>
  let '(p, h) := alloc_fn n (heap s) in Some (p, mk_st (mem s) h).
Definition free (p : Z) : M st unit := modify (fun s => mk_st (mem s) (free_fn p (heap s))).
Definition on_mem (f : gmem -> gmem) : M st unit := modify (fun s => mk_st (f (mem s)) (heap s)).

Definition sizeof_XArray : Z := 72.

Definition newXA (elemSz : Z) : M st XArray :=
  vg_assert (0 <? elemSz) ;;;
  xa <- alloc sizeof_XArray ;;
  ret (mk_xa xa None elemSz 0 0 0 false).

Definition cloneXA (xa : XArray) : M st XArray :=
  vg_assert (1 <=? elemSzB xa) ;;;
  self <- alloc sizeof_XArray ;;
  if arr xa =? 0 then
    ret (mk_xa self (cmpFn xa) (elemSzB xa) (arr xa) (usedsizeE xa) (totsizeE xa) (xsorted xa))
  else
    let tot := usedsizeE xa in
    a <- alloc (tot * elemSzB xa) ;;
    on_mem (fun m => memcpy m a (arr xa) (tot * elemSzB xa)) ;;;
    ret (mk_xa self (cmpFn xa) (elemSzB xa) a (usedsizeE xa) tot (xsorted xa)).

Definition deleteXA (xa : XArray) : M st unit :=
  (if arr xa =? 0 then ret tt else free (arr xa)) ;;;
  free (xself xa).

Definition setCmpFnXA (xa : XArray) (compar : cmp_t) : XArray :=
  mk_xa (xself xa) (Some compar) (elemSzB xa) (arr xa) (usedsizeE xa) (totsizeE xa) false.

(** The assertion compares unsigned words: a negative index fails it. *)
Definition indexXA (xa : XArray) (n : Z) : M st Z :=
  vg_assert (u64 n <? u64 (usedsizeE xa)) ;;;
  ret (arr xa + n * elemSzB xa).

Definition hintSizeXA (xa : XArray) (n : Z) : M st XArray :=
  vg_assert (usedsizeE xa =? 0) ;;;
  vg_assert (totsizeE xa =? 0) ;;;
  vg_assert (arr xa =? 0) ;;;
  if 0 <? n then
    a <- alloc (n * elemSzB xa) ;;
    ret (mk_xa (xself xa) (cmpFn xa) (elemSzB xa) a (usedsizeE xa) n (xsorted xa))
  else ret xa.

Definition new_size (xa : XArray) : Z :=
  if totsizeE xa =? 0
  then (if elemSzB xa =? 1 then 8 else if elemSzB xa =? 2 then 4 else 2)
  else 2 + (3 * totsizeE xa) / 2.

Definition ensureSpaceXA (xa : XArray) : M st XArray :=
  if usedsizeE xa =? totsizeE xa then
    (if totsizeE xa =? 0 then vg_assert (arr xa =? 0) else ret tt) ;;;
    (if 0 <? totsizeE xa then vg_assert (negb (arr xa =? 0)) else ret tt) ;;;
    let newsz := new_size xa in
    tmp <- alloc (newsz * elemSzB xa) ;;
    (if 0 <? usedsizeE xa
     then on_mem (fun m => memcpy m tmp (arr xa) (usedsizeE xa * elemSzB xa)) else ret tt) ;;;
    (if arr xa =? 0 then ret tt else free (arr xa)) ;;;
    ret (mk_xa (xself xa) (cmpFn xa) (elemSzB xa) tmp (usedsizeE xa) newsz (xsorted xa))
  else ret xa.

Definition set_used (xa : XArray) (n : Z) (s : bool) : XArray :=
  mk_xa (xself xa) (cmpFn xa) (elemSzB xa) (arr xa) n (totsizeE xa) s.

(** [elem] is the address of the element to add. *)
Definition addToXA (xa : XArray) (elem : Z) : M st (Z * XArray) :=
  vg_assert (negb (elem =? 0)) ;;;
  vg_assert (0 <=? totsizeE xa) ;;;
  vg_assert ((0 <=? usedsizeE xa) && (usedsizeE xa <=? totsizeE xa)) ;;;
  xa <- ensureSpaceXA xa ;;
  vg_assert (usedsizeE xa <? totsizeE xa) ;;;
  vg_assert (negb (arr xa =? 0)) ;;;
  on_mem (fun m => memcpy m (arr xa + usedsizeE xa * elemSzB xa) elem (elemSzB xa)) ;;;
  let xa := set_used xa (usedsizeE xa + 1) false in
  ret (usedsizeE xa - 1, xa).

Fixpoint addBytes_loop (n : nat) (i : Z) (bytesV : Z) (xa : XArray) : M st XArray :=
  match n with
  | O => ret xa
  | S n =>
      xa <- ensureSpaceXA xa ;;
      vg_assert (usedsizeE xa <? totsizeE xa) ;;;
      vg_assert (negb (arr xa =? 0)) ;;;
      on_mem (fun m => upd m (arr xa + usedsizeE xa) (m (bytesV + i))) ;;;
      addBytes_loop n (i + 1) bytesV (set_used xa (usedsizeE xa + 1) (xsorted xa))
  end.

Definition addBytesToXA (xa : XArray) (bytesV nbytes : Z) : M st (Z * XArray) :=
  vg_assert (elemSzB xa =? 1) ;;;
  vg_assert (0 <=? nbytes) ;;;
  vg_assert (0 <=? totsizeE xa) ;;;
  vg_assert ((0 <=? usedsizeE xa) && (usedsizeE xa <=? totsizeE xa)) ;;;
  let r := usedsizeE xa in
  xa <- addBytes_loop (Z.to_nat nbytes) 0 bytesV xa ;;
  ret (r, set_used xa (usedsizeE xa) false).

(** The element at index [i], as bytes *)
Definition elem_at (m : gmem) (xa : XArray) (i : Z) : bytes :=
  bytes_at m (arr xa + i * elemSzB xa) (Z.to_nat (elemSzB xa)).

(** The elements [f i], ... written back from index [i] *)
Fixpoint write_elems (n : nat) (m : gmem) (xa : XArray) (f : Z -> bytes) (i : Z) : gmem :=
  match n with
  | O => m
  | S n => write_elems n (write_at m (arr xa + i * elemSzB xa) (f i)) xa f (i + 1)
  end.

(** [VG_(ssort)] on the elements: words when they are aligned words *)
Definition sortXA (xa : XArray) : M st XArray :=
  match cmpFn xa with
  | None => fail
  | Some cmp =>
      let by_value := (elemSzB xa =? 8) && (Z.land (arr xa) 7 =? 0) in
      on_mem (fun m =>
        write_elems (Z.to_nat (usedsizeE xa)) m xa
          (ssort cmp by_value (elem_at m xa) 0 (usedsizeE xa)) 0) ;;;
      ret (set_used xa (usedsizeE xa) true)
  end.

(** The element [VG_(indexXA)] points to *)
Definition index_elem (xa : XArray) (n : Z) : M st bytes :=
  p <- indexXA xa n ;;
  gets (fun s => bytes_at (mem s) p (Z.to_nat (elemSzB xa))).

Fixpoint expand_first (fuel : nat) (xa : XArray) (cmp : cmp_t) (key : bytes) (first : Z) : M st Z :=
  match fuel with
  | O => fail
  | S fuel =>
      if 0 <? first then
        e <- index_elem xa (first - 1) ;;
        if 0 =? cmp key e then expand_first fuel xa cmp key (first - 1) else ret first
      else ret first
  end.

Fixpoint expand_last (fuel : nat) (xa : XArray) (cmp : cmp_t) (key : bytes) (last : Z) : M st Z :=
  match fuel with
  | O => fail
  | S fuel =>
      if last <? usedsizeE xa - 1 then
        e <- index_elem xa (last + 1) ;;
        if 0 =? cmp key e then expand_last fuel xa cmp key (last + 1) else ret last
      else ret last
  end.

(** [None]: not found; otherwise [*first] and [*last] *)
Fixpoint lookup_loop (fuel : nat) (xa : XArray) (cmp : cmp_t) (key : bytes) (lo hi : Z)
    : M st (option (Z * Z)) :=
  match fuel with
  | O => fail
  | S fuel =>
      if hi <? lo then ret None else
      let mid := Z.quot (lo + hi) 2 in
      midv <- index_elem xa mid ;;
      let cres := cmp key midv in
      if cres <? 0 then lookup_loop fuel xa cmp key lo (mid - 1)
      else if 0 <? cres then lookup_loop fuel xa cmp key (mid + 1) hi
      else
        el <- index_elem xa lo ;;
        vg_assert (0 <=? cmp key el) ;;;
        eh <- index_elem xa hi ;;
        vg_assert (cmp key eh <=? 0) ;;;
        first <- expand_first (S (Z.to_nat mid)) xa cmp key mid ;;
        last <- expand_last (S (Z.to_nat (usedsizeE xa))) xa cmp key mid ;;
        ret (Some (first, last))
  end.

Definition lookupXA_UNSAFE (xa : XArray) (key : bytes) (cmp : cmp_t) : M st (option (Z * Z)) :=
  lookup_loop (S (Z.to_nat (usedsizeE xa))) xa cmp key 0 (usedsizeE xa - 1).

Definition lookupXA (xa : XArray) (key : bytes) : M st (option (Z * Z)) :=
  match cmpFn xa with
  | None => fail
  | Some cmp => vg_assert (xsorted xa) ;;; lookupXA_UNSAFE xa key cmp
  end.

Definition sizeXA (xa : XArray) : Z := usedsizeE xa.

Definition dropTailXA (xa : XArray) (n : Z) : M st XArray :=
  vg_assert (0 <=? n) ;;;
  vg_assert (n <=? usedsizeE xa) ;;;
  ret (set_used xa (usedsizeE xa - n) (xsorted xa)).

Definition dropHeadXA (xa : XArray) (n : Z) : M st XArray :=
  vg_assert (0 <=? n) ;;;
  vg_assert (n <=? usedsizeE xa) ;;;
  if n =? 0 then ret xa
  else if n =? usedsizeE xa then ret (set_used xa 0 (xsorted xa))
  else
    vg_assert (0 <? n) ;;;
    vg_assert (0 <? usedsizeE xa - n) ;;;
    on_mem (fun m => memcpy m (arr xa) (arr xa + n * elemSzB xa)
                       ((usedsizeE xa - n) * elemSzB xa)) ;;;
    ret (set_used xa (usedsizeE xa - n) (xsorted xa)).

Definition removeIndexXA (xa : XArray) (n : Z) : M st XArray :=
  vg_assert (0 <=? n) ;;;
  vg_assert (n <? usedsizeE xa) ;;;
  (if n + 1 <? usedsizeE xa
   then on_mem (fun m => memmove m (arr xa + (n + 0) * elemSzB xa) (arr xa + (n + 1) * elemSzB xa)
                           ((usedsizeE xa - n - 1) * elemSzB xa))
   else ret tt) ;;;
  ret (set_used xa (usedsizeE xa - 1) (xsorted xa)).

Definition insertIndexXA (xa : XArray) (n : Z) (elem : Z) : M st XArray :=
  vg_assert (0 <=? n) ;;;
  vg_assert (n <=? usedsizeE xa) ;;;
  vg_assert ((0 <=? usedsizeE xa) && (usedsizeE xa <=? totsizeE xa)) ;;;
  xa <- ensureSpaceXA xa ;;
  vg_assert (usedsizeE xa <? totsizeE xa) ;;;
  vg_assert (negb (arr xa =? 0)) ;;;
  (if n <? usedsizeE xa
   then on_mem (fun m => memmove m (arr xa + (n + 1) * elemSzB xa) (arr xa + (n + 0) * elemSzB xa)
                           ((usedsizeE xa - n) * elemSzB xa))
   else ret tt) ;;;
  on_mem (fun m => memcpy m (arr xa + n * elemSzB xa) elem (elemSzB xa)) ;;;
  ret (set_used xa (usedsizeE xa + 1) false).

Definition replaceIndexXA (xa : XArray) (n : Z) (elem : Z) : M st XArray :=
  vg_assert (0 <=? n) ;;;
  vg_assert (n <? usedsizeE xa) ;;;
  vg_assert ((0 <=? usedsizeE xa) && (usedsizeE xa <=? totsizeE xa)) ;;;
  on_mem (fun m => memcpy m (arr xa + n * elemSzB xa) elem (elemSzB xa)) ;;;
  ret (set_used xa (usedsizeE xa) false).
End XA.
