(* ===== verification/XArrayProofs.v ===== *)
(** Extensible arrays as lists: every operation of [m_xarray.c] computes the
    list operation on the array's contents, keeps the array well-formed and
    leaves the rest of the allocated memory alone. *)
From stdpp Require Import base list.
From Stdlib Require Import ZArith Lia.
From S2P Require Import Prelude Mem LibcMem LibcMemProofs LibcSort LibcSortProofs XArray.
Open Scope prog_scope.
Open Scope Z_scope.

(** ** Bytes at an address *)

Section Bytes.
Implicit Types m : gmem.

Lemma bytes_at_app m p n1 n2 :
  bytes_at m p (n1 + n2) = bytes_at m p n1 ++ bytes_at m (p + Z.of_nat n1) n2.
Proof.
  revert p. induction n1 as [|n1 IH]; intros p; cbn; [by rewrite Z.add_0_r|].
  rewrite IH. do 2 f_equal. f_equal. lia.
Qed.

Lemma bytes_at_length m p n : length (bytes_at m p n) = n.
Proof. revert p. induction n; intros; cbn; auto. Qed.

(** Two memories that agree, shifted by [q - p] *)
Lemma bytes_at_shift m m' p q n :
  (forall i, 0 <= i < Z.of_nat n -> m (p + i) = m' (q + i)) -> bytes_at m p n = bytes_at m' q n.
Proof.
  revert p q. induction n as [|n IH]; intros p q Hm; cbn; [done|]. f_equal.
  - specialize (Hm 0 ltac:(lia)). by rewrite !Z.add_0_r in Hm.
  - apply IH. intros i Hi. rewrite <- !Z.add_assoc. apply Hm. lia.
Qed.

Lemma bytes_at_ext m m' p n : (forall x, p <= x < p + Z.of_nat n -> m x = m' x) ->
  bytes_at m p n = bytes_at m' p n.
Proof. intros Hm. apply bytes_at_shift. intros i Hi. apply Hm. lia. Qed.

Lemma bytes_at_upd m a i b n : 0 <= i < Z.of_nat n ->
  bytes_at (upd m (a + i) b) a n = <[Z.to_nat i := b]> (bytes_at m a n).
Proof.
  revert a i. induction n as [|n IH]; intros a i Hi; [lia|]. cbn [bytes_at].
  destruct (decide (i = 0)) as [->|Hne].
  - rewrite Z.add_0_r.
    change (<[Z.to_nat 0 := b]> (m a :: bytes_at m (a + 1) n)) with (b :: bytes_at m (a + 1) n).
    unfold upd at 1. rewrite Z.eqb_refl. f_equal.
    apply bytes_at_ext. intros x Hx. unfold upd. destruct (Z.eqb_spec x a); [lia|done].
  - replace (Z.to_nat i) with (S (Z.to_nat (i - 1))) by lia.
    change (<[S (Z.to_nat (i - 1)) := b]> (m a :: bytes_at m (a + 1) n)) with
      (m a :: <[Z.to_nat (i - 1) := b]> (bytes_at m (a + 1) n)). unfold upd at 1.
    rewrite (proj2 (Z.eqb_neq _ _)) by lia. f_equal. replace (a + i) with (a + 1 + (i - 1)) by lia. apply IH. lia.
Qed.

Lemma take_bytes_at m p n k : (k <= n)%nat -> take k (bytes_at m p n) = bytes_at m p k.
Proof.
  intros Hk. replace n with (k + (n - k))%nat by lia. rewrite bytes_at_app.
  apply take_app_length'. by rewrite bytes_at_length.
Qed.

Lemma drop_bytes_at m p n k : (k <= n)%nat ->
  drop k (bytes_at m p n) = bytes_at m (p + Z.of_nat k) (n - k).
Proof.
  intros Hk. replace n with (k + (n - k))%nat at 1 by lia. rewrite bytes_at_app.
  apply drop_app_length'. by rewrite bytes_at_length.
Qed.

Lemma copy_at m m' d s k n : mem_eq m' (copy m d s k) -> Z.of_nat n <= k ->
  bytes_at m' d n = bytes_at m s n.
Proof.
  intros He Hn. apply bytes_at_shift. intros i Hi. rewrite He. unfold copy.
  destruct (Z.leb_spec d (d + i)), (Z.ltb_spec (d + i) (d + k)); cbn [andb]; try lia. f_equal. lia.
Qed.

Lemma copy_off m m' d s k p n : mem_eq m' (copy m d s k) ->
  p + Z.of_nat n <= d \/ d + k <= p -> bytes_at m' p n = bytes_at m p n.
Proof.
  intros He Hd. apply bytes_at_ext. intros x Hx. rewrite He. unfold copy.
  destruct (Z.leb_spec d x), (Z.ltb_spec x (d + k)); cbn [andb]; (done || lia).
Qed.

Lemma copy_bytes_ok m m' d s k : bytes_ok m -> mem_eq m' (copy m d s k) -> bytes_ok m'.
Proof. intros Hm He x. rewrite He. unfold copy. destruct (_ && _); apply Hm. Qed.

(** [memcpy] as [copy], when the regions allow it *)
Lemma memcpy_copy m d s k : bytes_ok m -> 0 <= k -> d <= s \/ s + k <= d ->
  mem_eq (memcpy m d s k) (copy m d s k).
Proof. intros. by apply memcpy_copied. Qed.
End Bytes.

Section XA.
Context {H : Type} `{AllocatorLaws H}.

(** ** Well-formed arrays *)

(** The bytes of the elements *)
Definition contents (m : gmem) (xa : XArray) : list Z :=
  bytes_at m (arr xa) (Z.to_nat (usedsizeE xa * elemSzB xa)).

Definition cap (xa : XArray) : Z := totsizeE xa * elemSzB xa.

Definition xa_ok (s : st (H := H)) (xa : XArray) : Prop :=
  bytes_ok (mem s) /\ 0 < elemSzB xa /\ 0 <= usedsizeE xa <= totsizeE xa /\
  (if decide (totsizeE xa = 0) then arr xa = 0 else 0 < arr xa /\ live (heap s) (arr xa) (cap xa)).

(** [k] bytes at [q], outside the array's storage *)
Definition apart (q k : Z) (xa : XArray) : Prop :=
  totsizeE xa = 0 \/ q + k <= arr xa \/ arr xa + cap xa <= q.

(** Allocated memory outside the array is untouched, and stays outside. *)
Definition frame (s s' : st (H := H)) (xa xa' : XArray) : Prop :=
  forall q k, live (heap s) q k -> apart q k xa ->
    live (heap s') q k /\ apart q k xa' /\ forall x, q <= x < q + k -> mem s' x = mem s x.

Lemma frame_refl s xa : frame s s xa xa.
Proof using Type. by intros q k Hl Ha. Qed.

Lemma frame_trans s1 s2 s3 xa1 xa2 xa3 :
  frame s1 s2 xa1 xa2 -> frame s2 s3 xa2 xa3 -> frame s1 s3 xa1 xa3.
Proof using Type.
  intros F1 F2 q k Hl Ha. destruct (F1 q k Hl Ha) as (Hl2 & Ha2 & E2).
  destruct (F2 q k Hl2 Ha2) as (Hl3 & Ha3 & E3). split; [done|]. split; [done|].
  intros x Hx. by rewrite E3, E2.
Qed.

Lemma wp_assert b s (Q : unit -> st (H := H) -> Prop) : b = true -> Q tt s -> wp (vg_assert b) s Q.
Proof using Type. intros -> HQ. by apply wp_ret. Qed.

Lemma wp_alloc n s (Q : Z -> st -> Prop) :
  Q (alloc_fn n (heap s)).1 (mk_st (mem s) (alloc_fn n (heap s)).2) -> wp (alloc n) s Q.
Proof using Type. unfold wp, alloc. by destruct (alloc_fn n (heap s)). Qed.

Lemma wp_on_mem f s (Q : unit -> st (H := H) -> Prop) :
  Q tt (mk_st (f (mem s)) (heap s)) -> wp (on_mem f) s Q.
Proof using Type. done. Qed.

Lemma wp_free p s (Q : unit -> st -> Prop) :
  Q tt (mk_st (mem s) (free_fn p (heap s))) -> wp (free p) s Q.
Proof using Type. done. Qed.

Lemma new_size_gt xa : 0 < elemSzB xa -> 0 <= totsizeE xa -> totsizeE xa < new_size xa.
Proof using Type.
  intros He Ht. unfold new_size. destruct (Z.eqb_spec (totsizeE xa) 0) as [->|].
  - destruct (elemSzB xa =? 1), (elemSzB xa =? 2); lia.
  - pose proof (Z.div_mod (3 * totsizeE xa) 2 ltac:(lia)).
    pose proof (Z.mod_pos_bound (3 * totsizeE xa) 2 ltac:(lia)). lia.
Qed.

(** ** Growing *)

(** The array moves to a larger storage with its contents. *)
Lemma wp_ensureSpace xa s (Q : XArray -> st -> Prop) : xa_ok s xa ->
  (forall xa' s', xa_ok s' xa' -> frame s s' xa xa' -> usedsizeE xa < totsizeE xa' ->
     usedsizeE xa' = usedsizeE xa -> elemSzB xa' = elemSzB xa -> cmpFn xa' = cmpFn xa ->
     xsorted xa' = xsorted xa -> contents (mem s') xa' = contents (mem s) xa -> Q xa' s') ->
  wp (ensureSpaceXA xa) s Q.
Proof using All.
  intros Hok HQ. pose proof Hok as (Hm & He & Hu & Ha). unfold ensureSpaceXA.
  destruct (Z.eqb_spec (usedsizeE xa) (totsizeE xa)) as [E|E].
  2:{ apply wp_ret, HQ; auto using frame_refl. lia. }
  apply wp_bind. destruct (decide (totsizeE xa = 0)) as [E0|E0].
  - rewrite E0. apply wp_assert; [by rewrite Ha|]. apply wp_bind.
    apply wp_ret, wp_bind, wp_alloc, wp_bind. rewrite E, ?E0. apply wp_ret, wp_bind.
    rewrite Ha. apply wp_ret, wp_ret.
    pose proof (new_size_gt xa He ltac:(lia)) as Hn. set (n := new_size xa) in *.
    assert (0 <= n * elemSzB xa) as Hnz by (apply Z.mul_nonneg_nonneg; lia).
    apply HQ; cbn [usedsizeE totsizeE elemSzB cmpFn xsorted heap mem arr]; [| |lia|lia|done|done|done|].
    + split; [done|]. split; [done|]. split; [cbn; lia|]. cbn.
      destruct (decide (n = 0)); [lia|]. split; [by apply alloc_pos|by apply alloc_live].
    + intros q k Hl _. cbn. destruct (alloc_fresh (n * elemSzB xa) (heap s) q k Hnz Hl) as [Hl' Hd].
      split; [done|]. split; [right; cbn; unfold cap; cbn; lia|done].
    + unfold contents. cbn. by rewrite E, E0.
  - rewrite (proj2 (Z.eqb_neq (totsizeE xa) 0)) by lia. apply wp_ret, wp_bind.
    rewrite (proj2 (Z.ltb_lt 0 (totsizeE xa))) by lia. destruct Ha as [Hpos Hlive].
    apply wp_assert; [apply negb_true_iff, Z.eqb_neq; lia|]. apply wp_bind, wp_alloc, wp_bind.
    rewrite (proj2 (Z.ltb_lt 0 (usedsizeE xa))) by lia. apply wp_on_mem. cbn [mem heap].
    apply wp_bind. rewrite (proj2 (Z.eqb_neq (arr xa) 0)) by lia. apply wp_free, wp_ret.
    pose proof (new_size_gt xa He ltac:(lia)) as Hn. set (n := new_size xa) in *.
    assert (0 <= n * elemSzB xa) as Hnz by (apply Z.mul_nonneg_nonneg; lia).
    destruct (alloc_fresh (n * elemSzB xa) (heap s) _ _ Hnz Hlive) as [Hlive' Hd].
    pose proof (alloc_live (n * elemSzB xa) (heap s) Hnz) as Hnew.
    pose proof (alloc_pos (n * elemSzB xa) (heap s) Hnz) as Hp.
    destruct (alloc_fn (n * elemSzB xa) (heap s)) as [tmp h'] eqn:Ea. cbn [fst snd] in *.
    assert (usedsizeE xa * elemSzB xa <= cap xa) as Hcap
      by (unfold cap; apply Z.mul_le_mono_nonneg_r; lia).
    assert (usedsizeE xa * elemSzB xa <= n * elemSzB xa) as Hcap'
      by (apply Z.mul_le_mono_nonneg_r; lia).
    assert (0 <= usedsizeE xa * elemSzB xa) as Hz by (apply Z.mul_nonneg_nonneg; lia).
    pose proof (memcpy_copy (mem s) tmp (arr xa) _ Hm Hz ltac:(lia)) as Hc.
    set (m' := memcpy (mem s) tmp (arr xa) (usedsizeE xa * elemSzB xa)) in *.
    apply HQ; cbn [usedsizeE totsizeE elemSzB cmpFn xsorted heap mem arr]; [| |lia|lia|done|done|done|].
    + split; [by eapply copy_bytes_ok|]. split; [done|]. split; [cbn; lia|]. cbn.
      destruct (decide (n = 0)); [lia|]. split; [done|].
      eapply free_other; [exact Hlive'|exact Hnew|]. done.
    + intros q k Hl Hap. cbn.
      destruct (alloc_fresh (n * elemSzB xa) (heap s) q k Hnz Hl) as [Hl' Hd'].
      rewrite Ea in Hl', Hd'. cbn [fst snd] in *.
      assert (q + k <= arr xa \/ arr xa + cap xa <= q) as Hap' by (destruct Hap; [lia|done]).
      split; [eapply free_other; [exact Hlive'|exact Hl'|lia]|].
      split; [right; cbn; unfold cap; cbn; lia|].
      intros x Hx. rewrite Hc. unfold copy.
      destruct (Z.leb_spec tmp x), (Z.ltb_spec x (tmp + usedsizeE xa * elemSzB xa)); cbn; (done || lia).
    + unfold contents. cbn. apply (copy_at _ _ _ _ _ _ Hc). lia.
Qed.

(** ** Contents *)

Lemma contents_split m xa i : 0 <= i <= usedsizeE xa -> 0 < elemSzB xa ->
  contents m xa = bytes_at m (arr xa) (Z.to_nat (i * elemSzB xa)) ++
    bytes_at m (arr xa + i * elemSzB xa) (Z.to_nat ((usedsizeE xa - i) * elemSzB xa)).
Proof using Type.
  intros Hi He. unfold contents.
  replace (Z.to_nat (usedsizeE xa * elemSzB xa)) with
    (Z.to_nat (i * elemSzB xa) + Z.to_nat ((usedsizeE xa - i) * elemSzB xa))%nat by nia.
  rewrite bytes_at_app. do 2 f_equal. rewrite Z2Nat.id; [lia|]. nia.
Qed.

Lemma take_contents m xa i : 0 <= i <= usedsizeE xa -> 0 < elemSzB xa ->
  take (Z.to_nat (i * elemSzB xa)) (contents m xa) = bytes_at m (arr xa) (Z.to_nat (i * elemSzB xa)).
Proof using Type. intros Hi He. apply take_bytes_at. nia. Qed.

Lemma drop_contents m xa i : 0 <= i <= usedsizeE xa -> 0 < elemSzB xa ->
  drop (Z.to_nat (i * elemSzB xa)) (contents m xa) =
  bytes_at m (arr xa + i * elemSzB xa) (Z.to_nat ((usedsizeE xa - i) * elemSzB xa)).
Proof using Type.
  intros Hi He. unfold contents. rewrite drop_bytes_at by nia. f_equal; nia.
Qed.

(** ** Writing inside the storage *)

(** What a write inside the storage keeps *)
Lemma write_inside xa s m' d k n b : xa_ok s xa -> bytes_ok m' ->
  (forall x, x < d \/ d + k <= x -> m' x = mem s x) ->
  arr xa <= d -> d + k <= arr xa + cap xa -> 0 < totsizeE xa -> 0 <= n <= totsizeE xa ->
  let xa' := set_used xa n b in
  xa_ok (mk_st m' (heap s)) xa' /\ frame s (mk_st m' (heap s)) xa xa'.
Proof using Type.
  intros (Hm & He & Hu & Ha) Hm' Ho Hd1 Hd2 Ht Hn xa'. split.
  - split; [done|]. split; [done|]. split; [cbn; lia|]. cbn. unfold cap in *. cbn.
    by destruct (decide (totsizeE xa = 0)).
  - intros q l Hl Hap. split; [done|]. split; [exact Hap|]. intros x Hx. apply Ho.
    destruct Hap as [|Hap]; lia.
Qed.

Lemma slot_bounds xa i : 0 < elemSzB xa -> 0 <= i < totsizeE xa ->
  0 <= i * elemSzB xa /\ i * elemSzB xa + elemSzB xa <= cap xa.
Proof using Type. intros. unfold cap. nia. Qed.

(** A source of bytes outside the array *)
Definition source (s : st (H := H)) (xa : XArray) (p : Z) : Prop :=
  0 < p /\ live (heap s) p (elemSzB xa) /\ apart p (elemSzB xa) xa.

(** ** Operations *)

Lemma copy_outside m m' d s k x : mem_eq m' (copy m d s k) -> x < d \/ d + k <= x -> m' x = m x.
Proof using Type.
  intros He Hx. rewrite He. unfold copy.
  destruct (Z.leb_spec d x), (Z.ltb_spec x (d + k)); cbn [andb]; (done || lia).
Qed.

(** [addToXA] appends the element and returns its index. *)
Lemma wp_addToXA xa s p (Q : Z * XArray -> st -> Prop) : xa_ok s xa -> source s xa p ->
  (forall xa' s', xa_ok s' xa' -> frame s s' xa xa' ->
     usedsizeE xa' = usedsizeE xa + 1 -> elemSzB xa' = elemSzB xa ->
     contents (mem s') xa' = contents (mem s) xa ++ bytes_at (mem s) p (Z.to_nat (elemSzB xa)) ->
     Q (usedsizeE xa, xa') s') ->
  wp (addToXA xa p) s Q.
Proof using All.
  intros Hok (Hp & Hlive & Hap) HQ. pose proof Hok as (_ & He & Hu & _). unfold addToXA.
  apply wp_bind, wp_assert; [apply negb_true_iff, Z.eqb_neq; lia|].
  apply wp_bind, wp_assert; [apply Z.leb_le; lia|].
  apply wp_bind, wp_assert; [apply andb_true_intro; split; apply Z.leb_le; lia|].
  apply wp_bind, wp_ensureSpace; [done|].
  intros xa1 s1 Hok1 F1 Hlt Eu Ee Ec Es Econt. pose proof Hok1 as (Hm1 & _ & Hu1 & Ha1).
  destruct (decide (totsizeE xa1 = 0)); [lia|]. destruct Ha1 as [Ha1 _].
  apply wp_bind, wp_assert; [apply Z.ltb_lt; lia|].
  apply wp_bind, wp_assert; [apply negb_true_iff, Z.eqb_neq; lia|].
  apply wp_bind, wp_on_mem, wp_ret. rewrite Eu, Ee.
  destruct (F1 p _ Hlive Hap) as (_ & Hap1 & Ep).
  destruct (slot_bounds xa1 (usedsizeE xa) ltac:(lia) ltac:(lia)) as [B1 B2]. rewrite Ee in B1, B2.
  pose proof (memcpy_copy (mem s1) (arr xa1 + usedsizeE xa * elemSzB xa) p (elemSzB xa) Hm1
    ltac:(lia) ltac:(destruct Hap1; lia)) as Hc.
  set (m2 := memcpy (mem s1) _ p _) in *.
  destruct (write_inside xa1 s1 m2 _ _ (usedsizeE xa + 1) false Hok1
    (copy_bytes_ok _ _ _ _ _ Hm1 Hc) (fun x => copy_outside _ _ _ _ _ x Hc)
    ltac:(lia) ltac:(lia) ltac:(lia) ltac:(lia)) as [Hok2 F2].
  cbn [usedsizeE set_used]. rewrite Z.add_simpl_r.
  apply HQ; [done|by eapply frame_trans|done|done|].
  rewrite (contents_split m2 _ (usedsizeE xa)) by (cbn; lia). cbn [set_used arr usedsizeE elemSzB].
  rewrite Ee. replace (usedsizeE xa + 1 - usedsizeE xa) with 1 by lia. rewrite Z.mul_1_l.
  rewrite (copy_off _ _ _ _ _ _ _ Hc) by lia. rewrite (copy_at _ _ _ _ _ _ Hc) by lia.
  rewrite <- Econt. f_equal.
  - unfold contents. by rewrite Eu, Ee.
  - apply bytes_at_ext. intros x Hx. apply Ep. lia.
Qed.

(** [removeIndexXA] deletes the element at the index. *)
Lemma wp_removeIndexXA xa s i (Q : XArray -> st -> Prop) : xa_ok s xa -> 0 <= i < usedsizeE xa ->
  (forall xa' s', xa_ok s' xa' -> frame s s' xa xa' -> usedsizeE xa' = usedsizeE xa - 1 ->
     elemSzB xa' = elemSzB xa -> xsorted xa' = xsorted xa ->
     contents (mem s') xa' = take (Z.to_nat (i * elemSzB xa)) (contents (mem s) xa) ++
                             drop (Z.to_nat ((i + 1) * elemSzB xa)) (contents (mem s) xa) ->
     Q xa' s') ->
  wp (removeIndexXA xa i) s Q.
Proof using All.
  intros Hok Hi HQ. pose proof Hok as (Hm & He & Hu & Ha). unfold removeIndexXA.
  apply wp_bind, wp_assert; [apply Z.leb_le; lia|].
  apply wp_bind, wp_assert; [apply Z.ltb_lt; lia|]. apply wp_bind.
  rewrite take_contents, drop_contents in HQ by lia.
  destruct (slot_bounds xa i He ltac:(lia)) as [B1 B2].
  destruct (Z.ltb_spec (i + 1) (usedsizeE xa)).
  - apply wp_on_mem, wp_ret. rewrite Z.add_0_r.
    assert (0 <= (usedsizeE xa - i - 1) * elemSzB xa) as Hk by nia.
    pose proof (memmove_copy (mem s) (arr xa + i * elemSzB xa) (arr xa + (i + 1) * elemSzB xa) _ Hk) as Hc.
    set (m2 := memmove (mem s) _ _ _) in *.
    destruct (write_inside xa s m2 _ _ (usedsizeE xa - 1) (xsorted xa) Hok
      (copy_bytes_ok _ _ _ _ _ Hm Hc) (fun x => copy_outside _ _ _ _ _ x Hc)) as [Hok2 F2];
      [lia|unfold cap; nia|lia|lia|].
    apply HQ; [done..|].
    rewrite (contents_split m2 _ i) by (cbn; lia). cbn [set_used arr usedsizeE elemSzB].
    rewrite (copy_off _ _ _ _ _ _ _ Hc) by lia. f_equal.
    replace (usedsizeE xa - (i + 1)) with (usedsizeE xa - 1 - i) by lia.
    apply (copy_at _ _ _ _ _ _ Hc). nia.
  - apply wp_ret, wp_ret. destruct (write_inside xa s (mem s) (arr xa) 0 (usedsizeE xa - 1) (xsorted xa)
      Hok Hm) as [Hok2 F2]; [done|lia|unfold cap; nia|lia|lia|].
    assert (mk_st (mem s) (heap s) = s) as Es by (by destruct s). rewrite Es in *.
    apply HQ; [done..|]. rewrite (contents_split (mem s) _ i) by (cbn; lia).
    cbn [set_used arr usedsizeE elemSzB]. f_equal.
    replace (usedsizeE xa - 1 - i) with 0 by lia. replace (usedsizeE xa - (i + 1)) with 0 by lia. done.
Qed.

(** [dropHeadXA] copies the tail down with [memcpy]: the regions may
    overlap, and the copy goes the safe way. *)
Lemma wp_dropHeadXA xa s i (Q : XArray -> st -> Prop) : xa_ok s xa -> 0 <= i <= usedsizeE xa ->
  (forall xa' s', xa_ok s' xa' -> frame s s' xa xa' -> usedsizeE xa' = usedsizeE xa - i ->
     elemSzB xa' = elemSzB xa ->
     contents (mem s') xa' = drop (Z.to_nat (i * elemSzB xa)) (contents (mem s) xa) -> Q xa' s') ->
  wp (dropHeadXA xa i) s Q.
Proof using All.
  intros Hok Hi HQ. pose proof Hok as (Hm & He & Hu & Ha). unfold dropHeadXA.
  apply wp_bind, wp_assert; [apply Z.leb_le; lia|].
  apply wp_bind, wp_assert; [apply Z.leb_le; lia|].
  rewrite drop_contents in HQ by lia.
  assert (mk_st (mem s) (heap s) = s) as Es by (by destruct s).
  destruct (Z.eqb_spec i 0) as [->|].
  { apply wp_ret, HQ; [done|apply frame_refl|lia|done|]. unfold contents.
    by rewrite Z.mul_0_l, Z.add_0_r, Z.sub_0_r. }
  destruct (Z.eqb_spec i (usedsizeE xa)) as [->|].
  { apply wp_ret. destruct (write_inside xa s (mem s) (arr xa) 0 0 (xsorted xa) Hok Hm)
      as [Hok2 F2]; [done|lia|unfold cap; nia|lia|lia|]. rewrite Es in *.
    apply HQ; [done|done|cbn; lia|done|]. unfold contents. cbn. by rewrite Z.sub_diag. }
  apply wp_bind, wp_assert; [apply Z.ltb_lt; lia|].
  apply wp_bind, wp_assert; [apply Z.ltb_lt; lia|]. apply wp_bind, wp_on_mem, wp_ret.
  assert (0 <= (usedsizeE xa - i) * elemSzB xa) as Hk by nia.
  pose proof (memcpy_copy (mem s) (arr xa) (arr xa + i * elemSzB xa) _ Hm Hk ltac:(left; nia)) as Hc.
  set (m2 := memcpy (mem s) _ _ _) in *.
  destruct (write_inside xa s m2 _ _ (usedsizeE xa - i) (xsorted xa) Hok
    (copy_bytes_ok _ _ _ _ _ Hm Hc) (fun x => copy_outside _ _ _ _ _ x Hc)) as [Hok2 F2];
    [lia|unfold cap; nia|lia|lia|].
  apply HQ; [done..|]. unfold contents. cbn [set_used arr usedsizeE elemSzB].
  apply (copy_at _ _ _ _ _ _ Hc). lia.
Qed.

(** [replaceIndexXA] overwrites the element at the index. *)
Lemma wp_replaceIndexXA xa s i p (Q : XArray -> st -> Prop) : xa_ok s xa -> source s xa p ->
  0 <= i < usedsizeE xa ->
  (forall xa' s', xa_ok s' xa' -> frame s s' xa xa' -> usedsizeE xa' = usedsizeE xa ->
     elemSzB xa' = elemSzB xa -> xsorted xa' = false ->
     contents (mem s') xa' = take (Z.to_nat (i * elemSzB xa)) (contents (mem s) xa) ++
       bytes_at (mem s) p (Z.to_nat (elemSzB xa)) ++
       drop (Z.to_nat ((i + 1) * elemSzB xa)) (contents (mem s) xa) -> Q xa' s') ->
  wp (replaceIndexXA xa i p) s Q.
Proof using All.
  intros Hok (Hp & Hlive & Hap) Hi HQ. pose proof Hok as (Hm & He & Hu & Ha).
  unfold replaceIndexXA.
  apply wp_bind, wp_assert; [apply Z.leb_le; lia|].
  apply wp_bind, wp_assert; [apply Z.ltb_lt; lia|].
  apply wp_bind, wp_assert; [apply andb_true_intro; split; apply Z.leb_le; lia|].
  apply wp_bind, wp_on_mem, wp_ret. rewrite take_contents, drop_contents in HQ by lia.
  destruct (slot_bounds xa i He ltac:(lia)) as [B1 B2].
  pose proof (memcpy_copy (mem s) (arr xa + i * elemSzB xa) p (elemSzB xa) Hm ltac:(lia)
    ltac:(destruct Hap; lia)) as Hc.
  set (m2 := memcpy (mem s) _ _ _) in *.
  destruct (write_inside xa s m2 _ _ (usedsizeE xa) false Hok
    (copy_bytes_ok _ _ _ _ _ Hm Hc) (fun x => copy_outside _ _ _ _ _ x Hc)) as [Hok2 F2];
    [lia|lia|lia|lia|].
  apply HQ; [done..|].
  rewrite (contents_split m2 _ i) by (cbn; lia). cbn [set_used arr usedsizeE elemSzB].
  rewrite (copy_off _ _ _ _ _ _ _ Hc) by lia. f_equal.
  replace (Z.to_nat ((usedsizeE xa - i) * elemSzB xa)) with
    (Z.to_nat (elemSzB xa) + Z.to_nat ((usedsizeE xa - (i + 1)) * elemSzB xa))%nat by nia.
  rewrite bytes_at_app, (copy_at _ _ _ _ _ _ Hc) by lia. f_equal.
  rewrite (copy_off _ _ _ _ _ _ _ Hc) by lia. f_equal. lia.
Qed.

(** [insertIndexXA] inserts the element before the index. *)
Lemma wp_insertIndexXA xa s i p (Q : XArray -> st -> Prop) : xa_ok s xa -> source s xa p ->
  0 <= i <= usedsizeE xa ->
  (forall xa' s', xa_ok s' xa' -> frame s s' xa xa' -> usedsizeE xa' = usedsizeE xa + 1 ->
     elemSzB xa' = elemSzB xa -> xsorted xa' = false ->
     contents (mem s') xa' = take (Z.to_nat (i * elemSzB xa)) (contents (mem s) xa) ++
       bytes_at (mem s) p (Z.to_nat (elemSzB xa)) ++
       drop (Z.to_nat (i * elemSzB xa)) (contents (mem s) xa) -> Q xa' s') ->
  wp (insertIndexXA xa i p) s Q.
Proof using All.
  intros Hok (Hp & Hlive & Hap) Hi HQ. pose proof Hok as (_ & He & Hu & _). unfold insertIndexXA.
  apply wp_bind, wp_assert; [apply Z.leb_le; lia|].
  apply wp_bind, wp_assert; [apply Z.leb_le; lia|].
  apply wp_bind, wp_assert; [apply andb_true_intro; split; apply Z.leb_le; lia|].
  apply wp_bind, wp_ensureSpace; [done|].
  intros xa1 s1 Hok1 F1 Hlt Eu Ee Ec Es Econt. pose proof Hok1 as (Hm1 & He1 & Hu1 & Ha1).
  destruct (decide (totsizeE xa1 = 0)); [lia|]. destruct Ha1 as [Ha1 _].
  apply wp_bind, wp_assert; [apply Z.ltb_lt; lia|].
  apply wp_bind, wp_assert; [apply negb_true_iff, Z.eqb_neq; lia|].
  destruct (F1 p _ Hlive Hap) as (_ & Hap1 & Ep). rewrite <- Econt, <- Ee in HQ.
  rewrite take_contents, drop_contents in HQ by lia. rewrite Ee in HQ.
  destruct (slot_bounds xa1 i He1 ltac:(lia)) as [B1 B2].
  set (e := elemSzB xa1) in *. assert (elemSzB xa = e) as Ee' by done. rewrite Ee' in *.
  assert (i * e <= usedsizeE xa1 * e) as Hie by (apply Z.mul_le_mono_nonneg_r; lia).
  (* the elements after the index move up *)
  set (m2 := if i <? usedsizeE xa1
             then memmove (mem s1) (arr xa1 + (i + 1) * e) (arr xa1 + (i + 0) * e) ((usedsizeE xa1 - i) * e)
             else mem s1).
  assert (mem_eq m2 (copy (mem s1) (arr xa1 + (i + 1) * e) (arr xa1 + i * e) ((usedsizeE xa1 - i) * e)))
    as Hmv.
  { unfold m2. rewrite Z.add_0_r. destruct (Z.ltb_spec i (usedsizeE xa1)).
    - apply memmove_copy. nia.
    - replace (usedsizeE xa1 - i) with 0 by lia. intros x. unfold copy.
      destruct (Z.leb_spec (arr xa1 + (i + 1) * e) x),
        (Z.ltb_spec x (arr xa1 + (i + 1) * e + 0 * e)); cbn [andb]; (done || lia). }
  apply wp_bind. match goal with |- wp ?c s1 _ => assert (c s1 = Some (tt, mk_st m2 (heap s1))) as Ec2 end.
  { unfold m2. destruct (i <? usedsizeE xa1); [done|]. by destruct s1. }
  unfold wp at 1. rewrite Ec2. clear Ec2. apply wp_bind, wp_on_mem, wp_ret. cbn [mem heap].
  pose proof (copy_bytes_ok _ _ _ _ _ Hm1 Hmv) as Hm2.
  pose proof (memcpy_copy m2 (arr xa1 + i * e) p e Hm2 ltac:(lia) ltac:(destruct Hap1; lia)) as Hc.
  set (m3 := memcpy m2 _ _ _) in *.
  assert (forall x, x < arr xa1 + i * e \/ arr xa1 + (usedsizeE xa1 + 1) * e <= x -> m3 x = mem s1 x)
    as Hout.
  { intros x Hx. rewrite (copy_outside _ _ _ _ _ x Hc) by lia.
    apply (copy_outside _ _ _ _ _ x Hmv). lia. }
  destruct (write_inside xa1 s1 m3 (arr xa1 + i * e) ((usedsizeE xa1 + 1 - i) * e)
    (usedsizeE xa1 + 1) false Hok1 (copy_bytes_ok _ _ _ _ _ Hm2 Hc)) as [Hok2 F2];
    [intros x Hx; apply Hout; lia|lia|unfold cap; fold e; nia|lia|lia|].
  apply HQ; [done|by eapply frame_trans|cbn; lia|done|done|].
  rewrite (contents_split m3 _ i) by (cbn; lia). cbn [set_used arr usedsizeE elemSzB]. fold e.
  f_equal; [apply bytes_at_ext; intros x Hx; apply Hout; lia|].
  replace (Z.to_nat ((usedsizeE xa1 + 1 - i) * e)) with
    (Z.to_nat e + Z.to_nat ((usedsizeE xa1 - i) * e))%nat by nia.
  rewrite bytes_at_app. f_equal.
  - rewrite (copy_at _ _ _ _ _ _ Hc) by lia. rewrite (copy_off _ _ _ _ _ _ _ Hmv).
    + apply bytes_at_ext. intros x Hx. apply Ep. lia.
    + assert (cap xa1 = totsizeE xa1 * e) as Ecap by done. rewrite Ecap in *.
      destruct Hap1 as [|[|]]; [lia|lia|]. nia.
  - rewrite (copy_off _ _ _ _ _ _ _ Hc) by lia.
    replace (arr xa1 + i * e + Z.of_nat (Z.to_nat e)) with (arr xa1 + (i + 1) * e) by lia.
    apply (copy_at _ _ _ _ _ _ Hmv). lia.
Qed.

(** ** Lookup *)

Section Lookup.
Context (xa : XArray) (s : st (H := H)) (cmp : list Z -> list Z -> Z) (key : list Z).
Context (Hok : xa_ok s xa) (Hsz : usedsizeE xa < 2 ^ 63).

(** The sign of the comparison with the element at an index *)
Definition sg (i : Z) : Z := cmp key (elem_at (mem s) xa i).

(** The elements are in order for the key: first those it is above, then
    those it equals, then those it is below. *)
Definition in_order : Prop := forall i j, 0 <= i < j -> j < usedsizeE xa ->
  (sg i < 0 -> sg j < 0) /\ (sg i <= 0 -> sg j <= 0).

Lemma wp_index_elem i (Q : list Z -> st -> Prop) : 0 <= i < usedsizeE xa ->
  Q (elem_at (mem s) xa i) s -> wp (index_elem xa i) s Q.
Proof using Hok Hsz.
  intros Hi HQ. unfold index_elem, indexXA.
  apply wp_bind, wp_bind, wp_assert; [|apply wp_ret, wp_gets; exact HQ].
  apply Z.ltb_lt. rewrite !u64_small by lia. lia.
Qed.

Lemma wp_expand_first fuel : forall i (Q : Z -> st -> Prop), 0 <= i < usedsizeE xa -> i < Z.of_nat fuel ->
  sg i = 0 ->
  (forall r, 0 <= r <= i -> (forall k, r <= k <= i -> sg k = 0) -> (0 < r -> sg (r - 1) <> 0) -> Q r s) ->
  wp (expand_first fuel xa cmp key i) s Q.
Proof using Hok Hsz.
  induction fuel as [|fuel IH]; intros i Q Hi Hf Hz HQ; [lia|]. cbn [expand_first].
  destruct (Z.ltb_spec 0 i).
  2:{ apply wp_ret, HQ; [lia| |lia]. intros k Hk. by replace k with i by lia. }
  apply wp_bind, wp_index_elem; [lia|]. fold (sg (i - 1)).
  destruct (Z.eqb_spec 0 (sg (i - 1))) as [E|E].
  - apply IH; [lia|lia|done|]. intros r Hr Hk Hne. apply HQ; [lia| |done].
    intros k Hk'. destruct (decide (k = i)) as [->|]; [done|]. apply Hk. lia.
  - apply wp_ret, HQ; [lia| |done]. intros k Hk. by replace k with i by lia.
Qed.

Lemma wp_expand_last fuel : forall i (Q : Z -> st -> Prop), 0 <= i < usedsizeE xa ->
  usedsizeE xa - i <= Z.of_nat fuel -> sg i = 0 ->
  (forall r, i <= r < usedsizeE xa -> (forall k, i <= k <= r -> sg k = 0) ->
     (r + 1 < usedsizeE xa -> sg (r + 1) <> 0) -> Q r s) ->
  wp (expand_last fuel xa cmp key i) s Q.
Proof using Hok Hsz.
  induction fuel as [|fuel IH]; intros i Q Hi Hf Hz HQ; [lia|]. cbn [expand_last].
  destruct (Z.ltb_spec i (usedsizeE xa - 1)).
  2:{ apply wp_ret, HQ; [lia| |lia]. intros k Hk. by replace k with i by lia. }
  apply wp_bind, wp_index_elem; [lia|]. fold (sg (i + 1)).
  destruct (Z.eqb_spec 0 (sg (i + 1))) as [E|E].
  - apply IH; [lia|lia|done|]. intros r Hr Hk Hne. apply HQ; [lia| |done].
    intros k Hk'. destruct (decide (k = i)) as [->|]; [done|]. apply Hk. lia.
  - apply wp_ret, HQ; [lia| |done]. intros k Hk. by replace k with i by lia.
Qed.

(** The result: no element equals the key, or the range of those that do *)
Definition looked_up (r : option (Z * Z)) : Prop :=
  match r with
  | None => forall i, 0 <= i < usedsizeE xa -> sg i <> 0
  | Some (first, last) => 0 <= first <= last /\ last < usedsizeE xa /\
      forall i, 0 <= i < usedsizeE xa -> sg i = 0 <-> first <= i <= last
  end.

Lemma wp_lookup_loop fuel : in_order -> forall lo hi (Q : option (Z * Z) -> st -> Prop),
  0 <= lo <= hi + 1 -> hi < usedsizeE xa -> hi - lo + 1 < Z.of_nat fuel ->
  (forall i, 0 <= i < lo -> 0 < sg i) -> (forall i, hi < i < usedsizeE xa -> sg i < 0) ->
  (forall r, looked_up r -> Q r s) ->
  wp (lookup_loop fuel xa cmp key lo hi) s Q.
Proof using Hok Hsz.
  intros Ho. induction fuel as [|fuel IH]; intros lo hi Q Hlo Hhi Hf Hl Hh HQ; [lia|].
  cbn [lookup_loop]. destruct (Z.ltb_spec hi lo) as [Hd|Hd].
  { apply wp_ret, HQ. intros i Hi. destruct (decide (i < lo)) as [Hil|]; [specialize (Hl i)|specialize (Hh i)]; lia. }
  rewrite Z.quot_div_nonneg by lia.
  pose proof (Z.div_mod (lo + hi) 2 ltac:(lia)). pose proof (Z.mod_pos_bound (lo + hi) 2 ltac:(lia)).
  set (mid := (lo + hi) / 2) in *. assert (lo <= mid <= hi) as Hmid by lia. clearbody mid.
  apply wp_bind, wp_index_elem; [lia|]. fold (sg mid). cbv zeta.
  destruct (Z.ltb_spec (sg mid) 0) as [Hneg|Hneg].
  { apply IH; [lia|lia|lia|done| |done]. intros i Hi.
    destruct (decide (i = mid)) as [->|]; [done|]. destruct (decide (i <= hi)); [|apply Hh; lia].
    by apply (Ho mid i); [lia|lia|]. }
  destruct (Z.ltb_spec 0 (sg mid)) as [Hpos|Hpos].
  { apply IH; [lia|lia|lia| |done|done]. intros i Hi.
    destruct (decide (i < lo)); [apply Hl; lia|].
    destruct (decide (i = mid)) as [->|]; [done|].
    destruct (Ho i mid ltac:(lia) ltac:(lia)) as [_ O2]. lia. }
  assert (sg mid = 0) as Hz by lia.
  apply wp_bind, wp_index_elem; [lia|]. fold (sg lo). apply wp_bind, wp_assert.
  { apply Z.leb_le. destruct (decide (lo = mid)) as [->|]; [lia|].
    destruct (Ho lo mid ltac:(lia) ltac:(lia)) as [O1 _]. lia. }
  apply wp_bind, wp_index_elem; [lia|]. fold (sg hi). apply wp_bind, wp_assert.
  { apply Z.leb_le. destruct (decide (hi = mid)) as [->|]; [lia|].
    destruct (Ho mid hi ltac:(lia) ltac:(lia)) as [_ O2]. lia. }
  apply wp_bind, wp_expand_first; [lia|lia|done|]. intros first Hfr Hfz Hfn.
  apply wp_bind, wp_expand_last; [lia|lia|done|]. intros last Hlr Hlz Hln.
  apply wp_ret, HQ. split; [lia|]. split; [lia|]. intros i Hi. split.
  - intros Ei. split.
    + destruct (Z.le_gt_cases first i); [done|]. exfalso. apply Hfn; [lia|].
      destruct (decide (i = first - 1)) as [->|]; [done|].
      destruct (Ho i (first - 1) ltac:(lia) ltac:(lia)) as [_ O2].
      destruct (Ho (first - 1) mid ltac:(lia) ltac:(lia)) as [O1 _]. lia.
    + destruct (Z.le_gt_cases i last); [done|]. exfalso. apply Hln; [lia|].
      destruct (decide (i = last + 1)) as [->|]; [done|].
      destruct (Ho mid (last + 1) ltac:(lia) ltac:(lia)) as [_ O2].
      destruct (Ho (last + 1) i ltac:(lia) ltac:(lia)) as [O1 _]. lia.
  - intros Hr. destruct (decide (i <= mid)); [apply Hfz|apply Hlz]; lia.
Qed.

Lemma wp_lookupXA_UNSAFE (Q : option (Z * Z) -> st -> Prop) : in_order ->
  (forall r, looked_up r -> Q r s) -> wp (lookupXA_UNSAFE xa key cmp) s Q.
Proof using Hok Hsz.
  intros Ho HQ. destruct Hok as (_ & _ & Hu & _).
  apply wp_lookup_loop; [done|lia|lia|lia|lia|lia|done].
Qed.
End Lookup.

(** ** Sorting *)

Lemma write_at_off b : forall m p x, x < p \/ p + Z.of_nat (length b) <= x -> write_at m p b x = m x.
Proof using Type.
  induction b as [|y b IH]; intros m p x Hx; cbn in *; [done|]. rewrite IH by lia.
  unfold upd. destruct (Z.eqb_spec x p); [lia|done].
Qed.

Lemma write_at_on b : forall m p, bytes_at (write_at m p b) p (length b) = b.
Proof using Type.
  induction b as [|y b IH]; intros m p; cbn; [done|]. f_equal; [|apply IH].
  rewrite write_at_off by lia. unfold upd. by rewrite Z.eqb_refl.
Qed.

Lemma write_at_ok b : forall m p, bytes_ok m -> Forall (fun y => 0 <= y < 256) b -> bytes_ok (write_at m p b).
Proof using Type.
  induction b as [|y b IH]; intros m p Hm Hb; cbn; [done|]. apply Forall_cons in Hb as [Hy Hb].
  apply IH; [|done]. by apply upd_ok.
Qed.

Lemma bytes_at_ok m p n : bytes_ok m -> Forall (fun y => 0 <= y < 256) (bytes_at m p n).
Proof using Type. intros Hm. revert p. induction n; intros p; cbn; constructor; auto. Qed.

(** An element as it must be to be written into the array *)
Definition elem_ok (xa : XArray) (b : list Z) : Prop :=
  length b = Z.to_nat (elemSzB xa) /\ Forall (fun y => 0 <= y < 256) b.

Lemma write_elems_spec xa f n : 0 < elemSzB xa -> forall m i, 0 <= i ->
  (forall j, i <= j < i + Z.of_nat n -> elem_ok xa (f j)) -> bytes_ok m ->
  let m' := write_elems n m xa f i in
  (forall j, i <= j < i + Z.of_nat n -> elem_at m' xa j = f j) /\
  (forall x, x < arr xa + i * elemSzB xa \/ arr xa + (i + Z.of_nat n) * elemSzB xa <= x -> m' x = m x) /\
  bytes_ok m'.
Proof using Type.
  intros He. induction n as [|n IH]; intros m i Hi Hf Hm; cbn [write_elems]; [split; [lia|done]|].
  destruct (Hf i ltac:(lia)) as [Hl Hb].
  set (m1 := write_at m (arr xa + i * elemSzB xa) (f i)).
  destruct (IH m1 (i + 1) ltac:(lia)) as (E & O & K).
  { intros j Hj. apply Hf. lia. }
  { by apply write_at_ok. }
  split; [|split; [|done]].
  - intros j Hj. destruct (decide (j = i)) as [->|]; [|apply E; lia].
    rewrite <- (write_at_on (f i) m (arr xa + i * elemSzB xa)). fold m1. unfold elem_at.
    rewrite Hl. apply bytes_at_ext. intros x Hx. apply O. left. lia.
  - intros x Hx. rewrite O by nia. apply write_at_off. rewrite Hl. nia.
Qed.

(** [sortXA] sorts the elements with the array's comparison function. *)
Lemma wp_sortXA xa s cmp (Q : XArray -> st -> Prop) : xa_ok s xa -> cmpFn xa = Some cmp ->
  preorder cmp ->
  (forall xa' s', xa_ok s' xa' -> frame s s' xa xa' -> usedsizeE xa' = usedsizeE xa ->
     elemSzB xa' = elemSzB xa -> xsorted xa' = true -> arr xa' = arr xa ->
     sorted cmp (elem_at (mem s') xa') 0 (usedsizeE xa) ->
     slice (elem_at (mem s') xa') 0 (Z.to_nat (usedsizeE xa)) ≡ₚ
       slice (elem_at (mem s) xa) 0 (Z.to_nat (usedsizeE xa)) -> Q xa' s') ->
  wp (sortXA xa) s Q.
Proof using All.
  intros Hok Ec Hcmp HQ. pose proof Hok as (Hm & He & Hu & Ha). unfold sortXA. rewrite Ec.
  apply wp_bind, wp_on_mem, wp_ret.
  set (bv := (elemSzB xa =? 8) && (Z.land (arr xa) 7 =? 0)).
  destruct (ssort_spec cmp Hcmp bv (elem_at (mem s) xa) 0 (usedsizeE xa) ltac:(lia)) as [Hs Hp].
  set (f := ssort cmp bv (elem_at (mem s) xa) 0 (usedsizeE xa)) in *.
  assert (forall j, 0 <= j < usedsizeE xa -> elem_ok xa (f j)) as Hf.
  { intros j Hj. apply (perm_on_Forall _ _ _ _ (elem_ok xa) Hp); [|lia]. intros i Hi.
    split; [apply bytes_at_length|by apply bytes_at_ok]. }
  destruct (write_elems_spec xa f (Z.to_nat (usedsizeE xa)) He (mem s) 0 ltac:(lia)
    ltac:(intros j Hj; apply Hf; lia) Hm) as (E & O & K).
  set (m' := write_elems _ _ _ _ _) in *.
  assert (forall j, 0 <= j < usedsizeE xa -> elem_at m' xa j = f j) as E' by (intros; apply E; lia).
  destruct (decide (totsizeE xa = 0)) as [E0|E0].
  - assert (usedsizeE xa = 0) as Eu by lia.
    assert (m' = mem s) as -> by (unfold m'; by rewrite Eu).
    assert (mk_st (mem s) (heap s) = s) as -> by (by destruct s).
    apply HQ; [|by intros q k Hl Hap|done|done|done|done|intros i j Hi Hij Hj; lia|by rewrite Eu].
    split; [done|]. split; [done|]. split; [cbn; lia|]. cbn. by destruct (decide (totsizeE xa = 0)).
  - assert (usedsizeE xa * elemSzB xa <= cap xa) by (unfold cap; apply Z.mul_le_mono_nonneg_r; lia).
    assert (0 <= usedsizeE xa * elemSzB xa) by (apply Z.mul_nonneg_nonneg; lia).
    destruct (write_inside xa s m' (arr xa) (usedsizeE xa * elemSzB xa) (usedsizeE xa) true Hok K)
      as [Hok2 F2]; [|lia|lia|lia|lia|].
    { intros x Hx. apply O. replace (0 + Z.of_nat (Z.to_nat (usedsizeE xa))) with (usedsizeE xa) by lia.
      lia. }
    apply HQ; [done|done|done|done|done|done| |].
    + intros i j Hi Hij Hj. change (elem_at (mem (mk_st m' (heap s))) (set_used xa (usedsizeE xa) true))
        with (elem_at m' xa). rewrite !E' by lia. apply Hs; lia.
    + change (elem_at (mem (mk_st m' (heap s))) (set_used xa (usedsizeE xa) true)) with (elem_at m' xa).
      rewrite (slice_ext _ f) by (intros; apply E'; lia). apply Hp.
Qed.
End XA.
