(* ===== verification/RbTree.v ===== *)
(** The intrusive red-black tree of [memlog/rbtree.c], as the C code writes
    it: nodes in a heap, linked by parent, left and right pointers.  A null
    pointer is [None]; dereferencing a null or unallocated pointer makes the
    computation undefined.  Loops run on fuel; the theorems of [RbProofs]
    show that the fuel the operations choose is enough. *)
From stdpp Require Import base gmap list fin_maps.
From Stdlib Require Import ZArith Lia.
From S2P Require Import Prelude.
Open Scope prog_scope.
Open Scope Z_scope.

(** ** Data *)

Inductive rb_color_t := RED | BLACK.

#[export] Instance rb_color_eq_dec : EqDecision rb_color_t.
Proof. solve_decision. Defined.

Abbreviation loc := positive.
Abbreviation ptr := (option loc).

Record rb_node_t := mk_node {
  parent : ptr;
  nleft : ptr;
  nright : ptr;
  color : rb_color_t;
  key : Z;
  data : ptr
}.

(** The heap of nodes and the [root] field of the tree's [rb_root_t]. *)
Record rb_state := mk_rb {
  nodes : gmap loc rb_node_t;
  root : ptr
}.

Definition RB_ROOT : rb_state := mk_rb ∅ None.

Definition set_parent (p : ptr) (n : rb_node_t) : rb_node_t :=
  mk_node p (nleft n) (nright n) (color n) (key n) (data n).
Definition set_left (p : ptr) (n : rb_node_t) : rb_node_t :=
  mk_node (parent n) p (nright n) (color n) (key n) (data n).
Definition set_right (p : ptr) (n : rb_node_t) : rb_node_t :=
  mk_node (parent n) (nleft n) p (color n) (key n) (data n).
Definition set_color (c : rb_color_t) (n : rb_node_t) : rb_node_t :=
  mk_node (parent n) (nleft n) (nright n) c (key n) (data n).

(** ** Memory accesses *)

(** [*p], for reading *)
Definition load (p : ptr) : M rb_state rb_node_t := fun s =>
  match p with
  | Some l => match nodes s !! l with Some n => Some (n, s) | None => None end
  | None => None
  end.

(** [p->field = v], with the update of the node given as a function *)
Definition store (p : ptr) (f : rb_node_t -> rb_node_t) : M rb_state unit := fun s =>
  match p with
  | Some l =>
      match nodes s !! l with
      | Some n => Some (tt, mk_rb (<[l := f n]> (nodes s)) (root s))
      | None => None
      end
  | None => None
  end.

Definition get_root : M rb_state ptr := gets root.
Definition set_root (p : ptr) : M rb_state unit :=
  modify (fun s => mk_rb (nodes s) p).

Definition ptr_eqb (p q : ptr) : bool := bool_decide (p = q).
Definition color_eqb (c d : rb_color_t) : bool := bool_decide (c = d).

(** [if (p) f(p)] *)
Definition when_ptr (p : ptr) (m : M rb_state unit) : M rb_state unit :=
  match p with Some _ => m | None => ret tt end.

(** [p && p->color == RED] *)
Definition is_red (p : ptr) : M rb_state bool :=
  match p with
  | Some _ => n <- load p ;; ret (color_eqb (color n) RED)
  | None => ret false
  end.

(** [!p || p->color == BLACK] *)
Definition null_or_black (p : ptr) : M rb_state bool :=
  match p with
  | Some _ => n <- load p ;; ret (color_eqb (color n) BLACK)
  | None => ret true
  end.

(** ** Helpers *)

Definition rb_grandparent (n : ptr) : M rb_state ptr :=
  nd <- load n ;;
  match parent nd with
  | Some _ => pd <- load (parent nd) ;; ret (parent pd)
  | None => ret None
  end.

Definition rb_uncle (n : ptr) : M rb_state ptr :=
  g <- rb_grandparent n ;;
  match g with
  | None => ret None
  | Some _ =>
      nd <- load n ;;
      gd <- load g ;;
      ret (if ptr_eqb (parent nd) (nleft gd) then nright gd else nleft gd)
  end.

Definition rb_rotate_left (n : ptr) : M rb_state unit :=
  nd <- load n ;;
  let r := nright nd in
  let p := parent nd in
  rd <- load r ;;
  store n (set_right (nleft rd)) ;;;
  rd' <- load r ;;
  when_ptr (nleft rd') (store (nleft rd') (set_parent n)) ;;;
  store r (set_left n) ;;;
  store n (set_parent r) ;;;
  store r (set_parent p) ;;;
  match p with
  | None => set_root r
  | Some _ =>
      pd <- load p ;;
      if ptr_eqb (nleft pd) n then store p (set_left r) else store p (set_right r)
  end.

Definition rb_rotate_right (n : ptr) : M rb_state unit :=
  nd <- load n ;;
  let l := nleft nd in
  let p := parent nd in
  ld <- load l ;;
  store n (set_left (nright ld)) ;;;
  ld' <- load l ;;
  when_ptr (nright ld') (store (nright ld') (set_parent n)) ;;;
  store l (set_right n) ;;;
  store n (set_parent l) ;;;
  store l (set_parent p) ;;;
  match p with
  | None => set_root l
  | Some _ =>
      pd <- load p ;;
      if ptr_eqb (nleft pd) n then store p (set_left l) else store p (set_right l)
  end.

(** ** Insertion *)

(** A [rb_node_t **]: the address of the root pointer or of a child field. *)
Inductive link_t := LRoot | LLeft (l : loc) | LRight (l : loc).

(** [*link] *)
Definition load_link (k : link_t) : M rb_state ptr :=
  match k with
  | LRoot => get_root
  | LLeft l => n <- load (Some l) ;; ret (nleft n)
  | LRight l => n <- load (Some l) ;; ret (nright n)
  end.

(** [*link = p] *)
Definition store_link (k : link_t) (p : ptr) : M rb_state unit :=
  match k with
  | LRoot => set_root p
  | LLeft l => store (Some l) (set_left p)
  | LRight l => store (Some l) (set_right p)
  end.

Definition rb_link_node (node par : ptr) (linkp : link_t) : M rb_state unit :=
  store node (set_parent par) ;;;
  store node (fun n => set_left None (set_right None n)) ;;;
  store_link linkp node.

(** One pass of the loop body of [rb_insert_color]; returns the next [n]. *)
Definition rb_insert_color_body (n : ptr) : M rb_state ptr :=
  u <- rb_uncle n ;;
  g <- rb_grandparent n ;;
  ur <- is_red u ;;
  if ur : bool then
    nd <- load n ;;
    store (parent nd) (set_color BLACK) ;;;
    store u (set_color BLACK) ;;;
    store g (set_color RED) ;;;
    ret g
  else
    nd <- load n ;;
    gd <- load g ;;
    if ptr_eqb (parent nd) (nleft gd) then
      pd <- load (parent nd) ;;
      n' <- (if ptr_eqb n (nright pd)
             then rb_rotate_left (parent nd) ;;; ret (parent nd)
             else ret n) ;;
      nd' <- load n' ;;
      store (parent nd') (set_color BLACK) ;;;
      store g (set_color RED) ;;;
      rb_rotate_right g ;;;
      ret n'
    else
      pd <- load (parent nd) ;;
      n' <- (if ptr_eqb n (nleft pd)
             then rb_rotate_right (parent nd) ;;; ret (parent nd)
             else ret n) ;;
      nd' <- load n' ;;
      store (parent nd') (set_color BLACK) ;;;
      store g (set_color RED) ;;;
      rb_rotate_left g ;;;
      ret n'.

Fixpoint rb_insert_color_loop (fuel : nat) (n : ptr) : M rb_state unit :=
  match fuel with
  | O => fail
  | S fuel =>
      r <- get_root ;;
      if ptr_eqb n r then ret tt else
      nd <- load n ;;
      pd <- load (parent nd) ;;
      if color_eqb (color pd) RED
      then n' <- rb_insert_color_body n ;; rb_insert_color_loop fuel n'
      else ret tt
  end.

(** Every loop of this file visits each node at most once on its way up or
    down the tree, plus a constant number of passes. *)
Definition rb_fuel (s : rb_state) : nat := S (S (size (nodes s))).

Definition rb_insert_color (n : ptr) : M rb_state unit :=
  fuel <- gets rb_fuel ;;
  rb_insert_color_loop fuel n ;;;
  r <- get_root ;;
  store r (set_color BLACK).

(** ** Lookup *)

Fixpoint rb_search_leq_loop (fuel : nat) (k : Z) (node best : ptr) : M rb_state ptr :=
  match fuel with
  | O => fail
  | S fuel =>
      match node with
      | None => ret best
      | Some _ =>
          nd <- load node ;;
          if key nd <=? k
          then rb_search_leq_loop fuel k (nright nd) node
          else rb_search_leq_loop fuel k (nleft nd) best
      end
  end.

Definition rb_search_leq (k : Z) : M rb_state ptr :=
  fuel <- gets rb_fuel ;;
  r <- get_root ;;
  rb_search_leq_loop fuel k r None.

Fixpoint rb_search_loop (fuel : nat) (k : Z) (node : ptr) : M rb_state ptr :=
  match fuel with
  | O => fail
  | S fuel =>
      match node with
      | None => ret None
      | Some _ =>
          nd <- load node ;;
          if key nd =? k then ret node
          else if k <? key nd then rb_search_loop fuel k (nleft nd)
          else rb_search_loop fuel k (nright nd)
      end
  end.

Definition rb_search (k : Z) : M rb_state ptr :=
  fuel <- gets rb_fuel ;;
  r <- get_root ;;
  rb_search_loop fuel k r.

Fixpoint rb_min_loop (fuel : nat) (node : ptr) : M rb_state ptr :=
  match fuel with
  | O => fail
  | S fuel =>
      nd <- load node ;;
      match nleft nd with
      | Some _ => rb_min_loop fuel (nleft nd)
      | None => ret node
      end
  end.

Definition rb_min (node : ptr) : M rb_state ptr :=
  match node with
  | None => ret None
  | Some _ => fuel <- gets rb_fuel ;; rb_min_loop fuel node
  end.

(** ** Deletion *)

Definition rb_transplant (u v : ptr) : M rb_state unit :=
  ud <- load u ;;
  (match parent ud with
   | None => set_root v
   | Some _ =>
       pd <- load (parent ud) ;;
       if ptr_eqb u (nleft pd)
       then store (parent ud) (set_left v)
       else store (parent ud) (set_right v)
   end) ;;;
  when_ptr v (ud' <- load u ;; store v (set_parent (parent ud'))).

(** The body of [rb_delete_fixup]'s loop when [x] is the left child, from the
    test of the colours of the children of the sibling [w] on.  Returns the
    next [x] and [parent]. *)
Definition rb_delete_fixup_left_tail (par w : ptr) : M rb_state (ptr * ptr) :=
  wd <- load w ;;
  bl <- null_or_black (nleft wd) ;;
  br <- (if bl : bool then null_or_black (nright wd) else ret false) ;;
  if br : bool then
    store w (set_color RED) ;;;
    pd <- load par ;;
    ret (par, parent pd)
  else
    wd <- load w ;;
    br <- null_or_black (nright wd) ;;
    w <- (if br : bool then
            when_ptr (nleft wd) (store (nleft wd) (set_color BLACK)) ;;;
            store w (set_color RED) ;;;
            rb_rotate_right w ;;;
            pd <- load par ;;
            ret (nright pd)
          else ret w) ;;
    pd <- load par ;;
    store w (set_color (color pd)) ;;;
    store par (set_color BLACK) ;;;
    wd <- load w ;;
    when_ptr (nright wd) (store (nright wd) (set_color BLACK)) ;;;
    rb_rotate_left par ;;;
    r <- get_root ;;
    ret (r, None).

(** The whole body for a left child; [None] is the [break] on a missing
    sibling. *)
Definition rb_delete_fixup_left (par : ptr) : M rb_state (option (ptr * ptr)) :=
  pd <- load par ;;
  let w := nright pd in
  match w with
  | None => ret None
  | Some _ =>
      wd <- load w ;;
      w <- (if color_eqb (color wd) RED then
              store w (set_color BLACK) ;;;
              store par (set_color RED) ;;;
              rb_rotate_left par ;;;
              pd <- load par ;;
              ret (nright pd)
            else ret w) ;;
      r <- rb_delete_fixup_left_tail par w ;;
      ret (Some r)
  end.

(** The mirror image, when [x] is the right child. *)
Definition rb_delete_fixup_right_tail (par w : ptr) : M rb_state (ptr * ptr) :=
  wd <- load w ;;
  br <- null_or_black (nright wd) ;;
  bl <- (if br : bool then null_or_black (nleft wd) else ret false) ;;
  if bl : bool then
    store w (set_color RED) ;;;
    pd <- load par ;;
    ret (par, parent pd)
  else
    wd <- load w ;;
    bl <- null_or_black (nleft wd) ;;
    w <- (if bl : bool then
            when_ptr (nright wd) (store (nright wd) (set_color BLACK)) ;;;
            store w (set_color RED) ;;;
            rb_rotate_left w ;;;
            pd <- load par ;;
            ret (nleft pd)
          else ret w) ;;
    pd <- load par ;;
    store w (set_color (color pd)) ;;;
    store par (set_color BLACK) ;;;
    wd <- load w ;;
    when_ptr (nleft wd) (store (nleft wd) (set_color BLACK)) ;;;
    rb_rotate_right par ;;;
    r <- get_root ;;
    ret (r, None).

Definition rb_delete_fixup_right (par : ptr) : M rb_state (option (ptr * ptr)) :=
  pd <- load par ;;
  let w := nleft pd in
  match w with
  | None => ret None
  | Some _ =>
      wd <- load w ;;
      w <- (if color_eqb (color wd) RED then
              store w (set_color BLACK) ;;;
              store par (set_color RED) ;;;
              rb_rotate_right par ;;;
              pd <- load par ;;
              ret (nleft pd)
            else ret w) ;;
      r <- rb_delete_fixup_right_tail par w ;;
      ret (Some r)
  end.

(** The loop, returning the value of [x] when it is left. *)
Fixpoint rb_delete_fixup_loop (fuel : nat) (x par : ptr) : M rb_state ptr :=
  match fuel with
  | O => fail
  | S fuel =>
      r <- get_root ;;
      if ptr_eqb x r then ret x else
      b <- null_or_black x ;;
      if negb b then ret x else
      match par with
      | None => ret x
      | Some _ =>
          pd <- load par ;;
          res <- (if ptr_eqb x (nleft pd)
                  then rb_delete_fixup_left par
                  else rb_delete_fixup_right par) ;;
          match res with
          | None => ret x
          | Some (x', par') => rb_delete_fixup_loop fuel x' par'
          end
      end
  end.

Definition rb_delete_fixup (x par : ptr) : M rb_state unit :=
  fuel <- gets rb_fuel ;;
  x <- rb_delete_fixup_loop fuel x par ;;
  when_ptr x (store x (set_color BLACK)).

(** [y], whose right subtree is settled, takes the place of [z]. *)
Definition rb_take_place (z y : ptr) : M rb_state unit :=
  rb_transplant z y ;;;
  zd <- load z ;;
  store y (set_left (nleft zd)) ;;;
  yd <- load y ;;
  store (nleft yd) (set_parent y) ;;;
  zd <- load z ;;
  store y (set_color (color zd)).

(** The case of [rb_delete] where both children of [z] are present: [y], the
    successor of [z], takes its place.  Returns [x], its parent, and the
    original colour of [y]. *)
Definition rb_delete_two (z : ptr) : M rb_state (ptr * ptr * rb_color_t) :=
  zd <- load z ;;
  y <- rb_min (nright zd) ;;
  yd <- load y ;;
  let y_original_color := color yd in
  let x := nright yd in
  x_parent <- (if ptr_eqb (parent yd) z then ret y
               else
                 rb_transplant y (nright yd) ;;;
                 zd <- load z ;;
                 store y (set_right (nright zd)) ;;;
                 yd' <- load y ;;
                 store (nright yd') (set_parent y) ;;;
                 ret (parent yd)) ;;
  rb_take_place z y ;;;
  ret (x, x_parent, y_original_color).

Definition rb_delete (k : Z) : M rb_state ptr :=
  z <- rb_search k ;;
  match z with
  | None => ret None
  | Some _ =>
      zd <- load z ;;
      r <- (match nleft zd, nright zd with
            | None, _ =>
                rb_transplant z (nright zd) ;;;
                ret (nright zd, parent zd, color zd)
            | Some _, None =>
                rb_transplant z (nleft zd) ;;;
                ret (nleft zd, parent zd, color zd)
            | Some _, Some _ => rb_delete_two z
            end) ;;
      let '(x, x_parent, y_original_color) := r in
      (if color_eqb y_original_color BLACK
       then rb_delete_fixup x x_parent
       else ret tt) ;;;
      ret z
  end.
