(* ===== verification/RbInv.v ===== *)
(** The shape of the red-black tree's heap: functional trees, the predicate
    that a heap represents one, contexts around a subtree, and one lemma per
    pointer operation, stated as a transformation of the represented tree;
    then the red-black invariant on trees and contexts.  Everything above this
    file reasons about trees, never about the heap. *)
From stdpp Require Import base gmap list fin_maps.
From Stdlib Require Import ZArith Lia.
From S2P Require Import Prelude RbTree.
Open Scope prog_scope.
Open Scope Z_scope.

(** ** Trees *)

Inductive tree :=
| Leaf
| Node (l : loc) (c : rb_color_t) (k : Z) (d : ptr) (a b : tree).

Definition tptr (t : tree) : ptr :=
  match t with Leaf => None | Node l _ _ _ _ _ => Some l end.

Fixpoint locs (t : tree) : list loc :=
  match t with Leaf => [] | Node l _ _ _ a b => l :: locs a ++ locs b end.

(** The heap holds the nodes of [t], the root of [t] having parent [par]. *)
Fixpoint rep (h : gmap loc rb_node_t) (par : ptr) (t : tree) : Prop :=
  match t with
  | Leaf => True
  | Node l c k d a b =>
      h !! l = Some (mk_node par (tptr a) (tptr b) c k d) /\
      rep h (Some l) a /\ rep h (Some l) b
  end.

(** ** Contexts: a path from a hole up to the root, innermost frame first *)

Inductive side := L | R.

Record frame := Fr {
  fside : side; floc : loc; fcol : rb_color_t; fkey : Z; fdata : ptr; fsib : tree
}.

Definition fill (f : frame) (t : tree) : tree :=
  match fside f with
  | L => Node (floc f) (fcol f) (fkey f) (fdata f) t (fsib f)
  | R => Node (floc f) (fcol f) (fkey f) (fdata f) (fsib f) t
  end.

Fixpoint plug (ctx : list frame) (t : tree) : tree :=
  match ctx with [] => t | f :: ctx => plug ctx (fill f t) end.

Definition ctx_ptr (ctx : list frame) : ptr :=
  match ctx with [] => None | f :: _ => Some (floc f) end.

Fixpoint clocs (ctx : list frame) : list loc :=
  match ctx with [] => [] | f :: ctx => floc f :: locs (fsib f) ++ clocs ctx end.

Definition fnode (f : frame) (par hole : ptr) : rb_node_t :=
  match fside f with
  | L => mk_node par hole (tptr (fsib f)) (fcol f) (fkey f) (fdata f)
  | R => mk_node par (tptr (fsib f)) hole (fcol f) (fkey f) (fdata f)
  end.

(** The heap and root pointer hold the context, [hole] being in its hole. *)
Fixpoint crep (h : gmap loc rb_node_t) (r : ptr) (ctx : list frame) (hole : ptr) : Prop :=
  match ctx with
  | [] => r = hole
  | f :: ctx =>
      h !! floc f = Some (fnode f (ctx_ptr ctx) hole) /\
      rep h (Some (floc f)) (fsib f) /\
      crep h r ctx (Some (floc f))
  end.

Lemma tptr_fill f t : tptr (fill f t) = Some (floc f).
Proof. destruct f as [[]]; done. Qed.

Lemma rep_fill h par f t :
  rep h par (fill f t) <->
  h !! floc f = Some (fnode f par (tptr t)) /\
  rep h (Some (floc f)) (fsib f) /\ rep h (Some (floc f)) t.
Proof. destruct f as [[] l c k d s]; cbn; tauto. Qed.

Lemma locs_fill f t : locs (fill f t) ≡ₚ floc f :: locs (fsib f) ++ locs t.
Proof.
  destruct f as [[] l c k d s]; cbn; [|done].
  by rewrite (Permutation_app_comm (locs t)).
Qed.

Lemma locs_plug ctx t : locs (plug ctx t) ≡ₚ locs t ++ clocs ctx.
Proof.
  revert t. induction ctx as [|f ctx IH]; intros t; cbn.
  - by rewrite app_nil_r.
  - rewrite IH, locs_fill. cbn. rewrite (Permutation_app_comm (locs t)).
    cbn. rewrite <- !app_assoc. by rewrite (Permutation_app_comm (locs t)).
Qed.

(** ** A state represents a tree *)

Definition Rep (s : rb_state) (t : tree) : Prop :=
  root s = tptr t /\ rep (nodes s) None t /\ NoDup (locs t).

Lemma rep_crep h r ctx t :
  (r = tptr (plug ctx t) /\ rep h None (plug ctx t)) <->
  (crep h r ctx (tptr t) /\ rep h (ctx_ptr ctx) t).
Proof.
  revert t. induction ctx as [|f ctx IH]; intros t; cbn; [done|].
  rewrite IH, rep_fill, tptr_fill. tauto.
Qed.

Lemma Rep_plug s ctx t :
  Rep s (plug ctx t) <->
  crep (nodes s) (root s) ctx (tptr t) /\ rep (nodes s) (ctx_ptr ctx) t /\
  NoDup (locs t ++ clocs ctx).
Proof.
  unfold Rep. rewrite locs_plug.
  pose proof (rep_crep (nodes s) (root s) ctx t). tauto.
Qed.

(** ** Framing: an update outside a tree or context leaves it represented *)

Lemma rep_insert h par t l n :
  l ∉ locs t -> rep h par t -> rep (<[l := n]> h) par t.
Proof.
  revert par. induction t as [|l' c k d a IHa b IHb]; intros par Hl; cbn in *; [done|].
  intros (Hn & Ha & Hb). rewrite not_elem_of_cons, not_elem_of_app in Hl.
  destruct Hl as (? & ? & ?). rewrite lookup_insert_ne by done. auto.
Qed.

Lemma crep_insert h r ctx hole l n :
  l ∉ clocs ctx -> crep h r ctx hole -> crep (<[l := n]> h) r ctx hole.
Proof.
  revert hole. induction ctx as [|f ctx IH]; intros hole Hl; cbn in *; [done|].
  intros (Hn & Ha & Hb). rewrite not_elem_of_cons, not_elem_of_app in Hl.
  destruct Hl as (? & ? & ?). rewrite lookup_insert_ne by done.
  auto using rep_insert.
Qed.

(** Redirecting the parent of a subtree *)
Lemma rep_reparent h par par' t l n :
  NoDup (locs t) -> tptr t = Some l -> h !! l = Some n -> rep h par t ->
  rep (<[l := set_parent par' n]> h) par' t.
Proof.
  destruct t as [|l' c k d a b]; cbn; [done|].
  rewrite NoDup_cons, not_elem_of_app. intros ((Hla & Hlb) & _) [= ->] Hn (Hn' & Ha & Hb).
  rewrite lookup_insert_eq. simplify_eq. cbn.
  auto using rep_insert.
Qed.

(** ** Reading and writing nodes *)

Lemma wp_load s l n Q :
  nodes s !! l = Some n -> Q n s -> wp (load (Some l)) s Q.
Proof. intros H HQ. unfold wp, load. by rewrite H. Qed.

Lemma wp_store s l n f Q :
  nodes s !! l = Some n ->
  Q tt (mk_rb (<[l := f n]> (nodes s)) (root s)) -> wp (store (Some l) f) s Q.
Proof. intros H HQ. unfold wp, store. by rewrite H. Qed.

Lemma Rep_lookup s ctx l c k d a b :
  Rep s (plug ctx (Node l c k d a b)) ->
  nodes s !! l = Some (mk_node (ctx_ptr ctx) (tptr a) (tptr b) c k d).
Proof. rewrite Rep_plug. cbn. tauto. Qed.

Lemma wp_load_plug s ctx l c k d a b (Q : rb_node_t -> rb_state -> Prop) :
  Rep s (plug ctx (Node l c k d a b)) ->
  Q (mk_node (ctx_ptr ctx) (tptr a) (tptr b) c k d) s -> wp (load (Some l)) s Q.
Proof. intros HR. apply wp_load. by apply Rep_lookup in HR. Qed.

(** Disequalities and non-memberships from [NoDup] hypotheses *)
Ltac nodup_solve :=
  destruct_and?;
  repeat match goal with
  | H : context [NoDup (_ :: _)] |- _ => rewrite NoDup_cons in H
  | H : context [NoDup (_ ++ _)] |- _ => rewrite NoDup_app in H
  | H : context [_ ∉ _ :: _] |- _ => rewrite not_elem_of_cons in H
  | H : context [_ ∉ _ ++ _] |- _ => rewrite not_elem_of_app in H
  end; destruct_and?; set_solver.

(** [NoDup] of a rearrangement of the list in [H] *)
Ltac nodup_perm H :=
  refine (proj1 (NoDup_Permutation_proper _ _ _) H); cbn;
  solve_Permutation.

(** [NoDup] of a part of the list in [H] *)
Ltac nodup_sub H := refine (NoDup_sub _ _ H _); cbn; solve_submseteq.

(** ** Recolouring *)

Lemma wp_set_color s ctx l c k d a b c' (Q : unit -> rb_state -> Prop) :
  Rep s (plug ctx (Node l c k d a b)) ->
  (forall s', Rep s' (plug ctx (Node l c' k d a b)) -> Q tt s') ->
  wp (store (Some l) (set_color c')) s Q.
Proof.
  intros HR HQ. eapply wp_store; [by eapply Rep_lookup|]. apply HQ. clear HQ Q.
  rewrite Rep_plug in *. cbn in *. destruct HR as (Hc & (Hl & Ha & Hb) & Hnd).
  rewrite lookup_insert_eq. split_and!; auto.
  - apply crep_insert; [nodup_solve | done].
  - apply rep_insert; [nodup_solve | done].
  - apply rep_insert; [nodup_solve | done].
Qed.

(** ** Redirecting the child pointer of the innermost frame *)

Lemma rep_ext h h' par t :
  (forall l, l ∈ locs t -> h' !! l = h !! l) -> rep h par t -> rep h' par t.
Proof.
  revert par. induction t as [|l c k d a IHa b IHb]; intros par E; cbn in *; [done|].
  intros (Hl & Ha & Hb). split_and!.
  - rewrite E by set_solver. done.
  - apply IHa; [set_solver | done].
  - apply IHb; [set_solver | done].
Qed.

Lemma crep_ext h h' r ctx hole :
  (forall l, l ∈ clocs ctx -> h' !! l = h !! l) -> crep h r ctx hole -> crep h' r ctx hole.
Proof.
  revert hole. induction ctx as [|f ctx IH]; intros hole E; cbn in *; [done|].
  intros (Hl & Ha & Hb). split_and!.
  - rewrite E by set_solver. done.
  - eapply rep_ext; [|done]. set_solver.
  - apply IH; [set_solver | done].
Qed.

(** What rotations and transplants do with the parent of the node they move
    down: its child pointer [old] becomes [new]. *)
Definition replace_child (p old new : ptr) : M rb_state unit :=
  match p with
  | None => set_root new
  | Some _ =>
      pd <- load p ;;
      if ptr_eqb (nleft pd) old then store p (set_left new) else store p (set_right new)
  end.

Lemma ptr_eqb_true p : ptr_eqb p p = true.
Proof. unfold ptr_eqb. by rewrite bool_decide_true. Qed.

Lemma ptr_eqb_false p q : p <> q -> ptr_eqb p q = false.
Proof. unfold ptr_eqb. intros. by rewrite bool_decide_false. Qed.

Lemma tptr_in t l : tptr t = Some l -> l ∈ locs t.
Proof. destruct t; cbn; [done|]. intros [= ->]. set_solver. Qed.

Lemma wp_replace_child s ctx n new (Q : unit -> rb_state -> Prop) :
  crep (nodes s) (root s) ctx (Some n) -> n ∉ clocs ctx -> NoDup (clocs ctx) ->
  (forall s', crep (nodes s') (root s') ctx new ->
              (forall l, l ∉ clocs ctx -> nodes s' !! l = nodes s !! l) -> Q tt s') ->
  wp (replace_child (ctx_ptr ctx) (Some n) new) s Q.
Proof.
  intros Hc Hn Hnd HQ. unfold replace_child.
  destruct ctx as [|f ctx]; cbn in *; [by apply (HQ (mk_rb (nodes s) new))|].
  destruct Hc as (Hf & Hs & Hc).
  apply wp_bind. eapply wp_load; [done|].
  destruct f as [[] l c k d sb]; cbn in *.
  - rewrite ptr_eqb_true. eapply wp_store; [done|]. apply HQ; cbn.
    + rewrite lookup_insert_eq. split_and!; [done | |].
      * apply rep_insert; [nodup_solve | done].
      * apply crep_insert; [nodup_solve | done].
    + intros l' Hl'. rewrite lookup_insert_ne; [done | set_solver].
  - rewrite ptr_eqb_false by (intros E%tptr_in; set_solver).
    eapply wp_store; [done|]. apply HQ; cbn.
    + rewrite lookup_insert_eq. split_and!; [done | |].
      * apply rep_insert; [nodup_solve | done].
      * apply crep_insert; [nodup_solve | done].
    + intros l' Hl'. rewrite lookup_insert_ne; [done | set_solver].
Qed.

(** Setting the parent of a subtree, null subtrees included *)
Lemma wp_set_parent_ptr s par par' t (Q : unit -> rb_state -> Prop) :
  rep (nodes s) par t -> NoDup (locs t) ->
  (forall s', root s' = root s -> rep (nodes s') par' t ->
              (forall l, l ∉ locs t -> nodes s' !! l = nodes s !! l) -> Q tt s') ->
  wp (when_ptr (tptr t) (store (tptr t) (set_parent par'))) s Q.
Proof.
  intros Ht Hnd HQ. destruct t as [|l c k d a b]; cbn [tptr when_ptr].
  - by apply wp_ret, HQ.
  - pose proof Ht as (Hl & _). eapply wp_store; [done|]. apply HQ; [done | |].
    + by eapply rep_reparent with (l := l).
    + intros l' Hl'. cbn. rewrite lookup_insert_ne; [done | set_solver].
Qed.

(** Symbolic execution of one access, the node being known *)
Ltac heap_lookup :=
  cbn; rewrite ?lookup_insert_eq;
  repeat (rewrite lookup_insert_ne by congruence; rewrite ?lookup_insert_eq);
  reflexivity || eassumption.
Ltac wload := try apply wp_bind; eapply wp_load; [heap_lookup|]; cbn.
Ltac wstore := try apply wp_bind; eapply wp_store; [heap_lookup|]; cbn.

(** ** Rotations *)

Lemma wp_rotate_left s ctx n cn kn dn a r cr kr dr b1 b2 (Q : unit -> rb_state -> Prop) :
  Rep s (plug ctx (Node n cn kn dn a (Node r cr kr dr b1 b2))) ->
  (forall s', Rep s' (plug ctx (Node r cr kr dr (Node n cn kn dn a b1) b2)) -> Q tt s') ->
  wp (rb_rotate_left (Some n)) s Q.
Proof.
  intros HR HQ. rewrite Rep_plug in HR. cbn in HR.
  destruct HR as (Hc & (Hn & Ha & Hr & Hb1 & Hb2) & Hnd).
  assert (Hnr : n <> r) by nodup_solve.
  unfold rb_rotate_left.
  wload. wload. wstore. wload.
  apply wp_bind.
  eapply (wp_set_parent_ptr _ (Some r)); [apply rep_insert; [nodup_solve | done] | nodup_solve |].
  cbn. intros s1 Hroot1 Hb1' E1.
  assert (nodes s1 !! n = Some (mk_node (ctx_ptr ctx) (tptr a) (tptr b1) cn kn dn)) as Hn1.
  { rewrite E1 by nodup_solve. by rewrite lookup_insert_eq. }
  assert (nodes s1 !! r = Some (mk_node (Some n) (tptr b1) (tptr b2) cr kr dr)) as Hr1.
  { rewrite E1 by nodup_solve. by rewrite lookup_insert_ne. }
  wstore. wstore. wstore.
  set (h := <[r := _]> _).
  assert (forall l, l ∉ n :: r :: locs b1 -> h !! l = nodes s !! l) as E.
  { intros l Hl. unfold h. rewrite !lookup_insert_ne, E1, lookup_insert_ne by set_solver. done. }
  change (wp (replace_child (ctx_ptr ctx) (Some n) (Some r)) (mk_rb h (root s1)) Q).
  eapply wp_replace_child; cbn.
  - rewrite Hroot1. eapply crep_ext; [|done]. intros l Hl. apply E. nodup_solve.
  - nodup_solve.
  - nodup_sub Hnd.
  - intros s2 Hc2 E2. apply HQ. rewrite Rep_plug. cbn. split_and!; [done | | | | | |].
    + rewrite E2 by nodup_solve. unfold h. by rewrite lookup_insert_eq.
    + rewrite E2 by nodup_solve. unfold h. by rewrite lookup_insert_ne, lookup_insert_eq.
    + eapply rep_ext; [|exact Ha]. intros l Hl. rewrite E2 by nodup_solve. apply E. nodup_solve.
    + eapply rep_ext; [|exact Hb1']. intros l Hl. rewrite E2 by nodup_solve. unfold h.
      by rewrite !lookup_insert_ne by nodup_solve.
    + eapply rep_ext; [|exact Hb2]. intros l Hl. rewrite E2 by nodup_solve. apply E. nodup_solve.
    + nodup_perm Hnd.
Qed.

Lemma wp_rotate_right s ctx n cn kn dn a r cr kr dr b1 b2 (Q : unit -> rb_state -> Prop) :
  Rep s (plug ctx (Node n cn kn dn (Node r cr kr dr b1 b2) a)) ->
  (forall s', Rep s' (plug ctx (Node r cr kr dr b1 (Node n cn kn dn b2 a))) -> Q tt s') ->
  wp (rb_rotate_right (Some n)) s Q.
Proof.
  intros HR HQ. rewrite Rep_plug in HR. cbn in HR.
  destruct HR as (Hc & (Hn & (Hr & Hb1 & Hb2) & Ha) & Hnd).
  assert (Hnr : n <> r) by nodup_solve.
  unfold rb_rotate_right.
  wload. wload. wstore. wload.
  apply wp_bind.
  eapply (wp_set_parent_ptr _ (Some r)); [apply rep_insert; [nodup_solve | done] | nodup_solve |].
  cbn. intros s1 Hroot1 Hb2' E1.
  assert (nodes s1 !! n = Some (mk_node (ctx_ptr ctx) (tptr b2) (tptr a) cn kn dn)) as Hn1.
  { rewrite E1 by nodup_solve. by rewrite lookup_insert_eq. }
  assert (nodes s1 !! r = Some (mk_node (Some n) (tptr b1) (tptr b2) cr kr dr)) as Hr1.
  { rewrite E1 by nodup_solve. by rewrite lookup_insert_ne. }
  wstore. wstore. wstore.
  set (h := <[r := _]> _).
  assert (forall l, l ∉ n :: r :: locs b2 -> h !! l = nodes s !! l) as E.
  { intros l Hl. unfold h. rewrite !lookup_insert_ne, E1, lookup_insert_ne by set_solver. done. }
  change (wp (replace_child (ctx_ptr ctx) (Some n) (Some r)) (mk_rb h (root s1)) Q).
  eapply wp_replace_child; cbn.
  - rewrite Hroot1. eapply crep_ext; [|done]. intros l Hl. apply E. nodup_solve.
  - nodup_solve.
  - nodup_sub Hnd.
  - intros s2 Hc2 E2. apply HQ. rewrite Rep_plug. cbn. split_and!; [done | | | | | |].
    + rewrite E2 by nodup_solve. unfold h. by rewrite lookup_insert_eq.
    + eapply rep_ext; [|exact Hb1]. intros l Hl. rewrite E2 by nodup_solve. apply E. nodup_solve.
    + rewrite E2 by nodup_solve. unfold h. by rewrite lookup_insert_ne, lookup_insert_eq.
    + eapply rep_ext; [|exact Hb2']. intros l Hl. rewrite E2 by nodup_solve. unfold h.
      by rewrite !lookup_insert_ne by nodup_solve.
    + eapply rep_ext; [|exact Ha]. intros l Hl. rewrite E2 by nodup_solve. apply E. nodup_solve.
    + nodup_perm Hnd.
Qed.

(** ** Linking a new leaf *)

Definition link_of (ctx : list frame) : link_t :=
  match ctx with
  | [] => LRoot
  | f :: _ => match fside f with L => LLeft (floc f) | R => LRight (floc f) end
  end.

Lemma wp_link_node s ctx n nd (Q : unit -> rb_state -> Prop) :
  Rep s (plug ctx Leaf) -> n ∉ locs (plug ctx Leaf) -> nodes s !! n = Some nd ->
  (forall s', Rep s' (plug ctx (Node n (color nd) (key nd) (data nd) Leaf Leaf)) -> Q tt s') ->
  wp (rb_link_node (Some n) (ctx_ptr ctx) (link_of ctx)) s Q.
Proof.
  rewrite Rep_plug, locs_plug. cbn. intros (Hc & _ & Hnd) Hn Hl HQ.
  unfold rb_link_node. wstore. wstore.
  rewrite insert_insert_eq. set (h := <[n := _]> _).
  assert (Hc' : crep h (root s) ctx None) by (by apply crep_insert).
  assert (Hr : forall s', nodes s' !! n = h !! n -> crep (nodes s') (root s') ctx (Some n) -> Q tt s').
  { intros s' E Hc2. apply HQ. rewrite Rep_plug. cbn. split_and!; [done | | done | done |].
    - rewrite E. unfold h. by rewrite lookup_insert_eq.
    - by rewrite NoDup_cons. }
  destruct ctx as [|[[] l c k d sb] ctx]; cbn in *; [by apply (Hr (mk_rb h (Some n)))| |];
    destruct Hc' as (Hf & Hs & Hc'); wstore; apply Hr; cbn;
    (rewrite lookup_insert_ne by set_solver; done) ||
    (rewrite lookup_insert_eq; split_and!;
      [done | apply rep_insert; [nodup_solve | done] | apply crep_insert; [nodup_solve | done]]).
Qed.

(** ** Transplants *)

Lemma ptr_eqb_sym p q : ptr_eqb p q = ptr_eqb q p.
Proof. unfold ptr_eqb. apply bool_decide_ext. split; congruence. Qed.

Lemma wp_replace_child_sym s p old new Q :
  wp (replace_child p old new) s Q ->
  wp (match p with
      | Some _ =>
          pd <- load p ;;
          if ptr_eqb old (nleft pd) then store p (set_left new) else store p (set_right new)
      | None => set_root new
      end) s Q.
Proof.
  unfold replace_child. destruct p; [|done].
  unfold wp, bind. destruct (load _ s) as [[pd s1]|]; [|done]. by rewrite ptr_eqb_sym.
Qed.

Lemma wp_transplant s ctx u c k d a b v (Q : unit -> rb_state -> Prop) :
  Rep s (plug ctx (Node u c k d a b)) -> v = a \/ v = b ->
  (forall s', Rep s' (plug ctx v) -> nodes s' !! u = nodes s !! u -> Q tt s') ->
  wp (rb_transplant (Some u) (tptr v)) s Q.
Proof.
  intros HR Hv HQ. rewrite Rep_plug in HR. cbn in HR.
  destruct HR as (Hc & (Hu & Ha & Hb) & Hnd).
  assert (Hvr : rep (nodes s) (Some u) v) by (destruct Hv; by subst).
  assert (Hvn : NoDup (locs v ++ clocs ctx)) by (destruct Hv; subst; nodup_sub Hnd).
  assert (Huv : u ∉ locs v) by (destruct Hv; subst; nodup_solve).
  assert (Huc : u ∉ clocs ctx) by nodup_solve.
  apply NoDup_app in Hvn as Hvn'. destruct Hvn' as (Hvn1 & Hvc & Hcn).
  unfold rb_transplant. wload. apply wp_bind.
  apply wp_replace_child_sym. eapply wp_replace_child; [done..|]. intros s1 Hc1 E1.
  assert (rep (nodes s1) (Some u) v) as Hv1.
  { eapply rep_ext; [|done]. intros l Hl. apply E1. set_solver. }
  assert (wp (when_ptr (tptr v) (store (tptr v) (set_parent (ctx_ptr ctx)))) s1 Q) as Hsp.
  { eapply wp_set_parent_ptr; [done..|]. intros s2 Hr2 Hv2 E2. apply HQ.
    - rewrite Rep_plug, Hr2. split_and!; [|done|done].
      eapply crep_ext; [|done]. intros l Hl. apply E2. set_solver.
    - rewrite E2 by done. by apply E1. }
  destruct v; [done|]. cbn [tptr when_ptr] in *.
  eapply wp_bind, wp_load; [by rewrite E1|]. done.
Qed.

(** A node [y] outside the tree, its right subtree [b] already its own, takes
    the place of [z]. *)
Lemma wp_take_place s ctx z zp zr c k d a y yp yl cy ky dy b (Q : unit -> rb_state -> Prop) :
  crep (nodes s) (root s) ctx (Some z) ->
  nodes s !! z = Some (mk_node zp (tptr a) zr c k d) -> zp = ctx_ptr ctx ->
  rep (nodes s) (Some z) a -> a <> Leaf ->
  nodes s !! y = Some (mk_node yp yl (tptr b) cy ky dy) ->
  rep (nodes s) (Some y) b ->
  NoDup (y :: z :: locs a ++ locs b ++ clocs ctx) ->
  (forall s', Rep s' (plug ctx (Node y c ky dy a b)) ->
     nodes s' !! z = nodes s !! z -> Q tt s') ->
  wp (rb_take_place (Some z) (Some y)) s Q.
Proof.
  intros Hc Hz -> Ha Hna Hy Hb Hnd HQ.
  assert (Hyz : y <> z) by nodup_solve.
  unfold rb_take_place. apply wp_bind. unfold rb_transplant. wload. apply wp_bind.
  apply wp_replace_child_sym. eapply wp_replace_child; [done|nodup_solve|nodup_sub Hnd|]. intros s1 Hc1 E1.
  pose proof (E1 y ltac:(nodup_solve)) as Ey. pose proof (E1 z ltac:(nodup_solve)) as Ez.
  rewrite Hy in Ey. rewrite Hz in Ez.
  wload. wstore. wload. wstore. wload.
  rewrite insert_insert_eq. set (h := <[y := _]> _).
  apply wp_bind.
  assert (rep h (Some z) a) as Ha1.
  { apply rep_insert; [nodup_solve|]. eapply rep_ext; [|done].
    intros l Hl. apply E1. nodup_solve. }
  assert (forall Q', wp (when_ptr (tptr a) (store (tptr a) (set_parent (Some y))))
      (mk_rb h (root s1)) Q' ->
    wp (store (tptr a) (set_parent (Some y))) (mk_rb h (root s1)) Q') as Hw by (by destruct a).
  apply Hw, (wp_set_parent_ptr _ (Some z)); [done | nodup_sub Hnd |].
  intros s2 Hr2 Ha2 E2. cbn in E2.
  pose proof (E2 z ltac:(nodup_solve)) as Ez2. pose proof (E2 y ltac:(nodup_solve)) as Ey2.
  unfold h in Ez2, Ey2. rewrite lookup_insert_ne in Ez2 by done. rewrite lookup_insert_eq in Ey2.
  rewrite Ez in Ez2.
  wload. wstore. apply HQ; cbn.
  2: { rewrite lookup_insert_ne by done. by rewrite Ez2. }
  rewrite Rep_plug. cbn [nodes root tptr]. split_and!.
  - rewrite Hr2. apply crep_insert; [nodup_solve|]. eapply crep_ext; [|exact Hc1].
    intros l Hl. rewrite E2 by nodup_solve. unfold h. rewrite lookup_insert_ne; [done|nodup_solve].
  - cbn. rewrite lookup_insert_eq. split_and!; [done | |].
    + apply rep_insert; [nodup_solve | done].
    + apply rep_insert; [nodup_solve |]. eapply rep_ext; [|exact Hb].
      intros l Hl. rewrite E2 by nodup_solve. unfold h. rewrite lookup_insert_ne by nodup_solve.
      apply E1. nodup_solve.
  - nodup_sub Hnd.
Qed.

(** * The red-black invariant on trees and contexts, in-order contents, and the
    tactics that run pointer code on a tree known by its shape. *)

(** ** In-order contents: location, key and data of each node *)

Abbreviation entry := (loc * Z * ptr)%type.

Fixpoint inorder (t : tree) : list entry :=
  match t with Leaf => [] | Node l _ k d a b => inorder a ++ (l, k, d) :: inorder b end.

Fixpoint before (ctx : list frame) : list entry :=
  match ctx with
  | [] => []
  | f :: ctx =>
      match fside f with
      | L => before ctx
      | R => before ctx ++ inorder (fsib f) ++ [(floc f, fkey f, fdata f)]
      end
  end.

Fixpoint after (ctx : list frame) : list entry :=
  match ctx with
  | [] => []
  | f :: ctx =>
      match fside f with
      | L => (floc f, fkey f, fdata f) :: inorder (fsib f) ++ after ctx
      | R => after ctx
      end
  end.

Lemma inorder_plug ctx t : inorder (plug ctx t) = before ctx ++ inorder t ++ after ctx.
Proof.
  revert t. induction ctx as [|[[] l c k d s] ctx IH]; intros t; cbn.
  - by rewrite app_nil_r.
  - rewrite IH. cbn. by rewrite <- !app_assoc.
  - rewrite IH. cbn. by rewrite <- !app_assoc.
Qed.

Lemma locs_inorder t : locs t ≡ₚ map (fun e => e.1.1) (inorder t).
Proof.
  induction t as [|l c k d a IHa b IHb]; cbn; [done|].
  rewrite map_app, IHa, IHb. cbn. by rewrite Permutation_middle.
Qed.

(** ** Colours and black heights *)

Definition tcolor (t : tree) : rb_color_t :=
  match t with Leaf => BLACK | Node _ c _ _ _ _ => c end.

Definition paint (c : rb_color_t) (t : tree) : tree :=
  match t with Leaf => Leaf | Node l _ k d a b => Node l c k d a b end.

(** [rb t c n]: no red node of [t] has a red child, every path down from the
    root of [t] meets [n] black nodes, and the root has colour [c]. *)
Inductive rb : tree -> rb_color_t -> nat -> Prop :=
| rb_leaf : rb Leaf BLACK 0
| rb_red l k d a b n : rb a BLACK n -> rb b BLACK n -> rb (Node l RED k d a b) RED n
| rb_black l k d a b ca cb n :
    rb a ca n -> rb b cb n -> rb (Node l BLACK k d a b) BLACK (S n).

(** [rbctx ctx c n]: the context becomes a red-black tree with a black root
    when a subtree of colour [c] and black height [n] fills its hole. *)
Inductive rbctx : list frame -> rb_color_t -> nat -> Prop :=
| rbctx_nil n : rbctx [] BLACK n
| rbctx_red sd l k d s ctx n :
    rb s BLACK n -> rbctx ctx RED n -> rbctx (Fr sd l RED k d s :: ctx) BLACK n
| rbctx_black sd l k d s ctx cs c n :
    rb s cs n -> rbctx ctx BLACK (S n) -> rbctx (Fr sd l BLACK k d s :: ctx) c n.

(** A red-black tree: black root, and the invariant below it. *)
Definition rb_ok (t : tree) : Prop := exists n, rb t BLACK n.

Create HintDb rbdb.
#[export] Hint Constructors rb rbctx : rbdb.

Lemma rb_tcolor t c n : rb t c n -> tcolor t = c.
Proof. by destruct 1. Qed.

Lemma rbctx_weaken ctx c n : rbctx ctx c n -> rbctx ctx BLACK n.
Proof. destruct 1; eauto with rbdb. Qed.

Lemma rb_paint t c n : rb t c n -> exists m, rb (paint BLACK t) BLACK m.
Proof. destruct 1; cbn; eauto with rbdb. Qed.

Lemma rb_plug ctx : forall t c n, rbctx ctx c n -> rb t c n -> rb_ok (plug ctx t).
Proof.
  induction ctx as [|f ctx IH]; intros t c n Hc Ht; cbn.
  - inversion Hc; subst. by exists n.
  - inversion Hc as [|sd l k d s ctx' n' Hs Hc'|sd l k d s ctx' cs c' n' Hs Hc']; subst.
    + eapply IH; [exact Hc'|]. destruct sd; cbn; eauto with rbdb.
    + eapply IH; [exact Hc'|]. destruct sd; cbn; eauto with rbdb.
Qed.

(** The converse: a hole in a red-black tree. *)
Lemma rb_unplug ctx : forall t,
  rb_ok (plug ctx t) -> exists c n, rb t c n /\ rbctx ctx c n.
Proof.
  induction ctx as [|[sd l c k d s] ctx IH]; intros t H; cbn in H.
  - destruct H as [n H]. eauto with rbdb.
  - apply IH in H as (c' & n & H & Hc).
    destruct sd; cbn in H; inversion H; subst; eauto 6 with rbdb.
Qed.

(** ** Running code on a represented tree *)

Lemma wp_get_root s (Q : ptr -> rb_state -> Prop) : Q (root s) s -> wp get_root s Q.
Proof. done. Qed.

Lemma crep_root h r f ctx hole :
  crep h r (f :: ctx) hole -> exists l, r = Some l /\ l ∈ clocs (f :: ctx).
Proof.
  revert f hole. induction ctx as [|g ctx IH]; intros f hole (_ & _ & H).
  - cbn in *. exists (floc f). set_solver.
  - apply IH in H as (l & -> & Hl). exists l. cbn in *. set_solver.
Qed.

(** A proper subtree is not the root. *)
Lemma Rep_not_root s f ctx t : Rep s (plug (f :: ctx) t) -> tptr t <> root s.
Proof.
  rewrite Rep_plug. intros (Hc & _ & Hnd).
  apply crep_root in Hc as (l & -> & Hl). intros E%tptr_in.
  apply NoDup_app in Hnd as (_ & Hd & _). by eapply Hd.
Qed.

Lemma Rep_root s t : Rep s t -> root s = tptr t.
Proof. by intros [? _]. Qed.

Lemma wp_is_red s ctx t (Q : bool -> rb_state -> Prop) :
  Rep s (plug ctx t) -> Q (color_eqb (tcolor t) RED) s -> wp (is_red (tptr t)) s Q.
Proof.
  intros HR HQ. destruct t; [done|]. cbn [tptr is_red].
  eapply wp_bind, wp_load_plug; [done|]. by apply wp_ret.
Qed.

Lemma wp_null_or_black s ctx t (Q : bool -> rb_state -> Prop) :
  Rep s (plug ctx t) -> Q (color_eqb (tcolor t) BLACK) s ->
  wp (null_or_black (tptr t)) s Q.
Proof.
  intros HR HQ. destruct t; [done|]. cbn [tptr null_or_black].
  eapply wp_bind, wp_load_plug; [done|]. by apply wp_ret.
Qed.

Lemma wp_when_paint s ctx t (Q : unit -> rb_state -> Prop) :
  Rep s (plug ctx t) ->
  (forall s', Rep s' (plug ctx (paint BLACK t)) -> Q tt s') ->
  wp (when_ptr (tptr t) (store (tptr t) (set_color BLACK))) s Q.
Proof.
  intros HR HQ. destruct t; cbn [tptr when_ptr paint] in *; [by apply wp_ret, HQ|].
  by eapply wp_set_color.
Qed.

(** The node of the innermost frame *)
Lemma Rep_parent_frame s f ctx t :
  Rep s (plug (f :: ctx) t) -> nodes s !! floc f = Some (fnode f (ctx_ptr ctx) (tptr t)).
Proof. rewrite Rep_plug. cbn. tauto. Qed.

Lemma fnode_color f p q : color (fnode f p q) = fcol f.
Proof. by destruct f as [[]]. Qed.

(** Distinct subtrees have distinct pointers, unless both are null. *)
Lemma Rep_siblings s sd l c k d sb ctx t :
  Rep s (plug (Fr sd l c k d sb :: ctx) t) -> sb <> Leaf -> tptr t <> tptr sb.
Proof.
  intros HR Hsb. destruct sb as [|l' c' k' d' a b]; [done|]. clear Hsb.
  rewrite Rep_plug in HR. destruct HR as (_ & _ & Hnd). intros E%tptr_in.
  apply NoDup_app in Hnd as (_ & Hd & _). apply (Hd l'); [done|]. cbn. set_solver.
Qed.

(** [find_sub T t ctx] is the context of the subtree [t] in [plug ctx T],
    and [find_loc T l ctx] the context and subtree of location [l]. *)
Ltac find_sub T t ctx :=
  match T with
  | t => constr:(ctx)
  | Node ?l ?c ?k ?d ?a ?b => find_sub a t constr:(Fr L l c k d b :: ctx)
  | Node ?l ?c ?k ?d ?a ?b => find_sub b t constr:(Fr R l c k d a :: ctx)
  end.

Ltac find_loc T l ctx :=
  match T with
  | Node l ?c ?k ?d ?a ?b => constr:((ctx, T))
  | Node ?l' ?c ?k ?d ?a ?b => find_loc a l constr:(Fr L l' c k d b :: ctx)
  | Node ?l' ?c ?k ?d ?a ?b => find_loc b l constr:(Fr R l' c k d a :: ctx)
  end.

(** One access of the code, the current tree being [plug ctx T]. *)
Ltac rstep :=
  lazymatch goal with
  | |- wp (bind _ _) _ _ => apply wp_bind
  | |- wp (ret _) _ _ => apply wp_ret
  | |- wp get_root _ _ => apply wp_get_root
  | HR : Rep ?s (plug ?ctx ?T) |- wp (load (Some ?l)) ?s _ =>
      let r := find_loc T l ctx in
      lazymatch r with
      | (?ctx', Node ?l ?c ?k ?d ?a ?b) =>
          apply (wp_load_plug s ctx' l c k d a b _ HR)
      end
  | HR : Rep ?s (plug ?ctx ?T) |- wp (store (Some ?l) (set_color ?c')) ?s _ =>
      let r := find_loc T l ctx in
      lazymatch r with
      | (?ctx', Node ?l ?c ?k ?d ?a ?b) =>
          apply (wp_set_color s ctx' l c k d a b c' _ HR); clear HR;
          let s' := fresh "s" in intros s' HR
      end
  | HR : Rep ?s (plug ?ctx ?T) |- wp (rb_rotate_left (Some ?l)) ?s _ =>
      let r := find_loc T l ctx in
      lazymatch r with
      | (?ctx', Node ?l ?c ?k ?d ?a (Node ?l2 ?c2 ?k2 ?d2 ?a2 ?b2)) =>
          apply (wp_rotate_left s ctx' l c k d a l2 c2 k2 d2 a2 b2 _ HR); clear HR;
          let s' := fresh "s" in intros s' HR
      end
  | HR : Rep ?s (plug ?ctx ?T) |- wp (rb_rotate_right (Some ?l)) ?s _ =>
      let r := find_loc T l ctx in
      lazymatch r with
      | (?ctx', Node ?l ?c ?k ?d (Node ?l2 ?c2 ?k2 ?d2 ?a2 ?b2) ?b) =>
          apply (wp_rotate_right s ctx' l c k d b l2 c2 k2 d2 a2 b2 _ HR); clear HR;
          let s' := fresh "s" in intros s' HR
      end
  | HR : Rep ?s (plug ?ctx ?T) |- wp (is_red (tptr ?t)) ?s _ =>
      let ctx' := find_sub T t ctx in apply (wp_is_red s ctx' t _ HR)
  | HR : Rep ?s (plug ?ctx ?T) |- wp (null_or_black (tptr ?t)) ?s _ =>
      let ctx' := find_sub T t ctx in apply (wp_null_or_black s ctx' t _ HR)
  | HR : Rep ?s (plug ?ctx ?T) |- wp (when_ptr (tptr ?t) (store (tptr ?t) (set_color BLACK))) ?s _ =>
      let ctx' := find_sub T t ctx in
      apply (wp_when_paint s ctx' t _ HR); clear HR;
      let s' := fresh "s" in intros s' HR
  end;
  cbn [plug fill fside floc fcol fkey fdata fsib ctx_ptr
       parent nleft nright color key data] in *.
