(* ===== verification/RbInsert.v ===== *)
(** Insertion into the red-black tree: [rb_insert_color] restores the
    invariant, keeps the contents, and terminates within its fuel. *)
From stdpp Require Import base gmap list fin_maps.
From Stdlib Require Import ZArith Lia.
From S2P Require Import Prelude RbTree RbInv.
Open Scope prog_scope.
Open Scope Z_scope.

(** The loop invariant: the heap holds a red node [n] in a hole that accepts
    a black tree of the height of its children, and the contents are [es]. *)
Definition ins_inv (s : rb_state) (es : list entry) (n : ptr) (ctx : list frame) : Prop :=
  exists l k d a b m, n = Some l /\
    Rep s (plug ctx (Node l RED k d a b)) /\
    rb a BLACK m /\ rb b BLACK m /\ rbctx ctx BLACK m /\
    inorder (plug ctx (Node l RED k d a b)) = es.

(** A pointer found in a tree differs from one found beside it. *)
Lemma frame_child_neq s f g ctx t :
  Rep s (plug (f :: g :: ctx) t) -> Some (floc f) <> tptr (fsib g).
Proof.
  rewrite Rep_plug. intros (_ & _ & Hnd) E%symmetry%tptr_in. cbn in Hnd.
  apply NoDup_app in Hnd as (_ & _ & Hnd). nodup_solve.
Qed.

Lemma hole_sibling_neq s f ctx l c k d a b :
  Rep s (plug (f :: ctx) (Node l c k d a b)) -> Some l <> tptr (fsib f).
Proof.
  rewrite Rep_plug. intros (_ & _ & Hnd) E%symmetry%tptr_in. cbn in Hnd. nodup_solve.
Qed.

(** Solves the equality of in-order lists of two rearrangements *)
Ltac inorder_solve :=
  rewrite ?inorder_plug; cbn [inorder before after fside floc fkey fdata fsib];
  repeat first [rewrite <- app_assoc | progress cbn [app]]; reflexivity.

Ltac run_tests :=
  cbn [tptr tcolor paint when_ptr null_or_black is_red] in *; rewrite ?ptr_eqb_true; rewrite ?ptr_eqb_false by congruence;
  change (color_eqb BLACK RED) with false; change (color_eqb RED BLACK) with false;
  change (color_eqb RED RED) with true; change (color_eqb BLACK BLACK) with true;
  cbn [negb].

(** Concludes a pass: the invariant holds at the new [n]. *)
Ltac ins_close HQ :=
  lazymatch goal with
  | HR : Rep ?s (plug ?ctx ?T) |- ?Q (Some ?n) ?s =>
      let r := find_loc T n ctx in
      lazymatch r with
      | (?ctx', Node ?l ?c ?k ?d ?a ?b) =>
          apply (HQ _ _ ctx'); [|cbn; lia];
          exists l, k, d, a, b; eexists; split_and!;
          [reflexivity | exact HR | eauto with rbdb .. | inorder_solve]
      end
  end.

(** The uncle and the grandparent of a node two levels below the root *)
Lemma wp_uncle s f g ctx l c k d a b :
  Rep s (plug (f :: g :: ctx) (Node l c k d a b)) ->
  wp (rb_uncle (Some l)) s (fun p s' => p = tptr (fsib g) /\ s' = s).
Proof.
  intros HR. pose proof (frame_child_neq _ _ _ _ _ HR) as Hfu.
  unfold rb_uncle, rb_grandparent. destruct f as [[]], g as [[]]; cbn in HR, Hfu;
    repeat first [rstep | progress run_tests]; done.
Qed.

Lemma wp_grandparent s f g ctx l c k d a b :
  Rep s (plug (f :: g :: ctx) (Node l c k d a b)) ->
  wp (rb_grandparent (Some l)) s (fun p s' => p = Some (floc g) /\ s' = s).
Proof.
  intros HR. unfold rb_grandparent.
  destruct f as [[]], g as [[]]; cbn in HR; repeat rstep; done.
Qed.

Lemma wp_insert_color_body s sf lf kf df uf sg lg kg dg u ctx l k d a b m cu
    (Q : ptr -> rb_state -> Prop) :
  let ctx0 := Fr sf lf RED kf df uf :: Fr sg lg BLACK kg dg u :: ctx in
  Rep s (plug ctx0 (Node l RED k d a b)) ->
  rb a BLACK m -> rb b BLACK m -> rb uf BLACK m -> rb u cu m -> rbctx ctx BLACK (S m) ->
  (forall n' s' ctx',
     ins_inv s' (inorder (plug ctx0 (Node l RED k d a b))) n' ctx' ->
     (length ctx' < length ctx0)%nat -> Q n' s') ->
  wp (rb_insert_color_body (Some l)) s Q.
Proof.
  intros ctx0 HR Ha Hb Huf Hu Hctx HQ.
  pose proof (frame_child_neq _ _ _ _ _ HR) as Hfu. cbn in Hfu.
  pose proof (hole_sibling_neq _ _ _ _ _ _ _ _ _ HR) as Hlu. cbn in Hlu.
  pose proof (rb_tcolor _ _ _ Hu) as Hcu.
  unfold ctx0 in *. clear ctx0.
  unfold rb_insert_color_body. apply wp_bind.
  eapply wp_mono; [eapply wp_uncle; eassumption|].
  intros p s' [-> ->]. apply wp_bind.
  eapply wp_mono; [eapply wp_grandparent; eassumption|]. intros p s' [-> ->].
  destruct u as [|lu [] ku du ua ub]; [|inversion Hu|]; cbn in Hcu; subst;
    destruct sf, sg; cbn in HR, Hfu, Hlu; repeat first [rstep | progress run_tests];
    ins_close HQ.
Qed.

(** Reads the node in the hole, then its parent. *)
Ltac step_to_parent HR :=
  apply wp_bind; eapply wp_load_plug; [exact HR|]; cbn [parent ctx_ptr];
  apply wp_bind; eapply wp_load; [by eapply Rep_parent_frame|]; rewrite fnode_color.

(** With more fuel than the depth of the node, the loop ends with a tree
    that is red-black once its root is painted black. *)
Lemma wp_insert_color_loop fuel : forall s es n ctx (Q : unit -> rb_state -> Prop),
  (length ctx < fuel)%nat -> ins_inv s es n ctx ->
  (forall s' t', Rep s' t' -> inorder t' = es -> rb_ok (paint BLACK t') -> Q tt s') ->
  wp (rb_insert_color_loop fuel n) s Q.
Proof.
  induction fuel as [|fuel IH]; intros s es n ctx Q Hf Hinv HQ; [lia|].
  destruct Hinv as (l & k & d & a & b & m & -> & HR & Ha & Hb & Hc & Hes).
  cbn [rb_insert_color_loop]. rstep. rstep.
  destruct ctx as [|f ctx].
  { cbn in HR. rewrite (Rep_root _ _ HR). cbn. rewrite ptr_eqb_true. apply wp_ret.
    eapply HQ; [exact HR | done |]. cbn. eexists. eauto with rbdb. }
  pose proof (Rep_not_root _ _ _ _ HR) as Hnr. cbn in Hnr.
  rewrite ptr_eqb_false by done.
  inversion Hc as [|sf lf kf df uf ctx' m' Huf Hc'|sf lf kf df uf ctx' cs c m' Hs Hc']; subst.
  - (* red parent: the grandparent exists and is black *)
    inversion Hc' as [| |sg lg kg dg u ctx'' cu c m' Hu Hc'']; subst.
    step_to_parent HR.
    cbn [fcol]. change (color_eqb RED RED) with true. apply wp_bind.
    eapply wp_insert_color_body; [exact HR | eassumption..|].
    intros n' s' ctx2 Hinv Hlen. eapply IH; [|exact Hinv|exact HQ]. cbn in *; lia.
  - assert (rb_ok (plug (Fr sf lf BLACK kf df uf :: ctx) (Node l RED k d a b))) as Hok.
    { eapply (rb_plug _ _ RED); eauto with rbdb. }
    step_to_parent HR.
    cbn [fcol]. change (color_eqb BLACK RED) with false. apply wp_ret.
    eapply HQ; [exact HR | done |]. destruct Hok as [h Hok]. eapply rb_paint, Hok.
Qed.

(** Painting the root, whose pointer is read from the state *)
Lemma wp_paint_root s t c (Q : unit -> rb_state -> Prop) :
  Rep s t -> t <> Leaf ->
  (forall s', Rep s' (paint c t) -> Q tt s') ->
  wp (r <- get_root ;; store r (set_color c)) s Q.
Proof.
  intros HR Ht HQ. destruct t as [|l c0 k d a b]; [done|].
  apply wp_bind, wp_get_root. rewrite (Rep_root _ _ HR). cbn.
  apply (wp_set_color s [] l c0 k d a b); [exact HR | exact HQ].
Qed.

Lemma inorder_paint c t : inorder (paint c t) = inorder t.
Proof. by destruct t. Qed.

(** A heap holding a tree has at least as many nodes as the tree. *)
Lemma Rep_in_dom s t l : Rep s t -> l ∈ locs t -> is_Some (nodes s !! l).
Proof.
  intros (_ & Hr & _). generalize (None : ptr) as par, Hr. clear Hr.
  induction t as [|l' c k d a IHa b IHb]; intros par Hr Hl; cbn in *; [set_solver|].
  destruct Hr as (Hn & Ha & Hb). apply elem_of_cons in Hl as [-> | [Hl|Hl]%elem_of_app]; eauto.
Qed.

Lemma Rep_size s t : Rep s t -> (length (locs t) <= size (nodes s))%nat.
Proof.
  intros HR. rewrite <- size_dom, <- (size_list_to_set (C := gset loc) (locs t)) by apply HR.
  apply subseteq_size. intros l Hl%elem_of_list_to_set.
  apply elem_of_dom. by eapply Rep_in_dom.
Qed.

Lemma length_ctx ctx t : (length ctx <= length (locs (plug ctx t)))%nat.
Proof.
  rewrite locs_plug, length_app. induction ctx as [|f ctx IH]; cbn; [lia|].
  rewrite length_app. lia.
Qed.

Lemma Rep_fuel s ctx t : Rep s (plug ctx t) -> (length ctx < rb_fuel s)%nat.
Proof.
  intros HR. pose proof (Rep_size _ _ HR). pose proof (length_ctx ctx t).
  unfold rb_fuel. lia.
Qed.

(** [rb_insert_color] after [rb_link_node]: a red leaf replaced by a red node *)
Lemma wp_insert_color s ctx l k d (Q : unit -> rb_state -> Prop) :
  Rep s (plug ctx (Node l RED k d Leaf Leaf)) -> rb_ok (plug ctx Leaf) ->
  (forall s' t', Rep s' t' -> rb_ok t' ->
     inorder t' = before ctx ++ (l, k, d) :: after ctx -> Q tt s') ->
  wp (rb_insert_color (Some l)) s Q.
Proof.
  intros HR Hok HQ. unfold rb_insert_color. apply wp_bind, wp_gets. apply wp_bind.
  apply rb_unplug in Hok as (c & m & Hl & Hc). inversion Hl; subst.
  eapply (wp_insert_color_loop _ _ _ _ ctx); [by eapply Rep_fuel | |].
  - exists l, k, d, Leaf, Leaf, 0%nat. split_and!; eauto with rbdb.
  - intros s' t' HR' Hes Hok'. rewrite inorder_plug in Hes. cbn in Hes.
    eapply wp_paint_root; [done | |].
    { intros ->. cbn in Hes. by destruct (before ctx). }
    intros s'' HR''. eapply HQ; [done | done | by rewrite inorder_paint].
Qed.
