(* ===== verification/RbSearch.v ===== *)
(** Lookups in the red-black tree: the three descents of [rbtree.c] and their
    meaning on the in-order contents. *)
From stdpp Require Import base gmap list fin_maps sorting.
From Stdlib Require Import ZArith Lia.
From S2P Require Import Prelude RbTree RbInv RbInsert.
Open Scope prog_scope.
Open Scope Z_scope.

Implicit Types (es : list entry) (e : entry) (k : Z) (t : tree).

(** ** Ordered contents *)

Definition ekey (e : entry) : Z := e.1.2.
Definition eloc (e : entry) : loc := e.1.1.

Definition ordered (es : list entry) : Prop :=
  StronglySorted (fun e e' => ekey e < ekey e') es.

Lemma ordered_app es es' :
  ordered (es ++ es') <->
  (forall e e', e ∈ es -> e' ∈ es' -> ekey e < ekey e') /\ ordered es /\ ordered es'.
Proof. apply StronglySorted_app. Qed.

Lemma ordered_mid es e es' :
  ordered (es ++ e :: es') ->
  (forall e', e' ∈ es -> ekey e' < ekey e) /\ (forall e', e' ∈ es' -> ekey e < ekey e') /\
  ordered es /\ ordered es' /\ (forall e1 e2, e1 ∈ es -> e2 ∈ es' -> ekey e1 < ekey e2).
Proof.
  intros (H & Hl & Hr)%ordered_app. apply StronglySorted_cons in Hr as [Hr1 Hr2].
  rewrite Forall_forall in Hr1. split_and!; auto.
  - intros e' He. apply H; [done | set_solver].
  - intros e1 e2 H1 H2. apply H; [done | set_solver].
Qed.

Lemma ordered_mid_intro es e es' :
  ordered es -> ordered es' ->
  (forall e', e' ∈ es -> ekey e' < ekey e) -> (forall e', e' ∈ es' -> ekey e < ekey e') ->
  ordered (es ++ e :: es').
Proof.
  intros Ho1 Ho2 Hl Hr. apply ordered_app. split_and!; [|done|].
  - intros e1 e2 H1 [->|H2]%elem_of_cons; [auto|].
    specialize (Hl _ H1). specialize (Hr _ H2). lia.
  - apply StronglySorted_cons. split; [by apply Forall_forall | done].
Qed.

Lemma ordered_remove es e es' : ordered (es ++ e :: es') -> ordered (es ++ es').
Proof.
  intros (H1 & H2 & H3 & H4 & H5)%ordered_mid. apply ordered_app. auto.
Qed.

(** The entry with the largest key up to [k]; the entry with key [k]. *)
Definition entry_leq (k : Z) (es : list entry) : option entry :=
  last (filter (fun e => ekey e <= k) es).

Definition has_key (k : Z) (es : list entry) : Prop := exists e, e ∈ es /\ ekey e = k.

Lemma filter_leq_none k es :
  (forall e, e ∈ es -> k < ekey e) -> filter (fun e => ekey e <= k) es = [].
Proof.
  intros H. induction es as [|e es IH]; [done|].
  rewrite filter_cons_False by (specialize (H e ltac:(set_solver)); lia).
  apply IH. set_solver.
Qed.

Lemma entry_leq_right k es e es' :
  ordered (es ++ e :: es') -> ekey e <= k ->
  entry_leq k (es ++ e :: es') = Some (default e (entry_leq k es')).
Proof.
  intros Ho%ordered_mid Hk. unfold entry_leq.
  rewrite filter_app, filter_cons_True, last_app_cons, last_cons by done.
  by destruct (last _).
Qed.

Lemma entry_leq_left k es e es' :
  ordered (es ++ e :: es') -> k < ekey e -> entry_leq k (es ++ e :: es') = entry_leq k es.
Proof.
  intros (_ & Hr & _)%ordered_mid Hk. unfold entry_leq.
  rewrite filter_app, (filter_leq_none k (e :: es')), app_nil_r; [done|].
  intros e' [->|H]%elem_of_cons; [done|]. specialize (Hr _ H). lia.
Qed.

(** What [entry_leq] means *)
Lemma entry_leq_Some k es e :
  ordered es -> entry_leq k es = Some e ->
  e ∈ es /\ ekey e <= k /\ (forall e', e' ∈ es -> ekey e' <= k -> ekey e' <= ekey e).
Proof.
  intros Ho Hl. unfold entry_leq in Hl.
  apply last_Some in Hl as [l' Hl].
  assert (e ∈ filter (fun e => ekey e <= k) es) as He by (rewrite Hl; set_solver).
  apply list_elem_of_filter in He as [Hk He]. split_and!; [done|done|].
  intros e' He' Hk'.
  assert (e' ∈ filter (fun e => ekey e <= k) es) as Hf by (by apply list_elem_of_filter).
  assert (ordered (filter (fun e => ekey e <= k) es)) as Hof.
  { clear -Ho. induction es as [|a es IH]; [done|]. apply StronglySorted_cons in Ho as [Ha Ho].
    rewrite filter_cons. case_decide; [|auto]. apply StronglySorted_cons. split; [|by apply IH].
    rewrite Forall_forall in *. intros x [_ Hx]%list_elem_of_filter. auto. }
  rewrite Hl in Hf, Hof. apply elem_of_app in Hf as [Hf| ->%list_elem_of_singleton]; [|lia].
  apply ordered_mid in Hof as (H1 & _). specialize (H1 _ Hf). lia.
Qed.

Lemma entry_leq_None k es : entry_leq k es = None -> forall e, e ∈ es -> k < ekey e.
Proof.
  unfold entry_leq. rewrite last_None. intros H e He.
  destruct (decide (ekey e <= k)); [|lia].
  assert (e ∈ filter (fun e => ekey e <= k) es) as Hf by (by apply list_elem_of_filter).
  rewrite H in Hf. set_solver.
Qed.

(** ** The descents *)

Lemma length_locs_children l c k d a b :
  (length (locs (Node l c k d a b)) = S (length (locs a) + length (locs b)))%nat.
Proof. cbn. by rewrite length_app. Qed.

Lemma Rep_fuel_locs s t : Rep s t -> (length (locs t) < rb_fuel s)%nat.
Proof. intros HR%Rep_size. unfold rb_fuel. lia. Qed.

(** The number of nodes on the longest path down *)
Fixpoint height (t : tree) : nat :=
  match t with Leaf => 0 | Node _ _ _ _ a b => S (Nat.max (height a) (height b)) end.

Lemma height_locs t : (height t <= length (locs t))%nat.
Proof.
  induction t as [|l c k d a IHa b IHb]; [done|]. rewrite length_locs_children. cbn. lia.
Qed.

Lemma wp_search_leq_loop fuel k : forall s ctx t best,
  Rep s (plug ctx t) -> ordered (inorder t) -> (height t < fuel)%nat ->
  wp (rb_search_leq_loop fuel k (tptr t) best) s (fun p s' =>
    s' = s /\ p = match entry_leq k (inorder t) with Some e => Some (eloc e) | None => best end).
Proof.
  induction fuel as [|fuel IH]; intros s ctx t best HR Ho Hf; [lia|].
  destruct t as [|l c kk d a b]; cbn [tptr rb_search_leq_loop]; [done|].
  cbn [inorder height] in *.
  pose proof (ordered_mid _ _ _ Ho) as (_ & _ & Hoa & Hob & _).
  apply wp_bind. eapply wp_load_plug; [done|]. cbn [key nright nleft].
  destruct (Z.leb_spec kk k).
  - eapply wp_mono.
    + apply (IH s (Fr R l c kk d a :: ctx) b (Some l)); [done | done | lia].
    + intros p s' [-> ->]. rewrite entry_leq_right by done. by destruct (entry_leq _ _).
  - eapply wp_mono.
    + apply (IH s (Fr L l c kk d b :: ctx) a best); [done | done | lia].
    + intros p s' [-> ->]. by rewrite entry_leq_left.
Qed.

Lemma wp_search_leq s t k :
  Rep s t -> ordered (inorder t) ->
  wp (rb_search_leq k) s (fun p s' => s' = s /\ p = eloc <$> entry_leq k (inorder t)).
Proof.
  intros HR Ho. unfold rb_search_leq. apply wp_bind, wp_gets, wp_bind, wp_get_root.
  rewrite (Rep_root _ _ HR). eapply wp_mono.
  - apply (wp_search_leq_loop _ _ s [] t); [done..|].
    pose proof (height_locs t). pose proof (Rep_fuel_locs s t HR). lia.
  - intros p s' [-> ->]. by destruct (entry_leq _ _).
Qed.

Lemma wp_search_loop fuel k : forall s ctx t,
  Rep s (plug ctx t) -> ordered (inorder t) -> (length (locs t) < fuel)%nat ->
  wp (rb_search_loop fuel k (tptr t)) s (fun p s' => s' = s /\
    match p with
    | Some l => exists ctx' c d a b,
        plug ctx t = plug ctx' (Node l c k d a b)
    | None => ~ has_key k (inorder t)
    end).
Proof.
  induction fuel as [|fuel IH]; intros s ctx t HR Ho Hf; [lia|].
  destruct t as [|l c kk d a b]; cbn [tptr rb_search_loop].
  { split; [done|]. intros (e & He & _). set_solver. }
  rewrite length_locs_children in Hf. cbn [inorder] in *.
  apply ordered_mid in Ho as (Hl & Hr & Hoa & Hob & _).
  apply wp_bind. eapply wp_load_plug; [done|]. cbn [key nright nleft].
  destruct (Z.eqb_spec kk k) as [->|Hne]; [apply wp_ret; eauto 10|].
  destruct (Z.ltb_spec k kk).
  - eapply wp_mono; [apply (IH s (Fr L l c kk d b :: ctx) a); [done..|lia]|].
    intros p s' [-> Hp]. split; [done|]. destruct p; [done|].
    intros (e & [He|[->|He]%elem_of_cons]%elem_of_app & Hk); [by apply Hp; exists e | done |].
    specialize (Hr _ He). cbn in Hr. lia.
  - eapply wp_mono; [apply (IH s (Fr R l c kk d a :: ctx) b); [done..|lia]|].
    intros p s' [-> Hp]. split; [done|]. destruct p; [done|].
    intros (e & [He|[->|He]%elem_of_cons]%elem_of_app & Hk); [ | done | by apply Hp; exists e].
    specialize (Hl _ He). cbn in Hl. lia.
Qed.

Lemma wp_search s t k :
  Rep s t -> ordered (inorder t) ->
  wp (rb_search k) s (fun p s' => s' = s /\
    match p with
    | Some l => exists ctx c d a b, t = plug ctx (Node l c k d a b)
    | None => ~ has_key k (inorder t)
    end).
Proof.
  intros HR Ho. unfold rb_search. apply wp_bind, wp_gets, wp_bind, wp_get_root.
  rewrite (Rep_root _ _ HR).
  apply (wp_search_loop _ _ s [] t); [done..|]. by apply Rep_fuel_locs.
Qed.

Lemma plug_app ctx1 ctx2 t : plug (ctx1 ++ ctx2) t = plug ctx2 (plug ctx1 t).
Proof. revert t. induction ctx1 as [|f ctx1 IH]; intros t; cbn; auto. Qed.

(** [rb_min] reaches the node without a left child at the end of the left
    spine, whose context consists of left frames. *)
Lemma wp_min_loop fuel : forall s ctx l c k d a b,
  Rep s (plug ctx (Node l c k d a b)) -> (length (locs (Node l c k d a b)) <= fuel)%nat ->
  wp (rb_min_loop fuel (Some l)) s (fun p s' => s' = s /\
    exists ctx' y cy ky dy by', p = Some y /\
      plug ctx' (Node y cy ky dy Leaf by') = Node l c k d a b /\
      Forall (fun f => fside f = L) ctx').
Proof.
  induction fuel as [|fuel IH]; intros s ctx l c k d a b HR Hf; [cbn in Hf; lia|].
  rewrite length_locs_children in Hf. cbn [rb_min_loop].
  apply wp_bind. eapply wp_load_plug; [done|]. cbn [nleft].
  destruct a as [|l' c' k' d' a' b']; cbn [tptr].
  - apply wp_ret. split; [done|]. exists []. eauto 10.
  - eapply wp_mono; [apply (IH s (Fr L l c k d b :: ctx) l' c' k' d' a' b'); [done|lia]|].
    intros p s' (-> & ctx' & y & cy & ky & dy & by' & -> & E & HL). split; [done|].
    exists (ctx' ++ [Fr L l c k d b]), y, cy, ky, dy, by'. split_and!; [done | |].
    + by rewrite plug_app, E.
    + apply Forall_app. auto.
Qed.
