(* ===== verification/RbDelete.v ===== *)
(** Deletion from the red-black tree: [rb_delete_fixup] restores the
    invariant, [rb_delete] removes exactly the node it returns. *)
From stdpp Require Import base gmap list fin_maps.
From Stdlib Require Import ZArith Lia.
From S2P Require Import Prelude RbTree RbInv RbInsert RbSearch.
Open Scope prog_scope.
Open Scope Z_scope.

(** [near t m]: painted black, [t] has black height [S m]; as it is, it is
    either a black tree of height [m], one black node short, or red at its
    root. *)
Definition near (t : tree) (m : nat) : Prop :=
  rb t BLACK m \/ (tcolor t = RED /\ rb (paint BLACK t) BLACK (S m)).

(** The loop invariant of [rb_delete_fixup]: either [x] is one black short in
    its hole, or the tree is red-black again and [x] is its root. *)
Definition del_inv (s : rb_state) (es : list entry) (x par : ptr) (n : nat) : Prop :=
  (exists ctx t m, x = tptr t /\ par = ctx_ptr ctx /\ Rep s (plug ctx t) /\
     near t m /\ rbctx ctx BLACK (S m) /\ inorder (plug ctx t) = es /\
     n = (length ctx + if color_eqb (tcolor t) BLACK then 1 else 0)%nat) \/
  (exists t, Rep s t /\ x = root s /\ rb_ok t /\ inorder t = es /\ n = 0%nat).

Lemma del_inv_eq s es es' x par n : del_inv s es x par n -> es = es' -> del_inv s es' x par n.
Proof. by intros ? <-. Qed.

Ltac del_done :=
  lazymatch goal with
  | HR : Rep ?s (plug ?ctx ?T) |- del_inv ?s _ ?r None _ =>
      right; exists (plug ctx T); split_and!;
      [exact HR | reflexivity | eapply rb_plug; [eassumption | eauto with rbdb] | inorder_solve | reflexivity]
  end.

Ltac color_cases t H :=
  let c := lazymatch type of H with rb _ ?c _ => c end in
  destruct c; [inversion H; clear H; subst | pose proof (rb_tcolor _ _ _ H)].

Ltac rrun :=
  repeat first
    [ rstep
    | progress run_tests
    | progress match goal with H : tcolor ?t = BLACK |- context [tcolor ?t] => rewrite H end ].

(** The second half of the body, the sibling being black *)
Lemma wp_fixup_left_tail s lp cp kp dp lw kw dw c1 c2 t m col1 col2 ctx
    (Q : ptr * ptr -> rb_state -> Prop) :
  Rep s (plug ctx (Node lp cp kp dp t (Node lw BLACK kw dw c1 c2))) ->
  rb t BLACK m -> rb c1 col1 m -> rb c2 col2 m ->
  rbctx ctx cp (match cp with RED => S m | BLACK => S (S m) end) ->
  (forall x' par' s' n,
     del_inv s' (inorder (plug ctx (Node lp cp kp dp t (Node lw BLACK kw dw c1 c2)))) x' par' n ->
     (n <= length ctx + match cp with RED => 0 | BLACK => 1 end)%nat -> Q (x', par') s') ->
  wp (rb_delete_fixup_left_tail (Some lp) (Some lw)) s Q.
Proof.
  intros HR Ht H1 H2 Hc HQ. unfold rb_delete_fixup_left_tail.
  color_cases c1 H1; color_cases c2 H2; rrun.
  - eapply HQ; [destruct cp; del_done | lia].
  - eapply HQ; [destruct cp; del_done | lia].
  - eapply HQ; [destruct cp; del_done | lia].
  - eapply HQ; [|done]. left.
    eexists ctx, (Node lp cp kp dp t (Node lw RED kw dw c1 c2)),
      (match cp with RED => m | BLACK => S m end).
    split_and!; [done..| | | |].
    + destruct cp; [right; split; [done|] | left]; cbn [paint]; eauto with rbdb.
    + destruct cp; eauto using rbctx_weaken.
    + inorder_solve.
    + by destruct cp.
Qed.

(** The whole body, [x] being a left child *)
Lemma wp_fixup_left s lp cp kp dp w t m ctx (Q : option (ptr * ptr) -> rb_state -> Prop) :
  Rep s (plug (Fr L lp cp kp dp w :: ctx) t) ->
  rb t BLACK m -> rbctx (Fr L lp cp kp dp w :: ctx) BLACK (S m) ->
  (forall x' par' s' n,
     del_inv s' (inorder (plug (Fr L lp cp kp dp w :: ctx) t)) x' par' n ->
     (n <= length ctx + 1)%nat -> Q (Some (x', par')) s') ->
  wp (rb_delete_fixup_left (Some lp)) s Q.
Proof.
  intros HR Ht Hc HQ. cbn [plug fill fside floc fcol fkey fdata fsib] in HR, HQ.
  assert (exists cw, rb w cw (S m) /\ (cp = RED -> cw = BLACK) /\
    rbctx ctx cp (match cp with RED => S m | BLACK => S (S m) end)) as (cw & Hw & Hcw & Hc').
  { inversion Hc; subst; eexists; split_and!; done. }
  unfold rb_delete_fixup_left. destruct w as [|lw cw' kw dw wl wr]; [inversion Hw|].
  inversion Hw as [|? ? ? ? ? ? Hl Hr|? ? ? ? ? c1 c2 ? Hl Hr]; subst; rrun.
  - destruct cp; [naive_solver|]. rrun.
    inversion Hl as [| |l k d a b c1 c2 n Ha Hb]; subst. rrun.
    lazymatch goal with |- wp _ ?s' _ =>
      apply (wp_fixup_left_tail s' lp RED kp dp l k d a b t m c1 c2
               (Fr L lw BLACK kw dw wr :: ctx)) end;
      [exact HR | done | done | done | eauto with rbdb |].
    intros x' par' s' n' Hd Hn. apply wp_ret. apply (HQ _ _ _ n'); [|cbn in Hn; lia].
    eapply del_inv_eq; [exact Hd | inorder_solve].
  - eapply wp_fixup_left_tail; [exact HR | done..|].
    intros x' par' s' n' Hd Hn. apply wp_ret. apply (HQ _ _ _ n'); [exact Hd|]. destruct cp; lia.
Qed.

(** The second half of the mirrored body, the sibling being black *)
Lemma wp_fixup_right_tail s lp cp kp dp lw kw dw c1 c2 t m col1 col2 ctx
    (Q : ptr * ptr -> rb_state -> Prop) :
  Rep s (plug ctx (Node lp cp kp dp (Node lw BLACK kw dw c2 c1) t)) ->
  rb t BLACK m -> rb c1 col1 m -> rb c2 col2 m ->
  rbctx ctx cp (match cp with RED => S m | BLACK => S (S m) end) ->
  (forall x' par' s' n,
     del_inv s' (inorder (plug ctx (Node lp cp kp dp (Node lw BLACK kw dw c2 c1) t))) x' par' n ->
     (n <= length ctx + match cp with RED => 0 | BLACK => 1 end)%nat -> Q (x', par') s') ->
  wp (rb_delete_fixup_right_tail (Some lp) (Some lw)) s Q.
Proof.
  intros HR Ht H1 H2 Hc HQ. unfold rb_delete_fixup_right_tail.
  color_cases c1 H1; color_cases c2 H2; rrun.
  - eapply HQ; [destruct cp; del_done | lia].
  - eapply HQ; [destruct cp; del_done | lia].
  - eapply HQ; [destruct cp; del_done | lia].
  - eapply HQ; [|done]. left.
    eexists ctx, (Node lp cp kp dp (Node lw RED kw dw c2 c1) t),
      (match cp with RED => m | BLACK => S m end).
    split_and!; [done..| | | |].
    + destruct cp; [right; split; [done|] | left]; cbn [paint]; eauto with rbdb.
    + destruct cp; eauto using rbctx_weaken.
    + inorder_solve.
    + by destruct cp.
Qed.

(** The whole mirrored body, [x] being a right child *)
Lemma wp_fixup_right s lp cp kp dp w t m ctx (Q : option (ptr * ptr) -> rb_state -> Prop) :
  Rep s (plug (Fr R lp cp kp dp w :: ctx) t) ->
  rb t BLACK m -> rbctx (Fr R lp cp kp dp w :: ctx) BLACK (S m) ->
  (forall x' par' s' n,
     del_inv s' (inorder (plug (Fr R lp cp kp dp w :: ctx) t)) x' par' n ->
     (n <= length ctx + 1)%nat -> Q (Some (x', par')) s') ->
  wp (rb_delete_fixup_right (Some lp)) s Q.
Proof.
  intros HR Ht Hc HQ. cbn [plug fill fside floc fcol fkey fdata fsib] in HR, HQ.
  assert (exists cw, rb w cw (S m) /\ (cp = RED -> cw = BLACK) /\
    rbctx ctx cp (match cp with RED => S m | BLACK => S (S m) end)) as (cw & Hw & Hcw & Hc').
  { inversion Hc; subst; eexists; split_and!; done. }
  unfold rb_delete_fixup_right. destruct w as [|lw cw' kw dw wr wl]; [inversion Hw|].
  inversion Hw as [|? ? ? ? ? ? Hr Hl|? ? ? ? ? c2 c1 ? Hr Hl]; subst; rrun.
  - destruct cp; [naive_solver|]. rrun.
    inversion Hl as [| |l k d b a c2 c1 n Hb Ha]; subst. rrun.
    lazymatch goal with |- wp _ ?s' _ =>
      apply (wp_fixup_right_tail s' lp RED kp dp l k d a b t m c1 c2
               (Fr R lw BLACK kw dw wr :: ctx)) end;
      [exact HR | done | done | done | eauto with rbdb |].
    intros x' par' s' n' Hd Hn. apply wp_ret. apply (HQ _ _ _ n'); [|cbn in Hn; lia].
    eapply del_inv_eq; [exact Hd | inorder_solve].
  - eapply wp_fixup_right_tail; [exact HR | done..|].
    intros x' par' s' n' Hd Hn. apply wp_ret. apply (HQ _ _ _ n'); [exact Hd|]. destruct cp; lia.
Qed.

(** ** The loop *)

Lemma near_height t m : near t m -> tcolor t = BLACK -> rb t BLACK m.
Proof. intros [?|[E _]]; [done|]. by rewrite E. Qed.

Lemma wp_delete_fixup_loop fuel : forall s es x par n (Q : ptr -> rb_state -> Prop),
  (n < fuel)%nat -> del_inv s es x par n ->
  (forall s' ctx t, Rep s' (plug ctx t) -> rb_ok (plug ctx (paint BLACK t)) ->
     inorder (plug ctx t) = es -> Q (tptr t) s') ->
  wp (rb_delete_fixup_loop fuel x par) s Q.
Proof.
  induction fuel as [|fuel IH]; intros s es x par n Q Hf Hinv HQ; [lia|].
  cbn [rb_delete_fixup_loop]. apply wp_bind, wp_get_root.
  destruct Hinv as [(ctx & t & m & -> & -> & HR & Hn & Hc & Hes & ->)|(t & HR & -> & Hok & Hes & ->)].
  2: { rewrite ptr_eqb_true. apply wp_ret. rewrite (Rep_root _ _ HR).
       apply (HQ s [] t); [done| |done]. cbn. destruct Hok as [h Hok].
       destruct t; [by exists 0%nat; constructor|]. by destruct (rb_paint _ _ _ Hok) as [? ?]; eexists. }
  assert (tcolor t = RED \/ ctx = [] -> Q (tptr t) s) as Hexit.
  { intros Ht. apply (HQ s ctx t); [done| |done]. destruct Ht as [Ht | ->].
    - eapply rb_plug; [exact Hc|]. destruct Hn as [Hn|[_ Hn]]; [|done].
      apply rb_tcolor in Hn. congruence.
    - cbn. destruct Hn as [Hn|[_ Hn]]; [|by eexists]. by apply rb_paint in Hn as [? ?]; eexists. }
  destruct (ptr_eqb (tptr t) (root s)) eqn:Er; [apply wp_ret, Hexit|].
  { right. destruct ctx as [|f ctx]; [done|]. apply Rep_not_root in HR.
    by rewrite ptr_eqb_false in Er. }
  apply wp_bind. eapply wp_null_or_black; [done|].
  destruct (tcolor t) eqn:Et; cbn [negb color_eqb].
  { apply wp_ret. auto. }
  change (color_eqb BLACK BLACK) with true. cbn [negb].
  destruct ctx as [|f ctx]; cbn [ctx_ptr]; [apply wp_ret; auto|].
  apply near_height in Hn; [|done].
  assert (forall x' par' s' n', del_inv s' es x' par' n' -> (n' <= length ctx + 1)%nat ->
    wp (rb_delete_fixup_loop fuel x' par') s' Q) as Hnext.
  { intros x' par' s' n' Hd Hn'. eapply IH; [|exact Hd|exact HQ].
    change (color_eqb BLACK BLACK) with true in Hf. cbn in Hf. lia. }
  assert (fsib f <> Leaf) as Hsib.
  { intros E. inversion Hc as [|? ? ? ? ? ? ? Hs|? ? ? ? ? ? ? ? ? Hs]; subst;
      cbn in E; subst; inversion Hs. }
  apply wp_bind. eapply wp_load; [by eapply Rep_parent_frame|].
  apply wp_bind. destruct f as [[] lp cp kp dp w]; cbn [fnode fside nleft].
  - rewrite ptr_eqb_true. eapply wp_fixup_left; [exact HR|done|done|].
    intros x' par' s' n' Hd Hn'. eapply Hnext; [|exact Hn']. by eapply del_inv_eq.
  - rewrite ptr_eqb_false by (by eapply Rep_siblings).
    eapply wp_fixup_right; [exact HR|done|done|].
    intros x' par' s' n' Hd Hn'. eapply Hnext; [|exact Hn']. by eapply del_inv_eq.
Qed.

(** What a hole still needs after a node of colour [c] was taken out of it,
    the tree [t] being left in its place *)
Definition short (c : rb_color_t) (t : tree) (n : nat) : Prop :=
  match c with BLACK => exists m, n = S m /\ near t m | RED => rb t BLACK n end.

Lemma rb_near t c m : rb t c m -> near t m.
Proof. intros H. inversion H; subst; [left | right | left]; cbn; eauto with rbdb. Qed.

Lemma rb_short_l l c k d a b n : rb (Node l c k d a b) c n -> short c a n.
Proof. inversion 1; subst; cbn; eauto using rb_near. Qed.

Lemma rb_short_r l c k d a b n : rb (Node l c k d a b) c n -> short c b n.
Proof. inversion 1; subst; cbn; eauto using rb_near. Qed.

Lemma wp_delete_fixup s ctx t c n (Q : unit -> rb_state -> Prop) :
  Rep s (plug ctx t) -> rbctx ctx c n -> short c t n ->
  (forall s' t', Rep s' t' -> rb_ok t' -> inorder t' = inorder (plug ctx t) -> Q tt s') ->
  wp (if color_eqb c BLACK then rb_delete_fixup (tptr t) (ctx_ptr ctx) else ret tt) s Q.
Proof.
  intros HR Hc Hs HQ. destruct c; cbn [short] in Hs.
  { change (color_eqb RED BLACK) with false. apply wp_ret. eapply HQ; [done| |done].
    eapply rb_plug; [by eapply rbctx_weaken | done]. }
  change (color_eqb BLACK BLACK) with true. destruct Hs as (m & -> & Hn).
  unfold rb_delete_fixup. apply wp_bind, wp_gets, wp_bind.
  eapply wp_delete_fixup_loop.
  2: { left. exists ctx, t, m. split_and!; done. }
  { pose proof (Rep_size _ _ HR). pose proof (length_ctx ctx t). unfold rb_fuel.
    destruct (color_eqb _ _); lia. }
  intros s' ctx' t' HR' Hok' Hes. eapply wp_when_paint; [done|]. intros s'' HR''.
  eapply HQ; [done|done|]. rewrite <- Hes, !inorder_plug. by rewrite inorder_paint.
Qed.

(** The colours of a context do not depend on the node of a frame. *)
Lemma rbctx_rename ctx1 : forall sd l c k d sb ctx2 l' k' d' col n,
  rbctx (ctx1 ++ Fr sd l c k d sb :: ctx2) col n ->
  rbctx (ctx1 ++ Fr sd l' c k' d' sb :: ctx2) col n.
Proof.
  induction ctx1 as [|f ctx1 IH]; intros * H; cbn in *.
  - inversion H; subst; eauto with rbdb.
  - inversion H; subst; econstructor; eauto.
Qed.

Lemma before_spine ctx : Forall (fun f => fside f = L) ctx -> before ctx = [].
Proof. induction 1 as [|[[] ? ? ? ? ?] ctx Hs _ IH]; cbn in *; done. Qed.

Lemma ctx_ptr_app ctx1 ctx2 :
  ctx_ptr (ctx1 ++ ctx2) = match ctx1 with [] => ctx_ptr ctx2 | _ => ctx_ptr ctx1 end.
Proof. by destruct ctx1. Qed.

(** The successor [y] of [z] is at the end of the left spine [sp] of the
    right subtree of [z]; afterwards [y] is where [z] was. *)
Lemma wp_delete_two s ctx z c k d a sp y cy ky dy b2
    (Q : ptr * ptr * rb_color_t -> rb_state -> Prop) :
  let b := plug sp (Node y cy ky dy Leaf b2) in
  Rep s (plug ctx (Node z c k d a b)) -> a <> Leaf ->
  wp (rb_min (tptr b)) s (fun p s' => p = Some y /\ s' = s) ->
  (forall s', Rep s' (plug (sp ++ Fr R y c ky dy a :: ctx) b2) ->
     Q (tptr b2, ctx_ptr (sp ++ Fr R y c ky dy a :: ctx), cy) s') ->
  wp (rb_delete_two (Some z)) s Q.
Proof.
  intros b HR Ha Hmin HQ. unfold rb_delete_two.
  assert (HRy : Rep s (plug (sp ++ Fr R z c k d a :: ctx) (Node y cy ky dy Leaf b2)))
    by (by rewrite plug_app).
  apply wp_bind. eapply wp_load_plug; [exact HR|]. cbn [nright].
  apply wp_bind. eapply wp_mono; [exact Hmin|]. intros p s' [-> ->].
  apply wp_bind. eapply wp_load_plug; [exact HRy|]. cbn [color nright parent].
  pose proof HR as HR'. rewrite Rep_plug in HR'. cbn in HR'.
  destruct HR' as (Hc & (Hz & Hra & Hrb) & Hnd).
  pose proof HRy as HRy'. rewrite Rep_plug in HRy'. cbn in HRy'.
  destruct HRy' as (Hcy & (Hy & _ & Hrb2) & Hndy).
  destruct sp as [|f sp].
  - cbn [app ctx_ptr floc] in *. rewrite ptr_eqb_true. apply wp_bind, wp_ret, wp_bind.
    eapply wp_take_place; [exact Hc | exact Hz | done | done | done | exact Hy | done | |].
    + nodup_perm Hndy.
    + intros s' HR' _. apply wp_ret. by apply HQ.
  - assert (floc f <> z) as Hfz.
    { apply NoDup_cons in Hndy as [_ Hndy]. apply NoDup_app in Hndy as (_ & _ & Hndy).
      cbn in Hndy. clear -Hndy.
      intros <-. apply NoDup_cons in Hndy as [Hn _]. apply Hn.
      apply elem_of_app. right. induction sp; cbn; set_solver. }
    rewrite ctx_ptr_app. cbn [ctx_ptr]. rewrite ptr_eqb_false by congruence.
    apply wp_bind, wp_bind. eapply wp_transplant; [exact HRy | by right |].
    intros s1 HR1 Ey. rewrite Hy in Ey.
    assert (y ∉ locs (plug ((f :: sp) ++ Fr R z c k d a :: ctx) b2)) as Hyn.
    { rewrite locs_plug. by apply NoDup_cons in Hndy as [? _]. }
    rewrite plug_app in HR1, Hyn. cbn [plug] in HR1, Hyn.
    pose proof HR1 as HR1'. rewrite Rep_plug in HR1'. rewrite locs_plug in Hyn.
    cbn in HR1', Hyn. set (B := plug sp (fill f b2)) in *.
    destruct HR1' as (Hc1 & (Hz1 & Hra1 & Hrb1) & Hnd1).
    assert (Hyz : y <> z) by set_solver.
    wload. wstore. wload. apply wp_bind.
    assert (tptr B = tptr (plug sp (fill f (Node y cy ky dy Leaf b2)))) as EB.
    { unfold B. clear. destruct sp as [|g sp] using rev_ind; cbn.
      - by rewrite !tptr_fill.
      - rewrite !plug_app. cbn. by rewrite !tptr_fill. }
    set (s2 := mk_rb _ _).
    assert (forall Q', wp (when_ptr (tptr B) (store (tptr B) (set_parent (Some y)))) s2 Q' ->
      wp (store (tptr B) (set_parent (Some y))) s2 Q') as Hw.
    { rewrite EB. clear. destruct sp as [|g sp] using rev_ind; cbn.
      - by rewrite !tptr_fill.
      - rewrite !plug_app. cbn. by rewrite !tptr_fill. }
    apply Hw. clear Hw. eapply (wp_set_parent_ptr _ (Some z)).
    { apply rep_insert; [set_solver | exact Hrb1]. }
    { nodup_sub Hnd1. }
    intros s3 Hroot3 HB3 E3. apply wp_ret, wp_bind.
    assert (forall l, l ∉ y :: locs B -> nodes s3 !! l = nodes s1 !! l) as E31.
    { intros l Hl. rewrite E3 by set_solver. unfold s2. cbn.
      rewrite lookup_insert_ne; [done | set_solver]. }
    eapply (wp_take_place s3 ctx z (ctx_ptr ctx) (tptr B) c k d a y _ _ _ _ _ B).
    + rewrite Hroot3. eapply crep_ext; [|exact Hc1]. intros l Hl. apply E31.
      revert Hl Hyn Hnd1. clear. intros. nodup_solve.
    + rewrite E31; [exact Hz1|]. revert Hyn Hnd1 Hyz. clear. intros. nodup_solve.
    + done.
    + eapply rep_ext; [|exact Hra1]. intros l Hl. apply E31.
      revert Hl Hyn Hnd1. clear. intros. nodup_solve.
    + done.
    + rewrite E3 by (clear -Hyn; set_solver). unfold s2. cbn. by rewrite lookup_insert_eq.
    + done.
    + apply NoDup_cons. split; [|nodup_perm Hnd1]. clear -Hyn. set_solver.
    + intros s4 HR4 _. apply wp_ret.
      specialize (HQ s4). rewrite ctx_ptr_app in HQ. apply HQ.
      rewrite plug_app. cbn [plug fill fside floc fcol fkey fdata fsib]. exact HR4.
Qed.

(** The unlinking part of [rb_delete], as the code writes it *)
Definition unlink (z : ptr) : M rb_state (ptr * ptr * rb_color_t) :=
  zd <- load z ;;
  match nleft zd, nright zd with
  | None, _ =>
      rb_transplant z (nright zd) ;;;
      ret (nright zd, parent zd, color zd)
  | Some _, None =>
      rb_transplant z (nleft zd) ;;;
      ret (nleft zd, parent zd, color zd)
  | Some _, Some _ => rb_delete_two z
  end.

Lemma rb_delete_unfold k s :
  rb_delete k s =
  (z <- rb_search k ;;
   match z with
   | None => ret None
   | Some _ =>
       r <- unlink z ;;
       let '(x, x_parent, y_original_color) := r in
       (if color_eqb y_original_color BLACK
        then rb_delete_fixup x x_parent
        else ret tt) ;;;
       ret z
   end) s.
Proof.
  unfold rb_delete, unlink, bind. destruct (rb_search k s) as [[[z|] s1]|]; [|done..].
  destruct (load (Some z) s1) as [[zd s2]|]; done.
Qed.

(** The left spine of a tree, as [rb_min] walks it *)
Lemma min_spine s ctx l c k d a b :
  Rep s (plug ctx (Node l c k d a b)) ->
  exists sp y cy ky dy b2,
    Node l c k d a b = plug sp (Node y cy ky dy Leaf b2) /\
    Forall (fun f => fside f = L) sp /\
    wp (rb_min (Some l)) s (fun p s' => p = Some y /\ s' = s).
Proof.
  intros HR.
  assert (wp (rb_min (Some l)) s (fun p s' => s' = s /\
    exists ctx' y cy ky dy by', p = Some y /\
      plug ctx' (Node y cy ky dy Leaf by') = Node l c k d a b /\
      Forall (fun f => fside f = L) ctx')) as H.
  { unfold rb_min. apply wp_bind, wp_gets. eapply wp_min_loop; [done|].
    pose proof (Rep_fuel_locs _ _ HR) as Hf. rewrite locs_plug, length_app in Hf. lia. }
  apply wp_run in H as (p & s' & E & -> & sp & y & cy & ky & dy & b2 & -> & Et & Hsp).
  exists sp, y, cy, ky, dy, b2. split_and!; [done|done|]. unfold wp. by rewrite E.
Qed.

Lemma wp_unlink s ctx z c k d a b (Q : ptr * ptr * rb_color_t -> rb_state -> Prop) :
  Rep s (plug ctx (Node z c k d a b)) -> rb_ok (plug ctx (Node z c k d a b)) ->
  (forall s' ctx' t' c' n, Rep s' (plug ctx' t') -> rbctx ctx' c' n -> short c' t' n ->
     inorder (plug ctx' t') = (before ctx ++ inorder a) ++ inorder b ++ after ctx ->
     Q (tptr t', ctx_ptr ctx', c') s') ->
  wp (unlink (Some z)) s Q.
Proof.
  intros HR Hok HQ. unfold unlink. apply wp_bind. eapply wp_load_plug; [done|].
  cbn [nleft nright parent color].
  apply rb_unplug in Hok as Hok'. destruct Hok' as (c0 & n & Hz & Hc).
  pose proof (rb_tcolor _ _ _ Hz) as E. cbn in E. subst c0.
  destruct a as [|la ca ka da a1 a2]; cbn [tptr].
  { apply wp_bind. eapply wp_transplant; [done | by right |]. intros s' HR' _.
    apply wp_ret. eapply HQ; [done|done|by eapply rb_short_r|].
    rewrite inorder_plug. cbn. by rewrite app_nil_r. }
  destruct b as [|lb cb kb db b1 b2]; cbn [tptr].
  { apply wp_bind. rewrite <- (eq_refl : tptr (Node la ca ka da a1 a2) = Some la).
    eapply wp_transplant; [done | by left |]. intros s' HR' _.
    apply wp_ret. eapply HQ; [done|done|by eapply rb_short_l|].
    rewrite inorder_plug. cbn. by rewrite <- !app_assoc. }
  destruct (min_spine s (Fr R z c k d (Node la ca ka da a1 a2) :: ctx) lb cb kb db b1 b2 HR)
    as (sp & y & cy & ky & dy & y2 & Eb & Hsp & Hmin).
  rewrite Eb in *. clear Hz Hc n.
  eapply wp_delete_two; [exact HR | done | |].
  { by rewrite <- Eb. }
  intros s' HR'.
  change (plug ctx (Node z c k d ?t1 (plug sp ?t2)))
    with (plug (Fr R z c k d t1 :: ctx) (plug sp t2)) in Hok.
  rewrite <- plug_app in Hok. apply rb_unplug in Hok as (c0 & n & Hy & Hc).
  pose proof (rb_tcolor _ _ _ Hy) as E. cbn in E. subst c0.
  eapply HQ; [done | by eapply rbctx_rename | by eapply rb_short_r |].
  rewrite plug_app, !inorder_plug. rewrite (before_spine sp) by done. cbn.
  repeat first [rewrite <- app_assoc | progress cbn [app]]. done.
Qed.

Lemma wp_delete s t k (Q : ptr -> rb_state -> Prop) :
  Rep s t -> rb_ok t -> ordered (inorder t) ->
  (~ has_key k (inorder t) -> Q None s) ->
  (forall s' t' z d es1 es2, Rep s' t' -> rb_ok t' ->
     inorder t = es1 ++ (z, k, d) :: es2 -> inorder t' = es1 ++ es2 -> Q (Some z) s') ->
  wp (rb_delete k) s Q.
Proof.
  intros HR Hok Ho HQ1 HQ2. eapply wp_ext; [apply rb_delete_unfold|].
  apply wp_bind. eapply wp_mono; [by eapply wp_search|].
  intros [z|] s' [-> Hp]; [|by apply wp_ret, HQ1].
  destruct Hp as (ctx & c & d & a & b & ->).
  apply wp_bind. eapply wp_unlink; [done|done|].
  intros s1 ctx1 t1 c1 n HR1 Hc1 Hs1 Hes1. apply wp_bind.
  eapply wp_delete_fixup; [done..|]. intros s2 t2 HR2 Hok2 Hes2. apply wp_ret.
  eapply (HQ2 s2 t2 z d (before ctx ++ inorder a) (inorder b ++ after ctx)); [done|done| |].
  - rewrite inorder_plug. cbn. by rewrite <- !app_assoc.
  - by rewrite Hes2, Hes1.
Qed.
