(* ===== verification/BlockTrack.v ===== *)
(** Block tracking of [memlog/ml_main.c]: the [Block] records, the red-black
    tree [tracked_blocks] that indexes them by start address, and the three
    functions that use it. *)
From stdpp Require Import base gmap list fin_maps.
From Stdlib Require Import ZArith Lia.
From S2P Require Import Prelude RbTree.
Open Scope prog_scope.
Open Scope Z_scope.

(** A stack trace recorded by the core, or null. *)
Abbreviation ExeContext := (option positive).

Record Block := mk_block {
  payload : Z;
  req_szB : Z;
  alloc_ec : ExeContext;
  mx : bool
}.

(** The tool's own allocations: tree nodes and [Block] records.  [next_loc]
    is above every address handed out so far. *)
Record bt_state := mk_bt {
  tracked_blocks : rb_state;
  blocks : gmap loc Block;
  next_loc : loc
}.

Definition bt_init : bt_state := mk_bt RB_ROOT ∅ 1%positive.

Definition set_tree (t : rb_state) (s : bt_state) : bt_state :=
  mk_bt t (blocks s) (next_loc s).

Definition on_tree {A} (m : M rb_state A) : M bt_state A :=
  zoom tracked_blocks set_tree m.

(** [VG_(malloc)("memlog.block", sizeof(Block))], then the stores to its fields *)
Definition malloc_block (b : Block) : M bt_state loc := fun s =>
  Some (next_loc s,
        mk_bt (tracked_blocks s) (<[next_loc s := b]> (blocks s)) (Pos.succ (next_loc s))).

(** [VG_(malloc)("memlog.rbnode", sizeof *n)], then [*n = n0] *)
Definition malloc_node (n0 : rb_node_t) : M bt_state loc := fun s =>
  Some (next_loc s,
        mk_bt (mk_rb (<[next_loc s := n0]> (nodes (tracked_blocks s))) (root (tracked_blocks s)))
              (blocks s) (Pos.succ (next_loc s))).

(** [VG_(free)]: freeing what is not allocated is undefined. *)
Definition free_block (l : loc) : M bt_state unit := fun s =>
  match blocks s !! l with
  | Some _ => Some (tt, mk_bt (tracked_blocks s) (delete l (blocks s)) (next_loc s))
  | None => None
  end.

Definition free_node (l : loc) : M bt_state unit := fun s =>
  match nodes (tracked_blocks s) !! l with
  | Some _ =>
      Some (tt, mk_bt (mk_rb (delete l (nodes (tracked_blocks s))) (root (tracked_blocks s)))
                      (blocks s) (next_loc s))
  | None => None
  end.

(** [*bk], for reading *)
Definition load_block (p : ptr) : M bt_state Block := fun s =>
  match p with
  | Some l => match blocks s !! l with Some b => Some (b, s) | None => None end
  | None => None
  end.

(** The descent of [insert_block_rb]: the null link where [pay] belongs and
    the node that holds it, or [None] when [pay] is already a key. *)
Fixpoint insert_descend (fuel : nat) (pay : Z) (link : link_t) (par : ptr)
    : M rb_state (option (link_t * ptr)) :=
  match fuel with
  | O => fail
  | S fuel =>
      p <- load_link link ;;
      match p with
      | None => ret (Some (link, par))
      | Some l =>
          nd <- load p ;;
          if pay <? key nd then insert_descend fuel pay (LLeft l) p
          else if key nd <? pay then insert_descend fuel pay (LRight l) p
          else ret None
      end
  end.

Definition insert_block_rb (bk : loc) : M bt_state unit :=
  b <- load_block (Some bk) ;;
  fuel <- gets (fun s => rb_fuel (tracked_blocks s)) ;;
  r <- on_tree (insert_descend fuel (payload b) LRoot None) ;;
  match r with
  | None => ret tt
  | Some (link, par) =>
      n <- malloc_node (mk_node None None None RED (payload b) (Some bk)) ;;
      on_tree (rb_link_node (Some n) par link) ;;;
      on_tree (rb_insert_color (Some n))
  end.

Definition find_block_containing (addr : Z) : M bt_state ptr :=
  n <- on_tree (rb_search_leq addr) ;;
  match n with
  | None => ret None
  | Some _ =>
      nd <- on_tree (load n) ;;
      b <- load_block (data nd) ;;
      ret (if addr <? u64 (payload b + req_szB b) then data nd else None)
  end.

Definition is_tracked (addr : Z) : M bt_state bool :=
  p <- find_block_containing addr ;;
  ret (match p with Some _ => true | None => false end).

(** What [die_block] and the untrack request do with a block they found: take
    its node out of the tree, free the node and the record. *)
Definition drop_block (bk : loc) : M bt_state unit :=
  b <- load_block (Some bk) ;;
  deleted <- on_tree (rb_delete (payload b)) ;;
  (match deleted with Some n => free_node n | None => ret tt end) ;;;
  free_block bk.

(** [free_rb_tree_recursive]: the recursion goes below a node only while the
    node is allocated; the fuel bounds its depth. *)
Fixpoint free_rb_tree_recursive (fuel : nat) (node : ptr) : M bt_state unit :=
  match fuel with
  | O => fail
  | S fuel =>
      match node with
      | None => ret tt
      | Some l =>
          nd <- on_tree (load node) ;;
          free_rb_tree_recursive fuel (nleft nd) ;;;
          nd <- on_tree (load node) ;;
          free_rb_tree_recursive fuel (nright nd) ;;;
          nd <- on_tree (load node) ;;
          (match data nd with Some bk => free_block bk | None => ret tt end) ;;;
          free_node l
      end
  end.

Definition free_rb_tree : M bt_state unit :=
  fuel <- gets (fun s => rb_fuel (tracked_blocks s)) ;;
  r <- on_tree get_root ;;
  free_rb_tree_recursive fuel r ;;;
  on_tree (set_root None).
