(* ===== verification/BlockIndex.v ===== *)
(** The block index against a finite map from addresses to blocks; the tree
    operations never allocate nor free a node. *)
From stdpp Require Import base gmap list fin_maps sorting.
From Stdlib Require Import ZArith Lia.
From S2P Require Import Prelude RbTree RbInv RbInsert RbSearch RbDelete BlockTrack.
Open Scope prog_scope.
Open Scope Z_scope.

Definition keeps {A} (m : M rb_state A) : Prop :=
  forall s a s', m s = Some (a, s') -> dom (nodes s') = dom (nodes s).

Lemma keeps_ret {A} (a : A) : keeps (ret a).
Proof. by intros s b s' [= <- <-]. Qed.

Lemma keeps_fail {A} : keeps (@fail rb_state A).
Proof. by intros s b s' ?. Qed.

Lemma keeps_bind {A B} (m : M rb_state A) (k : A -> M rb_state B) :
  keeps m -> (forall a, keeps (k a)) -> keeps (bind m k).
Proof.
  unfold bind. intros Hm Hk s b s' H.
  destruct (m s) as [[a s1]|] eqn:E; [|done].
  by rewrite (Hk _ _ _ _ H), (Hm _ _ _ E).
Qed.

Lemma keeps_gets {A} (f : rb_state -> A) : keeps (gets f).
Proof. by intros s b s' [= <- <-]. Qed.

Lemma keeps_set_root p : keeps (set_root p).
Proof. by intros s b s' [= <- <-]. Qed.

Lemma keeps_load p : keeps (load p).
Proof.
  intros s b s'. unfold load. destruct p; [|done].
  destruct (nodes s !! _); [|done]. by intros [= <- <-].
Qed.

Lemma keeps_store p f : keeps (store p f).
Proof.
  intros s b s'. unfold store. destruct p as [l|]; [|done].
  destruct (nodes s !! l) eqn:E; [|done]. intros [= <- <-]. cbn.
  rewrite dom_insert_L. apply elem_of_dom_2 in E. set_solver.
Qed.

Create HintDb keepsdb discriminated.
#[export] Hint Constants Opaque : keepsdb.
#[export] Hint Resolve keeps_ret keeps_fail keeps_gets keeps_set_root keeps_load keeps_store
  : keepsdb.

Lemma keeps_when_ptr p m : keeps m -> keeps (when_ptr p m).
Proof. unfold when_ptr. intros. case_match; eauto with keepsdb. Qed.

Ltac keeps_go :=
  repeat lazymatch goal with
  | |- keeps (bind _ _) => apply keeps_bind; [|intros ?]
  | |- keeps (when_ptr _ _) => apply keeps_when_ptr
  | |- keeps (let '(_, _) := ?r in _) => destruct r
  | |- keeps (match ?x with _ => _ end) => destruct x
  | |- _ => solve [eauto with keepsdb]
  end.

Lemma keeps_is_red p : keeps (is_red p).
Proof. unfold is_red. keeps_go. Qed.

Lemma keeps_null_or_black p : keeps (null_or_black p).
Proof. unfold null_or_black. keeps_go. Qed.

Lemma keeps_get_root : keeps get_root.
Proof. unfold get_root. keeps_go. Qed.
#[export] Hint Resolve keeps_is_red keeps_null_or_black keeps_get_root : keepsdb.

Lemma keeps_rotate_left n : keeps (rb_rotate_left n).
Proof. unfold rb_rotate_left. keeps_go. Qed.

Lemma keeps_rotate_right n : keeps (rb_rotate_right n).
Proof. unfold rb_rotate_right. keeps_go. Qed.
#[export] Hint Resolve keeps_rotate_left keeps_rotate_right : keepsdb.

Lemma keeps_link_node n p k : keeps (rb_link_node n p k).
Proof. unfold rb_link_node, store_link. keeps_go. Qed.

Lemma keeps_load_link k : keeps (load_link k).
Proof. unfold load_link. keeps_go. Qed.

Lemma keeps_insert_color_body n : keeps (rb_insert_color_body n).
Proof. unfold rb_insert_color_body, rb_uncle, rb_grandparent. keeps_go. Qed.
#[export] Hint Resolve keeps_link_node keeps_load_link keeps_insert_color_body : keepsdb.

Lemma keeps_insert_color_loop fuel n : keeps (rb_insert_color_loop fuel n).
Proof. revert n. induction fuel; intros n; cbn; keeps_go. Qed.
#[export] Hint Resolve keeps_insert_color_loop : keepsdb.

Lemma keeps_insert_color n : keeps (rb_insert_color n).
Proof. unfold rb_insert_color. keeps_go. Qed.

Lemma keeps_search_loop fuel k n : keeps (rb_search_loop fuel k n).
Proof. revert n. induction fuel; intros n; cbn; keeps_go. Qed.

Lemma keeps_search k : keeps (rb_search k).
Proof. unfold rb_search. pose proof keeps_search_loop. keeps_go. Qed.

Lemma keeps_min_loop fuel n : keeps (rb_min_loop fuel n).
Proof. revert n. induction fuel; intros n; cbn; keeps_go. Qed.

Lemma keeps_min n : keeps (rb_min n).
Proof. unfold rb_min. pose proof keeps_min_loop. keeps_go. Qed.

Lemma keeps_transplant u v : keeps (rb_transplant u v).
Proof. unfold rb_transplant. keeps_go. Qed.
#[export] Hint Resolve keeps_insert_color keeps_search keeps_min keeps_transplant : keepsdb.

Lemma keeps_fixup_left_tail p w : keeps (rb_delete_fixup_left_tail p w).
Proof. unfold rb_delete_fixup_left_tail. keeps_go. Qed.

Lemma keeps_fixup_right_tail p w : keeps (rb_delete_fixup_right_tail p w).
Proof. unfold rb_delete_fixup_right_tail. keeps_go. Qed.
#[export] Hint Resolve keeps_fixup_left_tail keeps_fixup_right_tail : keepsdb.

Lemma keeps_fixup_left p : keeps (rb_delete_fixup_left p).
Proof. unfold rb_delete_fixup_left. keeps_go. Qed.

Lemma keeps_fixup_right p : keeps (rb_delete_fixup_right p).
Proof. unfold rb_delete_fixup_right. keeps_go. Qed.
#[export] Hint Resolve keeps_fixup_left keeps_fixup_right : keepsdb.

Lemma keeps_delete_fixup_loop fuel x p : keeps (rb_delete_fixup_loop fuel x p).
Proof. revert x p. induction fuel; intros x p; cbn; keeps_go. Qed.
#[export] Hint Resolve keeps_delete_fixup_loop : keepsdb.

Lemma keeps_delete_fixup x p : keeps (rb_delete_fixup x p).
Proof. unfold rb_delete_fixup. keeps_go. Qed.

Lemma keeps_delete_two z : keeps (rb_delete_two z).
Proof. unfold rb_delete_two, rb_take_place. keeps_go. Qed.
#[export] Hint Resolve keeps_delete_fixup keeps_delete_two : keepsdb.

Lemma keeps_delete k : keeps (rb_delete k).
Proof. unfold rb_delete. keeps_go. Qed.

Lemma wp_keeps {A} (m : M rb_state A) s Q :
  keeps m -> wp m s (fun a s' => dom (nodes s') = dom (nodes s) -> Q a s') -> wp m s Q.
Proof.
  unfold wp. intros Hk. specialize (Hk s). destruct (m s) as [[a s']|]; [|done].
  intros HQ. apply HQ. by eapply Hk.
Qed.

(** * The block index refines a finite map from start addresses to blocks:
    insertion keeps the first block at an address, deletion removes one,
    lookup is the predecessor query of the map. *)

Implicit Types (es : list entry) (T : gmap Z Block).

(** Every entry of the tree points to an allocated record of the map with
    the same address, and every key of the map has an entry. *)
Definition indexed (bs : gmap loc Block) es T : Prop :=
  (forall e, e ∈ es -> exists bl b,
     e.2 = Some bl /\ bs !! bl = Some b /\ payload b = ekey e /\ T !! ekey e = Some b) /\
  (forall k, is_Some (T !! k) -> has_key k es).

Definition bt_inv_at (s : bt_state) (t : tree) T : Prop :=
  Rep (tracked_blocks s) t /\ rb_ok t /\ ordered (inorder t) /\
  indexed (blocks s) (inorder t) T /\
  NoDup (map snd (inorder t)) /\
  dom (nodes (tracked_blocks s)) = list_to_set (locs t) /\
  (forall l, is_Some (nodes (tracked_blocks s) !! l) -> (l < next_loc s)%positive) /\
  (forall l, is_Some (blocks s !! l) -> (l < next_loc s)%positive).

(** The state indexes exactly the blocks of [T]; no node is leaked. *)
Definition bt_inv (s : bt_state) T : Prop := exists t, bt_inv_at s t T.

(** The record [bl] is allocated and indexed by no entry. *)
Definition unindexed (s : bt_state) (bl : loc) : Prop :=
  forall t T, bt_inv_at s t T -> Some bl ∉ map snd (inorder t).

Lemma bt_inv_init : bt_inv bt_init ∅.
Proof.
  exists Leaf. split_and!; cbn.
  - split_and!; cbn; [done|done|constructor].
  - exists 0%nat. constructor.
  - constructor.
  - split; [intros e He; set_solver | intros k [b Hb]; set_solver].
  - constructor.
  - set_solver.
  - intros l [n Hn]; set_solver.
  - intros l [b Hb]; set_solver.
Qed.

(** ** The descent of an insertion *)

Lemma wp_load_link s ctx t (Q : ptr -> rb_state -> Prop) :
  Rep s (plug ctx t) -> Q (tptr t) s -> wp (load_link (link_of ctx)) s Q.
Proof.
  intros HR HQ. destruct ctx as [|f ctx]; cbn.
  - apply wp_get_root. by rewrite (Rep_root _ _ HR).
  - pose proof (Rep_parent_frame _ _ _ _ HR) as Hf.
    destruct f as [[] l c k d sb]; cbn in *; (eapply wp_bind, wp_load; [done|]); by apply wp_ret.
Qed.

Lemma wp_insert_descend fuel pay : forall s ctx t,
  Rep s (plug ctx t) -> (length (locs t) < fuel)%nat ->
  (forall e, e ∈ before ctx -> ekey e < pay) -> (forall e, e ∈ after ctx -> pay < ekey e) ->
  ordered (inorder t) ->
  wp (insert_descend fuel pay (link_of ctx) (ctx_ptr ctx)) s (fun r s' => s' = s /\
    match r with
    | Some (link, par) => exists ctx', plug ctx t = plug ctx' Leaf /\
        link = link_of ctx' /\ par = ctx_ptr ctx' /\
        (forall e, e ∈ before ctx' -> ekey e < pay) /\ (forall e, e ∈ after ctx' -> pay < ekey e)
    | None => has_key pay (inorder t)
    end).
Proof.
  induction fuel as [|fuel IH]; intros s ctx t HR Hf Hb Ha Ho; [lia|].
  cbn [insert_descend]. apply wp_bind. eapply wp_load_link; [done|].
  destruct t as [|l c k d a b]; cbn [tptr]; [apply wp_ret; eauto 10|].
  rewrite length_locs_children in Hf. cbn [inorder] in *.
  apply ordered_mid in Ho as (Hl & Hr & Hoa & Hob & _).
  apply wp_bind. eapply wp_load_plug; [done|]. cbn [key].
  destruct (Z.ltb_spec pay k); [|destruct (Z.ltb_spec k pay)].
  - eapply wp_mono; [apply (IH s (Fr L l c k d b :: ctx) a); [done|lia|done| |done]|].
    + cbn. intros e [->|[He|He]%elem_of_app]%elem_of_cons; [done | | auto].
      specialize (Hr _ He). cbn in Hr. lia.
    + intros [[link par]|] s' [-> H1]; split; try done.
      destruct H1 as (e & He & Hk). exists e. set_solver.
  - eapply wp_mono; [apply (IH s (Fr R l c k d a :: ctx) b); [done|lia| |done|done]|].
    + cbn. intros e [He|[He| ->%list_elem_of_singleton]%elem_of_app]%elem_of_app; [auto| |done].
      specialize (Hl _ He). cbn in Hl. lia.
    + intros [[link par]|] s' [-> H1]; split; try done.
      destruct H1 as (e & He & Hk). exists e. set_solver.
  - apply wp_ret. split; [done|]. exists (l, k, d). unfold ekey. cbn. split; [set_solver | lia].
Qed.

(** ** Insertion *)

Lemma wp_on_tree {A} (m : M rb_state A) s (Q : A -> bt_state -> Prop) :
  wp m (tracked_blocks s) (fun a t => Q a (set_tree t s)) -> wp (on_tree m) s Q.
Proof. apply wp_zoom. Qed.

Lemma wp_load_block s l b (Q : Block -> bt_state -> Prop) :
  blocks s !! l = Some b -> Q b s -> wp (load_block (Some l)) s Q.
Proof. intros H HQ. unfold wp, load_block. by rewrite H. Qed.

(** A node added to the heap outside the tree *)
Lemma Rep_alloc h r t l n :
  l ∉ locs t -> Rep (mk_rb h r) t -> Rep (mk_rb (<[l := n]> h) r) t.
Proof. intros Hl (? & ? & ?). split_and!; [done | by apply rep_insert | done]. Qed.

Lemma indexed_insert bs es1 es2 T l bl b :
  indexed bs (es1 ++ es2) T -> bs !! bl = Some b -> T !! payload b = None ->
  indexed bs (es1 ++ (l, payload b, Some bl) :: es2) (<[payload b := b]> T).
Proof.
  intros [H1 H2] Hb HT. split.
  - intros e He. apply elem_of_app in He as [He|[->|He]%elem_of_cons].
    + destruct (H1 e ltac:(set_solver)) as (bl' & b' & ? & ? & ? & HT').
      exists bl', b'. split_and!; [done..|]. rewrite lookup_insert_ne; [done|].
      intros E. rewrite E in HT. by rewrite HT in HT'.
    + exists bl, b. cbn. by rewrite lookup_insert_eq.
    + destruct (H1 e ltac:(set_solver)) as (bl' & b' & ? & ? & ? & HT').
      exists bl', b'. split_and!; [done..|]. rewrite lookup_insert_ne; [done|].
      intros E. rewrite E in HT. by rewrite HT in HT'.
  - intros k Hk. destruct (decide (k = payload b)) as [->|Hne].
    + eexists. split; [apply elem_of_app; right; by left|done].
    + rewrite lookup_insert_ne in Hk by done. destruct (H2 k Hk) as (e & He & Hk').
      exists e. split; [set_solver|done].
Qed.

Lemma indexed_has_key bs es T k : indexed bs es T -> has_key k es <-> is_Some (T !! k).
Proof.
  intros [H1 H2]. split; [|apply H2].
  intros (e & He & <-). destruct (H1 e He) as (? & ? & _ & _ & _ & ?). by eexists.
Qed.

(** [insert_block_rb]: the block enters the map, unless its address is there. *)
Lemma wp_insert_block_rb s t T bl b (Q : unit -> bt_state -> Prop) :
  bt_inv_at s t T -> blocks s !! bl = Some b -> Some bl ∉ map snd (inorder t) ->
  (forall s', bt_inv s' (match T !! payload b with Some _ => T | None => <[payload b := b]> T end) ->
     blocks s' = blocks s -> (next_loc s <= next_loc s')%positive -> Q tt s') ->
  wp (insert_block_rb bl) s Q.
Proof.
  intros (HR & Hok & Ho & Hix & Hnd & Hdom & Hn1 & Hn2) Hbl Hfr HQ.
  unfold insert_block_rb. apply wp_bind. eapply wp_load_block; [done|].
  apply wp_bind, wp_gets, wp_bind, wp_on_tree.
  eapply wp_mono.
  { apply (wp_insert_descend _ (payload b) _ [] t); cbn; [done| |set_solver|set_solver|done].
    by apply Rep_fuel_locs. }
  intros [[link par]|] tb [-> H].
  2: { apply wp_ret. apply HQ; [|done|done]. apply (indexed_has_key _ _ _ _ Hix) in H as [b' ->].
       exists t. split_and!; done. }
  destruct H as (ctx & Et & -> & -> & Hlt & Hgt). cbn in Et. subst t.
  rewrite inorder_plug in *. cbn [inorder app] in *.
  assert (T !! payload b = None) as HT.
  { apply eq_None_not_Some. intros Hs. apply (indexed_has_key _ _ _ _ Hix) in Hs as (e & He & Hk).
    apply elem_of_app in He as [He|He]; [specialize (Hlt _ He) | specialize (Hgt _ He)]; lia. }
  rewrite HT in HQ.
  apply wp_bind. unfold wp at 1, malloc_node. cbn.
  set (n := next_loc s).
  assert (n ∉ locs (plug ctx Leaf)) as Hnl.
  { intros Hin. eapply Rep_in_dom in Hin; [|done]. apply Hn1 in Hin. lia. }
  apply wp_bind, wp_on_tree, wp_keeps; [apply keeps_link_node|].
  eapply (wp_link_node _ ctx n); cbn.
  { apply Rep_alloc; [done|]. by destruct (tracked_blocks s). }
  { done. }
  { by rewrite lookup_insert_eq. }
  intros tb1 HR1 Hd1. apply wp_on_tree, wp_keeps; [apply keeps_insert_color|]. cbn in HR1 |- *.
  eapply wp_insert_color; [exact HR1|done|].
  intros tb2 t2 HR2 Hok2 Hes2 Hd2. apply HQ; cbn; [|done|lia].
  assert (dom (nodes tb2) = {[n]} ∪ list_to_set (locs (plug ctx Leaf))) as Hdom2.
  { rewrite Hd2, Hd1. cbn. by rewrite dom_insert_L, Hdom. }
  exists t2. split_and!; cbn; [done|done| | | | | |].
  - rewrite Hes2. apply ordered_app in Ho as (Hx & Ho1 & Ho2).
    apply ordered_mid_intro; done.
  - rewrite Hes2. by apply indexed_insert.
  - rewrite Hes2, map_app. cbn. rewrite map_app in Hfr, Hnd.
    rewrite <- Permutation_middle. apply NoDup_cons. done.
  - rewrite Hdom2. apply leibniz_equiv. rewrite (locs_inorder t2), Hes2, map_app. cbn.
    rewrite <- Permutation_middle. cbn. rewrite (locs_inorder (plug ctx Leaf)), inorder_plug.
    cbn [inorder app]. by rewrite map_app.
  - intros l Hl%elem_of_dom. rewrite Hdom2 in Hl. apply elem_of_union in Hl as [Hl|Hl].
    + apply elem_of_singleton in Hl as ->. unfold n. lia.
    + rewrite <- Hdom in Hl. apply elem_of_dom in Hl. apply Hn1 in Hl. lia.
  - intros l Hl. apply Hn2 in Hl. lia.
Qed.

(** ** Lookup *)

(** [b] is the block of [T] with the greatest start address up to [addr]. *)
Definition pred_block T (addr : Z) (b : Block) : Prop :=
  T !! payload b = Some b /\ payload b <= addr /\
  (forall k, is_Some (T !! k) -> k <= addr -> k <= payload b).

Definition covers (b : Block) (addr : Z) : Prop := addr < u64 (payload b + req_szB b).

Lemma pred_block_unique T addr b b' : pred_block T addr b -> pred_block T addr b' -> b = b'.
Proof.
  intros (H1 & H2 & H3) (H1' & H2' & H3').
  assert (payload b = payload b') as E.
  { apply Z.le_antisymm; [apply H3' | apply H3]; eauto. }
  rewrite E in H1. congruence.
Qed.

Lemma rep_entry h par t l k d :
  rep h par t -> (l, k, d) ∈ inorder t ->
  exists n, h !! l = Some n /\ key n = k /\ data n = d.
Proof.
  revert par. induction t as [|l' c k' d' a IHa b IHb]; intros par Hr Hin; cbn in *; [set_solver|].
  destruct Hr as (Hn & Ha & Hb).
  apply elem_of_app in Hin as [Hin|[Hin|Hin]%elem_of_cons]; [by eapply IHa| |by eapply IHb].
  simplify_eq. by eexists.
Qed.

Lemma indexed_pred bs es T addr e bl b :
  ordered es -> indexed bs es T -> entry_leq addr es = Some e -> e.2 = Some bl ->
  bs !! bl = Some b -> payload b = ekey e /\ pred_block T addr b.
Proof.
  intros Ho Hix Hl Hd Hb. apply entry_leq_Some in Hl as (He & Hk & Hmax); [|done].
  pose proof Hix as [H1 _]. destruct (H1 e He) as (bl' & b' & Hd' & Hb' & Hp & HT). simplify_eq.
  split; [done|]. rewrite <- Hp in *. split_and!; [done|done|].
  intros k Hk' Hle. apply (indexed_has_key _ _ _ _ Hix) in Hk' as (e' & He' & <-).
  by apply Hmax.
Qed.

Lemma wp_find s t T addr (Q : ptr -> bt_state -> Prop) :
  bt_inv_at s t T ->
  (forall bl b, blocks s !! bl = Some b -> pred_block T addr b -> covers b addr ->
     Some bl ∈ map snd (inorder t) -> Q (Some bl) s) ->
  ((forall b, pred_block T addr b -> ~ covers b addr) -> Q None s) ->
  wp (find_block_containing addr) s Q.
Proof.
  intros (HR & Hok & Ho & Hix & Hrest) HQ1 HQ2.
  assert (set_tree (tracked_blocks s) s = s) as Hs by (by destruct s).
  unfold find_block_containing. apply wp_bind, wp_on_tree.
  eapply wp_mono; [by eapply wp_search_leq|]. intros p tb [-> ->]. rewrite Hs.
  destruct (entry_leq addr (inorder t)) as [[[l k] d]|] eqn:El; cbn.
  - pose proof (entry_leq_Some _ _ _ Ho El) as (He & _ & _).
    destruct (rep_entry _ _ _ _ _ _ (proj1 (proj2 HR)) He) as (n & Hn & <- & <-).
    apply wp_bind, wp_on_tree. eapply wp_load; [done|]. rewrite Hs.
    destruct (proj1 Hix _ He) as (bl & b & Hd & Hb & _). cbn in Hd. rewrite Hd.
    destruct (indexed_pred _ _ _ _ _ _ _ Ho Hix El Hd Hb) as [_ Hp].
    apply wp_bind. eapply wp_load_block; [done|]. apply wp_ret.
    destruct (Z.ltb_spec addr (u64 (payload b + req_szB b))).
    + apply (HQ1 bl b); [done..|]. apply list_elem_of_In, in_map_iff.
      eexists. split; [|by apply list_elem_of_In]. done.
    + apply HQ2. intros b' Hp' Hc. rewrite (pred_block_unique _ _ _ _ Hp Hp') in *.
      unfold covers in Hc. lia.
  - apply wp_ret, HQ2. intros b (HT & Hle & _) _.
    assert (is_Some (T !! payload b)) as Hk by (by eexists).
    apply (indexed_has_key _ _ _ _ Hix) in Hk as (e & He & Hk).
    pose proof (entry_leq_None _ _ El _ He). lia.
Qed.

(** ** Removal *)

Lemma ordered_key_eq es1 es2 e e' :
  ordered (es1 ++ e :: es2) -> e' ∈ es1 ++ e :: es2 -> ekey e' = ekey e -> e' = e.
Proof.
  intros (Hl & Hr & _)%ordered_mid [He|[->|He]%elem_of_cons]%elem_of_app E; [|done|].
  - specialize (Hl _ He). lia.
  - specialize (Hr _ He). lia.
Qed.

Lemma indexed_remove bs es1 es2 T z bl b :
  ordered (es1 ++ (z, payload b, Some bl) :: es2) ->
  NoDup (map snd (es1 ++ (z, payload b, Some bl) :: es2)) ->
  indexed bs (es1 ++ (z, payload b, Some bl) :: es2) T ->
  indexed (delete bl bs) (es1 ++ es2) (delete (payload b) T).
Proof.
  intros Ho Hnd [H1 H2]. split.
  - intros e He. destruct (H1 e ltac:(set_solver)) as (bl' & b' & Hd & Hb & Hp & HT).
    exists bl', b'. split_and!; [done| |done|].
    + rewrite lookup_delete_ne; [done|]. intros ->.
      rewrite map_app in Hnd. cbn in Hnd. rewrite <- Permutation_middle in Hnd.
      apply NoDup_cons in Hnd as [Hn _]. apply Hn. rewrite <- map_app, <- Hd.
      apply list_elem_of_In, in_map. by apply list_elem_of_In.
    + rewrite lookup_delete_ne; [done|]. intros E.
      apply ordered_mid in Ho as (Hl & Hr & _). unfold ekey in Hl at 2, Hr at 1. cbn in Hl, Hr.
      apply elem_of_app in He as [He|He]; [specialize (Hl _ He) | specialize (Hr _ He)]; lia.
  - intros k Hk. destruct (decide (k = payload b)) as [->|Hne].
    { rewrite lookup_delete_eq in Hk. by destruct Hk. }
    rewrite lookup_delete_ne in Hk by done. destruct (H2 k Hk) as (e & He & <-).
    exists e. split; [|done]. apply elem_of_app in He as [He|[->|He]%elem_of_cons]; set_solver.
Qed.

Lemma wp_free_node s l n (Q : unit -> bt_state -> Prop) :
  nodes (tracked_blocks s) !! l = Some n ->
  Q tt (mk_bt (mk_rb (delete l (nodes (tracked_blocks s))) (root (tracked_blocks s)))
          (blocks s) (next_loc s)) ->
  wp (free_node l) s Q.
Proof. intros H HQ. unfold wp, free_node. by rewrite H. Qed.

Lemma wp_free_block s l b (Q : unit -> bt_state -> Prop) :
  blocks s !! l = Some b ->
  Q tt (mk_bt (tracked_blocks s) (delete l (blocks s)) (next_loc s)) -> wp (free_block l) s Q.
Proof. intros H HQ. unfold wp, free_block. by rewrite H. Qed.

Lemma rep_delete_node h par t l :
  l ∉ locs t -> rep h par t -> rep (delete l h) par t.
Proof.
  intros Hl. apply rep_ext. intros l' Hl'. rewrite lookup_delete_ne; [done|]. by intros ->.
Qed.

Lemma wp_drop_block s t T bl b (Q : unit -> bt_state -> Prop) :
  bt_inv_at s t T -> blocks s !! bl = Some b -> Some bl ∈ map snd (inorder t) ->
  (forall s', bt_inv s' (delete (payload b) T) -> blocks s' = delete bl (blocks s) ->
     next_loc s' = next_loc s -> Q tt s') ->
  wp (drop_block bl) s Q.
Proof.
  intros (HR & Hok & Ho & Hix & Hnd & Hdom & Hn1 & Hn2) Hbl Hin HQ.
  assert (exists z, (z, payload b, Some bl) ∈ inorder t) as [z0 Hz0].
  { apply list_elem_of_In, in_map_iff in Hin as ([[z k] d] & Hd & He%list_elem_of_In).
    cbn in Hd. subst d. exists z. destruct (proj1 Hix _ He) as (bl' & b' & ? & ? & ? & _).
    unfold ekey in *. cbn in *. by simplify_eq. }
  unfold drop_block. apply wp_bind. eapply wp_load_block; [done|].
  apply wp_bind, wp_on_tree, wp_keeps; [apply keeps_delete|].
  eapply wp_delete; [done..| |].
  { intros Hno. exfalso. apply Hno. by exists (z0, payload b, Some bl). }
  intros tb t' z d es1 es2 HR' Hok' Hes Hes' Hd. cbn in Hd.
  assert (d = Some bl) as ->.
  { rewrite Hes in Hz0, Ho. pose proof (ordered_key_eq _ _ _ _ Ho Hz0 eq_refl) as E. by simplify_eq. }
  assert (list_to_set (C := gset loc) (locs t) = {[z]} ∪ list_to_set (locs t')) as Hl.
  { apply leibniz_equiv. rewrite !locs_inorder, Hes, Hes', !map_app. cbn.
    by rewrite <- Permutation_middle. }
  assert (z ∉ locs t') as Hzn.
  { destruct HR as (_ & _ & Hnl). rewrite locs_inorder, Hes, map_app in Hnl. cbn in Hnl.
    rewrite <- Permutation_middle in Hnl. apply NoDup_cons in Hnl as [Hn _].
    rewrite locs_inorder, Hes', map_app. done. }
  assert (is_Some (nodes tb !! z)) as [nd Hnz].
  { apply elem_of_dom. rewrite Hd, Hdom, Hl. set_solver. }
  apply wp_bind. eapply wp_free_node; [exact Hnz|]. cbn.
  eapply wp_free_block; [exact Hbl|]. cbn. rewrite Hes in *.
  apply HQ; [|done|done]. exists t'. split_and!; cbn.
  - destruct HR' as (H1 & H2 & H3). split_and!; [done | by apply rep_delete_node | done].
  - done.
  - rewrite Hes'. by eapply ordered_remove.
  - rewrite Hes'. by eapply indexed_remove.
  - rewrite Hes', map_app. rewrite map_app in Hnd. cbn in Hnd.
    rewrite <- Permutation_middle in Hnd. by apply NoDup_cons in Hnd as [_ ?].
  - rewrite dom_delete_L, Hd, Hdom, Hl. clear -Hzn. set_solver.
  - intros l [n Hln]. apply lookup_delete_Some in Hln as [_ Hln]. apply Hn1.
    apply elem_of_dom. rewrite <- Hd. by apply elem_of_dom_2 in Hln.
  - intros l [n Hln]. apply lookup_delete_Some in Hln as [_ Hln]. apply Hn2. by eexists.
Qed.

(** ** Freeing the whole tree *)

Definition datas (t : tree) : list ptr := map snd (inorder t).

(** The part of the tool's heap a subtree owns *)
Definition owned (s : bt_state) (par : ptr) (t : tree) : Prop :=
  rep (nodes (tracked_blocks s)) par t /\ NoDup (locs t) /\ NoDup (datas t) /\
  (forall d, d ∈ datas t -> exists bl, d = Some bl /\ is_Some (blocks s !! bl)).

(** [s'] is [s] without the nodes and records of [t]. *)
Definition freed (s s' : bt_state) (t : tree) : Prop :=
  root (tracked_blocks s') = root (tracked_blocks s) /\ next_loc s' = next_loc s /\
  (forall l, nodes (tracked_blocks s') !! l =
     if decide (l ∈ locs t) then None else nodes (tracked_blocks s) !! l) /\
  (forall l, blocks s' !! l = if decide (Some l ∈ datas t) then None else blocks s !! l).

Lemma freed_app s1 s2 s3 a b t :
  freed s1 s2 a -> freed s2 s3 b ->
  (forall l, l ∈ locs t <-> l ∈ locs a \/ l ∈ locs b) ->
  (forall l, Some l ∈ datas t <-> Some l ∈ datas a \/ Some l ∈ datas b) ->
  freed s1 s3 t.
Proof.
  intros (R1 & N1 & H1 & G1) (R2 & N2 & H2 & G2) Hl Hd. split_and!; [congruence|congruence| |].
  - intros l. rewrite H2, H1. specialize (Hl l). repeat case_decide; tauto.
  - intros l. rewrite G2, G1. specialize (Hd l). repeat case_decide; tauto.
Qed.

Lemma owned_frame s s' a par b :
  freed s s' a -> owned s par b ->
  (forall l, l ∈ locs b -> l ∉ locs a) -> (forall d, d ∈ datas b -> d ∉ datas a) ->
  owned s' par b.
Proof.
  intros (_ & _ & Hn & Hb) (Hr & H1 & H2 & H3) Hl Hd. split_and!; [|done|done|].
  - eapply rep_ext; [|exact Hr]. intros l Hin. rewrite Hn, decide_False by auto. done.
  - intros d Hin. destruct (H3 d Hin) as (bl & -> & Hs). exists bl. split; [done|].
    rewrite Hb, decide_False by auto. done.
Qed.

(** Freeing a node and its record, once its children are gone *)
Lemma wp_free_entry s l bl nd (Q : unit -> bt_state -> Prop) :
  nodes (tracked_blocks s) !! l = Some nd -> data nd = Some bl -> is_Some (blocks s !! bl) ->
  (forall s', freed s s' (Node l BLACK 0 (Some bl) Leaf Leaf) -> Q tt s') ->
  wp (nd <- on_tree (load (Some l)) ;;
      (match data nd with Some bk => free_block bk | None => ret tt end) ;;;
      free_node l) s Q.
Proof.
  intros Hl Hd [b Hb] HQ. assert (set_tree (tracked_blocks s) s = s) as Hs by (by destruct s).
  apply wp_bind, wp_on_tree. eapply wp_load; [done|]. rewrite Hs, Hd.
  apply wp_bind. eapply wp_free_block; [done|]. eapply wp_free_node; [done|]. cbn.
  apply HQ. split_and!; [done|done| |]; intros l'; cbn; rewrite lookup_delete;
    repeat case_decide; subst; set_solver.
Qed.

Lemma datas_node l c k d a b : datas (Node l c k d a b) ≡ₚ d :: datas a ++ datas b.
Proof. unfold datas. cbn. rewrite map_app. cbn. by rewrite <- Permutation_middle. Qed.

Lemma owned_node s par l c k d a b :
  owned s par (Node l c k d a b) ->
  (exists bl, d = Some bl /\ is_Some (blocks s !! bl)) /\
  nodes (tracked_blocks s) !! l = Some (mk_node par (tptr a) (tptr b) c k d) /\
  owned s (Some l) a /\ owned s (Some l) b /\
  (l ∉ locs a /\ l ∉ locs b) /\ (d ∉ datas a /\ d ∉ datas b) /\
  (forall l', l' ∈ locs b -> l' ∉ locs a) /\ (forall d', d' ∈ datas b -> d' ∉ datas a).
Proof.
  intros ((Hl & Ha & Hb) & Hnd & Hdd & Hbk). rewrite datas_node in Hdd.
  assert (forall d', d' ∈ d :: datas a ++ datas b ->
    exists bl, d' = Some bl /\ is_Some (blocks s !! bl)) as Hbk'.
  { intros d' Hd'. apply Hbk. by rewrite datas_node. }
  cbn [locs] in Hnd.
  apply NoDup_cons in Hnd as [Hla [Hna [Hab Hnb]]%NoDup_app].
  apply NoDup_cons in Hdd as [Hd [Hda [Hdab Hdb]]%NoDup_app].
  rewrite not_elem_of_app in Hla. rewrite not_elem_of_app in Hd. unfold owned.
  split_and!; try done; try tauto; intros; try (apply Hbk'; set_solver); set_solver.
Qed.

Lemma wp_free_recursive fuel : forall s par t (Q : unit -> bt_state -> Prop),
  owned s par t -> (length (locs t) < fuel)%nat ->
  (forall s', freed s s' t -> Q tt s') ->
  wp (free_rb_tree_recursive fuel (tptr t)) s Q.
Proof.
  induction fuel as [|fuel IH]; intros s par t Q Hown Hf HQ; [lia|].
  destruct t as [|l c k d a b]; cbn [tptr free_rb_tree_recursive].
  { apply wp_ret, HQ. split_and!; [done|done| |]; intros l; by rewrite decide_False by set_solver. }
  rewrite length_locs_children in Hf.
  apply owned_node in Hown as ((bl & -> & Hbl) & Hl & Ha & Hb & (Hla & Hlb) & (Hda & Hdb) & Hlab & Hdab).
  assert (forall s0, set_tree (tracked_blocks s0) s0 = s0) as Hs by (by intros []).
  apply wp_bind, wp_on_tree. eapply wp_load; [done|]. rewrite Hs. cbn [nleft].
  apply wp_bind. eapply IH; [exact Ha|lia|]. intros s1 F1.
  pose proof F1 as (R1 & N1 & Hn1 & Hb1).
  apply wp_bind, wp_on_tree. eapply wp_load; [by rewrite Hn1, decide_False|]. rewrite Hs. cbn [nright].
  apply wp_bind. eapply IH; [by eapply owned_frame|lia|]. intros s2 F2.
  pose proof F2 as (R2 & N2 & Hn2 & Hb2).
  eapply (wp_free_entry _ _ bl); [by rewrite Hn2, decide_False, Hn1, decide_False | done | |].
  { rewrite Hb2, decide_False, Hb1, decide_False by done. done. }
  intros s3 (R3 & N3 & Hn3 & Hb3). apply HQ. split_and!; [congruence|congruence| |]; intros l'.
  - rewrite Hn3, Hn2, Hn1. cbn. repeat case_decide; set_solver.
  - rewrite Hb3, Hb2, Hb1. pose proof (datas_node l c k (Some bl) a b) as Ed.
    assert (Some l' ∈ datas (Node l c k (Some bl) a b) <->
      l' = bl \/ Some l' ∈ datas a \/ Some l' ∈ datas b) as E.
    { rewrite Ed, elem_of_cons, elem_of_app. split; intros [H|H]; auto; left; congruence. }
    cbn. repeat case_decide; try tauto; set_solver.
Qed.

(** [free_rb_tree] frees every node, and every record in the tree. *)
Lemma wp_free_rb_tree s t T (Q : unit -> bt_state -> Prop) :
  bt_inv_at s t T ->
  (forall s', bt_inv s' ∅ -> nodes (tracked_blocks s') = ∅ ->
     (forall l, blocks s' !! l = if decide (Some l ∈ datas t) then None else blocks s !! l) ->
     Q tt s') ->
  wp free_rb_tree s Q.
Proof.
  intros (HR & Hok & Ho & Hix & Hnd & Hdom & Hn1 & Hn2) HQ.
  unfold free_rb_tree. apply wp_bind, wp_gets, wp_bind, wp_on_tree, wp_get_root.
  assert (set_tree (tracked_blocks s) s = s) as -> by (by destruct s).
  rewrite (Rep_root _ _ HR). apply wp_bind. eapply (wp_free_recursive _ _ None).
  { destruct HR as (_ & Hr & Hl). split_and!; [done|done|done|].
    intros d Hd. unfold datas in Hd. apply list_elem_of_In, in_map_iff in Hd as (e & <- & He).
    destruct (proj1 Hix e) as (bl & b & ? & ? & _); [by apply list_elem_of_In|]. eauto. }
  { by apply Rep_fuel_locs. }
  intros s' (Hr' & Hn' & Hns & Hbs). apply wp_on_tree, wp_modify. cbn.
  assert (nodes (tracked_blocks s') = ∅) as He.
  { apply map_eq. intros l. rewrite Hns, lookup_empty. case_decide as Hl; [done|].
    apply not_elem_of_dom. rewrite Hdom. set_solver. }
  apply HQ; [|done|done].
  exists Leaf. split_and!; cbn.
  - split_and!; [done|done|constructor].
  - exists 0%nat. constructor.
  - constructor.
  - split; [set_solver|]. intros k [b Hb]. set_solver.
  - constructor.
  - rewrite He. set_solver.
  - rewrite He. intros l [n Hl]. set_solver.
  - intros l [b Hb]. rewrite Hn'. apply Hn2. rewrite Hbs in Hb. case_decide; [done|]. by eexists.
Qed.
