(* ===== verification/Printf.v ===== *)
(** The printf engine of [coregrind/m_debuglog.c]: the conversions
    [myvprintf_str], [myvprintf_str_XML_simplistic] and [myvprintf_int64],
    and the format interpreter [VG_(debugLog_vprintf)] on top of them.
    A computation returns the [UInt] the C function returns and the
    characters it passed to [send], in order. *)
From stdpp Require Import base list strings.
From Stdlib Require Import ZArith Lia Ascii String.
From S2P Require Import Prelude.
Open Scope Z_scope.

Abbreviation chars := (list ascii).

Definition str (s : string) : chars := list_ascii_of_string s.

Definition code (c : ascii) : Z := Z.of_N (N_of_ascii c).
Definition chr (n : Z) : ascii := ascii_of_N (Z.to_N (n mod 256)).
Definition ascii_eqb (c d : ascii) : bool := bool_decide (c = d).

(** ** Small functions *)

Definition local_strlen (s : chars) : Z := Z.of_nat (List.length s).

Definition local_toupper (c : ascii) : ascii :=
  if (code "a" <=? code c) && (code c <=? code "z")
  then chr (code c + (code "A" - code "a")) else c.

(** ** Flags *)

Definition VG_MSG_SIGNED : Z := 1.
Definition VG_MSG_ZJUSTIFY : Z := 2.
Definition VG_MSG_LJUSTIFY : Z := 4.
Definition VG_MSG_PAREN : Z := 8.
Definition VG_MSG_COMMA : Z := 16.
Definition VG_MSG_ALTFORMAT : Z := 32.

(** [flags & f], as a condition *)
Definition has (flags f : Z) : bool := negb (Z.land flags f =? 0).

Definition u32 (x : Z) : Z := x mod 2 ^ 32.

(** ** Strings *)

Definition pad (n : Z) : chars := replicate (Z.to_nat n) " "%char.

Definition myvprintf_str (flags width : Z) (s : chars) (capitalise : bool) : Z * chars :=
  let up := fun l => if capitalise then map local_toupper l else l in
  let len := local_strlen s in
  if width =? 0 then (u32 len, up s)
  else if width <? len then (u32 width, up (take (Z.to_nat width) s))
  else
    let extra := width - len in
    if negb (has flags VG_MSG_LJUSTIFY)
    then (u32 (extra + len), pad extra ++ up s)
    else (u32 (len + extra), up s ++ pad extra).

Fixpoint myvprintf_str_XML_simplistic (s : chars) : Z * chars :=
  match s with
  | [] => (0, [])
  | c :: s =>
      let '(ret, out) := myvprintf_str_XML_simplistic s in
      let alt :=
        if ascii_eqb c "&" then Some (str "&amp;")
        else if ascii_eqb c "<" then Some (str "&lt;")
        else if ascii_eqb c ">" then Some (str "&gt;")
        else None in
      match alt with
      | Some alt => (u32 (local_strlen alt + ret), alt ++ out)
      | None => (u32 (1 + ret), c :: out)
      end
  end.

(** ** Integers *)

Definition digits (capitalised : bool) : chars :=
  if capitalised then str "0123456789ABCDEF" else str "0123456789abcdef".

Definition digit (capitalised : bool) (d : Z) : ascii :=
  nth (Z.to_nat d) (digits capitalised) "000"%char.

(** The loop that fills [buf], least significant digit first; [buf] holds
    [buf[ind-1]], ..., [buf[0]], the order in which it is copied out. *)
Fixpoint int64_digits (fuel : nat) (comma capitalised : bool) (base p ind nc : Z)
    (buf : chars) : chars * Z :=
  match fuel with
  | O => (buf, ind)
  | S fuel =>
      if 0 <? p then
        let '(buf, ind, nc) :=
          if comma && (10 =? base) && (0 =? Z.rem (ind - nc) 3) && negb (0 =? ind)
          then (","%char :: buf, ind + 1, nc + 1) else (buf, ind, nc) in
        int64_digits fuel comma capitalised base (p / base) (ind + 1) nc
          (digit capitalised (p mod base) :: buf)
      else (buf, ind)
  end.

(** Sixty-four passes: the quotient of a 64-bit value by a base of at least
    two is zero by then. *)
Definition int64_fuel : nat := 65.

Definition myvprintf_int64 (flags base width : Z) (capitalised : bool) (p : Z) : Z * chars :=
  if (base <? 2) || (16 <? base) then (0, []) else
  let neg := has flags VG_MSG_SIGNED && (2 ^ 63 <=? p) in
  let p := if neg then u64 (- p) else p in
  let '(buf, ind) :=
    if p =? 0 then (["0"%char], 1)
    else int64_digits int64_fuel (has flags VG_MSG_COMMA) capitalised base p 0 0 [] in
  let '(buf, ind) := if neg then ("-"%char :: buf, ind + 1) else (buf, ind) in
  let '(buf, ind) :=
    if (0 <? width) && negb (has flags VG_MSG_LJUSTIFY) && (ind <? width)
    then (replicate (Z.to_nat (width - ind))
            (if has flags VG_MSG_ZJUSTIFY then "0"%char else " "%char) ++ buf, width)
    else (buf, ind) in
  if (0 <? width) && has flags VG_MSG_LJUSTIFY && (ind <? width)
  then (u32 (ind + (width - ind)), buf ++ pad (width - ind))
  else (u32 ind, buf).

(** ** The format interpreter *)

(** An argument of a [va_list]: an integer or pointer in its 64-bit slot, a
    string pointer (null, or a string), or a [double]. *)
Inductive vararg := VWord (w : Z) | VStr (s : option chars) | VDouble.

Definition va_word (args : list vararg) : option (Z * list vararg) :=
  match args with VWord w :: args => Some (u64 w, args) | _ => None end.

Definition va_str (args : list vararg) : option (option chars * list vararg) :=
  match args with VStr s :: args => Some (s, args) | _ => None end.

(** An [Int] argument as a signed number; [(ULong)(Int)] and [(ULong)(UInt)]
    of a 64-bit slot *)
Definition as_int (w : Z) : Z :=
  let v := w mod 2 ^ 32 in if v <? 2 ^ 31 then v else v - 2 ^ 32.
Definition sext32 (w : Z) : Z := u64 (as_int w).
Definition zext32 (w : Z) : Z := w mod 2 ^ 32.

(** The flag characters after [%] *)
Fixpoint parse_flags (f : chars) (flags : Z) : Z * chars :=
  match f with
  | c :: f' =>
      if ascii_eqb c "(" then parse_flags f' (Z.lor flags VG_MSG_PAREN)
      else if ascii_eqb c "," || ascii_eqb c "'" then parse_flags f' (Z.lor flags VG_MSG_COMMA)
      else if ascii_eqb c "-" then parse_flags f' (Z.lor flags VG_MSG_LJUSTIFY)
      else if ascii_eqb c "0" then parse_flags f' (Z.lor flags VG_MSG_ZJUSTIFY)
      else if ascii_eqb c "#" then parse_flags f' (Z.lor flags VG_MSG_ALTFORMAT)
      else (flags, f)
  | [] => (flags, f)
  end.

Definition is_digit (c : ascii) : bool := (code "0" <=? code c) && (code c <=? code "9").

Fixpoint parse_num (f : chars) (n : Z) : Z * chars :=
  match f with
  | c :: f' => if is_digit c then parse_num f' (n * 10 + (code c - code "0")) else (n, f)
  | [] => (n, f)
  end.

Definition starts (c : ascii) (f : chars) : bool :=
  match f with d :: _ => ascii_eqb d c | [] => false end.

(** The field width: [*] takes it from the arguments, as an [Int]. *)
Definition parse_width (f : chars) (args : list vararg) : option (Z * chars * list vararg) :=
  if starts "*" f then
    '(w, args) ← va_word args;
    Some (as_int w, tail f, args)
  else let '(w, f') := parse_num f 0 in Some (w, f', args).

Definition parse_precision (f : chars) (args : list vararg) : option (Z * chars * list vararg) :=
  if starts "." f then
    let f := tail f in
    if starts "*" f then
      '(w, args) ← va_word args;
      Some (as_int w, tail f, args)
    else let '(p, f') := parse_num f 0 in Some (p, f', args)
  else Some (-1, f, args).

(** [z], or any number of [l] *)
Fixpoint parse_ls (f : chars) (n : Z) : Z * chars :=
  match f with
  | c :: f' => if ascii_eqb c "l" then parse_ls f' (n + 1) else (n, f)
  | [] => (n, f)
  end.

Definition parse_size (f : chars) : bool * Z * chars :=
  if starts "z" f then (true, 0, tail f)
  else let '(n, f') := parse_ls f 0 in (false, n, f').

(** The conversions the [switch] selects: [%o], [%d], [%u], [%pS], [%ps],
    [%p], [%x] or [%X], [%c], [%s] or [%S], [%f], and the [default] case. *)
Inductive conv :=
| Conv_o | Conv_d | Conv_u | Conv_pS | Conv_ps | Conv_p
| Conv_x (caps : bool) | Conv_c | Conv_s (caps : bool) | Conv_f | Conv_default.

(** The conversion at the head of the rest of the format, and what follows
    it; [None] at the end of the format, where the C loop steps over the
    terminating null and reads on. *)
Definition select (f : chars) : option (conv * chars) :=
  match f with
  | [] => None
  | c :: f =>
      Some (
        if ascii_eqb c "o" then (Conv_o, f)
        else if ascii_eqb c "d" then (Conv_d, f)
        else if ascii_eqb c "u" then (Conv_u, f)
        else if ascii_eqb c "p" then
          match f with
          | c' :: f' =>
              if ascii_eqb c' "S" then (Conv_pS, f')
              else if ascii_eqb c' "s" then (Conv_ps, f')
              else (Conv_p, f)
          | [] => (Conv_p, f)
          end
        else if ascii_eqb c "x" then (Conv_x false, f)
        else if ascii_eqb c "X" then (Conv_x true, f)
        else if ascii_eqb c "c" then (Conv_c, f)
        else if ascii_eqb c "s" then (Conv_s false, f)
        else if ascii_eqb c "S" then (Conv_s true, f)
        else if ascii_eqb c "f" then (Conv_f, f)
        else (Conv_default, f))
  end.

(** [ret += pre], [pre] characters being announced and [pres] sent, then the
    result [r] of a conversion function *)
Definition prefixed (pre : Z) (pres : chars) (r : Z * chars) (args : list vararg)
    : option (Z * chars * list vararg) :=
  Some (u32 (pre + r.1), pres ++ r.2, args).

(** One conversion: the value returned, the characters sent, the rest of the
    arguments.  [None]: an argument is missing or of the wrong type; or the
    conversion is [%f], whose floating-point arithmetic is not modelled. *)
Definition convert (clo_xml : bool) (flags width : Z) (is_sizet is_long : bool)
    (k : conv) (args : list vararg) : option (Z * chars * list vararg) :=
  match k with
  | Conv_o =>
      '(w, args) ← va_word args;
      let w := if is_sizet then w else if is_long then w else zext32 w in
      let r := myvprintf_int64 flags 8 width false w in
      if has flags VG_MSG_ALTFORMAT then prefixed 2 ["0"%char] r args
      else prefixed 0 [] r args
  | Conv_d =>
      '(w, args) ← va_word args;
      prefixed 0 [] (myvprintf_int64 (Z.lor flags VG_MSG_SIGNED) 10 width false
                       (if is_long then w else sext32 w)) args
  | Conv_u =>
      '(w, args) ← va_word args;
      prefixed 0 [] (myvprintf_int64 flags 10 width false
                       (if is_sizet then w else if is_long then w else zext32 w)) args
  | Conv_pS =>
      '(s, args) ← va_str args;
      prefixed 0 [] (myvprintf_str_XML_simplistic (default (str "(null)") s)) args
  | Conv_ps =>
      '(s, args) ← va_str args;
      let s := default (str "(null)") s in
      prefixed 0 [] (if clo_xml then myvprintf_str_XML_simplistic s
                     else myvprintf_str flags width s false) args
  | Conv_p =>
      '(w, args) ← va_word args;
      prefixed 2 (str "0x") (myvprintf_int64 flags 16 width true w) args
  | Conv_x caps =>
      '(w, args) ← va_word args;
      let r := if is_sizet then myvprintf_int64 flags 16 width false w
               else myvprintf_int64 flags 16 width caps (if is_long then w else zext32 w) in
      if has flags VG_MSG_ALTFORMAT then prefixed 2 (str "0x") r args
      else prefixed 0 [] r args
  | Conv_c =>
      '(w, args) ← va_word args;
      prefixed 0 [] (1, [chr w]) args
  | Conv_s caps =>
      '(s, args) ← va_str args;
      prefixed 0 [] (myvprintf_str flags width (default (str "(null)") s) caps) args
  | Conv_f => None
  | Conv_default => prefixed 0 [] (0, []) args
  end.

(** Each pass consumes a character of the format, so the length of the
    format is enough fuel. *)
Fixpoint vprintf_loop (fuel : nat) (clo_xml : bool) (f : chars) (args : list vararg)
    : option (Z * chars) :=
  match fuel with
  | O => None
  | S fuel =>
      match f with
      | [] => Some (0, [])
      | c :: f =>
          if negb (ascii_eqb c "%") then
            '(r, out) ← vprintf_loop fuel clo_xml f args;
            Some (u32 (1 + r), c :: out)
          else
            match f with
            | [] => Some (0, [])
            | c' :: f' =>
              if ascii_eqb c' "%" then
                '(r, out) ← vprintf_loop fuel clo_xml f' args;
                Some (u32 (1 + r), "%"%char :: out)
              else
                let '(flags, f) := parse_flags f 0 in
                '(width, f, args) ← parse_width f args;
                '(_, f, args) ← parse_precision f args;
                let '(is_sizet, n_ls, f) := parse_size f in
                let is_long := negb (n_ls =? 0) in
                '(k, f) ← select f;
                '(r1, out1, args) ← convert clo_xml flags width is_sizet is_long k args;
                '(r2, out2) ← vprintf_loop fuel clo_xml f args;
                Some (u32 (r1 + r2), out1 ++ out2)
            end
      end
  end.

Definition debugLog_vprintf (clo_xml : bool) (format : chars) (args : list vararg)
    : option (Z * chars) :=
  vprintf_loop (S (List.length format)) clo_xml format args.
