(* ===== verification/PrintfProofs.v ===== *)
(** Lemmas on the printf engine: the digits it prints denote the number it
    was given, and the count it returns is the number of characters sent. *)
From stdpp Require Import base list strings sets gmap.
From Stdlib Require Import ZArith Lia Ascii String.
From S2P Require Import Prelude Printf.
Open Scope Z_scope.

(** ** Reading digits back *)

(** The value of a digit character, [None] for any other character *)
Definition digit_value (c : ascii) : option Z :=
  if is_digit c then Some (code c - code "0")
  else if (code "a" <=? code c) && (code c <=? code "f") then Some (code c - code "a" + 10)
  else if (code "A" <=? code c) && (code c <=? code "F") then Some (code c - code "A" + 10)
  else None.

(** A number read from its digits, most significant first, onto [acc] *)
Fixpoint read_digits (base : Z) (s : chars) (acc : Z) : option Z :=
  match s with
  | [] => Some acc
  | c :: s =>
      match digit_value c with
      | Some d => if d <? base then read_digits base s (acc * base + d) else None
      | None => None
      end
  end.

Definition read_number (base : Z) (s : chars) : option Z :=
  match s with [] => None | _ => read_digits base s 0 end.

Lemma read_digits_app base s1 s2 acc :
  read_digits base (s1 ++ s2) acc =
  match read_digits base s1 acc with Some a => read_digits base s2 a | None => None end.
Proof.
  revert acc. induction s1 as [|c s1 IH]; intros acc; cbn; [done|].
  destruct (digit_value c) as [d|]; [|done]. by destruct (d <? base).
Qed.

Lemma digit_value_digit caps d : 0 <= d < 16 -> digit_value (digit caps d) = Some d.
Proof.
  intros Hd. assert (exists n, (n < 16)%nat /\ d = Z.of_nat n) as (n & Hn & ->).
  { exists (Z.to_nat d). lia. }
  destruct caps; do 16 (destruct n as [|n]; [reflexivity|]); lia.
Qed.

(** ** The digit loop *)

Lemma div_lt_pow2 p base n :
  2 <= base -> 0 <= p < 2 ^ Z.of_nat (S n) -> 0 <= p / base < 2 ^ Z.of_nat n.
Proof.
  intros Hb [H0 H1]. rewrite Nat2Z.inj_succ, Z.pow_succ_r in H1 by lia.
  split; [apply Z.div_pos; lia|]. apply Z.div_lt_upper_bound; nia.
Qed.

Lemma int64_digits_step fuel caps base p ind nc buf :
  0 < p ->
  int64_digits (S fuel) false caps base p ind nc buf =
  int64_digits fuel false caps base (p / base) (ind + 1) nc (digit caps (p mod base) :: buf).
Proof. intros H. cbn [int64_digits andb]. by rewrite (proj2 (Z.ltb_lt _ _) H). Qed.

Lemma int64_digits_zero fuel caps base ind nc buf :
  int64_digits fuel false caps base 0 ind nc buf = (buf, ind).
Proof. by destruct fuel. Qed.

(** Without commas the loop prepends the digits of [p]. *)
Lemma int64_digits_spec caps base n : forall p ind nc buf,
  2 <= base <= 16 -> 0 <= p < 2 ^ Z.of_nat n ->
  exists ds, int64_digits (S n) false caps base p ind nc buf =
      (ds ++ buf, ind + Z.of_nat (List.length ds)) /\
    read_digits base ds 0 = Some p /\ (p = 0 -> ds = []) /\
    (0 < p -> exists d ds', ds = digit caps d :: ds' /\ 0 < d < base).
Proof.
  induction n as [|n IH]; intros p ind nc buf Hb Hp.
  { assert (p = 0) as -> by (cbn in Hp; lia). exists []. rewrite int64_digits_zero.
    cbn. rewrite Z.add_0_r. split_and!; done || lia. }
  destruct (Z.ltb_spec 0 p) as [Hpos|].
  2: { assert (p = 0) as -> by lia. exists []. rewrite int64_digits_zero.
       cbn. rewrite Z.add_0_r. split_and!; done || lia. }
  rewrite int64_digits_step by done.
  destruct (IH (p / base) (ind + 1) nc (digit caps (p mod base) :: buf) Hb
              (div_lt_pow2 _ _ _ (proj1 Hb) Hp)) as (ds & E & Hr & Hz & Hlead).
  pose proof (Z.mod_pos_bound p base ltac:(lia)) as Hm.
  pose proof (Z.div_mod p base ltac:(lia)) as Hdm.
  exists (ds ++ [digit caps (p mod base)]). split_and!; [|  | lia |].
  - rewrite E, <- app_assoc, length_app. cbn. f_equal. lia.
  - rewrite read_digits_app, Hr. cbn. rewrite digit_value_digit by lia.
    rewrite (proj2 (Z.ltb_lt _ _)) by lia. f_equal. lia.
  - intros _. destruct (decide (p / base = 0)) as [Hq|Hq].
    + rewrite (Hz Hq). exists (p mod base), []. split; [done|]. lia.
    + destruct Hlead as (d & ds' & -> & Hd); [pose proof (Z.div_pos p base); lia|].
      by exists d, (ds' ++ [digit caps (p mod base)]).
Qed.

Lemma digits_fuel_ok p : 0 <= p < 2 ^ 64 -> 0 <= p < 2 ^ Z.of_nat 64.
Proof. done. Qed.

(** [%lx], [%lu], [%o] and the like, without width: the digits read back as
    the number, and there is no leading zero. *)
Lemma int64_plain flags base caps p :
  2 <= base <= 16 -> 0 <= p < 2 ^ 64 ->
  has flags VG_MSG_SIGNED = false -> has flags VG_MSG_COMMA = false ->
  exists out, myvprintf_int64 flags base 0 caps p = (u32 (Z.of_nat (List.length out)), out) /\
    read_number base out = Some p /\ out <> [] /\
    (0 < p -> exists d out', out = digit caps d :: out' /\ 0 < d < base).
Proof.
  intros Hb Hp Hs Hc. unfold myvprintf_int64. rewrite Hs, Hc.
  rewrite (proj2 (Z.ltb_ge base 2)), (proj2 (Z.ltb_ge 16 base)) by lia. cbn [orb andb].
  destruct (Z.eqb_spec p 0) as [->|Hne].
  - cbn. exists ["0"%char]. split_and!; [done| |done|lia].
    unfold read_number, read_digits. change (digit_value "0") with (Some 0).
    cbn iota beta. by rewrite (proj2 (Z.ltb_lt 0 base)) by lia.
  - destruct (int64_digits_spec caps base 64 p 0 0 [] Hb (digits_fuel_ok _ Hp))
      as (ds & E & Hr & _ & Hlead).
    change int64_fuel with 65%nat. rewrite E, app_nil_r, Z.add_0_l. cbn [Z.ltb Z.compare andb].
    destruct Hlead as (d & ds' & -> & Hd); [lia|].
    exists (digit caps d :: ds'). split_and!; [done|done|done|eauto].
Qed.

(** ** Counting what is sent *)

Definition counted (r : Z * chars) : Prop := r.1 = u32 (Z.of_nat (List.length r.2)).

Lemma u32_add_l a b : u32 (u32 a + b) = u32 (a + b).
Proof. apply Zplus_mod_idemp_l. Qed.

Lemma u32_add_r a b : u32 (a + u32 b) = u32 (a + b).
Proof. apply Zplus_mod_idemp_r. Qed.

Lemma length_pad n : Z.of_nat (List.length (pad n)) = Z.max 0 n.
Proof. unfold pad. rewrite length_replicate. lia. Qed.

Lemma counted_str flags width s caps :
  0 <= width -> counted (myvprintf_str flags width s caps).
Proof.
  intros Hw. unfold myvprintf_str, counted, local_strlen.
  repeat case_match; subst; cbn [fst snd];
    rewrite ?length_app, ?length_map, ?length_take, ?Nat2Z.inj_add, ?length_pad;
    f_equal; lia.
Qed.

Lemma counted_xml s : counted (myvprintf_str_XML_simplistic s).
Proof.
  unfold counted. induction s as [|c s IH]; [done|]. cbn [myvprintf_str_XML_simplistic].
  destruct (myvprintf_str_XML_simplistic s) as [ret out]. cbn [fst snd] in IH. subst ret.
  repeat case_match; cbn [fst snd]; rewrite u32_add_r; unfold local_strlen;
    simplify_eq; rewrite ?length_app; cbn [List.length]; f_equal; lia.
Qed.

Lemma int64_digits_len fuel comma caps base : forall p ind nc buf,
  ind = Z.of_nat (List.length buf) ->
  let r := int64_digits fuel comma caps base p ind nc buf in
  r.2 = Z.of_nat (List.length r.1).
Proof.
  induction fuel as [|fuel IH]; intros p ind nc buf ->; [done|]. cbn [int64_digits].
  destruct (0 <? p); [|done]. destruct (_ && _); apply IH; cbn; lia.
Qed.

Lemma counted_int64 flags base width caps p :
  counted (myvprintf_int64 flags base width caps p).
Proof.
  unfold myvprintf_int64. destruct (_ || _); [done|].
  match goal with |- context [if ?c then u64 (- p) else p] => set (neg := c) end.
  set (p' := if neg then u64 (- p) else p).
  match goal with |- context [if p' =? 0 then ?a else ?b] => set (X := if p' =? 0 then a else b) end.
  assert (X.2 = Z.of_nat (List.length X.1)) as H.
  { subst X. destruct (p' =? 0); [done|]. by apply int64_digits_len. }
  clearbody X. destruct X as [buf0 ind0]. cbn [fst snd] in H.
  assert (exists buf' ind',
    (if neg then ("-"%char :: buf0, ind0 + 1) else (buf0, ind0)) = (buf', ind') /\
    ind' = Z.of_nat (List.length buf')) as (buf' & ind' & -> & H').
  { destruct neg; eexists _, _; split; try done. cbn. lia. }
  unfold counted.
  destruct (Z.ltb_spec 0 width); cbn [andb]; [|by subst].
  destruct (has flags VG_MSG_LJUSTIFY); cbn [negb andb];
    destruct (Z.ltb_spec ind' width); cbn [fst snd]; try (by subst).
  - rewrite length_app, Nat2Z.inj_add, length_pad. f_equal. lia.
  - rewrite length_app, length_replicate. f_equal. lia.
Qed.

(** ** The whole format interpreter *)

Lemma parse_flags_rest f : forall flags flags' f',
  parse_flags f flags = (flags', f') ->
  f' ⊆ f /\ ("#"%char ∉ f -> has flags' VG_MSG_ALTFORMAT = has flags VG_MSG_ALTFORMAT).
Proof.
  assert (forall flags g, Z.land g VG_MSG_ALTFORMAT = 0 ->
    has (Z.lor flags g) VG_MSG_ALTFORMAT = has flags VG_MSG_ALTFORMAT) as Hlor.
  { intros flags g Hg. unfold has. rewrite Z.land_lor_distr_l, Hg, Z.lor_0_r. done. }
  induction f as [|c f IH]; intros flags flags' f' H; cbn in H; [by simplify_eq|].
  assert (forall g, parse_flags f (Z.lor flags g) = (flags', f') ->
    f' ⊆ c :: f /\ (Z.land g VG_MSG_ALTFORMAT = 0 -> "#"%char ∉ c :: f ->
      has flags' VG_MSG_ALTFORMAT = has flags VG_MSG_ALTFORMAT)) as Hrec.
  { intros g Hg. apply IH in Hg as [Hsub Hha]. split; [set_solver|].
    intros Hz Hn. rewrite Hha by set_solver. by apply Hlor. }
  destruct (ascii_eqb c "("); [apply Hrec in H as [? ?]; auto|].
  destruct (_ || _); [apply Hrec in H as [? ?]; auto|].
  destruct (ascii_eqb c "-"); [apply Hrec in H as [? ?]; auto|].
  destruct (ascii_eqb c "0"); [apply Hrec in H as [? ?]; auto|].
  destruct (ascii_eqb c "#") eqn:E; [|by simplify_eq].
  apply bool_decide_eq_true in E as ->. apply Hrec in H as [? _]. split; [done|].
  intros Hn. set_solver.
Qed.

Lemma parse_num_rest f : forall n n' f', parse_num f n = (n', f') -> f' ⊆ f /\ (0 <= n -> 0 <= n').
Proof.
  induction f as [|c f IH]; intros n n' f' H; cbn in H; [by simplify_eq|].
  destruct (is_digit c) eqn:Hd.
  - apply IH in H as [H1 H2]. split; [set_solver|]. intros Hn. apply H2.
    unfold is_digit in Hd. lia.
  - by simplify_eq.
Qed.

Lemma starts_tail c f : starts c f = true -> f = c :: tail f.
Proof. destruct f as [|d f]; cbn; [done|]. by intros ->%bool_decide_eq_true. Qed.

Lemma parse_width_rest f args w f' args' :
  parse_width f args = Some (w, f', args') -> "*"%char ∉ f -> f' ⊆ f /\ 0 <= w.
Proof.
  unfold parse_width. intros H Hn. destruct (starts "*" f) eqn:Es.
  { apply starts_tail in Es. rewrite Es in Hn. set_solver. }
  destruct (parse_num f 0) as [w0 f0] eqn:Ep. simplify_eq.
  apply parse_num_rest in Ep as [? Hw]. auto with lia.
Qed.

Lemma parse_precision_rest f args w f' args' :
  parse_precision f args = Some (w, f', args') -> "*"%char ∉ f -> f' ⊆ f.
Proof.
  unfold parse_precision. intros H Hn. destruct (starts "." f) eqn:Es; [|by simplify_eq].
  apply starts_tail in Es. destruct (starts "*" (tail f)) eqn:Es2.
  { apply starts_tail in Es2. rewrite Es, Es2 in Hn. set_solver. }
  destruct (parse_num (tail f) 0) as [w0 f0] eqn:Ep. simplify_eq.
  apply parse_num_rest in Ep as [? _]. rewrite Es. set_solver.
Qed.

Lemma parse_ls_rest f : forall n n' f', parse_ls f n = (n', f') -> f' ⊆ f.
Proof.
  induction f as [|c f IH]; intros n n' f' H; cbn in H; [by simplify_eq|].
  destruct (ascii_eqb c "l"); [apply IH in H; set_solver | by simplify_eq].
Qed.

Lemma parse_size_rest f b n f' : parse_size f = (b, n, f') -> f' ⊆ f.
Proof.
  unfold parse_size. intros H. destruct (starts "z" f) eqn:Es.
  - simplify_eq. apply starts_tail in Es. rewrite Es at 2. set_solver.
  - destruct (parse_ls f 0) as [n0 f0] eqn:Ep. simplify_eq. by eapply parse_ls_rest.
Qed.

Lemma select_rest f k f' : select f = Some (k, f') -> f' ⊆ f.
Proof.
  destruct f as [|c f]; cbn; [done|]. intros [= H].
  repeat case_match; simplify_eq; set_solver.
Qed.

Lemma prefixed_counted pre pres r args r' out args' :
  prefixed pre pres r args = Some (r', out, args') ->
  counted r -> pre = Z.of_nat (List.length pres) -> counted (r', out).
Proof.
  unfold prefixed, counted. intros [= <- <- <-] -> ->. cbn [fst snd].
  rewrite u32_add_r, length_app. f_equal. lia.
Qed.

Lemma convert_counted xml flags width z l k args r out args' :
  convert xml flags width z l k args = Some (r, out, args') ->
  0 <= width -> has flags VG_MSG_ALTFORMAT = false -> counted (r, out).
Proof.
  intros H Hw Ha. unfold convert in H. rewrite ?Ha in H.
  destruct k; try discriminate;
    try (destruct (va_word args) as [[w args1]|]; [|discriminate]; cbn -[myvprintf_int64] in H);
    try (destruct (va_str args) as [[s args1]|]; [|discriminate]; cbn -[myvprintf_str] in H);
    (eapply prefixed_counted; [exact H| |reflexivity]);
    repeat case_match;
    first [apply counted_int64 | by apply counted_str | apply counted_xml | reflexivity].
Qed.

Lemma vprintf_counted fuel xml : forall f args r out,
  vprintf_loop fuel xml f args = Some (r, out) ->
  "#"%char ∉ f -> "*"%char ∉ f -> counted (r, out).
Proof.
  induction fuel as [|fuel IH]; intros f args r out H H1 H2; [done|].
  cbn [vprintf_loop] in H. destruct f as [|c f]; [by simplify_eq|].
  rewrite not_elem_of_cons in H1, H2. destruct H1 as [_ H1], H2 as [_ H2].
  assert (forall f1 r1 out1 args1 r2 out2, f1 ⊆ f -> counted (r1, out1) ->
    vprintf_loop fuel xml f1 args1 = Some (r2, out2) -> counted (u32 (r1 + r2), out1 ++ out2)) as Hrec.
  { intros f1 r1 out1 args1 r2 out2 Hf Hc E. apply IH in E; [|set_solver..].
    unfold counted in *. cbn [fst snd] in *. subst. rewrite length_app, u32_add_l, u32_add_r.
    f_equal. lia. }
  destruct (negb (ascii_eqb c "%")).
  { destruct (vprintf_loop fuel xml f args) as [[r2 out2]|] eqn:E; [|done].
    cbn [mbind option_bind] in H. injection H as <- <-.
    apply (Hrec f 1 [c] args); done. }
  destruct f as [|c' f']; [by simplify_eq|].
  destruct (ascii_eqb c' "%").
  { destruct (vprintf_loop fuel xml f' args) as [[r2 out2]|] eqn:E; [|done].
    cbn [mbind option_bind] in H. injection H as <- <-.
    apply (Hrec f' 1 ["%"%char] args); [set_solver|done|done]. }
  destruct (parse_flags (c' :: f') 0) as [flags f1] eqn:E1.
  apply parse_flags_rest in E1 as [Hf1 Ha]. specialize (Ha H1).
  destruct (parse_width f1 args) as [[[width f2] args2]|] eqn:E2; [|done]. cbn in H.
  apply parse_width_rest in E2 as [Hf2 Hw]; [|set_solver].
  destruct (parse_precision f2 args2) as [[[pr f3] args3]|] eqn:E3; [|done]. cbn in H.
  apply parse_precision_rest in E3; [|set_solver].
  destruct (parse_size f3) as [[z n_ls] f4] eqn:E4. apply parse_size_rest in E4.
  destruct (select f4) as [[k f5]|] eqn:E5; [|done]. cbn in H. apply select_rest in E5.
  destruct (convert _ _ _ _ _ _ _) as [[[r1 out1] args4]|] eqn:E6; [|done]. cbn in H.
  apply convert_counted in E6; [|done|done].
  destruct (vprintf_loop fuel xml f5 args4) as [[r2 out2]|] eqn:E7; [|done].
  cbn [mbind option_bind] in H. injection H as <- <-.
  eapply Hrec; [|done|exact E7]. set_solver.
Qed.
