(* ===== verification/LibcStr.v ===== *)
(** Strings of [coregrind/m_libcbase.c]: character classes, conversions from
    text to numbers, comparison, search, tokens, and the parsers of
    addresses, integers and keyword sets.  A C string is the list of its
    characters before the NUL; a pointer into it is the rest of the list
    from there on, and reading at the empty list reads the NUL. *)
From stdpp Require Import base list strings.
From Stdlib Require Import ZArith Lia Ascii String.
From S2P Require Import Prelude Printf.
Open Scope Z_scope.

Definition NUL : ascii := "000"%char.

(** [*s] *)
Definition cur (s : chars) : ascii := match s with [] => NUL | c :: _ => c end.

(** ** Characters *)

Definition isspace (c : ascii) : bool :=
  ascii_eqb c " " || ascii_eqb c "010" || ascii_eqb c "009"
  || ascii_eqb c "012" || ascii_eqb c "011" || ascii_eqb c "013".

Definition in_range (lo hi c : ascii) : bool := (code lo <=? code c) && (code c <=? code hi).

Definition isdigit (c : ascii) : bool := in_range "0" "9" c.

Definition is_dec_digit (c : ascii) : option Z :=
  if in_range "0" "9" c then Some (code c - code "0") else None.

Definition is_hex_digit (c : ascii) : option Z :=
  if in_range "0" "9" c then Some (code c - code "0")
  else if in_range "A" "F" c then Some (code c - code "A" + 10)
  else if in_range "a" "f" c then Some (code c - code "a" + 10)
  else None.

Definition tolower (c : ascii) : ascii :=
  if in_range "A" "Z" c then chr (code c - code "A" + code "a") else c.

(** ** Numbers *)

Fixpoint skip_spaces (s : chars) : chars :=
  match s with
  | c :: s' => if isspace c then skip_spaces s' else s
  | [] => []
  end.

(** The value of a 64-bit signed expression *)
Definition s64 (x : Z) : Z := (x + 2 ^ 63) mod 2 ^ 64 - 2 ^ 63.

(** The loop over the digits: the number, whether a digit was converted, and
    where it stops *)
Fixpoint digit_loop (is_digit : ascii -> option Z) (wrap : Z -> Z) (base n : Z)
    (converted : bool) (s : chars) : Z * bool * chars :=
  match s with
  | [] => (n, converted, s)
  | c :: s' =>
      match is_digit c with
      | Some digit => digit_loop is_digit wrap base (wrap (base * n + digit)) true s'
      | None => (n, converted, s)
      end
  end.

Definition skip_sign (s : chars) : bool * chars :=
  if ascii_eqb (cur s) "-" then (true, tl s)
  else if ascii_eqb (cur s) "+" then (false, tl s)
  else (false, s).

(** A leading "0x", only before a hex digit *)
Definition skip_0x (s : chars) : chars :=
  match s with
  | z :: x :: s' =>
      if ascii_eqb z "0" && (ascii_eqb x "x" || ascii_eqb x "X")
         && match is_hex_digit (cur s') with Some _ => true | None => false end
      then s' else s
  | _ => s
  end.

Definition strtoll10 (str0 : chars) : Z * chars :=
  let s := skip_spaces str0 in
  let '(neg, s) := skip_sign s in
  let '(n, converted, s) := digit_loop is_dec_digit s64 10 0 false s in
  let s := if converted then s else str0 in
  (if neg then s64 (- n) else n, s).

Definition strtoull10 (str0 : chars) : Z * chars :=
  let s := skip_spaces str0 in
  let s := if ascii_eqb (cur s) "+" then tl s else s in
  let '(n, converted, s) := digit_loop is_dec_digit u64 10 0 false s in
  (n, if converted then s else str0).

Definition strtoll16 (str0 : chars) : Z * chars :=
  let s := skip_spaces str0 in
  let '(neg, s) := skip_sign s in
  let s := skip_0x s in
  let '(n, converted, s) := digit_loop is_hex_digit s64 16 0 false s in
  let s := if converted then s else str0 in
  (if neg then s64 (- n) else n, s).

Definition strtoull16 (str0 : chars) : Z * chars :=
  let s := skip_spaces str0 in
  let s := if ascii_eqb (cur s) "+" then tl s else s in
  let s := skip_0x s in
  let '(n, converted, s) := digit_loop is_hex_digit u64 16 0 false s in
  (n, if converted then s else str0).

(** ** Length, comparison *)

Fixpoint strlen (s : chars) : Z :=
  match s with [] => 0 | _ :: s => 1 + strlen s end.

Fixpoint strnlen (s : chars) (n : nat) : Z :=
  match n, s with
  | S n, _ :: s => 1 + strnlen s n
  | _, _ => 0
  end.

Fixpoint strcmp (s1 s2 : chars) : Z :=
  if code (cur s1) <? code (cur s2) then -1
  else if code (cur s2) <? code (cur s1) then 1
  else match s1, s2 with
       | _ :: s1, _ :: s2 => strcmp s1 s2
       | _, _ => 0
       end.

Fixpoint strcasecmp (s1 s2 : chars) : Z :=
  let c1 := code (tolower (cur s1)) in
  let c2 := code (tolower (cur s2)) in
  if c1 <? c2 then -1
  else if c2 <? c1 then 1
  else match s1, s2 with
       | _ :: s1, _ :: s2 => strcasecmp s1 s2
       | _, _ => 0
       end.

(** [nmax] is the number of characters still to compare. *)
Fixpoint strncmp (s1 s2 : chars) (nmax : nat) {struct nmax} : Z :=
  match nmax with
  | O => 0
  | S n =>
      if code (cur s1) <? code (cur s2) then -1
      else if code (cur s2) <? code (cur s1) then 1
      else match s1, s2 with
           | _ :: s1, _ :: s2 => strncmp s1 s2 n
           | _, _ => 0
           end
  end.

Fixpoint strncasecmp (s1 s2 : chars) (nmax : nat) {struct nmax} : Z :=
  match nmax with
  | O => 0
  | S n =>
      let c1 := code (tolower (cur s1)) in
      let c2 := code (tolower (cur s2)) in
      if c1 <? c2 then -1
      else if c2 <? c1 then 1
      else match s1, s2 with
           | _ :: s1, _ :: s2 => strncasecmp s1 s2 n
           | _, _ => 0
           end
  end.

(** ** Search *)

Fixpoint strstr_loop (haystack needle : chars) (n : nat) : option chars :=
  match haystack with
  | [] => None
  | _ :: h => if strncmp haystack needle n =? 0 then Some haystack else strstr_loop h needle n
  end.

Definition strstr (haystack : option chars) (needle : chars) : option chars :=
  match haystack with
  | None => None
  | Some h => strstr_loop h needle (Z.to_nat (strlen needle))
  end.

Fixpoint strcasestr_loop (haystack needle : chars) (n : nat) : option chars :=
  match haystack with
  | [] => None
  | _ :: h =>
      if strncasecmp haystack needle n =? 0 then Some haystack else strcasestr_loop h needle n
  end.

Definition strcasestr (haystack : option chars) (needle : chars) : option chars :=
  match haystack with
  | None => None
  | Some h => strcasestr_loop h needle (Z.to_nat (strlen needle))
  end.

(** The NUL is found too. *)
Fixpoint strchr (s : chars) (c : ascii) : option chars :=
  if ascii_eqb (cur s) c then Some s
  else match s with [] => None | _ :: s => strchr s c end.

(** [while (--n > 0)], with [n] counted down from the length *)
Fixpoint strrchr_loop (n : nat) (s : chars) (c : ascii) : option chars :=
  match n with
  | S ((S _) as n) =>
      if ascii_eqb (cur (drop n s)) c then Some (drop n s) else strrchr_loop n s c
  | _ => None
  end.

Definition strrchr (s : chars) (c : ascii) : option chars :=
  strrchr_loop (Z.to_nat (strlen s)) s c.

(** Is [c] one of the characters of [l]?  The inner loops of [strpbrk] and
    [strspn] *)
Fixpoint char_in (c : ascii) (l : chars) : bool :=
  match l with [] => false | a :: l => if ascii_eqb a c then true else char_in c l end.

Fixpoint strpbrk (s accpt : chars) : option chars :=
  match s with
  | [] => None
  | c :: s' => if char_in c accpt then Some s else strpbrk s' accpt
  end.

Fixpoint strspn (s accpt : chars) : Z :=
  match s with
  | [] => 0
  | c :: s => if char_in c accpt then 1 + strspn s accpt else 0
  end.

Fixpoint strcspn (s reject : chars) : Z :=
  match s with
  | [] => 0
  | c :: s => match strchr reject c with None => 1 + strcspn s reject | Some _ => 0 end
  end.

(** ** Tokens *)

(** [VG_(strtok_r)]: the token and the new [*saveptr].  The delimiter after
    the token becomes the NUL that ends it. *)
Definition strtok_r (s : option chars) (delim : chars) (saveptr : chars) : option chars * chars :=
  let s := match s with Some s => s | None => saveptr end in
  let s := drop (Z.to_nat (strspn s delim)) s in
  match s with
  | [] => (None, s)
  | _ =>
      match strpbrk s delim with
      | None => (Some s, drop (Z.to_nat (strlen s)) s)
      | Some e => (Some (take (List.length s - List.length e) s), tl e)
      end
  end.

(** ** Parsers *)

Definition isHex (c : ascii) : bool :=
  in_range "0" "9" c || in_range "a" "f" c || in_range "A" "F" c.

Definition fromHex (c : ascii) : Z :=
  if in_range "0" "9" c then code c - code "0"
  else if in_range "a" "f" c then 10 + code c - code "a"
  else if in_range "A" "F" c then 10 + code c - code "A"
  else 0.

Fixpoint parse_Addr_loop (pc : chars) (result used : Z) : bool * chars * Z :=
  match pc with
  | c :: pc' =>
      if isHex c then
        let result := Z.lor (u64 (Z.shiftl result 4)) (fromHex c) in
        if 16 <? used + 1 then (false, pc', result) else parse_Addr_loop pc' result (used + 1)
      else (negb (used =? 0), pc, result)
  | [] => (negb (used =? 0), pc, result)
  end.

(** [*ppc] and [*result] are updated in place, also when the parser fails. *)
Definition parse_Addr (pc : chars) (result : Z) : bool * chars * Z :=
  if negb (ascii_eqb (cur pc) "0") then (false, pc, result) else
  let pc := tl pc in
  if negb (ascii_eqb (cur pc) "x") then (false, pc, result) else
  parse_Addr_loop (tl pc) 0 0.

Fixpoint parse_UInt_loop (pc : chars) (result res64 used : Z) : bool * chars * Z :=
  match pc with
  | c :: pc' =>
      if isdigit c then
        let res64 := u64 (res64 * 10 + code c - code "0") in
        if 10 <? used + 1 then (false, pc', result) else parse_UInt_loop pc' result res64 (used + 1)
      else if used =? 0 then (false, pc, result)
      else if negb (Z.shiftr res64 32 =? 0) then (false, pc, result)
      else (true, pc, u32 res64)
  | [] =>
      if used =? 0 then (false, pc, result)
      else if negb (Z.shiftr res64 32 =? 0) then (false, pc, result)
      else (true, pc, u32 res64)
  end.

Definition parse_UInt (pc : chars) (result : Z) : bool * chars * Z :=
  parse_UInt_loop pc result 0 0.

(** The loop over the known tokens for one word of the input *)
Record enum_scan := mk_enum { enum_set : Z; all_set : Z; known_words : Z }.

Fixpoint enum_tokens (fuel : nat) (input_word : chars) (token : option chars) (saveptr : chars)
    (token_nr : Z) (e : enum_scan) : option enum_scan :=
  match token with
  | None => Some e
  | Some tok =>
      match fuel with
      | O => None
      | S fuel =>
          let bit := u32 (Z.shiftl 1 token_nr) in
          let e :=
            if negb (strcmp tok (str "-") =? 0) then
              let e :=
                if strcmp input_word tok =? 0
                then mk_enum (Z.lor (enum_set e) bit) (all_set e) (u32 (known_words e + 1)) else e in
              mk_enum (enum_set e) (Z.lor (all_set e) bit) (known_words e)
            else e in
          let '(token, saveptr) := strtok_r None (str ",") saveptr in
          enum_tokens fuel input_word token saveptr (token_nr + 1) e
      end
  end.

(** The loop over the words of the input *)
Record enum_state := mk_words {
  scan : enum_scan; word_nr : Z; seen_all_kw : bool; seen_none_kw : bool
}.

Fixpoint enum_words (fuel : nat) (tokens : chars) (allow_all : bool) (word : option chars)
    (saveptr : chars) (w : enum_state) : option enum_state :=
  match word with
  | None => Some w
  | Some input_word =>
      match fuel with
      | O => None
      | S fuel =>
          let all := allow_all && (strcmp input_word (str "all") =? 0) in
          let none := negb all && (strcmp input_word (str "none") =? 0) in
          let e := scan w in
          let known := if all || none then u32 (known_words e + 1) else known_words e in
          let '(token, tsave) := strtok_r (Some tokens) (str ",") [] in
          match enum_tokens (S (List.length tokens)) input_word token tsave 0
                  (mk_enum (enum_set e) 0 known) with
          | None => None
          | Some e =>
              let '(word, saveptr) := strtok_r None (str ",") saveptr in
              enum_words fuel tokens allow_all word saveptr
                (mk_words e (word_nr w + 1) (seen_all_kw w || all) (seen_none_kw w || none))
          end
      end
  end.

(** [None]: a loop was cut off by its fuel, which never happens. *)
Definition parse_enum_set (tokens : chars) (allow_all : bool) (input : chars) (set0 : Z)
    : option (bool * Z) :=
  if 1000 <? strlen tokens then Some (false, set0) else
  if 1000 <? strlen input then Some (false, set0) else
  let '(word, saveptr) := strtok_r (Some input) (str ",") [] in
  match enum_words (S (List.length input)) tokens allow_all word saveptr
          (mk_words (mk_enum 0 0 0) 0 false false) with
  | None => None
  | Some w =>
      let set := enum_set (scan w) in
      Some (
        if negb (known_words (scan w) =? word_nr w) then (false, set)
        else if seen_all_kw w then
          if seen_none_kw w || negb (set =? 0) then (false, set) else (true, all_set (scan w))
        else if seen_none_kw w then
          if seen_all_kw w || negb (set =? 0) then (false, set) else (true, 0)
        else if set =? 0 then (false, set) else (true, set))
  end.
