(* ===== verification/LibcStrProofs.v ===== *)
(** Lemmas on the strings of [m_libcbase.c]: the number parsers invert the
    number printers, comparison is a strict order, search finds the first
    occurrence, and the tokens are the maximal runs of non-delimiters. *)
From stdpp Require Import base list strings sets gmap.
From Stdlib Require Import ZArith Lia Ascii String.
From S2P Require Import Prelude Printf PrintfProofs LibcStr.
Open Scope Z_scope.

Lemma ascii_eqb_spec c d : reflect (c = d) (ascii_eqb c d).
Proof. unfold ascii_eqb. destruct (bool_decide_reflect (c = d)); by constructor. Qed.

Lemma ascii_eqb_refl c : ascii_eqb c c = true.
Proof. by destruct (ascii_eqb_spec c c). Qed.

Lemma code_inj c d : code c = code d -> c = d.
Proof.
  unfold code. intros E%N2Z.inj. by rewrite <- (ascii_N_embedding c), E, ascii_N_embedding.
Qed.

Lemma code_range c : 0 <= code c < 256.
Proof.
  unfold code. pose proof (N_ascii_bounded c). lia.
Qed.

(** No character of a C string is the NUL. *)
Definition no_nul (s : chars) : Prop := Forall (fun c => c <> NUL) s.

(** ** Parsing what was printed *)

Lemma is_hex_digit_value c : is_hex_digit c = digit_value c.
Proof.
  unfold is_hex_digit, digit_value, is_digit, in_range.
  destruct ((code "0" <=? code c) && (code c <=? code "9")); [done|].
  destruct ((code "A" <=? code c) && (code c <=? code "F")) eqn:E1,
    ((code "a" <=? code c) && (code c <=? code "f")) eqn:E2; try done.
  apply andb_prop in E1 as [?%Z.leb_le ?%Z.leb_le]. apply andb_prop in E2 as [?%Z.leb_le ?%Z.leb_le].
  change (code "F") with 70 in *. change (code "a") with 97 in *. lia.
Qed.

Lemma is_dec_digit_value c : is_dec_digit c =
  match digit_value c with Some d => if d <? 10 then Some d else None | None => None end.
Proof.
  unfold is_dec_digit, digit_value, is_digit, in_range.
  destruct ((code "0" <=? code c) && (code c <=? code "9")) eqn:E0.
  { apply andb_prop in E0 as [?%Z.leb_le ?%Z.leb_le].
    change (code "0") with 48 in *. change (code "9") with 57 in *.
    by rewrite (proj2 (Z.ltb_lt _ 10)) by lia. }
  destruct ((code "a" <=? code c) && (code c <=? code "f")) eqn:E1.
  { apply andb_prop in E1 as [?%Z.leb_le _]. change (code "a") with 97 in *.
    by rewrite (proj2 (Z.ltb_ge _ 10)) by lia. }
  destruct ((code "A" <=? code c) && (code c <=? code "F")) eqn:E2; [|done].
  apply andb_prop in E2 as [?%Z.leb_le _]. change (code "A") with 65 in *.
  by rewrite (proj2 (Z.ltb_ge _ 10)) by lia.
Qed.

Lemma digit_value_range c d : digit_value c = Some d -> 0 <= d.
Proof.
  unfold digit_value, is_digit. intros H.
  repeat case_match; simplify_eq;
    match goal with H : _ && _ = true |- _ => apply andb_prop in H as [?%Z.leb_le _] end; lia.
Qed.

Lemma read_digits_ge base s : 1 <= base -> forall acc p,
  0 <= acc -> read_digits base s acc = Some p -> acc <= p.
Proof.
  intros Hb. induction s as [|c s IH]; intros acc p Ha H; cbn in H; [simplify_eq; lia|].
  destruct (digit_value c) as [d|] eqn:E; [|done].
  destruct (d <? base); [|done]. apply digit_value_range in E.
  apply IH in H; nia.
Qed.

(** The digit loop reads the digits up to the first other character. *)
Lemma digit_loop_read base is_d ds rest : 2 <= base ->
  (forall c, is_d c = match digit_value c with
                      | Some d => if d <? base then Some d else None | None => None end) ->
  (rest = [] \/ is_d (cur rest) = None) ->
  forall acc conv p, 0 <= acc -> read_digits base ds acc = Some p -> p < 2 ^ 64 ->
  digit_loop is_d u64 base acc conv (ds ++ rest) = (p, if ds then conv else true, rest).
Proof.
  intros Hb Hd Hrest. induction ds as [|c ds IH]; intros acc conv p Ha H Hp; cbn in *.
  { simplify_eq. destruct rest as [|c rest]; [done|]. cbn in *.
    destruct Hrest as [E|E]; [done|by rewrite E]. }
  rewrite Hd. destruct (digit_value c) as [d|] eqn:E; [|done].
  destruct (d <? base); [|done]. pose proof (digit_value_range _ _ E).
  pose proof (read_digits_ge base ds ltac:(lia) (acc * base + d) p ltac:(nia) H).
  rewrite u64_small by nia.
  replace (base * acc + d) with (acc * base + d) by lia. rewrite (IH _ true p) by (done || nia).
  by destruct ds.
Qed.

Lemma digit_not_space d caps : 0 <= d < 16 ->
  isspace (digit caps d) = false /\ ascii_eqb (digit caps d) "+" = false
  /\ ascii_eqb (digit caps d) "-" = false.
Proof.
  intros Hd. assert (exists n, (n < 16)%nat /\ d = Z.of_nat n) as (n & Hn & ->).
  { exists (Z.to_nat d). lia. }
  destruct caps; do 16 (destruct n as [|n]; [by vm_compute|]); lia.
Qed.

(** The first character [%lx] or [%lu] prints is a digit. *)
Lemma int64_head flags base caps p : 2 <= base <= 16 -> 0 <= p < 2 ^ 64 ->
  has flags VG_MSG_SIGNED = false -> has flags VG_MSG_COMMA = false ->
  exists d out', (myvprintf_int64 flags base 0 caps p).2 = digit caps d :: out' /\ 0 <= d < base
    /\ read_digits base (digit caps d :: out') 0 = Some p /\ (d = 0 -> out' = []).
Proof.
  intros Hb Hp Hs Hc. destruct (decide (p = 0)) as [->|Hn].
  - exists 0, []. unfold myvprintf_int64. rewrite Hs, Hc.
    rewrite (proj2 (Z.ltb_ge base 2)), (proj2 (Z.ltb_ge 16 base)) by lia. cbn [orb andb].
    split; [by destruct caps|]. split; [lia|]. split; [|done].
    cbn. rewrite digit_value_digit by lia. by rewrite (proj2 (Z.ltb_lt 0 base)) by lia.
  - destruct (int64_plain flags base caps p Hb Hp Hs Hc) as (out & E & Hr & _ & Hlead).
    destruct Hlead as (d & out' & -> & Hd); [lia|]. exists d, out'. rewrite E.
    split; [done|]. split; [lia|]. split; [done|]. lia.
Qed.

Lemma skip_digit caps d out : 0 <= d < 16 -> skip_spaces (digit caps d :: out) = digit caps d :: out
  /\ ascii_eqb (digit caps d) "+" = false.
Proof.
  intros Hd. destruct (digit_not_space d caps Hd) as (H1 & H2 & _). cbn. by rewrite H1.
Qed.

(** [VG_(strtoull10)] reads back what [%lu] printed. *)
Lemma strtoull10_printed w rest : 0 <= w < 2 ^ 64 ->
  (rest = [] \/ is_dec_digit (cur rest) = None) ->
  strtoull10 ((myvprintf_int64 0 10 0 false w).2 ++ rest) = (w, rest).
Proof.
  intros Hw Hrest. destruct (int64_head 0 10 false w) as (d & out' & -> & Hd & Hr & _); [done..|].
  unfold strtoull10. cbn [app].
  destruct (skip_digit false d (out' ++ rest) ltac:(lia)) as [-> Hp]. cbn [cur]. rewrite Hp.
  rewrite app_comm_cons, (digit_loop_read 10 is_dec_digit _ rest ltac:(lia) is_dec_digit_value Hrest
    0 false w ltac:(lia) Hr ltac:(lia)). done.
Qed.

Lemma hex_spec c : is_hex_digit c =
  match digit_value c with Some d => if d <? 16 then Some d else None | None => None end.
Proof.
  rewrite is_hex_digit_value. destruct (digit_value c) as [d|] eqn:E; [|done].
  assert (d < 16); [|by rewrite (proj2 (Z.ltb_lt _ _))].
  unfold digit_value, is_digit in E. repeat case_match; simplify_eq;
    match goal with H : _ && _ = true |- _ => apply andb_prop in H as [_ ?%Z.leb_le] end.
  - change (code "9") with 57 in *. change (code "0") with 48. lia.
  - change (code "f") with 102 in *. change (code "a") with 97. lia.
  - change (code "F") with 70 in *. change (code "A") with 65. lia.
Qed.

Lemma digit_zero caps d : 0 <= d < 16 -> digit caps d = "0"%char -> d = 0.
Proof.
  intros Hd E. pose proof (digit_value_digit caps d Hd) as H. rewrite E in H.
  by injection H as <-.
Qed.

(** [VG_(strtoull16)] reads back what [%lx] printed. *)
Lemma strtoull16_printed w caps rest : 0 <= w < 2 ^ 64 ->
  (rest = [] \/ is_hex_digit (cur rest) = None) ->
  (w = 0 -> ascii_eqb (cur rest) "x" = false /\ ascii_eqb (cur rest) "X" = false) ->
  strtoull16 ((myvprintf_int64 0 16 0 caps w).2 ++ rest) = (w, rest).
Proof.
  intros Hw Hrest Hx. destruct (int64_head 0 16 caps w) as (d & out' & -> & Hd & Hr & Hz); [done..|].
  unfold strtoull16. cbn [app].
  destruct (skip_digit caps d (out' ++ rest) ltac:(lia)) as [-> Hp]. cbn [cur]. rewrite Hp.
  assert (skip_0x (digit caps d :: out' ++ rest) = digit caps d :: out' ++ rest) as ->.
  { unfold skip_0x. destruct (ascii_eqb_spec (digit caps d) "0") as [E|].
    - apply digit_zero in E; [|done]. specialize (Hz E) as ->. subst d. cbn in Hr.
      rewrite digit_value_digit in Hr by lia. simplify_eq/=.
      destruct Hx as [E1 E2]; [done|]. destruct rest as [|c rest]; [done|]. cbn in E1, E2.
      by rewrite E1, E2.
    - by destruct (out' ++ rest). }
  rewrite app_comm_cons, (digit_loop_read 16 is_hex_digit _ rest ltac:(lia) hex_spec Hrest
    0 false w ltac:(lia) Hr ltac:(lia)). done.
Qed.

(** ** Comparison *)

Lemma code_nul c : c <> NUL -> 0 < code c.
Proof.
  intros H. pose proof (code_range c). assert (code c <> 0); [|lia].
  intros E. apply H, code_inj. by rewrite E.
Qed.

Lemma strcmp_cases s1 s2 : strcmp s1 s2 = -1 \/ strcmp s1 s2 = 0 \/ strcmp s1 s2 = 1.
Proof.
  revert s2. induction s1 as [|c s1 IH]; intros s2; cbn; repeat case_match; auto.
Qed.

Lemma strcmp_eq s1 s2 : no_nul s1 -> no_nul s2 -> strcmp s1 s2 = 0 <-> s1 = s2.
Proof.
  intros H1. revert s2. induction H1 as [|c s1 Hc H1 IH]; intros s2 H2; destruct H2 as [|d s2 Hd H2];
    cbn [strcmp cur].
  - done.
  - change (code NUL) with 0. pose proof (code_nul d Hd). rewrite (proj2 (Z.ltb_lt 0 _)) by lia. done.
  - change (code NUL) with 0. pose proof (code_nul c Hc).
    rewrite (proj2 (Z.ltb_ge _ 0)), (proj2 (Z.ltb_lt 0 _)) by lia. done.
  - destruct (Z.ltb_spec (code c) (code d)) as [|Hge]; [split; [done|intros [= -> ->]; lia]|].
    destruct (Z.ltb_spec (code d) (code c)) as [|Hle]; [split; [done|intros [= -> ->]; lia]|].
    assert (c = d) as -> by (apply code_inj; lia). rewrite IH by done. split; congruence.
Qed.

Lemma strcmp_opp s1 s2 : strcmp s2 s1 = - strcmp s1 s2.
Proof.
  revert s2. induction s1 as [|c s1 IH]; intros [|d s2]; cbn [strcmp cur]; [done|..];
    repeat match goal with |- context [?a <? ?b] => destruct (Z.ltb_spec a b) end;
    (done || lia || apply IH).
Qed.

Lemma strcmp_trans s1 s2 s3 : no_nul s1 -> no_nul s2 -> no_nul s3 ->
  strcmp s1 s2 = -1 -> strcmp s2 s3 = -1 -> strcmp s1 s3 = -1.
Proof.
  intros H1. revert s2 s3. induction H1 as [|c s1 Hc H1 IH]; intros s2 s3 H2 H3;
    destruct H2 as [|d s2 Hd H2]; destruct H3 as [|e s3 He H3]; cbn [strcmp cur];
    change (code NUL) with 0 in *;
    repeat match goal with H : ?c <> NUL |- _ => apply code_nul in H end;
    repeat match goal with |- context [?a <? ?b] => destruct (Z.ltb_spec a b) end;
    (done || lia || eauto).
Qed.

Lemma strncmp_prefix needle : no_nul needle -> forall h, no_nul h ->
  strncmp h needle (List.length needle) = 0 <-> needle `prefix_of` h.
Proof.
  intros Hn. induction Hn as [|d needle Hd Hn IH]; intros h Hh; cbn [List.length strncmp].
  { split; [intros _; apply prefix_nil|done]. }
  destruct Hh as [|c h Hc Hh]; cbn [cur].
  - change (code NUL) with 0. pose proof (code_nul d Hd).
    rewrite (proj2 (Z.ltb_lt 0 _)) by lia. split; [done|]. by intros ?%prefix_nil_not.
  - destruct (Z.ltb_spec (code c) (code d)) as [|Hge].
    { split; [done|]. intros ->%prefix_cons_inv_1. lia. }
    destruct (Z.ltb_spec (code d) (code c)) as [|Hle].
    { split; [done|]. intros ->%prefix_cons_inv_1. lia. }
    assert (c = d) as -> by (apply code_inj; lia). rewrite IH by done.
    split; [apply prefix_cons|apply prefix_cons_inv_2].
Qed.

Lemma strlen_length s : strlen s = Z.of_nat (List.length s).
Proof. induction s; cbn [strlen List.length]; lia. Qed.

(** ** Search *)

(** [VG_(strstr)] returns the first occurrence, [None] when there is none. *)
Lemma strstr_loop_spec needle h : no_nul needle -> no_nul h ->
  match strstr_loop h needle (List.length needle) with
  | Some r => exists p, h = p ++ r /\ r <> [] /\ needle `prefix_of` r /\
      forall p' r', h = p' ++ r' -> needle `prefix_of` r' -> r' <> [] ->
        (List.length p <= List.length p')%nat
  | None => forall p r, h = p ++ r -> r <> [] -> ~ needle `prefix_of` r
  end.
Proof.
  intros Hn Hh. induction Hh as [|c h Hc Hh IH]; cbn [strstr_loop].
  { intros p r E Hr. symmetry in E. by apply app_nil in E as [_ ->]. }
  pose proof (strncmp_prefix needle Hn (c :: h) ltac:(by constructor)) as Hp.
  destruct (Z.eqb_spec (strncmp (c :: h) needle (List.length needle)) 0) as [E|E].
  { exists []. split; [done|]. split; [done|]. split; [by apply Hp|]. cbn. lia. }
  assert (~ needle `prefix_of` c :: h) as Hne by tauto.
  destruct (strstr_loop h needle (List.length needle)) as [r|].
  - destruct IH as (p & -> & Hr & Hpr & Hmin). exists (c :: p). split; [done|]. split; [done|].
    split; [done|]. intros [|c' p'] r' Er Hr' Hnil.
    + cbn in Er. by rewrite Er in Hne.
    + injection Er as _ Er. cbn. specialize (Hmin p' r' Er Hr' Hnil). lia.
  - intros [|c' p'] r' Er Hnil.
    + cbn in Er. by rewrite <- Er.
    + injection Er as _ Er. by apply (IH p' r').
Qed.

(** [needle] occurs in [h]. *)
Definition occurs (needle h : chars) : Prop := exists p q, h = p ++ needle ++ q.

Lemma strstr_occurs needle h : needle <> [] -> no_nul needle -> no_nul h ->
  is_Some (strstr (Some h) needle) <-> occurs needle h.
Proof.
  intros Hne Hn Hh. cbn [strstr]. rewrite strlen_length, Nat2Z.id.
  pose proof (strstr_loop_spec needle h Hn Hh) as H.
  destruct (strstr_loop h needle (List.length needle)) as [r|].
  - split; [|by eexists]. intros _. destruct H as (p & -> & _ & [q ->] & _). by exists p, q.
  - split; [by intros [? ?]|]. intros (p & q & ->). exfalso.
    apply (H p (needle ++ q)); [done| |by apply prefix_app_r].
    intros E%app_nil. tauto.
Qed.

(** ** Tokens *)

(** The maximal runs of characters outside [delim] *)
Fixpoint fields_aux (delim : chars) (acc s : chars) : list chars :=
  match s with
  | [] => match acc with [] => [] | _ => [acc] end
  | c :: s =>
      if char_in c delim
      then match acc with [] => fields_aux delim [] s | _ => acc :: fields_aux delim [] s end
      else fields_aux delim (acc ++ [c]) s
  end.

Definition fields (delim s : chars) : list chars := fields_aux delim [] s.

(** The tokens of a string: [strtok_r] until it returns null *)
Fixpoint tokens_loop (fuel : nat) (delim : chars) (s : option chars) (saveptr : chars)
    : option (list chars) :=
  match fuel with
  | O => None
  | S fuel =>
      match strtok_r s delim saveptr with
      | (None, _) => Some []
      | (Some tok, save) =>
          match tokens_loop fuel delim None save with
          | Some toks => Some (tok :: toks)
          | None => None
          end
      end
  end.

Lemma fields_aux_run delim s : forall acc, (forall c, c ∈ s -> char_in c delim = false) ->
  acc ++ s <> [] -> fields_aux delim acc s = [acc ++ s].
Proof.
  induction s as [|c s IH]; intros acc Hs Hne; cbn.
  - rewrite app_nil_r in *. by destruct acc.
  - rewrite (Hs c) by (by left). rewrite IH; rewrite <- ?app_assoc; [done| |done].
    intros d Hd. apply Hs. by right.
Qed.

Lemma fields_aux_delim delim c s : char_in c delim = true ->
  forall run acc, (forall c, c ∈ run -> char_in c delim = false) -> acc ++ run <> [] ->
  fields_aux delim acc (run ++ c :: s) = (acc ++ run) :: fields delim s.
Proof.
  intros Hc. induction run as [|d run IH]; intros acc Hr Hne; cbn.
  - rewrite Hc, app_nil_r in *. by destruct acc.
  - rewrite (Hr d) by (by left). rewrite IH; rewrite <- ?app_assoc; [done| |done].
    intros e He. apply Hr. by right.
Qed.

Lemma fields_skip delim s : fields delim (drop (Z.to_nat (strspn s delim)) s) = fields delim s.
Proof.
  induction s as [|c s IH]; [done|]. cbn [strspn].
  destruct (char_in c delim) eqn:E; [|done].
  assert (0 <= strspn s delim) as Hp.
  { clear. induction s as [|c s IH]; cbn; [done|]. destruct (char_in c delim); lia. }
  rewrite Z2Nat.inj_add by lia. change (Z.to_nat 1) with 1%nat. cbn [Nat.add drop]. rewrite IH.
  unfold fields at 2. cbn. by rewrite E.
Qed.

Lemma strspn_rest delim s : let r := drop (Z.to_nat (strspn s delim)) s in
  r = [] \/ char_in (cur r) delim = false.
Proof.
  induction s as [|c s IH]; cbn [strspn]; [by left|].
  destruct (char_in c delim) eqn:E; [|by right].
  assert (0 <= strspn s delim) as Hp.
  { clear. induction s as [|c s IH]; cbn; [done|]. destruct (char_in c delim); lia. }
  rewrite Z2Nat.inj_add by lia. exact IH.
Qed.

(** Where [strpbrk] stops *)
Lemma strpbrk_spec s delim :
  match strpbrk s delim with
  | None => forall c, c ∈ s -> char_in c delim = false
  | Some e => exists run c r, s = run ++ e /\ e = c :: r /\ char_in c delim = true /\
                (forall d, d ∈ run -> char_in d delim = false)
  end.
Proof.
  induction s as [|c s IH]; cbn [strpbrk]; [intros c H; by apply not_elem_of_nil in H|].
  destruct (char_in c delim) eqn:E.
  - exists [], c, s. split; [done|]. split; [done|]. split; [done|].
    intros d H. by apply not_elem_of_nil in H.
  - destruct (strpbrk s delim) as [e|].
    + destruct IH as (run & c' & r & -> & -> & Hc & Hr). exists (c :: run), c', r.
      split; [done|]. split; [done|]. split; [done|]. by intros d [->|Hd]%elem_of_cons; auto.
    + by intros d [->|Hd]%elem_of_cons; auto.
Qed.

(** One call of [strtok_r]: the first field, and the rest of the string *)
Lemma strtok_r_spec s delim saveptr :
  let s0 := match s with Some s => s | None => saveptr end in
  match strtok_r s delim saveptr with
  | (None, save) => fields delim s0 = [] /\ save = []
  | (Some tok, save) => fields delim s0 = tok :: fields delim save /\ tok <> [] /\
      (List.length save < List.length s0)%nat /\ (forall c, c ∈ tok -> char_in c delim = false)
  end.
Proof.
  cbv zeta. unfold strtok_r. set (s0 := match s with Some s => s | None => saveptr end).
  clearbody s0. rewrite <- (fields_skip delim s0).
  pose proof (strspn_rest delim s0) as Hh. cbv zeta in Hh.
  assert (List.length (drop (Z.to_nat (strspn s0 delim)) s0) <= List.length s0)%nat as Hlen
    by (rewrite length_drop; lia).
  set (r := drop (Z.to_nat (strspn s0 delim)) s0) in *. clearbody r.
  destruct r as [|c r]; [done|]. destruct Hh as [Hh|Hh]; [done|]. cbn [cur] in Hh.
  pose proof (strpbrk_spec (c :: r) delim) as Hp.
  destruct (strpbrk (c :: r) delim) as [e|].
  - destruct Hp as (run & d & r' & E & -> & Hd & Hrun).
    destruct run as [|c' run]; [cbn in E; injection E as -> ->; congruence|].
    assert (take (List.length (c :: r) - List.length (d :: r')) (c :: r) = c' :: run) as ->.
    { rewrite E, length_app. rewrite Nat.add_sub. by rewrite take_app_length. }
    rewrite E. unfold fields at 1.
    rewrite (fields_aux_delim delim d r' Hd (c' :: run) []) by done.
    split; [done|]. split; [done|]. split; [|done].
    rewrite E, length_app in Hlen. cbn in *. lia.
  - rewrite strlen_length, Nat2Z.id, drop_all. unfold fields at 1.
    rewrite (fields_aux_run delim (c :: r) []) by done. split; [done|]. split; [done|].
    split; [cbn in *; lia|done].
Qed.

(** The tokens of a string are its fields, and the loop ends. *)
Lemma tokens_fields fuel delim : forall s saveptr,
  let s0 := match s with Some s => s | None => saveptr end in
  (List.length s0 < fuel)%nat -> tokens_loop fuel delim s saveptr = Some (fields delim s0).
Proof.
  induction fuel as [|fuel IH]; intros s saveptr s0 Hf; [lia|]. cbn [tokens_loop].
  pose proof (strtok_r_spec s delim saveptr) as H. cbv zeta in H. fold s0 in H.
  destruct (strtok_r s delim saveptr) as [[tok|] save].
  - destruct H as (-> & _ & Hl & _). by rewrite (IH None save) by (cbn; lia).
  - by destruct H as [-> _].
Qed.
