(* ===== verification/SeqMatch.v ===== *)
(** Sequence matching with wildcards, [coregrind/m_seqmatch.c]: the generic
    matcher on a pattern and an input given by their elements, its language,
    and its use on strings. *)
From stdpp Require Import base list.
From Stdlib Require Import ZArith Lia Ascii String.
From S2P Require Import Prelude Printf LibcStr.
Open Scope Z_scope.

(** ** The matcher *)

Section Generic.
Context {P I : Type}.

(** The input: an array, or a completer that says whether it has an input at
    an index and is itself given to [pattEQinp], the input then being NULL. *)
Inductive match_input :=
  | InArray (input : list I)
  | InCompleter (haveInputInpC : nat -> bool).

Context (matchAll : bool) (patt : list P) (input : match_input) (pIsStar pIsQuery : P -> bool)
  (pattEQinp : P -> option I -> nat -> option bool).

Definition have_input (ixInput : nat) : bool :=
  match input with
  | InArray l => (ixInput <? List.length l)%nat
  | InCompleter have => have ixInput
  end.

Definition curr_input (ixInput : nat) : option I :=
  match input with
  | InArray l => if have_input ixInput then l !! ixInput else None
  | InCompleter _ => None
  end.

(** The assertions at the head of the loop *)
Definition match_asserts (ixPatt ixInput : nat) : bool :=
  (Z.of_nat (List.length patt) <? 1000000) &&
  (match input with InArray l => Z.of_nat (List.length l) <? 1000000 | InCompleter _ => true end) &&
  (ixPatt <=? List.length patt)%nat &&
  (match input with InArray l => (ixInput <=? List.length l)%nat | InCompleter _ => true end).

(** A failed assertion is [None]; a tail call of the source is a call. *)
Fixpoint generic_match (fuel : nat) (ixPatt ixInput : nat) : option bool :=
  match fuel with
  | O => None
  | S fuel =>
      if negb (match_asserts ixPatt ixInput) then None else
      let haveInput := have_input ixInput in
      match patt !! ixPatt with
      | Some currPatt =>
          if pIsStar currPatt then
            if haveInput then
              match generic_match fuel (S ixPatt) ixInput with
              | Some true => Some true
              | Some false => generic_match fuel ixPatt (S ixInput)
              | None => None
              end
            else generic_match fuel (S ixPatt) ixInput
          else if pIsQuery currPatt then
            if haveInput then generic_match fuel (S ixPatt) (S ixInput) else Some false
          else if haveInput then
            match pattEQinp currPatt (curr_input ixInput) ixInput with
            | Some true => generic_match fuel (S ixPatt) (S ixInput)
            | Some false => Some false
            | None => None
            end
          else Some false
      | None => if haveInput then Some (negb matchAll) else Some true
      end
  end.

(** ** The language of a pattern *)

(** The pattern matches the input from index [i] up to [j]: a star stands for
    any stretch of it, a query for one element, and another pattern element
    for an element it is equal to. *)
Inductive matches : list P -> nat -> nat -> Prop :=
  | matches_nil i : matches [] i i
  | matches_star p ps i k j :
      pIsStar p = true -> (i <= k)%nat -> matches ps k j -> matches (p :: ps) i j
  | matches_query p ps i j :
      pIsStar p = false -> pIsQuery p = true -> matches ps (S i) j -> matches (p :: ps) i j
  | matches_elem p ps i j :
      pIsStar p = false -> pIsQuery p = false -> pattEQinp p (curr_input i) i = Some true ->
      matches ps (S i) j -> matches (p :: ps) i j.

Lemma matches_le ps i j : matches ps i j -> (i <= j)%nat.
Proof. induction 1; lia. Qed.

(** The answer the matcher owes for the rest of the pattern and of an input
    of [n] elements. *)
Definition accepted (n : nat) (ps : list P) (i : nat) : Prop :=
  if matchAll then matches ps i n else exists j, (j <= n)%nat /\ matches ps i j.

Lemma accepted_matches n ps i :
  accepted n ps i <-> exists j, (j <= n)%nat /\ (matchAll = true -> j = n) /\ matches ps i j.
Proof.
  unfold accepted. destruct matchAll; split.
  - intros Hm. by exists n.
  - intros (j & _ & Hj & Hm). by rewrite <- Hj.
  - intros (j & Hj & Hm). by exists j.
  - intros (j & Hj & _ & Hm). by exists j.
Qed.

Lemma accepted_star n p ps i : pIsStar p = true -> (i <= n)%nat ->
  accepted n (p :: ps) i <-> accepted n ps i \/ ((i < n)%nat /\ accepted n (p :: ps) (S i)).
Proof.
  intros Hp Hi. rewrite !accepted_matches. split.
  - intros (j & Hj & Ha & Hm). inversion Hm; subst; try congruence.
    match goal with H : (i <= ?k)%nat, Hk : matches ps ?k j |- _ =>
      pose proof (matches_le _ _ _ Hk); destruct (decide (i = k)) as [->|Hne] end;
      [left; eauto|right; split; [lia|]].
    exists j. split; [done|]. split; [done|]. eapply matches_star; [done| |eassumption]. lia.
  - intros [(j & Hj & Ha & Hm)|(Hlt & j & Hj & Ha & Hm)].
    + exists j. split; [done|]. split; [done|]. eapply matches_star; [done| |eassumption]. lia.
    + exists j. split; [done|]. split; [done|]. inversion Hm; subst; try congruence.
      eapply matches_star; [done| |eassumption]. lia.
Qed.

Lemma accepted_step n p ps i : pIsStar p = false ->
  accepted n (p :: ps) i <->
  (i < n)%nat /\ (pIsQuery p = true \/ (pIsQuery p = false /\ pattEQinp p (curr_input i) i = Some true)) /\
  accepted n ps (S i).
Proof.
  intros Hp. rewrite !accepted_matches. split.
  - intros (j & Hj & Ha & Hm). inversion Hm; subst; try congruence;
      match goal with Hk : matches ps _ _ |- _ => pose proof (matches_le _ _ _ Hk) end;
      (split; [lia|]); (split; [naive_solver|]); eauto.
  - intros (Hi & [Hq|[Hq He]] & j & Hj & Ha & Hm); exists j; (split; [done|]); (split; [done|]).
    + by apply matches_query.
    + by apply matches_elem.
Qed.

Lemma accepted_nil n i : accepted n [] i <-> (if matchAll then i = n else (i <= n)%nat).
Proof.
  rewrite accepted_matches. split.
  - intros (j & Hj & Ha & Hm). inversion Hm; subst. destruct matchAll; auto.
  - intros Hi. exists i. split; [destruct matchAll; lia|]. split; [|constructor].
    intros Ht. by rewrite Ht in Hi.
Qed.

(** ** The matcher decides the language *)

(** The input has [n] elements. *)
Definition input_size (n : nat) : Prop :=
  (forall i, have_input i = (i <? n)%nat) /\
  match input with InArray l => Z.of_nat n < 1000000 | InCompleter _ => True end.

Context (n : nat).
Hypothesis Hn : input_size n.
Hypothesis Hpatt : Z.of_nat (List.length patt) < 1000000.
(** A pattern element that is no wildcard can be compared with every element
    of the input. *)
Hypothesis Heq : forall p i, p ∈ patt -> pIsStar p = false -> pIsQuery p = false -> (i < n)%nat ->
  pattEQinp p (curr_input i) i <> None.

Lemma asserts_hold ip i : (ip <= List.length patt)%nat -> (i <= n)%nat -> match_asserts ip i = true.
Proof.
  destruct Hn as [Hh Hl]. unfold match_asserts. unfold have_input in Hh. intros Hip Hi.
  destruct input as [l|h]; rewrite ?andb_true_r.
  - assert (n = List.length l) as ->.
    { pose proof (Hh n) as H1. pose proof (Hh (List.length l)) as H2.
      rewrite Nat.ltb_irrefl in H1, H2. symmetry in H2. apply Nat.ltb_ge in H1, H2. lia. }
    rewrite !andb_true_iff, !Z.ltb_lt, !Nat.leb_le. lia.
  - rewrite !andb_true_iff, Z.ltb_lt, Nat.leb_le. lia.
Qed.

(** Enough fuel for the elements of the pattern and of the input that are
    left gives an answer, and the right one. *)
Lemma generic_match_spec fuel : forall ip i,
  (ip <= List.length patt)%nat -> (i <= n)%nat -> (List.length patt - ip + (n - i) < fuel)%nat ->
  exists b, generic_match fuel ip i = Some b /\ (b = true <-> accepted n (drop ip patt) i).
Proof.
  induction fuel as [|fuel IH]; [lia|]. intros ip i Hip Hi Hf. cbn [generic_match].
  rewrite asserts_hold by done. cbn [negb]. rewrite (proj1 Hn).
  destruct (patt !! ip) as [p|] eqn:Ep.
  2:{ rewrite (drop_ge patt ip) by by apply lookup_ge_None.
    setoid_rewrite (accepted_nil n i).
      destruct (Nat.ltb_spec i n), matchAll; eexists; (split; [done|]); cbn; split; try done; lia. }
  rewrite (drop_S _ _ _ Ep). pose proof (lookup_lt_Some _ _ _ Ep).
  destruct (IH (S ip) i) as (b1 & E1 & H1); [lia..|].
  destruct (pIsStar p) eqn:Es.
  { destruct (Nat.ltb_spec i n) as [Hlt|Hge].
    - destruct (IH ip (S i)) as (b2 & E2 & H2); [lia..|]. rewrite (drop_S _ _ _ Ep) in H2.
      rewrite E1, E2. exists (b1 || b2). split; [by destruct b1|].
      rewrite accepted_star by done. rewrite <- H1, <- H2, orb_true_iff. tauto.
    - exists b1. split; [done|]. rewrite accepted_star, H1 by done.
      split; [tauto|intros [?|[? _]]; [done|lia]]. }
  setoid_rewrite (accepted_step n p _ i Es).
  destruct (Nat.ltb_spec i n) as [Hlt|Hge].
  2:{ exists false. split; [by destruct (pIsQuery p)|]. split; [done|lia]. }
  destruct (IH (S ip) (S i)) as (b2 & E2 & H2); [lia..|]. rewrite E2.
  destruct (pIsQuery p) eqn:Eq.
  { exists b2. split; [done|]. rewrite H2. tauto. }
  pose proof (Heq p i (list_elem_of_lookup_2 _ _ _ Ep) Es Eq Hlt).
  destruct (pattEQinp p (curr_input i) i) as [[]|]; [| |done].
  - exists b2. split; [done|]. rewrite H2. naive_solver.
  - exists false. split; [done|]. naive_solver.
Qed.
End Generic.
Arguments InCompleter {I}.

(** ** Strings *)

Definition charIsStar (c : ascii) : bool := ascii_eqb c "*".
Definition charIsQuery (c : ascii) : bool := ascii_eqb c "?".
Definition char_p_EQ_i (p : ascii) (c : option ascii) (_ : nat) : option bool :=
  if ascii_eqb p "*" || ascii_eqb p "?" then None
  else match c with Some c => Some (ascii_eqb p c) | None => None end.

Definition string_match (patt input : chars) : option bool :=
  generic_match true patt (InArray input) charIsStar charIsQuery char_p_EQ_i
    (S (List.length patt + List.length input)) 0 0.

(** The language of a pattern of characters *)
Inductive glob : chars -> chars -> Prop :=
  | glob_nil : glob [] []
  | glob_star ps pre s : glob ps s -> glob ("*"%char :: ps) (pre ++ s)
  | glob_query ps c s : glob ps s -> glob ("?"%char :: ps) (c :: s)
  | glob_char ps c s : c <> "*"%char -> c <> "?"%char -> glob ps s -> glob (c :: ps) (c :: s).


Lemma glob_suffix c ps s : glob ps s -> c = "*"%char -> forall pre, glob (c :: ps) (pre ++ s).
Proof. intros Hg -> pre. by constructor. Qed.

Lemma drop_split {A} (l : list A) i k : (i <= k <= List.length l)%nat ->
  exists pre, drop i l = pre ++ drop k l.
Proof.
  intros H. exists (take (k - i) (drop i l)).
  rewrite <- (take_drop (k - i) (drop i l)) at 1. rewrite drop_drop. by replace (i + (k - i))%nat with k by lia.
Qed.

Lemma charIsStar_true c : charIsStar c = true <-> c = "*"%char.
Proof. apply bool_decide_eq_true. Qed.

Lemma charIsQuery_true c : charIsQuery c = true <-> c = "?"%char.
Proof. apply bool_decide_eq_true. Qed.

Lemma char_p_EQ_i_lit p c i : charIsStar p = false -> charIsQuery p = false ->
  char_p_EQ_i p (Some c) i = Some (bool_decide (p = c)).
Proof. unfold char_p_EQ_i, charIsStar, charIsQuery. by intros -> ->. Qed.

Lemma curr_array (l : chars) k : curr_input (InArray l) k = l !! k.
Proof.
  unfold curr_input, have_input. destruct (Nat.ltb_spec k (List.length l)); [done|].
  symmetry. by apply lookup_ge_None.
Qed.

Lemma drop_cons_lookup {A} (l : list A) i c s : c :: s = drop i l -> l !! i = Some c /\ s = drop (S i) l.
Proof.
  intros Es. assert (Ec : l !! i = Some c).
  { pose proof (lookup_drop l i 0) as HL. rewrite <- Es, Nat.add_0_r in HL. by symmetry. }
  split; [done|]. rewrite (drop_S _ _ _ Ec) in Es. by injection Es.
Qed.

Abbreviation string_matches l := (matches (InArray l) charIsStar charIsQuery char_p_EQ_i).

Lemma matches_glob_1 (l : chars) ps i j : string_matches l ps i j -> j = List.length l ->
  glob ps (drop i l).
Proof.
  induction 1 as [i|p ps i k j Hp Hik Hm IH|p ps i j Hp Hq Hm IH|p ps i j Hp Hq He Hm IH]; intros ->;
    [rewrite drop_all; constructor|pose proof (matches_le _ _ _ _ _ _ _ Hm) as Hle..].
  - destruct (drop_split l i k) as (pre & ->); [lia|].
    apply glob_suffix; [by apply IH|by apply charIsStar_true].
  - apply charIsQuery_true in Hq as ->.
    destruct (lookup_lt_is_Some_2 l i) as (c & Ec); [lia|]. rewrite (drop_S _ _ _ Ec).
    constructor. by apply IH.
  - destruct (lookup_lt_is_Some_2 l i) as (c & Ec); [lia|]. rewrite (drop_S _ _ _ Ec).
    rewrite curr_array, Ec, char_p_EQ_i_lit in He by done.
    injection He as He%bool_decide_eq_true. subst c. constructor; [by intros ->..|by apply IH].
Qed.

Lemma matches_glob_2 (l : chars) ps s : glob ps s -> forall i, (i <= List.length l)%nat ->
  s = drop i l -> string_matches l ps i (List.length l).
Proof.
  induction 1 as [|ps pre s Hg IH|ps c s Hg IH|ps c s H1 H2 Hg IH]; intros i Hi Es.
  - assert (i = List.length l) as ->.
    { pose proof (f_equal List.length Es) as HL. rewrite length_drop in HL. cbn in HL. lia. }
    constructor.
  - eapply (matches_star _ _ _ _ _ _ _ (i + List.length pre)); [done|lia|].
    pose proof (f_equal List.length Es) as HL. rewrite length_drop, length_app in HL.
    apply IH; [lia|]. by rewrite <- drop_drop, <- Es, drop_app_length.
  - apply drop_cons_lookup in Es as [Ec ->]. apply lookup_lt_Some in Ec as Hlt.
    apply matches_query; [done..|]. apply IH; [lia|done].
  - apply drop_cons_lookup in Es as [Ec ->]. apply lookup_lt_Some in Ec as Hlt.
    assert (charIsStar c = false) by (apply not_true_is_false; by rewrite charIsStar_true).
    assert (charIsQuery c = false) by (apply not_true_is_false; by rewrite charIsQuery_true).
    apply matches_elem; [done..| |apply IH; [lia|done]].
    rewrite curr_array, Ec, char_p_EQ_i_lit by done. f_equal. by apply bool_decide_eq_true.
Qed.

(** The pattern matches the input from [i] to the end just when the rest of
    the input is in the language of the pattern. *)
Lemma matches_glob (l : chars) ps i : (i <= List.length l)%nat ->
  string_matches l ps i (List.length l) <-> glob ps (drop i l).
Proof.
  intros H. split; [intros Hm; by apply (matches_glob_1 l ps i _ Hm)|].
  intros Hg. by apply (matches_glob_2 l ps _ Hg).
Qed.

Lemma string_match_spec patt input :
  Z.of_nat (List.length patt) < 1000000 -> Z.of_nat (List.length input) < 1000000 ->
  exists b, string_match patt input = Some b /\ (b = true <-> glob patt input).
Proof.
  intros Hp Hi.
  destruct (generic_match_spec true patt (InArray input) charIsStar charIsQuery char_p_EQ_i
    (List.length input) (conj (fun _ => eq_refl) Hi) Hp) with
    (fuel := S (List.length patt + List.length input)) (ip := O) (i := O) as (b & E & Hb); [|lia..|].
  - intros p i _ H1 H2 Hlt. unfold charIsStar, charIsQuery, char_p_EQ_i in *. rewrite H1, H2.
    cbn [orb]. unfold curr_input, have_input.
    rewrite (proj2 (Nat.ltb_lt _ _)) by done.
    by destruct (lookup_lt_is_Some_2 input i Hlt) as (c & ->).
  - exists b. split; [done|]. rewrite Hb. cbn. rewrite drop_0. rewrite matches_glob by lia. by rewrite drop_0.
Qed.

(** The test cases listed in [m_seqmatch.c] *)
Example string_match_tests :
  List.forallb (fun t => bool_decide (string_match (str t.1.1) (str t.1.2) = Some t.2))
    [("", "", true); ("a", "", false); ("a", "b", false); ("a", "a", true); ("a", "aa", false);
     ("*", "", true); ("**", "", true); ("*", "abc", true); ("*a", "abc", false); ("*b", "abc", false);
     ("*bc", "abc", true); ("a*b", "abc", false); ("a*c", "abc", true); ("*c", "abc", true);
     ("c*c", "abc", false); ("abc*", "abc", true); ("abc**", "abc", true); ("**abc", "abc", true);
     ("**a*b*c**", "abc", true); ("**a*b*d**", "abc", false); ("a?b", "abc", false);
     ("a?c", "abc", true); ("?", "", false); ("?", "a", true); ("?", "ab", false);
     ("abcd", "abc", false); ("ab", "abc", false)]%string = true.
Proof. vm_compute. reflexivity. Qed.
