(* ===== verification/XArrayOf.v ===== *)
(** What clients of an extensible array rely on: the class [XArrayOf] of the
    operations on an array of elements of a type, and its laws against a list
    of elements.  A list is an instance; so is a byte-level [XArray] with an
    encoding of the elements, whose laws follow from the array's theorems. *)
From stdpp Require Import base list.
From Stdlib Require Import ZArith Lia.
From S2P Require Import Prelude Mem LibcMem LibcMemProofs XArray XArrayProofs.
Open Scope prog_scope.
Open Scope Z_scope.

(** ** The interface *)

(** The element [VG_(indexXA)] points to is read with [vindex] and written
    with [vput]; [vinsert] and [vadd] are given the element's value. *)
Class XArrayOf (S E : Type) := {
  vsize : M S Z;
  vindex : Z -> M S E;
  vput : Z -> E -> M S unit;
  vinsert : Z -> E -> M S unit;
  vremove : Z -> M S unit;
  vadd : E -> M S Z
}.

(** [vrep s l]: the array of state [s] holds the elements [l]; [velem e]: the
    element can be stored. *)
Class XArrayRep (S E : Type) := {
  vrep : S -> list E -> Prop;
  velem : E -> Prop
}.

Class XArrayOfLaws (S E : Type) `{XArrayOf S E, XArrayRep S E} : Prop := {
  wp_vsize s l : vrep s l -> wp vsize s (fun n s' => n = Z.of_nat (length l) /\ s' = s);
  wp_vindex s l i e : vrep s l -> Z.of_nat (length l) < 2 ^ 63 -> 0 <= i ->
    l !! Z.to_nat i = Some e ->
    wp (vindex i) s (fun e' s' => e' = e /\ s' = s);
  wp_vput s l i e : vrep s l -> Z.of_nat (length l) < 2 ^ 63 -> 0 <= i < Z.of_nat (length l) -> velem e ->
    wp (vput i e) s (fun _ s' => vrep s' (<[Z.to_nat i := e]> l));
  wp_vinsert s l i e : vrep s l -> 0 <= i <= Z.of_nat (length l) -> velem e ->
    wp (vinsert i e) s (fun _ s' => vrep s' (take (Z.to_nat i) l ++ e :: drop (Z.to_nat i) l));
  wp_vremove s l i : vrep s l -> 0 <= i < Z.of_nat (length l) ->
    wp (vremove i) s (fun _ s' => vrep s' (delete (Z.to_nat i) l));
  wp_vadd s l e : vrep s l -> velem e ->
    wp (vadd e) s (fun i s' => i = Z.of_nat (length l) /\ vrep s' (l ++ [e]))
}.

(** ** Lists *)

Section ListArray.
Context {E : Type}.

Definition in_list (i : Z) (l : list E) : bool := (0 <=? i) && (i <? Z.of_nat (length l)).

#[export] Instance list_array : XArrayOf (list E) E := {
  vsize := gets (fun l => Z.of_nat (length l));
  vindex i := fun l =>
    if 0 <=? i then match l !! Z.to_nat i with Some e => Some (e, l) | None => None end else None;
  vput i e := fun l => if in_list i l then Some (tt, <[Z.to_nat i := e]> l) else None;
  vinsert i e := fun l =>
    if in_list i l || (i =? Z.of_nat (length l))
    then Some (tt, take (Z.to_nat i) l ++ e :: drop (Z.to_nat i) l) else None;
  vremove i := fun l => if in_list i l then Some (tt, delete (Z.to_nat i) l) else None;
  vadd e := fun l => Some (Z.of_nat (length l), l ++ [e])
}.

#[export] Instance list_rep : XArrayRep (list E) E := {
  vrep l l' := l = l';
  velem _ := True
}.

Lemma in_list_true i (l : list E) : 0 <= i < Z.of_nat (length l) -> in_list i l = true.
Proof. intros Hi. unfold in_list. by rewrite (proj2 (Z.leb_le _ _)), (proj2 (Z.ltb_lt _ _)) by lia. Qed.

#[export] Instance list_laws : XArrayOfLaws (list E) E.
Proof.
  split; unfold vrep, list_rep, wp; cbn.
  - by intros s l ->.
  - intros s l i e -> _ Hi E0. by rewrite (proj2 (Z.leb_le _ _)), E0 by done.
  - intros s l i e -> _ Hi _. by rewrite in_list_true.
  - intros s l i e -> Hi _. destruct (Z.eqb_spec i (Z.of_nat (length l))); [by rewrite orb_true_r|].
    by rewrite in_list_true by lia.
  - intros s l i -> Hi. by rewrite in_list_true.
  - by intros s l e -> _.
Qed.
End ListArray.

(** ** Byte-level arrays *)

(** An encoding of elements as a fixed positive number of bytes *)
Class Encoded (E : Type) := {
  esize : Z;
  encode : E -> list Z;
  decode : list Z -> E
}.

Class EncodedLaws (E : Type) `{Encoded E} (ok : E -> Prop) : Prop := {
  esize_pos : 0 < esize;
  encode_ok e : Forall (fun y => 0 <= y < 256) (encode e);
  encode_length e : length (encode e) = Z.to_nat esize;
  decode_encode e : ok e -> decode (encode e) = e
}.

Section ByteArray.
Context {H E : Type} `{AllocatorLaws H} `{Encoded E} (ok : E -> Prop) `{!EncodedLaws E ok}.

(** The array, the memory, and the address of the caller's local variable,
    whose address is passed to the operations that read an element *)
Record byte_array := mk_ba { bst : st (H := H); bxa : XArray; blocal : Z }.

(** An array operation run on the local variable and the array *)
Definition with_elem (e : E) (m : Z -> XArray -> M st XArray) : M byte_array unit := fun s =>
  let s1 := mk_st (write_at (mem (bst s)) (blocal s) (encode e)) (heap (bst s)) in
  match m (blocal s) (bxa s) s1 with
  | Some (xa, s2) => Some (tt, mk_ba s2 xa (blocal s))
  | None => None
  end.

#[export] Instance byte_xarray : XArrayOf byte_array E := {
  vsize := gets (fun s => sizeXA (bxa s));
  vindex i := fun s =>
    match index_elem (bxa s) i (bst s) with
    | Some (b, _) => Some (decode b, s)
    | None => None
    end;
  vput i e := fun s =>
    match indexXA (bxa s) i (bst s) with
    | Some (p, s1) =>
        Some (tt, mk_ba (mk_st (write_at (mem s1) p (encode e)) (heap s1)) (bxa s) (blocal s))
    | None => None
    end;
  vinsert i e := with_elem e (fun p xa => insertIndexXA xa i p);
  vremove i := fun s =>
    match removeIndexXA (bxa s) i (bst s) with
    | Some (xa, s1) => Some (tt, mk_ba s1 xa (blocal s))
    | None => None
    end;
  vadd e := fun s =>
    let s1 := mk_st (write_at (mem (bst s)) (blocal s) (encode e)) (heap (bst s)) in
    match addToXA (bxa s) (blocal s) s1 with
    | Some ((i, xa), s2) => Some (i, mk_ba s2 xa (blocal s))
    | None => None
    end
}.

(** The local variable is allocated, outside the array. *)
Definition local_ok (s : byte_array) : Prop :=
  0 < blocal s /\ live (heap (bst s)) (blocal s) esize /\ apart (blocal s) esize (bxa s).

#[export] Instance byte_rep : XArrayRep byte_array E := {
  vrep s l :=
    xa_ok (bst s) (bxa s) /\ elemSzB (bxa s) = esize /\ usedsizeE (bxa s) = Z.of_nat (length l) /\
    contents (mem (bst s)) (bxa s) = mjoin (encode <$> l) /\ Forall ok l /\ local_ok s;
  velem := ok
}.

(** *** Lists of encoded elements *)

Lemma encoded_cons e (l : list E) : mjoin (encode <$> e :: l) = encode e ++ mjoin (encode <$> l).
Proof using Type. done. Qed.

Lemma length_encoded (l : list E) : length (mjoin (encode <$> l)) = (length l * Z.to_nat esize)%nat.
Proof using All.
  induction l as [|e l IH]; [done|]. rewrite encoded_cons, length_app, IH, encode_length. done.
Qed.

Lemma take_encoded (l : list E) i :
  take (i * Z.to_nat esize) (mjoin (encode <$> l)) = mjoin (encode <$> take i l).
Proof using All.
  revert i. induction l as [|e l IH]; intros [|i]; [done|apply (take_nil (A := Z))|done|].
  cbn [take]. rewrite !encoded_cons, take_app, encode_length. rewrite take_ge by (rewrite encode_length; nia). f_equal.
  rewrite <- IH. f_equal. nia.
Qed.

Lemma drop_encoded (l : list E) i :
  drop (i * Z.to_nat esize) (mjoin (encode <$> l)) = mjoin (encode <$> drop i l).
Proof using All.
  revert i. induction l as [|e l IH]; intros [|i]; [done|apply (drop_nil (A := Z))|done|].
  cbn [drop]. rewrite !encoded_cons, drop_app, encode_length. rewrite drop_ge by (rewrite encode_length; nia). cbn [app].
  rewrite <- IH. f_equal. nia.
Qed.

Lemma index_nat (i : Z) : 0 <= i -> Z.to_nat (i * esize) = (Z.to_nat i * Z.to_nat esize)%nat.
Proof using All. pose proof esize_pos. nia. Qed.

Lemma elem_encoded s l i e : vrep s l -> 0 <= i -> l !! Z.to_nat i = Some e ->
  elem_at (mem (bst s)) (bxa s) i = encode e.
Proof using All.
  intros (Hok & He & Hu & Hc & _) Hi El. apply lookup_lt_Some in El as Hlt.
  pose proof esize_pos. unfold elem_at. rewrite He.
  pose proof (drop_contents (mem (bst s)) (bxa s) i ltac:(lia) ltac:(lia)) as Hd.
  rewrite He, Hc, index_nat, drop_encoded in Hd by done.
  rewrite <- (take_bytes_at _ _ (Z.to_nat ((usedsizeE (bxa s) - i) * esize))) by nia.
  rewrite <- Hd, (drop_S _ _ _ El). cbn. rewrite take_app_length' by (by rewrite encode_length). done.
Qed.

(** *** The laws *)

(** Writing the local variable leaves the array as it is. *)
Lemma local_written s l e : vrep s l ->
  let s1 := mk_st (write_at (mem (bst s)) (blocal s) (encode e)) (heap (bst s)) in
  xa_ok s1 (bxa s) /\ contents (mem s1) (bxa s) = mjoin (encode <$> l) /\
  source s1 (bxa s) (blocal s) /\ bytes_at (mem s1) (blocal s) (Z.to_nat (elemSzB (bxa s))) = encode e.
Proof using All.
  intros ((Hm & Hp & Hu & Ha) & He & Hn & Hc & _ & Hl1 & Hl2 & Hl3) s1. pose proof esize_pos.
  rewrite He. split; [|split; [|split]].
  - split; [apply write_at_ok; [done|apply encode_ok]|done].
  - rewrite <- Hc. apply bytes_at_ext. intros x Hx. apply write_at_off. rewrite encode_length.
    unfold apart, cap in Hl3. destruct Hl3 as [Ht|Hl3]; [rewrite Hn, Ht in *; nia|nia].
  - unfold source. by rewrite He.
  - cbn [mem s1]. rewrite <- (encode_length e). apply write_at_on.
Qed.

(** What a change of the array keeps *)
Lemma listed_after s l s' xa' l' n : vrep s l -> Forall ok l' -> xa_ok s' xa' ->
  frame (mk_st n (heap (bst s))) s' (bxa s) xa' -> elemSzB xa' = elemSzB (bxa s) ->
  usedsizeE xa' = Z.of_nat (length l') -> contents (mem s') xa' = mjoin (encode <$> l') ->
  vrep (mk_ba s' xa' (blocal s)) l'.
Proof using All.
  intros (Hok & He & Hu & Hc & Hall & Hl1 & Hl2 & Hl3) Hl' Hok' F Ee Eu Ec.
  destruct (F (blocal s) esize Hl2 Hl3) as (Hl2' & Hl3' & _).
  split; [done|]. split; [cbn; congruence|]. do 3 (split; [done|]). by split_and!.
Qed.

Lemma byte_vinsert s l i e : vrep s l -> 0 <= i <= Z.of_nat (length l) -> ok e ->
  wp (vinsert i e) s (fun _ s' => vrep s' (take (Z.to_nat i) l ++ e :: drop (Z.to_nat i) l)).
Proof using All.
  intros Hr Hi Hok. destruct (local_written s l e Hr) as (Hx & Hc & Hs & Hb).
  pose proof Hr as (_ & He & Hu & _ & Hall & _).
  unfold wp, vinsert, byte_xarray, with_elem. apply (wp_elim (insertIndexXA (bxa s) i (blocal s))
    (mk_st (write_at (mem (bst s)) (blocal s) (encode e)) (heap (bst s)))).
  apply wp_insertIndexXA; [done|done|lia|]. intros xa' s' Hx' F Eu Ee _ Ec ->.
  eapply listed_after; [done| |done|done|done| |].
  - apply Forall_app. split; [by apply Forall_take|]. constructor; [done|by apply Forall_drop].
  - rewrite Eu, Hu, length_app. cbn. rewrite length_take, length_drop. lia.
  - rewrite Ec, Hc, Hb, He, index_nat, take_encoded, drop_encoded by lia.
    by rewrite fmap_app, join_app, fmap_cons.
Qed.

Lemma byte_vadd s l e : vrep s l -> ok e ->
  wp (vadd e) s (fun i s' => i = Z.of_nat (length l) /\ vrep s' (l ++ [e])).
Proof using All.
  intros Hr Hok. destruct (local_written s l e Hr) as (Hx & Hc & Hs & Hb).
  pose proof Hr as (_ & He & Hu & _ & Hall & _).
  unfold wp, vadd, byte_xarray. apply (wp_elim (addToXA (bxa s) (blocal s))
    (mk_st (write_at (mem (bst s)) (blocal s) (encode e)) (heap (bst s)))).
  apply wp_addToXA; [done|done|]. intros xa' s' Hx' F Eu Ee Ec ->. split; [done|].
  eapply listed_after; [done| |done|done|done| |].
  - apply Forall_app. by split; [|apply Forall_singleton].
  - rewrite Eu, Hu, length_app. cbn. lia.
  - by rewrite Ec, Hc, Hb, fmap_app, join_app, <- (app_nil_r (encode e)).
Qed.

Lemma byte_vremove s l i : vrep s l -> 0 <= i < Z.of_nat (length l) ->
  wp (vremove i) s (fun _ s' => vrep s' (delete (Z.to_nat i) l)).
Proof using All.
  intros Hr Hi. pose proof Hr as (Hx & He & Hu & Hc & Hall & _).
  unfold wp, vremove, byte_xarray. apply (wp_elim (removeIndexXA (bxa s) i) (bst s)).
  apply wp_removeIndexXA; [done|lia|]. intros xa' s' Hx' F Eu Ee _ Ec ->.
  eapply (listed_after s l _ _ _ (mem (bst s))); [done| |done|by destruct (bst s)|done| |].
  - rewrite delete_take_drop. apply Forall_app. split; [by apply Forall_take|by apply Forall_drop].
  - rewrite Eu, Hu, length_delete by (apply lookup_lt_is_Some_2; lia). lia.
  - rewrite Ec, Hc, He, !index_nat, take_encoded, drop_encoded, delete_take_drop by lia.
    rewrite fmap_app, join_app. do 4 f_equal. lia.
Qed.

Lemma byte_vindex s l i e : vrep s l -> Z.of_nat (length l) < 2 ^ 63 -> 0 <= i ->
  l !! Z.to_nat i = Some e -> wp (vindex i) s (fun e' s' => e' = e /\ s' = s).
Proof using All.
  intros Hr Hlt Hi El. pose proof Hr as (Hx & _ & Hu & _ & Hall & _). apply lookup_lt_Some in El as Hl.
  unfold wp, vindex, byte_xarray. apply (wp_elim (index_elem (bxa s) i) (bst s)).
  apply wp_index_elem; [done|lia|lia|]. intros ->. split; [|done].
  rewrite (elem_encoded s l i e) by done. apply decode_encode.
  eapply (Forall_lookup_1 ok); eassumption.
Qed.

Lemma byte_vput s l i e : vrep s l -> Z.of_nat (length l) < 2 ^ 63 -> 0 <= i < Z.of_nat (length l) ->
  ok e -> wp (vput i e) s (fun _ s' => vrep s' (<[Z.to_nat i := e]> l)).
Proof using All.
  intros Hr Hlt Hi Hoe. pose proof Hr as (Hx & He & Hu & Hc & Hall & _). pose proof esize_pos as Hsz.
  pose proof Hx as (Hm & Hp & Hut & _). unfold wp, vput, byte_xarray, indexXA, vg_assert, bind.
  rewrite !u64_small, (proj2 (Z.ltb_lt _ _)) by lia. cbn [ret].
  destruct (slot_bounds (bxa s) i Hp ltac:(lia)) as [B1 B2]. rewrite He in *.
  set (p := arr (bxa s) + i * esize). set (m' := write_at (mem (bst s)) p (encode e)).
  assert (forall x, x < p \/ p + esize <= x -> m' x = mem (bst s) x) as Hout.
  { intros x Hd. apply write_at_off. rewrite encode_length. lia. }
  destruct (write_inside (bxa s) (bst s) m' p esize (usedsizeE (bxa s)) (xsorted (bxa s)) Hx) as [Hx' F].
  { apply write_at_ok; [done|apply encode_ok]. }
  { done. } { lia. } { lia. } { lia. } { lia. }
  assert (set_used (bxa s) (usedsizeE (bxa s)) (xsorted (bxa s)) = bxa s) as Eset by by destruct (bxa s).
  rewrite Eset in *. eapply (listed_after s l _ _ _ (mem (bst s))); [done| |done|by destruct (bst s)|done| |].
  - by apply Forall_insert.
  - by rewrite length_insert.
  - cbn [mem]. rewrite insert_take_drop, fmap_app, join_app, fmap_cons by lia.
    rewrite <- take_encoded, <- index_nat, <- Hc, <- He, take_contents by lia.
    change (mjoin (encode e :: ?x)) with (encode e ++ mjoin x).
    replace (S (Z.to_nat i)) with (Z.to_nat (i + 1)) by lia.
    rewrite <- drop_encoded, <- (index_nat (i + 1)), <- Hc, <- He, drop_contents by lia.
    rewrite (contents_split m' _ i) by lia. rewrite He.
    replace (Z.to_nat ((usedsizeE (bxa s) - i) * esize)) with
      (Z.to_nat esize + Z.to_nat ((usedsizeE (bxa s) - (i + 1)) * esize))%nat by nia.
    rewrite bytes_at_app. f_equal; [|f_equal].
    + apply bytes_at_ext. intros x Hd. apply Hout. unfold p. lia.
    + rewrite <- (encode_length e). apply write_at_on.
    + replace (arr (bxa s) + i * esize + Z.of_nat (Z.to_nat esize)) with
        (arr (bxa s) + (i + 1) * esize) by lia.
      apply bytes_at_ext. intros x Hd. apply Hout. unfold p. lia.
Qed.

#[export] Instance byte_laws : XArrayOfLaws byte_array E.
Proof using All.
  split; [|apply byte_vindex|apply byte_vput|apply byte_vinsert|apply byte_vremove|apply byte_vadd].
  intros s l (_ & _ & Hu & _). by apply wp_gets.
Qed.
End ByteArray.

(** ** Words *)

(** A word as [n] bytes, the low byte first *)
Fixpoint le_bytes (n : nat) (x : Z) : list Z :=
  match n with O => [] | S n => x mod 256 :: le_bytes n (x / 256) end.

Fixpoint le_word (b : list Z) : Z :=
  match b with [] => 0 | y :: b => y + 256 * le_word b end.

Lemma le_bytes_length n x : length (le_bytes n x) = n.
Proof. revert x. induction n as [|n IH]; intros x; cbn; [done|]. by rewrite IH. Qed.

Lemma le_bytes_ok n x : Forall (fun y => 0 <= y < 256) (le_bytes n x).
Proof.
  revert x. induction n as [|n IH]; intros x; cbn; constructor; [|apply IH].
  by apply Z.mod_pos_bound.
Qed.

Lemma le_word_bytes n x : 0 <= x < 256 ^ Z.of_nat n -> le_word (le_bytes n x) = x.
Proof.
  revert x. induction n as [|n IH]; intros x Hx; cbn [le_bytes le_word]; [cbn in Hx; lia|].
  rewrite IH; [pose proof (Z.div_mod x 256 ltac:(lia)); lia|].
  rewrite Nat2Z.inj_succ, Z.pow_succ_r in Hx by lia.
  split; [apply Z.div_pos; lia|]. apply Z.div_lt_upper_bound; lia.
Qed.
