(* ===== verification/PoolAlloc.v ===== *)
(** The pool allocator, [coregrind/m_poolalloc.c]: elements of one size are
    carved out of large blocks, the pools, and those not in use are linked
    through their first words.  The [PoolAlloc] structure is passed and
    returned by value, like the [XArray] it contains; memory and the
    underlying allocator are the state. *)
From stdpp Require Import base list.
From Stdlib Require Import ZArith Lia.
From S2P Require Import Prelude Mem LibcMem LibcMemProofs XArray.
Open Scope prog_scope.
Open Scope Z_scope.

Section Pool.
Context {H : Type} `{Allocator H}.

Record PoolAlloc := mk_pa {
  pself : Z;
  nrRef : Z;
  pa_elemSzB : Z;
  nPerPool : Z;
  pools : XArray;
  nextFree : Z
}.

Definition set_nrRef (n : Z) (pa : PoolAlloc) : PoolAlloc :=
  mk_pa (pself pa) n (pa_elemSzB pa) (nPerPool pa) (pools pa) (nextFree pa).
Definition set_nextFree (p : Z) (pa : PoolAlloc) : PoolAlloc :=
  mk_pa (pself pa) (nrRef pa) (pa_elemSzB pa) (nPerPool pa) (pools pa) p.
Definition set_pools (xa : XArray) (pa : PoolAlloc) : PoolAlloc :=
  mk_pa (pself pa) (nrRef pa) (pa_elemSzB pa) (nPerPool pa) xa (nextFree pa).

(** The word at an address; there is none at NULL. *)
Definition load_word (p : Z) : M (st (H := H)) Z := if p =? 0 then fail else gets (fun s => load_le 8 (mem s) p).
Definition store_word (p v : Z) : M (st (H := H)) unit := if p =? 0 then fail else on_mem (fun m => store_le 8 m p v).

Definition sizeof_PoolAlloc : Z := 64.

Definition newPA (elemSzB nPerPool : Z) : M (st (H := H)) PoolAlloc :=
  vg_assert (0 =? elemSzB mod 8) ;;;
  vg_assert (8 <=? elemSzB) ;;;
  vg_assert (100 <=? nPerPool) ;;;
  pa <- alloc sizeof_PoolAlloc ;;
  on_mem (fun m => memset m pa 0 sizeof_PoolAlloc) ;;;
  xa <- newXA 8 ;;
  ret (mk_pa pa 0 elemSzB nPerPool xa 0).

(** Frees the [n] pools from index [i] on. *)
Fixpoint delete_pools (n : nat) (xa : XArray) (i : Z) : M (st (H := H)) unit :=
  match n with
  | O => ret tt
  | S n =>
      e <- indexXA xa i ;;
      p <- load_word e ;;
      free p ;;;
      delete_pools n xa (i + 1)
  end.

Definition deletePA (pa : PoolAlloc) : M (st (H := H)) unit :=
  vg_assert (nrRef pa =? 0) ;;;
  delete_pools (Z.to_nat (sizeXA (pools pa))) (pools pa) 0 ;;;
  deleteXA (pools pa) ;;;
  free (pself pa).

(** The elements of a new pool, from index [n - 1] down to 0, are put on the
    free list [next]. *)
Fixpoint thread_pool (n : nat) (pool elemSzB next : Z) : M (st (H := H)) Z :=
  match n with
  | O => ret next
  | S i =>
      let elem := pool + Z.of_nat i * elemSzB in
      vg_assert (0 =? elem mod 8) ;;;
      store_word elem next ;;;
      thread_pool i pool elemSzB elem
  end.

(** [pool_addr] is the address of the local variable [pool]. *)
Definition pal_add_new_pool (pool_addr : Z) (pa : PoolAlloc) : M (st (H := H)) PoolAlloc :=
  vg_assert (nextFree pa =? 0) ;;;
  pool <- alloc (u64 (pa_elemSzB pa * nPerPool pa)) ;;
  next <- thread_pool (Z.to_nat (nPerPool pa)) pool (pa_elemSzB pa) (nextFree pa) ;;
  store_word pool_addr pool ;;;
  r <- addToXA (pools pa) pool_addr ;;
  ret (set_pools r.2 (set_nextFree next pa)).

Definition sizePA (pa : PoolAlloc) : Z := u64 (nPerPool pa * sizeXA (pools pa)).

Definition allocEltPA (pool_addr : Z) (pa : PoolAlloc) : M (st (H := H)) (Z * PoolAlloc) :=
  pa <- (if nextFree pa =? 0 then pal_add_new_pool pool_addr pa else ret pa) ;;
  let elem := nextFree pa in
  next <- load_word elem ;;
  store_word elem 0 ;;;
  ret (elem, set_nextFree next pa).

Definition freeEltPA (pa : PoolAlloc) (p : Z) : M (st (H := H)) PoolAlloc :=
  store_word p (nextFree pa) ;;;
  ret (set_nextFree p pa).

Definition addRefPA (pa : PoolAlloc) : PoolAlloc := set_nrRef (u64 (nrRef pa + 1)) pa.

(** The number of references left; the structure is gone when there are
    none. *)
Definition releasePA (pa : PoolAlloc) : M (st (H := H)) (Z * PoolAlloc) :=
  vg_assert (0 <? nrRef pa) ;;;
  let nr := u64 (nrRef pa - 1) in
  (if nr =? 0 then deletePA (set_nrRef nr pa) else ret tt) ;;;
  ret (nr, set_nrRef nr pa).
End Pool.
