(* ===== verification/PoolAllocProofs.v ===== *)
(** The pool allocator ([PoolAlloc]): its invariant - its blocks, the list of
    free elements that is threaded through memory, and the elements in use -
    its operations, creation and deletion. *)
From stdpp Require Import base gmap list sets.
From Stdlib Require Import ZArith Lia.
From S2P Require Import Prelude Mem LibcMem LibcMemProofs XArray XArrayProofs XArrayOf PoolAlloc.
Open Scope prog_scope.
Open Scope Z_scope.

(** ** Words and bytes *)

Lemma load_le_word n m a : bytes_ok m -> load_le n m a = le_word (bytes_at m a n).
Proof.
  intros Hm. revert a. induction n as [|n IH]; intros a; [done|]. cbn [bytes_at le_word]. rewrite <- IH.
  by apply load_le_cons.
Qed.

Lemma bytes_at_store n : forall m a v, bytes_at (store_le n m a v) a n = le_bytes n v.
Proof.
  induction n as [|n IH]; intros m a v; [done|]. cbn [bytes_at store_le le_bytes]. f_equal.
  - rewrite store_le_outside by lia. unfold upd. by rewrite Z.eqb_refl.
  - rewrite IH, Z.shiftr_div_pow2 by lia. done.
Qed.

Lemma words_cons x l : mjoin (le_bytes 8 <$> x :: l) = le_bytes 8 x ++ mjoin (le_bytes 8 <$> l).
Proof. done. Qed.

(** The word at an index of a list of words *)
Lemma drop_words l i x : l !! i = Some x ->
  take 8 (drop (i * 8) (mjoin (le_bytes 8 <$> l))) = le_bytes 8 x.
Proof.
  revert i. induction l as [|y l IH]; intros [|i] E; try done; rewrite words_cons.
  - injection E as ->. by rewrite Nat.mul_0_l, drop_0, take_app_length' by (by rewrite le_bytes_length).
  - rewrite drop_app, drop_ge by (rewrite le_bytes_length; lia).
    rewrite le_bytes_length. replace (S i * 8 - 8)%nat with (i * 8)%nat by lia. by apply IH.
Qed.

(** Room for allocations: the underlying allocator has the number of bytes
    left below the end of the address space.  A block takes up to 64 bytes
    more than it has; blocks start at multiples of 8. *)
Class AllocatorSpace (H : Type) `{Allocator H} := {
  space : H -> Z -> Prop;
  space_alloc n k h : 0 <= n -> 0 <= k -> space h (n + 64 + k) ->
    (alloc_fn n h).1 + n < 2 ^ 64 /\ (alloc_fn n h).1 mod 8 = 0 /\ space (alloc_fn n h).2 k;
  space_free p h k : space h k -> space (free_fn p h) k;
  space_le h k k' : k' <= k -> space h k -> space h k'
}.

Section Pool.
Context {H : Type} `{AllocatorLaws H} `{!AllocatorSpace H}.
Abbreviation PST := (st (H := H)).
Implicit Types (s : PST) (m : gmem) (pa : PoolAlloc) (ps l : list Z) (p q a : Z).

(** ** Elements *)

Definition slots_of (es n p : Z) : list Z := (fun i => p + i * es) <$> seqZ 0 n.
Definition slots (es n : Z) ps : list Z := ps ≫= slots_of es n.

Lemma elem_slots_of es n p a : a ∈ slots_of es n p <-> exists i, 0 <= i < n /\ a = p + i * es.
Proof.
  unfold slots_of. rewrite list_elem_of_fmap. split.
  - intros (i & -> & Hi%elem_of_seqZ). exists i. split; [lia|done].
  - intros (i & Hi & ->). exists i. split; [done|]. apply elem_of_seqZ. lia.
Qed.

Lemma elem_slots es n ps a : a ∈ slots es n ps <-> exists p i, p ∈ ps /\ 0 <= i < n /\ a = p + i * es.
Proof.
  unfold slots. rewrite list_elem_of_bind. setoid_rewrite elem_slots_of. naive_solver.
Qed.

Lemma slots_app es n ps qs : slots es n (ps ++ qs) = slots es n ps ++ slots es n qs.
Proof. apply bind_app. Qed.

Lemma slots_length es n ps : 0 <= n -> Z.of_nat (length (slots es n ps)) = Z.of_nat (length ps) * n.
Proof.
  intros Hn. induction ps as [|p ps IH]; [done|]. unfold slots in *. cbn [mbind list_bind]. rewrite length_app.
  unfold slots_of at 1. rewrite length_fmap, length_seqZ. cbn. lia.
Qed.

(** ** The free list *)

Fixpoint freelist m p l : Prop :=
  match l with
  | [] => p = 0
  | a :: l => p = a /\ a <> 0 /\ freelist m (load_le 8 m a) l
  end.

Lemma freelist_ext m m' p l : (forall a, a ∈ l -> load_le 8 m' a = load_le 8 m a) -> freelist m p l -> freelist m' p l.
Proof.
  revert p. induction l as [|a l IH]; intros p Hl; [done|]. cbn [freelist]. intros (-> & Ha & Hf).
  split; [done|]. split; [done|]. rewrite Hl by (by left). apply IH; [|done]. intros b Hb. apply Hl. by right.
Qed.

(** ** The invariant *)

Definition disjoint_blocks (k p q : Z) : Prop := p + k <= q \/ q + k <= p.

(** Bytes of one pool *)
Definition pool_bytes pa : Z := pa_elemSzB pa * nPerPool pa.

Record block_ok s pa (p : Z) : Prop := {
  bl_pos : 0 < p;
  bl_aligned : p mod 8 = 0;
  bl_end : p + pool_bytes pa < 2 ^ 64;
  bl_live : live (heap s) p (pool_bytes pa);
  bl_apart : apart p (pool_bytes pa) (pools pa)
}.

(** [k] bytes at [q] that are allocated and not the pool allocator's *)
Record foreign s pa ps (q k : Z) : Prop := {
  fo_pos : 0 < q;
  fo_live : live (heap s) q k;
  fo_apart : apart q k (pools pa);
  fo_pools p : p ∈ ps -> q + k <= p \/ p + pool_bytes pa <= q
}.

(** The pools [ps], the elements [used], and the free ones in order *)
Record pa_ok s pa ps (used : gset Z) (fr : list Z) : Prop := {
  po_size : 8 <= pa_elemSzB pa /\ pa_elemSzB pa mod 8 = 0 /\ 100 <= nPerPool pa /\ pool_bytes pa < 2 ^ 64;
  po_xa : xa_ok s (pools pa);
  po_words : elemSzB (pools pa) = 8 /\ usedsizeE (pools pa) = Z.of_nat (length ps) /\
    contents (mem s) (pools pa) = mjoin (le_bytes 8 <$> ps);
  po_blocks : Forall (block_ok s pa) ps;
  po_disjoint : ForallOrdPairs (disjoint_blocks (pool_bytes pa)) ps;
  po_free : freelist (mem s) (nextFree pa) fr;
  po_slots : elements used ++ fr ≡ₚ slots (pa_elemSzB pa) (nPerPool pa) ps;
  po_self : foreign s pa ps (pself pa) sizeof_PoolAlloc;
  po_xself : foreign s pa ps (xself (pools pa)) sizeof_XArray;
  po_structs : pself pa + sizeof_PoolAlloc <= xself (pools pa) \/ xself (pools pa) + sizeof_XArray <= pself pa
}.

(** Room for [k] more elements, each in a new pool *)
Definition elem_cost pa (k : nat) : Z :=
  (pool_bytes pa + 64) + (8 * (2 + 2 * (usedsizeE (pools pa) + Z.of_nat k)) + 64).
Definition pa_room s pa (k : nat) : Prop := space (heap s) (Z.of_nat k * elem_cost pa k).

Lemma pa_ok_size s pa ps used fr : pa_ok s pa ps used fr ->
  8 <= pa_elemSzB pa /\ pa_elemSzB pa mod 8 = 0 /\ 100 <= nPerPool pa /\ 0 < pool_bytes pa < 2 ^ 64.
Proof using Type. intros [Hs _ _ _ _ _ _ _ _ _]. unfold pool_bytes in *. nia. Qed.

(** *** Elements of a pool *)

Lemma disjoint_sym k p q : disjoint_blocks k p q -> disjoint_blocks k q p.
Proof. unfold disjoint_blocks. lia. Qed.

Lemma pairs_disjoint k ps p q : ForallOrdPairs (disjoint_blocks k) ps -> p ∈ ps -> q ∈ ps -> p <> q ->
  disjoint_blocks k p q.
Proof.
  induction 1 as [|x ps Hx Hps IH]; [by intros ?%not_elem_of_nil|]. rewrite Forall_forall in Hx.
  intros [->|Hp]%elem_of_cons [->|Hq]%elem_of_cons Hne; [done|by apply Hx| |by apply IH].
  by apply disjoint_sym, Hx.
Qed.

Lemma slot_range es n p a : 0 < es -> a ∈ slots_of es n p -> p <= a /\ a + es <= p + es * n.
Proof. intros Hes (i & Hi & ->)%elem_slots_of. nia. Qed.

Lemma slot_aligned es n p a : es mod 8 = 0 -> p mod 8 = 0 -> a ∈ slots_of es n p -> a mod 8 = 0.
Proof.
  intros He Hp (i & _ & ->)%elem_slots_of. apply Z.mod_divide in He as [x ->]; [|done].
  apply Z.mod_divide in Hp as [y ->]; [|done]. apply Z.mod_divide; [done|]. exists (y + i * x). lia.
Qed.

(** An element's pool *)
Lemma slot_pool s pa ps used fr a : pa_ok s pa ps used fr -> a ∈ slots (pa_elemSzB pa) (nPerPool pa) ps ->
  exists p, p ∈ ps /\ a ∈ slots_of (pa_elemSzB pa) (nPerPool pa) p /\ block_ok s pa p /\
    p <= a /\ a + pa_elemSzB pa <= p + pool_bytes pa.
Proof using Type.
  intros Hok (p & i & Hp & Hi & Ea)%elem_slots. pose proof (pa_ok_size _ _ _ _ _ Hok) as (Hes & _ & _ & _).
  assert (a ∈ slots_of (pa_elemSzB pa) (nPerPool pa) p) as Ha by (apply elem_slots_of; eauto).
  exists p. split; [done|]. split; [done|]. split; [by eapply Forall_forall; [apply Hok|]|].
  unfold pool_bytes. apply slot_range; [lia|done].
Qed.

(** Two elements do not overlap. *)
Lemma slots_disjoint s pa ps used fr a b : pa_ok s pa ps used fr ->
  a ∈ slots (pa_elemSzB pa) (nPerPool pa) ps -> b ∈ slots (pa_elemSzB pa) (nPerPool pa) ps -> a <> b ->
  disjoint_blocks (pa_elemSzB pa) a b.
Proof using Type.
  intros Hok Ha Hb Hne. destruct (slot_pool _ _ _ _ _ _ Hok Ha) as (p & Hp & Hap & _ & Ra).
  destruct (slot_pool _ _ _ _ _ _ Hok Hb) as (q & Hq & Hbq & _ & Rb).
  pose proof (pa_ok_size _ _ _ _ _ Hok) as (Hes & _ & _ & _). unfold disjoint_blocks.
  destruct (decide (p = q)) as [->|Hpq].
  - apply elem_slots_of in Hap as (i & Hi & Ea). apply elem_slots_of in Hbq as (j & Hj & Eb). subst.
    destruct (Z.lt_trichotomy i j) as [?|[->|?]]; [left; nia|done|right; nia].
  - destruct (pairs_disjoint _ _ _ _ (po_disjoint _ _ _ _ _ Hok) Hp Hq Hpq); lia.
Qed.

Lemma used_slot s pa ps used fr a : pa_ok s pa ps used fr -> a ∈ used -> a ∈ slots (pa_elemSzB pa) (nPerPool pa) ps.
Proof using Type. intros Hok Ha. rewrite <- (po_slots _ _ _ _ _ Hok). apply elem_of_app. left. by apply elem_of_elements. Qed.

Lemma free_slot s pa ps used fr a : pa_ok s pa ps used fr -> a ∈ fr -> a ∈ slots (pa_elemSzB pa) (nPerPool pa) ps.
Proof using Type. intros Hok Ha. rewrite <- (po_slots _ _ _ _ _ Hok). apply elem_of_app. by right. Qed.
End Pool.

(** * The operations of the pool allocator keep its invariant: an element that
    is handed out is not in use and overlaps no other, and no operation
    changes an element in use or memory that is not the pool's. *)

Section Pool.
Context {H : Type} `{AllocatorLaws H} `{!AllocatorSpace H}.
Abbreviation PST := (st (H := H)).
Implicit Types (s : PST) (m : gmem) (pa : PoolAlloc) (ps l : list Z) (p q a : Z).

(** ** Words *)

Lemma wp_load_word p s (Q : Z -> PST -> Prop) : p <> 0 -> Q (load_le 8 (mem s) p) s -> wp (load_word p) s Q.
Proof using Type. intros Hp HQ. unfold load_word. rewrite (proj2 (Z.eqb_neq _ _) Hp). by apply wp_gets. Qed.

Lemma wp_store_word p v s (Q : unit -> PST -> Prop) : p <> 0 ->
  Q tt (mk_st (store_le 8 (mem s) p v) (heap s)) -> wp (store_word p v) s Q.
Proof using Type. intros Hp HQ. unfold store_word. rewrite (proj2 (Z.eqb_neq _ _) Hp). by apply wp_on_mem. Qed.

(** ** A new pool *)

Lemma slots_of_snoc es n p : 0 <= n -> slots_of es (n + 1) p = slots_of es n p ++ [p + n * es].
Proof using Type.
  intros Hn. unfold slots_of. rewrite seqZ_app, fmap_app by lia. done.
Qed.

(** The elements [0] to [n - 1] of a pool are put in front of a free list. *)
Lemma wp_thread_pool n pool es : 0 < pool -> 8 <= es -> es mod 8 = 0 -> pool mod 8 = 0 ->
  pool + Z.of_nat n * es < 2 ^ 64 -> forall next fr s (Q : Z -> PST -> Prop),
  bytes_ok (mem s) -> 0 <= next < 2 ^ 64 -> freelist (mem s) next fr ->
  (forall a, a ∈ fr -> a + 8 <= pool \/ pool + Z.of_nat n * es <= a) ->
  (forall next' m', bytes_ok m' -> freelist m' next' (slots_of es (Z.of_nat n) pool ++ fr) ->
     same_outside pool (Z.of_nat n * es) (mem s) m' -> Q next' (mk_st m' (heap s))) ->
  wp (thread_pool n pool es next) s Q.
Proof using Type.
  intros Hp Hes Hes8 Hp8. induction n as [|n IH]; intros Hend next fr s Q Hm Hnext Hf Hout HQ.
  { apply wp_ret. destruct s. by apply HQ. }
  cbn [thread_pool]. set (e := pool + Z.of_nat n * es).
  assert (e mod 8 = 0) as He8 by (eapply (slot_aligned es (Z.of_nat (S n)) pool); [done|done|apply elem_slots_of; exists (Z.of_nat n); lia]).
  apply wp_bind, wp_assert; [by apply Z.eqb_eq|]. apply wp_bind, wp_store_word; [lia|].
  set (m1 := store_le 8 (mem s) e next).
  assert (same_outside e 8 (mem s) m1) as Hm1 by (apply (store_le_outside 8)).
  assert (load_le 8 m1 e = next) as Hload by (by apply load_store_same).
  apply IH with (fr := e :: fr); [lia|by apply store_le_ok|lia| | |].
  - cbn [freelist mem]. split; [done|]. split; [lia|]. rewrite Hload. eapply freelist_ext; [|done].
    intros a Ha. apply load_le_ext. intros x Hx. apply Hm1. destruct (Hout a Ha); lia.
  - intros a [->|Ha]%elem_of_cons; [lia|]. destruct (Hout a Ha); lia.
  - cbn [mem heap]. intros next' m' Hm' Hf' Ho'. apply HQ; [done| |].
    + replace (Z.of_nat (S n)) with (Z.of_nat n + 1) by lia. rewrite slots_of_snoc, <- app_assoc by lia. done.
    + intros x Hx. rewrite Ho' by lia. apply Hm1. lia.
Qed.

(** What the block at [p] is after it was allocated and threaded, and its
    address was put in the variable at [v] *)
Record carved s s' pa (v p next k : Z) : Prop := {
  ca_pos : 0 < p;
  ca_aligned : p mod 8 = 0;
  ca_end : p + pool_bytes pa < 2 ^ 64;
  ca_new : live (heap s') p (pool_bytes pa);
  ca_live q n : live (heap s) q n -> live (heap s') q n /\ (q + n <= p \/ p + pool_bytes pa <= q);
  ca_bytes : bytes_ok (mem s');
  ca_mem x : x < p \/ p + pool_bytes pa <= x -> x < v \/ v + 8 <= x -> mem s' x = mem s x;
  ca_word : bytes_at (mem s') v 8 = le_bytes 8 p;
  ca_free : freelist (mem s') next (slots_of (pa_elemSzB pa) (nPerPool pa) p);
  ca_space : space (heap s') k
}.

Lemma wp_carve {A} s pa ps used fr (v k : Z) (K : Z -> Z -> M PST A) (Q : A -> PST -> Prop) :
  pa_ok s pa ps used fr -> 0 < v -> live (heap s) v 8 -> 0 <= k -> space (heap s) (pool_bytes pa + 64 + k) ->
  (forall p next s', carved s s' pa v p next k -> wp (K p next) s' Q) ->
  wp (pool <- alloc (u64 (pa_elemSzB pa * nPerPool pa)) ;;
      next <- thread_pool (Z.to_nat (nPerPool pa)) pool (pa_elemSzB pa) 0 ;;
      store_word v pool ;;; K pool next) s Q.
Proof using All.
  intros Hok Hv Hlv Hk Hsp HQ. pose proof (pa_ok_size _ _ _ _ _ Hok) as (Hes & Hes8 & Hn & HB).
  change (pa_elemSzB pa * nPerPool pa) with (pool_bytes pa). rewrite u64_small by lia. set (B := pool_bytes pa) in *.
  apply wp_bind, wp_alloc.
  destruct (space_alloc B k (heap s) ltac:(lia) Hk Hsp) as (Hend & Hal & Hsp').
  pose proof (alloc_pos B (heap s) ltac:(lia)) as Hpos. pose proof (alloc_live B (heap s) ltac:(lia)) as Hlive.
  pose proof (fun q n => alloc_fresh B (heap s) q n ltac:(lia)) as Hfresh.
  destruct (alloc_fn B (heap s)) as [p h']. cbn [fst snd] in *.
  assert (Z.of_nat (Z.to_nat (nPerPool pa)) * pa_elemSzB pa = B) as EB by (unfold B, pool_bytes; lia).
  destruct (po_xa _ _ _ _ _ Hok) as (Hm & _).
  apply wp_bind. apply wp_thread_pool with (fr := []); rewrite ?EB; [done..|lia|done|by intros a ?%not_elem_of_nil|].
  cbn [mem heap]. rewrite Z2Nat.id, app_nil_r by lia. intros next m' Hm' Hf Ho.
  apply wp_bind, wp_store_word; [lia|]. cbn [mem heap].
  assert (same_outside v 8 m' (store_le 8 m' v p)) as Hs by (apply (store_le_outside 8)).
  destruct (Hfresh v 8 Hlv) as [_ Hvp]. apply HQ. split; cbn [mem heap]; try done.
  - by apply store_le_ok.
  - intros x Hx Hxv. rewrite Hs, Ho by done. done.
  - apply bytes_at_store.
  - eapply freelist_ext; [|exact Hf]. intros a Ha. apply load_le_ext. intros x Hx. apply Hs.
    apply slot_range in Ha; [|lia]. change (pa_elemSzB pa * nPerPool pa) with B in Ha. lia.
Qed.

(** *** Registering the pool *)

(** A result is looked at with the equation that gives it. *)
Lemma wp_result {S A} (m : M S A) (s : S) (Q : A -> S -> Prop) :
  wp m s (fun (r : A) (s' : S) => m s = Some (r, s') -> Q r s') -> wp m s Q.
Proof using Type. unfold wp. destruct (m s) as [[r s']|]; auto. Qed.

(** What [addToXA] allocates, and the part of the array it does not change *)
Lemma addToXA_rest xa p s i xa' s' : xa_ok s xa -> addToXA xa p s = Some ((i, xa'), s') ->
  xself xa' = xself xa /\
  forall b k, 0 <= k -> 0 <= b -> (usedsizeE xa = totsizeE xa -> new_size xa * elemSzB xa + 64 <= b) ->
    space (heap s) (b + k) -> space (heap s') k.
Proof using All.
  intros (_ & He & Hu & _). pose proof (new_size_gt xa He ltac:(lia)) as Hn.
  assert (0 <= new_size xa * elemSzB xa) as Hnz by nia.
  unfold addToXA, ensureSpaceXA, vg_assert, alloc, free, on_mem, modify, bind, ret, fail.
  pose proof (fun k => space_alloc (new_size xa * elemSzB xa) k (heap s) Hnz) as Hsp.
  intros E. repeat case_match; simplify_eq; cbn [heap xself set_used]; (split; [done|]); intros b k Hk Hb Hbn Hs;
    try (eapply space_le; [|exact Hs]; lia);
    (destruct (Hsp k Hk) as (_ & _ & Hh); [eapply space_le; [|exact Hs]; specialize (Hbn ltac:(lia)); lia|]);
    match goal with Ha : alloc_fn _ _ = _ |- _ => rewrite Ha in Hh end; try apply space_free; exact Hh.
Qed.

Lemma elem_cost_pos s pa ps used fr k : pa_ok s pa ps used fr -> 0 <= elem_cost pa k.
Proof using Type.
  intros Hok. pose proof (pa_ok_size _ _ _ _ _ Hok). destruct (po_words _ _ _ _ _ Hok) as (_ & E & _).
  unfold elem_cost. rewrite E. lia.
Qed.

(** The array of pools is as it was before the pool was carved. *)
Lemma carved_xa s s1 pa ps used fr v p next k : pa_ok s pa ps used fr -> foreign s pa ps v 8 ->
  carved s s1 pa v p next k ->
  xa_ok s1 (pools pa) /\ contents (mem s1) (pools pa) = contents (mem s) (pools pa) /\
  source s1 (pools pa) v /\ apart p (pool_bytes pa) (pools pa).
Proof using Type.
  intros Hok Hv Hc. destruct (po_xa _ _ _ _ _ Hok) as (Hm & He & Hu & Ha).
  destruct (po_words _ _ _ _ _ Hok) as (E8 & _). destruct Hv as [Hvp Hvl Hva _].
  assert (apart p (pool_bytes pa) (pools pa)) as Hap.
  { unfold apart. destruct (decide (totsizeE (pools pa) = 0)); [by left|]. destruct Ha as [_ Ha].
    right. destruct (ca_live _ _ _ _ _ _ _ Hc _ _ Ha) as [_ Hd]. lia. }
  split; [|split; [|split; [|done]]].
  - split; [by eapply ca_bytes|]. split; [done|]. split; [done|]. destruct (decide (totsizeE (pools pa) = 0)); [done|].
    destruct Ha as [Ha1 Ha2]. split; [done|]. by eapply (ca_live _ _ _ _ _ _ _ Hc).
  - apply bytes_at_ext. intros x Hx.
    destruct (decide (totsizeE (pools pa) = 0)) as [E0|]; [rewrite E0 in *; lia|].
    assert (usedsizeE (pools pa) * elemSzB (pools pa) <= cap (pools pa)) by (unfold cap; nia).
    apply (ca_mem _ _ _ _ _ _ _ Hc); [destruct Hap as [|Hap]|destruct Hva as [|Hva]]; lia.
  - split; [done|]. rewrite E8. split; [by eapply (ca_live _ _ _ _ _ _ _ Hc)|done].
Qed.

(** Memory that is not the pool's stays allocated and, but for the variable at
    [v], unchanged. *)
Definition kept s s' pa pa' ps ps' (v : Z) : Prop := forall q k, 0 < k -> foreign s pa ps q k ->
  foreign s' pa' ps' q k /\ (q + k <= v \/ v + 8 <= q -> forall x, q <= x < q + k -> mem s' x = mem s x).

(** The elements in use are unchanged. *)
Definition same_elems s s' pa (used : gset Z) : Prop :=
  forall a x, a ∈ used -> a <= x < a + pa_elemSzB pa -> mem s' x = mem s x.

Lemma added_kept s s1 s2 pa ps p v next k xa' : 0 < pool_bytes pa -> carved s s1 pa v p next k ->
  frame s1 s2 (pools pa) xa' -> kept s s2 pa (set_pools xa' (set_nextFree next pa)) ps (ps ++ [p]) v.
Proof using Type.
  intros HB Hc F q n Hn [Hq Hl Ha Hps]. destruct (ca_live _ _ _ _ _ _ _ Hc q n Hl) as [Hl1 Hd].
  destruct (F q n Hl1 Ha) as (Hl2 & Ha2 & E). split.
  - split; [done|done|done|]. intros r [Hr| ->%list_elem_of_singleton]%elem_of_app; [by apply Hps|]. exact Hd.
  - intros Hv x Hx. rewrite E by done. apply (ca_mem _ _ _ _ _ _ _ Hc); lia.
Qed.

(** A block of the pool allocator is still one when there is a new one. *)
Lemma added_block s s1 s2 pa v p next k xa' q : carved s s1 pa v p next k -> frame s1 s2 (pools pa) xa' ->
  block_ok s pa q -> block_ok s2 (set_pools xa' (set_nextFree next pa)) q /\ disjoint_blocks (pool_bytes pa) q p.
Proof using Type.
  intros Hc F [B1 B2 B3 B4 B5]. destruct (ca_live _ _ _ _ _ _ _ Hc q _ B4) as [Hl1 Hd].
  destruct (F q _ Hl1 B5) as (Hl2 & Ha2 & _). split; [by split|exact Hd].
Qed.

(** The array's growth is within the room that is kept for an element. *)
Lemma growth_cost s pa ps used fr k : pa_ok s pa ps used fr -> usedsizeE (pools pa) = totsizeE (pools pa) ->
  new_size (pools pa) * elemSzB (pools pa) + 64 <= 8 * (2 + 2 * (usedsizeE (pools pa) + Z.of_nat (S k))) + 64.
Proof using Type.
  intros Hok Et. destruct (po_words _ _ _ _ _ Hok) as (E8 & E & _). unfold new_size. rewrite <- Et, E, E8.
  change (8 =? 1) with false. change (8 =? 2) with false.
  destruct (Z.eqb_spec (Z.of_nat (length ps)) 0) as [->|]; [lia|].
  pose proof (Z.div_mod (3 * Z.of_nat (length ps)) 2 ltac:(lia)).
  pose proof (Z.mod_pos_bound (3 * Z.of_nat (length ps)) 2 ltac:(lia)). lia.
Qed.

Lemma pairs_snoc {A} (R : A -> A -> Prop) (l : list A) (x : A) :
  ForallOrdPairs R l -> Forall (fun y => R y x) l -> ForallOrdPairs R (l ++ [x]).
Proof using Type.
  induction 1 as [|y l Hy Hl IH]; intros Hx; [by repeat constructor|]. apply Forall_cons in Hx as [Hyx Hx].
  cbn. constructor; [|by apply IH]. apply Forall_app. split; [done|by repeat constructor].
Qed.

Lemma words_snoc l x : mjoin (le_bytes 8 <$> l ++ [x]) = mjoin (le_bytes 8 <$> l) ++ le_bytes 8 x.
Proof using Type. by rewrite fmap_app, join_app. Qed.

(** An empty free list gets the elements of a new pool. *)
Lemma wp_add_new_pool s pa ps used v k (Q : PoolAlloc -> PST -> Prop) :
  pa_ok s pa ps used [] -> foreign s pa ps v 8 -> pa_room s pa (S k) ->
  (forall p xa next s', let pa' := set_pools xa (set_nextFree next pa) in
     pa_ok s' pa' (ps ++ [p]) used (slots_of (pa_elemSzB pa) (nPerPool pa) p) ->
     kept s s' pa pa' ps (ps ++ [p]) v -> same_elems s s' pa used ->
     usedsizeE xa = usedsizeE (pools pa) + 1 -> pa_room s' pa' k -> Q pa' s') ->
  wp (pal_add_new_pool v pa) s Q.
Proof using All.
  intros Hok Hv Hroom HQ. pose proof (pa_ok_size _ _ _ _ _ Hok) as (Hes & Hes8 & Hn & HB).
  pose proof (po_free _ _ _ _ _ Hok) as Enf. cbn in Enf. unfold pal_add_new_pool. rewrite Enf.
  apply wp_bind, wp_assert; [done|]. pose proof Hv as [Hv1 Hv2 Hv3 Hv4].
  pose proof (elem_cost_pos _ _ _ _ _ (S k) Hok) as Hcost. set (c := elem_cost pa (S k)) in *.
  set (g := 8 * (2 + 2 * (usedsizeE (pools pa) + Z.of_nat (S k))) + 64).
  assert (c = pool_bytes pa + 64 + g) as Ec by done.
  assert (0 <= g) as Hg by (destruct (po_words _ _ _ _ _ Hok) as (_ & E & _); unfold g; lia).
  eapply (wp_carve s pa ps used [] v (g + Z.of_nat k * c)); [done|done|done|nia| |].
  { eapply space_le; [|exact Hroom]. fold c. nia. }
  intros p next s1 Hc. destruct (carved_xa _ _ _ _ _ _ _ _ _ _ Hok Hv Hc) as (Hx1 & Ec1 & Hsrc & Hap).
  apply wp_bind, wp_result, wp_addToXA; [done|done|]. intros xa s2 Hx2 F Eu Ee Econt Eadd. apply wp_ret.
  cbn [snd]. destruct (addToXA_rest _ _ _ _ _ _ Hx1 Eadd) as [Exs Hspace].
  assert (kept s s2 pa (set_pools xa (set_nextFree next pa)) ps (ps ++ [p]) v) as Hkept by (eapply added_kept; [lia|done|done]).
  pose proof (po_self _ _ _ _ _ Hok) as Hself. pose proof (po_xself _ _ _ _ _ Hok) as Hxself.
  destruct (F p _ (ca_new _ _ _ _ _ _ _ Hc) Hap) as (Hlp & Hap2 & Emp).
  destruct (po_words _ _ _ _ _ Hok) as (E8 & Eus & Ewords).
  apply (HQ p); [|done| |done|].
  - split; cbn [pools set_pools set_nextFree pself pa_elemSzB nPerPool nextFree]; try done.
    + apply Hok.
    + split_and!; [congruence|rewrite Eu, length_app; cbn; lia|].
      rewrite Econt, Ec1, Ewords, E8, words_snoc. f_equal. apply (ca_word _ _ _ _ _ _ _ Hc).
    + apply Forall_app. split; [|apply Forall_singleton].
      * eapply Forall_impl; [apply Hok|]. intros q Hq. by eapply added_block.
      * destruct Hc. by split.
    + apply pairs_snoc; [apply Hok|]. eapply Forall_impl; [apply Hok|]. intros q Hq. by destruct (added_block _ _ _ _ _ _ _ _ _ _ Hc F Hq).
    + eapply freelist_ext; [|apply (ca_free _ _ _ _ _ _ _ Hc)]. intros a Ha. apply load_le_ext. intros x Hx.
      apply slot_range in Ha; [|lia]. change (pa_elemSzB pa * nPerPool pa) with (pool_bytes pa) in Ha. apply Emp. lia.
    + rewrite slots_app. rewrite <- (po_slots _ _ _ _ _ Hok). rewrite app_nil_r. unfold slots. cbn. by rewrite app_nil_r.
    + by eapply Hkept.
    + rewrite Exs. by eapply Hkept.
    + rewrite Exs. apply Hok.
  - intros a x Ha Hx. apply (used_slot _ _ _ _ _ _ Hok) in Ha as Hs.
    destruct (slot_pool _ _ _ _ _ _ Hok Hs) as (q & Hq & _ & [B1 B2 B3 B4 B5] & Hr1 & Hr2).
    destruct (ca_live _ _ _ _ _ _ _ Hc q _ B4) as [Hl1 Hd]. destruct (F q _ Hl1 B5) as (_ & _ & E2).
    rewrite E2 by lia. specialize (Hv4 q Hq). apply (ca_mem _ _ _ _ _ _ _ Hc); lia.
  - unfold pa_room, elem_cost. cbn [pools set_pools set_nextFree]. unfold pool_bytes. cbn [pa_elemSzB nPerPool set_pools set_nextFree].
    rewrite Eu. replace (usedsizeE (pools pa) + 1 + Z.of_nat k) with (usedsizeE (pools pa) + Z.of_nat (S k)) by lia.
    change (space (heap s2) (Z.of_nat k * c)). apply (Hspace g); [nia|lia| |apply (ca_space _ _ _ _ _ _ _ Hc)].
    intros Et. by eapply growth_cost.
Qed.
(** ** Taking and giving back an element *)

(** A word written to an element changes neither the list of pools, nor
    another element, nor foreign memory. *)
Lemma slot_store s pa ps used fr a w : pa_ok s pa ps used fr -> a ∈ slots (pa_elemSzB pa) (nPerPool pa) ps ->
  let s' := mk_st (store_le 8 (mem s) a w) (heap s) in
  xa_ok s' (pools pa) /\ contents (mem s') (pools pa) = contents (mem s) (pools pa) /\
  (forall b x, b ∈ slots (pa_elemSzB pa) (nPerPool pa) ps -> b <> a -> b <= x < b + pa_elemSzB pa ->
     mem s' x = mem s x) /\
  (forall q k x, foreign s pa ps q k -> q <= x < q + k -> mem s' x = mem s x).
Proof using Type.
  intros Hok Ha s'. pose proof (pa_ok_size _ _ _ _ _ Hok) as (Hes & _ & _ & HB).
  destruct (po_xa _ _ _ _ _ Hok) as (Hm & He & Hu & Harr).
  destruct (slot_pool _ _ _ _ _ _ Hok Ha) as (p & Hp & _ & [B1 B2 B3 B4 B5] & R1 & R2).
  assert (same_outside a 8 (mem s) (mem s')) as Ho by (apply (store_le_outside 8)).
  split; [|split; [|split]].
  - split; [by apply store_le_ok|done].
  - apply bytes_at_ext. intros x Hx. apply Ho.
    destruct (decide (totsizeE (pools pa) = 0)) as [E0|]; [rewrite E0 in *; lia|].
    assert (usedsizeE (pools pa) * elemSzB (pools pa) <= cap (pools pa)) by (unfold cap; nia).
    destruct B5 as [|B5]; lia.
  - intros b x Hb Hne Hx. apply Ho. destruct (slots_disjoint _ _ _ _ _ _ _ Hok Ha Hb ltac:(congruence)); lia.
  - intros q k x Hf Hx. apply Ho. destruct (fo_pools _ _ _ _ _ Hf p Hp); lia.
Qed.

Lemma pa_ok_update s s' pa ps used fr used' fr' nf : pa_ok s pa ps used fr -> heap s' = heap s ->
  xa_ok s' (pools pa) -> contents (mem s') (pools pa) = contents (mem s) (pools pa) ->
  freelist (mem s') nf fr' -> elements used' ++ fr' ≡ₚ elements used ++ fr ->
  pa_ok s' (set_nextFree nf pa) ps used' fr'.
Proof using Type.
  intros [O1 O2 O3 O4 O5 O6 O7 O8 O9 O10] Eh Hx Ec Hf Hp.
  assert (forall q k, foreign s pa ps q k -> foreign s' (set_nextFree nf pa) ps q k) as Hfor.
  { intros q k [F1 F2 F3 F4]. split; try done. by rewrite Eh. }
  split; cbn [pools set_nextFree pself pa_elemSzB nPerPool nextFree]; rewrite ?Ec; try done; try (by apply Hfor).
  - eapply Forall_impl; [exact O4|]. intros p [B1 B2 B3 B4 B5]. split; try done. by rewrite Eh.
  - by rewrite Hp.
Qed.

Lemma slots_nodup s pa ps used fr : pa_ok s pa ps used fr -> NoDup (slots (pa_elemSzB pa) (nPerPool pa) ps).
Proof using Type.
  intros Hok. pose proof (pa_ok_size _ _ _ _ _ Hok) as (Hes & _ & Hn & HB). pose proof (po_disjoint _ _ _ _ _ Hok) as Hd.
  clear Hok. induction Hd as [|p ps Hp Hps IH]; [constructor|]. unfold slots. cbn [mbind list_bind]. apply NoDup_app.
  split; [|split; [|done]].
  - unfold slots_of. apply (NoDup_fmap_2_strong); [|apply NoDup_seqZ]. intros i j _ _ E. nia.
  - intros a Ha (q & j & Hq & Hj & Ea)%elem_slots. rewrite Forall_forall in Hp. specialize (Hp q Hq).
    apply elem_slots_of in Ha as (i & Hi & ->). unfold disjoint_blocks, pool_bytes in Hp. destruct Hp; nia.
Qed.

Lemma used_free s pa ps used fr a : pa_ok s pa ps used fr -> a ∈ fr -> a ∉ used /\ NoDup fr.
Proof using Type.
  intros Hok Ha. pose proof (slots_nodup _ _ _ _ _ Hok) as Hnd. rewrite <- (po_slots _ _ _ _ _ Hok) in Hnd.
  apply NoDup_app in Hnd as (_ & Hd & Hnd). split; [|done]. intros Hu. apply (Hd a); [by apply elem_of_elements|done].
Qed.

(** What an operation leaves of the structure *)
Definition same_pool pa pa' : Prop :=
  pself pa' = pself pa /\ nrRef pa' = nrRef pa /\ pa_elemSzB pa' = pa_elemSzB pa /\ nPerPool pa' = nPerPool pa.

Lemma kept_store s pa ps used fr a w nf v : pa_ok s pa ps used fr ->
  a ∈ slots (pa_elemSzB pa) (nPerPool pa) ps ->
  kept s (mk_st (store_le 8 (mem s) a w) (heap s)) pa (set_nextFree nf pa) ps ps v.
Proof using Type.
  intros Hok Ha q k Hk Hf. destruct (slot_store _ _ _ _ _ _ w Hok Ha) as (_ & _ & _ & Hfor). split.
  - destruct Hf as [F1 F2 F3 F4]. by split.
  - intros _ x Hx. by eapply Hfor.
Qed.

(** The first free element is taken. *)
Lemma wp_take s pa ps used a fr v (Q : Z * PoolAlloc -> PST -> Prop) : pa_ok s pa ps used (a :: fr) ->
  (forall nf s', let pa' := set_nextFree nf pa in pa_ok s' pa' ps ({[a]} ∪ used) fr -> kept s s' pa pa' ps ps v ->
     same_elems s s' pa used -> load_le 8 (mem s') a = 0 -> heap s' = heap s -> Q (a, pa') s') ->
  wp (let elem := nextFree pa in
      next <- load_word elem ;; store_word elem 0 ;;; ret (elem, set_nextFree next pa)) s Q.
Proof using Type.
  intros Hok HQ. pose proof (po_free _ _ _ _ _ Hok) as Hf. cbn [freelist] in Hf. destruct Hf as (-> & Hne & Hf).
  apply wp_bind, wp_load_word; [done|]. apply wp_bind, wp_store_word; [done|]. apply wp_ret.
  assert (a ∈ a :: fr) as Hin by left. pose proof (free_slot _ _ _ _ _ _ Hok Hin) as Ha.
  destruct (used_free _ _ _ _ _ _ Hok Hin) as [Hnu Hnd]. apply NoDup_cons in Hnd as [Hnfr _].
  destruct (slot_store _ _ _ _ _ _ 0 Hok Ha) as (Hx & Hc & Hother & Hfor).
  pose proof (pa_ok_size _ _ _ _ _ Hok) as (Hes & _). apply HQ; [|by eapply kept_store| | |done].
  - eapply pa_ok_update; [exact Hok|done|exact Hx|exact Hc| |].
    + eapply freelist_ext; [|exact Hf]. intros b Hb. apply load_le_ext. intros x Hx'. apply (Hother b); [|by intros ->|lia].
      eapply free_slot; [exact Hok|by right].
    + rewrite elements_union_singleton by done. cbn. apply Permutation_middle.
  - intros b x Hb Hbx. apply (Hother b); [by eapply used_slot|by intros ->|done].
  - apply load_store_same; [apply Hok|done].
Qed.

Lemma wp_allocEltPA s pa ps used fr v k (Q : Z * PoolAlloc -> PST -> Prop) :
  pa_ok s pa ps used fr -> foreign s pa ps v 8 -> pa_room s pa (S k) ->
  (forall a pa' ps' fr' s', pa_ok s' pa' ps' ({[a]} ∪ used) fr' -> a ∉ used -> kept s s' pa pa' ps ps' v ->
     same_elems s s' pa used -> same_pool pa pa' -> load_le 8 (mem s') a = 0 -> pa_room s' pa' k -> Q (a, pa') s') ->
  wp (allocEltPA v pa) s Q.
Proof using All.
  intros Hok Hv Hroom HQ. unfold allocEltPA. apply wp_bind. pose proof (po_free _ _ _ _ _ Hok) as Hf.
  destruct fr as [|a fr]; cbn [freelist] in Hf.
  - rewrite Hf. eapply wp_add_new_pool; [done..|]. intros p xa next s1 pa1 Hok1 Hk1 Hs1 Eu Hr1.
    pose proof (pa_ok_size _ _ _ _ _ Hok) as (Hes & _ & Hn & _).
    destruct (slots_of (pa_elemSzB pa) (nPerPool pa) p) as [|a fr] eqn:Es.
    { apply (f_equal length) in Es. unfold slots_of in Es. rewrite length_fmap, length_seqZ in Es. cbn in Es. lia. }
    eapply (wp_take _ _ _ _ _ _ v); [exact Hok1|]. intros nf s2 pa2 Hok2 Hk2 Hs2 Hl Eh.
    eapply (HQ a); [exact Hok2|by apply (used_free _ _ _ _ _ a Hok1); left| | |done|done|].
    + intros q n Hq Hfo. destruct (Hk1 q n Hq Hfo) as [Hfo1 E1]. destruct (Hk2 q n Hq Hfo1) as [Hfo2 E2].
      split; [done|]. intros Hd x Hx. by rewrite E2, E1.
    + intros b x Hb Hx. by rewrite (Hs2 b), (Hs1 b).
    + unfold pa_room in *. rewrite Eh. exact Hr1.
  - destruct Hf as (-> & Hne & _). rewrite (proj2 (Z.eqb_neq _ _) Hne). apply wp_ret.
    eapply (wp_take _ _ _ _ _ _ v); [exact Hok|]. intros nf s2 pa2 Hok2 Hk2 Hs2 Hl Eh.
    eapply (HQ a); [exact Hok2|by apply (used_free _ _ _ _ _ a Hok); left|done|done|done|done|].
    unfold pa_room in *. rewrite Eh. eapply space_le; [|exact Hroom].
    pose proof (elem_cost_pos _ _ _ _ _ k Hok). unfold pa2, elem_cost, pool_bytes in *. cbn [pools set_nextFree pa_elemSzB nPerPool]. nia.
Qed.

Lemma wp_freeEltPA s pa ps used fr a v (Q : PoolAlloc -> PST -> Prop) : pa_ok s pa ps used fr -> a ∈ used ->
  (forall s', let pa' := set_nextFree a pa in pa_ok s' pa' ps (used ∖ {[a]}) (a :: fr) -> kept s s' pa pa' ps ps v ->
     same_elems s s' pa (used ∖ {[a]}) -> heap s' = heap s -> Q pa' s') ->
  wp (freeEltPA pa a) s Q.
Proof using All.
  intros Hok Hin HQ. pose proof (used_slot _ _ _ _ _ _ Hok Hin) as Ha.
  destruct (slot_pool _ _ _ _ _ _ Hok Ha) as (p & _ & _ & [B1 _ B3 _ _] & R1 & R2).
  unfold freeEltPA. apply wp_bind, wp_store_word; [lia|]. apply wp_ret.
  destruct (slot_store _ _ _ _ _ _ (nextFree pa) Hok Ha) as (Hx & Hc & Hother & Hfor).
  pose proof (pa_ok_size _ _ _ _ _ Hok) as (Hes & _). pose proof (po_free _ _ _ _ _ Hok) as Hf.
  apply HQ; [|by eapply kept_store| |done].
  - eapply pa_ok_update; [exact Hok|done|exact Hx|exact Hc| |].
    + cbn [freelist mem]. split; [done|]. split; [lia|]. rewrite load_store_same; [|apply Hok|].
      * eapply freelist_ext; [|exact Hf]. intros b Hb. apply load_le_ext. intros x Hx'. apply (Hother b);
          [by eapply free_slot| |lia]. intros ->. by destruct (used_free _ _ _ _ _ _ Hok Hb).
      * destruct fr as [|b fr]; cbn [freelist] in Hf; [by rewrite Hf|]. destruct Hf as (-> & _).
        destruct (slot_pool _ _ _ _ _ b Hok ltac:(eapply free_slot; [exact Hok|by left])) as (q & _ & _ & [] & ? & ?).
        cbn. lia.
    + rewrite <- Permutation_middle. rewrite (union_difference_singleton_L a used) at 2 by done.
      rewrite elements_union_singleton by set_solver. done.
  - intros b x Hb Hbx. apply (Hother b); [eapply used_slot; [exact Hok|set_solver]|set_solver|done].
Qed.
End Pool.

(** * Creating and deleting a pool allocator, and writes of its client: a
    deleted pool allocator has given each of its blocks back once. *)

Section Pool.
Context {H : Type} `{AllocatorLaws H} `{!AllocatorSpace H}.
Abbreviation PST := (st (H := H)).
Implicit Types (s : PST) (m : gmem) (pa : PoolAlloc) (ps l : list Z) (p q a : Z).

(** ** Creation *)

(** The structure and its empty array are allocated and nothing else is
    changed. *)
Lemma wp_newPA s es n k (Q : PoolAlloc -> PST -> Prop) : bytes_ok (mem s) ->
  8 <= es -> es mod 8 = 0 -> 100 <= n -> es * n < 2 ^ 64 ->
  let pa0 := mk_pa 0 0 es n (mk_xa 0 None 8 0 0 0 false) 0 in
  space (heap s) (264 + Z.of_nat k * elem_cost pa0 k) ->
  (forall pa s', pa_ok s' pa [] ∅ [] -> nrRef pa = 0 -> pa_elemSzB pa = es -> nPerPool pa = n -> pa_room s' pa k ->
     (forall q c, 0 < q -> 0 < c -> live (heap s) q c ->
        foreign s' pa [] q c /\ forall x, q <= x < q + c -> mem s' x = mem s x) -> Q pa s') ->
  wp (newPA es n) s Q.
Proof using All.
  intros Hm Hes Hes8 Hn Hlt pa0 Hsp HQ. unfold newPA, newXA.
  apply wp_bind, wp_assert; [by rewrite Hes8|]. apply wp_bind, wp_assert; [lia|]. apply wp_bind, wp_assert; [lia|].
  set (K := Z.of_nat k * elem_cost pa0 k) in *.
  assert (0 <= K) as HK by (unfold K, elem_cost, pool_bytes; cbn; nia).
  apply wp_bind, wp_alloc.
  destruct (space_alloc 64 (136 + K) (heap s) ltac:(lia) ltac:(lia)) as (_ & _ & Hsp1); [eapply space_le; [|exact Hsp]; lia|].
  change sizeof_PoolAlloc with 64 in *.
  pose proof (alloc_pos 64 (heap s) ltac:(lia)) as Hpos1. pose proof (alloc_live 64 (heap s) ltac:(lia)) as Hlive1.
  pose proof (fun q n => alloc_fresh 64 (heap s) q n ltac:(lia)) as Hf1.
  destruct (alloc_fn 64 (heap s)) as [p h1]. cbn [fst snd] in *.
  apply wp_bind, wp_on_mem. cbn [mem heap]. apply wp_bind. apply wp_bind, wp_assert; [done|].
  apply wp_bind, wp_alloc. cbn [mem heap]. change sizeof_XArray with 72.
  destruct (space_alloc 72 K h1 ltac:(lia) ltac:(lia)) as (_ & _ & Hsp2); [eapply space_le; [|exact Hsp1]; lia|].
  pose proof (alloc_pos 72 h1 ltac:(lia)) as Hpos2. pose proof (alloc_live 72 h1 ltac:(lia)) as Hlive2.
  pose proof (fun q n => alloc_fresh 72 h1 q n ltac:(lia)) as Hf2.
  destruct (alloc_fn 72 h1) as [x h2]. cbn [fst snd] in *. apply wp_ret, wp_ret.
  pose proof (memset_fill (mem s) p 0 64 ltac:(lia)) as Hfill. change (0 mod 256) with 0 in Hfill.
  destruct (Hf2 _ _ Hlive1) as [Hlive1' Hd]. set (m1 := memset (mem s) p 0 64) in *.
  apply HQ; try done.
  - split; cbn; try done.
    + split; [|by split_and!]. intros a. rewrite Hfill. unfold fill. destruct (_ && _); [lia|apply Hm].
    + constructor.
    + split; [done|done|by left|by intros q ?%not_elem_of_nil].
    + split; [done|done|by left|by intros q ?%not_elem_of_nil].
  - intros q c Hq Hc Hl. destruct (Hf1 q c Hl) as [Hl1 Hd1]. destruct (Hf2 q c Hl1) as [Hl2 Hd2]. split.
    + split; [done|done|by left|by intros r ?%not_elem_of_nil].
    + intros y Hy. cbn. rewrite Hfill. unfold fill. destruct (Z.leb_spec p y), (Z.ltb_spec y (p + 64)); cbn; (done || lia).
Qed.

(** ** Deletion *)

(** The blocks in the order in which they are given back *)
Definition pool_blocks pa ps : list Z :=
  ps ++ (if arr (pools pa) =? 0 then [] else [arr (pools pa)]) ++ [xself (pools pa); pself pa].

Definition free_all (l : list Z) (h : H) : H := foldl (fun h p => free_fn p h) h l.

Lemma bounded_length (l : list Z) b : NoDup l -> (forall x, x ∈ l -> 0 <= x < b) -> Z.of_nat (length l) <= Z.max 0 b.
Proof using Type.
  intros Hnd Hl. assert (l ⊆+ seqZ 0 b) as Hs.
  { apply NoDup_submseteq; [done|]. intros x Hx. apply elem_of_seqZ. specialize (Hl x Hx). lia. }
  apply submseteq_length in Hs. rewrite length_seqZ in Hs. lia.
Qed.

(** The elements fit in the address space. *)
Lemma slots_count s pa ps used fr : pa_ok s pa ps used fr -> Z.of_nat (length ps) * nPerPool pa < 2 ^ 64.
Proof using Type.
  intros Hok. pose proof (pa_ok_size _ _ _ _ _ Hok) as (Hes & _ & Hn & _).
  rewrite <- (slots_length (pa_elemSzB pa)) by lia.
  apply Z.le_lt_trans with (Z.max 0 (2 ^ 64 - 8)); [|done]. apply bounded_length; [by eapply slots_nodup|].
  intros a Ha. destruct (slot_pool _ _ _ _ _ _ Hok Ha) as (p & _ & _ & [] & ? & ?). lia.
Qed.

(** The word at an index of the array of pools *)
Lemma pool_word s pa ps used fr i p : pa_ok s pa ps used fr -> ps !! i = Some p ->
  indexXA (pools pa) (Z.of_nat i) s = Some (arr (pools pa) + Z.of_nat i * 8, s) /\
  0 < arr (pools pa) + Z.of_nat i * 8 /\ load_le 8 (mem s) (arr (pools pa) + Z.of_nat i * 8) = p.
Proof using Type.
  intros Hok Hi. destruct (po_xa _ _ _ _ _ Hok) as (Hm & He & Hu & Ha).
  destruct (po_words _ _ _ _ _ Hok) as (E8 & Eu & Ec). pose proof (lookup_lt_Some _ _ _ Hi) as Hlt.
  assert (block_ok s pa p) as Hb by (eapply Forall_lookup_1; [apply Hok|done]).
  pose proof (drop_words ps i p Hi) as Hw. rewrite <- Ec in Hw. unfold contents in Hw. rewrite Eu, E8 in Hw.
  rewrite drop_bytes_at, take_bytes_at in Hw by lia.
  replace (arr (pools pa) + Z.of_nat (i * 8)) with (arr (pools pa) + Z.of_nat i * 8) in Hw by lia.
  destruct (decide (totsizeE (pools pa) = 0)); [lia|]. split_and!; [|lia|].
  - pose proof (slots_count _ _ _ _ _ Hok). pose proof (pa_ok_size _ _ _ _ _ Hok) as (_ & _ & Hn & _).
    unfold indexXA, vg_assert, bind, ret. rewrite Eu, E8, !u64_small by nia. by rewrite (proj2 (Z.ltb_lt _ _)) by lia.
  - rewrite load_le_word, Hw by done. apply le_word_bytes. pose proof (pa_ok_size _ _ _ _ _ Hok). destruct Hb.
    change (256 ^ Z.of_nat 8) with (2 ^ 64). lia.
Qed.

(** The pools from index [i] on are given back, in order. *)
Lemma wp_delete_pools s pa ps used fr n : pa_ok s pa ps used fr -> forall i s1 (Q : unit -> PST -> Prop),
  (i + n = length ps)%nat -> mem s1 = mem s -> Q tt (mk_st (mem s) (free_all (drop i ps) (heap s1))) ->
  wp (delete_pools n (pools pa) (Z.of_nat i)) s1 Q.
Proof using Type.
  intros Hok. induction n as [|n IH]; intros i s1 Q Hi Em HQ; cbn [delete_pools].
  - apply wp_ret. rewrite drop_ge in HQ by lia. rewrite <- Em in HQ. by destruct s1.
  - destruct (lookup_lt_is_Some_2 ps i) as [p Hp]; [lia|].
    destruct (pool_word _ _ _ _ _ _ _ Hok Hp) as (Ei & Hpos & Ew). apply wp_bind.
    assert (indexXA (pools pa) (Z.of_nat i) s1 = Some (arr (pools pa) + Z.of_nat i * 8, s1)) as Ei1.
    { unfold indexXA, vg_assert, bind, ret in *. destruct (_ <? _); [|done]. by injection Ei as ->. }
    unfold wp at 1. rewrite Ei1. apply wp_bind, wp_load_word; [lia|]. rewrite Em, Ew.
    apply wp_bind, wp_free. replace (Z.of_nat i + 1) with (Z.of_nat (S i)) by lia. apply IH; [lia|done|].
    cbn [heap]. by rewrite (drop_S ps p i Hp) in HQ.
Qed.

Lemma wp_deletePA s pa ps used fr (Q : unit -> PST -> Prop) : pa_ok s pa ps used fr -> nrRef pa = 0 ->
  Q tt (mk_st (mem s) (free_all (pool_blocks pa ps) (heap s))) -> wp (deletePA pa) s Q.
Proof using Type.
  intros Hok Hnr HQ. unfold deletePA. rewrite Hnr. apply wp_bind, wp_assert; [done|]. apply wp_bind.
  destruct (po_words _ _ _ _ _ Hok) as (_ & Eu & _). unfold sizeXA. rewrite Eu, Nat2Z.id.
  apply (wp_delete_pools _ _ _ _ _ _ Hok 0); [done|done|]. rewrite drop_0. apply wp_bind. unfold deleteXA.
  unfold pool_blocks, free_all in HQ. rewrite !foldl_app in HQ.
  apply wp_bind. destruct (arr (pools pa) =? 0); [apply wp_ret|apply wp_free]; apply wp_free, wp_free; exact HQ.
Qed.

(** No block is given back twice. *)
Lemma pool_blocks_nodup s pa ps used fr : pa_ok s pa ps used fr -> NoDup (pool_blocks pa ps).
Proof using Type.
  intros Hok. pose proof (pa_ok_size _ _ _ _ _ Hok) as (_ & _ & _ & HB).
  pose proof (po_self _ _ _ _ _ Hok) as [S1 S2 S3 S4]. pose proof (po_xself _ _ _ _ _ Hok) as [X1 X2 X3 X4].
  pose proof (po_structs _ _ _ _ _ Hok) as Hst. unfold sizeof_PoolAlloc, sizeof_XArray in *.
  destruct (po_xa _ _ _ _ _ Hok) as (_ & He & Hu & Ha).
  assert (arr (pools pa) <> 0 -> 0 < cap (pools pa) /\ totsizeE (pools pa) <> 0) as Hcap.
  { intros Hne. unfold cap. destruct (decide (totsizeE (pools pa) = 0)); [done|]. split; [nia|done]. }
  unfold pool_blocks. apply NoDup_app. split; [|split].
  - pose proof (po_disjoint _ _ _ _ _ Hok) as Hd. clear Hok S4 X4. induction Hd as [|p l Hp _ IH]; constructor; [|done].
    intros Hin. rewrite Forall_forall in Hp. specialize (Hp p Hin). unfold disjoint_blocks in Hp. lia.
  - intros p Hp. destruct (proj1 (Forall_forall _ _) (po_blocks _ _ _ _ _ Hok) p Hp) as [B1 _ _ _ B5].
    specialize (S4 p Hp). specialize (X4 p Hp). rewrite not_elem_of_app, !not_elem_of_cons.
    split; [|split_and!; [lia|lia|apply not_elem_of_nil]].
    destruct (Z.eqb_spec (arr (pools pa)) 0) as [|Hne]; [apply not_elem_of_nil|]. intros ->%list_elem_of_singleton.
    destruct (Hcap Hne). destruct B5; lia.
  - apply NoDup_app. split; [destruct (_ =? 0); [constructor|apply NoDup_singleton]|]. split.
    + destruct (Z.eqb_spec (arr (pools pa)) 0) as [|Hne]; [by intros q ?%not_elem_of_nil|].
      intros q ->%list_elem_of_singleton. destruct (Hcap Hne). rewrite !not_elem_of_cons.
      split_and!; [destruct X3; lia|destruct S3; lia|apply not_elem_of_nil].
    + repeat constructor; rewrite ?not_elem_of_cons; [split; [lia|apply not_elem_of_nil]|apply not_elem_of_nil].
Qed.

Lemma pa_ok_refs s pa ps used fr n : pa_ok s pa ps used fr -> pa_ok s (set_nrRef n pa) ps used fr.
Proof using Type.
  intros [O1 O2 O3 O4 O5 O6 O7 O8 O9 O10]. split; try done.
  - eapply Forall_impl; [exact O4|]. intros p [B1 B2 B3 B4 B5]. by split.
  - destruct O8. by split.
  - destruct O9. by split.
Qed.

Lemma wp_releasePA s pa ps used fr (Q : Z * PoolAlloc -> PST -> Prop) : pa_ok s pa ps used fr ->
  0 < nrRef pa < 2 ^ 64 ->
  (nrRef pa = 1 -> Q (0, set_nrRef 0 pa) (mk_st (mem s) (free_all (pool_blocks pa ps) (heap s)))) ->
  (1 < nrRef pa -> Q (nrRef pa - 1, set_nrRef (nrRef pa - 1) pa) s) -> wp (releasePA pa) s Q.
Proof using Type.
  intros Hok Hnr HQ1 HQ2. unfold releasePA. apply wp_bind, wp_assert; [lia|]. rewrite u64_small by lia.
  apply wp_bind. destruct (Z.eqb_spec (nrRef pa - 1) 0) as [E|].
  - rewrite E. eapply wp_deletePA; [by apply pa_ok_refs|done|]. apply wp_ret, HQ1. lia.
  - apply wp_ret, wp_ret, HQ2. lia.
Qed.

(** ** The client *)

(** The client writes to the elements in use. *)
Lemma pa_ok_client s s' pa ps used fr : pa_ok s pa ps used fr -> heap s' = heap s -> bytes_ok (mem s') ->
  (forall x, (exists a, a ∈ used /\ a <= x < a + pa_elemSzB pa) \/ mem s' x = mem s x) ->
  pa_ok s' pa ps used fr.
Proof using Type.
  intros Hok Eh Hm Hx. pose proof (pa_ok_size _ _ _ _ _ Hok) as (Hes & _ & _ & HB).
  destruct (po_xa _ _ _ _ _ Hok) as (_ & He & Hu & Ha).
  assert (contents (mem s') (pools pa) = contents (mem s) (pools pa)) as Ec.
  { apply bytes_at_ext. intros x Hx'. destruct (Hx x) as [(a & Hin & Hax)|]; [|done].
    destruct (slot_pool _ _ _ _ _ _ Hok (used_slot _ _ _ _ _ _ Hok Hin)) as (p & _ & _ & [_ _ _ _ B5] & R1 & R2).
    destruct (decide (totsizeE (pools pa) = 0)) as [E0|]; [rewrite E0 in *; lia|].
    assert (usedsizeE (pools pa) * elemSzB (pools pa) <= cap (pools pa)) by (unfold cap; nia).
    destruct B5 as [|B5]; lia. }
  assert (pa = set_nextFree (nextFree pa) pa) as -> by (by destruct pa).
  eapply pa_ok_update; [exact Hok|done| |done| |done].
  - split; [done|]. rewrite Eh. done.
  - eapply freelist_ext; [|apply Hok]. intros b Hb. apply load_le_ext. intros x Hbx.
    destruct (Hx x) as [(a & Hin & Hax)|]; [|done]. destruct (used_free _ _ _ _ _ _ Hok Hb) as [Hnu _].
    assert (a <> b) by (by intros ->).
    destruct (slots_disjoint _ _ _ _ _ a b Hok (used_slot _ _ _ _ _ _ Hok Hin) (free_slot _ _ _ _ _ _ Hok Hb)); [done|lia|lia].
Qed.
End Pool.
