(* ===== verification/RangeMap.v ===== *)
(** Maps from ranges of words, [coregrind/m_rangemap.c], on the interface of
    extensible arrays of [XArrayOf]: the operations, and that the map is a
    function on all words whose ranges partition them. *)
From stdpp Require Import base list sets.
From Stdlib Require Import ZArith Lia.
From S2P Require Import Prelude Printf Mem XArray XArrayProofs XArrayOf.
Open Scope prog_scope.
Open Scope Z_scope.

(** ** Data *)

Definition UWORD_MIN : Z := 0.
Definition UWORD_MAX : Z := 2 ^ 64 - 1.

Record Range := mk_range { key_min : Z; key_max : Z; val : Z }.

Definition set_min (k : Z) (r : Range) : Range := mk_range k (key_max r) (val r).
Definition set_max (k : Z) (r : Range) : Range := mk_range (key_min r) k (val r).
Definition set_val (v : Z) (r : Range) : Range := mk_range (key_min r) (key_max r) v.

Definition word (x : Z) : Prop := 0 <= x < 2 ^ 64.

(** What the three words of the structure can hold *)
Definition range_words (r : Range) : Prop := word (key_min r) /\ word (key_max r) /\ word (val r).

(** ** Operations *)

Section Operations.
Context {S : Type} `{XArrayOf S Range}.

(** The element of the array is changed through the pointer to it. *)
Definition change (i : Z) (f : Range -> Range) : M S unit := r <- vindex i ;; vput i (f r).

Definition rm_assert (b : bool) : M S unit := if b then ret tt else fail.

(** The first range, on an empty array *)
Definition newRangeMap (initialVal : Z) : M S unit :=
  i <- vadd (mk_range UWORD_MIN UWORD_MAX initialVal) ;;
  rm_assert (i =? 0) ;;;
  n <- vsize ;;
  rm_assert (n =? 1).

Fixpoint find_loop (fuel : nat) (lo hi key : Z) : M S Z :=
  match fuel with
  | O => fail
  | Datatypes.S fuel =>
      if hi <? lo then fail
      else
        let mid := Z.quot (lo + hi) 2 in
        mid_rng <- vindex mid ;;
        if key <? key_min mid_rng then find_loop fuel lo (mid - 1) key
        else if key_max mid_rng <? key then find_loop fuel (mid + 1) hi key
        else ret mid
  end.

Definition find (key : Z) : M S Z :=
  hi <- vsize ;; find_loop (Datatypes.S (Datatypes.S (Z.to_nat hi))) 0 hi key.

Definition split_at (key : Z) : M S unit :=
  i <- find key ;;
  rng_i0 <- vindex i ;;
  if key_min rng_i0 =? key then ret tt
  else
    vinsert (i + 1) rng_i0 ;;;
    change i (set_max (u64 (key - 1))) ;;;
    change (i + 1) (set_min key).

(** [n] steps from index [i] *)
Fixpoint set_loop (n : nat) (i v : Z) : M S unit :=
  match n with
  | O => ret tt
  | Datatypes.S n => change i (set_val v) ;;; set_loop n (i + 1) v
  end.

Fixpoint preen_loop (fuel : nat) (i : Z) : M S unit :=
  match fuel with
  | O => fail
  | Datatypes.S fuel =>
      n <- vsize ;;
      if i <? n - 1 then
        rng0 <- vindex (i + 0) ;;
        rng1 <- vindex (i + 1) ;;
        if negb (val rng0 =? val rng1) then preen_loop fuel (i + 1)
        else
          vput (i + 0) (set_max (key_max rng1) rng0) ;;;
          vremove (i + 1) ;;;
          preen_loop fuel ((i - 1) + 1)
      else ret tt
  end.

Definition preen : M S unit :=
  n <- vsize ;; preen_loop (Datatypes.S (Z.to_nat n)) 0.

Definition bindRangeMap (kmin kmax v : Z) : M S unit :=
  rm_assert (kmin <=? kmax) ;;;
  split_at kmin ;;;
  (if kmax <? UWORD_MAX then split_at (u64 (kmax + 1)) else ret tt) ;;;
  iMin <- find kmin ;;
  iMax <- find kmax ;;
  set_loop (Z.to_nat (iMax + 1 - iMin)) iMin v ;;;
  preen.

Definition lookupRangeMap (key : Z) : M S (Z * Z * Z) :=
  i <- find key ;;
  rng <- vindex i ;;
  ret (key_min rng, key_max rng, val rng).

Definition sizeRangeMap : M S Z :=
  size <- vsize ;; rm_assert (0 <=? size) ;;; ret (u32 size).

Definition indexRangeMap (ix : Z) : M S (Z * Z * Z) :=
  rng <- vindex ix ;; ret (key_min rng, key_max rng, val rng).
End Operations.

(** ** The function a list of ranges denotes *)

(** The ranges are not empty, and follow each other from [a] up to [b]. *)
Fixpoint tiles (a : Z) (l : list Range) (b : Z) : Prop :=
  match l with
  | [] => a = b
  | r :: l => key_min r = a /\ a <= key_max r /\ tiles (key_max r + 1) l b
  end.

(** The value at a key *)
Fixpoint denote (l : list Range) (k : Z) : Z :=
  match l with
  | [] => 0
  | r :: l => if k <=? key_max r then val r else denote l k
  end.

Definition inside (r : Range) (k : Z) : Prop := key_min r <= k <= key_max r.

Lemma tiles_le a l b : tiles a l b -> a <= b.
Proof. revert a. induction l as [|r l IH]; intros a; cbn; [lia|]. intros (_ & Hr & Hl). apply IH in Hl. lia. Qed.

Lemma tiles_app a l1 l2 c : tiles a (l1 ++ l2) c <-> exists b, tiles a l1 b /\ tiles b l2 c.
Proof.
  revert a. induction l1 as [|r l1 IH]; intros a; cbn; [split; [intros; eexists; eauto|by intros (? & -> & ?)]|].
  rewrite IH. split; [intros (? & ? & b & ? & ?); by exists b|intros (b & (? & ? & ?) & ?); eauto].
Qed.

Lemma denote_app a l1 b l2 k : tiles a l1 b -> a <= k ->
  denote (l1 ++ l2) k = if k <? b then denote l1 k else denote l2 k.
Proof.
  revert a. induction l1 as [|r l1 IH]; intros a Ht Hk; cbn.
  { cbn in Ht. destruct (Z.ltb_spec k b); [lia|done]. }
  destruct Ht as (Hm & Hr & Ht). pose proof (tiles_le _ _ _ Ht).
  destruct (Z.leb_spec k (key_max r)), (Z.ltb_spec k b); try lia;
    rewrite (IH _ Ht) by lia; destruct (Z.ltb_spec k b); (lia || done).
Qed.

Lemma denote_inside a r l k : key_min r = a -> inside r k -> denote (r :: l) k = val r.
Proof. intros Hm [H1 H2]. cbn. by rewrite (proj2 (Z.leb_le _ _)). Qed.

Lemma denote_out a l b k : tiles a l b -> k < a -> forall r, r ∈ l -> ~ inside r k.
Proof.
  revert a. induction l as [|r l IH]; intros a Ht Hk r' Hr; [by apply not_elem_of_nil in Hr|].
  destruct Ht as (Hm & Hr0 & Ht). apply elem_of_cons in Hr as [->|Hr]; [unfold inside; lia|].
  apply (IH _ Ht); [lia|done].
Qed.

(** A list that tiles, cut at one of its ranges *)
Lemma tiles_mid a l1 r l2 b : tiles a (l1 ++ r :: l2) b <->
  tiles a l1 (key_min r) /\ key_min r <= key_max r /\ tiles (key_max r + 1) l2 b.
Proof.
  rewrite tiles_app. cbn. split.
  - intros (c & H1 & <- & H2 & H3). done.
  - intros (H1 & H2 & H3). by exists (key_min r).
Qed.

Lemma tiles_inside a l b k : tiles a l b -> a <= k < b ->
  exists l1 r l2, l = l1 ++ r :: l2 /\ inside r k.
Proof.
  revert a. induction l as [|r l IH]; intros a Ht Hk; [cbn in Ht; lia|].
  destruct Ht as (Hm & Hr & Ht). destruct (Z.leb_spec k (key_max r)).
  - exists [], r, l. split; [done|]. unfold inside. lia.
  - destruct (IH _ Ht) as (l1 & r' & l2 & -> & Hi); [lia|]. by exists (r :: l1), r', l2.
Qed.

Lemma denote_mid a l1 r l2 b k : tiles a (l1 ++ r :: l2) b -> inside r k -> a <= k /\ k < b /\
  denote (l1 ++ r :: l2) k = val r.
Proof.
  intros (H1 & Hr & H2)%tiles_mid [Hk1 Hk2]. pose proof (tiles_le _ _ _ H1).
  pose proof (tiles_le _ _ _ H2). split; [lia|]. split; [lia|].
  rewrite (denote_app _ _ _ _ _ H1) by lia. destruct (Z.ltb_spec k (key_min r)); [lia|].
  by apply (denote_inside (key_min r)).
Qed.

Lemma tiles_lookup a l b i r : tiles a l b -> l !! i = Some r ->
  a <= key_min r /\ key_min r <= key_max r /\ key_max r < b.
Proof.
  intros Ht (l1 & l2 & -> & _)%list_elem_of_split_length.
  apply tiles_mid in Ht as (H1 & H2 & H3). pose proof (tiles_le _ _ _ H1).
  pose proof (tiles_le _ _ _ H3). lia.
Qed.

Lemma tiles_order a l b i j r r' : tiles a l b -> l !! i = Some r -> l !! j = Some r' ->
  (i < j)%nat -> key_max r < key_min r'.
Proof.
  intros Ht (l1 & l2 & -> & ->)%list_elem_of_split_length Hj Hlt.
  apply tiles_mid in Ht as (_ & _ & H3).
  rewrite lookup_app_r in Hj by lia. rewrite lookup_cons_ne_0 in Hj by lia.
  apply (tiles_lookup _ _ _ _ _ H3) in Hj. lia.
Qed.

(** ** The operations on lists of ranges *)

Section Proofs.
Context {S : Type} `{XArrayOfLaws S Range}.
(** Every range of words can be stored. *)
Hypothesis Hwords : forall r, range_words r -> velem r.

Definition fits (l : list Range) : Prop := Z.of_nat (length l) < 2 ^ 63.

(** [s] holds ranges [l] that partition the words. *)
Definition rm_rep (s : S) (l : list Range) : Prop :=
  vrep s l /\ tiles 0 l (2 ^ 64) /\ Forall (fun r => word (val r)) l.

Lemma rm_words s l i r : rm_rep s l -> l !! i = Some r -> range_words r.
Proof using Type.
  intros (_ & Ht & Hv) Hi. destruct (tiles_lookup _ _ _ _ _ Ht Hi).
  unfold range_words, word. rewrite Forall_lookup in Hv. pose proof (Hv _ _ Hi). cbn in *. unfold word in *. lia.
Qed.

Lemma wp_rm_assert b s (Q : unit -> S -> Prop) : b = true -> Q tt s -> wp (rm_assert b) s Q.
Proof using Type. intros ->. done. Qed.

(** Reading an element, as a rule *)
Lemma wp_read s l i r (Q : Range -> S -> Prop) : vrep s l -> fits l -> 0 <= i ->
  l !! Z.to_nat i = Some r -> Q r s -> wp (vindex i) s Q.
Proof using All.
  intros Hr Hf Hi El HQ. eapply wp_mono; [by eapply wp_vindex|]. by intros ? ? [-> ->].
Qed.

Lemma wp_size s l (Q : Z -> S -> Prop) : vrep s l -> Q (Z.of_nat (length l)) s -> wp vsize s Q.
Proof using All. intros Hr HQ. eapply wp_mono; [by eapply wp_vsize|]. by intros ? ? [-> ->]. Qed.

Lemma wp_change s l i f r (Q : unit -> S -> Prop) : vrep s l -> fits l -> 0 <= i ->
  l !! Z.to_nat i = Some r -> velem (f r) ->
  (forall s', vrep s' (<[Z.to_nat i := f r]> l) -> Q tt s') -> wp (change i f) s Q.
Proof using All.
  intros Hr Hf Hi El Hv HQ. apply lookup_lt_Some in El as Hlt. unfold change.
  apply wp_bind. eapply wp_read; [done..|]. eapply wp_mono; [eapply wp_vput; [done|done|lia|done]|].
  intros [] s' Hs'. by apply HQ.
Qed.

(** *** Finding a key *)

Lemma wp_find_loop s l key j r fuel : vrep s l -> fits l -> tiles 0 l (2 ^ 64) ->
  l !! Z.to_nat j = Some r -> inside r key -> forall lo hi,
  0 <= lo <= j -> j <= hi <= Z.of_nat (length l) -> hi - lo + 1 < Z.of_nat fuel ->
  wp (find_loop fuel lo hi key) s (fun i s' => s' = s /\ i = j).
Proof using All.
  intros Hr Hf Ht Ej [Hk1 Hk2]. apply lookup_lt_Some in Ej as Hj.
  induction fuel as [|fuel IH]; intros lo hi Hlo Hhi Hfu; [lia|]. cbn [find_loop].
  destruct (Z.ltb_spec hi lo); [lia|]. rewrite Z.quot_div_nonneg by lia.
  pose proof (Z.div_mod (lo + hi) 2 ltac:(lia)). pose proof (Z.mod_pos_bound (lo + hi) 2 ltac:(lia)).
  set (mid := (lo + hi) / 2) in *.
  destruct (lookup_lt_is_Some_2 l (Z.to_nat mid)) as (rm & Em); [lia|].
  apply wp_bind. eapply wp_read; [done|done|lia|done|].
  destruct (tiles_lookup _ _ _ _ _ Ht Em) as (_ & Hmm & _).
  destruct (Z.ltb_spec key (key_min rm)) as [Hl|Hl].
  { apply IH; [lia| |lia]. destruct (Z.ltb_spec j mid); [lia|].
    destruct (decide (j = mid)) as [->|]; [rewrite Em in Ej; injection Ej as ->; lia|].
    pose proof (tiles_order _ _ _ _ _ _ _ Ht Em Ej ltac:(lia)). lia. }
  destruct (Z.ltb_spec (key_max rm) key) as [Hh|Hh].
  { apply IH; [|lia|lia]. destruct (Z.ltb_spec mid j); [lia|].
    destruct (decide (j = mid)) as [->|]; [rewrite Em in Ej; injection Ej as ->; lia|].
    pose proof (tiles_order _ _ _ _ _ _ _ Ht Ej Em ltac:(lia)). lia. }
  apply wp_ret. split; [done|]. destruct (Z.lt_trichotomy j mid) as [|[|]]; [|done|].
  - pose proof (tiles_order _ _ _ _ _ _ _ Ht Ej Em ltac:(lia)). lia.
  - pose proof (tiles_order _ _ _ _ _ _ _ Ht Em Ej ltac:(lia)). lia.
Qed.

(** The search ends at the range that holds the key: it never panics. *)
Lemma wp_find_range s l key (Q : Z -> S -> Prop) : rm_rep s l -> fits l -> word key ->
  (forall l1 r l2, l = l1 ++ r :: l2 -> inside r key -> Q (Z.of_nat (length l1)) s) ->
  wp (find key) s Q.
Proof using All.
  intros (Hr & Ht & _) Hf Hk HQ. destruct (tiles_inside _ _ _ key Ht Hk) as (l1 & r & l2 & -> & Hi).
  unfold find. apply wp_bind. eapply wp_size; [done|].
  eapply wp_mono; [eapply (wp_find_loop _ _ _ (Z.of_nat (length l1)) r); try done|].
  - rewrite Nat2Z.id. by apply list_lookup_middle.
  - lia.
  - rewrite length_app. cbn. lia.
  - lia.
  - intros ? ? [-> ->]. by eapply HQ.
Qed.

(** *** Splitting a range *)

(** A range starts at [b]. *)
Definition starts (l : list Range) (b : Z) : Prop := exists r, r ∈ l /\ key_min r = b.

(** The two lists denote the same function on words. *)
Definition same_map (l l' : list Range) : Prop := forall k, word k -> denote l' k = denote l k.

Lemma tiles_split l1 r l2 key : tiles 0 (l1 ++ r :: l2) (2 ^ 64) -> inside r key -> key_min r <> key ->
  let l' := l1 ++ set_max (key - 1) r :: set_min key r :: l2 in
  tiles 0 l' (2 ^ 64) /\ same_map (l1 ++ r :: l2) l'.
Proof using Type.
  intros Ht [Hk1 Hk2] Hne l'. pose proof Ht as (T1 & T2 & T3)%tiles_mid. split.
  - apply tiles_mid. cbn. split; [done|]. split; [lia|]. split; [lia|]. split; [lia|done].
  - intros k [Hk _]. unfold l'. rewrite !(denote_app _ _ _ _ _ T1) by lia.
    destruct (k <? key_min r); [done|]. cbn.
    destruct (Z.leb_spec k (key - 1)), (Z.leb_spec k (key_max r)); (lia || done).
Qed.

Lemma wp_split_at s l key (Q : unit -> S -> Prop) : rm_rep s l ->
  Z.of_nat (length l) + 1 < 2 ^ 63 -> word key ->
  (forall s' l', rm_rep s' l' -> same_map l l' -> starts l' key ->
     (forall b, starts l b -> starts l' b) -> (length l' <= Datatypes.S (length l))%nat -> Q tt s') ->
  wp (split_at key) s Q.
Proof using All.
  intros Hr Hlen Hk HQ. pose proof Hr as (Hv & Ht & Hw). unfold split_at.
  apply wp_bind. eapply wp_find_range; [done|unfold fits; lia|done|]. intros l1 r l2 -> Hi.
  assert (word (key_min r) /\ word (key_max r) /\ word (val r)) as (W1 & W2 & W3).
  { apply (rm_words s (l1 ++ r :: l2) (length l1)); [done|by apply list_lookup_middle]. }
  apply wp_bind. eapply wp_read; [done|unfold fits; lia|lia| |].
  { rewrite Nat2Z.id. by apply list_lookup_middle. }
  destruct (Z.eqb_spec (key_min r) key) as [E|E].
  { apply wp_ret. eapply HQ; [done|done| |done|lia]. exists r. split; [set_solver|done]. }
  destruct (tiles_split l1 r l2 key Ht Hi E) as [Ht' Hm]. rewrite length_app in Hlen. cbn in Hlen.
  apply wp_bind. eapply wp_mono; [eapply wp_vinsert; [done| |by apply Hwords]|].
  { rewrite length_app. cbn. lia. }
  intros [] s1 Hs1.
  replace (Z.to_nat (Z.of_nat (length l1) + 1)) with (length (l1 ++ [r])) in Hs1
    by (rewrite length_app; cbn; lia).
  replace (l1 ++ r :: l2) with ((l1 ++ [r]) ++ l2) in Hs1 by by rewrite <- app_assoc.
  rewrite take_app_length, drop_app_length, <- app_assoc in Hs1. cbn in Hs1.
  destruct Hi as [Hi1 Hi2]. unfold word in Hk, W1, W2, W3.
  apply wp_bind. eapply wp_change; [done| |lia| | |].
  { unfold fits. rewrite length_app. cbn. lia. }
  { rewrite Nat2Z.id. by apply list_lookup_middle. }
  { apply Hwords. split_and!; [done| |done]. apply u64_range. }
  intros s2 Hs2. rewrite Nat2Z.id in Hs2. rewrite u64_small in Hs2 by lia.
  rewrite insert_app_r_alt, Nat.sub_diag in Hs2 by lia. cbn in Hs2.
  eapply (wp_change _ _ _ _ r); [done| |lia| | |].
  { unfold fits. rewrite length_app. cbn. lia. }
  { rewrite lookup_app_r by lia. by replace (_ - _)%nat with 1%nat by lia. }
  { apply Hwords. by split_and!. }
  intros s3 Hs3. rewrite insert_app_r_alt in Hs3 by lia.
  replace (Z.to_nat (Z.of_nat (length l1) + 1) - length l1)%nat with 1%nat in Hs3 by lia.
  cbn in Hs3. apply (HQ s3 (l1 ++ set_max (key - 1) r :: set_min key r :: l2)).
  - split; [done|]. split; [done|]. rewrite !Forall_app, !Forall_cons in *. cbn. tauto.
  - done.
  - exists (set_min key r). split; [set_solver|done].
  - intros b (r' & Hr' & <-). rewrite elem_of_app, elem_of_cons in Hr'.
    destruct Hr' as [|[->|]]; [exists r'|exists (set_max (key - 1) r)|exists r']; (split; [set_solver|done]).
  - rewrite !length_app. cbn. lia.
Qed.

(** *** Setting the values *)

Lemma wp_set_loop v : word v -> forall m s l1 l2 (Q : unit -> S -> Prop),
  rm_rep s (l1 ++ m ++ l2) -> fits (l1 ++ m ++ l2) ->
  (forall s', vrep s' (l1 ++ (set_val v <$> m) ++ l2) -> Q tt s') ->
  wp (set_loop (length m) (Z.of_nat (length l1)) v) s Q.
Proof using All.
  intros Hv. induction m as [|r m IH]; intros s l1 l2 Q Hr Hf HQ; cbn [length set_loop].
  { apply wp_ret, HQ. by destruct Hr. }
  assert (range_words r) as (W1 & W2 & _).
  { apply (rm_words s _ (length l1) _ Hr). by apply list_lookup_middle. }
  pose proof Hr as (Hs & Ht & Hw). apply wp_bind. eapply wp_change; [done|done|lia| | |].
  { rewrite Nat2Z.id. by apply list_lookup_middle. }
  { by apply Hwords. }
  intros s1 Hs1. rewrite Nat2Z.id, insert_app_r_alt, Nat.sub_diag in Hs1 by lia. cbn in Hs1.
  replace (Z.of_nat (length l1) + 1) with (Z.of_nat (length (l1 ++ [set_val v r])))
    by (rewrite length_app; cbn; lia).
  apply (IH _ _ l2); [split; [by rewrite <- app_assoc|split]| |].
  - rewrite <- app_assoc. apply tiles_mid in Ht. by apply tiles_mid.
  - rewrite <- app_assoc. cbn. rewrite !Forall_app, !Forall_cons in *. cbn in *.
    rewrite Forall_app. tauto.
  - unfold fits in *. rewrite <- app_assoc. cbn. rewrite !length_app in *. cbn in *.
    rewrite ?length_app in *. lia.
  - intros s' Hs'. apply HQ. by rewrite <- app_assoc in Hs'.
Qed.

(** *** Merging *)

(** Neighbours have different values. *)
Fixpoint canon (l : list Range) : Prop :=
  match l with
  | r :: ((r' :: _) as l') => val r <> val r' /\ canon l'
  | _ => True
  end.

Lemma canon_snoc l r r' : canon (l ++ [r]) -> val r <> val r' -> canon (l ++ [r; r']).
Proof using Type.
  induction l as [|r0 [|r1 l] IH]; cbn; [done|intros [? ?] ?; done|].
  intros [? Hc] Hne. split; [done|]. by apply IH.
Qed.

Lemma canon_val l r r' : canon (l ++ [r]) -> val r' = val r -> canon (l ++ [r']).
Proof using Type.
  induction l as [|r0 [|r1 l] IH]; cbn; [done|by intros [? _] ->|].
  intros [? Hc] He. split; [done|]. by apply IH.
Qed.

Lemma tiles_merge l1 r r' l2 : tiles 0 (l1 ++ r :: r' :: l2) (2 ^ 64) -> val r = val r' ->
  let l' := l1 ++ set_max (key_max r') r :: l2 in
  tiles 0 l' (2 ^ 64) /\ same_map (l1 ++ r :: r' :: l2) l'.
Proof using Type.
  intros (T1 & T2 & T3)%tiles_mid Hv l'. cbn in T3. destruct T3 as (T3 & T4 & T5). split.
  - apply tiles_mid. cbn. split; [done|]. split; [lia|done].
  - intros k [Hk _]. unfold l'. rewrite !(denote_app _ _ _ _ _ T1) by lia.
    destruct (k <? key_min r); [done|]. cbn. rewrite Hv.
    destruct (Z.leb_spec k (key_max r)), (Z.leb_spec k (key_max r')); (lia || done).
Qed.

Lemma wp_preen_loop l2 : forall fuel s l1 r (Q : unit -> S -> Prop),
  rm_rep s (l1 ++ r :: l2) -> fits (l1 ++ r :: l2) -> canon (l1 ++ [r]) -> (length l2 < fuel)%nat ->
  (forall s' l', rm_rep s' l' -> same_map (l1 ++ r :: l2) l' -> canon l' ->
     (length l' <= length (l1 ++ r :: l2))%nat -> Q tt s') ->
  wp (preen_loop fuel (Z.of_nat (length l1))) s Q.
Proof using All.
  induction l2 as [|r' l2 IH]; intros [|fuel] s l1 r Q Hr Hf Hc Hfu HQ; [cbn in Hfu; lia| |cbn in Hfu; lia|];
    pose proof Hr as (Hs & Ht & Hw); cbn [preen_loop]; apply wp_bind; (eapply wp_size; [done|]);
    rewrite length_app; cbn [length].
  { destruct (Z.ltb_spec (Z.of_nat (length l1)) (Z.of_nat (length l1 + 1) - 1)); [lia|].
    by eapply wp_ret, HQ. }
  destruct (Z.ltb_spec (Z.of_nat (length l1))
    (Z.of_nat (length l1 + Datatypes.S (Datatypes.S (length l2))) - 1)); [|lia].
  rewrite Z.add_0_r. apply wp_bind. eapply (wp_read _ _ _ r); [done|done|lia| |].
  { rewrite Nat2Z.id. by apply list_lookup_middle. }
  apply wp_bind. eapply (wp_read _ _ _ r'); [done|done|lia| |].
  { rewrite lookup_app_r by lia. by replace (_ - _)%nat with 1%nat by lia. }
  destruct (Z.eqb_spec (val r) (val r')) as [E|E]; cbn [negb].
  - destruct (tiles_merge l1 r r' l2 Ht E) as [Ht' Hm].
    assert (range_words r /\ range_words r') as [(W1 & _) (_ & W2 & W3)].
    { split; [apply (rm_words s _ (length l1) r Hr); by apply list_lookup_middle|].
      apply (rm_words s _ (Datatypes.S (length l1)) r' Hr). rewrite lookup_app_r by lia.
      by replace (_ - _)%nat with 1%nat by lia. }
    apply wp_bind. eapply wp_mono; [eapply wp_vput; [done|done| |apply Hwords]|].
    { rewrite length_app. cbn. lia. }
    { split_and!; cbn; [done|done|by rewrite E]. }
    intros [] s1 Hs1. rewrite Nat2Z.id, insert_app_r_alt, Nat.sub_diag in Hs1 by lia. cbn in Hs1.
    apply wp_bind. eapply wp_mono; [eapply wp_vremove; [done|]|].
    { rewrite length_app. cbn. lia. }
    intros [] s2 Hs2.
    replace (Z.to_nat (Z.of_nat (length l1) + 1)) with (length (l1 ++ [set_max (key_max r') r])) in Hs2
      by (rewrite length_app; cbn; lia).
    replace (l1 ++ set_max (key_max r') r :: r' :: l2) with
      ((l1 ++ [set_max (key_max r') r]) ++ r' :: l2) in Hs2 by by rewrite <- app_assoc.
    rewrite delete_middle, <- app_assoc in Hs2. cbn in Hs2.
    replace (Z.of_nat (length l1) - 1 + 1) with (Z.of_nat (length l1)) by lia.
    apply (IH _ _ _ (set_max (key_max r') r)).
    + split; [exact Hs2|]. split; [done|]. rewrite !Forall_app, !Forall_cons in *. cbn. tauto.
    + unfold fits in *. rewrite !length_app in *. cbn in *. lia.
    + by apply (canon_val _ r).
    + cbn in Hfu. lia.
    + intros s' l' Hr' Hm' Hc' Hl'. eapply HQ; [done| |done|].
      * intros k Hk. by rewrite Hm', Hm.
      * rewrite !length_app in *. cbn in *. lia.
  - replace (Z.of_nat (length l1) + 1) with (Z.of_nat (length (l1 ++ [r]))) by (rewrite length_app; cbn; lia).
    replace (l1 ++ r :: r' :: l2) with ((l1 ++ [r]) ++ r' :: l2) in * by by rewrite <- app_assoc.
    apply (IH _ _ _ r'); [done|done| |cbn in Hfu; lia|done].
    rewrite <- app_assoc. by apply canon_snoc.
Qed.

Lemma wp_preen s l (Q : unit -> S -> Prop) : rm_rep s l -> fits l ->
  (forall s' l', rm_rep s' l' -> same_map l l' -> canon l' -> (length l' <= length l)%nat -> Q tt s') ->
  wp preen s Q.
Proof using All.
  intros Hr Hf HQ. pose proof Hr as (Hs & Ht & _). unfold preen.
  apply wp_bind. eapply wp_size; [done|]. destruct l as [|r l]; [by cbn in Ht|].
  apply (wp_preen_loop l _ s [] r); [done|done|done|cbn; lia|done].
Qed.

(** *** Binding *)

Lemma inside_unique l r r' k : tiles 0 l (2 ^ 64) -> r ∈ l -> r' ∈ l -> inside r k -> inside r' k -> r = r'.
Proof using Type.
  intros Ht [i Ei]%list_elem_of_lookup [j Ej]%list_elem_of_lookup [? ?] [? ?].
  destruct (Nat.lt_trichotomy i j) as [Hlt|[->|Hlt]]; [|congruence|].
  - pose proof (tiles_order _ _ _ _ _ _ _ Ht Ei Ej Hlt). lia.
  - pose proof (tiles_order _ _ _ _ _ _ _ Ht Ej Ei Hlt). lia.
Qed.

(** The range that holds the start of a range is that range. *)
Lemma starts_min l r b k : tiles 0 l (2 ^ 64) -> starts l b -> r ∈ l -> inside r k -> k <= b <= key_max r ->
  key_min r = b.
Proof using Type.
  intros Ht (r' & Hr' & <-) Hr [Hk1 Hk2] Hb.
  pose proof Hr' as [j Ej]%list_elem_of_lookup. destruct (tiles_lookup _ _ _ _ _ Ht Ej) as (_ & ? & _).
  f_equal. apply (inside_unique l r r' (key_min r')); [done|done|done|split; lia|split; lia].
Qed.

Lemma tiles_set v a m b : tiles a m b -> tiles a (set_val v <$> m) b.
Proof using Type. revert a. induction m as [|r m IH]; intros a; cbn; [done|]. intros (-> & ? & ?). auto. Qed.

Lemma denote_set v a m b k : tiles a m b -> a <= k < b -> denote (set_val v <$> m) k = v.
Proof using Type.
  revert a. induction m as [|r m IH]; intros a; cbn; [lia|]. intros (_ & ? & Ht) Hk.
  destruct (Z.leb_spec k (key_max r)); [done|]. apply (IH _ Ht). lia.
Qed.

(** The ranges from the one that starts at [kmin] to the one that ends at
    [kmax] *)
Lemma cut_range l l1 r l2 p1 q p2 kmin kmax : l = l1 ++ r :: l2 -> l = p1 ++ q :: p2 ->
  tiles 0 l (2 ^ 64) -> key_min r = kmin -> key_max q = kmax -> kmin <= kmax ->
  exists m, l = l1 ++ m ++ p2 /\ tiles 0 l1 kmin /\ tiles kmin m (kmax + 1) /\
    tiles (kmax + 1) p2 (2 ^ 64) /\ length m = (length p1 + 1 - length l1)%nat.
Proof using Type.
  intros E1 E2 Ht Hr Hq Hle.
  assert (l !! length l1 = Some r) as L1 by (rewrite E1; by apply list_lookup_middle).
  assert (l !! length p1 = Some q) as L2 by (rewrite E2; by apply list_lookup_middle).
  destruct (tiles_lookup _ _ _ _ _ Ht L1) as (_ & ? & _).
  destruct (tiles_lookup _ _ _ _ _ Ht L2) as (_ & ? & _).
  assert (length l1 <= length p1)%nat as Hlen.
  { destruct (Nat.le_gt_cases (length l1) (length p1)) as [|Hgt]; [done|].
    pose proof (tiles_order _ _ _ _ _ _ _ Ht L2 L1 Hgt). lia. }
  exists (drop (length l1) (p1 ++ [q])).
  assert (l1 = take (length l1) (p1 ++ [q])) as Etake.
  { rewrite <- (take_app_length l1 (r :: l2)) at 1. rewrite <- E1, E2.
    replace (p1 ++ q :: p2) with ((p1 ++ [q]) ++ p2) by by rewrite <- app_assoc.
    rewrite take_app_le; [done|]. rewrite length_app. cbn. lia. }
  assert (l = l1 ++ drop (length l1) (p1 ++ [q]) ++ p2) as El.
  { rewrite app_assoc. rewrite Etake at 1. by rewrite take_drop, <- app_assoc. }
  split; [done|]. pose proof Ht as Ht1. rewrite E1 in Ht1. apply tiles_mid in Ht1 as (T1 & _ & T2).
  pose proof Ht as Ht2. rewrite E2 in Ht2. apply tiles_mid in Ht2 as (T3 & _ & T4).
  subst kmin kmax. split; [done|]. split; [|split; [done|by rewrite length_drop, length_app]].
  assert (tiles 0 (p1 ++ [q]) (key_max q + 1)) as T5.
  { apply tiles_mid. split; [done|]. split; [done|by cbn]. }
  rewrite <- (take_drop (length l1) (p1 ++ [q])), <- Etake in T5.
  apply tiles_app in T5 as (c & T5 & T6). assert (c = key_min r) as ->; [|done].
  clear -T1 T5. revert T1 T5. generalize 0. induction l1 as [|r0 l1 IH]; intros a; cbn; [congruence|].
  intros (_ & _ & T1) (_ & _ & T2). by apply (IH _ T1 T2).
Qed.

Lemma wp_bindRangeMap s l kmin kmax v (Q : unit -> S -> Prop) : rm_rep s l ->
  Z.of_nat (length l) + 2 < 2 ^ 63 -> word kmin -> word kmax -> kmin <= kmax -> word v ->
  (forall s' l', rm_rep s' l' -> canon l' -> (length l' <= length l + 2)%nat ->
     (forall k, word k ->
        denote l' k = if (kmin <=? k) && (k <=? kmax) then v else denote l k) -> Q tt s') ->
  wp (bindRangeMap kmin kmax v) s Q.
Proof using All.
  intros Hr Hlen Wmin Wmax Hle Wv HQ. unfold bindRangeMap.
  apply wp_bind, wp_rm_assert; [by apply Z.leb_le|].
  apply wp_bind. apply (wp_split_at s l kmin); [done|lia|done|]. intros s1 l1 Hr1 Hm1 St1 _ Len1.
  apply wp_bind. match goal with |- wp ?m s1 _ =>
    assert (wp m s1 (fun _ s2 => exists l2, rm_rep s2 l2 /\ same_map l l2 /\ starts l2 kmin /\
      (kmax + 1 = 2 ^ 64 \/ starts l2 (kmax + 1)) /\ (length l2 <= length l + 2)%nat)) as Hsplit end.
  { unfold UWORD_MAX. destruct (Z.ltb_spec kmax (2 ^ 64 - 1)).
    - unfold word in Wmax. rewrite u64_small by lia.
      apply (wp_split_at s1 l1); [done|lia|unfold word; lia|]. intros s2 l2 Hr2 Hm2 St2 Keep2 Len2.
      exists l2. split; [done|]. split; [intros k Hk; by rewrite Hm2, Hm1|]. split; [by apply Keep2|].
      split; [by right|lia].
    - apply wp_ret. exists l1. unfold word in Wmax. split; [done|]. split; [done|]. split; [done|].
      split; [left; lia|lia]. }
  eapply wp_mono; [exact Hsplit|]. clear s1 l1 Hr1 Hm1 St1 Len1 Hsplit.
  intros [] s2 (l2 & Hr2 & Hm2 & Smin & Smax & Len2). pose proof Hr2 as (Hs2 & Ht2 & Hw2).
  apply wp_bind. eapply wp_find_range; [done|unfold fits; lia|done|]. intros a1 r a2 E1 I1.
  apply wp_bind. eapply wp_find_range; [done|unfold fits; lia|done|]. intros p1 q p2 E2 I2.
  assert (key_min r = kmin) as Kr.
  { apply (starts_min l2 r kmin kmin); [done|done|rewrite E1; set_solver|done|]. destruct I1. lia. }
  assert (key_max q = kmax) as Kq.
  { assert (q ∈ l2) as Hq by (rewrite E2; set_solver). destruct I2 as [I2 I3].
    destruct (decide (key_max q = kmax)) as [|Hne]; [done|]. destruct Smax as [Smax|Smax].
    - pose proof Hq as [j Ej]%list_elem_of_lookup. destruct (tiles_lookup _ _ _ _ _ Ht2 Ej). lia.
    - pose proof (starts_min l2 q (kmax + 1) kmax Ht2 Smax Hq ltac:(split; lia) ltac:(lia)). lia. }
  destruct (cut_range l2 a1 r a2 p1 q p2 kmin kmax E1 E2 Ht2 Kr Kq Hle) as (m & -> & T1 & T2 & T3 & Lm).
  pose proof (tiles_le _ _ _ T1). pose proof (tiles_le _ _ _ T3).
  replace (Z.to_nat _) with (length m) by lia.
  apply wp_bind. eapply wp_set_loop; [done|done|unfold fits; lia|]. intros s3 Hs3.
  assert (tiles 0 (a1 ++ (set_val v <$> m) ++ p2) (2 ^ 64)) as Ht3.
  { apply tiles_app. exists kmin. split; [done|]. apply tiles_app. exists (kmax + 1).
    split; [by apply tiles_set|done]. }
  eapply wp_preen; [split; [exact Hs3|split; [done|]]| |].
  { rewrite !Forall_app in *. destruct Hw2 as (? & ? & ?). split; [done|]. split; [|done].
    apply Forall_fmap. by apply Forall_true. }
  { unfold fits. rewrite !length_app, length_fmap in *. lia. }
  intros s4 l4 Hr4 Hm4 Hc4 Len4. apply (HQ s4 l4); [done|done| |].
  { rewrite !length_app, length_fmap in *. lia. }
  intros k Wk. rewrite Hm4 by done. rewrite <- (Hm2 k Wk). pose proof Wk as [Wk1 Wk2].
  rewrite !(denote_app _ _ _ _ _ T1) by lia.
  destruct (Z.leb_spec kmin k), (Z.ltb_spec k kmin); try lia; cbn [andb]; [|done].
  rewrite (denote_app _ _ _ _ _ T2), (denote_app _ _ _ _ _ (tiles_set v _ _ _ T2)) by lia.
  destruct (Z.leb_spec k kmax), (Z.ltb_spec k (kmax + 1)); try lia.
  by apply (denote_set v kmin m (kmax + 1)).
Qed.

(** *** Creation and lookup *)

Lemma wp_newRangeMap s v (Q : unit -> S -> Prop) : vrep s [] -> word v ->
  (forall s' l, rm_rep s' l -> canon l -> (forall k, word k -> denote l k = v) -> length l = 1%nat -> Q tt s') ->
  wp (newRangeMap v) s Q.
Proof using All.
  intros Hs Wv HQ. unfold newRangeMap.
  apply wp_bind. eapply wp_mono; [eapply wp_vadd; [done|]|].
  { apply Hwords. by split_and!. }
  intros i s1 [-> Hs1]. apply wp_bind, wp_rm_assert; [done|].
  apply wp_bind. eapply wp_size; [done|]. apply wp_rm_assert; [done|].
  apply (HQ s1 [mk_range UWORD_MIN UWORD_MAX v]); [|done| |done].
  - split; [done|]. split; [done|]. by apply Forall_singleton.
  - intros k [? ?]. apply (denote_inside UWORD_MIN); [done|]. unfold inside, UWORD_MIN, UWORD_MAX. cbn. lia.
Qed.

Lemma denote_range l r k : tiles 0 l (2 ^ 64) -> r ∈ l -> inside r k -> denote l k = val r.
Proof using Type.
  intros Ht (l1 & l2 & ->)%list_elem_of_split Hk. by apply (denote_mid 0 _ _ _ (2 ^ 64)).
Qed.

(** Neighbouring ranges of a canonical list have different values. *)
Lemma canon_app l1 r r' l2 : canon (l1 ++ r :: r' :: l2) -> val r <> val r'.
Proof using Type.
  induction l1 as [|r0 [|r1 l1] IH]; cbn; [tauto|tauto|]. intros [_ Hc]. by apply IH.
Qed.

(** The range found is the largest one around the key that has one value. *)
Definition largest (f : Z -> Z) (k a b v : Z) : Prop :=
  a <= k <= b /\ word a /\ word b /\ (forall x, a <= x <= b -> f x = v) /\
  (0 < a -> f (a - 1) <> v) /\ (b < UWORD_MAX -> f (b + 1) <> v).

Lemma largest_ext f g k a b v : (forall x, word x -> f x = g x) -> largest f k a b v -> largest g k a b v.
Proof using Type.
  intros E (Hk & [? ?] & [? ?] & Hv & Ha & Hb). unfold UWORD_MAX in *.
  split; [done|]. split; [done|]. split; [done|]. split; [|split].
  - intros x Hx. rewrite <- E by (unfold word; lia). by apply Hv.
  - intros Hlt. rewrite <- E by (unfold word; lia). by apply Ha.
  - intros Hlt. rewrite <- E by (unfold word, UWORD_MAX in *; lia). by apply Hb.
Qed.

Lemma canon_largest l1 r l2 k : tiles 0 (l1 ++ r :: l2) (2 ^ 64) -> canon (l1 ++ r :: l2) ->
  inside r k -> largest (denote (l1 ++ r :: l2)) k (key_min r) (key_max r) (val r).
Proof using All.
  intros Ht Hc Hi. pose proof Ht as (T1 & T2 & T3)%tiles_mid.
  pose proof (tiles_le _ _ _ T1). pose proof (tiles_le _ _ _ T3).
  split; [exact Hi|]. unfold word. split; [lia|]. split; [lia|]. split.
  { intros x Hx. by apply (denote_mid 0 _ _ _ (2 ^ 64)). }
  unfold UWORD_MAX. split; intros Hb.
  - destruct l1 as [|r0 l1 _] using rev_ind; [cbn in T1; lia|].
    rewrite <- app_assoc in *. cbn [app] in *. apply canon_app in Hc.
    pose proof Ht as (T4 & T5 & T6)%tiles_mid. cbn in T6.
    destruct (denote_mid 0 l1 r0 (r :: l2) (2 ^ 64) (key_min r - 1) Ht) as (_ & _ & ->); [split; lia|done].
  - destruct l2 as [|r1 l2]; [cbn in T3; lia|]. apply canon_app in Hc. cbn in T3.
    rewrite (denote_range _ r1); [congruence|done|set_solver|split; lia].
Qed.

Lemma wp_lookupRangeMap s l k (Q : Z * Z * Z -> S -> Prop) : rm_rep s l -> canon l -> fits l -> word k ->
  (forall a b v, largest (denote l) k a b v -> Q (a, b, v) s) -> wp (lookupRangeMap k) s Q.
Proof using All.
  intros Hr Hc Hf Hk HQ. pose proof Hr as (Hs & Ht & _). unfold lookupRangeMap.
  apply wp_bind. eapply wp_find_range; [done|done|done|]. intros l1 r l2 -> Hi.
  apply wp_bind. eapply wp_read; [done|done|lia| |].
  { rewrite Nat2Z.id. by apply list_lookup_middle. }
  apply wp_ret, HQ. by apply canon_largest.
Qed.

(** *** Runs *)

(** The bindings [(key_min, key_max, val)] made one after the other *)
Fixpoint binds (bs : list (Z * Z * Z)) : M S unit :=
  match bs with
  | [] => ret tt
  | (kmin, kmax, v) :: bs => bindRangeMap kmin kmax v ;;; binds bs
  end.

(** The function they denote *)
Fixpoint bound (f : Z -> Z) (bs : list (Z * Z * Z)) : Z -> Z :=
  match bs with
  | [] => f
  | (kmin, kmax, v) :: bs => bound (fun k => if (kmin <=? k) && (k <=? kmax) then v else f k) bs
  end.

Definition valid_bind (b : Z * Z * Z) : Prop :=
  word b.1.1 /\ word b.1.2 /\ b.1.1 <= b.1.2 /\ word b.2.

Lemma wp_binds bs : Forall valid_bind bs -> forall s l f (Q : unit -> S -> Prop),
  rm_rep s l -> canon l -> Z.of_nat (length l + 2 * length bs) + 2 < 2 ^ 63 ->
  (forall k, word k -> denote l k = f k) ->
  (forall s' l', rm_rep s' l' -> canon l' -> (length l' <= length l + 2 * length bs)%nat ->
     (forall k, word k -> denote l' k = bound f bs k) -> Q tt s') ->
  wp (binds bs) s Q.
Proof using All.
  induction 1 as [|[[kmin kmax] v] bs (W1 & W2 & Hle & W3) Hbs IH]; cbn in *; intros s l f Q Hr Hc Hlen Hf HQ.
  { apply wp_ret. apply (HQ s l); [done|done|lia|done]. }
  apply wp_bind. apply (wp_bindRangeMap s l); [done|lia|done|done|done|done|].
  intros s1 l1 Hr1 Hc1 Len1 H1'.
  apply (IH s1 l1 (fun k => if (kmin <=? k) && (k <=? kmax) then v else f k)); [done|done|lia| |].
  - intros k Hk. rewrite H1' by done. by rewrite Hf.
  - intros s2 l2 Hr2 Hc2 Len2 Hd2. apply (HQ s2 l2); [done|done|lia|done].
Qed.
End Proofs.
