(* ===== verification/Chains.v ===== *)
(** Linked chains in a store of nodes, and arrays of chain heads: what the
    hash table of [m_hashtable.c] and the table of execution contexts of
    [m_execontext.c] share. *)
From stdpp Require Import base gmap list sets.
From Stdlib Require Import ZArith Lia.
From S2P Require Import Prelude.
Open Scope Z_scope.

Abbreviation loc := positive.
Abbreviation ptr := (option loc).

Section Chains.
Context {N : Type} (next : N -> ptr).

(** The nodes from [p] on are those of the list, in order. *)
Fixpoint chain (h : gmap loc N) (p : ptr) (ls : list loc) : Prop :=
  match ls with
  | [] => p = None
  | l :: ls => p = Some l /\ exists n, h !! l = Some n /\ chain h (next n) ls
  end.

Lemma chain_nil h ls : chain h None ls -> ls = [].
Proof. destruct ls; [done|by intros [? _]]. Qed.

Lemma chain_some h l ls : chain h (Some l) ls ->
  exists n ls', ls = l :: ls' /\ h !! l = Some n /\ chain h (next n) ls'.
Proof. destruct ls as [|l' ls]; [done|]. intros [[= <-] (n & E & Hc)]. eauto. Qed.

Lemma chain_lookup h p ls l : chain h p ls -> l ∈ ls -> exists n, h !! l = Some n.
Proof.
  revert p. induction ls as [|l' ls IH]; intros p Hc Hl; [by apply not_elem_of_nil in Hl|].
  destruct Hc as (_ & n & E & Hc). apply elem_of_cons in Hl as [->|Hl]; [eauto|by apply (IH _ Hc)].
Qed.

(** Only the nodes of the chain matter, and of these the links. *)
Lemma chain_ext h h' p ls :
  (forall l n, l ∈ ls -> h !! l = Some n -> exists n', h' !! l = Some n' /\ next n' = next n) ->
  chain h p ls -> chain h' p ls.
Proof.
  revert p. induction ls as [|l ls IH]; intros p He; [done|]. intros (-> & n & E & Hc).
  destruct (He l n) as (n' & E' & En); [set_solver|done|]. split; [done|]. exists n'. split; [done|].
  rewrite En. apply IH; [|done]. intros l' n1 Hl'. apply He. set_solver.
Qed.

Lemma chain_insert h p ls l n : l ∉ ls -> chain h p ls -> chain (<[l := n]> h) p ls.
Proof.
  intros Hl. apply chain_ext. intros l' n' Hl' E. exists n'. split; [|done].
  rewrite lookup_insert_ne; [done|]. intros ->. done.
Qed.

Lemma chain_app h p ls1 l ls2 : chain h p (ls1 ++ l :: ls2) -> chain h (Some l) (l :: ls2).
Proof.
  revert p. induction ls1 as [|l1 ls1 IH]; intros p; [by intros (-> & Hc)|].
  intros (_ & n & _ & Hc). by apply IH in Hc.
Qed.

Lemma chain_fun h p ls ls' : chain h p ls -> chain h p ls' -> ls = ls'.
Proof.
  revert p ls'. induction ls as [|l ls IH]; intros p ls'.
  - intros ->. intros Hc. by apply chain_nil in Hc.
  - intros (-> & n & E & Hc) (n' & ls1 & -> & E' & Hc')%chain_some.
    f_equal. rewrite E in E'. injection E' as ->. by apply (IH _ _ Hc).
Qed.

(** A chain has no cycle. *)
Lemma chain_NoDup h p ls : chain h p ls -> NoDup ls.
Proof.
  revert p. induction ls as [|l ls IH]; intros p Hc; [constructor|].
  pose proof Hc as (-> & n & E & Hn). constructor; [|by apply (IH _ Hn)].
  intros (l1 & l2 & ->)%list_elem_of_split. apply chain_app in Hn.
  pose proof (chain_fun _ _ _ _ Hc Hn) as Hf. apply (f_equal length) in Hf.
  cbn in Hf. rewrite length_app in Hf. cbn in Hf. lia.
Qed.

(** A chain is no longer than the store has nodes. *)
Lemma chain_size h p ls : chain h p ls -> (length ls <= size h)%nat.
Proof.
  intros Hc. rewrite <- size_dom, <- (size_list_to_set (C := gset loc) ls) by by eapply chain_NoDup.
  apply subseteq_size. intros l Hl%elem_of_list_to_set.
  destruct (chain_lookup _ _ _ _ Hc Hl) as (n & E). by eapply elem_of_dom_2.
Qed.

(** ** Arrays of chains *)

Definition table (h : gmap loc N) (heads : list ptr) (cs : list (list loc)) : Prop :=
  Forall2 (chain h) heads cs.

Lemma table_lookup h heads cs i : table h heads cs -> (i < length heads)%nat ->
  exists p ls, heads !! i = Some p /\ cs !! i = Some ls /\ chain h p ls.
Proof.
  intros Ht Hi. destruct (lookup_lt_is_Some_2 heads i Hi) as (p & Ep).
  destruct (Forall2_lookup_l _ _ _ _ _ Ht Ep) as (ls & El & Hc). eauto.
Qed.

Lemma table_ext h h' heads cs :
  (forall l n, l ∈ concat cs -> h !! l = Some n -> exists n', h' !! l = Some n' /\ next n' = next n) ->
  table h heads cs -> table h' heads cs.
Proof.
  intros He Ht. apply Forall2_same_length_lookup. split; [by eapply Forall2_length|].
  intros i p ls Ep El. eapply chain_ext; [|by eapply Forall2_lookup_lr].
  intros l n Hl. apply He. apply list_elem_of_In, in_concat. exists ls.
  split; apply list_elem_of_In; [by eapply list_elem_of_lookup_2|done].
Qed.

Lemma table_insert_ne h heads cs l n : l ∉ concat cs -> table h heads cs -> table (<[l := n]> h) heads cs.
Proof.
  intros Hl. apply table_ext. intros l' n' Hl' E. exists n'. split; [|done].
  rewrite lookup_insert_ne; [done|]. intros ->. done.
Qed.

Lemma elem_of_table cs i ls (l : loc) : cs !! i = Some ls -> l ∈ ls -> l ∈ concat cs.
Proof.
  intros Ei Hl. apply list_elem_of_In, in_concat. exists ls.
  split; apply list_elem_of_In; [by eapply list_elem_of_lookup_2|done].
Qed.

Lemma table_elem cs (l : loc) : l ∈ concat cs -> exists i ls, cs !! i = Some ls /\ l ∈ ls.
Proof.
  intros (ls & Hls & Hl)%list_elem_of_In%in_concat.
  apply list_elem_of_In, list_elem_of_lookup in Hls as [i Ei]. apply list_elem_of_In in Hl. eauto.
Qed.

Lemma concat_insert cs i (ls ls' : list loc) : cs !! i = Some ls ->
  concat cs ≡ₚ ls ++ concat (delete i cs) /\ concat (<[i := ls']> cs) ≡ₚ ls' ++ concat (delete i cs).
Proof.
  intros Ei. pose proof (lookup_lt_Some _ _ _ Ei).
  rewrite <- (take_drop_middle cs i ls Ei) at 1. rewrite insert_take_drop, delete_take_drop by done.
  rewrite !concat_app. cbn. split; apply Permutation_app_swap_app.
Qed.

Lemma concat_NoDup_ne cs i j (ls ls' : list loc) l : NoDup (concat cs) -> cs !! i = Some ls ->
  cs !! j = Some ls' -> l ∈ ls -> l ∈ ls' -> i = j.
Proof.
  intros Hnd Ei Ej Hl Hl'. destruct (decide (i = j)) as [|Hne]; [done|]. exfalso.
  destruct (concat_insert cs i ls ls Ei) as [E _]. rewrite E in Hnd.
  apply NoDup_app in Hnd as (_ & Hd & _). apply (Hd l Hl).
  destruct (decide (j < i)%nat).
  - eapply (elem_of_table _ j); [|exact Hl']. by rewrite list_lookup_delete_lt.
  - eapply (elem_of_table _ (j - 1)); [|exact Hl']. rewrite list_lookup_delete_ge by lia.
    by replace (S (j - 1)) with j by lia.
Qed.

Lemma elem_of_delete cs i j (ls : list loc) l : cs !! j = Some ls -> j <> i -> l ∈ ls ->
  l ∈ concat (delete i cs).
Proof.
  intros Ej Hne Hl. destruct (decide (j < i)%nat).
  - eapply (elem_of_table _ j); [|exact Hl]. by rewrite list_lookup_delete_lt.
  - eapply (elem_of_table _ (j - 1)); [|exact Hl]. rewrite list_lookup_delete_ge by lia.
    by replace (S (j - 1)) with j by lia.
Qed.

(** One chain is replaced; the nodes of the others keep their links. *)
Lemma table_update h h' heads cs i p' ls' : table h heads cs -> chain h' p' ls' ->
  (forall l n, l ∈ concat (delete i cs) -> h !! l = Some n -> exists n', h' !! l = Some n' /\ next n' = next n) ->
  table h' (<[i := p']> heads) (<[i := ls']> cs).
Proof.
  intros Ht Hc He. apply Forall2_same_length_lookup.
  split; [rewrite !length_insert; by eapply Forall2_length|].
  intros j q ks. destruct (decide (i = j)) as [<-|Hne].
  - intros [(_ & <- & _)|[? _]]%list_lookup_insert_Some [(_ & <- & _)|[? _]]%list_lookup_insert_Some; done.
  - rewrite !list_lookup_insert_ne by done. intros Eq Ek.
    eapply chain_ext; [|by eapply Forall2_lookup_lr]. intros l n Hl. apply He.
    by eapply elem_of_delete.
Qed.

(** A node is put at the head of a chain. *)
Lemma table_push h heads cs i p ls l n : table h heads cs -> heads !! i = Some p -> cs !! i = Some ls ->
  l ∉ concat cs -> next n = p ->
  table (<[l := n]> h) (<[i := Some l]> heads) (<[i := l :: ls]> cs).
Proof.
  intros Ht Ep Ei Hl Hn. assert (forall ks, ks ⊆ concat cs -> l ∉ ks) as Hout by set_solver.
  assert (Hls : l ∉ ls) by (intros Hin; apply Hl; by eapply elem_of_table).
  eapply table_update; [done| |].
  - split; [done|]. exists n. rewrite lookup_insert_eq. split; [done|].
    apply chain_insert; [done|]. rewrite Hn. by eapply Forall2_lookup_lr.
  - intros l' n' Hl' E. exists n'. split; [|done]. rewrite lookup_insert_ne; [done|]. intros <-.
    apply Hl. destruct (concat_insert cs i ls ls Ei) as [Hp _]. rewrite Hp. set_solver.
Qed.

(** The node after [q] is taken out of its chain. *)
Lemma chain_unlink h p l1 q l l2 nq n nq' : chain h p (l1 ++ q :: l :: l2) ->
  h !! q = Some nq -> h !! l = Some n -> next nq' = next n ->
  chain (<[q := nq']> h) p (l1 ++ q :: l2).
Proof.
  intros Hc Eq El Hn. pose proof (chain_NoDup _ _ _ Hc) as Hnd.
  revert p Hc Hnd. induction l1 as [|l0 l1 IH]; intros p Hc Hnd.
  - destruct Hc as (-> & nq0 & Eq0 & (E1 & n0 & El0 & Hc)). split; [done|].
    exists nq'. rewrite lookup_insert_eq. split; [done|]. rewrite Hn. rewrite El in El0. injection El0 as <-.
    apply chain_insert; [|done]. cbn in Hnd. apply NoDup_cons in Hnd as [Hq _]. set_solver.
  - destruct Hc as (-> & n0 & E0 & Hc). cbn in Hnd. apply NoDup_cons in Hnd as [H0 Hnd]. split; [done|].
    exists n0. rewrite lookup_insert_ne by (intros ->; set_solver). split; [done|]. by apply IH.
Qed.

(** Two neighbours change places, after [q2] or at the head of the chain. *)
Lemma chain_swap_head h l q l2 n nq n' nq' : chain h (Some q) (q :: l :: l2) ->
  h !! q = Some nq -> h !! l = Some n -> next nq' = next n -> next n' = Some q ->
  chain (<[l := n']> (<[q := nq']> h)) (Some l) (l :: q :: l2).
Proof.
  intros Hc Eq El Hq Hn. pose proof (chain_NoDup _ _ _ Hc) as Hnd.
  apply NoDup_cons in Hnd as [H1 Hnd]. apply NoDup_cons in Hnd as [H2 _].
  destruct Hc as (_ & nq0 & _ & (_ & n0 & El0 & Hc)). rewrite El in El0. injection El0 as <-.
  split; [done|]. exists n'. rewrite lookup_insert_eq. split; [done|]. rewrite Hn. split; [done|].
  exists nq'. rewrite lookup_insert_ne by set_solver. rewrite lookup_insert_eq. split; [done|].
  rewrite Hq. apply chain_insert; [set_solver|]. apply chain_insert; [set_solver|done].
Qed.

Lemma chain_swap h p l1 q2 q l l2 n2 nq n n2' nq' n' : chain h p (l1 ++ q2 :: q :: l :: l2) ->
  h !! q2 = Some n2 -> h !! q = Some nq -> h !! l = Some n ->
  next n2' = Some l -> next nq' = next n -> next n' = Some q ->
  chain (<[l := n']> (<[q := nq']> (<[q2 := n2']> h))) p (l1 ++ q2 :: l :: q :: l2).
Proof.
  intros Hc E2 Eq El H2 Hq Hn. pose proof (chain_NoDup _ _ _ Hc) as Hnd.
  revert p Hc Hnd. induction l1 as [|l0 l1 IH]; intros p Hc Hnd.
  - cbn in Hnd. apply NoDup_cons in Hnd as [H0 Hnd].
    destruct Hc as (-> & n0 & E0 & Hc). rewrite E2 in E0. injection E0 as <-. split; [done|].
    exists n2'. rewrite !lookup_insert_ne by set_solver. rewrite lookup_insert_eq. split; [done|].
    rewrite H2. pose proof Hc as [Eh _]. rewrite Eh in Hc.
    eapply chain_swap_head; [apply chain_insert; [done|exact Hc]| | |done|done];
      rewrite lookup_insert_ne; try done; set_solver.
  - destruct Hc as (-> & n0 & E0 & Hc). cbn in Hnd. apply NoDup_cons in Hnd as [H0 Hnd]. split; [done|].
    exists n0. rewrite !lookup_insert_ne by set_solver. split; [done|]. by apply IH.
Qed.

Lemma concat_push (cs : list (list loc)) i ls (l : loc) : cs !! i = Some ls -> concat (<[i := l :: ls]> cs) ≡ₚ l :: concat cs.
Proof. intros Ei. destruct (concat_insert cs i ls (l :: ls) Ei) as [H1 H2]. by rewrite H2, H1. Qed.

Lemma concat_replicate_nil n : concat (replicate n ([] : list loc)) = [].
Proof. by induction n. Qed.
End Chains.
