(* ===== verification/HashTable.v ===== *)
(** The hash table of [coregrind/m_hashtable.c]: nodes owned by the client,
    chained through their first field, and an iterator that the current
    element can be removed at.  The client's nodes and the table's structure
    are one state. *)
From stdpp Require Import base gmap list.
From Stdlib Require Import ZArith Lia.
From S2P Require Import Prelude Printf Chains.
Open Scope prog_scope.
Open Scope Z_scope.

Section HashTable.
Context {D : Type}.

(** ** Data *)

(** A node: the two fields the table uses, and the client's *)
Record VgHashNode := mk_hnode { hnext : ptr; hkey : Z; hdata : D }.

Definition set_next (p : ptr) (n : VgHashNode) : VgHashNode := mk_hnode p (hkey n) (hdata n).

Record VgHashTable := mk_ht {
  hnodes : gmap loc VgHashNode;
  n_chains : Z;
  n_elements : Z;
  iterNode : ptr;
  iterChain : Z;
  iterOK : bool;
  chains : list ptr
}.

Definition primes : list Z :=
  [769; 1543; 3079; 6151; 12289; 24593; 49157; 98317; 196613; 393241; 786433; 1572869; 3145739;
   6291469; 12582917; 25165843; 50331653; 100663319; 201326611; 402653189].

Definition set_hnodes (h : gmap loc VgHashNode) (t : VgHashTable) : VgHashTable :=
  mk_ht h (n_chains t) (n_elements t) (iterNode t) (iterChain t) (iterOK t) (chains t).
Definition set_n_chains (n : Z) (t : VgHashTable) : VgHashTable :=
  mk_ht (hnodes t) n (n_elements t) (iterNode t) (iterChain t) (iterOK t) (chains t).
Definition set_n_elements (n : Z) (t : VgHashTable) : VgHashTable :=
  mk_ht (hnodes t) (n_chains t) n (iterNode t) (iterChain t) (iterOK t) (chains t).
Definition set_iter (p : ptr) (c : Z) (t : VgHashTable) : VgHashTable :=
  mk_ht (hnodes t) (n_chains t) (n_elements t) p c (iterOK t) (chains t).
Definition set_iterOK (b : bool) (t : VgHashTable) : VgHashTable :=
  mk_ht (hnodes t) (n_chains t) (n_elements t) (iterNode t) (iterChain t) b (chains t).
Definition set_chains (cs : list ptr) (t : VgHashTable) : VgHashTable :=
  mk_ht (hnodes t) (n_chains t) (n_elements t) (iterNode t) (iterChain t) (iterOK t) cs.

(** ** Memory *)

Definition ht_assert (b : bool) : M VgHashTable unit := if b then ret tt else fail.

Definition hload (p : ptr) : M VgHashTable VgHashNode := fun t =>
  match p with
  | Some l => match hnodes t !! l with Some n => Some (n, t) | None => None end
  | None => None
  end.

(** [l->next = p] *)
Definition store_next (l : loc) (p : ptr) : M VgHashTable unit := fun t =>
  match hnodes t !! l with
  | Some n => Some (tt, set_hnodes (<[l := set_next p n]> (hnodes t)) t)
  | None => None
  end.

(** [cs[i]], for reading and writing an array of heads *)
Definition arr_get (cs : list ptr) (i : Z) : M VgHashTable ptr :=
  if 0 <=? i then match cs !! Z.to_nat i with Some p => ret p | None => fail end else fail.
Definition arr_set (cs : list ptr) (i : Z) (p : ptr) : list ptr := <[Z.to_nat i := p]> cs.

Definition get_chain (i : Z) : M VgHashTable ptr := cs <- gets chains ;; arr_get cs i.
Definition set_chain (i : Z) (p : ptr) : M VgHashTable unit :=
  get_chain i ;;; modify (fun t => set_chains (arr_set (chains t) i p) t).

Definition CHAIN_NO (key : Z) (t : VgHashTable) : Z := key mod n_chains t.

Definition walk_fuel : M VgHashTable nat := gets (fun t => S (size (hnodes t))).

(** ** Construction and insertion *)

(** The client's nodes are there before the table is. *)
Definition HT_construct (h : gmap loc VgHashNode) : VgHashTable :=
  let n := hd 0 primes in mk_ht h n 0 None 0 true (replicate (Z.to_nat n) None).

Definition HT_count_nodes (t : VgHashTable) : Z := n_elements t.

(** The first prime above [n], or [n] *)
Fixpoint next_prime (ps : list Z) (n : Z) : Z :=
  match ps with
  | [] => n
  | p :: ps => if n <? p then p else next_prime ps n
  end.

(** The nodes of a chain are moved, one by one, to the array [cs]. *)
Fixpoint move_chain (fuel : nat) (node : ptr) (cs : list ptr) : M VgHashTable (list ptr) :=
  match fuel with
  | O => fail
  | S fuel =>
      match node with
      | None => ret cs
      | Some l =>
          n <- hload node ;;
          chain <- gets (CHAIN_NO (hkey n)) ;;
          c <- arr_get cs chain ;;
          store_next l c ;;;
          move_chain fuel (hnext n) (arr_set cs chain node)
      end
  end.

Fixpoint move_chains (n : nat) (i : Z) (cs : list ptr) : M VgHashTable (list ptr) :=
  match n with
  | O => ret cs
  | S n =>
      node <- get_chain i ;;
      fuel <- walk_fuel ;;
      cs <- move_chain fuel node cs ;;
      move_chains n (i + 1) cs
  end.

Definition resize : M VgHashTable unit :=
  old_chains <- gets n_chains ;;
  if old_chains =? List.last primes 0 then ret tt
  else
    ht_assert ((hd 0 primes <=? old_chains) && (old_chains <? List.last primes 0)) ;;;
    let new_chains := next_prime primes (old_chains + 1) in
    ht_assert (old_chains <? new_chains) ;;;
    ht_assert ((hd 0 primes <? new_chains) && (new_chains <=? List.last primes 0)) ;;;
    modify (set_n_chains new_chains) ;;;
    cs <- move_chains (Z.to_nat old_chains) 0 (replicate (Z.to_nat new_chains) None) ;;
    modify (set_chains cs).

Definition HT_add_node (node : loc) : M VgHashTable unit :=
  n <- hload (Some node) ;;
  chain <- gets (CHAIN_NO (hkey n)) ;;
  head <- get_chain chain ;;
  store_next node head ;;;
  set_chain chain (Some node) ;;;
  modify (fun t => set_n_elements (u32 (n_elements t + 1)) t) ;;;
  t <- gets id ;;
  (if n_chains t <? n_elements t then resize else ret tt) ;;;
  modify (set_iterOK false).

(** ** Lookup *)

(** The first node of a chain that passes the test *)
Fixpoint lookup_chain (fuel : nat) (test : VgHashNode -> bool) (curr : ptr) : M VgHashTable ptr :=
  match fuel with
  | O => fail
  | S fuel =>
      match curr with
      | None => ret None
      | Some _ =>
          n <- hload curr ;;
          if test n then ret curr else lookup_chain fuel test (hnext n)
      end
  end.

Definition HT_lookup (key : Z) : M VgHashTable ptr :=
  chain <- gets (CHAIN_NO key) ;;
  curr <- get_chain chain ;;
  fuel <- walk_fuel ;;
  lookup_chain fuel (fun n => key =? hkey n) curr.

(** The node looked for is the client's, given by its fields. *)
Definition HT_gen_lookup (hnode : VgHashNode) (cmp : VgHashNode -> VgHashNode -> Z) : M VgHashTable ptr :=
  chain <- gets (CHAIN_NO (hkey hnode)) ;;
  curr <- get_chain chain ;;
  fuel <- walk_fuel ;;
  lookup_chain fuel (fun n => (hkey hnode =? hkey n) && (cmp hnode n =? 0)) curr.

(** ** Removal *)

(** Where the pointer to the current node is: [prev_next_ptr] *)
Inductive next_ptr := Head (chain : Z) | NextOf (l : loc).

Definition store_ptr (r : next_ptr) (p : ptr) : M VgHashTable unit :=
  match r with Head chain => set_chain chain p | NextOf l => store_next l p end.

Fixpoint remove_chain (fuel : nat) (test : VgHashNode -> bool) (curr : ptr) (prev_next_ptr : next_ptr)
    : M VgHashTable ptr :=
  match fuel with
  | O => fail
  | S fuel =>
      match curr with
      | None => ret None
      | Some l =>
          n <- hload curr ;;
          if test n then
            store_ptr prev_next_ptr (hnext n) ;;;
            modify (fun t => set_n_elements (u32 (n_elements t - 1)) t) ;;;
            ret curr
          else remove_chain fuel test (hnext n) (NextOf l)
      end
  end.

Definition HT_remove (key : Z) : M VgHashTable ptr :=
  chain <- gets (CHAIN_NO key) ;;
  curr <- get_chain chain ;;
  modify (set_iterOK false) ;;;
  fuel <- walk_fuel ;;
  remove_chain fuel (fun n => key =? hkey n) curr (Head chain).

Definition HT_gen_remove (hnode : VgHashNode) (cmp : VgHashNode -> VgHashNode -> Z) : M VgHashTable ptr :=
  chain <- gets (CHAIN_NO (hkey hnode)) ;;
  curr <- get_chain chain ;;
  modify (set_iterOK false) ;;;
  fuel <- walk_fuel ;;
  remove_chain fuel (fun n => (hkey hnode =? hkey n) && (cmp hnode n =? 0)) curr (Head chain).

(** ** All elements *)

Fixpoint chain_to_array (fuel : nat) (node : ptr) : M VgHashTable (list loc) :=
  match fuel with
  | O => fail
  | S fuel =>
      match node with
      | None => ret []
      | Some l => n <- hload node ;; arr <- chain_to_array fuel (hnext n) ;; ret (l :: arr)
      end
  end.

Fixpoint chains_to_array (n : nat) (i : Z) : M VgHashTable (list loc) :=
  match n with
  | O => ret []
  | S n =>
      node <- get_chain i ;;
      fuel <- walk_fuel ;;
      a1 <- chain_to_array fuel node ;;
      a2 <- chains_to_array n (i + 1) ;;
      ret (a1 ++ a2)
  end.

(** [None] is the null array. *)
Definition HT_to_array : M VgHashTable (option (list loc)) :=
  n_elems <- gets n_elements ;;
  if n_elems =? 0 then ret None
  else
    n <- gets n_chains ;;
    arr <- chains_to_array (Z.to_nat n) 0 ;;
    ht_assert (Z.of_nat (length arr) =? n_elems) ;;;
    ret (Some arr).

(** ** The iterator *)

Definition HT_ResetIter : M VgHashTable unit := modify (fun t => set_iterOK true (set_iter None 0 t)).

(** The next chain with a node, from index [i] *)
Fixpoint scan_chains (fuel : nat) (i : Z) : M VgHashTable ptr :=
  match fuel with
  | O => fail
  | S fuel =>
      n <- gets n_chains ;;
      if i <? n then
        head <- get_chain i ;;
        match head with
        | Some _ => modify (set_iter head (u32 (i + 1))) ;;; ret head
        | None => scan_chains fuel (i + 1)
        end
      else ret None
  end.

Definition HT_Next : M VgHashTable ptr :=
  t <- gets id ;;
  ht_assert (iterOK t) ;;;
  next <- match iterNode t with
          | Some _ => n <- hload (iterNode t) ;; ret (hnext n)
          | None => ret None
          end ;;
  match next with
  | Some _ => modify (set_iter next (iterChain t)) ;;; ret next
  | None => scan_chains (S (Z.to_nat (n_chains t - iterChain t))) (iterChain t)
  end.

(** The node before [node] in the chain from [prev] on *)
Fixpoint find_prev (fuel : nat) (prev node : loc) : M VgHashTable loc :=
  match fuel with
  | O => fail
  | S fuel =>
      n <- hload (Some prev) ;;
      if bool_decide (hnext n = Some node) then ret prev
      else match hnext n with Some l => find_prev fuel l node | None => fail end
  end.

Definition HT_remove_at_Iter : M VgHashTable unit :=
  t <- gets id ;;
  ht_assert (iterOK t) ;;;
  match iterNode t with
  | None => fail
  | Some node =>
      let curChain := u32 (iterChain t - 1) in
      head <- get_chain curChain ;;
      n <- hload (Some node) ;;
      (if bool_decide (head = Some node) then
         set_chain curChain (hnext n) ;;;
         modify (set_iter None curChain)
       else
         match head with
         | None => fail
         | Some h =>
             fuel <- walk_fuel ;;
             prev <- find_prev fuel h node ;;
             store_next prev (hnext n) ;;;
             modify (set_iter (Some prev) (iterChain t))
         end) ;;;
      modify (fun t => set_n_elements (u32 (n_elements t - 1)) t)
  end.

(** ** Destruction *)

Fixpoint destruct_chain (fuel : nat) (freenode_fn : loc -> M VgHashTable unit) (node : ptr)
    : M VgHashTable unit :=
  match fuel with
  | O => fail
  | S fuel =>
      match node with
      | None => ret tt
      | Some l =>
          n <- hload node ;;
          freenode_fn l ;;;
          destruct_chain fuel freenode_fn (hnext n)
      end
  end.

Fixpoint destruct_chains (n : nat) (i : Z) (freenode_fn : loc -> M VgHashTable unit) : M VgHashTable unit :=
  match n with
  | O => ret tt
  | S n =>
      node <- get_chain i ;;
      fuel <- walk_fuel ;;
      destruct_chain fuel freenode_fn node ;;;
      destruct_chains n (i + 1) freenode_fn
  end.

(** The nodes go to [freenode_fn]; then the array and the structure are
    freed, and only the store of nodes is left. *)
Definition HT_destruct (freenode_fn : loc -> M VgHashTable unit) : M VgHashTable unit :=
  n <- gets n_chains ;;
  destruct_chains (Z.to_nat n) 0 freenode_fn ;;;
  modify (fun t => set_chains [] t).
End HashTable.
Arguments VgHashNode : clear implicits.
Arguments VgHashTable : clear implicits.
