(* ===== verification/HashTableProofs.v ===== *)
(** The hash table against the lists of its chains: its invariant, that every
    operation keeps it, what the iterator visits, and the finite map that a
    table with distinct keys is. *)
From stdpp Require Import base gmap list fin_maps sets.
From Stdlib Require Import ZArith Lia.
From S2P Require Import Prelude Printf Chains HashTable.
Open Scope prog_scope.
Open Scope Z_scope.

Section Proofs.
Context {D : Type}.
Implicit Types (t : VgHashTable D) (h : gmap loc (VgHashNode D)).

(** ** Memory *)

(** What the client stores in its nodes: the keys and the data *)
Definition payload h : gmap loc (Z * D) := (fun n => (hkey n, hdata n)) <$> h.

Lemma payload_lookup h l n : h !! l = Some n -> payload h !! l = Some (hkey n, hdata n).
Proof. intros E. unfold payload. by rewrite lookup_fmap, E. Qed.

Lemma payload_inv h l k d : payload h !! l = Some (k, d) ->
  exists n, h !! l = Some n /\ hkey n = k /\ hdata n = d.
Proof. unfold payload. intros (n & [= <- <-] & E)%lookup_fmap_Some. eauto. Qed.

Lemma payload_set_next h l n p : h !! l = Some n -> payload (<[l := set_next p n]> h) = payload h.
Proof.
  intros E. unfold payload. rewrite fmap_insert. cbn. apply insert_id. by rewrite lookup_fmap, E.
Qed.

Lemma wp_ht_assert b t (Q : unit -> VgHashTable D -> Prop) : b = true -> Q tt t -> wp (ht_assert b) t Q.
Proof. intros ->. done. Qed.

Lemma wp_hload l t n (Q : VgHashNode D -> VgHashTable D -> Prop) :
  hnodes t !! l = Some n -> Q n t -> wp (hload (Some l)) t Q.
Proof. intros E HQ. unfold wp, hload. by rewrite E. Qed.

Lemma wp_store_next l p t n (Q : unit -> VgHashTable D -> Prop) : hnodes t !! l = Some n ->
  Q tt (set_hnodes (<[l := set_next p n]> (hnodes t)) t) -> wp (store_next l p) t Q.
Proof. intros E HQ. unfold wp, store_next. by rewrite E. Qed.

Lemma wp_arr_get cs i p t (Q : ptr -> VgHashTable D -> Prop) : cs !! i = Some p -> Q p t ->
  wp (arr_get cs (Z.of_nat i)) t Q.
Proof.
  intros E HQ. unfold arr_get. rewrite (proj2 (Z.leb_le 0 _)) by lia. by rewrite Nat2Z.id, E.
Qed.

Lemma wp_get_chain i p t (Q : ptr -> VgHashTable D -> Prop) : chains t !! i = Some p -> Q p t ->
  wp (get_chain (Z.of_nat i)) t Q.
Proof. intros E HQ. unfold get_chain. apply wp_bind, wp_gets. by eapply wp_arr_get. Qed.

Lemma wp_set_chain i q p t (Q : unit -> VgHashTable D -> Prop) : chains t !! i = Some q ->
  Q tt (set_chains (<[i := p]> (chains t)) t) -> wp (set_chain (Z.of_nat i) p) t Q.
Proof.
  intros E HQ. unfold set_chain. apply wp_bind. eapply wp_get_chain; [done|].
  apply wp_modify. unfold arr_set. by rewrite Nat2Z.id.
Qed.

(** ** The invariant *)

(** Every element is in the chain of its key. *)
Definition hashed (pl : gmap loc (Z * D)) (m : Z) (cs : list (list loc)) : Prop :=
  forall i ls l k d, cs !! i = Some ls -> l ∈ ls -> pl !! l = Some (k, d) -> Z.to_nat (k mod m) = i.

(** The table's chains are [cs]. *)
Record ht_ok t (cs : list (list loc)) : Prop := {
  ok_table : table hnext (hnodes t) (chains t) cs;
  ok_nodup : NoDup (concat cs);
  ok_length : Z.of_nat (length cs) = n_chains t;
  ok_prime : n_chains t ∈ primes;
  ok_hashed : hashed (payload (hnodes t)) (n_chains t) cs;
  ok_count : n_elements t = Z.of_nat (length (concat cs));
  ok_small : n_elements t < 2 ^ 32
}.

Lemma primes_range n : n ∈ primes -> 769 <= n <= 402653189.
Proof. revert n. apply Forall_forall. apply (bool_decide_unpack _). vm_compute. done. Qed.

Lemma ok_chains_length t cs : ht_ok t cs -> length (chains t) = length cs.
Proof. intros Hok. eapply Forall2_length. apply Hok. Qed.

(** The chain of a key *)
Lemma ok_chain t cs key : ht_ok t cs ->
  exists i p ls, CHAIN_NO key t = Z.of_nat i /\ chains t !! i = Some p /\ cs !! i = Some ls /\
    chain hnext (hnodes t) p ls.
Proof.
  intros Hok. pose proof (primes_range _ (ok_prime _ _ Hok)) as Hn.
  pose proof (Z.mod_pos_bound key (n_chains t) ltac:(lia)) as Hm.
  pose proof (ok_length _ _ Hok) as Hl. pose proof (ok_chains_length _ _ Hok) as Hc.
  destruct (table_lookup hnext (hnodes t) (chains t) cs (Z.to_nat (CHAIN_NO key t))) as (p & ls & Ep & El & Hch);
    [apply Hok|unfold CHAIN_NO; lia|].
  exists (Z.to_nat (CHAIN_NO key t)), p, ls. split; [unfold CHAIN_NO; lia|done].
Qed.

(** An element with the key is in the chain of the key. *)
Lemma ok_in_chain t cs key i ls l d : ht_ok t cs -> CHAIN_NO key t = Z.of_nat i -> cs !! i = Some ls ->
  l ∈ concat cs -> payload (hnodes t) !! l = Some (key, d) -> l ∈ ls.
Proof.
  intros Hok Hi Ei (j & ks & Ej & Hl)%table_elem Hp.
  pose proof (ok_hashed _ _ Hok j ks l key d Ej Hl Hp) as Hj. unfold CHAIN_NO in Hi.
  rewrite Hi, Nat2Z.id in Hj. by simplify_eq.
Qed.

Lemma chain_fuel t p ls : chain hnext (hnodes t) p ls -> (length ls < S (size (hnodes t)))%nat.
Proof. intros Hc. apply chain_size in Hc. lia. Qed.

(** ** Lookup *)

Lemma wp_lookup_chain fuel test : forall t p ls (Q : ptr -> VgHashTable D -> Prop),
  chain hnext (hnodes t) p ls -> (length ls < fuel)%nat ->
  (forall l n, l ∈ ls -> hnodes t !! l = Some n -> test n = true -> Q (Some l) t) ->
  ((forall l n, l ∈ ls -> hnodes t !! l = Some n -> test n = false) -> Q None t) ->
  wp (lookup_chain fuel test p) t Q.
Proof.
  induction fuel as [|fuel IH]; intros t p ls Q Hc Hf H1 H2; [lia|]. cbn [lookup_chain].
  destruct p as [l|].
  2:{ apply chain_nil in Hc as ->. apply wp_ret, H2. intros l n Hl. by apply not_elem_of_nil in Hl. }
  apply chain_some in Hc as (n & ls' & -> & E & Hc). cbn in Hf.
  apply wp_bind. eapply wp_hload; [done|]. destruct (test n) eqn:Et.
  { apply wp_ret. apply (H1 l n); [set_solver|done|done]. }
  apply (IH t _ ls'); [done|lia| |].
  - intros l' n' Hl'. apply H1. set_solver.
  - intros Hn. apply H2. intros l' n' [->|Hl']%elem_of_cons E'; [congruence|by apply (Hn l')].
Qed.

(** Both lookups are a search for a node that passes a test. *)
Definition lookup_by (key : Z) (test : VgHashNode D -> bool) : M (VgHashTable D) ptr :=
  chain <- gets (CHAIN_NO key) ;;
  curr <- get_chain chain ;;
  fuel <- walk_fuel ;;
  lookup_chain fuel test curr.

Lemma wp_lookup_by t cs key test (Q : ptr -> VgHashTable D -> Prop) : ht_ok t cs ->
  (forall n, test n = true -> hkey n = key) ->
  (forall l n, l ∈ concat cs -> hnodes t !! l = Some n -> test n = true -> Q (Some l) t) ->
  ((forall l n, l ∈ concat cs -> hnodes t !! l = Some n -> test n = false) -> Q None t) ->
  wp (lookup_by key test) t Q.
Proof.
  intros Hok Ht H1 H2. destruct (ok_chain t cs key Hok) as (i & p & ls & Hi & Ep & Ei & Hc).
  unfold lookup_by. apply wp_bind, wp_gets. rewrite Hi. apply wp_bind. eapply wp_get_chain; [done|].
  apply wp_bind, wp_gets. eapply wp_lookup_chain; [done|by eapply chain_fuel| |].
  - intros l n Hl. apply H1. by eapply elem_of_table.
  - intros Hn. apply H2. intros l n Hl E. apply not_true_is_false. intros Etest.
    pose proof (payload_lookup _ _ _ E) as Hp. rewrite (Ht n Etest) in Hp.
    assert (l ∈ ls) as Hin by by eapply ok_in_chain. rewrite (Hn l n Hin E) in Etest. done.
Qed.

(** ** Removal *)

(** The pointer to the node after the nodes [l1] of chain [i] *)
Definition prev_ref (i : nat) (l1 : list loc) : next_ptr :=
  match last l1 with None => Head (Z.of_nat i) | Some q => NextOf q end.

(** The fields of the structure but for the chains *)
Definition same_fields t t' : Prop :=
  n_chains t' = n_chains t /\ n_elements t' = n_elements t /\ iterNode t' = iterNode t /\
  iterChain t' = iterChain t /\ iterOK t' = iterOK t.

(** Writing through it takes a node out of its chain. *)
Lemma wp_store_unlink t cs i l1 l n l2 (Q : unit -> VgHashTable D -> Prop) :
  table hnext (hnodes t) (chains t) cs -> NoDup (concat cs) -> cs !! i = Some (l1 ++ l :: l2) ->
  hnodes t !! l = Some n ->
  (forall t', table hnext (hnodes t') (chains t') (<[i := l1 ++ l2]> cs) ->
     payload (hnodes t') = payload (hnodes t) -> same_fields t t' -> Q tt t') ->
  wp (store_ptr (prev_ref i l1) (hnext n)) t Q.
Proof.
  intros Ht Hnd Ei El HQ.
  destruct (table_lookup hnext (hnodes t) (chains t) cs i) as (p & ls & Ep & Ei' & Hc); [done| |].
  { erewrite Forall2_length by exact Ht. by eapply lookup_lt_Some. }
  rewrite Ei in Ei'. injection Ei' as <-. unfold prev_ref.
  destruct l1 as [|q l1 _] using rev_ind.
  - cbn. destruct Hc as (-> & n' & E' & Hc). rewrite El in E'. injection E' as <-.
    eapply wp_set_chain; [done|]. apply HQ; [|done|done]. cbn.
    eapply table_update; [done|done|]. eauto.
  - rewrite last_snoc. cbn [store_ptr]. rewrite <- app_assoc in Hc. cbn in Hc.
    assert (exists nq, hnodes t !! q = Some nq) as [nq Eq].
    { eapply chain_lookup; [done|]. set_solver. }
    eapply wp_store_next; [done|]. apply HQ; [|by apply payload_set_next|done]. cbn.
    rewrite <- app_assoc. cbn.
    replace (chains t) with (<[i := p]> (chains t)) by by apply list_insert_id.
    eapply table_update; [done| |].
    + by eapply chain_unlink.
    + intros l' n' Hl' E. exists n'. split; [|done]. rewrite lookup_insert_ne; [done|]. intros <-.
      destruct (concat_insert cs i _ [] Ei) as [Hp _]. rewrite Hp in Hnd.
      apply NoDup_app in Hnd as (_ & Hd & _). apply (Hd q); [set_solver|done].
Qed.

Lemma NoDup_unlink cs i l1 (l : loc) l2 : NoDup (concat cs) -> cs !! i = Some (l1 ++ l :: l2) ->
  concat cs ≡ₚ l :: concat (<[i := l1 ++ l2]> cs) /\ NoDup (concat (<[i := l1 ++ l2]> cs)).
Proof.
  intros Hnd Ei. destruct (concat_insert cs i _ (l1 ++ l2) Ei) as [H1 H2].
  assert (concat cs ≡ₚ l :: concat (<[i := l1 ++ l2]> cs)) as Hp.
  { rewrite H1, H2, <- !app_assoc. cbn. by rewrite <- Permutation_middle. }
  split; [done|]. rewrite Hp in Hnd. by apply NoDup_cons in Hnd as [_ ?].
Qed.

Lemma hashed_sub pl m cs i ls' : hashed pl m cs ->
  (forall ls l, cs !! i = Some ls -> l ∈ ls' -> l ∈ ls) -> hashed pl m (<[i := ls']> cs).
Proof.
  intros Hh Hs j ks l k d Ej Hl Hp. apply list_lookup_insert_Some in Ej as [(-> & -> & Hi)|[Hne Ej]].
  - destruct (lookup_lt_is_Some_2 cs j Hi) as (ls & Els).
    apply (Hh j ls l k d Els); [by apply Hs|done].
  - by apply (Hh j ks l k d).
Qed.

(** The table after an element is taken out and the count decremented *)
Lemma ok_unlink t cs i l1 l l2 t' : ht_ok t cs -> cs !! i = Some (l1 ++ l :: l2) ->
  table hnext (hnodes t') (chains t') (<[i := l1 ++ l2]> cs) ->
  payload (hnodes t') = payload (hnodes t) -> n_chains t' = n_chains t ->
  n_elements t' = u32 (n_elements t - 1) ->
  ht_ok t' (<[i := l1 ++ l2]> cs) /\ concat cs ≡ₚ l :: concat (<[i := l1 ++ l2]> cs).
Proof.
  intros Hok Ei Ht Hp Hn He. destruct (NoDup_unlink cs i l1 l l2 (ok_nodup _ _ Hok) Ei) as [Hperm Hnd].
  split; [|done]. pose proof (Permutation_length Hperm) as Hlen. cbn in Hlen.
  pose proof (ok_count _ _ Hok). pose proof (ok_small _ _ Hok).
  assert (n_elements t' = Z.of_nat (length (concat (<[i := l1 ++ l2]> cs)))) as Hc.
  { rewrite He. unfold u32. rewrite Z.mod_small; lia. }
  split; [done|done|rewrite length_insert, Hn; apply Hok|rewrite Hn; apply Hok| |done|lia].
  rewrite Hp, Hn. apply hashed_sub; [apply Hok|]. intros ls l'. rewrite Ei. intros [= <-]. set_solver.
Qed.

Lemma wp_remove_chain fuel test i l2 : forall t cs p l1 (Q : ptr -> VgHashTable D -> Prop),
  ht_ok t cs -> cs !! i = Some (l1 ++ l2) -> chain hnext (hnodes t) p l2 -> (length l2 < fuel)%nat ->
  (forall l n t' cs', l ∈ l2 -> hnodes t !! l = Some n -> test n = true -> ht_ok t' cs' ->
     concat cs ≡ₚ l :: concat cs' -> payload (hnodes t') = payload (hnodes t) ->
     iterOK t' = iterOK t -> Q (Some l) t') ->
  ((forall l n, l ∈ l2 -> hnodes t !! l = Some n -> test n = false) -> Q None t) ->
  wp (remove_chain fuel test p (prev_ref i l1)) t Q.
Proof.
  revert fuel. induction l2 as [|l l2 IH]; intros [|fuel] t cs p l1 Q Hok Ei Hc Hf H1 H2;
    [cbn in Hf; lia| |cbn in Hf; lia|]; cbn [remove_chain].
  { cbn in Hc. subst p. apply wp_ret, H2. intros l n Hl. by apply not_elem_of_nil in Hl. }
  destruct Hc as (-> & n & E & Hc). apply wp_bind. eapply wp_hload; [done|].
  destruct (test n) eqn:Et.
  - apply wp_bind. eapply wp_store_unlink; [apply Hok|apply Hok|done|done|].
    intros t1 Ht1 Hp1 (F1 & F2 & F3 & F4 & F5). apply wp_bind, wp_modify, wp_ret.
    destruct (ok_unlink t cs i l1 l l2 (set_n_elements (u32 (n_elements t1 - 1)) t1) Hok Ei) as [Hok' Hperm];
      [done|done|done|cbn; by rewrite F2|].
    eapply (H1 l n); [set_solver|done|done|done|done|done|done].
  - assert (prev_ref i (l1 ++ [l]) = NextOf l) as <- by (unfold prev_ref; by rewrite last_snoc).
    apply (IH fuel t cs); [done|by rewrite <- app_assoc|done|cbn in Hf; lia| |].
    + intros l' n' t' cs' Hl'. apply H1. set_solver.
    + intros Hn. apply H2. intros l' n' [->|Hl']%elem_of_cons E'; [congruence|by apply (Hn l')].
Qed.

(** Both removals are a search, in a table that can no longer be iterated. *)
Definition remove_by (key : Z) (test : VgHashNode D -> bool) : M (VgHashTable D) ptr :=
  chain <- gets (CHAIN_NO key) ;;
  curr <- get_chain chain ;;
  modify (set_iterOK false) ;;;
  fuel <- walk_fuel ;;
  remove_chain fuel test curr (Head chain).

Lemma wp_remove_by t cs key test (Q : ptr -> VgHashTable D -> Prop) : ht_ok t cs ->
  (forall n, test n = true -> hkey n = key) ->
  (forall l n t' cs', l ∈ concat cs -> hnodes t !! l = Some n -> test n = true -> ht_ok t' cs' ->
     concat cs ≡ₚ l :: concat cs' -> payload (hnodes t') = payload (hnodes t) -> iterOK t' = false ->
     Q (Some l) t') ->
  ((forall l n, l ∈ concat cs -> hnodes t !! l = Some n -> test n = false) ->
     Q None (set_iterOK false t)) ->
  wp (remove_by key test) t Q.
Proof.
  intros Hok Ht H1 H2. destruct (ok_chain t cs key Hok) as (i & p & ls & Hi & Ep & Ei & Hc).
  unfold remove_by. apply wp_bind, wp_gets. rewrite Hi. apply wp_bind. eapply wp_get_chain; [done|].
  apply wp_bind, wp_modify, wp_bind, wp_gets.
  eapply (wp_remove_chain _ _ i ls (set_iterOK false t) cs p []);
    [destruct Hok; by split|done|done|by eapply chain_fuel| |].
  - intros l n t' cs' Hl. apply H1. by eapply elem_of_table.
  - intros Hn. apply H2. intros l n Hl E. apply not_true_is_false. intros Etest.
    pose proof (payload_lookup _ _ _ E) as Hp. rewrite (Ht n Etest) in Hp.
    assert (l ∈ ls) as Hin by by eapply ok_in_chain. rewrite (Hn l n Hin E) in Etest. done.
Qed.

(** ** Insertion *)

Lemma hashed_push pl m cs i ls l k d : hashed pl m cs -> cs !! i = Some ls -> pl !! l = Some (k, d) ->
  Z.to_nat (k mod m) = i -> hashed pl m (<[i := l :: ls]> cs).
Proof.
  intros Hh Ei Hp Hk j ks l' k' d' Ej Hl Hp'.
  apply list_lookup_insert_Some in Ej as [(-> & <- & _)|[_ Ej]]; [|by apply (Hh j ks l' k' d')].
  apply elem_of_cons in Hl as [->|Hl]; [by simplify_eq|]. by apply (Hh j ls l' k' d').
Qed.

(** A table under construction: its arrays and its elements *)
Record building t (new : list ptr) (cs : list (list loc)) : Prop := {
  bd_table : table hnext (hnodes t) new cs;
  bd_hashed : hashed (payload (hnodes t)) (n_chains t) cs;
  bd_length : Z.of_nat (length cs) = n_chains t;
  bd_pos : 0 < n_chains t
}.

Lemma building_push t new cs l n i c ls : building t new cs -> hnodes t !! l = Some n ->
  l ∉ concat cs -> hkey n mod n_chains t = Z.of_nat i -> new !! i = Some c -> cs !! i = Some ls ->
  building (set_hnodes (<[l := set_next c n]> (hnodes t)) t) (<[i := Some l]> new) (<[i := l :: ls]> cs).
Proof.
  intros [Ht Hh Hl Hp] E Hn Hi Ec Ei. split; cbn.
  - by eapply table_push.
  - rewrite payload_set_next by done. eapply hashed_push; [done|done|by apply payload_lookup|].
    by rewrite Hi, Nat2Z.id.
  - by rewrite length_insert.
  - done.
Qed.

Lemma building_slot t new cs key : building t new cs ->
  exists i c ls, key mod n_chains t = Z.of_nat i /\ new !! i = Some c /\ cs !! i = Some ls.
Proof.
  intros [Ht Hh Hl Hp]. pose proof (Z.mod_pos_bound key (n_chains t) Hp) as Hm.
  destruct (table_lookup hnext (hnodes t) new cs (Z.to_nat (key mod n_chains t))) as (c & ls & Ec & El & _);
    [done|erewrite Forall2_length by exact Ht; lia|].
  exists (Z.to_nat (key mod n_chains t)), c, ls. split; [lia|done].
Qed.

(** What moving nodes keeps: the client's data, and the nodes outside *)
Definition moved (ls : list loc) h h' : Prop :=
  payload h' = payload h /\ forall l, l ∉ ls -> h' !! l = h !! l.

Lemma wp_move_chain ls : forall fuel t p new cs (Q : list ptr -> VgHashTable D -> Prop),
  chain hnext (hnodes t) p ls -> building t new cs -> NoDup (ls ++ concat cs) -> (length ls < fuel)%nat ->
  (forall new' cs' h', building (set_hnodes h' t) new' cs' -> concat cs' ≡ₚ ls ++ concat cs ->
     moved ls (hnodes t) h' -> Q new' (set_hnodes h' t)) ->
  wp (move_chain fuel p new) t Q.
Proof.
  induction ls as [|l ls IH]; intros [|fuel] t p new cs Q Hc Hb Hnd Hf HQ; [cbn in Hf; lia| |cbn in Hf; lia|];
    cbn [move_chain].
  { cbn in Hc. subst p. apply wp_ret. replace t with (set_hnodes (hnodes t) t) by by destruct t.
    apply (HQ new cs); by destruct t. }
  destruct Hc as (-> & n & E & Hc). cbn in Hnd. apply NoDup_cons in Hnd as [Hl Hnd].
  apply not_elem_of_app in Hl as [Hl1 Hl2].
  destruct (building_slot t new cs (hkey n) Hb) as (i & c & ks & Hi & Ec & Ek).
  apply wp_bind. eapply wp_hload; [done|]. apply wp_bind, wp_gets. unfold CHAIN_NO. rewrite Hi.
  apply wp_bind. eapply wp_arr_get; [done|]. apply wp_bind. eapply wp_store_next; [done|].
  unfold arr_set. rewrite Nat2Z.id. pose proof (concat_push cs i ks l Ek) as Hperm.
  eapply (IH _ _ _ _ (<[i := l :: ks]> cs)); [by apply chain_insert|by apply building_push| |cbn in Hf; lia|].
  { rewrite Hperm, <- Permutation_middle. apply NoDup_cons. split; [|done]. by apply not_elem_of_app. }
  intros new' cs' h' Hb' Hp' [Hm1 Hm2]. apply (HQ new' cs' h'); [done| |split].
  - rewrite Hp', Hperm. by rewrite <- Permutation_middle.
  - rewrite Hm1. by apply payload_set_next.
  - intros l' Hl'. apply not_elem_of_cons in Hl' as [Hne Hl']. rewrite Hm2 by done. cbn.
    by apply lookup_insert_ne.
Qed.

Lemma moved_trans ls1 ls2 h1 h2 h3 : moved ls1 h1 h2 -> moved ls2 h2 h3 -> moved (ls1 ++ ls2) h1 h3.
Proof.
  intros [P1 M1] [P2 M2]. split; [congruence|]. intros l [H1 H2]%not_elem_of_app. by rewrite M2, M1.
Qed.

Lemma wp_move_chains olds : forall t i new cs (Q : list ptr -> VgHashTable D -> Prop),
  table hnext (hnodes t) (drop i (chains t)) olds -> building t new cs ->
  NoDup (concat olds ++ concat cs) ->
  (forall new' cs' h', building (set_hnodes h' t) new' cs' -> concat cs' ≡ₚ concat olds ++ concat cs ->
     moved (concat olds) (hnodes t) h' -> Q new' (set_hnodes h' t)) ->
  wp (move_chains (length olds) (Z.of_nat i) new) t Q.
Proof.
  induction olds as [|ls olds IH]; intros t i new cs Q Ht Hb Hnd HQ; cbn [length move_chains].
  { apply wp_ret. replace t with (set_hnodes (hnodes t) t) by by destruct t.
    apply (HQ new cs); by destruct t. }
  inversion Ht as [|p ? hs ? Hc Ht' Ed]; subst. cbn in Hnd. rewrite <- app_assoc in Hnd.
  assert (chains t !! i = Some p) as Ep.
  { pose proof (lookup_drop (chains t) i 0) as Hd. rewrite <- Ed, Nat.add_0_r in Hd. by symmetry. }
  rewrite (drop_S _ _ _ Ep) in Ed. injection Ed as ->.
  apply wp_bind. eapply wp_get_chain; [done|]. apply wp_bind, wp_gets, wp_bind.
  eapply wp_move_chain; [done|done| |by eapply chain_fuel|].
  { rewrite (Permutation_app_comm (concat olds)), app_assoc in Hnd. by apply NoDup_app in Hnd as [? _]. }
  intros new1 cs1 h1 Hb1 Hp1 Hm1. replace (Z.of_nat i + 1) with (Z.of_nat (S i)) by lia.
  apply NoDup_app in Hnd as (Hnd1 & Hd & Hnd2).
  apply (IH _ _ _ cs1); [|done| |].
  - cbn. eapply table_ext; [|exact Ht']. intros l n Hl E. exists n. split; [|done].
    destruct Hm1 as [_ ->]; [done|]. intros Hin. apply (Hd l Hin). set_solver.
  - rewrite Hp1, app_assoc, (Permutation_app_comm (concat olds)), <- app_assoc. apply NoDup_app. done.
  - intros new' cs' h' Hb' Hp' Hm'. apply (HQ new' cs' h'); [done| |].
    + rewrite Hp', Hp1. cbn. rewrite !app_assoc. by rewrite (Permutation_app_comm (concat olds) ls).
    + by eapply moved_trans.
Qed.

Lemma building_empty t : 0 < n_chains t ->
  building t (replicate (Z.to_nat (n_chains t)) None) (replicate (Z.to_nat (n_chains t)) []).
Proof.
  intros Hp. split; [|intros i ls l k d [-> _]%lookup_replicate Hl; by apply not_elem_of_nil in Hl| |done].
  - apply Forall2_replicate. done.
  - rewrite length_replicate. lia.
Qed.

(** The next size is a larger prime of the table, unless there is none. *)
Lemma next_prime_spec n : n ∈ primes -> n <> 402653189 ->
  next_prime primes (n + 1) ∈ primes /\ n < next_prime primes (n + 1) /\
  769 < next_prime primes (n + 1) <= 402653189 /\ n < 402653189.
Proof.
  intros Hn Hne. assert (Forall (fun n => n = 402653189 \/
    (next_prime primes (n + 1) ∈ primes /\ n < next_prime primes (n + 1) /\
     769 < next_prime primes (n + 1) <= 402653189 /\ n < 402653189)) primes) as Hall.
  { apply (bool_decide_unpack _). vm_compute. done. }
  rewrite Forall_forall in Hall. by destruct (Hall n Hn) as [|].
Qed.

Lemma wp_resize t cs (Q : unit -> VgHashTable D -> Prop) : ht_ok t cs ->
  (forall t' cs', ht_ok t' cs' -> concat cs' ≡ₚ concat cs -> payload (hnodes t') = payload (hnodes t) ->
     Q tt t') ->
  wp resize t Q.
Proof.
  intros Hok HQ. pose proof Hok as [Ht Hnd Hl Hpr Hh Hc Hs]. pose proof (primes_range _ Hpr) as Hr.
  unfold resize. apply wp_bind, wp_gets. change (List.last primes 0) with 402653189.
  change (hd 0 primes) with 769. destruct (Z.eqb_spec (n_chains t) 402653189) as [|Hne].
  { apply wp_ret. by apply (HQ t cs). }
  destruct (next_prime_spec _ Hpr Hne) as (N1 & N2 & N3 & N4). set (m := next_prime _ _) in *.
  apply wp_bind, wp_ht_assert; [rewrite andb_true_iff, Z.leb_le, Z.ltb_lt; lia|].
  apply wp_bind, wp_ht_assert; [by apply Z.ltb_lt|].
  apply wp_bind, wp_ht_assert; [rewrite andb_true_iff, Z.leb_le, Z.ltb_lt; lia|].
  apply wp_bind, wp_modify. set (t1 := set_n_chains m t).
  apply wp_bind. replace (Z.to_nat (n_chains t)) with (length cs) by lia.
  apply (wp_move_chains cs t1 0 _ (replicate (Z.to_nat (n_chains t1)) [])).
  - done.
  - apply building_empty. change (0 < m). lia.
  - by rewrite concat_replicate_nil, app_nil_r.
  - intros new cs' h' [Ht' Hh' Hl' _] Hp [Hpay _]. rewrite concat_replicate_nil, app_nil_r in Hp.
    apply wp_modify. eapply (HQ _ cs'); [|done|done].
    split; [done|by rewrite Hp|done|done|done| |done]. cbn. by rewrite Hc, Hp.
Qed.

Lemma wp_HT_add_node t cs l n (Q : unit -> VgHashTable D -> Prop) : ht_ok t cs ->
  hnodes t !! l = Some n -> l ∉ concat cs -> n_elements t + 1 < 2 ^ 32 ->
  (forall t' cs', ht_ok t' cs' -> concat cs' ≡ₚ l :: concat cs ->
     payload (hnodes t') = payload (hnodes t) -> iterOK t' = false -> Q tt t') ->
  wp (HT_add_node l) t Q.
Proof.
  intros Hok E Hl Hlt HQ. pose proof Hok as [Ht Hnd Hlen Hpr Hh Hc Hs]. unfold HT_add_node.
  apply wp_bind. eapply wp_hload; [done|]. apply wp_bind, wp_gets.
  destruct (ok_chain t cs (hkey n) Hok) as (i & p & ls & Hi & Ep & Ei & Hch). rewrite Hi.
  apply wp_bind. eapply wp_get_chain; [done|]. apply wp_bind. eapply wp_store_next; [done|].
  apply wp_bind. eapply wp_set_chain; [done|]. apply wp_bind, wp_modify, wp_bind, wp_gets.
  pose proof (concat_push cs i ls l Ei) as Hperm. unfold id. cbn [n_elements n_chains set_n_elements set_chains set_hnodes].
  match goal with |- wp _ ?t0 _ => set (t1 := t0) end.
  assert (ht_ok t1 (<[i := l :: ls]> cs)) as Hok1.
  { assert (n_elements t1 = n_elements t + 1) as En.
    { unfold t1, u32. cbn. rewrite Z.mod_small; lia. }
    split; [by eapply table_push|by rewrite Hperm; apply NoDup_cons|by rewrite length_insert|done| |
            |by rewrite En].
    - unfold t1. cbn. rewrite payload_set_next by done.
      eapply hashed_push; [done|done|by apply payload_lookup|].
      unfold CHAIN_NO in Hi. by rewrite Hi, Nat2Z.id.
    - rewrite En, Hc, Hperm. cbn. lia. }
  assert (payload (hnodes t1) = payload (hnodes t)) as Hpay by by apply payload_set_next.
  assert (forall b t' cs', ht_ok t' cs' -> ht_ok (set_iterOK b t') cs') as Hok2.
  { intros b t' cs' []. by split. }
  apply wp_bind. destruct (n_chains t <? _).
  - eapply wp_resize; [done|]. intros t' cs' Hok' Hp' Hpay'. apply wp_modify.
    apply (HQ _ cs'); [by apply Hok2|by rewrite Hp'|by rewrite <- Hpay|done].
  - apply wp_ret, wp_modify. eapply HQ; [by apply Hok2|done|done|done].
Qed.

Lemma ok_construct h : ht_ok (HT_construct h) (replicate 769 []).
Proof.
  split; [|by rewrite concat_replicate_nil; constructor|done|left| |by rewrite concat_replicate_nil|done].
  - apply Forall2_replicate. done.
  - intros i ls l k d [-> _]%lookup_replicate Hl. by apply not_elem_of_nil in Hl.
Qed.

(** ** All elements *)

Lemma wp_chain_to_array ls : forall fuel t p (Q : list loc -> VgHashTable D -> Prop),
  chain hnext (hnodes t) p ls -> (length ls < fuel)%nat -> Q ls t -> wp (chain_to_array fuel p) t Q.
Proof.
  induction ls as [|l ls IH]; intros [|fuel] t p Q Hc Hf HQ; [cbn in Hf; lia| |cbn in Hf; lia|];
    cbn [chain_to_array].
  - cbn in Hc. subst p. by apply wp_ret.
  - destruct Hc as (-> & n & E & Hc). apply wp_bind. eapply wp_hload; [done|].
    apply wp_bind, IH; [done|cbn in Hf; lia|]. by apply wp_ret.
Qed.

Lemma wp_chains_to_array css : forall t i (Q : list loc -> VgHashTable D -> Prop),
  table hnext (hnodes t) (drop i (chains t)) css -> Q (concat css) t ->
  wp (chains_to_array (length css) (Z.of_nat i)) t Q.
Proof.
  induction css as [|ls css IH]; intros t i Q Ht HQ; cbn [length chains_to_array]; [by apply wp_ret|].
  inversion Ht as [|p ? hs ? Hc Ht' Ed]; subst.
  assert (chains t !! i = Some p) as Ep.
  { pose proof (lookup_drop (chains t) i 0) as Hd. rewrite <- Ed, Nat.add_0_r in Hd. by symmetry. }
  rewrite (drop_S _ _ _ Ep) in Ed. injection Ed as ->.
  apply wp_bind. eapply wp_get_chain; [done|]. apply wp_bind, wp_gets, wp_bind.
  eapply wp_chain_to_array; [done|by eapply chain_fuel|].
  replace (Z.of_nat i + 1) with (Z.of_nat (S i)) by lia. apply wp_bind, IH; [done|]. by apply wp_ret.
Qed.

Lemma wp_HT_to_array t cs (Q : option (list loc) -> VgHashTable D -> Prop) : ht_ok t cs ->
  Q (match concat cs with [] => None | arr => Some arr end) t -> wp HT_to_array t Q.
Proof.
  intros Hok HQ. pose proof Hok as [Ht Hnd Hlen Hpr Hh Hc Hs]. unfold HT_to_array.
  apply wp_bind, wp_gets. rewrite Hc. destruct (Z.eqb_spec (Z.of_nat (length (concat cs))) 0) as [E|E].
  - destruct (concat cs); [by apply wp_ret|done].
  - apply wp_bind, wp_gets, wp_bind. replace (Z.to_nat (n_chains t)) with (length cs) by lia.
    apply (wp_chains_to_array cs t 0); [done|]. apply wp_bind, wp_ht_assert; [by apply Z.eqb_eq|].
    apply wp_ret. by destruct (concat cs).
Qed.

(** ** The iterator *)

(** The elements [rem] are still to be visited. *)
Definition remaining t (cs : list (list loc)) (rem : list loc) : Prop :=
  match iterNode t with
  | None => 0 <= iterChain t <= n_chains t /\ rem = concat (drop (Z.to_nat (iterChain t)) cs)
  | Some l => exists c l1 l2, iterChain t = Z.of_nat (S c) /\ cs !! c = Some (l1 ++ l :: l2) /\
                rem = l2 ++ concat (drop (S c) cs)
  end.

(** A table that is being iterated over *)
Record iterating t (cs : list (list loc)) (rem : list loc) : Prop := {
  it_ok : ht_ok t cs;
  it_flag : iterOK t = true;
  it_rem : remaining t cs rem
}.

Lemma ok_set_iter t cs p c : ht_ok t cs -> ht_ok (set_iter p c t) cs.
Proof. intros []. by split. Qed.

Lemma wp_HT_ResetIter t cs (Q : unit -> VgHashTable D -> Prop) : ht_ok t cs ->
  (forall t', iterating t' cs (concat cs) -> hnodes t' = hnodes t -> Q tt t') -> wp HT_ResetIter t Q.
Proof.
  intros Hok HQ. apply wp_modify, HQ; [|done]. pose proof (primes_range _ (ok_prime _ _ Hok)).
  split; [by destruct Hok; split|done|]. cbn. split; [lia|done].
Qed.

Lemma wp_scan_chains t cs : ht_ok t cs -> iterOK t = true -> forall fuel i (Q : ptr -> VgHashTable D -> Prop),
  (i <= length cs)%nat -> (length cs - i < fuel)%nat ->
  (concat (drop i cs) = [] -> Q None t) ->
  (forall l rem t', concat (drop i cs) = l :: rem -> iterating t' cs rem -> iterNode t' = Some l ->
     hnodes t' = hnodes t -> Q (Some l) t') ->
  wp (scan_chains fuel (Z.of_nat i)) t Q.
Proof.
  intros Hok Hit. pose proof (primes_range _ (ok_prime _ _ Hok)) as Hr. pose proof (ok_length _ _ Hok) as Hlen.
  induction fuel as [|fuel IH]; intros i Q Hi Hf H1 H2; [lia|]. cbn [scan_chains].
  apply wp_bind, wp_gets. destruct (Z.ltb_spec (Z.of_nat i) (n_chains t)).
  2:{ apply wp_ret, H1. by rewrite drop_ge by lia. }
  destruct (table_lookup hnext (hnodes t) (chains t) cs i) as (p & ls & Ep & Ei & Hc);
    [apply Hok|rewrite (ok_chains_length _ _ Hok); lia|].
  rewrite (drop_S _ _ _ Ei) in *. apply wp_bind. eapply wp_get_chain; [done|]. destruct p as [l|].
  - apply chain_some in Hc as (n & ls' & -> & E & Hc). apply wp_bind, wp_modify, wp_ret.
    eapply H2; [done| |done|done]. split; [by apply ok_set_iter|done|]. cbn.
    exists i, [], ls'. split; [|done]. unfold u32. rewrite Z.mod_small; lia.
  - apply chain_nil in Hc as ->. replace (Z.of_nat i + 1) with (Z.of_nat (S i)) by lia.
    apply IH; [lia|lia|done|done].
Qed.

Lemma wp_HT_Next t cs rem (Q : ptr -> VgHashTable D -> Prop) : iterating t cs rem ->
  (rem = [] -> Q None t) ->
  (forall l rem' t', rem = l :: rem' -> iterating t' cs rem' -> iterNode t' = Some l ->
     hnodes t' = hnodes t -> Q (Some l) t') ->
  wp HT_Next t Q.
Proof.
  intros [Hok Hit Hrem] H1 H2. pose proof (ok_length _ _ Hok) as Hlen. unfold HT_Next.
  apply wp_bind, wp_gets. unfold id. apply wp_bind, wp_ht_assert; [done|]. unfold remaining in Hrem.
  destruct (iterNode t) as [l|] eqn:Enode.
  - destruct Hrem as (c & l1 & l2 & Ec & Ei & ->).
    destruct (table_lookup hnext (hnodes t) (chains t) cs c) as (p & ls & Ep & Ei' & Hc);
      [apply Hok|rewrite (ok_chains_length _ _ Hok); by eapply lookup_lt_Some|].
    rewrite Ei in Ei'. injection Ei' as <-.
    apply chain_app in Hc as (_ & n & El & Hc). apply wp_bind, wp_bind. eapply wp_hload; [done|].
    apply wp_ret. destruct (hnext n) as [l'|] eqn:En.
    + apply chain_some in Hc as (n' & ls' & -> & El' & Hc). apply wp_bind, wp_modify, wp_ret.
      eapply H2; [done| |done|done]. split; [by apply ok_set_iter|done|]. cbn.
      exists c, (l1 ++ [l]), ls'. split; [done|]. split; [by rewrite <- app_assoc|done].
    + apply chain_nil in Hc as ->. cbn [app] in *. rewrite Ec.
      apply lookup_lt_Some in Ei as Hlt. apply (wp_scan_chains t cs Hok Hit); [lia|lia|done|done].
  - destruct Hrem as [Hr ->]. apply wp_bind, wp_ret.
    replace (iterChain t) with (Z.of_nat (Z.to_nat (iterChain t))) at 2 by lia.
    apply (wp_scan_chains t cs Hok Hit); [lia|lia|done|done].
Qed.

Lemma wp_find_prev l1 : forall fuel t p a q l l2 (Q : loc -> VgHashTable D -> Prop),
  chain hnext (hnodes t) p (l1 ++ q :: l :: l2) -> p = Some a -> (length l1 < fuel)%nat ->
  Q q t -> wp (find_prev fuel a l) t Q.
Proof.
  induction l1 as [|b l1 IH]; intros [|fuel] t p a q l l2 Q Hc Hp Hf HQ; [cbn in Hf; lia| |cbn in Hf; lia|];
    subst p; cbn [find_prev]; pose proof (chain_NoDup _ _ _ _ Hc) as Hnd.
  - destruct Hc as ([= <-] & n & E & (En & _)). apply wp_bind. eapply wp_hload; [done|].
    rewrite bool_decide_true by done. by apply wp_ret.
  - destruct Hc as ([= <-] & n & E & Hc). apply wp_bind. eapply wp_hload; [done|].
    assert (exists x, hnext n = Some x /\ x <> l) as (x & Ex & Hx).
    { cbn in Hnd. apply NoDup_cons in Hnd as [_ Hnd]. destruct l1 as [|c l1].
      - destruct Hc as [-> _]. exists q. split; [done|]. intros ->.
        cbn in Hnd. apply NoDup_cons in Hnd as [Hq _]. set_solver.
      - destruct Hc as [-> _]. exists c. split; [done|]. intros ->.
        cbn in Hnd. apply NoDup_cons in Hnd as [Hq _]. set_solver. }
    rewrite bool_decide_false by (intros Heq; congruence). rewrite Ex.
    eapply (IH _ _ _ x q l l2); [done|done|cbn in Hf; lia|done].
Qed.

Lemma concat_drop_insert (cs : list (list loc)) i j ls : (i < j)%nat -> drop j (<[i := ls]> cs) = drop j cs.
Proof. intros Hlt. by rewrite drop_insert_lt. Qed.

(** The current element is removed and the same elements remain. *)
Lemma wp_HT_remove_at_Iter t cs rem l (Q : unit -> VgHashTable D -> Prop) : iterating t cs rem ->
  iterNode t = Some l ->
  (forall t' cs', iterating t' cs' rem -> concat cs ≡ₚ l :: concat cs' ->
     payload (hnodes t') = payload (hnodes t) -> Q tt t') ->
  wp HT_remove_at_Iter t Q.
Proof.
  intros [Hok Hit Hrem] Enode HQ. pose proof (ok_length _ _ Hok) as Hlen.
  pose proof (primes_range _ (ok_prime _ _ Hok)) as Hr.
  unfold remaining in Hrem. rewrite Enode in Hrem. destruct Hrem as (c & l1 & l2 & Ec & Ei & ->).
  apply lookup_lt_Some in Ei as Hc. unfold HT_remove_at_Iter.
  apply wp_bind, wp_gets. unfold id. apply wp_bind, wp_ht_assert; [done|]. rewrite Enode, Ec.
  assert (u32 (Z.of_nat (S c) - 1) = Z.of_nat c) as Eu by (unfold u32; rewrite Z.mod_small; lia).
  rewrite Eu.
  destruct (table_lookup hnext (hnodes t) (chains t) cs c) as (p & ls & Ep & Ei' & Hch);
    [apply Hok|rewrite (ok_chains_length _ _ Hok); done|].
  rewrite Ei in Ei'. injection Ei' as <-.
  apply wp_bind. eapply wp_get_chain; [done|].
  destruct (chain_lookup _ _ _ _ l Hch ltac:(set_solver)) as (n & El).
  apply wp_bind. eapply wp_hload; [done|]. apply wp_bind.
  pose proof (chain_NoDup _ _ _ _ Hch) as Hnd.
  destruct l1 as [|q l1 _] using rev_ind.
  - cbn [app] in *. pose proof Hch as [-> _]. rewrite bool_decide_true by done.
    apply wp_bind. eapply (wp_store_unlink t cs c [] l n l2); [apply Hok|apply Hok|done|done|].
    intros t1 Ht1 Hp1 (F1 & F2 & F3 & F4 & F5). apply wp_modify, wp_modify.
    destruct (ok_unlink t cs c [] l l2
      (set_n_elements (u32 (n_elements t1 - 1)) (set_iter None (Z.of_nat c) t1)) Hok Ei) as [Hok' Hperm];
      [done|done|done|cbn; by rewrite F2|].
    eapply HQ; [split; [exact Hok'|cbn; congruence|]|done|done]. cbn. split; [lia|].
    rewrite Nat2Z.id, (drop_S (<[c := l2]> cs) l2 c) by (by apply list_lookup_insert_eq).
    cbn. by rewrite concat_drop_insert by lia.
  - rewrite <- app_assoc in *. cbn [app] in *.
    assert (exists b0 : loc, p = Some b0 /\ b0 <> l) as (b0 & -> & Hh).
    { destruct l1 as [|b l1]; destruct Hch as [-> _]; eexists; (split; [done|]); intros ->;
        cbn in Hnd; apply NoDup_cons in Hnd as [Hq _]; set_solver. }
    rewrite bool_decide_false by congruence. apply wp_bind, wp_gets, wp_bind.
    eapply (wp_find_prev l1); [exact Hch|done|apply chain_size in Hch; rewrite length_app in Hch; lia|].
    assert (store_next q (hnext n) = store_ptr (prev_ref c (l1 ++ [q])) (hnext n)) as ->
      by (unfold prev_ref; by rewrite last_snoc).
    replace (l1 ++ q :: l :: l2) with ((l1 ++ [q]) ++ l :: l2) in Ei by by rewrite <- app_assoc.
    apply wp_bind. eapply (wp_store_unlink t cs c (l1 ++ [q]) l n l2); [apply Hok|apply Hok|done|done|].
    intros t1 Ht1 Hp1 (F1 & F2 & F3 & F4 & F5). apply wp_modify, wp_modify.
    destruct (ok_unlink t cs c (l1 ++ [q]) l l2
      (set_n_elements (u32 (n_elements t1 - 1)) (set_iter (Some q) (Z.of_nat (S c)) t1)) Hok Ei) as [Hok' Hperm];
      [done|done|done|cbn; by rewrite F2|].
    eapply HQ; [split; [exact Hok'|cbn; congruence|]|done|done]. cbn.
    exists c, l1, l2. split; [done|]. split; [|by rewrite concat_drop_insert by lia].
    rewrite list_lookup_insert_eq by done. by rewrite <- app_assoc.
Qed.

(** A client's loop: it visits every element, and removes those that [p]
    selects. *)
Fixpoint iterate (fuel : nat) (p : loc -> bool) : M (VgHashTable D) (list loc) :=
  match fuel with
  | O => fail
  | S fuel =>
      node <- HT_Next ;;
      match node with
      | None => ret []
      | Some l =>
          (if p l then HT_remove_at_Iter else ret tt) ;;;
          ls <- iterate fuel p ;;
          ret (l :: ls)
      end
  end.

Lemma wp_iterate p rem : forall fuel t cs (Q : list loc -> VgHashTable D -> Prop),
  iterating t cs rem -> (length rem < fuel)%nat ->
  (forall t' cs', ht_ok t' cs' -> concat cs ≡ₚ List.filter p rem ++ concat cs' ->
     payload (hnodes t') = payload (hnodes t) -> Q rem t') ->
  wp (iterate fuel p) t Q.
Proof.
  induction rem as [|l rem IH]; intros [|fuel] t cs Q Hi Hf HQ; [cbn in Hf; lia| |cbn in Hf; lia|];
    cbn [iterate]; apply wp_bind; (eapply wp_HT_Next; [done| |]); try done.
  - intros _. apply wp_ret. by apply (HQ t cs); [apply Hi| |].
  - intros l' rem' t1 [= <- <-] Hi1 En1 Eh1. apply wp_bind. cbn [List.filter] in HQ. destruct (p l).
    + eapply wp_HT_remove_at_Iter; [done|done|]. intros t2 cs2 Hi2 Hp2 Hpay2.
      apply wp_bind. eapply IH; [done|cbn in Hf; lia|]. intros t3 cs3 Hok3 Hp3 Hpay3. apply wp_ret.
      apply (HQ t3 cs3); [done|by rewrite Hp2, Hp3|congruence].
    + apply wp_ret, wp_bind. eapply IH; [done|cbn in Hf; lia|]. intros t3 cs3 Hok3 Hp3 Hpay3.
      apply wp_ret. apply (HQ t3 cs3); [done|done|congruence].
Qed.

(** ** Nodes that compare equal *)

(** [HT_gen_lookup] finds a node with the client's key that [cmp] says is
    equal to the client's node, and NULL only when there is none;
    [HT_gen_remove] removes such a node. *)
Lemma wp_HT_gen_lookup t cs hnode cmp : ht_ok t cs ->
  wp (HT_gen_lookup hnode cmp) t (fun r t' => t' = t /\
    match r with
    | Some l => l ∈ concat cs /\ exists n, hnodes t !! l = Some n /\ hkey n = hkey hnode /\ cmp hnode n = 0
    | None => forall l n, l ∈ concat cs -> hnodes t !! l = Some n -> hkey n = hkey hnode -> cmp hnode n <> 0
    end).
Proof.
  intros Hok. apply (wp_lookup_by t cs (hkey hnode) (fun n => (hkey hnode =? hkey n) && (cmp hnode n =? 0)));
    [done| | |].
  - intros n [E _]%andb_true_iff. by apply Z.eqb_eq in E.
  - intros l n Hl E [Ek Ec]%andb_true_iff. apply Z.eqb_eq in Ek, Ec. split; [done|]. eauto.
  - intros Hn. split; [done|]. intros l n Hl E Ek Ec. specialize (Hn l n Hl E). cbn in Hn.
    by rewrite Ek, Ec, Z.eqb_refl in Hn.
Qed.

Lemma wp_HT_gen_remove t cs hnode cmp : ht_ok t cs ->
  wp (HT_gen_remove hnode cmp) t (fun r t' => iterOK t' = false /\
    match r with
    | Some l => exists cs' n, hnodes t !! l = Some n /\ hkey n = hkey hnode /\ cmp hnode n = 0 /\
        ht_ok t' cs' /\ concat cs ≡ₚ l :: concat cs' /\ payload (hnodes t') = payload (hnodes t)
    | None => t' = set_iterOK false t /\
        forall l n, l ∈ concat cs -> hnodes t !! l = Some n -> hkey n = hkey hnode -> cmp hnode n <> 0
    end).
Proof.
  intros Hok. apply (wp_remove_by t cs (hkey hnode) (fun n => (hkey hnode =? hkey n) && (cmp hnode n =? 0)));
    [done| | |].
  - intros n [E _]%andb_true_iff. by apply Z.eqb_eq in E.
  - intros l n t' cs' Hl E [Ek Ec]%andb_true_iff Hok' Hp Hpay Hi. apply Z.eqb_eq in Ek, Ec.
    split; [done|]. exists cs', n. done.
  - intros Hn. split; [done|]. split; [done|]. intros l n Hl E Ek Ec. specialize (Hn l n Hl E). cbn in Hn.
    by rewrite Ek, Ec, Z.eqb_refl in Hn.
Qed.

(** ** Destruction *)

(** Freeing a node that is allocated *)
Definition free_node (l : loc) : M (VgHashTable D) unit := fun t =>
  match hnodes t !! l with
  | Some _ => Some (tt, set_hnodes (delete l (hnodes t)) t)
  | None => None
  end.

(** The store without the nodes [ls] *)
Definition without (ls : list loc) h h' : Prop :=
  forall l, h' !! l = if decide (l ∈ ls) then None else h !! l.

Lemma without_chain ls h h' p ks : without ls h h' -> (forall l, l ∈ ks -> l ∉ ls) ->
  chain hnext h p ks -> chain hnext h' p ks.
Proof.
  intros Hw Hd. apply chain_ext. intros l n Hl E. exists n. split; [|done].
  rewrite (Hw l), decide_False; [done|by apply Hd].
Qed.

Lemma without_app ls1 ls2 h1 h2 h3 : without ls1 h1 h2 -> without ls2 h2 h3 -> without (ls1 ++ ls2) h1 h3.
Proof.
  intros W1 W2 l. rewrite (W2 l), (W1 l). destruct (decide (l ∈ ls2)) as [H2|H2].
  - rewrite decide_True; [done|set_solver].
  - destruct (decide (l ∈ ls1)); [rewrite decide_True|rewrite decide_False]; set_solver.
Qed.

Lemma wp_destruct_chain ls : forall fuel t p (Q : unit -> VgHashTable D -> Prop),
  chain hnext (hnodes t) p ls -> (length ls < fuel)%nat ->
  (forall h', without ls (hnodes t) h' -> Q tt (set_hnodes h' t)) -> wp (destruct_chain fuel free_node p) t Q.
Proof.
  induction ls as [|l ls IH]; intros [|fuel] t p Q Hc Hf HQ; [cbn in Hf; lia| |cbn in Hf; lia|];
    cbn [destruct_chain].
  - cbn in Hc. subst p. apply wp_ret. replace t with (set_hnodes (hnodes t) t) by by destruct t.
    apply HQ. intros l. by rewrite decide_False by apply not_elem_of_nil.
  - pose proof (chain_NoDup _ _ _ _ Hc) as [Hl _]%NoDup_cons. destruct Hc as (-> & n & E & Hc).
    apply wp_bind. eapply wp_hload; [done|]. apply wp_bind. unfold wp at 1, free_node. rewrite E.
    assert (without [l] (hnodes t) (delete l (hnodes t))) as Hw.
    { intros l'. destruct (decide (l' ∈ [l])) as [->%list_elem_of_singleton|Hne].
      - apply lookup_delete_eq.
      - rewrite lookup_delete_ne; [done|set_solver]. }
    apply IH; [|cbn in Hf; lia|].
    + eapply without_chain; [done| |done]. set_solver.
    + intros h' Hw'. apply (HQ h'). by apply (without_app [l] ls _ _ _ Hw).
Qed.

Lemma wp_destruct_chains css : forall t i (Q : unit -> VgHashTable D -> Prop),
  table hnext (hnodes t) (drop i (chains t)) css -> NoDup (concat css) ->
  (forall h', without (concat css) (hnodes t) h' -> Q tt (set_hnodes h' t)) ->
  wp (destruct_chains (length css) (Z.of_nat i) free_node) t Q.
Proof.
  induction css as [|ls css IH]; intros t i Q Ht Hnd HQ; cbn [length destruct_chains].
  { apply wp_ret. replace t with (set_hnodes (hnodes t) t) by by destruct t.
    apply HQ. intros l. by rewrite decide_False by apply not_elem_of_nil. }
  inversion Ht as [|p ? hs ? Hc Ht' Ed]; subst.
  assert (chains t !! i = Some p) as Ep.
  { pose proof (lookup_drop (chains t) i 0) as Hd. rewrite <- Ed, Nat.add_0_r in Hd. by symmetry. }
  rewrite (drop_S _ _ _ Ep) in Ed. injection Ed as ->. cbn in Hnd. apply NoDup_app in Hnd as (_ & Hd & Hnd).
  apply wp_bind. eapply wp_get_chain; [done|]. apply wp_bind, wp_gets, wp_bind.
  eapply wp_destruct_chain; [done|by eapply chain_fuel|]. intros h1 Hw1.
  replace (Z.of_nat i + 1) with (Z.of_nat (S i)) by lia. apply IH; [|done|].
  - cbn. eapply table_ext; [|exact Ht']. intros l n Hl E. exists n. split; [|done].
    rewrite (Hw1 l), decide_False; [done|]. intros Hin. by apply (Hd l Hin).
  - intros h' Hw. apply (HQ h'). by apply (without_app ls _ _ _ _ Hw1).
Qed.

Lemma wp_HT_destruct t cs (Q : unit -> VgHashTable D -> Prop) : ht_ok t cs ->
  (forall t', without (concat cs) (hnodes t) (hnodes t') -> Q tt t') -> wp (HT_destruct free_node) t Q.
Proof.
  intros Hok HQ. pose proof (ok_length _ _ Hok) as Hlen. unfold HT_destruct. apply wp_bind, wp_gets.
  apply wp_bind. replace (Z.to_nat (n_chains t)) with (length cs) by lia.
  apply (wp_destruct_chains cs t 0); [apply Hok|apply Hok|]. intros h' Hw. by apply wp_modify, HQ.
Qed.

(** ** A table with distinct keys is a finite map *)

Inductive ht_op := Add (l : loc) | Lookup (key : Z) | Remove (key : Z).

Definition run_op (op : ht_op) : M (VgHashTable D) ptr :=
  match op with
  | Add l => HT_add_node l ;;; ret None
  | Lookup key => HT_lookup key
  | Remove key => HT_remove key
  end.

Fixpoint run_ops (ops : list ht_op) : M (VgHashTable D) (list ptr) :=
  match ops with
  | [] => ret []
  | op :: ops => r <- run_op op ;; rs <- run_ops ops ;; ret (r :: rs)
  end.

(** The same on a map from keys to nodes, given the nodes' keys *)
Definition spec_op (pl : gmap loc (Z * D)) (m : gmap Z loc) (op : ht_op) : ptr * gmap Z loc :=
  match op with
  | Add l => (None, match pl !! l with Some (k, _) => <[k := l]> m | None => m end)
  | Lookup key => (m !! key, m)
  | Remove key => (m !! key, delete key m)
  end.

Fixpoint spec_ops (pl : gmap loc (Z * D)) (m : gmap Z loc) (ops : list ht_op) : list ptr * gmap Z loc :=
  match ops with
  | [] => ([], m)
  | op :: ops =>
      let '(r, m) := spec_op pl m op in
      let '(rs, m) := spec_ops pl m ops in (r :: rs, m)
  end.

(** Only nodes with a key that is not in the table are added. *)
Fixpoint valid_ops (pl : gmap loc (Z * D)) (m : gmap Z loc) (ops : list ht_op) : Prop :=
  match ops with
  | [] => True
  | op :: ops =>
      match op with
      | Add l => match pl !! l with Some (k, _) => m !! k = None | None => False end
      | _ => True
      end /\ valid_ops pl (spec_op pl m op).2 ops
  end.

Definition agrees (pl : gmap loc (Z * D)) (m : gmap Z loc) (cs : list (list loc)) : Prop :=
  forall k l, m !! k = Some l <-> l ∈ concat cs /\ exists d, pl !! l = Some (k, d).

Lemma agrees_insert pl m cs cs' l k d : agrees pl m cs -> pl !! l = Some (k, d) -> m !! k = None ->
  concat cs' ≡ₚ l :: concat cs -> agrees pl (<[k := l]> m) cs'.
Proof.
  intros Ha Hp Hk Hperm k' l'. rewrite Hperm, elem_of_cons. split.
  - intros [[<- <-]|[Hne E]]%lookup_insert_Some; [eauto|]. apply Ha in E as [? ?]. auto.
  - intros [[->|Hl] (d' & E)]; apply lookup_insert_Some; [left; by simplify_eq|].
    right. assert (m !! k' = Some l') as E' by (apply Ha; eauto). split; [|done]. congruence.
Qed.

Lemma agrees_delete pl m cs cs' l k d : agrees pl m cs -> pl !! l = Some (k, d) ->
  concat cs ≡ₚ l :: concat cs' -> NoDup (concat cs) ->
  m !! k = Some l /\ agrees pl (delete k m) cs'.
Proof.
  intros Ha Hp Hperm Hnd. rewrite Hperm in Hnd. apply NoDup_cons in Hnd as [Hl _].
  assert (m !! k = Some l) as Hk by (apply Ha; rewrite Hperm; split; [set_solver|eauto]).
  split; [done|]. intros k' l'. rewrite lookup_delete_Some. split.
  - intros [Hne E]. apply Ha in E as [Hin (d' & E)]. rewrite Hperm in Hin.
    apply elem_of_cons in Hin as [->|Hin]; [congruence|eauto].
  - intros [Hin (d' & E)]. assert (m !! k' = Some l') as E' by (apply Ha; rewrite Hperm; split; [set_solver|eauto]).
    split; [|done]. intros ->. rewrite Hk in E'. injection E' as ->. done.
Qed.

(** The table and the map after an operation, with what it kept *)
Definition op_done pl t (m : gmap Z loc) (op : ht_op) (r : ptr) t' : Prop :=
  r = (spec_op pl m op).1 /\ payload (hnodes t') = pl /\ n_elements t' <= n_elements t + 1 /\
  exists cs', ht_ok t' cs' /\ agrees pl (spec_op pl m op).2 cs'.

Lemma wp_run_op t cs m op : ht_ok t cs -> agrees (payload (hnodes t)) m cs ->
  valid_ops (payload (hnodes t)) m [op] -> n_elements t + 1 < 2 ^ 32 ->
  wp (run_op op) t (op_done (payload (hnodes t)) t m op).
Proof.
  intros Hok Ha [Hv _] Hlt. pose proof (ok_count _ _ Hok) as Hc. unfold op_done.
  destruct op as [l|key|key]; cbn [run_op spec_op fst snd].
  - destruct (payload (hnodes t) !! l) as [[k d]|] eqn:El; [|done].
    destruct (payload_inv _ _ _ _ El) as (n & En & _).
    apply wp_bind. eapply wp_HT_add_node; [done|done| |done|].
    { intros Hin. assert (m !! k = Some l) by (apply Ha; eauto). congruence. }
    intros t' cs' Hok' Hp' Hpay _. apply wp_ret. split; [done|]. split; [done|].
    pose proof (ok_count _ _ Hok') as Hc'. rewrite Hp' in Hc'. cbn in Hc'.
    split; [lia|]. exists cs'. split; [done|]. by eapply agrees_insert.
  - apply (wp_lookup_by t cs key (fun n => key =? hkey n)); [done| | |].
    + intros n E. apply Z.eqb_eq in E. done.
    + intros l n Hl E Ek. apply Z.eqb_eq in Ek as ->. apply payload_lookup in E.
      split; [symmetry; apply Ha; eauto|]. split; [done|]. split; [lia|]. by exists cs.
    + intros Hn. split; [|split; [done|split; [lia|by exists cs]]].
      destruct (m !! key) as [l|] eqn:E; [|done]. apply Ha in E as [Hl (d & E)].
      apply payload_inv in E as (n & E & Ek & _). specialize (Hn l n Hl E). cbn in Hn.
      apply Z.eqb_neq in Hn. congruence.
  - apply (wp_remove_by t cs key (fun n => key =? hkey n)); [done| | |].
    + intros n E. apply Z.eqb_eq in E. done.
    + intros l n t' cs' Hl E Ek Hok' Hp' Hpay _. apply Z.eqb_eq in Ek as ->. apply payload_lookup in E.
      destruct (agrees_delete _ _ _ _ _ _ _ Ha E Hp' (ok_nodup _ _ Hok)) as [Hk Ha'].
      split; [done|]. split; [done|]. pose proof (ok_count _ _ Hok') as Hc'. rewrite Hp' in Hc. cbn in Hc.
      split; [lia|]. by exists cs'.
    + intros Hn. assert (m !! key = None) as Hk.
      { destruct (m !! key) as [l|] eqn:E; [|done]. apply Ha in E as [Hl (d & E)].
        apply payload_inv in E as (n & E & Ek & _). specialize (Hn l n Hl E). cbn in Hn.
        apply Z.eqb_neq in Hn. congruence. }
      rewrite Hk. split; [done|]. split; [done|]. split; [cbn; lia|]. exists cs.
      rewrite delete_id by done. split; [by destruct Hok; split|done].
Qed.

Lemma wp_run_ops ops : forall t cs m, ht_ok t cs -> agrees (payload (hnodes t)) m cs ->
  valid_ops (payload (hnodes t)) m ops -> n_elements t + Z.of_nat (length ops) < 2 ^ 32 ->
  wp (run_ops ops) t (fun rs t' => rs = (spec_ops (payload (hnodes t)) m ops).1 /\
    payload (hnodes t') = payload (hnodes t) /\
    exists cs', ht_ok t' cs' /\ agrees (payload (hnodes t)) (spec_ops (payload (hnodes t)) m ops).2 cs').
Proof.
  induction ops as [|op ops IH]; intros t cs m Hok Ha Hv Hlt; cbn [run_ops spec_ops].
  { apply wp_ret. split; [done|]. split; [done|]. by exists cs. }
  destruct Hv as [Hv1 Hv2]. cbn [length] in Hlt. apply wp_bind.
  eapply wp_mono; [eapply wp_run_op; [done|done|by split|lia]|].
  intros r t1 (Hr & Hpay & Hn & cs1 & Hok1 & Ha1). apply wp_bind. rewrite <- Hpay in Ha1, Hv2, Hr |- *.
  destruct (spec_op (payload (hnodes t1)) m op) as [r0 m1]. cbn in Hr, Ha1, Hv2.
  eapply wp_mono; [eapply (IH t1 cs1 m1); [done|done|done|lia]|].
  intros rs t2 (Hrs & Hpay2 & cs2 & Hok2 & Ha2). apply wp_ret.
  destruct (spec_ops (payload (hnodes t1)) m1 ops) as [rs0 m2]. cbn in *. subst r rs.
  split; [done|]. split; [done|]. by exists cs2.
Qed.
End Proofs.
