(* ===== verification/ExeContext.v ===== *)
(** The store of execution contexts, [coregrind/m_execontext.c]: stack traces,
    each kept once in a hash table that grows, with the serial numbers (ECUs)
    and the epochs of their debug information. *)
From stdpp Require Import base gmap list.
From Stdlib Require Import ZArith Lia.
From S2P Require Import Prelude Printf Chains.
Open Scope prog_scope.
Open Scope Z_scope.

(** ** Data *)

(** A context; the number of its addresses is the length of [ips]. *)
Record ExeContext := mk_ec { ec_chain : ptr; ecu : Z; epoch : Z; ips : list Z }.

Definition n_ips (e : ExeContext) : Z := Z.of_nat (length (ips e)).

Definition set_chain (p : ptr) (e : ExeContext) : ExeContext := mk_ec p (ecu e) (epoch e) (ips e).
Definition set_epoch (ep : Z) (e : ExeContext) : ExeContext := mk_ec (ec_chain e) (ecu e) ep (ips e).

Definition DiEpoch_INVALID : Z := 0.
Definition is_DiEpoch_INVALID (ep : Z) : bool := ep =? 0.

Definition ec_primes : list Z :=
  [769; 1543; 3079; 6151; 12289; 24593; 49157; 98317; 196613; 393241; 786433; 1572869; 3145739;
   6291469; 12582917; 25165843; 50331653; 100663319].
Definition N_EC_PRIMES : nat := 18.

(** The static variables of the file, the contexts that are allocated, and
    the option [--num-callers] *)
Record ec_state := mk_ecs {
  ecs : gmap loc ExeContext;
  ec_htab : list ptr;
  ec_htab_size : Z;
  ec_htab_size_idx : nat;
  ec_next_ecu : Z;
  null_ec : ptr;
  ec_searchreqs : Z;
  ec_searchcmps : Z;
  ec_totstored : Z;
  ec_cmp2s : Z;
  ec_cmp4s : Z;
  ec_cmpAlls : Z;
  ec_ctr : Z;
  init_done : bool;
  clo_backtrace_size : Z
}.

Definition set_ecs (h : gmap loc ExeContext) (s : ec_state) : ec_state :=
  mk_ecs h (ec_htab s) (ec_htab_size s) (ec_htab_size_idx s) (ec_next_ecu s) (null_ec s)
    (ec_searchreqs s) (ec_searchcmps s) (ec_totstored s) (ec_cmp2s s) (ec_cmp4s s) (ec_cmpAlls s)
    (ec_ctr s) (init_done s) (clo_backtrace_size s).
Definition set_htab (t : list ptr) (sz : Z) (i : nat) (s : ec_state) : ec_state :=
  mk_ecs (ecs s) t sz i (ec_next_ecu s) (null_ec s)
    (ec_searchreqs s) (ec_searchcmps s) (ec_totstored s) (ec_cmp2s s) (ec_cmp4s s) (ec_cmpAlls s)
    (ec_ctr s) (init_done s) (clo_backtrace_size s).
Definition set_next_ecu (u : Z) (s : ec_state) : ec_state :=
  mk_ecs (ecs s) (ec_htab s) (ec_htab_size s) (ec_htab_size_idx s) u (null_ec s)
    (ec_searchreqs s) (ec_searchcmps s) (ec_totstored s) (ec_cmp2s s) (ec_cmp4s s) (ec_cmpAlls s)
    (ec_ctr s) (init_done s) (clo_backtrace_size s).
Definition set_null (p : ptr) (b : bool) (s : ec_state) : ec_state :=
  mk_ecs (ecs s) (ec_htab s) (ec_htab_size s) (ec_htab_size_idx s) (ec_next_ecu s) p
    (ec_searchreqs s) (ec_searchcmps s) (ec_totstored s) (ec_cmp2s s) (ec_cmp4s s) (ec_cmpAlls s)
    (ec_ctr s) b (clo_backtrace_size s).
Definition set_search (reqs cmps tot : Z) (s : ec_state) : ec_state :=
  mk_ecs (ecs s) (ec_htab s) (ec_htab_size s) (ec_htab_size_idx s) (ec_next_ecu s) (null_ec s)
    reqs cmps tot (ec_cmp2s s) (ec_cmp4s s) (ec_cmpAlls s) (ec_ctr s) (init_done s) (clo_backtrace_size s).
Definition set_cmps (c2 c4 ca : Z) (s : ec_state) : ec_state :=
  mk_ecs (ecs s) (ec_htab s) (ec_htab_size s) (ec_htab_size_idx s) (ec_next_ecu s) (null_ec s)
    (ec_searchreqs s) (ec_searchcmps s) (ec_totstored s) c2 c4 ca (ec_ctr s) (init_done s)
    (clo_backtrace_size s).
Definition set_ctr (c : Z) (s : ec_state) : ec_state :=
  mk_ecs (ecs s) (ec_htab s) (ec_htab_size s) (ec_htab_size_idx s) (ec_next_ecu s) (null_ec s)
    (ec_searchreqs s) (ec_searchcmps s) (ec_totstored s) (ec_cmp2s s) (ec_cmp4s s) (ec_cmpAlls s)
    c (init_done s) (clo_backtrace_size s).

(** The variables before the first call *)
Definition ec_start (backtrace_size : Z) : ec_state :=
  mk_ecs ∅ [] 0 0 4 None 0 0 0 0 0 0 0 false backtrace_size.

(** ** Memory *)

Definition ec_assert (b : bool) : M ec_state unit := if b then ret tt else fail.

Definition eload (p : ptr) : M ec_state ExeContext := fun s =>
  match p with
  | Some l => match ecs s !! l with Some e => Some (e, s) | None => None end
  | None => None
  end.

Definition estore (l : loc) (f : ExeContext -> ExeContext) : M ec_state unit := fun s =>
  match ecs s !! l with
  | Some e => Some (tt, set_ecs (<[l := f e]> (ecs s)) s)
  | None => None
  end.

(** [VG_(perm_malloc)]: never fails, never freed *)
Definition perm_malloc (e : ExeContext) : M ec_state loc := fun s =>
  let l := fresh (dom (ecs s)) in Some (l, set_ecs (<[l := e]> (ecs s)) s).

Definition tab_get (t : list ptr) (i : Z) : M ec_state ptr :=
  if 0 <=? i then match t !! Z.to_nat i with Some p => ret p | None => fail end else fail.
Definition htab_get (i : Z) : M ec_state ptr := t <- gets ec_htab ;; tab_get t i.
Definition htab_set (i : Z) (p : ptr) : M ec_state unit :=
  htab_get i ;;;
  modify (fun s => set_htab (<[Z.to_nat i := p]> (ec_htab s)) (ec_htab_size s) (ec_htab_size_idx s) s).

Definition ec_fuel : M ec_state nat := gets (fun s => S (size (ecs s))).

(** ** Hashing and comparison *)

Definition ROLW (w n : Z) : Z := Z.lor (u64 (Z.shiftl w n)) (Z.shiftr w (64 - n)).

Fixpoint hash_loop (l : list Z) (hash : Z) : Z :=
  match l with [] => hash | ip :: l => hash_loop l (ROLW (Z.lxor hash ip) 19) end.

Definition calc_hash (l : list Z) (htab_sz : Z) : Z := hash_loop l 0 mod htab_sz.

Definition is_plausible_ECU (u : Z) : bool := (0 <? u) && (Z.land u 3 =? 0).

(** The loop over the addresses, up to the first that differs *)
Fixpoint same_ips (a b : list Z) : bool :=
  match a, b with
  | [], [] => true
  | x :: a, y :: b => if x =? y then same_ips a b else false
  | _, _ => false
  end.

(** [list->n_ips == n_ips && ...] *)
Definition is_context (l : list Z) (e : ExeContext) : bool :=
  (n_ips e =? Z.of_nat (length l)) && is_DiEpoch_INVALID (epoch e) && same_ips (ips e) l.

Inductive VgRes := Vg_LowRes | Vg_MedRes | Vg_HighRes.

(** The comparison of the top [n] callers, from the [i]th on *)
Fixpoint eq_top (n : nat) (i : nat) (e1 e2 : ExeContext) : bool :=
  match n with
  | O => epoch e1 =? epoch e2
  | S n =>
      let i1 := n_ips e1 <=? Z.of_nat i in
      let i2 := n_ips e2 <=? Z.of_nat i in
      if i1 && i2 then true
      else if i1 && negb i2 then false
      else if negb i1 && i2 then false
      else match ips e1 !! i, ips e2 !! i with
           | Some x, Some y => if negb (x =? y) then false else eq_top n (S i) e1 e2
           | _, _ => false
           end
  end.

Definition eq_ExeContext (res : VgRes) (p1 p2 : ptr) : M ec_state bool :=
  match p1, p2 with
  | Some l1, Some l2 =>
      e1 <- eload p1 ;;
      e2 <- eload p2 ;;
      ec_assert ((1 <=? n_ips e1) && (1 <=? n_ips e2)) ;;;
      match res with
      | Vg_LowRes =>
          modify (fun s => set_cmps (u64 (ec_cmp2s s + 1)) (ec_cmp4s s) (ec_cmpAlls s) s) ;;;
          ret (eq_top 2 0 e1 e2)
      | Vg_MedRes =>
          modify (fun s => set_cmps (ec_cmp2s s) (u64 (ec_cmp4s s + 1)) (ec_cmpAlls s) s) ;;;
          ret (eq_top 4 0 e1 e2)
      | Vg_HighRes =>
          modify (fun s => set_cmps (ec_cmp2s s) (ec_cmp4s s) (u64 (ec_cmpAlls s + 1)) s) ;;;
          ret (bool_decide (l1 = l2))
      end
  | _, _ => ret false
  end.

(** ** The table *)

Fixpoint rehash_chain (fuel : nat) (cur : ptr) (new_size : Z) (new : list ptr) : M ec_state (list ptr) :=
  match fuel with
  | O => fail
  | S fuel =>
      match cur with
      | None => ret new
      | Some l =>
          e <- eload cur ;;
          let hash := calc_hash (ips e) new_size in
          ec_assert (hash <? new_size) ;;;
          head <- tab_get new hash ;;
          estore l (set_chain head) ;;;
          rehash_chain fuel (ec_chain e) new_size (<[Z.to_nat hash := cur]> new)
      end
  end.

Fixpoint rehash (n : nat) (i : Z) (new_size : Z) (new : list ptr) : M ec_state (list ptr) :=
  match n with
  | O => ret new
  | S n =>
      cur <- htab_get i ;;
      fuel <- ec_fuel ;;
      new <- rehash_chain fuel cur new_size new ;;
      rehash n (i + 1) new_size new
  end.

Definition resize_ec_htab : M ec_state unit :=
  idx <- gets ec_htab_size_idx ;;
  ec_assert (idx <? N_EC_PRIMES)%nat ;;;
  if (idx =? N_EC_PRIMES - 1)%nat then ret tt
  else
    let new_size := nth (idx + 1) ec_primes 0 in
    size <- gets ec_htab_size ;;
    new <- rehash (Z.to_nat size) 0 new_size (replicate (Z.to_nat new_size) None) ;;
    modify (set_htab new new_size (idx + 1)).

(** [prev2], [prev] and [list] when the search stops *)
Fixpoint search (fuel : nat) (l : list Z) (prev2 prev cur : ptr) : M ec_state (ptr * ptr * ptr) :=
  match fuel with
  | O => fail
  | S fuel =>
      match cur with
      | None => ret (prev2, prev, cur)
      | Some _ =>
          modify (fun s => set_search (ec_searchreqs s) (u64 (ec_searchcmps s + 1)) (ec_totstored s) s) ;;;
          e <- eload cur ;;
          if is_context l e then ret (prev2, prev, cur)
          else search fuel l prev cur (ec_chain e)
      end
  end.

(** A context that was found moves one step to the front of its chain. *)
Definition move_up (hash : Z) (prev2 prev : ptr) (found : loc) : M ec_state unit :=
  match prev2, prev with
  | Some p2, Some p1 =>
      e2 <- eload prev2 ;;
      ec_assert (bool_decide (ec_chain e2 = prev)) ;;;
      e1 <- eload prev ;;
      ec_assert (bool_decide (ec_chain e1 = Some found)) ;;;
      estore p2 (set_chain (Some found)) ;;;
      e <- eload (Some found) ;;
      estore p1 (set_chain (ec_chain e)) ;;;
      estore found (set_chain prev)
  | None, Some p1 =>
      head <- htab_get hash ;;
      ec_assert (bool_decide (head = prev)) ;;;
      e1 <- eload prev ;;
      ec_assert (bool_decide (ec_chain e1 = Some found)) ;;;
      e <- eload (Some found) ;;
      estore p1 (set_chain (ec_chain e)) ;;;
      estore found (set_chain prev) ;;;
      htab_set hash (Some found)
  | _, None => ret tt
  end.

Definition record_ExeContext_wrk2 (l : list Z) : M ec_state loc :=
  bs <- gets clo_backtrace_size ;;
  ec_assert ((1 <=? Z.of_nat (length l)) && (Z.of_nat (length l) <=? bs)) ;;;
  size <- gets ec_htab_size ;;
  ec_assert (0 <? size) ;;;
  let hash := calc_hash l size in
  modify (fun s => set_search (u64 (ec_searchreqs s + 1)) (ec_searchcmps s) (ec_totstored s) s) ;;;
  head <- htab_get hash ;;
  fuel <- ec_fuel ;;
  r <- search fuel l None None head ;;
  let '(prev2, prev, list) := r in
  match list with
  | Some found =>
      c <- gets ec_ctr ;;
      modify (set_ctr (u32 (c + 1))) ;;;
      (if Z.land c 7 =? 0 then move_up hash prev2 prev found else ret tt) ;;;
      ret found
  | None =>
      modify (fun s => set_search (ec_searchreqs s) (ec_searchcmps s) (u64 (ec_totstored s + 1)) s) ;;;
      u <- gets ec_next_ecu ;;
      ec_assert (is_plausible_ECU u) ;;;
      modify (set_next_ecu (u32 (u + 4))) ;;;
      u' <- gets ec_next_ecu ;;
      (if u' =? 0 then fail else ret tt) ;;;
      new_ec <- perm_malloc (mk_ec head u DiEpoch_INVALID l) ;;
      htab_set hash (Some new_ec) ;;;
      s <- gets id ;;
      (if ec_htab_size s <? ec_totstored s then
         ec_assert (ec_htab_size_idx s <? N_EC_PRIMES)%nat ;;;
         if (ec_htab_size_idx s <? N_EC_PRIMES - 1)%nat then resize_ec_htab else ret tt
       else ret tt) ;;;
      ret new_ec
  end.

Definition init_ExeContext_storage : M ec_state unit :=
  done <- gets init_done ;;
  if done then ret tt
  else
    modify (fun s => set_search 0 0 0 (set_cmps 0 0 0 s)) ;;;
    let size := nth 0 ec_primes 0 in
    modify (set_htab (replicate (Z.to_nat size) None) size 0) ;;;
    l <- record_ExeContext_wrk2 [0] ;;
    e <- eload (Some l) ;;
    ec_assert (ecu e =? 4) ;;;
    modify (set_null (Some l) true).

(** ** Recording *)

(** What the core says of a thread: its instruction pointer, its unwound
    stack (at most so many addresses, given the delta of the first one), and
    its kernel thread *)
Record thread := mk_thread { get_IP : Z; get_StackTrace : Z -> Z -> list Z; lwpid : Z }.

(** The separator before the frames of an inner guest *)
Section Recording.
Context (separator : Z).
(** The thread array of an inner Valgrind, if it told us of one; entry 0 is
    not a thread *)
Context (inner_threads : option (list thread)).

Definition stack_of (bs : Z) (tid : thread) (first_ip_delta : Z) : list Z :=
  let l := get_StackTrace tid bs first_ip_delta in
  match inner_threads with
  | Some inner =>
      if Z.of_nat (length l) + 1 <? bs then
        match List.find (fun t => lwpid tid =? lwpid t) (tl inner) with
        | Some t => l ++ separator :: get_StackTrace t (bs - (Z.of_nat (length l) + 1)) first_ip_delta
        | None => l
        end
      else l
  | None => l
  end.

Definition record_ExeContext_wrk (tid : thread) (first_ip_delta : Z) (first_ip_only : bool) : M ec_state loc :=
  init_ExeContext_storage ;;;
  bs <- gets clo_backtrace_size ;;
  record_ExeContext_wrk2
    (if first_ip_only then [u64 (get_IP tid + first_ip_delta)] else stack_of bs tid first_ip_delta).

Definition record_ExeContext (tid : thread) (first_ip_delta : Z) : M ec_state loc :=
  record_ExeContext_wrk tid first_ip_delta false.
Definition record_depth_1_ExeContext (tid : thread) (first_ip_delta : Z) : M ec_state loc :=
  record_ExeContext_wrk tid first_ip_delta true.
End Recording.

Definition make_depth_1_ExeContext_from_Addr (a : Z) : M ec_state loc :=
  init_ExeContext_storage ;;; record_ExeContext_wrk2 [a].
Definition make_ExeContext_from_StackTrace (l : list Z) : M ec_state loc :=
  init_ExeContext_storage ;;; record_ExeContext_wrk2 l.
Definition null_ExeContext : M ec_state ptr := init_ExeContext_storage ;;; gets null_ec.

(** ** Access *)

Definition get_ExeContext_StackTrace (l : loc) : M ec_state (list Z) := e <- eload (Some l) ;; ret (ips e).
Definition get_ECU_from_ExeContext (l : loc) : M ec_state Z :=
  e <- eload (Some l) ;; ec_assert (is_plausible_ECU (ecu e)) ;;; ret (ecu e).
Definition get_ExeContext_n_ips (l : loc) : M ec_state Z :=
  e <- eload (Some l) ;; ec_assert (1 <=? n_ips e) ;;; ret (n_ips e).
Definition get_ExeContext_epoch (current_DiEpoch : Z) (l : loc) : M ec_state Z :=
  e <- eload (Some l) ;; ret (if is_DiEpoch_INVALID (epoch e) then current_DiEpoch else epoch e).

Fixpoint ecu_chain (fuel : nat) (u : Z) (cur : ptr) : M ec_state ptr :=
  match fuel with
  | O => fail
  | S fuel =>
      match cur with
      | None => ret None
      | Some _ => e <- eload cur ;; if ecu e =? u then ret cur else ecu_chain fuel u (ec_chain e)
      end
  end.

Fixpoint ecu_chains (n : nat) (i u : Z) : M ec_state ptr :=
  match n with
  | O => ret None
  | S n =>
      cur <- htab_get i ;;
      fuel <- ec_fuel ;;
      r <- ecu_chain fuel u cur ;;
      match r with Some _ => ret r | None => ecu_chains n (i + 1) u end
  end.

Definition get_ExeContext_from_ECU (u : Z) : M ec_state ptr :=
  ec_assert (is_plausible_ECU u) ;;;
  size <- gets ec_htab_size ;;
  ec_assert (0 <? size) ;;;
  ecu_chains (Z.to_nat size) 0 u.

(** ** Archiving *)

(** Whether one of the addresses is in the range; the end is computed in a
    word. *)
Definition in_text (text_avma length : Z) (l : list Z) : bool :=
  existsb (fun ip => (text_avma <=? ip) && (ip <=? u64 (text_avma + length - 1))) l.

Fixpoint archive_chain (fuel : nat) (last_epoch text_avma length : Z) (cur : ptr) : M ec_state unit :=
  match fuel with
  | O => fail
  | S fuel =>
      match cur with
      | None => ret tt
      | Some l =>
          e <- eload cur ;;
          (if is_DiEpoch_INVALID (epoch e) && in_text text_avma length (ips e)
           then estore l (set_epoch last_epoch) else ret tt) ;;;
          archive_chain fuel last_epoch text_avma length (ec_chain e)
      end
  end.

Fixpoint archive_chains (n : nat) (i last_epoch text_avma length : Z) : M ec_state unit :=
  match n with
  | O => ret tt
  | S n =>
      cur <- htab_get i ;;
      fuel <- ec_fuel ;;
      archive_chain fuel last_epoch text_avma length cur ;;;
      archive_chains n (i + 1) last_epoch text_avma length
  end.

Definition archive_ExeContext_in_range (last_epoch text_avma length : Z) : M ec_state unit :=
  size <- gets ec_htab_size ;;
  archive_chains (Z.to_nat size) 0 last_epoch text_avma length.
