(* ===== verification/ExeContextProofs.v ===== *)
(** The store of execution contexts: its invariant, that recording keeps it
    and gives every trace one context, and what archiving changes. *)
From stdpp Require Import base gmap list fin_maps sets.
From Stdlib Require Import ZArith Lia.
From S2P Require Import Prelude Printf Chains ExeContext.
Open Scope prog_scope.
Open Scope Z_scope.

(** ** Contexts *)

(** What a context is apart from its link: serial number, epoch, addresses *)
Definition contexts (h : gmap loc ExeContext) : gmap loc (Z * Z * list Z) :=
  (fun e => (ecu e, epoch e, ips e)) <$> h.

Lemma contexts_lookup h l e : h !! l = Some e -> contexts h !! l = Some (ecu e, epoch e, ips e).
Proof. intros E. unfold contexts. by rewrite lookup_fmap, E. Qed.

Lemma contexts_inv h l u ep tr : contexts h !! l = Some (u, ep, tr) ->
  exists e, h !! l = Some e /\ ecu e = u /\ epoch e = ep /\ ips e = tr.
Proof. unfold contexts. intros (e & [= <- <- <-] & E)%lookup_fmap_Some. eauto. Qed.

Lemma contexts_set_chain h l e p : h !! l = Some e -> contexts (<[l := set_chain p e]> h) = contexts h.
Proof.
  intros E. unfold contexts. rewrite fmap_insert. cbn. apply insert_id. by rewrite lookup_fmap, E.
Qed.

(** The invariant of the contexts: in the current epoch each trace has at
    most one, and the serial numbers are distinct multiples of four below the
    next one. *)
Record ctx_ok (c : gmap loc (Z * Z * list Z)) (next_ecu : Z) : Prop := {
  ctx_unique l1 l2 u1 u2 tr : c !! l1 = Some (u1, 0, tr) -> c !! l2 = Some (u2, 0, tr) -> l1 = l2;
  ctx_ecu l u ep tr : c !! l = Some (u, ep, tr) -> 4 <= u < next_ecu /\ u mod 4 = 0;
  ctx_ecu_inj l1 l2 u ep1 ep2 tr1 tr2 :
    c !! l1 = Some (u, ep1, tr1) -> c !! l2 = Some (u, ep2, tr2) -> l1 = l2;
  ctx_nonempty l u ep tr : c !! l = Some (u, ep, tr) -> tr <> [];
  ctx_next : 4 <= next_ecu < 2 ^ 32 /\ next_ecu mod 4 = 0
}.

Lemma plausible_4 u : 0 < u -> u mod 4 = 0 -> is_plausible_ECU u = true.
Proof.
  intros H0 H4. unfold is_plausible_ECU. rewrite (proj2 (Z.ltb_lt _ _)) by done.
  change 3 with (Z.ones 2). rewrite Z.land_ones by lia. change (2 ^ 2) with 4. by rewrite H4.
Qed.

Lemma ctx_ok_add c u l tr : ctx_ok c u -> u + 4 < 2 ^ 32 -> c !! l = None -> tr <> [] ->
  (forall l' u', c !! l' <> Some (u', 0, tr)) -> ctx_ok (<[l := (u, 0, tr)]> c) (u + 4).
Proof.
  intros [Cu Ce Ci Cn Cx] Hlt Hl Htr Hno. split.
  - intros l1 l2 u1 u2 t [[<- E1]|[H1 E1]]%lookup_insert_Some [[<- E2]|[H2 E2]]%lookup_insert_Some; [done| | |].
    + injection E1 as <- <-. by apply Hno in E2.
    + injection E2 as <- <-. by apply Hno in E1.
    + by eapply Cu.
  - intros l' u' ep t [[<- [= <- <- <-]]|[_ E]]%lookup_insert_Some; [lia|]. apply Ce in E. lia.
  - intros l1 l2 u' ep1 ep2 t1 t2 [[<- E1]|[H1 E1]]%lookup_insert_Some [[<- E2]|[H2 E2]]%lookup_insert_Some; [done| | |].
    + injection E1 as <- <- <-. apply Ce in E2. lia.
    + injection E2 as <- <- <-. apply Ce in E1. lia.
    + by eapply Ci.
  - intros l' u' ep t [[<- [= <- <- <-]]|[_ E]]%lookup_insert_Some; [done|]. by eapply Cn.
  - split; [lia|]. rewrite <- Zplus_mod_idemp_l. by rewrite (proj2 Cx).
Qed.

(** ** Memory *)

Lemma wp_ec_assert b s (Q : unit -> ec_state -> Prop) : b = true -> Q tt s -> wp (ec_assert b) s Q.
Proof. intros ->. done. Qed.

Lemma wp_eload l s e (Q : ExeContext -> ec_state -> Prop) : ecs s !! l = Some e -> Q e s ->
  wp (eload (Some l)) s Q.
Proof. intros E HQ. unfold wp, eload. by rewrite E. Qed.

Lemma wp_estore l f s e (Q : unit -> ec_state -> Prop) : ecs s !! l = Some e ->
  Q tt (set_ecs (<[l := f e]> (ecs s)) s) -> wp (estore l f) s Q.
Proof. intros E HQ. unfold wp, estore. by rewrite E. Qed.

Lemma wp_tab_get t i p s (Q : ptr -> ec_state -> Prop) : t !! i = Some p -> Q p s ->
  wp (tab_get t (Z.of_nat i)) s Q.
Proof.
  intros E HQ. unfold tab_get. rewrite (proj2 (Z.leb_le 0 _)) by lia. by rewrite Nat2Z.id, E.
Qed.

Lemma wp_htab_get i p s (Q : ptr -> ec_state -> Prop) : ec_htab s !! i = Some p -> Q p s ->
  wp (htab_get (Z.of_nat i)) s Q.
Proof. intros E HQ. unfold htab_get. apply wp_bind, wp_gets. by eapply wp_tab_get. Qed.

Lemma wp_htab_set i q p s (Q : unit -> ec_state -> Prop) : ec_htab s !! i = Some q ->
  Q tt (set_htab (<[i := p]> (ec_htab s)) (ec_htab_size s) (ec_htab_size_idx s) s) ->
  wp (htab_set (Z.of_nat i) p) s Q.
Proof.
  intros E HQ. unfold htab_set. apply wp_bind. eapply wp_htab_get; [done|]. apply wp_modify.
  by rewrite Nat2Z.id.
Qed.

(** ** The table *)

Definition ec_hashed (c : gmap loc (Z * Z * list Z)) (size : Z) (cs : list (list loc)) : Prop :=
  forall i ls l u ep tr, cs !! i = Some ls -> l ∈ ls -> c !! l = Some (u, ep, tr) ->
    Z.to_nat (calc_hash tr size) = i.

(** The chains of the table are [cs]; they hold all contexts. *)
Record tab_ok (s : ec_state) (cs : list (list loc)) : Prop := {
  tb_table : table ec_chain (ecs s) (ec_htab s) cs;
  tb_nodup : NoDup (concat cs);
  tb_all l e : ecs s !! l = Some e -> l ∈ concat cs;
  tb_length : Z.of_nat (length cs) = ec_htab_size s;
  tb_prime : ec_primes !! ec_htab_size_idx s = Some (ec_htab_size s);
  tb_hashed : ec_hashed (contexts (ecs s)) (ec_htab_size s) cs
}.

Record ec_ok (s : ec_state) (cs : list (list loc)) : Prop := {
  eo_tab : tab_ok s cs;
  eo_ctx : ctx_ok (contexts (ecs s)) (ec_next_ecu s)
}.

Lemma ec_primes_range i n : ec_primes !! i = Some n -> 769 <= n <= 100663319 /\ (i < N_EC_PRIMES)%nat.
Proof.
  intros E. pose proof (lookup_lt_Some _ _ _ E) as Hi. split; [|done].
  apply list_elem_of_lookup_2 in E. revert n E. apply Forall_forall. apply (bool_decide_unpack _).
  vm_compute. done.
Qed.

Lemma tab_pos s cs : tab_ok s cs -> 0 < ec_htab_size s.
Proof. intros Ht. pose proof (ec_primes_range _ _ (tb_prime _ _ Ht)). lia. Qed.

(** The slot of a trace *)
Lemma tab_slot s cs tr : tab_ok s cs ->
  exists i p ls, calc_hash tr (ec_htab_size s) = Z.of_nat i /\ ec_htab s !! i = Some p /\
    cs !! i = Some ls /\ chain ec_chain (ecs s) p ls.
Proof.
  intros Ht. pose proof (Z.mod_pos_bound (hash_loop tr 0) (ec_htab_size s) (tab_pos s cs Ht)) as Hm.
  pose proof (tb_length _ _ Ht) as Hl. pose proof (Forall2_length _ _ _ (tb_table _ _ Ht)) as Hlen.
  destruct (table_lookup ec_chain (ecs s) (ec_htab s) cs (Z.to_nat (calc_hash tr (ec_htab_size s))))
    as (p & ls & Ep & El & Hc); [apply Ht|unfold calc_hash; lia|].
  eexists _, p, ls. split; [|done]. unfold calc_hash in *. lia.
Qed.

Lemma tab_in_chain s cs tr i ls l u ep : tab_ok s cs -> calc_hash tr (ec_htab_size s) = Z.of_nat i ->
  cs !! i = Some ls -> contexts (ecs s) !! l = Some (u, ep, tr) -> l ∈ ls.
Proof.
  intros Ht Hi Ei E. destruct (contexts_inv _ _ _ _ _ E) as (e & Ee & _).
  pose proof (tb_all _ _ Ht l e Ee) as (j & ks & Ej & Hl)%table_elem.
  pose proof (tb_hashed _ _ Ht j ks l u ep tr Ej Hl E) as Hj. rewrite Hi, Nat2Z.id in Hj. by simplify_eq.
Qed.

(** The variables that recording does not change *)
Definition statics (s : ec_state) : Z * bool * ptr := (clo_backtrace_size s, init_done s, null_ec s).

(** The variables that matter to the table and its contexts *)
Definition same_store (s s' : ec_state) : Prop :=
  ecs s' = ecs s /\ ec_htab s' = ec_htab s /\ ec_htab_size s' = ec_htab_size s /\
  ec_htab_size_idx s' = ec_htab_size_idx s /\ ec_next_ecu s' = ec_next_ecu s /\
  statics s' = statics s.

Lemma same_store_trans s1 s2 s3 : same_store s1 s2 -> same_store s2 s3 -> same_store s1 s3.
Proof. unfold same_store. intuition congruence. Qed.

Lemma tab_ok_same s s' cs : same_store s s' -> tab_ok s cs -> tab_ok s' cs.
Proof.
  intros (E1 & E2 & E3 & E4 & _) [T1 T2 T3 T4 T5 T6]. split; rewrite ?E1, ?E2, ?E3, ?E4; done.
Qed.

Lemma ec_ok_same s s' cs : same_store s s' -> ec_ok s cs -> ec_ok s' cs.
Proof.
  intros Hs [Ht Hc]. split; [by eapply tab_ok_same|].
  destruct Hs as (E1 & _ & _ & _ & E5 & _). by rewrite E1, E5.
Qed.

(** ** The search *)

Lemma same_ips_eq a b : same_ips a b = true <-> a = b.
Proof.
  revert b. induction a as [|x a IH]; intros [|y b]; cbn; try done.
  destruct (Z.eqb_spec x y) as [->|]; [rewrite IH; split; congruence|]. split; congruence.
Qed.

Lemma is_context_spec tr e : is_context tr e = true <-> epoch e = 0 /\ ips e = tr.
Proof.
  unfold is_context, is_DiEpoch_INVALID. rewrite !andb_true_iff, !Z.eqb_eq, same_ips_eq. split; [tauto|].
  intros [He <-]. done.
Qed.

Lemma ec_chain_fuel s p ls : chain ec_chain (ecs s) p ls -> (length ls < S (size (ecs s)))%nat.
Proof. intros Hc. apply chain_size in Hc. lia. Qed.

(** The search from a position of a chain: [rl] are the contexts passed, the
    last one first. *)
Lemma wp_search_chain fuel tr : forall s p ls rl (Q : ptr * ptr * ptr -> ec_state -> Prop),
  chain ec_chain (ecs s) p ls -> (length ls < fuel)%nat ->
  (forall s' rl' l l2 e, same_store s s' -> rev rl ++ ls = rev rl' ++ l :: l2 -> ecs s !! l = Some e ->
     is_context tr e = true -> Q (head (tail rl'), head rl', Some l) s') ->
  (forall s' p2 p1, same_store s s' ->
     (forall l e, l ∈ ls -> ecs s !! l = Some e -> is_context tr e = false) -> Q (p2, p1, None) s') ->
  wp (search fuel tr (head (tail rl)) (head rl) p) s Q.
Proof.
  induction fuel as [|fuel IH]; intros s p ls rl Q Hc Hf H1 H2; [lia|]. cbn [search].
  destruct p as [l|].
  2:{ apply chain_nil in Hc as ->. apply wp_ret, H2; [done|]. intros l e Hl. by apply not_elem_of_nil in Hl. }
  apply chain_some in Hc as (e & ls' & -> & E & Hc). cbn in Hf.
  apply wp_bind, wp_modify. set (s1 := set_search _ _ _ s).
  assert (same_store s s1) as Hs1 by done.
  apply wp_bind. eapply wp_eload; [done|]. destruct (is_context tr e) eqn:Et.
  { apply wp_ret. by apply (H1 s1 rl l ls' e). }
  change (head rl) with (head (tail (l :: rl))). change (Some l) with (head (l :: rl)).
  apply (IH s1 _ ls' (l :: rl)); [done|lia| |].
  - intros s' rl' l' l2 e' Hs' Ed. eapply H1; [by eapply same_store_trans|].
    cbn in Ed. by rewrite <- app_assoc in Ed.
  - intros s' p2 p1 Hs' Hn. apply H2; [by eapply same_store_trans|].
    intros l' e' [->|Hl']%elem_of_cons E'; [congruence|by apply (Hn l')].
Qed.

(** ** Moving to the front *)

(** The chains after a context moved one step forward *)
Lemma tab_ok_permute s cs i ls ls' s' : tab_ok s cs -> cs !! i = Some ls -> ls ≡ₚ ls' ->
  table ec_chain (ecs s') (ec_htab s') (<[i := ls']> cs) -> contexts (ecs s') = contexts (ecs s) ->
  ec_htab_size s' = ec_htab_size s -> ec_htab_size_idx s' = ec_htab_size_idx s ->
  tab_ok s' (<[i := ls']> cs).
Proof.
  intros [T1 T2 T3 T4 T5 T6] Ei Hp Ht Hc Es Ex.
  assert (concat (<[i := ls']> cs) ≡ₚ concat cs) as Hperm.
  { destruct (concat_insert cs i ls ls' Ei) as [-> ->]. by rewrite Hp. }
  split; [done|by rewrite Hperm| |by rewrite length_insert, Es|by rewrite Es, Ex|].
  - intros l e E. rewrite Hperm. apply contexts_lookup in E. rewrite Hc in E.
    apply contexts_inv in E as (e' & E & _). by eapply T3.
  - rewrite Hc, Es. intros j ks l u ep tr Ej Hl. apply list_lookup_insert_Some in Ej as [(-> & -> & _)|[_ Ej]].
    + apply (T6 j ls); [done|by rewrite Hp].
    + by apply (T6 j ks).
Qed.

(** What an operation on the table alone keeps *)
Definition same_contexts (s s' : ec_state) : Prop :=
  contexts (ecs s') = contexts (ecs s) /\ ec_next_ecu s' = ec_next_ecu s /\
  statics s' = statics s.

Lemma table_relink s cs i p ls h' p' ls' : tab_ok s cs -> ec_htab s !! i = Some p -> cs !! i = Some ls ->
  chain ec_chain h' p' ls' -> (forall l, l ∉ ls -> h' !! l = ecs s !! l) ->
  table ec_chain h' (<[i := p']> (ec_htab s)) (<[i := ls']> cs).
Proof.
  intros Ht Ep Ei Hc Hout. eapply table_update; [apply Ht|done|]. intros l e Hl E. exists e. split; [|done].
  rewrite Hout; [done|]. intros Hin.
  destruct (concat_insert cs i ls [] Ei) as [Hp _]. pose proof (tb_nodup _ _ Ht) as Hnd.
  rewrite Hp in Hnd. apply NoDup_app in Hnd as (_ & Hd & _). by apply (Hd l).
Qed.

Lemma wp_move_up s cs i ls rl l l2 (Q : unit -> ec_state -> Prop) : tab_ok s cs -> cs !! i = Some ls ->
  ls = rev rl ++ l :: l2 ->
  (forall s' cs', tab_ok s' cs' -> same_contexts s s' -> Q tt s') ->
  wp (move_up (Z.of_nat i) (head (tail rl)) (head rl) l) s Q.
Proof.
  intros Ht Ei El HQ.
  destruct (table_lookup ec_chain (ecs s) (ec_htab s) cs i) as (p & ls0 & Ep & Ei' & Hc); [apply Ht| |].
  { erewrite Forall2_length by apply Ht. by eapply lookup_lt_Some. }
  rewrite Ei in Ei'. injection Ei' as <-. subst ls. pose proof (chain_NoDup _ _ _ _ Hc) as Hnd.
  assert (forall x, x ∈ rev rl ++ l :: l2 -> exists e, ecs s !! x = Some e) as Hlk.
  { intros x Hx. by eapply chain_lookup. }
  destruct rl as [|q rl]; [apply wp_ret; by apply (HQ s cs)|].
  destruct (Hlk l) as (e & E); [set_solver|]. destruct (Hlk q) as (e1 & E1); [cbn; set_solver|].
  destruct rl as [|q2 rl]; cbn [head tail rev app] in *.
  - assert (q <> l) as Hql by (intros ->; apply NoDup_cons in Hnd as [? _]; set_solver).
    pose proof Hc as (-> & e1' & E1' & (En & _)). rewrite E1 in E1'. injection E1' as <-.
    apply wp_bind. eapply wp_htab_get; [done|]. apply wp_bind, wp_ec_assert; [by apply bool_decide_eq_true|].
    apply wp_bind. eapply wp_eload; [done|]. apply wp_bind, wp_ec_assert; [by apply bool_decide_eq_true|].
    apply wp_bind. eapply wp_eload; [done|]. apply wp_bind. eapply wp_estore; [done|].
    assert (<[q := set_chain (ec_chain e) e1]> (ecs s) !! l = Some e) as E2 by by rewrite lookup_insert_ne.
    apply wp_bind. eapply wp_estore; [exact E2|]. eapply wp_htab_set; [done|].
    assert (contexts (<[l := set_chain (Some q) e]> (<[q := set_chain (ec_chain e) e1]> (ecs s))) =
      contexts (ecs s)) as Hcx.
    { by rewrite (contexts_set_chain _ _ _ _ E2), (contexts_set_chain _ _ _ _ E1). }
    eapply HQ; [eapply (tab_ok_permute s cs i _ (l :: q :: l2)); [done|done|apply perm_swap| |done|done|done]|by split].
    cbn. eapply table_relink; [done|done|done|by eapply chain_swap_head|].
    intros x Hx. rewrite !lookup_insert_ne by set_solver. done.
  - destruct (Hlk q2) as (e2 & E2); [cbn; set_solver|]. cbn [rev] in *. rewrite <- !app_assoc in *. cbn [app] in *.
    pose proof (chain_app _ _ _ _ _ _ Hc) as (_ & e2' & E2' & (En2 & e1' & E1' & (En1 & _))).
    rewrite E2 in E2'. injection E2' as <-. rewrite E1 in E1'. injection E1' as <-.
    assert (q2 <> q /\ q2 <> l /\ q <> l) as (N1 & N2 & N3).
    { apply NoDup_app in Hnd as (_ & _ & Hnd). apply NoDup_cons in Hnd as [H1 Hnd].
      apply NoDup_cons in Hnd as [H2 _]. set_solver. }
    apply wp_bind. eapply wp_eload; [done|]. apply wp_bind, wp_ec_assert; [by apply bool_decide_eq_true|].
    apply wp_bind. eapply wp_eload; [done|]. apply wp_bind, wp_ec_assert; [by apply bool_decide_eq_true|].
    apply wp_bind. eapply wp_estore; [done|].
    assert (<[q2 := set_chain (Some l) e2]> (ecs s) !! l = Some e) as E3 by by rewrite lookup_insert_ne.
    apply wp_bind. eapply wp_eload; [exact E3|].
    assert (<[q2 := set_chain (Some l) e2]> (ecs s) !! q = Some e1) as E4 by by rewrite lookup_insert_ne.
    apply wp_bind. eapply wp_estore; [exact E4|].
    assert (<[q := set_chain (ec_chain e) e1]> (<[q2 := set_chain (Some l) e2]> (ecs s)) !! l = Some e) as E5
      by by rewrite lookup_insert_ne.
    eapply wp_estore; [exact E5|].
    assert (contexts (<[l := set_chain (Some q) e]> (<[q := set_chain (ec_chain e) e1]>
      (<[q2 := set_chain (Some l) e2]> (ecs s)))) = contexts (ecs s)) as Hcx.
    { by rewrite (contexts_set_chain _ _ _ _ E5), (contexts_set_chain _ _ _ _ E4), (contexts_set_chain _ _ _ _ E2). }
    eapply HQ; [eapply (tab_ok_permute s cs i _ (rev rl ++ q2 :: l :: q :: l2)); [done|done| | |done|done|done]|by split].
    + by rewrite (perm_swap l q).
    + cbn. replace (ec_htab s) with (<[i := p]> (ec_htab s)) by by apply list_insert_id.
      eapply table_relink; [done|done|done|by eapply chain_swap|].
      intros x Hx. rewrite !lookup_insert_ne by set_solver. done.
Qed.

(** ** Growing *)

(** A table of [size] chains under construction *)
Record rebuilt (h : gmap loc ExeContext) (size : Z) (new : list ptr) (cs : list (list loc)) : Prop := {
  rb_table : table ec_chain h new cs;
  rb_hashed : ec_hashed (contexts h) size cs;
  rb_length : Z.of_nat (length cs) = size;
  rb_pos : 0 < size
}.

Lemma rebuilt_slot h size new cs tr : rebuilt h size new cs ->
  exists i p ls, calc_hash tr size = Z.of_nat i /\ new !! i = Some p /\ cs !! i = Some ls.
Proof.
  intros [Ht Hh Hl Hp]. pose proof (Z.mod_pos_bound (hash_loop tr 0) size Hp) as Hm.
  destruct (table_lookup ec_chain h new cs (Z.to_nat (calc_hash tr size))) as (p & ls & Ep & El & _);
    [done|erewrite Forall2_length by exact Ht; unfold calc_hash; lia|].
  eexists _, p, ls. split; [|done]. unfold calc_hash in *. lia.
Qed.

Lemma ec_hashed_push c size cs i ls l u ep tr : ec_hashed c size cs -> cs !! i = Some ls ->
  c !! l = Some (u, ep, tr) -> Z.to_nat (calc_hash tr size) = i -> ec_hashed c size (<[i := l :: ls]> cs).
Proof.
  intros Hh Ei Hc Hk j ks l' u' ep' tr' Ej Hl Hc'.
  apply list_lookup_insert_Some in Ej as [(-> & <- & _)|[_ Ej]]; [|by apply (Hh j ks l' u' ep')].
  apply elem_of_cons in Hl as [->|Hl]; [by simplify_eq|]. by apply (Hh j ls l' u' ep').
Qed.

Lemma rebuilt_push h size new cs l e i p ls : rebuilt h size new cs -> h !! l = Some e ->
  l ∉ concat cs -> calc_hash (ips e) size = Z.of_nat i -> new !! i = Some p -> cs !! i = Some ls ->
  rebuilt (<[l := set_chain p e]> h) size (<[i := Some l]> new) (<[i := l :: ls]> cs).
Proof.
  intros [Ht Hh Hl Hp] E Hn Hi Ep Ei. split; [by eapply table_push| |by rewrite length_insert|done].
  rewrite contexts_set_chain by done.
  eapply ec_hashed_push; [done|done|by apply contexts_lookup|]. by rewrite Hi, Nat2Z.id.
Qed.

(** What relinking the contexts [ls] keeps *)
Definition relinked (ls : list loc) (h h' : gmap loc ExeContext) : Prop :=
  contexts h' = contexts h /\ forall l, l ∉ ls -> h' !! l = h !! l.

Lemma relinked_trans ls1 ls2 h1 h2 h3 : relinked ls1 h1 h2 -> relinked ls2 h2 h3 -> relinked (ls1 ++ ls2) h1 h3.
Proof.
  intros [P1 M1] [P2 M2]. split; [congruence|]. intros l [H1 H2]%not_elem_of_app. by rewrite M2, M1.
Qed.

Lemma wp_rehash_chain size ls : forall fuel s p new cs (Q : list ptr -> ec_state -> Prop),
  chain ec_chain (ecs s) p ls -> rebuilt (ecs s) size new cs -> NoDup (ls ++ concat cs) ->
  (length ls < fuel)%nat ->
  (forall new' cs' h', rebuilt h' size new' cs' -> concat cs' ≡ₚ ls ++ concat cs ->
     relinked ls (ecs s) h' -> Q new' (set_ecs h' s)) ->
  wp (rehash_chain fuel p size new) s Q.
Proof.
  induction ls as [|l ls IH]; intros [|fuel] s p new cs Q Hc Hb Hnd Hf HQ; [cbn in Hf; lia| |cbn in Hf; lia|];
    cbn [rehash_chain].
  { cbn in Hc. subst p. apply wp_ret. replace s with (set_ecs (ecs s) s) by by destruct s.
    by apply (HQ new cs). }
  destruct Hc as (-> & e & E & Hc). cbn in Hnd. apply NoDup_cons in Hnd as [Hl Hnd].
  apply not_elem_of_app in Hl as [Hl1 Hl2].
  destruct (rebuilt_slot _ _ _ _ (ips e) Hb) as (i & q & ks & Hi & Eq & Ek).
  apply wp_bind. eapply wp_eload; [done|]. apply wp_bind, wp_ec_assert.
  { apply Z.ltb_lt. apply Z.mod_pos_bound, Hb. }
  rewrite Hi, Nat2Z.id. apply wp_bind. eapply wp_tab_get; [done|].
  apply wp_bind. eapply wp_estore; [done|]. pose proof (concat_push cs i ks l Ek) as Hperm.
  eapply (IH _ _ _ _ (<[i := l :: ks]> cs)); [by apply chain_insert|by eapply rebuilt_push| |cbn in Hf; lia|].
  { rewrite Hperm, <- Permutation_middle. apply NoDup_cons. split; [|done]. by apply not_elem_of_app. }
  intros new' cs' h' Hb' Hp' [Hm1 Hm2]. apply (HQ new' cs' h'); [done| |split].
  - rewrite Hp', Hperm. by rewrite <- Permutation_middle.
  - rewrite Hm1. by apply contexts_set_chain.
  - intros l' Hl'. apply not_elem_of_cons in Hl' as [Hne Hl']. rewrite Hm2 by done. cbn.
    by apply lookup_insert_ne.
Qed.

Lemma wp_rehash size olds : forall s i new cs (Q : list ptr -> ec_state -> Prop),
  table ec_chain (ecs s) (drop i (ec_htab s)) olds -> rebuilt (ecs s) size new cs ->
  NoDup (concat olds ++ concat cs) ->
  (forall new' cs' h', rebuilt h' size new' cs' -> concat cs' ≡ₚ concat olds ++ concat cs ->
     relinked (concat olds) (ecs s) h' -> Q new' (set_ecs h' s)) ->
  wp (rehash (length olds) (Z.of_nat i) size new) s Q.
Proof.
  induction olds as [|ls olds IH]; intros s i new cs Q Ht Hb Hnd HQ; cbn [length rehash].
  { apply wp_ret. replace s with (set_ecs (ecs s) s) by by destruct s. by apply (HQ new cs). }
  inversion Ht as [|p ? hs ? Hc Ht' Ed]; subst. cbn in Hnd. rewrite <- app_assoc in Hnd.
  assert (ec_htab s !! i = Some p) as Ep.
  { pose proof (lookup_drop (ec_htab s) i 0) as Hd. rewrite <- Ed, Nat.add_0_r in Hd. by symmetry. }
  rewrite (drop_S _ _ _ Ep) in Ed. injection Ed as ->.
  apply wp_bind. eapply wp_htab_get; [done|]. apply wp_bind, wp_gets, wp_bind.
  eapply wp_rehash_chain; [done|done| |by eapply ec_chain_fuel|].
  { rewrite (Permutation_app_comm (concat olds)), app_assoc in Hnd. by apply NoDup_app in Hnd as [? _]. }
  intros new1 cs1 h1 Hb1 Hp1 Hm1. replace (Z.of_nat i + 1) with (Z.of_nat (S i)) by lia.
  apply NoDup_app in Hnd as (Hnd1 & Hd & Hnd2).
  apply (IH _ _ _ cs1); [|done| |].
  - cbn. eapply table_ext; [|exact Ht']. intros l e Hl E. exists e. split; [|done].
    destruct Hm1 as [_ ->]; [done|]. intros Hin. apply (Hd l Hin). set_solver.
  - rewrite Hp1, app_assoc, (Permutation_app_comm (concat olds)), <- app_assoc. apply NoDup_app. done.
  - intros new' cs' h' Hb' Hp' Hm'. apply (HQ new' cs' h'); [done| |].
    + rewrite Hp', Hp1. cbn. rewrite !app_assoc. by rewrite (Permutation_app_comm (concat olds) ls).
    + by eapply relinked_trans.
Qed.

Lemma rebuilt_empty h size : 0 < size ->
  rebuilt h size (replicate (Z.to_nat size) None) (replicate (Z.to_nat size) []).
Proof.
  intros Hp. split; [by apply Forall2_replicate| |rewrite length_replicate; lia|done].
  intros i ls l u ep tr [-> _]%lookup_replicate Hl. by apply not_elem_of_nil in Hl.
Qed.

Lemma wp_resize_ec_htab s cs (Q : unit -> ec_state -> Prop) : tab_ok s cs ->
  (forall s' cs', tab_ok s' cs' -> same_contexts s s' -> Q tt s') -> wp resize_ec_htab s Q.
Proof.
  intros Ht HQ. destruct (ec_primes_range _ _ (tb_prime _ _ Ht)) as [Hr Hi]. unfold resize_ec_htab.
  apply wp_bind, wp_gets, wp_bind, wp_ec_assert; [by apply Nat.ltb_lt|].
  destruct (Nat.eqb_spec (ec_htab_size_idx s) (N_EC_PRIMES - 1)) as [|Hne]; [apply wp_ret; by apply (HQ s cs)|].
  destruct (lookup_lt_is_Some_2 ec_primes (ec_htab_size_idx s + 1)) as (size & Es).
  { change (length ec_primes) with 18%nat. unfold N_EC_PRIMES in *. lia. }
  pose proof (ec_primes_range _ _ Es) as [Hs _].
  rewrite (nth_lookup_Some _ _ _ _ Es). apply wp_bind, wp_gets, wp_bind.
  replace (Z.to_nat (ec_htab_size s)) with (length cs) by (rewrite <- (tb_length _ _ Ht); lia).
  apply (wp_rehash size cs s 0 _ (replicate (Z.to_nat size) [])); [apply Ht|by apply rebuilt_empty; lia| |].
  { rewrite concat_replicate_nil, app_nil_r. apply Ht. }
  intros new cs' h' [R1 R2 R3 _] Hp [Hc _]. rewrite concat_replicate_nil, app_nil_r in Hp.
  apply wp_modify. eapply (HQ _ cs'); [|by split].
  split; [done|rewrite Hp; apply Ht| |done|done|done]. intros l e E. rewrite Hp. cbn in E.
  apply contexts_lookup in E. rewrite Hc in E. apply contexts_inv in E as (e' & E & _).
  by eapply (tb_all _ _ Ht).
Qed.

(** ** Recording a trace *)

(** Recording the trace [tr] gave the context [r]: an old one, or a new one
    with the next serial number. *)
Definition recorded (tr : list Z) (s : ec_state) (r : loc) (s' : ec_state) : Prop :=
  (exists u, contexts (ecs s') !! r = Some (u, 0, tr)) /\
  statics s' = statics s /\
  ((contexts (ecs s') = contexts (ecs s) /\ ec_next_ecu s' = ec_next_ecu s) \/
   (contexts (ecs s) !! r = None /\ ec_next_ecu s' = ec_next_ecu s + 4 /\
    contexts (ecs s') = <[r := (ec_next_ecu s, 0, tr)]> (contexts (ecs s)))).

(** A new context at the head of its chain *)
Lemma tab_ok_alloc s cs i p ls r tr s' u : tab_ok s cs -> ecs s !! r = None ->
  calc_hash tr (ec_htab_size s) = Z.of_nat i -> ec_htab s !! i = Some p -> cs !! i = Some ls ->
  ecs s' = <[r := mk_ec p u 0 tr]> (ecs s) -> ec_htab s' = <[i := Some r]> (ec_htab s) ->
  ec_htab_size s' = ec_htab_size s -> ec_htab_size_idx s' = ec_htab_size_idx s ->
  contexts (ecs s') = <[r := (u, 0, tr)]> (contexts (ecs s)) /\ tab_ok s' (<[i := r :: ls]> cs).
Proof.
  intros Ht Hr Hi Ep Ei E1 E2 E3 E4. pose proof Ht as [T1 T2 T3 T4 T5 T6].
  assert (r ∉ concat cs) as Hnew.
  { intros (j & ks & Ej & Hin)%table_elem.
    destruct (table_lookup ec_chain (ecs s) (ec_htab s) cs j) as (q & ks' & Eq & Ek & Hq); [done| |].
    { erewrite Forall2_length by exact T1. by eapply lookup_lt_Some. }
    rewrite Ej in Ek. injection Ek as <-. destruct (chain_lookup _ _ _ _ _ Hq Hin). congruence. }
  assert (contexts (ecs s') = <[r := (u, 0, tr)]> (contexts (ecs s))) as Hcx.
  { rewrite E1. unfold contexts. by rewrite fmap_insert. }
  split; [done|]. pose proof (concat_push cs i ls r Ei) as Hperm. split.
  - rewrite E1, E2. by eapply table_push.
  - rewrite Hperm. by apply NoDup_cons.
  - intros l e. rewrite E1, Hperm, elem_of_cons. intros [[<- _]|[_ E]]%lookup_insert_Some; [by left|].
    right. by eapply T3.
  - by rewrite length_insert, E3.
  - by rewrite E3, E4.
  - rewrite Hcx, E3. eapply ec_hashed_push; [|done|apply lookup_insert_eq|by rewrite Hi, Nat2Z.id].
    intros j ks l u' ep' tr' Ej Hl E. apply lookup_insert_Some in E as [[<- _]|[_ E]].
    + exfalso. apply Hnew. by eapply elem_of_table.
    + by apply (T6 j ks l u' ep').
Qed.

Lemma wp_record_wrk2 s cs tr (Q : loc -> ec_state -> Prop) : ec_ok s cs -> tr <> [] ->
  Z.of_nat (length tr) <= clo_backtrace_size s -> ec_next_ecu s + 4 < 2 ^ 32 ->
  (forall r s' cs', ec_ok s' cs' -> recorded tr s r s' -> Q r s') ->
  wp (record_ExeContext_wrk2 tr) s Q.
Proof.
  intros [Ht Hctx] Htr Hlen Hlt HQ. pose proof (tab_pos _ _ Ht) as Hpos.
  unfold record_ExeContext_wrk2.
  apply wp_bind, wp_gets, wp_bind, wp_ec_assert.
  { apply andb_true_iff. split; apply Z.leb_le; [|done]. destruct tr; [done|cbn; lia]. }
  apply wp_bind, wp_gets, wp_bind, wp_ec_assert; [by apply Z.ltb_lt|].
  destruct (tab_slot s cs tr Ht) as (i & p & ls & Hi & Ep & Ei & Hc). rewrite Hi.
  apply wp_bind, wp_modify. set (s1 := set_search _ _ _ s). assert (same_store s s1) as Hs1 by done.
  apply wp_bind. eapply wp_htab_get; [done|]. apply wp_bind, wp_gets, wp_bind.
  apply (wp_search_chain _ tr s1 p ls []); [done|by eapply ec_chain_fuel| |].
  - intros s2 rl l l2 e Hs2 El E Hctxe. apply is_context_spec in Hctxe as [Hep Hips].
    apply wp_bind, wp_gets, wp_bind, wp_modify. set (s3 := set_ctr _ s2).
    assert (same_store s s3) as Hs3 by (eapply same_store_trans; [exact Hs1|]; eapply same_store_trans; [exact Hs2|done]).
    pose proof (tab_ok_same _ _ _ Hs3 Ht) as Ht3.
    assert (exists u, contexts (ecs s) !! l = Some (u, 0, tr)) as [u Hu].
    { exists (ecu e). rewrite <- Hep, <- Hips. by apply contexts_lookup. }
    apply wp_bind. destruct (Z.land (ec_ctr s2) 7 =? 0).
    + eapply (wp_move_up s3 cs i ls rl); [done|done|exact El|]. intros s4 cs4 Ht4 (C1 & C2 & C3).
      apply wp_ret. destruct Hs3 as (E1 & _ & _ & _ & E5 & E6). rewrite E1 in C1.
      eapply (HQ _ _ cs4); [split; [done|]|split; [exists u; congruence|]].
      * rewrite C1, C2, E5. exact Hctx.
      * split; [congruence|]. left. split; congruence.
    + apply wp_ret. apply wp_ret. destruct Hs3 as (E1 & E2 & E3 & E4 & E5 & E6).
      eapply (HQ _ _ cs); [split; [done|by rewrite E1, E5]|split; [exists u; by rewrite E1|]].
      split; [done|]. left. by rewrite E1, E5.
  - intros s2 p2 p1 Hs2 Hno. apply wp_bind, wp_modify. set (s3 := set_search _ _ _ s2).
    assert (same_store s s3) as Hs3 by (eapply same_store_trans; [exact Hs1|]; eapply same_store_trans; [exact Hs2|done]).
    destruct Hs3 as (E1 & E2 & E3 & E4 & E5 & E6). destruct (ctx_next _ _ Hctx) as [Hn1 Hn2].
    apply wp_bind, wp_gets, wp_bind, wp_ec_assert; [rewrite E5; by apply plausible_4; [lia|]|].
    assert (u32 (ec_next_ecu s3 + 4) = ec_next_ecu s + 4) as Eu.
    { rewrite E5. unfold u32. rewrite Z.mod_small; lia. }
    apply wp_bind, wp_modify. rewrite Eu. apply wp_bind, wp_gets. cbn [ec_next_ecu set_next_ecu].
    apply wp_bind. destruct (Z.eqb_spec (ec_next_ecu s + 4) 0); [lia|]. apply wp_ret.
    apply wp_bind. unfold wp at 1, perm_malloc. cbn [ecs set_next_ecu].
    set (r := fresh (dom (ecs s3))). set (s4 := set_ecs _ _).
    assert (ecs s !! r = None) as Hr.
    { rewrite <- E1. apply not_elem_of_dom. apply is_fresh. }
    apply wp_bind. eapply wp_htab_set; [exact (eq_trans (f_equal (.!! i) E2) Ep)|].
    match goal with |- wp _ ?t _ => set (s5 := t) end.
    destruct (tab_ok_alloc s cs i p ls r tr s5 (ec_next_ecu s)) as [Hcx Ht5]; try done.
    { transitivity (<[r := mk_ec p (ec_next_ecu s3) 0 tr]> (ecs s3)); [done|by rewrite E1, E5]. }
    { transitivity (<[i := Some r]> (ec_htab s3)); [done|by rewrite E2]. }
    assert (ctx_ok (contexts (ecs s5)) (ec_next_ecu s + 4)) as Hctx5.
    { rewrite Hcx. apply ctx_ok_add; [done|done| |done|].
      - unfold contexts. by rewrite lookup_fmap, Hr.
      - intros l u E. destruct (contexts_inv _ _ _ _ _ E) as (e & Ee & _ & He & Htre).
        assert (is_context tr e = true) as Hic by by apply is_context_spec.
        rewrite (Hno l e) in Hic; [done| |done].
        apply (tab_in_chain s cs tr i ls l u 0); done. }
    assert (forall s6 cs6, tab_ok s6 cs6 -> same_contexts s5 s6 -> Q r s6) as Hend.
    { intros s6 cs6 Ht6 (C1 & C2 & C3). apply (HQ r s6 cs6).
      - split; [done|]. rewrite C1, C2. exact Hctx5.
      - split; [|split; [by rewrite C3|right]].
        + exists (ec_next_ecu s). rewrite C1, Hcx. apply lookup_insert_eq.
        + rewrite C1, C2. split; [|by split]. unfold contexts. by rewrite lookup_fmap, Hr. }
    apply wp_bind, wp_gets, wp_bind. unfold id.
    destruct (ec_htab_size s5 <? ec_totstored s5); [|by apply wp_ret, wp_ret, (Hend s5 _ Ht5)].
    destruct (ec_primes_range _ _ (tb_prime _ _ Ht5)) as [_ Hidx].
    apply wp_bind, wp_ec_assert; [by apply Nat.ltb_lt|].
    destruct (ec_htab_size_idx s5 <? N_EC_PRIMES - 1)%nat; [|by apply wp_ret, wp_ret, (Hend s5 _ Ht5)].
    eapply wp_resize_ec_htab; [done|]. intros s6 cs6 Ht6 Hs6. by apply wp_ret, (Hend s6 cs6).
Qed.

(** ** The first call *)

Definition started (s : ec_state) (n : loc) : Prop := init_done s = true /\ null_ec s = Some n.

Lemma ec_ok_set_null s cs p b : ec_ok s cs -> ec_ok (set_null p b s) cs.
Proof. intros [[] ?]. by split; [split|]. Qed.

Lemma tab_ok_empty s size : ecs s = ∅ -> ec_htab s = replicate (Z.to_nat size) None ->
  ec_htab_size s = size -> ec_primes !! ec_htab_size_idx s = Some size ->
  tab_ok s (replicate (Z.to_nat size) []).
Proof.
  intros E1 E2 E3 E4. pose proof (ec_primes_range _ _ E4). split.
  - rewrite E1, E2. by apply Forall2_replicate.
  - rewrite concat_replicate_nil. constructor.
  - intros l e. by rewrite E1, lookup_empty.
  - rewrite length_replicate, E3. lia.
  - by rewrite E3.
  - intros i ls l u ep tr [-> _]%lookup_replicate Hl. by apply not_elem_of_nil in Hl.
Qed.

(** The null context is the first one, and gets number 4. *)
Lemma wp_init_storage bs (Q : unit -> ec_state -> Prop) : 1 <= bs ->
  (forall n s cs, ec_ok s cs -> started s n -> contexts (ecs s) = {[ n := (4, 0, [0]) ]} ->
     ec_next_ecu s = 8 -> clo_backtrace_size s = bs -> Q tt s) ->
  wp init_ExeContext_storage (ec_start bs) Q.
Proof.
  intros Hbs HQ. unfold init_ExeContext_storage.
  apply wp_bind, wp_gets, wp_bind, wp_modify, wp_bind, wp_modify, wp_bind.
  match goal with |- wp _ ?t _ => set (s1 := t) end.
  assert (ec_ok s1 (replicate (Z.to_nat 769) [])) as Hok1.
  { split; [by apply tab_ok_empty|]. by split. }
  eapply (wp_record_wrk2 s1 _ [0]); [done|done|cbn; lia|done|].
  intros r s2 cs2 Hok2 ((u & Hu) & Hst & Hcase).
  destruct Hcase as [[Hc _]|(Hr & Hn & Hc)]; [rewrite Hc in Hu; done|].
  rewrite Hc, lookup_insert_eq in Hu. injection Hu as <-.
  assert (contexts (ecs s2) !! r = Some (4, 0, [0])) as Er by (rewrite Hc; apply lookup_insert_eq).
  destruct (contexts_inv _ _ _ _ _ Er) as (e & Ee & Eu & _).
  apply wp_bind. eapply wp_eload; [done|]. apply wp_bind, wp_ec_assert; [by apply Z.eqb_eq|].
  apply wp_modify. apply (HQ r _ cs2); [by apply ec_ok_set_null|done|exact Hc|exact Hn|].
  by injection Hst.
Qed.

(** Recording a trace when the storage is there *)
Lemma wp_make_from_StackTrace s cs n tr (Q : loc -> ec_state -> Prop) : ec_ok s cs -> started s n ->
  tr <> [] -> Z.of_nat (length tr) <= clo_backtrace_size s -> ec_next_ecu s + 4 < 2 ^ 32 ->
  (forall r s' cs', ec_ok s' cs' -> started s' n -> recorded tr s r s' -> Q r s') ->
  wp (make_ExeContext_from_StackTrace tr) s Q.
Proof.
  intros Hok [Hi Hn] Htr Hlen Hlt HQ. unfold make_ExeContext_from_StackTrace, init_ExeContext_storage.
  apply wp_bind, wp_bind, wp_gets. rewrite Hi. apply wp_ret.
  eapply wp_record_wrk2; [done..|]. intros r s' cs' Hok' Hrec. apply (HQ r s' cs'); [done| |done].
  destruct Hrec as (_ & Hst & _). unfold statics in Hst. injection Hst as _ H1 H2. split; congruence.
Qed.

(** ** Runs *)

Fixpoint record_all (trs : list (list Z)) : M ec_state (list loc) :=
  match trs with
  | [] => ret []
  | tr :: trs => r <- make_ExeContext_from_StackTrace tr ;; rs <- record_all trs ;; ret (r :: rs)
  end.

(** A context that was there stays, with its trace and number. *)
Lemma recorded_mono tr s r s' : recorded tr s r s' -> contexts (ecs s) ⊆ contexts (ecs s').
Proof.
  intros (_ & _ & [[-> _]|(Hr & _ & ->)]); [done|]. by apply insert_subseteq.
Qed.

Lemma wp_record_all trs : forall s cs n (Q : list loc -> ec_state -> Prop), ec_ok s cs -> started s n ->
  Forall (fun tr => tr <> [] /\ Z.of_nat (length tr) <= clo_backtrace_size s) trs ->
  ec_next_ecu s + 4 * Z.of_nat (length trs) < 2 ^ 32 ->
  (forall rs s' cs', ec_ok s' cs' -> started s' n -> contexts (ecs s) ⊆ contexts (ecs s') ->
     Forall2 (fun tr r => exists u, contexts (ecs s') !! r = Some (u, 0, tr)) trs rs ->
     statics s' = statics s -> ec_next_ecu s' <= ec_next_ecu s + 4 * Z.of_nat (length trs) -> Q rs s') ->
  wp (record_all trs) s Q.
Proof.
  induction trs as [|tr trs IH]; intros s cs n Q Hok Hst Hv Hlt HQ; cbn [record_all].
  { apply wp_ret. apply (HQ [] s cs); try done. lia. }
  apply Forall_cons in Hv as [[Htr Hlen] Hv]. cbn [length] in Hlt.
  apply wp_bind. eapply wp_make_from_StackTrace; [done|done|done|done|lia|].
  intros r s1 cs1 Hok1 Hst1 Hrec. pose proof (recorded_mono _ _ _ _ Hrec) as Hsub1.
  destruct Hrec as ((u & Hu) & Hstat & Hnext).
  apply wp_bind. eapply IH; [done|done| | |].
  - unfold statics in Hstat. injection Hstat as -> _ _. done.
  - destruct Hnext as [[_ ->]|(_ & -> & _)]; lia.
  - intros rs s2 cs2 Hok2 Hst2 Hsub2 Hall Hstat2 Hn2. apply wp_ret.
    apply (HQ (r :: rs) s2 cs2); [done|done| | |congruence|].
    + by transitivity (contexts (ecs s1)).
    + constructor; [|done]. exists u. by eapply lookup_weaken.
    + cbn [length]. destruct Hnext as [[_ Hn1]|(_ & Hn1 & _)]; lia.
Qed.

(** ** Lookup by number *)

Lemma wp_ecu_chain fuel u : forall s p ls (Q : ptr -> ec_state -> Prop), chain ec_chain (ecs s) p ls ->
  (length ls < fuel)%nat ->
  (forall l e, l ∈ ls -> ecs s !! l = Some e -> ecu e = u -> Q (Some l) s) ->
  ((forall l e, l ∈ ls -> ecs s !! l = Some e -> ecu e <> u) -> Q None s) -> wp (ecu_chain fuel u p) s Q.
Proof.
  induction fuel as [|fuel IH]; intros s p ls Q Hc Hf H1 H2; [lia|]. cbn [ecu_chain]. destruct p as [l|].
  2:{ apply chain_nil in Hc as ->. apply wp_ret, H2. intros l e Hl. by apply not_elem_of_nil in Hl. }
  apply chain_some in Hc as (e & ls' & -> & E & Hc). cbn in Hf. apply wp_bind. eapply wp_eload; [done|].
  destruct (Z.eqb_spec (ecu e) u) as [Eu|Eu]; [apply wp_ret; apply (H1 l e); [set_solver|done|done]|].
  apply (IH s _ ls'); [done|lia| |].
  - intros l' e' Hl'. apply H1. set_solver.
  - intros Hn. apply H2. intros l' e' [->|Hl']%elem_of_cons E'; [congruence|by apply (Hn l')].
Qed.

Lemma wp_ecu_chains u css : forall s i (Q : ptr -> ec_state -> Prop),
  table ec_chain (ecs s) (drop i (ec_htab s)) css ->
  (forall l e, l ∈ concat css -> ecs s !! l = Some e -> ecu e = u -> Q (Some l) s) ->
  ((forall l e, l ∈ concat css -> ecs s !! l = Some e -> ecu e <> u) -> Q None s) ->
  wp (ecu_chains (length css) (Z.of_nat i) u) s Q.
Proof.
  induction css as [|ls css IH]; intros s i Q Ht H1 H2; cbn [length ecu_chains].
  { apply wp_ret, H2. intros l e Hl. by apply not_elem_of_nil in Hl. }
  inversion Ht as [|p ? hs ? Hc Ht' Ed]; subst.
  assert (ec_htab s !! i = Some p) as Ep.
  { pose proof (lookup_drop (ec_htab s) i 0) as Hd. rewrite <- Ed, Nat.add_0_r in Hd. by symmetry. }
  rewrite (drop_S _ _ _ Ep) in Ed. injection Ed as ->. cbn in H1, H2.
  apply wp_bind. eapply wp_htab_get; [done|]. apply wp_bind, wp_gets, wp_bind.
  eapply wp_ecu_chain; [done|by eapply ec_chain_fuel| |].
  - intros l e Hl E Eu. apply wp_ret. apply (H1 l e); [set_solver|done|done].
  - intros Hn. replace (Z.of_nat i + 1) with (Z.of_nat (S i)) by lia. apply IH; [done| |].
    + intros l e Hl. apply H1. set_solver.
    + intros Hn'. apply H2. intros l e [Hl|Hl]%elem_of_app; [by apply Hn|by apply Hn'].
Qed.

(** The context with a number, or NULL when there is none *)
Lemma wp_get_ExeContext_from_ECU s cs u (Q : ptr -> ec_state -> Prop) : ec_ok s cs ->
  is_plausible_ECU u = true ->
  (forall l ep tr, contexts (ecs s) !! l = Some (u, ep, tr) -> Q (Some l) s) ->
  ((forall l ep tr, contexts (ecs s) !! l <> Some (u, ep, tr)) -> Q None s) ->
  wp (get_ExeContext_from_ECU u) s Q.
Proof.
  intros [Ht Hctx] Hu H1 H2. pose proof (tab_pos _ _ Ht). unfold get_ExeContext_from_ECU.
  apply wp_bind, wp_ec_assert; [done|]. apply wp_bind, wp_gets, wp_bind, wp_ec_assert; [by apply Z.ltb_lt|].
  replace (Z.to_nat (ec_htab_size s)) with (length cs) by (rewrite <- (tb_length _ _ Ht); lia).
  apply (wp_ecu_chains u cs s 0); [apply Ht| |].
  - intros l e _ E <-. eapply H1. by apply contexts_lookup.
  - intros Hn. apply H2. intros l ep tr E. destruct (contexts_inv _ _ _ _ _ E) as (e & Ee & Eu & _).
    apply (Hn l e); [by eapply (tb_all _ _ Ht)|done|done].
Qed.

(** ** Archiving *)

Section Archive.
Context (last_epoch text_avma len : Z).

Definition archived (e : ExeContext) : ExeContext :=
  if is_DiEpoch_INVALID (epoch e) && in_text text_avma len (ips e) then set_epoch last_epoch e else e.

Lemma archived_chain e : ec_chain (archived e) = ec_chain e.
Proof. unfold archived. by destruct (_ && _). Qed.

(** The contexts [ls] are archived. *)
Definition archive_part (ls : list loc) (h h' : gmap loc ExeContext) : Prop :=
  forall l, h' !! l = if decide (l ∈ ls) then archived <$> h !! l else h !! l.

Lemma archive_part_ext ls h h' l e : archive_part ls h h' -> h !! l = Some e ->
  exists e', h' !! l = Some e' /\ ec_chain e' = ec_chain e.
Proof.
  intros Ha E. rewrite (Ha l), E. destruct (decide (l ∈ ls)); [|by exists e].
  exists (archived e). split; [done|apply archived_chain].
Qed.

Lemma archive_part_nil h : archive_part [] h h.
Proof. intros l. by rewrite decide_False by apply not_elem_of_nil. Qed.

Lemma archive_part_app ls1 ls2 h1 h2 h3 : (forall l, l ∈ ls1 -> l ∉ ls2) -> archive_part ls1 h1 h2 ->
  archive_part ls2 h2 h3 -> archive_part (ls1 ++ ls2) h1 h3.
Proof.
  intros Hd A1 A2 l. rewrite (A2 l), (A1 l).
  destruct (decide (l ∈ ls1)) as [H1|H1], (decide (l ∈ ls2)) as [H2|H2].
  - by apply Hd in H2.
  - rewrite decide_True; [done|set_solver].
  - rewrite decide_True; [done|set_solver].
  - rewrite decide_False; [done|set_solver].
Qed.

Lemma wp_archive_chain ls : forall fuel s p (Q : unit -> ec_state -> Prop), chain ec_chain (ecs s) p ls ->
  (length ls < fuel)%nat ->
  (forall h', archive_part ls (ecs s) h' -> Q tt (set_ecs h' s)) ->
  wp (archive_chain fuel last_epoch text_avma len p) s Q.
Proof.
  induction ls as [|l ls IH]; intros [|fuel] s p Q Hc Hf HQ; [cbn in Hf; lia| |cbn in Hf; lia|];
    cbn [archive_chain].
  - cbn in Hc. subst p. apply wp_ret. replace s with (set_ecs (ecs s) s) by by destruct s.
    apply HQ, archive_part_nil.
  - pose proof (chain_NoDup _ _ _ _ Hc) as [Hl _]%NoDup_cons. destruct Hc as (-> & e & E & Hc).
    apply wp_bind. eapply wp_eload; [done|]. apply wp_bind.
    assert (archive_part [l] (ecs s) (<[l := archived e]> (ecs s))) as Ha.
    { intros l'. destruct (decide (l' ∈ [l])) as [->%list_elem_of_singleton|Hne].
      - by rewrite lookup_insert_eq, E.
      - rewrite lookup_insert_ne; [done|set_solver]. }
    assert (wp (archive_chain fuel last_epoch text_avma len (ec_chain e))
      (set_ecs (<[l := archived e]> (ecs s)) s) Q) as Hrest.
    { apply IH; [|cbn in Hf; lia|].
      - by apply chain_insert.
      - intros h' Ha'. apply (HQ h'). eapply (archive_part_app [l] ls); [set_solver|exact Ha|exact Ha']. }
    unfold archived in Hrest. destruct (is_DiEpoch_INVALID (epoch e) && in_text text_avma len (ips e)).
    + eapply wp_estore; [done|]. exact Hrest.
    + apply wp_ret. rewrite insert_id in Hrest by done. by destruct s.
Qed.

Lemma wp_archive_chains css : forall s i (Q : unit -> ec_state -> Prop),
  table ec_chain (ecs s) (drop i (ec_htab s)) css -> NoDup (concat css) ->
  (forall h', archive_part (concat css) (ecs s) h' -> Q tt (set_ecs h' s)) ->
  wp (archive_chains (length css) (Z.of_nat i) last_epoch text_avma len) s Q.
Proof.
  induction css as [|ls css IH]; intros s i Q Ht Hnd HQ; cbn [length archive_chains].
  { apply wp_ret. replace s with (set_ecs (ecs s) s) by by destruct s. apply HQ, archive_part_nil. }
  inversion Ht as [|p ? hs ? Hc Ht' Ed]; subst.
  assert (ec_htab s !! i = Some p) as Ep.
  { pose proof (lookup_drop (ec_htab s) i 0) as Hd. rewrite <- Ed, Nat.add_0_r in Hd. by symmetry. }
  rewrite (drop_S _ _ _ Ep) in Ed. injection Ed as ->. cbn in Hnd. apply NoDup_app in Hnd as (_ & Hd & Hnd).
  apply wp_bind. eapply wp_htab_get; [done|]. apply wp_bind, wp_gets, wp_bind.
  eapply wp_archive_chain; [done|by eapply ec_chain_fuel|]. intros h1 Ha1.
  replace (Z.of_nat i + 1) with (Z.of_nat (S i)) by lia. apply IH; [|done|].
  - cbn. eapply table_ext; [|exact Ht']. intros l e _ E. by eapply archive_part_ext.
  - intros h' Ha. apply (HQ h'). by eapply archive_part_app.
Qed.

(** What archiving does to a context's epoch *)
Definition archived_ctx (c : Z * Z * list Z) : Z * Z * list Z :=
  let '(u, ep, tr) := c in
  (u, if (ep =? 0) && in_text text_avma len tr then last_epoch else ep, tr).

Lemma wp_archive s cs (Q : unit -> ec_state -> Prop) : ec_ok s cs -> last_epoch <> 0 ->
  (forall s', ec_ok s' cs -> contexts (ecs s') = archived_ctx <$> contexts (ecs s) ->
     statics s' = statics s -> ec_next_ecu s' = ec_next_ecu s -> Q tt s') ->
  wp (archive_ExeContext_in_range last_epoch text_avma len) s Q.
Proof.
  intros [Ht Hctx] Hep HQ. pose proof Ht as [T1 T2 T3 T4 T5 T6]. unfold archive_ExeContext_in_range.
  apply wp_bind, wp_gets. replace (Z.to_nat (ec_htab_size s)) with (length cs) by (rewrite <- T4; lia).
  apply (wp_archive_chains cs s 0); [done|done|]. intros h' Ha.
  assert (h' = archived <$> ecs s) as Eh.
  { apply map_eq. intros l. rewrite (Ha l), lookup_fmap. destruct (decide (l ∈ concat cs)) as [|Hn]; [done|].
    destruct (ecs s !! l) eqn:E; [|done]. by apply T3 in E. }
  assert (contexts h' = archived_ctx <$> contexts (ecs s)) as Hcx.
  { rewrite Eh. unfold contexts. rewrite <- !map_fmap_compose. apply map_fmap_ext.
    intros l e _. unfold archived, archived_ctx, is_DiEpoch_INVALID. cbn. by destruct (_ && _). }
  apply HQ; [split; [split; try done|]|exact Hcx|done|done]; change (ecs (set_ecs h' s)) with h'.
  - eapply table_ext; [|exact T1]. intros l e _ E. by eapply archive_part_ext.
  - intros l e E. rewrite Eh, lookup_fmap_Some in E. destruct E as (e0 & _ & E). by eapply T3.
  - rewrite Hcx. intros i ls l u ep tr Ei Hl. rewrite lookup_fmap_Some.
    intros ([[u0 ep0] tr0] & [= <- _ <-] & E). by eapply T6.
  - rewrite Hcx. destruct Hctx as [C1 C2 C3 C4 C5].
    assert (forall l u ep tr, (archived_ctx <$> contexts (ecs s)) !! l = Some (u, ep, tr) ->
      exists ep0, contexts (ecs s) !! l = Some (u, ep0, tr) /\ (ep = 0 -> ep0 = 0)) as Hold.
    { intros l u ep tr. rewrite lookup_fmap_Some. intros ([[u0 ep0] tr0] & [= <- Ee <-] & E).
      exists ep0. split; [done|]. intros ->. destruct (Z.eqb_spec ep0 0); [done|]. cbn in Ee. done. }
    split; [| | | |done].
    + intros l1 l2 u1 u2 tr E1%Hold E2%Hold. destruct E1 as (e1 & E1 & H1), E2 as (e2 & E2 & H2).
      rewrite (H1 eq_refl) in E1. rewrite (H2 eq_refl) in E2. by eapply C1.
    + intros l u ep tr (e1 & E1 & _)%Hold. by eapply C2.
    + intros l1 l2 u ep1 ep2 tr1 tr2 (e1 & E1 & _)%Hold (e2 & E2 & _)%Hold. by eapply C3.
    + intros l u ep tr (e1 & E1 & _)%Hold. by eapply C4.
Qed.
End Archive.

(** ** Comparison *)

Lemma eq_top_spec n : forall i e1 e2, (i <= length (ips e1))%nat -> (i <= length (ips e2))%nat ->
  eq_top n i e1 e2 = true <->
  take n (drop i (ips e1)) = take n (drop i (ips e2)) /\
  ((length (ips e1) < i + n)%nat \/ epoch e1 = epoch e2).
Proof.
  induction n as [|n IH]; intros i e1 e2 H1 H2; cbn [eq_top].
  { rewrite !take_0, Z.eqb_eq. split; [by auto|]. intros [_ [|]]; [lia|done]. }
  unfold n_ips. destruct (Z.leb_spec (Z.of_nat (length (ips e1))) (Z.of_nat i)) as [L1|L1],
    (Z.leb_spec (Z.of_nat (length (ips e2))) (Z.of_nat i)) as [L2|L2]; cbn [andb negb].
  - rewrite !drop_ge by lia. split; [|done]. intros _. split; [done|left; lia].
  - rewrite (drop_ge (ips e1)) by lia. destruct (lookup_lt_is_Some_2 (ips e2) i) as (y & E2); [lia|].
    rewrite (drop_S _ _ _ E2). split; [done|by intros [? _]].
  - rewrite (drop_ge (ips e2)) by lia. destruct (lookup_lt_is_Some_2 (ips e1) i) as (x & E1); [lia|].
    rewrite (drop_S _ _ _ E1). split; [done|by intros [? _]].
  - destruct (lookup_lt_is_Some_2 (ips e1) i) as (x & E1); [lia|].
    destruct (lookup_lt_is_Some_2 (ips e2) i) as (y & E2); [lia|].
    rewrite E1, E2, (drop_S _ _ _ E1), (drop_S _ _ _ E2). cbn [take].
    destruct (Z.eqb_spec x y) as [->|Hne]; cbn [negb].
    + rewrite IH by lia. rewrite Nat.add_succ_comm. split; intros [Ht He]; (split; [congruence|done]).
    + split; [done|]. intros [[= Hxy _] _]. done.
Qed.
