(* ===== verification/OSet.v ===== *)
(** Ordered sets, [coregrind/m_oset.c]: AVL trees of nodes that hold an
    element each, with an explicit stack for iteration.  The nodes and the
    structure of the set are one state.  A cell that the source passes by
    address ([AvlNode** root], the [root] of a tree on the stack) is passed by
    value and its new value is returned. *)
From stdpp Require Import base gmap list.
From Stdlib Require Import ZArith Lia.
From S2P Require Import Prelude Printf Chains.
Open Scope prog_scope.
Open Scope Z_scope.

(** ** Elements *)

(** What the set reads of keys and elements: the key at the set's offset in
    an element, the first word of either, and a fresh element of some size
    that is all zero bytes. *)
Class OSetElem (K E : Type) := {
  key_of : E -> K;
  kword : K -> Z;
  eword : E -> Z;
  zero_elem : Z -> E
}.

(** The pool that a set may take its nodes from: [np_release] gives the number
    of references left, and [in_pool] says which nodes are in its memory. *)
Class NodePool (P : Type) := {
  np_alloc : P -> option (loc * P);
  np_free : P -> loc -> option P;
  np_addref : P -> P;
  np_release : P -> option (Z * P);
  in_pool : P -> loc -> bool
}.

(** The value of a [Char] expression *)
Definition i8 (x : Z) : Z := (x + 128) mod 256 - 128.

Definition STACK_MAX : nat := 32.
Definition OSET_MAGIC : Z := 23327.

Section OSet.
Context {K E P : Type} `{OSetElem K E} `{NodePool P}.

Record AvlNode := mk_avl { aleft : ptr; aright : ptr; balance : Z; magic : Z; elem : E }.

Definition set_left (p : ptr) (n : AvlNode) : AvlNode := mk_avl p (aright n) (balance n) (magic n) (elem n).
Definition set_right (p : ptr) (n : AvlNode) : AvlNode := mk_avl (aleft n) p (balance n) (magic n) (elem n).
Definition set_balance (b : Z) (n : AvlNode) : AvlNode := mk_avl (aleft n) (aright n) b (magic n) (elem n).
Definition set_elem (e : E) (n : AvlNode) : AvlNode := mk_avl (aleft n) (aright n) (balance n) (magic n) e.

Record OSet := mk_oset {
  onodes : gmap loc AvlNode;
  ocmp : option (K -> E -> Z);
  node_pa : option P;
  maxEltSize : Z;
  nElems : Z;
  oroot : ptr;
  nodeStack : list ptr;
  numStack : list Z;
  stackTop : nat
}.

Definition set_onodes (h : gmap loc AvlNode) (t : OSet) : OSet :=
  mk_oset h (ocmp t) (node_pa t) (maxEltSize t) (nElems t) (oroot t) (nodeStack t) (numStack t) (stackTop t).
Definition set_ocmp (c : option (K -> E -> Z)) (t : OSet) : OSet :=
  mk_oset (onodes t) c (node_pa t) (maxEltSize t) (nElems t) (oroot t) (nodeStack t) (numStack t) (stackTop t).
Definition set_pool (p : option P) (t : OSet) : OSet :=
  mk_oset (onodes t) (ocmp t) p (maxEltSize t) (nElems t) (oroot t) (nodeStack t) (numStack t) (stackTop t).
Definition set_nElems (n : Z) (t : OSet) : OSet :=
  mk_oset (onodes t) (ocmp t) (node_pa t) (maxEltSize t) n (oroot t) (nodeStack t) (numStack t) (stackTop t).
Definition set_oroot (r : ptr) (t : OSet) : OSet :=
  mk_oset (onodes t) (ocmp t) (node_pa t) (maxEltSize t) (nElems t) r (nodeStack t) (numStack t) (stackTop t).
Definition set_stack (ns : list ptr) (nums : list Z) (top : nat) (t : OSet) : OSet :=
  mk_oset (onodes t) (ocmp t) (node_pa t) (maxEltSize t) (nElems t) (oroot t) ns nums top.

(** ** Memory *)

Definition os_assert (b : bool) : M OSet unit := if b then ret tt else fail.

Definition aload (p : ptr) : M OSet AvlNode := fun t =>
  match p with
  | Some l => match onodes t !! l with Some n => Some (n, t) | None => None end
  | None => None
  end.

Definition astore (p : ptr) (f : AvlNode -> AvlNode) : M OSet unit := fun t =>
  match p with
  | Some l => match onodes t !! l with Some n => Some (tt, set_onodes (<[l := f n]> (onodes t)) t) | None => None end
  | None => None
  end.

(** The address of an element is its node's. *)
Definition node_of_elem (e : loc) : M OSet ptr :=
  n <- aload (Some e) ;; os_assert (magic n =? OSET_MAGIC) ;;; ret (Some e).
Definition elem_of_node (n : ptr) : M OSet E :=
  nd <- aload n ;; os_assert (magic nd =? OSET_MAGIC) ;;; ret (elem nd).
Definition elem_of_node_no_check (n : ptr) : M OSet E :=
  nd <- aload n ;; ret (elem nd).

(** ** Comparison *)

Definition word_cmp (w1 w2 : Z) : Z := if w2 <? w1 then 1 else if w1 <? w2 then -1 else 0.

Definition fast_cmp (w1 : Z) (n : ptr) : M OSet Z := e <- elem_of_node n ;; ret (word_cmp w1 (eword e)).
Definition slow_cmp (c : K -> E -> Z) (k : K) (n : ptr) : M OSet Z := e <- elem_of_node n ;; ret (c k e).

Definition cmp_key_root (root n : ptr) : M OSet Z :=
  c <- gets ocmp ;;
  match c with
  | Some c => e <- elem_of_node n ;; slow_cmp c (key_of e) root
  | None => e <- elem_of_node n ;; fast_cmp (eword e) root
  end.

(** ** Rotations *)

Definition avl_swl (root : ptr) : M OSet ptr :=
  a <- aload root ;;
  let b := aright a in
  bn <- aload b ;;
  astore root (set_right (aleft bn)) ;;;
  astore b (set_left root) ;;;
  ret b.

Definition avl_swr (root : ptr) : M OSet ptr :=
  a <- aload root ;;
  let b := aleft a in
  bn <- aload b ;;
  astore root (set_left (aright bn)) ;;;
  astore b (set_right root) ;;;
  ret b.

Definition avl_nasty (root : ptr) : M OSet unit :=
  n <- aload root ;;
  (if balance n =? -1 then
     astore (aleft n) (set_balance 0) ;;; astore (aright n) (set_balance 1)
   else if balance n =? 1 then
     astore (aleft n) (set_balance (-1)) ;;; astore (aright n) (set_balance 0)
   else if balance n =? 0 then
     astore (aleft n) (set_balance 0) ;;; astore (aright n) (set_balance 0)
   else ret tt) ;;;
  astore root (set_balance 0).

(** [root->balance += d], the old value returned *)
Definition add_balance (root : ptr) (d : Z) : M OSet Z :=
  n <- aload root ;;
  astore root (set_balance (i8 (balance n + d))) ;;;
  ret (balance n).

(** [avl_swr(&(root->right)); avl_swl(&root); avl_nasty(root)] and its mirror
    image *)
Definition swing_right_left (root : ptr) : M OSet ptr :=
  n <- aload root ;;
  r <- avl_swr (aright n) ;;
  astore root (set_right r) ;;;
  root <- avl_swl root ;;
  avl_nasty root ;;;
  ret root.

Definition swing_left_right (root : ptr) : M OSet ptr :=
  n <- aload root ;;
  l <- avl_swl (aleft n) ;;
  astore root (set_left l) ;;;
  root <- avl_swr root ;;
  avl_nasty root ;;;
  ret root.

(** A swing to the left (right), and the balances of the new root and of its
    left (right) child *)
Definition swing_left (root : ptr) (b bl : Z) : M OSet ptr :=
  root <- avl_swl root ;;
  astore root (set_balance b) ;;;
  n <- aload root ;;
  astore (aleft n) (set_balance bl) ;;;
  ret root.

Definition swing_right (root : ptr) (b br : Z) : M OSet ptr :=
  root <- avl_swr root ;;
  astore root (set_balance b) ;;;
  n <- aload root ;;
  astore (aright n) (set_balance br) ;;;
  ret root.

(** ** Insertion *)

(** The left subtree of the root has grown. *)
Definition left_grown (root : ptr) : M OSet (bool * ptr) :=
  b <- add_balance root (-1) ;;
  if b =? 1 then ret (false, root)
  else if b =? 0 then ret (true, root)
  else
    n <- aload root ;;
    ln <- aload (aleft n) ;;
    root <- (if balance ln <? 0 then swing_right root 0 0 else swing_left_right root) ;;
    ret (false, root).

Definition right_grown (root : ptr) : M OSet (bool * ptr) :=
  b <- add_balance root 1 ;;
  if b =? -1 then ret (false, root)
  else if b =? 0 then ret (true, root)
  else
    n <- aload root ;;
    rn <- aload (aright n) ;;
    root <- (if 0 <? balance rn then swing_left root 0 0 else swing_right_left root) ;;
    ret (false, root).

(** Whether the depth has grown, and the new root.  The subtree's new root is
    only stored when the subtree has not grown. *)
Fixpoint avl_insert (fuel : nat) (root n : ptr) : M OSet (bool * ptr) :=
  match fuel with
  | O => fail
  | S fuel =>
      cmpres <- cmp_key_root root n ;;
      rn <- aload root ;;
      if cmpres <? 0 then
        match aleft rn with
        | Some _ =>
            r <- avl_insert fuel (aleft rn) n ;;
            if r.1 : bool then left_grown root
            else astore root (set_left r.2) ;;; ret (false, root)
        | None =>
            astore root (set_left n) ;;;
            b <- add_balance root (-1) ;;
            ret (b =? 0, root)
        end
      else if 0 <? cmpres then
        match aright rn with
        | Some _ =>
            r <- avl_insert fuel (aright rn) n ;;
            if r.1 : bool then right_grown root
            else astore root (set_right r.2) ;;; ret (false, root)
        | None =>
            astore root (set_right n) ;;;
            b <- add_balance root 1 ;;
            ret (b =? 0, root)
        end
      else fail
  end.

(** Fuel for a walk down the tree *)
Definition depth_fuel : M OSet nat := gets (fun t => S (size (onodes t))).

Definition OSetGen_Insert (e : loc) : M OSet unit :=
  n <- node_of_elem e ;;
  astore n (set_left None) ;;;
  astore n (set_right None) ;;;
  astore n (set_balance 0) ;;;
  r <- gets oroot ;;
  (match r with
   | None => modify (set_oroot n)
   | Some _ =>
       fuel <- depth_fuel ;;
       r <- avl_insert fuel r n ;;
       modify (set_oroot r.2)
   end) ;;;
  modify (fun t => set_nElems (u32 (nElems t + 1)) t) ;;;
  modify (fun t => set_stack (nodeStack t) (numStack t) 0 t).

(** ** Lookup *)

Fixpoint lookup_slow (fuel : nat) (c : K -> E -> Z) (k : K) (curr : ptr) : M OSet ptr :=
  match fuel with
  | O => fail
  | S fuel =>
      match curr with
      | None => ret None
      | Some _ =>
          cmpres <- slow_cmp c k curr ;;
          n <- aload curr ;;
          if cmpres <? 0 then lookup_slow fuel c k (aleft n)
          else if 0 <? cmpres then lookup_slow fuel c k (aright n)
          else ret curr
      end
  end.

Fixpoint lookup_fast (fuel : nat) (w1 : Z) (curr : ptr) : M OSet ptr :=
  match fuel with
  | O => fail
  | S fuel =>
      match curr with
      | None => ret None
      | Some _ =>
          e <- elem_of_node_no_check curr ;;
          let w2 := eword e in
          n <- aload curr ;;
          if w1 <? w2 then lookup_fast fuel w1 (aleft n)
          else if w2 <? w1 then lookup_fast fuel w1 (aright n)
          else ret curr
      end
  end.

Definition avl_lookup (k : K) : M OSet ptr :=
  curr <- gets oroot ;;
  c <- gets ocmp ;;
  fuel <- depth_fuel ;;
  match c with
  | Some c => lookup_slow fuel c k curr
  | None => lookup_fast fuel (kword k) curr
  end.

(** The element of a node that was found, or NULL *)
Definition elem_or_null (n : ptr) : M OSet ptr :=
  match n with
  | Some _ => elem_of_node n ;;; ret n
  | None => ret None
  end.

Definition OSetGen_Lookup (k : K) : M OSet ptr :=
  r <- gets oroot ;;
  match r with
  | None => ret None
  | Some _ => n <- avl_lookup k ;; elem_or_null n
  end.

Definition OSetGen_LookupWithCmp (k : K) (cmp : option (K -> E -> Z)) : M OSet ptr :=
  tmpcmp <- gets ocmp ;;
  modify (set_ocmp cmp) ;;;
  e <- OSetGen_Lookup k ;;
  modify (set_ocmp tmpcmp) ;;;
  ret e.

Definition OSetGen_Contains (k : K) : M OSet bool :=
  e <- OSetGen_Lookup k ;; ret (match e with Some _ => true | None => false end).

(** ** Deletion *)

(** The left subtree of the root has shrunk. *)
Definition left_shrunk (root : ptr) : M OSet (bool * ptr) :=
  b <- add_balance root 1 ;;
  if b =? -1 then ret (true, root)
  else if b =? 0 then ret (false, root)
  else
    n <- aload root ;;
    rn <- aload (aright n) ;;
    if balance rn =? 0 then root <- swing_left root (-1) 1 ;; ret (false, root)
    else if balance rn =? 1 then root <- swing_left root 0 0 ;; ret (true, root)
    else root <- swing_right_left root ;; ret (true, root).

Definition right_shrunk (root : ptr) : M OSet (bool * ptr) :=
  b <- add_balance root (-1) ;;
  if b =? 1 then ret (true, root)
  else if b =? 0 then ret (false, root)
  else
    n <- aload root ;;
    ln <- aload (aleft n) ;;
    if balance ln =? 0 then root <- swing_right root 1 (-1) ;; ret (false, root)
    else if balance ln =? -1 then root <- swing_right root 0 0 ;; ret (true, root)
    else root <- swing_left_right root ;; ret (true, root).

(** [while (n->right) n = n->right] and [while (n->left) n = n->left] *)
Fixpoint rightmost (fuel : nat) (n : ptr) : M OSet ptr :=
  match fuel with
  | O => fail
  | S fuel =>
      nd <- aload n ;;
      match aright nd with Some _ => rightmost fuel (aright nd) | None => ret n end
  end.

Fixpoint leftmost (fuel : nat) (n : ptr) : M OSet ptr :=
  match fuel with
  | O => fail
  | S fuel =>
      nd <- aload n ;;
      match aleft nd with Some _ => leftmost fuel (aleft nd) | None => ret n end
  end.

(** [avl_removeroot], given [avl_remove], which it is mutually recursive with *)
Definition removeroot_with (avl_remove : ptr -> ptr -> M OSet (bool * ptr)) (root : ptr) : M OSet (bool * ptr) :=
  r <- aload root ;;
  match aleft r, aright r with
  | None, None => ret (true, None)
  | None, Some _ => ret (true, aright r)
  | Some _, None => ret (true, aleft r)
  | Some _, Some _ =>
      fuel <- depth_fuel ;;
      n <- (if balance r <? 0 then rightmost fuel (aleft r) else leftmost fuel (aright r)) ;;
      ch <- avl_remove root n ;;
      t <- aload ch.2 ;;
      astore n (set_left (aleft t)) ;;;
      astore n (set_right (aright t)) ;;;
      astore n (set_balance (balance t)) ;;;
      nd <- aload n ;;
      ret (if balance nd =? 0 then ch.1 else false, n)
  end.

(** Whether the depth has shrunk, and the new root *)
Fixpoint avl_remove (fuel : nat) (root n : ptr) : M OSet (bool * ptr) :=
  match fuel with
  | O => fail
  | S fuel =>
      cmpres <- cmp_key_root root n ;;
      rn <- aload root ;;
      if cmpres <? 0 then
        os_assert (bool_decide (aleft rn <> None)) ;;;
        r <- avl_remove fuel (aleft rn) n ;;
        astore root (set_left r.2) ;;;
        if r.1 : bool then left_shrunk root else ret (false, root)
      else if 0 <? cmpres then
        os_assert (bool_decide (aright rn <> None)) ;;;
        r <- avl_remove fuel (aright rn) n ;;
        astore root (set_right r.2) ;;;
        if r.1 : bool then right_shrunk root else ret (false, root)
      else
        os_assert (bool_decide (root = n)) ;;;
        removeroot_with (avl_remove fuel) root
  end.

Definition avl_removeroot (fuel : nat) (root : ptr) : M OSet (bool * ptr) :=
  removeroot_with (avl_remove fuel) root.

Definition OSetGen_Remove (k : K) : M OSet ptr :=
  r <- gets oroot ;;
  match r with
  | None => ret None
  | Some _ =>
      n <- avl_lookup k ;;
      match n with
      | Some _ =>
          fuel <- depth_fuel ;;
          r <- avl_remove (2 * fuel) r n ;;
          modify (set_oroot r.2) ;;;
          modify (fun t => set_nElems (u32 (nElems t - 1)) t) ;;;
          modify (fun t => set_stack (nodeStack t) (numStack t) 0 t) ;;;
          elem_or_null n
      | None => ret None
      end
  end.

(** ** The iterator *)

Definition stackClear : M OSet unit :=
  modify (set_stack (replicate STACK_MAX None) (replicate STACK_MAX 0) 0).

Definition stackPush (n : ptr) (i : Z) : M OSet unit :=
  top <- gets stackTop ;;
  os_assert (top <? STACK_MAX)%nat ;;;
  os_assert ((1 <=? i) && (i <=? 3)) ;;;
  modify (fun t => set_stack (<[top := n]> (nodeStack t)) (<[top := i]> (numStack t)) (S top) t).

Definition stackPop : M OSet (option (ptr * Z)) :=
  top <- gets stackTop ;;
  os_assert (top <=? STACK_MAX)%nat ;;;
  match top with
  | S top =>
      t <- gets id ;;
      match nodeStack t !! top, numStack t !! top with
      | Some n, Some i =>
          os_assert ((1 <=? i) && (i <=? 3)) ;;;
          modify (fun t => set_stack (<[top := None]> (nodeStack t)) (<[top := 0]> (numStack t)) top t) ;;;
          ret (Some (n, i))
      | _, _ => fail
      end
  | O => ret None
  end.

Definition OSetGen_ResetIter : M OSet unit :=
  stackClear ;;;
  r <- gets oroot ;;
  match r with Some _ => stackPush r 1 | None => ret tt end.

(** From the label [case_1] to the leftmost node *)
Fixpoint push_left (fuel : nat) (n : ptr) : M OSet unit :=
  match fuel with
  | O => fail
  | S fuel =>
      stackPush n 2 ;;;
      nd <- aload n ;;
      match aleft nd with Some _ => push_left fuel (aleft nd) | None => ret tt end
  end.

Fixpoint next_loop (fuel : nat) : M OSet ptr :=
  match fuel with
  | O => fail
  | S fuel =>
      top <- stackPop ;;
      match top with
      | None => ret None
      | Some (n, i) =>
          d <- depth_fuel ;;
          if i =? 1 then push_left d n ;;; next_loop fuel
          else if i =? 2 then stackPush n 3 ;;; elem_or_null n
          else
            nd <- aload n ;;
            (match aright nd with Some _ => push_left d (aright nd) | None => ret tt end) ;;;
            next_loop fuel
      end
  end.

(** Each node is popped at most three times. *)
Definition OSetGen_Next : M OSet ptr :=
  d <- depth_fuel ;; next_loop (3 * d).

(** The comparison as the unsigned shift sees it: 0 to go left, 1 right *)
Definition cmpresU (cmpresS : Z) : Z := Z.shiftr (u64 cmpresS) 63.

Fixpoint iter_at_loop (fuel : nat) (k : K) (t : ptr) : M OSet unit :=
  match fuel with
  | O => fail
  | S fuel =>
      match t with
      | None => ret tt
      | Some _ =>
          c <- gets ocmp ;;
          cmpresS <- (match c with Some c => slow_cmp c k t | None => fast_cmp (kword k) t end) ;;
          let cmpresS := if cmpresS <? 0 then 1 else if 0 <? cmpresS then -1 else cmpresS in
          if cmpresS =? 0 then stackPush t 2
          else
            let u := cmpresU cmpresS in
            os_assert ((u =? 0) || (u =? 1)) ;;;
            (if u =? 0 then stackPush t 2 else ret tt) ;;;
            n <- aload t ;;
            iter_at_loop fuel k (if u =? 0 then aleft n else aright n)
      end
  end.

Definition OSetGen_ResetIterAt (k : K) : M OSet unit :=
  stackClear ;;;
  r <- gets oroot ;;
  match r with
  | None => ret tt
  | Some _ => fuel <- depth_fuel ;; iter_at_loop fuel k r
  end.

Definition OSetGen_Size (t : OSet) : Z := nElems t.

(** ** Creating and destroying *)

(** The nodes [h] are the client's memory before the set is. *)
Definition OSetGen_Create (cmp : option (K -> E -> Z)) (keyOff : Z) (h : gmap loc AvlNode) : option OSet :=
  if match cmp with None => keyOff =? 0 | Some _ => true end
  then Some (mk_oset h cmp None 0 0 None (replicate STACK_MAX None) (replicate STACK_MAX 0) 0)
  else None.

(** [VG_(newPA)] gives the pool [pa]. *)
Definition OSetGen_Create_With_Pool (cmp : option (K -> E -> Z)) (keyOff : Z) (h : gmap loc AvlNode)
    (pa : P) (poolSize maxEltSize : Z) : option OSet :=
  match OSetGen_Create cmp keyOff h with
  | Some t =>
      if (0 <? poolSize) && (0 <? maxEltSize) then
        Some (mk_oset (onodes t) (ocmp t) (Some (np_addref pa)) maxEltSize (nElems t) (oroot t)
                (nodeStack t) (numStack t) (stackTop t))
      else None
  | None => None
  end.

(** The clone shares the nodes' memory and the pool, which counts it. *)
Definition OSetGen_EmptyClone : M OSet OSet :=
  modify (fun t => set_pool (np_addref <$> node_pa t) t) ;;;
  os <- gets id ;;
  ret (mk_oset (onodes os) (ocmp os) (node_pa os) (maxEltSize os) 0 None
         (replicate STACK_MAX None) (replicate STACK_MAX 0) 0).

(** The node at [l] is given back; using it again fails. *)
Definition forget (l : loc) : M OSet unit := aload (Some l) ;;; modify (fun t => set_onodes (delete l (onodes t)) t).

Definition free_node (n : ptr) : M OSet unit :=
  match n with
  | None => fail
  | Some l =>
      pa <- gets node_pa ;;
      match pa with
      | Some pa =>
          match np_free pa l with
          | Some pa => modify (set_pool (Some pa)) ;;; forget l
          | None => fail
          end
      | None => forget l
      end
  end.

(** Returns the number of nodes that were freed. *)
Fixpoint destroy_loop (fuel : nat) (sz : Z) : M OSet Z :=
  match fuel with
  | O => fail
  | S fuel =>
      top <- stackPop ;;
      match top with
      | None => ret sz
      | Some (n, i) =>
          if i =? 1 then
            stackPush n 2 ;;;
            nd <- aload n ;;
            (match aleft nd with Some _ => stackPush (aleft nd) 1 | None => ret tt end) ;;;
            destroy_loop fuel sz
          else if i =? 2 then
            stackPush n 3 ;;;
            nd <- aload n ;;
            (match aright nd with Some _ => stackPush (aright nd) 1 | None => ret tt end) ;;;
            destroy_loop fuel sz
          else free_node n ;;; destroy_loop fuel (u64 (sz + 1))
      end
  end.

Definition destroy_nodes : M OSet unit :=
  OSetGen_ResetIter ;;;
  d <- depth_fuel ;;
  sz <- destroy_loop (3 * d) 0 ;;
  t <- gets id ;;
  os_assert (sz =? nElems t).

(** When the last reference to the pool is released, its memory goes, and all
    nodes in it. *)
Definition OSetGen_Destroy : M OSet unit :=
  pa <- gets node_pa ;;
  match pa with
  | None => destroy_nodes
  | Some pa =>
      match np_release pa with
      | None => fail
      | Some (n, pa') =>
          modify (set_pool (Some pa')) ;;;
          if 0 <? n then destroy_nodes
          else modify (fun t => set_onodes (filter (fun ln => in_pool pa ln.1 = false) (onodes t)) t)
      end
  end.

Definition OSetGen_AllocNode (elemSize : Z) : M OSet loc :=
  os_assert (0 <? elemSize) ;;;
  t <- gets id ;;
  n <- (match node_pa t with
        | Some pa =>
            os_assert (elemSize <=? maxEltSize t) ;;;
            match np_alloc pa with
            | Some (l, pa) => modify (set_pool (Some pa)) ;;; ret l
            | None => fail
            end
        | None => ret (fresh (dom (onodes t)))
        end) ;;
  modify (fun t => set_onodes (<[n := mk_avl None None 0 OSET_MAGIC (zero_elem elemSize)]> (onodes t)) t) ;;;
  elem_of_node (Some n) ;;;
  ret n.

Definition OSetGen_FreeNode (e : loc) : M OSet unit :=
  n <- node_of_elem e ;; free_node n.
End OSet.
Arguments AvlNode : clear implicits.
Arguments OSet : clear implicits.

(** ** Sets of words *)

(** An element is a word, and its own key. *)
#[export] Instance word_elem : OSetElem Z Z := {
  key_of w := w; kword w := w; eword w := w; zero_elem _ := 0
}.

Section Words.
Context {P : Type} `{NodePool P}.

Definition OSetWord_Create (h : gmap loc (AvlNode Z)) : option (OSet Z Z P) := OSetGen_Create None 0 h.

Definition OSetWord_Insert (val : Z) : M (OSet Z Z P) unit :=
  node <- OSetGen_AllocNode 8 ;;
  astore (Some node) (set_elem val) ;;;
  OSetGen_Insert node.

Definition OSetWord_Contains (val : Z) : M (OSet Z Z P) bool :=
  e <- OSetGen_Lookup val ;; ret (match e with Some _ => true | None => false end).

Definition OSetWord_Remove (val : Z) : M (OSet Z Z P) bool :=
  n <- OSetGen_Remove val ;;
  match n with
  | Some l => OSetGen_FreeNode l ;;; ret true
  | None => ret false
  end.

Definition OSetWord_ResetIter : M (OSet Z Z P) unit := OSetGen_ResetIter.

Definition OSetWord_Next : M (OSet Z Z P) (option Z) :=
  n <- OSetGen_Next ;;
  match n with
  | Some _ => e <- elem_of_node_no_check n ;; ret (Some e)
  | None => ret None
  end.

Definition OSetWord_Size (t : OSet Z Z P) : Z := OSetGen_Size t.
Definition OSetWord_Destroy : M (OSet Z Z P) unit := OSetGen_Destroy.
End Words.
