(* ===== verification/AvlProofs.v ===== *)
(** AVL trees as data: the operations of [m_oset.c] on trees instead of nodes
    in memory, step by step as the code does them, and their correctness:
    balance, order and height.  [OSetShape] shows that the code does to memory
    what these functions do to trees. *)
From stdpp Require Import base list option sets sorting.
From Stdlib Require Import ZArith Lia Sorting.Sorted.
From S2P Require Import Prelude Chains OSet.
Open Scope Z_scope.


(** A total order on elements, by the sign of a comparison *)
Class ElemOrder {E} (ec : E -> E -> Z) : Prop := {
  ec_refl a : ec a a = 0;
  ec_sym a b : ec a b < 0 <-> 0 < ec b a;
  ec_trans a b c : ec a b < 0 -> ec b c < 0 -> ec a c < 0
}.

Section Trees.
Context {E : Type}.

Inductive tree := Leaf | Node (b : Z) (l : loc) (e : E) (tl tr : tree).

Definition bal (t : tree) : Z := match t with Leaf => 0 | Node b _ _ _ _ => b end.
Definition tptr (t : tree) : ptr := match t with Leaf => None | Node _ l _ _ _ => Some l end.

Fixpoint elems (t : tree) : list (loc * E) :=
  match t with Leaf => [] | Node _ l e tl tr => elems tl ++ (l, e) :: elems tr end.
Definition locs (t : tree) : list loc := (elems t).*1.

Fixpoint height (t : tree) : Z :=
  match t with Leaf => 0 | Node _ _ _ tl tr => 1 + Z.max (height tl) (height tr) end.

Fixpoint avl (t : tree) : Prop :=
  match t with
  | Leaf => True
  | Node b _ _ tl tr => b = height tr - height tl /\ -1 <= b <= 1 /\ avl tl /\ avl tr
  end.

Lemma height_pos t : 0 <= height t.
Proof. induction t; cbn [height]; lia. Qed.

(** ** The operations *)

Definition t_swl (t : tree) : option tree :=
  match t with
  | Node b l e tl (Node b' l' e' tl' tr') => Some (Node b' l' e' (Node b l e tl tl') tr')
  | _ => None
  end.
Definition t_swr (t : tree) : option tree :=
  match t with
  | Node b l e (Node b' l' e' tl' tr') tr => Some (Node b' l' e' tl' (Node b l e tr' tr))
  | _ => None
  end.

Definition nasty_bals (b bl br : Z) : Z * Z :=
  if b =? -1 then (0, 1) else if b =? 1 then (-1, 0) else if b =? 0 then (0, 0) else (bl, br).

Definition t_nasty (t : tree) : option tree :=
  match t with
  | Node b l e (Node bl ll el x1 x2) (Node br lr er y1 y2) =>
      let '(bl', br') := nasty_bals b bl br in
      Some (Node 0 l e (Node bl' ll el x1 x2) (Node br' lr er y1 y2))
  | _ => None
  end.

Definition t_swing_rl (t : tree) : option tree :=
  match t with
  | Node b l e tl tr => tr' ← t_swr tr; t1 ← t_swl (Node b l e tl tr'); t_nasty t1
  | Leaf => None
  end.
Definition t_swing_lr (t : tree) : option tree :=
  match t with
  | Node b l e tl tr => tl' ← t_swl tl; t1 ← t_swr (Node b l e tl' tr); t_nasty t1
  | Leaf => None
  end.

Definition t_swing_left (b bl : Z) (t : tree) : option tree :=
  match t with
  | Node b0 l e tl (Node _ l' e' tl' tr') => Some (Node b l' e' (Node bl l e tl tl') tr')
  | _ => None
  end.
Definition t_swing_right (b br : Z) (t : tree) : option tree :=
  match t with
  | Node b0 l e (Node _ l' e' tl' tr') tr => Some (Node b l' e' tl' (Node br l e tr' tr))
  | _ => None
  end.

Definition t_left_grown (t : tree) : option (bool * tree) :=
  match t with
  | Node b l e tl tr =>
      let t1 := Node (i8 (b + -1)) l e tl tr in
      if b =? 1 then Some (false, t1)
      else if b =? 0 then Some (true, t1)
      else t2 ← (if bal tl <? 0 then t_swing_right 0 0 t1 else t_swing_lr t1); Some (false, t2)
  | Leaf => None
  end.
Definition t_right_grown (t : tree) : option (bool * tree) :=
  match t with
  | Node b l e tl tr =>
      let t1 := Node (i8 (b + 1)) l e tl tr in
      if b =? -1 then Some (false, t1)
      else if b =? 0 then Some (true, t1)
      else t2 ← (if 0 <? bal tr then t_swing_left 0 0 t1 else t_swing_rl t1); Some (false, t2)
  | Leaf => None
  end.

Definition t_left_shrunk (t : tree) : option (bool * tree) :=
  match t with
  | Node b l e tl tr =>
      let t1 := Node (i8 (b + 1)) l e tl tr in
      if b =? -1 then Some (true, t1)
      else if b =? 0 then Some (false, t1)
      else if bal tr =? 0 then t2 ← t_swing_left (-1) 1 t1; Some (false, t2)
      else if bal tr =? 1 then t2 ← t_swing_left 0 0 t1; Some (true, t2)
      else t2 ← t_swing_rl t1; Some (true, t2)
  | Leaf => None
  end.
Definition t_right_shrunk (t : tree) : option (bool * tree) :=
  match t with
  | Node b l e tl tr =>
      let t1 := Node (i8 (b + -1)) l e tl tr in
      if b =? 1 then Some (true, t1)
      else if b =? 0 then Some (false, t1)
      else if bal tl =? 0 then t2 ← t_swing_right 1 (-1) t1; Some (false, t2)
      else if bal tl =? -1 then t2 ← t_swing_right 0 0 t1; Some (true, t2)
      else t2 ← t_swing_lr t1; Some (true, t2)
  | Leaf => None
  end.

Context (ec : E -> E -> Z).

Fixpoint t_insert (n : loc) (en : E) (t : tree) : option (bool * tree) :=
  match t with
  | Leaf => None
  | Node b l e tl tr =>
      if ec en e <? 0 then
        match tl with
        | Node _ _ _ _ _ =>
            r ← t_insert n en tl;
            if r.1 : bool then t_left_grown (Node b l e r.2 tr) else Some (false, Node b l e r.2 tr)
        | Leaf => Some (b =? 0, Node (i8 (b + -1)) l e (Node 0 n en Leaf Leaf) tr)
        end
      else if 0 <? ec en e then
        match tr with
        | Node _ _ _ _ _ =>
            r ← t_insert n en tr;
            if r.1 : bool then t_right_grown (Node b l e tl r.2) else Some (false, Node b l e tl r.2)
        | Leaf => Some (b =? 0, Node (i8 (b + 1)) l e tl (Node 0 n en Leaf Leaf))
        end
      else None
  end.

(** A root without one of its children *)
Definition t_remove_simple (t : tree) : option (bool * tree) :=
  match t with
  | Node _ _ _ Leaf tr => Some (true, tr)
  | Node _ _ _ tl Leaf => Some (true, tl)
  | _ => None
  end.

(** Down to the node [n], where [f] removes the root *)
Fixpoint t_remove_with (f : tree -> option (bool * tree)) (n : loc) (en : E) (t : tree) : option (bool * tree) :=
  match t with
  | Leaf => None
  | Node b l e tl tr =>
      if ec en e <? 0 then
        r ← t_remove_with f n en tl;
        if r.1 : bool then t_left_shrunk (Node b l e r.2 tr) else Some (false, Node b l e r.2 tr)
      else if 0 <? ec en e then
        r ← t_remove_with f n en tr;
        if r.1 : bool then t_right_shrunk (Node b l e tl r.2) else Some (false, Node b l e tl r.2)
      else if bool_decide (l = n) then f t else None
  end.

Fixpoint t_rightmost (t : tree) : option (loc * E) :=
  match t with Leaf => None | Node _ l e _ Leaf => Some (l, e) | Node _ _ _ _ tr => t_rightmost tr end.
Fixpoint t_leftmost (t : tree) : option (loc * E) :=
  match t with Leaf => None | Node _ l e Leaf _ => Some (l, e) | Node _ _ _ tl _ => t_leftmost tl end.

Definition t_neighbour (t : tree) : option (loc * E) :=
  match t with
  | Leaf => None
  | Node b _ _ tl tr => if b <? 0 then t_rightmost tl else t_leftmost tr
  end.

Definition t_removeroot (t : tree) : option (bool * tree) :=
  match t with
  | Node _ _ _ (Node _ _ _ _ _) (Node _ _ _ _ _) =>
      n ← t_neighbour t;
      ch ← t_remove_with t_remove_simple n.1 n.2 t;
      match ch.2 with
      | Node b1 _ _ l1 r1 => Some (if b1 =? 0 then ch.1 else false, Node b1 n.1 n.2 l1 r1)
      | Leaf => None
      end
  | _ => t_remove_simple t
  end.

Definition t_remove : loc -> E -> tree -> option (bool * tree) := t_remove_with t_removeroot.
End Trees.
Arguments tree : clear implicits.

(** * AVL trees: what rebalancing, insertion and removal do to the order and the
    balance of a tree. *)


Section Avl.
Context {E : Type}.
Implicit Types (t : tree E) (l : loc) (e : E).

(** ** Rebalancing *)

(** A tree of [h] levels with the elements [es] *)
Definition balanced t (h : Z) (es : list (loc * E)) : Prop := avl t /\ height t = h /\ elems t = es.

(** Reads the balance of a node off its children. *)
Ltac avl_case b :=
  let Hb := fresh in
  assert (b = -1 \/ b = 0 \/ b = 1) as Hb by lia;
  destruct Hb as [Hb|[Hb|Hb]]; rewrite Hb in *; clear Hb; try lia.
Ltac avl_node t :=
  let b := fresh "b" in let l := fresh "l" in let e := fresh "e" in let x := fresh "x" in let y := fresh "y" in
  destruct t as [|b l e x y]; cbn [height avl bal] in *;
  [lia|pose proof (height_pos x); pose proof (height_pos y); destruct_and?; avl_case b].
(** Wrapped balances are constants. *)
Ltac i8_const := repeat match goal with |- context [i8 (?a + ?b)] =>
  let v := eval vm_compute in (i8 (a + b)) in change (i8 (a + b)) with v end.
Ltac avl_done := eexists _, _; split; [reflexivity|];
  unfold balanced; cbn [avl height elems bal tptr]; i8_const; cbn; repeat (rewrite <- app_assoc; cbn [app]);
  repeat split; solve [lia|done|reflexivity|intros; done|cbn; lia].

Lemma left_grown_ok b l e tl tr : avl tl -> avl tr -> -1 <= b <= 1 ->
  b = height tr - (height tl - 1) -> bal tl <> 0 ->
  exists g t, t_left_grown (Node b l e tl tr) = Some (g, t) /\
    balanced t (Z.max (height tl) (1 + height tr) + Z.b2z g) (elems tl ++ (l, e) :: elems tr) /\
    (g = true -> bal t <> 0 /\ tptr t = Some l).
Proof.
  intros Hl Hr Hb E1 Hn. pose proof (height_pos tl). pose proof (height_pos tr).
  unfold t_left_grown. avl_case b; cbn [Z.eqb Pos.eqb]; [|avl_done..].
  avl_node tl; cbn [Z.ltb Z.compare]; [avl_done|]. avl_node y; avl_done.
Qed.

Lemma right_grown_ok b l e tl tr : avl tl -> avl tr -> -1 <= b <= 1 ->
  b = (height tr - 1) - height tl -> bal tr <> 0 ->
  exists g t, t_right_grown (Node b l e tl tr) = Some (g, t) /\
    balanced t (Z.max (1 + height tl) (height tr) + Z.b2z g) (elems tl ++ (l, e) :: elems tr) /\
    (g = true -> bal t <> 0 /\ tptr t = Some l).
Proof.
  intros Hl Hr Hb E1 Hn. pose proof (height_pos tl). pose proof (height_pos tr).
  unfold t_right_grown. avl_case b; cbn [Z.eqb Pos.eqb]; [avl_done..|].
  avl_node tr; cbn [Z.ltb Z.compare]; [|avl_done]. avl_node x; avl_done.
Qed.

Lemma left_shrunk_ok b l e tl tr : avl tl -> avl tr -> -1 <= b <= 1 ->
  b = height tr - (height tl + 1) ->
  exists c t, t_left_shrunk (Node b l e tl tr) = Some (c, t) /\
    balanced t (1 + Z.max (1 + height tl) (height tr) - Z.b2z c) (elems tl ++ (l, e) :: elems tr).
Proof.
  intros Hl Hr Hb E1. pose proof (height_pos tl). pose proof (height_pos tr).
  unfold t_left_shrunk. avl_case b; cbn [Z.eqb Pos.eqb]; [avl_done..|].
  avl_node tr; cbn [Z.eqb Pos.eqb]; [|avl_done..]. avl_node x; avl_done.
Qed.

Lemma right_shrunk_ok b l e tl tr : avl tl -> avl tr -> -1 <= b <= 1 ->
  b = (height tr + 1) - height tl ->
  exists c t, t_right_shrunk (Node b l e tl tr) = Some (c, t) /\
    balanced t (1 + Z.max (height tl) (1 + height tr) - Z.b2z c) (elems tl ++ (l, e) :: elems tr).
Proof.
  intros Hl Hr Hb E1. pose proof (height_pos tl). pose proof (height_pos tr).
  unfold t_right_shrunk. avl_case b; cbn [Z.eqb Pos.eqb]; [|avl_done..].
  avl_node tl; cbn [Z.eqb Pos.eqb]; [avl_done..|]. avl_node y; avl_done.
Qed.

(** ** Nodes *)

Lemma locs_node b l e tl tr : locs (Node b l e tl tr) = locs tl ++ l :: locs tr.
Proof. unfold locs. cbn [elems]. by rewrite fmap_app, fmap_cons. Qed.

Lemma NoDup_node b l e tl tr : NoDup (locs (Node b l e tl tr)) ->
  NoDup (locs tl) /\ NoDup (locs tr) /\ l ∉ locs tl /\ l ∉ locs tr /\
  (forall k, k ∈ locs tl -> k ∉ locs tr).
Proof.
  rewrite locs_node. intros (H1 & H2 & [H3 H4]%NoDup_cons)%NoDup_app. split_and!; try done.
  - intros Hl. apply (H2 l Hl). set_solver.
  - intros k Hk Hk'. apply (H2 k Hk). set_solver.
Qed.

(** ** Order *)

Context (ec : E -> E -> Z) `{!ElemOrder ec}.

Definition before (x y : loc * E) : Prop := ec x.2 y.2 < 0.
Definition ordered t : Prop := StronglySorted before (elems t).

Lemma before_irrefl x : ~ before x x.
Proof. unfold before. rewrite ec_refl. lia. Qed.

Lemma before_asym x y : before x y -> ~ before y x.
Proof. unfold before. rewrite (ec_sym x.2). lia. Qed.

Lemma ordered_node b l e tl tr : ordered (Node b l e tl tr) <->
  (forall x, x ∈ elems tl -> before x (l, e)) /\ (forall y, y ∈ elems tr -> before (l, e) y) /\
  ordered tl /\ ordered tr.
Proof.
  unfold ordered. cbn [elems]. rewrite StronglySorted_app. split.
  - intros (H1 & H2 & [H3 H4]%StronglySorted_inv). rewrite Forall_forall in H4.
    split_and!; [intros x Hx; apply H1; [done|left]|intros y Hy; by apply H4|done|done].
  - intros (H1 & H2 & H3 & H4). split_and!; [|done|].
    + intros x y Hx [->|Hy]%elem_of_cons; [by apply H1|].
      unfold before. eapply ec_trans; [by apply (H1 x)|by apply (H2 y)].
    + constructor; [done|]. by apply Forall_forall.
Qed.

Lemma aordered_app ys zs : StronglySorted before (ys ++ zs) <->
  (forall x y, x ∈ ys -> y ∈ zs -> before x y) /\ StronglySorted before ys /\ StronglySorted before zs.
Proof. apply StronglySorted_app. Qed.

(** ** Insertion *)

(** The elements of [es] and, in its place, [x] *)
Definition inserted (x : loc * E) (es es' : list (loc * E)) : Prop :=
  exists ys zs, es = ys ++ zs /\ es' = ys ++ x :: zs /\
    (forall y, y ∈ ys -> before y x) /\ (forall y, y ∈ zs -> before x y).

Lemma inserted_left x es es' c r : inserted x es es' -> before x c ->
  (forall y, y ∈ r -> before c y) -> inserted x (es ++ c :: r) (es' ++ c :: r).
Proof.
  intros (ys & zs & -> & -> & H1 & H2) Hx Hr. exists ys, (zs ++ c :: r). rewrite <- !app_assoc.
  split_and!; [done|done|done|]. intros y [Hy|[->|Hy]%elem_of_cons]%elem_of_app; [by apply H2|done|].
  unfold before. eapply ec_trans; [apply Hx|by apply Hr].
Qed.

Lemma inserted_right x es es' c r : inserted x es es' -> before c x ->
  (forall y, y ∈ r -> before y c) -> inserted x (r ++ c :: es) (r ++ c :: es').
Proof.
  intros (ys & zs & -> & -> & H1 & H2) Hx Hr. exists (r ++ c :: ys), zs. rewrite <- !app_assoc.
  split_and!; [done|done| |done]. intros y [Hy|[->|Hy]%elem_of_cons]%elem_of_app; [|done|by apply H1].
  unfold before. eapply ec_trans; [by apply Hr|apply Hx].
Qed.

Lemma inserted_nil x : inserted x [] [x].
Proof. exists [], []. split_and!; [done|done|intros y Hy; by apply not_elem_of_nil in Hy..]. Qed.

Lemma insert_ok n en t : t <> Leaf -> avl t -> ordered t ->
  (forall x, x ∈ elems t -> ec en x.2 <> 0) ->
  exists g t', t_insert ec n en t = Some (g, t') /\ avl t' /\ height t' = height t + Z.b2z g /\
    inserted (n, en) (elems t) (elems t') /\ (g = true -> bal t' <> 0 /\ tptr t' = tptr t).
Proof.
  induction t as [|b l e tl IHl tr IHr]; [done|]. intros _ (Eb & Hb & Al & Ar) Ho Hne.
  apply ordered_node in Ho as (Ol & Or & Sl & Sr). cbn [t_insert height elems tptr] in *.
  pose proof (height_pos tl). pose proof (height_pos tr).
  assert (Hn : ec en e <> 0) by (apply (Hne (l, e)); set_solver).
  destruct (Z.ltb_spec (ec en e) 0) as [Hlt|Hge].
  - destruct tl as [|b0 l0 e0 x y] eqn:Etl.
    + cbn [height elems app] in *. eexists _, _. split; [reflexivity|].
      cbn [avl height elems app bal tptr]. split; [|split; [|split]].
      * avl_case b; i8_const; repeat split; solve [done|lia].
      * avl_case b; cbn [Z.eqb Pos.eqb Z.b2z]; lia.
      * apply (inserted_left _ [] [(n, en)]); [apply inserted_nil|done|done].
      * avl_case b; done.
    + rewrite <- Etl in *. destruct IHl as (g & t' & -> & A' & H' & I' & G'); [by rewrite Etl|done|done| |].
      { intros x' Hx. apply Hne. set_solver. }
      assert (Hins : inserted (n, en) (elems tl ++ (l, e) :: elems tr) (elems t' ++ (l, e) :: elems tr))
        by (apply inserted_left; [done|exact Hlt|done]).
      cbn [mbind option_bind fst snd]. destruct g; cbn [Z.b2z] in H'.
      * destruct (left_grown_ok b l e t' tr) as (g & t2 & -> & (A2 & H2 & E2) & G2);
          [done|done|done|lia|by apply G'|]. exists g, t2. rewrite E2. split_and!; [done|done|lia|done|done].
      * eexists _, _. split; [reflexivity|]. cbn [avl height elems]. split_and!; [lia..|done|done|cbn; lia|done|done].
  - rewrite (proj2 (Z.ltb_lt _ _)) by lia. assert (Hgt : ec e en < 0) by (apply ec_sym; lia).
    destruct tr as [|b0 l0 e0 x y] eqn:Etr.
    + cbn [height elems app] in *. eexists _, _. split; [reflexivity|].
      cbn [avl height elems app bal tptr]. split; [|split; [|split]].
      * avl_case b; i8_const; repeat split; solve [done|lia].
      * avl_case b; cbn [Z.eqb Pos.eqb Z.b2z]; lia.
      * apply (inserted_right _ [] [(n, en)]); [apply inserted_nil|done|done].
      * avl_case b; done.
    + rewrite <- Etr in *. destruct IHr as (g & t' & -> & A' & H' & I' & G'); [by rewrite Etr|done|done| |].
      { intros x' Hx. apply Hne. set_solver. }
      assert (Hins : inserted (n, en) (elems tl ++ (l, e) :: elems tr) (elems tl ++ (l, e) :: elems t'))
        by (apply inserted_right; [done|exact Hgt|done]).
      cbn [mbind option_bind fst snd]. destruct g; cbn [Z.b2z] in H'.
      * destruct (right_grown_ok b l e tl t') as (g & t2 & -> & (A2 & H2 & E2) & G2);
          [done|done|done|lia|by apply G'|]. exists g, t2. rewrite E2. split_and!; [done|done|lia|done|done].
      * eexists _, _. split; [reflexivity|]. cbn [avl height elems]. split_and!; [lia..|done|done|cbn; lia|done|done].
Qed.

(** ** Removal *)

Definition removed (x : loc * E) (es es' : list (loc * E)) : Prop :=
  exists ys zs, es = ys ++ x :: zs /\ es' = ys ++ zs.

Lemma removed_left x es es' r : removed x es es' -> removed x (es ++ r) (es' ++ r).
Proof. intros (ys & zs & -> & ->). exists ys, (zs ++ r). by rewrite <- !app_assoc. Qed.

Lemma removed_right x es es' r : removed x es es' -> removed x (r ++ es) (r ++ es').
Proof. intros (ys & zs & -> & ->). exists (r ++ ys), zs. by rewrite <- !app_assoc. Qed.

(** Subtrees *)
Inductive sub : tree E -> tree E -> Prop :=
  | sub_refl t : sub t t
  | sub_left s b l e tl tr : sub s tl -> sub s (Node b l e tl tr)
  | sub_right s b l e tl tr : sub s tr -> sub s (Node b l e tl tr).

Lemma sub_elems s t x : sub s t -> x ∈ elems s -> x ∈ elems t.
Proof. induction 1; cbn [elems]; set_solver. Qed.

Lemma sub_root s t n : sub s t -> tptr s = Some n -> n ∈ locs t.
Proof.
  intros Hs Hn. destruct s as [|b l e x y]; [done|]. injection Hn as ->. unfold locs.
  apply list_elem_of_fmap. exists (n, e). split; [done|]. eapply sub_elems; [done|]. cbn [elems]. set_solver.
Qed.

Definition sound t : Prop := avl t /\ ordered t /\ NoDup (locs t).

Lemma sound_sub s t : sub s t -> sound t -> sound s.
Proof.
  induction 1 as [|s b l e tl tr _ IH|s b l e tl tr _ IH]; [done|..];
    intros ((_ & _ & Al & Ar) & (_ & _ & Ol & Or)%ordered_node & (Nl & Nr & _)%NoDup_node); by apply IH.
Qed.

(** [f] removes the root of [s]. *)
Definition removes (f : tree E -> option (bool * tree E)) (s : tree E) : Prop :=
  match s with
  | Leaf => False
  | Node _ l e _ _ => exists c s', f s = Some (c, s') /\
      balanced s' (height s - Z.b2z c) (elems s') /\ removed (l, e) (elems s) (elems s')
  end.

Lemma remove_with_ok f n en t : sound t -> (n, en) ∈ elems t ->
  (forall s, sub s t -> tptr s = Some n -> removes f s) ->
  exists c t', t_remove_with ec f n en t = Some (c, t') /\
    balanced t' (height t - Z.b2z c) (elems t') /\ removed (n, en) (elems t) (elems t').
Proof.
  induction t as [|b l e tl IHl tr IHr]; [intros _ Hx; by apply not_elem_of_nil in Hx|].
  intros Hs Hx Hf. pose proof Hs as ((Eb & Hb & Al & Ar) & (Ol & Or & _)%ordered_node & _).
  pose proof (sound_sub tl _ (sub_left _ _ _ _ _ _ (sub_refl tl)) Hs) as Sl.
  pose proof (sound_sub tr _ (sub_right _ _ _ _ _ _ (sub_refl tr)) Hs) as Sr.
  cbn [t_remove_with elems] in *. apply elem_of_app in Hx as [Hx|[[= <- <-]|Hx]%elem_of_cons].
  - pose proof (Ol _ Hx) as Hlt. unfold before in Hlt. cbn in Hlt. rewrite (proj2 (Z.ltb_lt _ _)) by done.
    destruct IHl as (c & t' & -> & (A' & H' & _) & R'); [done|done|intros s Hs'; apply Hf; by constructor|].
    cbn [mbind option_bind fst snd]. pose proof (removed_left _ _ _ ((l, e) :: elems tr) R').
    destruct c; cbn [Z.b2z] in H'.
    + destruct (left_shrunk_ok b l e t' tr) as (c & t2 & -> & A2 & H2 & E2); [done|done|done|lia|].
      exists c, t2. unfold balanced. rewrite E2. split_and!; [done|done| |done|done].
      cbn [height]. rewrite H2, H'. replace (1 + (height tl - 1)) with (height tl) by lia. done.
    + eexists _, _. split; [reflexivity|]. unfold balanced. cbn [avl height elems Z.b2z].
      split_and!; [lia..|done|done|lia|done|done].
  - rewrite ec_refl. cbn [Z.ltb Z.compare]. rewrite bool_decide_true by done.
    exact (Hf _ (sub_refl _) eq_refl).
  - pose proof (Or _ Hx) as Hlt. unfold before in Hlt. cbn in Hlt. apply ec_sym in Hlt.
    rewrite (proj2 (Z.ltb_ge _ _)), (proj2 (Z.ltb_lt _ _)) by lia.
    destruct IHr as (c & t' & -> & (A' & H' & _) & R'); [done|done|intros s Hs'; apply Hf; by constructor|].
    cbn [mbind option_bind fst snd].
    pose proof (removed_right _ _ _ (elems tl) (removed_right _ _ _ [(l, e)] R')).
    destruct c; cbn [Z.b2z] in H'.
    + destruct (right_shrunk_ok b l e tl t') as (c & t2 & -> & A2 & H2 & E2); [done|done|done|lia|].
      exists c, t2. unfold balanced. rewrite E2. split_and!; [done|done| |done|done].
      cbn [height]. rewrite H2, H'. replace (1 + (height tr - 1)) with (height tr) by lia. done.
    + eexists _, _. split; [reflexivity|]. unfold balanced. cbn [avl height elems Z.b2z].
      split_and!; [lia..|done|done|lia|done|done].
Qed.

Lemma simple_ok s : avl s -> (exists b l e x, s = Node b l e Leaf x \/ s = Node b l e x Leaf) ->
  removes t_remove_simple s.
Proof.
  intros A (b & l & e & x & [->| ->]); cbn [avl height] in A; pose proof (height_pos x);
    destruct x as [|b' l' e' y z]; cbn [removes]; eexists _, _; (split; [reflexivity|]);
    unfold balanced; cbn [height elems app Z.b2z] in *; split_and!; try done; try lia; try apply A;
    try (by exists [], []).
  - exists [], (elems y ++ (l', e') :: elems z). done.
  - exists (elems y ++ (l', e') :: elems z), []. by rewrite app_nil_r.
Qed.

Lemma rightmost_ok t : t <> Leaf -> exists x ys, t_rightmost t = Some x /\ elems t = ys ++ [x].
Proof.
  induction t as [|b l e tl _ tr IH]; [done|]. intros _. destruct tr as [|b' l' e' y z] eqn:Et.
  - exists (l, e), (elems tl). done.
  - destruct IH as (x & ys & Hx & Hys); [done|]. exists x, (elems tl ++ (l, e) :: ys). split; [exact Hx|].
    cbn [elems] in *. by rewrite Hys, <- app_assoc.
Qed.

Lemma leftmost_ok t : t <> Leaf -> exists x ys, t_leftmost t = Some x /\ elems t = x :: ys.
Proof.
  induction t as [|b l e tl IH tr _]; [done|]. intros _. destruct tl as [|b' l' e' y z] eqn:Et.
  - exists (l, e), (elems tr). done.
  - destruct IH as (x & ys & Hx & Hys); [done|]. exists x, (ys ++ (l, e) :: elems tr). split; [exact Hx|].
    cbn [elems] in *. by rewrite Hys.
Qed.

Lemma rightmost_locs t x : t_rightmost t = Some x -> x.1 ∈ locs t.
Proof.
  intros Hx. assert (t <> Leaf) as Hne by (by intros ->).
  destruct (rightmost_ok t Hne) as (x' & ys & E1 & E2). unfold locs. rewrite E2, fmap_app. set_solver.
Qed.

Lemma leftmost_locs t x : t_leftmost t = Some x -> x.1 ∈ locs t.
Proof.
  intros Hx. assert (t <> Leaf) as Hne by (by intros ->).
  destruct (leftmost_ok t Hne) as (x' & ys & E1 & E2). unfold locs. rewrite E2, fmap_cons. set_solver.
Qed.

Lemma rightmost_sub t x s : NoDup (locs t) -> t_rightmost t = Some x -> sub s t -> tptr s = Some x.1 ->
  exists b e y, s = Node b x.1 e y Leaf.
Proof.
  intros Hnd Hx Hs. revert Hnd Hx. induction Hs as [t|s b l e tl tr Hs IH|s b l e tl tr Hs IH]; intros Hnd Hx Hn.
  - destruct t as [|b l e tl tr]; [done|]. injection Hn as ->. destruct tr as [|b' l' e' y z]; [by eauto|].
    apply NoDup_node in Hnd as (_ & _ & _ & Hl & _). by apply (rightmost_locs (Node b' l' e' y z)) in Hx.
  - apply NoDup_node in Hnd as (_ & _ & Hl & _ & Hd). pose proof (sub_root _ _ _ Hs Hn) as Hin.
    destruct tr as [|b' l' e' y z]; [by injection Hx as <-|]. apply (rightmost_locs (Node b' l' e' y z)) in Hx. by apply Hd in Hin.
  - apply NoDup_node in Hnd as (_ & Hr & _). destruct tr as [|b' l' e' y z]; [|by apply IH].
    pose proof (sub_root _ _ _ Hs Hn) as Hin. by apply not_elem_of_nil in Hin.
Qed.

Lemma leftmost_sub t x s : NoDup (locs t) -> t_leftmost t = Some x -> sub s t -> tptr s = Some x.1 ->
  exists b e y, s = Node b x.1 e Leaf y.
Proof.
  intros Hnd Hx Hs. revert Hnd Hx. induction Hs as [t|s b l e tl tr Hs IH|s b l e tl tr Hs IH]; intros Hnd Hx Hn.
  - destruct t as [|b l e tl tr]; [done|]. injection Hn as ->. destruct tl as [|b' l' e' y z]; [by eauto|].
    apply NoDup_node in Hnd as (_ & _ & Hl & _ & _). by apply (leftmost_locs (Node b' l' e' y z)) in Hx.
  - apply NoDup_node in Hnd as (Hl & _). destruct tl as [|b' l' e' y z]; [|by apply IH].
    pose proof (sub_root _ _ _ Hs Hn) as Hin. by apply not_elem_of_nil in Hin.
  - apply NoDup_node in Hnd as (_ & _ & _ & Hl & Hd). pose proof (sub_root _ _ _ Hs Hn) as Hin.
    destruct tl as [|b' l' e' y z]; [by injection Hx as <-|]. apply (leftmost_locs (Node b' l' e' y z)) in Hx. by apply Hd in Hx.
Qed.

(** A node without one child is removed from a subtree. *)
Lemma remove_end t x : sound t -> t_rightmost t = Some x \/ t_leftmost t = Some x -> x ∈ elems t ->
  exists c t', t_remove_with ec t_remove_simple x.1 x.2 t = Some (c, t') /\
    balanced t' (height t - Z.b2z c) (elems t') /\ removed x (elems t) (elems t').
Proof.
  intros Hs Hx Hin. destruct x as [n en]. apply remove_with_ok; [done|done|].
  intros s Hsub Hn. pose proof (sound_sub _ _ Hsub Hs) as (As & _ & _). pose proof Hs as (_ & _ & Hnd).
  destruct Hx as [Hx|Hx].
  - destruct (rightmost_sub t (n, en) s) as (b & e & y & ->); [done..|]. apply simple_ok; [done|]. eauto 10.
  - destruct (leftmost_sub t (n, en) s) as (b & e & y & ->); [done..|]. apply simple_ok; [done|]. eauto 10.
Qed.

Lemma removed_unique x es es' ys zs : NoDup es -> removed x es es' -> es = ys ++ x :: zs -> es' = ys ++ zs.
Proof.
  intros Hnd (ys' & zs' & -> & ->) Heq.
  assert (x ∉ ys' /\ x ∉ ys) as [H1 H2].
  { split; intros Hx; [|rewrite Heq in Hnd]; apply NoDup_app in Hnd as (_ & Hd & _); apply (Hd x Hx); set_solver. }
  clear Hnd. revert ys Heq H2. induction ys' as [|y ys' IH]; intros [|y2 ys] Heq H2; cbn in *; simplify_eq; try done.
  - set_solver.
  - set_solver.
  - f_equal. apply IH; [set_solver|done|set_solver].
Qed.

Lemma NoDup_elems t : NoDup (locs t) -> NoDup (elems t).
Proof. apply NoDup_fmap_1. Qed.

(** The root is replaced by its neighbour on the deeper side. *)
Definition replaced (x : loc * E) (r : option (bool * tree E)) : option (bool * tree E) :=
  ch ← r;
  match ch.2 with
  | Node b1 _ _ l1 r1 => Some (if b1 =? 0 then ch.1 else false, Node b1 x.1 x.2 l1 r1)
  | Leaf => None
  end.

Lemma replace_left l e tl tr x : sound (Node (-1) l e tl tr) -> tl <> Leaf -> t_rightmost tl = Some x ->
  exists c s, replaced x (t_remove_with ec t_remove_simple x.1 x.2 (Node (-1) l e tl tr)) = Some (c, s) /\
    balanced s (height (Node (-1) l e tl tr) - Z.b2z c) (elems tl ++ elems tr).
Proof.
  intros Hs Hne Hx. pose proof Hs as ((Eb & Hb & Al & Ar) & (Ol & Or & _)%ordered_node & _).
  pose proof (sound_sub tl _ (sub_left _ _ _ _ _ _ (sub_refl tl)) Hs) as Sl.
  destruct (rightmost_ok tl Hne) as (x' & ys & Ex & Ey). rewrite Hx in Ex. injection Ex as <-.
  assert (x ∈ elems tl) as Hin by (rewrite Ey; set_solver).
  pose proof (Ol x Hin) as Hlt. unfold before in Hlt. cbn in Hlt.
  cbn [t_remove_with]. rewrite (proj2 (Z.ltb_lt _ _)) by done.
  destruct (remove_end tl x Sl (or_introl Hx) Hin) as (c & t' & -> & (A' & H' & _) & R').
  apply (removed_unique x _ _ ys []) in R' as E'; [|apply NoDup_elems, Sl|done].
  rewrite app_nil_r in E'. cbn [replaced mbind option_bind fst snd].
  destruct c; cbn [Z.b2z] in H'; eexists _, _; (split; [reflexivity|]); unfold balanced;
    i8_const; cbn [avl height elems Z.b2z Z.eqb Pos.eqb fst snd]; rewrite E', Ey, <- app_assoc, <- surjective_pairing;
    (split_and!; [lia..|done|done|lia|done]).
Qed.

Lemma replace_right b l e tl tr x : 0 <= b -> sound (Node b l e tl tr) -> tr <> Leaf -> t_leftmost tr = Some x ->
  exists c s, replaced x (t_remove_with ec t_remove_simple x.1 x.2 (Node b l e tl tr)) = Some (c, s) /\
    balanced s (height (Node b l e tl tr) - Z.b2z c) (elems tl ++ elems tr).
Proof.
  intros Hpos Hs Hne Hx. pose proof Hs as ((Eb & Hb & Al & Ar) & (Ol & Or & _)%ordered_node & _).
  pose proof (sound_sub tr _ (sub_right _ _ _ _ _ _ (sub_refl tr)) Hs) as Sr.
  destruct (leftmost_ok tr Hne) as (x' & ys & Ex & Ey). rewrite Hx in Ex. injection Ex as <-.
  assert (x ∈ elems tr) as Hin by (rewrite Ey; set_solver).
  pose proof (Or x Hin) as Hlt. unfold before in Hlt. cbn in Hlt. apply ec_sym in Hlt.
  cbn [t_remove_with]. rewrite (proj2 (Z.ltb_ge _ _)), (proj2 (Z.ltb_lt _ _)) by lia.
  destruct (remove_end tr x Sr (or_intror Hx) Hin) as (c & t' & -> & (A' & H' & _) & R').
  apply (removed_unique x _ _ [] ys) in R' as E'; [|apply NoDup_elems, Sr|done].
  cbn [app] in E'. cbn [replaced mbind option_bind fst snd].
  pose proof (height_pos tl). pose proof (height_pos t').
  avl_case b; destruct c; cbn [Z.b2z] in H'; eexists _, _; (split; [reflexivity|]); unfold balanced;
    i8_const; cbn [avl height elems Z.b2z Z.eqb Pos.eqb fst snd]; rewrite E', Ey, <- surjective_pairing;
    (split_and!; [lia..|done|done|lia|done]).
Qed.

Lemma removeroot_ok t : sound t -> t <> Leaf -> removes (t_removeroot ec) t.
Proof.
  intros Hs Hne. destruct t as [|b l e tl tr]; [done|].
  destruct tl as [|bl ll el xl yl] eqn:Etl; [apply (simple_ok (Node _ _ _ _ _)); [apply Hs|eauto 10]|].
  destruct tr as [|br lr er xr yr] eqn:Etr; [apply (simple_ok (Node _ _ _ _ _)); [apply Hs|eauto 10]|].
  rewrite <- Etl, <- Etr in *. assert (tl <> Leaf /\ tr <> Leaf) as [Hl Hr] by (rewrite Etl, Etr; done).
  assert (t_removeroot ec (Node b l e tl tr) = (n ← t_neighbour (Node b l e tl tr);
    replaced n (t_remove_with ec t_remove_simple n.1 n.2 (Node b l e tl tr)))) as Eroot by (by rewrite Etl, Etr).
  cbn [removes]. rewrite Eroot. cbn [t_neighbour].
  assert (forall c s, balanced s (height (Node b l e tl tr) - Z.b2z c) (elems tl ++ elems tr) ->
    balanced s (height (Node b l e tl tr) - Z.b2z c) (elems s) /\
    removed (l, e) (elems (Node b l e tl tr)) (elems s)) as Hfin.
  { intros c s (A & Hh & Ee). rewrite Ee. split; [by split_and!|]. by exists (elems tl), (elems tr). }
  destruct (Z.ltb_spec b 0) as [Hlt|Hge].
  - assert (b = -1) as -> by (destruct Hs as ((_ & ? & _) & _); lia).
    destruct (rightmost_ok tl Hl) as (x & ys & Hx & _). rewrite Hx. cbn [mbind option_bind].
    destruct (replace_left l e tl tr x Hs Hl Hx) as (c & s & -> & Hbal). exists c, s. split; [done|]. by apply Hfin.
  - destruct (leftmost_ok tr Hr) as (x & ys & Hx & _). rewrite Hx. cbn [mbind option_bind].
    destruct (replace_right b l e tl tr x Hge Hs Hr Hx) as (c & s & -> & Hbal). exists c, s. split; [done|]. by apply Hfin.
Qed.

Lemma remove_ok n en t : sound t -> (n, en) ∈ elems t ->
  exists c t', t_remove ec n en t = Some (c, t') /\
    balanced t' (height t - Z.b2z c) (elems t') /\ removed (n, en) (elems t) (elems t').
Proof.
  intros Hs Hx. apply remove_with_ok; [done|done|]. intros s Hsub Hn.
  apply removeroot_ok; [by eapply sound_sub|by intros ->].
Qed.
End Avl.
