(* ===== verification/OSetShape.v ===== *)
(** What the tree operations of [m_oset.c] do to memory: the nodes represent a
    tree, and each operation does to it what its counterpart in [AvlProofs]
    does, changing nothing else. *)
From stdpp Require Import base gmap list option sets fin_maps.
From Stdlib Require Import ZArith Lia.
From S2P Require Import Prelude Chains OSet AvlProofs.
Open Scope prog_scope.
Open Scope Z_scope.

Section Shape.
Context {K E P : Type} `{OSetElem K E} `{NodePool P}.
Abbreviation OS := (OSet K E P).
Implicit Types (s : OS) (t u : tree E) (l : loc) (h : gmap loc (AvlNode E)).

(** ** Memory that holds a tree *)

Fixpoint rep h t : Prop :=
  match t with
  | Leaf => True
  | Node b l e tl tr => h !! l = Some (mk_avl (tptr tl) (tptr tr) b OSET_MAGIC e) /\ rep h tl /\ rep h tr
  end.

Lemma rep_frame h h' t : (forall l, l ∈ locs t -> h' !! l = h !! l) -> rep h t -> rep h' t.
Proof.
  induction t as [|b l e tl IHl tr IHr]; [done|]. rewrite locs_node. intros Hf (E1 & Hl & Hr).
  split_and!; [rewrite Hf; [done|set_solver]|apply IHl; [|done]|apply IHr; [|done]];
    intros k Hk; apply Hf; set_solver.
Qed.

Lemma arep_insert h t l n : l ∉ locs t -> rep h t -> rep (<[l := n]> h) t.
Proof. intros Hl. apply rep_frame. intros k Hk. apply lookup_insert_ne. by intros ->. Qed.

(** What the set never changes in a node *)
Definition payload h : gmap loc (Z * E) := (fun n => (magic n, elem n)) <$> h.

(** Only the links and balances of the nodes in [L] may have changed. *)
Record moved (L : list loc) s s' : Prop := {
  mv_rest : s' = set_onodes (onodes s') s;
  mv_payload : payload (onodes s') = payload (onodes s);
  mv_frame l : l ∉ L -> onodes s' !! l = onodes s !! l
}.

Lemma moved_refl L s : moved L s s.
Proof. split; [by destruct s|done|done]. Qed.

Lemma amoved_trans L s s1 s2 : moved L s s1 -> moved L s1 s2 -> moved L s s2.
Proof.
  intros [R1 P1 F1] [R2 P2 F2]. split; [by rewrite R2, R1|by rewrite P2|].
  intros l Hl. by rewrite F2, F1.
Qed.

Lemma moved_sub L L' s s' : moved L s s' -> L ⊆ L' -> moved L' s s'.
Proof. intros [R1 P1 F1] Hs. split; [done|done|]. intros l Hl. apply F1. set_solver. Qed.

Lemma moved_rep L s s' t : moved L s s' -> (forall l, l ∈ locs t -> l ∉ L) ->
  rep (onodes s) t -> rep (onodes s') t.
Proof. intros Hm Hd. apply rep_frame. intros l Hl. by apply Hm, Hd. Qed.

Lemma moved_size L s s' : moved L s s' -> size (onodes s') = size (onodes s).
Proof.
  intros [_ Hp _]. rewrite <- !(size_dom (D := gset loc)). f_equal.
  rewrite <- (dom_fmap_L (fun n => (magic n, elem n)) (onodes s')),
    <- (dom_fmap_L (fun n => (magic n, elem n)) (onodes s)). by unfold payload in Hp; rewrite Hp.
Qed.

(** ** Reading and writing nodes *)

Lemma wp_aload s l n (Q : AvlNode E -> OS -> Prop) : onodes s !! l = Some n -> Q n s -> wp (aload (Some l)) s Q.
Proof. unfold wp, aload. by intros ->. Qed.

Definition keeps (f : AvlNode E -> AvlNode E) : Prop := forall n, magic (f n) = magic n /\ elem (f n) = elem n.

Lemma keeps_left p : keeps (set_left p). Proof. done. Qed.
Lemma keeps_right p : keeps (set_right p). Proof. done. Qed.
Lemma keeps_balance b : keeps (set_balance b). Proof. done. Qed.

Lemma wp_astore s l n f (Q : unit -> OS -> Prop) : onodes s !! l = Some n -> keeps f ->
  (forall s', onodes s' = <[l := f n]> (onodes s) -> moved [l] s s' -> Q tt s') ->
  wp (astore (Some l) f) s Q.
Proof.
  intros En Hf HQ. unfold wp, astore. rewrite En. apply HQ; [done|]. split; [done| |].
  - cbn. unfold payload. rewrite fmap_insert. destruct (Hf n) as [-> ->].
    apply insert_id. by rewrite lookup_fmap, En.
  - intros k Hk. cbn. apply lookup_insert_ne. intros ->. apply Hk. set_solver.
Qed.

(** The outcome of an operation on the tree [t] that gives the tree [t'] *)
Definition gives (L : list loc) s t' (p : ptr) s' : Prop :=
  p = tptr t' /\ rep (onodes s') t' /\ moved L s s'.

Definition does (m : ptr -> M OS ptr) (f : tree E -> option (tree E)) : Prop :=
  forall t t' s, f t = Some t' -> rep (onodes s) t -> NoDup (locs t) ->
    wp (m (tptr t)) s (gives (locs t) s t').
End Shape.

#[export] Hint Resolve keeps_left keeps_right keeps_balance : core.

(** ** Distinctness *)

Section Distinct.
Context {E : Type}.
Implicit Types (t : tree E) (l : loc).

Lemma disj_sym (L L' : list loc) : L ## L' -> L' ## L.
Proof. intros Hd k H1 H2. by apply (Hd k). Qed.

Lemma not_in_leaf l : l ∉ locs (Leaf (E := E)) <-> True.
Proof. split; [done|]. intros _ Hl. by apply not_elem_of_nil in Hl. Qed.

Lemma not_in_node k b l e tl tr :
  k ∉ locs (Node (E := E) b l e tl tr) <-> k <> l /\ k ∉ locs tl /\ k ∉ locs tr.
Proof. rewrite locs_node, not_elem_of_app, not_elem_of_cons. tauto. Qed.

Lemma disj_node_l (L : list loc) b l e tl tr :
  locs (Node (E := E) b l e tl tr) ## L <-> l ∉ L /\ locs tl ## L /\ locs tr ## L.
Proof. rewrite locs_node. set_solver. Qed.

Lemma disj_node_r (L : list loc) b l e tl tr :
  L ## locs (Node (E := E) b l e tl tr) <-> l ∉ L /\ L ## locs tl /\ L ## locs tr.
Proof. rewrite locs_node. set_solver. Qed.

Lemma nodup_node b l e tl tr : NoDup (locs (Node (E := E) b l e tl tr)) <->
  l ∉ locs tl /\ l ∉ locs tr /\ locs tl ## locs tr /\ NoDup (locs tl) /\ NoDup (locs tr).
Proof.
  rewrite locs_node, NoDup_app, NoDup_cons. setoid_rewrite not_elem_of_cons. split.
  - intros (N1 & Hd & Hl & N2). split_and!; [|done| |done|done].
    + intros Hin. by destruct (Hd _ Hin).
    + intros k Hk Hk'. by destruct (Hd _ Hk).
  - intros (Hl & Hr & Hd & N1 & N2). split_and!; [done| |done|done]. intros k Hk. split.
    + by intros ->.
    + intros Hk'. by apply (Hd k).
Qed.
End Distinct.

(** The distinctness facts of a tree without repetitions, one by one *)
Ltac nodup_tree Hnd :=
  repeat first [rewrite nodup_node in Hnd | rewrite not_in_node in Hnd | rewrite not_in_leaf in Hnd
               | rewrite disj_node_l in Hnd | rewrite disj_node_r in Hnd];
  destruct_and? Hnd.

(** A loaded or stored node is known; what it represents is not changed. *)
Ltac os_lookup :=
  repeat match goal with
  | Ho : onodes ?s = <[_ := _]> _ |- context [onodes ?s] => rewrite Ho
  end;
  repeat first [rewrite lookup_insert_eq | rewrite lookup_insert_ne by congruence];
  cbn [tptr]; first [eassumption | reflexivity].
Ltac os_bind := repeat lazymatch goal with |- wp (bind _ _) _ _ => apply wp_bind end.
Ltac os_load := os_bind; eapply wp_aload; [os_lookup|]; cbn [aleft aright balance magic elem set_left set_right set_balance].
Ltac os_store := os_bind; eapply wp_astore; [os_lookup|by auto|]; intros ? ? ?.
Ltac os_rep :=
  repeat match goal with
  | Ho : onodes ?s = <[_ := _]> _ |- context [onodes ?s] => rewrite Ho
  end;
  repeat (apply arep_insert; [assumption|]); assumption.
Ltac os_moved :=
  lazymatch goal with
  | |- moved _ ?s ?s => apply moved_refl
  | _ => eapply amoved_trans; [|eapply moved_sub; [eassumption|clear; rewrite ?locs_node; set_solver]]; os_moved
  end.
(** A tree's nodes, one by one *)
Ltac os_tree := cbn [rep]; repeat match goal with |- _ /\ _ => split end; first [os_rep|os_lookup].
Ltac os_done := apply wp_ret; split; [reflexivity|]; split; [os_tree|os_moved].

Section Swings.
Context {K E P : Type} `{OSetElem K E} `{NodePool P}.
Abbreviation OS := (OSet K E P).
Implicit Types (s : OS) (t u : tree E) (l : loc).

Lemma swl_does : does (avl_swl (K := K) (P := P)) (t_swl (E := E)).
Proof.
  intros t t' s Ht Hrep Hnd. destruct t as [|b l e tl [|b' l' e' x y]]; simplify_eq/=.
  destruct Hrep as (E1 & Rl & E2 & Rx & Ry). nodup_tree Hnd. unfold avl_swl.
  do 2 os_load. do 2 os_store. os_done.
Qed.

Lemma swr_does : does (avl_swr (K := K) (P := P)) (t_swr (E := E)).
Proof.
  intros t t' s Ht Hrep Hnd. destruct t as [|b l e [|b' l' e' x y] tr]; simplify_eq/=.
  destruct Hrep as (E1 & (E2 & Rx & Ry) & Rr). nodup_tree Hnd. unfold avl_swr.
  do 2 os_load. do 2 os_store. os_done.
Qed.

Lemma nasty_does : does (fun p => avl_nasty (K := K) (P := P) p ;;; ret p) (t_nasty (E := E)).
Proof.
  intros t t' s Ht Hrep Hnd. destruct t as [|b l e [|bl ll el x1 x2] [|br lr er y1 y2]]; simplify_eq/=.
  destruct Hrep as (E1 & (E2 & Rx1 & Rx2) & E3 & Ry1 & Ry2). nodup_tree Hnd.
  unfold avl_nasty, nasty_bals in *. os_load. os_bind.
  destruct (b =? -1); [simplify_eq; do 3 os_store; os_done|].
  destruct (b =? 1); [simplify_eq; do 3 os_store; os_done|].
  destruct (b =? 0); [simplify_eq; do 3 os_store; os_done|].
  simplify_eq. apply wp_ret. os_store. os_done.
Qed.

Lemma swing_left_does b bl : does (fun p => swing_left (K := K) (P := P) p b bl) (t_swing_left (E := E) b bl).
Proof.
  intros t t' s Ht Hrep Hnd. destruct t as [|b0 l e tl [|b' l' e' x y]]; simplify_eq/=.
  destruct Hrep as (E1 & Rl & E2 & Rx & Ry). nodup_tree Hnd. unfold swing_left, avl_swl.
  do 2 os_load. do 2 os_store. apply wp_ret. os_store. os_load. os_store. os_done.
Qed.

Lemma swing_right_does b br : does (fun p => swing_right (K := K) (P := P) p b br) (t_swing_right (E := E) b br).
Proof.
  intros t t' s Ht Hrep Hnd. destruct t as [|b0 l e [|b' l' e' x y] tr]; simplify_eq/=.
  destruct Hrep as (E1 & (E2 & Rx & Ry) & Rr). nodup_tree Hnd. unfold swing_right, avl_swr.
  do 2 os_load. do 2 os_store. apply wp_ret. os_store. os_load. os_store. os_done.
Qed.
End Swings.

(** ** Operations on a part of a tree *)

Section Compose.
Context {K E P : Type} `{OSetElem K E} `{NodePool P}.
Abbreviation OS := (OSet K E P).
Implicit Types (s : OS) (t u : tree E) (l : loc).

Lemma elems_locs t t' : elems t' = elems t -> locs t' = locs t.
Proof. unfold locs. by intros ->. Qed.

(** An operation on a tree that an earlier one left *)
Lemma wp_does m f t t' L s0 s (Q : ptr -> OS -> Prop) : does m f -> f t = Some t' ->
  rep (onodes s) t -> NoDup (locs t) -> moved L s0 s -> locs t ⊆ L ->
  (forall s', rep (onodes s') t' -> moved L s0 s' -> Q (tptr t') s') -> wp (m (tptr t)) s Q.
Proof.
  intros Hd Ht Hr Hn Hm Hs HQ. eapply wp_mono; [by apply (Hd t t' s)|]. intros p s' (-> & Hr' & Hm').
  apply HQ; [done|]. eapply amoved_trans; [done|by eapply moved_sub].
Qed.

(** A child of the root is replaced by the tree that it has become. *)
Lemma wp_set_left L s s1 b l e tl tl' tr (Q : unit -> OS -> Prop) :
  rep (onodes s) (Node b l e tl tr) -> moved L s s1 -> l ∉ L -> l ∉ locs tl' -> l ∉ locs tr ->
  L ## locs tr -> rep (onodes s1) tl' ->
  (forall s2, rep (onodes s2) (Node b l e tl' tr) -> moved (l :: L) s s2 -> Q tt s2) ->
  wp (astore (Some l) (set_left (tptr tl'))) s1 Q.
Proof.
  intros (E1 & Hl & Hr) Hm H1 H2 H3 Hd Hl' HQ.
  eapply wp_astore; [rewrite (mv_frame _ _ _ Hm) by done; exact E1|by auto|]. intros s2 E2 Hm2. apply HQ.
  - cbn [rep]. rewrite E2. split; [apply lookup_insert_eq|]. split; (apply arep_insert; [done|]); [done|].
    eapply moved_rep; [done| |done]. intros k Hk Hk'. by apply (Hd k).
  - eapply amoved_trans; eapply moved_sub; try eassumption; set_solver.
Qed.

Lemma wp_set_right L s s1 b l e tl tr tr' (Q : unit -> OS -> Prop) :
  rep (onodes s) (Node b l e tl tr) -> moved L s s1 -> l ∉ L -> l ∉ locs tl -> l ∉ locs tr' ->
  L ## locs tl -> rep (onodes s1) tr' ->
  (forall s2, rep (onodes s2) (Node b l e tl tr') -> moved (l :: L) s s2 -> Q tt s2) ->
  wp (astore (Some l) (set_right (tptr tr'))) s1 Q.
Proof.
  intros (E1 & Hl & Hr) Hm H1 H2 H3 Hd Hr' HQ.
  eapply wp_astore; [rewrite (mv_frame _ _ _ Hm) by done; exact E1|by auto|]. intros s2 E2 Hm2. apply HQ.
  - cbn [rep]. rewrite E2. split; [apply lookup_insert_eq|]. split; (apply arep_insert; [done|]); [|done].
    eapply moved_rep; [done| |done]. intros k Hk Hk'. by apply (Hd k).
  - eapply amoved_trans; eapply moved_sub; try eassumption; set_solver.
Qed.

(** Nothing is stored when the child's pointer has not changed. *)
Lemma rep_left L s s1 b l e tl tl' tr :
  rep (onodes s) (Node b l e tl tr) -> moved L s s1 -> l ∉ L -> L ## locs tr -> rep (onodes s1) tl' ->
  tptr tl' = tptr tl -> rep (onodes s1) (Node b l e tl' tr).
Proof.
  intros (E1 & Hl & Hr) Hm H1 Hd Hl' Hp. cbn [rep]. rewrite (mv_frame _ _ _ Hm), Hp by done.
  split_and!; [done|done|]. eapply moved_rep; [done| |done]. intros k Hk Hk'. by apply (Hd k).
Qed.

Lemma rep_right L s s1 b l e tl tr tr' :
  rep (onodes s) (Node b l e tl tr) -> moved L s s1 -> l ∉ L -> L ## locs tl -> rep (onodes s1) tr' ->
  tptr tr' = tptr tr -> rep (onodes s1) (Node b l e tl tr').
Proof.
  intros (E1 & Hl & Hr) Hm H1 Hd Hl' Hp. cbn [rep]. rewrite (mv_frame _ _ _ Hm), Hp by done.
  split_and!; [done| |done]. eapply moved_rep; [done| |done]. intros k Hk Hk'. by apply (Hd k).
Qed.

(** ** What the operations do to the elements *)

Lemma swl_elems t t' : t_swl t = Some t' -> elems t' = elems t.
Proof. destruct t as [|b l e tl [|b' l' e' x y]]; intros; simplify_eq/=. by rewrite <- app_assoc. Qed.

Lemma swr_elems t t' : t_swr t = Some t' -> elems t' = elems t.
Proof. destruct t as [|b l e [|b' l' e' x y] tr]; intros; simplify_eq/=. by rewrite <- app_assoc. Qed.

Lemma nasty_elems t t' : t_nasty t = Some t' -> elems t' = elems t.
Proof.
  destruct t as [|b l e [|bl ll el x1 x2] [|br lr er y1 y2]]; intros Ht; try done. unfold t_nasty in Ht.
  destruct (nasty_bals b bl br). by simplify_eq.
Qed.

Lemma swing_left_elems b bl t t' : t_swing_left b bl t = Some t' -> elems t' = elems t.
Proof. destruct t as [|b0 l e tl [|b' l' e' x y]]; intros; simplify_eq/=. by rewrite <- app_assoc. Qed.

Lemma swing_right_elems b br t t' : t_swing_right b br t = Some t' -> elems t' = elems t.
Proof. destruct t as [|b0 l e [|b' l' e' x y] tr]; intros; simplify_eq/=. by rewrite <- app_assoc. Qed.

Lemma swing_rl_elems t t' : t_swing_rl t = Some t' -> elems t' = elems t.
Proof.
  destruct t as [|b l e tl tr]; [done|]. cbn [t_swing_rl].
  intros (tr' & H1%swr_elems & (t1 & H2%swl_elems & H3%nasty_elems)%bind_Some)%bind_Some.
  rewrite H3, H2. cbn [elems]. by rewrite H1.
Qed.

Lemma swing_lr_elems t t' : t_swing_lr t = Some t' -> elems t' = elems t.
Proof.
  destruct t as [|b l e tl tr]; [done|]. cbn [t_swing_lr].
  intros (tl' & H1%swl_elems & (t1 & H2%swr_elems & H3%nasty_elems)%bind_Some)%bind_Some.
  rewrite H3, H2. cbn [elems]. by rewrite H1.
Qed.

(** ** Double swings *)

Lemma swing_rl_does : does (swing_right_left (K := K) (P := P)) (t_swing_rl (E := E)).
Proof.
  intros t t' s Ht Hrep Hnd. destruct t as [|b l e tl tr]; [done|]. cbn [t_swing_rl tptr] in *.
  apply bind_Some in Ht as (tr' & H1 & (t1 & H2 & H3)%bind_Some).
  pose proof (elems_locs _ _ (swr_elems _ _ H1)) as L1. pose proof (elems_locs _ _ (swl_elems _ _ H2)) as L2.
  rewrite locs_node, L1, <- (locs_node b l e) in L2.
  pose proof Hrep as (E1 & Hl & Hr). pose proof Hnd as Hnd'. apply nodup_node in Hnd' as (Nl & Nr & Nd & _ & Nn).
  unfold swing_right_left. os_load.
  apply wp_bind. eapply (wp_does _ _ tr tr' (locs tr)); [apply swr_does|done|done|done|apply moved_refl|done|].
  intros s1 R1 M1. apply wp_bind. eapply wp_set_right; [exact Hrep|exact M1|done|done|by rewrite L1|by apply disj_sym|done|].
  intros s2 R2 M2. apply wp_bind.
  eapply (wp_does _ _ (Node b l e tl tr') t1 (locs (Node b l e tl tr)));
    [apply swl_does|done|done| |eapply moved_sub; [exact M2|]| |].
  - by rewrite locs_node, L1, <- (locs_node b l e).
  - rewrite locs_node. set_solver.
  - by rewrite !locs_node, L1.
  - intros s3 R3 M3. eapply (wp_does (fun p => avl_nasty p ;;; ret p) _ t1 t'); [apply nasty_does|done|done|by rewrite L2|exact M3|by rewrite L2|].
    intros s4 R4 M4. by split.
Qed.

Lemma swing_lr_does : does (swing_left_right (K := K) (P := P)) (t_swing_lr (E := E)).
Proof.
  intros t t' s Ht Hrep Hnd. destruct t as [|b l e tl tr]; [done|]. cbn [t_swing_lr tptr] in *.
  apply bind_Some in Ht as (tl' & H1 & (t1 & H2 & H3)%bind_Some).
  pose proof (elems_locs _ _ (swl_elems _ _ H1)) as L1. pose proof (elems_locs _ _ (swr_elems _ _ H2)) as L2.
  rewrite locs_node, L1, <- (locs_node b l e) in L2.
  pose proof Hrep as (E1 & Hl & Hr). pose proof Hnd as Hnd'. apply nodup_node in Hnd' as (Nl & Nr & Nd & Nn & _).
  unfold swing_left_right. os_load.
  apply wp_bind. eapply (wp_does _ _ tl tl' (locs tl)); [apply swl_does|done|done|done|apply moved_refl|done|].
  intros s1 R1 M1. apply wp_bind. eapply wp_set_left; [exact Hrep|exact M1|done|by rewrite L1|done|done|done|].
  intros s2 R2 M2. apply wp_bind.
  eapply (wp_does _ _ (Node b l e tl' tr) t1 (locs (Node b l e tl tr)));
    [apply swr_does|done|done| |eapply moved_sub; [exact M2|]| |].
  - by rewrite locs_node, L1, <- (locs_node b l e).
  - rewrite locs_node. set_solver.
  - by rewrite !locs_node, L1.
  - intros s3 R3 M3. eapply (wp_does (fun p => avl_nasty p ;;; ret p) _ t1 t'); [apply nasty_does|done|done|by rewrite L2|exact M3|by rewrite L2|].
    intros s4 R4 M4. by split.
Qed.
End Compose.
