(* ===== verification/OSetOps.v ===== *)
(** Insertion, lookup and removal in [m_oset.c] do to memory what their
    counterparts in [AvlProofs] do to the tree it holds. *)
From stdpp Require Import base gmap list option sets fin_maps.
From Stdlib Require Import ZArith Lia.
From S2P Require Import Prelude Chains OSet AvlProofs OSetShape.
Open Scope prog_scope.
Open Scope Z_scope.

Section Ops.
Context {K E P : Type} `{OSetElem K E} `{NodePool P}.
Abbreviation OS := (OSet K E P).
Implicit Types (s : OS) (t u : tree E) (l : loc) (h : gmap loc (AvlNode E)).

(** ** Elements in memory *)

Lemma rep_elem h t l e : rep h t -> (l, e) ∈ elems t ->
  exists n, h !! l = Some n /\ magic n = OSET_MAGIC /\ elem n = e.
Proof.
  induction t as [|b l' e' tl IHl tr IHr]; [intros _ Hx; by apply not_elem_of_nil in Hx|].
  intros (E1 & Hl & Hr) [Hx|[[= -> ->]|Hx]%elem_of_cons]%elem_of_app; [by apply IHl|by eauto|by apply IHr].
Qed.

Lemma rep_lookup h t l : rep h t -> l ∈ locs t -> exists n, h !! l = Some n.
Proof.
  intros Hr ([l' e] & -> & Hx)%list_elem_of_fmap. destruct (rep_elem h t l' e Hr Hx) as (n & E1 & _). eauto.
Qed.

(** There are no more elements than nodes. *)
Lemma rep_length h t : rep h t -> NoDup (locs t) -> (length (elems t) <= size h)%nat.
Proof.
  intros Hr Hn. replace (length (elems t)) with (size (list_to_set (locs t) : gset loc)).
  2:{ rewrite size_list_to_set by done. apply length_fmap. }
  rewrite <- (size_dom (D := gset loc)). apply subseteq_size. intros l Hl%elem_of_list_to_set.
  apply elem_of_dom. destruct (rep_lookup h t l Hr Hl) as (n & ->). by eexists.
Qed.

(** The comparison of two elements *)
Definition ecmp (c : option (K -> E -> Z)) (a b : E) : Z :=
  match c with Some c => c (key_of a) b | None => word_cmp (eword a) (eword b) end.
(** The comparison of a key and an element *)
Definition kcmp (c : option (K -> E -> Z)) (k : K) (b : E) : Z :=
  match c with Some c => c k b | None => word_cmp (kword k) (eword b) end.

Lemma wp_elem_of_node s l n (Q : E -> OS -> Prop) : onodes s !! l = Some n -> magic n = OSET_MAGIC ->
  Q (elem n) s -> wp (elem_of_node (Some l)) s Q.
Proof. intros E1 Hm HQ. unfold elem_of_node, bind, wp, aload. by rewrite E1, Hm. Qed.

Lemma wp_cmp_key_root s l n nl nn (Q : Z -> OS -> Prop) :
  onodes s !! l = Some nl -> magic nl = OSET_MAGIC -> onodes s !! n = Some nn -> magic nn = OSET_MAGIC ->
  Q (ecmp (ocmp s) (elem nn) (elem nl)) s -> wp (cmp_key_root (Some l) (Some n)) s Q.
Proof.
  intros E1 M1 E2 M2 HQ. unfold cmp_key_root, ecmp in *. apply wp_bind, wp_gets.
  destruct (ocmp s); apply wp_bind; (eapply wp_elem_of_node; [done|done|]); apply wp_bind;
    by (eapply wp_elem_of_node; [done|done|]).
Qed.

(** ** Rebalancing *)

(** The outcome of an operation on [t] that also says whether the depth has
    changed *)
Definition gives2 (L : list loc) s (g : bool) t' (r : bool * ptr) s' : Prop :=
  r.1 = g /\ gives L s t' r.2 s'.

Definition does2 (m : ptr -> M OS (bool * ptr)) (f : tree E -> option (bool * tree E)) : Prop :=
  forall t g t' s, f t = Some (g, t') -> rep (onodes s) t -> NoDup (locs t) ->
    wp (m (tptr t)) s (gives2 (locs t) s g t').

Lemma wp_does2 m f t g t' L s0 s (Q : bool * ptr -> OS -> Prop) : does2 m f -> f t = Some (g, t') ->
  rep (onodes s) t -> NoDup (locs t) -> moved L s0 s -> locs t ⊆ L ->
  (forall s', rep (onodes s') t' -> moved L s0 s' -> Q (g, tptr t') s') -> wp (m (tptr t)) s Q.
Proof.
  intros Hd Ht Hr Hn Hm Hs HQ. eapply wp_mono; [by apply (Hd t g t' s)|].
  intros [g' p] s' [Eg (Ep & Hr' & Hm')]. cbn in Eg, Ep. subst g' p.
  apply HQ; [done|]. eapply amoved_trans; [done|by eapply moved_sub].
Qed.

Lemma wp_add_balance s d b l e tl tr (Q : Z -> OS -> Prop) :
  rep (onodes s) (Node b l e tl tr) -> NoDup (locs (Node b l e tl tr)) ->
  (forall s', rep (onodes s') (Node (i8 (b + d)) l e tl tr) -> moved (locs (Node b l e tl tr)) s s' -> Q b s') ->
  wp (add_balance (Some l) d) s Q.
Proof.
  intros (E1 & Hl & Hr) Hn HQ. nodup_tree Hn. unfold add_balance. os_load. os_store. apply wp_ret. apply HQ.
  - os_tree.
  - os_moved.
Qed.

(** After the balance has been changed, one of several operations is run. *)
Ltac grown_step Hrep Hnd HM :=
  let s' := fresh "s" in let R := fresh "R" in
  apply wp_bind; eapply wp_add_balance; [exact Hrep|exact Hnd|]; intros s' R HM; cbv beta.
Ltac grown_ret := apply wp_ret; split; [reflexivity|split; [reflexivity|by split]].
Tactic Notation "grown_swing" uconstr(lem) hyp(HM) hyp(Hnd) :=
  apply wp_bind; eapply (wp_does _ _ (Node _ _ _ _ _) _ _ _ _ _ lem);
  [eassumption|eassumption|exact Hnd|exact HM|done|]; intros; grown_ret.

Lemma left_grown_does : does2 (left_grown (K := K) (P := P)) (t_left_grown (E := E)).
Proof.
  intros t g t' s Ht Hrep Hnd. destruct t as [|b l e tl tr]; [done|]. cbn [t_left_grown] in Ht. cbv zeta in Ht.
  unfold left_grown. grown_step Hrep Hnd HM. cbn [tptr].
  destruct (b =? 1); [simplify_eq; grown_ret|]. destruct (b =? 0); [simplify_eq; grown_ret|].
  apply bind_Some in Ht as (t2 & Ht & ?). simplify_eq. destruct tl as [|bl ll el xl yl]; [done|].
  pose proof R as (E1 & (E2 & _) & _). os_load. os_load. cbn [bal] in Ht.
  destruct (bl <? 0); [grown_swing (swing_right_does _ _) HM Hnd|grown_swing swing_lr_does HM Hnd].
Qed.

Lemma right_grown_does : does2 (right_grown (K := K) (P := P)) (t_right_grown (E := E)).
Proof.
  intros t g t' s Ht Hrep Hnd. destruct t as [|b l e tl tr]; [done|]. cbn [t_right_grown] in Ht. cbv zeta in Ht.
  unfold right_grown. grown_step Hrep Hnd HM. cbn [tptr].
  destruct (b =? -1); [simplify_eq; grown_ret|]. destruct (b =? 0); [simplify_eq; grown_ret|].
  apply bind_Some in Ht as (t2 & Ht & ?). simplify_eq. destruct tr as [|br lr er xr yr]; [done|].
  pose proof R as (E1 & _ & (E2 & _)). os_load. os_load. cbn [bal] in Ht.
  destruct (0 <? br); [grown_swing (swing_left_does _ _) HM Hnd|grown_swing swing_rl_does HM Hnd].
Qed.

Lemma left_shrunk_does : does2 (left_shrunk (K := K) (P := P)) (t_left_shrunk (E := E)).
Proof.
  intros t g t' s Ht Hrep Hnd. destruct t as [|b l e tl tr]; [done|]. cbn [t_left_shrunk] in Ht. cbv zeta in Ht.
  unfold left_shrunk. grown_step Hrep Hnd HM. cbn [tptr].
  destruct (b =? -1); [simplify_eq; grown_ret|]. destruct (b =? 0); [simplify_eq; grown_ret|].
  destruct tr as [|br lr er xr yr]; [done|]. pose proof R as (E1 & _ & (E2 & _)). os_load. os_load. cbn [bal] in Ht.
  destruct (br =? 0); [|destruct (br =? 1)]; apply bind_Some in Ht as (t2 & Ht & ?); simplify_eq;
    [grown_swing (swing_left_does _ _) HM Hnd..|grown_swing swing_rl_does HM Hnd].
Qed.

Lemma right_shrunk_does : does2 (right_shrunk (K := K) (P := P)) (t_right_shrunk (E := E)).
Proof.
  intros t g t' s Ht Hrep Hnd. destruct t as [|b l e tl tr]; [done|]. cbn [t_right_shrunk] in Ht. cbv zeta in Ht.
  unfold right_shrunk. grown_step Hrep Hnd HM. cbn [tptr].
  destruct (b =? 1); [simplify_eq; grown_ret|]. destruct (b =? 0); [simplify_eq; grown_ret|].
  destruct tl as [|bl ll el xl yl]; [done|]. pose proof R as (E1 & (E2 & _) & _). os_load. os_load. cbn [bal] in Ht.
  destruct (bl =? 0); [|destruct (bl =? -1)]; apply bind_Some in Ht as (t2 & Ht & ?); simplify_eq;
    [grown_swing (swing_right_does _ _) HM Hnd..|grown_swing swing_lr_does HM Hnd].
Qed.

(** ** The nodes of a rebalanced tree *)

Lemma left_grown_elems t g t' : t_left_grown t = Some (g, t') ->
  elems t' = elems t /\ (g = true -> tptr t' = tptr t).
Proof.
  destruct t as [|b l e tl tr]; [done|]. cbn [t_left_grown]. cbv zeta.
  destruct (b =? 1); [by intros [= <- <-]|]. destruct (b =? 0); [by intros [= <- <-]|].
  intros (t2 & Ht & [= <- <-])%bind_Some. split; [|done].
  destruct (bal tl <? 0); [by apply swing_right_elems in Ht|by apply swing_lr_elems in Ht].
Qed.

Lemma right_grown_elems t g t' : t_right_grown t = Some (g, t') ->
  elems t' = elems t /\ (g = true -> tptr t' = tptr t).
Proof.
  destruct t as [|b l e tl tr]; [done|]. cbn [t_right_grown]. cbv zeta.
  destruct (b =? -1); [by intros [= <- <-]|]. destruct (b =? 0); [by intros [= <- <-]|].
  intros (t2 & Ht & [= <- <-])%bind_Some. split; [|done].
  destruct (0 <? bal tr); [by apply swing_left_elems in Ht|by apply swing_rl_elems in Ht].
Qed.

Lemma left_shrunk_elems t g t' : t_left_shrunk t = Some (g, t') -> elems t' = elems t.
Proof.
  destruct t as [|b l e tl tr]; [done|]. cbn [t_left_shrunk]. cbv zeta.
  destruct (b =? -1); [by intros [= <- <-]|]. destruct (b =? 0); [by intros [= <- <-]|].
  destruct (bal tr =? 0); [|destruct (bal tr =? 1)]; intros (t2 & Ht & [= <- <-])%bind_Some;
    [by apply swing_left_elems in Ht..|by apply swing_rl_elems in Ht].
Qed.

Lemma right_shrunk_elems t g t' : t_right_shrunk t = Some (g, t') -> elems t' = elems t.
Proof.
  destruct t as [|b l e tl tr]; [done|]. cbn [t_right_shrunk]. cbv zeta.
  destruct (b =? 1); [by intros [= <- <-]|]. destruct (b =? 0); [by intros [= <- <-]|].
  destruct (bal tl =? 0); [|destruct (bal tl =? -1)]; intros (t2 & Ht & [= <- <-])%bind_Some;
    [by apply swing_right_elems in Ht..|by apply swing_lr_elems in Ht].
Qed.

(** ** Insertion *)

Lemma insert_locs ec n en t g t' : t_insert ec n en t = Some (g, t') ->
  locs t' ≡ₚ n :: locs t /\ (g = true -> tptr t' = tptr t).
Proof.
  revert g t'. induction t as [|b l e tl IHl tr IHr]; intros g t' Ht; [done|]. cbn [t_insert] in Ht.
  destruct (ec en e <? 0).
  - destruct tl as [|b0 l0 e0 x y] eqn:Etl; [simplify_eq; by rewrite !locs_node|]. rewrite <- Etl in *.
    apply bind_Some in Ht as ([g1 t1] & H1 & Ht). destruct (IHl _ _ H1) as [Hp _]. cbn [fst snd] in Ht.
    assert (locs (Node b l e t1 tr) ≡ₚ n :: locs (Node b l e tl tr)) as Hn by (by rewrite !locs_node, Hp).
    destruct g1; [|by simplify_eq]. apply left_grown_elems in Ht as [He Hg].
    by rewrite (elems_locs _ _ He).
  - destruct (0 <? ec en e); [|done].
    destruct tr as [|b0 l0 e0 x y] eqn:Etr.
    { simplify_eq. rewrite !locs_node. split; [|done]. cbn. solve_Permutation. }
    rewrite <- Etr in *.
    apply bind_Some in Ht as ([g1 t1] & H1 & Ht). destruct (IHr _ _ H1) as [Hp _]. cbn [fst snd] in Ht.
    assert (locs (Node b l e tl t1) ≡ₚ n :: locs (Node b l e tl tr)) as Hn.
    { rewrite !locs_node, Hp. solve_Permutation. }
    destruct g1; [|by simplify_eq]. apply right_grown_elems in Ht as [He Hg].
    by rewrite (elems_locs _ _ He).
Qed.

Lemma moved_ocmp L s s' : moved L s s' -> ocmp s' = ocmp s.
Proof. intros [-> _ _]. done. Qed.

Lemma perm_sub (L L' : list loc) : L ≡ₚ L' -> L ⊆ L'.
Proof. intros Hp k. by rewrite Hp. Qed.

Lemma perm_notin (L L' : list loc) k : L ≡ₚ L' -> k ∉ L' -> k ∉ L.
Proof. intros Hp. by rewrite Hp. Qed.

Lemma disj_nil (L : list loc) : [] ## L.
Proof. intros k Hk. by apply not_elem_of_nil in Hk. Qed.

(** A new leaf is hung below the root. *)
Lemma new_left_does s b l e tr n en : rep (onodes s) (Node b l e Leaf tr) ->
  NoDup (n :: locs (Node b l e Leaf tr)) -> onodes s !! n = Some (mk_avl None None 0 OSET_MAGIC en) ->
  wp (astore (Some l) (set_left (Some n)) ;;; b <- add_balance (Some l) (-1) ;; ret (b =? 0, Some l)) s
    (gives2 (n :: locs (Node b l e Leaf tr)) s (b =? 0)
       (Node (i8 (b + -1)) l e (Node 0 n en Leaf Leaf) tr)).
Proof.
  intros Hrep Hnd En. assert (NoDup (locs (Node b l e (Node 0 n en Leaf Leaf) tr))) as Hnd'.
  { by rewrite !locs_node in *. }
  pose proof Hnd' as Hd. nodup_tree Hd.
  apply wp_bind. change (Some n) with (tptr (Node 0 n en Leaf Leaf)).
  eapply (wp_set_left []); [exact Hrep|apply moved_refl|apply not_elem_of_nil|by rewrite not_in_node, !not_in_leaf|done|apply disj_nil|by split|].
  intros s1 R1 M1. apply wp_bind. eapply wp_add_balance; [exact R1|done|]. intros s2 R2 M2. apply wp_ret.
  split; [done|]. split; [done|]. split; [done|].
  eapply amoved_trans; (eapply moved_sub; [eassumption|]); clear; rewrite ?locs_node; set_solver.
Qed.

Lemma new_right_does s b l e tl n en : rep (onodes s) (Node b l e tl Leaf) ->
  NoDup (n :: locs (Node b l e tl Leaf)) -> onodes s !! n = Some (mk_avl None None 0 OSET_MAGIC en) ->
  wp (astore (Some l) (set_right (Some n)) ;;; b <- add_balance (Some l) 1 ;; ret (b =? 0, Some l)) s
    (gives2 (n :: locs (Node b l e tl Leaf)) s (b =? 0)
       (Node (i8 (b + 1)) l e tl (Node 0 n en Leaf Leaf))).
Proof.
  intros Hrep Hnd En. assert (NoDup (locs (Node b l e tl (Node 0 n en Leaf Leaf)))) as Hnd'.
  { eapply (NoDup_Permutation_proper _ (n :: locs (Node b l e tl Leaf))); [|done].
    rewrite !locs_node. cbn. solve_Permutation. }
  pose proof Hnd' as Hd. nodup_tree Hd.
  apply wp_bind. change (Some n) with (tptr (Node 0 n en Leaf Leaf)).
  eapply (wp_set_right []); [exact Hrep|apply moved_refl|apply not_elem_of_nil|done|by rewrite not_in_node, !not_in_leaf|apply disj_nil|by split|].
  intros s1 R1 M1. apply wp_bind. eapply wp_add_balance; [exact R1|done|]. intros s2 R2 M2. apply wp_ret.
  split; [done|]. split; [done|]. split; [done|].
  eapply amoved_trans; (eapply moved_sub; [eassumption|]); clear; rewrite ?locs_node; set_solver.
Qed.

Definition insert_sim (fuel : nat) (t : tree E) : Prop := forall n en g t' s,
  t_insert (ecmp (ocmp s)) n en t = Some (g, t') -> rep (onodes s) t -> NoDup (n :: locs t) ->
  onodes s !! n = Some (mk_avl None None 0 OSET_MAGIC en) ->
  wp (avl_insert fuel (tptr t) (Some n)) s (gives2 (n :: locs t) s g t').

(** The recursive call and what follows it *)
Lemma insert_left_sim fuel b l e tl tr n en g t' s : insert_sim fuel tl ->
  rep (onodes s) (Node b l e tl tr) -> NoDup (n :: locs (Node b l e tl tr)) ->
  onodes s !! n = Some (mk_avl None None 0 OSET_MAGIC en) ->
  (r ← t_insert (ecmp (ocmp s)) n en tl;
   if r.1 : bool then t_left_grown (Node b l e r.2 tr) else Some (false, Node b l e r.2 tr)) = Some (g, t') ->
  wp (r <- avl_insert fuel (tptr tl) (Some n) ;;
      if r.1 : bool then left_grown (Some l)
      else astore (Some l) (set_left r.2) ;;; ret (false, Some l)) s
    (gives2 (n :: locs (Node b l e tl tr)) s g t').
Proof.
  intros IH Hrep Hnd En ([g1 t1] & H1 & Ht)%bind_Some. cbn [fst snd] in Ht.
  pose proof Hrep as (_ & Hl & _). pose proof Hnd as [Hn Hnd1]%NoDup_cons.
  pose proof Hn as Hn'. rewrite not_in_node in Hn'. destruct Hn' as (Nnl & Nnt & Nnr).
  pose proof Hnd1 as Hd. apply nodup_node in Hd as (N1 & N2 & N3 & N4 & N5).
  destruct (insert_locs _ _ _ _ _ _ H1) as [Hp Hg].
  assert (locs (Node b l e t1 tr) ≡ₚ n :: locs (Node b l e tl tr)) as Hpt by (by rewrite !locs_node, Hp).
  apply wp_bind. eapply wp_mono; [apply (IH n en g1 t1 s); [done|done|by constructor|done]|].
  intros [g2 p] s1 [Eg (Ep & R1 & M1)]. cbn in Eg, Ep. subst g2 p. cbn [fst snd].
  assert (l ∉ n :: locs tl) as Nl by (rewrite not_elem_of_cons; by split).
  assert (n :: locs tl ## locs tr) as Hdr.
  { intros k [->|Hk]%elem_of_cons Hk'; [done|by apply (N3 k)]. }
  assert (n :: locs tl ⊆ n :: locs (Node b l e tl tr)) as Hsub by (clear; rewrite locs_node; set_solver).
  destruct g1.
  - eapply (wp_does2 _ _ (Node b l e t1 tr)); [apply left_grown_does|exact Ht| | |by eapply moved_sub| |].
    + eapply rep_left; [exact Hrep|exact M1|done|done|done|by apply Hg].
    + by rewrite Hpt.
    + by apply perm_sub.
    + intros s2 R2 M2. by split.
  - simplify_eq. apply wp_bind. eapply wp_set_left; [exact Hrep|exact M1|done| |done|done|done|].
    { eapply perm_notin; [exact Hp|done]. }
    intros s2 R2 M2. apply wp_ret. split; [done|]. split; [done|]. split; [done|].
    eapply moved_sub; [exact M2|clear; rewrite locs_node; set_solver].
Qed.

Lemma insert_right_sim fuel b l e tl tr n en g t' s : insert_sim fuel tr ->
  rep (onodes s) (Node b l e tl tr) -> NoDup (n :: locs (Node b l e tl tr)) ->
  onodes s !! n = Some (mk_avl None None 0 OSET_MAGIC en) ->
  (r ← t_insert (ecmp (ocmp s)) n en tr;
   if r.1 : bool then t_right_grown (Node b l e tl r.2) else Some (false, Node b l e tl r.2)) = Some (g, t') ->
  wp (r <- avl_insert fuel (tptr tr) (Some n) ;;
      if r.1 : bool then right_grown (Some l)
      else astore (Some l) (set_right r.2) ;;; ret (false, Some l)) s
    (gives2 (n :: locs (Node b l e tl tr)) s g t').
Proof.
  intros IH Hrep Hnd En ([g1 t1] & H1 & Ht)%bind_Some. cbn [fst snd] in Ht.
  pose proof Hrep as (_ & _ & Hr). pose proof Hnd as [Hn Hnd1]%NoDup_cons.
  pose proof Hn as Hn'. rewrite not_in_node in Hn'. destruct Hn' as (Nnl & Nnt & Nnr).
  pose proof Hnd1 as Hd. apply nodup_node in Hd as (N1 & N2 & N3 & N4 & N5).
  destruct (insert_locs _ _ _ _ _ _ H1) as [Hp Hg].
  assert (locs (Node b l e tl t1) ≡ₚ n :: locs (Node b l e tl tr)) as Hpt
    by (rewrite !locs_node, Hp; solve_Permutation).
  apply wp_bind. eapply wp_mono; [apply (IH n en g1 t1 s); [done|done|by constructor|done]|].
  intros [g2 p] s1 [Eg (Ep & R1 & M1)]. cbn in Eg, Ep. subst g2 p. cbn [fst snd].
  assert (l ∉ n :: locs tr) as Nl by (rewrite not_elem_of_cons; by split).
  assert (n :: locs tr ## locs tl) as Hdr.
  { intros k [->|Hk]%elem_of_cons Hk'; [done|by apply (N3 k)]. }
  assert (n :: locs tr ⊆ n :: locs (Node b l e tl tr)) as Hsub by (clear; rewrite locs_node; set_solver).
  destruct g1.
  - eapply (wp_does2 _ _ (Node b l e tl t1)); [apply right_grown_does|exact Ht| | |by eapply moved_sub| |].
    + eapply rep_right; [exact Hrep|exact M1|done|done|done|by apply Hg].
    + by rewrite Hpt.
    + by apply perm_sub.
    + intros s2 R2 M2. by split.
  - simplify_eq. apply wp_bind. eapply wp_set_right; [exact Hrep|exact M1|done|done| |done|done|].
    { eapply perm_notin; [exact Hp|done]. }
    intros s2 R2 M2. apply wp_ret. split; [done|]. split; [done|]. split; [done|].
    eapply moved_sub; [exact M2|clear; rewrite locs_node; set_solver].
Qed.

Lemma insert_does fuel t : (length (elems t) < fuel)%nat -> insert_sim fuel t.
Proof.
  revert t. induction fuel as [|fuel IH]; [lia|]. intros t Hf n en g t' s Ht Hrep Hnd En.
  destruct t as [|b l e tl tr]; [done|]. cbn [elems] in Hf. rewrite length_app in Hf. cbn [length] in Hf.
  pose proof Hrep as (E1 & _). cbn [avl_insert tptr]. cbn [t_insert] in Ht.
  apply wp_bind. eapply wp_cmp_key_root; [exact E1|done|exact En|done|]. cbn [elem].
  apply wp_bind. eapply wp_aload; [exact E1|]. cbn [aleft aright].
  destruct (ecmp (ocmp s) en e <? 0).
  - destruct tl as [|b0 l0 e0 x y] eqn:Etl.
    + simplify_eq. cbn [tptr]. by apply new_left_does.
    + rewrite <- Etl in *. assert (tptr tl = Some l0) as Ep by (by rewrite Etl). rewrite Ep at 1.
      apply insert_left_sim with (en := en); [apply IH; lia|done..].
  - destruct (0 <? ecmp (ocmp s) en e); [|done]. destruct tr as [|b0 l0 e0 x y] eqn:Etr.
    + simplify_eq. cbn [tptr]. by apply new_right_does.
    + rewrite <- Etr in *. assert (tptr tr = Some l0) as Ep by (by rewrite Etr). rewrite Ep at 1.
      apply insert_right_sim with (en := en); [apply IH; lia|done..].
Qed.

(** An element that compares equal to one in the tree is refused, whatever the
    fuel. *)
Lemma insert_dup fuel t n en l e s : ElemOrder (ecmp (ocmp s)) -> rep (onodes s) t ->
  ordered (ecmp (ocmp s)) t -> (l, e) ∈ elems t -> ecmp (ocmp s) en e = 0 ->
  onodes s !! n = Some (mk_avl None None 0 OSET_MAGIC en) ->
  avl_insert fuel (tptr t) (Some n) s = None.
Proof.
  intros Ho. revert t. induction fuel as [|fuel IH]; [done|]. intros t Hrep Hord Hin Heq En.
  destruct t as [|b l0 e0 tl tr]; [by apply not_elem_of_nil in Hin|].
  pose proof Hrep as (E1 & Hl & Hr). apply ordered_node in Hord as (Ol & Or & Sl & Sr); [|done].
  cbn [avl_insert tptr elems] in *. unfold bind.
  assert (cmp_key_root (Some l0) (Some n) s = Some (ecmp (ocmp s) en e0, s)) as ->.
  { apply (wp_elim (cmp_key_root (Some l0) (Some n)) s).
    eapply wp_cmp_key_root; [exact E1|done|exact En|done|]. done. }
  unfold aload. rewrite E1. cbn [aleft aright].
  assert (forall x y z : E, ecmp (ocmp s) x y < 0 -> ecmp (ocmp s) y z < 0 -> ecmp (ocmp s) x z < 0) as Htr
    by (intros x y z; apply ec_trans).
  destruct (Z.ltb_spec (ecmp (ocmp s) en e0) 0) as [Hlt|Hge].
  - assert ((l, e) ∈ elems tl) as Hin'.
    { apply elem_of_app in Hin as [Hin|[[= -> ->]|Hin]%elem_of_cons]; [done|lia|].
      pose proof (Htr _ _ _ Hlt (Or _ Hin)). cbn in *. lia. }
    destruct tl as [|b' l' e' x y]; [by apply not_elem_of_nil in Hin'|]. cbn [tptr].
    change (Some l') with (tptr (Node b' l' e' x y)). by rewrite IH.
  - destruct (Z.ltb_spec 0 (ecmp (ocmp s) en e0)) as [Hgt|Hle]; [|done].
    assert ((l, e) ∈ elems tr) as Hin'.
    { apply elem_of_app in Hin as [Hin|[[= -> ->]|Hin]%elem_of_cons]; [|lia|done].
      pose proof (Htr _ _ _ (Ol _ Hin) (proj2 (ec_sym e0 en) Hgt)) as Hlt. apply ec_sym in Hlt. cbn in *. lia. }
    destruct tr as [|b' l' e' x y]; [by apply not_elem_of_nil in Hin'|]. cbn [tptr].
    change (Some l') with (tptr (Node b' l' e' x y)). by rewrite IH.
Qed.

(** ** Lookup *)

(** A key compares with elements as their order has it. *)
Class KeyOrder (ec : E -> E -> Z) (kc : E -> Z) : Prop := {
  ko_lt a b : kc a < 0 -> ec a b < 0 -> kc b < 0;
  ko_gt a b : 0 < kc a -> ec b a < 0 -> 0 < kc b;
  ko_eq_lt a b : kc a = 0 -> ec a b < 0 -> kc b < 0;
  ko_eq_gt a b : kc a = 0 -> ec b a < 0 -> 0 < kc b
}.

(** What a search for the key among the elements [es] finds *)
Definition found (kc : E -> Z) (es : list (loc * E)) (r : ptr) : Prop :=
  match r with
  | Some l => exists e, (l, e) ∈ es /\ kc e = 0
  | None => forall x, x ∈ es -> kc x.2 <> 0
  end.

Lemma found_left ec kc b l e tl tr r : KeyOrder ec kc -> ElemOrder ec -> ordered ec (Node b l e tl tr) ->
  kc e < 0 -> found kc (elems tl) r -> found kc (elems (Node b l e tl tr)) r.
Proof.
  intros Hk Ho (_ & Or & _)%ordered_node Hlt Hr; [|done]. cbn [elems]. destruct r as [l'|].
  - destruct Hr as (e' & Hin & He). exists e'. split; [set_solver|done].
  - intros x [Hx|[->|Hx]%elem_of_cons]%elem_of_app; [by apply Hr|cbn; lia|].
    pose proof (ko_lt _ _ Hlt (Or _ Hx)). lia.
Qed.

Lemma found_right ec kc b l e tl tr r : KeyOrder ec kc -> ElemOrder ec -> ordered ec (Node b l e tl tr) ->
  0 < kc e -> found kc (elems tr) r -> found kc (elems (Node b l e tl tr)) r.
Proof.
  intros Hk Ho (Ol & _ & _)%ordered_node Hlt Hr; [|done]. cbn [elems]. destruct r as [l'|].
  - destruct Hr as (e' & Hin & He). exists e'. split; [set_solver|done].
  - intros x [Hx|[->|Hx]%elem_of_cons]%elem_of_app; [|cbn; lia|by apply Hr].
    pose proof (ko_gt _ _ Hlt (Ol _ Hx)). lia.
Qed.

Lemma wp_lookup_slow fuel c k ec t s (Q : ptr -> OS -> Prop) : KeyOrder ec (c k) -> ElemOrder ec ->
  rep (onodes s) t -> ordered ec t -> (length (elems t) < fuel)%nat ->
  (forall r, found (c k) (elems t) r -> Q r s) -> wp (lookup_slow fuel c k (tptr t)) s Q.
Proof.
  intros Hk Ho. revert t Q. induction fuel as [|fuel IH]; [lia|]. intros t Q Hrep Hord Hf HQ.
  destruct t as [|b l e tl tr]; [apply wp_ret, HQ; intros x Hx; by apply not_elem_of_nil in Hx|].
  pose proof Hrep as (E1 & Hl & Hr). pose proof Hord as (_ & _ & Sl & Sr)%ordered_node; [|done].
  cbn [lookup_slow tptr]. cbn [elems] in Hf. rewrite length_app in Hf. cbn [length] in Hf.
  unfold slow_cmp. apply wp_bind, wp_bind. eapply wp_elem_of_node; [exact E1|done|]. apply wp_ret.
  apply wp_bind. eapply wp_aload; [exact E1|]. cbn [aleft aright elem].
  destruct (Z.ltb_spec (c k e) 0) as [Hlt|Hge].
  - apply IH; [done|done|lia|]. intros r Hfd. by eapply HQ, found_left.
  - destruct (Z.ltb_spec 0 (c k e)) as [Hgt|Hle].
    + apply IH; [done|done|lia|]. intros r Hfd. by eapply HQ, found_right.
    + apply wp_ret, HQ. exists e. cbn [elems]. split; [set_solver|lia].
Qed.

Lemma wp_lookup_fast fuel w1 ec t s (Q : ptr -> OS -> Prop) :
  let kc := fun e => word_cmp w1 (eword e) in
  KeyOrder ec kc -> ElemOrder ec ->
  rep (onodes s) t -> ordered ec t -> (length (elems t) < fuel)%nat ->
  (forall r, found kc (elems t) r -> Q r s) -> wp (lookup_fast fuel w1 (tptr t)) s Q.
Proof.
  intros kc Hk Ho. revert t Q. induction fuel as [|fuel IH]; [lia|]. intros t Q Hrep Hord Hf HQ.
  destruct t as [|b l e tl tr]; [apply wp_ret, HQ; intros x Hx; by apply not_elem_of_nil in Hx|].
  pose proof Hrep as (E1 & Hl & Hr). pose proof Hord as (_ & _ & Sl & Sr)%ordered_node; [|done].
  cbn [lookup_fast tptr]. cbn [elems] in Hf. rewrite length_app in Hf. cbn [length] in Hf.
  unfold elem_of_node_no_check. apply wp_bind, wp_bind. eapply wp_aload; [exact E1|]. apply wp_ret.
  apply wp_bind. eapply wp_aload; [exact E1|]. cbn [aleft aright elem]. cbv zeta.
  assert (kc e = word_cmp w1 (eword e)) as Ekc by done. unfold word_cmp in Ekc.
  destruct (Z.ltb_spec w1 (eword e)) as [Hlt|Hge].
  - rewrite (proj2 (Z.ltb_ge _ _)) in Ekc by lia.
    apply IH; [done|done|lia|]. intros r Hfd. eapply HQ, found_left; [done..|lia|done].
  - destruct (Z.ltb_spec (eword e) w1) as [Hgt|Hle].
    + apply IH; [done|done|lia|]. intros r Hfd. eapply HQ, found_right; [done..|lia|done].
    + apply wp_ret, HQ. exists e. cbn [elems]. split; [set_solver|done].
Qed.

Lemma wp_avl_lookup ec k t s (Q : ptr -> OS -> Prop) : KeyOrder ec (kcmp (ocmp s) k) -> ElemOrder ec ->
  oroot s = tptr t -> rep (onodes s) t -> NoDup (locs t) -> ordered ec t ->
  (forall r, found (kcmp (ocmp s) k) (elems t) r -> Q r s) -> wp (avl_lookup k) s Q.
Proof.
  intros Hk Ho Er Hrep Hnd Hord HQ. pose proof (rep_length _ _ Hrep Hnd).
  unfold avl_lookup, depth_fuel. do 3 apply wp_bind, wp_gets. rewrite Er. unfold kcmp in *.
  destruct (ocmp s) as [c|]; [eapply wp_lookup_slow|eapply wp_lookup_fast]; try done; lia.
Qed.
End Ops.

(** * Removal in [m_oset.c] does to memory what [t_remove] does to the tree it
    holds. *)

Section Remove.
Context {K E P : Type} `{OSetElem K E} `{NodePool P}.
Abbreviation OS := (OSet K E P).
Implicit Types (s : OS) (t u : tree E) (l n : loc) (h : gmap loc (AvlNode E)).

(** ** The nodes that are left *)

(** The tree [t'] has the nodes of [t] but for one, [k]. *)
Definition without (k : loc) t t' : Prop := locs t ≡ₚ k :: locs t'.

Lemma without_sub k t t' : without k t t' -> locs t' ⊆ locs t.
Proof. unfold without. intros Hp j. rewrite Hp. set_solver. Qed.

Lemma without_nodup k t t' : without k t t' -> NoDup (locs t) -> NoDup (locs t') /\ k ∉ locs t'.
Proof. unfold without. intros ->. rewrite NoDup_cons. tauto. Qed.

Lemma without_elems k t t' t2 : without k t t' -> elems t2 = elems t' -> without k t t2.
Proof. unfold without, locs. by intros Hw ->. Qed.

Lemma without_left k b l e tl tl' tr : without k tl tl' -> without k (Node b l e tl tr) (Node b l e tl' tr).
Proof. unfold without. rewrite !locs_node. by intros ->. Qed.

Lemma without_right k b l e tl tr tr' : without k tr tr' -> without k (Node b l e tl tr) (Node b l e tl tr').
Proof. unfold without. rewrite !locs_node. intros ->. solve_Permutation. Qed.

Lemma simple_without t c t' : t_remove_simple t = Some (c, t') -> exists n, tptr t = Some n /\ without n t t'.
Proof.
  destruct t as [|b l e [|bl ll el xl yl] [|br lr er xr yr]]; intros; simplify_eq/=;
    exists l; (split; [done|]); unfold without; rewrite ?locs_node; cbn; solve_Permutation.
Qed.

Lemma remove_with_without ec f n en t c t' (R : loc -> Prop) :
  (forall u (c : bool) u', tptr u = Some n -> f u = Some (c, u') -> exists k, R k /\ without k u u') ->
  t_remove_with ec f n en t = Some (c, t') -> exists k, R k /\ without k t t'.
Proof.
  intros Hf. revert c t'. induction t as [|b l e tl IHl tr IHr]; intros c t' Ht; [done|]. cbn [t_remove_with] in Ht.
  destruct (ec en e <? 0); [|destruct (0 <? ec en e)].
  - apply bind_Some in Ht as ([c1 t1] & H1 & Ht). destruct (IHl _ _ H1) as (k & HR & Hw). cbn [fst snd] in Ht.
    exists k. split; [done|]. apply (without_left k b l e _ _ tr) in Hw.
    destruct c1; [|by simplify_eq]. apply left_shrunk_elems in Ht. by eapply without_elems.
  - apply bind_Some in Ht as ([c1 t1] & H1 & Ht). destruct (IHr _ _ H1) as (k & HR & Hw). cbn [fst snd] in Ht.
    exists k. split; [done|]. apply (without_right k b l e tl) in Hw.
    destruct c1; [|by simplify_eq]. apply right_shrunk_elems in Ht. by eapply without_elems.
  - destruct (bool_decide_reflect (l = n)) as [->|]; [|done]. by apply (Hf (Node b n e tl tr) c t').
Qed.

Lemma remove_simple_without ec n en t c t' :
  t_remove_with ec t_remove_simple n en t = Some (c, t') -> without n t t'.
Proof.
  intros Ht. apply remove_with_without with (R := eq n) in Ht; [by destruct Ht as (k & <- & Hw)|].
  intros s c' s' En Hs. exists n. split; [done|]. apply simple_without in Hs as (n' & En' & Hw). congruence.
Qed.

Lemma removeroot_without ec t c t' : t_removeroot ec t = Some (c, t') -> exists k, without k t t'.
Proof.
  intros Ht. assert (t_remove_simple t = Some (c, t') \/
    exists x r b1 l0 e0 x1 y1, t_remove_with ec t_remove_simple x.1 x.2 t = Some r /\
      r.2 = Node b1 l0 e0 x1 y1 /\ t' = Node b1 x.1 x.2 x1 y1) as [Hs|(x & r & b1 & l0 & e0 & x1 & y1 & H1 & H2 & ->)].
  { destruct t as [|b l e [|bl ll el xl yl] [|br lr er xr yr]]; [by left..|]. right. unfold t_removeroot in Ht.
    apply bind_Some in Ht as (x & _ & (r & H1 & Ht)%bind_Some).
    destruct (r.2) as [|b1 l0 e0 x1 y1] eqn:E1; [done|]. simplify_eq. by exists x, r, b1, l0, e0, x1, y1. }
  - apply simple_without in Hs as (k & _ & Hw). by exists k.
  - destruct r as [c1 t1]. cbn in H2. subst t1. apply remove_simple_without in H1. exists l0.
    unfold without in *. rewrite H1, !locs_node. solve_Permutation.
Qed.

Lemma remove_without ec n en t c t' : t_remove ec n en t = Some (c, t') -> exists k, without k t t'.
Proof.
  intros Ht. apply remove_with_without with (R := fun _ => True) in Ht; [by destruct Ht as (k & _ & Hw); eauto|].
  intros s c' s' _ Hs%removeroot_without. destruct Hs as (k & Hw). by exists k.
Qed.

(** ** The neighbour of the root *)

Lemma wp_rightmost fuel t x s (Q : ptr -> OS -> Prop) : t_rightmost t = Some x -> rep (onodes s) t ->
  (length (elems t) < fuel)%nat -> Q (Some x.1) s -> wp (rightmost fuel (tptr t)) s Q.
Proof.
  revert t. induction fuel as [|fuel IH]; [lia|]. intros t Hx Hrep Hf HQ.
  destruct t as [|b l e tl tr]; [done|]. destruct Hrep as (E1 & _ & Hr). cbn [elems] in Hf.
  rewrite length_app in Hf. cbn [rightmost tptr length] in *.
  apply wp_bind. eapply wp_aload; [exact E1|]. cbn [aright]. destruct tr as [|b' l' e' y z] eqn:Et.
  - injection Hx as <-. by apply wp_ret.
  - cbn [tptr]. apply (IH (Node b' l' e' y z)); [done|done|lia|done].
Qed.

Lemma wp_leftmost fuel t x s (Q : ptr -> OS -> Prop) : t_leftmost t = Some x -> rep (onodes s) t ->
  (length (elems t) < fuel)%nat -> Q (Some x.1) s -> wp (leftmost fuel (tptr t)) s Q.
Proof.
  revert t. induction fuel as [|fuel IH]; [lia|]. intros t Hx Hrep Hf HQ.
  destruct t as [|b l e tl tr]; [done|]. destruct Hrep as (E1 & Hl & _). cbn [elems] in Hf.
  rewrite length_app in Hf. cbn [leftmost tptr length] in *.
  apply wp_bind. eapply wp_aload; [exact E1|]. cbn [aleft]. destruct tl as [|b' l' e' y z] eqn:Et.
  - injection Hx as <-. by apply wp_ret.
  - cbn [tptr]. apply (IH (Node b' l' e' y z)); [done|done|lia|done].
Qed.

(** ** Removal *)

(** [m] removes the root of [t] in memory as [f] does. *)
Definition root_sim (f : (E -> E -> Z) -> tree E -> option (bool * tree E)) (fuel : nat) t : Prop := forall c t' s,
  f (ecmp (ocmp s)) t = Some (c, t') -> rep (onodes s) t -> NoDup (locs t) ->
  wp (removeroot_with (avl_remove fuel) (tptr t)) s (gives2 (locs t) s c t').

Definition remove_sim (f : (E -> E -> Z) -> tree E -> option (bool * tree E)) (fuel : nat) t : Prop :=
  forall n en c t' s,
  t_remove_with (ecmp (ocmp s)) (f (ecmp (ocmp s))) n en t = Some (c, t') -> rep (onodes s) t -> NoDup (locs t) ->
  (exists nd, onodes s !! n = Some nd /\ magic nd = OSET_MAGIC /\ elem nd = en) ->
  wp (avl_remove fuel (tptr t) (Some n)) s (gives2 (locs t) s c t').

Definition shrinks (f : tree E -> option (bool * tree E)) : Prop :=
  forall t c t', f t = Some (c, t') -> exists k, without k t t'.

Lemma with_shrinks ec f n en : shrinks f -> shrinks (t_remove_with ec f n en).
Proof.
  intros Hf t c t' Ht. apply remove_with_without with (R := fun _ => True) in Ht; [destruct Ht as (k & _ & Hw); eauto|].
  intros s c' s' _ (k & Hw)%Hf. by exists k.
Qed.

(** The recursive call, and the rebalancing after it *)
Lemma remove_left_sim f fuel b l e tl tr n en c t' s : (forall ec, shrinks (f ec)) -> remove_sim f fuel tl ->
  rep (onodes s) (Node b l e tl tr) -> NoDup (locs (Node b l e tl tr)) ->
  (exists nd, onodes s !! n = Some nd /\ magic nd = OSET_MAGIC /\ elem nd = en) ->
  (r ← t_remove_with (ecmp (ocmp s)) (f (ecmp (ocmp s))) n en tl;
   if r.1 : bool then t_left_shrunk (Node b l e r.2 tr) else Some (false, Node b l e r.2 tr)) = Some (c, t') ->
  wp (r <- avl_remove fuel (tptr tl) (Some n) ;;
      astore (Some l) (set_left r.2) ;;;
      if r.1 : bool then left_shrunk (Some l) else ret (false, Some l)) s
    (gives2 (locs (Node b l e tl tr)) s c t').
Proof.
  intros Hf IH Hrep Hnd En ([c1 t1] & H1 & Ht)%bind_Some. cbn [fst snd] in Ht.
  pose proof Hrep as (_ & Hl & _). pose proof Hnd as Hd. apply nodup_node in Hd as (N1 & N2 & N3 & N4 & N5).
  destruct (with_shrinks _ _ _ _ (Hf _) _ _ _ H1) as (k & Hw).
  pose proof (without_left k b l e _ _ tr Hw) as Hwt.
  apply wp_bind. eapply wp_mono; [by apply (IH n en c1 t1 s)|].
  intros [c2 p] s1 [Ec (Ep & R1 & M1)]. cbn in Ec, Ep. subst c2 p. cbn [fst snd].
  apply wp_bind. eapply wp_set_left; [exact Hrep|exact M1|done| |done|done|done|].
  { intros Hin. by apply N1, (without_sub _ _ _ Hw). }
  intros s2 R2 M2.
  assert (moved (locs (Node b l e tl tr)) s s2) as M3
    by (eapply moved_sub; [exact M2|clear; rewrite locs_node; set_solver]).
  destruct c1.
  - eapply (wp_does2 _ _ (Node b l e t1 tr)); [apply left_shrunk_does|exact Ht|done| |exact M3| |].
    + by eapply without_nodup.
    + by eapply without_sub.
    + intros s4 R4 M4. by split.
  - simplify_eq. by apply wp_ret.
Qed.

Lemma remove_right_sim f fuel b l e tl tr n en c t' s : (forall ec, shrinks (f ec)) -> remove_sim f fuel tr ->
  rep (onodes s) (Node b l e tl tr) -> NoDup (locs (Node b l e tl tr)) ->
  (exists nd, onodes s !! n = Some nd /\ magic nd = OSET_MAGIC /\ elem nd = en) ->
  (r ← t_remove_with (ecmp (ocmp s)) (f (ecmp (ocmp s))) n en tr;
   if r.1 : bool then t_right_shrunk (Node b l e tl r.2) else Some (false, Node b l e tl r.2)) = Some (c, t') ->
  wp (r <- avl_remove fuel (tptr tr) (Some n) ;;
      astore (Some l) (set_right r.2) ;;;
      if r.1 : bool then right_shrunk (Some l) else ret (false, Some l)) s
    (gives2 (locs (Node b l e tl tr)) s c t').
Proof.
  intros Hf IH Hrep Hnd En ([c1 t1] & H1 & Ht)%bind_Some. cbn [fst snd] in Ht.
  pose proof Hrep as (_ & _ & Hr). pose proof Hnd as Hd. apply nodup_node in Hd as (N1 & N2 & N3 & N4 & N5).
  destruct (with_shrinks _ _ _ _ (Hf _) _ _ _ H1) as (k & Hw).
  pose proof (without_right k b l e tl _ _ Hw) as Hwt.
  apply wp_bind. eapply wp_mono; [by apply (IH n en c1 t1 s)|].
  intros [c2 p] s1 [Ec (Ep & R1 & M1)]. cbn in Ec, Ep. subst c2 p. cbn [fst snd].
  apply wp_bind. eapply wp_set_right; [exact Hrep|exact M1|done|done| |by apply disj_sym|done|].
  { intros Hin. by apply N2, (without_sub _ _ _ Hw). }
  intros s2 R2 M2.
  assert (moved (locs (Node b l e tl tr)) s s2) as M3
    by (eapply moved_sub; [exact M2|clear; rewrite locs_node; set_solver]).
  destruct c1.
  - eapply (wp_does2 _ _ (Node b l e tl t1)); [apply right_shrunk_does|exact Ht|done| |exact M3| |].
    + by eapply without_nodup.
    + by eapply without_sub.
    + intros s4 R4 M4. by split.
  - simplify_eq. by apply wp_ret.
Qed.

Lemma remove_with_sim f k : (forall ec, shrinks (f ec)) ->
  (forall fuel t, (k * length (elems t) < fuel)%nat -> root_sim f fuel t) ->
  forall fuel t, (S k * length (elems t) < fuel)%nat -> remove_sim f fuel t.
Proof.
  intros Hs Hroot fuel. induction fuel as [|fuel IH]; [lia|]. intros t Hf n en c t' s Ht Hrep Hnd En.
  destruct t as [|b l e tl tr]; [done|]. cbn [elems] in Hf. rewrite length_app in Hf. cbn [length] in Hf.
  pose proof Hrep as (E1 & _). pose proof En as (nd & En1 & En2 & En3). cbn [avl_remove tptr]. cbn [t_remove_with] in Ht.
  apply wp_bind. eapply wp_cmp_key_root; [exact E1|done|exact En1|done|]. cbn [elem]. rewrite En3.
  apply wp_bind. eapply wp_aload; [exact E1|]. cbn [aleft aright].
  destruct (ecmp (ocmp s) en e <? 0); [|destruct (0 <? ecmp (ocmp s) en e)].
  - apply wp_bind. destruct tl as [|b0 l0 e0 x y] eqn:Etl; [done|]. rewrite <- Etl in *.
    rewrite bool_decide_true by (by rewrite Etl). apply wp_ret.
    eapply remove_left_sim; [done|apply IH; nia|done..].
  - apply wp_bind. destruct tr as [|b0 l0 e0 x y] eqn:Etr; [done|]. rewrite <- Etr in *.
    rewrite bool_decide_true by (by rewrite Etr). apply wp_ret.
    eapply remove_right_sim; [done|apply IH; nia|done..].
  - destruct (bool_decide_reflect (l = n)) as [->|]; [|done]. rewrite bool_decide_true by done.
    apply wp_bind, wp_ret. apply (Hroot fuel (Node b n e tl tr)); [|done..].
    cbn [elems]. rewrite length_app. cbn [length]. nia.
Qed.

Lemma simple_shrinks (ec : E -> E -> Z) : shrinks t_remove_simple.
Proof. intros t c t' (k & _ & Hw)%simple_without. by exists k. Qed.

Lemma simple_root_sim fuel t : root_sim (fun _ => t_remove_simple) fuel t.
Proof.
  intros c t' s Ht Hrep Hnd.
  destruct t as [|b l e [|bl ll el xl yl] [|br lr er xr yr]]; [done|..|done]; pose proof Hrep as (E1 & Hl & Hr);
    injection Ht as <- <-; unfold removeroot_with; cbn [tptr];
    apply wp_bind; (eapply wp_aload; [exact E1|]); cbn [aleft aright tptr]; apply wp_ret;
    (split; [done|]); (split; [done|]); (split; [done|apply moved_refl]).
Qed.

(** The node [n] takes the place of the root. *)
Lemma take_place s s1 t t1 b1 l0 e0 x1 y1 (x : loc * E) (c : bool) :
  rep (onodes s) t -> x ∈ elems t -> NoDup (locs t) -> moved (locs t) s s1 -> rep (onodes s1) t1 ->
  t1 = Node b1 l0 e0 x1 y1 -> without x.1 t t1 ->
  wp (t <- aload (tptr t1) ;;
      astore (Some x.1) (set_left (aleft t)) ;;;
      astore (Some x.1) (set_right (aright t)) ;;;
      astore (Some x.1) (set_balance (balance t)) ;;;
      nd <- aload (Some x.1) ;;
      ret (if balance nd =? 0 then c else false, Some x.1)) s1
    (gives2 (locs t) s (if b1 =? 0 then c else false) (Node b1 x.1 x.2 x1 y1)).
Proof.
  destruct x as [n en]. cbn [fst snd]. intros Hrep Hin Hnd M1 R1 -> Hw.
  destruct (without_nodup _ _ _ Hw Hnd) as [Hnd1 Hn]. pose proof Hn as Hn'. rewrite not_in_node in Hn'.
  destruct Hn' as (N1 & N2 & N3). destruct (rep_elem _ _ _ _ Hrep Hin) as (nd & E1 & Em & Ee).
  assert (n ∈ locs t) as Hnt by (apply list_elem_of_fmap; by exists (n, en)).
  assert (exists p q r, onodes s1 !! n = Some (mk_avl p q r OSET_MAGIC en)) as (p & q & r & E2).
  { pose proof (f_equal (fun m => m !! n) (mv_payload _ _ _ M1)) as Hp. cbn in Hp. unfold payload in Hp.
    rewrite !lookup_fmap, E1 in Hp. cbn in Hp. destruct (onodes s1 !! n) as [[p q r m e]|]; [|done].
    cbn in Hp. injection Hp as Hm He. exists p, q, r. congruence. }
  destruct R1 as (E0 & Rx & Ry). cbn [tptr]. os_load. do 3 os_store. os_load. apply wp_ret.
  split; [done|]. split; [done|]. split; [os_tree|].
  eapply amoved_trans; [exact M1|]. eapply moved_sub; [os_moved|]. revert Hnt; clear; set_solver.
Qed.

(** The search for the root's neighbour *)
Lemma wp_neighbour b l e tl tr x s (Q : ptr -> OS -> Prop) :
  t_neighbour (Node b l e tl tr) = Some x -> rep (onodes s) (Node b l e tl tr) -> NoDup (locs (Node b l e tl tr)) ->
  (x ∈ elems (Node b l e tl tr) -> Q (Some x.1) s) ->
  wp (fuel <- depth_fuel ;; if b <? 0 then rightmost fuel (tptr tl) else leftmost fuel (tptr tr)) s Q.
Proof.
  intros Hx Hrep Hnd HQ. pose proof (rep_length _ _ Hrep Hnd) as Hlen. pose proof Hrep as (_ & Hl & Hr).
  cbn [elems] in *. rewrite length_app in Hlen. cbn [length] in Hlen. apply wp_bind, wp_gets.
  cbn [t_neighbour] in Hx. destruct (b <? 0).
  - eapply wp_rightmost; [done|done|lia|]. apply HQ. destruct (rightmost_ok tl) as (x' & ys & E1 & E2); [by intros ->|].
    rewrite Hx in E1. injection E1 as <-. rewrite E2. set_solver.
  - eapply wp_leftmost; [done|done|lia|]. apply HQ. destruct (leftmost_ok tr) as (x' & ys & E1 & E2); [by intros ->|].
    rewrite Hx in E1. injection E1 as <-. rewrite E2. set_solver.
Qed.

Lemma simple_remove_sim fuel t : (length (elems t) < fuel)%nat -> remove_sim (fun _ => t_remove_simple) fuel t.
Proof.
  intros Hf. apply (remove_with_sim (fun _ => t_remove_simple) 0); [|intros; apply simple_root_sim|lia].
  intros ec. exact (simple_shrinks ec).
Qed.

Lemma full_root_sim fuel t : (1 * length (elems t) < fuel)%nat -> root_sim t_removeroot fuel t.
Proof.
  intros Hf c t' s Ht Hrep Hnd.
  assert (t_remove_simple t = Some (c, t') \/
    exists b l e bl ll el xl yl br lr er xr yr,
      t = Node b l e (Node bl ll el xl yl) (Node br lr er xr yr)) as [Hs|Hfull].
  { destruct t as [|b l e [|bl ll el xl yl] [|br lr er xr yr]]; [by left..|]. right. eauto 20. }
  { by apply simple_root_sim. }
  destruct Hfull as (b & l & e & bl & ll & el & xl & yl & br & lr & er & xr & yr & Et).
  rewrite Et in Ht. unfold t_removeroot in Ht. rewrite <- Et in Ht.
  apply bind_Some in Ht as (x & Hx & ([c1 t1] & H1 & Ht)%bind_Some). cbn [fst snd] in Ht.
  destruct t1 as [|b1 l0 e0 x1 y1] eqn:E1; [done|]. injection Ht as <- <-. rewrite <- E1 in *.
  pose proof Hrep as Hrep'. rewrite Et in Hrep'. pose proof Hrep' as (E0 & _).
  unfold removeroot_with. rewrite Et at 1. cbn [tptr]. apply wp_bind. eapply wp_aload; [exact E0|].
  cbn [aleft aright tptr balance]. rewrite Et in Hx.
  eapply (wp_ext _ (n <- (fuel <- depth_fuel ;;
    if b <? 0 then rightmost fuel (Some ll) else leftmost fuel (Some lr)) ;; _)); [reflexivity|].
  apply wp_bind. eapply (wp_neighbour _ _ _ (Node bl ll el xl yl) (Node br lr er xr yr));
    [exact Hx|exact Hrep'|by rewrite <- Et|].
  rewrite <- Et. intros Hin. apply wp_bind. rewrite Et at 1. change (Some l) with (tptr (Node b l e (Node bl ll el xl yl) (Node br lr er xr yr))).
  rewrite <- Et.
  eapply wp_mono; [apply (simple_remove_sim fuel t ltac:(lia) x.1 x.2 c1 t1 s)|];
    [exact H1|done|done|apply (rep_elem _ _ _ _ Hrep); by rewrite <- surjective_pairing|].
  intros [c2 p] s1 [Ec (Ep & R1 & M1)]. cbn in Ec, Ep. subst c2 p. cbn [fst snd].
  eapply take_place; [exact Hrep|exact Hin|done|exact M1|exact R1|exact E1|by eapply remove_simple_without].
Qed.

Lemma remove_does fuel t n en c t' s : (2 * length (elems t) < fuel)%nat ->
  t_remove (ecmp (ocmp s)) n en t = Some (c, t') -> rep (onodes s) t -> NoDup (locs t) -> (n, en) ∈ elems t ->
  wp (avl_remove fuel (tptr t) (Some n)) s (gives2 (locs t) s c t').
Proof.
  intros Hf Ht Hrep Hnd Hin. eapply (remove_with_sim t_removeroot 1); [|apply full_root_sim|lia|done..|].
  - intros ec u c1 u' Hu. by eapply removeroot_without.
  - by eapply rep_elem.
Qed.
End Remove.
