(* ===== verification/OSetProofs.v ===== *)
(** The operations of [m_oset.c] on a whole set: the invariant of a set, and
    insertion, lookup and removal as operations on its sorted elements. *)
From stdpp Require Import base gmap list option sets fin_maps sorting.
From Stdlib Require Import ZArith Lia Sorting.Sorted.
From S2P Require Import Prelude Printf Chains OSet AvlProofs OSetShape OSetOps.
Open Scope prog_scope.
Open Scope Z_scope.

Section Sets.
Context {K E P : Type} `{OSetElem K E} `{NodePool P}.
Abbreviation OS := (OSet K E P).
Implicit Types (s : OS) (t u : tree E) (l n : loc) (k : K).

(** The comparison function is a total order on elements, and on keys. *)
Class OSetOrder (c : option (K -> E -> Z)) : Prop := {
  oo_elem :: ElemOrder (ecmp c);
  oo_key k :: KeyOrder (ecmp c) (kcmp c k)
}.

(** ** The invariant *)

Record set_ok s t : Prop := {
  so_root : oroot s = tptr t;
  so_rep : rep (onodes s) t;
  so_sound : sound (ecmp (ocmp s)) t;
  so_size : nElems s = u32 (Z.of_nat (length (elems t)));
  so_stack : length (nodeStack s) = STACK_MAX /\ length (numStack s) = STACK_MAX
}.

Lemma set_ok_nodup s t : set_ok s t -> NoDup (locs t).
Proof. intros Hok. apply Hok. Qed.

Lemma set_ok_empty (c : option (K -> E -> Z)) h s : OSetGen_Create (P := P) c 0 h = Some s -> set_ok s Leaf.
Proof.
  unfold OSetGen_Create. intros Ht.
  assert (s = mk_oset h c None 0 0 None (replicate STACK_MAX None) (replicate STACK_MAX 0) 0) as ->
    by (destruct c; by injection Ht).
  split; [done|done|split_and!; [done|constructor|constructor]|done|done].
Qed.

(** What no operation on the set changes *)
Definition static s s' : Prop :=
  ocmp s' = ocmp s /\ node_pa s' = node_pa s /\ maxEltSize s' = maxEltSize s /\
  payload (onodes s') = payload (onodes s).

Lemma static_refl s : static s s.
Proof. done. Qed.

Lemma static_trans s s1 s2 : static s s1 -> static s1 s2 -> static s s2.
Proof. unfold static. intuition congruence. Qed.

Lemma static_moved L s s' : moved L s s' -> static s s'.
Proof. intros [E1 Hp _]. split_and!; [by rewrite E1..|done]. Qed.

Lemma rest_moved L s s' : moved L s s' ->
  oroot s' = oroot s /\ nElems s' = nElems s /\ nodeStack s' = nodeStack s /\ numStack s' = numStack s.
Proof. by intros [-> _ _]. Qed.

(** A node that holds the element [e] *)
Definition holds s l (e : E) : Prop :=
  exists nd, onodes s !! l = Some nd /\ magic nd = OSET_MAGIC /\ elem nd = e.

Lemma holds_payload s l e : holds s l e <-> payload (onodes s) !! l = Some (OSET_MAGIC, e).
Proof.
  unfold holds, payload. rewrite lookup_fmap. split.
  - intros (nd & -> & Hm & He). cbn. by rewrite Hm, He.
  - destruct (onodes s !! l) as [nd|]; [|done]. cbn. intros [= Hm He]. by exists nd.
Qed.

Lemma holds_static s s' l e : static s s' -> holds s l e -> holds s' l e.
Proof. intros (_ & _ & _ & Hp). by rewrite !holds_payload, Hp. Qed.

Lemma set_ok_holds s t l e : set_ok s t -> (l, e) ∈ elems t -> holds s l e.
Proof. intros Hok. apply rep_elem, Hok. Qed.

(** ** Insertion *)

Lemma inserted_perm (ec : E -> E -> Z) x es es' : inserted ec x es es' -> es' ≡ₚ x :: es.
Proof. intros (ys & zs & -> & -> & _). by rewrite <- Permutation_middle. Qed.

Lemma inserted_sorted (ec : E -> E -> Z) x es es' : ElemOrder ec -> inserted ec x es es' ->
  StronglySorted (before ec) es -> StronglySorted (before ec) es'.
Proof.
  intros Ho (ys & zs & -> & -> & H1 & H2). rewrite !StronglySorted_app. intros (Hc & Hy & Hz). split_and!; [|done|].
  - intros y z Hy' [->|Hz']%elem_of_cons; [by apply H1|by apply Hc].
  - constructor; [done|]. by apply Forall_forall.
Qed.

(** A fresh node made ready, and the tree's nodes still there *)
Lemma wp_prepare {A} (m : M OS A) s t l e Q : set_ok s t -> holds s l e -> l ∉ locs t ->
  (forall s', moved [l] s s' -> onodes s' !! l = Some (mk_avl None None 0 OSET_MAGIC e) -> wp m s' Q) ->
  wp (astore (Some l) (set_left None) ;;; astore (Some l) (set_right None) ;;;
      astore (Some l) (set_balance 0) ;;; m) s Q.
Proof.
  intros Hok (nd & E1 & Em & Ee) Hl HQ. destruct nd as [p q b mg e']. cbn in Em, Ee. subst mg e'.
  do 3 os_store. apply HQ; [os_moved|]. os_lookup.
Qed.

Lemma set_ok_inserted s s' t t' l e : set_ok s t -> static s s' -> oroot s' = tptr t' -> rep (onodes s') t' ->
  avl t' -> ElemOrder (ecmp (ocmp s)) -> l ∉ locs t -> inserted (ecmp (ocmp s)) (l, e) (elems t) (elems t') ->
  nElems s' = u32 (nElems s + 1) -> nodeStack s' = nodeStack s -> numStack s' = numStack s -> set_ok s' t'.
Proof.
  intros Hok (Ec & _) Er Hrep Ha Ho Hl Hi En E1 E2. pose proof (inserted_perm _ _ _ _ Hi) as Hp. split.
  - done.
  - done.
  - rewrite Ec. split_and!; [done| |].
    + eapply inserted_sorted; [done|done|apply Hok].
    + unfold locs. rewrite Hp. cbn. constructor; [done|apply Hok].
  - rewrite En, (so_size _ _ Hok), Hp. cbn [length]. unfold u32. rewrite Zplus_mod_idemp_l. f_equal. lia.
  - rewrite E1, E2. apply Hok.
Qed.

Lemma wp_Insert s t l e (Q : unit -> OS -> Prop) : OSetOrder (ocmp s) -> set_ok s t -> holds s l e ->
  l ∉ locs t -> (forall x, x ∈ elems t -> ecmp (ocmp s) e x.2 <> 0) ->
  (forall s' t', set_ok s' t' -> static s s' -> inserted (ecmp (ocmp s)) (l, e) (elems t) (elems t') ->
     (forall j, j ∉ l :: locs t -> onodes s' !! j = onodes s !! j) -> Q tt s') ->
  wp (OSetGen_Insert l) s Q.
Proof.
  intros Ho Hok Hh Hl Hne HQ. unfold OSetGen_Insert, node_of_elem. pose proof Hh as (nd & E1 & Em & _).
  apply wp_bind, wp_bind. eapply wp_aload; [done|]. rewrite Em. apply wp_bind, wp_ret, wp_ret.
  eapply wp_prepare; [done|done|done|]. intros s1 M1 El.
  destruct (rest_moved _ _ _ M1) as (R1 & R2 & R3 & R4). pose proof (static_moved _ _ _ M1) as St1.
  apply wp_bind, wp_gets. rewrite R1, (so_root _ _ Hok).
  assert (rep (onodes s1) t) as Hrep1.
  { eapply moved_rep; [done| |apply Hok]. intros j Hj ->%list_elem_of_singleton. done. }
  destruct t as [|b l0 e0 tl tr] eqn:Et.
  - cbn [tptr]. do 3 (apply wp_bind || idtac; apply wp_modify). apply (HQ _ (Node 0 l e Leaf Leaf)).
    + eapply (set_ok_inserted s _ Leaf); [done|done|done|by cbn|done|apply Ho|done|apply inserted_nil|by cbn; rewrite R2|done..].
    + done.
    + apply inserted_nil.
    + intros j Hj. cbn. by apply M1.
  - rewrite <- Et in *. assert (tptr t = Some l0) as Ep by (by rewrite Et). rewrite Ep, <- Ep.
    pose proof (set_ok_nodup _ _ Hok) as Hnd.
    destruct (insert_ok (ecmp (ocmp s)) l e t) as (g & t' & Hi & Ha & _ & Hins & _);
      [by rewrite Et|apply Hok|apply Hok|done|].
    unfold depth_fuel. apply wp_bind, wp_bind, wp_gets, wp_bind. pose proof (rep_length _ _ Hrep1 Hnd).
    eapply wp_mono; [refine (insert_does _ t _ l e g t' s1 _ _ _ _)|].
    + lia.
    + by rewrite (proj1 St1).
    + done.
    + by constructor.
    + done.
    + intros [g' p] s2 [_ (Ep2 & Hrep2 & M2)]. cbn in Ep2. subst p. cbn [fst snd].
      destruct (rest_moved _ _ _ M2) as (R5 & R6 & R7 & R8). pose proof (static_moved _ _ _ M2) as St2.
      pose proof (static_trans _ _ _ St1 St2) as St.
      apply wp_modify, wp_bind, wp_modify, wp_modify. apply (HQ _ t').
      * eapply (set_ok_inserted s _ t); try done; [apply Ho|cbn; by rewrite R6, R2|cbn; congruence..].
      * done.
      * done.
      * intros j Hj. cbn. rewrite (mv_frame _ _ _ M2) by done. apply M1. set_solver.
Qed.

(** A computation that fails after a prefix that succeeds *)
Lemma fails_bind {A B} (m : M OS A) (k : A -> M OS B) s :
  wp m s (fun a s' => k a s' = None) -> bind m k s = None.
Proof. unfold wp, bind. destruct (m s) as [[a s']|]; [done|done]. Qed.

(** Adding an element that compares equal to one of the set's fails, and not
    for want of fuel ([insert_dup]). *)
Lemma Insert_dup s t l e x : OSetOrder (ocmp s) -> set_ok s t -> holds s l e ->
  l ∉ locs t -> x ∈ elems t -> ecmp (ocmp s) e x.2 = 0 -> OSetGen_Insert l s = None.
Proof.
  intros Ho Hok (nd & E1 & Em & Ee) Hl Hx Heq. unfold OSetGen_Insert, node_of_elem.
  destruct nd as [p q b mg e']. cbn in Em, Ee. subst mg e'.
  apply fails_bind. apply wp_bind. eapply wp_aload; [done|]. apply wp_bind, wp_ret, wp_ret.
  apply fails_bind. eapply wp_astore; [exact E1|by auto|]. intros s1 O1 M1.
  apply fails_bind. eapply wp_astore; [os_lookup|by auto|]. intros s2 O2 M2.
  apply fails_bind. eapply wp_astore; [os_lookup|by auto|]. intros s3 O3 M3.
  assert (moved [l] s s3) as M by os_moved. destruct (rest_moved _ _ _ M) as (R1 & _).
  assert (rep (onodes s3) t) as Hrep.
  { eapply moved_rep; [exact M| |apply Hok]. intros j Hj ->%list_elem_of_singleton. done. }
  apply fails_bind, wp_gets. rewrite R1, (so_root _ _ Hok).
  destruct t as [|b0 l0 e0 tl tr] eqn:Et; [by apply not_elem_of_nil in Hx|]. rewrite <- Et in *.
  assert (tptr t = Some l0) as Ep by (by rewrite Et). rewrite Ep, <- Ep.
  unfold bind at 1. unfold bind at 1. destruct (depth_fuel s3) as [[fuel s4]|] eqn:Ef; [|done].
  injection Ef as _ <-. unfold bind at 1. destruct x as [lx ex].
  assert (ocmp s3 = ocmp s) as Ec by apply (static_moved _ _ _ M).
  rewrite (insert_dup fuel t l e lx ex); rewrite ?Ec; try done; [apply Ho|apply Hok|].
  os_lookup.
Qed.

(** ** Lookup *)

Lemma wp_elem_or_null s t kc r (Q : ptr -> OS -> Prop) : set_ok s t -> found kc (elems t) r -> Q r s ->
  wp (elem_or_null r) s Q.
Proof.
  intros Hok Hf HQ. destruct r as [l|]; [|by apply wp_ret]. destruct Hf as (e & Hin & _).
  destruct (set_ok_holds _ _ _ _ Hok Hin) as (nd & E1 & Em & _).
  apply wp_bind. eapply wp_elem_of_node; [done|done|]. by apply wp_ret.
Qed.

Lemma wp_Lookup s t k (Q : ptr -> OS -> Prop) : OSetOrder (ocmp s) -> set_ok s t ->
  (forall r, found (kcmp (ocmp s) k) (elems t) r -> Q r s) -> wp (OSetGen_Lookup k) s Q.
Proof.
  intros Ho Hok HQ. unfold OSetGen_Lookup. apply wp_bind, wp_gets. rewrite (so_root _ _ Hok).
  destruct t as [|b l e tl tr] eqn:Et; [apply wp_ret, HQ; intros x Hx; by apply not_elem_of_nil in Hx|].
  rewrite <- Et in *. assert (tptr t = Some l) as -> by (by rewrite Et).
  apply wp_bind. eapply wp_avl_lookup; [apply Ho|apply Ho|apply Hok|apply Hok|by eapply set_ok_nodup|apply Hok|].
  intros r Hr. eapply wp_elem_or_null; [done|done|]. by apply HQ.
Qed.

(** The comparison function of a lookup may be another one, if the set is
    ordered by it too. *)
Lemma wp_LookupWithCmp s t k c (Q : ptr -> OS -> Prop) : OSetOrder c -> set_ok s t ->
  ordered (ecmp c) t ->
  (forall r, found (kcmp c k) (elems t) r -> Q r s) -> wp (OSetGen_LookupWithCmp k c) s Q.
Proof.
  intros Ho Hok Hord HQ. unfold OSetGen_LookupWithCmp. apply wp_bind, wp_gets, wp_bind, wp_modify.
  assert (set_ok (set_ocmp c s) t) as Hok'.
  { split; [apply Hok|apply Hok|split_and!; [apply Hok|done|apply Hok]|apply Hok|apply Hok]. }
  apply wp_bind. eapply wp_Lookup; [done|exact Hok'|]. intros r Hr. apply wp_bind, wp_modify, wp_ret.
  replace (set_ocmp (ocmp s) (set_ocmp c s)) with s by (by destruct s). by apply HQ.
Qed.

(** ** Removal *)

Lemma removed_perm x (es es' : list (loc * E)) : removed x es es' -> es ≡ₚ x :: es'.
Proof. intros (ys & zs & -> & ->). by rewrite <- Permutation_middle. Qed.

Lemma removed_sorted (ec : E -> E -> Z) x es es' : removed x es es' ->
  StronglySorted (before ec) es -> StronglySorted (before ec) es'.
Proof.
  intros (ys & zs & -> & ->). rewrite !StronglySorted_app. intros (Hc & Hy & [Hz _]%StronglySorted_inv).
  split_and!; [|done|done]. intros y z Hy' Hz'. apply Hc; [done|set_solver].
Qed.

Lemma set_ok_removed s s' t t' l e : set_ok s t -> static s s' -> oroot s' = tptr t' -> rep (onodes s') t' ->
  avl t' -> removed (l, e) (elems t) (elems t') ->
  nElems s' = u32 (nElems s - 1) -> nodeStack s' = nodeStack s -> numStack s' = numStack s -> set_ok s' t'.
Proof.
  intros Hok (Ec & _) Er Hrep Ha Hi En E1 E2. pose proof (removed_perm _ _ _ Hi) as Hp. split.
  - done.
  - done.
  - rewrite Ec. split_and!; [done| |].
    + eapply removed_sorted; [done|apply Hok].
    + pose proof (set_ok_nodup _ _ Hok) as Hnd. unfold locs in Hnd. rewrite Hp in Hnd. by apply NoDup_cons in Hnd as [_ ?].
  - rewrite En, (so_size _ _ Hok), Hp. cbn [length]. unfold u32. rewrite Zminus_mod_idemp_l. f_equal. lia.
  - rewrite E1, E2. apply Hok.
Qed.

(** The outcome of a removal *)
Definition removal s t k (r : ptr) s' t' : Prop :=
  match r with
  | Some l => exists e, kcmp (ocmp s) k e = 0 /\ removed (l, e) (elems t) (elems t')
  | None => s' = s /\ t' = t
  end.

Lemma wp_Remove s t k (Q : ptr -> OS -> Prop) : OSetOrder (ocmp s) -> set_ok s t ->
  (forall r s' t', set_ok s' t' -> static s s' -> found (kcmp (ocmp s) k) (elems t) r ->
     removal s t k r s' t' -> (forall j, j ∉ locs t -> onodes s' !! j = onodes s !! j) -> Q r s') ->
  wp (OSetGen_Remove k) s Q.
Proof.
  intros Ho Hok HQ. unfold OSetGen_Remove. apply wp_bind, wp_gets. rewrite (so_root _ _ Hok).
  destruct t as [|b l0 e0 tl tr] eqn:Et.
  { apply wp_ret, (HQ None s Leaf); [done|done| |done|done]. intros x Hx. by apply not_elem_of_nil in Hx. }
  rewrite <- Et in *. assert (tptr t = Some l0) as Ep by (by rewrite Et). rewrite Ep, <- Ep.
  pose proof (set_ok_nodup _ _ Hok) as Hnd. pose proof (so_rep _ _ Hok) as Hrep.
  apply wp_bind. eapply wp_avl_lookup; [apply Ho|apply Ho|apply Hok|done|done|apply Hok|].
  intros [l|] Hr; [|by apply wp_ret, (HQ None s t)]. destruct Hr as (e & Hin & Hk).
  destruct (remove_ok (ecmp (ocmp s)) l e t) as (c & t' & Hi & (Ha & _ & _) & Hrm); [apply Hok|done|].
  unfold depth_fuel. apply wp_bind, wp_gets, wp_bind. pose proof (rep_length _ _ Hrep Hnd).
  eapply wp_mono; [refine (remove_does _ t l e c t' s _ _ _ _ _)|]; [lia|done|done|done|done|].
  intros [c' p] s1 [_ (Ep2 & Hrep2 & M2)]. cbn in Ep2. subst p. cbn [fst snd].
  destruct (rest_moved _ _ _ M2) as (R5 & R6 & R7 & R8). pose proof (static_moved _ _ _ M2) as St.
  do 3 apply wp_bind, wp_modify.
  assert (static s (set_stack (nodeStack s1) (numStack s1) 0 (set_nElems (u32 (nElems s1 - 1)) (set_oroot (tptr t') s1))))
    as St2 by exact St.
  destruct (holds_static _ _ _ _ St2 (set_ok_holds _ _ _ _ Hok Hin)) as (nd & E1 & Em & _).
  apply wp_bind. eapply wp_elem_of_node; [exact E1|done|]. apply wp_ret. apply (HQ (Some l) _ t').
  - eapply (set_ok_removed s _ t); try done; cbn; [by rewrite R6|congruence..].
  - done.
  - by exists e.
  - by exists e.
  - intros j Hj. cbn. by apply M2.
Qed.
End Sets.
