(* ===== verification/OSetIter.v ===== *)
(** The iterator of [m_oset.c] - its stack stands for the elements that are
    still to come, and is no deeper than the tree - and the allocation and
    destruction of nodes. *)
From stdpp Require Import base gmap list option sets fin_maps sorting.
From Stdlib Require Import ZArith Lia Sorting.Sorted.
From S2P Require Import Prelude Printf Chains OSet AvlProofs OSetShape OSetOps OSetProofs.
Open Scope prog_scope.
Open Scope Z_scope.


Section Iter.
Context {K E P : Type} `{OSetElem K E} `{NodePool P}.
Abbreviation OS := (OSet K E P).
Abbreviation entry := (tree E * Z)%type.
Implicit Types (s : OS) (t u : tree E) (l n : loc) (k : K) (x : entry) (stk : list entry).

(** ** The stack *)

(** The entries of the two arrays, the top first *)
Record stack_is s stk : Prop := {
  si_top : stackTop s = length stk;
  si_nodes i x : reverse stk !! i = Some x -> nodeStack s !! i = Some (tptr x.1);
  si_nums i x : reverse stk !! i = Some x -> numStack s !! i = Some x.2;
  si_len : length (nodeStack s) = STACK_MAX /\ length (numStack s) = STACK_MAX
}.

(** Only the stack differs. *)
Definition restacked s s' : Prop := s' = set_stack (nodeStack s') (numStack s') (stackTop s') s.

Lemma restacked_refl s : restacked s s.
Proof. by destruct s. Qed.

Lemma restacked_trans s s1 s2 : restacked s s1 -> restacked s1 s2 -> restacked s s2.
Proof. unfold restacked. intros E1 E2. rewrite E2. cbn. by rewrite E1 at 1. Qed.

Lemma restacked_onodes s s' : restacked s s' -> onodes s' = onodes s.
Proof. by intros ->. Qed.

Lemma restacked_rest s s' : restacked s s' -> ocmp s' = ocmp s /\ oroot s' = oroot s /\ nElems s' = nElems s /\
  node_pa s' = node_pa s /\ maxEltSize s' = maxEltSize s.
Proof. by intros ->. Qed.

Lemma wp_stackPush s stk t i (Q : unit -> OS -> Prop) : stack_is s stk -> (length stk < STACK_MAX)%nat ->
  1 <= i <= 3 -> (forall s', restacked s s' -> stack_is s' ((t, i) :: stk) -> Q tt s') ->
  wp (stackPush (tptr t) i) s Q.
Proof.
  intros [Ht Hn Hm [L1 L2]] Hlt Hi HQ. unfold stackPush. apply wp_bind, wp_gets. rewrite Ht, (proj2 (Nat.ltb_lt _ _)) by done.
  apply wp_bind, wp_ret. rewrite (proj2 (Z.leb_le _ _)), (proj2 (Z.leb_le _ _)) by lia. apply wp_bind, wp_ret, wp_modify.
  apply HQ; [done|]. split; cbn [nodeStack numStack stackTop set_stack].
  - done.
  - intros j x. rewrite reverse_cons. intros [Hj|(Hj & Hx)]%lookup_app_Some.
    + rewrite list_lookup_insert_ne; [by apply Hn|]. apply lookup_lt_Some in Hj. rewrite length_reverse in Hj. lia.
    + rewrite length_reverse in *. apply list_lookup_singleton_Some in Hx as [Hx <-].
      replace j with (length stk) by lia. apply list_lookup_insert_eq. lia.
  - intros j x. rewrite reverse_cons. intros [Hj|(Hj & Hx)]%lookup_app_Some.
    + rewrite list_lookup_insert_ne; [by apply Hm|]. apply lookup_lt_Some in Hj. rewrite length_reverse in Hj. lia.
    + rewrite length_reverse in *. apply list_lookup_singleton_Some in Hx as [Hx <-].
      replace j with (length stk) by lia. apply list_lookup_insert_eq. lia.
  - by rewrite !length_insert.
Qed.

Lemma stackPush_full s stk t i : stack_is s stk -> (STACK_MAX <= length stk)%nat -> stackPush (tptr t) i s = None.
Proof.
  intros [Ht _ _ _] Hle. unfold stackPush, bind, gets, os_assert. by rewrite Ht, (proj2 (Nat.ltb_ge _ _)).
Qed.

Lemma wp_stackPop_nil s (Q : option (ptr * Z) -> OS -> Prop) : stack_is s [] -> Q None s -> wp stackPop s Q.
Proof.
  intros [Ht _ _ _] HQ. unfold stackPop. apply wp_bind, wp_gets. rewrite Ht. apply wp_bind, wp_ret. by apply wp_ret.
Qed.

Lemma wp_stackPop s stk t i (Q : option (ptr * Z) -> OS -> Prop) : stack_is s ((t, i) :: stk) ->
  (length stk < STACK_MAX)%nat -> 1 <= i <= 3 ->
  (forall s', restacked s s' -> stack_is s' stk -> Q (Some (tptr t, i)) s') -> wp stackPop s Q.
Proof.
  intros [Ht Hn Hm [L1 L2]] Hlt Hi HQ. unfold stackPop. apply wp_bind, wp_gets. rewrite Ht. cbn [length].
  rewrite (proj2 (Nat.leb_le _ _)) by lia. apply wp_bind, wp_ret, wp_bind, wp_gets. unfold id.
  assert (reverse ((t, i) :: stk) !! length stk = Some (t, i)) as Hl.
  { rewrite reverse_cons. apply list_lookup_middle. by rewrite length_reverse. }
  rewrite (Hn _ _ Hl), (Hm _ _ Hl). cbn [fst snd].
  rewrite (proj2 (Z.leb_le _ _)), (proj2 (Z.leb_le _ _)) by lia. apply wp_bind, wp_ret, wp_bind, wp_modify, wp_ret.
  apply HQ; [done|].
  assert (forall j x, reverse stk !! j = Some x -> reverse ((t, i) :: stk) !! j = Some x /\ length stk <> j) as Hold.
  { intros j x Hj. pose proof (lookup_lt_Some _ _ _ Hj) as Hlt'. rewrite length_reverse in Hlt'.
    rewrite reverse_cons, lookup_app_l by (by rewrite length_reverse). split; [done|lia]. }
  split; cbn [nodeStack numStack stackTop set_stack].
  - done.
  - intros j x [Hj Hne]%Hold. rewrite list_lookup_insert_ne by done. by apply Hn.
  - intros j x [Hj Hne]%Hold. rewrite list_lookup_insert_ne by done. by apply Hm.
  - by rewrite !length_insert.
Qed.

Lemma wp_stackClear s (Q : unit -> OS -> Prop) :
  (forall s', restacked s s' -> stack_is s' [] -> Q tt s') -> wp stackClear s Q.
Proof.
  intros HQ. apply wp_modify, HQ; [done|]. split; cbn [nodeStack numStack stackTop set_stack].
  - done.
  - by intros j x Hj.
  - by intros j x Hj.
  - by rewrite !length_replicate.
Qed.

(** ** What is to come *)

Definition todo x : list (loc * E) :=
  match x.1 with
  | Leaf => []
  | Node _ l e tl tr => if x.2 =? 1 then elems x.1 else if x.2 =? 2 then (l, e) :: elems tr else elems tr
  end.

Definition pending stk : list (loc * E) := concat (map todo stk).

(** An entry is a subtree in memory and how far its traversal is, and no entry
    is deeper in the stack than the tree, of height [Hmax], allows. *)
Definition entry_ok s x : Prop :=
  rep (onodes s) x.1 /\ NoDup (locs x.1) /\ x.1 <> Leaf /\ 1 <= x.2 <= 3.

Fixpoint shallow (Hmax : Z) stk : Prop :=
  match stk with
  | [] => True
  | x :: stk => Z.of_nat (length stk) + height x.1 <= Hmax /\ shallow Hmax stk
  end.

Lemma height_node t : t <> Leaf -> 1 <= height t.
Proof. destruct t as [|b l e x y]; [done|]. cbn [height]. pose proof (height_pos x). pose proof (height_pos y). lia. Qed.

(** The iterator of [s] is about to give the elements [es]. *)
Record iterating (Hmax : Z) s (es : list (loc * E)) stk : Prop := {
  it_stack : stack_is s stk;
  it_entries : Forall (entry_ok s) stk;
  it_shallow : shallow Hmax stk;
  it_pending : pending stk = es
}.

Lemma entries_restacked s s' stk : restacked s s' -> Forall (entry_ok s) stk -> Forall (entry_ok s') stk.
Proof. intros Hr He. eapply Forall_impl; [exact He|]. intros x. unfold entry_ok. by rewrite (restacked_onodes _ _ Hr). Qed.

Lemma shallow_length Hmax s stk : Forall (entry_ok s) stk -> shallow Hmax stk -> 0 <= Hmax ->
  Z.of_nat (length stk) <= Hmax.
Proof.
  destruct stk as [|x stk]; [cbn; lia|]. intros [(_ & _ & Hne & _) _]%Forall_cons [Hd _] _. pose proof (height_node _ Hne).
  cbn [length]. lia.
Qed.

(** The stack after the left spine of a tree has been pushed *)
Fixpoint spine t stk : list entry :=
  match t with Leaf => stk | Node _ _ _ tl _ => spine tl ((t, 2) :: stk) end.

Lemma spine_pending t stk : pending (spine t stk) = elems t ++ pending stk.
Proof.
  revert stk. induction t as [|b l e tl IH tr _]; intros stk; [done|]. cbn [spine elems].
  rewrite IH, <- app_assoc. done.
Qed.

Lemma spine_ok s t stk : rep (onodes s) t -> NoDup (locs t) -> Forall (entry_ok s) stk -> Forall (entry_ok s) (spine t stk).
Proof.
  revert stk. induction t as [|b l e tl IH tr _]; intros stk Hr Hn Hs; [done|]. cbn [spine].
  pose proof Hn as (_ & _ & _ & Nl & _)%nodup_node.
  apply IH; [by apply Hr|done|]. constructor; [|done]. by split_and!.
Qed.

Lemma spine_shallow Hmax t stk : Z.of_nat (length stk) + height t <= Hmax -> shallow Hmax stk ->
  shallow Hmax (spine t stk).
Proof.
  revert stk. induction t as [|b l e tl IH tr _]; intros stk Hl Hs; [done|]. cbn [spine].
  pose proof (height_pos tr). apply IH; [|by split]. cbn [length]. cbn [height] in Hl. lia.
Qed.

Lemma spine_top t stk : t <> Leaf -> exists u r, spine t stk = (u, 2) :: r /\ u <> Leaf.
Proof.
  revert stk. induction t as [|b l e tl IH tr _]; intros stk; [done|]. intros _. cbn [spine].
  destruct tl as [|b' l' e' x y]; [by eexists _, _|]. by apply IH.
Qed.

Lemma wp_push_left fuel t s stk (Q : unit -> OS -> Prop) : t <> Leaf -> rep (onodes s) t ->
  (length (elems t) < fuel)%nat -> stack_is s stk ->
  Z.of_nat (length stk) + height t <= Z.of_nat STACK_MAX ->
  (forall s', restacked s s' -> stack_is s' (spine t stk) -> Q tt s') -> wp (push_left fuel (tptr t)) s Q.
Proof.
  revert t s stk Q. induction fuel as [|fuel IH]; [lia|]. intros t s stk Q Hne Hr Hf Hs Hh HQ.
  destruct t as [|b l e tl tr]; [done|]. pose proof Hr as (E1 & Hl & _). cbn [elems] in Hf.
  rewrite length_app in Hf. cbn [height length] in *. pose proof (height_pos tl). pose proof (height_pos tr).
  cbn [push_left]. apply wp_bind.
  eapply wp_stackPush; [exact Hs|lia|lia|]. intros s1 R1 S1. apply wp_bind. cbn [tptr].
  eapply wp_aload; [rewrite (restacked_onodes _ _ R1); exact E1|]. cbn [aleft].
  destruct tl as [|b' l' e' x y] eqn:Etl; [apply wp_ret; by apply HQ|]. rewrite <- Etl in *.
  assert (tptr tl = Some l') as Ep by (by rewrite Etl). rewrite Ep, <- Ep.
  eapply IH; [by rewrite Etl|by rewrite (restacked_onodes _ _ R1)|lia|exact S1|cbn [length]; lia|].
  intros s2 R2 S2. apply HQ; [by eapply restacked_trans|done].
Qed.

(** ** The next element *)

Definition next_post (Hmax : Z) s (es : list (loc * E)) (r : ptr) s' : Prop :=
  restacked s s' /\
  match es with
  | [] => r = None /\ exists stk', iterating Hmax s' [] stk'
  | (l, e) :: rest => r = Some l /\ exists stk', iterating Hmax s' rest stk'
  end.

Lemma wp_next_ready fuel Hmax s es t stk : Hmax <= Z.of_nat STACK_MAX ->
  iterating Hmax s es ((t, 2) :: stk) -> wp (next_loop (S fuel)) s (next_post Hmax s es).
Proof.
  intros HH [Hs He Hd Hp]. pose proof He as [(Hr & Hn & Hne & _) He']%Forall_cons. cbn [fst snd shallow length] in *.
  pose proof (height_node _ Hne). destruct Hd as [Hd1 Hd2]. cbn [next_loop].
  apply wp_bind. eapply wp_stackPop; [exact Hs|lia|lia|]. intros s1 R1 S1.
  apply wp_bind, wp_gets. cbn [Z.eqb Pos.eqb]. apply wp_bind.
  eapply wp_stackPush; [exact S1|lia|lia|]. intros s2 R2 S2. pose proof (restacked_trans _ _ _ R1 R2) as R.
  destruct t as [|b l e tl tr]; [done|]. pose proof Hr as (E1 & _). cbn [tptr].
  apply wp_bind. eapply wp_elem_of_node; [rewrite (restacked_onodes _ _ R); exact E1|done|]. apply wp_ret.
  rewrite <- Hp. split; [done|]. split; [done|]. exists ((Node b l e tl tr, 3) :: stk). split.
  - done.
  - constructor; [|by eapply entries_restacked]. split; [by rewrite (restacked_onodes _ _ R)|by split_and!].
  - by split.
  - done.
Qed.

(** The right subtree's left spine is pushed, and its end is the next element. *)
Lemma wp_next_push fuel Hmax s es t stk : Hmax <= Z.of_nat STACK_MAX -> stack_is s stk ->
  Forall (entry_ok s) stk -> shallow Hmax stk -> t <> Leaf -> rep (onodes s) t -> NoDup (locs t) ->
  Z.of_nat (length stk) + height t <= Hmax -> elems t ++ pending stk = es ->
  wp (push_left (S (size (onodes s))) (tptr t) ;;; next_loop (S fuel)) s (next_post Hmax s es).
Proof.
  intros HH Hs He Hd Hne Hr Hn Hl Hp. pose proof (rep_length _ _ Hr Hn).
  apply wp_bind. eapply (wp_push_left _ t); [done|done|lia|done|lia|]. intros s1 R1 S1.
  destruct (spine_top t stk Hne) as (u & r & Hu & _).
  eapply wp_mono; [eapply (wp_next_ready fuel Hmax s1 es u r); [done|]|].
  - rewrite <- Hu. split; [done| |by apply spine_shallow|by rewrite spine_pending].
    apply spine_ok; [by rewrite (restacked_onodes _ _ R1)|done|by eapply entries_restacked].
  - intros p s2 [R2 Hpost]. split; [by eapply restacked_trans|done].
Qed.

Lemma wp_next_loop fuel Hmax s es stk : Hmax <= Z.of_nat STACK_MAX -> iterating Hmax s es stk ->
  (S (length stk) < fuel)%nat -> wp (next_loop fuel) s (next_post Hmax s es).
Proof.
  intros HH. revert s es stk. induction fuel as [|fuel IH]; [lia|]. intros s es stk Hit Hf.
  destruct fuel as [|fuel]; [lia|].
  destruct stk as [|[t i] stk].
  { destruct Hit as [Hs _ _ <-]. cbn [next_loop]. apply wp_bind, wp_stackPop_nil; [done|]. apply wp_ret.
    split; [apply restacked_refl|]. split; [done|]. by exists []. }
  pose proof Hit as [Hs [(Hr & Hn & Hne & Hi) He']%Forall_cons [Hd1 Hd2] Hp]. cbn [fst snd length] in *.
  pose proof (height_node _ Hne).
  destruct (decide (i = 2)) as [->|Hi2]; [by eapply wp_next_ready|].
  change (next_loop (S (S fuel))) with (top <- stackPop ;;
    match top with
    | None => ret None
    | Some (n, i) =>
        d <- depth_fuel ;;
        if i =? 1 then push_left d n ;;; next_loop (S fuel)
        else if i =? 2 then stackPush n 3 ;;; elem_or_null n
        else
          nd <- aload n ;;
          (match aright nd with Some _ => push_left d (aright nd) | None => ret tt end) ;;;
          next_loop (S fuel)
    end : M OS ptr).
  apply wp_bind. eapply wp_stackPop; [exact Hs|lia|lia|]. intros s1 R1 S1. apply wp_bind, wp_gets.
  pose proof (entries_restacked _ _ _ R1 He') as He1.
  eapply wp_mono with (Q := next_post Hmax s1 es).
  2:{ intros p s2 [R2 Hpost]. split; [by eapply restacked_trans|done]. }
  destruct (Z.eqb_spec i 1) as [->|Hi1].
  - eapply (wp_next_push _ _ _ _ t); try done; [by rewrite (restacked_onodes _ _ R1)|].
    rewrite <- Hp. destruct t; done.
  - rewrite (proj2 (Z.eqb_neq i 2)) by done. destruct t as [|b l e tl tr]; [done|].
    pose proof Hr as (E1 & _ & Hrr). pose proof Hn as (_ & _ & _ & _ & Nr)%nodup_node. cbn [tptr].
    apply wp_bind. eapply wp_aload; [rewrite (restacked_onodes _ _ R1); exact E1|]. cbn [aright].
    assert (pending ((Node b l e tl tr, i) :: stk) = elems tr ++ pending stk) as Hpend.
    { unfold pending. cbn [map concat todo fst snd]. by rewrite (proj2 (Z.eqb_neq i 1)), (proj2 (Z.eqb_neq i 2)). }
    rewrite Hpend in Hp. pose proof (height_pos tl). cbn [height] in Hd1.
    destruct tr as [|b' l' e' x y] eqn:Etr.
    + apply wp_bind, wp_ret. eapply IH; [by split|cbn in Hf; lia].
    + rewrite <- Etr in *. assert (tptr tr = Some l') as Ep by (by rewrite Etr). rewrite Ep, <- Ep.
      eapply (wp_next_push _ _ _ _ tr); try done; [by rewrite Etr|by rewrite (restacked_onodes _ _ R1)|lia].
Qed.

Lemma wp_Next Hmax s es stk : Hmax <= Z.of_nat STACK_MAX -> Hmax <= Z.of_nat (size (onodes s)) -> 0 <= Hmax ->
  iterating Hmax s es stk -> wp OSetGen_Next s (next_post Hmax s es).
Proof.
  intros HH Hsz Hpos Hit. unfold OSetGen_Next, depth_fuel. apply wp_bind, wp_gets. eapply wp_next_loop; [done|done|].
  pose proof (shallow_length _ _ _ (it_entries _ _ _ _ Hit) (it_shallow _ _ _ _ Hit) Hpos). lia.
Qed.

(** ** Starting *)

Lemma height_length t : height t <= Z.of_nat (length (elems t)).
Proof. induction t as [|b l e tl IHl tr IHr]; [done|]. cbn [height elems]. rewrite length_app. cbn [length]. lia. Qed.

Lemma wp_ResetIter s t (Q : unit -> OS -> Prop) : set_ok s t ->
  (forall s' stk, restacked s s' -> iterating (height t) s' (elems t) stk -> Q tt s') ->
  wp OSetGen_ResetIter s Q.
Proof.
  intros Hok HQ. unfold OSetGen_ResetIter. apply wp_bind, wp_stackClear. intros s1 R1 S1.
  apply wp_bind, wp_gets. destruct (restacked_rest _ _ R1) as (_ & -> & _). rewrite (so_root _ _ Hok).
  destruct t as [|b l e tl tr] eqn:Et; [apply wp_ret; apply (HQ s1 []); [done|by split]|]. rewrite <- Et in *.
  assert (tptr t = Some l) as Ep by (by rewrite Et). rewrite Ep, <- Ep.
  eapply wp_stackPush; [exact S1|cbn; unfold STACK_MAX; lia|lia|]. intros s2 R2 S2.
  pose proof (restacked_trans _ _ _ R1 R2) as R. apply (HQ s2 [(t, 1)]); [done|]. split.
  - done.
  - constructor; [|done]. split_and!; [rewrite (restacked_onodes _ _ R); apply Hok|by eapply set_ok_nodup|by rewrite Et|cbn; lia..].
  - cbn. split; [lia|done].
  - rewrite Et. unfold pending. cbn [map concat todo fst snd Z.eqb Pos.eqb]. by rewrite app_nil_r.
Qed.

(** ** Starting at a key *)

(** The elements that are not below the key *)
Definition from_key (kc : E -> Z) (es : list (loc * E)) : list (loc * E) := filter (fun y => kc y.2 <= 0) es.

Lemma from_key_above (ec : E -> E -> Z) kc e es : KeyOrder ec kc -> kc e <= 0 -> (forall y, y ∈ es -> ec e y.2 < 0) ->
  from_key kc es = es.
Proof.
  intros Hk He Hes. unfold from_key. induction es as [|x es IH]; [done|].
  assert (kc x.2 < 0) as Hx.
  { pose proof (Hes x ltac:(set_solver)) as Hlt. destruct (Z.eq_dec (kc e) 0) as [H0'|H0'].
    - by eapply ko_eq_lt.
    - eapply ko_lt; [|exact Hlt]. lia. }
  rewrite filter_cons_True by lia. f_equal. apply IH. intros y Hy. apply Hes. set_solver.
Qed.

Lemma from_key_below (ec : E -> E -> Z) kc e es : KeyOrder ec kc -> 0 <= kc e -> (forall y, y ∈ es -> ec y.2 e < 0) ->
  from_key kc es = [].
Proof.
  intros Hk He Hes. unfold from_key. induction es as [|x es IH]; [done|].
  assert (0 < kc x.2) as Hx.
  { pose proof (Hes x ltac:(set_solver)) as Hlt. destruct (Z.eq_dec (kc e) 0) as [H0'|H0'].
    - by eapply ko_eq_gt.
    - eapply ko_gt; [|exact Hlt]. lia. }
  rewrite filter_cons_False by lia. apply IH. intros y Hy. apply Hes. set_solver.
Qed.

Lemma wp_iter_cmp s k l nd (Q : Z -> OS -> Prop) : onodes s !! l = Some nd -> magic nd = OSET_MAGIC ->
  Q (kcmp (ocmp s) k (elem nd)) s ->
  wp (match ocmp s with Some c => slow_cmp c k (Some l) | None => fast_cmp (kword k) (Some l) end) s Q.
Proof.
  intros E1 Em HQ. unfold kcmp in HQ. destruct (ocmp s); apply wp_bind; (eapply wp_elem_of_node; [exact E1|exact Em|]);
    by apply wp_ret.
Qed.

Lemma wp_iter_at_loop fuel Hmax k t s stk (Q : unit -> OS -> Prop) : OSetOrder (ocmp s) ->
  Hmax <= Z.of_nat STACK_MAX -> rep (onodes s) t -> NoDup (locs t) -> ordered (ecmp (ocmp s)) t ->
  (length (elems t) < fuel)%nat -> stack_is s stk -> Forall (entry_ok s) stk -> shallow Hmax stk ->
  Z.of_nat (length stk) + height t <= Hmax ->
  (forall s' stk', restacked s s' ->
     iterating Hmax s' (from_key (kcmp (ocmp s) k) (elems t) ++ pending stk) stk' -> Q tt s') ->
  wp (iter_at_loop fuel k (tptr t)) s Q.
Proof.
  revert t s stk Q. induction fuel as [|fuel IH]; [lia|]. intros t s stk Q Ho HH Hr Hn Hord Hf Hs He Hd Hl HQ.
  destruct t as [|b l e tl tr]; [apply wp_ret, (HQ s stk); [apply restacked_refl|by split]|].
  pose proof Hr as (E1 & Hrl & Hrr). pose proof Hn as (_ & _ & _ & Nl & Nr)%nodup_node.
  pose proof (proj1 (ordered_node _ _ _ _ _ _) Hord) as (Ol & Or & Sl & Sr).
  cbn [elems] in *. rewrite length_app in Hf. cbn [length height] in *. pose proof (height_pos tl). pose proof (height_pos tr).
  set (kc := kcmp (ocmp s) k) in *. assert (KeyOrder (ecmp (ocmp s)) kc) as Hk by apply oo_key.
    cbn [iter_at_loop tptr]. apply wp_bind, wp_gets, wp_bind. eapply wp_iter_cmp; [exact E1|done|]. cbn [elem]. fold kc.
  assert (forall s1, restacked s s1 -> Forall (entry_ok s1) ((Node b l e tl tr, 2) :: stk)) as Hent.
  { intros s1 R1. constructor; [|by eapply entries_restacked].
    split_and!; [by rewrite (restacked_onodes _ _ R1)|done|done|cbn; lia..]. }
  unfold from_key in HQ. rewrite filter_app, filter_cons in HQ. fold (from_key kc (elems tl)) in HQ.
  fold (from_key kc (elems tr)) in HQ.
  destruct (Z.ltb_spec (kc e) 0) as [Hlt|Hge]; [|destruct (Z.ltb_spec 0 (kc e)) as [Hgt|Hle]]; cbv zeta.
  - change (1 =? 0) with false. change (cmpresU 1) with 0. cbn [Z.eqb orb]. apply wp_bind, wp_ret, wp_bind.
    eapply (wp_stackPush _ _ (Node b l e tl tr)); [exact Hs|lia|lia|]. intros s1 R1 S1.
    apply wp_bind. eapply wp_aload; [rewrite (restacked_onodes _ _ R1); exact E1|]. cbn [aleft].
    destruct (restacked_rest _ _ R1) as (Ec & _).
    eapply (IH tl s1 ((Node b l e tl tr, 2) :: stk)); rewrite ?Ec; try done; try lia;
      [by rewrite (restacked_onodes _ _ R1)|by apply Hent|cbn [length]; lia|].
    intros s2 stk2 R2 Hit. apply (HQ s2 stk2); [by eapply restacked_trans|].
    rewrite decide_True by (cbn; lia). rewrite (from_key_above (ecmp (ocmp s)) kc e (elems tr) Hk); [|lia|exact Or].
    rewrite <- app_assoc. exact Hit.
  - change (-1 =? 0) with false. change (cmpresU (-1)) with 1. cbn [Z.eqb Pos.eqb orb]. apply wp_bind, wp_ret, wp_bind, wp_ret.
    apply wp_bind. eapply wp_aload; [exact E1|]. cbn [aright].
    eapply (IH tr s stk); try done; try lia. intros s2 stk2 R2 Hit. apply (HQ s2 stk2); [done|].
    rewrite decide_False by (cbn; lia). rewrite (from_key_below (ecmp (ocmp s)) kc e (elems tl) Hk); [exact Hit|lia|exact Ol].
  - assert (kc e = 0) as -> by lia. cbn [Z.eqb].
    eapply (wp_stackPush _ _ (Node b l e tl tr)); [exact Hs|lia|lia|]. intros s1 R1 S1.
    apply (HQ s1 ((Node b l e tl tr, 2) :: stk)); [done|].
    assert (kc e = 0) as Hke by lia. rewrite decide_True by (cbn; lia).
    rewrite (from_key_above (ecmp (ocmp s)) kc e (elems tr) Hk); [|lia|exact Or].
    rewrite (from_key_below (ecmp (ocmp s)) kc e (elems tl) Hk); [|lia|exact Ol].
    split; [done|by apply Hent|cbn [shallow fst length height]; split; [lia|done]|done].
Qed.

Lemma wp_ResetIterAt s t k (Q : unit -> OS -> Prop) : OSetOrder (ocmp s) -> set_ok s t ->
  height t <= Z.of_nat STACK_MAX ->
  (forall s' stk, restacked s s' -> iterating (height t) s' (from_key (kcmp (ocmp s) k) (elems t)) stk -> Q tt s') ->
  wp (OSetGen_ResetIterAt k) s Q.
Proof.
  intros Ho Hok HH HQ. unfold OSetGen_ResetIterAt. apply wp_bind, wp_stackClear. intros s1 R1 S1.
  apply wp_bind, wp_gets. destruct (restacked_rest _ _ R1) as (Ec & -> & _). rewrite (so_root _ _ Hok).
  pose proof (set_ok_nodup _ _ Hok) as Hn. pose proof (rep_length _ _ (so_rep _ _ Hok) Hn) as Hlen.
  destruct t as [|b l e tl tr] eqn:Et; [apply wp_ret; apply (HQ s1 []); [done|by split]|]. rewrite <- Et in *.
  assert (tptr t = Some l) as Ep by (by rewrite Et). rewrite Ep, <- Ep.
  unfold depth_fuel. apply wp_bind, wp_gets. rewrite (restacked_onodes _ _ R1).
  eapply (wp_iter_at_loop _ (height t) k t s1 []); rewrite ?Ec, ?(restacked_onodes _ _ R1); try done; try lia.
  - apply Hok.
  - apply Hok.
  - intros s2 stk2 R2 Hit. rewrite app_nil_r in Hit. apply (HQ s2 stk2); [by eapply restacked_trans|done].
Qed.
End Iter.

(** * Allocation, release and destruction in [m_oset.c]: nodes come from the
    allocator or the pool and each goes back once, children before parents. *)


(** What a set relies on of its pool: the nodes that are handed out, the
    number of sets that use it, and that there is room for so many more
    nodes *)
Class NodePoolLaws (P : Type) `{NodePool P} := {
  pinv : P -> Prop;
  plive : P -> gset loc;
  prefs : P -> Z;
  proom : P -> nat -> Prop;
  pool_alloc p k : pinv p -> proom p (S k) -> exists l p', np_alloc p = Some (l, p') /\ pinv p' /\ proom p' k /\
    l ∉ plive p /\ plive p' = {[l]} ∪ plive p /\ prefs p' = prefs p;
  pool_free p l : pinv p -> l ∈ plive p -> exists p', np_free p l = Some p' /\ pinv p' /\
    (forall k, proom p k -> proom p' k) /\ plive p' = plive p ∖ {[l]} /\ prefs p' = prefs p;
  pool_addref p : pinv p -> prefs p + 1 < 2 ^ 64 -> pinv (np_addref p) /\
    (forall k, proom p k -> proom (np_addref p) k) /\ plive (np_addref p) = plive p /\ prefs (np_addref p) = prefs p + 1;
  pool_release p : pinv p -> 0 < prefs p -> exists p', np_release p = Some (prefs p - 1, p') /\
    (1 < prefs p -> pinv p' /\ plive p' = plive p);
  pool_in p l : pinv p -> l ∈ plive p -> in_pool p l = true
}.

Section Destroy.
Context {K E P : Type} `{OSetElem K E} `{NodePoolLaws P}.
Abbreviation OS := (OSet K E P).
Abbreviation entry := (tree E * Z)%type.
Implicit Types (s : OS) (t u : tree E) (l n : loc) (x : entry) (stk : list entry).

(** A set that has a pool has all its nodes from it. *)
Definition pooled s : Prop :=
  match node_pa s with Some p => pinv p /\ dom (onodes s) ⊆ plive p | None => True end.

(** There is room for [k] more nodes. *)
Definition has_room s (k : nat) : Prop := match node_pa s with Some p => proom p k | None => True end.

(** What taking and giving back a node leaves alone *)
Definition same_set s s' : Prop :=
  ocmp s' = ocmp s /\ maxEltSize s' = maxEltSize s /\ nElems s' = nElems s /\ oroot s' = oroot s /\
  nodeStack s' = nodeStack s /\ numStack s' = numStack s /\ stackTop s' = stackTop s /\
  prefs <$> node_pa s' = prefs <$> node_pa s.

(** ** Freeing one node *)

Lemma wp_oset_free_node s l nd (Q : unit -> OS -> Prop) : pooled s -> onodes s !! l = Some nd ->
  (forall s', pooled s' -> same_set s s' -> (forall k, has_room s k -> has_room s' k) ->
     onodes s' = delete l (onodes s) -> Q tt s') ->
  wp (free_node (Some l)) s Q.
Proof.
  intros Hp E1 HQ. unfold free_node, pooled in *. apply wp_bind, wp_gets.
  assert (l ∈ dom (onodes s)) as Hl by (apply elem_of_dom; by eexists).
  destruct (node_pa s) as [pa|] eqn:Epa.
  - destruct Hp as [Hi Hd]. destruct (pool_free pa l Hi ltac:(set_solver)) as (p' & -> & Hi' & Hr & Ep & Ef).
    apply wp_bind, wp_modify, wp_bind. eapply wp_aload; [exact E1|].
    apply wp_modify, HQ; [cbn; rewrite Ep, dom_delete_L; set_solver|unfold same_set; cbn; rewrite Epa; cbn; by rewrite Ef| |done].
    intros k. unfold has_room. rewrite Epa. apply Hr.
  - apply wp_bind. eapply wp_aload; [exact E1|]. apply wp_modify, HQ; [cbn; by rewrite Epa|done| |done].
    intros k _. unfold has_room. cbn. by rewrite Epa.
Qed.

(** ** The traversal *)

(** The nodes of a tree in the order in which they are freed *)
Fixpoint post t : list loc :=
  match t with Leaf => [] | Node _ l _ tl tr => post tl ++ post tr ++ [l] end.

Lemma post_locs t : post t ≡ₚ locs t.
Proof.
  induction t as [|b l e tl IHl tr IHr]; [done|]. cbn [post]. rewrite locs_node, IHl, IHr. solve_Permutation.
Qed.

(** The part of an entry that is still in memory, and the order in which it
    will be freed *)
Definition rest x : list loc :=
  match x.1 with
  | Leaf => []
  | Node _ l _ tl tr => if x.2 =? 1 then post x.1 else if x.2 =? 2 then post tr ++ [l] else [l]
  end.

Definition held (h : gmap loc (AvlNode E)) x : Prop :=
  match x.1 with
  | Leaf => False
  | Node b l e tl tr =>
      if x.2 =? 1 then rep h x.1
      else h !! l = Some (mk_avl (tptr tl) (tptr tr) b OSET_MAGIC e) /\ (if x.2 =? 2 then rep h tr else True)
  end.

Definition rests stk : list loc := concat (map rest stk).

(** The pops that an entry is good for *)
Definition pops x : nat :=
  match x.1 with
  | Leaf => 0
  | Node _ _ _ _ tr => if x.2 =? 1 then 3 * length (elems x.1) else if x.2 =? 2 then 3 * length (elems tr) + 2 else 1
  end.
Definition all_pops stk : nat := list_sum (map pops stk).

Lemma held_node h x : held h x -> exists b l e tl tr, x.1 = Node b l e tl tr /\
  h !! l = Some (mk_avl (tptr tl) (tptr tr) b OSET_MAGIC e).
Proof.
  destruct x as [[|b l e tl tr] i]; [done|]. cbn. intros Hh. exists b, l, e, tl, tr. split; [done|].
  destruct (i =? 1); by destruct Hh.
Qed.

Lemma held_delete h l x : l ∉ rest x -> held h x -> held (delete l h) x.
Proof.
  destruct x as [[|b l' e tl tr] i]; [done|]. unfold held, rest. cbn [fst snd]. intros Hl.
  assert (forall t, l ∉ post t -> rep h t -> rep (delete l h) t) as Hd.
  { intros t Ht. apply rep_frame. intros k Hk. apply lookup_delete_ne. intros ->. by rewrite post_locs in Ht. }
  destruct (i =? 1); [by apply Hd|]. intros [E1 Hr]. destruct (i =? 2).
  - rewrite not_elem_of_app, list_elem_of_singleton in Hl. destruct Hl as [Ha Hb].
    rewrite lookup_delete_ne by done. split; [done|by apply Hd].
  - rewrite list_elem_of_singleton in Hl. by rewrite lookup_delete_ne.
Qed.

(** The stack of a destruction under way *)
Record destroying s stk : Prop := {
  de_stack : stack_is s stk;
  de_held : Forall (held (onodes s)) stk;
  de_nums : Forall (fun x => 1 <= x.2 <= 3) stk;
  de_nodup : NoDup (rests stk);
  de_shallow : shallow (Z.of_nat STACK_MAX) stk;
  de_pooled : pooled s
}.

Lemma all_pops_cons x stk : all_pops (x :: stk) = (pops x + all_pops stk)%nat.
Proof. done. Qed.
Lemma rests_cons x stk : rests (x :: stk) = rest x ++ rests stk.
Proof. done. Qed.
Lemma aelems_length b l e tl tr :
  length (elems (Node (E := E) b l e tl tr)) = S (length (elems tl) + length (elems tr)).
Proof. cbn [elems]. rewrite length_app. cbn [length]. lia. Qed.

Lemma pooled_restacked s s' : restacked s s' -> pooled s -> pooled s'.
Proof. intros R. unfold pooled. destruct (restacked_rest _ _ R) as (_ & _ & _ & -> & _). by rewrite (restacked_onodes _ _ R). Qed.

Lemma destroying_room s x stk : destroying s (x :: stk) -> (length stk < STACK_MAX)%nat.
Proof.
  intros [_ Hh _ _ [Hd _] _]. apply Forall_cons in Hh as [Hh _].
  destruct (held_node _ _ Hh) as (b & l & e & tl & tr & E1 & _). rewrite E1 in Hd. cbn [height] in Hd.
  pose proof (height_pos tl). pose proof (height_pos tr). lia.
Qed.

(** A child, if there is one, on top of the stack *)
Definition with_child t stk : list entry := match t with Leaf => stk | _ => (t, 1) :: stk end.

Lemma wp_push_child s stk t (Q : unit -> OS -> Prop) : stack_is s stk ->
  (t <> Leaf -> (length stk < STACK_MAX)%nat) ->
  (forall s', restacked s s' -> stack_is s' (with_child t stk) -> Q tt s') ->
  wp (match tptr t with Some _ => stackPush (tptr t) 1 | None => ret tt end) s Q.
Proof.
  intros Hs Hl HQ. destruct t as [|b l e x y] eqn:Et; [apply wp_ret, HQ; [apply restacked_refl|done]|].
  rewrite <- Et in *. assert (tptr t = Some l) as Ep by (by rewrite Et). rewrite Ep, <- Ep.
  eapply wp_stackPush; [done|by apply Hl; rewrite Et|lia|]. intros s' R S. apply HQ; [done|]. by rewrite Et in *.
Qed.

Lemma child_rests t stk : rests (with_child t stk) = post t ++ rests stk.
Proof. by destruct t. Qed.

Lemma child_pops t stk : all_pops (with_child t stk) = (3 * length (elems t) + all_pops stk)%nat.
Proof. destruct t; [done|]. cbn [with_child]. by rewrite all_pops_cons. Qed.

(** The node of the top entry goes to its next stage, below a child [u]. *)
Lemma destroying_next s s' b l e tl tr i j u stk : destroying s ((Node b l e tl tr, i) :: stk) -> restacked s s' ->
  i = 1 /\ j = 2 /\ u = tl \/ i = 2 /\ j = 3 /\ u = tr -> stack_is s' (with_child u ((Node b l e tl tr, j) :: stk)) ->
  destroying s' (with_child u ((Node b l e tl tr, j) :: stk)) /\
  rests (with_child u ((Node b l e tl tr, j) :: stk)) = rests ((Node b l e tl tr, i) :: stk) /\
  S (all_pops (with_child u ((Node b l e tl tr, j) :: stk))) = all_pops ((Node b l e tl tr, i) :: stk).
Proof.
  intros [Hs Hh Hn Hd [Hl Hsh] Hp] R Hi Hs'. cbn [fst height] in Hl.
  apply Forall_cons in Hh as [Hh Hh']. apply Forall_cons in Hn as [_ Hn'].
  pose proof (height_pos tl). pose proof (height_pos tr).
  assert (rests (with_child u ((Node b l e tl tr, j) :: stk)) = rests ((Node b l e tl tr, i) :: stk)) as Hr.
  { rewrite child_rests, !rests_cons. destruct Hi as [(-> & -> & ->)|(-> & -> & ->)]; cbn; by rewrite <- ?app_assoc. }
  assert (held (onodes s) (Node b l e tl tr, j) /\ rep (onodes s) u) as [Hh1 Hu].
  { destruct Hi as [(-> & -> & ->)|(-> & -> & ->)]; cbn in Hh |- *; [destruct Hh as (? & ? & ?)|destruct Hh as (? & ?)]; by split_and!. }
  split_and!; [|exact Hr|].
  - split; [done| | |by rewrite Hr| |by eapply pooled_restacked].
    + rewrite (restacked_onodes _ _ R). destruct u; repeat (apply Forall_cons_2); done.
    + destruct u; repeat (apply Forall_cons_2); try done; cbn; lia.
    + assert (height u + 1 <= 1 + Z.max (height tl) (height tr)) by (destruct Hi as [(_ & _ & ->)|(_ & _ & ->)]; lia).
      destruct u; cbn [with_child shallow fst length height] in *; (repeat split); try done; lia.
  - rewrite child_pops, !all_pops_cons. destruct Hi as [(-> & -> & ->)|(-> & -> & ->)]; cbn [pops fst snd];
      rewrite ?aelems_length; cbn; lia.
Qed.

(** The whole traversal: what is left, what is returned *)
Definition destroyed s stk sz (r : Z) s' : Prop :=
  r = u64 (sz + Z.of_nat (length (rests stk))) /\ nElems s' = nElems s /\ pooled s' /\
  prefs <$> node_pa s' = prefs <$> node_pa s /\
  (forall l, onodes s' !! l = if decide (l ∈ rests stk) then None else onodes s !! l).

Lemma destroyed_restacked s s1 stk stk1 sz r s' : restacked s s1 -> rests stk1 = rests stk ->
  destroyed s1 stk1 sz r s' -> destroyed s stk sz r s'.
Proof.
  intros R Er. unfold destroyed. rewrite Er, (restacked_onodes _ _ R).
  destruct (restacked_rest _ _ R) as (_ & _ & -> & -> & _). done.
Qed.

Lemma stack_same s s' stk : stackTop s' = stackTop s -> nodeStack s' = nodeStack s -> numStack s' = numStack s ->
  stack_is s stk -> stack_is s' stk.
Proof. intros E1 E2 E3 [Ht Hn Hm Hl]. split; rewrite ?E1, ?E2, ?E3; done. Qed.

(** Stage 3: the node is freed. *)
Lemma destroying_free s s' b l e tl tr stk : destroying s ((Node b l e tl tr, 3) :: stk) ->
  stack_is s' stk -> pooled s' -> onodes s' = delete l (onodes s) -> destroying s' stk.
Proof.
  intros [Hs Hh Hn Hd [Hl Hsh] Hp] Hs' Hp' Eo. rewrite rests_cons in Hd. cbn in Hd.
  apply NoDup_cons in Hd as [Hnin Hd]. split; [done| |by apply Forall_cons in Hn as [_ ?]|done|done|done].
  apply Forall_cons in Hh as [_ Hh]. rewrite Eo. rewrite Forall_forall in *. intros x Hx.
  apply held_delete; [|by apply Hh]. intros Hin. apply Hnin. apply list_elem_of_In, in_concat.
  exists (rest x). split; [by apply in_map, list_elem_of_In|by apply list_elem_of_In].
Qed.

Lemma destroyed_free s s1 b l e tl tr stk sz r s' : rests ((Node b l e tl tr, 3) :: stk) = l :: rests stk ->
  onodes s1 = delete l (onodes s) -> nElems s1 = nElems s -> prefs <$> node_pa s1 = prefs <$> node_pa s ->
  destroyed s1 stk (u64 (sz + 1)) r s' -> destroyed s ((Node b l e tl tr, 3) :: stk) sz r s'.
Proof.
  intros Er Eo En Epa (-> & En' & Hp & Hpa & Hl). unfold destroyed. rewrite Er. split_and!.
  - unfold u64. rewrite Zplus_mod_idemp_l. cbn [length]. f_equal. lia.
  - congruence.
  - done.
  - by rewrite Hpa.
  - intros k. rewrite Hl, Eo. destruct (decide (k = l)) as [->|Hne].
    + rewrite lookup_delete_eq, (decide_True (P := l ∈ l :: rests stk)) by apply list_elem_of_here.
      by destruct (decide (l ∈ rests stk)).
    + rewrite lookup_delete_ne by done. destruct (decide (k ∈ rests stk)) as [Hk|Hk].
      * rewrite decide_True; [done|by apply list_elem_of_further].
      * rewrite decide_False; [done|by rewrite not_elem_of_cons].
Qed.

Lemma wp_destroy_loop fuel s stk sz : destroying s stk -> (all_pops stk < fuel)%nat -> 0 <= sz < 2 ^ 64 ->
  wp (destroy_loop fuel sz) s (destroyed s stk sz).
Proof.
  revert s stk sz. induction fuel as [|fuel IH]; [lia|]. intros s stk sz Hde Hf Hsz. cbn [destroy_loop].
  destruct stk as [|[t i] stk].
  { apply wp_bind, wp_stackPop_nil; [apply Hde|]. apply wp_ret. unfold destroyed.
    change (rests []) with (@nil loc). cbn [length Z.of_nat]. rewrite Z.add_0_r, u64_small by done.
    split_and!; [done|done|apply Hde|done|]. intros l. by rewrite decide_False by apply not_elem_of_nil. }
  pose proof (destroying_room _ _ _ Hde) as Hroom. pose proof Hde as [Hs Hh Hn _ _ Hp].
  apply Forall_cons in Hh as [Hh _]. apply Forall_cons in Hn as [Hi _]. cbn [snd] in Hi.
  destruct (held_node _ _ Hh) as (b & l & e & tl & tr & Et & E1). cbn [fst] in Et. subst t.
  apply wp_bind. eapply wp_stackPop; [exact Hs|done|done|]. intros s1 R1 S1. cbv beta iota.
  assert (forall s2 j u, restacked s1 s2 -> i = 1 /\ j = 2 /\ u = tl \/ i = 2 /\ j = 3 /\ u = tr ->
    stack_is s2 (with_child u ((Node b l e tl tr, j) :: stk)) ->
    wp (destroy_loop fuel sz) s2 (destroyed s ((Node b l e tl tr, i) :: stk) sz)) as Hnext.
  { intros s2 j u R2 Hu S2. pose proof (restacked_trans _ _ _ R1 R2) as R.
    destruct (destroying_next _ _ _ _ _ _ _ _ _ _ _ Hde R Hu S2) as (Hde' & Hr & Hpp).
    eapply wp_mono; [apply (IH s2 _ sz Hde'); lia|]. intros r s3. by apply destroyed_restacked. }
  assert (forall u j, i = 1 /\ j = 2 /\ u = tl \/ i = 2 /\ j = 3 /\ u = tr -> u <> Leaf -> (S (length stk) < STACK_MAX)%nat) as Hroom2.
  { intros u j Hu Hne. destruct Hde as [_ _ _ _ [Hsh _] _]. cbn [fst height] in Hsh. pose proof (height_node u Hne).
    pose proof (height_pos tl). pose proof (height_pos tr).
    assert (height u <= Z.max (height tl) (height tr)) by (destruct Hu as [(_ & _ & ->)|(_ & _ & ->)]; lia). lia. }
  destruct (Z.eqb_spec i 1) as [->|Hi1]; [|destruct (Z.eqb_spec i 2) as [->|Hi2]].
  - apply wp_bind. eapply (wp_stackPush _ _ (Node b l e tl tr)); [exact S1|done|lia|]. intros s2 R2 S2.
    apply wp_bind. eapply wp_aload; [rewrite (restacked_onodes _ _ R2), (restacked_onodes _ _ R1); exact E1|].
    cbn [aleft]. apply wp_bind. eapply wp_push_child; [exact S2|intros Hne; cbn [length]; by eapply (Hroom2 tl 2); auto|].
    intros s3 R3 S3. apply (Hnext s3 2 tl); [by eapply restacked_trans|by left|exact S3].
  - apply wp_bind. eapply (wp_stackPush _ _ (Node b l e tl tr)); [exact S1|done|lia|]. intros s2 R2 S2.
    apply wp_bind. eapply wp_aload; [rewrite (restacked_onodes _ _ R2), (restacked_onodes _ _ R1); exact E1|].
    cbn [aright]. apply wp_bind. eapply wp_push_child; [exact S2|intros Hne; cbn [length]; by eapply (Hroom2 tr 3); auto|].
    intros s3 R3 S3. apply (Hnext s3 3 tr); [by eapply restacked_trans|by right|exact S3].
  - assert (i = 3) as -> by lia. apply wp_bind.
    eapply wp_oset_free_node; [by eapply pooled_restacked|rewrite (restacked_onodes _ _ R1); exact E1|].
    intros s2 Hp2 (_ & _ & En & _ & E2 & E3 & Et & Epa) _ Eo. rewrite (restacked_onodes _ _ R1) in Eo.
    destruct (restacked_rest _ _ R1) as (_ & _ & En1 & Epa1 & _).
    eapply wp_mono; [apply (IH s2 stk (u64 (sz + 1)))|].
    + eapply destroying_free; [exact Hde|by eapply stack_same|done|done].
    + rewrite all_pops_cons in Hf. cbn in Hf. lia.
    + apply u64_range.
    + intros r s3. apply destroyed_free; [done|done|congruence|by rewrite Epa, Epa1].
Qed.

(** ** Destruction *)

Lemma wp_destroy_nodes s t (Q : unit -> OS -> Prop) : set_ok s t -> pooled s -> height t <= Z.of_nat STACK_MAX ->
  Z.of_nat (length (elems t)) < 2 ^ 32 ->
  (forall s', pooled s' -> (forall l, onodes s' !! l = if decide (l ∈ locs t) then None else onodes s !! l) -> Q tt s') ->
  wp destroy_nodes s Q.
Proof.
  intros Hok Hp HH Hsz HQ. pose proof (set_ok_nodup _ _ Hok) as Hn. pose proof (rep_length _ _ (so_rep _ _ Hok) Hn) as Hlen.
  unfold destroy_nodes, OSetGen_ResetIter. apply wp_bind, wp_bind, wp_stackClear. intros s1 R1 S1.
  apply wp_bind, wp_gets. destruct (restacked_rest _ _ R1) as (_ & -> & En1 & _). rewrite (so_root _ _ Hok).
  eapply (wp_push_child s1 [] t); [exact S1|cbn; unfold STACK_MAX; lia|]. intros s2 R2 S2.
  pose proof (restacked_trans _ _ _ R1 R2) as R. apply wp_bind, wp_gets.
  destruct (restacked_rest _ _ R2) as (_ & _ & En2 & _).
  assert (rests (with_child t []) = post t) as Er by (rewrite child_rests; apply app_nil_r).
  apply wp_bind. eapply wp_mono; [apply (wp_destroy_loop _ s2 (with_child t []) 0)|].
  - split; [done| | |by rewrite Er, post_locs| |by eapply pooled_restacked].
    + rewrite (restacked_onodes _ _ R). destruct t as [|b l e x y]; [done|]. repeat constructor; apply Hok.
    + destruct t; [done|]. repeat constructor; cbn; lia.
    + destruct t as [|b l e x y]; [done|]. cbn [with_child shallow fst length]. split; [lia|done].
  - rewrite child_pops, (restacked_onodes _ _ R). change (all_pops []) with 0%nat. lia.
  - lia.
  - intros r s3 (-> & En & Hp3 & _ & Hl). rewrite Er in *. apply wp_bind, wp_gets. unfold id.
    rewrite En, En2, En1, (so_size _ _ Hok). rewrite (Permutation_length (post_locs t)). unfold locs. rewrite length_fmap.
    unfold os_assert. rewrite (proj2 (Z.eqb_eq _ _)).
    2:{ unfold u32. rewrite Z.mod_small by lia. rewrite u64_small by lia. lia. }
    apply wp_ret, HQ; [done|]. intros l. rewrite Hl, (restacked_onodes _ _ R).
    destruct (decide (l ∈ post t)) as [Hin|Hin]; rewrite post_locs in Hin;
      [by rewrite decide_True|by rewrite decide_False].
Qed.

Lemma wp_Destroy s t (Q : unit -> OS -> Prop) : set_ok s t -> pooled s -> height t <= Z.of_nat STACK_MAX ->
  Z.of_nat (length (elems t)) < 2 ^ 32 ->
  match node_pa s with Some p => 0 < prefs p | None => True end ->
  (forall s', match node_pa s with Some p => prefs p = 1 | None => False end -> onodes s' = ∅ -> Q tt s') ->
  (forall s', match node_pa s with Some p => 1 < prefs p | None => True end -> pooled s' ->
     (forall l, onodes s' !! l = if decide (l ∈ locs t) then None else onodes s !! l) -> Q tt s') ->
  wp OSetGen_Destroy s Q.
Proof.
  intros Hok Hp HH Hsz Href HQ1 HQ2. unfold OSetGen_Destroy. apply wp_bind, wp_gets.
  destruct (node_pa s) as [p|] eqn:Epa; [|eapply wp_destroy_nodes; try done; auto].
  unfold pooled in Hp. rewrite Epa in Hp. destruct Hp as [Hi Hp].
  destruct (pool_release p Hi Href) as (p' & -> & Hlive). apply wp_bind, wp_modify.
  destruct (Z.ltb_spec 0 (prefs p - 1)) as [Hlt|Hge].
  - eapply (wp_destroy_nodes _ t); [| |done|done|].
    + destruct Hok as [O1 O2 O3 O4 O5]. by split.
    + unfold pooled. cbn. destruct (Hlive ltac:(lia)) as [Hi' ->]. done.
    + intros s' Hp' Hl. apply HQ2; [lia|done|exact Hl].
  - apply wp_modify, HQ1; [lia|]. cbn. apply map_empty. intros l. apply map_lookup_filter_None. right.
    intros n En Hin. rewrite pool_in in Hin; [done|done|]. apply Hp. apply elem_of_dom. by exists n.
Qed.

(** ** Allocation *)

Lemma wp_AllocNode s sz k (Q : loc -> OS -> Prop) : pooled s -> has_room s (S k) -> 0 < sz ->
  match node_pa s with Some _ => sz <= maxEltSize s | None => True end ->
  (forall l s', l ∉ dom (onodes s) -> pooled s' -> same_set s s' -> has_room s' k ->
     onodes s' = <[l := mk_avl None None 0 OSET_MAGIC (zero_elem sz)]> (onodes s) -> Q l s') ->
  wp (OSetGen_AllocNode sz) s Q.
Proof.
  intros Hp Hr Hsz Hmax HQ. unfold OSetGen_AllocNode. rewrite (proj2 (Z.ltb_lt _ _)) by done.
  apply wp_bind, wp_ret, wp_bind, wp_gets. unfold id, pooled in *.
  assert (forall (l : loc) (s1 : OS), l ∉ dom (onodes s) -> onodes s1 = onodes s -> same_set s s1 -> has_room s1 k ->
    match node_pa s1 with Some p => pinv p /\ {[l]} ∪ dom (onodes s) ⊆ plive p | None => True end ->
    wp (modify (fun s0 => set_onodes (<[l := mk_avl None None 0 OSET_MAGIC (zero_elem sz)]> (onodes s0)) s0) ;;;
        elem_of_node (Some l) ;;; ret l) s1 Q) as Hrest.
  { intros l s1 Hl E1 Hs1 Hr1 Hp1. apply wp_bind, wp_modify, wp_bind.
    eapply wp_elem_of_node; [cbn; apply lookup_insert_eq|done|]. apply wp_ret. rewrite E1. apply HQ; [done| |done|done|done].
    cbn. unfold pooled. cbn. by rewrite dom_insert_L. }
  unfold has_room in Hr. destruct (node_pa s) as [p|] eqn:Epa.
  - destruct Hp as [Hi Hp]. rewrite (proj2 (Z.leb_le _ _)) by done.
    destruct (pool_alloc p k Hi Hr) as (l & p' & -> & Hi' & Hr' & Hl & Ep & Ef).
    apply wp_bind, wp_bind, wp_ret, wp_bind, wp_modify, wp_ret. apply Hrest; [set_solver|done| |done|].
    + unfold same_set. cbn. rewrite Epa. cbn. by rewrite Ef.
    + cbn. rewrite Ep. split; [done|set_solver].
  - apply wp_bind, wp_ret. apply Hrest; [apply is_fresh|done|unfold same_set; by rewrite Epa|unfold has_room; by rewrite Epa|by rewrite Epa].
Qed.

Lemma wp_FreeNode s l nd (Q : unit -> OS -> Prop) : pooled s -> onodes s !! l = Some nd -> magic nd = OSET_MAGIC ->
  (forall s', pooled s' -> same_set s s' -> (forall k, has_room s k -> has_room s' k) ->
     onodes s' = delete l (onodes s) -> Q tt s') ->
  wp (OSetGen_FreeNode l) s Q.
Proof.
  intros Hp E1 Em HQ. unfold OSetGen_FreeNode, node_of_elem. apply wp_bind, wp_bind. eapply wp_aload; [exact E1|].
  rewrite Em. apply wp_bind, wp_ret, wp_ret. by eapply wp_oset_free_node.
Qed.
End Destroy.
