(* ===== verification/PoolNodes.v ===== *)
(** The pool allocator as the pool of an ordered set: the interface
    [NodePool] of [OSet] is implemented by [PoolAlloc], nodes being the
    addresses of elements, and its laws follow from the allocator's
    invariant. *)
From stdpp Require Import base gmap list sets.
From Stdlib Require Import ZArith Lia.
From S2P Require Import Prelude Mem XArray XArrayProofs XArrayOf PoolAlloc PoolAllocProofs Printf Chains OSet AvlProofs OSetShape OSetOps OSetProofs OSetIter.
Open Scope prog_scope.
Open Scope Z_scope.

(** ** An allocator with room *)

(** Blocks start at multiples of 16 and are not reused. *)
Record arena := Arena { next_block : positive }.

#[export] Instance arena_alloc : Allocator arena := {
  alloc_fn n h := (16 * Z.pos (next_block h), Arena (next_block h + Z.to_pos (n / 16 + 1)));
  free_fn _ h := h;
  live h p n := p + n <= 16 * Z.pos (next_block h)
}.

Lemma arena_next n h : 0 <= n ->
  16 * Z.pos (next_block h) + n <= 16 * Z.pos (next_block (alloc_fn n h).2) <= 16 * Z.pos (next_block h) + n + 16.
Proof.
  intros Hn. cbn. rewrite Pos2Z.inj_add, Z2Pos.id by (pose proof (Z.div_pos n 16); lia).
  pose proof (Z.div_mod n 16 ltac:(lia)). pose proof (Z.mod_pos_bound n 16 ltac:(lia)). lia.
Qed.

#[export] Instance arena_laws : AllocatorLaws arena.
Proof.
  split.
  - intros n h Hn. apply (arena_next n h Hn).
  - done.
  - intros n h p k Hn Hl. pose proof (arena_next n h Hn). cbn [live arena_alloc alloc_fn fst snd] in *. lia.
  - done.
Qed.

#[export] Instance arena_space : AllocatorSpace arena.
Proof.
  refine {| space h k := 16 * Z.pos (next_block h) + k < 2 ^ 64 |}; cbn beta.
  - intros n k h Hn Hk Hs. pose proof (arena_next n h Hn). split; [cbn; lia|]. split; [|lia].
    cbn. rewrite (Z.mul_comm 16). change 16 with (2 * 8). rewrite Z.mul_assoc. apply Z.mod_mul. lia.
  - done.
  - lia.
Defined.

Section PoolNodes.
Context {H : Type} `{AllocatorLaws H} `{!AllocatorSpace H}.
Abbreviation PST := (st (H := H)).

(** The allocator's structure, its memory, and the address of the local
    variable of [pal_add_new_pool] *)
Record pool_state := mk_pool { pn_pa : PoolAlloc; pn_st : PST; pn_var : Z }.
Implicit Types (p : pool_state) (l : loc) (a : Z).

(** The addresses of the pools, as the allocator's array has them *)
Definition pool_addrs p : list Z :=
  (fun i => load_le 8 (mem (pn_st p)) (arr (pools (pn_pa p)) + i * 8)) <$> seqZ 0 (usedsizeE (pools (pn_pa p))).

#[export] Instance pool_nodes : NodePool pool_state := {
  np_alloc p := match allocEltPA (pn_var p) (pn_pa p) (pn_st p) with
                | Some ((a, pa), s) => Some (Z.to_pos a, mk_pool pa s (pn_var p))
                | None => None
                end;
  np_free p l := match freeEltPA (pn_pa p) (Z.pos l) (pn_st p) with
                 | Some (pa, s) => Some (mk_pool pa s (pn_var p))
                 | None => None
                 end;
  np_addref p := mk_pool (addRefPA (pn_pa p)) (pn_st p) (pn_var p);
  np_release p := match releasePA (pn_pa p) (pn_st p) with
                  | Some ((n, pa), s) => Some (n, mk_pool pa s (pn_var p))
                  | None => None
                  end;
  in_pool p l := existsb (fun q => (q <=? Z.pos l) && (Z.pos l <? q + pool_bytes (pn_pa p))) (pool_addrs p)
}.

(** The free list, as it is read from memory *)
Fixpoint chain_from (fuel : nat) (m : gmem) (a : Z) : list Z :=
  match fuel with
  | O => []
  | S fuel => if a =? 0 then [] else a :: chain_from fuel m (load_le 8 m a)
  end.

Definition all_slots p : list Z := slots (pa_elemSzB (pn_pa p)) (nPerPool (pn_pa p)) (pool_addrs p).
Definition free_elems p : list Z := chain_from (length (all_slots p)) (mem (pn_st p)) (nextFree (pn_pa p)).
Definition nodes_in_use p : gset loc := list_to_set (Z.to_pos <$> filter (fun a => a ∉ free_elems p) (all_slots p)).

Lemma chain_freelist m a fr fuel : freelist m a fr -> (length fr <= fuel)%nat -> chain_from fuel m a = fr.
Proof using Type.
  revert a fuel. induction fr as [|b fr IH]; intros a fuel; cbn [freelist].
  - intros -> _. by destruct fuel.
  - intros (-> & Hne & Hf) Hfu. destruct fuel as [|fuel]; [cbn in Hfu; lia|]. cbn [chain_from].
    rewrite (proj2 (Z.eqb_neq _ _) Hne), (IH _ fuel Hf); [done|cbn in Hfu; lia].
Qed.

(** The pool's state, with its pools, elements in use and free elements *)
Definition pool_is p ps (used : gset Z) (fr : list Z) : Prop :=
  pa_ok (pn_st p) (pn_pa p) ps used fr /\ foreign (pn_st p) (pn_pa p) ps (pn_var p) 8 /\
  0 <= nrRef (pn_pa p) < 2 ^ 64.

Lemma pool_addrs_is p ps used fr : pool_is p ps used fr -> pool_addrs p = ps.
Proof using Type.
  intros (Hok & _). destruct (po_words _ _ _ _ _ Hok) as (_ & Eu & _). unfold pool_addrs. rewrite Eu.
  apply list_eq_same_length with (n := length ps); [done|by rewrite length_fmap, length_seqZ, Nat2Z.id|].
  intros i x y Hi. rewrite list_lookup_fmap. intros Ex Ey.
  destruct (pool_word _ _ _ _ _ _ _ Hok Ey) as (_ & _ & Ew).
  destruct (seqZ 0 (Z.of_nat (length ps)) !! i) as [j|] eqn:Ej; [|done].
  apply lookup_seqZ in Ej as [-> _]. cbn in Ex. injection Ex as <-. exact Ew.
Qed.

Lemma nodes_in_use_is p ps used fr l : pool_is p ps used fr -> l ∈ nodes_in_use p <-> Z.pos l ∈ used.
Proof using Type.
  intros Hp. pose proof Hp as (Hok & _). pose proof (po_slots _ _ _ _ _ Hok) as Hs.
  unfold nodes_in_use, free_elems, all_slots. rewrite (pool_addrs_is _ _ _ _ Hp).
  rewrite (chain_freelist _ _ fr) by (try apply Hok; rewrite <- Hs, length_app; lia).
  rewrite elem_of_list_to_set, list_elem_of_fmap. setoid_rewrite list_elem_of_filter. split.
  - intros (a & -> & Hnf & Ha). destruct (slot_pool _ _ _ _ _ _ Hok Ha) as (q & _ & _ & [B1 _ _ _ _] & R1 & _).
    rewrite Z2Pos.id by lia. rewrite <- Hs, elem_of_app, elem_of_elements in Ha. by destruct Ha.
  - intros Hl. exists (Z.pos l). split; [done|]. split; [|by eapply used_slot].
    intros Hf. by destruct (used_free _ _ _ _ _ _ Hok Hf).
Qed.

Lemma pos_eq (x y : positive) : Z.pos x = Z.pos y <-> x = y.
Proof using Type. split; [by intros [= ->]|by intros ->]. Qed.

(** The elements in use are the nodes in use. *)
Lemma nodes_after p p' ps used fr ps' used' fr' (X : gset loc) : pool_is p ps used fr -> pool_is p' ps' used' fr' ->
  (forall l, Z.pos l ∈ used' <-> l ∈ X) -> nodes_in_use p' = X.
Proof using Type. intros Hp Hp' HX. apply set_eq. intros l. by rewrite (nodes_in_use_is _ _ _ _ _ Hp'), HX. Qed.

Lemma kept_var p pa' s' ps ps' : foreign (pn_st p) (pn_pa p) ps (pn_var p) 8 ->
  kept (pn_st p) s' (pn_pa p) pa' ps ps' (pn_var p) -> foreign s' pa' ps' (pn_var p) 8.
Proof using Type. intros Hf Hk. by apply Hk. Qed.

Lemma node_alloc p ps used fr k : pool_is p ps used fr -> pa_room (pn_st p) (pn_pa p) (S k) ->
  exists l p' ps' fr', np_alloc p = Some (l, p') /\ pool_is p' ps' ({[Z.pos l]} ∪ used) fr' /\ Z.pos l ∉ used /\
    pa_room (pn_st p') (pn_pa p') k /\ nrRef (pn_pa p') = nrRef (pn_pa p).
Proof using All.
  intros (Hok & Hv & Hn) Hr. cbn [np_alloc pool_nodes].
  apply (wp_elim (allocEltPA (pn_var p) (pn_pa p)) (pn_st p)). eapply wp_allocEltPA; [done..|].
  intros a pa' ps' fr' s' Hok' Hnu Hk _ (_ & En & _ & _) _ Hr' ->.
  assert (a ∈ {[a]} ∪ used) as Hin by set_solver.
  destruct (slot_pool _ _ _ _ _ _ Hok' (used_slot _ _ _ _ _ _ Hok' Hin)) as (q & _ & _ & [B1 _ _ _ _] & R1 & _).
  eexists _, _, ps', fr'. split; [done|]. rewrite Z2Pos.id by lia. cbn [pn_pa pn_st pn_var].
  split; [|done]. split; [done|]. cbn [pn_pa pn_st pn_var]. split; [by eapply kept_var|by rewrite En].
Qed.

Lemma node_free p ps used fr l : pool_is p ps used fr -> Z.pos l ∈ used ->
  exists p', np_free p l = Some p' /\ pool_is p' ps (used ∖ {[Z.pos l]}) (Z.pos l :: fr) /\
    heap (pn_st p') = heap (pn_st p) /\ pn_pa p' = set_nextFree (Z.pos l) (pn_pa p).
Proof using All.
  intros (Hok & Hv & Hn) Hl. cbn [np_free pool_nodes].
  apply (wp_elim (freeEltPA (pn_pa p) (Z.pos l)) (pn_st p)). eapply (wp_freeEltPA _ _ _ _ _ _ (pn_var p)); [done..|].
  intros s' pa' Hok' Hk _ Eh ->. eexists. split; [done|]. split; [|done]. split; [done|].
  split; [by apply (kept_var p _ s' ps ps Hv)|done].
Qed.

#[export] Instance pool_laws : NodePoolLaws pool_state.
Proof using All.
  refine {| pinv p := exists ps used fr, pool_is p ps used fr; plive := nodes_in_use;
            prefs p := nrRef (pn_pa p); proom p k := pa_room (pn_st p) (pn_pa p) k |}.
  - intros p k (ps & used & fr & Hp) Hr. destruct (node_alloc _ _ _ _ _ Hp Hr) as (l & p' & ps' & fr' & E & Hp' & Hnu & Hr' & En).
    exists l, p'. split; [done|]. split; [eauto|]. split; [done|]. split; [by rewrite (nodes_in_use_is _ _ _ _ _ Hp)|]. split; [|done].
    eapply nodes_after; [exact Hp|exact Hp'|]. intros x. rewrite !elem_of_union, !elem_of_singleton, (nodes_in_use_is _ _ _ _ _ Hp).
    by rewrite pos_eq.
  - intros p l (ps & used & fr & Hp) Hl. pose proof Hl as Hu. rewrite (nodes_in_use_is _ _ _ _ _ Hp) in Hu.
    destruct (node_free _ _ _ _ _ Hp Hu) as (p' & E & Hp' & Eh & Epa). exists p'. split; [done|]. split; [eauto|].
    split; [|split; [|by rewrite Epa]].
    + intros k. unfold pa_room. by rewrite Eh, Epa.
    + eapply nodes_after; [exact Hp|exact Hp'|]. intros x.
      by rewrite !elem_of_difference, !elem_of_singleton, pos_eq, (nodes_in_use_is _ _ _ _ _ Hp).
  - intros p (ps & used & fr & Hp) Hn. pose proof Hp as (Hok & Hv & Hnr). unfold np_addref, pool_nodes, addRefPA. cbn [pn_pa pn_st pn_var].
    assert (pool_is (mk_pool (set_nrRef (u64 (nrRef (pn_pa p) + 1)) (pn_pa p)) (pn_st p) (pn_var p)) ps used fr) as Hp'.
    { split; [by apply pa_ok_refs|]. cbn [pn_pa pn_st pn_var]. split; [destruct Hv; by split|apply u64_range]. }
    split; [eauto|]. split; [done|]. split; [|cbn; by rewrite u64_small by lia].
    eapply nodes_after; [exact Hp|exact Hp'|]. intros x. by rewrite (nodes_in_use_is _ _ _ _ _ Hp).
  - intros p (ps & used & fr & Hp) Hn. pose proof Hp as (Hok & Hv & Hnr). unfold np_release, pool_nodes.
    apply (wp_elim (releasePA (pn_pa p)) (pn_st p)). eapply wp_releasePA; [done|lia| |].
    + intros E1 ->. eexists. split; [by rewrite E1|]. lia.
    + intros Hlt ->. eexists. split; [done|]. intros _.
      assert (pool_is (mk_pool (set_nrRef (nrRef (pn_pa p) - 1) (pn_pa p)) (pn_st p) (pn_var p)) ps used fr) as Hp'.
      { split; [by apply pa_ok_refs|]. cbn [pn_pa pn_st pn_var]. split; [destruct Hv; by split|cbn; lia]. }
      split; [eauto|]. eapply nodes_after; [exact Hp|exact Hp'|]. intros x. by rewrite (nodes_in_use_is _ _ _ _ _ Hp).
  - intros p l (ps & used & fr & Hp) Hl. rewrite (nodes_in_use_is _ _ _ _ _ Hp) in Hl. pose proof Hp as (Hok & _).
    destruct (slot_pool _ _ _ _ _ _ Hok (used_slot _ _ _ _ _ _ Hok Hl)) as (q & Hq & _ & _ & R1 & R2).
    pose proof (pa_ok_size _ _ _ _ _ Hok) as (Hes & _). unfold in_pool, pool_nodes. rewrite (pool_addrs_is _ _ _ _ Hp).
    apply existsb_exists. exists q. split; [by apply list_elem_of_In|]. apply andb_true_intro. split; lia.
Defined.

(** A new pool allocator, for a caller's variable at [v] *)
Lemma newPA_pool (s : PST) v es n k : bytes_ok (mem s) -> 0 < v -> live (heap s) v 8 ->
  8 <= es -> es mod 8 = 0 -> 100 <= n -> es * n < 2 ^ 64 ->
  space (heap s) (264 + Z.of_nat k * elem_cost (mk_pa 0 0 es n (mk_xa 0 None 8 0 0 0 false) 0) k) ->
  exists pa s', newPA es n s = Some (pa, s') /\ pool_is (mk_pool pa s' v) [] ∅ [] /\ nrRef pa = 0 /\
    pa_elemSzB pa = es /\ nPerPool pa = n /\ pa_room s' pa k.
Proof using All.
  intros Hm Hv Hl Hes Hes8 Hn Hlt Hsp. apply (wp_elim (newPA es n) s). eapply wp_newPA; [done..|].
  intros pa s' Hok Enr Ees En Hr Hf E. exists pa, s'. split; [done|]. split; [|done]. split; [done|].
  split; [by apply Hf|]. cbn. rewrite Enr. lia.
Qed.

Lemma new_pool_nodes p : pool_is p [] ∅ [] -> nrRef (pn_pa p) = 0 -> plive p = ∅ /\ prefs p = 0 /\ pinv p.
Proof using All.
  intros Hp En. split; [|split; [done|by exists [], ∅, []]]. apply set_eq. intros l.
  rewrite (nodes_in_use_is _ _ _ _ _ Hp). set_solver.
Qed.
End PoolNodes.

(** Memory of zeros and an arena from address 1600 on; the local variable is
    at 800. *)
Definition s_arena : st (H := arena) := mk_st (fun _ => 0) (Arena 100).

Lemma s_arena_ok : bytes_ok (mem s_arena).
Proof. intros a. cbn. lia. Defined.
