(* ===== verification/OSetRuns.v ===== *)
(** The fewest elements that an AVL tree of some height has, with trees that
    have just so many, and runs of operations on ordered sets. *)
From stdpp Require Import base gmap list option sets fin_maps sorting.
From Stdlib Require Import ZArith Lia Sorting.Sorted.
From S2P Require Import Prelude Printf Chains OSet AvlProofs OSetShape OSetOps OSetProofs OSetIter.
Open Scope prog_scope.
Open Scope Z_scope.


(** ** The fewest elements of a height *)

Fixpoint min_pair (h : nat) : Z * Z :=
  match h with O => (0, 1) | S h => let '(a, b) := min_pair h in (b, 1 + a + b) end.
Definition min_elems (h : nat) : Z := (min_pair h).1.

Lemma min_elems_SS h : min_elems (S (S h)) = 1 + min_elems h + min_elems (S h).
Proof. unfold min_elems. cbn. by destruct (min_pair h). Qed.

Lemma min_elems_mono h : 0 <= min_elems h /\ min_elems h <= min_elems (S h).
Proof.
  induction h as [|h [IH1 IH2]]; [cbn; lia|]. rewrite min_elems_SS. lia.
Qed.

Lemma min_elems_le h h' : (h <= h')%nat -> min_elems h <= min_elems h'.
Proof. induction 1 as [|h' _ IH]; [lia|]. pose proof (min_elems_mono h'). lia. Qed.

Lemma avl_min_elems {E} (t : tree E) : avl t -> min_elems (Z.to_nat (height t)) <= Z.of_nat (length (elems t)).
Proof.
  induction t as [|b l e tl IHl tr IHr]; [done|]. intros (Eb & Hb & Al & Ar).
  specialize (IHl Al). specialize (IHr Ar). cbn [height elems]. rewrite length_app. cbn [length].
  pose proof (height_pos tl). pose proof (height_pos tr).
  set (m := Z.max (height tl) (height tr)). destruct (Z.eq_dec m 0) as [Hm|Hm].
  - rewrite Hm. change (min_elems (Z.to_nat (1 + 0))) with 1. lia.
  - replace (Z.to_nat (1 + m)) with (S (S (Z.to_nat (m - 1)))) by lia. rewrite min_elems_SS.
    replace (S (Z.to_nat (m - 1))) with (Z.to_nat m) by lia.
    assert (min_elems (Z.to_nat m) <= Z.of_nat (length (elems tl)) /\
        min_elems (Z.to_nat (m - 1)) <= Z.of_nat (length (elems tr)) \/
      min_elems (Z.to_nat m) <= Z.of_nat (length (elems tr)) /\
        min_elems (Z.to_nat (m - 1)) <= Z.of_nat (length (elems tl))) as Hcase.
    { destruct (Z.le_gt_cases (height tr) (height tl)); [left|right]; (split; (etrans; [apply min_elems_le|eassumption]); lia). }
    lia.
Qed.

(** A tree with fewer elements than this fits the iterator's stack. *)
Definition ITER_MAX : Z := 9227464.

Lemma iter_max_height {E} (t : tree E) : avl t -> Z.of_nat (length (elems t)) < ITER_MAX ->
  height t <= Z.of_nat STACK_MAX.
Proof.
  intros Ha Hl. apply avl_min_elems in Ha. destruct (Z.le_gt_cases (height t) 32) as [Hle|Hgt]; [done|].
  assert (min_elems 33 <= min_elems (Z.to_nat (height t))) as Hm by (apply min_elems_le; lia).
  change (min_elems 33) with ITER_MAX in Hm. lia.
Qed.

(** ** Trees of the fewest elements *)

(** Of height [h], with the words from [o] on, each at the location of its
    own number *)
Fixpoint sparse (h : nat) (o : Z) : tree Z :=
  match h with
  | O => Leaf
  | S h1 =>
      match h1 with
      | O => Node 0 (Z.to_pos o) o Leaf Leaf
      | S h2 =>
          let m := o + min_elems h1 in
          Node (-1) (Z.to_pos m) m (sparse h1 o) (sparse h2 (m + 1))
      end
  end.

Lemma sparse_SS h o : sparse (S (S h)) o =
  Node (-1) (Z.to_pos (o + min_elems (S h))) (o + min_elems (S h)) (sparse (S h) o)
    (sparse h (o + min_elems (S h) + 1)).
Proof. done. Qed.

(** An induction over two heights at a time *)
Lemma two_steps (P : nat -> Prop) : P 0%nat -> P 1%nat -> (forall h, P h -> P (S h) -> P (S (S h))) -> forall h, P h.
Proof. intros P0 P1 PS h. assert (P h /\ P (S h)) as [? _]; [|done]. induction h as [|h [IH1 IH2]]; auto. Qed.

Lemma sparse_avl h : forall o, avl (sparse h o) /\ height (sparse h o) = Z.of_nat h.
Proof.
  induction h as [| |h IH1 IH2] using two_steps; intros o; [done|done|].
  rewrite sparse_SS. cbn [avl height]. destruct (IH1 (o + min_elems (S h) + 1)) as [A1 H1]. destruct (IH2 o) as [A2 H2].
  rewrite H1, H2. split_and!; try done; lia.
Qed.

Definition word_at (x : Z) : loc * Z := (Z.to_pos x, x).

Lemma sparse_elems h : forall o, elems (sparse h o) = word_at <$> seqZ o (min_elems h).
Proof.
  induction h as [| |h IH1 IH2] using two_steps; intros o; [done|done|].
  rewrite sparse_SS. cbn [elems]. rewrite IH1, IH2, min_elems_SS.
  pose proof (min_elems_mono h). pose proof (min_elems_mono (S h)).
  replace (1 + min_elems h + min_elems (S h)) with (min_elems (S h) + (1 + min_elems h)) by lia.
  rewrite seqZ_app by lia. rewrite fmap_app. f_equal.
  rewrite (seqZ_cons (o + min_elems (S h))) by lia. cbn [fmap list_fmap]. f_equal.
  f_equal. f_equal; lia.
Qed.

(** The left spine of a sparse tree is as long as the tree is high. *)
Fixpoint spine_length {E} (t : tree E) : nat :=
  match t with Leaf => 0 | Node _ _ _ tl _ => S (spine_length tl) end.

Lemma sparse_spine h o : spine_length (sparse h o) = h.
Proof.
  revert o. induction h as [| |h _ IH2] using two_steps; intros o; [done|done|]. rewrite sparse_SS. cbn [spine_length].
  by rewrite IH2.
Qed.

Lemma sparse_sorted o n : StronglySorted (before word_cmp) (word_at <$> seqZ o n).
Proof.
  destruct (Z.le_gt_cases 0 n) as [Hn|Hn]; [|by rewrite seqZ_nil by lia; constructor].
  revert o. pattern n. apply natlike_ind; [|clear n Hn; intros n Hn IH o|done].
  - intros o. rewrite seqZ_nil by lia. constructor.
  - rewrite seqZ_cons by lia. cbn [fmap list_fmap]. constructor.
    + replace (Z.pred (Z.succ n)) with n by lia. apply IH.
    + apply Forall_forall. intros x (y & -> & Hy%elem_of_seqZ)%list_elem_of_fmap. unfold before, word_cmp, word_at. cbn.
      rewrite (proj2 (Z.ltb_ge _ _)), (proj2 (Z.ltb_lt _ _)) by lia. done.
Qed.

Lemma sparse_locs h o : 0 < o -> NoDup (locs (sparse h o)).
Proof.
  intros Ho. unfold locs. rewrite sparse_elems, <- list_fmap_compose.
  assert (forall n, NoDup ((fst ∘ word_at) <$> seqZ o n)) as Hn; [|apply Hn]. intros n.
  apply NoDup_fmap_2_strong; [|apply NoDup_seqZ]. intros x y Hx%elem_of_seqZ Hy%elem_of_seqZ Heq. cbn in Heq. lia.
Qed.

(** ** A memory that holds a tree *)

Section Memory.
Context {E : Type}.

Fixpoint memory (t : tree E) : gmap loc (AvlNode E) :=
  match t with
  | Leaf => ∅
  | Node b l e tl tr => <[l := mk_avl (tptr tl) (tptr tr) b OSET_MAGIC e]> (memory tl ∪ memory tr)
  end.

Lemma memory_none t l : l ∉ locs t -> memory t !! l = None.
Proof.
  induction t as [|b k e tl IHl tr IHr]; [done|]. rewrite not_in_node. intros (Hk & Hl & Hr). cbn [memory].
  rewrite lookup_insert_ne by done. apply lookup_union_None. auto.
Qed.

Lemma memory_rep t : NoDup (locs t) -> rep (memory t) t.
Proof.
  induction t as [|b k e tl IHl tr IHr]; [done|]. intros (N1 & N2 & Nd & Nl & Nr)%nodup_node. cbn [memory rep].
  split; [apply lookup_insert_eq|]. split.
  - apply arep_insert; [done|]. apply (rep_frame (memory tl)); [|by apply IHl]. intros l Hl.
    assert (l ∉ locs tr) as Hl' by (intros Hr; by apply (Nd l)).
    rewrite lookup_union, (memory_none tr) by done. by destruct (memory tl !! l).
  - apply arep_insert; [done|]. apply (rep_frame (memory tr)); [|by apply IHr]. intros l Hl.
    assert (l ∉ locs tl) as Hl' by (intros Hr; by apply (Nd l)).
    rewrite lookup_union, (memory_none tl) by done. by destruct (memory tr !! l).
Qed.
End Memory.

(** * Runs of operations on ordered sets: what they owe in terms of a collection
    of elements, sets of words and their memory, and the set whose iteration
    overflows the stack. *)


(** ** A collection of elements *)

Section Runs.
Context {K E P : Type} `{OSetElem K E} `{NodePool P}.
Abbreviation OS := (OSet K E P).
Implicit Types (s : OS) (t : tree E) (l : loc) (k : K) (X : list (loc * E)).

Inductive set_op := Insert (l : loc) | Lookup (k : K) | Contains (k : K) | Remove (k : K).
Inductive set_res := RUnit | RElem (p : ptr) | RBool (b : bool).

Definition run_op (o : set_op) : M OS set_res :=
  match o with
  | Insert l => OSetGen_Insert l ;;; ret RUnit
  | Lookup k => p <- OSetGen_Lookup k ;; ret (RElem p)
  | Contains k => b <- OSetGen_Contains k ;; ret (RBool b)
  | Remove k => p <- OSetGen_Remove k ;; ret (RElem p)
  end.

Fixpoint run_ops (ops : list set_op) : M OS (list set_res) :=
  match ops with
  | [] => ret []
  | o :: ops => r <- run_op o ;; rs <- run_ops ops ;; ret (r :: rs)
  end.

(** The element at a location, and the comparison that the set was created
    with *)
Context (el : gmap loc E) (c : option (K -> E -> Z)).

(** The element of the collection that the key is equal to *)
Definition spec_find (k : K) X : ptr := fst <$> List.find (fun x => kcmp c k x.2 =? 0) X.

Definition spec_op (o : set_op) X : set_res * list (loc * E) :=
  match o with
  | Insert l => (RUnit, match el !! l with Some e => (l, e) :: X | None => X end)
  | Lookup k => (RElem (spec_find k X), X)
  | Contains k => (RBool (match spec_find k X with Some _ => true | None => false end), X)
  | Remove k => (RElem (spec_find k X), filter (fun x => kcmp c k x.2 <> 0) X)
  end.

Fixpoint spec_ops (ops : list set_op) X : list set_res * list (loc * E) :=
  match ops with
  | [] => ([], X)
  | o :: ops => let '(r, X1) := spec_op o X in let '(rs, X2) := spec_ops ops X1 in (r :: rs, X2)
  end.

(** An element is inserted when it is not in the collection nor equal to one
    that is. *)
Definition valid_op (o : set_op) X : Prop :=
  match o with
  | Insert l => exists e, el !! l = Some e /\ l ∉ X.*1 /\ forall x, x ∈ X -> ecmp c e x.2 <> 0
  | _ => True
  end.

Fixpoint valid_ops (ops : list set_op) X : Prop :=
  match ops with
  | [] => True
  | o :: ops => valid_op o X /\ valid_ops ops (spec_op o X).2
  end.

(** A set that holds the collection *)
Record collects s t X : Prop := {
  co_ok : set_ok s t;
  co_perm : elems t ≡ₚ X;
  co_cmp : ocmp s = c;
  co_elems l e : el !! l = Some e -> holds s l e
}.

Context `{!OSetOrder c}.

Lemma sorted_compare (R : loc * E -> loc * E -> Prop) es x y : StronglySorted R es -> x ∈ es -> y ∈ es ->
  x = y \/ R x y \/ R y x.
Proof.
  induction 1 as [|z es Hs IH Hz]; intros Hx Hy; [by apply not_elem_of_nil in Hx|]. rewrite Forall_forall in Hz.
  apply elem_of_cons in Hx as [->|Hx]; apply elem_of_cons in Hy as [->|Hy]; auto.
Qed.

Lemma filter_everything (R : loc * E -> Prop) `{!forall x, Decision (R x)} (es : list (loc * E)) :
  (forall x, x ∈ es -> R x) -> filter R es = es.
Proof.
  induction es as [|x es IH]; intros Hall; [done|]. rewrite filter_cons_True by (apply Hall; by left).
  f_equal. apply IH. intros y Hy. apply Hall. by right.
Qed.

(** No two elements are equal to the same key. *)
Lemma key_unique t k x y : ordered (ecmp c) t -> x ∈ elems t -> y ∈ elems t ->
  kcmp c k x.2 = 0 -> kcmp c k y.2 = 0 -> x = y.
Proof.
  intros Hord Hx Hy Ex Ey. destruct (sorted_compare _ _ x y Hord Hx Hy) as [?|[Hb|Hb]]; [done|exfalso..].
  - pose proof (ko_eq_lt (ec := ecmp c) (kc := kcmp c k) _ _ Ex Hb). lia.
  - pose proof (ko_eq_lt (ec := ecmp c) (kc := kcmp c k) _ _ Ey Hb). lia.
Qed.

Lemma found_spec s t X k r : collects s t X -> found (kcmp c k) (elems t) r -> r = spec_find k X.
Proof.
  intros Hco Hf. unfold spec_find. pose proof (co_perm _ _ _ Hco) as Hp.
  destruct (List.find (fun x => kcmp c k x.2 =? 0) X) as [x|] eqn:Ef.
  - apply find_some in Ef as [Hx%list_elem_of_In Ex%Z.eqb_eq]. rewrite <- Hp in Hx. destruct r as [l|].
    + destruct Hf as (e & Hin & He).
      assert (ordered (ecmp c) t) as Hord by (rewrite <- (co_cmp _ _ _ Hco); apply (co_ok _ _ _ Hco)).
      by rewrite <- (key_unique t k (l, e) x Hord Hin Hx He Ex).
    + by destruct (Hf x Hx).
  - destruct r as [l|]; [|done]. destruct Hf as (e & Hin & He). rewrite Hp in Hin. apply list_elem_of_In in Hin.
    pose proof (find_none _ _ Ef _ Hin) as Hne. cbn in Hne. by apply Z.eqb_neq in Hne.
Qed.

Lemma removed_filter t t' k l e : sound (ecmp c) t -> kcmp c k e = 0 -> removed (l, e) (elems t) (elems t') ->
  filter (fun x => kcmp c k x.2 <> 0) (elems t) ≡ₚ elems t'.
Proof.
  intros (_ & Hord & Hnd) He Hr. pose proof (removed_perm _ _ _ Hr) as Hp.
  assert (forall x, x ∈ elems t' -> kcmp c k x.2 <> 0) as Hne.
  { intros x Hx Ex. assert (x = (l, e)) as ->.
    { eapply (key_unique t k); [done|rewrite Hp; by right|rewrite Hp; by left|done|done]. }
    unfold locs in Hnd. rewrite Hp in Hnd. apply NoDup_cons in Hnd as [Hn _]. apply Hn.
    apply list_elem_of_fmap. by exists (l, e). }
  rewrite Hp, filter_cons_False by (cbn; lia). by rewrite filter_everything.
Qed.

Lemma wp_oset_run_op o s t X (Q : set_res -> OS -> Prop) : collects s t X -> valid_op o X ->
  (forall s' t', collects s' t' (spec_op o X).2 -> node_pa s' = node_pa s -> dom (onodes s') = dom (onodes s) ->
     Q (spec_op o X).1 s') -> wp (run_op o) s Q.
Proof.
  intros Hco Hv HQ. pose proof Hco as [Hok Hp Ec Hel]. assert (OSetOrder (ocmp s)) as Ho by (by rewrite Ec).
  assert (forall s' : OS, static s s' -> dom (onodes s') = dom (onodes s)) as Hdom.
  { intros s' (_ & _ & _ & Hpay). rewrite <- (dom_fmap_L (fun n => (magic n, elem n)) (onodes s')).
    unfold payload in Hpay. rewrite Hpay. apply dom_fmap_L. }
  assert (forall (s' : OS) l e, static s s' -> el !! l = Some e -> holds s' l e) as Hkeep.
  { intros s' l e St El. eapply holds_static; [exact St|by apply Hel]. }
  destruct o as [l|k|k|k]; cbn [run_op spec_op fst snd] in *.
  - destruct Hv as (e & El & Hl & Hne). rewrite El in *. apply wp_bind. eapply (wp_Insert s t l e); [done|done|by apply Hel| | |].
    + unfold locs. by rewrite Hp.
    + rewrite Ec. intros x Hx. apply Hne. by rewrite <- Hp.
    + intros s' t' Hok' St Hi _. apply wp_ret, (HQ s' t'); [|apply St|by apply Hdom]. split.
      * done.
      * by rewrite (inserted_perm _ _ _ _ Hi), Hp.
      * by rewrite (proj1 St).
      * intros; by apply Hkeep.
  - apply wp_bind. eapply wp_Lookup; [done|done|]. rewrite Ec. intros r Hr. apply wp_ret.
    rewrite (found_spec _ _ _ _ _ Hco Hr). by apply (HQ s t).
  - unfold OSetGen_Contains. apply wp_bind, wp_bind. eapply wp_Lookup; [done|done|]. rewrite Ec. intros r Hr. apply wp_ret, wp_ret.
    rewrite (found_spec _ _ _ _ _ Hco Hr). by apply (HQ s t).
  - apply wp_bind. eapply wp_Remove; [done|done|]. rewrite Ec. intros r s' t' Hok' St Hr Hrm _. apply wp_ret.
    pose proof (found_spec _ _ _ _ _ Hco Hr) as ->. apply (HQ s' t'); [|apply St|by apply Hdom]. split.
    + done.
    + rewrite <- Hp. unfold removal in Hrm. destruct (spec_find k X) as [l|].
      * destruct Hrm as (e & He & Hrm). rewrite Ec in He. symmetry. eapply removed_filter; [|done|done].
        rewrite <- Ec. apply Hok.
      * destruct Hrm as [-> ->]. rewrite filter_everything; [done|]. intros x Hx. by apply Hr.
    + by rewrite (proj1 St).
    + intros; by apply Hkeep.
Qed.

Lemma wp_oset_run_ops ops s t X (Q : list set_res -> OS -> Prop) : collects s t X -> valid_ops ops X ->
  (forall s' t', collects s' t' (spec_ops ops X).2 -> Q (spec_ops ops X).1 s') -> wp (run_ops ops) s Q.
Proof.
  revert s t X Q. induction ops as [|o ops IH]; intros s t X Q Hco Hv HQ; [apply wp_ret; by apply (HQ s t)|].
  destruct Hv as [Hv Hvs]. cbn [run_ops spec_ops] in *. apply wp_bind. eapply wp_oset_run_op; [exact Hco|done|].
  intros s1 t1 Hco1 _ _. destruct (spec_op o X) as [r X1]. cbn [fst snd] in *. apply wp_bind.
  eapply IH; [exact Hco1|done|]. intros s2 t2 Hco2. destruct (spec_ops ops X1) as [rs X2]. cbn [fst snd] in *.
  by apply wp_ret, (HQ s2 t2).
Qed.
End Runs.

(** ** Iteration to the end *)

Section Drain.
Context {K E P : Type} `{OSetElem K E} `{NodePool P}.
Abbreviation OS := (OSet K E P).

(** [n] calls of [OSetGen_Next] *)
Fixpoint nexts (n : nat) : M OS (list ptr) :=
  match n with O => ret [] | S n => p <- OSetGen_Next ;; l <- nexts n ;; ret (p :: l) end.

(** What they give when the elements [es] are to come *)
Definition given (n : nat) (es : list (loc * E)) : list ptr :=
  (Some <$> take n es.*1) ++ replicate (n - length es) None.

Lemma wp_nexts n Hmax (s : OS) es stk (Q : list ptr -> OS -> Prop) : Hmax <= Z.of_nat STACK_MAX ->
  Hmax <= Z.of_nat (size (onodes s)) -> 0 <= Hmax -> iterating Hmax s es stk ->
  (forall s', restacked s s' -> Q (given n es) s') -> wp (nexts n) s Q.
Proof.
  intros HH Hsz Hpos. revert s es stk Q Hsz. induction n as [|n IH]; intros s es stk Q Hsz Hit HQ.
  { apply wp_ret, HQ, restacked_refl. }
  cbn [nexts]. apply wp_bind. eapply wp_mono; [by eapply wp_Next|]. intros p s1 [R1 Hp].
  assert (Hmax <= Z.of_nat (size (onodes s1))) as Hsz1 by (by rewrite (restacked_onodes _ _ R1)).
  destruct es as [|[l e] es].
  - destruct Hp as (-> & stk1 & Hit1). apply wp_bind. eapply (IH s1 []); [done|exact Hit1|]. intros s2 R2. apply wp_ret.
    rewrite <- (app_nil_l (None :: _)). unfold given in *. cbn [fmap list_fmap take length] in *.
    rewrite take_nil, Nat.sub_0_r in *. apply HQ. by eapply restacked_trans.
  - destruct Hp as (-> & stk1 & Hit1). apply wp_bind. eapply (IH s1 es); [done|exact Hit1|]. intros s2 R2. apply wp_ret.
    apply HQ. by eapply restacked_trans.
Qed.
End Drain.

(** ** Sets of words *)

#[export] Instance word_elem_order : ElemOrder (ecmp (K := Z) (E := Z) None).
Proof.
  split; cbn; unfold word_cmp; intros;
    repeat match goal with |- context [?a <? ?b] => destruct (Z.ltb_spec a b)
      | Hx : context [?a <? ?b] |- _ => destruct (Z.ltb_spec a b) end; lia.
Qed.

#[export] Instance word_order : OSetOrder (K := Z) (E := Z) None.
Proof.
  split; [apply _|]. intros k. split; cbn; unfold word_cmp; intros;
    repeat match goal with |- context [?a <? ?b] => destruct (Z.ltb_spec a b)
      | Hx : context [?a <? ?b] |- _ => destruct (Z.ltb_spec a b) end; lia.
Qed.

Section Words.
Context {P : Type} `{NodePoolLaws P}.
Abbreviation WS := (OSet Z Z P).
Implicit Types (s : WS) (t : tree Z) (v : Z) (X : gset Z).

Inductive word_op := WInsert (v : Z) | WContains (v : Z) | WRemove (v : Z).

Definition run_word (o : word_op) : M WS bool :=
  match o with
  | WInsert v => OSetWord_Insert v ;;; ret true
  | WContains v => OSetWord_Contains v
  | WRemove v => OSetWord_Remove v
  end.

Fixpoint run_words (ops : list word_op) : M WS (list bool) :=
  match ops with
  | [] => ret []
  | o :: ops => r <- run_word o ;; rs <- run_words ops ;; ret (r :: rs)
  end.

Definition spec_word (o : word_op) X : bool * gset Z :=
  match o with
  | WInsert v => (true, {[v]} ∪ X)
  | WContains v => (bool_decide (v ∈ X), X)
  | WRemove v => (bool_decide (v ∈ X), X ∖ {[v]})
  end.

Fixpoint spec_words (ops : list word_op) X : list bool * gset Z :=
  match ops with
  | [] => ([], X)
  | o :: ops => let '(r, X1) := spec_word o X in let '(rs, X2) := spec_words ops X1 in (r :: rs, X2)
  end.

(** A word is inserted once. *)
Fixpoint valid_words (ops : list word_op) X : Prop :=
  match ops with
  | [] => True
  | o :: ops => match o with WInsert v => v ∉ X | _ => True end /\ valid_words ops (spec_word o X).2
  end.

(** The number of nodes that operations need *)
Fixpoint inserts (ops : list word_op) : nat :=
  match ops with
  | [] => 0
  | WInsert _ :: ops => S (inserts ops)
  | _ :: ops => inserts ops
  end.

(** The set holds the words, in nodes that are all the memory there is, and
    there is room for [k] more. *)
Record words (k : nat) s t X : Prop := {
  wo_ok : set_ok s t;
  wo_cmp : ocmp s = None;
  wo_pooled : pooled s;
  wo_room : match node_pa s with Some _ => 8 <= maxEltSize s | None => True end;
  wo_space : has_room s k;
  wo_refs : match node_pa s with Some p => prefs p = 1 | None => True end;
  wo_dom : dom (onodes s) = list_to_set (locs t);
  wo_words v : v ∈ X <-> exists l, (l, v) ∈ elems t
}.

Lemma set_ok_same s s' t : set_ok s t -> same_set s s' -> (forall l, l ∈ locs t -> onodes s' !! l = onodes s !! l) ->
  set_ok s' t.
Proof.
  intros [O1 O2 O3 O4 O5] (E1 & _ & E3 & E4 & E5 & E6 & _) Hl. split; rewrite ?E1, ?E3, ?E4, ?E5, ?E6; try done.
  by eapply rep_frame.
Qed.

Lemma room_same s s' : same_set s s' -> match node_pa s with Some _ => 8 <= maxEltSize s | None => True end ->
  match node_pa s' with Some _ => 8 <= maxEltSize s' | None => True end.
Proof.
  intros (_ & -> & _ & _ & _ & _ & _ & Hpa). by destruct (node_pa s) as [p|], (node_pa s') as [p'|].
Qed.

Lemma refs_same s s' : same_set s s' -> match node_pa s with Some p => prefs p = 1 | None => True end ->
  match node_pa s' with Some p => prefs p = 1 | None => True end.
Proof.
  intros (_ & _ & _ & _ & _ & _ & _ & Hpa). destruct (node_pa s) as [p|], (node_pa s') as [p'|]; try done.
  injection Hpa as Hpa. congruence.
Qed.

Lemma word_found k s t X v r : words k s t X -> found (kcmp (ocmp s) v) (elems t) r ->
  (match r with Some _ => true | None => false end) = bool_decide (v ∈ X) /\
  (forall l, r = Some l -> (l, v) ∈ elems t).
Proof.
  intros Hw Hf. rewrite (wo_cmp _ _ _ _ Hw) in Hf. cbn in Hf.
  assert (forall e, word_cmp v e = 0 -> e = v) as Hwc.
  { intros e. unfold word_cmp. destruct (Z.ltb_spec e v); [done|]. destruct (Z.ltb_spec v e); [done|]. lia. }
  destruct r as [l|].
  - destruct Hf as (e & Hin & He). apply Hwc in He as ->. split; [|by intros l' [= <-]].
    symmetry. apply bool_decide_eq_true_2. apply (wo_words _ _ _ _ Hw). eauto.
  - split; [|done]. symmetry. apply bool_decide_eq_false_2. intros (l & Hin)%(wo_words _ _ _ _ Hw).
    apply (Hf _ Hin). cbn. unfold word_cmp. by rewrite !Z.ltb_irrefl.
Qed.

Lemma wp_word_Insert k s t X v (Q : unit -> WS -> Prop) : words (S k) s t X -> v ∉ X ->
  (forall s' t', words k s' t' ({[v]} ∪ X) -> Q tt s') -> wp (OSetWord_Insert v) s Q.
Proof.
  intros Hw Hv HQ. pose proof Hw as [Hok Ec Hp Hroom Hsp Hrefs Hdom Hwords]. unfold OSetWord_Insert.
  apply wp_bind. eapply wp_AllocNode; [exact Hp|exact Hsp|lia|done|]. intros l s1 Hl Hp1 Hs1 Hsp1 E1.
  rewrite Hdom, elem_of_list_to_set in Hl.
  apply wp_bind. unfold astore. unfold wp at 1. rewrite E1, lookup_insert_eq, insert_insert_eq. cbn [set_elem].
  set (s2 := set_onodes _ s1).
  assert (same_set s s2) as Hs2 by exact Hs1.
  assert (onodes s2 = <[l := mk_avl None None 0 OSET_MAGIC v]> (onodes s)) as E2 by done.
  assert (set_ok s2 t) as Hok2.
  { eapply set_ok_same; [done|done|]. intros n Hk. rewrite E2. apply lookup_insert_ne. by intros ->. }
  eapply (wp_Insert s2 t l v); [rewrite (proj1 Hs2), Ec; apply _|done| |done| |].
  - exists (mk_avl None None 0 OSET_MAGIC v). by rewrite E2, lookup_insert_eq.
  - rewrite (proj1 Hs2), Ec. intros [j w] Hx. cbn. unfold word_cmp.
    assert (v <> w) by (intros ->; apply Hv, Hwords; eauto).
    destruct (Z.ltb_spec w v); [done|]. destruct (Z.ltb_spec v w); [done|lia].
  - intros s3 t3 Hok3 St Hi _. apply (HQ s3 t3). pose proof (inserted_perm _ _ _ _ Hi) as Hperm.
    assert (dom (onodes s3) = dom (onodes s2)) as Hd3.
    { destruct St as (_ & _ & _ & Hpay). rewrite <- (dom_fmap_L (fun n => (magic n, elem n)) (onodes s3)).
      unfold payload in Hpay. rewrite Hpay. apply dom_fmap_L. }
    destruct St as (E3 & Epa3 & Em3 & _). split.
    + done.
    + by rewrite E3, (proj1 Hs2).
    + unfold pooled. rewrite Epa3, Hd3, E2. unfold pooled in Hp1. by rewrite E1 in Hp1; rewrite !dom_insert_L in *.
    + rewrite Epa3, Em3. eapply room_same; [exact Hs2|done].
    + unfold has_room. rewrite Epa3. exact Hsp1.
    + rewrite Epa3. eapply refs_same; [exact Hs2|done].
    + rewrite Hd3, E2, dom_insert_L, Hdom. unfold locs. by rewrite Hperm.
    + intros w. rewrite elem_of_union, elem_of_singleton, Hwords. setoid_rewrite Hperm. setoid_rewrite elem_of_cons.
      split; [intros [->|(j & Hj)]; eauto|]. intros (j & [[= -> ->]|Hj]); eauto.
Qed.

Lemma wp_word_Contains k s t X v (Q : bool -> WS -> Prop) : words k s t X ->
  Q (bool_decide (v ∈ X)) s -> wp (OSetWord_Contains v) s Q.
Proof.
  intros Hw HQ. pose proof Hw as [Hok Ec _ _ _ _ _ _]. unfold OSetWord_Contains. apply wp_bind.
  eapply wp_Lookup; [rewrite Ec; apply _|done|]. intros r Hr. apply wp_ret.
  by rewrite (proj1 (word_found _ _ _ _ _ _ Hw Hr)).
Qed.

Lemma wp_word_Remove k s t X v (Q : bool -> WS -> Prop) : words k s t X ->
  (forall s' t', words k s' t' (X ∖ {[v]}) -> Q (bool_decide (v ∈ X)) s') -> wp (OSetWord_Remove v) s Q.
Proof.
  intros Hw HQ. pose proof Hw as [Hok Ec Hp Hroom Hsp Hrefs Hdom Hwords]. unfold OSetWord_Remove. apply wp_bind.
  eapply wp_Remove; [rewrite Ec; apply _|done|]. intros r s1 t1 Hok1 St Hr Hrm _.
  destruct (word_found _ _ _ _ _ _ Hw Hr) as [Hb Hl]. rewrite <- Hb in HQ.
  assert (dom (onodes s1) = dom (onodes s)) as Hd1.
  { destruct St as (_ & _ & _ & Hpay). rewrite <- (dom_fmap_L (fun n => (magic n, elem n)) (onodes s1)).
    unfold payload in Hpay. rewrite Hpay. apply dom_fmap_L. }
  destruct r as [l|].
  2:{ destruct Hrm as [-> ->]. apply wp_ret, (HQ s t). split; try done. intros w. rewrite <- Hwords.
      symmetry in Hb. apply bool_decide_eq_false_1 in Hb. set_solver. }
  specialize (Hl l eq_refl). destruct Hrm as (e & He & Hrm). pose proof (removed_perm _ _ _ Hrm) as Hperm.
  assert (e = v) as ->.
  { pose proof (set_ok_nodup _ _ Hok) as Hnd. unfold locs in Hnd. rewrite Hperm in Hl, Hnd.
    apply elem_of_cons in Hl as [[= <-]|Hl]; [done|]. apply NoDup_cons in Hnd as [Hn _]. destruct Hn.
    apply list_elem_of_fmap. by exists (l, v). }
  destruct (holds_static _ _ _ _ St (set_ok_holds _ _ _ _ Hok Hl)) as (nd & En & Em & _).
  destruct St as (E1 & Epa1 & Em1 & _).
  apply wp_bind. eapply wp_FreeNode; [unfold pooled; by rewrite Epa1, Hd1|exact En|done|].
  intros s2 Hp2 Hs2 Hsp2 E2. apply wp_ret, (HQ s2 t1).
  pose proof (set_ok_nodup _ _ Hok) as Hnd. unfold locs in Hnd. rewrite Hperm in Hnd. apply NoDup_cons in Hnd as [Hn Hnd].
  split.
  - eapply set_ok_same; [exact Hok1|done|]. intros n Hk. rewrite E2. apply lookup_delete_ne. by intros ->.
  - by rewrite (proj1 Hs2), E1.
  - done.
  - eapply room_same; [exact Hs2|]. by rewrite Epa1, Em1.
  - apply Hsp2. unfold has_room. by rewrite Epa1.
  - eapply refs_same; [exact Hs2|]. by rewrite Epa1.
  - rewrite E2, dom_delete_L, Hd1, Hdom. unfold locs. rewrite Hperm. cbn [fmap list_fmap list_to_set fst].
    unfold locs in Hn. set_solver.
  - intros w. rewrite elem_of_difference, elem_of_singleton, Hwords. setoid_rewrite Hperm. setoid_rewrite elem_of_cons.
    split.
    + intros [(j & [[= -> ->]|Hj]) Hne]; [done|eauto].
    + intros (j & Hj). split; [eauto|]. intros ->.
      assert ((j, v) = (l, v)) as [= ->].
      { assert (ordered (ecmp (K := Z) None) t) as Hord by (rewrite <- Ec; apply Hok).
        eapply (key_unique (K := Z) None t v); [exact Hord|rewrite Hperm; by right|rewrite Hperm; by left|..];
          cbn; unfold word_cmp; by rewrite !Z.ltb_irrefl. }
      apply Hn. apply list_elem_of_fmap. by exists (l, v).
Qed.

Lemma wp_run_words ops s t X (Q : list bool -> WS -> Prop) : words (inserts ops) s t X -> valid_words ops X ->
  (forall s' t', words 0 s' t' (spec_words ops X).2 -> Q (spec_words ops X).1 s') -> wp (run_words ops) s Q.
Proof.
  revert s t X Q. induction ops as [|o ops IH]; intros s t X Q Hw Hv HQ; [apply wp_ret; by apply (HQ s t)|].
  destruct Hv as [Hv Hvs]. cbn [run_words spec_words] in *. apply wp_bind.
  assert (forall (s1 : WS) t1, words (inserts ops) s1 t1 (spec_word o X).2 ->
    wp (rs <- run_words ops ;; ret ((spec_word o X).1 :: rs)) s1 Q) as Hrest.
  { intros s1 t1 Hw1. destruct (spec_word o X) as [r X1]. cbn [fst snd] in *. apply wp_bind.
    eapply IH; [exact Hw1|done|]. intros s2 t2 Hw2. destruct (spec_words ops X1) as [rs X2]. by apply wp_ret, (HQ s2 t2). }
  destruct o as [v|v|v]; cbn [run_word inserts] in *.
  - apply wp_bind. eapply wp_word_Insert; [done|done|]. intros s1 t1 Hw1. apply wp_ret. by apply (Hrest s1 t1).
  - eapply wp_word_Contains; [done|]. by apply (Hrest s t).
  - eapply wp_word_Remove; [done|]. intros s1 t1 Hw1. by apply (Hrest s1 t1).
Qed.

Lemma words_length k s t X : words k s t X -> length (elems t) = size X.
Proof.
  intros [Hok Ec _ _ _ _ _ Hwords].
  assert (X = list_to_set (elems t).*2) as ->.
  { apply set_eq. intros v. rewrite Hwords, elem_of_list_to_set, list_elem_of_fmap. split.
    - intros (l & Hl). by exists (l, v).
    - intros ([l w] & -> & Hl). by exists l. }
  rewrite size_list_to_set; [by rewrite length_fmap|].
  assert (StronglySorted (before (word_cmp)) (elems t)) as Hs by (pose proof (so_sound _ _ Hok) as (_ & Hs & _); by rewrite Ec in Hs).
  revert Hs. generalize (elems t). clear. intros l.
  induction 1 as [|x es Hs IH Hx]; [constructor|]. rewrite Forall_forall in Hx. cbn. constructor; [|by apply IH].
  intros (y & Ey & Hy)%list_elem_of_fmap. pose proof (Hx y Hy) as Hb. unfold before, word_cmp in Hb.
  rewrite Ey, !Z.ltb_irrefl in Hb. lia.
Qed.
End Words.
