(* ===== verification/LogBuffer.v ===== *)
(** The log buffer of [memlog/ml_main.c]: entries are collected in a fixed
    array and printed when it is full and at exit. *)
From stdpp Require Import base gmap list strings.
From Stdlib Require Import ZArith Lia Ascii String.
From S2P Require Import Prelude Printf.
Open Scope prog_scope.
Open Scope Z_scope.

Inductive LogEventType := LOG_STORE | LOG_ALLOC | LOG_FREE.

Record LogEntry := mk_log {
  e_type : LogEventType;
  e_addr : Z;
  e_value : Z;      (* for LOG_STORE *)
  e_size : Z;       (* for LOG_ALLOC, LOG_FREE *)
  e_where : option positive   (* for LOG_ALLOC, LOG_FREE *)
}.

Definition MAX_LOG_ENTRIES : Z := 3000000.

(** The array [log_buffer], the counter, and the text printed so far.  An
    element never written has the value static storage has: zero. *)
Record lb_state := mk_lb {
  log_buffer : gmap Z LogEntry;
  log_count : Z;
  out : chars
}.

Definition lb_init : lb_state := mk_lb ∅ 0 [].
Definition zero_entry : LogEntry := mk_log LOG_STORE 0 0 0 None.

(** [log_buffer[i]]: outside the array the access is undefined. *)
Definition read_entry (i : Z) : M lb_state LogEntry := fun s =>
  if (0 <=? i) && (i <? MAX_LOG_ENTRIES)
  then Some (default zero_entry (log_buffer s !! i), s) else None.

Definition write_entry (i : Z) (f : LogEntry -> LogEntry) : M lb_state unit := fun s =>
  if (0 <=? i) && (i <? MAX_LOG_ENTRIES)
  then Some (tt, mk_lb (<[i := f (default zero_entry (log_buffer s !! i))]> (log_buffer s))
                       (log_count s) (out s))
  else None.

Definition set_count (n : Z) : M lb_state unit :=
  modify (fun s => mk_lb (log_buffer s) n (out s)).

(** [VG_(printf)]: what the format interpreter sends is appended. *)
Definition printf (format : string) (args : list vararg) : M lb_state unit := fun s =>
  match debugLog_vprintf false (str format) args with
  | Some (_, o) => Some (tt, mk_lb (log_buffer s) (log_count s) (out s ++ o))
  | None => None
  end.

Definition newline : string := String "010"%char EmptyString.

Section Log.
(** The text [VG_(pp_ExeContext)] prints for a recorded stack trace. *)
Context (pp_ExeContext : positive -> chars).

Definition print_ec (p : positive) : M lb_state unit :=
  modify (fun s => mk_lb (log_buffer s) (log_count s) (out s ++ pp_ExeContext p)).

Definition print_entry (e : LogEntry) : M lb_state unit :=
  match e_type e with
  | LOG_STORE => printf ("0x%lx 0x%lx" ++ newline) [VWord (e_addr e); VWord (e_value e)]
  | LOG_ALLOC =>
      printf ("===ALLOC START===" ++ newline) [] ;;;
      printf ("Start 0x%lx, size %lu" ++ newline) [VWord (e_addr e); VWord (e_size e)] ;;;
      (match e_where e with
       | Some p => print_ec p
       | None => printf ("(No allocation stack trace available)" ++ newline) []
       end) ;;;
      printf ("===ALLOC END===" ++ newline) []
  | LOG_FREE =>
      printf ("===FREE START===" ++ newline) [] ;;;
      printf ("Start 0x%lx, size %lu" ++ newline) [VWord (e_addr e); VWord (e_size e)] ;;;
      (match e_where e with
       | Some p => print_ec p
       | None => printf ("(No free stack trace available)" ++ newline) []
       end) ;;;
      printf ("===FREE END===" ++ newline) []
  end.

(** The loop of [flush_log_buffer] from index [i], [n] entries being left *)
Fixpoint flush_loop (n : nat) (i : Z) : M lb_state unit :=
  match n with
  | O => ret tt
  | S n => e <- read_entry i ;; print_entry e ;;; flush_loop n (i + 1)
  end.

Definition flush_log_buffer : M lb_state unit :=
  n <- gets log_count ;;
  flush_loop (Z.to_nat n) 0 ;;;
  set_count 0.

Definition is_store (t : LogEventType) : bool :=
  match t with LOG_STORE => true | _ => false end.

Definition add_to_buffer (t : LogEventType) (a v sz : Z) (w : option positive)
    : M lb_state unit :=
  n <- gets log_count ;;
  write_entry n (fun e => mk_log t (e_addr e) (e_value e) (e_size e) (e_where e)) ;;;
  write_entry n (fun e => mk_log (e_type e) a (e_value e) (e_size e) (e_where e)) ;;;
  (if is_store t then
     write_entry n (fun e => mk_log (e_type e) (e_addr e) v (e_size e) (e_where e))
   else
     write_entry n (fun e => mk_log (e_type e) (e_addr e) (e_value e) sz (e_where e)) ;;;
     write_entry n (fun e => mk_log (e_type e) (e_addr e) (e_value e) (e_size e) w)) ;;;
  set_count (n + 1) ;;;
  n <- gets log_count ;;
  if MAX_LOG_ENTRIES <=? n then flush_log_buffer else ret tt.

(** ** What a log says *)

(** The events a log records, and the text of each *)
Inductive event :=
| EStore (a v : Z)
| EAlloc (a sz : Z) (w : option positive)
| EFree (a sz : Z) (w : option positive).

Definition hex (w : Z) : chars := (myvprintf_int64 0 16 0 false (u64 w)).2.
Definition dec (w : Z) : chars := (myvprintf_int64 0 10 0 false (u64 w)).2.

Definition text (e : event) : chars :=
  match e with
  | EStore a v => str "0x" ++ hex a ++ str " 0x" ++ hex v ++ str newline
  | EAlloc a sz w =>
      str ("===ALLOC START===" ++ newline) ++
      str "Start 0x" ++ hex a ++ str ", size " ++ dec sz ++ str newline ++
      match w with
      | Some p => pp_ExeContext p
      | None => str ("(No allocation stack trace available)" ++ newline)
      end ++
      str ("===ALLOC END===" ++ newline)
  | EFree a sz w =>
      str ("===FREE START===" ++ newline) ++
      str "Start 0x" ++ hex a ++ str ", size " ++ dec sz ++ str newline ++
      match w with
      | Some p => pp_ExeContext p
      | None => str ("(No free stack trace available)" ++ newline)
      end ++
      str ("===FREE END===" ++ newline)
  end.

Definition texts (es : list event) : chars := List.concat (map text es).

Definition entry_is (e : LogEntry) (ev : event) : Prop :=
  match ev with
  | EStore a v => e_type e = LOG_STORE /\ e_addr e = a /\ e_value e = v
  | EAlloc a sz w => e_type e = LOG_ALLOC /\ e_addr e = a /\ e_size e = sz /\ e_where e = w
  | EFree a sz w => e_type e = LOG_FREE /\ e_addr e = a /\ e_size e = sz /\ e_where e = w
  end.

(** The state after logging the events [es]: those before the last flush
    are printed, the others are in the buffer, in order. *)
Definition logged (s : lb_state) (es : list event) : Prop :=
  exists old pend, es = old ++ pend /\ out s = texts old /\
    log_count s = Z.of_nat (List.length pend) /\ log_count s < MAX_LOG_ENTRIES /\
    (forall i ev, pend !! i = Some ev ->
       exists e, log_buffer s !! Z.of_nat i = Some e /\ entry_is e ev).

Definition add_event (ev : event) : M lb_state unit :=
  match ev with
  | EStore a v => add_to_buffer LOG_STORE a v 0 None
  | EAlloc a sz w => add_to_buffer LOG_ALLOC a 0 sz w
  | EFree a sz w => add_to_buffer LOG_FREE a 0 sz w
  end.

Lemma wp_printf s format args (Q : unit -> lb_state -> Prop) n o :
  debugLog_vprintf false (str format) args = Some (n, o) ->
  Q tt (mk_lb (log_buffer s) (log_count s) (out s ++ o)) -> wp (printf format args) s Q.
Proof. intros H HQ. unfold wp, printf. by rewrite H. Qed.

Lemma printf_store a v : exists n,
  debugLog_vprintf false (str ("0x%lx 0x%lx" ++ newline)) [VWord a; VWord v] =
  Some (n, text (EStore a v)).
Proof. eexists. cbv -[myvprintf_int64 u64 u32 app]. reflexivity. Qed.

Lemma printf_const format o n :
  debugLog_vprintf false (str format) [] = Some (n, o) ->
  forall s (Q : unit -> lb_state -> Prop),
  Q tt (mk_lb (log_buffer s) (log_count s) (out s ++ o)) -> wp (printf format []) s Q.
Proof. intros H s Q. by apply wp_printf with (n := n). Qed.

Lemma printf_start a sz : exists n,
  debugLog_vprintf false (str ("Start 0x%lx, size %lu" ++ newline)) [VWord a; VWord sz] =
  Some (n, str "Start 0x" ++ hex a ++ str ", size " ++ dec sz ++ str newline).
Proof. eexists. cbv -[myvprintf_int64 u64 u32 app]. reflexivity. Qed.

(** Printing an entry appends the text of its event. *)
Lemma wp_print_entry s e ev (Q : unit -> lb_state -> Prop) :
  entry_is e ev ->
  Q tt (mk_lb (log_buffer s) (log_count s) (out s ++ text ev)) -> wp (print_entry e) s Q.
Proof.
  intros He HQ. unfold print_entry. destruct ev as [a v|a sz w|a sz w]; cbn [entry_is] in He.
  - destruct He as (-> & -> & ->). destruct (printf_store a v) as [n E].
    by eapply wp_printf.
  - destruct He as (-> & -> & -> & ->). destruct (printf_start a sz) as [n E].
    apply wp_bind. eapply printf_const; [vm_compute; reflexivity|]. cbn [out log_buffer log_count].
    apply wp_bind. eapply wp_printf; [exact E|]. cbn [out log_buffer log_count].
    apply wp_bind. destruct w as [p|]; [apply wp_modify | eapply printf_const; [vm_compute; reflexivity|]];
      cbn [out log_buffer log_count]; (eapply printf_const; [vm_compute; reflexivity|]);
      cbn [out log_buffer log_count]; rewrite <- !app_assoc; exact HQ.
  - destruct He as (-> & -> & -> & ->). destruct (printf_start a sz) as [n E].
    apply wp_bind. eapply printf_const; [vm_compute; reflexivity|]. cbn [out log_buffer log_count].
    apply wp_bind. eapply wp_printf; [exact E|]. cbn [out log_buffer log_count].
    apply wp_bind. destruct w as [p|]; [apply wp_modify | eapply printf_const; [vm_compute; reflexivity|]];
      cbn [out log_buffer log_count]; (eapply printf_const; [vm_compute; reflexivity|]);
      cbn [out log_buffer log_count]; rewrite <- !app_assoc; exact HQ.
Qed.

Lemma wp_flush_loop evs : forall s i (Q : unit -> lb_state -> Prop),
  0 <= i -> i + Z.of_nat (List.length evs) <= MAX_LOG_ENTRIES ->
  (forall j ev, evs !! j = Some ev ->
     exists e, log_buffer s !! (i + Z.of_nat j) = Some e /\ entry_is e ev) ->
  Q tt (mk_lb (log_buffer s) (log_count s) (out s ++ texts evs)) ->
  wp (flush_loop (List.length evs) i) s Q.
Proof.
  induction evs as [|ev evs IH]; intros s i Q Hi Hmax Hev HQ; cbn [List.length flush_loop].
  - apply wp_ret. unfold texts in HQ. cbn in HQ. rewrite app_nil_r in HQ. by destruct s.
  - cbn [List.length] in Hmax. destruct (Hev 0%nat ev eq_refl) as (e & He & Hi').
    rewrite Z.add_0_r in He. apply wp_bind. unfold wp at 1, read_entry.
    rewrite (proj2 (Z.leb_le 0 i)), (proj2 (Z.ltb_lt i _)) by lia. cbn [andb]. rewrite He.
    apply wp_bind. eapply wp_print_entry; [exact Hi'|]. apply IH; cbn; [lia|lia| |].
    + intros j ev' Hj. destruct (Hev (S j) ev' Hj) as (e' & He' & ?). exists e'.
      split; [|done]. rewrite <- He'. f_equal. lia.
    + rewrite <- app_assoc. exact HQ.
Qed.

Lemma wp_flush s es (Q : unit -> lb_state -> Prop) :
  logged s es ->
  (forall s', logged s' es -> log_count s' = 0 -> out s' = texts es -> Q tt s') ->
  wp flush_log_buffer s Q.
Proof.
  intros (old & pend & -> & Ho & Hn & Hmax & Hp) HQ. unfold flush_log_buffer.
  apply wp_bind, wp_gets, wp_bind. rewrite Hn, Nat2Z.id.
  apply wp_flush_loop; [lia|lia|done|]. apply wp_modify. cbn.
  assert (texts (old ++ pend) = texts old ++ texts pend) as E.
  { unfold texts. by rewrite map_app, concat_app. }
  apply HQ; cbn; [|done|by rewrite E, Ho].
  exists (old ++ pend), []. rewrite app_nil_r. split_and!; cbn; [done|by rewrite E, Ho|done|done|].
  intros i ev Hi. by rewrite lookup_nil in Hi.
Qed.

(** Writing the element at the counter, field by field *)
Lemma wp_write_count s n f (Q : unit -> lb_state -> Prop) :
  0 <= n < MAX_LOG_ENTRIES ->
  Q tt (mk_lb (<[n := f (default zero_entry (log_buffer s !! n))]> (log_buffer s))
          (log_count s) (out s)) ->
  wp (write_entry n f) s Q.
Proof.
  intros Hn HQ. unfold wp, write_entry.
  by rewrite (proj2 (Z.leb_le 0 n)), (proj2 (Z.ltb_lt n _)) by lia.
Qed.

Lemma logged_push s old pend e ev :
  out s = texts old -> log_count s = Z.of_nat (List.length pend) ->
  (forall i ev, pend !! i = Some ev ->
     exists e, log_buffer s !! Z.of_nat i = Some e /\ entry_is e ev) ->
  entry_is e ev ->
  forall i ev', (pend ++ [ev]) !! i = Some ev' ->
    exists e', <[log_count s := e]> (log_buffer s) !! Z.of_nat i = Some e' /\ entry_is e' ev'.
Proof.
  intros Ho Hn Hp He i ev' Hi. apply lookup_app_Some in Hi as [Hi|[Hi1 Hi2]].
  - rewrite lookup_insert_ne; [by apply Hp|]. apply lookup_lt_Some in Hi. lia.
  - apply list_lookup_singleton_Some in Hi2 as [Hi2 ->]. exists e. split; [|done].
    rewrite Hn. replace (Z.of_nat i) with (Z.of_nat (List.length pend)) by lia.
    apply lookup_insert_eq.
Qed.

(** [add_to_buffer] never leaves the array, and logs the event. *)
Lemma wp_add_event s es ev (Q : unit -> lb_state -> Prop) :
  logged s es -> (forall s', logged s' (es ++ [ev]) -> Q tt s') ->
  wp (add_event ev) s Q.
Proof.
  intros (old & pend & -> & Ho & Hn & Hmax & Hp) HQ.
  assert (forall e, entry_is e ev ->
    wp (set_count (log_count s + 1) ;;;
        n <- gets log_count ;;
        (if MAX_LOG_ENTRIES <=? n then flush_log_buffer else ret tt))
      (mk_lb (<[log_count s := e]> (log_buffer s)) (log_count s) (out s)) Q) as Hend.
  { intros e He. apply wp_bind, wp_modify, wp_bind, wp_gets. cbn.
    pose proof (logged_push _ _ _ _ _ Ho Hn Hp He) as Hp'.
    assert (Hlen : Z.of_nat (List.length (pend ++ [ev])) = log_count s + 1)
      by (rewrite length_app; cbn; lia).
    destruct (Z.leb_spec MAX_LOG_ENTRIES (log_count s + 1)).
    - unfold flush_log_buffer. apply wp_bind, wp_gets, wp_bind. cbn [log_count].
      rewrite <- Hlen, Nat2Z.id.
      apply wp_flush_loop; [lia|lia|done|]. apply wp_modify. cbn. apply HQ.
      exists ((old ++ pend) ++ [ev]), []. rewrite app_nil_r. split_and!; cbn; try done.
      rewrite Ho. unfold texts. by rewrite !map_app, !concat_app, !app_assoc.
    - apply wp_ret, HQ. exists old, (pend ++ [ev]). rewrite app_assoc.
      split_and!; cbn; [done|done|by rewrite Hlen|lia|done]. }
  assert (0 <= log_count s < MAX_LOG_ENTRIES) as Hb by lia.
  destruct ev as [a v|a sz w|a sz w]; cbn [add_event]; unfold add_to_buffer;
    (apply wp_bind, wp_gets; cbn [log_count is_store]);
    repeat (repeat apply wp_bind; apply wp_write_count; [done|]; cbn [log_count log_buffer out];
            rewrite ?lookup_insert_eq, ?insert_insert_eq; cbn [default]);
    apply Hend; cbn; done.
Qed.

Lemma wp_add_events evs : forall s es (Q : unit -> lb_state -> Prop),
  logged s es -> (forall s', logged s' (es ++ evs) -> Q tt s') ->
  wp (foldr (fun ev m => add_event ev ;;; m) (ret tt) evs) s Q.
Proof.
  induction evs as [|ev evs IH]; intros s es Q Hl HQ; cbn.
  - apply wp_ret, HQ. by rewrite app_nil_r.
  - apply wp_bind. eapply wp_add_event; [done|]. intros s' Hl'. eapply IH; [done|].
    intros s'' Hl''. apply HQ. by rewrite <- app_assoc in Hl''.
Qed.

Lemma logged_init : logged lb_init [].
Proof.
  exists [], []. by split_and!.
Qed.
End Log.
