(* ===== verification/Mx.v ===== *)
(** MX emulation of [memlog/ml_main.c]: IEEE elements as bit patterns, the
    rounding of one element, the re-encoding of a block of 32 elements in
    guest memory, and the callback that re-encodes the blocks a store
    touches.  All integers are the C ones: [ULong] is a [Z] modulo 2^64,
    [Long] a signed [Z]. *)
From stdpp Require Import base gmap list.
From Stdlib Require Import ZArith Lia.
From S2P Require Import Prelude Mem BlockTrack.
Open Scope prog_scope.
Open Scope Z_scope.

(** ** Options and formats *)

(** The values of the [clo_mx_*] variables the emulation reads *)
Record mx_opts := mk_opts {
  clo_mx_mbits : Z;
  clo_mx_emax : Z;
  clo_mx_emin : Z;
  clo_mx_esz : Z;
  clo_mx_scale_bits : Z
}.

Definition mx_default : mx_opts := mk_opts 3 8 (-6) 8 8.

Record FpFmt := mk_fmt { esz : Z; mant : Z; emask : Z; bias : Z }.

Definition FMT64 : FpFmt := mk_fmt 8 52 2047 1023.
Definition FMT32 : FpFmt := mk_fmt 4 23 255 127.

(** The counters the emulation updates *)
Record mx_stats := mk_stats {
  mx_stores : Z;
  mx_values_changed : Z;
  mx_values_flushed : Z;
  mx_blocks_nan : Z;
  mx_scales_clamped : Z;
  mx_values_saturated : Z
}.

Definition stats0 : mx_stats := mk_stats 0 0 0 0 0 0.

Definition inc_stores (t : mx_stats) : mx_stats :=
  mk_stats (u64 (mx_stores t + 1)) (mx_values_changed t) (mx_values_flushed t)
           (mx_blocks_nan t) (mx_scales_clamped t) (mx_values_saturated t).
Definition inc_changed (t : mx_stats) : mx_stats :=
  mk_stats (mx_stores t) (u64 (mx_values_changed t + 1)) (mx_values_flushed t)
           (mx_blocks_nan t) (mx_scales_clamped t) (mx_values_saturated t).
Definition inc_flushed (t : mx_stats) : mx_stats :=
  mk_stats (mx_stores t) (mx_values_changed t) (u64 (mx_values_flushed t + 1))
           (mx_blocks_nan t) (mx_scales_clamped t) (mx_values_saturated t).
Definition inc_nan (t : mx_stats) : mx_stats :=
  mk_stats (mx_stores t) (mx_values_changed t) (mx_values_flushed t)
           (u64 (mx_blocks_nan t + 1)) (mx_scales_clamped t) (mx_values_saturated t).
Definition inc_clamped (t : mx_stats) : mx_stats :=
  mk_stats (mx_stores t) (mx_values_changed t) (mx_values_flushed t)
           (mx_blocks_nan t) (u64 (mx_scales_clamped t + 1)) (mx_values_saturated t).
Definition inc_saturated (t : mx_stats) : mx_stats :=
  mk_stats (mx_stores t) (mx_values_changed t) (mx_values_flushed t)
           (mx_blocks_nan t) (mx_scales_clamped t) (u64 (mx_values_saturated t + 1)).

(** ** One element *)

(** [x << n] on a [ULong] *)
Definition shl64 (x n : Z) : Z := u64 (Z.shiftl x n).

(** [__builtin_clzll], for a nonzero argument *)
Definition clzll (x : Z) : Z := 63 - Z.log2 x.

Definition mx_split (f : FpFmt) (v : Z) : Z * Z :=
  let e := Z.land (Z.shiftr v (mant f)) (emask f) in
  let sig := Z.land v (shl64 1 (mant f) - 1) in
  if e =? 0 then (sig, 1 - bias f - mant f)
  else (Z.lor sig (shl64 1 (mant f)), e - bias f - mant f).

Definition mx_lead (f : FpFmt) (v : Z) : Z :=
  let '(sig, lsb) := mx_split f v in lsb + 63 - clzll sig.

Definition mx_max_sig (o : mx_opts) : Z :=
  let ones := shl64 1 (clo_mx_mbits o + 1) - 1 in
  if (clo_mx_mbits o =? 3) && (clo_mx_emax o =? 8) then ones - 1 else ones.

(** The sign bit, [1ULL << (8 * f->esz - 1)] *)
Definition sign_bit (f : FpFmt) : Z := shl64 1 (8 * esz f - 1).

(** [v & ~s] for 64-bit values *)
Definition andnot (v s : Z) : Z := Z.land v (u64 (Z.lnot s)).

Definition mx_quantize (o : mx_opts) (f : FpFmt) (v shared : Z) (t : mx_stats) : Z * mx_stats :=
  let sign := Z.land v (sign_bit f) in
  if andnot v sign =? 0 then (v, t) else
  let '(sig, lsb) := mx_split f v in
  let lead := lsb + 63 - clzll sig in
  let qe := (if clo_mx_emin o <=? lead - shared then lead else shared + clo_mx_emin o)
            - clo_mx_mbits o in
  let shift := qe - lsb in
  if shift <=? 0 then (v, t) else
  let r := if shift <? 64 then Z.shiftr (u64 (sig + shl64 1 (shift - 1))) shift else 0 in
  if r =? 0 then (sign, inc_flushed t) else
  let '(r, t) :=
    if (qe =? shared + clo_mx_emax o - clo_mx_mbits o) && (mx_max_sig o <? r)
    then (mx_max_sig o, inc_saturated t) else (r, t) in
  let rlead := qe + 63 - clzll r in
  let be := rlead + bias f in
  if emask f <=? be then (Z.lor sign (shl64 (emask f) (mant f)), t) else
  if be <=? 0 then (Z.lor sign (shl64 r (qe - (1 - bias f - mant f))), t) else
  let mmask := shl64 1 (mant f) - 1 in
  (Z.lor (Z.lor sign (shl64 be (mant f)))
         (Z.land (shl64 r (mant f - (rlead - qe))) mmask), t).

Definition mx_nan_element (f : FpFmt) : Z :=
  Z.lor (shl64 (emask f) (mant f)) (shl64 1 (mant f - 1)).

(** ** Elements in guest memory *)

Definition mx_load (f : FpFmt) (m : gmem) (a : Z) : Z :=
  if esz f =? 8 then load_le 8 m a else load_le 4 m a.

Definition mx_store (f : FpFmt) (m : gmem) (a v : Z) : gmem :=
  if esz f =? 8 then store_le 8 m a v else store_le 4 m a (v mod 2 ^ 32).

(** ** One block *)

Definition MX_BLOCK_ELEMS : Z := 32.

(** The first loop of [mx_encode_block]: is there a finite nonzero element,
    is there an infinity or a NaN, and the greatest leading exponent. *)
Record scan := mk_scan { any : bool; nonfinite : bool; lmax : Z }.

Definition scan_elem (f : FpFmt) (v : Z) (c : scan) : scan :=
  if andnot v (sign_bit f) =? 0 then c
  else if Z.land (Z.shiftr v (mant f)) (emask f) =? emask f
  then mk_scan (any c) true (lmax c)
  else
    let lead := mx_lead f v in
    mk_scan true (nonfinite c) (if negb (any c) || (lmax c <? lead) then lead else lmax c).

Fixpoint scan_loop (n : nat) (f : FpFmt) (m : gmem) (base i : Z) (c : scan) : scan :=
  match n with
  | O => c
  | S n => scan_loop n f m base (i + 1) (scan_elem f (mx_load f m (u64 (base + i * esz f))) c)
  end.

(** The rewriting loops: [enc] gives the new value of an element. *)
Fixpoint rewrite_loop (n : nat) (f : FpFmt) (enc : Z -> mx_stats -> Z * mx_stats)
    (base i : Z) (m : gmem) (t : mx_stats) : gmem * mx_stats :=
  match n with
  | O => (m, t)
  | S n =>
      let a := u64 (base + i * esz f) in
      let v := mx_load f m a in
      let '(q, t) := enc v t in
      let '(m, t) := if q =? v then (m, t) else (mx_store f m a q, inc_changed t) in
      rewrite_loop n f enc base (i + 1) m t
  end.

(** The first element address and the number of elements of block [bi] *)
Definition block_base (f : FpFmt) (bk : Block) (bi : Z) : Z :=
  u64 (payload bk + bi * MX_BLOCK_ELEMS * esz f).

Definition block_elems (f : FpFmt) (bk : Block) (bi : Z) : nat :=
  let left := u64 (req_szB bk / esz f - bi * MX_BLOCK_ELEMS) in
  Z.to_nat (if left <? MX_BLOCK_ELEMS then left else MX_BLOCK_ELEMS).

Definition mx_encode_block (o : mx_opts) (f : FpFmt) (bk : Block) (bi : Z)
    (m : gmem) (t : mx_stats) : gmem * mx_stats :=
  let base := block_base f bk bi in
  let n := block_elems f bk bi in
  let semax := Z.shiftl 1 (clo_mx_scale_bits o - 1) - 1 in
  let c := scan_loop n f m base 0 (mk_scan false false 0) in
  let shared := lmax c - clo_mx_emax o in
  if nonfinite c || (any c && (semax <? shared)) then
    rewrite_loop n f (fun _ t => (mx_nan_element f, t)) base 0 m (inc_nan t)
  else if negb (any c) then (m, t)
  else
    let '(shared, t) := if shared <? - semax then (- semax, inc_clamped t) else (shared, t) in
    rewrite_loop n f (fun v t => mx_quantize o f v shared t) base 0 m t.

(** ** After a store *)

Definition mx_format (o : mx_opts) : FpFmt := if clo_mx_esz o =? 4 then FMT32 else FMT64.

(** The blocks [first], ..., while [bi <= last && bi < nblocks] *)
Fixpoint blocks_loop (fuel : nat) (o : mx_opts) (f : FpFmt) (bk : Block)
    (bi last nblocks : Z) (m : gmem) (t : mx_stats) : gmem * mx_stats :=
  match fuel with
  | O => (m, t)
  | S fuel =>
      if (bi <=? last) && (bi <? nblocks) then
        let '(m, t) := mx_encode_block o f bk bi m t in
        blocks_loop fuel o f bk (bi + 1) last nblocks m t
      else (m, t)
  end.

(** The body of [mx_after_store], for the block [bk] it found *)
Definition mx_after_store_in (o : mx_opts) (bk : Block) (addr size : Z)
    (m : gmem) (t : mx_stats) : gmem * mx_stats :=
  let f := mx_format o in
  let span := MX_BLOCK_ELEMS * esz f in
  let nblocks := req_szB bk / span + (if esz f <=? req_szB bk mod span then 1 else 0) in
  let first := u64 (addr - payload bk) / span in
  let last := u64 (addr + size - 1 - payload bk) / span in
  blocks_loop (Z.to_nat (last - first + 1)) o f bk first last nblocks m (inc_stores t).
