(* ===== verification/MxFloat.v ===== *)
(** IEEE elements in units of their format's smallest positive value: the
    significand and exponent [mx_split] computes denote the same number, and
    the encoding is the unique one. *)
From stdpp Require Import base list.
From Stdlib Require Import ZArith Lia.
From S2P Require Import Prelude Mem BlockTrack Mx.
Open Scope Z_scope.

(** ** Bit operations as arithmetic *)

Lemma land_pow2_mod v n : 0 <= n -> 0 <= v < 2 ^ (n + 1) -> Z.land v (2 ^ n) + v mod 2 ^ n = v.
Proof.
  intros Hn Hv. rewrite <- Z.land_ones by done.
  rewrite <- Z.add_lor_land, <- Z.land_lor_distr_r.
  assert (Z.land (Z.land v (2 ^ n)) (Z.land v (Z.ones n)) = 0) as ->.
  { apply Z.bits_inj'. intros i Hi. rewrite !Z.land_spec, Z.pow2_bits_eqb, Z.bits_0 by done.
    destruct (Z.eqb_spec n i) as [<-|]; [|by rewrite andb_false_r].
    rewrite Z.ones_spec_high by lia. by rewrite !andb_false_r. }
  rewrite Z.add_0_r.
  assert (Z.lor (2 ^ n) (Z.ones n) = Z.ones (n + 1)) as ->.
  { apply Z.bits_inj'. intros i Hi. rewrite Z.lor_spec, Z.pow2_bits_eqb, !Z.testbit_ones_nonneg by lia.
    destruct (Z.eqb_spec n i), (Z.ltb_spec i n), (Z.ltb_spec i (n + 1)); cbn; lia || done. }
  rewrite Z.land_ones by lia. by apply Z.mod_small.
Qed.

Lemma shl64_small x n : 0 <= n -> 0 <= x * 2 ^ n < 2 ^ 64 -> shl64 x n = x * 2 ^ n.
Proof. intros Hn Hx. unfold shl64. rewrite Z.shiftl_mul_pow2 by done. by apply u64_small. Qed.

Lemma shl64_one n : 0 <= n < 64 -> shl64 1 n = 2 ^ n.
Proof.
  intros Hn. rewrite shl64_small; [lia|lia|]. rewrite Z.mul_1_l. split; [lia|].
  apply Z.pow_lt_mono_r; lia.
Qed.

Lemma andnot_eq v s : 0 <= v < 2 ^ 64 -> andnot v s = v - Z.land v s.
Proof.
  intros Hv. unfold andnot, u64. rewrite <- (Z.land_ones (Z.lnot s)) by done.
  rewrite Z.land_assoc, Z.land_ones, <- Z.sub_land_same_l by done. apply Z.mod_small.
  destruct Hv. assert (0 <= Z.land v s) by (apply Z.land_nonneg; auto).
  assert (0 <= v - Z.land v s); [|lia].
  rewrite Z.sub_land_same_l. apply Z.land_nonneg; auto.
Qed.

(** ** The fields of an element *)

(** What the proofs use of a format: both formats of the code satisfy it. *)
Record fmt_ok (f : FpFmt) : Prop := {
  ok_mant : 3 < mant f <= 52;
  ok_exp : 2 <= 8 * esz f - 1 - mant f;
  ok_width : 8 * esz f <= 64;
  ok_emask : emask f = 2 ^ (8 * esz f - 1 - mant f) - 1
}.

Lemma FMT64_ok : fmt_ok FMT64.
Proof. by split. Qed.
Lemma FMT32_ok : fmt_ok FMT32.
Proof. by split. Qed.

(** [v] is a bit pattern of the format. *)
Definition elem (f : FpFmt) (v : Z) : Prop := 0 <= v < 2 ^ (8 * esz f).

(** The pattern without its sign, its exponent field, its fraction field *)
Definition mag (f : FpFmt) (v : Z) : Z := v mod 2 ^ (8 * esz f - 1).
Definition sgn (f : FpFmt) (v : Z) : Z := v - mag f v.
Definition expo (f : FpFmt) (a : Z) : Z := a / 2 ^ mant f.
Definition frac (f : FpFmt) (a : Z) : Z := a mod 2 ^ mant f.

(** Neither an infinity nor a NaN *)
Definition finite (f : FpFmt) (v : Z) : Prop := expo f (mag f v) < emask f.

(** The magnitude of a finite pattern without sign, in units of
    [2 ^ (1 - bias - mant)], the smallest positive value *)
Definition umag (f : FpFmt) (a : Z) : Z :=
  if expo f a =? 0 then frac f a else (2 ^ mant f + frac f a) * 2 ^ (expo f a - 1).

(** The pattern of a magnitude *)
Definition ubits (f : FpFmt) (u : Z) : Z :=
  let l := Z.log2 u in
  if l <? mant f then u
  else (l - mant f + 1) * 2 ^ mant f + (u / 2 ^ (l - mant f) - 2 ^ mant f).

(** The exponent of the unit *)
Definition minlsb (f : FpFmt) : Z := 1 - bias f - mant f.

Section Fmt.
Context (f : FpFmt) (Hf : fmt_ok f).
Let Hm := ok_mant f Hf.
Let Hx := ok_exp f Hf.
Let Hw := ok_width f Hf.

Lemma sign_bit_eq : sign_bit f = 2 ^ (8 * esz f - 1).
Proof using Hf. unfold sign_bit. apply shl64_one. lia. Qed.

Lemma elem_u64 v : elem f v -> 0 <= v < 2 ^ 64.
Proof using Hf.
  intros [H1 H2]. split; [done|]. eapply Z.lt_le_trans; [done|].
  apply Z.pow_le_mono_r; lia.
Qed.

Lemma land_sign v : elem f v -> Z.land v (sign_bit f) = sgn f v.
Proof using Hf.
  intros Hv. rewrite sign_bit_eq. unfold sgn, mag.
  rewrite <- (land_pow2_mod v (8 * esz f - 1)) at 2; [lia|lia|].
  unfold elem in Hv. by replace (8 * esz f - 1 + 1) with (8 * esz f) by lia.
Qed.

Lemma mag_range v : 0 <= mag f v < 2 ^ (8 * esz f - 1).
Proof using Hf. apply Z.mod_pos_bound. apply Z.pow_pos_nonneg; lia. Qed.

(** Both uses of [v & ~s] in the code: the sign bit cleared *)
Lemma andnot_sign_bit v : elem f v -> andnot v (sign_bit f) = mag f v.
Proof using Hf.
  intros Hv. rewrite andnot_eq by (by apply elem_u64). rewrite land_sign by done.
  unfold sgn. lia.
Qed.

Lemma andnot_sign v : elem f v -> andnot v (Z.land v (sign_bit f)) = mag f v.
Proof using Hf.
  intros Hv. rewrite andnot_eq by (by apply elem_u64).
  rewrite Z.land_assoc, Z.land_diag, land_sign by done. unfold sgn. lia.
Qed.

Lemma pow_split : 2 ^ (8 * esz f - 1) = 2 ^ mant f * 2 ^ (8 * esz f - 1 - mant f).
Proof using Hf. rewrite <- Z.pow_add_r by lia. f_equal. lia. Qed.

Lemma sgn_cases v : elem f v -> sgn f v = 0 \/ sgn f v = 2 ^ (8 * esz f - 1).
Proof using Hf.
  intros [H1 H2]. unfold sgn, mag.
  replace (8 * esz f) with (8 * esz f - 1 + 1) in H2 by lia.
  rewrite Z.pow_add_r, Z.pow_1_r in H2 by lia.
  pose proof (Z.pow_pos_nonneg 2 (8 * esz f - 1) ltac:(lia) ltac:(lia)).
  pose proof (Z.div_mod v (2 ^ (8 * esz f - 1)) ltac:(lia)).
  pose proof (Z.mod_pos_bound v (2 ^ (8 * esz f - 1)) ltac:(lia)).
  assert (v / 2 ^ (8 * esz f - 1) = 0 \/ v / 2 ^ (8 * esz f - 1) = 1) as [E|E];
    [|rewrite E in *; lia..].
  assert (0 <= v / 2 ^ (8 * esz f - 1)) by (apply Z.div_pos; lia).
  assert (v / 2 ^ (8 * esz f - 1) < 2) by (apply Z.div_lt_upper_bound; lia). lia.
Qed.

Lemma emask_ones : emask f = Z.ones (8 * esz f - 1 - mant f).
Proof using Hf. rewrite (ok_emask f Hf), Z.ones_equiv. lia. Qed.

(** The exponent field, as the code extracts it *)
Lemma expo_field v : elem f v ->
  Z.land (Z.shiftr v (mant f)) (emask f) = expo f (mag f v).
Proof using Hf.
  intros Hv. rewrite emask_ones, Z.land_ones, Z.shiftr_div_pow2 by lia.
  unfold expo, mag. rewrite pow_split.
  rewrite Z.rem_mul_r by (apply Z.pow_nonzero || apply Z.pow_pos_nonneg; lia).
  rewrite (Z.mul_comm (2 ^ mant f) (_ mod _)), Z.div_add by (apply Z.pow_nonzero; lia).
  rewrite Z.mod_div by (apply Z.pow_nonzero; lia). done.
Qed.

Lemma frac_field v : elem f v ->
  Z.land v (shl64 1 (mant f) - 1) = frac f (mag f v).
Proof using Hf.
  intros Hv. rewrite shl64_one by lia.
  replace (2 ^ mant f - 1) with (Z.ones (mant f)) by (rewrite Z.ones_equiv; lia).
  rewrite Z.land_ones by lia. unfold frac, mag. rewrite pow_split.
  rewrite Z.rem_mul_r by (apply Z.pow_nonzero || apply Z.pow_pos_nonneg; lia).
  rewrite (Z.mul_comm (2 ^ mant f) (_ mod _)), Z.mod_add by (apply Z.pow_nonzero; lia).
  by rewrite Z.mod_mod by (apply Z.pow_nonzero; lia).
Qed.

Lemma frac_range a : 0 <= frac f a < 2 ^ mant f.
Proof using Hf. apply Z.mod_pos_bound, Z.pow_pos_nonneg; lia. Qed.

Lemma expo_range v : 0 <= expo f (mag f v) <= emask f.
Proof using Hf.
  pose proof (mag_range v) as [H1 H2]. unfold expo. split.
  - apply Z.div_pos; [lia|]. apply Z.pow_pos_nonneg; lia.
  - rewrite (ok_emask f Hf). apply Z.lt_succ_r.
    replace (Z.succ _) with (2 ^ (8 * esz f - 1 - mant f)) by lia.
    apply Z.div_lt_upper_bound; [apply Z.pow_pos_nonneg; lia|]. by rewrite <- pow_split.
Qed.

Lemma mag_fields a : a = expo f a * 2 ^ mant f + frac f a.
Proof using Hf.
  unfold expo, frac. rewrite (Z.div_mod a (2 ^ mant f)) at 1 by (apply Z.pow_nonzero; lia). lia.
Qed.

(** ** Significand, exponent and magnitude *)

Lemma umag_pos a : 0 < a -> 0 < umag f a.
Proof using Hf.
  intros Ha. unfold umag. pose proof (frac_range a) as Hr. pose proof (mag_fields a) as E.
  destruct (Z.eqb_spec (expo f a) 0) as [E0|]; [rewrite E0 in E; lia|].
  apply Z.mul_pos_pos; [lia|]. apply Z.pow_pos_nonneg; [lia|].
  assert (0 <= expo f a); [|lia]. apply Z.div_pos; [lia|]. apply Z.pow_pos_nonneg; lia.
Qed.

Lemma expo_mag_zero v : mag f v = 0 -> expo f (mag f v) = 0 /\ frac f (mag f v) = 0.
Proof using Hf. intros ->. unfold expo, frac. by rewrite Zdiv_0_l, Zmod_0_l. Qed.

(** What [mx_split] computes of a finite nonzero element *)
Lemma split_spec v : elem f v -> mag f v <> 0 ->
  exists sig k, mx_split f v = (sig, minlsb f + k)
    /\ umag f (mag f v) = sig * 2 ^ k /\ 0 < sig < 2 ^ (mant f + 1)
    /\ k = Z.max 0 (expo f (mag f v) - 1) /\ (0 < k -> 2 ^ mant f <= sig).
Proof using Hf.
  intros Hv Hnz. unfold mx_split. rewrite expo_field, frac_field by done.
  pose proof (frac_range (mag f v)) as Hr. pose proof (expo_range v) as He.
  pose proof (mag_range v) as Hmr. pose proof (mag_fields (mag f v)) as E.
  rewrite Z.pow_add_r, Z.pow_1_r by lia. unfold umag, minlsb.
  destruct (Z.eqb_spec (expo f (mag f v)) 0) as [E0|E0].
  - exists (frac f (mag f v)), 0. rewrite E0 in *. repeat split; try lia. f_equal; lia.
  - exists (2 ^ mant f + frac f (mag f v)), (expo f (mag f v) - 1).
    rewrite shl64_one, Z.lor_comm by lia.
    rewrite <- (Z.mul_1_l (2 ^ mant f)) at 1. rewrite lor_add_pow2 by lia.
    repeat split; try lia. f_equal; lia.
Qed.

Lemma log2_sig sig k : 0 < sig -> 0 <= k -> Z.log2 (sig * 2 ^ k) = Z.log2 sig + k.
Proof. intros. rewrite Z.log2_mul_pow2; lia. Qed.

(** [mx_lead] is the binary exponent of the value. *)
Lemma lead_spec v : elem f v -> mag f v <> 0 ->
  mx_lead f v = minlsb f + Z.log2 (umag f (mag f v)).
Proof using Hf.
  intros Hv Hnz. destruct (split_spec v Hv Hnz) as (sig & k & E & U & ? & ? & _).
  unfold mx_lead, clzll. rewrite E, U, log2_sig by lia. lia.
Qed.

(** ** The pattern of a magnitude *)

Lemma ubits_umag a : 0 <= a -> ubits f (umag f a) = a.
Proof using Hf.
  intros Ha. unfold ubits, umag. pose proof (frac_range a) as Hr.
  pose proof (mag_fields a) as E. assert (0 <= expo f a) as He.
  { apply Z.div_pos; [lia|]. apply Z.pow_pos_nonneg; lia. }
  destruct (Z.eqb_spec (expo f a) 0) as [E0|E0].
  - rewrite E0 in E. rewrite E at 3.
    destruct (Z.ltb_spec (Z.log2 (frac f a)) (mant f)) as [|H]; [lia|].
    destruct (decide (frac f a = 0)) as [Z0|]; [rewrite Z0 in H; cbn in H; lia|].
    apply Z.log2_le_pow2 in H; lia.
  - assert (Z.log2 (2 ^ mant f + frac f a) = mant f) as L.
    { apply Z.log2_unique'  with (c := frac f a); lia. }
    rewrite log2_sig, L by lia.
    destruct (Z.ltb_spec (mant f + (expo f a - 1)) (mant f)); [lia|].
    replace (mant f + (expo f a - 1) - mant f) with (expo f a - 1) by lia.
    rewrite Z.div_mul by (apply Z.pow_nonzero; lia). lia.
Qed.

(** A magnitude of at most [mant + 1] significant bits *)
Definition fits (u : Z) : Prop :=
  0 <= u /\ (mant f < Z.log2 u -> (2 ^ (Z.log2 u - mant f) | u)).

(** The magnitudes above the greatest finite value *)
Definition huge (u : Z) : Prop := emask f - 1 + mant f <= Z.log2 u.

Lemma umag_fits a : 0 <= a -> fits (umag f a).
Proof using Hf.
  intros Ha. unfold fits, umag. pose proof (frac_range a) as Hr.
  assert (0 <= expo f a) as He.
  { apply Z.div_pos; [lia|]. apply Z.pow_pos_nonneg; lia. }
  destruct (Z.eqb_spec (expo f a) 0) as [E0|E0].
  - split; [lia|]. intros H. exfalso.
    destruct (decide (frac f a = 0)) as [Z0|]; [rewrite Z0 in H; cbn in H; lia|].
    assert (mant f <= Z.log2 (frac f a)) as H' by lia. apply Z.log2_le_pow2 in H'; lia.
  - assert (Z.log2 (2 ^ mant f + frac f a) = mant f) as L.
    { apply Z.log2_unique'  with (c := frac f a); lia. }
    split; [apply Z.mul_nonneg_nonneg; lia|]. rewrite log2_sig, L by lia. intros _.
    replace (mant f + (expo f a - 1) - mant f) with (expo f a - 1) by lia.
    apply Z.divide_factor_r.
Qed.

Lemma umag_ubits u : fits u -> umag f (ubits f u) = u.
Proof using Hf.
  intros [Hu Hd]. unfold ubits, umag, expo, frac.
  pose proof (Z.pow_pos_nonneg 2 (mant f) ltac:(lia) ltac:(lia)) as Hp.
  destruct (Z.ltb_spec (Z.log2 u) (mant f)) as [H|H].
  - assert (u < 2 ^ mant f).
    { destruct (decide (u = 0)) as [->|]; [lia|]. apply Z.log2_lt_pow2; lia. }
    by rewrite Z.div_small, Z.mod_small by lia.
  - assert (0 < u) as Hu0.
    { destruct (decide (u = 0)) as [->|]; [cbn in H; lia|lia]. }
    set (l := Z.log2 u) in *. set (g := u / 2 ^ (l - mant f)).
    assert (u = g * 2 ^ (l - mant f)) as Eu.
    { destruct (decide (l = mant f)) as [E|].
      - unfold g. rewrite E, Z.sub_diag, Z.pow_0_r, Z.div_1_r. lia.
      - destruct Hd as [c Hc]; [lia|]. unfold g. rewrite Hc at 2.
        rewrite Z.div_mul by (apply Z.pow_nonzero; lia). lia. }
    assert (2 ^ mant f <= g < 2 ^ mant f + 2 ^ mant f) as Hg.
    { pose proof (Z.log2_spec u Hu0) as [L1 L2]. fold l in L1, L2.
      assert (2 ^ l = 2 ^ mant f * 2 ^ (l - mant f)) as P.
      { rewrite <- Z.pow_add_r by lia. f_equal. lia. }
      rewrite Z.pow_succ_r in L2 by lia. rewrite Eu, P in L1, L2.
      pose proof (Z.pow_pos_nonneg 2 (l - mant f) ltac:(lia) ltac:(lia)). nia. }
    rewrite Z.div_add_l by lia. rewrite (Z.div_small (g - _)) by lia.
    rewrite Z.add_0_r. destruct (Z.eqb_spec (l - mant f + 1) 0); [lia|].
    rewrite (Z.add_comm (_ * 2 ^ mant f)), Z.mod_add, Z.mod_small by lia.
    replace (l - mant f + 1 - 1) with (l - mant f) by lia. rewrite Eu at 1. f_equal. lia.
Qed.
End Fmt.
