(* ===== verification/MxQuant.v ===== *)
(** The rounding of one element: [mx_quantize] computes the nearest multiple
    of the element's quantum, halves away from zero, saturated at the top
    binade; the multiple is representable and rounding it again changes
    nothing. *)
From stdpp Require Import base list.
From Stdlib Require Import ZArith Lia.
From S2P Require Import Prelude Mem BlockTrack Mx MxFloat.
Open Scope Z_scope.

(** ** Reference rounding, on magnitudes in units of the smallest value *)

(** The exponent of the quantum of a magnitude *)
Definition quantum (o : mx_opts) (f : FpFmt) (shared u : Z) : Z :=
  Z.max (Z.log2 u) (shared + clo_mx_emin o - minlsb f) - clo_mx_mbits o.

(** The quantum exponent of the top binade of the block *)
Definition top (o : mx_opts) (f : FpFmt) (shared : Z) : Z :=
  shared + clo_mx_emax o - clo_mx_mbits o - minlsb f.

(** The nearest multiple of [2 ^ q], halves up *)
Definition nearest (u q : Z) : Z := (u + 2 ^ (q - 1)) / 2 ^ q.

Definition saturate (o : mx_opts) (f : FpFmt) (shared q n : Z) : Z :=
  if (q =? top o f shared) && (mx_max_sig o <? n) then mx_max_sig o else n.

(** The exponent of the last place of a magnitude *)
Definition last_place (f : FpFmt) (u : Z) : Z := Z.max 0 (Z.log2 u - mant f).

Definition qmag (o : mx_opts) (f : FpFmt) (shared u : Z) : Z :=
  let q := quantum o f shared u in
  if q <=? last_place f u then u
  else saturate o f shared q (nearest u q) * 2 ^ q.

(** The pattern of a magnitude, infinity when it is too large *)
Definition encode (f : FpFmt) (u : Z) : Z :=
  if emask f - 1 + mant f <=? Z.log2 u then emask f * 2 ^ mant f else ubits f u.

(** ** The greatest significand of the top binade *)

Lemma max_sig_range o : 0 <= clo_mx_mbits o <= 52 ->
  2 ^ clo_mx_mbits o <= mx_max_sig o < 2 ^ (clo_mx_mbits o + 1).
Proof.
  intros H. unfold mx_max_sig. rewrite shl64_one by lia.
  pose proof (Z.pow_pos_nonneg 2 (clo_mx_mbits o) ltac:(lia) ltac:(lia)).
  rewrite Z.pow_add_r, Z.pow_1_r by lia.
  destruct (Z.eqb_spec (clo_mx_mbits o) 3) as [E|]; [rewrite E|cbn; lia].
  destruct (clo_mx_emax o =? 8); cbn; lia.
Qed.

(** ** Rounding to a multiple *)

Lemma nearest_scale s k j : 0 <= k -> 1 <= j -> nearest (s * 2 ^ k) (k + j) = nearest s j.
Proof.
  intros Hk Hj. unfold nearest. replace (k + j - 1) with (j - 1 + k) by lia.
  rewrite Z.pow_add_r, (Z.add_comm k), Z.pow_add_r by lia.
  rewrite <- Z.mul_add_distr_r. apply Z.div_mul_cancel_r; apply Z.pow_nonzero; lia.
Qed.

Lemma nearest_spec u q : 1 <= q ->
  2 ^ q * nearest u q - 2 ^ (q - 1) <= u < 2 ^ q * nearest u q + 2 ^ (q - 1).
Proof.
  intros Hq. unfold nearest.
  assert (2 ^ q = 2 * 2 ^ (q - 1)) as E by (rewrite <- Z.pow_succ_r by lia; f_equal; lia).
  pose proof (Z.pow_pos_nonneg 2 (q - 1) ltac:(lia) ltac:(lia)).
  pose proof (Z.mul_div_le (u + 2 ^ (q - 1)) (2 ^ q) ltac:(lia)).
  pose proof (Z.mul_succ_div_gt (u + 2 ^ (q - 1)) (2 ^ q) ltac:(lia)). lia.
Qed.

Lemma nearest_nonneg u q : 0 <= u -> 1 <= q -> 0 <= nearest u q.
Proof.
  intros. unfold nearest. apply Z.div_pos; [|apply Z.pow_pos_nonneg; lia].
  pose proof (Z.pow_pos_nonneg 2 (q - 1) ltac:(lia) ltac:(lia)). lia.
Qed.

Lemma nearest_small u q : 0 <= u < 2 ^ (q - 1) -> 1 <= q -> nearest u q = 0.
Proof.
  intros. unfold nearest. apply Z.div_small.
  assert (2 ^ q = 2 * 2 ^ (q - 1)) as E by (rewrite <- Z.pow_succ_r by lia; f_equal; lia). lia.
Qed.

Lemma nearest_exact n q : 1 <= q -> nearest (n * 2 ^ q) q = n.
Proof.
  intros Hq. unfold nearest.
  assert (2 ^ q = 2 * 2 ^ (q - 1)) as E by (rewrite <- Z.pow_succ_r by lia; f_equal; lia).
  pose proof (Z.pow_pos_nonneg 2 (q - 1) ltac:(lia) ltac:(lia)).
  rewrite Z.div_add_l by lia. rewrite (Z.div_small (2 ^ (q - 1))) by lia. lia.
Qed.

(** A magnitude below [2 ^ b] rounds to at most [2 ^ (b - q)]. *)
Lemma nearest_le u q b : u < 2 ^ b -> 1 <= q <= b -> nearest u q <= 2 ^ (b - q).
Proof.
  intros Hu Hq. pose proof (nearest_spec u q ltac:(lia)) as [H _].
  assert (2 ^ b = 2 ^ (b - q) * 2 ^ q) as Eb.
  { rewrite <- Z.pow_add_r by lia. f_equal. lia. }
  assert (2 ^ q = 2 * 2 ^ (q - 1)) as E by (rewrite <- Z.pow_succ_r by lia; f_equal; lia).
  pose proof (Z.pow_pos_nonneg 2 (q - 1) ltac:(lia) ltac:(lia)). nia.
Qed.

(** A magnitude of at least [2 ^ b] rounds to at least [2 ^ (b - q)]. *)
Lemma nearest_ge u q b : 2 ^ b <= u -> 1 <= q <= b -> 2 ^ (b - q) <= nearest u q.
Proof.
  intros Hu Hq. pose proof (nearest_spec u q ltac:(lia)) as [_ H].
  assert (2 ^ b = 2 ^ (b - q) * 2 ^ q) as Eb.
  { rewrite <- Z.pow_add_r by lia. f_equal. lia. }
  assert (2 ^ q = 2 * 2 ^ (q - 1)) as E by (rewrite <- Z.pow_succ_r by lia; f_equal; lia).
  pose proof (Z.pow_pos_nonneg 2 (q - 1) ltac:(lia) ltac:(lia)). nia.
Qed.

(** The shift of the code, with its cut at 64 bits *)
Lemma shift_nearest f sig shift : fmt_ok f -> 0 < sig < 2 ^ (mant f + 1) -> 1 <= shift ->
  (if shift <? 64 then Z.shiftr (u64 (sig + shl64 1 (shift - 1))) shift else 0)
  = nearest sig shift.
Proof.
  intros Hf Hs Hsh. pose proof (ok_mant f Hf) as Hm.
  assert (2 ^ (mant f + 1) <= 2 ^ 53) by (apply Z.pow_le_mono_r; lia).
  destruct (Z.ltb_spec shift 64).
  - rewrite shl64_one by lia. assert (2 ^ (shift - 1) <= 2 ^ 62) by (apply Z.pow_le_mono_r; lia).
    pose proof (Z.pow_pos_nonneg 2 (shift - 1) ltac:(lia) ltac:(lia)).
    rewrite u64_small, Z.shiftr_div_pow2 by lia. done.
  - symmetry. apply nearest_small; [|lia]. split; [lia|].
    eapply Z.lt_le_trans; [apply Hs|]. apply Z.pow_le_mono_r; lia.
Qed.

(** ** Assembling the result *)

Section Assemble.
Context (f : FpFmt) (Hf : fmt_ok f).
Let Hm := ok_mant f Hf.
Let Hx := ok_exp f Hf.
Let Hw := ok_width f Hf.

Lemma lor_sgn v x : elem f v -> 0 <= x < 2 ^ (8 * esz f - 1) ->
  Z.lor (sgn f v) x = sgn f v + x.
Proof using Hf.
  intros Hv Hr.
  assert (exists c, sgn f v = c * 2 ^ (8 * esz f - 1)) as [c ->].
  { destruct (sgn_cases f Hf v Hv) as [->| ->]; [exists 0|exists 1]; lia. }
  apply lor_add_pow2; lia.
Qed.

Lemma sgn_nonneg v : elem f v -> 0 <= sgn f v.
Proof using Hf.
  intros Hv. destruct (sgn_cases f Hf v Hv) as [->| ->]; [lia|apply Z.pow_nonneg; lia].
Qed.

(** Two fields below the sign *)
Lemma fields_range be x : 0 <= be <= emask f -> 0 <= x < 2 ^ mant f ->
  0 <= be * 2 ^ mant f + x < 2 ^ (8 * esz f - 1).
Proof using Hf.
  intros Hb Hx'. rewrite (pow_split f Hf). rewrite (ok_emask f Hf) in Hb.
  pose proof (Z.pow_pos_nonneg 2 (mant f) ltac:(lia) ltac:(lia)). nia.
Qed.

Lemma shl64_field be : 0 <= be <= emask f -> shl64 be (mant f) = be * 2 ^ mant f.
Proof using Hf.
  intros Hb. pose proof (Z.pow_pos_nonneg 2 (mant f) ltac:(lia) ltac:(lia)).
  apply shl64_small; [lia|]. pose proof (fields_range be 0 Hb ltac:(lia)).
  assert (2 ^ (8 * esz f - 1) <= 2 ^ 64) by (apply Z.pow_le_mono_r; lia). lia.
Qed.

(** The final part of [mx_quantize], for a rounded significand *)
Lemma assemble v r q : elem f v -> 0 < r <= 2 ^ mant f -> 0 <= q ->
  let qe := minlsb f + q in
  let rlead := qe + 63 - clzll r in
  let be := rlead + bias f in
  (if emask f <=? be then Z.lor (sgn f v) (shl64 (emask f) (mant f))
   else if be <=? 0 then Z.lor (sgn f v) (shl64 r (qe - (1 - bias f - mant f)))
   else Z.lor (Z.lor (sgn f v) (shl64 be (mant f)))
              (Z.land (shl64 r (mant f - (rlead - qe))) (shl64 1 (mant f) - 1)))
  = sgn f v + encode f (r * 2 ^ q).
Proof using Hf.
  intros Hv Hr Hq qe rlead be. unfold encode.
  pose proof (Z.pow_pos_nonneg 2 (mant f) ltac:(lia) ltac:(lia)) as Hp.
  assert (Z.log2 r <= mant f) as Hl.
  { rewrite <- (Z.log2_pow2 (mant f)) by lia. apply Z.log2_le_mono. lia. }
  pose proof (Z.log2_nonneg r) as Hl0. pose proof (Z.log2_spec r ltac:(lia)) as [L1 L2].
  rewrite Z.log2_mul_pow2 by lia.
  assert (be = Z.log2 r + q - mant f + 1) as Ebe.
  { unfold be, rlead, qe, clzll, minlsb. lia. }
  assert (rlead - qe = Z.log2 r) as -> by (unfold rlead, clzll; lia).
  assert (qe - (1 - bias f - mant f) = q) as -> by (unfold qe, minlsb; lia).
  assert (0 <= emask f) as Hem.
  { rewrite (ok_emask f Hf). pose proof (Z.pow_pos_nonneg 2 (8 * esz f - 1 - mant f)). lia. }
  destruct (Z.leb_spec (emask f) be) as [H1|H1],
    (Z.leb_spec (emask f - 1 + mant f) (q + Z.log2 r)) as [H2|H2]; try lia.
  { rewrite shl64_field by lia. apply lor_sgn; [done|].
    pose proof (fields_range (emask f) 0). lia. }
  unfold ubits. rewrite Z.log2_mul_pow2 by lia.
  destruct (Z.leb_spec be 0) as [H3|H3], (Z.ltb_spec (q + Z.log2 r) (mant f)) as [H4|H4];
    try lia.
  - (* a subnormal result *)
    assert (r * 2 ^ q < 2 ^ mant f) as Hs.
    { apply Z.log2_lt_pow2; [apply Z.mul_pos_pos; [lia|apply Z.pow_pos_nonneg; lia]|].
      rewrite Z.log2_mul_pow2; lia. }
    assert (0 <= r * 2 ^ q) by (apply Z.mul_nonneg_nonneg; [lia|apply Z.pow_nonneg; lia]).
    pose proof (fields_range 0 (r * 2 ^ q) ltac:(lia) ltac:(lia)).
    assert (2 ^ (8 * esz f - 1) <= 2 ^ 64) by (apply Z.pow_le_mono_r; lia).
    rewrite shl64_small by lia. apply lor_sgn; [done|]. lia.
  - (* a normal result *)
    assert (shl64 r (mant f - Z.log2 r) = r * 2 ^ (mant f - Z.log2 r)
            /\ 2 ^ mant f <= r * 2 ^ (mant f - Z.log2 r) < 2 ^ mant f + 2 ^ mant f)
      as [-> Hg].
    { pose proof (Z.pow_pos_nonneg 2 (mant f - Z.log2 r) ltac:(lia) ltac:(lia)).
      assert (2 ^ mant f = 2 ^ Z.log2 r * 2 ^ (mant f - Z.log2 r)) as E.
      { rewrite <- Z.pow_add_r by lia. f_equal. lia. }
      rewrite Z.pow_succ_r in L2 by lia.
      assert (2 ^ mant f <= r * 2 ^ (mant f - Z.log2 r) < 2 ^ mant f + 2 ^ mant f)
        by (rewrite E; nia).
      split; [|done]. apply shl64_small; [lia|].
      assert (2 ^ mant f <= 2 ^ 52) by (apply Z.pow_le_mono_r; lia). lia. }
    rewrite shl64_one by lia.
    replace (2 ^ mant f - 1) with (Z.ones (mant f)) by (rewrite Z.ones_equiv; lia).
    rewrite Z.land_ones by lia.
    replace (r * 2 ^ (mant f - Z.log2 r)) with
      (r * 2 ^ (mant f - Z.log2 r) - 2 ^ mant f + 1 * 2 ^ mant f) by lia.
    rewrite Z.mod_add, Z.mod_small by lia. rewrite shl64_field by lia.
    rewrite <- Z.lor_assoc, lor_add_pow2 by lia. rewrite lor_sgn; [|done|apply fields_range; lia].
    assert (r * 2 ^ q / 2 ^ (q + Z.log2 r - mant f) = r * 2 ^ (mant f - Z.log2 r)) as ->.
    { replace q with (mant f - Z.log2 r + (q + Z.log2 r - mant f)) at 1 by lia.
      rewrite Z.pow_add_r, Z.mul_assoc, Z.div_mul by (try apply Z.pow_nonzero; lia). done. }
    rewrite Ebe. lia.
Qed.
End Assemble.

(** ** [mx_quantize] *)

(** The options the code accepts on the command line *)
Record opts_ok (o : mx_opts) : Prop := {
  ok_mbits : 0 <= clo_mx_mbits o <= 52;
  ok_emax : 0 <= clo_mx_emax o <= 1023;
  ok_emin : -1022 <= clo_mx_emin o <= 0;
  ok_scale : 1 <= clo_mx_scale_bits o <= 16
}.

Lemma mx_default_ok : opts_ok mx_default.
Proof. by split. Qed.

Section Quantize.
Context (o : mx_opts) (Ho : opts_ok o) (f : FpFmt) (Hf : fmt_ok f).
Let Hm := ok_mant f Hf.
Let Hx := ok_exp f Hf.
Let Hb := ok_mbits o Ho.

Lemma encode_finite v : elem f v -> finite f v ->
  sgn f v + encode f (umag f (mag f v)) = v.
Proof using Hf.
  intros Hv Hfin. pose proof (mag_range f Hf v) as Hr. unfold encode.
  pose proof (mag_fields f Hf (mag f v)) as E. pose proof (frac_range f Hf (mag f v)) as Hfr.
  destruct (Z.leb_spec (emask f - 1 + mant f) (Z.log2 (umag f (mag f v)))) as [H|].
  - exfalso. unfold finite in Hfin. unfold umag in H.
    assert (0 <= expo f (mag f v)) by (apply expo_range; done).
    destruct (Z.eqb_spec (expo f (mag f v)) 0) as [E0|E0].
    + destruct (decide (frac f (mag f v) = 0)) as [Z0|]; [rewrite Z0 in H; cbn in H; lia|].
      assert (mant f <= Z.log2 (frac f (mag f v))) as H' by lia.
      apply Z.log2_le_pow2 in H'; lia.
    + rewrite Z.log2_mul_pow2 in H by lia.
      assert (Z.log2 (2 ^ mant f + frac f (mag f v)) = mant f) as L
        by (apply Z.log2_unique' with (c := frac f (mag f v)); lia).
      rewrite L in H. lia.
  - rewrite ubits_umag by (done || lia). unfold sgn. lia.
Qed.

(** The exponent of the last place is the one [mx_split] returns. *)
Lemma last_place_split v sig k : 0 < sig < 2 ^ (mant f + 1) -> 0 <= k ->
  (0 < k -> 2 ^ mant f <= sig) -> umag f (mag f v) = sig * 2 ^ k ->
  last_place f (umag f (mag f v)) = k.
Proof using Hf.
  intros Hs Hk Hn ->. unfold last_place. rewrite Z.log2_mul_pow2 by lia.
  assert (Z.log2 sig <= mant f).
  { apply Z.lt_succ_r. apply Z.log2_lt_pow2; [lia|]. rewrite <- Z.add_1_r; lia. }
  destruct (decide (k = 0)) as [->|]; [lia|].
  assert (mant f <= Z.log2 sig) by (apply Z.log2_le_pow2; lia). lia.
Qed.

Lemma saturate_range shared q n : 0 <= n <= 2 ^ mant f ->
  0 <= saturate o f shared q n <= 2 ^ mant f.
Proof using Ho Hf.
  intros Hn. unfold saturate. pose proof (max_sig_range o Hb).
  pose proof (Z.pow_pos_nonneg 2 (clo_mx_mbits o) ltac:(lia) ltac:(lia)).
  destruct (q =? top o f shared); [|cbn; lia].
  destruct (Z.ltb_spec (mx_max_sig o) n); cbn; lia.
Qed.

Lemma saturate_zero shared q n : saturate o f shared q n = 0 <-> n = 0.
Proof using Ho Hf.
  unfold saturate. pose proof (max_sig_range o Hb).
  pose proof (Z.pow_pos_nonneg 2 (clo_mx_mbits o) ltac:(lia) ltac:(lia)).
  destruct (q =? top o f shared); [|cbn; lia].
  destruct (Z.ltb_spec (mx_max_sig o) n); cbn; lia.
Qed.

Lemma encode_zero : encode f 0 = 0.
Proof using Hf.
  unfold encode, ubits. rewrite (ok_emask f Hf). change (Z.log2 0) with 0.
  assert (2 ^ 2 <= 2 ^ (8 * esz f - 1 - mant f)) by (apply Z.pow_le_mono_r; lia).
  destruct (Z.leb_spec (2 ^ (8 * esz f - 1 - mant f) - 1 - 1 + mant f) 0); [lia|].
  destruct (Z.ltb_spec 0 (mant f)); lia.
Qed.

(** [mx_quantize] is the reference rounding of the magnitude. *)
Lemma quantize_spec v shared t : elem f v -> finite f v ->
  fst (mx_quantize o f v shared t) = sgn f v + encode f (qmag o f shared (umag f (mag f v))).
Proof using Ho Hf.
  intros Hv Hfin. unfold mx_quantize. rewrite andnot_sign, land_sign by done.
  destruct (Z.eqb_spec (mag f v) 0) as [E0|Hnz].
  { destruct (expo_mag_zero f Hf v E0) as [Ee Ef].
    assert (umag f (mag f v) = 0) as -> by (unfold umag; by rewrite Ee, Ef).
    assert (qmag o f shared 0 = 0) as ->.
    { unfold qmag. destruct (Z.leb_spec (quantum o f shared 0) (last_place f 0)) as [|H];
        [done|]. unfold last_place in H.
      assert (nearest 0 (quantum o f shared 0) = 0) as ->.
      { apply nearest_small; [|lia]. split; [lia|]. apply Z.pow_pos_nonneg; lia. }
      assert (saturate o f shared (quantum o f shared 0) 0 = 0) as -> by (by apply saturate_zero).
      lia. }
    rewrite encode_zero. cbn. unfold sgn. lia. }
  destruct (split_spec f Hf v Hv Hnz) as (sig & k & Es & Eu & Hsig & Ek & Hkn).
  rewrite Es. assert (0 <= k) as Hk by lia.
  pose proof (last_place_split v sig k Hsig Hk Hkn Eu) as El.
  unfold qmag. rewrite El.
  set (q := quantum o f shared (umag f (mag f v))).
  assert (Z.log2 (umag f (mag f v)) = Z.log2 sig + k) as Elog
    by (rewrite Eu; apply log2_sig; lia).
  set (lead := minlsb f + k + 63 - clzll sig).
  assert (lead = minlsb f + Z.log2 (umag f (mag f v))) as Elead
    by (unfold lead, clzll; lia).
  set (qe := (if clo_mx_emin o <=? lead - shared then lead else shared + clo_mx_emin o)
             - clo_mx_mbits o).
  assert (qe = minlsb f + q) as Eqe.
  { unfold qe, q, quantum. destruct (Z.leb_spec (clo_mx_emin o) (lead - shared)); lia. }
  assert (qe - (minlsb f + k) = q - k) as -> by lia.
  destruct (Z.leb_spec (q - k) 0) as [Hs|Hs], (Z.leb_spec q k) as [Hq|Hq]; try lia.
  { symmetry. by apply encode_finite. }
  rewrite (shift_nearest f) by (done || lia).
  assert (nearest (umag f (mag f v)) q = nearest sig (q - k)) as En.
  { rewrite Eu. replace q with (k + (q - k)) at 1 by lia. apply nearest_scale; lia. }
  rewrite En. set (n := nearest sig (q - k)).
  assert (0 <= n <= 2 ^ mant f) as Hn.
  { split; [apply nearest_nonneg; lia|]. destruct (decide (q - k <= mant f + 1)).
    - eapply Z.le_trans; [apply nearest_le with (b := mant f + 1); [apply Hsig|lia]|].
      apply Z.pow_le_mono_r; lia.
    - unfold n. rewrite nearest_small; [apply Z.pow_nonneg; lia| |lia]. split; [lia|].
      eapply Z.lt_le_trans; [apply Hsig|]. apply Z.pow_le_mono_r; lia. }
  destruct (Z.eqb_spec n 0) as [En0|Hn0].
  { rewrite En0. assert (saturate o f shared q 0 = 0) as -> by (by apply saturate_zero).
    rewrite Z.mul_0_l, encode_zero. cbn. lia. }
  assert ((qe =? shared + clo_mx_emax o - clo_mx_mbits o) = (q =? top o f shared)) as Et.
  { unfold top. destruct (Z.eqb_spec qe (shared + clo_mx_emax o - clo_mx_mbits o)),
      (Z.eqb_spec q (shared + clo_mx_emax o - clo_mx_mbits o - minlsb f)); lia || done. }
  rewrite Et.
  pose proof (saturate_range shared q n Hn) as Hr.
  assert (saturate o f shared q n <> 0) as Hr0 by (by rewrite saturate_zero).
  rewrite <- (assemble f Hf v (saturate o f shared q n) q Hv ltac:(lia) ltac:(lia)).
  rewrite <- Eqe. cbv zeta. unfold saturate.
  destruct ((q =? top o f shared) && (mx_max_sig o <? n));
    repeat (case_match; try done; try lia).
Qed.
End Quantize.

(** * The reference rounding of magnitudes: its results are representable,
    are the nearest multiples of the quantum, stay below the block's top
    binade and are fixed points of the rounding. *)

Lemma lt_pow2_log2 u n : 0 <= n -> 0 <= u -> u < 2 ^ (n + 1) <-> Z.log2 u <= n.
Proof.
  intros Hn Hu. destruct (decide (u = 0)) as [->|].
  { change (Z.log2 0) with 0. pose proof (Z.pow_pos_nonneg 2 (n + 1)). lia. }
  rewrite (Z.log2_lt_pow2 u (n + 1)) by lia. lia.
Qed.

Lemma last_place_nonneg f u : 0 <= last_place f u.
Proof. unfold last_place. lia. Qed.

Section Round.
Context (o : mx_opts) (Ho : opts_ok o) (f : FpFmt) (Hf : fmt_ok f) (shared : Z).
Let Hm := ok_mant f Hf.
Let Hx := ok_exp f Hf.
Let Hb := ok_mbits o Ho.
Local Abbreviation base := (shared + clo_mx_emin o - minlsb f).

Lemma qmag_zero : qmag o f shared 0 = 0.
Proof using Ho Hf.
  unfold qmag. destruct (Z.leb_spec (quantum o f shared 0) (last_place f 0)) as [|H]; [done|].
  pose proof (last_place_nonneg f 0).
  rewrite nearest_small; [|split; [lia|apply Z.pow_pos_nonneg; lia]|lia].
  rewrite (proj2 (saturate_zero o Ho f Hf shared _ 0)) by done. lia.
Qed.

(** The rounded multiple has at most one bit more than the element. *)
Lemma nearest_quantum u : 0 <= u -> 1 <= quantum o f shared u ->
  0 <= nearest u (quantum o f shared u) <= 2 ^ (clo_mx_mbits o + 1).
Proof using Ho Hf.
  intros Hu Hq. split; [by apply nearest_nonneg|].
  set (q := quantum o f shared u) in *.
  replace (clo_mx_mbits o + 1) with (q + clo_mx_mbits o + 1 - q) by lia.
  apply nearest_le; [|lia]. apply lt_pow2_log2; unfold q, quantum in *; lia.
Qed.

Lemma saturate_quantum u : 0 <= u -> 1 <= quantum o f shared u ->
  let q := quantum o f shared u in
  let n := saturate o f shared q (nearest u q) in
  0 <= n <= 2 ^ (clo_mx_mbits o + 1)
  /\ (q = top o f shared -> n <= mx_max_sig o)
  /\ (base <= Z.log2 u -> 0 < u -> 2 ^ clo_mx_mbits o <= n).
Proof using Ho Hf.
  intros Hu Hq q n. pose proof (nearest_quantum u Hu Hq) as Hn. fold q in Hn.
  pose proof (max_sig_range o Hb) as Hs.
  pose proof (Z.pow_pos_nonneg 2 (clo_mx_mbits o) ltac:(lia) ltac:(lia)).
  assert (base <= Z.log2 u -> 0 < u -> 2 ^ clo_mx_mbits o <= nearest u q) as Hge.
  { intros Hl Hu0. replace (clo_mx_mbits o) with (Z.log2 u - q)
      by (unfold q, quantum in *; lia).
    apply nearest_ge; [by apply Z.log2_spec|]. unfold q, quantum in *; lia. }
  unfold n, saturate. destruct (Z.eqb_spec q (top o f shared)) as [E|E]; cbn.
  - destruct (Z.ltb_spec (mx_max_sig o) (nearest u q)); repeat split; intros; auto; lia.
  - repeat split; intros; auto; lia.
Qed.

(** ** Representable *)

Lemma nearest_mant u q : 0 <= u -> last_place f u < q -> 0 <= nearest u q <= 2 ^ mant f.
Proof using Ho Hf.
  intros Hu Hq. pose proof (last_place_nonneg f u). split; [apply nearest_nonneg; lia|].
  set (b := mant f + last_place f u + 1).
  assert (u < 2 ^ b) as Hub by (apply lt_pow2_log2; unfold last_place; lia).
  destruct (decide (q <= b)).
  - etrans; [apply (nearest_le u q b); [done|lia]|]. apply Z.pow_le_mono_r; lia.
  - rewrite nearest_small; [apply Z.pow_nonneg; lia| |lia]. split; [done|].
    eapply Z.lt_le_trans; [done|]. apply Z.pow_le_mono_r; lia.
Qed.

Lemma fits_scale n q : 0 <= n <= 2 ^ mant f -> 0 <= q -> fits f (n * 2 ^ q).
Proof using Ho Hf.
  intros Hn Hq. split; [apply Z.mul_nonneg_nonneg; [lia|apply Z.pow_nonneg; lia]|].
  intros Hl. destruct (decide (n = 0)) as [->|]; [change (mant f < 0) in Hl; lia|].
  rewrite log2_sig in * by lia.
  assert (Z.log2 n <= mant f).
  { rewrite <- (Z.log2_pow2 (mant f)) by lia. apply Z.log2_le_mono. lia. }
  apply Z.divide_mul_r. exists (2 ^ (mant f - Z.log2 n)).
  rewrite <- Z.pow_add_r by lia. f_equal. lia.
Qed.

Lemma qmag_fits u : fits f u -> fits f (qmag o f shared u).
Proof using Ho Hf.
  intros Hu. pose proof (last_place_nonneg f u). unfold qmag.
  destruct (Z.leb_spec (quantum o f shared u) (last_place f u)) as [|H']; [done|].
  apply fits_scale; [|lia]. apply saturate_range; [done..|]. apply nearest_mant; [apply Hu|done].
Qed.

(** ** Nearest *)

(** Unless the element saturates, the error is at most half a quantum. *)
Lemma qmag_error u : 0 <= u ->
  (forall n, quantum o f shared u = top o f shared -> n = nearest u (top o f shared) ->
     n <= mx_max_sig o) ->
  2 * Z.abs (qmag o f shared u - u) <= 2 ^ quantum o f shared u.
Proof using Ho Hf.
  intros Hu Hs. pose proof (last_place_nonneg f u). unfold qmag.
  set (q := quantum o f shared u) in *.
  destruct (Z.leb_spec q (last_place f u)) as [|H'].
  { rewrite Z.sub_diag. cbn. apply Z.pow_nonneg. lia. }
  assert (saturate o f shared q (nearest u q) = nearest u q) as ->.
  { unfold saturate. destruct (Z.eqb_spec q (top o f shared)) as [E|]; [|done].
    destruct (Z.ltb_spec (mx_max_sig o) (nearest u q)) as [H1|]; [|done].
    rewrite E in H1. specialize (Hs _ E eq_refl). lia. }
  pose proof (nearest_spec u q ltac:(lia)).
  assert (2 ^ q = 2 * 2 ^ (q - 1)) as E by (rewrite <- Z.pow_succ_r by lia; f_equal; lia). lia.
Qed.

(** ** Fixed points *)

(** A rounded magnitude is a multiple of its own quantum that does not
    saturate. *)
Lemma qmag_form u : 0 <= u -> last_place f u < quantum o f shared u ->
  let w := qmag o f shared u in
  w = 0 \/ exists n, w = n * 2 ^ quantum o f shared w /\ 1 <= quantum o f shared w
                     /\ saturate o f shared (quantum o f shared w) n = n.
Proof using Ho Hf.
  intros Hu Hq w. pose proof (last_place_nonneg f u) as Hl.
  pose proof (saturate_quantum u Hu ltac:(lia)) as (Hn & Htop & Hge).
  assert (w = saturate o f shared (quantum o f shared u)
                (nearest u (quantum o f shared u)) * 2 ^ quantum o f shared u) as Ew.
  { unfold w, qmag. by destruct (Z.leb_spec (quantum o f shared u) (last_place f u)); [lia|]. }
  clearbody w. set (q := quantum o f shared u) in *.
  set (n := saturate o f shared q (nearest u q)) in *.
  destruct (decide (n = 0)) as [E0|Hn0]; [left; rewrite Ew, E0; lia|]. right.
  pose proof (max_sig_range o Hb) as Hs.
  pose proof (Z.pow_pos_nonneg 2 (clo_mx_mbits o) ltac:(lia) ltac:(lia)) as Hp.
  assert (u <> 0) as Hu0.
  { intros ->. apply Hn0. unfold n. apply saturate_zero; [done..|].
    apply nearest_small; [|lia]. split; [lia|]. apply Z.pow_pos_nonneg; lia. }
  assert (Z.log2 w = Z.log2 n + q) as Elog by (rewrite Ew; apply log2_sig; lia).
  assert (Z.log2 n <= clo_mx_mbits o + 1) as Hlog.
  { rewrite <- (Z.log2_pow2 (clo_mx_mbits o + 1)) by lia. apply Z.log2_le_mono. lia. }
  assert (base <= Z.log2 u -> clo_mx_mbits o <= Z.log2 n) as Hlow.
  { intros Hbase. apply Z.log2_le_pow2; [lia|]. apply Hge; [done|lia]. }
  assert (q = Z.max (Z.log2 u) base - clo_mx_mbits o) as Eq by done.
  assert (quantum o f shared w = Z.max (Z.log2 n + q) base - clo_mx_mbits o) as Eq'.
  { unfold quantum. by rewrite Elog. }
  assert (quantum o f shared w = q \/ quantum o f shared w = q + 1 /\ Z.log2 n = clo_mx_mbits o + 1)
    as [-> | [-> E1]] by lia.
  - exists n. repeat split; [done|lia|]. unfold saturate.
    destruct (Z.eqb_spec q (top o f shared)) as [E|]; [|done].
    destruct (Z.ltb_spec (mx_max_sig o) n); [|done]. specialize (Htop E). lia.
  - exists (2 ^ clo_mx_mbits o).
    assert (n = 2 ^ clo_mx_mbits o * 2) as En.
    { pose proof (proj1 (Z.log2_spec n ltac:(lia))) as H. rewrite E1 in H.
      rewrite Z.pow_add_r, Z.pow_1_r in * by lia. lia. }
    repeat split; [rewrite Ew, En, Z.pow_add_r by lia; lia|lia|]. unfold saturate.
    destruct (q + 1 =? top o f shared); [|done].
    by destruct (Z.ltb_spec (mx_max_sig o) (2 ^ clo_mx_mbits o)); [lia|].
Qed.

Lemma qmag_idem u : 0 <= u -> qmag o f shared (qmag o f shared u) = qmag o f shared u.
Proof using Ho Hf.
  intros Hu. destruct (Z.leb_spec (quantum o f shared u) (last_place f u)) as [H|H].
  { assert (qmag o f shared u = u) as E.
    { unfold qmag. by destruct (Z.leb_spec (quantum o f shared u) (last_place f u)); [|lia]. }
    by rewrite !E. }
  destruct (qmag_form u Hu H) as [->|(n & E & Hq & Hs)]; [apply qmag_zero|].
  set (w := qmag o f shared u) in *. unfold qmag.
  destruct (Z.leb_spec (quantum o f shared w) (last_place f w)); [done|].
  rewrite E at 2. rewrite nearest_exact by done. by rewrite Hs.
Qed.

(** ** Below the top binade *)

Lemma qmag_below u : 0 <= u -> 0 <= Z.log2 u <= top o f shared + clo_mx_mbits o ->
  Z.log2 (qmag o f shared u) <= top o f shared + clo_mx_mbits o.
Proof using Ho Hf.
  intros Hu Hl. pose proof (last_place_nonneg f u). unfold qmag.
  destruct (Z.leb_spec (quantum o f shared u) (last_place f u)) as [|H']; [lia|].
  pose proof (saturate_quantum u Hu ltac:(lia)) as (Hn & Htop & _).
  pose proof (max_sig_range o Hb) as Hs. pose proof (ok_emax o Ho). pose proof (ok_emin o Ho).
  set (q := quantum o f shared u) in *.
  set (n := saturate o f shared q (nearest u q)) in *.
  assert (q <= top o f shared) as Hq by (unfold q, quantum, top in *; lia).
  assert (0 < 2 ^ q) by (apply Z.pow_pos_nonneg; lia).
  apply lt_pow2_log2; [lia|apply Z.mul_nonneg_nonneg; lia|].
  destruct (decide (q = top o f shared)) as [E|].
  - replace (top o f shared + clo_mx_mbits o + 1) with (clo_mx_mbits o + 1 + q) by lia.
    rewrite Z.pow_add_r by lia. apply Z.mul_lt_mono_pos_r; [done|]. specialize (Htop E). lia.
  - apply Z.le_lt_trans with (2 ^ (clo_mx_mbits o + 1 + q)).
    + rewrite Z.pow_add_r by lia. apply Z.mul_le_mono_nonneg_r; lia.
    + apply Z.pow_lt_mono_r; lia.
Qed.

(** The element with the greatest exponent keeps it. *)
Lemma qmag_top u : 0 < u -> Z.log2 u = top o f shared + clo_mx_mbits o ->
  0 < qmag o f shared u /\ Z.log2 (qmag o f shared u) = Z.log2 u.
Proof using Ho Hf.
  intros Hu Hl. pose proof (Z.log2_nonneg u).
  cut (0 < qmag o f shared u /\ Z.log2 u <= Z.log2 (qmag o f shared u)).
  { intros [? ?]. split; [done|]. apply Z.le_antisymm; [|done]. rewrite Hl. apply qmag_below; lia. }
  pose proof (last_place_nonneg f u). unfold qmag.
  destruct (Z.leb_spec (quantum o f shared u) (last_place f u)) as [|H']; [lia|].
  pose proof (saturate_quantum u ltac:(lia) ltac:(lia)) as (Hn & _ & Hge).
  pose proof (ok_emax o Ho). pose proof (ok_emin o Ho).
  pose proof (Z.pow_pos_nonneg 2 (clo_mx_mbits o) ltac:(lia) ltac:(lia)).
  specialize (Hge ltac:(unfold top in *; lia) Hu).
  split; [apply Z.mul_pos_pos; [lia|apply Z.pow_pos_nonneg; lia]|]. rewrite log2_sig by lia.
  assert (clo_mx_mbits o <= Z.log2 (saturate o f shared (quantum o f shared u)
            (nearest u (quantum o f shared u)))) by (apply Z.log2_le_pow2; lia).
  unfold top in *. unfold quantum at 3. lia.
Qed.
End Round.
