(* ===== verification/MxBlock.v ===== *)
(** Elements in guest memory, the two loops of [mx_encode_block] as functions
    on the list of a block's elements, and the re-encoding of a block. *)
From stdpp Require Import base list sets.
From Stdlib Require Import ZArith Lia.
From S2P Require Import Prelude Mem BlockTrack Mx MxFloat MxQuant.
Open Scope Z_scope.

(** ** Elements *)

(** The two formats of the code *)
Definition known (f : FpFmt) : Prop := f = FMT64 \/ f = FMT32.

Lemma known_ok f : known f -> fmt_ok f.
Proof. intros [-> | ->]; [apply FMT64_ok|apply FMT32_ok]. Qed.

Lemma known_format o : known (mx_format o).
Proof. unfold mx_format. destruct (clo_mx_esz o =? 4); [by right|by left]. Qed.

Lemma known_esz f : known f -> esz f = 8 \/ esz f = 4.
Proof. intros [-> | ->]; [by left|by right]. Qed.

Section Elems.
Context (f : FpFmt) (Hf : known f).

Lemma mx_load_elem m a : bytes_ok m -> elem f (mx_load f m a).
Proof using Hf.
  intros Hm. unfold elem, mx_load. destruct Hf as [-> | ->]; by apply load_le_range.
Qed.

Lemma mx_load_ext m m' a : (forall x, a <= x < a + esz f -> m x = m' x) ->
  mx_load f m a = mx_load f m' a.
Proof using Hf.
  intros H. unfold mx_load. destruct Hf as [-> | ->]; apply load_le_ext; intros; by apply H.
Qed.

Lemma mx_store_ok m a v : bytes_ok m -> bytes_ok (mx_store f m a v).
Proof using Hf.
  intros Hm. unfold mx_store. destruct Hf as [-> | ->]; by apply store_le_ok.
Qed.

Lemma mx_store_outside m a v : same_outside a (esz f) m (mx_store f m a v).
Proof using Hf.
  unfold mx_store. destruct Hf as [-> | ->];
    [exact (store_le_outside 8 m a v)|exact (store_le_outside 4 m a (v mod 2 ^ 32))].
Qed.

Lemma mx_load_store m a v : bytes_ok m -> elem f v -> mx_load f (mx_store f m a v) a = v.
Proof using Hf.
  intros Hm Hv. unfold mx_load, mx_store, elem in *. destruct Hf as [-> | ->].
  - by apply load_store_same.
  - cbn [esz Z.eqb FMT32 Pos.eqb] in *.
    rewrite (Z.mod_small v) by (exact Hv). by apply load_store_same.
Qed.

(** The [n] elements from address [a] *)
Fixpoint elems (n : nat) (m : gmem) (a : Z) : list Z :=
  match n with
  | O => []
  | S n => mx_load f m a :: elems n m (a + esz f)
  end.

Lemma elems_length n m a : length (elems n m a) = n.
Proof. revert a. induction n; intros; cbn; auto. Qed.

Lemma elems_ok n m a : bytes_ok m -> Forall (elem f) (elems n m a).
Proof using Hf.
  intros Hm. revert a. induction n; intros a; cbn; constructor; auto using mx_load_elem.
Qed.

Lemma elems_ext n m m' a : (forall x, a <= x < a + Z.of_nat n * esz f -> m x = m' x) ->
  elems n m a = elems n m' a.
Proof using Hf.
  pose proof (known_esz f Hf). revert a. induction n as [|n IH]; intros a H'; cbn; [done|].
  f_equal; [apply mx_load_ext|apply IH]; intros; apply H'; nia.
Qed.

(** ** The loops of [mx_encode_block] *)

Lemma scan_loop_elems n m base : forall i c, 0 <= base -> 0 <= i ->
  base + (i + Z.of_nat n) * esz f <= 2 ^ 64 ->
  scan_loop n f m base i c = foldl (fun c v => scan_elem f v c) c (elems n m (base + i * esz f)).
Proof using Hf.
  pose proof (known_esz f Hf). induction n as [|n IH]; intros i c Hb Hi Hn; cbn; [done|].
  rewrite u64_small by nia. rewrite IH by nia. do 2 f_equal. lia.
Qed.

(** The rewriting loop maps the new value over the elements, and writes
    nothing else. *)
Section Rewrite.
Context (P : Z -> Prop) (enc : Z -> mx_stats -> Z * mx_stats) (g : Z -> Z) (base : Z).
Context (Henc : forall v t, P v -> fst (enc v t) = g v).

Lemma rewrite_loop_elems n : (forall v, P v -> elem f (g v)) ->
  forall i m t, 0 <= base -> 0 <= i -> base + (i + Z.of_nat n) * esz f <= 2 ^ 64 ->
  bytes_ok m ->
  let m' := fst (rewrite_loop n f enc base i m t) in
  let a := base + i * esz f in
  Forall P (elems n m a) ->
  elems n m' a = map g (elems n m a) /\ same_outside a (Z.of_nat n * esz f) m m'
  /\ bytes_ok m'.
Proof using Hf Henc.
  intros Hg. pose proof (known_esz f Hf) as He.
  induction n as [|n IH]; intros i m t Hb Hi Hn Hm m' a HP; [done|].
  subst m'. cbn [rewrite_loop elems map] in *. rewrite u64_small by nia. fold a.
  apply Forall_cons in HP as [HPv HP].
  set (v := mx_load f m a) in *.
  destruct (enc v t) as [q t'] eqn:Eq.
  assert (q = g v) as -> by (by rewrite <- (Henc v t), Eq).
  set (m1 := if g v =? v then m else mx_store f m a (g v)).
  set (t1 := if g v =? v then t' else inc_changed t').
  assert ((if g v =? v then (m, t') else (mx_store f m a (g v), inc_changed t')) = (m1, t1)) as ->
    by (unfold m1, t1; by destruct (g v =? v)).
  assert (bytes_ok m1) as Hm1 by (unfold m1; destruct (g v =? v); auto using mx_store_ok).
  assert (same_outside a (esz f) m m1) as Ho.
  { unfold m1. destruct (g v =? v); [done|]. apply mx_store_outside. }
  assert (mx_load f m1 a = g v) as El.
  { unfold m1. destruct (Z.eqb_spec (g v) v) as [E|]; [by rewrite E|].
    apply mx_load_store; auto. }
  assert (elems n m1 (a + esz f) = elems n m (a + esz f)) as Erest
    by (apply elems_ext; intros x Hx; apply Ho; nia).
  specialize (IH (i + 1) m1 t1 Hb ltac:(lia) ltac:(nia) Hm1).
  replace (base + (i + 1) * esz f) with (a + esz f) in * by (unfold a; nia).
  cbv zeta in IH. rewrite Erest in IH. destruct (IH HP) as (E1 & E2 & E3).
  set (m2 := fst (rewrite_loop n f enc base (i + 1) m1 t1)) in *.
  split; [|split; [|done]].
  - f_equal; [|done]. rewrite <- El. apply mx_load_ext. intros x Hx. apply E2. lia.
  - intros x Hx. rewrite E2 by nia. apply Ho. nia.
Qed.

(** A loop whose values are the elements' own changes nothing. *)
Lemma rewrite_loop_id n :
  forall i m t, 0 <= base -> 0 <= i -> base + (i + Z.of_nat n) * esz f <= 2 ^ 64 ->
  Forall P (elems n m (base + i * esz f)) ->
  map g (elems n m (base + i * esz f)) = elems n m (base + i * esz f) ->
  fst (rewrite_loop n f enc base i m t) = m.
Proof using Hf Henc.
  pose proof (known_esz f Hf).
  induction n as [|n IH]; intros i m t Hb Hi Hn HP E; [done|].
  cbn [rewrite_loop elems map] in *. rewrite u64_small by nia. injection E as E1 E2.
  apply Forall_cons in HP as [HPv HP].
  destruct (enc (mx_load f m (base + i * esz f)) t) as [q t'] eqn:Eq.
  assert (q = mx_load f m (base + i * esz f)) as ->
    by (by rewrite <- E1, <- (Henc _ t), Eq).
  rewrite Z.eqb_refl.
  apply IH; [done|lia|nia|..];
    by replace (base + (i + 1) * esz f) with (base + i * esz f + esz f) by lia.
Qed.
End Rewrite.
End Elems.

(** * The re-encoding of a block: [mx_encode_block] replaces the block's
    elements by the reference encoding of the list of elements and touches
    nothing else; the reference encoding is idempotent. *)

(** ** Reference encoding of a list of elements *)

(** An infinity or a NaN; a finite nonzero element *)
Definition special (f : FpFmt) (v : Z) : bool := expo f (mag f v) =? emask f.
Definition live (f : FpFmt) (v : Z) : bool := negb (mag f v =? 0) && negb (special f v).

(** The binary exponent of an element *)
Definition lead (f : FpFmt) (v : Z) : Z := minlsb f + Z.log2 (umag f (mag f v)).

(** The greatest exponent of the finite nonzero elements *)
Definition block_lead (f : FpFmt) (vs : list Z) : option Z :=
  match filter (fun v => Is_true (live f v)) vs with
  | [] => None
  | v :: vs => Some (foldr (fun w l => Z.max (lead f w) l) (lead f v) vs)
  end.

(** The greatest scale exponent *)
Definition scale_max (o : mx_opts) : Z := 2 ^ (clo_mx_scale_bits o - 1) - 1.

Definition quantize (o : mx_opts) (f : FpFmt) (shared v : Z) : Z :=
  sgn f v + encode f (qmag o f shared (umag f (mag f v))).

Definition encode_elems (o : mx_opts) (f : FpFmt) (vs : list Z) : list Z :=
  if existsb (special f) vs then map (fun _ => mx_nan_element f) vs else
  match block_lead f vs with
  | None => vs
  | Some l =>
      if scale_max o <? l - clo_mx_emax o then map (fun _ => mx_nan_element f) vs
      else map (quantize o f (Z.max (l - clo_mx_emax o) (- scale_max o))) vs
  end.

(** ** The greatest exponent *)

Lemma foldr_max_spec {A} (g : A -> Z) a (vs : list A) :
  let l := foldr (fun w l => Z.max (g w) l) (g a) vs in
  (exists v, v ∈ a :: vs /\ g v = l) /\ (forall v, v ∈ a :: vs -> g v <= l).
Proof.
  induction vs as [|w vs [(v & Hv & E) Hle]]; cbn.
  { split; [exists a; split; [by left|done]|]. intros v Hv%list_elem_of_singleton. by subst. }
  split.
  - destruct (Z.le_ge_cases (g w) (g v)).
    + exists v. split; [set_solver|]. lia.
    + exists w. split; [set_solver|]. lia.
  - intros v' Hv'. assert (v' = w \/ v' ∈ a :: vs) as [-> | H] by set_solver; [lia|].
    specialize (Hle _ H). lia.
Qed.

Definition max_lead (f : FpFmt) (vs : list Z) (l : Z) : Prop :=
  (exists v, v ∈ vs /\ live f v = true /\ lead f v = l) /\
  (forall v, v ∈ vs -> live f v = true -> lead f v <= l).

Lemma max_lead_unique f vs l l' : max_lead f vs l -> max_lead f vs l' -> l = l'.
Proof.
  intros [(v & Hv & Lv & <-) H1] [(w & Hw & Lw & <-) H2]. apply Z.le_antisymm; auto.
Qed.

Lemma block_lead_spec f vs :
  match block_lead f vs with
  | Some l => max_lead f vs l
  | None => forall v, v ∈ vs -> live f v = false
  end.
Proof.
  unfold block_lead.
  pose proof (fun v => list_elem_of_filter (fun v => Is_true (live f v)) vs v) as Hin.
  destruct (filter _ vs) as [|a ws].
  - intros v Hv. destruct (live f v) eqn:E; [|done]. exfalso.
    assert (v ∈ []) as H by (apply Hin; split; [by rewrite E|done]).
    by apply not_elem_of_nil in H.
  - destruct (foldr_max_spec (lead f) a ws) as [(v & Hv & E) Hle]. split.
    + exists v. apply Hin in Hv as [Hl Hv]. by apply Is_true_true in Hl.
    + intros w Hw Hl. apply Hle, Hin. split; [by rewrite Hl|done].
Qed.

Lemma block_lead_max f vs l : max_lead f vs l -> block_lead f vs = Some l.
Proof.
  intros H. pose proof (block_lead_spec f vs) as Hs. destruct (block_lead f vs) as [l'|].
  - f_equal. by eapply max_lead_unique.
  - destruct H as [(v & Hv & Hl & _) _]. by rewrite Hs in Hl.
Qed.

(** ** The scan *)

Definition scanned (f : FpFmt) (vs : list Z) (c : scan) : Prop :=
  nonfinite c = existsb (special f) vs /\
  if any c then max_lead f vs (lmax c) else forall v, v ∈ vs -> live f v = false.

Section Block.
Context (f : FpFmt) (Hf : known f).
Let Hok : fmt_ok f := known_ok f Hf.

Lemma special_test v : elem f v ->
  (Z.land (Z.shiftr v (mant f)) (emask f) =? emask f) = special f v.
Proof using Hf. intros Hv. by rewrite (expo_field f Hok). Qed.

Lemma special_zero v : mag f v = 0 -> special f v = false.
Proof using Hf.
  intros E. unfold special. rewrite E. unfold expo. rewrite Zdiv_0_l.
  by destruct Hf as [-> | ->].
Qed.

Lemma live_finite v : elem f v -> special f v = false -> finite f v.
Proof using Hf.
  intros Hv Hs. unfold special in Hs. apply Z.eqb_neq in Hs. unfold finite.
  pose proof (expo_range f Hok v). lia.
Qed.

Lemma scanned_step vs c v : elem f v -> scanned f vs c -> scanned f (vs ++ [v]) (scan_elem f v c).
Proof using Hf.
  intros Hv [Hn Hl]. unfold scan_elem. rewrite (andnot_sign_bit f Hok), special_test by done.
  unfold scanned. rewrite existsb_app. cbn [existsb]. rewrite orb_false_r.
  assert (live f v = false -> if any c then max_lead f (vs ++ [v]) (lmax c)
          else forall w, w ∈ vs ++ [v] -> live f w = false) as Hskip.
  { intros E. destruct (any c).
    - destruct Hl as [(w & Hw & ?) Hle]. split; [exists w; set_solver|].
      intros w' [Hw'|Hw'%list_elem_of_singleton]%elem_of_app Hlv; [auto|congruence].
    - intros w' [Hw'|Hw'%list_elem_of_singleton]%elem_of_app; [auto|congruence]. }
  destruct (Z.eqb_spec (mag f v) 0) as [E0|E0].
  { rewrite special_zero, orb_false_r by done. split; [done|]. apply Hskip.
    unfold live. by rewrite E0. }
  destruct (special f v) eqn:Es; cbn [nonfinite any lmax].
  { split; [by rewrite orb_true_r|]. apply Hskip. unfold live. by rewrite Es, andb_false_r. }
  rewrite orb_false_r. split; [done|]. rewrite (lead_spec f Hok) by done. fold (lead f v).
  assert (live f v = true) as Elv.
  { unfold live. rewrite Es. apply Z.eqb_neq in E0. by rewrite E0. }
  destruct (any c); cbn [negb orb].
  - destruct Hl as [(w & Hw & ? & Ew) Hle].
    destruct (Z.ltb_spec (lmax c) (lead f v)) as [Hlt|Hge]; split.
    + exists v. set_solver.
    + intros w' [Hw'|Hw'%list_elem_of_singleton]%elem_of_app Hlv; [|by subst].
      specialize (Hle _ Hw' Hlv). lia.
    + exists w. set_solver.
    + intros w' [Hw'|Hw'%list_elem_of_singleton]%elem_of_app Hlv; [auto|by subst].
  - split; [exists v; set_solver|].
    intros w' [Hw'|Hw'%list_elem_of_singleton]%elem_of_app Hlv; [|by subst].
    by rewrite Hl in Hlv.
Qed.

Lemma scanned_foldl ws : forall vs c, Forall (elem f) ws -> scanned f vs c ->
  scanned f (vs ++ ws) (foldl (fun c v => scan_elem f v c) c ws).
Proof using Hf.
  induction ws as [|w ws IH]; intros vs c Hws Hc; cbn; [by rewrite app_nil_r|].
  inversion Hws; subst. rewrite cons_middle, app_assoc. apply IH; [done|].
  by apply scanned_step.
Qed.

Lemma nan_elem : elem f (mx_nan_element f) /\ special f (mx_nan_element f) = true.
Proof using Hf. destruct Hf as [-> | ->]; by vm_compute. Qed.

Lemma encode_range u : fits f u -> 0 <= encode f u <= emask f * 2 ^ mant f /\
  (Z.log2 u < emask f - 1 + mant f -> encode f u = ubits f u /\ encode f u < emask f * 2 ^ mant f).
Proof using Hf.
  intros Hu. pose proof (ok_mant f Hok). unfold encode.
  pose proof (Z.pow_pos_nonneg 2 (mant f) ltac:(lia) ltac:(lia)).
  assert (0 <= emask f) by (destruct Hf as [-> | ->]; done).
  destruct (Z.leb_spec (emask f - 1 + mant f) (Z.log2 u)) as [|Hl].
  { split; [|lia]. split; [apply Z.mul_nonneg_nonneg; lia|lia]. }
  cut (0 <= ubits f u < emask f * 2 ^ mant f); [lia|].
  pose proof (umag_ubits f Hok u Hu) as E. destruct Hu as [Hu0 _]. unfold ubits in *.
  destruct (Z.ltb_spec (Z.log2 u) (mant f)) as [Hs|Hs].
  - split; [done|]. apply Z.lt_le_trans with (2 ^ mant f).
    + destruct (decide (u = 0)) as [->|]; [lia|]. apply Z.log2_lt_pow2; lia.
    + assert (1 <= emask f) by (destruct Hf as [-> | ->]; done). nia.
  - assert (0 < u) as Hpos by (destruct (decide (u = 0)) as [->|]; [cbn in Hs; lia|lia]).
    destruct (Z.log2_spec u Hpos) as [L1 L2].
    assert (2 ^ mant f <= u / 2 ^ (Z.log2 u - mant f) < 2 ^ mant f + 2 ^ mant f) as Hg.
    { assert (2 ^ Z.log2 u = 2 ^ mant f * 2 ^ (Z.log2 u - mant f)) as P.
      { rewrite <- Z.pow_add_r by lia. f_equal. lia. }
      pose proof (Z.pow_pos_nonneg 2 (Z.log2 u - mant f) ltac:(lia) ltac:(lia)).
      rewrite Z.pow_succ_r in L2 by lia.
      split; [apply Z.div_le_lower_bound; lia|apply Z.div_lt_upper_bound; lia]. }
    nia.
Qed.

(** ** One rounded element *)

Context (o : mx_opts) (Ho : opts_ok o).

Lemma mag_fits v : fits f (umag f (mag f v)).
Proof using Hf. apply (umag_fits f Hok). by apply (mag_range f Hok). Qed.

Lemma quantize_fields s v : elem f v ->
  elem f (quantize o f s v)
  /\ mag f (quantize o f s v) = encode f (qmag o f s (umag f (mag f v)))
  /\ sgn f (quantize o f s v) = sgn f v.
Proof using Hf Ho.
  intros Hv. unfold quantize. set (w := qmag o f s (umag f (mag f v))).
  assert (fits f w) as Hw by (apply qmag_fits; [done..|]; apply mag_fits).
  destruct (encode_range w Hw) as [He _].
  assert (emask f * 2 ^ mant f < 2 ^ (8 * esz f - 1)) as Hlt.
  { destruct Hf as [-> | ->]; by vm_compute. }
  assert (2 ^ (8 * esz f) = 2 * 2 ^ (8 * esz f - 1)) as E2.
  { rewrite <- Z.pow_succ_r by (destruct Hf as [-> | ->]; done). f_equal. lia. }
  assert (mag f (sgn f v + encode f w) = encode f w) as Em.
  { unfold mag. destruct (sgn_cases f Hok v Hv) as [-> | ->].
    - by rewrite Z.add_0_l, Z.mod_small by lia.
    - rewrite Z.add_comm, <- (Z.mul_1_l (2 ^ (8 * esz f - 1))) at 1.
      by rewrite Z.mod_add, Z.mod_small by lia. }
  unfold elem. split; [|split; [done|]].
  - destruct (sgn_cases f Hok v Hv) as [-> | ->]; lia.
  - unfold sgn at 1. rewrite Em. lia.
Qed.

Lemma quantize_small s v : elem f v ->
  let w := qmag o f s (umag f (mag f v)) in
  Z.log2 w < emask f - 1 + mant f ->
  special f (quantize o f s v) = false /\ umag f (mag f (quantize o f s v)) = w.
Proof using Hf Ho.
  intros Hv w Hs. destruct (quantize_fields s v Hv) as (_ & Em & _). rewrite Em. fold w.
  assert (fits f w) as Hw by (apply qmag_fits; [done..|]; apply mag_fits).
  destruct (encode_range w Hw) as [He He']. destruct (He' Hs) as [E Hlt]. split.
  - unfold special. rewrite Em. fold w. apply Z.eqb_neq. unfold expo.
    pose proof (Z.pow_pos_nonneg 2 (mant f) ltac:(lia)
      ltac:(destruct Hf as [-> | ->]; done)).
    assert (encode f w / 2 ^ mant f < emask f); [|lia].
    apply Z.div_lt_upper_bound; lia.
  - rewrite E. by apply (umag_ubits f Hok).
Qed.

Lemma quantize_idem s v : elem f v ->
  Z.log2 (qmag o f s (umag f (mag f v))) < emask f - 1 + mant f ->
  quantize o f s (quantize o f s v) = quantize o f s v.
Proof using Hf Ho.
  intros Hv Hs. destruct (quantize_fields s v Hv) as (_ & _ & Es).
  destruct (quantize_small s v Hv Hs) as [_ Eu].
  unfold quantize at 1. rewrite Es, Eu. rewrite qmag_idem; [done|done|done|].
  apply mag_fits.
Qed.

(** ** The reference encoding is idempotent *)

(** The scale of a block that is not NaN, and the exponent of its top
    binade in units of the smallest value *)
Let scale (l : Z) := Z.max (l - clo_mx_emax o) (- scale_max o).

(** A clamped scale stays inside the format's exponent range. *)
Definition clamp_ok : Prop := clo_mx_emax o - scale_max o <= emask f - 1 - bias f.

Lemma scale_max_nonneg : 0 <= scale_max o.
Proof using Hf Ho.
  unfold scale_max. pose proof (ok_scale o Ho).
  pose proof (Z.pow_pos_nonneg 2 (clo_mx_scale_bits o - 1)). lia.
Qed.

Lemma live_umag v : live f v = true -> 0 < umag f (mag f v).
Proof using Hf.
  intros [Hn _]%andb_prop. apply negb_true_iff, Z.eqb_neq in Hn.
  apply (umag_pos f Hok). pose proof (mag_range f Hok v). lia.
Qed.

Lemma dead_umag v : special f v = false -> live f v = false -> umag f (mag f v) = 0.
Proof using Hf.
  unfold live. intros -> Hd. rewrite andb_true_r in Hd.
  apply negb_false_iff, Z.eqb_eq in Hd. destruct (expo_mag_zero f Hok v Hd) as [E1 E2].
  unfold umag. by rewrite E1, E2.
Qed.

Lemma finite_lead v : elem f v -> special f v = false ->
  Z.log2 (umag f (mag f v)) < emask f - 1 + mant f.
Proof using Hf.
  intros Hv Hs. pose proof (live_finite v Hv Hs) as Hfin.
  pose proof (ok_mant f Hok). assert (3 <= emask f) by (destruct Hf as [-> | ->]; done).
  pose proof (encode_finite f Hok v Hv Hfin) as E. unfold sgn in E.
  assert (encode f (umag f (mag f v)) = mag f v) as E' by lia. unfold encode in E'.
  destruct (Z.leb_spec (emask f - 1 + mant f) (Z.log2 (umag f (mag f v)))); [|done].
  exfalso. unfold finite, expo in Hfin. rewrite <- E', Z.div_mul in Hfin; [lia|].
  apply Z.pow_nonzero; lia.
Qed.

Section Scaled.
Context (vs : list Z) (l : Z) (Hvs : Forall (elem f) vs).
Context (Hs : existsb (special f) vs = false) (Hl : max_lead f vs l).
Context (Hclamp : clamp_ok).

Lemma none_special v : v ∈ vs -> special f v = false.
Proof using Hs.
  intros Hv. apply not_true_is_false. intros E. rewrite <- not_true_iff_false in Hs.
  apply Hs, existsb_exists. exists v. by rewrite <- list_elem_of_In.
Qed.

Lemma vs_elem v : v ∈ vs -> elem f v.
Proof using Hvs. intros Hv. rewrite Forall_forall in Hvs. auto. Qed.

Lemma top_binade : top o f (scale l) + clo_mx_mbits o = scale l + clo_mx_emax o - minlsb f.
Proof using Type. unfold top. lia. Qed.

(** Every magnitude is below the top binade, before and after. *)
Lemma vs_below v : v ∈ vs ->
  0 <= Z.log2 (umag f (mag f v)) <= top o f (scale l) + clo_mx_mbits o.
Proof using Hf Ho Hl Hs.
  intros Hv. split; [apply Z.log2_nonneg|]. rewrite top_binade. unfold scale.
  destruct Hl as [(w & Hw & Lw & Ew) Hle].
  assert (Z.log2 (umag f (mag f v)) <= Z.max 0 (l - minlsb f)).
  { destruct (live f v) eqn:E.
    - specialize (Hle _ Hv E). unfold lead in Hle. lia.
    - rewrite dead_umag by (done || by apply none_special). change (Z.log2 0) with 0. lia. }
  unfold lead in Ew. pose proof (Z.log2_nonneg (umag f (mag f w))). lia.
Qed.

Lemma quantize_below v : v ∈ vs ->
  Z.log2 (qmag o f (scale l) (umag f (mag f v))) <= top o f (scale l) + clo_mx_mbits o.
Proof using Hf Ho Hl Hs.
  intros Hv. apply qmag_below; [done|done|apply mag_fits|by apply vs_below].
Qed.

Lemma binade_finite : top o f (scale l) + clo_mx_mbits o < emask f - 1 + mant f.
Proof using Hf Ho Hvs Hs Hl Hclamp.
  rewrite top_binade. destruct Hl as [(w & Hw & Lw & Ew) _].
  pose proof (finite_lead w (vs_elem w Hw) (none_special w Hw)).
  unfold clamp_ok in Hclamp. unfold scale, lead, minlsb in *. lia.
Qed.

Lemma quantize_vs v : v ∈ vs ->
  let q := quantize o f (scale l) v in
  elem f q /\ special f q = false
  /\ umag f (mag f q) = qmag o f (scale l) (umag f (mag f v))
  /\ quantize o f (scale l) q = q.
Proof using Hf Ho Hvs Hs Hl Hclamp.
  intros Hv q. pose proof (vs_elem v Hv) as He.
  pose proof (quantize_below v Hv). pose proof binade_finite.
  destruct (quantize_small (scale l) v He) as [? ?]; [lia|].
  destruct (quantize_fields (scale l) v He) as [? _].
  do 3 (split; [done|]). apply quantize_idem; [done|lia].
Qed.

Lemma quantized_lead_le v : v ∈ vs -> lead f (quantize o f (scale l) v) <= scale l + clo_mx_emax o.
Proof using Hf Ho Hvs Hs Hl Hclamp.
  intros Hv. destruct (quantize_vs v Hv) as (_ & _ & Eu & _).
  unfold lead. rewrite Eu. pose proof (quantize_below v Hv) as H.
  rewrite top_binade in H. lia.
Qed.

(** An unclamped scale is found again: the greatest element keeps its
    exponent. *)
Lemma quantized_max_lead : - scale_max o <= l - clo_mx_emax o ->
  max_lead f (map (quantize o f (scale l)) vs) l.
Proof using Hf Ho Hvs Hs Hl Hclamp.
  intros Hu. assert (scale l = l - clo_mx_emax o) as Esc by (unfold scale; lia).
  destruct Hl as [(w & Hw & Lw & Ew) _]. destruct (quantize_vs w Hw) as (Hq1 & Hq2 & Hq3 & _).
  destruct (qmag_top o Ho f Hok (scale l) (umag f (mag f w)) (live_umag w Lw)) as [Hp El].
  { rewrite top_binade, Esc. unfold lead in Ew. lia. }
  split.
  - exists (quantize o f (scale l) w). split; [|split].
    + apply list_elem_of_fmap. by exists w.
    + unfold live. rewrite Hq2. cbn. rewrite andb_true_r, negb_true_iff, Z.eqb_neq.
      intros E0. destruct (expo_mag_zero f Hok _ E0) as [E1 E2]. rewrite <- Hq3 in Hp.
      unfold umag in Hp. rewrite E1, E2 in Hp. cbn in Hp. lia.
    + unfold lead. rewrite Hq3, El. exact Ew.
  - intros v (v0 & -> & Hv0)%list_elem_of_fmap _.
    pose proof (quantized_lead_le v0 Hv0). rewrite Esc in *. lia.
Qed.

(** The encoded block is encoded as itself. *)
Lemma encode_scaled : scale l <= scale_max o ->
  encode_elems o f (map (quantize o f (scale l)) vs) = map (quantize o f (scale l)) vs.
Proof using Hf Ho Hvs Hs Hl Hclamp.
  intros Hmax. unfold encode_elems.
  destruct (existsb (special f) (map (quantize o f (scale l)) vs)) eqn:E.
  { exfalso. apply existsb_exists in E as (q & Hq & Hsp).
    rewrite <- list_elem_of_In in Hq. apply list_elem_of_fmap in Hq as (v & -> & Hv).
    destruct (quantize_vs v Hv) as (_ & E & _). congruence. }
  pose proof (block_lead_spec f (map (quantize o f (scale l)) vs)) as Hb.
  destruct (block_lead f (map (quantize o f (scale l)) vs)) as [l'|]; [|done].
  assert (l' <= scale l + clo_mx_emax o) as Hl'.
  { destruct Hb as [(q & (v & -> & Hv)%list_elem_of_fmap & _ & <-) _].
    by apply quantized_lead_le. }
  destruct (Z.ltb_spec (scale_max o) (l' - clo_mx_emax o)) as [|_]; [lia|].
  assert (Z.max (l' - clo_mx_emax o) (- scale_max o) = scale l) as ->.
  { destruct (decide (- scale_max o <= l - clo_mx_emax o)) as [Hu|Hu].
    - pose proof (max_lead_unique _ _ _ _ Hb (quantized_max_lead Hu)) as ->. done.
    - unfold scale in *. lia. }
  rewrite map_map. apply map_ext_in. intros v Hv. apply quantize_vs.
  by apply list_elem_of_In.
Qed.
End Scaled.

Lemma encode_nans (vs : list Z) :
  encode_elems o f (map (fun _ => mx_nan_element f) vs) = map (fun _ => mx_nan_element f) vs.
Proof using Hf.
  destruct vs as [|v vs]; [done|]. unfold encode_elems. cbn [map existsb].
  destruct nan_elem as [_ ->]. cbn. by rewrite map_map.
Qed.

Lemma encode_elems_idem vs : Forall (elem f) vs -> clamp_ok ->
  encode_elems o f (encode_elems o f vs) = encode_elems o f vs.
Proof using Hf Ho.
  intros Hvs Hc. destruct (existsb (special f) vs) eqn:Es.
  { unfold encode_elems at 2 3. rewrite Es. apply encode_nans. }
  pose proof (block_lead_spec f vs) as Hb. destruct (block_lead f vs) as [l|] eqn:El.
  2:{ assert (encode_elems o f vs = vs) as E by (unfold encode_elems; by rewrite Es, El).
      by rewrite !E. }
  destruct (Z.ltb_spec (scale_max o) (l - clo_mx_emax o)) as [Hm|Hm].
  { assert (encode_elems o f vs = map (fun _ => mx_nan_element f) vs) as ->; [|apply encode_nans].
    unfold encode_elems. rewrite Es, El. apply Z.ltb_lt in Hm. by rewrite Hm. }
  assert (encode_elems o f vs = map (quantize o f (scale l)) vs) as ->.
  { unfold encode_elems. rewrite Es, El. apply Z.ltb_ge in Hm. by rewrite Hm. }
  pose proof scale_max_nonneg. apply encode_scaled; [done..|]. unfold scale. lia.
Qed.
End Block.
