(* ===== verification/MxStore.v ===== *)
(** The memory effect of the MX emulation: the block operation and the
    callback after a store, on guest memory. *)
From stdpp Require Import base list sets.
From Stdlib Require Import ZArith Lia.
From S2P Require Import Prelude Mem BlockTrack Mx MxFloat MxQuant MxBlock.
Open Scope Z_scope.

(** The bytes of an MX block, and the number of blocks of a tracked block:
    a last, partial block counts when it holds at least one element. *)
Definition span (f : FpFmt) : Z := MX_BLOCK_ELEMS * esz f.
Definition nblocks (f : FpFmt) (bk : Block) : Z :=
  req_szB bk / span f + (if esz f <=? req_szB bk mod span f then 1 else 0).

(** A tracked block inside the address space *)
Definition block_ok (bk : Block) : Prop :=
  0 <= payload bk /\ 0 <= req_szB bk /\ payload bk + req_szB bk <= 2 ^ 64.

Section Store.
Context (o : mx_opts) (Ho : opts_ok o) (f : FpFmt) (Hf : known f).
Context (bk : Block) (Hbk : block_ok bk).
Let Hok : fmt_ok f := known_ok f Hf.

(** The [n]-element list and the address of block [bi] *)
Definition at_block (bi : Z) : Z := payload bk + bi * span f.
Definition count (bi : Z) : nat := Z.to_nat (Z.min 32 (req_szB bk / esz f - bi * 32)).
Definition block_of (m : gmem) (bi : Z) : list Z := elems f (count bi) m (at_block bi).

Lemma nblocks_bound bi : 0 <= bi -> bi < nblocks f bk <-> bi * span f + esz f <= req_szB bk.
Proof using Hf Hbk.
  intros Hbi. unfold nblocks, span, MX_BLOCK_ELEMS. destruct Hbk as (_ & Hr & _).
  destruct Hf as [-> | ->]; cbn [esz FMT64 FMT32].
  - pose proof (Z.div_mod (req_szB bk) (32 * 8) ltac:(lia)).
    pose proof (Z.mod_pos_bound (req_szB bk) (32 * 8) ltac:(lia)).
    destruct (Z.leb_spec 8 (req_szB bk mod (32 * 8))); lia.
  - pose proof (Z.div_mod (req_szB bk) (32 * 4) ltac:(lia)).
    pose proof (Z.mod_pos_bound (req_szB bk) (32 * 4) ltac:(lia)).
    destruct (Z.leb_spec 4 (req_szB bk mod (32 * 4))); lia.
Qed.

(** Every block has an element, and its elements lie inside the tracked
    block and inside the block's bytes. *)
Lemma count_bound bi : 0 <= bi < nblocks f bk ->
  0 < Z.of_nat (count bi) /\ Z.of_nat (count bi) * esz f <= span f
  /\ bi * span f + Z.of_nat (count bi) * esz f <= req_szB bk.
Proof using Hf Hbk.
  intros [Hbi Hlt]. apply nblocks_bound in Hlt; [|done]. revert Hlt.
  unfold count, span, MX_BLOCK_ELEMS. destruct Hbk as (_ & Hr & _).
  destruct Hf as [-> | ->]; cbn [esz FMT64 FMT32]; intros.
  - pose proof (Z.div_mod (req_szB bk) 8 ltac:(lia)).
    pose proof (Z.mod_pos_bound (req_szB bk) 8 ltac:(lia)). lia.
  - pose proof (Z.div_mod (req_szB bk) 4 ltac:(lia)).
    pose proof (Z.mod_pos_bound (req_szB bk) 4 ltac:(lia)). lia.
Qed.

Lemma span_pos : 0 < span f.
Proof using Hf. by destruct Hf as [-> | ->]. Qed.

(** The address and the count the code computes *)
Lemma block_base_eq bi : 0 <= bi < nblocks f bk -> block_base f bk bi = at_block bi.
Proof using Hf Hbk.
  intros Hbi. pose proof (count_bound bi Hbi) as (? & ? & ?). pose proof (known_esz f Hf).
  destruct Hbk as (? & ? & ?). unfold block_base, at_block. pose proof span_pos.
  rewrite u64_small; unfold span in *; nia.
Qed.

Lemma block_elems_eq bi : 0 <= bi < nblocks f bk -> block_elems f bk bi = count bi.
Proof using Hf Hbk.
  intros Hbi. pose proof (count_bound bi Hbi) as (Hc & _ & _). destruct Hbk as (? & ? & ?).
  unfold block_elems, count, MX_BLOCK_ELEMS in *.
  assert (0 <= req_szB bk / esz f - bi * 32 < 2 ^ 64) as Hl.
  { split; [lia|]. pose proof (known_esz f Hf).
    pose proof (Z.mul_div_le (req_szB bk) (esz f) ltac:(lia)). nia. }
  rewrite u64_small by done. destruct (Z.ltb_spec (req_szB bk / esz f - bi * 32) 32); f_equal; lia.
Qed.

Lemma block_nowrap bi : 0 <= bi < nblocks f bk ->
  0 <= at_block bi /\ at_block bi + (0 + Z.of_nat (count bi)) * esz f <= 2 ^ 64.
Proof using Hf Hbk.
  intros Hbi. pose proof (count_bound bi Hbi) as (? & ? & ?). destruct Hbk as (? & ? & ?).
  unfold at_block. pose proof span_pos. nia.
Qed.

(** ** [mx_encode_block] *)

Lemma scan_block m bi : bytes_ok m -> 0 <= bi < nblocks f bk ->
  scanned f (block_of m bi)
    (scan_loop (count bi) f m (at_block bi) 0 (mk_scan false false 0)).
Proof using Hf Hbk.
  intros Hm Hbi. destruct (block_nowrap bi Hbi). rewrite scan_loop_elems by (done || lia).
  rewrite Z.add_0_r. apply (scanned_foldl f Hf _ []); [by apply elems_ok|].
  split; [done|]. cbn. intros v Hv. by apply not_elem_of_nil in Hv.
Qed.

(** Either nothing is written and the elements are their own encoding, or
    one of the two rewriting loops computes the encoding. *)
Lemma encode_block_cases m t bi : bytes_ok m -> 0 <= bi < nblocks f bk ->
  let vs := block_of m bi in
  (fst (mx_encode_block o f bk bi m t) = m /\ encode_elems o f vs = vs) \/
  exists P enc g t',
    fst (mx_encode_block o f bk bi m t)
      = fst (rewrite_loop (count bi) f enc (at_block bi) 0 m t')
    /\ encode_elems o f vs = map g vs /\ Forall P vs
    /\ (forall v t, P v -> fst (enc v t) = g v) /\ (forall v, P v -> elem f (g v)).
Proof using Hf Hbk Ho.
  intros Hm Hbi vs. pose proof (scan_block m bi Hm Hbi) as [Hn Hany].
  assert (Forall (elem f) vs) as Hvs by (by apply elems_ok).
  unfold mx_encode_block. rewrite block_base_eq, block_elems_eq by done.
  set (c := scan_loop (count bi) f m (at_block bi) 0 (mk_scan false false 0)) in *.
  fold vs in Hn, Hany. pose proof (ok_scale o Ho).
  assert (Z.shiftl 1 (clo_mx_scale_bits o - 1) - 1 = scale_max o) as ->.
  { unfold scale_max. rewrite Z.shiftl_mul_pow2 by lia. lia. }
  unfold encode_elems. rewrite <- Hn.
  assert (block_lead f vs = if any c then Some (lmax c) else None) as ->.
  { destruct (any c); [by apply block_lead_max|]. pose proof (block_lead_spec f vs) as Hb.
    destruct (block_lead f vs); [|done]. destruct Hb as [(v & Hv & Hl & _) _].
    by rewrite Hany in Hl. }
  assert (forall t0, exists P enc g t',
    fst (rewrite_loop (count bi) f (fun _ t => (mx_nan_element f, t)) (at_block bi) 0 m t0)
      = fst (rewrite_loop (count bi) f enc (at_block bi) 0 m t')
    /\ map (fun _ => mx_nan_element f) vs = map g vs /\ Forall P vs
    /\ (forall v t, P v -> fst (enc v t) = g v) /\ (forall v, P v -> elem f (g v))) as Hnan.
  { intros t0. exists (elem f), (fun _ t => (mx_nan_element f, t)), (fun _ => mx_nan_element f), t0.
    do 4 (split; [done|]). intros. by apply nan_elem. }
  destruct (nonfinite c) eqn:En; cbn [orb]; [right; apply Hnan|].
  destruct (any c) eqn:Ea; cbn [andb negb]; [|by left].
  destruct (scale_max o <? lmax c - clo_mx_emax o); [right; apply Hnan|]. right.
  set (s := Z.max (lmax c - clo_mx_emax o) (- scale_max o)).
  assert (exists t', (if lmax c - clo_mx_emax o <? - scale_max o
      then (- scale_max o, inc_clamped t) else (lmax c - clo_mx_emax o, t)) = (s, t')) as [t' ->].
  { destruct (Z.ltb_spec (lmax c - clo_mx_emax o) (- scale_max o)); eexists; f_equal; lia. }
  exists (fun v => elem f v /\ finite f v), (fun v t => mx_quantize o f v s t), (quantize o f s), t'.
  split; [done|]. split; [done|]. split; [|split].
  - apply Forall_forall. intros v Hv. rewrite Forall_forall in Hvs. split; [by apply Hvs|].
    apply live_finite; [done|by apply Hvs|]. apply not_true_is_false. intros E.
    assert (existsb (special f) vs = true); [|congruence].
    apply existsb_exists. exists v. by rewrite <- list_elem_of_In.
  - intros v t0 [Hv Hfin]. by apply (quantize_spec o Ho f Hok).
  - intros v [Hv _]. by apply quantize_fields.
Qed.

(** The block's elements become their reference encoding, in place. *)
Lemma encode_block_spec m t bi : bytes_ok m -> 0 <= bi < nblocks f bk ->
  let m' := fst (mx_encode_block o f bk bi m t) in
  block_of m' bi = encode_elems o f (block_of m bi)
  /\ same_outside (at_block bi) (Z.of_nat (count bi) * esz f) m m' /\ bytes_ok m'.
Proof using Hf Hbk Ho.
  intros Hm Hbi m'. subst m'. destruct (block_nowrap bi Hbi).
  destruct (encode_block_cases m t bi Hm Hbi) as [[-> ->]|(P & enc & g & t' & -> & -> & HP & He & Hg)];
    [done|].
  pose proof (rewrite_loop_elems f Hf P enc g (at_block bi) He (count bi) Hg 0 m t'
    ltac:(done) ltac:(lia) ltac:(lia) Hm) as Hr.
  cbv zeta in Hr. rewrite Z.add_0_r in Hr. by apply Hr.
Qed.

(** Encoding a block again writes nothing. *)
Lemma encode_block_idem m t t2 bi : bytes_ok m -> 0 <= bi < nblocks f bk -> clamp_ok f o ->
  let m' := fst (mx_encode_block o f bk bi m t) in
  fst (mx_encode_block o f bk bi m' t2) = m'.
Proof using Hf Hbk Ho.
  intros Hm Hbi Hc m'. destruct (encode_block_spec m t bi Hm Hbi) as (E & _ & Hm').
  fold m' in E, Hm'. destruct (block_nowrap bi Hbi).
  destruct (encode_block_cases m' t2 bi Hm' Hbi) as [[-> _]|(P & enc & g & t' & -> & Eg & HP & He & _)];
    [done|].
  apply (rewrite_loop_id f Hf P enc g (at_block bi) He); rewrite ?Z.add_0_r; [done|lia|lia|done|].
  fold (block_of m' bi). rewrite <- Eg, E. apply encode_elems_idem; [done|done|by apply elems_ok|done].
Qed.

(** ** The blocks of a store *)

Lemma block_frame m m' bi bj : 0 <= bi < nblocks f bk -> 0 <= bj < nblocks f bk -> bi <> bj ->
  same_outside (at_block bi) (Z.of_nat (count bi) * esz f) m m' ->
  block_of m' bj = block_of m bj.
Proof using Hf Hbk.
  intros Hi Hj Hne Ho'. apply (elems_ext f Hf). intros x Hx. apply Ho'.
  pose proof (count_bound bi Hi) as (_ & ? & _). pose proof (count_bound bj Hj) as (_ & ? & _).
  pose proof span_pos. unfold at_block in *. destruct (decide (bi < bj)); nia.
Qed.

Lemma blocks_loop_spec fuel last : forall bi m t, 0 <= bi -> bytes_ok m ->
  last < bi + Z.of_nat fuel ->
  let m' := fst (blocks_loop fuel o f bk bi last (nblocks f bk) m t) in
  (forall b, 0 <= b < nblocks f bk -> block_of m' b =
     if (bi <=? b) && (b <=? last) then encode_elems o f (block_of m b) else block_of m b)
  /\ (forall x, x < at_block bi \/ at_block (last + 1) <= x \/ payload bk + req_szB bk <= x ->
       m' x = m x)
  /\ bytes_ok m'.
Proof using Hf Hbk Ho.
  induction fuel as [|fuel IH]; intros bi m t Hbi Hm Hfuel; cbn [blocks_loop].
  { split; [|done]. intros b Hb. destruct (Z.leb_spec bi b), (Z.leb_spec b last); [lia|done..]. }
  destruct (Z.leb_spec bi last) as [Hl|Hl]; [destruct (Z.ltb_spec bi (nblocks f bk)) as [Hn|Hn]|];
    cbn [andb].
  2, 3: split; [|done]; intros b Hb; destruct (Z.leb_spec bi b), (Z.leb_spec b last); [lia|done..].
  destruct (encode_block_spec m t bi Hm (conj Hbi Hn)) as (E & Ho' & Hm').
  destruct (mx_encode_block o f bk bi m t) as [m1 t1]. cbn [fst] in *.
  destruct (IH (bi + 1) m1 t1 ltac:(lia) Hm' ltac:(lia)) as (B & O & K).
  pose proof (count_bound bi (conj Hbi Hn)) as (_ & ? & ?). pose proof span_pos.
  split; [|split; [|done]].
  - intros b Hb. rewrite B by done. destruct (decide (b = bi)) as [->|Hne].
    + destruct (Z.leb_spec (bi + 1) bi), (Z.leb_spec bi bi), (Z.leb_spec bi last);
        (done || lia).
    + rewrite (block_frame m m1 bi b) by (done || congruence).
      destruct (Z.leb_spec (bi + 1) b), (Z.leb_spec bi b); (done || lia).
  - intros x Hx. unfold at_block in *. rewrite O by nia. apply Ho'. unfold at_block. nia.
Qed.

(** ** [mx_after_store] *)

Lemma after_store_spec addr size m t : mx_format o = f ->
  payload bk <= addr < payload bk + req_szB bk -> 0 < size -> addr + size <= 2 ^ 64 ->
  bytes_ok m ->
  let m' := fst (mx_after_store_in o bk addr size m t) in
  (forall b, 0 <= b < nblocks f bk -> block_of m' b =
     if (at_block b <? addr + size) && (addr <? at_block (b + 1))
     then encode_elems o f (block_of m b) else block_of m b)
  /\ (forall x, x < addr - 256 \/ addr + size + 256 <= x \/ x < payload bk
        \/ payload bk + req_szB bk <= x -> m' x = m x)
  /\ bytes_ok m'.
Proof using Hf Hbk Ho.
  intros Ef Ha Hs Hw Hm. unfold mx_after_store_in. rewrite Ef. fold (span f). fold (nblocks f bk).
  destruct Hbk as (? & ? & ?). rewrite !u64_small by lia. pose proof span_pos as Hsp.
  set (first := (addr - payload bk) / span f).
  set (last := (addr + size - 1 - payload bk) / span f).
  pose proof (Z.div_mod (addr - payload bk) (span f) ltac:(lia)) as D1.
  pose proof (Z.mod_pos_bound (addr - payload bk) (span f) Hsp) as R1. fold first in D1.
  pose proof (Z.div_mod (addr + size - 1 - payload bk) (span f) ltac:(lia)) as D2.
  pose proof (Z.mod_pos_bound (addr + size - 1 - payload bk) (span f) Hsp) as R2. fold last in D2.
  assert (0 <= first) by (apply Z.div_pos; lia).
  destruct (blocks_loop_spec (Z.to_nat (last - first + 1)) last first m (inc_stores t)
    ltac:(lia) Hm ltac:(lia)) as (B & O & K).
  assert (span f <= 256) by (destruct Hf as [-> | ->]; done).
  split; [|split; [|done]].
  - intros b Hb. rewrite B by done. unfold at_block.
    assert ((first <=? b) = (addr <? payload bk + (b + 1) * span f)) as ->.
    { destruct (Z.leb_spec first b), (Z.ltb_spec addr (payload bk + (b + 1) * span f)); (done || nia). }
    assert ((b <=? last) = (payload bk + b * span f <? addr + size)) as ->.
    { destruct (Z.leb_spec b last), (Z.ltb_spec (payload bk + b * span f) (addr + size)); (done || nia). }
    by rewrite andb_comm.
  - intros x Hx. apply O. unfold at_block. nia.
Qed.
End Store.
