(* ===== verification/Options.v ===== *)
(** Command-line options: the recognisers of [include/pub_tool_options.h],
    [ml_process_cmd_line_option] of [memlog/ml_main.c] and the options of
    [coregrind/m_replacemalloc/replacemalloc_core.c] it falls back to, in the
    mode in which options are processed.  Every accepted command line leaves
    the options in their documented ranges. *)
From stdpp Require Import base list strings.
From Stdlib Require Import ZArith Lia Ascii String.
From S2P Require Import Prelude Mem Printf LibcStr Adler BlockTrack Mx MxQuant.
Open Scope Z_scope.

(** ** Recognisers *)

(** What a recogniser says of an argument: it is not its option, the value is
    bad (the program ends with a message), or the value *)
Inductive clo (A : Type) : Type := NotThis | Bad | Value (a : A).
Arguments NotThis {A}. Arguments Bad {A}. Arguments Value {A} a.

(** [VG_STREQN(n, arg, option)] and [VG_STREQ(arg, option)] *)
Definition VG_STREQN (n : Z) (s1 s2 : chars) : bool := strncmp s1 s2 (Z.to_nat n) =? 0.
Definition VG_STREQ (s1 s2 : chars) : bool := strcmp s1 s2 =? 0.

(** [&arg[strlen(option) + 1]] *)
Definition clo_value (arg opt : chars) : chars := drop (Z.to_nat (strlen opt + 1)) arg.
Definition clo_match (arg opt : chars) : bool := VG_STREQN (strlen opt + 1) arg (opt ++ str "=").

Definition bool_clom (arg opt : chars) : clo bool :=
  if clo_match arg opt then
    let val := clo_value arg opt in
    if strcmp val (str "yes") =? 0 then Value true
    else if strcmp val (str "no") =? 0 then Value false
    else Bad
  else if VG_STREQN (strlen opt) arg opt && (strlen opt =? strlen arg) then Bad
  else NotThis.

Definition str_clo (arg opt : chars) : clo chars :=
  if clo_match arg opt then Value (clo_value arg opt) else NotThis.

(** [var] converts the number to the type of the option variable. *)
Definition bint_clo (var : Z -> Z) (arg opt : chars) (lo hi : Z) : clo Z :=
  if clo_match arg opt then
    let '(n, s) := strtoll10 (clo_value arg opt) in
    let v := var n in
    if negb (ascii_eqb NUL (cur s)) || negb (v =? var n) then Bad
    else if (v <? lo) || (hi <? v) then Bad
    else Value v
  else NotThis.

(** [VG_INT_CLO] on a variable of type [UInt] *)
Definition uint_clo (arg opt : chars) : clo Z :=
  if clo_match arg opt then
    let '(n, s) := strtoll10 (clo_value arg opt) in
    if negb (ascii_eqb NUL (cur s)) || negb (uint n =? n) then Bad else Value (uint n)
  else NotThis.

Definition xact_clo {A} (arg opt : chars) (v : A) : clo A :=
  if VG_STREQ arg opt then Value v else NotThis.

(** ** The options of the allocation replacement *)

Inductive Vg_XTMemory := Vg_XTMemory_None | Vg_XTMemory_Allocs | Vg_XTMemory_Full.

Record rm_options := mk_rm {
  clo_alignment : Z;
  clo_xtree_memory : Vg_XTMemory;
  clo_xtree_memory_file : option chars;
  clo_xtree_compress_strings : bool;
  clo_trace_malloc : bool;
  clo_realloc_zero_bytes_frees : bool
}.

Definition VG_MIN_MALLOC_SZB : Z := 16.

(** The static initialisers, on Linux with glibc *)
Definition rm_default : rm_options :=
  mk_rm VG_MIN_MALLOC_SZB Vg_XTMemory_None None true false true.

(** What is done with an argument: the program ends, or it was or was not
    an option *)
Inductive processed (O : Type) : Type := Exit | Next (known : bool) (o : O).
Arguments Exit {O}. Arguments Next {O} known o.

(** One link of an [if VG_..._CLO(...) ... else ...] chain *)
Definition case_clo {A O} (c : clo A) (set : A -> processed O) (k : processed O) : processed O :=
  match c with NotThis => k | Bad => Exit | Value a => set a end.

Definition replacement_malloc_process_cmd_line_option (arg : chars) (o : rm_options)
    : processed rm_options :=
  let set_xt x := Next true (mk_rm (clo_alignment o) x (clo_xtree_memory_file o)
     (clo_xtree_compress_strings o) (clo_trace_malloc o) (clo_realloc_zero_bytes_frees o)) in
  case_clo (uint_clo arg (str "--alignment"))
    (fun a => if (a <? VG_MIN_MALLOC_SZB) || (4096 <? a) || (log2 a =? -1) then Exit
              else Next true (mk_rm a (clo_xtree_memory o) (clo_xtree_memory_file o)
                     (clo_xtree_compress_strings o) (clo_trace_malloc o)
                     (clo_realloc_zero_bytes_frees o))) (
  case_clo (xact_clo arg (str "--xtree-memory=none") Vg_XTMemory_None) set_xt (
  case_clo (xact_clo arg (str "--xtree-memory=allocs") Vg_XTMemory_Allocs) set_xt (
  case_clo (xact_clo arg (str "--xtree-memory=full") Vg_XTMemory_Full) set_xt (
  case_clo (str_clo arg (str "--xtree-memory-file"))
    (fun f => Next true (mk_rm (clo_alignment o) (clo_xtree_memory o) (Some f)
       (clo_xtree_compress_strings o) (clo_trace_malloc o) (clo_realloc_zero_bytes_frees o))) (
  case_clo (bool_clom arg (str "--xtree-compress-strings"))
    (fun b => Next true (mk_rm (clo_alignment o) (clo_xtree_memory o) (clo_xtree_memory_file o)
       b (clo_trace_malloc o) (clo_realloc_zero_bytes_frees o))) (
  case_clo (bool_clom arg (str "--trace-malloc"))
    (fun b => Next true (mk_rm (clo_alignment o) (clo_xtree_memory o) (clo_xtree_memory_file o)
       (clo_xtree_compress_strings o) b (clo_realloc_zero_bytes_frees o))) (
  case_clo (bool_clom arg (str "--realloc-zero-bytes-frees"))
    (fun b => Next true (mk_rm (clo_alignment o) (clo_xtree_memory o) (clo_xtree_memory_file o)
       (clo_xtree_compress_strings o) (clo_trace_malloc o) b)) (
  Next false o)))))))).

(** ** The options of the tool *)

Record options := mk_options {
  clo_min_block_size : Z;
  clo_mx_round : bool;
  clo_mx : mx_opts;
  clo_mx_sites_file : option chars;
  clo_mx_list_sites : bool;
  clo_rm : rm_options
}.

Definition PAGE_SIZE : Z := 4096.

Definition ml_default : options := mk_options PAGE_SIZE false mx_default None false rm_default.

Definition ml_process_cmd_line_option (arg : chars) (o : options) : processed options :=
  let m := clo_mx o in
  let set_mx m := Next true (mk_options (clo_min_block_size o) (clo_mx_round o) m
     (clo_mx_sites_file o) (clo_mx_list_sites o) (clo_rm o)) in
  case_clo (bint_clo u64 arg (str "--min-block-size") 1 (1024 * 1024 * 1024))
    (fun n => Next true (mk_options n (clo_mx_round o) m (clo_mx_sites_file o)
                          (clo_mx_list_sites o) (clo_rm o))) (
  case_clo (bool_clom arg (str "--mx-round"))
    (fun b => Next true (mk_options (clo_min_block_size o) b m (clo_mx_sites_file o)
                          (clo_mx_list_sites o) (clo_rm o))) (
  case_clo (bint_clo id arg (str "--mx-mbits") 0 52)
    (fun n => set_mx (mk_opts n (clo_mx_emax m) (clo_mx_emin m) (clo_mx_esz m) (clo_mx_scale_bits m))) (
  case_clo (bint_clo id arg (str "--mx-emax") 0 1023)
    (fun n => set_mx (mk_opts (clo_mx_mbits m) n (clo_mx_emin m) (clo_mx_esz m) (clo_mx_scale_bits m))) (
  case_clo (bint_clo id arg (str "--mx-emin") (-1022) 0)
    (fun n => set_mx (mk_opts (clo_mx_mbits m) (clo_mx_emax m) n (clo_mx_esz m) (clo_mx_scale_bits m))) (
  case_clo (str_clo arg (str "--mx-sites-file"))
    (fun f => Next true (mk_options (clo_min_block_size o) (clo_mx_round o) m (Some f)
                          (clo_mx_list_sites o) (clo_rm o))) (
  case_clo (bool_clom arg (str "--mx-list-sites"))
    (fun b => Next true (mk_options (clo_min_block_size o) (clo_mx_round o) m (clo_mx_sites_file o)
                          b (clo_rm o))) (
  case_clo (bint_clo id arg (str "--mx-esz") 4 8)
    (fun n => set_mx (mk_opts (clo_mx_mbits m) (clo_mx_emax m) (clo_mx_emin m) n (clo_mx_scale_bits m))) (
  case_clo (bint_clo id arg (str "--mx-scale-bits") 1 16)
    (fun n => set_mx (mk_opts (clo_mx_mbits m) (clo_mx_emax m) (clo_mx_emin m) (clo_mx_esz m) n)) (
  match replacement_malloc_process_cmd_line_option arg (clo_rm o) with
  | Exit => Exit
  | Next known rm => Next known (mk_options (clo_min_block_size o) (clo_mx_round o) m
                       (clo_mx_sites_file o) (clo_mx_list_sites o) rm)
  end))))))))).

(** A command line: [None] when an argument ends the program *)
Fixpoint process_args (args : list chars) (o : options) : option options :=
  match args with
  | [] => Some o
  | arg :: args =>
      match ml_process_cmd_line_option arg o with
      | Exit => None
      | Next _ o => process_args args o
      end
  end.

(** ** Ranges *)

Record options_ok (o : options) : Prop := {
  ok_min : 1 <= clo_min_block_size o <= 1024 * 1024 * 1024;
  ok_mx : opts_ok (clo_mx o);
  ok_esz : 4 <= clo_mx_esz (clo_mx o) <= 8;
  ok_align : clo_alignment (clo_rm o) ∈ map (Z.pow 2) [4; 5; 6; 7; 8; 9; 10; 11; 12]
}.

Lemma ml_default_ok : options_ok ml_default.
Proof. split; [done|apply mx_default_ok|done|by apply (bool_decide_unpack _)]. Qed.

Lemma bint_range var arg opt lo hi v : bint_clo var arg opt lo hi = Value v -> lo <= v <= hi.
Proof.
  unfold bint_clo. destruct (clo_match arg opt); [|done].
  destruct (strtoll10 (clo_value arg opt)) as [n s].
  destruct (_ || _); [done|].
  destruct (Z.ltb_spec (var n) lo), (Z.ltb_spec hi (var n)); cbn; try done. intros [= <-]. lia.
Qed.

Lemma case_clo_Next {A O} (c : clo A) (set : A -> processed O) k known o :
  case_clo c set k = Next known o ->
  (exists a, c = Value a /\ set a = Next known o) \/ k = Next known o.
Proof. destruct c; cbn; [by right|done|]. intros. left. by exists a. Qed.

(** [VG_(log2)] accepts the powers of two only. *)
Lemma alignment_pow2 a : 16 <= a <= 4096 -> log2 a <> -1 ->
  a ∈ map (Z.pow 2) [4; 5; 6; 7; 8; 9; 10; 11; 12].
Proof.
  intros Ha Hl. destruct (log2_loop_spec 32 0 a ltac:(lia)) as [[E _]|[Hr E]]; [done|].
  fold (log2 a) in *. rewrite E. set (k := log2 a) in *. clearbody k.
  apply list_elem_of_fmap. exists k. split; [done|].
  assert (4 <= k) as H4.
  { destruct (Z.le_gt_cases 4 k); [done|]. assert (2 ^ k <= 2 ^ 3) by (apply Z.pow_le_mono_r; lia). lia. }
  assert (k <= 12) as H12.
  { destruct (Z.le_gt_cases k 12); [done|]. assert (2 ^ 13 <= 2 ^ k) by (apply Z.pow_le_mono_r; lia). lia. }
  assert (k ∈ [4; 5; 6; 7; 8; 9; 10; 11; 12] <-> In k [4; 5; 6; 7; 8; 9; 10; 11; 12]) as ->
    by apply list_elem_of_In. cbn. lia.
Qed.

Lemma replacement_alignment arg o known o' :
  replacement_malloc_process_cmd_line_option arg o = Next known o' ->
  clo_alignment o' = clo_alignment o \/
  clo_alignment o' ∈ map (Z.pow 2) [4; 5; 6; 7; 8; 9; 10; 11; 12].
Proof.
  unfold replacement_malloc_process_cmd_line_option. intros H.
  repeat (apply case_clo_Next in H as [(a & Ec & H)|H]; [try (simplify_eq; by left)|]);
    [|simplify_eq; by left].
  right. destruct (Z.ltb_spec a VG_MIN_MALLOC_SZB), (Z.ltb_spec 4096 a), (Z.eqb_spec (log2 a) (-1));
    cbn in H; simplify_eq. by apply alignment_pow2.
Qed.

Lemma process_ok arg o known o' : options_ok o ->
  ml_process_cmd_line_option arg o = Next known o' -> options_ok o'.
Proof.
  intros [H1 H2 H3 H4] H. pose proof H2 as [M1 M2 M3 M4].
  unfold ml_process_cmd_line_option in H.
  repeat (apply case_clo_Next in H as [(a & Ec & H)|H];
    [simplify_eq; try apply bint_range in Ec; repeat split; cbn; (done || tauto)|]).
  revert H. destruct (replacement_malloc_process_cmd_line_option arg (clo_rm o)) as [|k rm] eqn:E;
    intros H; [done|]. simplify_eq.
  apply replacement_alignment in E. split; cbn; [done|done|done|]. destruct E as [->|]; done.
Qed.

Lemma process_args_ok args : forall o o', options_ok o -> process_args args o = Some o' -> options_ok o'.
Proof.
  induction args as [|arg args IH]; intros o o' Ho H; cbn in H; [by simplify_eq|].
  destruct (ml_process_cmd_line_option arg o) as [|k o1] eqn:E; [done|].
  eapply IH; [|exact H]. by eapply process_ok.
Qed.
