(* ===== verification/Tool.v ===== *)
(** The tool itself, [memlog/ml_main.c]: the replacements of the allocation
    functions, the store helper, the client requests and the end of the run,
    on the block tracking, the log buffer and the MX emulation.  The client
    heap is an interface; a thread is seen through the stack trace the core
    records for it and the function names of its frames. *)
From stdpp Require Import base gmap list strings.
From Stdlib Require Import ZArith Lia Ascii String.
From S2P Require Import Prelude Mem LibcMem RbTree BlockTrack Printf LibcStr LogBuffer Mx Options.
Open Scope prog_scope.
Open Scope Z_scope.

(** ** The client heap *)

(** [VG_(cli_malloc)] with its alignment and size returns zero when it
    fails; freeing or querying what is not an allocated block is undefined. *)
Class ClientHeap (H : Type) := {
  cli_malloc : Z -> Z -> H -> Z * H;
  cli_free : Z -> H -> option H;
  cli_malloc_usable_size : Z -> H -> option Z;
  allocated : H -> gmap Z Z
}.

(** The client's blocks, by address, with their usable sizes *)
Class ClientHeapLaws (H : Type) `{ClientHeap H} : Prop := {
  malloc_block_fresh a n h p h' : 0 < n -> cli_malloc a n h = (p, h') -> p <> 0 ->
    0 < p /\ allocated h !! p = None /\
    exists u, n <= u /\ p + u < 2 ^ 64 /\ allocated h' = <[p := u]> (allocated h) /\
      forall q k, allocated h !! q = Some k -> q + k <= p \/ p + u <= q;
  malloc_fails a n h h' : cli_malloc a n h = (0, h') -> allocated h' = allocated h;
  free_allocated p h : is_Some (allocated h !! p) ->
    exists h', cli_free p h = Some h' /\ allocated h' = delete p (allocated h);
  usable_size p h u : allocated h !! p = Some u -> cli_malloc_usable_size p h = Some u
}.

(** ** The state *)

(** What the core says of a thread: the stack trace recorded by
    [VG_(record_ExeContext)], and the frames with the names
    [VG_(get_fnname)] finds *)
Record thread := mk_thread {
  exe_context : ExeContext;
  stack : list (Z * option chars)
}.

Section Tool.
Context {H : Type} `{ClientHeap H}.
Context (pp_ExeContext : positive -> chars).

Record tool := mk_tool {
  opts : options;
  mx_sites : list chars;
  bt : bt_state;
  lb : lb_state;
  gm : gmem;
  ch : H;
  stats : mx_stats;
  mx_blocks_marked : Z;
  mx_bytes_marked : Z;
  messages : list chars
}.

Definition set_bt (b : bt_state) (s : tool) : tool :=
  mk_tool (opts s) (mx_sites s) b (lb s) (gm s) (ch s) (stats s)
          (mx_blocks_marked s) (mx_bytes_marked s) (messages s).
Definition set_lb (l : lb_state) (s : tool) : tool :=
  mk_tool (opts s) (mx_sites s) (bt s) l (gm s) (ch s) (stats s)
          (mx_blocks_marked s) (mx_bytes_marked s) (messages s).
Definition set_gm (m : gmem) (s : tool) : tool :=
  mk_tool (opts s) (mx_sites s) (bt s) (lb s) m (ch s) (stats s)
          (mx_blocks_marked s) (mx_bytes_marked s) (messages s).
Definition set_ch (h : H) (s : tool) : tool :=
  mk_tool (opts s) (mx_sites s) (bt s) (lb s) (gm s) h (stats s)
          (mx_blocks_marked s) (mx_bytes_marked s) (messages s).
Definition set_stats (t : mx_stats) (s : tool) : tool :=
  mk_tool (opts s) (mx_sites s) (bt s) (lb s) (gm s) (ch s) t
          (mx_blocks_marked s) (mx_bytes_marked s) (messages s).
Definition add_message (c : chars) (s : tool) : tool :=
  mk_tool (opts s) (mx_sites s) (bt s) (lb s) (gm s) (ch s) (stats s)
          (mx_blocks_marked s) (mx_bytes_marked s) (messages s ++ [c]).
Definition mark (szB : Z) (s : tool) : tool :=
  mk_tool (opts s) (mx_sites s) (bt s) (lb s) (gm s) (ch s) (stats s)
          (u64 (mx_blocks_marked s + 1)) (u64 (mx_bytes_marked s + szB)) (messages s).

Definition on_bt {A} (m : M bt_state A) : M tool A := zoom bt set_bt m.
Definition on_lb {A} (m : M lb_state A) : M tool A := zoom lb set_lb m.

Definition do_cli_malloc (alignB szB : Z) : M tool Z := fun s =>
  let '(p, h) := cli_malloc alignB szB (ch s) in Some (p, set_ch h s).
Definition do_cli_free (p : Z) : M tool unit := fun s =>
  match cli_free p (ch s) with Some h => Some (tt, set_ch h s) | None => None end.
Definition do_usable_size (p : Z) : M tool Z := fun s =>
  match cli_malloc_usable_size p (ch s) with Some n => Some (n, s) | None => None end.

(** [VG_(umsg)]: the text of the message *)
Definition umsg (format : string) (args : list vararg) : M tool unit := fun s =>
  match debugLog_vprintf false (str format) args with
  | Some (_, o) => Some (tt, add_message o s)
  | None => None
  end.

(** [VG_(sprintf)] into a buffer *)
Definition sprintf (format : string) (args : list vararg) : M tool chars := fun s =>
  match debugLog_vprintf false (str format) args with
  | Some (_, o) => Some (o, s)
  | None => None
  end.

(** ** Allocation sites *)

Definition found (r : option chars) : bool := match r with Some _ => true | None => false end.

Definition is_allocator_frame (fn : chars) : bool :=
  found (strstr (Some fn) (str "malloc")) || found (strstr (Some fn) (str "calloc"))
  || found (strstr (Some fn) (str "realloc")) || found (strstr (Some fn) (str "memalign"))
  || found (strstr (Some fn) (str "operator new")) || found (strstr (Some fn) (str "_gfortran")).

Fixpoint site_known (fn addr : chars) (sites : list chars) : bool :=
  match sites with
  | [] => false
  | site :: sites =>
      if (strcmp fn site =? 0) || (strcmp addr site =? 0) then true
      else site_known fn addr sites
  end.

Fixpoint site_loop (frames : list (Z * option chars)) (szB : Z) : M tool bool :=
  match frames with
  | [] => ret false
  | (ip, fnname) :: frames =>
      match fnname with
      | None => site_loop frames szB
      | Some fn =>
          if is_allocator_frame fn then site_loop frames szB else
          addr <- sprintf "0x%lX" [VWord ip] ;;
          list_sites <- gets (fun s => clo_mx_list_sites (opts s)) ;;
          (if list_sites : bool
           then umsg ("MXSITE %s %s %lu" ++ newline) [VStr (Some addr); VStr (Some fn); VWord szB]
           else ret tt) ;;;
          sites <- gets mx_sites ;;
          if Nat.eqb (List.length sites) 0 then ret true
          else ret (site_known fn addr sites)
      end
  end.

Definition mx_site_selected (t : thread) (szB : Z) : M tool bool :=
  sites <- gets mx_sites ;;
  list_sites <- gets (fun s => clo_mx_list_sites (opts s)) ;;
  if Nat.eqb (List.length sites) 0 && negb list_sites then ret true
  else site_loop (take 16 (stack t)) szB.

Definition MX_MAX_SITES : nat := Z.to_nat 4096.

(** The loop over the lines of the sites file *)
Fixpoint sites_loop (fuel : nat) (tok : option chars) (save : chars) (sites : list chars)
    : option (list chars) :=
  match tok with
  | None => Some sites
  | Some t =>
      match fuel with
      | O => None
      | S fuel =>
          if Nat.ltb (List.length sites) MX_MAX_SITES then
            let sites := if negb (ascii_eqb (cur t) "#") && negb (ascii_eqb (cur t) NUL)
                         then sites ++ [t] else sites in
            let '(tok, save) := strtok_r None (str (String "013" newline)) save in
            sites_loop fuel tok save sites
          else Some sites
      end
  end.

(** [mx_load_sites], for the text of the file; [None] when it cannot be
    opened, which ends the program. *)
Definition mx_load_sites (file : option chars) : M tool unit := fun s =>
  match clo_mx_sites_file (opts s) with
  | None => Some (tt, s)
  | Some _ =>
      match file with
      | None => None
      | Some buf =>
          let '(tok, save) := strtok_r (Some buf) (str (String "013" newline)) [] in
          match sites_loop (S (List.length buf)) tok save (mx_sites s) with
          | None => None
          | Some sites =>
              Some (tt, mk_tool (opts s) sites (bt s) (lb s) (gm s) (ch s) (stats s)
                          (mx_blocks_marked s) (mx_bytes_marked s) (messages s))
          end
      end
  end.

Definition ml_post_clo_init (file : option chars) : M tool unit :=
  r <- gets (fun s => clo_mx_round (opts s)) ;;
  if r : bool then mx_load_sites file else ret tt.

(** ** Allocation *)

Definition ML_MALLOC_ALIGNMENT : Z := 32.

Definition new_block (t : thread) (szB alignB : Z) (is_zeroed : bool) : M tool Z :=
  if 2 ^ 63 <=? szB then ret 0 else
  let szB := if szB =? 0 then 1 else szB in
  p <- do_cli_malloc alignB szB ;;
  if p =? 0 then ret 0 else
  (if is_zeroed then modify (fun s => set_gm (memset (gm s) p 0 szB) s) else ret tt) ;;;
  o <- gets opts ;;
  (if clo_min_block_size o <=? szB then
     is_mx <- (if clo_mx_round o then mx_site_selected t szB else ret false) ;;
     bk <- on_bt (malloc_block (mk_block p szB (exe_context t) is_mx)) ;;
     (if is_mx : bool then modify (mark szB) else ret tt) ;;;
     on_bt (insert_block_rb bk) ;;;
     on_lb (add_to_buffer pp_ExeContext LOG_ALLOC p 0 szB (exe_context t))
   else ret tt) ;;;
  ret p.

(** The block that starts at [p], if one is tracked *)
Definition block_at (p : Z) : M tool (option (loc * Block)) :=
  bk <- on_bt (find_block_containing p) ;;
  match bk with
  | None => ret None
  | Some l =>
      b <- on_bt (load_block (Some l)) ;;
      ret (if payload b =? p then Some (l, b) else None)
  end.

(** What [die_block] and the untrack request do with a tracked block *)
Definition untrack (t : thread) (p : Z) : M tool unit :=
  r <- block_at p ;;
  match r with
  | None => ret tt
  | Some (l, b) =>
      on_lb (add_to_buffer pp_ExeContext LOG_FREE p 0 (req_szB b) (exe_context t)) ;;;
      on_bt (drop_block l)
  end.

Definition die_block (t : thread) (p : Z) : M tool unit :=
  if p =? 0 then ret tt else
  untrack t p ;;;
  do_cli_free p.

Definition ml_malloc (t : thread) (szB : Z) : M tool Z :=
  new_block t szB ML_MALLOC_ALIGNMENT false.
Definition ml___builtin_new (t : thread) (szB : Z) : M tool Z :=
  new_block t szB ML_MALLOC_ALIGNMENT false.
Definition ml___builtin_new_aligned (t : thread) (szB alignB orig_alignB : Z) : M tool Z :=
  new_block t szB alignB false.
Definition ml___builtin_vec_new (t : thread) (szB : Z) : M tool Z :=
  new_block t szB ML_MALLOC_ALIGNMENT false.
Definition ml___builtin_vec_new_aligned (t : thread) (szB alignB orig_alignB : Z) : M tool Z :=
  new_block t szB alignB false.
Definition ml_memalign (t : thread) (alignB orig_alignB szB : Z) : M tool Z :=
  new_block t szB alignB false.
Definition ml_calloc (t : thread) (nmemb size1 : Z) : M tool Z :=
  new_block t (u64 (nmemb * size1)) ML_MALLOC_ALIGNMENT true.

Definition ml_free (t : thread) (p : Z) : M tool unit := die_block t p.
Definition ml___builtin_delete (t : thread) (p : Z) : M tool unit := die_block t p.
Definition ml___builtin_delete_aligned (t : thread) (p alignB : Z) : M tool unit := die_block t p.
Definition ml___builtin_vec_delete (t : thread) (p : Z) : M tool unit := die_block t p.
Definition ml___builtin_vec_delete_aligned (t : thread) (p alignB : Z) : M tool unit :=
  die_block t p.

Definition realloc_copy (t : thread) (p_old new_szB : Z) : M tool Z :=
  old_bk <- on_bt (find_block_containing p_old) ;;
  old_szB <- (match old_bk with
              | Some l => b <- on_bt (load_block (Some l)) ;; ret (req_szB b)
              | None => do_usable_size p_old
              end) ;;
  p_new <- ml_malloc t new_szB ;;
  if p_new =? 0 then ret 0 else
  modify (fun s => set_gm (memmove (gm s) p_new p_old
                             (if old_szB <? new_szB then old_szB else new_szB)) s) ;;;
  ml_free t p_old ;;;
  ret p_new.

Definition ml_realloc (t : thread) (p_old new_szB : Z) : M tool Z :=
  if p_old =? 0 then ml_malloc t new_szB else
  zf <- gets (fun s => clo_realloc_zero_bytes_frees (clo_rm (opts s))) ;;
  if new_szB =? 0 then
    if zf : bool then ml_free t p_old ;;; ret 0 else realloc_copy t p_old 1
  else realloc_copy t p_old new_szB.

Definition ml_malloc_usable_size (p : Z) : M tool Z :=
  r <- block_at p ;;
  match r with
  | Some (_, b) => ret (req_szB b)
  | None => do_usable_size p
  end.

(** ** The helpers called by the instrumented code *)

Definition log_store (addr value : Z) : M tool unit :=
  tracked <- on_bt (is_tracked addr) ;;
  if tracked : bool then on_lb (add_to_buffer pp_ExeContext LOG_STORE addr value 0 None)
  else ret tt.

Definition mx_after_store (addr size : Z) : M tool unit :=
  bk <- on_bt (find_block_containing addr) ;;
  match bk with
  | None => ret tt
  | Some l =>
      b <- on_bt (load_block (Some l)) ;;
      if negb (mx b) then ret tt
      else modify (fun s =>
        let '(m, t) := mx_after_store_in (clo_mx (opts s)) b addr size (gm s) (stats s) in
        set_stats t (set_gm m s))
  end.

(** ** Client requests *)

(** [VG_USERREQ_TOOL_BASE('M','L')] *)
Definition VG_USERREQ__MEMLOG_TRACK_BLOCK : Z :=
  Z.lor (Z.shiftl (Z.land 77 255) 24) (Z.shiftl (Z.land 76 255) 16).
Definition VG_USERREQ__MEMLOG_UNTRACK_BLOCK : Z := VG_USERREQ__MEMLOG_TRACK_BLOCK + 1.

(** Whether the request is the tool's, and [*ret] *)
Definition ml_handle_client_request (t : thread) (arg0 arg1 arg2 : Z) : M tool (bool * option Z) :=
  if arg0 =? VG_USERREQ__MEMLOG_TRACK_BLOCK then
    (if 0 <? arg2 then
       bk <- on_bt (malloc_block (mk_block arg1 arg2 (exe_context t) false)) ;;
       on_bt (insert_block_rb bk) ;;;
       on_lb (add_to_buffer pp_ExeContext LOG_ALLOC arg1 0 arg2 (exe_context t))
     else ret tt) ;;;
    ret (true, Some 0)
  else if arg0 =? VG_USERREQ__MEMLOG_UNTRACK_BLOCK then
    untrack t arg1 ;;;
    ret (true, Some 0)
  else ret (false, None).

(** ** The end of the run *)

Definition ml_fini : M tool unit :=
  on_lb (flush_log_buffer pp_ExeContext) ;;;
  s <- gets id ;;
  (if clo_mx_round (opts s) then
     let o := clo_mx (opts s) in
     umsg ("MX: esz=%lld mbits=%lld emax=%lld emin=%lld scale_bits=%lld sites=%d" ++ newline)
       [VWord (clo_mx_esz o); VWord (clo_mx_mbits o); VWord (clo_mx_emax o); VWord (clo_mx_emin o);
        VWord (clo_mx_scale_bits o); VWord (Z.of_nat (List.length (mx_sites s)))] ;;;
     umsg ("MX: blocks_marked=%llu bytes_marked=%llu stores=%llu" ++ newline)
       [VWord (mx_blocks_marked s); VWord (mx_bytes_marked s); VWord (mx_stores (stats s))] ;;;
     umsg ("MX: values_changed=%llu values_flushed=%llu values_saturated=%llu" ++ newline)
       [VWord (mx_values_changed (stats s)); VWord (mx_values_flushed (stats s));
        VWord (mx_values_saturated (stats s))] ;;;
     umsg ("MX: blocks_nan=%llu scales_clamped=%llu" ++ newline)
       [VWord (mx_blocks_nan (stats s)); VWord (mx_scales_clamped (stats s))]
   else ret tt) ;;;
  on_bt free_rb_tree.
End Tool.
