(* ===== verification/ToolProofs.v ===== *)
(** The handlers of the tool against its abstract state: the map of tracked
    blocks and the list of logged events. *)
From stdpp Require Import base gmap list strings sets.
From Stdlib Require Import ZArith Lia Ascii String.
From S2P Require Import Prelude Mem LibcMem LibcMemProofs RbTree RbInv RbSearch BlockTrack BlockIndex Printf LibcStr LogBuffer Mx Options Tool.
Open Scope prog_scope.
Open Scope Z_scope.

(** ** The tracked blocks *)

(** What a map of tracked blocks always satisfies *)
Definition keyed (T : gmap Z Block) : Prop := forall k b, T !! k = Some b -> payload b = k.

Lemma bt_inv_keyed s T : bt_inv s T -> keyed T.
Proof.
  intros (t & _ & _ & _ & [H1 H2] & _) k b Hk. destruct (H2 k ltac:(eauto)) as (e & He & <-).
  destruct (H1 e He) as (bl & b' & _ & _ & Hp & HT). congruence.
Qed.

(** A new record, not yet in the tree *)
Lemma wp_malloc_block s t T b (Q : loc -> bt_state -> Prop) : bt_inv_at s t T ->
  (forall bl s', bt_inv_at s' t T -> blocks s' !! bl = Some b -> Some bl ∉ map snd (inorder t) ->
     Q bl s') ->
  wp (malloc_block b) s Q.
Proof.
  intros (HR & Hok & Ho & Hix & Hnd & Hdom & Hn1 & Hn2) HQ. unfold malloc_block, wp.
  assert (blocks s !! next_loc s = None) as Hfresh.
  { destruct (blocks s !! next_loc s) eqn:E; [|done]. specialize (Hn2 (next_loc s) ltac:(eauto)). lia. }
  apply HQ; cbn.
  - destruct Hix as [H1 H2]. split_and!; cbn; try done.
    + split; [|done]. intros e He. destruct (H1 e He) as (bl & b' & Hd & Hb & Hp & HT).
      exists bl, b'. split_and!; try done. rewrite lookup_insert_ne; [done|]. intros <-. congruence.
    + intros l Hl. specialize (Hn1 l Hl). lia.
    + intros l [b' Hl]. destruct (decide (l = next_loc s)) as [->|]; [lia|].
      rewrite lookup_insert_ne in Hl by done. specialize (Hn2 l ltac:(eauto)). lia.
  - apply lookup_insert_eq.
  - intros (e & Hd & He)%list_elem_of_fmap. destruct Hix as [H1 _].
    destruct (H1 e He) as (bl & b' & Hd' & Hb & _). congruence.
Qed.

(** Entering a block in the map, unless its address is there *)
Definition track (T : gmap Z Block) (b : Block) : gmap Z Block :=
  match T !! payload b with Some _ => T | None => <[payload b := b]> T end.

Lemma wp_insert s T bl b (Q : unit -> bt_state -> Prop) :
  (exists t, bt_inv_at s t T /\ blocks s !! bl = Some b /\ Some bl ∉ map snd (inorder t)) ->
  (forall s', bt_inv s' (track T b) -> Q tt s') -> wp (insert_block_rb bl) s Q.
Proof.
  intros (t & Ht & Hb & Hn) HQ. eapply wp_insert_block_rb; [done..|].
  intros s' Hs' _ _. by apply HQ.
Qed.

(** The tracked block an address is found in *)
Definition found_in (T : gmap Z Block) (addr : Z) (b : Block) : Prop :=
  pred_block T addr b /\ covers b addr.

Lemma found_unique T addr b b' : found_in T addr b -> found_in T addr b' -> b = b'.
Proof. intros [H _] [H' _]. by eapply pred_block_unique. Qed.

(** Looking an address up: the state does not change, and the record found
    can be read. *)
Lemma wp_find_block s T addr (Q : ptr -> bt_state -> Prop) : bt_inv s T ->
  (forall bl b, blocks s !! bl = Some b -> found_in T addr b ->
     (exists t, bt_inv_at s t T /\ Some bl ∈ map snd (inorder t)) -> Q (Some bl) s) ->
  ((forall b, ~ found_in T addr b) -> Q None s) ->
  wp (find_block_containing addr) s Q.
Proof.
  intros [t Ht] HS HN. eapply wp_find; [exact Ht|..].
  - intros bl b Hb Hp Hc Hin. eapply HS; [done|by split|eauto].
  - intros H. apply HN. intros b [Hp Hc]. by eapply H.
Qed.

(** ** The tool's invariant *)

Section Tool.
Context {H : Type} `{ClientHeap H} (pp : positive -> chars).
Abbreviation tool := (tool (H := H)).

Definition tool_inv (s : tool) (T : gmap Z Block) (es : list event) : Prop :=
  bt_inv (bt s) T /\ logged pp (lb s) es.

Lemma tool_inv_eq s s' T es : bt s' = bt s -> lb s' = lb s -> tool_inv s T es -> tool_inv s' T es.
Proof using Type. unfold tool_inv. by intros -> ->. Qed.

Lemma wp_on_bt {A} (m : M bt_state A) (s : tool) Q :
  wp m (bt s) (fun a b => Q a (set_bt b s)) -> wp (on_bt m) s Q.
Proof using Type. apply wp_zoom. Qed.

Lemma wp_on_lb {A} (m : M lb_state A) (s : tool) Q :
  wp m (lb s) (fun a b => Q a (set_lb b s)) -> wp (on_lb m) s Q.
Proof using Type. apply wp_zoom. Qed.

Lemma set_bt_same (s : tool) : set_bt (bt s) s = s.
Proof using Type. by destruct s. Qed.

(** Logging an event *)
Lemma wp_log (s : tool) T es t a v sz w (Q : unit -> tool -> Prop) ev :
  add_to_buffer pp t a v sz w = add_event pp ev -> tool_inv s T es ->
  (forall l, logged pp l (es ++ [ev]) -> tool_inv (set_lb l s) T (es ++ [ev]) -> Q tt (set_lb l s)) ->
  wp (on_lb (add_to_buffer pp t a v sz w)) s Q.
Proof using Type.
  intros E [Hb Hl] HQ. rewrite E. apply wp_on_lb. eapply wp_add_event; [exact Hl|].
  intros l Hl'. by apply HQ.
Qed.

(** A new tracked block, with its log entry; [f] is what the handler does
    in between, outside the tracked blocks and the log. *)
Lemma wp_track (s : tool) T es b (f : M tool unit) (Q : unit -> tool -> Prop) :
  tool_inv s T es ->
  (forall s', exists s'', f s' = Some (tt, s'') /\ bt s'' = bt s' /\ lb s'' = lb s') ->
  (forall s', tool_inv s' (track T b) (es ++ [EAlloc (payload b) (req_szB b) (alloc_ec b)]) ->
     (exists s0 s1 bl, f s0 = Some (tt, s1) /\ s0 = set_bt bl s /\
        s' = set_lb (lb s') (set_bt (bt s') s1)) -> Q tt s') ->
  wp (bk <- on_bt (malloc_block b) ;;
      f ;;;
      on_bt (insert_block_rb bk) ;;;
      on_lb (add_to_buffer pp LOG_ALLOC (payload b) 0 (req_szB b) (alloc_ec b))) s Q.
Proof using Type.
  intros [[t Hb] Hl] Hf HQ. apply wp_bind, wp_on_bt. eapply wp_malloc_block; [exact Hb|].
  intros bl b1 Hb1 Hbl Hn. apply wp_bind.
  destruct (Hf (set_bt b1 s)) as (s2 & Ef & Eb & El). unfold wp at 1. rewrite Ef.
  apply wp_bind, wp_on_bt. rewrite Eb. cbn [bt set_bt]. eapply wp_insert; [by exists t|].
  intros b3 Hb3. apply wp_on_lb. cbn [lb set_bt]. rewrite El. cbn [lb set_bt].
  change (add_to_buffer pp LOG_ALLOC (payload b) 0 (req_szB b) (alloc_ec b))
    with (add_event pp (EAlloc (payload b) (req_szB b) (alloc_ec b))).
  eapply wp_add_event; [exact Hl|]. intros l Hl'. apply HQ; [by split|].
  exists (set_bt b1 s), s2, b1. by repeat split.
Qed.

(** ** Freeing *)

Lemma wp_block_at (s : tool) T es p (Q : option (loc * Block) -> tool -> Prop) :
  tool_inv s T es ->
  (forall l b, blocks (bt s) !! l = Some b -> found_in T p b -> payload b = p ->
     (exists t, bt_inv_at (bt s) t T /\ Some l ∈ map snd (inorder t)) -> Q (Some (l, b)) s) ->
  ((forall b, found_in T p b -> payload b <> p) -> Q None s) ->
  wp (block_at p) s Q.
Proof using Type.
  intros [Hb Hl] HS HN. unfold block_at. apply wp_bind, wp_on_bt.
  eapply wp_find_block; [exact Hb|..].
  - intros bl b Hbl Hf Hin. rewrite set_bt_same. apply wp_bind, wp_on_bt.
    eapply wp_load_block; [exact Hbl|]. rewrite set_bt_same. apply wp_ret.
    destruct (Z.eqb_spec (payload b) p) as [E|E]; [by eapply HS|].
    apply HN. intros b' Hf'. by rewrite (found_unique _ _ _ _ Hf' Hf).
  - intros Hn. rewrite set_bt_same. apply wp_ret, HN. intros b' Hf'. by destruct (Hn b').
Qed.

(** The map and the log after the block at [p], if any, is untracked *)
Definition untracked (T : gmap Z Block) (p : Z) (w : ExeContext) (T' : gmap Z Block)
    (new : list event) : Prop :=
  (exists b, found_in T p b /\ payload b = p /\ T' = delete p T /\ new = [EFree p (req_szB b) w]) \/
  ((forall b, found_in T p b -> payload b <> p) /\ T' = T /\ new = []).

Lemma wp_untrack (s : tool) T es th p (Q : unit -> tool -> Prop) : tool_inv s T es ->
  (forall b l T' new, untracked T p (exe_context th) T' new ->
     tool_inv (set_bt b (set_lb l s)) T' (es ++ new) -> Q tt (set_bt b (set_lb l s))) ->
  wp (untrack pp th p) s Q.
Proof using Type.
  intros Hinv HQ. unfold untrack. apply wp_bind. eapply wp_block_at; [exact Hinv|..].
  - intros l b Hl Hf Hp (t & Ht & Hin). destruct Hinv as [Hb Hlg].
    apply wp_bind, wp_on_lb.
    change (add_to_buffer pp LOG_FREE p 0 (req_szB b) (exe_context th))
      with (add_event pp (EFree p (req_szB b) (exe_context th))).
    eapply wp_add_event; [exact Hlg|]. intros lb' Hlg'. apply wp_on_bt. cbn [bt set_lb].
    eapply wp_drop_block; [exact Ht|exact Hl|exact Hin|]. intros b' Hb' _ _.
    rewrite Hp in Hb'. eapply HQ; [left; exists b; split; [exact Hf|by repeat split]|by split].
  - intros Hn. apply wp_ret.
    assert (s = set_bt (bt s) (set_lb (lb s) s)) as Es by (by destruct s).
    rewrite Es. eapply HQ; [by right|]. rewrite app_nil_r. by rewrite <- Es.
Qed.

(** ** Logging stores *)

Lemma wp_log_store (s : tool) T es addr v (Q : unit -> tool -> Prop) : tool_inv s T es ->
  (forall l, (exists b, found_in T addr b) -> tool_inv (set_lb l s) T (es ++ [EStore addr v]) ->
     Q tt (set_lb l s)) ->
  ((forall b, ~ found_in T addr b) -> Q tt s) ->
  wp (log_store pp addr v) s Q.
Proof using Type.
  intros [Hb Hl] HS HN. unfold log_store, is_tracked. apply wp_bind, wp_on_bt, wp_bind.
  eapply wp_find_block; [exact Hb|..].
  - intros bl b _ Hf _. apply wp_ret. rewrite set_bt_same. apply wp_on_lb.
    change (add_to_buffer pp LOG_STORE addr v 0 None) with (add_event pp (EStore addr v)).
    eapply wp_add_event; [exact Hl|]. intros l Hl'. apply HS; [eauto|by split].
  - intros Hn. apply wp_ret. rewrite set_bt_same. apply wp_ret. by apply HN.
Qed.

(** ** Allocating *)

(** Nothing but messages and counters differs. *)
Definition same_core (s s' : tool) : Prop :=
  opts s' = opts s /\ mx_sites s' = mx_sites s /\ bt s' = bt s /\ lb s' = lb s /\
  gm s' = gm s /\ ch s' = ch s.

Lemma same_core_refl s : same_core s s.
Proof using Type. by repeat split. Qed.

Lemma same_core_trans s1 s2 s3 : same_core s1 s2 -> same_core s2 s3 -> same_core s1 s3.
Proof using Type. unfold same_core. intuition congruence. Qed.

Lemma wp_umsg format args (s : tool) n o (Q : unit -> tool -> Prop) :
  debugLog_vprintf false (str format) args = Some (n, o) ->
  (forall s', same_core s s' -> Q tt s') -> wp (umsg format args) s Q.
Proof using Type. intros E HQ. unfold wp, umsg. rewrite E. apply HQ. by repeat split. Qed.

(** The address as the tool's stack traces write it *)
Definition ip_text (ip : Z) : chars := str "0x" ++ (myvprintf_int64 0 16 0 true (u64 ip)).2.

Lemma sprintf_ip ip (s : tool) : sprintf "0x%lX" [VWord ip] s = Some (ip_text ip, s).
Proof using Type. unfold sprintf, ip_text. cbv -[myvprintf_int64 u64 u32 app]. by rewrite app_nil_r. Qed.

Lemma mxsite_prints a f n : exists k o,
  debugLog_vprintf false (str ("MXSITE %s %s %lu" ++ newline)) [VStr (Some a); VStr (Some f); VWord n]
  = Some (k, o).
Proof using Type. eexists _, _. cbv -[myvprintf_int64 myvprintf_str u64 u32 app]. reflexivity. Qed.

(** The first named frame outside the allocator *)
Definition site_frame (frames : list (Z * option chars)) : option (Z * chars) :=
  match filter (fun f => Is_true (match f.2 with Some fn => negb (is_allocator_frame fn)
                                            | None => false end)) frames with
  | (ip, Some fn) :: _ => Some (ip, fn)
  | _ => None
  end.

(** Does the site match one of the listed sites? *)
Definition site_selected (sites : list chars) (frame : option (Z * chars)) : bool :=
  match frame with
  | None => false
  | Some (ip, fn) => Nat.eqb (List.length sites) 0 || site_known fn (ip_text ip) sites
  end.

Lemma wp_site_loop frames szB : forall (s : tool) (Q : bool -> tool -> Prop),
  (forall s', same_core s s' -> Q (site_selected (mx_sites s) (site_frame frames)) s') ->
  wp (site_loop frames szB) s Q.
Proof using Type.
  induction frames as [|[ip fnname] frames IH]; intros s Q HQ; cbn [site_loop].
  { apply wp_ret, (HQ s), same_core_refl. }
  destruct fnname as [fn|]; [|by apply IH].
  destruct (is_allocator_frame fn) eqn:Ea.
  { apply IH. intros s' Hs. specialize (HQ s' Hs). unfold site_frame in HQ. cbn in HQ.
    by rewrite Ea in HQ. }
  assert (site_frame ((ip, Some fn) :: frames) = Some (ip, fn)) as Es.
  { unfold site_frame. cbn. by rewrite Ea. }
  rewrite Es in HQ. apply wp_bind. unfold wp at 1. rewrite sprintf_ip.
  apply wp_bind, wp_gets, wp_bind.
  assert (forall s1 : tool, same_core s s1 ->
    wp (sites <- gets mx_sites ;; if Nat.eqb (List.length sites) 0 then ret true
        else ret (site_known fn (ip_text ip) sites)) s1 Q) as Hend.
  { intros s1 Hc. apply wp_bind, wp_gets. pose proof Hc as (_ & Hm & _). rewrite Hm.
    unfold site_selected in HQ. destruct (Nat.eqb (List.length (mx_sites s)) 0); cbn [orb] in HQ;
      by apply wp_ret, HQ. }
  destruct (clo_mx_list_sites (opts s)).
  - destruct (mxsite_prints (ip_text ip) fn szB) as (k & o & E). by eapply wp_umsg.
  - apply wp_ret, Hend, same_core_refl.
Qed.

(** [mx_site_selected] decides whether the site is selected; with no list
    of sites and nothing to print every block is. *)
Lemma wp_mx_site_selected th szB (s : tool) (Q : bool -> tool -> Prop) :
  (forall s', same_core s s' ->
     Q ((Nat.eqb (List.length (mx_sites s)) 0 && negb (clo_mx_list_sites (opts s)))
        || site_selected (mx_sites s) (site_frame (take 16 (stack th)))) s') ->
  wp (mx_site_selected th szB) s Q.
Proof using Type.
  intros HQ. unfold mx_site_selected. apply wp_bind, wp_gets, wp_bind, wp_gets.
  destruct (_ && _) eqn:E.
  - apply wp_ret, (HQ s), same_core_refl.
  - apply wp_site_loop. intros s' Hs. by apply HQ.
Qed.

(** The size that is allocated *)
Definition eff (szB : Z) : Z := if szB =? 0 then 1 else szB.

(** The map and the log after a block of [szB] bytes is allocated at [p] *)
Definition alloc_tracks (s : tool) (szB : Z) : bool := clo_min_block_size (opts s) <=? szB.

(** Whether a block allocated by the thread is to be kept in MX form *)
Definition site_wanted (s : tool) (th : thread) : bool :=
  (Nat.eqb (List.length (mx_sites s)) 0 && negb (clo_mx_list_sites (opts s)))
  || site_selected (mx_sites s) (site_frame (take 16 (stack th))).
Definition mx_wanted (s : tool) (th : thread) : bool :=
  clo_mx_round (opts s) && site_wanted s th.

Lemma wp_new_block (s : tool) T es (th : thread) (szB al : Z) (z : bool) (Q : Z -> tool -> Prop) : tool_inv s T es ->
  (forall s', tool_inv s' T es -> gm s' = gm s -> opts s' = opts s ->
     (2 ^ 63 <= szB /\ s' = s \/ szB < 2 ^ 63 /\ cli_malloc al (eff szB) (ch s) = (0, ch s')) ->
     Q 0 s') ->
  (forall p m s', szB < 2 ^ 63 -> cli_malloc al (eff szB) (ch s) = (p, ch s') -> p <> 0 ->
     gm s' = (if z then memset (gm s) p 0 (eff szB) else gm s) -> opts s' = opts s ->
     m = mx_wanted s th ->
     (if alloc_tracks s (eff szB)
      then tool_inv s' (track T (mk_block p (eff szB) (exe_context th) m))
             (es ++ [EAlloc p (eff szB) (exe_context th)])
      else tool_inv s' T es) -> Q p s') ->
  wp (new_block pp th szB al z) s Q.
Proof using Type.
  intros Hinv HF HS. unfold new_block.
  destruct (Z.leb_spec (2 ^ 63) szB) as [Hbig|Hsmall].
  { apply wp_ret, HF; auto. }
  fold (eff szB). cbv zeta. set (n := eff szB) in *. apply wp_bind. unfold wp at 1, do_cli_malloc.
  destruct (cli_malloc al n (ch s)) as [p h] eqn:Em.
  destruct (Z.eqb_spec p 0) as [->|Hp].
  { apply wp_ret, HF; [by eapply tool_inv_eq; [..|exact Hinv]|done|done|]. right. by split. }
  apply wp_bind. set (s0 := set_ch h s).
  set (s1 := if z then set_gm (memset (gm s0) p 0 n) s0 else s0).
  match goal with |- wp ?c s0 _ => assert (c s0 = Some (tt, s1)) as E1 by (unfold s1; by destruct z) end.
  unfold wp at 1. rewrite E1. clear E1.
  assert (tool_inv s1 T es) as Hinv1.
  { eapply tool_inv_eq; [..|exact Hinv]; unfold s1; by destruct z. }
  assert (opts s1 = opts s /\ mx_sites s1 = mx_sites s /\ ch s1 = h /\ gm s1 = (if z then memset (gm s) p 0 n else gm s))
    as (Eo & Em1 & Eh & Eg) by (unfold s1; by destruct z). clearbody s1.
  apply wp_bind, wp_gets, wp_bind. rewrite Eo. unfold alloc_tracks in HS.
  destruct (clo_min_block_size (opts s) <=? n).
  2:{ apply wp_ret, wp_ret. eapply (HS p (mx_wanted s th)); [done|by rewrite Eh|done..]. }
  apply wp_bind.
  assert (forall (b : bool) (s2 : tool), same_core s1 s2 -> b = mx_wanted s th ->
    wp (bk <- on_bt (malloc_block (mk_block p n (exe_context th) b)) ;;
        (if b then modify (mark n) else ret tt) ;;;
        on_bt (insert_block_rb bk) ;;;
        on_lb (add_to_buffer pp LOG_ALLOC p 0 n (exe_context th))) s2
      (fun _ s' => wp (ret p) s' Q)) as Htrack.
  { intros b s2 (Eo2 & _ & Eb2 & El2 & Eg2 & Eh2) Hb.
    eapply (wp_track s2 T es (mk_block p n (exe_context th) b)).
    - eapply tool_inv_eq; [..|exact Hinv1]; done.
    - intros s'. destruct b; eexists; by repeat split.
    - intros s' Hs' (s3 & s4 & bl & Ef & -> & ->). apply wp_ret. eapply (HS p b).
      + done.
      + cbn. destruct b; [unfold modify in Ef|]; injection Ef as <-; cbn; by rewrite Eh2, Eh.
      + done.
      + cbn. destruct b; [unfold modify in Ef|]; injection Ef as <-; cbn; by rewrite Eg2, Eg.
      + cbn. destruct b; [unfold modify in Ef|]; injection Ef as <-; cbn; by rewrite Eo2, Eo.
      + done.
      + exact Hs'. }
  unfold mx_wanted, site_wanted in Htrack. destruct (clo_mx_round (opts s)) eqn:Er.
  - apply wp_mx_site_selected. intros s2 Hc. apply Htrack; [done|]. by rewrite Eo, Em1.
  - apply wp_ret. by apply (Htrack false s1 (same_core_refl s1)).
Qed.
End Tool.
