(* ===== verification/ToolTrace.v ===== *)
(** Runs of the tool: the handlers as the steps of a transition system, the
    log as a faithful, self-contained account of the tracked blocks, and that
    no handler fails. *)
From stdpp Require Import base gmap list strings sets.
From Stdlib Require Import ZArith Lia Ascii String.
From S2P Require Import Prelude Mem LibcMem LibcMemProofs RbTree RbInv RbSearch BlockTrack BlockIndex Printf LibcStr LogBuffer Mx Options Tool ToolProofs.
Open Scope prog_scope.
Open Scope Z_scope.

(** ** Well-formed logs *)

(** What a log says of the tracked blocks, replayed on a map of their sizes:
    a block is freed where and with the size it was allocated, and a store
    falls inside the tracked block with the greatest start below it. *)
Abbreviation sizes := (gmap Z Z).

(** The tracked block that contains an address, in a map of sizes *)
Definition inside (T : sizes) (addr : Z) : Prop :=
  exists k n, T !! k = Some n /\ k <= addr < u64 (k + n) /\
    forall k', is_Some (T !! k') -> k' <= addr -> k' <= k.

Definition replay_alloc (T : sizes) (a sz : Z) : sizes :=
  match T !! a with Some _ => T | None => <[a := sz]> T end.

Inductive log_ok : sizes -> list event -> sizes -> Prop :=
| lo_nil T : log_ok T [] T
| lo_alloc T a sz w es T' :
    log_ok (replay_alloc T a sz) es T' -> log_ok T (EAlloc a sz w :: es) T'
| lo_free T a sz w es T' :
    T !! a = Some sz -> log_ok (delete a T) es T' -> log_ok T (EFree a sz w :: es) T'
| lo_store T a v es T' :
    inside T a -> log_ok T es T' -> log_ok T (EStore a v :: es) T'.

Create HintDb logdb.
#[export] Hint Constructors log_ok : logdb.

Lemma log_ok_app T1 es1 T2 es2 T3 : log_ok T1 es1 T2 -> log_ok T2 es2 T3 -> log_ok T1 (es1 ++ es2) T3.
Proof. induction 1; cbn; eauto with logdb. Qed.

Lemma log_ok_one T e T' es T'' : log_ok T [e] T' -> log_ok T' es T'' -> log_ok T (e :: es) T''.
Proof. apply (log_ok_app T [e]). Qed.

(** The log determines the tracked blocks. *)
Lemma log_ok_fun T es T1 : log_ok T es T1 -> forall T2, log_ok T es T2 -> T1 = T2.
Proof. induction 1; intros T2 H2; inversion H2; subst; auto. Qed.

(** ** The sizes of the tracked blocks *)

Definition sizes_of (T : gmap Z Block) : sizes := req_szB <$> T.

Lemma sizes_of_lookup T k : sizes_of T !! k = req_szB <$> (T !! k).
Proof. apply lookup_fmap. Qed.

Lemma sizes_of_track T b : sizes_of (track T b) = replay_alloc (sizes_of T) (payload b) (req_szB b).
Proof.
  unfold track, replay_alloc. rewrite sizes_of_lookup. destruct (T !! payload b); cbn; [done|].
  apply fmap_insert.
Qed.

Lemma sizes_of_delete T k : sizes_of (delete k T) = delete k (sizes_of T).
Proof. apply fmap_delete. Qed.

Lemma found_inside T addr b : found_in T addr b -> inside (sizes_of T) addr.
Proof.
  intros [(Hb & Hle & Hmax) Hc]. exists (payload b), (req_szB b). rewrite sizes_of_lookup, Hb.
  split; [done|]. split; [done|]. intros k' [n Hn] Hk. apply Hmax; [|done].
  rewrite sizes_of_lookup in Hn. destruct (T !! k'); [eauto|done].
Qed.

(** ** The steps of a run *)

Inductive op :=
| OpMalloc (th : thread) (szB : Z)
| OpNewAligned (th : thread) (szB alignB orig : Z)
| OpCalloc (th : thread) (nmemb size1 : Z)
| OpFree (th : thread) (p : Z)
| OpRealloc (th : thread) (p szB : Z)
| OpUsable (p : Z)
| OpStore (addr value : Z)
| OpAfterStore (addr size : Z)
| OpRequest (th : thread) (arg0 arg1 arg2 : Z).

Section Trace.
Context {H : Type} `{ClientHeap H} (pp : positive -> chars).
Abbreviation tool := (tool (H := H)).

Definition handle (o : op) : M tool Z :=
  match o with
  | OpMalloc th n => ml_malloc pp th n
  | OpNewAligned th n al orig => ml___builtin_new_aligned pp th n al orig
  | OpCalloc th a b => ml_calloc pp th a b
  | OpFree th p => ml_free pp th p ;;; ret 0
  | OpRealloc th p n => ml_realloc pp th p n
  | OpUsable p => ml_malloc_usable_size p
  | OpStore a v => log_store pp a v ;;; ret 0
  | OpAfterStore a n => mx_after_store a n ;;; ret 0
  | OpRequest th a0 a1 a2 => r <- ml_handle_client_request pp th a0 a1 a2 ;; ret (default 0 r.2)
  end.

(** A run: operations in the order the client performs them.  There is no
    step where an operation is undefined (freeing a foreign pointer). *)
Inductive runs : tool -> list op -> tool -> Prop :=
| run_nil s : runs s [] s
| run_step s o r s1 os s2 :
    handle o s = Some (r, s1) -> runs s1 os s2 -> runs s (o :: os) s2.

(** The initial state: nothing tracked, nothing logged *)
Definition ml_init (o : options) (h : H) (m : gmem) : tool :=
  mk_tool o [] bt_init lb_init m h stats0 0 0 [].

Lemma ml_init_inv o h m : tool_inv pp (ml_init o h m) ∅ [].
Proof using Type. split; [apply bt_inv_init|apply logged_init]. Qed.

(** ** What an operation does to the map and the log *)

(** The state describes [T'] and the log [es] with the events of [T] to
    [T'] after it. *)
Definition advances (T : gmap Z Block) (es : list event) (s' : tool) : Prop :=
  exists T' new, log_ok (sizes_of T) new (sizes_of T') /\ tool_inv pp s' T' (es ++ new).

Lemma advances_same T es s' : tool_inv pp s' T es -> advances T es s'.
Proof using Type.
  intros Hi. exists T, []. rewrite app_nil_r. split; [constructor|done].
Qed.

Lemma advances_trans T es s1 s2 : advances T es s1 ->
  (forall T1 es1, tool_inv pp s1 T1 es1 -> advances T1 es1 s2) -> advances T es s2.
Proof using Type.
  intros (T1 & n1 & L1 & I1) Hs. destruct (Hs _ _ I1) as (T2 & n2 & L2 & I2).
  exists T2, (n1 ++ n2). rewrite app_assoc. split; [by eapply log_ok_app|done].
Qed.

(** The invariant does not depend on memory, heap, counters or messages. *)
Lemma advances_eq T es s s' : bt s' = bt s -> lb s' = lb s -> advances T es s -> advances T es s'.
Proof using Type.
  intros Eb El (T' & n & L & I). exists T', n. split; [done|]. by eapply tool_inv_eq.
Qed.

Lemma bind_Some {S A B} (m : M S A) (k : A -> M S B) s r s2 : bind m k s = Some (r, s2) ->
  exists a s1, m s = Some (a, s1) /\ k a s1 = Some (r, s2).
Proof using Type. unfold bind. destruct (m s) as [[a s1]|]; [|done]. eauto. Qed.

Lemma wp_Some {S A} (m : M S A) s Q r s' : wp m s Q -> m s = Some (r, s') -> Q r s'.
Proof using Type. unfold wp. intros Hw E. by rewrite E in Hw. Qed.

Lemma new_block_advances s T es th szB al z r s' : tool_inv pp s T es ->
  new_block pp th szB al z s = Some (r, s') -> advances T es s'.
Proof using Type.
  intros Hi E. eapply (wp_Some _ _ (fun _ (s' : tool) => advances T es s')); [|exact E].
  eapply wp_new_block; [exact Hi|..].
  - intros s1 Hi1 _ _ _. by apply advances_same.
  - intros p m s1 _ _ _ _ _ _ Ht. destruct (alloc_tracks s (eff szB)).
    + eexists _, _. split; [|exact Ht]. rewrite sizes_of_track. eauto with logdb.
    + by apply advances_same.
Qed.

Lemma untrack_advances s T es th p r s' : tool_inv pp s T es ->
  untrack pp th p s = Some (r, s') -> advances T es s'.
Proof using Type.
  intros Hi E. eapply (wp_Some _ _ (fun _ (s' : tool) => advances T es s')); [|exact E].
  eapply wp_untrack; [exact Hi|]. intros b l T' new Hu Hi'. exists T', new. split; [|exact Hi'].
  destruct Hu as [(b' & [(Hb & _) _] & <- & -> & ->)|(_ & -> & ->)]; [|constructor].
  apply lo_free; [by rewrite sizes_of_lookup, Hb|]. rewrite sizes_of_delete. constructor.
Qed.

Lemma die_block_advances s T es th p r s' : tool_inv pp s T es ->
  die_block pp th p s = Some (r, s') -> advances T es s'.
Proof using Type.
  intros Hi E. unfold die_block in E. destruct (p =? 0).
  { unfold ret in E. simplify_eq. by apply advances_same. }
  apply bind_Some in E as (u & s1 & E1 & E2).
  pose proof (untrack_advances _ _ _ _ _ _ _ Hi E1) as Ha.
  unfold do_cli_free in E2. destruct (cli_free p (ch s1)); simplify_eq.
  by eapply advances_eq; [..|exact Ha].
Qed.

Lemma realloc_copy_advances s T es th p n r s' : tool_inv pp s T es ->
  realloc_copy pp th p n s = Some (r, s') -> advances T es s'.
Proof using Type.
  intros Hi E. unfold realloc_copy in E.
  apply bind_Some in E as (old & s1 & E1 & E). apply bind_Some in E as (oldsz & s2 & E2 & E).
  assert (s1 = s) as ->.
  { eapply (wp_Some (on_bt (find_block_containing p)) s (fun _ (s' : tool) => s' = s)); [|exact E1].
    apply wp_on_bt. eapply wp_find_block; [apply Hi|..]; intros; apply set_bt_same. }
  assert (s2 = s) as ->.
  { destruct old as [l|].
    - apply bind_Some in E2 as (b & s3 & E3 & E2). unfold ret in E2. simplify_eq.
      unfold on_bt, zoom, load_block in E3. destruct (blocks (bt s) !! l); simplify_eq.
      apply set_bt_same.
    - unfold do_usable_size in E2. destruct (cli_malloc_usable_size p (ch s)); by simplify_eq. }
  apply bind_Some in E as (pn & s3 & E3 & E).
  pose proof (new_block_advances _ _ _ _ _ _ _ _ _ Hi E3) as Ha.
  destruct (pn =? 0); [unfold ret in E; by simplify_eq|].
  apply bind_Some in E as (u & s4 & E4 & E). unfold modify in E4. simplify_eq.
  apply bind_Some in E as (u & s5 & E5 & E). unfold ret in E. simplify_eq.
  eapply (advances_trans T es s3); [done|]. intros T1 es1 Hi1.
  eapply die_block_advances; [|exact E5]. by eapply tool_inv_eq; [..|exact Hi1].
Qed.

Lemma after_store_same (s : tool) T es a n r (s' : tool) : tool_inv pp s T es ->
  mx_after_store a n s = Some (r, s') -> bt s' = bt s /\ lb s' = lb s.
Proof using Type.
  intros Hi E.
  eapply (wp_Some _ _ (fun _ (s' : tool) => bt s' = bt s /\ lb s' = lb s)); [|exact E].
  unfold mx_after_store. apply wp_bind, wp_on_bt. eapply wp_find_block; [apply Hi|..].
  - intros bl b Hb _ _. rewrite set_bt_same. apply wp_bind, wp_on_bt.
    eapply wp_load_block; [exact Hb|]. rewrite set_bt_same.
    destruct (mx b); cbn [negb]; [|by apply wp_ret]. apply wp_modify.
    by destruct (mx_after_store_in _ _ _ _ _ _).
  - intros _. rewrite set_bt_same. by apply wp_ret.
Qed.

(** Every operation extends the log with events that account for its
    effect on the tracked blocks. *)
Lemma handle_advances s T es o r s' : tool_inv pp s T es ->
  handle o s = Some (r, s') -> advances T es s'.
Proof using Type.
  intros Hi E. destruct o as [th n|th n al orig|th a b|th p|th p n|p|a v|a n|th a0 a1 a2];
    cbn [handle] in E.
  - by eapply new_block_advances.
  - by eapply new_block_advances.
  - by eapply new_block_advances.
  - apply bind_Some in E as (u & s1 & E1 & E). unfold ret in E. simplify_eq.
    by eapply die_block_advances.
  - unfold ml_realloc in E. destruct (p =? 0); [by eapply new_block_advances|].
    apply bind_Some in E as (zf & s1 & E1 & E). unfold gets in E1. simplify_eq.
    destruct (n =? 0); [|by eapply realloc_copy_advances].
    destruct (clo_realloc_zero_bytes_frees (clo_rm (opts s1))); [|by eapply realloc_copy_advances].
    apply bind_Some in E as (u & s2 & E2 & E). unfold ret in E. simplify_eq.
    by eapply die_block_advances.
  - apply bind_Some in E as (rb & s1 & E1 & E).
    assert (s1 = s) as ->.
    { eapply (wp_Some (block_at p) s (fun _ (s' : tool) => s' = s)); [|exact E1].
      by eapply wp_block_at. }
    apply advances_same. destruct rb as [[l b]|]; [unfold ret in E; by simplify_eq|].
    unfold do_usable_size in E. destruct (cli_malloc_usable_size p (ch s)); by simplify_eq.
  - apply bind_Some in E as (u & s1 & E1 & E). unfold ret in E. simplify_eq.
    eapply (wp_Some _ _ (fun _ (s' : tool) => advances T es s')); [|exact E1].
    eapply wp_log_store; [exact Hi|..].
    + intros l [b Hb] Hi'. eexists T, _. split; [|exact Hi']. apply lo_store; [|constructor].
      by eapply found_inside.
    + intros _. by apply advances_same.
  - apply bind_Some in E as (u & s1 & E1 & E). unfold ret in E. simplify_eq.
    destruct (after_store_same _ _ _ _ _ _ _ Hi E1) as [Eb El].
    apply advances_same. by eapply tool_inv_eq.
  - apply bind_Some in E as (rb & s1 & E1 & E). unfold ret in E. simplify_eq.
    unfold ml_handle_client_request in E1.
    destruct (a0 =? VG_USERREQ__MEMLOG_TRACK_BLOCK).
    { apply bind_Some in E1 as (u & s2 & E2 & E1). unfold ret in E1. simplify_eq.
      destruct (0 <? a2); [|unfold ret in E2; simplify_eq; by apply advances_same].
      eapply (wp_Some _ _ (fun _ (s' : tool) => advances T es s')); [|exact E2].
      eapply (wp_mono _ s (fun _ (s' : tool) => advances T es s')); [|done].
      eapply (wp_ext _ (bk <- on_bt (malloc_block (mk_block a1 a2 (exe_context th) false)) ;;
        ret tt ;;; on_bt (insert_block_rb bk) ;;;
        on_lb (add_to_buffer pp LOG_ALLOC a1 0 a2 (exe_context th)))); [done|].
      eapply (wp_track pp s T es (mk_block a1 a2 (exe_context th) false) (ret tt)); [done| |].
      - intros s3. by exists s3.
      - intros s3 Hs3 _. eexists _, _. split; [|exact Hs3]. rewrite sizes_of_track.
        eauto with logdb. }
    destruct (a0 =? VG_USERREQ__MEMLOG_UNTRACK_BLOCK).
    + apply bind_Some in E1 as (u & s2 & E2 & E1). unfold ret in E1. simplify_eq.
      by eapply untrack_advances.
    + unfold ret in E1. simplify_eq. by apply advances_same.
Qed.

Lemma runs_advance s os s' : runs s os s' -> forall T es, tool_inv pp s T es -> advances T es s'.
Proof using Type.
  induction 1 as [s|s o r s1 os s2 E Hr IH]; intros T es Hi; [by apply advances_same|].
  eapply advances_trans; [by eapply handle_advances|]. exact IH.
Qed.

(** ** The end of the run *)

Lemma fini_prints1 a b c d e f : exists k o, debugLog_vprintf false
  (str ("MX: esz=%lld mbits=%lld emax=%lld emin=%lld scale_bits=%lld sites=%d" ++ newline))
  [VWord a; VWord b; VWord c; VWord d; VWord e; VWord f] = Some (k, o).
Proof using Type. eexists _, _. cbv -[myvprintf_int64 u64 u32 sext32 app]. reflexivity. Qed.
Lemma fini_prints2 a b c : exists k o, debugLog_vprintf false
  (str ("MX: blocks_marked=%llu bytes_marked=%llu stores=%llu" ++ newline))
  [VWord a; VWord b; VWord c] = Some (k, o).
Proof using Type. eexists _, _. cbv -[myvprintf_int64 u64 u32 app]. reflexivity. Qed.
Lemma fini_prints3 a b c : exists k o, debugLog_vprintf false
  (str ("MX: values_changed=%llu values_flushed=%llu values_saturated=%llu" ++ newline))
  [VWord a; VWord b; VWord c] = Some (k, o).
Proof using Type. eexists _, _. cbv -[myvprintf_int64 u64 u32 app]. reflexivity. Qed.
Lemma fini_prints4 a b : exists k o, debugLog_vprintf false
  (str ("MX: blocks_nan=%llu scales_clamped=%llu" ++ newline))
  [VWord a; VWord b] = Some (k, o).
Proof using Type. eexists _, _. cbv -[myvprintf_int64 u64 u32 app]. reflexivity. Qed.

Lemma wp_ml_fini s T es (Q : unit -> tool -> Prop) : tool_inv pp s T es ->
  (forall s', out (lb s') = texts pp es -> log_count (lb s') = 0 ->
     root (tracked_blocks (bt s')) = None -> nodes (tracked_blocks (bt s')) = ∅ -> Q tt s') ->
  wp (ml_fini pp) s Q.
Proof using Type.
  intros [[t Hb] Hl] HQ. unfold ml_fini. apply wp_bind, wp_on_lb. eapply wp_flush; [exact Hl|].
  intros l _ Hc Ho. apply wp_bind, wp_gets. unfold id. apply wp_bind.
  assert (forall s1, same_core (set_lb l s) s1 -> wp (on_bt free_rb_tree) s1 Q) as Hend.
  { intros s1 (_ & _ & Eb & El & _). apply wp_on_bt. rewrite Eb. cbn [bt set_lb].
    eapply wp_free_rb_tree; [exact Hb|]. intros b Hb' Hn _. apply HQ; cbn.
    - by rewrite El.
    - by rewrite El.
    - destruct Hb' as (t' & (HR & _ & Hroot) & _ & _ & [_ Hk] & _ & Hdom & _).
      rewrite Hn, dom_empty_L in Hdom. destruct t' as [|l' ? ? ? ? ?]; [done|]. exfalso.
      assert (l' ∈ (∅ : gset loc)) as []%not_elem_of_empty.
      rewrite Hdom. apply elem_of_list_to_set. cbn. set_solver.
    - done. }
  set (s1 := set_lb l s) in *. destruct (clo_mx_round (opts s1)).
  2:{ apply wp_ret, Hend, same_core_refl. }
  apply wp_bind. edestruct fini_prints1 as (k1 & o1 & E1). eapply wp_umsg; [exact E1|]. intros s2 H2.
  apply wp_bind. edestruct fini_prints2 as (k2 & o2 & E2). eapply wp_umsg; [exact E2|]. intros s3 H3.
  apply wp_bind. edestruct fini_prints3 as (k3 & o3 & E3). eapply wp_umsg; [exact E3|]. intros s4 H4.
  edestruct fini_prints4 as (k4 & o4 & E4). eapply wp_umsg; [exact E4|]. intros s5 H5.
  apply Hend. eauto using same_core_trans.
Qed.
End Trace.

(** * The handlers on the client's heap: freeing and reallocating, and that
    every operation a well-behaved client asks for is carried out. *)

Section Safe.
Context {H : Type} `{ClientHeapLaws H} (pp : positive -> chars).
Abbreviation tool := (tool (H := H)).

(** The client's heap *)
Definition heap (s : tool) : gmap Z Z := allocated (ch s).

(** ** Freeing *)

(** [die_block] of an allocated block: it is untracked if it was tracked,
    and given back to the heap; the memory is not touched. *)
Lemma wp_die_block (s : tool) T es th p (Q : unit -> tool -> Prop) : tool_inv pp s T es ->
  p <> 0 -> is_Some (heap s !! p) ->
  (forall s' T' new, untracked T p (exe_context th) T' new -> tool_inv pp s' T' (es ++ new) ->
     heap s' = delete p (heap s) -> gm s' = gm s -> opts s' = opts s -> Q tt s') ->
  wp (die_block pp th p) s Q.
Proof using All.
  intros Hi Hp Ha HQ. unfold die_block. destruct (Z.eqb_spec p 0); [done|].
  apply wp_bind. eapply wp_untrack; [exact Hi|]. intros b l T' new Hu Hi'.
  unfold wp, do_cli_free. cbn [ch set_bt set_lb].
  destruct (free_allocated p (ch s) Ha) as (h' & E & Eh). rewrite E.
  by eapply HQ; [exact Hu|eapply tool_inv_eq; [..|exact Hi']|..].
Qed.

(** ** Reallocating *)

(** The size [ml_realloc] takes for the old block *)
Definition old_size (s : tool) (T : gmap Z Block) (p n : Z) : Prop :=
  (exists b, found_in T p b /\ n = req_szB b) \/
  ((forall b, ~ found_in T p b) /\ heap s !! p = Some n).

Lemma wp_old_size (s : tool) T es p (Q : Z -> tool -> Prop) : tool_inv pp s T es ->
  is_Some (heap s !! p) -> (forall n, old_size s T p n -> Q n s) ->
  wp (old_bk <- on_bt (find_block_containing p) ;;
      match old_bk with
      | Some l => b <- on_bt (load_block (Some l)) ;; ret (req_szB b)
      | None => do_usable_size p
      end) s Q.
Proof using All.
  intros [Hb Hl] [u Hu] HQ. apply wp_bind, wp_on_bt. eapply wp_find_block; [exact Hb|..].
  - intros bl b Hbl Hf _. rewrite set_bt_same. apply wp_bind, wp_on_bt.
    eapply wp_load_block; [exact Hbl|]. rewrite set_bt_same. apply wp_ret, HQ. left. eauto.
  - intros Hn. rewrite set_bt_same. unfold wp, do_usable_size.
    rewrite (usable_size p (ch s) u Hu). apply HQ. by right.
Qed.

(** What is allocated at a fresh address *)
Definition heap_grows (h h' : gmap Z Z) (p n : Z) : Prop :=
  0 < p /\ h !! p = None /\ exists u, n <= u /\ p + u < 2 ^ 64 /\ h' = <[p := u]> h /\
    forall q k, h !! q = Some k -> q + k <= p \/ p + u <= q.

Lemma cli_malloc_grows (s s' : tool) al n p : 0 < n -> p <> 0 ->
  cli_malloc al n (ch s) = (p, ch s') -> heap_grows (heap s) (heap s') p n.
Proof using All. intros Hn Hp E. by eapply malloc_block_fresh. Qed.

Lemma eff_pos n : 0 <= n -> 0 < eff n.
Proof using Type. unfold eff. destruct (Z.eqb_spec n 0); lia. Qed.

(** The tracked blocks after a block is allocated *)
Definition tracked_alloc (s : tool) (T : gmap Z Block) (th : thread) (q n : Z) : gmap Z Block :=
  if alloc_tracks s (eff n) then track T (mk_block q (eff n) (exe_context th) (mx_wanted s th))
  else T.

(** A block was allocated at [q] and the one at [p] freed. *)
Definition moved (s : tool) (T : gmap Z Block) (th : thread) (p q n : Z) (h : gmap Z Z)
    (s' : tool) : Prop :=
  exists s1 es1 T' new, tool_inv pp s1 (tracked_alloc s T th q n) es1 /\ heap s1 = h /\
    opts s1 = opts s /\ untracked (tracked_alloc s T th q n) p (exe_context th) T' new /\
    tool_inv pp s' T' (es1 ++ new).

(** The whole of [realloc_copy]: it fails and changes nothing, or a new
    block has the old block's first bytes and the old one is freed. *)
Lemma wp_realloc_copy (s : tool) T es th p n (Q : Z -> tool -> Prop) : tool_inv pp s T es ->
  0 <= n -> p <> 0 -> is_Some (heap s !! p) ->
  (forall s', tool_inv pp s' T es -> heap s' = heap s -> gm s' = gm s -> opts s' = opts s -> Q 0 s') ->
  (forall k q s' h, old_size s T p k -> q <> 0 -> n < 2 ^ 63 -> heap_grows (heap s) h q (eff n) ->
     heap s' = delete p h -> gm s' = memmove (gm s) q p (Z.min k n) -> opts s' = opts s ->
     moved s T th p q n h s' -> Q q s') ->
  wp (realloc_copy pp th p n) s Q.
Proof using All.
  intros Hi Hn Hp Ha HF HS. unfold realloc_copy.
  eapply (wp_ext _ (old_szB <- (old_bk <- on_bt (find_block_containing p) ;;
    match old_bk with
    | Some l => b <- on_bt (load_block (Some l)) ;; ret (req_szB b)
    | None => do_usable_size p
    end) ;;
    p_new <- ml_malloc pp th n ;;
    if p_new =? 0 then ret 0 else
    modify (fun s => set_gm (memmove (gm s) p_new p (if old_szB <? n then old_szB else n)) s) ;;;
    ml_free pp th p ;;; ret p_new)).
  { unfold bind. by destruct (on_bt (find_block_containing p) s) as [[? ?]|]. }
  apply wp_bind. eapply wp_old_size; [exact Hi|exact Ha|]. intros k Hk.
  apply wp_bind. unfold ml_malloc. eapply wp_new_block; [exact Hi|..].
  - intros s' Hi' Hg Ho Hc. cbn [Z.eqb]. apply wp_ret, HF; [done| |done..].
    destruct Hc as [[_ ->]|[_ Ec]]; [done|]. by eapply malloc_fails.
  - intros q m s' Hsz Ec Hq Hg Ho -> Ht. destruct (Z.eqb_spec q 0); [done|].
    pose proof (cli_malloc_grows _ _ _ _ _ (eff_pos n Hn) Hq Ec) as Hgr.
    assert (exists es', tool_inv pp s' (tracked_alloc s T th q n) es') as (es' & Hi').
    { unfold tracked_alloc. destruct (alloc_tracks s (eff n)); eauto. }
    apply wp_bind, wp_modify, wp_bind. unfold ml_free.
    eapply wp_die_block; [eapply tool_inv_eq; [..|exact Hi']; done|done|..].
    + destruct Hgr as (_ & Hfr & u & _ & _ & Eh & _). change (is_Some (heap s' !! p)). rewrite Eh.
      rewrite lookup_insert_ne; [done|]. intros ->. destruct Ha as [? Ha]. congruence.
    + intros s2 T2 new Hu Hi2 Eh2 Eg2 Eo2. apply wp_ret.
      eapply HS; [exact Hk|done|done|exact Hgr|done|..].
      * rewrite Eg2. cbn [gm set_gm]. rewrite Hg. f_equal. destruct (Z.ltb_spec k n); lia.
      * by rewrite Eo2.
      * by exists s', es', T2, new.
Qed.

(** ** Every valid operation is carried out *)

(** What the client owes: sizes are unsigned, and a pointer that is freed,
    resized or asked about is null or starts an allocated block. *)
Definition live_ptr (s : tool) (p : Z) : Prop := is_Some (heap s !! p).

Definition valid_op (s : tool) (o : op) : Prop :=
  match o with
  | OpMalloc _ n => 0 <= n
  | OpNewAligned _ n _ _ => 0 <= n
  | OpFree _ p => p <> 0 -> live_ptr s p
  | OpRealloc _ p n => 0 <= n /\ (p <> 0 -> live_ptr s p)
  | OpUsable p => live_ptr s p
  | OpCalloc _ _ _ | OpStore _ _ | OpAfterStore _ _ | OpRequest _ _ _ _ => True
  end.

Lemma new_block_runs (s : tool) T es th n al z : tool_inv pp s T es ->
  wp (new_block pp th n al z) s (fun _ _ => True).
Proof using Type. intros Hi. eapply wp_new_block; [exact Hi|done..]. Qed.

Lemma die_block_runs (s : tool) T es th p : tool_inv pp s T es -> (p <> 0 -> live_ptr s p) ->
  wp (die_block pp th p) s (fun _ _ => True).
Proof using All.
  intros Hi Hp. destruct (decide (p = 0)) as [->|]; [done|]. eapply wp_die_block; [exact Hi|done|by apply Hp|done].
Qed.

Lemma realloc_runs (s : tool) T es th p n : tool_inv pp s T es -> 0 <= n ->
  (p <> 0 -> live_ptr s p) -> wp (ml_realloc pp th p n) s (fun _ _ => True).
Proof using All.
  intros Hi Hn Hp. unfold ml_realloc.
  destruct (Z.eqb_spec p 0); [by eapply new_block_runs|]. specialize (Hp n0).
  apply wp_bind, wp_gets. destruct (n =? 0).
  - destruct (clo_realloc_zero_bytes_frees (clo_rm (opts s))).
    + apply wp_bind. eapply wp_mono; [by eapply die_block_runs|done].
    + eapply wp_realloc_copy; [exact Hi|lia|done..].
  - eapply wp_realloc_copy; [exact Hi|lia|done..].
Qed.

(** [mx_after_store] touches only memory and the counters. *)
Lemma after_store_core (s : tool) T es a n : tool_inv pp s T es ->
  wp (mx_after_store a n) s (fun _ s' =>
    bt s' = bt s /\ lb s' = lb s /\ ch s' = ch s /\ opts s' = opts s).
Proof using Type.
  intros [Hb _]. unfold mx_after_store. apply wp_bind, wp_on_bt.
  eapply wp_find_block; [exact Hb|..].
  - intros bl b Hbl _ _. rewrite set_bt_same. apply wp_bind, wp_on_bt.
    eapply wp_load_block; [exact Hbl|]. rewrite set_bt_same.
    destruct (negb (mx b)); [by apply wp_ret|].
    apply wp_modify. by destruct (mx_after_store_in _ _ _ _ _ _).
  - intros _. rewrite set_bt_same. by apply wp_ret.
Qed.

Lemma request_runs (s : tool) T es th a0 a1 a2 : tool_inv pp s T es ->
  wp (ml_handle_client_request pp th a0 a1 a2) s (fun _ _ => True).
Proof using Type.
  intros Hi. unfold ml_handle_client_request. destruct (a0 =? _).
  { apply wp_bind. destruct (0 <? a2); [|done].
    eapply (wp_ext _ (bk <- on_bt (malloc_block (mk_block a1 a2 (exe_context th) false)) ;;
        ret tt ;;; on_bt (insert_block_rb bk) ;;;
        on_lb (add_to_buffer pp LOG_ALLOC a1 0 a2 (exe_context th)))); [done|].
    eapply (wp_track pp s T es (mk_block a1 a2 (exe_context th) false) (ret tt)); [done| |done].
    intros s3. by exists s3. }
  destruct (a0 =? _); [|done]. apply wp_bind. by eapply wp_untrack.
Qed.

Lemma handle_runs (s : tool) T es o : tool_inv pp s T es -> valid_op s o ->
  wp (handle pp o) s (fun _ _ => True).
Proof using All.
  intros Hi Hv. destruct o; cbn [handle valid_op] in *.
  - by eapply new_block_runs.
  - by eapply new_block_runs.
  - by eapply new_block_runs.
  - apply wp_bind. eapply wp_mono; [by eapply die_block_runs|done].
  - destruct Hv. by eapply realloc_runs.
  - apply wp_bind. eapply wp_block_at; [exact Hi|done|]. intros _.
    destruct Hv as [u Hu]. unfold wp, do_usable_size. by rewrite (usable_size p (ch s) u Hu).
  - apply wp_bind. by eapply wp_log_store.
  - apply wp_bind. eapply wp_mono; [by eapply after_store_core|done].
  - apply wp_bind. eapply wp_mono; [by eapply request_runs|done].
Qed.
End Safe.
