(* ===== verification/ToolHeap.v ===== *)
(** The tool against an abstract client heap: while the client makes no
    tracking requests, the tracked blocks are exactly its live allocations of
    at least the minimum size, and they are disjoint; and the file of MX
    sites. *)
From stdpp Require Import base gmap list strings sets.
From Stdlib Require Import ZArith Lia Ascii String.
From S2P Require Import Prelude Mem LibcMem LibcMemProofs RbTree RbInv RbSearch BlockTrack BlockIndex Printf LibcStr LogBuffer Mx Options Tool ToolProofs ToolTrace LibcStrProofs.
Open Scope prog_scope.
Open Scope Z_scope.

(** ** The abstract heap: the live allocations with their sizes *)

(** The [n] bytes at [r] meet no live allocation. *)
Definition fresh (A : sizes) (r n : Z) : Prop :=
  forall q k, A !! q = Some k -> q + k <= r \/ r + n <= q.

(** An allocation of [n] bytes fails, or gives fresh memory. *)
Inductive spec_alloc : sizes -> Z -> Z -> sizes -> Prop :=
| sp_none A n : spec_alloc A n 0 A
| sp_some A n r : 0 < r -> r + eff n < 2 ^ 64 -> fresh A r (eff n) ->
    spec_alloc A n r (<[r := eff n]> A).

(** What each operation may do, with its result; [zf] says whether resizing
    to nothing frees. *)
Inductive spec (zf : bool) : sizes -> op -> Z -> sizes -> Prop :=
| sp_malloc A th n r A' : spec_alloc A n r A' -> spec zf A (OpMalloc th n) r A'
| sp_aligned A th n al o r A' : spec_alloc A n r A' -> spec zf A (OpNewAligned th n al o) r A'
| sp_calloc A th a b r A' : spec_alloc A (u64 (a * b)) r A' -> spec zf A (OpCalloc th a b) r A'
| sp_free A th p : spec zf A (OpFree th p) 0 (delete p A)
| sp_realloc_null A th n r A' : spec_alloc A n r A' -> spec zf A (OpRealloc th 0 n) r A'
| sp_realloc_free A th p : p <> 0 -> zf = true -> spec zf A (OpRealloc th p 0) 0 (delete p A)
| sp_realloc_fail A th p n : p <> 0 -> spec zf A (OpRealloc th p n) 0 A
| sp_realloc A th p n r A' : p <> 0 -> r <> 0 -> n <> 0 \/ zf = false ->
    spec_alloc A n r A' -> spec zf A (OpRealloc th p n) r (delete p A')
| sp_usable A p r : spec zf A (OpUsable p) r A
| sp_store A a v : spec zf A (OpStore a v) 0 A
| sp_after A a n : spec zf A (OpAfterStore a n) 0 A.

Create HintDb heapdb.
#[export] Hint Constructors spec_alloc spec : heapdb.

Inductive spec_runs (zf : bool) : sizes -> list op -> sizes -> Prop :=
| sr_nil A : spec_runs zf A [] A
| sr_step A o r A1 os A2 : spec zf A o r A1 -> spec_runs zf A1 os A2 -> spec_runs zf A (o :: os) A2.

Section Heap.
Context {H : Type} `{ClientHeapLaws H} (pp : positive -> chars).
Abbreviation tool := (tool (H := H)).

(** The allocations the tool is to track *)
Definition tracked_part (s : tool) (A : gmap Z Z) : gmap Z Z :=
  filter (fun kn => clo_min_block_size (opts s) <= kn.2) A.

Record agrees (s : tool) (T : gmap Z Block) (A : sizes) : Prop := {
  ag_inv : exists es, tool_inv pp s T es;
  ag_heap : forall p n, A !! p = Some n ->
    exists u, heap s !! p = Some u /\ 0 < n <= u /\ 0 < p /\ p + u < 2 ^ 64;
  ag_dom : forall p, is_Some (heap s !! p) -> is_Some (A !! p);
  ag_disj : forall p q u v, heap s !! p = Some u -> heap s !! q = Some v -> p <> q ->
    p + u <= q \/ q + v <= p;
  ag_tracked : sizes_of T = tracked_part s A
}.

(** A tracked block is the allocation at its address. *)
Lemma agrees_lookup s T A p b : agrees s T A -> T !! p = Some b ->
  payload b = p /\ A !! p = Some (req_szB b) /\ clo_min_block_size (opts s) <= req_szB b.
Proof using Type.
  intros [[es [Hb _]] _ _ _ Ht] Hp. pose proof (bt_inv_keyed _ _ Hb p b Hp). split; [done|].
  assert (sizes_of T !! p = Some (req_szB b)) as E by (by rewrite sizes_of_lookup, Hp).
  rewrite Ht in E. unfold tracked_part in E. by apply map_lookup_filter_Some in E as [? ?].
Qed.

Lemma agrees_tracked s T A p n : agrees s T A -> A !! p = Some n ->
  clo_min_block_size (opts s) <= n -> exists b, T !! p = Some b /\ req_szB b = n.
Proof using Type.
  intros [_ _ _ _ Ht] Hp Hn.
  assert (sizes_of T !! p = Some n) as E.
  { rewrite Ht. by apply map_lookup_filter_Some_2. }
  rewrite sizes_of_lookup in E. destruct (T !! p) as [b|]; cbn in E; simplify_eq. eauto.
Qed.

(** Blocks are disjoint, so an address is found in the block it is in. *)
Lemma agrees_found s T A p b addr : agrees s T A -> T !! p = Some b ->
  p <= addr < p + req_szB b -> found_in T addr b.
Proof using Type.
  intros Hag Hp Ha. destruct (agrees_lookup _ _ _ _ _ Hag Hp) as (Ep & HA & _).
  destruct (ag_heap _ _ _ Hag _ _ HA) as (u & Hu & Hn & Hp0 & Hend).
  split; [split_and!|].
  - by rewrite Ep.
  - lia.
  - intros k [b' Hk] Hka. rewrite Ep. destruct (decide (k = p)) as [->|Hne]; [lia|].
    destruct (agrees_lookup _ _ _ _ _ Hag Hk) as (_ & HA' & _).
    destruct (ag_heap _ _ _ Hag _ _ HA') as (v & Hv & Hm & _ & _).
    destruct (ag_disj _ _ _ Hag _ _ _ _ Hu Hv ltac:(done)); lia.
  - unfold covers. rewrite u64_small by lia. lia.
Qed.

Lemma agrees_found_inv s T A addr b : agrees s T A -> found_in T addr b ->
  T !! payload b = Some b /\ payload b <= addr < payload b + req_szB b.
Proof using Type.
  intros Hag [(Hp & Hle & _) Hc]. split; [done|]. unfold covers in Hc.
  destruct (agrees_lookup _ _ _ _ _ Hag Hp) as (_ & HA & _).
  destruct (ag_heap _ _ _ Hag _ _ HA) as (u & Hu & Hn & Hp0 & Hend).
  rewrite u64_small in Hc by lia. lia.
Qed.

(** ** Allocation and freeing on both sides *)

Lemma filter_alloc s (A : gmap Z Z) p n : A !! p = None ->
  tracked_part s (<[p := n]> A) =
    if clo_min_block_size (opts s) <=? n then <[p := n]> (tracked_part s A) else tracked_part s A.
Proof using Type.
  intros Hn. unfold tracked_part. destruct (Z.leb_spec (clo_min_block_size (opts s)) n).
  - by rewrite map_filter_insert_True.
  - rewrite map_filter_insert_not'; [done|cbn; lia|]. intros y E. congruence.
Qed.

Lemma agrees_alloc s s' T A th q n es : agrees s T A ->
  tool_inv pp s' (tracked_alloc s T th q n) es -> heap_grows (heap s) (heap s') q (eff n) ->
  0 <= n -> opts s' = opts s -> agrees s' (tracked_alloc s T th q n) (<[q := eff n]> A).
Proof using All.
  intros Hag Hi (Hq & Hf & u & Hu & Hend & Eh & Hsep) Hn Eo. pose proof (eff_pos n Hn) as Hpos.
  assert (A !! q = None) as HA.
  { destruct (A !! q) as [k|] eqn:E; [|done]. destruct (ag_heap _ _ _ Hag _ _ E) as (v & Hv & _).
    congruence. }
  split.
  - eauto.
  - intros p k Hk. rewrite Eh. destruct (decide (p = q)) as [->|Hne].
    + rewrite lookup_insert_eq in Hk. simplify_eq. exists u. rewrite lookup_insert_eq. by auto with lia.
    + rewrite lookup_insert_ne in Hk by done. rewrite lookup_insert_ne by done.
      by apply (ag_heap _ _ _ Hag).
  - intros p. rewrite Eh. destruct (decide (p = q)) as [->|Hne].
    + rewrite !lookup_insert_eq. eauto.
    + rewrite !lookup_insert_ne by done. apply (ag_dom _ _ _ Hag).
  - rewrite Eh. intros p1 p2 u1 u2 L1 L2 Hne.
    apply lookup_insert_Some in L1 as [[<- <-]|[Hn1 L1]];
      apply lookup_insert_Some in L2 as [[<- <-]|[Hn2 L2]]; [done|..].
    + destruct (Hsep _ _ L2); auto.
    + by apply Hsep.
    + by apply (ag_disj _ _ _ Hag p1 p2).
  - unfold tracked_alloc, alloc_tracks.
    assert (tracked_part s' = tracked_part s) as -> by (unfold tracked_part; by rewrite Eo).
    rewrite filter_alloc by done. rewrite <- (ag_tracked _ _ _ Hag).
    destruct (clo_min_block_size (opts s) <=? eff n); [|done].
    rewrite sizes_of_track. cbn [payload req_szB]. unfold replay_alloc. rewrite sizes_of_lookup.
    destruct (T !! q) as [b|] eqn:E; [|done].
    destruct (agrees_lookup _ _ _ _ _ Hag E) as (_ & E' & _). congruence.
Qed.

Lemma agrees_free s s' T A p w T' new es : agrees s T A -> untracked T p w T' new ->
  tool_inv pp s' T' es -> heap s' = delete p (heap s) -> opts s' = opts s ->
  agrees s' T' (delete p A).
Proof using All.
  intros Hag Hu Hi Eh Eo. split.
  - eauto.
  - intros q k Hk. rewrite Eh. apply lookup_delete_Some in Hk as [Hne Hk].
    rewrite lookup_delete_ne by done. by apply (ag_heap _ _ _ Hag).
  - intros q. rewrite Eh. intros [u [Hne Hq]%lookup_delete_Some].
    rewrite lookup_delete_ne by done. apply (ag_dom _ _ _ Hag). eauto.
  - rewrite Eh. intros p1 p2 u1 u2 [_ L1]%lookup_delete_Some [_ L2]%lookup_delete_Some.
    by apply (ag_disj _ _ _ Hag).
  - assert (tracked_part s' = tracked_part s) as -> by (unfold tracked_part; by rewrite Eo).
    unfold tracked_part at 1. rewrite map_filter_delete. fold (tracked_part s A).
    rewrite <- (ag_tracked _ _ _ Hag).
    destruct Hu as [(b & _ & _ & -> & _)|(Hno & -> & _)]; [by rewrite sizes_of_delete|].
    symmetry. apply delete_id. rewrite sizes_of_lookup.
    destruct (T !! p) as [b|] eqn:E; [|done].
    destruct (agrees_lookup _ _ _ _ _ Hag E) as (Ep & HA & _).
    destruct (ag_heap _ _ _ Hag _ _ HA) as (u & _ & Hn & _).
    destruct (Hno b); [|done]. eapply agrees_found; [done|done|lia].
Qed.

Lemma agrees_same s s' T A es : agrees s T A -> tool_inv pp s' T es -> heap s' = heap s ->
  opts s' = opts s -> agrees s' T A.
Proof using Type.
  intros [Hi Hh Hd Hdj Ht] Hi' Eh Eo. split; rewrite ?Eh; eauto.
  unfold tracked_part. by rewrite Eo.
Qed.

Lemma grows_fresh s T A h q n : agrees s T A -> heap_grows (heap s) h q n -> fresh A q n.
Proof using Type.
  intros Hag (_ & _ & u & Hu & _ & _ & Hsep) k m Hk.
  destruct (ag_heap _ _ _ Hag _ _ Hk) as (v & Hv & Hm & _).
  destruct (Hsep _ _ Hv); lia.
Qed.

Lemma grows_spec s T A h q n : agrees s T A -> heap_grows (heap s) h q (eff n) ->
  spec_alloc A n q (<[q := eff n]> A).
Proof using Type.
  intros Hag Hg. pose proof (grows_fresh _ _ _ _ _ _ Hag Hg).
  destruct Hg as (Hq & _ & u & Hu & Hend & _). constructor; [done|lia|done].
Qed.

(** ** Every operation refines its specification *)

(** [s'] is a state of the abstract heap [A'] with the options of [s]. *)
Definition refined (s s' : tool) (A' : sizes) : Prop :=
  opts s' = opts s /\ exists T', agrees s' T' A'.

Lemma new_block_spec (s : tool) T A th n al z : agrees s T A -> 0 <= n ->
  wp (new_block pp th n al z) s (fun r s' => exists A', spec_alloc A n r A' /\ refined s s' A').
Proof using All.
  intros Hag Hn. destruct (ag_inv _ _ _ Hag) as [es Hi]. eapply wp_new_block; [exact Hi|..].
  - intros s' Hi' _ Eo Hc. exists A. split; [constructor|]. split; [done|]. exists T.
    eapply agrees_same; [done..| |done].
    destruct Hc as [[_ ->]|[_ Ec]]; [done|]. by eapply malloc_fails.
  - intros q m s' Hsz Ec Hq _ Eo -> Ht.
    pose proof (cli_malloc_grows pp _ _ _ _ _ (eff_pos n Hn) Hq Ec) as Hg.
    eexists. split; [by eapply grows_spec|]. split; [done|]. exists (tracked_alloc s T th q n).
    unfold tracked_alloc. destruct (alloc_tracks s (eff n)) eqn:Et;
      pose proof (agrees_alloc s s' T A th q n) as Ha; unfold tracked_alloc in Ha;
      rewrite Et in Ha; by eapply Ha.
Qed.

Lemma die_block_spec (s : tool) T A th p : agrees s T A -> (p <> 0 -> live_ptr s p) ->
  wp (die_block pp th p) s (fun _ s' => refined s s' (delete p A)).
Proof using All.
  intros Hag Hp. destruct (ag_inv _ _ _ Hag) as [es Hi]. destruct (decide (p = 0)) as [->|Hne].
  - apply wp_ret. split; [done|]. exists T. rewrite delete_id; [done|].
    destruct (A !! 0) eqn:E; [|done]. destruct (ag_heap _ _ _ Hag _ _ E) as (u & _ & _ & ? & _). lia.
  - eapply wp_die_block; [exact Hi|done|by apply Hp|]. intros s' T' new Hu Hi' Eh _ Eo.
    split; [done|]. exists T'. by eapply agrees_free.
Qed.

Lemma realloc_copy_spec zf (s : tool) T A th p n n' : agrees s T A -> 0 <= n -> p <> 0 ->
  live_ptr s p -> eff n = eff n' -> n' <> 0 \/ zf = false ->
  wp (realloc_copy pp th p n) s (fun r s' =>
    exists A', spec zf A (OpRealloc th p n') r A' /\ refined s s' A').
Proof using All.
  intros Hag Hn Hp Hl En Hz. destruct (ag_inv _ _ _ Hag) as [es Hi].
  eapply wp_realloc_copy; [exact Hi|done..| |].
  - intros s' Hi' Eh _ Eo. exists A. split; [auto with heapdb|]. split; [done|]. exists T.
    by eapply agrees_same.
  - intros k q s' h _ Hq _ Hg Eh _ Eo (s1 & es1 & T' & new & Hi1 & Eh1 & Eo1 & Hu & Hi').
    rewrite <- Eh1 in Hg, Eh.
    pose proof (grows_spec _ _ _ _ _ _ Hag Hg) as Hs.
    eexists. split.
    + apply (sp_realloc zf A th p n' q (<[q := eff n']> A)); [done..|].
      inversion Hs; subst; [done|]. rewrite En in *. by constructor.
    + split; [done|]. exists T'. rewrite <- En.
      eapply agrees_free; [eapply agrees_alloc; done|done..|congruence].
Qed.

Definition is_request (o : op) : bool := match o with OpRequest _ _ _ _ => true | _ => false end.

Lemma handle_spec (s : tool) T A o : agrees s T A -> valid_op s o -> is_request o = false ->
  wp (handle pp o) s (fun r s' => exists A',
    spec (clo_realloc_zero_bytes_frees (clo_rm (opts s))) A o r A' /\ refined s s' A').
Proof using All.
  intros Hag Hv Hr. destruct (ag_inv _ _ _ Hag) as [es Hi].
  destruct o as [th n|th n al orig|th a b|th p|th p n|p|a v|a n|]; cbn [handle valid_op] in *;
    [..|done].
  - eapply wp_mono; [by eapply new_block_spec|]. intros r s' (A' & ? & ?). eauto with heapdb.
  - eapply wp_mono; [by eapply new_block_spec|]. intros r s' (A' & ? & ?). eauto with heapdb.
  - eapply wp_mono; [eapply new_block_spec; [done|by apply u64_range]|].
    intros r s' (A' & ? & ?). eauto with heapdb.
  - apply wp_bind. eapply wp_mono; [by eapply die_block_spec|]. intros ? s' Hs. apply wp_ret.
    eauto with heapdb.
  - destruct Hv as [Hn Hp]. unfold ml_realloc. destruct (Z.eqb_spec p 0) as [->|Hne].
    { eapply wp_mono; [by eapply new_block_spec|]. intros r s' (A' & ? & ?). eauto with heapdb. }
    specialize (Hp Hne). apply wp_bind, wp_gets. destruct (Z.eqb_spec n 0) as [->|Hn0].
    + destruct (clo_realloc_zero_bytes_frees (clo_rm (opts s))) eqn:Ez.
      * apply wp_bind. eapply wp_mono; [by eapply die_block_spec|]. intros ? s' Hs. apply wp_ret.
        eauto with heapdb.
      * eapply (realloc_copy_spec false s T A th p 1 0); auto with lia.
    + eapply realloc_copy_spec; eauto.
  - apply wp_bind. eapply wp_block_at; [exact Hi|..].
    + intros l b _ _ _ _. apply wp_ret. exists A. split; [constructor|]. split; [done|eauto].
    + intros _. destruct Hv as [u Hu]. unfold wp, do_usable_size. rewrite (usable_size p (ch s) u Hu).
      exists A. split; [constructor|]. split; [done|eauto].
  - apply wp_bind. eapply wp_log_store; [exact Hi|..].
    + intros l _ Hi'. apply wp_ret. exists A. split; [constructor|]. split; [done|]. exists T.
      by eapply agrees_same.
    + intros _. apply wp_ret. exists A. split; [constructor|]. split; [done|eauto].
  - apply wp_bind. eapply wp_mono; [by eapply after_store_core|]. intros ? s' (Eb & El & Eh & Eo).
    apply wp_ret. exists A. split; [constructor|]. split; [done|]. exists T.
    eapply agrees_same; [done| |unfold heap; by rewrite Eh|done]. by eapply tool_inv_eq.
Qed.

(** Runs of a client that makes no tracking requests *)
Inductive valid_runs : tool -> list op -> tool -> Prop :=
| vr_nil s : valid_runs s [] s
| vr_step s o r s1 os s2 : valid_op s o -> is_request o = false ->
    handle pp o s = Some (r, s1) -> valid_runs s1 os s2 -> valid_runs s (o :: os) s2.

Lemma valid_runs_spec s os s' : valid_runs s os s' -> forall T A, agrees s T A ->
  exists A', spec_runs (clo_realloc_zero_bytes_frees (clo_rm (opts s))) A os A' /\ refined s s' A'.
Proof using All.
  induction 1 as [s|s o r s1 os s2 Hv Hr E Hrun IH]; intros T A Hag.
  { exists A. split; [constructor|]. split; [done|eauto]. }
  pose proof (wp_Some _ _ _ _ _ (handle_spec s T A o Hag Hv Hr) E) as (A1 & Hs & Eo & T1 & Hag1).
  destruct (IH T1 A1 Hag1) as (A2 & Hs2 & Eo2 & T2 & Hag2). rewrite Eo in *.
  exists A2. split; [by eapply sr_step|]. split; [done|eauto].
Qed.

Lemma agrees_init o h m : allocated h = ∅ -> agrees (ml_init o h m) ∅ ∅.
Proof using Type.
  intros Eh. split; unfold heap; cbn [ch ml_init]; rewrite ?Eh.
  - exists []. apply ml_init_inv.
  - intros p n. by rewrite lookup_empty.
  - intros p [u Hu]. by rewrite lookup_empty in Hu.
  - intros p q u v Hu. by rewrite lookup_empty in Hu.
  - unfold sizes_of, tracked_part. by rewrite fmap_empty, map_filter_empty.
Qed.
End Heap.

(** * The file of MX sites, as [mx_load_sites] reads it. *)

Definition line_ends : chars := str (String "013" newline).

(** A line that names a site *)
Definition names_site (t : chars) : bool := negb (ascii_eqb (cur t) "#") && negb (ascii_eqb (cur t) NUL).

(** The sites of a file: its non-empty lines that are no comments *)
Definition sites_of (buf : chars) : list chars :=
  List.filter names_site (fields line_ends buf).

(** The sites after the lines [ts], when there is room for [MX_MAX_SITES] *)
Definition add_sites (sites ts : list chars) : list chars :=
  sites ++ take (MX_MAX_SITES - List.length sites) (List.filter names_site ts).

Lemma add_sites_full sites ts : (MX_MAX_SITES <= List.length sites)%nat -> add_sites sites ts = sites.
Proof.
  intros Hl. unfold add_sites. replace (MX_MAX_SITES - List.length sites)%nat with 0%nat by lia.
  apply app_nil_r.
Qed.

Lemma add_sites_cons sites t ts : (List.length sites < MX_MAX_SITES)%nat ->
  add_sites sites (t :: ts) = add_sites (if names_site t then sites ++ [t] else sites) ts.
Proof.
  intros Hl. unfold add_sites. cbn [List.filter]. destruct (names_site t); [|done].
  rewrite length_app. cbn [List.length].
  destruct (MX_MAX_SITES - List.length sites)%nat as [|k] eqn:E; [lia|].
  replace (MX_MAX_SITES - (List.length sites + 1))%nat with k by lia.
  cbn [take]. by rewrite <- app_assoc.
Qed.

Lemma sites_loop_spec fuel : forall t save sites, (List.length save < fuel)%nat ->
  sites_loop fuel (Some t) save sites = Some (add_sites sites (t :: fields line_ends save)).
Proof.
  induction fuel as [|fuel IH]; intros t save sites Hf; [lia|]. cbn [sites_loop].
  destruct (Nat.ltb_spec (List.length sites) MX_MAX_SITES) as [Hl|Hl]; [|by rewrite add_sites_full].
  rewrite add_sites_cons by done. fold (names_site t). fold line_ends.
  set (sites' := if names_site t then sites ++ [t] else sites). clearbody sites'.
  pose proof (strtok_r_spec None line_ends save) as Hs. cbv zeta in Hs.
  destruct (strtok_r None line_ends save) as [[t'|] save'].
  - destruct Hs as (-> & _ & Hlt & _). apply IH. lia.
  - destruct Hs as [-> _].
    transitivity (Some sites'); [by destruct fuel|]. unfold add_sites. cbn. by rewrite take_nil, app_nil_r.
Qed.

Section Sites.
Context {H : Type} `{ClientHeap H}.
Abbreviation tool := (tool (H := H)).

(** The state with its sites replaced *)
Definition with_sites (l : list chars) (s : tool) : tool :=
  mk_tool (opts s) l (bt s) (lb s) (gm s) (ch s) (stats s)
          (mx_blocks_marked s) (mx_bytes_marked s) (messages s).

Lemma mx_load_sites_spec (s : tool) name buf : clo_mx_sites_file (opts s) = Some name ->
  mx_load_sites (Some buf) s = Some (tt, with_sites (add_sites (mx_sites s) (fields line_ends buf)) s).
Proof using Type.
  intros Hn. unfold mx_load_sites. rewrite Hn. fold line_ends.
  pose proof (strtok_r_spec (Some buf) line_ends []) as Hs. cbv zeta in Hs.
  destruct (strtok_r (Some buf) line_ends []) as [[t|] save].
  - destruct Hs as (-> & _ & Hlt & _). rewrite sites_loop_spec by lia. done.
  - destruct Hs as [-> _]. cbn [sites_loop]. unfold add_sites, with_sites. cbn.
    by rewrite take_nil, app_nil_r.
Qed.
End Sites.
