(* ===== verification/Heap.v ===== *)
(** A client heap for concrete runs: every block is put above all the others,
    at an address that is a multiple of the alignment. *)
From stdpp Require Import base gmap list fin_maps.
From Stdlib Require Import ZArith Lia.
From S2P Require Import Prelude Tool.
Open Scope Z_scope.

(** The first address above every block *)
Definition top_of (h : gmap Z Z) : Z :=
  map_fold (fun p n acc => Z.max acc (p + Z.max 1 n)) 4096 h.

Definition align_up (a x : Z) : Z := if 0 <? a then (x + a - 1) / a * a else x.

Definition top_malloc (a n : Z) (h : gmap Z Z) : Z * gmap Z Z :=
  let p := align_up a (top_of h) in
  if (0 <? n) && (p + n <? 2 ^ 64) then (p, <[p := n]> h) else (0, h).

#[export] Instance top_heap : ClientHeap (gmap Z Z) := {|
  cli_malloc := top_malloc;
  cli_free := fun p h => match h !! p with Some _ => Some (delete p h) | None => None end;
  cli_malloc_usable_size := fun p h => h !! p;
  allocated := id
|}.

Lemma top_of_above h : 4096 <= top_of h /\ forall q k, h !! q = Some k -> q + Z.max 1 k <= top_of h.
Proof.
  unfold top_of. revert h.
  apply (map_fold_weak_ind (fun r h => 4096 <= r /\ forall q k, h !! q = Some k -> q + Z.max 1 k <= r)).
  - split; [done|]. intros q k. by rewrite lookup_empty.
  - intros p n h r _ [Hr IH]. split; [lia|]. intros q k [[<- <-]|[_ E]]%lookup_insert_Some; [lia|].
    specialize (IH q k E). lia.
Qed.

Lemma align_up_above a x : x <= align_up a x.
Proof.
  unfold align_up. destruct (Z.ltb_spec 0 a); [|lia].
  pose proof (Z.div_mod (x + a - 1) a ltac:(lia)). pose proof (Z.mod_pos_bound (x + a - 1) a ltac:(lia)).
  lia.
Qed.

#[export] Instance top_heap_laws : ClientHeapLaws (gmap Z Z).
Proof.
  split; cbn.
  - intros a n h p h' Hn E Hp. unfold top_malloc in E.
    destruct (top_of_above h) as [Ht Ha]. pose proof (align_up_above a (top_of h)) as Hu.
    set (q := align_up a (top_of h)) in *. clearbody q.
    destruct (Z.ltb_spec 0 n), (Z.ltb_spec (q + n) (2 ^ 64)); cbn in E; simplify_eq.
    split; [lia|]. split.
    + destruct (id h !! p) as [k|] eqn:E; [|done]. specialize (Ha p k E). lia.
    + exists n. split; [lia|]. split; [lia|]. split; [done|]. intros q k E. specialize (Ha q k E). lia.
  - intros a n h h' E. unfold top_malloc in E.
    destruct (top_of_above h) as [Ht _]. pose proof (align_up_above a (top_of h)) as Hu.
    set (q := align_up a (top_of h)) in *. clearbody q.
    destruct (Z.ltb_spec 0 n), (Z.ltb_spec (q + n) (2 ^ 64)); cbn in E; simplify_eq; [lia|done..].
  - intros p h [k E]. unfold id in *. rewrite E. eauto.
  - done.
Qed.
