(* ===== verification/Instrument.v ===== *)
(** Instrumentation: the superblocks of VEX ([VEX/priv/ir_defs.c]) as far as
    the tool reads and builds them, the two instrumentation passes of
    [memlog/ml_main.c], and what executing a superblock means. *)
From stdpp Require Import base gmap list strings.
From Stdlib Require Import ZArith Lia Ascii String.
From S2P Require Import Prelude Mem RbTree BlockTrack Printf LogBuffer Mx Options Tool.
Open Scope prog_scope.
Open Scope Z_scope.

(** ** Types, constants and expressions of the IR *)

Inductive IRType :=
| Ity_INVALID | Ity_I1 | Ity_I8 | Ity_I16 | Ity_I32 | Ity_I64 | Ity_I128
| Ity_F16 | Ity_F32 | Ity_F64 | Ity_D32 | Ity_D64 | Ity_D128 | Ity_F128
| Ity_V128 | Ity_V256.

#[export] Instance IRType_eq_dec : EqDecision IRType.
Proof. solve_decision. Defined.

(** [None]: the function panics. *)
Definition sizeofIRType (ty : IRType) : option Z :=
  match ty with
  | Ity_I8 => Some 1
  | Ity_I16 => Some 2
  | Ity_I32 => Some 4
  | Ity_I64 => Some 8
  | Ity_I128 => Some 16
  | Ity_F16 => Some 2
  | Ity_F32 => Some 4
  | Ity_F64 => Some 8
  | Ity_F128 => Some 16
  | Ity_D32 => Some 4
  | Ity_D64 => Some 8
  | Ity_D128 => Some 16
  | Ity_V128 => Some 16
  | Ity_V256 => Some 32
  | Ity_I1 | Ity_INVALID => None
  end.

(** Floating constants are their bit patterns; a vector constant has one bit
    per byte lane. *)
Inductive IRConst :=
| Ico_U1 (b : bool) | Ico_U8 (w : Z) | Ico_U16 (w : Z) | Ico_U32 (w : Z) | Ico_U64 (w : Z)
| Ico_U128 (lanes : Z) | Ico_F32 (w : Z) | Ico_F32i (w : Z) | Ico_F64 (w : Z) | Ico_F64i (w : Z)
| Ico_V128 (lanes : Z) | Ico_V256 (lanes : Z).

Definition typeOfIRConst (con : IRConst) : IRType :=
  match con with
  | Ico_U1 _ => Ity_I1
  | Ico_U8 _ => Ity_I8
  | Ico_U16 _ => Ity_I16
  | Ico_U32 _ => Ity_I32
  | Ico_U64 _ => Ity_I64
  | Ico_U128 _ => Ity_I128
  | Ico_F32 _ => Ity_F32
  | Ico_F32i _ => Ity_F32
  | Ico_F64 _ => Ity_F64
  | Ico_F64i _ => Ity_F64
  | Ico_V128 _ => Ity_V128
  | Ico_V256 _ => Ity_V256
  end.

(** The operations the instrumentation uses *)
Inductive IROp :=
| Iop_1Uto64 | Iop_8Uto64 | Iop_16Uto64 | Iop_32Uto64
| Iop_ReinterpF32asI32 | Iop_ReinterpF64asI64 | Iop_ReinterpD64asI64
| Iop_V128to64 | Iop_V128HIto64 | Iop_128to64 | Iop_128HIto64
| Iop_F128HItoF64 | Iop_F128LOtoF64 | Iop_D128HItoD64 | Iop_D128LOtoD64
| Iop_V256to64_0 | Iop_V256to64_1 | Iop_V256to64_2 | Iop_V256to64_3
| Iop_Add64 | Iop_Sub64.

(** The result and argument types, as [typeOfPrimop] has them *)
Definition typeOfPrimop (op : IROp) : IRType * list IRType :=
  match op with
  | Iop_1Uto64 => (Ity_I64, [Ity_I1])
  | Iop_8Uto64 => (Ity_I64, [Ity_I8])
  | Iop_16Uto64 => (Ity_I64, [Ity_I16])
  | Iop_32Uto64 => (Ity_I64, [Ity_I32])
  | Iop_ReinterpF32asI32 => (Ity_I32, [Ity_F32])
  | Iop_ReinterpF64asI64 => (Ity_I64, [Ity_F64])
  | Iop_ReinterpD64asI64 => (Ity_I64, [Ity_D64])
  | Iop_V128to64 | Iop_V128HIto64 => (Ity_I64, [Ity_V128])
  | Iop_128to64 | Iop_128HIto64 => (Ity_I64, [Ity_I128])
  | Iop_F128HItoF64 | Iop_F128LOtoF64 => (Ity_F64, [Ity_F128])
  | Iop_D128HItoD64 | Iop_D128LOtoD64 => (Ity_D64, [Ity_D128])
  | Iop_V256to64_0 | Iop_V256to64_1 | Iop_V256to64_2 | Iop_V256to64_3 => (Ity_I64, [Ity_V256])
  | Iop_Add64 | Iop_Sub64 => (Ity_I64, [Ity_I64; Ity_I64])
  end.

(** Atoms, and the expressions the instrumentation builds; what a source
    superblock assigns to its temporaries is inside its other statements. *)
Inductive IRExpr :=
| Iex_RdTmp (tmp : nat)
| Iex_Const (con : IRConst)
| Iex_Unop (op : IROp) (arg : IRExpr)
| Iex_Binop (op : IROp) (arg1 arg2 : IRExpr).

(** ** Statements and superblocks *)

Inductive IREndness := Iend_LE | Iend_BE.
Inductive IREffect := Ifx_None | Ifx_Read | Ifx_Write | Ifx_Modify.

Record IRDirty := mk_dirty {
  cee : string;
  guard : IRExpr;
  args : list IRExpr;
  mFx : IREffect;
  mAddr : option IRExpr;
  mSize : Z
}.

Definition unsafeIRDirty_0_N (name : string) (args : list IRExpr) : IRDirty :=
  mk_dirty name (Iex_Const (Ico_U1 true)) args Ifx_None None 0.

Section IR.
(** All the statements both passes copy *)
Context {X : Type}.

Inductive IRStmt :=
| Ist_WrTmp (tmp : nat) (data : IRExpr)
| Ist_Store (en : IREndness) (addr data : IRExpr)
| Ist_Dirty (d : IRDirty)
| Ist_Other (x : X).

Definition IRTypeEnv := list IRType.

(** A null statement is [None]; [exit] stands for [next], [jumpkind] and
    [offsIP]. *)
Record IRSB := mk_irsb {
  tyenv : IRTypeEnv;
  stmts : list (option IRStmt);
  exit : IRExpr
}.

Definition deepCopyIRSBExceptStmts (bb : IRSB) : IRSB := mk_irsb (tyenv bb) [] (exit bb).

Definition addStmtToIRSB (st : IRStmt) : M IRSB unit :=
  modify (fun bb => mk_irsb (tyenv bb) (stmts bb ++ [Some st]) (exit bb)).

Definition newIRTemp (ty : IRType) : M IRSB nat := fun bb =>
  Some (List.length (tyenv bb), mk_irsb (tyenv bb ++ [ty]) (stmts bb) (exit bb)).

Definition typeOfIRTemp (env : IRTypeEnv) (tmp : nat) : option IRType := env !! tmp.

Definition typeOfIRExpr (env : IRTypeEnv) (e : IRExpr) : option IRType :=
  match e with
  | Iex_RdTmp tmp => typeOfIRTemp env tmp
  | Iex_Const con => Some (typeOfIRConst con)
  | Iex_Unop op _ => Some (typeOfPrimop op).1
  | Iex_Binop op _ _ => Some (typeOfPrimop op).1
  end.

(** ** Logging *)

Definition wire_log_store (addr_tmp : nat) (addr : IRExpr) (data_tmp : nat) (data_widen : IRExpr)
    : M IRSB unit :=
  addStmtToIRSB (Ist_WrTmp addr_tmp addr) ;;;
  addStmtToIRSB (Ist_WrTmp data_tmp data_widen) ;;;
  addStmtToIRSB (Ist_Dirty (unsafeIRDirty_0_N "log_store" [Iex_RdTmp addr_tmp; Iex_RdTmp data_tmp])).

(** [addr + k] *)
Definition plus (addr : IRExpr) (k : Z) : IRExpr :=
  Iex_Binop Iop_Add64 addr (Iex_Const (Ico_U64 k)).

(** The statement of a store, with the logging before it *)
Definition wire_store (in_env : IRTypeEnv) (addr data : IRExpr) : M IRSB unit :=
  addr_tmp <- newIRTemp Ity_I64 ;;
  data_tmp <- newIRTemp Ity_I64 ;;
  addr_tmp1 <- newIRTemp Ity_I64 ;;
  data_tmp1 <- newIRTemp Ity_I64 ;;
  addr_tmp2 <- newIRTemp Ity_I64 ;;
  data_tmp2 <- newIRTemp Ity_I64 ;;
  addr_tmp3 <- newIRTemp Ity_I64 ;;
  data_tmp3 <- newIRTemp Ity_I64 ;;
  match typeOfIRExpr in_env data with
  | None => fail
  | Some ty =>
      match ty with
      | Ity_I1 => wire_log_store addr_tmp addr data_tmp (Iex_Unop Iop_1Uto64 data)
      | Ity_I8 => wire_log_store addr_tmp addr data_tmp (Iex_Unop Iop_8Uto64 data)
      | Ity_I16 => wire_log_store addr_tmp addr data_tmp (Iex_Unop Iop_16Uto64 data)
      | Ity_I32 => wire_log_store addr_tmp addr data_tmp (Iex_Unop Iop_32Uto64 data)
      | Ity_I64 => wire_log_store addr_tmp addr data_tmp data
      | Ity_F32 =>
          wire_log_store addr_tmp addr data_tmp
            (Iex_Unop Iop_32Uto64 (Iex_Unop Iop_ReinterpF32asI32 data))
      | Ity_F64 => wire_log_store addr_tmp addr data_tmp (Iex_Unop Iop_ReinterpF64asI64 data)
      | Ity_V128 =>
          wire_log_store addr_tmp addr data_tmp (Iex_Unop Iop_V128HIto64 data) ;;;
          wire_log_store addr_tmp1 (plus addr 8) data_tmp1 (Iex_Unop Iop_V128to64 data)
      | Ity_I128 =>
          wire_log_store addr_tmp addr data_tmp (Iex_Unop Iop_128HIto64 data) ;;;
          wire_log_store addr_tmp1 (plus addr 8) data_tmp1 (Iex_Unop Iop_128to64 data)
      | Ity_F128 =>
          wire_log_store addr_tmp addr data_tmp
            (Iex_Unop Iop_ReinterpF64asI64 (Iex_Unop Iop_F128HItoF64 data)) ;;;
          wire_log_store addr_tmp1 (plus addr 8) data_tmp1
            (Iex_Unop Iop_ReinterpF64asI64 (Iex_Unop Iop_F128LOtoF64 data))
      | Ity_D128 =>
          wire_log_store addr_tmp addr data_tmp
            (Iex_Unop Iop_ReinterpD64asI64 (Iex_Unop Iop_D128HItoD64 data)) ;;;
          wire_log_store addr_tmp1 (plus addr 8) data_tmp1
            (Iex_Unop Iop_ReinterpD64asI64 (Iex_Unop Iop_D128LOtoD64 data))
      | Ity_V256 =>
          wire_log_store addr_tmp addr data_tmp (Iex_Unop Iop_V256to64_3 data) ;;;
          wire_log_store addr_tmp1 (plus addr 8) data_tmp1 (Iex_Unop Iop_V256to64_2 data) ;;;
          wire_log_store addr_tmp2 (plus addr 16) data_tmp2 (Iex_Unop Iop_V256to64_1 data) ;;;
          wire_log_store addr_tmp3 (plus addr 24) data_tmp3 (Iex_Unop Iop_V256to64_0 data)
      | Ity_F16 | Ity_D32 | Ity_D64 | Ity_INVALID => ret tt
      end
  end.

Fixpoint wire_memlog_loop (in_env : IRTypeEnv) (l : list (option IRStmt)) : M IRSB unit :=
  match l with
  | [] => ret tt
  | None :: l => wire_memlog_loop in_env l
  | Some stmt :: l =>
      match stmt with
      | Ist_Store _ addr data => wire_store in_env addr data
      | _ => ret tt
      end ;;;
      addStmtToIRSB stmt ;;;
      wire_memlog_loop in_env l
  end.

(** The instrumented superblock, or [None] when a panic ends the run *)
Definition wire_memlog (bb_in : IRSB) : option IRSB :=
  match wire_memlog_loop (tyenv bb_in) (stmts bb_in) (deepCopyIRSBExceptStmts bb_in) with
  | Some (_, bb_out) => Some bb_out
  | None => None
  end.

(** ** MX *)

Definition wire_mx_store (in_env : IRTypeEnv) (en : IREndness) (addr data : IRExpr) : M IRSB unit :=
  addr_tmp <- newIRTemp Ity_I64 ;;
  addStmtToIRSB (Ist_WrTmp addr_tmp addr) ;;;
  addStmtToIRSB (Ist_Store en (Iex_RdTmp addr_tmp) data) ;;;
  match typeOfIRExpr in_env data with
  | None => fail
  | Some ty =>
      match sizeofIRType ty with
      | None => fail
      | Some size =>
          lo_tmp <- newIRTemp Ity_I64 ;;
          addStmtToIRSB (Ist_WrTmp lo_tmp
            (Iex_Binop Iop_Sub64 (Iex_RdTmp addr_tmp) (Iex_Const (Ico_U64 256)))) ;;;
          let d := unsafeIRDirty_0_N "mx_after_store" [Iex_RdTmp addr_tmp; Iex_Const (Ico_U64 size)] in
          addStmtToIRSB (Ist_Dirty (mk_dirty (cee d) (guard d) (args d) Ifx_Modify
            (Some (Iex_RdTmp lo_tmp)) (512 + size)))
      end
  end.

Fixpoint wire_mx_loop (in_env : IRTypeEnv) (l : list (option IRStmt)) : M IRSB unit :=
  match l with
  | [] => ret tt
  | None :: l => wire_mx_loop in_env l
  | Some stmt :: l =>
      match stmt with
      | Ist_Store en addr data => wire_mx_store in_env en addr data
      | _ => addStmtToIRSB stmt
      end ;;;
      wire_mx_loop in_env l
  end.

Definition wire_mx (bb_in : IRSB) : option IRSB :=
  match wire_mx_loop (tyenv bb_in) (stmts bb_in) (deepCopyIRSBExceptStmts bb_in) with
  | Some (_, bb_out) => Some bb_out
  | None => None
  end.

Definition ml_instrument (o : options) (bb_in : IRSB) : option IRSB :=
  if clo_mx_round o then wire_mx bb_in else wire_memlog bb_in.
End IR.
Arguments IRStmt : clear implicits.
Arguments IRSB : clear implicits.

(** ** Execution *)

(** A lane mask as a value *)
Fixpoint lanes_value (n : nat) (lanes : Z) : Z :=
  match n with
  | O => 0
  | S n => (if Z.odd lanes then 255 else 0) + 256 * lanes_value n (lanes / 2)
  end.

Definition const_value (con : IRConst) : Z :=
  match con with
  | Ico_U1 b => if b then 1 else 0
  | Ico_U8 w | Ico_U16 w | Ico_U32 w | Ico_U64 w => w
  | Ico_F32 w | Ico_F32i w | Ico_F64 w | Ico_F64i w => w
  | Ico_U128 lanes | Ico_V128 lanes => lanes_value 16 lanes
  | Ico_V256 lanes => lanes_value 32 lanes
  end.

(** 64-bit lane [k] of a value *)
Definition lane64 (k v : Z) : Z := u64 (v / 2 ^ (64 * k)).

Definition unop_value (op : IROp) (v : Z) : Z :=
  match op with
  | Iop_V128HIto64 | Iop_128HIto64 | Iop_F128HItoF64 | Iop_D128HItoD64 => lane64 1 v
  | Iop_V128to64 | Iop_128to64 | Iop_F128LOtoF64 | Iop_D128LOtoD64 => lane64 0 v
  | Iop_V256to64_0 => lane64 0 v
  | Iop_V256to64_1 => lane64 1 v
  | Iop_V256to64_2 => lane64 2 v
  | Iop_V256to64_3 => lane64 3 v
  | _ => v
  end.

Definition binop_value (op : IROp) (v w : Z) : option Z :=
  match op with
  | Iop_Add64 => Some (u64 (v + w))
  | Iop_Sub64 => Some (u64 (v - w))
  | _ => None
  end.

Abbreviation temps := (gmap nat Z).

Fixpoint eval (t : temps) (e : IRExpr) : option Z :=
  match e with
  | Iex_RdTmp tmp => t !! tmp
  | Iex_Const con => Some (const_value con)
  | Iex_Unop op a => match eval t a with Some v => Some (unop_value op v) | None => None end
  | Iex_Binop op a b =>
      match eval t a, eval t b with
      | Some v, Some w => binop_value op v w
      | _, _ => None
      end
  end.

(** [n] bytes of a value in memory, the most significant one first *)
Fixpoint store_be (n : nat) (m : gmem) (a v : Z) : gmem :=
  match n with
  | O => m
  | S n => store_be n (upd m a (v / 2 ^ (8 * Z.of_nat n) mod 256)) (a + 1) v
  end.

Definition store_bytes (en : IREndness) (n : Z) (m : gmem) (a v : Z) : gmem :=
  match en with
  | Iend_LE => store_le (Z.to_nat n) m a v
  | Iend_BE => store_be (Z.to_nat n) m a v
  end.

Section Exec.
Context {H : Type} `{ClientHeap H} (pp : positive -> chars).
(** The other statements: what they do to the temporaries, the rest [G] of
    the guest state and the memory, and whether they leave the block *)
Context {X G : Type}.
Context (exec_other : X -> temps -> G -> gmem -> option (temps * G * gmem * bool)).
Abbreviation tool := (tool (H := H)).

Record machine := mk_machine { tmps : temps; guest : G; tl : tool }.

Definition set_tl (t : tool) (s : machine) : machine := mk_machine (tmps s) (guest s) t.

Definition run_tool (m : M tool unit) (s : machine) : option machine :=
  match m (tl s) with Some (_, t) => Some (set_tl t s) | None => None end.

(** Storing a value of a type *)
Definition do_store (en : IREndness) (ty : IRType) (a v : Z) (s : machine) : option machine :=
  match sizeofIRType ty with
  | Some n => Some (set_tl (set_gm (store_bytes en n (gm (tl s)) a v) (tl s)) s)
  | None => None
  end.

(** The helpers, by name *)
Definition call (name : string) (l : list Z) (s : machine) : option machine :=
  match l with
  | [a; v] =>
      if String.eqb name "log_store" then run_tool (log_store pp a v) s
      else if String.eqb name "mx_after_store" then run_tool (mx_after_store a v) s
      else None
  | _ => None
  end.

Fixpoint evals (t : temps) (l : list IRExpr) : option (list Z) :=
  match l with
  | [] => Some []
  | e :: l => match eval t e, evals t l with Some v, Some vs => Some (v :: vs) | _, _ => None end
  end.

(** One statement: the new state, and whether the block is left *)
Definition exec_stmt (env : IRTypeEnv) (st : IRStmt X) (s : machine) : option (machine * bool) :=
  match st with
  | Ist_WrTmp tmp data =>
      match eval (tmps s) data with
      | Some v => Some (mk_machine (<[tmp := v]> (tmps s)) (guest s) (tl s), false)
      | None => None
      end
  | Ist_Store en addr data =>
      match eval (tmps s) addr, eval (tmps s) data, typeOfIRExpr env data with
      | Some a, Some v, Some ty =>
          match do_store en ty a v s with Some s => Some (s, false) | None => None end
      | _, _, _ => None
      end
  | Ist_Dirty d =>
      match eval (tmps s) (guard d), evals (tmps s) (args d) with
      | Some g, Some l =>
          if g =? 1 then
            match call (cee d) l s with Some s => Some (s, false) | None => None end
          else Some (s, false)
      | _, _ => None
      end
  | Ist_Other x =>
      match exec_other x (tmps s) (guest s) (gm (tl s)) with
      | Some (t, g, m, b) => Some (mk_machine t g (set_gm m (tl s)), b)
      | None => None
      end
  end.

Fixpoint exec (env : IRTypeEnv) (l : list (option (IRStmt X))) (s : machine) : option machine :=
  match l with
  | [] => Some s
  | None :: l => exec env l s
  | Some st :: l =>
      match exec_stmt env st s with
      | Some (s, true) => Some s
      | Some (s, false) => exec env l s
      | None => None
      end
  end.
End Exec.
