(* ===== verification/InstrumentProofs.v ===== *)
(** The instrumented superblocks against reference semantics in which a store
    itself calls the tool: executing the block that an instrumentation pass
    builds is executing the original with these stores. *)
From stdpp Require Import base gmap list strings sets.
From Stdlib Require Import ZArith Lia Ascii String.
From S2P Require Import Prelude Mem RbTree BlockTrack Printf LogBuffer Mx Options Tool Instrument.
Open Scope prog_scope.
Open Scope Z_scope.

(** ** What a store logs *)

(** The addresses and words, in the order they are logged *)
Definition store_events (ty : IRType) (a v : Z) : list (Z * Z) :=
  match ty with
  | Ity_I1 | Ity_I8 | Ity_I16 | Ity_I32 | Ity_I64 | Ity_F32 | Ity_F64 => [(a, v)]
  | Ity_I128 | Ity_D128 | Ity_F128 | Ity_V128 => [(a, lane64 1 v); (u64 (a + 8), lane64 0 v)]
  | Ity_V256 => [(a, lane64 3 v); (u64 (a + 8), lane64 2 v); (u64 (a + 16), lane64 1 v);
                 (u64 (a + 24), lane64 0 v)]
  | Ity_F16 | Ity_D32 | Ity_D64 | Ity_INVALID => []
  end.

(** ** Scopes *)

Definition agree (n : nat) (t t' : temps) : Prop := forall k, (k < n)%nat -> t !! k = t' !! k.

Fixpoint in_scope (n : nat) (e : IRExpr) : Prop :=
  match e with
  | Iex_RdTmp tmp => (tmp < n)%nat
  | Iex_Const _ => True
  | Iex_Unop _ a => in_scope n a
  | Iex_Binop _ a b => in_scope n a /\ in_scope n b
  end.

Lemma agree_refl n t : agree n t t.
Proof. done. Qed.

Lemma agree_insert n t t' k v : agree n t t' -> (n <= k)%nat -> agree n t (<[k := v]> t').
Proof. intros Ha Hk i Hi. rewrite lookup_insert_ne by lia. by apply Ha. Qed.

Lemma agree_insert_both n t t' k v : agree n t t' -> agree n (<[k := v]> t) (<[k := v]> t').
Proof.
  intros Ha i Hi. destruct (decide (k = i)) as [->|]; [by rewrite !lookup_insert_eq|].
  rewrite !lookup_insert_ne by done. by apply Ha.
Qed.

Lemma eval_agree n t t' e : agree n t t' -> in_scope n e -> eval t e = eval t' e.
Proof.
  intros Ha. induction e as [k|c|op a IH|op a IHa b IHb]; cbn; intros Hs; [by apply Ha|done| |].
  - by rewrite IH.
  - destruct Hs. by rewrite IHa, IHb.
Qed.

Lemma evals_agree n t t' l : agree n t t' -> Forall (in_scope n) l -> evals t l = evals t' l.
Proof.
  intros Ha. induction 1 as [|e l He Hl IH]; cbn; [done|]. by rewrite (eval_agree n t t'), IH.
Qed.

(** A lookup in a longer type environment *)
Lemma typeOf_prefix (env env' : IRTypeEnv) e n : env `prefix_of` env' -> n = List.length env ->
  in_scope n e -> typeOfIRExpr env' e = typeOfIRExpr env e.
Proof.
  intros [k ->] -> Hs. destruct e as [t|c|op a|op a b]; cbn in *; try done.
  unfold typeOfIRTemp. by apply lookup_app_l.
Qed.

Section Sim.
Context {H : Type} `{ClientHeap H} (pp : positive -> chars).
Context {X G : Type}.
Context (exec_other : X -> temps -> G -> gmem -> option (temps * G * gmem * bool)).
Abbreviation tool := (tool (H := H)).
Abbreviation machine := (machine (H := H) (G := G)).
Abbreviation IRStmt := (IRStmt X).
Abbreviation IRSB := (IRSB X).

(** Machines that differ in temporaries from [n] on *)
Definition sim (n : nat) (s s' : machine) : Prop :=
  agree n (tmps s) (tmps s') /\ guest s = guest s' /\ tl s = tl s'.

Definition sim_opt (n : nat) (r r' : option machine) : Prop :=
  match r, r' with
  | Some s, Some s' => sim n s s'
  | None, None => True
  | _, _ => False
  end.

(** If the reference is defined, so is the execution, and they agree. *)
Definition fwd (n : nat) (r r' : option machine) : Prop :=
  match r with
  | Some s => exists s', r' = Some s' /\ sim n s s'
  | None => True
  end.

Lemma sim_refl n s : sim n s s.
Proof using Type. by repeat split. Qed.

(** A statement that reads and writes only temporaries below [n] *)
Definition respects (n : nat) (x : X) : Prop := forall t t' g m, agree n t t' ->
  match exec_other x t g m, exec_other x t' g m with
  | Some (u, g1, m1, b), Some (u', g1', m1', b') => agree n u u' /\ g1 = g1' /\ m1 = m1' /\ b = b'
  | None, None => True
  | _, _ => False
  end.

Definition scoped (n : nat) (st : IRStmt) : Prop :=
  match st with
  | Ist_WrTmp tmp data => (tmp < n)%nat /\ in_scope n data
  | Ist_Store _ addr data => in_scope n addr /\ in_scope n data
  | Ist_Dirty d => in_scope n (guard d) /\ Forall (in_scope n) (args d)
  | Ist_Other x => respects n x
  end.

Definition scoped_block (n : nat) (l : list (option IRStmt)) : Prop :=
  Forall (fun o => match o with Some st => scoped n st | None => True end) l.

(** ** Reference semantics *)

(** [pre] and [post] are what the tool does before and after a store. *)
Context (pre post : IRType -> Z -> Z -> M tool unit).

Definition exec_ref_store (en : IREndness) (ty : IRType) (a v : Z) (s : machine) : option machine :=
  match run_tool (pre ty a v) s with
  | Some s =>
      match do_store en ty a v s with
      | Some s => run_tool (post ty a v) s
      | None => None
      end
  | None => None
  end.

Fixpoint exec_ref (env : IRTypeEnv) (l : list (option IRStmt)) (s : machine) : option machine :=
  match l with
  | [] => Some s
  | None :: l => exec_ref env l s
  | Some (Ist_Store en addr data) :: l =>
      match eval (tmps s) addr, eval (tmps s) data, typeOfIRExpr env data with
      | Some a, Some v, Some ty =>
          match exec_ref_store en ty a v s with Some s => exec_ref env l s | None => None end
      | _, _, _ => None
      end
  | Some st :: l =>
      match exec_stmt pp exec_other env st s with
      | Some (s, true) => Some s
      | Some (s, false) => exec_ref env l s
      | None => None
      end
  end.

(** ** Statements the passes copy *)

Lemma run_tool_sim n m s s' : sim n s s' -> sim_opt n (run_tool m s) (run_tool m s').
Proof using Type.
  intros (Ha & Hg & Ht). unfold run_tool. rewrite <- Ht. destruct (m (tl s)) as [[[] t]|]; [|done].
  by repeat split.
Qed.

Lemma do_store_sim n en ty a v s s' : sim n s s' ->
  sim_opt n (do_store en ty a v s) (do_store en ty a v s').
Proof using Type.
  intros (Ha & Hg & Ht). unfold do_store. destruct (sizeofIRType ty); [|done]. rewrite <- Ht.
  by repeat split.
Qed.

Definition is_store (st : IRStmt) : bool := match st with Ist_Store _ _ _ => true | _ => false end.

Definition sim_step (n : nat) (r r' : option (machine * bool)) : Prop :=
  match r, r' with
  | Some (s, b), Some (s', b') => sim n s s' /\ b = b'
  | None, None => True
  | _, _ => False
  end.

Lemma call_sim n name l s s' : sim n s s' ->
  sim_opt n (call pp name l s) (call pp name l s').
Proof using Type.
  intros Hs. unfold call. destruct l as [|a [|v [|]]]; try done.
  destruct (String.eqb name "log_store"); [by apply run_tool_sim|].
  destruct (String.eqb name "mx_after_store"); [by apply run_tool_sim|done].
Qed.

(** A statement other than a store does the same in both. *)
Lemma exec_stmt_sim n env env' st s s' : sim n s s' -> scoped n st -> is_store st = false ->
  sim_step n (exec_stmt pp exec_other env st s) (exec_stmt pp exec_other env' st s').
Proof using Type.
  intros (Ha & Hg & Ht) Hsc Hst. destruct st as [tmp data|en addr data|d|x]; cbn in *; [|done| |].
  - destruct Hsc as [Hn Hsc]. rewrite <- (eval_agree n (tmps s) (tmps s')) by done.
    destruct (eval (tmps s) data); [|done]. split; [|done]. split; [by apply agree_insert_both|done].
  - destruct Hsc as [Hgd Hargs]. rewrite <- (eval_agree n (tmps s) (tmps s')), <- (evals_agree n (tmps s) (tmps s')) by done.
    destruct (eval (tmps s) (guard d)) as [g|]; [|done].
    destruct (evals (tmps s) (args d)) as [l|]; [|done].
    destruct (g =? 1); [|by repeat split].
    pose proof (call_sim n (cee d) l s s' ltac:(by repeat split)) as Hc.
    by destruct (call pp (cee d) l s), (call pp (cee d) l s').
  - pose proof (Hsc (tmps s) (tmps s') (guest s) (gm (tl s)) Ha) as Hr. rewrite <- Hg, <- Ht.
    destruct (exec_other x (tmps s) _ _) as [[[[u g] m] b]|],
      (exec_other x (tmps s') _ _) as [[[[u' g'] m'] b']|]; try done.
    destruct Hr as (Hu & -> & -> & ->). by repeat split.
Qed.

(** ** Calls of [log_store] *)

Lemma addStmt_run st (bb : IRSB) :
  addStmtToIRSB st bb = Some (tt, mk_irsb (tyenv bb) (stmts bb ++ [Some st]) (exit bb)).
Proof using Type. done. Qed.

(** The three statements of a call of [log_store] *)
Definition triple (w : nat * IRExpr * nat * IRExpr) : list (option IRStmt) :=
  let '(at_, addr, dt, data) := w in
  [Some (Ist_WrTmp at_ addr); Some (Ist_WrTmp dt data);
   Some (Ist_Dirty (unsafeIRDirty_0_N "log_store" [Iex_RdTmp at_; Iex_RdTmp dt]))].

Lemma wire_log_store_run at_ addr dt data (bb : IRSB) :
  wire_log_store at_ addr dt data bb =
  Some (tt, mk_irsb (tyenv bb) (stmts bb ++ triple (at_, addr, dt, data)) (exit bb)).
Proof using Type. unfold wire_log_store, bind. rewrite !addStmt_run. cbn. by rewrite <- !app_assoc. Qed.

(** What a triple needs: its temporaries are new, its expressions are not. *)
Definition wire_ok (n : nat) (w : nat * IRExpr * nat * IRExpr) : Prop :=
  let '(at_, addr, dt, data) := w in
  (n <= at_)%nat /\ (n <= dt)%nat /\ at_ <> dt /\ in_scope n addr /\ in_scope n data.

Definition wire_value (t : temps) (w : nat * IRExpr * nat * IRExpr) (ev : Z * Z) : Prop :=
  let '(at_, addr, dt, data) := w in eval t addr = Some ev.1 /\ eval t data = Some ev.2.

Lemma exec_triple n env w ev rest (s s' : machine) : wire_ok n w -> wire_value (tmps s) w ev ->
  sim n s s' -> exists s1', sim n s s1' /\
    exec pp exec_other env (triple w ++ rest) s' =
      match run_tool (log_store pp ev.1 ev.2) s1' with
      | Some s2 => exec pp exec_other env rest s2
      | None => None
      end.
Proof using Type.
  destruct w as [[[at_ addr] dt] data]. intros (Hat & Hdt & Hne & Ha & Hd) [Ea Ed] (Hag & Hg & Ht).
  set (t1 := <[at_ := ev.1]> (tmps s')). set (t2 := <[dt := ev.2]> t1).
  assert (agree n (tmps s) t1) as H1 by (by apply agree_insert).
  assert (agree n (tmps s) t2) as H2 by (by apply agree_insert).
  exists (mk_machine t2 (guest s') (tl s')). split; [by repeat split|].
  cbn. rewrite <- (eval_agree n (tmps s) (tmps s')), Ea by done. cbn.
  fold t1. rewrite <- (eval_agree n (tmps s) t1), Ed by done. cbn. fold t2.
  assert (t2 !! at_ = Some ev.1) as -> by
    (unfold t2; rewrite lookup_insert_ne by done; apply lookup_insert_eq).
  assert (t2 !! dt = Some ev.2) as -> by apply lookup_insert_eq.
  cbn. by destruct (run_tool _ _).
Qed.

Fixpoint log_all (l : list (Z * Z)) : M tool unit :=
  match l with
  | [] => ret tt
  | (a, v) :: l => log_store pp a v ;;; log_all l
  end.

Lemma run_tool_bind (m m' : M tool unit) (s : machine) :
  run_tool (m ;;; m') s = match run_tool m s with Some s1 => run_tool m' s1 | None => None end.
Proof using Type. unfold run_tool, bind. by destruct (m (tl s)) as [[[] t]|]. Qed.

Lemma run_tool_tmps m (s s1 : machine) : run_tool m s = Some s1 -> tmps s1 = tmps s.
Proof using Type. unfold run_tool. destruct (m (tl s)) as [[? t]|]; intros; by simplify_eq. Qed.

Lemma run_tool_ret (s : machine) : run_tool (ret tt) s = Some s.
Proof using Type. by destruct s. Qed.

Lemma exec_triples n env ws : forall evs rest (s s' : machine) (k : machine -> option machine),
  Forall (wire_ok n) ws -> Forall2 (wire_value (tmps s)) ws evs -> sim n s s' ->
  (forall s1 s1', sim n s1 s1' -> tmps s1 = tmps s ->
     fwd n (k s1) (exec pp exec_other env rest s1')) ->
  fwd n (match run_tool (log_all evs) s with Some s1 => k s1 | None => None end)
            (exec pp exec_other env (List.concat (map triple ws) ++ rest) s').
Proof using Type.
  induction ws as [|w ws IH]; intros evs rest s s' k Hok Hv Hs Hk; inversion Hv; subst.
  { cbn [map List.concat log_all app]. rewrite run_tool_ret. by apply Hk. }
  inversion Hok; subst. destruct y as [a v]. cbn [map List.concat log_all]. rewrite <- app_assoc.
  destruct (exec_triple n env w (a, v) (List.concat (map triple ws) ++ rest) s s') as (s1' & Hs1 & ->);
    [done..|].
  rewrite run_tool_bind. pose proof (run_tool_sim n (log_store pp a v) s s1' Hs1) as Hr. cbn [fst snd].
  destruct (run_tool (log_store pp a v) s) as [s2|] eqn:E2,
    (run_tool (log_store pp a v) s1') as [s2'|]; try done.
  apply run_tool_tmps in E2. apply IH; [done| |done|].
  - by rewrite E2.
  - intros s3 s3' Hs3 Et. apply Hk; [done|]. congruence.
Qed.

(** ** The logging of a store *)

Lemma newIRTemp_run ty (bb : IRSB) :
  newIRTemp ty bb = Some (List.length (tyenv bb), mk_irsb (tyenv bb ++ [ty]) (stmts bb) (exit bb)).
Proof using Type. done. Qed.

Lemma wire_store_run n in_env addr data ty (bb : IRSB) : typeOfIRExpr in_env data = Some ty ->
  (n <= List.length (tyenv bb))%nat -> in_scope n addr -> in_scope n data ->
  exists ws, wire_store in_env addr data bb =
      Some (tt, mk_irsb (tyenv bb ++ replicate 8 Ity_I64) (stmts bb ++ List.concat (map triple ws))
                        (exit bb)) /\
    Forall (wire_ok n) ws /\
    forall t a v, eval t addr = Some a -> eval t data = Some v ->
      Forall2 (wire_value t) ws (store_events ty a v).
Proof using Type.
  intros Ety Hn Ha Hd. unfold wire_store, bind. rewrite !newIRTemp_run. cbn [tyenv stmts exit].
  rewrite <- !app_assoc. rewrite Ety. rewrite !length_app. cbn [List.length app].
  set (L := List.length (tyenv bb)) in *.
  set (te := tyenv bb ++ _). change (tyenv bb ++ replicate 8 Ity_I64) with te.
  destruct ty; rewrite ?wire_log_store_run; cbn [tyenv stmts exit].
  all: match goal with
       | |- exists ws, ret tt ?b = _ /\ _ => exists []
       | |- exists ws, Some (tt, mk_irsb _ ((((_ ++ triple ?w1) ++ triple ?w2)
               ++ triple ?w3) ++ triple ?w4) _) = _ /\ _ => exists [w1; w2; w3; w4]
       | |- exists ws, Some (tt, mk_irsb _ ((_ ++ triple ?w1) ++ triple ?w2) _) = _ /\ _ =>
           exists [w1; w2]
       | |- exists ws, Some (tt, mk_irsb _ (_ ++ triple ?w) _) = _ /\ _ => exists [w]
       end.
  all: cbn [map List.concat]; rewrite ?app_nil_r, <- ?app_assoc; split; [done|].
  all: split; [repeat constructor; cbn; try done; lia|].
  all: intros t a v Ea Ev; unfold store_events; repeat constructor; cbn; rewrite ?Ea, ?Ev; done.
Qed.
End Sim.

(** ** What a pass builds *)

Section Built.
Context {H : Type} `{ClientHeap H} (pp : positive -> chars).
Context {X G : Type}.
Context (exec_other : X -> temps -> G -> gmem -> option (temps * G * gmem * bool)).
Abbreviation machine := (machine (H := H) (G := G)).

(** What is added to [bb], the statements [new], does what [ref] does. *)
Definition built (in_env : IRTypeEnv) (bb bb' : IRSB X) (ref : machine -> option machine) : Prop :=
  exists new, stmts bb' = stmts bb ++ new /\ exit bb' = exit bb /\ tyenv bb `prefix_of` tyenv bb' /\
    forall env s s', tyenv bb' `prefix_of` env -> sim (List.length in_env) s s' ->
      fwd (List.length in_env) (ref s) (exec pp exec_other env new s').

(** A statement that is copied *)
Lemma built_copy in_env bb bb' st l pre post : is_store st = false ->
  scoped exec_other (List.length in_env) st ->
  built in_env (mk_irsb (tyenv bb) (stmts bb ++ [Some st]) (exit bb)) bb'
    (exec_ref pp exec_other pre post in_env l) ->
  built in_env bb bb' (exec_ref pp exec_other pre post in_env (Some st :: l)).
Proof using Type.
  intros Est Hst (new & Es & Ee & Hp & Hnew). cbn [tyenv stmts exit] in *.
  exists (Some st :: new). split; [by rewrite Es, <- app_assoc|].
  split_and!; [done..|]. intros env s s' Henv Hs.
  pose proof (exec_stmt_sim pp exec_other _ in_env env st s s' Hs Hst Est) as Hstep.
  assert (exec_ref pp exec_other pre post in_env (Some st :: l) s =
    match exec_stmt pp exec_other in_env st s with
    | Some (s, true) => Some s
    | Some (s, false) => exec_ref pp exec_other pre post in_env l s
    | None => None
    end) as -> by (by destruct st).
  cbn [exec]. destruct (exec_stmt pp exec_other in_env st s) as [[s1 b]|]; [|done].
  destruct (exec_stmt pp exec_other env st s') as [[s1' b']|]; [|done].
  destruct Hstep as [Hs1 <-]. destruct b; [by exists s1'|]. by apply Hnew.
Qed.
End Built.

(** ** The logging pass *)

Section Memlog.
Context {H : Type} `{ClientHeap H} (pp : positive -> chars).
Context {X G : Type}.
Context (exec_other : X -> temps -> G -> gmem -> option (temps * G * gmem * bool)).
Abbreviation tool := (tool (H := H)).
Abbreviation machine := (machine (H := H) (G := G)).

Definition nothing (ty : IRType) (a v : Z) : M tool unit := ret tt.
Definition log_first (ty : IRType) (a v : Z) : M tool unit := log_all pp (store_events ty a v).

(** A source superblock where every store logs first *)
Definition exec_logging : IRTypeEnv -> list (option (IRStmt X)) -> machine -> option machine :=
  exec_ref pp exec_other log_first nothing.

Lemma exec_store n env en addr data a v ty (s s' : machine) :
  sim n s s' -> in_scope n addr -> in_scope n data ->
  eval (tmps s) addr = Some a -> eval (tmps s) data = Some v -> typeOfIRExpr env data = Some ty ->
  match do_store en ty a v s with
  | Some s1 => exists s1', exec_stmt pp exec_other env (Ist_Store en addr data) s' = Some (s1', false) /\
                 sim n s1 s1'
  | None => exec_stmt pp exec_other env (Ist_Store en addr data) s' = None
  end.
Proof using Type.
  intros Hs Ha Hd Ea Ed Ety. pose proof Hs as (Hag & _ & _). cbn.
  rewrite <- (eval_agree n (tmps s) (tmps s') addr), <- (eval_agree n (tmps s) (tmps s') data), Ea, Ed, Ety
    by done.
  pose proof (do_store_sim n en ty a v s s' Hs) as Hd'.
  destruct (do_store en ty a v s), (do_store en ty a v s'); try done. eauto.
Qed.

Lemma exec_app_store env en addr data l (s s' : machine) :
  exec_stmt pp exec_other env (Ist_Store en addr data) s = Some (s', false) ->
  exec pp exec_other env (Some (Ist_Store en addr data) :: l) s = exec pp exec_other env l s'.
Proof using Type. intros E. cbn [exec]. by rewrite E. Qed.

Lemma wire_memlog_loop_sim in_env l : forall bb bb', scoped_block exec_other (List.length in_env) l ->
  in_env `prefix_of` tyenv bb -> wire_memlog_loop in_env l bb = Some (tt, bb') ->
  built pp exec_other in_env bb bb' (exec_logging in_env l).
Proof using Type.
  set (n := List.length in_env).
  induction l as [|[st|] l IH]; intros bb bb' Hsc Hpre E.
  { unfold ret in E. injection E as <-. exists []. rewrite app_nil_r. split_and!; [done..|].
    intros env s s' _ Hs. by exists s'. }
  2:{ inversion Hsc; subst. by apply IH. }
  inversion Hsc as [|? ? Hst Hl]; subst.
  destruct (is_store st) eqn:Est.
  - destruct st as [|en addr data| |]; try done. destruct Hst as [Ha Hd].
    cbn [wire_memlog_loop] in E. unfold bind in E.
    destruct (typeOfIRExpr in_env data) as [ty|] eqn:Ety.
    2:{ exfalso. unfold wire_store, bind in E. rewrite !newIRTemp_run in E. cbn in E.
        by rewrite Ety in E. }
    assert (n <= List.length (tyenv bb))%nat as Hn by (by apply prefix_length).
    destruct (wire_store_run n in_env addr data ty bb Ety Hn Ha Hd) as (ws & Ew & Hws & Hval).
    rewrite Ew, addStmt_run in E. cbn [tyenv stmts exit] in E.
    apply IH in E as (new & Es & Ee & Hp & Hnew); [|done|by apply prefix_app_r].
    cbn [tyenv stmts exit] in *. eexists (List.concat (map triple ws) ++ Some (Ist_Store en addr data) :: new).
    split; [rewrite Es, <- !app_assoc; done|]. split; [done|].
    split; [etrans; [by apply prefix_app_r|exact Hp]|].
    intros env s s' Henv Hs. unfold exec_logging. cbn [exec_ref].
    destruct (eval (tmps s) addr) as [a|] eqn:Ea; [|done].
    destruct (eval (tmps s) data) as [v|] eqn:Ed; [|done]. rewrite Ety.
    unfold exec_ref_store. cbn [log_first]. unfold log_first.
    pose proof (exec_triples pp exec_other n env ws (store_events ty a v)
      (Some (Ist_Store en addr data) :: new) s s'
      (fun s1 => match match do_store en ty a v s1 with
                       | Some s2 => run_tool (nothing ty a v) s2 | None => None end with
                 | Some s2 => exec_logging in_env l s2 | None => None end) Hws (Hval _ _ _ Ea Ed) Hs) as Ht.
    unfold exec_logging, log_first in Ht.
    destruct (run_tool (log_all pp (store_events ty a v)) s) as [s1|]; [|done].
    apply Ht. clear Ht. intros s2 s2' Hs2 Et.
    pose proof (exec_store n env en addr data a v ty s2 s2' Hs2 Ha Hd) as Hst.
    rewrite Et in Hst. specialize (Hst Ea Ed).
    assert (typeOfIRExpr env data = Some ty) as Ety'.
    { rewrite <- Ety. apply (typeOf_prefix _ _ _ n); [|done|done].
      etrans; [exact Hpre|]. etrans; [by apply prefix_app_r|]. etrans; [exact Hp|exact Henv]. }
    specialize (Hst Ety'). destruct (do_store en ty a v s2) as [s3|]; [|done].
    destruct Hst as (s3' & E3 & Hs3). unfold nothing. rewrite run_tool_ret.
    rewrite (exec_app_store _ _ _ _ _ _ _ E3). by apply Hnew.
  - assert (wire_memlog_loop in_env (Some st :: l) bb =
      wire_memlog_loop in_env l (mk_irsb (tyenv bb) (stmts bb ++ [Some st]) (exit bb))) as E'.
    { by destruct st. }
    rewrite E' in E. apply built_copy; [done..|]. by apply IH in E.
Qed.
End Memlog.

(** ** The MX pass *)

Section Mx.
Context {H : Type} `{ClientHeap H} (pp : positive -> chars).
Context {X G : Type}.
Context (exec_other : X -> temps -> G -> gmem -> option (temps * G * gmem * bool)).
Abbreviation tool := (tool (H := H)).
Abbreviation machine := (machine (H := H) (G := G)).

Definition reencode (ty : IRType) (a v : Z) : M tool unit :=
  match sizeofIRType ty with Some n => mx_after_store a n | None => fail end.

(** A source superblock where every store re-encodes its block *)
Definition exec_mx : IRTypeEnv -> list (option (IRStmt X)) -> machine -> option machine :=
  exec_ref pp exec_other nothing reencode.

(** The declared effect of the call of [mx_after_store] *)
Definition mx_dirty (addr_tmp lo_tmp : nat) (size : Z) : IRDirty :=
  mk_dirty "mx_after_store" (Iex_Const (Ico_U1 true)) [Iex_RdTmp addr_tmp; Iex_Const (Ico_U64 size)]
    Ifx_Modify (Some (Iex_RdTmp lo_tmp)) (512 + size).

Definition mx_stmts (L : nat) (en : IREndness) (addr data : IRExpr) (size : Z)
    : list (option (IRStmt X)) :=
  [Some (Ist_WrTmp L addr); Some (Ist_Store en (Iex_RdTmp L) data);
   Some (Ist_WrTmp (L + 1) (Iex_Binop Iop_Sub64 (Iex_RdTmp L) (Iex_Const (Ico_U64 256))));
   Some (Ist_Dirty (mx_dirty L (L + 1) size))].

Lemma wire_mx_store_run in_env en addr data ty size (bb : IRSB X) :
  typeOfIRExpr in_env data = Some ty -> sizeofIRType ty = Some size ->
  wire_mx_store in_env en addr data bb =
    Some (tt, mk_irsb (tyenv bb ++ [Ity_I64; Ity_I64])
                (stmts bb ++ mx_stmts (List.length (tyenv bb)) en addr data size) (exit bb)).
Proof using Type.
  intros Ety Esz. unfold wire_mx_store, bind. rewrite newIRTemp_run, !addStmt_run, Ety, Esz.
  rewrite newIRTemp_run, !addStmt_run. cbn [tyenv stmts exit]. rewrite <- !app_assoc, length_app.
  done.
Qed.

(** The four statements do the store and call the helper. *)
Lemma exec_mx_stmts n env L en addr data a v ty size rest (s s' : machine) :
  (n <= L)%nat -> sim n s s' -> in_scope n addr -> in_scope n data ->
  eval (tmps s) addr = Some a -> eval (tmps s) data = Some v ->
  typeOfIRExpr env data = Some ty -> sizeofIRType ty = Some size ->
  exists s1' s2', sim n s s1' /\ do_store en ty a v s1' = Some s2' /\
    exists s3', sim n s2' s3' /\
      exec pp exec_other env (mx_stmts L en addr data size ++ rest) s' =
      match run_tool (mx_after_store a size) s3' with
      | Some s4 => exec pp exec_other env rest s4
      | None => None
      end.
Proof using Type.
  intros Hn (Hag & Hg & Ht) Ha Hd Ea Ed Ety Esz.
  set (t1 := <[L := a]> (tmps s')). assert (agree n (tmps s) t1) as H1 by (by apply agree_insert).
  exists (mk_machine t1 (guest s') (tl s')). unfold do_store. rewrite Esz. eexists.
  split; [by repeat split|]. split; [done|]. cbn [tl guest tmps set_tl].
  set (tl1 := set_gm _ _).
  exists (mk_machine (<[(L + 1)%nat := u64 (a - 256)]> t1) (guest s') tl1). split.
  { split; [|done]. apply agree_insert; [done|lia]. }
  unfold mx_stmts. cbn [app exec exec_stmt eval].
  rewrite <- (eval_agree n (tmps s) (tmps s') addr), Ea by done.
  cbn [tmps]. fold t1.
  assert (t1 !! L = Some a) as EL by apply lookup_insert_eq.
  rewrite EL, <- (eval_agree n (tmps s) t1 data), Ed, Ety by done. unfold do_store. rewrite Esz.
  cbn [tl guest tmps set_tl]. rewrite EL. cbn [binop_value const_value].
  cbn [guard mx_dirty eval const_value evals args cee tmps].
  rewrite lookup_insert_ne by lia. rewrite EL. cbn. by destruct (run_tool _ _).
Qed.

Lemma wire_mx_loop_sim in_env l : forall bb bb', scoped_block exec_other (List.length in_env) l ->
  in_env `prefix_of` tyenv bb -> wire_mx_loop in_env l bb = Some (tt, bb') ->
  built pp exec_other in_env bb bb' (exec_mx in_env l).
Proof using Type.
  set (n := List.length in_env).
  induction l as [|[st|] l IH]; intros bb bb' Hsc Hpre E.
  { unfold ret in E. injection E as <-. exists []. rewrite app_nil_r. split_and!; [done..|].
    intros env s s' _ Hs. by exists s'. }
  2:{ inversion Hsc; subst. by apply IH. }
  inversion Hsc as [|? ? Hst Hl]; subst.
  destruct (is_store st) eqn:Est.
  - destruct st as [|en addr data| |]; try done. destruct Hst as [Ha Hd].
    cbn [wire_mx_loop] in E. unfold bind in E at 1.
    destruct (typeOfIRExpr in_env data) as [ty|] eqn:Ety.
    2:{ exfalso. unfold wire_mx_store, bind in E. rewrite newIRTemp_run, !addStmt_run in E.
        by rewrite Ety in E. }
    destruct (sizeofIRType ty) as [size|] eqn:Esz.
    2:{ exfalso. unfold wire_mx_store, bind in E. rewrite newIRTemp_run, !addStmt_run in E.
        by rewrite Ety, Esz in E. }
    rewrite (wire_mx_store_run in_env en addr data ty size bb Ety Esz) in E.
    apply IH in E as (new & Es & Ee & Hp & Hnew); [|done|by apply prefix_app_r].
    cbn [tyenv stmts exit] in *. set (L := List.length (tyenv bb)) in *.
    assert (n <= L)%nat as Hn by (by apply prefix_length).
    exists (mx_stmts L en addr data size ++ new).
    split; [by rewrite Es, <- app_assoc|]. split; [done|].
    split; [etrans; [by apply prefix_app_r|exact Hp]|].
    intros env s s' Henv Hs. unfold exec_mx. cbn [exec_ref].
    destruct (eval (tmps s) addr) as [a|] eqn:Ea; [|done].
    destruct (eval (tmps s) data) as [v|] eqn:Ed; [|done]. rewrite Ety.
    assert (typeOfIRExpr env data = Some ty) as Ety'.
    { rewrite <- Ety. apply (typeOf_prefix _ _ _ n); [|done|done].
      etrans; [exact Hpre|]. etrans; [by apply prefix_app_r|]. etrans; [exact Hp|exact Henv]. }
    destruct (exec_mx_stmts n env L en addr data a v ty size new s s')
      as (s1' & s2' & Hs1 & E2 & s3' & Hs3 & ->); [done..|].
    unfold exec_ref_store. cbn [nothing]. unfold nothing. rewrite run_tool_ret.
    pose proof (do_store_sim n en ty a v s s1' Hs1) as Hd1. rewrite E2 in Hd1.
    destruct (do_store en ty a v s) as [s2|]; [|done]. unfold reencode. rewrite Esz.
    assert (sim n s2 s3') as Hs23.
    { destruct Hd1 as (A1 & B1 & C1), Hs3 as (A3 & B3 & C3).
      split; [|split; congruence]. intros k Hk. rewrite A1, A3 by done. done. }
    pose proof (run_tool_sim n (mx_after_store a size) s2 s3' Hs23) as Hr.
    destruct (run_tool _ s2) as [s4|]; [|done]. destruct (run_tool _ s3') as [s4'|]; [|done].
    by apply Hnew.
  - assert (wire_mx_loop in_env (Some st :: l) bb =
      wire_mx_loop in_env l (mk_irsb (tyenv bb) (stmts bb ++ [Some st]) (exit bb))) as E'.
    { by destruct st. }
    rewrite E' in E. apply built_copy; [done..|]. by apply IH in E.
Qed.
End Mx.
