(* ===== verification/Malloc.v ===== *)
(** The core's heap, [coregrind/m_mallocfree.c]: arenas of superblocks that
    are mapped from the address space and divided into blocks with their size
    at both ends; the free blocks of a size class are linked in a circle.  The
    state is memory, the address space and the arena structures; a block is
    its address, an arena its number. *)
From stdpp Require Import base list.
From Stdlib Require Import ZArith Lia String.
From S2P Require Import Prelude Mem LibcMem.
Open Scope prog_scope.
Open Scope Z_scope.

(** ** What the heap is built on *)

(** [am_mmap client n]: a new mapping of [n] bytes for the client or for the
    core; [am_munmap]: a mapping, or a part of one, is given back. *)
Class AddressSpace (O : Type) := {
  am_mmap : bool -> Z -> O -> option (Z * O);
  am_munmap : bool -> Z -> Z -> O -> option O
}.

(** The options the heap is configured with: [malloc_replacement] gives the
    redzone size of a tool that replaces malloc. *)
Record heap_config := {
  clo_profile_heap : bool;
  clo_redzone_size : Z;
  clo_core_redzone_size : Z;
  malloc_replacement : option Z;
  literal : string -> Z
}.

Definition N_MALLOC_LISTS : Z := 112.
Definition MAX_PSZB : Z := 2 ^ 64 - 1.
Definition SBLOCKS_SIZE_INITIAL : Z := 50.
Definition VG_MIN_MALLOC_SZB : Z := 16.
Definition MAX_REDZONE_SZB : Z := 128.
Definition CORE_REDZONE_DEFAULT_SZB : Z := 4.
Definition VKI_PAGE_SIZE : Z := 4096.
Definition REDZONE_LO_MASK : Z := 49.
Definition REDZONE_HI_MASK : Z := 124.
Definition VG_N_ARENAS : nat := 5.
Definition VG_AR_CORE : nat := 0.
Definition VG_AR_DINFO : nat := 1.
Definition VG_AR_CLIENT : nat := 2.
Definition VG_AR_DEMANGLE : nat := 3.
Definition VG_AR_TTAUX : nat := 4.

(** [sizeof(Superblock)], and the payload after it *)
Definition sizeof_Superblock : Z := 32.
Definition payload_bytes (sb : Z) : Z := sb + 32.

Definition VG_PGROUNDUP (x : Z) : Z := Z.land (u64 (x + (VKI_PAGE_SIZE - 1))) (Z.lnot (VKI_PAGE_SIZE - 1)).

(** ** Arenas *)

Record Stats := mk_stats {
  perm_bytes_on_loan : Z;
  perm_blocks : Z;
  nreclaim_unsplit : Z;
  nreclaim_split : Z;
  bytes_on_loan : Z;
  bytes_mmaped : Z;
  bytes_on_loan_max : Z;
  tot_blocks : Z;
  tot_bytes : Z;
  nsearches : Z;
  next_profile_at : Z;
  bytes_mmaped_max : Z
}.

(** [sblocks] is the whole array, of [sblocks_size] entries. *)
Record Arena := mk_arena {
  clientmem : bool;
  rz_szB : Z;
  min_sblock_szB : Z;
  min_unsplittable_sblock_szB : Z;
  freelist : list Z;
  sblocks : list Z;
  sblocks_size : Z;
  sblocks_used : Z;
  deferred_reclaimed_sb : Z;
  perm_malloc_current : Z;
  perm_malloc_limit : Z;
  stats : Stats
}.

Definition set_freelist (l : list Z) (a : Arena) : Arena :=
  mk_arena (clientmem a) (rz_szB a) (min_sblock_szB a) (min_unsplittable_sblock_szB a) l (sblocks a)
    (sblocks_size a) (sblocks_used a) (deferred_reclaimed_sb a) (perm_malloc_current a) (perm_malloc_limit a) (stats a).
Definition set_min_unsplittable (n : Z) (a : Arena) : Arena :=
  mk_arena (clientmem a) (rz_szB a) (min_sblock_szB a) n (freelist a) (sblocks a)
    (sblocks_size a) (sblocks_used a) (deferred_reclaimed_sb a) (perm_malloc_current a) (perm_malloc_limit a) (stats a).
Definition set_sblocks (l : list Z) (size used : Z) (a : Arena) : Arena :=
  mk_arena (clientmem a) (rz_szB a) (min_sblock_szB a) (min_unsplittable_sblock_szB a) (freelist a) l
    size used (deferred_reclaimed_sb a) (perm_malloc_current a) (perm_malloc_limit a) (stats a).
Definition set_deferred (sb : Z) (a : Arena) : Arena :=
  mk_arena (clientmem a) (rz_szB a) (min_sblock_szB a) (min_unsplittable_sblock_szB a) (freelist a) (sblocks a)
    (sblocks_size a) (sblocks_used a) sb (perm_malloc_current a) (perm_malloc_limit a) (stats a).
Definition set_perm_malloc (cur lim : Z) (a : Arena) : Arena :=
  mk_arena (clientmem a) (rz_szB a) (min_sblock_szB a) (min_unsplittable_sblock_szB a) (freelist a) (sblocks a)
    (sblocks_size a) (sblocks_used a) (deferred_reclaimed_sb a) cur lim (stats a).
Definition set_stats (s : Stats) (a : Arena) : Arena :=
  mk_arena (clientmem a) (rz_szB a) (min_sblock_szB a) (min_unsplittable_sblock_szB a) (freelist a) (sblocks a)
    (sblocks_size a) (sblocks_used a) (deferred_reclaimed_sb a) (perm_malloc_current a) (perm_malloc_limit a) s.

Definition set_on_loan (n : Z) (s : Stats) : Stats :=
  mk_stats (perm_bytes_on_loan s) (perm_blocks s) (nreclaim_unsplit s) (nreclaim_split s) n (bytes_mmaped s)
    (bytes_on_loan_max s) (tot_blocks s) (tot_bytes s) (nsearches s) (next_profile_at s) (bytes_mmaped_max s).
Definition set_on_loan_max (n : Z) (s : Stats) : Stats :=
  mk_stats (perm_bytes_on_loan s) (perm_blocks s) (nreclaim_unsplit s) (nreclaim_split s) (bytes_on_loan s)
    (bytes_mmaped s) n (tot_blocks s) (tot_bytes s) (nsearches s) (next_profile_at s) (bytes_mmaped_max s).
Definition set_mmaped (n : Z) (s : Stats) : Stats :=
  mk_stats (perm_bytes_on_loan s) (perm_blocks s) (nreclaim_unsplit s) (nreclaim_split s) (bytes_on_loan s) n
    (bytes_on_loan_max s) (tot_blocks s) (tot_bytes s) (nsearches s) (next_profile_at s) (bytes_mmaped_max s).
Definition set_mmaped_max (n : Z) (s : Stats) : Stats :=
  mk_stats (perm_bytes_on_loan s) (perm_blocks s) (nreclaim_unsplit s) (nreclaim_split s) (bytes_on_loan s)
    (bytes_mmaped s) (bytes_on_loan_max s) (tot_blocks s) (tot_bytes s) (nsearches s) (next_profile_at s) n.
Definition set_perm_loan (bytes blocks : Z) (s : Stats) : Stats :=
  mk_stats bytes blocks (nreclaim_unsplit s) (nreclaim_split s) (bytes_on_loan s) (bytes_mmaped s)
    (bytes_on_loan_max s) (tot_blocks s) (tot_bytes s) (nsearches s) (next_profile_at s) (bytes_mmaped_max s).
Definition set_nreclaim (unsplit split : Z) (s : Stats) : Stats :=
  mk_stats (perm_bytes_on_loan s) (perm_blocks s) unsplit split (bytes_on_loan s) (bytes_mmaped s)
    (bytes_on_loan_max s) (tot_blocks s) (tot_bytes s) (nsearches s) (next_profile_at s) (bytes_mmaped_max s).
Definition set_tot (blocks bytes : Z) (s : Stats) : Stats :=
  mk_stats (perm_bytes_on_loan s) (perm_blocks s) (nreclaim_unsplit s) (nreclaim_split s) (bytes_on_loan s)
    (bytes_mmaped s) (bytes_on_loan_max s) blocks bytes (nsearches s) (next_profile_at s) (bytes_mmaped_max s).
Definition set_nsearches (n : Z) (s : Stats) : Stats :=
  mk_stats (perm_bytes_on_loan s) (perm_blocks s) (nreclaim_unsplit s) (nreclaim_split s) (bytes_on_loan s)
    (bytes_mmaped s) (bytes_on_loan_max s) (tot_blocks s) (tot_bytes s) n (next_profile_at s) (bytes_mmaped_max s).
Definition set_next_profile (n : Z) (s : Stats) : Stats :=
  mk_stats (perm_bytes_on_loan s) (perm_blocks s) (nreclaim_unsplit s) (nreclaim_split s) (bytes_on_loan s)
    (bytes_mmaped s) (bytes_on_loan_max s) (tot_blocks s) (tot_bytes s) (nsearches s) n (bytes_mmaped_max s).

Section Malloc.
Context {OS : Type} `{AddressSpace OS} (cfg : heap_config).

Record mst := mk_mst {
  hmem : gmem;
  os : OS;
  vg_arena : list Arena;
  client_inited : bool;
  nonclient_inited : bool;
  hp_overhead_szB : Z;
  client_rz_szB : Z
}.
Abbreviation MM := (M mst).

Definition m_assert (b : bool) : MM unit := if b then ret tt else fail.
Definition set_hmem (m : gmem) (s : mst) : mst :=
  mk_mst m (os s) (vg_arena s) (client_inited s) (nonclient_inited s) (hp_overhead_szB s) (client_rz_szB s).
Definition set_os (o : OS) (s : mst) : mst :=
  mk_mst (hmem s) o (vg_arena s) (client_inited s) (nonclient_inited s) (hp_overhead_szB s) (client_rz_szB s).
Definition set_arenas (l : list Arena) (s : mst) : mst :=
  mk_mst (hmem s) (os s) l (client_inited s) (nonclient_inited s) (hp_overhead_szB s) (client_rz_szB s).

(** [arenaId_to_ArenaP] *)
Definition the_arena (a : nat) : MM Arena := fun s =>
  match vg_arena s !! a with Some A => Some (A, s) | None => None end.
Definition on_arena (a : nat) (f : Arena -> Arena) : MM unit := fun s =>
  match vg_arena s !! a with
  | Some A => Some (tt, set_arenas (<[a := f A]> (vg_arena s)) s)
  | None => None
  end.
Definition on_stats (a : nat) (f : Stats -> Stats) : MM unit := on_arena a (fun A => set_stats (f (stats A)) A).

(** Words and bytes of memory *)
Definition ld (p : Z) : MM Z := gets (fun s => load_le 8 (hmem s) p).
Definition sd (p v : Z) : MM unit := modify (fun s => set_hmem (store_le 8 (hmem s) p v) s).
Definition ldb (p : Z) : MM Z := gets (fun s => hmem s p).
Definition sdb (p v : Z) : MM unit := modify (fun s => set_hmem (upd (hmem s) p v) s).

(** ** Blocks *)

Definition mk_inuse_bszB (bszB : Z) : MM Z := m_assert (negb (bszB =? 0)) ;;; ret (Z.land bszB (Z.lnot 1)).
Definition mk_free_bszB (bszB : Z) : MM Z := m_assert (negb (bszB =? 0)) ;;; ret (Z.lor bszB 1).
Definition mk_plain_bszB (bszB : Z) : MM Z := m_assert (negb (bszB =? 0)) ;;; ret (Z.land bszB (Z.lnot 1)).

Definition get_bszB_as_is (b : Z) : MM Z :=
  hp <- gets hp_overhead_szB ;;
  bszB_lo <- ld (b + hp) ;;
  plain <- mk_plain_bszB bszB_lo ;;
  bszB_hi <- ld (b + plain - 8) ;;
  m_assert (bszB_lo =? bszB_hi) ;;;
  ret bszB_lo.

Definition get_bszB (b : Z) : MM Z := x <- get_bszB_as_is b ;; mk_plain_bszB x.

Definition set_bszB (b bszB : Z) : MM unit :=
  hp <- gets hp_overhead_szB ;;
  sd (b + hp) bszB ;;;
  plain <- mk_plain_bszB bszB ;;
  sd (b + plain - 8) bszB.

Definition is_inuse_block (b : Z) : MM bool :=
  bszB <- get_bszB_as_is b ;;
  m_assert (negb (bszB =? 0)) ;;;
  ret (Z.land bszB 1 =? 0).

Definition overhead_szB_lo (a : nat) : MM Z :=
  hp <- gets hp_overhead_szB ;; A <- the_arena a ;; ret (u64 (hp + 8 + rz_szB A)).
Definition overhead_szB_hi (a : nat) : MM Z := A <- the_arena a ;; ret (u64 (rz_szB A + 8)).
Definition overhead_szB (a : nat) : MM Z :=
  lo <- overhead_szB_lo a ;; hi <- overhead_szB_hi a ;; ret (u64 (lo + hi)).
Definition min_useful_bszB (a : nat) : MM Z := overhead_szB a.
Definition pszB_to_bszB (a : nat) (pszB : Z) : MM Z := o <- overhead_szB a ;; ret (u64 (pszB + o)).
Definition bszB_to_pszB (a : nat) (bszB : Z) : MM Z :=
  o <- overhead_szB a ;; m_assert (o <=? bszB) ;;; ret (bszB - o).
Definition get_pszB (a : nat) (b : Z) : MM Z := x <- get_bszB b ;; bszB_to_pszB a x.
Definition get_block_payload (a : nat) (b : Z) : MM Z := lo <- overhead_szB_lo a ;; ret (b + lo).
Definition get_payload_block (a : nat) (payload : Z) : MM Z := lo <- overhead_szB_lo a ;; ret (payload - lo).

Definition set_prev_b (b prev_p : Z) : MM unit := hp <- gets hp_overhead_szB ;; sd (b + hp + 8) prev_p.
Definition set_next_b (b next_p : Z) : MM unit := x <- get_bszB b ;; sd (b + x - 8 - 8) next_p.
Definition get_prev_b (b : Z) : MM Z := hp <- gets hp_overhead_szB ;; ld (b + hp + 8).
Definition get_next_b (b : Z) : MM Z := x <- get_bszB b ;; ld (b + x - 8 - 8).

Definition set_cc (b cc : Z) : MM unit := m_assert (clo_profile_heap cfg) ;;; sd b cc.
Definition get_cc (b : Z) : MM Z := m_assert (clo_profile_heap cfg) ;;; ld b.

(** [if (VG_(clo_profile_heap)) set_cc(b, cc)] *)
Definition profile_cc (b cc : Z) : MM unit := if clo_profile_heap cfg then set_cc b cc else ret tt.

Definition get_predecessor_block (b : Z) : MM Z :=
  x <- ld (b - 8) ;; bszB <- mk_plain_bszB x ;; ret (b - bszB).

Definition set_rz_lo_byte (b i v : Z) : MM unit := hp <- gets hp_overhead_szB ;; sdb (b + (hp + 8 + i)) v.
Definition set_rz_hi_byte (b i v : Z) : MM unit := x <- get_bszB b ;; sdb (b + (x - 8 - i - 1)) v.
Definition get_rz_lo_byte (b i : Z) : MM Z := hp <- gets hp_overhead_szB ;; ldb (b + (hp + 8 + i)).
Definition get_rz_hi_byte (b i : Z) : MM Z := x <- get_bszB b ;; ldb (b + (x - 8 - i - 1)).

(** The bytes of the redzones, [(UByte)(((Addr)b&0xff) ^ MASK)] *)
Definition rz_byte (b mask : Z) : Z := Z.lxor (Z.land b 255) mask mod 256.

(** ** Initialisation *)

(** [while (0 != overhead_szB_lo(a) % VG_MIN_MALLOC_SZB) a->rz_szB++] *)
Fixpoint pad_redzone (fuel : nat) (hp rz : Z) : MM Z :=
  match fuel with
  | O => fail
  | S fuel => if 0 =? u64 (hp + 8 + rz) mod VG_MIN_MALLOC_SZB then ret rz else pad_redzone fuel hp (rz + 1)
  end.

Definition arena_init (a : nat) (rz min_sblock min_unsplittable : Z) : MM unit :=
  m_assert (rz <=? MAX_REDZONE_SZB) ;;;
  let rz := if (a =? VG_AR_CLIENT)%nat
            then (if clo_redzone_size cfg =? -1 then rz else u64 (clo_redzone_size cfg))
            else (if u64 (clo_core_redzone_size cfg) =? rz then rz else u64 (clo_core_redzone_size cfg)) in
  let rz := if rz <? 8 then 8 else rz in
  hp <- gets hp_overhead_szB ;;
  rz <- pad_redzone 16 hp rz ;;
  m_assert (u64 (u64 (hp + 8 + rz) - hp) =? u64 (rz + 8)) ;;;
  m_assert (min_sblock mod VKI_PAGE_SIZE =? 0) ;;;
  on_arena a (fun _ =>
    mk_arena (a =? VG_AR_CLIENT)%nat rz min_sblock min_unsplittable (replicate (Z.to_nat N_MALLOC_LISTS) 0)
      (replicate (Z.to_nat SBLOCKS_SIZE_INITIAL) 0) SBLOCKS_SIZE_INITIAL 0 0 0 0
      (mk_stats 0 0 0 0 0 0 0 0 0 0 (25 * 1000 * 1000) 0)).

Definition ensure_mm_init (a : nat) : MM unit :=
  s <- gets id ;;
  if (a =? VG_AR_CLIENT)%nat then
    if client_inited s then
      match malloc_replacement cfg with
      | Some rz => m_assert (client_rz_szB s =? rz)
      | None => ret tt
      end
    else
      (match malloc_replacement cfg with
       | Some rz =>
           if MAX_REDZONE_SZB <? rz then fail
           else modify (fun s => mk_mst (hmem s) (os s) (vg_arena s) (client_inited s) (nonclient_inited s)
                                   (hp_overhead_szB s) rz)
       | None => ret tt
       end) ;;;
      rz <- gets client_rz_szB ;;
      arena_init VG_AR_CLIENT rz 4194304 (4194304 + 1) ;;;
      modify (fun s => mk_mst (hmem s) (os s) (vg_arena s) true (nonclient_inited s) (hp_overhead_szB s) (client_rz_szB s))
  else
    if nonclient_inited s then ret tt
    else
      modify (fun s => mk_mst (hmem s) (os s) (vg_arena s) (client_inited s) (nonclient_inited s)
                         (if clo_profile_heap cfg then VG_MIN_MALLOC_SZB else 0) (client_rz_szB s)) ;;;
      arena_init VG_AR_CORE CORE_REDZONE_DEFAULT_SZB 4194304 (4194304 + 1) ;;;
      arena_init VG_AR_DINFO CORE_REDZONE_DEFAULT_SZB 1048576 (1048576 + 1) ;;;
      arena_init VG_AR_DEMANGLE CORE_REDZONE_DEFAULT_SZB 65536 (65536 + 1) ;;;
      arena_init VG_AR_TTAUX CORE_REDZONE_DEFAULT_SZB 65536 (65536 + 1) ;;;
      modify (fun s => mk_mst (hmem s) (os s) (vg_arena s) (client_inited s) true (hp_overhead_szB s) (client_rz_szB s)).

(** ** Free lists *)

(** [n] is the payload size divided by [VG_MIN_MALLOC_SZB]. *)
Definition pszB_to_listNo_SLOW (n : Z) : Z :=
  if n <? 299 then
    if n <? 114 then
      if n <? 85 then
        if n <? 74 then
          if n <? 67 then 64 else if n <? 70 then 65 else 66
        else
          if n <? 77 then 67 else if n <? 81 then 68 else 69
      else
        if n <? 99 then
          if n <? 90 then 70 else if n <? 94 then 71 else 72
        else
          if n <? 104 then 73 else if n <? 109 then 74 else 75
    else
      if n <? 169 then
        if n <? 133 then
          if n <? 120 then 76 else if n <? 126 then 77 else 78
        else
          if n <? 139 then 79 else if n <? 153 then 80 else 81
      else
        if n <? 224 then
          if n <? 185 then 82 else if n <? 204 then 83 else 84
        else
          if n <? 247 then 85 else if n <? 272 then 86 else 87
  else
    if n <? 1331 then
      if n <? 530 then
        if n <? 398 then
          if n <? 329 then 88 else if n <? 362 then 89 else 90
        else
          if n <? 438 then 91 else if n <? 482 then 92 else 93
      else
        if n <? 770 then
          if n <? 583 then 94 else if n <? 641 then 95 else 96
        else
          if n <? 924 then 97 else if n <? 1109 then 98 else 99
    else
      if n <? 3974 then
        if n <? 2300 then
          if n <? 1597 then 100 else if n <? 1916 then 101 else 102
        else
          if n <? 2760 then 103 else if n <? 3312 then 104 else 105
      else
        if n <? 6868 then
          if n <? 4769 then 106 else if n <? 5723 then 107 else 108
        else
          if n <? 8241 then 109 else if n <? 9890 then 110 else 111.

Definition listNo (pszB : Z) : Z :=
  let n := pszB / VG_MIN_MALLOC_SZB in if n <? 64 then n else pszB_to_listNo_SLOW n.

Definition pszB_to_listNo (pszB : Z) : MM Z :=
  m_assert (0 =? pszB mod VG_MIN_MALLOC_SZB) ;;; ret (listNo pszB).

(** [while (pszB_to_listNo(pszB) < i) pszB += VG_MIN_MALLOC_SZB] *)
Fixpoint min_pszB_loop (fuel : nat) (i pszB : Z) : Z :=
  match fuel with
  | O => pszB
  | S fuel => if listNo pszB <? i then min_pszB_loop fuel i (pszB + VG_MIN_MALLOC_SZB) else pszB
  end.

(** The cache of these values is left out; the table ends before [9890 * 16]. *)
Definition listNo_to_pszB_min (i : Z) : Z := min_pszB_loop 9891 i 0.
Definition listNo_to_pszB_max (i : Z) : Z :=
  if i =? N_MALLOC_LISTS - 1 then MAX_PSZB else listNo_to_pszB_min (i + 1) - 1.

Definition get_freelist (a : nat) (lno : Z) : MM Z :=
  A <- the_arena a ;;
  match freelist A !! Z.to_nat lno with Some b => ret b | None => fail end.
Definition set_freelist_at (a : nat) (lno b : Z) : MM unit :=
  on_arena a (fun A => set_freelist (<[Z.to_nat lno := b]> (freelist A)) A).

Fixpoint swizzle_loop (n : nat) (pn pp p_best : Z) : MM Z :=
  match n with
  | O => ret p_best
  | S n =>
      pn <- get_next_b pn ;;
      pp <- get_prev_b pp ;;
      let p_best := if pn <? p_best then pn else p_best in
      let p_best := if pp <? p_best then pp else p_best in
      swizzle_loop n pn pp p_best
  end.

Definition swizzle (a : nat) (lno : Z) : MM unit :=
  hd <- get_freelist a lno ;;
  if hd =? 0 then ret tt
  else
    p_best <- swizzle_loop 5 hd hd hd ;;
    if p_best <? hd then set_freelist_at a lno p_best else ret tt.

(** ** Checks of blocks *)

Fixpoint redzones_ok (n : nat) (b i : Z) : MM bool :=
  match n with
  | O => ret true
  | S n =>
      lo <- get_rz_lo_byte b i ;;
      if negb (lo =? rz_byte b REDZONE_LO_MASK) then ret false
      else
        hi <- get_rz_hi_byte b i ;;
        if negb (hi =? rz_byte b REDZONE_HI_MASK) then ret false
        else redzones_ok n b (i + 1)
  end.

Definition blockSane (a : nat) (b : Z) : MM bool :=
  A <- the_arena a ;;
  if clientmem A then ret true
  else
    u <- is_inuse_block b ;;
    if u : bool then redzones_ok (Z.to_nat (rz_szB A)) b 0 else ret true.

Definition unsplittableBlockSane (a : nat) (sb b : Z) : MM bool :=
  sane <- blockSane a b ;;
  if negb sane then ret false
  else
    us <- ld (sb + 8) ;;
    if negb (us =? sb) then ret false
    else
      n <- ld sb ;;
      let sb_start := payload_bytes sb in
      let sb_end := payload_bytes sb + (n - 1) in
      if negb (sb_start =? b) then ret false
      else
        x <- get_bszB b ;;
        let other_b := b + x in
        ret (other_b - 1 =? sb_end).

(** ** Making and unlinking blocks *)

Definition mkFreeBlock (a : nat) (b bszB b_lno : Z) : MM unit :=
  pszB <- bszB_to_pszB a bszB ;;
  lno <- pszB_to_listNo pszB ;;
  m_assert (b_lno =? lno) ;;;
  x <- mk_free_bszB bszB ;;
  set_bszB b x ;;;
  hd <- get_freelist a b_lno ;;
  if hd =? 0 then
    set_prev_b b b ;;;
    set_next_b b b ;;;
    set_freelist_at a b_lno b
  else
    b_prev <- get_prev_b hd ;;
    let b_next := hd in
    set_next_b b_prev b ;;;
    set_prev_b b_next b ;;;
    set_next_b b b_next ;;;
    set_prev_b b b_prev.

Fixpoint set_redzones (n : nat) (b i : Z) : MM unit :=
  match n with
  | O => ret tt
  | S n =>
      set_rz_lo_byte b i (rz_byte b REDZONE_LO_MASK) ;;;
      set_rz_hi_byte b i (rz_byte b REDZONE_HI_MASK) ;;;
      set_redzones n b (i + 1)
  end.

Definition paint_redzones (a : nat) (b : Z) : MM unit :=
  A <- the_arena a ;;
  if clientmem A then ret tt else set_redzones (Z.to_nat (rz_szB A)) b 0.

Definition mkInuseBlock (a : nat) (b bszB : Z) : MM unit :=
  m <- min_useful_bszB a ;;
  m_assert (m <=? bszB) ;;;
  x <- mk_inuse_bszB bszB ;;
  set_bszB b x ;;;
  set_prev_b b 0 ;;;
  set_next_b b 0 ;;;
  paint_redzones a b.

Definition shrinkInuseBlock (a : nat) (b bszB : Z) : MM unit :=
  m <- min_useful_bszB a ;;
  m_assert (m <=? bszB) ;;;
  x <- mk_inuse_bszB bszB ;;
  set_bszB b x ;;;
  paint_redzones a b.

Definition unlinkBlock (a : nat) (b listno : Z) : MM unit :=
  m_assert (listno <? N_MALLOC_LISTS) ;;;
  p <- get_prev_b b ;;
  (if p =? b then
     n <- get_next_b b ;;
     m_assert (n =? b) ;;;
     set_freelist_at a listno 0
   else
     b_prev <- get_prev_b b ;;
     b_next <- get_next_b b ;;
     set_freelist_at a listno b_prev ;;;
     set_next_b b_prev b_next ;;;
     set_prev_b b_next b_prev ;;;
     swizzle a listno) ;;;
  set_prev_b b 0 ;;;
  set_next_b b 0.

(** ** Superblocks *)

(** The index of a superblock in the array *)
Fixpoint find_index (n : nat) (l : list Z) (sb : Z) (i : nat) : option nat :=
  match n with
  | O => None
  | S n =>
      match l !! i with
      | Some x => if x =? sb then Some i else find_index n l sb (S i)
      | None => None
      end
  end.

(** [for (j = i; j < used; j++) sblocks[j] = sblocks[j+1]]: the last entry may
    be read past the end of the array, and is overwritten below. *)
Fixpoint shift_down (n : nat) (l : list Z) (j : nat) : list Z :=
  match n with
  | O => l
  | S n => shift_down n (<[j := default 0 (l !! S j)]> l) (S j)
  end.

Definition reclaimSuperblock (a : nat) (sb : Z) : MM unit :=
  n <- ld sb ;;
  let cszB := u64 (sizeof_Superblock + n) in
  A <- the_arena a ;;
  let used := Z.to_nat (sblocks_used A) in
  match find_index used (sblocks A) sb 0 with
  | None => fail
  | Some i =>
      let l := shift_down (used - i) (sblocks A) i in
      on_arena a (set_sblocks (<[(used - 1)%nat := 0]> l) (sblocks_size A) (sblocks_used A - 1)) ;;;
      on_stats a (fun s => set_mmaped (u64 (bytes_mmaped s - cszB)) s) ;;;
      us <- ld (sb + 8) ;;
      on_stats a (fun s => if us =? 0 then set_nreclaim (nreclaim_unsplit s) (u64 (nreclaim_split s + 1)) s
                           else set_nreclaim (u64 (nreclaim_unsplit s + 1)) (nreclaim_split s) s) ;;;
      o <- gets os ;;
      match am_munmap (clientmem A) sb cszB o with
      | Some o => modify (set_os o)
      | None => fail
      end
  end.

Definition deferred_reclaimSuperblock (a : nat) (sb : Z) : MM unit :=
  A <- the_arena a ;;
  let def_sb := deferred_reclaimed_sb A in
  if (sb =? 0) && (def_sb =? 0) then ret tt
  else
    (if negb (def_sb =? 0) && negb (def_sb =? sb) then
       n <- ld def_sb ;;
       let def_sb_start := payload_bytes def_sb in
       let def_sb_end := payload_bytes def_sb + (n - 1) in
       let b := def_sb_start in
       sane <- blockSane a b ;;
       m_assert sane ;;;
       u <- is_inuse_block b ;;
       if u : bool then ret tt
       else
         b_bszB <- get_bszB b ;;
         b_pszB <- bszB_to_pszB a b_bszB ;;
         if b + b_bszB - 1 =? def_sb_end then
           b_listno <- pszB_to_listNo b_pszB ;;
           unlinkBlock a b b_listno ;;;
           reclaimSuperblock a def_sb ;;;
           on_arena a (set_deferred 0)
         else ret tt
     else ret tt) ;;;
    on_arena a (set_deferred sb).

(** The deferred superblocks of the arenas from [a] on *)
Fixpoint reclaim_deferred (n a : nat) : MM unit :=
  match n with
  | O => ret tt
  | S n =>
      A <- the_arena a ;;
      (if deferred_reclaimed_sb A =? 0 then ret tt else deferred_reclaimSuperblock a 0) ;;;
      reclaim_deferred n (S a)
  end.

(** NULL, for the client, when there is no memory; for the core the process
    ends. *)
Definition newSuperblock (a : nat) (cszB : Z) : MM Z :=
  reclaim_deferred VG_N_ARENAS 0 ;;;
  let cszB := u64 (cszB + sizeof_Superblock) in
  A <- the_arena a ;;
  let cszB := if cszB <? min_sblock_szB A then min_sblock_szB A else cszB in
  let cszB := VG_PGROUNDUP cszB in
  let unsplittable := min_unsplittable_sblock_szB A <=? cszB in
  o <- gets os ;;
  match am_mmap (clientmem A) cszB o with
  | None => if clientmem A then ret 0 else fail
  | Some (sb, o) =>
      modify (set_os o) ;;;
      m_assert (negb (sb =? 0)) ;;;
      m_assert (0 =? sb mod VG_MIN_MALLOC_SZB) ;;;
      sd sb (cszB - sizeof_Superblock) ;;;
      sd (sb + 8) (if unsplittable then sb else 0) ;;;
      on_stats a (fun s => set_mmaped (u64 (bytes_mmaped s + cszB)) s) ;;;
      on_stats a (fun s => if bytes_mmaped_max s <? bytes_mmaped s then set_mmaped_max (bytes_mmaped s) s else s) ;;;
      ret sb
  end.

(** [min], [max] and [pos] are unsigned words. *)
Fixpoint findSb_loop (fuel : nat) (A : Arena) (b min max : Z) : MM Z :=
  match fuel with
  | O => fail
  | S fuel =>
      if max <? min then fail
      else
        let pos := u64 (min + u64 (max - min) / 2) in
        m_assert (pos <? sblocks_used A) ;;;
        match sblocks A !! Z.to_nat pos with
        | None => fail
        | Some sb =>
            n <- ld sb ;;
            if (payload_bytes sb <=? b) && (b <? payload_bytes sb + n) then ret sb
            else if payload_bytes sb <=? b then findSb_loop fuel A b (u64 (pos + 1)) max
            else findSb_loop fuel A b min (u64 (pos - 1))
        end
  end.

Definition findSb (a : nat) (b : Z) : MM Z :=
  A <- the_arena a ;; findSb_loop (S (Z.to_nat (sblocks_used A))) A b 0 (sblocks_used A).

(** [None]: no superblock contains the address. *)
Fixpoint maybe_findSb_loop (fuel : nat) (A : Arena) (ad min max : Z) : MM (option Z) :=
  match fuel with
  | O => fail
  | S fuel =>
      if max <? min then ret None
      else
        let pos := u64 (min + u64 (max - min) / 2) in
        if sblocks_used A <=? pos then ret None
        else
          match sblocks A !! Z.to_nat pos with
          | None => fail
          | Some sb =>
              n <- ld sb ;;
              if (payload_bytes sb <=? ad) && (ad <? payload_bytes sb + n) then ret (Some sb)
              else if payload_bytes sb <=? ad then maybe_findSb_loop fuel A ad (u64 (pos + 1)) max
              else maybe_findSb_loop fuel A ad min (u64 (pos - 1))
          end
  end.

Definition maybe_findSb (a : nat) (ad : Z) : MM (option Z) :=
  A <- the_arena a ;; maybe_findSb_loop (S (S (Z.to_nat (sblocks_used A)))) A ad 0 (sblocks_used A).

(** ** Allocation *)

Definition align_req_pszB (req_pszB : Z) : Z :=
  Z.land (u64 (req_pszB + (VG_MIN_MALLOC_SZB - 1))) (Z.lnot (VG_MIN_MALLOC_SZB - 1)).

(** The analysis that a heap profile prints here is left out. *)
Definition add_one_block_to_stats (a : nat) (loaned : Z) : MM unit :=
  on_stats a (fun s => set_on_loan (u64 (bytes_on_loan s + loaned)) s) ;;;
  on_stats a (fun s =>
    if bytes_on_loan_max s <? bytes_on_loan s then
      let s := set_on_loan_max (bytes_on_loan s) s in
      if next_profile_at s <=? bytes_on_loan_max s
      then set_next_profile (u64 (bytes_on_loan_max s * 105) / 100) s else s
    else s) ;;;
  on_stats a (fun s => set_tot (u64 (tot_blocks s + 1)) (u64 (tot_bytes s + loaned)) s).

(** One free list is searched from [b] on; [level] blocks of it and [total]
    blocks in all were looked at.  The result is a block that is big enough,
    and the number of blocks looked at. *)
Fixpoint scan_list (fuel : nat) (a : nat) (lno req_bszB b level total : Z) : MM (option Z * Z) :=
  match fuel with
  | O => fail
  | S fuel =>
      let total := u64 (total + 1) in
      let level := u64 (level + 1) in
      if (100 <=? level) && (lno <? N_MALLOC_LISTS - 1) then
        b <- get_freelist a lno ;;
        m_assert (negb (b =? 0)) ;;;
        n <- get_next_b b ;;
        set_freelist_at a lno n ;;;
        ret (None, total)
      else
        b_bszB <- get_bszB b ;;
        if req_bszB <=? b_bszB then ret (Some b, total)
        else
          b <- get_next_b b ;;
          hd <- get_freelist a lno ;;
          if b =? hd then ret (None, total)
          else scan_list fuel a lno req_bszB b level total
  end.

(** The lists from [lno] on; [list_fuel] is fuel for one list. *)
Fixpoint scan_lists (n list_fuel : nat) (a : nat) (lno req_bszB total : Z) : MM (option (Z * Z) * Z) :=
  match n with
  | O => ret (None, total)
  | S n =>
      b <- get_freelist a lno ;;
      if b =? 0 then scan_lists n list_fuel a (lno + 1) req_bszB total
      else
        r <- scan_list list_fuel a lno req_bszB b 0 total ;;
        match r.1 with
        | Some b => ret (Some (b, lno), r.2)
        | None => scan_lists n list_fuel a (lno + 1) req_bszB r.2
        end
  end.

(** The new superblock is put into the sorted array, which grows when it is
    full; the old array is abandoned. *)
Definition grow_sblocks (a : nat) : MM unit :=
  A <- the_arena a ;;
  m_assert (sblocks_used A <=? sblocks_size A) ;;;
  if sblocks_used A =? sblocks_size A then
    o <- gets os ;;
    match am_mmap false (8 * sblocks_size A * 2) o with
    | None => fail
    | Some (_, o) =>
        modify (set_os o) ;;;
        on_arena a (set_sblocks (take (Z.to_nat (sblocks_used A)) (sblocks A) ++
                                 replicate (Z.to_nat (2 * sblocks_size A - sblocks_used A)) 0)
                      (sblocks_size A * 2) (sblocks_used A))
    end
  else ret tt.

Fixpoint insert_down (i : nat) (l : list Z) (new_sb : Z) : list Z :=
  match i with
  | O => <[O := new_sb]> l
  | S j =>
      match l !! j with
      | Some x => if new_sb <? x then insert_down j (<[i := x]> l) new_sb else <[i := new_sb]> l
      | None => <[i := new_sb]> l
      end
  end.

Definition insert_sblock (a : nat) (new_sb : Z) : MM unit :=
  A <- the_arena a ;;
  m_assert (sblocks_used A <? sblocks_size A) ;;;
  on_arena a (set_sblocks (insert_down (Z.to_nat (sblocks_used A)) (sblocks A) new_sb)
                (sblocks_size A) (sblocks_used A + 1)).

(** From the label [obtained_block]: [split] says whether the block may be
    divided. *)
Definition take_block (a : nat) (cc b lno req_bszB : Z) (split : bool) : MM Z :=
  m_assert (lno <? N_MALLOC_LISTS) ;;;
  hd <- get_freelist a lno ;;
  m_assert (negb (hd =? 0)) ;;;
  b_bszB <- get_bszB b ;;
  m_assert (req_bszB <=? b_bszB) ;;;
  m <- min_useful_bszB a ;;
  let frag_bszB := b_bszB - req_bszB in
  if (m <=? frag_bszB) && split then
    unlinkBlock a b lno ;;;
    mkInuseBlock a b req_bszB ;;;
    profile_cc b cc ;;;
    frag_pszB <- bszB_to_pszB a frag_bszB ;;
    frag_lno <- pszB_to_listNo frag_pszB ;;
    mkFreeBlock a (b + req_bszB) frag_bszB frag_lno ;;;
    profile_cc (b + req_bszB) (literal cfg "admin.fragmentation-1") ;;;
    get_bszB b
  else
    unlinkBlock a b lno ;;;
    mkInuseBlock a b b_bszB ;;;
    profile_cc b cc ;;;
    ret b_bszB.

(** Fuel for the search of a list: no block has fewer than 32 bytes, and the
    superblocks have so many. *)
Definition heap_bytes (m : gmem) (l : list Z) : Z := foldr (fun sb n => load_le 8 m sb + n) 0 l.
Definition scan_fuel (a : nat) : MM nat :=
  A <- the_arena a ;;
  m <- gets hmem ;;
  ret (S (Z.to_nat (heap_bytes m (take (Z.to_nat (sblocks_used A)) (sblocks A)) / 32))).

(** No free block is big enough: a new superblock is one free block. *)
Definition new_free_block (a : nat) (req_bszB : Z) : MM (option (Z * Z * bool)) :=
  new_sb <- newSuperblock a req_bszB ;;
  if new_sb =? 0 then m_assert (a =? VG_AR_CLIENT)%nat ;;; ret None
  else
    grow_sblocks a ;;;
    insert_sblock a new_sb ;;;
    let b := payload_bytes new_sb in
    n <- ld new_sb ;;
    pszB <- bszB_to_pszB a n ;;
    lno <- pszB_to_listNo pszB ;;
    mkFreeBlock a b n lno ;;;
    profile_cc b (literal cfg "admin.free-new-sb-1") ;;;
    us <- ld (new_sb + 8) ;;
    ret (Some (b, lno, us =? 0)).

Definition arena_malloc (a : nat) (cc req_pszB : Z) : MM Z :=
  ensure_mm_init a ;;;
  m_assert (req_pszB <? MAX_PSZB) ;;;
  let req_pszB := align_req_pszB req_pszB in
  req_bszB <- pszB_to_bszB a req_pszB ;;
  m_assert (negb (cc =? 0)) ;;;
  lno <- pszB_to_listNo req_pszB ;;
  fuel <- scan_fuel a ;;
  found <- scan_lists (Z.to_nat (N_MALLOC_LISTS - lno)) fuel a lno req_bszB 0 ;;
  got <- (match found.1 with
          | Some (b, lno) => ret (Some (b, lno, true))
          | None => new_free_block a req_bszB
          end) ;;
  match got with
  | None => ret 0
  | Some (b, lno, split) =>
      b_bszB <- take_block a cc b lno req_bszB split ;;
      loaned <- bszB_to_pszB a b_bszB ;;
      add_one_block_to_stats a loaned ;;;
      on_stats a (fun s => set_nsearches (u64 (nsearches s + found.2)) s) ;;;
      v <- get_block_payload a b ;;
      m_assert (Z.land v (VG_MIN_MALLOC_SZB - 1) =? 0) ;;;
      ret v
  end.

(** ** Release *)

Definition merge_successor (a : nat) (sb_end b b_bszB b_listno : Z) : MM (Z * Z) :=
  m <- min_useful_bszB a ;;
  let other_b := b + b_bszB in
  if other_b + m - 1 <=? sb_end then
    other_bszB <- get_bszB other_b ;;
    u <- is_inuse_block other_b ;;
    if u : bool then ret (b_bszB, b_listno)
    else
      unlinkBlock a b b_listno ;;;
      other_pszB <- bszB_to_pszB a other_bszB ;;
      other_listno <- pszB_to_listNo other_pszB ;;
      unlinkBlock a other_b other_listno ;;;
      let b_bszB := u64 (b_bszB + other_bszB) in
      b_pszB <- bszB_to_pszB a b_bszB ;;
      b_listno <- pszB_to_listNo b_pszB ;;
      mkFreeBlock a b b_bszB b_listno ;;;
      profile_cc b (literal cfg "admin.free-2") ;;;
      ret (b_bszB, b_listno)
  else
    m_assert (other_b - 1 =? sb_end) ;;;
    ret (b_bszB, b_listno).

Definition merge_predecessor (a : nat) (sb_start b b_bszB b_listno : Z) : MM (Z * Z) :=
  m <- min_useful_bszB a ;;
  if sb_start + m <=? b then
    other_b <- get_predecessor_block b ;;
    other_bszB <- get_bszB other_b ;;
    u <- is_inuse_block other_b ;;
    if u : bool then ret (b, b_bszB)
    else
      unlinkBlock a b b_listno ;;;
      other_pszB <- bszB_to_pszB a other_bszB ;;
      other_listno <- pszB_to_listNo other_pszB ;;
      unlinkBlock a other_b other_listno ;;;
      let b := other_b in
      let b_bszB := u64 (b_bszB + other_bszB) in
      b_pszB <- bszB_to_pszB a b_bszB ;;
      b_listno <- pszB_to_listNo b_pszB ;;
      mkFreeBlock a b b_bszB b_listno ;;;
      profile_cc b (literal cfg "admin.free-3") ;;;
      ret (b, b_bszB)
  else
    m_assert (sb_start =? b) ;;;
    ret (b, b_bszB).

Definition mergeWithFreeNeighbours (a : nat) (sb b b_bszB : Z) : MM unit :=
  n <- ld sb ;;
  let sb_start := payload_bytes sb in
  let sb_end := payload_bytes sb + (n - 1) in
  b_pszB <- bszB_to_pszB a b_bszB ;;
  b_listno <- pszB_to_listNo b_pszB ;;
  r <- merge_successor a sb_end b b_bszB b_listno ;;
  r <- merge_predecessor a sb_start b r.1 r.2 ;;
  let b := r.1 in
  let b_bszB := r.2 in
  if (sb_start =? b) && (b + b_bszB - 1 =? sb_end) then deferred_reclaimSuperblock a sb else ret tt.

Definition arena_free (a : nat) (ptr : Z) : MM unit :=
  ensure_mm_init a ;;;
  if ptr =? 0 then ret tt
  else
    b <- get_payload_block a ptr ;;
    (if (a =? VG_AR_CLIENT)%nat then ret tt
     else
       u <- is_inuse_block b ;;
       if u : bool then sane <- blockSane a b ;; m_assert sane else fail) ;;;
    b_bszB <- get_bszB b ;;
    b_pszB <- bszB_to_pszB a b_bszB ;;
    sb <- findSb a b ;;
    on_stats a (fun s => set_on_loan (u64 (bytes_on_loan s - b_pszB)) s) ;;;
    (if (a =? VG_AR_CLIENT)%nat then ret tt
     else modify (fun s => set_hmem (memset (hmem s) ptr 221 b_pszB) s)) ;;;
    us <- ld (sb + 8) ;;
    if us =? 0 then
      b_listno <- pszB_to_listNo b_pszB ;;
      mkFreeBlock a b b_bszB b_listno ;;;
      profile_cc b (literal cfg "admin.free-1") ;;;
      mergeWithFreeNeighbours a sb b b_bszB
    else
      sane <- unsplittableBlockSane a sb b ;;
      m_assert sane ;;;
      reclaimSuperblock a sb.
End Malloc.
