(* ===== verification/MallocApi.v ===== *)
(** The services of [coregrind/m_mallocfree.c] on top of allocation and
    release: aligned blocks, reallocation, permanent blocks, the sanity check
    and the statistics. *)
From stdpp Require Import base list.
From Stdlib Require Import ZArith Lia String.
From S2P Require Import Prelude Mem LibcMem Adler Malloc.
Open Scope prog_scope.
Open Scope Z_scope.

Section MallocApi.
Context {OS : Type} `{AddressSpace OS} (cfg : heap_config).
Abbreviation MM := (M (mst (OS := OS))).

(** ** Aligned blocks *)

Definition align_upwards (p align : Z) : Z :=
  if p mod align =? 0 then p else p - p mod align + align.

Definition arena_memalign (a : nat) (cc req_alignB req_pszB : Z) : MM Z :=
  ensure_mm_init cfg a ;;;
  m_assert (req_pszB <? MAX_PSZB) ;;;
  m_assert (negb (cc =? 0)) ;;;
  if req_alignB <? VG_MIN_MALLOC_SZB then fail
  else if 16 * 1024 * 1024 <? req_alignB then fail
  else if log2 (uint req_alignB) =? -1 then fail
  else
    m_assert (req_alignB mod VG_MIN_MALLOC_SZB =? 0) ;;;
    let req_pszB := align_req_pszB req_pszB in
    m <- min_useful_bszB a ;;
    let base_pszB_req := u64 (req_pszB + m + req_alignB) in
    A <- the_arena a ;;
    let saved_bytes_on_loan := bytes_on_loan (stats A) in
    let save := min_unsplittable_sblock_szB A in
    on_arena a (set_min_unsplittable MAX_PSZB) ;;;
    base_p <- arena_malloc cfg a cc base_pszB_req ;;
    on_arena a (set_min_unsplittable save) ;;;
    on_stats a (set_on_loan saved_bytes_on_loan) ;;;
    if base_p =? 0 then ret 0
    else
      base_b <- get_payload_block a base_p ;;
      lo <- overhead_szB_lo a ;;
      hi <- overhead_szB_hi a ;;
      let align_p := align_upwards (base_b + 2 * lo + hi) req_alignB in
      align_b <- get_payload_block a align_p ;;
      let frag_bszB := align_b - base_b in
      m_assert (m <=? frag_bszB) ;;;
      base_pszB_act <- get_pszB a base_b ;;
      frag_pszB <- bszB_to_pszB a frag_bszB ;;
      frag_lno <- pszB_to_listNo frag_pszB ;;
      mkFreeBlock a base_b frag_bszB frag_lno ;;;
      profile_cc cfg base_b (literal cfg "admin.frag-memalign-1") ;;;
      mkInuseBlock a align_b (base_p + base_pszB_act + hi - align_b) ;;;
      profile_cc cfg align_b cc ;;;
      b1 <- get_payload_block a align_p ;;
      u <- is_inuse_block b1 ;;
      m_assert u ;;;
      pszB <- get_pszB a b1 ;;
      m_assert (req_pszB <=? pszB) ;;;
      on_stats a (fun s => set_on_loan (u64 (bytes_on_loan s + pszB)) s) ;;;
      on_stats a (fun s => if bytes_on_loan_max s <? bytes_on_loan s then set_on_loan_max (bytes_on_loan s) s else s) ;;;
      m_assert (align_p mod req_alignB =? 0) ;;;
      ret align_p.

(** ** Sizes *)

Definition arena_malloc_usable_size (a : nat) (ptr : Z) : MM Z :=
  b <- get_payload_block a ptr ;; get_pszB a b.

Definition arena_redzone_size (a : nat) : MM Z :=
  ensure_mm_init cfg VG_AR_CLIENT ;;; A <- the_arena a ;; ret (rz_szB A).

(** The number and the payload bytes of the blocks of one free list, from [b]
    on *)
Fixpoint count_free (fuel : nat) (a : nat) (hd b blocks size : Z) : MM (Z * Z) :=
  match fuel with
  | O => fail
  | S fuel =>
      let blocks := u64 (blocks + 1) in
      pszB <- get_pszB a b ;;
      let size := u64 (size + pszB) in
      b <- get_next_b b ;;
      if b =? hd then ret (blocks, size) else count_free fuel a hd b blocks size
  end.

Fixpoint count_lists (n : nat) (fuel : nat) (a : nat) (i blocks size : Z) : MM (Z * Z) :=
  match n with
  | O => ret (blocks, size)
  | S n =>
      b <- get_freelist a i ;;
      if b =? 0 then count_lists n fuel a (i + 1) blocks size
      else
        r <- count_free fuel a b b blocks size ;;
        count_lists n fuel a (i + 1) r.1 r.2
  end.

(** The fields [arena], [ordblks], [uordblks] and [fordblks]; the others are
    zero.  [queue] is [VG_(free_queue_length)] and [VG_(free_queue_volume)]. *)
Definition mallinfo (queue : Z * Z) : MM (Z * Z * Z * Z) :=
  fuel <- scan_fuel VG_AR_CLIENT ;;
  r <- count_lists (Z.to_nat N_MALLOC_LISTS) fuel VG_AR_CLIENT 0 0 0 ;;
  A <- the_arena VG_AR_CLIENT ;;
  let int x := (x + 2 ^ 31) mod 2 ^ 32 - 2 ^ 31 in
  ret (int (bytes_mmaped (stats A)), int (r.1 + queue.1), int (bytes_on_loan (stats A) - queue.2), int (r.2 + queue.2)).

(** ** Layered services *)

Definition arena_calloc (a : nat) (cc nmemb bytes_per_memb : Z) : MM Z :=
  let size := u64 (nmemb * bytes_per_memb) in
  m_assert ((nmemb <=? size) && (bytes_per_memb <=? size)) ;;;
  p <- arena_malloc cfg a cc size ;;
  (if p =? 0 then ret tt else modify (fun s => set_hmem (memset (hmem s) p 0 size) s)) ;;;
  ret p.

(** For the client the allocation may return NULL, which the copy would
    then write to. *)
Definition arena_realloc (a : nat) (cc ptr req_pszB : Z) : MM Z :=
  ensure_mm_init cfg a ;;;
  m_assert (req_pszB <? MAX_PSZB) ;;;
  if ptr =? 0 then arena_malloc cfg a cc req_pszB
  else if req_pszB =? 0 then arena_free cfg a ptr ;;; ret 0
  else
    b <- get_payload_block a ptr ;;
    sane <- blockSane a b ;;
    m_assert sane ;;;
    u <- is_inuse_block b ;;
    m_assert u ;;;
    old_pszB <- get_pszB a b ;;
    if req_pszB <=? old_pszB then ret ptr
    else
      p_new <- arena_malloc cfg a cc req_pszB ;;
      (if p_new =? 0 then fail else modify (fun s => set_hmem (memcpy (hmem s) p_new ptr old_pszB) s)) ;;;
      arena_free cfg a ptr ;;;
      ret p_new.

Definition set_payload_bytes (sb n : Z) : MM unit := sd sb n.

Definition arena_realloc_shrink (a : nat) (ptr req_pszB : Z) : MM unit :=
  ensure_mm_init cfg a ;;;
  b <- get_payload_block a ptr ;;
  sane <- blockSane a b ;;
  m_assert sane ;;;
  u <- is_inuse_block b ;;
  m_assert u ;;;
  old_pszB <- get_pszB a b ;;
  let req_pszB := align_req_pszB req_pszB in
  m_assert (req_pszB <=? old_pszB) ;;;
  if old_pszB =? req_pszB then ret tt
  else
    sb <- findSb a b ;;
    us <- ld (sb + 8) ;;
    if negb (us =? 0) then
      n <- ld sb ;;
      let sb_start := payload_bytes sb in
      let sb_end := payload_bytes sb + (n - 1) in
      sane <- unsplittableBlockSane a sb b ;;
      m_assert sane ;;;
      req_bszB <- pszB_to_bszB a req_pszB ;;
      let frag := VG_PGROUNDUP (sb + sizeof_Superblock + req_bszB) in
      let frag_bszB := u64 (sb_end - frag + 1) in
      (if VKI_PAGE_SIZE <=? frag_bszB then
         on_stats a (fun s => set_on_loan (u64 (bytes_on_loan s - old_pszB)) s) ;;;
         let b_bszB := frag - sb_start in
         shrinkInuseBlock a b b_bszB ;;;
         pszB <- bszB_to_pszB a b_bszB ;;
         on_stats a (fun s => set_on_loan (u64 (bytes_on_loan s + pszB)) s) ;;;
         sd sb (u64 (n - frag_bszB)) ;;;
         A <- the_arena a ;;
         o <- gets os ;;
         (match am_munmap (clientmem A) frag frag_bszB o with
          | Some o => modify (set_os o)
          | None => fail
          end) ;;;
         on_stats a (fun s => set_mmaped (u64 (bytes_mmaped s - frag_bszB)) s) ;;;
         sane <- unsplittableBlockSane a sb b ;;
         m_assert sane
       else ret tt) ;;;
      sane <- blockSane a b ;;
      m_assert sane
    else
      req_bszB <- pszB_to_bszB a req_pszB ;;
      b_bszB <- get_bszB b ;;
      let frag_bszB := u64 (b_bszB - req_bszB) in
      m <- min_useful_bszB a ;;
      if frag_bszB <? m then ret tt
      else
        on_stats a (fun s => set_on_loan (u64 (bytes_on_loan s - old_pszB)) s) ;;;
        shrinkInuseBlock a b req_bszB ;;;
        frag_pszB <- bszB_to_pszB a frag_bszB ;;
        frag_lno <- pszB_to_listNo frag_pszB ;;
        mkFreeBlock a (b + req_bszB) frag_bszB frag_lno ;;;
        profile_cc cfg (b + req_bszB) (literal cfg "admin.fragmentation-2") ;;;
        mergeWithFreeNeighbours cfg a sb (b + req_bszB) frag_bszB ;;;
        b_bszB <- get_bszB b ;;
        pszB <- bszB_to_pszB a b_bszB ;;
        on_stats a (fun s => set_on_loan (u64 (bytes_on_loan s + pszB)) s) ;;;
        sane <- blockSane a b ;;
        m_assert sane.

(** [len] is the length of the string at [s], with its terminating null. *)
Fixpoint copy_chars (n : nat) (res s : Z) : MM unit :=
  match n with
  | O => ret tt
  | S n => x <- ldb s ;; sdb res x ;;; copy_chars n (res + 1) (s + 1)
  end.

Definition arena_strdup (fuel : nat) (a : nat) (cc s : Z) : MM Z :=
  if s =? 0 then ret 0
  else
    n <- gets (fun st => find_nul fuel (hmem st) s) ;;
    match n with
    | None => fail
    | Some e =>
        let len := e - s + 1 in
        res <- arena_malloc cfg a cc len ;;
        (if res =? 0 then fail else copy_chars (Z.to_nat len) res s) ;;;
        ret res
    end.

Definition arena_perm_malloc (a : nat) (size align : Z) : MM Z :=
  ensure_mm_init cfg a ;;;
  let align := align - 1 in
  let size := Z.land (u64 (size + align)) (Z.lnot align) in
  A <- the_arena a ;;
  (if perm_malloc_limit A <? u64 (perm_malloc_current A + size) then
     new_sb <- newSuperblock a size ;;
     if new_sb =? 0 then fail
     else
       n <- ld new_sb ;;
       on_arena a (set_perm_malloc new_sb (payload_bytes new_sb + (n - 1)))
   else ret tt) ;;;
  on_stats a (fun s => set_perm_loan (u64 (perm_bytes_on_loan s + size)) (u64 (perm_blocks s + 1)) s) ;;;
  add_one_block_to_stats a size ;;;
  on_arena a (fun A => set_perm_malloc (u64 (perm_malloc_current A + size)) (perm_malloc_limit A) A) ;;;
  A <- the_arena a ;;
  ret (u64 (perm_malloc_current A - size)).

(** ** The sanity check *)

(** The blocks of the superblock [sb] from the offset [i] on, an unsigned
    int: the number of free ones and the bytes on loan are added to [free] and
    [loan].  The counters of superblocks and of blocks are only printed. *)
Fixpoint check_blocks (fuel : nat) (a : nat) (sb i : Z) (lastWasFree : bool) (free loan : Z) : MM (Z * Z) :=
  match fuel with
  | O => fail
  | S fuel =>
      n <- ld sb ;;
      if i <? n then
        let b := payload_bytes sb + i in
        b_bszB <- get_bszB_as_is b ;;
        sane <- blockSane a b ;;
        if negb sane then fail
        else
          u <- is_inuse_block b ;;
          let thisFree := negb u in
          if thisFree && lastWasFree then fail
          else
            let free := if thisFree then uint (free + 1) else free in
            loan <- (if thisFree then ret loan else pszB <- bszB_to_pszB a b_bszB ;; ret (u64 (loan + pszB))) ;;
            plain <- mk_plain_bszB b_bszB ;;
            check_blocks fuel a sb (uint (i + plain)) thisFree free loan
      else if n <? i then fail
      else ret (free, loan)
  end.

Fixpoint check_sblocks (fuel : nat) (a : nat) (l : list Z) (free loan : Z) : MM (Z * Z) :=
  match l with
  | [] => ret (free, loan)
  | sb :: l =>
      r <- check_blocks fuel a sb 0 false free loan ;;
      check_sblocks fuel a l r.1 r.2
  end.

(** The free list [listno], whose head is [hd] *)
Fixpoint check_list (fuel : nat) (a : nat) (hd listno b li : Z) : MM Z :=
  match fuel with
  | O => fail
  | S fuel =>
      let b_prev := b in
      b <- get_next_b b ;;
      p <- get_prev_b b ;;
      if negb (p =? b_prev) then fail
      else
        pszB <- get_pszB a b ;;
        if (pszB <? listNo_to_pszB_min listno) || (listNo_to_pszB_max listno <? pszB) then fail
        else
          let li := uint (li + 1) in
          if b =? hd then ret li else check_list fuel a hd listno b li
  end.

Fixpoint check_lists (n : nat) (fuel : nat) (a : nat) (listno li : Z) : MM Z :=
  match n with
  | O => ret li
  | S n =>
      b <- get_freelist a listno ;;
      li <- (if b =? 0 then ret li else check_list fuel a b listno b li) ;;
      check_lists n fuel a (listno + 1) li
  end.

(** The array is [sblocks_initial] as long as it has its first size: the model
    does not tell them apart. *)
Definition sanity_check_malloc_arena (a : nat) : MM unit :=
  A <- the_arena a ;;
  (if negb ((SBLOCKS_SIZE_INITIAL <=? sblocks_size A) && (sblocks_used A <=? sblocks_size A)) then fail else ret tt) ;;;
  fuel <- scan_fuel a ;;
  r <- check_sblocks fuel a (take (Z.to_nat (sblocks_used A)) (sblocks A)) 0 0 ;;
  let loan := u64 (r.2 + perm_bytes_on_loan (stats A)) in
  if negb (loan =? bytes_on_loan (stats A)) then fail
  else
    li <- check_lists (Z.to_nat N_MALLOC_LISTS) fuel a 0 0 ;;
    if negb (r.1 =? li) then fail else ret tt.

Fixpoint sanity_check_from (n i : nat) : MM unit :=
  match n with
  | O => ret tt
  | S n =>
      inited <- gets client_inited ;;
      (if (i =? VG_AR_CLIENT)%nat && negb inited then ret tt else sanity_check_malloc_arena i) ;;;
      sanity_check_from n (S i)
  end.

Definition sanity_check_malloc_all : MM unit := sanity_check_from VG_N_ARENAS 0.

(** ** Descriptions of addresses *)

(** The name is that of an arena, or none. *)
Record AddrArenaInfo := mk_aai {
  aai_aid : nat;
  aai_name : option nat;
  aai_block_szB : Z;
  aai_rwoffset : Z;
  aai_free : bool
}.

(** The block of [sb] that [ad] is in; [b] is the block before the offset
    [j], [0] at first. *)
Fixpoint block_of_addr (fuel : nat) (sb ad j b : Z) : MM Z :=
  match fuel with
  | O => fail
  | S fuel =>
      n <- ld sb ;;
      if j <? n then
        let b := payload_bytes sb + j in
        b_bszB <- get_bszB_as_is b ;;
        plain <- mk_plain_bszB b_bszB ;;
        if ad <? b + plain then ret b
        else block_of_addr fuel sb ad (j + plain) b
      else ret b
  end.

Fixpoint describe_from (n i : nat) (ad : Z) : MM AddrArenaInfo :=
  match n with
  | O => ret (mk_aai 0 None 0 0 false)
  | S n =>
      inited <- gets client_inited ;;
      if (i =? VG_AR_CLIENT)%nat && negb inited then describe_from n (S i) ad
      else
        sb <- maybe_findSb i ad ;;
        match sb with
        | None => describe_from n (S i) ad
        | Some sb =>
            fuel <- scan_fuel i ;;
            b <- block_of_addr fuel sb ad 0 0 ;;
            m_assert (negb (b =? 0)) ;;;
            szB <- get_pszB i b ;;
            payload <- get_block_payload i b ;;
            u <- is_inuse_block b ;;
            ret (mk_aai i (Some i) szB (ad - payload) (negb u))
        end
  end.

Definition describe_arena_addr (ad : Z) : MM AddrArenaInfo := describe_from VG_N_ARENAS 0 ad.

(** ** The services for tools *)

Definition malloc (cc nbytes : Z) : MM Z := arena_malloc cfg VG_AR_CORE cc nbytes.
Definition free (ptr : Z) : MM unit := arena_free cfg VG_AR_CORE ptr.
Definition calloc (cc nmemb bytes_per_memb : Z) : MM Z := arena_calloc VG_AR_CORE cc nmemb bytes_per_memb.
Definition realloc (cc ptr size : Z) : MM Z := arena_realloc VG_AR_CORE cc ptr size.
Definition realloc_shrink (ptr size : Z) : MM unit := arena_realloc_shrink VG_AR_CORE ptr size.
Definition strdup (fuel : nat) (cc s : Z) : MM Z := arena_strdup fuel VG_AR_CORE cc s.
Definition perm_malloc (size align : Z) : MM Z := arena_perm_malloc VG_AR_CORE size align.
End MallocApi.
