(* ===== verification/MallocBlocks.v ===== *)
(** The blocks of the core's heap ([Malloc]) as values: where their fields
    are, and what the operations on one block do to memory. *)
From stdpp Require Import base list.
From Stdlib Require Import ZArith Lia.
From S2P Require Import Prelude Mem LibcMem Malloc.
Open Scope prog_scope.
Open Scope Z_scope.

(** ** Words *)

(** Rounding down to a multiple of a power of two *)
Lemma land_lnot k x : 0 <= k -> Z.land x (Z.lnot (2 ^ k - 1)) = x - x mod 2 ^ k.
Proof.
  intros Hk. rewrite <- Z.ldiff_land. replace (2 ^ k - 1) with (Z.ones k) by (rewrite Z.ones_equiv; lia).
  rewrite Z.ldiff_ones_r, Z.shiftl_mul_pow2, Z.shiftr_div_pow2 by done.
  pose proof (Z.div_mod x (2 ^ k)). lia.
Qed.

Lemma lor_one x : x mod 2 = 0 -> Z.lor x 1 = x + 1.
Proof.
  intros Hx. rewrite (Z.div_mod x 2), Hx by done. replace (2 * (x / 2) + 0) with (x / 2 * 2 ^ 1) by lia.
  rewrite lor_add_pow2; lia.
Qed.

Lemma land_one x : Z.land x 1 = x mod 2.
Proof. change 1 with (Z.ones 1). by rewrite Z.land_ones. Qed.

(** A word elsewhere is as it was. *)
Lemma load_store_other n k m p q v : p + Z.of_nat n <= q \/ q + Z.of_nat k <= p ->
  load_le n (store_le k m q v) p = load_le n m p.
Proof. intros H. apply load_le_ext. intros x Hx. apply store_le_outside. lia. Qed.

(** ** Blocks *)

(** The overheads of an arena's blocks: the word for the heap profile, if
    any, and the redzones *)
Record geo := Geo { g_hp : Z; g_rz : Z; g_client : bool }.
Definition g_lo g : Z := g_hp g + 8 + g_rz g.
Definition g_hi g : Z := g_rz g + 8.
Definition g_ovh g : Z := g_lo g + g_hi g.
Definition geo_ok g : Prop :=
  (g_hp g = 0 \/ g_hp g = 16) /\ 8 <= g_rz g <= 2 ^ 16 /\ (8 + g_rz g) mod 16 = 0.

Record blk := Blk { baddr : Z; bsz : Z; bused : bool }.
Definition bend (b : blk) : Z := baddr b + bsz b.
Definition btag (b : blk) : Z := if bused b then bsz b else bsz b + 1.

Definition blk_wf g (b : blk) : Prop :=
  0 < baddr b /\ baddr b mod 16 = 0 /\ bsz b mod 16 = 0 /\ g_ovh g <= bsz b /\ bend b < 2 ^ 64.

Definition redzones g (m : gmem) (b : blk) : Prop := forall i, 0 <= i < g_rz g ->
  m (baddr b + (g_hp g + 8 + i)) = rz_byte (baddr b) REDZONE_LO_MASK /\
  m (baddr b + (bsz b - 8 - i - 1)) = rz_byte (baddr b) REDZONE_HI_MASK.

(** The size is at both ends, *)
Definition tagged g (m : gmem) (b : blk) : Prop :=
  load_le 8 m (baddr b + g_hp g) = btag b /\ load_le 8 m (bend b - 8) = btag b.

(** and the redzones of the core's blocks are intact. *)
Definition blk_in g (m : gmem) (b : blk) : Prop :=
  tagged g m b /\ (bused b = true -> g_client g = false -> redzones g m b).

(** The links of a free block *)
Definition pv g (m : gmem) (b : blk) : Z := load_le 8 m (baddr b + g_hp g + 8).
Definition nx (m : gmem) (b : blk) : Z := load_le 8 m (bend b - 16).

(** The bytes of a block around its payload *)
Definition admin_byte g (b : blk) (x : Z) : Prop := baddr b <= x < baddr b + g_lo g \/ bend b - g_hi g <= x < bend b.

Definition in_blk (b : blk) (x : Z) : Prop := baddr b <= x < bend b.
Definition bdisj (b c : blk) : Prop := bend b <= baddr c \/ bend c <= baddr b.

Lemma bdisj_sym b c : bdisj b c -> bdisj c b.
Proof. unfold bdisj. lia. Qed.

Lemma blk_wf_used g b u : blk_wf g (Blk (baddr b) (bsz b) u) <-> blk_wf g b.
Proof. done. Qed.

(** A change outside the two words leaves a block tagged. *)
Definition tag_byte g (b : blk) (x : Z) : Prop :=
  baddr b + g_hp g <= x < baddr b + g_hp g + 8 \/ bend b - 8 <= x < bend b.

Lemma tagged_ext g m m' b : (forall x, tag_byte g b x -> m' x = m x) -> tagged g m b -> tagged g m' b.
Proof.
  intros Hx [H1 H2]. unfold tag_byte in Hx. split; [rewrite <- H1|rewrite <- H2]; apply load_le_ext; intros x Hi; apply Hx; lia.
Qed.

(** The word for the heap profile may change. *)
Definition in_body g (b : blk) (x : Z) : Prop := baddr b + g_hp g <= x < bend b.

Lemma blk_in_body g m m' b : geo_ok g -> blk_wf g b -> (forall x, in_body g b x -> m' x = m x) -> blk_in g m b -> blk_in g m' b.
Proof.
  intros Hg Hb Hx [H1 H3]. unfold in_body, bend, geo_ok, blk_wf, g_ovh, g_lo, g_hi in *. split.
  - eapply tagged_ext; [|exact H1]. unfold tag_byte, bend. intros x Hi. apply Hx. lia.
  - intros Hu Hc i Hi. destruct (H3 Hu Hc i Hi) as [<- <-]. split; apply Hx; lia.
Qed.

Lemma blk_in_ext g m m' b : geo_ok g -> blk_wf g b -> (forall x, in_blk b x -> m' x = m x) -> blk_in g m b -> blk_in g m' b.
Proof.
  intros Hg Hb Hx. apply blk_in_body; [done|done|]. intros x Hi. apply Hx. unfold in_body, in_blk in *. destruct Hg. lia.
Qed.

(** The payload of a block may change. *)
Lemma blk_in_admin g m m' b : geo_ok g -> blk_wf g b -> (forall x, admin_byte g b x -> m' x = m x) -> blk_in g m b -> blk_in g m' b.
Proof.
  intros Hg Hb Hx [H1 H3]. unfold admin_byte, bend, geo_ok, blk_wf, g_ovh, g_lo, g_hi in *. split.
  - eapply tagged_ext; [|exact H1]. unfold tag_byte, bend. intros x Hi. apply Hx. lia.
  - intros Hu Hc i Hi. destruct (H3 Hu Hc i Hi) as [<- <-]. split; apply Hx; lia.
Qed.

Lemma nx_ext m m' b : (forall x, bend b - 16 <= x < bend b - 8 -> m' x = m x) -> nx m' b = nx m b.
Proof. intros H. apply load_le_ext. intros x Hx. apply H. lia. Qed.

Lemma pv_ext g m m' b : (forall x, baddr b + g_hp g + 8 <= x < baddr b + g_hp g + 16 -> m' x = m x) -> pv g m' b = pv g m b.
Proof. intros H. apply load_le_ext. intros x Hx. apply H. lia. Qed.

Lemma blk_wf_pos g b : geo_ok g -> blk_wf g b -> 32 + g_hp g <= bsz b /\ bsz b mod 2 = 0 /\ 0 <= btag b < 2 ^ 64 /\ btag b <> 0.
Proof.
  unfold blk_wf, geo_ok, g_ovh, g_lo, g_hi, btag, bend in *. intros Hg (? & ? & Hm & ? & ?).
  assert (bsz b mod 2 = 0). { rewrite (Z.div_mod (bsz b) 16), Hm by done. replace (16 * (bsz b / 16) + 0) with (8 * (bsz b / 16) * 2) by lia. by apply Z.mod_mul. }
  split_and!; [lia|done|destruct (bused b)..]; lia.
Qed.

Lemma plain_tag g b : geo_ok g -> blk_wf g b -> Z.land (btag b) (Z.lnot 1) = bsz b.
Proof.
  intros Hg Hb. destruct (blk_wf_pos _ _ Hg Hb) as (_ & H2 & _). change 1 with (2 ^ 1 - 1). rewrite land_lnot by lia. unfold btag.
  change (2 ^ 1) with 2. destruct (bused b); [lia|]. rewrite Z.add_mod, H2 by done. change ((0 + 1 mod 2) mod 2) with 1. lia.
Qed.

Lemma tag_used g b : geo_ok g -> blk_wf g b -> (Z.land (btag b) 1 =? 0) = bused b.
Proof.
  intros Hg Hb. destruct (blk_wf_pos _ _ Hg Hb) as (_ & H2 & _). rewrite land_one. unfold btag. destruct (bused b); [by rewrite H2|].
  rewrite Z.add_mod, H2 by done. done.
Qed.

Lemma geo_sizes g : geo_ok g -> 16 <= g_lo g <= 2 ^ 17 /\ 16 <= g_hi g <= 2 ^ 17 /\ 32 <= g_ovh g <= 2 ^ 18 /\
  g_lo g mod 16 = 0 /\ g_hi g mod 16 = 0 /\ g_ovh g mod 16 = 0.
Proof.
  unfold geo_ok, g_ovh, g_lo, g_hi in *. intros Hg. destruct Hg as ([-> | ->] & Hr & Hm).
  - replace (0 + 8 + g_rz g) with (8 + g_rz g) by lia. replace (g_rz g + 8) with (8 + g_rz g) by lia.
    split_and!; try lia; try done. rewrite Z.add_mod, Hm by done. done.
  - assert ((16 + 8 + g_rz g) mod 16 = 0) as E. { rewrite <- Z.add_assoc, Z.add_mod, Hm by done. done. }
    replace (g_rz g + 8) with (8 + g_rz g) by lia. split_and!; try lia; try done. by rewrite Z.add_mod, Hm, E.
Qed.


Lemma payload_mod g n : geo_ok g -> n mod 16 = 0 -> (n - g_ovh g) mod 16 = 0.
Proof. intros Hg Hn. destruct (geo_sizes g Hg) as (_ & _ & _ & _ & _ & Ho). by rewrite Zminus_mod, Hn, Ho. Qed.

Lemma geo_hp g : geo_ok g -> 0 <= g_hp g /\ g_hp g + 32 <= g_ovh g.
Proof. unfold geo_ok, g_ovh, g_lo, g_hi. lia. Qed.

Section Blocks.
Context {OS : Type} `{AddressSpace OS}.
Abbreviation MST := (mst (OS := OS)).
Implicit Types (s : MST) (m : gmem) (b c : blk) (A : Arena) (g : geo).

(** ** States *)

(** The state [s] with memory [m], the address space [o], and the arena [A] at
    its place *)
Definition at_arena (a : nat) A m (o : OS) s : MST :=
  mk_mst m o (<[a := A]> (vg_arena s)) (client_inited s) (nonclient_inited s) (hp_overhead_szB s) (client_rz_szB s).

Definition arena_geo s A : geo := Geo (hp_overhead_szB s) (rz_szB A) (clientmem A).

Lemma at_arena_id a A s : vg_arena s !! a = Some A -> s = at_arena a A (hmem s) (os s) s.
Proof using Type. intros HA. unfold at_arena. rewrite list_insert_id by done. by destruct s. Qed.

Lemma at_arena_twice a A A' m m' o o' s : at_arena a A' m' o' (at_arena a A m o s) = at_arena a A' m' o' s.
Proof using Type. unfold at_arena. cbn. by rewrite list_insert_insert_eq. Qed.

Section At.
Context (a : nat) (s : MST) (Ha : (a < length (vg_arena s))%nat).
Abbreviation St A m o := (at_arena a A m o s).

Lemma wp_the_arena A m o Q : Q A (St A m o) -> wp (the_arena a) (St A m o) Q.
Proof using Ha. intros HQ. unfold wp, the_arena, at_arena in *. cbn in *. by rewrite list_lookup_insert_eq. Qed.

Lemma wp_on_arena f A m o Q : Q tt (St (f A) m o) -> wp (on_arena a f) (St A m o) Q.
Proof using Ha.
  intros HQ. unfold wp, on_arena, at_arena, set_arenas in *. cbn in *. rewrite list_lookup_insert_eq by done.
  by rewrite list_insert_insert_eq.
Qed.

Lemma wp_on_stats f A m o Q : Q tt (St (set_stats (f (stats A)) A) m o) -> wp (on_stats a f) (St A m o) Q.
Proof using Ha. apply (wp_on_arena (fun A => set_stats (f (stats A)) A)). Qed.

Lemma wp_ld p A m o Q : Q (load_le 8 m p) (St A m o) -> wp (ld p) (St A m o) Q.
Proof using Type. done. Qed.

Lemma wp_sd p v A m o Q : Q tt (St A (store_le 8 m p v) o) -> wp (sd p v) (St A m o) Q.
Proof using Type. done. Qed.

Lemma wp_sdb p v A m o Q : Q tt (St A (upd m p v) o) -> wp (sdb p v) (St A m o) Q.
Proof using Type. done. Qed.
End At.

Lemma wp_m_assert (b : bool) s Q : b = true -> Q tt s -> wp (m_assert b) s Q.
Proof using Type. by intros ->. Qed.

(** ** Reading a block *)

Section Ops.
Context (a : nat) (s : MST) (g : geo).
Context (Ha : (a < length (vg_arena s))%nat) (Hg : geo_ok g) (Hhp : hp_overhead_szB s = g_hp g).
Abbreviation St A m o := (at_arena a A m o s).

Definition A_geo A : Prop := rz_szB A = g_rz g /\ clientmem A = g_client g.

Lemma wp_hp {B} (K : Z -> M MST B) A m o Q : wp (K (g_hp g)) (St A m o) Q -> wp (hp <- gets hp_overhead_szB ;; K hp) (St A m o) Q.
Proof using Ha Hg Hhp. intros HQ. apply wp_bind, wp_gets. cbn. by rewrite Hhp. Qed.

Lemma wp_plain b A m o Q : blk_wf g b -> Q (bsz b) (St A m o) -> wp (mk_plain_bszB (btag b)) (St A m o) Q.
Proof using Ha Hg Hhp.
  intros Hb HQ. unfold mk_plain_bszB. apply wp_bind, wp_m_assert.
  - destruct (blk_wf_pos g b Hg Hb) as (_ & _ & _ & Hn). by rewrite (proj2 (Z.eqb_neq _ _) Hn).
  - apply wp_ret. by rewrite (plain_tag g).
Qed.

Lemma wp_get_bszB_as_is p b A m o Q : p = baddr b -> blk_wf g b -> tagged g m b ->
  Q (btag b) (St A m o) -> wp (get_bszB_as_is p) (St A m o) Q.
Proof using Ha Hg Hhp.
  intros -> Hb [H1 H2] HQ. unfold get_bszB_as_is. apply wp_hp. apply wp_bind, wp_ld. rewrite H1.
  apply wp_bind, wp_plain; [done|]. apply wp_bind, wp_ld. fold (bend b). rewrite H2.
  apply wp_bind, wp_m_assert; [apply Z.eqb_refl|]. by apply wp_ret.
Qed.

Lemma wp_get_bszB p b A m o Q : p = baddr b -> blk_wf g b -> tagged g m b ->
  Q (bsz b) (St A m o) -> wp (get_bszB p) (St A m o) Q.
Proof using Ha Hg Hhp. intros Hp Hb Hi HQ. apply wp_bind. eapply wp_get_bszB_as_is; [done..|]. by apply wp_plain. Qed.

Lemma wp_is_inuse p b A m o Q : p = baddr b -> blk_wf g b -> tagged g m b ->
  Q (bused b) (St A m o) -> wp (is_inuse_block p) (St A m o) Q.
Proof using Ha Hg Hhp.
  intros Hp Hb Hi HQ. apply wp_bind. eapply wp_get_bszB_as_is; [done..|]. apply wp_bind, wp_m_assert.
  - destruct (blk_wf_pos g b Hg Hb) as (_ & _ & _ & Hn). by rewrite (proj2 (Z.eqb_neq _ _) Hn).
  - apply wp_ret. by rewrite (tag_used g).
Qed.

Lemma wp_get_prev p b A m o Q : p = baddr b -> Q (pv g m b) (St A m o) -> wp (get_prev_b p) (St A m o) Q.
Proof using Ha Hg Hhp. intros -> HQ. unfold get_prev_b. apply wp_hp. by apply wp_ld. Qed.

Lemma wp_get_next p b A m o Q : p = baddr b -> blk_wf g b -> tagged g m b ->
  Q (nx m b) (St A m o) -> wp (get_next_b p) (St A m o) Q.
Proof using Ha Hg Hhp.
  intros Hp Hb Hi HQ. apply wp_bind. eapply wp_get_bszB; [done..|]. apply wp_ld.
  unfold nx, bend in HQ. replace (p + bsz b - 8 - 8) with (baddr b + bsz b - 16) by lia. done.
Qed.

(** ** The sizes of an arena *)

Lemma wp_overhead_lo A m o Q : A_geo A -> Q (g_lo g) (St A m o) -> wp (overhead_szB_lo a) (St A m o) Q.
Proof using Ha Hg Hhp.
  intros [Hr _] HQ. unfold overhead_szB_lo. apply wp_hp. apply wp_bind, wp_the_arena; [done|]. apply wp_ret. rewrite Hr.
  fold (g_lo g). pose proof (geo_sizes g Hg). by rewrite u64_small by lia.
Qed.

Lemma wp_overhead_hi A m o Q : A_geo A -> Q (g_hi g) (St A m o) -> wp (overhead_szB_hi a) (St A m o) Q.
Proof using Ha Hg Hhp.
  intros [Hr _] HQ. unfold overhead_szB_hi. apply wp_bind, wp_the_arena; [done|]. apply wp_ret. rewrite Hr.
  fold (g_hi g). pose proof (geo_sizes g Hg). by rewrite u64_small by lia.
Qed.

Lemma wp_overhead A m o Q : A_geo A -> Q (g_ovh g) (St A m o) -> wp (overhead_szB a) (St A m o) Q.
Proof using Ha Hg Hhp.
  intros HA HQ. unfold overhead_szB. apply wp_bind, wp_overhead_lo; [done|]. apply wp_bind, wp_overhead_hi; [done|].
  apply wp_ret. fold (g_ovh g). pose proof (geo_sizes g Hg). by rewrite u64_small by lia.
Qed.

Lemma wp_min_useful A m o Q : A_geo A -> Q (g_ovh g) (St A m o) -> wp (min_useful_bszB a) (St A m o) Q.
Proof using Ha Hg Hhp. apply wp_overhead. Qed.

Lemma wp_pszB_to_bszB n A m o Q : A_geo A -> 0 <= n -> n + g_ovh g < 2 ^ 64 -> Q (n + g_ovh g) (St A m o) ->
  wp (pszB_to_bszB a n) (St A m o) Q.
Proof using Ha Hg Hhp.
  intros HA Hn Hlt HQ. apply wp_bind, wp_overhead; [done|]. apply wp_ret. pose proof (geo_sizes g Hg). by rewrite u64_small by lia.
Qed.

Lemma wp_bszB_to_pszB n A m o Q : A_geo A -> g_ovh g <= n -> Q (n - g_ovh g) (St A m o) ->
  wp (bszB_to_pszB a n) (St A m o) Q.
Proof using Ha Hg Hhp.
  intros HA Hn HQ. apply wp_bind, wp_overhead; [done|]. apply wp_bind, wp_m_assert; [by apply Z.leb_le|]. by apply wp_ret.
Qed.

Lemma wp_get_payload_block p A m o Q : A_geo A -> Q (p - g_lo g) (St A m o) -> wp (get_payload_block a p) (St A m o) Q.
Proof using Ha Hg Hhp. intros HA HQ. apply wp_bind, wp_overhead_lo; [done|]. by apply wp_ret. Qed.

Lemma wp_get_block_payload p A m o Q : A_geo A -> Q (p + g_lo g) (St A m o) -> wp (get_block_payload a p) (St A m o) Q.
Proof using Ha Hg Hhp. intros HA HQ. apply wp_bind, wp_overhead_lo; [done|]. by apply wp_ret. Qed.

Lemma wp_get_pszB p b A m o Q : A_geo A -> p = baddr b -> blk_wf g b -> tagged g m b ->
  Q (bsz b - g_ovh g) (St A m o) -> wp (get_pszB a p) (St A m o) Q.
Proof using Ha Hg Hhp.
  intros HA Hp Hb Hi HQ. apply wp_bind. eapply wp_get_bszB; [done..|]. apply wp_bszB_to_pszB; [done|apply Hb|done].
Qed.

(** ** Writing a block *)

(** The words at both ends *)
Lemma wp_set_bszB p v b A m o Q : p = baddr b -> v = btag b -> blk_wf g b -> bytes_ok m ->
  (forall m', bytes_ok m' -> tagged g m' b -> (forall x, ~ tag_byte g b x -> m' x = m x) -> Q tt (St A m' o)) ->
  wp (set_bszB p v) (St A m o) Q.
Proof using Ha Hg Hhp.
  intros -> -> Hb Hm HQ. destruct (blk_wf_pos g b Hg Hb) as (H1 & _ & H3 & _).
  unfold set_bszB. apply wp_hp. apply wp_bind, wp_sd.
  apply wp_bind. eapply wp_plain; [done..|]. apply wp_sd. fold (bend b).
  apply HQ; [by do 2 apply store_le_ok| |].
  - split; [|by rewrite load_store_same; [|apply store_le_ok|]].
    rewrite load_store_other by (unfold bend; lia). by rewrite load_store_same.
  - unfold tag_byte. intros x Hx. rewrite !store_le_outside by lia. done.
Qed.

(** The redzones from [i] on are painted. *)
Lemma wp_set_redzones b A o Q n : blk_wf g b -> forall i m, 0 <= i -> i + Z.of_nat n <= g_rz g ->
  tagged g m b -> bytes_ok m ->
  (forall m', bytes_ok m' -> tagged g m' b -> (forall x, ~ admin_byte g b x -> m' x = m x) ->
     (forall j, 0 <= j < i -> m' (baddr b + (g_hp g + 8 + j)) = m (baddr b + (g_hp g + 8 + j)) /\
        m' (baddr b + (bsz b - 8 - j - 1)) = m (baddr b + (bsz b - 8 - j - 1))) ->
     (forall j, i <= j < i + Z.of_nat n -> m' (baddr b + (g_hp g + 8 + j)) = rz_byte (baddr b) REDZONE_LO_MASK /\
        m' (baddr b + (bsz b - 8 - j - 1)) = rz_byte (baddr b) REDZONE_HI_MASK) -> Q tt (St A m' o)) ->
  wp (set_redzones n (baddr b) i) (St A m o) Q.
Proof using Ha Hg Hhp.
  intros Hb. assert (g_ovh g <= bsz b) as Ho by apply Hb. unfold g_ovh, g_lo, g_hi in Ho.
  pose proof (geo_sizes g Hg) as Hs. unfold g_lo, g_hi in Hs. assert (0 <= g_hp g) as Hhp0 by (destruct Hg; lia).
  induction n as [|n IH]; intros i m Hi Hn Ht Hm HQ; cbn [set_redzones].
  { apply wp_ret, HQ; try done. lia. }
  apply wp_bind. unfold set_rz_lo_byte. apply wp_hp. apply wp_sdb.
  assert (forall v, 0 <= rz_byte v REDZONE_LO_MASK < 256 /\ 0 <= rz_byte v REDZONE_HI_MASK < 256) as Hby
    by (intros v; split; by apply Z.mod_pos_bound).
  set (m1 := upd m (baddr b + (g_hp g + 8 + i)) _).
  assert (tagged g m1 b) as Ht1. { eapply tagged_ext; [|exact Ht]. unfold tag_byte, bend. intros x Hx. unfold m1, upd. destruct (Z.eqb_spec x (baddr b + (g_hp g + 8 + i))); [lia|done]. }
  assert (bytes_ok m1) as Hm1 by (by apply upd_ok, Hby).
  apply wp_bind. unfold set_rz_hi_byte. apply wp_bind. eapply wp_get_bszB; [done..|]. apply wp_sdb.
  set (m2 := upd m1 (baddr b + (bsz b - 8 - i - 1)) _).
  assert (tagged g m2 b) as Ht2. { eapply tagged_ext; [|exact Ht1]. unfold tag_byte, bend. intros x Hx. unfold m2, upd. destruct (Z.eqb_spec x (baddr b + (bsz b - 8 - i - 1))); [lia|done]. }
  assert (forall x, x <> baddr b + (g_hp g + 8 + i) -> x <> baddr b + (bsz b - 8 - i - 1) -> m2 x = m x) as Hm2.
  { intros x H1 H2. unfold m2, m1, upd. by rewrite (proj2 (Z.eqb_neq _ _) H1), (proj2 (Z.eqb_neq _ _) H2). }
  apply IH; [lia..|done|by apply upd_ok, Hby|].
  intros m' Hm' Ht' Hout Hold Hnew. apply HQ; [done|done| | |].
  - intros x Hx. rewrite Hout by done. unfold admin_byte, bend, g_lo, g_hi in Hx. apply Hm2; lia.
  - intros j Hj. destruct (Hold j ltac:(lia)) as [-> ->]. split; apply Hm2; lia.
  - intros j Hj. destruct (decide (j = i)) as [->|]; [|apply Hnew; lia].
    destruct (Hold i ltac:(lia)) as [-> ->]. unfold m2, m1, upd. rewrite !Z.eqb_refl.
    rewrite (proj2 (Z.eqb_neq (baddr b + (g_hp g + 8 + i)) _)) by lia. done.
Qed.

Lemma wp_paint b A m o Q : A_geo A -> blk_wf g b -> bused b = true -> tagged g m b -> bytes_ok m ->
  (forall m', bytes_ok m' -> blk_in g m' b -> (forall x, ~ admin_byte g b x -> m' x = m x) ->
     (g_client g = true -> m' = m) -> Q tt (St A m' o)) ->
  wp (paint_redzones a (baddr b)) (St A m o) Q.
Proof using Ha Hg Hhp.
  intros [Hr Hc] Hb Hu Ht Hm HQ. apply wp_bind, wp_the_arena; [done|]. rewrite Hr, Hc.
  destruct (g_client g) eqn:Ec.
  - apply wp_ret, HQ; [done| |done|done]. split; [done|congruence].
  - pose proof (geo_sizes g Hg). assert (0 <= g_rz g) by (destruct Hg; lia).
    apply wp_set_redzones; [done|lia|lia|done|done|]. intros m' Hm' Ht' Hout _ Hnew.
    apply HQ; [done| |done|done]. split; [done|]. intros _ _ i Hi. apply Hnew. lia.
Qed.

(** A word within a block *)
Lemma wp_set_prev p v b A m o Q : p = baddr b -> blk_wf g b -> 0 <= v < 2 ^ 64 -> bytes_ok m ->
  (forall m', bytes_ok m' -> pv g m' b = v ->
     (forall x, ~ (baddr b + g_hp g + 8 <= x < baddr b + g_hp g + 16) -> m' x = m x) -> Q tt (St A m' o)) ->
  wp (set_prev_b p v) (St A m o) Q.
Proof using Ha Hg Hhp.
  intros -> Hb Hv Hm HQ. unfold set_prev_b. apply wp_hp. apply wp_sd. apply HQ; [by apply store_le_ok|by apply load_store_same|].
  intros x Hx. apply store_le_outside. lia.
Qed.

Lemma wp_set_next p v b A m o Q : p = baddr b -> blk_wf g b -> tagged g m b -> 0 <= v < 2 ^ 64 -> bytes_ok m ->
  (forall m', bytes_ok m' -> nx m' b = v -> (forall x, ~ (bend b - 16 <= x < bend b - 8) -> m' x = m x) -> Q tt (St A m' o)) ->
  wp (set_next_b p v) (St A m o) Q.
Proof using Ha Hg Hhp.
  intros -> Hb Ht Hv Hm HQ. unfold set_next_b. apply wp_bind. eapply wp_get_bszB; [done..|]. apply wp_sd.
  replace (baddr b + bsz b - 8 - 8) with (bend b - 16) by (unfold bend; lia).
  apply HQ; [by apply store_le_ok|by apply load_store_same|]. intros x Hx. apply store_le_outside. lia.
Qed.

(** A link changed: the tags are as they were. *)
Lemma tagged_link m m' b : blk_wf g b ->
  (forall x, ~ (baddr b + g_hp g + 8 <= x < baddr b + g_hp g + 16 \/ bend b - 16 <= x < bend b - 8) -> m' x = m x) ->
  tagged g m b -> tagged g m' b.
Proof using Ha Hg Hhp.
  intros Hb Hx. destruct (blk_wf_pos g b Hg Hb). apply tagged_ext. unfold tag_byte, bend in *. intros x Hi. apply Hx. lia.
Qed.

(** *** A block in use *)

Lemma wp_mkInuseBlock p n b A m o Q : A_geo A -> p = baddr b -> n = bsz b -> bused b = true -> blk_wf g b -> bytes_ok m ->
  (forall m', bytes_ok m' -> blk_in g m' b -> (forall x, ~ in_blk b x -> m' x = m x) -> Q tt (St A m' o)) ->
  wp (mkInuseBlock a p n) (St A m o) Q.
Proof using Ha Hg Hhp.
  intros HA -> -> Hu Hb Hm HQ. destruct (blk_wf_pos g b Hg Hb) as (H1 & H2 & H3 & H4).
  assert (bsz b = btag b) as Et by (unfold btag; by rewrite Hu). unfold mkInuseBlock.
  apply wp_bind. eapply wp_min_useful; [done..|]. apply wp_bind, wp_m_assert; [apply Z.leb_le, Hb|].
  apply wp_bind. rewrite Et at 1. eapply wp_plain; [done..|].
  apply wp_bind. apply (wp_set_bszB _ _ b); [done..|]. intros m1 Hm1 Ht1 Ho1.
  apply wp_bind. apply (wp_set_prev _ _ b); [done..|]. intros m2 Hm2 _ Ho2.
  assert (tagged g m2 b) as Ht2. { eapply tagged_link; [done| |exact Ht1]. intros x Hx. apply Ho2. lia. }
  apply wp_bind. apply (wp_set_next _ _ b); [done..|]. intros m3 Hm3 _ Ho3.
  apply wp_paint; [done|done|done| |done|].
  { eapply tagged_link; [done| |exact Ht2]. intros x Hx. apply Ho3. lia. }
  intros m' Hm' Hin Ho _. apply HQ; [done|done|]. intros x Hx. unfold in_blk in Hx. pose proof (geo_sizes g Hg) as Hs. unfold g_lo, g_hi, bend in *. assert (g_ovh g <= bsz b) as Hov by apply Hb. unfold g_ovh, g_lo, g_hi in Hov. rewrite Ho by (unfold admin_byte, g_lo, g_hi, bend; destruct Hg; lia).
  rewrite Ho3, Ho2, Ho1; unfold tag_byte, bend; try done; destruct Hg; lia.
Qed.

Lemma wp_shrinkInuseBlock p n b A m o Q : A_geo A -> p = baddr b -> n = bsz b -> bused b = true -> blk_wf g b -> bytes_ok m ->
  (forall m', bytes_ok m' -> blk_in g m' b -> (forall x, ~ admin_byte g b x -> m' x = m x) ->
     Q tt (St A m' o)) ->
  wp (shrinkInuseBlock a p n) (St A m o) Q.
Proof using Ha Hg Hhp.
  intros HA -> -> Hu Hb Hm HQ. destruct (blk_wf_pos g b Hg Hb) as (H1 & H2 & H3 & H4).
  assert (bsz b = btag b) as Et by (unfold btag; by rewrite Hu). unfold shrinkInuseBlock.
  apply wp_bind. eapply wp_min_useful; [done..|]. apply wp_bind, wp_m_assert; [apply Z.leb_le, Hb|].
  apply wp_bind. rewrite Et at 1. eapply wp_plain; [done..|].
  apply wp_bind. apply (wp_set_bszB _ _ b); [done..|]. intros m1 Hm1 Ht1 Ho1.
  apply wp_paint; [done..|]. intros m' Hm' Hin Ho _. apply HQ; [done|done|].
  intros x Hx. rewrite Ho by done. apply Ho1. unfold tag_byte, admin_byte, bend, g_lo, g_hi in *. pose proof (proj1 Hg). pose proof (proj1 (proj2 Hg)). lia.
Qed.
End Ops.
End Blocks.
