(* ===== verification/MallocLists.v ===== *)
(** The free lists of an arena: blocks linked in circles, with their first
    blocks in the arena's array, and the operations that take a block out of
    its list and put one in. *)
From stdpp Require Import base list.
From Stdlib Require Import ZArith Lia.
From S2P Require Import Prelude Mem LibcMem Malloc MallocBlocks.
Open Scope prog_scope.
Open Scope Z_scope.

#[export] Instance blk_eq_dec : EqDecision blk.
Proof. solve_decision. Defined.

(** ** Circles *)

Definition linked g m (b c : blk) : Prop := nx m b = baddr c /\ pv g m c = baddr b.

Fixpoint chain g m (l : list blk) : Prop :=
  match l with
  | [] => True
  | b :: k => match k with [] => True | c :: _ => linked g m b c end /\ chain g m k
  end.

Definition cyc g m (l : list blk) : Prop :=
  match l with
  | [] => True
  | b :: k => chain g m (b :: k ++ [b])
  end.

Definition head_addr (l : list blk) : Z := match l with [] => 0 | b :: _ => baddr b end.

Section Circles.
Context (g : geo).
Implicit Types (m : gmem) (b c x y : blk) (l k : list blk).

Lemma bchain_app m l b k : chain g m (l ++ b :: k) <-> chain g m (l ++ [b]) /\ chain g m (b :: k).
Proof.
  induction l as [|c l IH]; cbn [app].
  - split; [intros H; split; [by split|done]|by intros [_ H]].
  - cbn [chain]. rewrite IH. destruct l; cbn [app chain]; tauto.
Qed.

Lemma chain_two m l b c k : chain g m (l ++ b :: c :: k) <-> chain g m (l ++ [b]) /\ linked g m b c /\ chain g m (c :: k).
Proof. rewrite bchain_app. cbn [chain]. tauto. Qed.

Lemma bchain_ext m m' l y : (forall c, c ∈ l -> nx m' c = nx m c) -> (forall c, c ∈ tail (l ++ [y]) -> pv g m' c = pv g m c) ->
  chain g m (l ++ [y]) -> chain g m' (l ++ [y]).
Proof.
  induction l as [|b l IH]; intros Hn Hp Hc; [done|]. cbn [app tail] in *. destruct Hc as [Hl Hc]. split.
  - destruct (l ++ [y]) as [|c k] eqn:E; [done|]. destruct Hl as [H1 H2]. split; [rewrite Hn; [done|by left]|].
    rewrite Hp; [done|]. by left.
  - apply IH; [|intros c Hi; apply Hp; destruct l; [by apply not_elem_of_nil in Hi|by right]|done]. intros c Hi. apply Hn. by right.
Qed.

Lemma cyc_rotate m l k : cyc g m (l ++ k) -> cyc g m (k ++ l).
Proof.
  destruct l as [|b l]; [by rewrite app_nil_r|]. destruct k as [|c k]; [by rewrite app_nil_r|].
  cbn [cyc app]. intros Hc.
  assert (chain g m ((b :: l) ++ c :: (k ++ [b]))) as [H1 H2]%bchain_app by (cbn [app]; by rewrite <- app_assoc in Hc).
  assert (c :: (k ++ b :: l) ++ [c] = (c :: k) ++ b :: (l ++ [c])) as -> by (cbn [app]; by rewrite <- app_assoc).
  by apply bchain_app.
Qed.

(** The links around a circle *)
Lemma cyc_ends m x k l y : cyc g m (x :: k) -> x :: k = l ++ [y] -> linked g m y x /\ chain g m (x :: k).
Proof.
  cbn [cyc]. intros Hc E. rewrite app_comm_cons, E, <- app_assoc in Hc. cbn [app] in Hc. apply chain_two in Hc.
  rewrite E. tauto.
Qed.

Lemma cyc_close m x k l y : x :: k = l ++ [y] -> chain g m (x :: k) -> linked g m y x -> cyc g m (x :: k).
Proof.
  intros E Hc Hl. cbn [cyc]. rewrite app_comm_cons, E, <- app_assoc. cbn [app]. rewrite E in Hc. apply chain_two.
  split; [done|]. split; [done|]. by split.
Qed.

Lemma nodup_first x k l y (c : blk) : NoDup (x :: k) -> x :: k = l ++ [y] -> (c ∈ l -> c <> y) /\ (c ∈ k -> c <> x).
Proof.
  intros Hn E. split.
  - intros Hc ->. rewrite E in Hn. apply NoDup_app in Hn as (_ & Hn & _). apply (Hn y Hc). by left.
  - intros Hc ->. by apply NoDup_cons in Hn as [? _].
Qed.

Lemma cyc_unlink m m' b x k l y : cyc g m (b :: x :: k) -> x :: k = l ++ [y] -> NoDup (x :: k) ->
  linked g m' y x -> (forall c, c ∈ x :: k -> c <> y -> nx m' c = nx m c) ->
  (forall c, c ∈ x :: k -> c <> x -> pv g m' c = pv g m c) -> cyc g m' (x :: k).
Proof.
  intros Hc E Hn Hl Hnx Hpv. eapply cyc_close; [exact E| |done].
  assert (chain g m (x :: k)) as Hx.
  { cbn [cyc] in Hc. change (b :: (x :: k) ++ [b]) with ([b] ++ (x :: k) ++ [b]) in Hc. rewrite E, <- app_assoc in Hc.
    apply (chain_two m ([b] ++ l)) in Hc as [Hc _]. rewrite <- app_assoc, <- E in Hc. apply Hc. }
  rewrite E in *. apply (bchain_ext m); [| |done].
  - intros c Hi. apply Hnx; [apply elem_of_app; by left|]. rewrite <- E in Hn. by apply (nodup_first x k l y c).
  - intros c Hi. rewrite <- E in *. cbn in Hi. apply Hpv; [by right|]. by apply (nodup_first x k l y c).
Qed.

Lemma cyc_insert m m' b x k l y : cyc g m (x :: k) -> x :: k = l ++ [y] -> NoDup (x :: k) ->
  linked g m' y b -> linked g m' b x -> (forall c, c ∈ x :: k -> c <> y -> nx m' c = nx m c) ->
  (forall c, c ∈ x :: k -> c <> x -> pv g m' c = pv g m c) -> cyc g m' (x :: k ++ [b]).
Proof.
  intros Hc E Hn H1 H2 Hnx Hpv. destruct (cyc_ends m x k l y Hc E) as [_ Hx].
  apply (cyc_close m' x (k ++ [b]) (x :: k) b); [done| |done].
  rewrite app_comm_cons, E, <- app_assoc. cbn [app]. apply chain_two. split; [|by split].
  rewrite E in Hx. apply (bchain_ext m); [| |done].
  - intros c Hi. apply Hnx; [rewrite E; apply elem_of_app; by left|]. by apply (nodup_first x k l y c).
  - intros c Hi. rewrite <- E in *. cbn in Hi. apply Hpv; [by right|]. by apply (nodup_first x k l y c).
Qed.

Lemma cyc_one m b : cyc g m [b] <-> linked g m b b.
Proof. cbn. tauto. Qed.

Lemma cyc_neighbours m l c : cyc g m l -> c ∈ l -> exists d e, d ∈ l /\ e ∈ l /\ nx m c = baddr d /\ pv g m c = baddr e.
Proof.
  intros Hc Hi. apply list_elem_of_split in Hi as (l1 & l2 & ->). apply cyc_rotate in Hc. cbn [app] in Hc.
  assert (forall d, d ∈ c :: l2 ++ l1 -> d ∈ l1 ++ c :: l2) as Hin by (intros d; rewrite !elem_of_cons, !elem_of_app, elem_of_cons; tauto).
  destruct (l2 ++ l1) as [|x k] eqn:E.
  - apply cyc_one in Hc as [H1 H2]. exists c, c. split; [apply Hin; by left|]. split; [apply Hin; by left|done].
  - destruct (exists_last (l := x :: k)) as (l & y & Ey); [done|].
    destruct (cyc_ends m c (x :: k) (c :: l) y Hc) as [[H1 H2] [[H3 H4] _]]; [by rewrite Ey|].
    exists x, y. split; [apply Hin; right; by left|]. split; [|done]. apply Hin. rewrite Ey. right. apply elem_of_app. right. by left.
Qed.

Lemma cyc_ext m m' l : (forall c, c ∈ l -> nx m' c = nx m c /\ pv g m' c = pv g m c) -> cyc g m l -> cyc g m' l.
Proof.
  destruct l as [|b l]; [done|]. cbn [cyc]. intros H. rewrite app_comm_cons. apply bchain_ext.
  - intros c Hc. by apply H.
  - intros c Hc. apply H. cbn in Hc. apply elem_of_app in Hc as [Hc|Hc]; [by right|]. apply list_elem_of_singleton in Hc as ->. by left.
Qed.
End Circles.

(** ** The lists of an arena *)

(** One list is replaced. *)
Lemma join_insert {A} (i : nat) (l : list A) (fl : list (list A)) : (i < length fl)%nat ->
  mjoin (<[i := l]> fl) ≡ₚ l ++ mjoin (<[i := []]> fl).
Proof.
  intros Hi. rewrite !insert_take_drop, !join_app by done. cbn. rewrite Permutation_app_swap_app. done.
Qed.

Lemma join_split {A} (i : nat) (l : list A) (fl : list (list A)) : fl !! i = Some l ->
  mjoin fl ≡ₚ l ++ mjoin (<[i := []]> fl).
Proof.
  intros Hl. rewrite <- join_insert by (by eapply lookup_lt_Some). by rewrite list_insert_id.
Qed.

Lemma elem_of_rest {A} (i : nat) (fl : list (list A)) x : x ∈ mjoin (<[i := []]> fl) -> exists j l, j <> i /\ fl !! j = Some l /\ x ∈ l.
Proof.
  rewrite list_elem_of_join. intros (l & Hx & Hl). apply list_elem_of_lookup in Hl as [j Hj].
  rewrite list_lookup_insert in Hj. case_decide; [simplify_eq; by apply not_elem_of_nil in Hx|]. exists j, l. split; [|done]. intros ->.
  apply lookup_lt_Some in Hj as Hj'. destruct (decide (i < length fl)%nat); [by destruct H|lia].
Qed.

Definition link_byte g (l : list blk) (x : Z) : Prop := exists c, c ∈ l /\
  (baddr c + g_hp g + 8 <= x < baddr c + g_hp g + 16 \/ bend c - 16 <= x < bend c - 8).

(** The array of heads [F] and the lists *)
Record fl_ok g m (F : list Z) (fl : list (list blk)) : Prop := {
  fo_len : length fl = Z.to_nat N_MALLOC_LISTS;
  fo_heads : F = head_addr <$> fl;
  fo_nodup : NoDup (mjoin fl);
  fo_apart b c : b ∈ mjoin fl -> c ∈ mjoin fl -> b <> c -> bdisj b c;
  fo_item i l b : fl !! i = Some l -> b ∈ l ->
    blk_wf g b /\ bused b = false /\ tagged g m b /\ listNo (bsz b - g_ovh g) = Z.of_nat i;
  fo_cyc i l : fl !! i = Some l -> cyc g m l
}.

Section Lists.
Context (g : geo) (Hg : geo_ok g).
Implicit Types (m : gmem) (b c : blk) (l k : list blk) (F : list Z) (fl : list (list blk)).

Lemma link_in b x : blk_wf g b -> link_byte g [b] x -> in_blk b x.
Proof using Hg.
  intros Hb (c & ->%list_elem_of_singleton & Hx). destruct (blk_wf_pos g b Hg Hb) as (H1 & _). unfold in_blk, bend in *. destruct Hg. lia.
Qed.

Lemma link_elem b l x : b ∈ l -> link_byte g [b] x -> link_byte g l x.
Proof using Type. intros Hb (c & ->%list_elem_of_singleton & Hx). by exists b. Qed.

Lemma link_one l x : link_byte g l x -> exists c, c ∈ l /\ link_byte g [c] x.
Proof using Type. intros (c & Hc & Hx). exists c. split; [done|]. exists c. split; [by left|done]. Qed.

Lemma link_perm l k x : l ≡ₚ k -> link_byte g l x -> link_byte g k x.
Proof using Type. intros E (c & Hc & Hx). exists c. by rewrite <- E. Qed.

(** A block whose links may change, or that lies apart, is still tagged. *)
Lemma tagged_unlinked m m' b l : blk_wf g b -> (forall c, c ∈ l -> blk_wf g c /\ (c = b \/ bdisj c b)) ->
  (forall x, ~ link_byte g l x -> m' x = m x) -> tagged g m b -> tagged g m' b.
Proof using Hg.
  intros Hb Hl Hx. destruct (blk_wf_pos g b Hg Hb) as (Hb1 & _). apply tagged_ext. intros x Ht. apply Hx.
  intros (c & Hc & Hi). destruct (Hl c Hc) as [Hwf Hd]. destruct (blk_wf_pos g c Hg Hwf) as (Hc1 & _).
  unfold tag_byte, bdisj, bend in *. destruct Hg. destruct Hd as [->|]; lia.
Qed.

Lemma fo_elem m F fl i l b : fl_ok g m F fl -> fl !! i = Some l -> b ∈ l -> b ∈ mjoin fl.
Proof using Type. intros _ Hl Hb. apply list_elem_of_join. exists l. split; [done|]. by eapply list_elem_of_lookup_2. Qed.

Lemma fo_join m F fl b : fl_ok g m F fl -> b ∈ mjoin fl -> exists i l, fl !! i = Some l /\ b ∈ l.
Proof using Type. intros _ (l & Hb & [i Hi]%list_elem_of_lookup)%list_elem_of_join. eauto. Qed.

Lemma fo_list m F fl i l : fl_ok g m F fl -> fl !! i = Some l -> NoDup l /\ (i < length F)%nat /\ F !! i = Some (head_addr l) /\
  forall b, b ∈ mjoin (<[i := []]> fl) -> b ∈ mjoin fl /\ b ∉ l.
Proof using Type.
  intros [Hlen -> Hn _ _ _] Hl. rewrite (join_split i l) in Hn by done. apply NoDup_app in Hn as (Hn & Hr & _).
  split; [done|]. rewrite length_fmap, list_lookup_fmap, Hl. split; [by eapply lookup_lt_Some|]. split; [done|].
  intros b Hb. split; [rewrite (join_split i l) by done; apply elem_of_app; by right|]. intros Hi. by apply (Hr b).
Qed.

(** Memory outside the blocks of the lists may change, and so may the words
    for the heap profile. *)
Lemma fl_ok_body m m' F fl : (forall b x, b ∈ mjoin fl -> in_body g b x -> m' x = m x) -> fl_ok g m F fl -> fl_ok g m' F fl.
Proof using Hg.
  intros Hx Hok. destruct Hok as [H1 H2 H3 H4 H5 H6]. split; [done..| |].
  - intros i l b Hl Hb. destruct (H5 i l b Hl Hb) as (Hw & Hf & Ht & Hc). split_and!; try done.
    destruct (blk_wf_pos g b Hg Hw) as (Hs & _). eapply tagged_ext; [|exact Ht]. intros x Hi. apply (Hx b).
    + apply list_elem_of_join. exists l. split; [done|]. by eapply list_elem_of_lookup_2.
    + unfold tag_byte, in_body, bend in *. destruct Hg. lia.
  - intros i l Hl. eapply cyc_ext; [|by eapply H6]. intros b Hb. destruct (H5 i l b Hl Hb) as (Hw & _).
    assert (b ∈ mjoin fl) as Hj by (apply list_elem_of_join; exists l; split; [done|by eapply list_elem_of_lookup_2]).
    destruct (blk_wf_pos g b Hg Hw) as (Hs & _). unfold bend in *. destruct Hg.
    split; [apply nx_ext|apply pv_ext]; intros x Hi; apply (Hx b); try done; unfold in_body, bend in *; lia.
Qed.

Lemma fl_ok_ext m m' F fl : (forall b x, b ∈ mjoin fl -> in_blk b x -> m' x = m x) -> fl_ok g m F fl -> fl_ok g m' F fl.
Proof using Hg.
  intros Hx. apply fl_ok_body. intros b x Hb Hi. apply (Hx b); [done|]. unfold in_body, in_blk in *. destruct Hg. lia.
Qed.

(** The list [i] becomes [l'], whose blocks come from it or are new. *)
Lemma fl_ok_update m m' F fl i l l' : fl_ok g m F fl -> fl !! i = Some l -> NoDup l' ->
  (forall b, b ∈ l' -> b ∈ l \/ forall c, c ∈ mjoin fl -> bdisj b c) ->
  (forall b c, b ∈ l' -> c ∈ l' -> b <> c -> bdisj b c) ->
  (forall b, b ∈ l' -> blk_wf g b /\ bused b = false /\ tagged g m' b /\ listNo (bsz b - g_ovh g) = Z.of_nat i) ->
  cyc g m' l' -> (forall b x, b ∈ mjoin (<[i := []]> fl) -> in_blk b x -> m' x = m x) ->
  fl_ok g m' (<[i := head_addr l']> F) (<[i := l']> fl).
Proof using Hg.
  intros Hok Hl Hn' Hnew Hap Hit Hc Hx. destruct (fo_list _ _ _ _ _ Hok Hl) as (_ & Hi & _ & Hr).
  pose proof Hok as [Hlen EF Hn Ha Hitem Hcyc]. assert (i < length fl)%nat as Hi' by (by eapply lookup_lt_Some).
  assert (forall b, b ∈ mjoin (<[i := []]> fl) -> blk_wf g b) as Hwf.
  { intros b Hb. destruct (elem_of_rest _ _ _ Hb) as (j & k & _ & Hk & Hbk). by eapply Hitem. }
  split.
  - by rewrite length_insert.
  - by rewrite EF, list_fmap_insert.
  - rewrite join_insert by done. rewrite (join_split i l) in Hn by done. apply NoDup_app in Hn as (_ & _ & Hn).
    apply NoDup_app. split; [done|]. split; [|done]. intros b Hb Hb'. destruct (Hr b Hb') as [Hin Hnl].
    destruct (Hnew b Hb) as [|Hd]; [done|]. specialize (Hd b Hin). specialize (Hwf b Hb'). unfold bdisj, blk_wf, bend in *.
    pose proof (geo_sizes g Hg). lia.
  - intros b c Hb Hc'. rewrite join_insert, elem_of_app in Hb, Hc' by done.
    destruct Hb as [Hb|Hb], Hc' as [Hc'|Hc'].
    + by apply Hap.
    + intros Hne. destruct (Hr c Hc') as [Hin Hnl]. destruct (Hnew b Hb) as [Hbl|Hd]; [|by apply Hd].
      apply Ha; [by eapply fo_elem|done|done].
    + intros Hne. destruct (Hr b Hb) as [Hin Hnl]. apply bdisj_sym. destruct (Hnew c Hc') as [Hbl|Hd]; [|by apply Hd].
      apply Ha; [by eapply fo_elem|done|by intros ->].
    + apply Ha; [apply Hr|apply Hr]; done.
  - intros j k b. rewrite list_lookup_insert. case_decide as E; [destruct E as [<- _]; intros [= <-]; apply Hit|]. intros Hk Hb.
    assert (i <> j) as Hne by (intros ->; apply E; split; [done|by eapply lookup_lt_Some]).
    destruct (Hitem j k b Hk Hb) as (H1 & H2 & H3 & H4). split_and!; try done. eapply tagged_ext; [|exact H3].
    intros x Hb'. destruct (blk_wf_pos g b Hg H1) as (Hb1 & _). apply (Hx b).
    + apply list_elem_of_join. exists k. split; [done|]. apply list_elem_of_lookup. exists j. by rewrite list_lookup_insert_ne.
    + unfold tag_byte, in_blk, bend in *. destruct Hg. lia.
  - intros j k. rewrite list_lookup_insert. case_decide as E; [destruct E as [<- _]; by intros [= <-]|]. intros Hk.
    assert (i <> j) as Hne by (intros ->; apply E; split; [done|by eapply lookup_lt_Some]).
    eapply cyc_ext; [|by eapply Hcyc]. intros b Hb. destruct (Hitem j k b Hk Hb) as (H1 & _).
    assert (b ∈ mjoin (<[i := []]> fl)) as Hbr.
    { apply list_elem_of_join. exists k. split; [done|]. apply list_elem_of_lookup. exists j. by rewrite list_lookup_insert_ne. }
    destruct (blk_wf_pos g b Hg H1) as (Hb1 & _). unfold bend in *. destruct Hg.
    split; [apply nx_ext|apply pv_ext]; intros x Hxx; apply (Hx b); try done; unfold in_blk, bend in *; lia.
Qed.
(** The blocks of a list lie apart. *)
Lemma fo_distinct m F fl i l : fl_ok g m F fl -> fl !! i = Some l ->
  NoDup l /\ (forall c, c ∈ l -> blk_wf g c /\ tagged g m c) /\ (forall b c, b ∈ l -> c ∈ l -> b <> c -> bdisj b c).
Proof using Hg.
  intros Hok Hl. destruct (fo_list _ _ _ _ _ Hok Hl) as (Hn & _). split; [done|]. split.
  - intros c Hc. destruct (fo_item _ _ _ _ Hok i l c Hl Hc) as (H1 & _ & H3 & _). by split.
  - intros b c Hb Hc. apply (fo_apart _ _ _ _ Hok); by eapply fo_elem.
Qed.

Lemma rest_unlinked m m' F fl i l : fl_ok g m F fl -> fl !! i = Some l -> (forall x, ~ link_byte g l x -> m' x = m x) ->
  forall b x, b ∈ mjoin (<[i := []]> fl) -> in_blk b x -> m' x = m x.
Proof using Hg.
  intros Hok Hl Hx b x Hb Hi. apply Hx. intros (c & Hc & Hlx)%link_one.
  destruct (fo_list _ _ _ _ _ Hok Hl) as (_ & _ & _ & Hr). destruct (Hr b Hb) as [Hbj Hbl].
  destruct (fo_distinct _ _ _ _ _ Hok Hl) as (_ & Hw & _). destruct (Hw c Hc) as [Hwc _].
  apply (link_in c x Hwc) in Hlx. assert (bdisj b c) as Hd.
  { apply (fo_apart _ _ _ _ Hok); [done|by eapply fo_elem|by intros ->]. }
  unfold bdisj, in_blk in *. lia.
Qed.

Lemma unlinked_ok m m' F fl i l b l' : fl_ok g m F fl -> fl !! i = Some l -> l ≡ₚ b :: l' ->
  (forall x, ~ link_byte g l x -> m' x = m x) -> cyc g m' l' -> fl_ok g m' (<[i := head_addr l']> F) (<[i := l']> fl).
Proof using Hg.
  intros Hok Hl Hp Hx Hc. destruct (fo_distinct _ _ _ _ _ Hok Hl) as (Hn & Hw & Hd).
  assert (forall c, c ∈ l' -> c ∈ l) as Hin by (intros c Hc'; rewrite Hp; by right).
  eapply fl_ok_update; [exact Hok|exact Hl| | | | |exact Hc|].
  - rewrite Hp in Hn. by apply NoDup_cons in Hn as [_ Hn].
  - intros c Hc'. left. by apply Hin.
  - intros c d Hc' Hd'. apply Hd; by apply Hin.
  - intros c Hc'. destruct (fo_item _ _ _ _ Hok i l c Hl (Hin c Hc')) as (H1 & H2 & H3 & H4). split_and!; try done.
    eapply tagged_unlinked; [done| |exact Hx|done]. intros d Hd'. split; [by apply Hw|].
    destruct (decide (d = c)) as [->|Hne]; [by left|right]. apply Hd; [done|by apply Hin|done].
  - by eapply rest_unlinked.
Qed.

(** A link of one block is not one of another. *)
Lemma nx_kept m m' b c : blk_wf g b -> blk_wf g c -> bdisj b c -> (forall x, ~ in_blk b x -> m' x = m x) ->
  nx m' c = nx m c /\ pv g m' c = pv g m c.
Proof using Hg.
  intros Hb Hc Hd Hx. destruct (blk_wf_pos g c Hg Hc) as (Hc1 & _). unfold in_blk, bdisj, bend in *. destruct Hg.
  split; [apply nx_ext|apply pv_ext]; intros x Hi; apply Hx; unfold bend in *; lia.
Qed.

(** When only the links between [y] and [x] change, the others of the circle
    are as they were. *)
Lemma links_kept m m1 b x k k1 y : x :: k = k1 ++ [y] ->
  (forall c, c ∈ x :: k -> blk_wf g c /\ bdisj b c) -> (forall c d, c ∈ x :: k -> d ∈ x :: k -> c <> d -> bdisj c d) ->
  (forall z, ~ in_blk b z -> ~ (bend y - 16 <= z < bend y - 8) -> ~ (baddr x + g_hp g + 8 <= z < baddr x + g_hp g + 16) -> m1 z = m z) ->
  (forall c, c ∈ x :: k -> c <> y -> nx m1 c = nx m c) /\ (forall c, c ∈ x :: k -> c <> x -> pv g m1 c = pv g m c).
Proof using Hg.
  intros Ey Hw Hd Hx. assert (x ∈ x :: k) as Hxk by by left.
  assert (y ∈ x :: k) as Hyk by (rewrite Ey; apply elem_of_app; right; by left).
  assert (forall c, c ∈ x :: k -> 32 + g_hp g <= bsz c /\ 0 <= g_hp g /\ bdisj b c) as Hs.
  { intros c Hc'. split; [by apply (blk_wf_pos g c Hg), Hw|]. split; [destruct Hg; lia|by apply Hw]. }
  pose proof (Hs x Hxk). pose proof (Hs y Hyk). split; intros c Hc' Hne; specialize (Hs c Hc'); specialize (Hd c) as Hdc.
  - apply nx_ext. intros z Hz. pose proof (Hdc y Hc' Hyk Hne). apply Hx; [unfold in_blk, bdisj, bend in *; lia..|].
    destruct (decide (c = x)) as [->|Hcx]; [unfold bend in *; lia|]. pose proof (Hdc x Hc' Hxk Hcx). unfold bdisj, bend in *. lia.
  - apply pv_ext. intros z Hz. pose proof (Hdc x Hc' Hxk Hne). apply Hx; [unfold in_blk, bdisj, bend in *; lia| |unfold bdisj, bend in *; lia].
    destruct (decide (c = y)) as [->|Hcy]; [unfold bend in *; lia|]. pose proof (Hdc y Hc' Hyk Hcy). unfold bdisj, bend in *. lia.
Qed.

Lemma addr_distinct b c : blk_wf g b -> blk_wf g c -> bdisj b c -> baddr b <> baddr c.
Proof using Hg.
  intros Hb Hc Hd. destruct (blk_wf_pos g b Hg Hb) as (Hb1 & _). destruct (blk_wf_pos g c Hg Hc) as (Hc1 & _).
  unfold bdisj, bend in *. destruct Hg. lia.
Qed.

Lemma addr_range b : blk_wf g b -> 0 <= baddr b < 2 ^ 64.
Proof using Hg. intros Hb. destruct (blk_wf_pos g b Hg Hb) as (Hb1 & _). unfold blk_wf, bend in *. destruct Hg. lia. Qed.

End Lists.

(** ** Operations *)

Section Ops.
Context {OS : Type} `{AddressSpace OS} (a : nat) (s : mst (OS := OS)) (g : geo).
Context (Ha : (a < length (vg_arena s))%nat) (Hg : geo_ok g) (Hhp : hp_overhead_szB s = g_hp g).
Abbreviation St A m o := (at_arena a A m o s).
Implicit Types (m : gmem) (b c : blk) (l k : list blk) (F : list Z) (fl : list (list blk)).

Lemma wp_get_freelist lno v A m o Q : freelist A !! Z.to_nat lno = Some v -> Q v (St A m o) ->
  wp (get_freelist a lno) (St A m o) Q.
Proof using Ha. intros E HQ. unfold get_freelist. apply wp_bind, wp_the_arena; [done|]. rewrite E. by apply wp_ret. Qed.

Lemma wp_set_freelist_at lno v A m o Q : Q tt (St (set_freelist (<[Z.to_nat lno := v]> (freelist A)) A) m o) ->
  wp (set_freelist_at a lno v) (St A m o) Q.
Proof using Ha. intros HQ. unfold set_freelist_at. by apply wp_on_arena. Qed.

(** A walk in both directions stays in the list. *)
Lemma wp_swizzle_loop n l A m o Q : cyc g m l -> (forall c, c ∈ l -> blk_wf g c /\ tagged g m c) ->
  forall b c d, b ∈ l -> c ∈ l -> d ∈ l -> (forall e, e ∈ l -> Q (baddr e) (St A m o)) ->
  wp (swizzle_loop n (baddr b) (baddr c) (baddr d)) (St A m o) Q.
Proof using Ha Hg Hhp.
  intros Hc Ht. induction n as [|n IH]; intros b c d Hb Hcl Hd HQ; cbn [swizzle_loop]; [by apply wp_ret, HQ|].
  destruct (Ht b Hb) as [Hwf Htb]. apply wp_bind. eapply (wp_get_next a s g); [done..|].
  apply wp_bind. eapply (wp_get_prev a s g); [done..|].
  destruct (cyc_neighbours g m l b Hc Hb) as (b' & _ & Hb' & _ & -> & _).
  destruct (cyc_neighbours g m l c Hc Hcl) as (_ & c' & _ & Hc' & _ & ->).
  destruct (baddr b' <? baddr d); [destruct (baddr c' <? baddr b')|destruct (baddr c' <? baddr d)]; by apply IH.
Qed.

(** The list may start at another of its blocks afterwards. *)
Definition rotation (l l' : list blk) : Prop := exists l1 l2, l = l1 ++ l2 /\ l' = l2 ++ l1.

Lemma rotation_perm l l' : rotation l l' -> l' ≡ₚ l.
Proof using Type. intros (l1 & l2 & -> & ->). apply Permutation_app_comm. Qed.

Lemma rotation_to l c : c ∈ l -> exists k, rotation l (c :: k).
Proof using Type. intros (l1 & l2 & ->)%list_elem_of_split. exists (l2 ++ l1). exists l1, (c :: l2). by split. Qed.

Lemma rotation_cyc m l l' : rotation l l' -> cyc g m l -> cyc g m l'.
Proof using Type. intros (l1 & l2 & -> & ->). apply cyc_rotate. Qed.

Lemma wp_swizzle lno l A m o Q : freelist A !! Z.to_nat lno = Some (head_addr l) -> cyc g m l ->
  (forall c, c ∈ l -> blk_wf g c /\ tagged g m c) ->
  (forall l', rotation l l' -> Q tt (St (set_freelist (<[Z.to_nat lno := head_addr l']> (freelist A)) A) m o)) ->
  wp (swizzle a lno) (St A m o) Q.
Proof using Ha Hg Hhp.
  intros HF Hc Ht HQ. assert (Q tt (St A m o)) as Hid.
  { specialize (HQ l). rewrite list_insert_id in HQ by done. destruct A. apply HQ. exists [], l. by rewrite app_nil_r. }
  unfold swizzle. apply wp_bind. eapply wp_get_freelist; [done|].
  destruct l as [|b l]; [by apply wp_ret|]. cbn [head_addr]. assert (b ∈ b :: l) as Hb by by left.
  destruct (Ht b Hb) as [[Hpos _] _]. rewrite (proj2 (Z.eqb_neq _ _)) by lia.
  apply wp_bind. eapply (wp_swizzle_loop 5 (b :: l)); [done..|]. intros e He.
  destruct (baddr e <? baddr b); [|by apply wp_ret]. apply wp_set_freelist_at.
  destruct (rotation_to _ _ He) as [k Hk]. apply (HQ _ Hk).
Qed.

(** *** Unlinking *)

(** The links of the first block are cleared. *)
Lemma wp_clear_links b A m o Q : blk_wf g b -> tagged g m b -> bytes_ok m ->
  (forall m', bytes_ok m' -> (forall x, ~ link_byte g [b] x -> m' x = m x) -> Q tt (St A m' o)) ->
  wp (set_prev_b (baddr b) 0 ;;; set_next_b (baddr b) 0) (St A m o) Q.
Proof using Ha Hg Hhp.
  intros Hb Ht Hm HQ. apply wp_bind. apply (wp_set_prev a s g Ha Hg Hhp _ _ b); [done..|]. intros m1 Hm1 _ Hx1.
  assert (tagged g m1 b) as Ht1.
  { eapply (tagged_link a s g Ha Hg Hhp); [done..| |exact Ht]. intros x Hx. apply Hx1. lia. }
  apply (wp_set_next a s g Ha Hg Hhp _ _ b); [done..|]. intros m2 Hm2 _ Hx2. apply HQ; [done|].
  intros x Hx. rewrite Hx2, Hx1; [done| |]; intros Hi; apply Hx; exists b; (split; [by left|lia]).
Qed.

(** Two neighbours are linked to each other. *)
Lemma wp_join_links {B} x y (K : M (mst (OS := OS)) B) A m o Q : blk_wf g x -> blk_wf g y -> (x = y \/ bdisj x y) -> tagged g m y -> bytes_ok m ->
  (forall m', bytes_ok m' -> linked g m' y x -> 
     (forall z, ~ (bend y - 16 <= z < bend y - 8) -> ~ (baddr x + g_hp g + 8 <= z < baddr x + g_hp g + 16) -> m' z = m z) ->
     wp K (St A m' o) Q) ->
  wp (set_next_b (baddr y) (baddr x) ;;; set_prev_b (baddr x) (baddr y) ;;; K) (St A m o) Q.
Proof using Ha Hg Hhp.
  intros Hx Hy Hd Ht Hm HQ. apply wp_bind. apply (wp_set_next a s g Ha Hg Hhp _ _ y); [done..|by apply (addr_range g)|done|].
  intros m1 Hm1 Hn1 Hx1. apply wp_bind, (wp_set_prev a s g Ha Hg Hhp _ _ x); [done|done|by apply (addr_range g)|done|].
  intros m2 Hm2 Hn2 Hx2. apply HQ; [done| |].
  - split; [|done]. rewrite <- Hn1. apply nx_ext. intros z Hz. apply Hx2.
    destruct (blk_wf_pos g x Hg Hx) as (H1 & _). destruct (blk_wf_pos g y Hg Hy) as (H2 & _). unfold bdisj, bend in *.
    destruct Hg. destruct Hd as [->|]; lia.
  - intros z H1 H2. by rewrite Hx2, Hx1.
Qed.

(** The block [b] leaves its list. *)
Lemma wp_unlinkBlock p lno b l fl A m o Q : p = baddr b -> fl_ok g m (freelist A) fl -> 0 <= lno < N_MALLOC_LISTS ->
  fl !! Z.to_nat lno = Some l -> b ∈ l -> bytes_ok m ->
  (forall m' l', l ≡ₚ b :: l' -> bytes_ok m' ->
     fl_ok g m' (<[Z.to_nat lno := head_addr l']> (freelist A)) (<[Z.to_nat lno := l']> fl) ->
     (forall x, ~ link_byte g l x -> m' x = m x) ->
     Q tt (St (set_freelist (<[Z.to_nat lno := head_addr l']> (freelist A)) A) m' o)) ->
  wp (unlinkBlock a p lno) (St A m o) Q.
Proof using Ha Hg Hhp.
  intros -> Hok Hlno Hl Hb Hm HQ. destruct (fo_distinct g Hg _ _ _ _ _ Hok Hl) as (Hn & Hw & Hd).
  destruct (rotation_to _ _ Hb) as [k Hk]. pose proof (rotation_perm _ _ Hk) as Hp.
  pose proof (rotation_cyc _ _ _ Hk (fo_cyc _ _ _ _ Hok _ _ Hl)) as Hc.
  assert (forall c, c ∈ b :: k -> c ∈ l) as Hin by (intros c; by rewrite Hp).
  rewrite <- Hp in Hn. apply NoDup_cons in Hn as [Hbk Hnk]. destruct (Hw b Hb) as [Hwb Htb].
  assert (Z.to_nat lno < length (freelist A))%nat as HlF by (by eapply (fo_list g)).
  assert (forall m1 m', (forall x, ~ link_byte g l x -> m1 x = m x) -> (forall x, ~ link_byte g [b] x -> m' x = m1 x) ->
    forall x, ~ link_byte g l x -> m' x = m x) as Hfoot.
  { intros m1 m' H1 H2 x Hx. rewrite H2; [by apply H1|]. intros Hi. apply Hx. by eapply link_elem. }
  unfold unlinkBlock. apply wp_bind, wp_m_assert; [apply Z.ltb_lt, Hlno|].
  apply wp_bind. eapply (wp_get_prev a s g); [done..|].
  destruct k as [|x k].
  - apply cyc_one in Hc as [H1 H2]. rewrite H2, Z.eqb_refl. apply wp_bind, wp_bind. eapply (wp_get_next a s g); [done..|].
    rewrite H1. apply wp_bind, wp_m_assert; [apply Z.eqb_refl|]. apply wp_set_freelist_at.
    eapply wp_clear_links; [done..|]. intros m' Hm' Hx. assert (forall x, ~ link_byte g l x -> m' x = m x) as Hx' by (by apply (Hfoot m)).
    apply (HQ m' []); [done|done| |done]. by eapply unlinked_ok.
  - destruct (exists_last (l := x :: k)) as (k1 & y & Ey); [done|].
    destruct (cyc_ends g m b (x :: k) (b :: k1) y Hc) as [[H3 H2] [[H1 H4] _]]; [by rewrite Ey|].
    assert (x ∈ x :: k) as Hxk by by left. assert (y ∈ x :: k) as Hyk by (rewrite Ey; apply elem_of_app; right; by left).
    destruct (Hw x (Hin x ltac:(by right))) as [Hwx Htx]. destruct (Hw y (Hin y ltac:(by right))) as [Hwy Hty].
    assert (forall c, c ∈ x :: k -> bdisj b c) as Hdb by (intros c Hc'; apply Hd; [done|apply Hin; by right|by intros ->]).
    assert (baddr y <> baddr b) as Hne by (apply (addr_distinct g Hg); [done|done|by apply bdisj_sym, Hdb]).
    rewrite H2. rewrite (proj2 (Z.eqb_neq _ _) Hne). apply wp_bind.
    apply wp_bind. eapply (wp_get_prev a s g); [done..|]. rewrite H2.
    apply wp_bind. eapply (wp_get_next a s g); [done..|]. rewrite H1.
    apply wp_bind, wp_set_freelist_at.
    assert (forall c d, c ∈ x :: k -> d ∈ x :: k -> c <> d -> bdisj c d) as Hdk by (intros c d Hc' Hd'; apply Hd; apply Hin; by right).
    assert (x = y \/ bdisj x y) as Hxy by (destruct (decide (x = y)); [by left|right; by apply Hdk]).
    apply wp_join_links; [done..|]. intros m1 Hm1 Hlk Hx1.
    assert (forall z, ~ link_byte g l z -> m1 z = m z) as Hf1.
    { intros z Hz. apply Hx1; intros Hi; apply Hz; [exists y|exists x]; (split; [apply Hin; by right|lia]). }
    assert (cyc g m1 (x :: k)) as Hc1.
    { destruct (links_kept g Hg m m1 b x k k1 y) as [K1 K2]; [done| |done|intros z _; apply Hx1|by eapply (cyc_unlink g m m1 b)].
      intros c Hc'. split; [by apply Hw, Hin; right|by apply Hdb]. }
    assert (forall c, c ∈ l -> tagged g m1 c) as Ht1.
    { intros c Hc'. eapply (tagged_unlinked g Hg m m1 c l); [by apply Hw| |done|by apply Hw]. intros d Hd'. split; [by apply Hw|].
      destruct (decide (d = c)) as [->|]; [by left|right; by apply Hd]. }
    assert (cyc g m1 (y :: k1)) as Hcy. { apply (rotation_cyc m1 (k1 ++ [y])); [by exists k1, [y]|]. by rewrite <- Ey. }
    eapply (wp_swizzle lno (y :: k1)); [|exact Hcy| |].
    { cbn [set_freelist freelist]. by rewrite list_lookup_insert_eq. }
    { intros c Hc'. assert (c ∈ x :: k) as Hck by (rewrite Ey, elem_of_app, list_elem_of_singleton; apply elem_of_cons in Hc'; tauto).
      split; [|apply Ht1]; [apply Hw|]; apply Hin; by right. }
    intros l' Hrot. eapply wp_clear_links; [done|by apply Ht1|done|]. intros m' Hm' Hx'.
    assert (forall z, ~ link_byte g l z -> m' z = m z) as Hf' by (by apply (Hfoot m1)).
    assert (x :: k ≡ₚ l') as Hpl. { rewrite (rotation_perm _ _ Hrot), Ey. symmetry. apply Permutation_cons_append. }
    assert (l ≡ₚ b :: l') as Hpl' by (by rewrite <- Hp, Hpl).
    cbn [set_freelist freelist]. rewrite list_insert_insert_eq.
    apply (HQ m' l'); [done|done| |done]. eapply unlinked_ok; [done..|].
    eapply cyc_ext; [|by eapply rotation_cyc]. intros c Hc'. assert (c ∈ x :: k) as Hck by (by rewrite Hpl).
    apply (nx_kept g Hg m1 m' b c Hwb); [by apply Hw, Hin; right|by apply Hdb|].
    intros z Hz. apply Hx'. intros Hi. by apply Hz, (link_in g Hg).
Qed.

(** *** A new free block *)

Lemma wp_pszB_to_listNo n A m o Q : n mod 16 = 0 -> Q (listNo n) (St A m o) -> wp (pszB_to_listNo n) (St A m o) Q.
Proof using Type.
  intros Hn HQ. apply wp_bind, wp_m_assert; [|by apply wp_ret]. unfold VG_MIN_MALLOC_SZB. by rewrite Hn.
Qed.

Lemma wp_class n A m o Q : A_geo g A -> g_ovh g <= n -> n mod 16 = 0 -> Q (listNo (n - g_ovh g)) (St A m o) ->
  wp (x <- bszB_to_pszB a n ;; pszB_to_listNo x) (St A m o) Q.
Proof using Ha Hg Hhp.
  intros HA Hn Hm HQ. apply wp_bind. eapply (wp_bszB_to_pszB a s g); [done..|].
  apply wp_pszB_to_listNo; [|done]. by apply payload_mod.
Qed.

(** The links of the new block, and those of its neighbours *)
Lemma wp_link_between b x y A m o Q : blk_wf g b -> blk_wf g x -> blk_wf g y -> bdisj b x -> bdisj b y -> (x = y \/ bdisj x y) ->
  tagged g m b -> tagged g m y -> bytes_ok m ->
  (forall m', bytes_ok m' -> linked g m' y b -> linked g m' b x -> tagged g m' b ->
     (forall z, ~ in_blk b z -> ~ (bend y - 16 <= z < bend y - 8) -> ~ (baddr x + g_hp g + 8 <= z < baddr x + g_hp g + 16) ->
        m' z = m z) -> Q tt (St A m' o)) ->
  wp (set_next_b (baddr y) (baddr b) ;;; set_prev_b (baddr x) (baddr b) ;;;
      set_next_b (baddr b) (baddr x) ;;; set_prev_b (baddr b) (baddr y)) (St A m o) Q.
Proof using Ha Hg Hhp.
  intros Hb Hx Hy Dx Dy Dxy Htb Hty Hm HQ. destruct (blk_wf_pos g b Hg Hb) as (Sb & _).
  destruct (blk_wf_pos g x Hg Hx) as (Sx & _). destruct (blk_wf_pos g y Hg Hy) as (Sy & _).
  assert (0 <= g_hp g) as Hh by (destruct Hg; lia).
  apply wp_bind. apply (wp_set_next a s g Ha Hg Hhp _ _ y); [done..|by apply (addr_range g)|done|]. intros m1 Hm1 N1 X1.
  apply wp_bind. apply (wp_set_prev a s g Ha Hg Hhp _ _ x); [done..|by apply (addr_range g)|done|]. intros m2 Hm2 N2 X2.
  assert (tagged g m2 b) as Ht2.
  { eapply tagged_ext; [|exact Htb]. unfold tag_byte, bdisj, bend in *. intros z Hz. rewrite X2, X1 by lia. done. }
  apply wp_bind. apply (wp_set_next a s g Ha Hg Hhp _ _ b); [done..|by apply (addr_range g)|done|]. intros m3 Hm3 N3 X3.
  apply (wp_set_prev a s g Ha Hg Hhp _ _ b); [done..|by apply (addr_range g)|done|]. intros m4 Hm4 N4 X4.
  apply HQ; [done| | | |].
  - split; [|done]. rewrite <- N1. apply nx_ext. intros z Hz. unfold bdisj, bend in *. rewrite X4, X3, X2; [done|..]; try lia.
    destruct Dxy as [->|]; lia.
  - split.
    + rewrite <- N3. apply nx_ext. intros z Hz. unfold bend in *. apply X4. lia.
    + rewrite <- N2. apply pv_ext. intros z Hz. unfold bdisj, bend in *. rewrite X4, X3 by lia. done.
  - eapply tagged_ext; [|exact Ht2]. unfold tag_byte, bend in *. intros z Hz. rewrite X4, X3 by lia. done.
  - unfold in_blk, bend in *. intros z H1 H2 H3. by rewrite X4, X3, X2, X1 by lia.
Qed.

(** The block [b] is put at the end of its list. *)
Lemma linked_ok m m' F fl i l b : fl_ok g m F fl -> fl !! i = Some l -> blk_wf g b -> bused b = false ->
  tagged g m' b -> listNo (bsz b - g_ovh g) = Z.of_nat i -> (forall c, c ∈ mjoin fl -> bdisj b c) ->
  (forall x, ~ in_blk b x -> ~ link_byte g l x -> m' x = m x) -> cyc g m' (l ++ [b]) ->
  fl_ok g m' (<[i := head_addr (l ++ [b])]> F) (<[i := l ++ [b]]> fl).
Proof using All.
  intros Hok Hl Hb Hf Ht Hi Hd Hx Hc. destruct (fo_distinct g Hg _ _ _ _ _ Hok Hl) as (Hn & Hw & Hdl).
  destruct (blk_wf_pos g b Hg Hb) as (Sb & _). assert (0 <= g_hp g) as Hh by (destruct Hg; lia).
  assert (forall c, c ∈ l -> bdisj b c) as Hdb by (intros c Hc'; by apply Hd; eapply fo_elem).
  eapply fl_ok_update; [done|exact Hok|exact Hl| | | | |exact Hc|].
  - apply NoDup_app. split; [done|]. split; [|apply NoDup_singleton]. intros c Hc' ->%list_elem_of_singleton.
    specialize (Hdb b Hc'). unfold bdisj, bend in *. lia.
  - intros c [Hc'| ->%list_elem_of_singleton]%elem_of_app; [by left|by right].
  - intros c d [Hc'| ->%list_elem_of_singleton]%elem_of_app [Hd'| ->%list_elem_of_singleton]%elem_of_app Hne; [by apply Hdl| |by apply Hdb|done].
    by apply bdisj_sym, Hdb.
  - intros c [Hc'| ->%list_elem_of_singleton]%elem_of_app; [|done].
    destruct (fo_item _ _ _ _ Hok i l c Hl Hc') as (H1 & H2 & H3 & H4). split_and!; try done.
    destruct (blk_wf_pos g c Hg H1) as (Sc & _). specialize (Hdb c Hc'). eapply tagged_ext; [|exact H3].
    intros x Hx'. apply Hx; [unfold tag_byte, in_blk, bdisj, bend in *; lia|]. intros (d & Hd' & Hi').
    destruct (Hw d Hd') as [Hwd _]. destruct (blk_wf_pos g d Hg Hwd) as (Sd & _).
    destruct (decide (d = c)) as [->|Hne]; [unfold tag_byte, bend in *; lia|]. specialize (Hdl d c Hd' Hc' Hne).
    unfold tag_byte, bdisj, bend in *. lia.
  - intros c x Hc' Hic. destruct (fo_list g _ _ _ _ _ Hok Hl) as (_ & _ & _ & Hr). destruct (Hr c Hc') as [Hcj Hcl].
    apply Hx; [specialize (Hd c Hcj); unfold in_blk, bdisj in *; lia|]. intros (d & Hd' & Hlx)%link_one.
    destruct (Hw d Hd') as [Hwd _]. apply (link_in g Hg d x Hwd) in Hlx. assert (bdisj c d) as Hcd.
    { apply (fo_apart _ _ _ _ Hok); [done|by eapply fo_elem|by intros ->]. }
    unfold bdisj, in_blk in *. lia.
Qed.

Lemma wp_mkFreeBlock p n lno b l fl A m o Q : A_geo g A -> p = baddr b -> n = bsz b -> bused b = false -> blk_wf g b ->
  lno = listNo (bsz b - g_ovh g) -> fl_ok g m (freelist A) fl -> 0 <= lno -> fl !! Z.to_nat lno = Some l ->
  (forall c, c ∈ mjoin fl -> bdisj b c) -> bytes_ok m ->
  (forall m', bytes_ok m' ->
     fl_ok g m' (<[Z.to_nat lno := head_addr (l ++ [b])]> (freelist A)) (<[Z.to_nat lno := l ++ [b]]> fl) ->
     (forall x, ~ in_blk b x -> ~ link_byte g l x -> m' x = m x) ->
     Q tt (St (set_freelist (<[Z.to_nat lno := head_addr (l ++ [b])]> (freelist A)) A) m' o)) ->
  wp (mkFreeBlock a p n lno) (St A m o) Q.
Proof using All.
  intros HA -> -> Hf Hb El Hok Hlno Hl Hd Hm HQ.
  destruct (blk_wf_pos g b Hg Hb) as (Sb & H2 & H3 & H4). assert (0 <= g_hp g) as Hh by (destruct Hg; lia).
  destruct (fo_distinct g Hg _ _ _ _ _ Hok Hl) as (Hn & Hw & Hdl).
  destruct (fo_list g _ _ _ _ _ Hok Hl) as (_ & _ & HF & _). pose proof (fo_cyc _ _ _ _ Hok _ _ Hl) as Hc.
  assert (forall c, c ∈ l -> bdisj b c) as Hdb by (intros c Hc'; by apply Hd; eapply fo_elem).
  assert (listNo (bsz b - g_ovh g) = Z.of_nat (Z.to_nat lno)) as El' by (by rewrite Z2Nat.id, <- El).
  unfold mkFreeBlock. apply wp_bind. eapply (wp_bszB_to_pszB a s g); [done..|apply Hb|].
  apply wp_bind, wp_pszB_to_listNo; [by apply payload_mod, Hb|].
  apply wp_bind, wp_m_assert; [by apply Z.eqb_eq|]. apply wp_bind. unfold mk_free_bszB. apply wp_bind, wp_m_assert.
  { rewrite (proj2 (Z.eqb_neq _ _)); [done|lia]. }
  apply wp_ret. rewrite lor_one by done. apply wp_bind.
  apply (wp_set_bszB a s g Ha Hg Hhp _ _ b); [done|unfold btag; by rewrite Hf|done..|]. intros m1 Hm1 Ht1 Hx1.
  assert (forall x, ~ in_blk b x -> m1 x = m x) as Hx1'.
  { intros x Hx. apply Hx1. unfold in_blk, tag_byte, bend in *. lia. }
  apply wp_bind. eapply wp_get_freelist; [done|].
  destruct l as [|x k].
  - apply wp_bind. apply (wp_set_prev a s g Ha Hg Hhp _ _ b); [done..|by apply (addr_range g)|done|]. intros m2 Hm2 N2 X2.
    assert (tagged g m2 b) as Ht2. { eapply tagged_ext; [|exact Ht1]. unfold tag_byte, bend. intros z Hz. apply X2. lia. }
    apply wp_bind. apply (wp_set_next a s g Ha Hg Hhp _ _ b); [done..|by apply (addr_range g)|done|]. intros m3 Hm3 N3 X3.
    assert (forall z, ~ in_blk b z -> ~ link_byte g [] z -> m3 z = m z) as Hx3.
    { unfold in_blk, bend in *. intros z Hz _. rewrite X3, X2 by lia. by apply Hx1'. }
    apply wp_set_freelist_at. apply (HQ m3); [done| |done]. eapply linked_ok; [exact Hok|exact Hl|done|done| |done|done|done|].
    + eapply tagged_ext; [|exact Ht2]. unfold tag_byte, bend in *. intros z Hz. apply X3. lia.
    + apply cyc_one. split; [done|]. rewrite <- N2. apply pv_ext. unfold bend in *. intros z Hz. apply X3. lia.
  - cbn [head_addr]. assert (x ∈ x :: k) as Hxk by by left. destruct (Hw x Hxk) as [Hwx Htx].
    rewrite (proj2 (Z.eqb_neq _ _)) by (pose proof (proj1 Hwx); lia).
    destruct (exists_last (l := x :: k)) as (k1 & y & Ey); [done|].
    assert (y ∈ x :: k) as Hyk by (rewrite Ey; apply elem_of_app; right; by left). destruct (Hw y Hyk) as [Hwy Hty].
    assert (forall c, c ∈ x :: k -> nx m1 c = nx m c /\ pv g m1 c = pv g m c) as Hk1.
    { intros c Hc'. apply (nx_kept g Hg m m1 b c Hb); [by apply Hw|by apply Hdb|done]. }
    assert (cyc g m1 (x :: k)) as Hc1 by (by eapply cyc_ext).
    destruct (cyc_ends g m1 x k k1 y Hc1 Ey) as [[_ Hpx] _].
    apply wp_bind. eapply (wp_get_prev a s g); [done..|]. rewrite Hpx.
    assert (x = y \/ bdisj x y) as Hxy by (destruct (decide (x = y)); [by left|right; by apply Hdl]).
    eapply wp_link_between; [done|exact Hwx|exact Hwy|by apply Hdb|by apply Hdb|done|done| |done|].
    { eapply tagged_ext; [|exact Hty]. intros z Hz. apply Hx1'. specialize (Hdb y Hyk). destruct (blk_wf_pos g y Hg Hwy) as (Sy & _).
      unfold tag_byte, in_blk, bdisj, bend in *. lia. }
    intros m2 Hm2 L1 L2 Ht2 X2. specialize (HQ m2 Hm2). 
    assert (A = set_freelist (<[Z.to_nat lno := baddr x]> (freelist A)) A) as EA by (rewrite list_insert_id by done; by destruct A).
    rewrite EA. apply HQ.
    + eapply (linked_ok m m2 _ fl _ (x :: k) b); [done|exact Hl|done..| |].
      * intros z Hz Hlz. rewrite X2; [by apply Hx1'|done| |]; intros Hi; apply Hlz; [exists y|exists x]; (split; [done|lia]).
      * destruct (links_kept g Hg m1 m2 b x k k1 y) as [K1 K2]; [done|intros c Hc'; split; [by apply Hw|by apply Hdb]|done|done|].
        by eapply (cyc_insert g m1 m2 b).
    + intros z Hz Hlz. rewrite X2; [by apply Hx1'|done| |]; intros Hi; apply Hlz; [exists y|exists x]; (split; [done|lia]).
Qed.

(** A listed block is taken out, *)
Lemma wp_take_listed p lno A m o fl c Q : p = baddr c -> lno = listNo (bsz c - g_ovh g) -> fl_ok g m (freelist A) fl ->
  c ∈ mjoin fl -> bytes_ok m ->
  (forall m' F fl', bytes_ok m' -> fl_ok g m' F fl' -> mjoin fl ≡ₚ c :: mjoin fl' ->
     (forall x, ~ link_byte g (mjoin fl) x -> m' x = m x) -> Q tt (St (set_freelist F A) m' o)) ->
  wp (unlinkBlock a p lno) (St A m o) Q.
Proof using Ha Hg Hhp.
  intros -> -> Hls Hc Hm HQ. destruct (fo_join g _ _ _ _ Hls Hc) as (i & l & Hi & Hl).
  destruct (fo_item _ _ _ _ Hls i l c Hi Hl) as (_ & _ & _ & ->). pose proof (lookup_lt_Some _ _ _ Hi) as Hil.
  rewrite (fo_len _ _ _ _ Hls) in Hil. eapply wp_unlinkBlock; [done|exact Hls| |by rewrite Nat2Z.id|done|done|]; [unfold N_MALLOC_LISTS in *; lia|].
  rewrite Nat2Z.id. intros m1 l' Hp Hm1 Hls1 Hx. eapply HQ; [done|exact Hls1| |].
  - rewrite (join_split i l) by done. rewrite (join_insert i l') by (by eapply lookup_lt_Some). by rewrite Hp.
  - intros x Hlx. apply Hx. intros (d & Hd & Hdl)%link_one. apply Hlx. eapply link_elem; [|done]. by eapply fo_elem.
Qed.
End Ops.
