(* ===== verification/MallocInv.v ===== *)
(** The invariant of the core's heap ([Malloc]): the superblocks of an arena,
    the blocks that tile them, and the free ones in the arena's lists. *)
From stdpp Require Import base list sorting.
From Stdlib Require Import ZArith Lia.
From S2P Require Import Prelude Mem LibcMem Malloc MallocBlocks MallocLists.
Open Scope prog_scope.
Open Scope Z_scope.

(** ** The address space *)

(** Mappings are made of whole pages, apart from one another and in the lower
    half of the address space, where user programs are; the core's are never
    refused while there is space ([core_space]) for them. *)
Class AddressSpaceLaws (O : Type) `{AddressSpace O} := {
  mapped : O -> bool -> Z -> Z -> Prop;
  core_space : O -> Z -> Prop;
  mmap_ok c n o p o' : 0 < n -> am_mmap c n o = Some (p, o') ->
    0 < p /\ p mod 4096 = 0 /\ p + n < 2 ^ 64 /\ mapped o' c p n /\
    forall c' q k, 0 < k -> mapped o c' q k -> mapped o' c' q k /\ (q + k <= p \/ p + n <= q);
  mmap_core n k o : 0 < n -> 0 <= k -> core_space o (n + 4096 + k) -> is_Some (am_mmap false n o);
  mmap_space c n k o p o' : 0 < n -> 0 <= k -> core_space o (n + 4096 + k) -> am_mmap c n o = Some (p, o') -> core_space o' k;
  munmap_ok c p n o : 0 < n -> mapped o c p n -> exists o', am_munmap c p n o = Some o' /\
    (forall c' q k, 0 < k -> mapped o c' q k -> q + k <= p \/ p + n <= q -> mapped o' c' q k) /\
    (forall k, core_space o k -> core_space o' k);
  mapped_below o c p n : 0 < n -> mapped o c p n -> p + n < 2 ^ 63;
  mapped_part c p n q k o : mapped o c p n -> p <= q -> q + k <= p + n -> 0 < k -> mapped o c q k;
  space_less o k k' : k' <= k -> core_space o k -> core_space o k'
}.

(** ** Superblocks *)

Record sblk := Sblk { saddr : Z; sbytes : Z; sunsplit : bool; sblks : list blk }.
Definition spay (sb : sblk) : Z := saddr sb + 32.
Definition send (sb : sblk) : Z := saddr sb + 32 + sbytes sb.

(** The blocks from [lo] to [hi], without a gap *)
Fixpoint tiles (lo : Z) (l : list blk) (hi : Z) : Prop :=
  match l with
  | [] => lo = hi
  | b :: l => baddr b = lo /\ tiles (bend b) l hi
  end.

Record sb_wf g (sb : sblk) : Prop := {
  sw_pos : 0 < saddr sb;
  sw_aligned : saddr sb mod 16 = 0;
  sw_bytes : 0 < sbytes sb;
  sw_end : send sb < 2 ^ 64;
  sw_tiles : tiles (spay sb) (sblks sb) (send sb);
  sw_blks b : b ∈ sblks sb -> blk_wf g b;
  sw_page : send sb mod 4096 = 0
}.

(** The header of a superblock *)
Definition sb_in (m : gmem) (sb : sblk) : Prop :=
  load_le 8 m (saddr sb) = sbytes sb /\ load_le 8 m (saddr sb + 8) = if sunsplit sb then saddr sb else 0.

Definition blt (b c : blk) : Prop := bend b <= baddr c.
Definition slt (x y : sblk) : Prop := send x <= saddr y.

(** Regions of memory, an address and a length *)
Definition rdisj (r q : Z * Z) : Prop := r.1 + r.2 <= q.1 \/ q.1 + q.2 <= r.1.
Definition in_reg (r : Z * Z) (x : Z) : Prop := r.1 <= x < r.1 + r.2.
Definition sb_reg (sb : sblk) : Z * Z := (saddr sb, 32 + sbytes sb).

Lemma blk_tiles_app lo l k hi : tiles lo (l ++ k) hi <-> exists mid, tiles lo l mid /\ tiles mid k hi.
Proof.
  revert lo. induction l as [|b l IH]; intros lo; cbn.
  - split; [intros H; by exists lo|by intros (mid & -> & H)].
  - rewrite IH. naive_solver.
Qed.

Lemma tiles_bounds g lo l hi : geo_ok g -> (forall b, b ∈ l -> blk_wf g b) -> tiles lo l hi ->
  lo + 32 * Z.of_nat (length l) <= hi /\ StronglySorted blt l /\ forall b, b ∈ l -> lo <= baddr b /\ bend b <= hi.
Proof.
  intros Hg. revert lo. induction l as [|b l IH]; intros lo Hw Ht; cbn in Ht.
  { cbn. split; [lia|]. split; [constructor|]. by intros b ?%not_elem_of_nil. }
  destruct Ht as [<- Ht]. destruct (IH _ (fun c Hc => Hw c (proj2 (elem_of_cons _ _ _) (or_intror Hc))) Ht) as (Hl & Hs & Hb).
  destruct (blk_wf_pos g b Hg (Hw b ltac:(by left))) as (Hsz & _). destruct Hg. unfold bend in *.
  split; [cbn [length]; lia|]. split.
  - constructor; [done|]. apply Forall_forall. intros c Hc. unfold blt, bend. specialize (Hb c Hc). lia.
  - intros c [->|Hc]%elem_of_cons; [lia|]. specialize (Hb c Hc). lia.
Qed.

(** Sorted blocks lie apart. *)
Lemma sorted_apart g l : geo_ok g -> (forall b, b ∈ l -> blk_wf g b) -> StronglySorted blt l ->
  NoDup l /\ forall b c, b ∈ l -> c ∈ l -> b <> c -> bdisj b c.
Proof.
  intros Hg Hw. induction 1 as [|b l Hs IH Hb]; [split; [constructor|by intros b c ?%not_elem_of_nil]|].
  destruct IH as [Hn Hd]; [intros c Hc; apply Hw; by right|]. rewrite Forall_forall in Hb.
  destruct (blk_wf_pos g b Hg (Hw b ltac:(by left))) as (Hsz & _). destruct Hg. unfold blt, bend in *. split.
  - constructor; [|done]. intros Hi. specialize (Hb b Hi). lia.
  - intros c d [->|Hc]%elem_of_cons [->|Hd']%elem_of_cons Hne; [done|left|right|by apply Hd].
    + by apply Hb.
    + by apply Hb.
Qed.

(** ** Arenas *)

(** The superblocks of an arena, its free lists, and the regions and chunks
    of its permanent blocks *)
Record aghost := AG { ag_sbs : list sblk; ag_fl : list (list blk); ag_perm : list (Z * Z); ag_chunks : list (Z * Z) }.
Definition ag_blks (g : aghost) : list blk := ag_sbs g ≫= sblks.
Definition ag_regions (g : aghost) : list (Z * Z) := (sb_reg <$> ag_sbs g) ++ ag_perm g.
Definition is_free (b : blk) : Prop := bused b = false.
Definition is_used (b : blk) : Prop := bused b = true.
#[export] Instance is_free_dec b : Decision (is_free b).
Proof. unfold is_free. apply _. Defined.
#[export] Instance is_used_dec b : Decision (is_used b).
Proof. unfold is_used. apply _. Defined.

(** No two adjacent blocks are free. *)
Fixpoint merged (l : list blk) : Prop :=
  match l with
  | [] => True
  | b :: k => match k with [] => True | c :: _ => is_used b \/ is_used c end /\ merged k
  end.

Lemma merged_app l b k : merged (l ++ b :: k) <-> merged (l ++ [b]) /\ merged (b :: k).
Proof.
  induction l as [|c l IH]; cbn [app].
  - split; [intros H; split; [by split|done]|by intros [_ H]].
  - cbn [merged]. rewrite IH. destruct l; cbn [app merged]; tauto.
Qed.

Lemma merged_l l k : merged (l ++ k) -> merged l.
Proof.
  induction l as [|c l IH]; cbn [app merged]; [done|]. intros [H1 H2]. split; [|by apply IH]. by destruct l.
Qed.

Lemma merged_r l k : merged (l ++ k) -> merged k.
Proof. induction l as [|c l IH]; [done|]. intros [_ H]. by apply IH. Qed.

(** A block in use may be put between any two. *)
Lemma merged_used l b k : is_used b -> merged l -> merged k -> merged (l ++ b :: k).
Proof.
  intros Hb Hl Hk. apply merged_app. split.
  - induction l as [|c l IH]; [done|]. cbn [app merged] in *. destruct Hl as [H1 H2]. split; [|by apply IH].
    destruct l; cbn [app]; [by right|done].
  - cbn [merged]. split; [|done]. destruct k; [done|by left].
Qed.

(** The neighbours of a free block are in use. *)
Lemma merged_free l b k : merged (l ++ b :: k) -> is_free b ->
  (forall l' c, l = l' ++ [c] -> is_used c) /\ (forall c k', k = c :: k' -> is_used c).
Proof.
  intros Hm Hf. split.
  - intros l' c ->. rewrite <- app_assoc in Hm. cbn [app] in Hm. apply merged_app in Hm as [_ [[H|H] _]]; [done|].
    unfold is_free, is_used in *. congruence.
  - intros c k' ->. apply merged_app in Hm as [_ [[H|H] _]]; [|done]. unfold is_free, is_used in *. congruence.
Qed.

(** Any block may be put between blocks in use. *)
Lemma merged_between l b k : merged l -> merged k -> (forall l' c, l = l' ++ [c] -> is_used c) -> (forall c k', k = c :: k' -> is_used c) ->
  merged (l ++ b :: k).
Proof.
  intros Hl Hk H1 H2. apply merged_app. split.
  - destruct l as [|x l _] using rev_ind; [done|]. rewrite <- app_assoc. apply merged_app. split; [done|]. split; [|done].
    left. by apply (H1 l).
  - split; [|done]. destruct k as [|c k]; [done|]. right. by apply (H2 c k).
Qed.

Definition geo_of (hp : Z) (A : Arena) : geo := Geo hp (rz_szB A) (clientmem A).

(** Permanent blocks: the rest of the current region is from
    [perm_malloc_current] to [perm_malloc_limit]. *)
Record perm_ok (A : Arena) (perm chunks : list (Z * Z)) : Prop := {
  pe_chunk c : c ∈ chunks -> exists r, r ∈ perm /\ r.1 <= c.1 /\ 0 <= c.2 /\ c.1 + c.2 <= r.1 + r.2;
  pe_apart : NoDup (filter (fun c => 0 < c.2) chunks) /\ forall c d, c ∈ chunks -> d ∈ chunks -> c <> d -> rdisj c d;
  pe_rest : perm_malloc_current A = 0 /\ perm_malloc_limit A = 0 /\ chunks = [] \/
    exists r, r ∈ perm /\ r.1 <= perm_malloc_current A <= perm_malloc_limit A /\ perm_malloc_limit A < r.1 + r.2 /\
      forall c, c ∈ chunks -> c.1 + c.2 <= perm_malloc_current A \/ perm_malloc_limit A < c.1
}.

Section Arenas.
Context {OS : Type} `{AddressSpaceLaws OS}.
Implicit Types (m : gmem) (o : OS) (A : Arena) (ag : aghost) (b c : blk) (sb : sblk).

Record arena_ok (hp : Z) m o A ag : Prop := {
  ao_geo : geo_ok (geo_of hp A);
  ao_min : 0 < min_sblock_szB A <= 2 ^ 22;
  ao_count : sblocks_used A = Z.of_nat (length (ag_sbs ag)) /\ sblocks_size A = Z.of_nat (length (sblocks A)) /\
    sblocks_used A <= sblocks_size A /\ SBLOCKS_SIZE_INITIAL <= sblocks_size A;
  ao_array : take (length (ag_sbs ag)) (sblocks A) = saddr <$> ag_sbs ag;
  ao_sorted : StronglySorted slt (ag_sbs ag);
  ao_sbs sb : sb ∈ ag_sbs ag -> sb_wf (geo_of hp A) sb /\ sb_in m sb;
  ao_lists : fl_ok (geo_of hp A) m (freelist A) (ag_fl ag);
  ao_free : mjoin (ag_fl ag) ≡ₚ filter is_free (ag_blks ag);
  ao_used b : b ∈ ag_blks ag -> bused b = true -> blk_in (geo_of hp A) m b;
  ao_deferred : deferred_reclaimed_sb A = 0 \/
    exists sb, sb ∈ ag_sbs ag /\ deferred_reclaimed_sb A = saddr sb /\ sunsplit sb = false;
  ao_mapped r : r ∈ ag_regions ag -> 0 < r.1 /\ 0 < r.2 /\ r.1 + r.2 < 2 ^ 64 /\ mapped o (clientmem A) r.1 r.2;
  ao_perm r : r ∈ ag_perm ag -> (forall sb, sb ∈ ag_sbs ag -> rdisj r (sb_reg sb)) /\
    forall q, q ∈ ag_perm ag -> q <> r -> rdisj q r;
  ao_chunks : perm_ok A (ag_perm ag) (ag_chunks ag)
}.

(** Adjacent free blocks are merged; a superblock that may not be divided has
    one block, in use; [d] is the only superblock that may be free as a
    whole. *)
Record sb_tidy (d : Z -> Prop) sb : Prop := {
  st_merged : merged (sblks sb);
  st_unsplit : sunsplit sb = true -> exists b, sblks sb = [b] /\ is_used b;
  st_lone b : sblks sb = [b] -> is_free b -> d (saddr sb)
}.

Definition arena_tidy (d : Z -> Prop) ag : Prop := forall sb, sb ∈ ag_sbs ag -> sb_tidy d sb.

Lemma sb_tidy_mono (d d' : Z -> Prop) sb : (forall b, sblks sb = [b] -> is_free b -> d (saddr sb) -> d' (saddr sb)) ->
  sb_tidy d sb -> sb_tidy d' sb.
Proof using Type. intros Hd [T1 T2 T3]. split; [done|done|]. intros b Eb Hf. by apply (Hd b), (T3 b). Qed.

Lemma ag_blks_elem ag b : b ∈ ag_blks ag <-> exists sb, sb ∈ ag_sbs ag /\ b ∈ sblks sb.
Proof using Type. unfold ag_blks. rewrite list_elem_of_bind. naive_solver. Qed.

(** What is lent out, and what is mapped *)
Definition sumZ {T} (f : T -> Z) (l : list T) : Z := foldr (fun x n => f x + n) 0 l.
Definition loaned (g : geo) ag : Z := sumZ (fun b => bsz b - g_ovh g) (filter is_used (ag_blks ag)).
Definition mapped_bytes ag : Z := sumZ snd (ag_regions ag).

Definition mapped_ok A ag : Prop := bytes_mmaped (stats A) = u64 (mapped_bytes ag).

Record accounts (hp : Z) A ag : Prop := {
  ac_loan : bytes_on_loan (stats A) = u64 (loaned (geo_of hp A) ag + perm_bytes_on_loan (stats A));
  ac_mapped : bytes_mmaped (stats A) = u64 (mapped_bytes ag)
}.

(** The invariant of an arena, but for what is on loan *)
Definition arena_rest hp m o A ag : Prop :=
  arena_ok hp m o A ag /\ arena_tidy (fun p => p = deferred_reclaimed_sb A) ag /\ mapped_ok A ag.

Definition arena_inv hp m o A ag : Prop :=
  arena_ok hp m o A ag /\ arena_tidy (fun p => p = deferred_reclaimed_sb A) ag /\ accounts hp A ag.

Lemma sumZ_app {T} (f : T -> Z) l k : sumZ f (l ++ k) = sumZ f l + sumZ f k.
Proof using Type. induction l as [|x l IH]; unfold sumZ in *; cbn in *; lia. Qed.

Lemma sumZ_perm {T} (f : T -> Z) l k : l ≡ₚ k -> sumZ f l = sumZ f k.
Proof using Type. induction 1; unfold sumZ in *; cbn in *; lia. Qed.

Section Facts.
Context (hp : Z) m o A ag (Hok : arena_ok hp m o A ag).
Let g : geo := geo_of hp A.

Lemma blks_wf b : b ∈ ag_blks ag -> blk_wf g b.
Proof using Hok. intros (sb & Hs & Hb)%ag_blks_elem. by apply (proj1 (ao_sbs _ _ _ _ _ Hok sb Hs)). Qed.

Lemma blk_place sb b : sb ∈ ag_sbs ag -> b ∈ sblks sb -> spay sb <= baddr b /\ bend b <= send sb.
Proof using Hok.
  intros Hs Hb. destruct (ao_sbs _ _ _ _ _ Hok sb Hs) as [Hw _].
  destruct (tiles_bounds g _ _ _ (ao_geo _ _ _ _ _ Hok) (sw_blks _ _ Hw) (sw_tiles _ _ Hw)) as (_ & _ & Hp). by apply Hp.
Qed.

Lemma blks_sorted : StronglySorted blt (ag_blks ag).
Proof using Hok.
  unfold ag_blks. pose proof (ao_sorted _ _ _ _ _ Hok) as Hs. pose proof blk_place as Hp.
  pose proof (fun sb Hi => proj1 (ao_sbs _ _ _ _ _ Hok sb Hi)) as Hw. revert Hs Hp Hw.
  induction (ag_sbs ag) as [|sb sbs IH]; intros Hs Hp Hw; [constructor|]. cbn [mbind list_bind].
  apply StronglySorted_inv in Hs as [Hs Hx]. rewrite Forall_forall in Hx.
  apply StronglySorted_app. split_and!.
  - intros b c Hb (sb' & Hc & Hs')%list_elem_of_bind. destruct (Hp sb b ltac:(by left) Hb).
    destruct (Hp sb' c ltac:(by right) Hc). assert (slt sb sb') by (by apply Hx).
    unfold slt, blt, spay in *. lia.
  - apply (tiles_bounds g _ _ _ (ao_geo _ _ _ _ _ Hok) (sw_blks _ _ (Hw sb ltac:(by left))) (sw_tiles _ _ (Hw sb ltac:(by left)))).
  - apply IH; [done|intros sb' b Hi; apply Hp; by right|intros sb' Hi; apply Hw; by right].
Qed.

Lemma blks_apart : NoDup (ag_blks ag) /\ forall b c, b ∈ ag_blks ag -> c ∈ ag_blks ag -> b <> c -> bdisj b c.
Proof using Hok. apply (sorted_apart g); [apply Hok|apply blks_wf|apply blks_sorted]. Qed.

Lemma free_elem b : b ∈ mjoin (ag_fl ag) <-> b ∈ ag_blks ag /\ bused b = false.
Proof using Hok. rewrite (ao_free _ _ _ _ _ Hok), list_elem_of_filter. unfold is_free. tauto. Qed.

Lemma blk_tagged b : b ∈ ag_blks ag -> tagged g m b.
Proof using Hok.
  intros Hb. destruct (bused b) eqn:Eu; [by apply (ao_used _ _ _ _ _ Hok b Hb)|]. pose proof (ao_lists _ _ _ _ _ Hok) as Hls.
  destruct (fo_join _ _ _ _ b Hls) as (i & k & Hi & Hbk); [by apply free_elem|]. by apply (fo_item _ _ _ _ Hls i k b Hi Hbk).
Qed.

(** Superblocks lie apart. *)
Lemma sbs_apart sb sb' : sb ∈ ag_sbs ag -> sb' ∈ ag_sbs ag -> sb = sb' \/ rdisj (sb_reg sb) (sb_reg sb').
Proof using Hok.
  pose proof (ao_sorted _ _ _ _ _ Hok) as Hs. induction Hs as [|x l Hs IH Hx]; [by intros ?%not_elem_of_nil|].
  rewrite Forall_forall in Hx. intros [->|H1]%elem_of_cons [->|H2]%elem_of_cons.
  - by left.
  - right. apply Hx in H2. unfold slt, send, rdisj, sb_reg in *. cbn. lia.
  - right. apply Hx in H1. unfold slt, send, rdisj, sb_reg in *. cbn. lia.
  - by apply IH.
Qed.

(** Every block is in the region of its superblock, after the header. *)
Lemma blk_region b : b ∈ ag_blks ag -> exists r, r ∈ ag_regions ag /\ forall x, in_blk b x -> in_reg r x.
Proof using Hok.
  intros (sb & Hs & Hb)%ag_blks_elem. exists (sb_reg sb). split.
  - apply elem_of_app. left. apply list_elem_of_fmap. by exists sb.
  - destruct (blk_place sb b Hs Hb) as [H1 H2]. unfold spay, send, in_blk, in_reg, sb_reg in *. cbn. intros x Hx. lia.
Qed.

(** A header is in no block. *)
Lemma header_apart sb b x : sb ∈ ag_sbs ag -> b ∈ ag_blks ag -> saddr sb <= x < spay sb -> ~ in_blk b x.
Proof using Hok.
  intros Hs (sb' & Hs' & Hb)%ag_blks_elem Hx Hi. destruct (blk_place sb' b Hs' Hb).
  destruct (ao_sbs _ _ _ _ _ Hok sb Hs) as [[] _].
  destruct (sbs_apart sb sb' Hs Hs') as [->|Hd]; unfold spay, send, in_blk, rdisj, sb_reg in *; cbn in *; lia.
Qed.

(** The links of free blocks *)
Lemma free_link x : link_byte g (mjoin (ag_fl ag)) x -> exists b, b ∈ ag_blks ag /\ bused b = false /\ in_blk b x.
Proof using Hok.
  intros (b & Hb & Hl)%link_one. apply free_elem in Hb as [Hb Hf]. exists b. split; [done|]. split; [done|].
  eapply link_in; [apply Hok|by apply blks_wf|done].
Qed.
End Facts.

(** ** Changes *)

(** Memory outside the superblocks may change. *)
Lemma arena_ok_blocks hp m o A ag m' o' : arena_ok hp m o A ag ->
  (forall sb x, sb ∈ ag_sbs ag -> in_reg (sb_reg sb) x -> m' x = m x) ->
  (forall r, r ∈ ag_regions ag -> mapped o (clientmem A) r.1 r.2 -> mapped o' (clientmem A) r.1 r.2) -> arena_ok hp m' o' A ag.
Proof using Type.
  intros Hok Hx Hmp. pose proof Hok as [H1 H2 H3 H4 H5 H6 H7 H8 H9 H10 H11 H12 H13].
  assert (forall b x, b ∈ ag_blks ag -> in_blk b x -> m' x = m x) as Hb.
  { intros b x (sb & Hs & Hb)%ag_blks_elem Hi. apply (Hx sb); [done|]. destruct (blk_place _ _ _ _ _ Hok sb b Hs Hb).
    unfold in_reg, sb_reg, in_blk, spay, send in *. cbn. lia. }
  split; try done.
  - intros sb Hs. destruct (H6 sb Hs) as [Hw [E1 E2]]. split; [done|]. pose proof (sw_bytes _ _ Hw).
    split; [rewrite <- E1|rewrite <- E2]; apply load_le_ext; intros x Hi; apply (Hx _ _ Hs); unfold in_reg, sb_reg; cbn; lia.
  - apply (fl_ok_ext _ H1 m); [|done]. intros b x Hi. apply Hb. by eapply (free_elem _ _ _ _ _ Hok).
  - intros b Hi Hu. eapply blk_in_ext; [done|by eapply blks_wf| |by apply H9]. intros x. by apply Hb.
  - intros r Hr. destruct (H11 r Hr) as (? & ? & ? & ?). split_and!; try done. by apply Hmp.
Qed.

(** Memory elsewhere may change. *)
Lemma arena_ok_frame hp m o A ag m' o' : arena_ok hp m o A ag ->
  (forall r x, r ∈ ag_regions ag -> in_reg r x -> m' x = m x) ->
  (forall r, r ∈ ag_regions ag -> mapped o (clientmem A) r.1 r.2 -> mapped o' (clientmem A) r.1 r.2) -> arena_ok hp m' o' A ag.
Proof using Type.
  intros Hok Hx Hmp. eapply arena_ok_blocks; [done| |done]. intros sb x Hs. apply Hx. apply elem_of_app. left. apply list_elem_of_fmap. by exists sb.
Qed.

(** What an operation on blocks may change of an arena *)
Definition set_lists (F : list Z) (st : Stats) A : Arena := set_freelist F (set_stats st A).

Lemma set_lists_geo hp F st A : geo_of hp (set_lists F st A) = geo_of hp A.
Proof using Type. done. Qed.

(** The blocks [mid] of a superblock become [mid']. *)
Definition swap_blks (S1 : list sblk) sb (S2 : list sblk) (l1 mid' l2 : list blk) (fl : list (list blk)) ag : aghost :=
  AG (S1 ++ Sblk (saddr sb) (sbytes sb) (sunsplit sb) (l1 ++ mid' ++ l2) :: S2) fl (ag_perm ag) (ag_chunks ag).

Lemma swap_blks_elem S1 sb S2 l1 mid' l2 fl ag b : b ∈ ag_blks (swap_blks S1 sb S2 l1 mid' l2 fl ag) <->
  b ∈ mid' \/ b ∈ (S1 ≫= sblks) ++ l1 ++ l2 ++ (S2 ≫= sblks).
Proof using Type. unfold ag_blks, swap_blks. cbn. rewrite bind_app. cbn. rewrite !elem_of_app. tauto. Qed.

Lemma ag_blks_split ag S1 sb S2 l1 mid l2 : ag_sbs ag = S1 ++ sb :: S2 -> sblks sb = l1 ++ mid ++ l2 ->
  ag_blks ag ≡ₚ mid ++ (S1 ≫= sblks) ++ l1 ++ l2 ++ (S2 ≫= sblks).
Proof using Type.
  intros E Eb. unfold ag_blks. rewrite E, bind_app. cbn. rewrite Eb.
  rewrite <- !app_assoc, (Permutation_app_swap_app l1 mid), (Permutation_app_swap_app _ mid). done.
Qed.

Section Swap.
Context (hp : Z) m o A ag (S1 : list sblk) sb (S2 : list sblk) (l1 mid l2 : list blk) (lo hi : Z).
Context (Hok : arena_ok hp m o A ag) (Es : ag_sbs ag = S1 ++ sb :: S2) (Eb : sblks sb = l1 ++ mid ++ l2).
Context (T1 : tiles (spay sb) l1 lo) (T2 : tiles lo mid hi) (T3 : tiles hi l2 (send sb)).
Let g : geo := geo_of hp A.
Let others : list blk := (S1 ≫= sblks) ++ l1 ++ l2 ++ (S2 ≫= sblks).

Lemma swap_in : sb ∈ ag_sbs ag.
Proof using Es. rewrite Es. apply elem_of_app. right. by left. Qed.

Lemma swap_others b c : b ∈ mid -> c ∈ others -> b ∈ ag_blks ag /\ c ∈ ag_blks ag /\ bdisj b c.
Proof using Hok Es Eb.
  intros Hb Hc. pose proof (ag_blks_split _ _ _ _ _ _ _ Es Eb) as Hp.
  destruct (blks_apart _ _ _ _ _ Hok) as [Hn Hd]. rewrite Hp in Hn. apply NoDup_app in Hn as (_ & Hn & _).
  assert (b ∈ ag_blks ag) as Hb' by (rewrite Hp; apply elem_of_app; by left).
  assert (c ∈ ag_blks ag) as Hc' by (rewrite Hp; apply elem_of_app; by right).
  split_and!; [done..|]. apply Hd; [done..|]. intros ->. by apply (Hn c).
Qed.

(** The bytes from [lo] to [hi], which the blocks [mid] fill, are in no other
    block. *)
Lemma swap_span c x : c ∈ others -> in_blk c x -> ~ lo <= x < hi.
Proof using Hok Es Eb T2.
  intros Hc Hi Hx. assert (exists b, b ∈ mid /\ in_blk b x) as (b & Hb & Hib).
  { clear -T2 Hx. revert lo T2 Hx. induction mid as [|b l IH]; intros lo Ht Hx; cbn in Ht; [lia|]. destruct Ht as [<- Ht].
    destruct (decide (x < bend b)).
    - exists b. split; [by left|]. unfold in_blk. lia.
    - destruct (IH _ Ht ltac:(lia)) as (c & Hc & Hi). exists c. split; [by right|done]. }
  destruct (swap_others b c Hb Hc) as (_ & _ & Hd). unfold in_blk, bdisj in *. lia.
Qed.

Lemma swap_bounds : spay sb <= lo /\ lo <= hi /\ hi <= send sb.
Proof using Hok Es Eb T1 T2 T3.
  pose proof (ao_geo _ _ _ _ _ Hok) as Hg. destruct (ao_sbs _ _ _ _ _ Hok sb swap_in) as [Hw _].
  pose proof (sw_blks _ _ Hw) as Hb. rewrite Eb in Hb.
  destruct (tiles_bounds g _ _ _ Hg (fun b Hi => Hb b ltac:(apply elem_of_app; by left)) T1) as (B1 & _).
  destruct (tiles_bounds g _ _ _ Hg (fun b Hi => Hb b ltac:(apply elem_of_app; right; apply elem_of_app; by left)) T2) as (B2 & _).
  destruct (tiles_bounds g _ _ _ Hg (fun b Hi => Hb b ltac:(apply elem_of_app; right; apply elem_of_app; by right)) T3) as (B3 & _).
  lia.
Qed.

Lemma others_elem c : c ∈ others -> c ∈ ag_blks ag.
Proof using Es Eb. intros Hc. rewrite (ag_blks_split _ _ _ _ _ _ _ Es Eb). apply elem_of_app. by right. Qed.

Definition sb_swapped (mid' : list blk) : sblk := Sblk (saddr sb) (sbytes sb) (sunsplit sb) (l1 ++ mid' ++ l2).

Lemma swap_sb_elem x mid' : x ∈ S1 ++ sb_swapped mid' :: S2 -> x = sb_swapped mid' \/ x ∈ ag_sbs ag.
Proof using Es. rewrite Es, !elem_of_app, !elem_of_cons. tauto. Qed.

Lemma swap_regs fl mid' : ag_regions (swap_blks S1 sb S2 l1 mid' l2 fl ag) = ag_regions ag.
Proof using Es. unfold ag_regions, swap_blks. cbn. by rewrite Es, !fmap_app, !fmap_cons. Qed.

Lemma swap_wf mid' : tiles lo mid' hi -> (forall b, b ∈ mid' -> blk_wf g b) -> sb_wf g (sb_swapped mid').
Proof using Hok Es Eb T1 T3.
  intros Ht Hw. destruct (ao_sbs _ _ _ _ _ Hok sb swap_in) as [[W1 W2 W3 W4 W5 W6 W7] _]. split; try done.
  - cbn. apply blk_tiles_app. exists lo. split; [done|]. apply blk_tiles_app. by exists hi.
  - cbn. intros b. rewrite !elem_of_app. intros Hb. destruct (decide (b ∈ mid')); [by apply Hw|].
    apply W6. rewrite Eb, !elem_of_app. tauto.
Qed.

Lemma arena_swap m' F st fl mid' R : tiles lo mid' hi -> (forall b, b ∈ mid' -> blk_wf g b) -> fl_ok g m' F fl ->
  mjoin (ag_fl ag) ≡ₚ filter is_free mid ++ R -> mjoin fl ≡ₚ filter is_free mid' ++ R ->
  (forall b, b ∈ mid' -> is_used b -> blk_in g m' b) ->
  (forall x, ~ lo <= x < hi -> ~ link_byte g (mjoin (ag_fl ag)) x -> m' x = m x) ->
  arena_ok hp m' o (set_lists F st A) (swap_blks S1 sb S2 l1 mid' l2 fl ag).
Proof using All.
  intros Ht Hw Hfl Hf Hf' Hu Hx. pose proof Hok as [H1 H2 H3 H4 H5 H6 H7 H8 H9 H10 H11 H12 H13]. cbn.
  pose proof swap_bounds as (B1 & B2 & B3).
  assert (length (S1 ++ sb_swapped mid' :: S2) = length (ag_sbs ag)) as El by (by rewrite Es, !length_app).
  assert (saddr <$> (S1 ++ sb_swapped mid' :: S2) = saddr <$> ag_sbs ag) as Ea by (by rewrite Es, !fmap_app, !fmap_cons).
  assert (forall b x, b ∈ ag_blks ag -> bused b = true -> b ∈ others -> in_blk b x -> m' x = m x) as Hkeep.
  { intros b x Hb Hbu Ho Hi. apply Hx; [by eapply swap_span|]. intros (c & Hc & Hcf & Hci)%(free_link _ _ _ _ _ Hok).
    destruct (blks_apart _ _ _ _ _ Hok) as [_ Hd]. assert (bdisj b c) as Hbc by (apply Hd; [done|done|congruence]).
    unfold bdisj, in_blk in *. lia. }
  assert (forall x y, x ∈ ag_sbs ag -> saddr x <= y < spay x -> m' y = m y) as Hhead.
  { intros x y Hs Hy. apply Hx.
    - destruct (sbs_apart _ _ _ _ _ Hok x sb Hs swap_in) as [->|Hd]; [lia|].
      destruct (H6 x Hs) as [[] _]. unfold rdisj, sb_reg, spay, send in *. cbn in *. lia.
    - intros (c & Hc & _ & Hci)%(free_link _ _ _ _ _ Hok). by apply (header_apart _ _ _ _ _ Hok x c y). }
  split; cbn; fold (sb_swapped mid'); try done.
  - by rewrite El.
  - fold (sb_swapped mid'). by rewrite El, Ea.
  - fold (sb_swapped mid'). rewrite Es in H5. clear -H5. induction S1 as [|x l IH]; cbn [app] in *.
    + apply StronglySorted_inv in H5 as [Hs Hx]. constructor; [done|]. exact Hx.
    + apply StronglySorted_inv in H5 as [Hs Hx]. constructor; [by apply IH|]. rewrite Forall_app, Forall_cons in *. exact Hx.
  - intros x Hs%swap_sb_elem. assert (exists y, y ∈ ag_sbs ag /\ saddr x = saddr y /\ sbytes x = sbytes y /\ sunsplit x = sunsplit y) as (y & Hy & E1 & E2 & E3).
    { destruct Hs as [->|Hs]; [exists sb; split; [apply swap_in|done]|by exists x]. }
    destruct (H6 y Hy) as [Wy [I1 I2]]. split; [destruct Hs as [->|Hs]; [by apply swap_wf|by apply H6]|].
    unfold sb_in. rewrite E1, E2, E3, <- I1, <- I2. split; apply load_le_ext; intros z Hz; apply (Hhead y); try done; unfold spay; lia.
  - unfold ag_blks in *. cbn in *. fold (sb_swapped mid'). rewrite Hf'. 
    assert (Hall : forall k, (S1 ++ Sblk (saddr sb) (sbytes sb) (sunsplit sb) (l1 ++ k ++ l2) :: S2) ≫= sblks ≡ₚ k ++ others).
    { intros k. rewrite bind_app. cbn. unfold others. rewrite <- !app_assoc, (Permutation_app_swap_app l1 k), (Permutation_app_swap_app _ k). done. }
    unfold sb_swapped. rewrite Hall, filter_app. apply Permutation_app_head.
    assert (mjoin (ag_fl ag) ≡ₚ filter is_free mid ++ filter is_free others) as Hr.
    { rewrite H8. unfold ag_blks. rewrite Es, bind_app. cbn. rewrite Eb, <- filter_app. apply filter_Permutation.
      unfold others. rewrite <- !app_assoc, (Permutation_app_swap_app l1 mid), (Permutation_app_swap_app _ mid). done. }
    rewrite Hf in Hr. by apply Permutation_app_inv_l in Hr.
  - intros b Hb Hbu. apply (swap_blks_elem S1 sb S2 l1 mid' l2 fl ag) in Hb. destruct Hb as [Hb|Hb]; [by apply Hu|]. pose proof (others_elem b Hb) as Hbi.
    eapply (blk_in_ext g m); [done|by eapply blks_wf| |by apply H9]. intros x Hi. by eapply Hkeep.
  - destruct H10 as [|(y & Hy & E1 & E2)]; [by left|right]. rewrite Es in Hy. rewrite elem_of_app, elem_of_cons in Hy.
    destruct Hy as [Hy|[->|Hy]].
    + exists y. rewrite elem_of_app. by split; [left|].
    + exists (sb_swapped mid'). split; [apply elem_of_app; right; by left|done].
    + exists y. rewrite elem_of_app, elem_of_cons. by split; [right; right|].
  - intros r Hr. apply H11. by rewrite <- (swap_regs fl mid').
  - intros r Hr. destruct (H12 r Hr) as [Hd Hd']. split; [|done]. intros x [->|Hs]%swap_sb_elem; [|by apply Hd].
    apply (Hd sb swap_in).
  - by destruct H13.
Qed.
End Swap.

(** *** A superblock goes *)

Lemma sbs_others hp m o A ag (Hok : arena_ok hp m o A ag) S1 sb S2 x : ag_sbs ag = S1 ++ sb :: S2 -> x ∈ S1 ++ S2 ->
  x ∈ ag_sbs ag /\ x <> sb /\ rdisj (sb_reg x) (sb_reg sb).
Proof using Type.
  intros Es Hi. pose proof (ao_sorted _ _ _ _ _ Hok) as H5. rewrite Es in H5.
  assert (sb ∈ ag_sbs ag) as Hsb by (rewrite Es; apply elem_of_app; right; by left).
  assert (x ∈ ag_sbs ag) as Hx by (rewrite Es; rewrite elem_of_app in *; rewrite elem_of_cons; tauto).
  destruct (ao_sbs _ _ _ _ _ Hok sb Hsb) as [[] _]. destruct (ao_sbs _ _ _ _ _ Hok x Hx) as [[] _].
  assert (slt x sb \/ slt sb x) as Hs.
  { apply elem_of_app in Hi as [Hi|Hi].
    - left. eapply StronglySorted_app_1_elem_of; [exact H5|done|by left].
    - right. apply StronglySorted_app_1_r, StronglySorted_inv in H5 as [_ H5]. rewrite Forall_forall in H5. by apply H5. }
  unfold slt, send, rdisj, sb_reg in *. cbn. split; [done|]. split; [intros ->|]; lia.
Qed.

Lemma arena_remove hp m o A ag S1 sb S2 m' o' F st L d fl :
  arena_ok hp m o A ag -> ag_sbs ag = S1 ++ sb :: S2 -> fl_ok (geo_of hp A) m' F fl ->
  mjoin fl ≡ₚ filter is_free ((S1 ++ S2) ≫= sblks) ->
  (forall x, ~ link_byte (geo_of hp A) (mjoin (ag_fl ag)) x -> m' x = m x) ->
  (forall r, r ∈ ag_regions ag -> rdisj r (sb_reg sb) -> mapped o (clientmem A) r.1 r.2 -> mapped o' (clientmem A) r.1 r.2) ->
  length L = length (sblocks A) -> take (length (S1 ++ S2)) L = saddr <$> (S1 ++ S2) ->
  (d = 0 \/ exists x, x ∈ S1 ++ S2 /\ d = saddr x /\ sunsplit x = false) ->
  arena_ok hp m' o' (set_deferred d (set_lists F st (set_sblocks L (sblocks_size A) (sblocks_used A - 1) A)))
    (AG (S1 ++ S2) fl (ag_perm ag) (ag_chunks ag)).
Proof using Type.
  intros Hok Es Hfl Hf Hx Hmp HL Ht Hd. pose proof Hok as [H1 H2 H3 H4 H5 H6 H7 H8 H9 H10 H11 H12 H13].
  assert (forall x, x ∈ S1 ++ S2 -> x ∈ ag_sbs ag) as Hin by (intros x; rewrite Es, !elem_of_app, elem_of_cons; tauto).
  assert (forall b, b ∈ (S1 ++ S2) ≫= sblks -> b ∈ ag_blks ag) as Hbin.
  { intros b (x & Hb & Hi)%list_elem_of_bind. apply ag_blks_elem. exists x. split; [by apply Hin|done]. }
  assert (sb ∈ ag_sbs ag) as Hsb by (rewrite Es; apply elem_of_app; right; by left).
  assert (Z.of_nat (length (ag_sbs ag)) = Z.of_nat (length (S1 ++ S2)) + 1) as El.
  { rewrite Es, !length_app. cbn. lia. }
  assert (forall x, x ∈ S1 ++ S2 -> rdisj (sb_reg x) (sb_reg sb)) as Hne by (intros x Hi; by apply (sbs_others _ _ _ _ _ Hok S1 sb S2 x)).
  destruct H3 as (C1 & C2 & C3 & C4). split; cbn; try done.
  - rewrite HL. lia.
  - rewrite Es in H5. rewrite StronglySorted_app in *. destruct H5 as (K1 & K2 & K3). apply StronglySorted_inv in K3 as [K3 _].
    split_and!; try done. intros x y Hx' Hy. apply K1; [done|by right].
  - intros x Hi. destruct (H6 x (Hin x Hi)) as [Hw [E1 E2]]. split; [done|].
    split; [rewrite <- E1|rewrite <- E2]; apply load_le_ext; intros z Hz; apply Hx;
      intros (c & Hc & _ & Hci)%(free_link _ _ _ _ _ Hok);
      (apply (header_apart _ _ _ _ _ Hok x c z); [by apply Hin|done|unfold spay; lia|done]).
  - intros b Hb Hu. apply Hbin in Hb. eapply (blk_in_ext _ m); [done|exact (blks_wf _ _ _ _ _ Hok b Hb)| |by apply H9]. intros x Hi. apply Hx.
    intros (c & Hc & Hcf & Hci)%(free_link _ _ _ _ _ Hok). destruct (blks_apart _ _ _ _ _ Hok) as [_ Hdj].
    assert (bdisj b c) as Hbc by (apply Hdj; [done|done|congruence]). unfold bdisj, in_blk in *. lia.
  - intros r Hr. assert (r ∈ ag_regions ag /\ rdisj r (sb_reg sb)) as [Hr1 Hr2].
    { unfold ag_regions in *. cbn in Hr. rewrite elem_of_app, list_elem_of_fmap in Hr. rewrite elem_of_app, list_elem_of_fmap. destruct Hr as [(x & -> & Hi)|Hr].
      - split; [left; exists x; split; [done|by apply Hin]|by apply Hne].
      - split; [by right|by apply (proj1 (H12 r Hr))]. }
    destruct (H11 r Hr1) as (? & ? & ? & ?). split_and!; try done. by apply Hmp.
  - intros r Hr. destruct (H12 r Hr) as [K1 K2]. split; [|done]. intros x Hi. by apply K1, Hin.
  - by destruct H13.
Qed.
End Arenas.
