(* ===== verification/MallocSb.v ===== *)
(** The superblocks of the core's heap: the sorted array that holds their
    addresses, the search in it, and how superblocks come and go. *)
From stdpp Require Import base list sorting.
From Stdlib Require Import ZArith Lia.
From S2P Require Import Prelude Mem LibcMem Malloc MallocBlocks MallocLists MallocInv.
Open Scope prog_scope.
Open Scope Z_scope.

(** ** The array *)

Lemma find_index_at n l sb i j : (j < n)%nat -> l !! (i + j)%nat = Some sb ->
  (forall k x, (k < j)%nat -> l !! (i + k)%nat = Some x -> x <> sb) ->
  (forall k, (k < j)%nat -> is_Some (l !! (i + k)%nat)) -> find_index n l sb i = Some (i + j)%nat.
Proof.
  revert i j. induction n as [|n IH]; intros i j Hj Hl Hne Hs; [lia|]. cbn [find_index]. destruct j as [|j].
  - rewrite Nat.add_0_r in *. rewrite Hl. by rewrite Z.eqb_refl.
  - destruct (Hs O ltac:(lia)) as [x Hx]. rewrite Nat.add_0_r in Hx. rewrite Hx.
    rewrite (proj2 (Z.eqb_neq _ _)) by (apply (Hne O x); [lia|by rewrite Nat.add_0_r]).
    replace (i + S j)%nat with (S i + j)%nat by lia. apply IH; [lia|by replace (S i + j)%nat with (i + S j)%nat by lia|..].
    + intros k y Hk Hy. apply (Hne (S k) y); [lia|]. by replace (i + S k)%nat with (S i + k)%nat by lia.
    + intros k Hk. replace (S i + k)%nat with (i + S k)%nat by lia. apply Hs. lia.
Qed.

Lemma shift_down_length n l j : length (shift_down n l j) = length l.
Proof. revert l j. induction n as [|n IH]; intros l j; [done|]. cbn [shift_down]. by rewrite IH, length_insert. Qed.

Lemma shift_down_at n l j k : (j + n <= length l)%nat ->
  shift_down n l j !! k = if decide (j <= k < j + n)%nat then Some (default 0 (l !! S k)) else l !! k.
Proof.
  revert l j. induction n as [|n IH]; intros l j Hl; cbn [shift_down]; [case_decide; [lia|done]|].
  rewrite IH by (rewrite length_insert; lia). destruct (decide (k = j)) as [->|Hne].
  - rewrite decide_False by lia. rewrite decide_True by lia. by rewrite list_lookup_insert_eq by lia.
  - repeat case_decide; try lia; by rewrite !list_lookup_insert_ne by lia.
Qed.

(** An entry of the array is removed. *)
Lemma removed_array (l : list Z) (n : nat) (u v : list Z) (x : Z) : take n l = u ++ x :: v -> (n <= length l)%nat -> n = length (u ++ x :: v) ->
  take (n - 1) (<[(n - 1)%nat := 0]> (shift_down (n - length u) l (length u))) = u ++ v.
Proof.
  intros Ht Hn En. rewrite length_app in En. cbn in En. apply list_eq. intros k.
  destruct (decide (k < n - 1)%nat) as [Hk|Hk].
  - rewrite lookup_take_lt, list_lookup_insert_ne, shift_down_at by lia.
    assert (forall j, (j < n)%nat -> l !! j = (u ++ x :: v) !! j) as El. { intros j Hj. rewrite <- Ht. by rewrite lookup_take_lt. }
    case_decide.
    + rewrite El, (lookup_app_r u) by lia. replace (S k - length u)%nat with (S (k - length u)) by lia.
      assert ((x :: v) !! S (k - length u) = v !! (k - length u)%nat) as -> by done.
      rewrite lookup_app_r by lia. destruct (lookup_lt_is_Some_2 v (k - length u)) as [y Hy]; [lia|]. by rewrite Hy.
    + rewrite El by lia. by rewrite !lookup_app_l by lia.
  - rewrite lookup_take_ge by lia. symmetry. apply lookup_ge_None_2. rewrite length_app. lia.
Qed.

(** A new entry [y] between the smaller and the greater ones *)
Lemma insert_down_spec (u : list Z) (y : Z) v : forall l, take (length (u ++ v)) l = u ++ v -> (length (u ++ v) < length l)%nat ->
  Forall (fun x => x <= y) u -> Forall (fun x => y < x) v ->
  insert_down (length (u ++ v)) l y = u ++ y :: v ++ drop (S (length (u ++ v))) l.
Proof.
  induction v as [|z v IH] using rev_ind; intros l Ht Hl Hu Hv.
  - rewrite app_nil_r in *. cbn [app].
    assert (insert_down (length u) l y = <[length u := y]> l) as ->; [|by rewrite insert_take_drop, Ht by done].
    destruct u as [|w u _] using rev_ind; [done|]. rewrite length_app, Nat.add_1_r in *. cbn [insert_down].
    assert (l !! length u = Some w) as Hw.
    { rewrite <- (lookup_take_lt _ (S (length u))), Ht by lia. by apply list_lookup_middle. }
    rewrite Hw. apply Forall_app in Hu as [_ Hu]. apply Forall_cons in Hu as [Hu _]. by rewrite (proj2 (Z.ltb_ge _ _) Hu).
  - rewrite (app_assoc u v [z]), (length_app (u ++ v) [z]) in *. cbn [length] in *. rewrite !Nat.add_1_r in *. set (j := length (u ++ v)) in *. cbn [insert_down].
    assert (l !! j = Some z) as Hz.
    { rewrite <- (lookup_take_lt _ (S j)), Ht by lia. by apply list_lookup_middle. }
    rewrite Hz. apply Forall_app in Hv as [Hv Hvz]. apply Forall_cons in Hvz as [Hvz _]. rewrite (proj2 (Z.ltb_lt _ _) Hvz).
    assert (take j l = u ++ v) as Ht'.
    { apply (f_equal (take j)) in Ht. rewrite take_take, take_app_length' in Ht by done. by replace (j `min` S j)%nat with j in Ht by lia. }
    rewrite IH; [|by rewrite take_insert_ge by lia|by rewrite length_insert; lia|done|done].
    rewrite <- app_assoc. cbn [app]. do 3 f_equal.
    rewrite insert_take_drop, drop_app_length' by (rewrite ?length_take; lia). done.
Qed.

Section Superblocks.
Context {OS : Type} `{AddressSpaceLaws OS}.
Implicit Types (m : gmem) (o : OS) (A : Arena) (ag : aghost) (b c : blk) (sb : sblk).

(** ** Facts *)

Lemma sorted_lookup (l : list sblk) i j x y : StronglySorted slt l -> l !! i = Some x -> l !! j = Some y -> (i < j)%nat -> slt x y.
Proof using Type.
  intros Hs. revert i j. induction Hs as [|z l Hs IH Hz]; intros i j Hx Hy Hij; [done|].
  destruct j as [|j]; [lia|]. destruct i as [|i]; [|apply (IH i j); [done|done|lia]].
  injection Hx as ->. rewrite Forall_forall in Hz. apply Hz. by eapply list_elem_of_lookup_2.
Qed.

(** There are fewer superblocks than addresses. *)
Lemma sbs_count hp m o A ag : arena_ok hp m o A ag -> Z.of_nat (length (ag_sbs ag)) < 2 ^ 62.
Proof using Type.
  intros Hok. pose proof (ao_sorted _ _ _ _ _ Hok) as Hs. pose proof (fun sb Hi => proj1 (ao_sbs _ _ _ _ _ Hok sb Hi)) as Hw.
  assert (forall lo l, StronglySorted slt l -> (forall sb, sb ∈ l -> sb_wf (geo_of hp A) sb /\ lo <= saddr sb) -> lo < 2 ^ 64 ->
    lo + 32 * Z.of_nat (length l) < 2 ^ 64 + 32) as Hc.
  { clear. intros lo l. revert lo. induction l as [|x l IH]; intros lo Hs Hl Hlo; [cbn; lia|].
    apply StronglySorted_inv in Hs as [Hs Hx]. rewrite Forall_forall in Hx. destruct (Hl x ltac:(by left)) as [[] Hlx].
    specialize (IH (send x) Hs). cbn [length]. assert (send x + 32 * Z.of_nat (length l) < 2 ^ 64 + 32); [|unfold send in *; lia].
    apply IH; [|done]. intros y Hy. split; [by apply Hl; right|by apply Hx]. }
  specialize (Hc 0 (ag_sbs ag) Hs). assert (0 + 32 * Z.of_nat (length (ag_sbs ag)) < 2 ^ 64 + 32); [|lia].
  apply Hc; [|lia]. intros sb Hi. split; [by apply Hw|]. destruct (Hw sb Hi). lia.
Qed.

Lemma array_lookup hp m o A ag i sb : arena_ok hp m o A ag -> ag_sbs ag !! i = Some sb -> sblocks A !! i = Some (saddr sb).
Proof using Type.
  intros Hok Hi. assert (i < length (ag_sbs ag))%nat as Hl by (by eapply lookup_lt_Some).
  rewrite <- (lookup_take_lt (sblocks A) (length (ag_sbs ag))), (ao_array _ _ _ _ _ Hok), list_lookup_fmap, Hi by done. done.
Qed.

(** An address is within the payload of one superblock only. *)
Lemma payload_sb hp m o A ag sb x y : arena_ok hp m o A ag -> sb ∈ ag_sbs ag -> x ∈ ag_sbs ag ->
  spay sb <= y < send sb -> spay x <= y < send x -> x = sb.
Proof using Type.
  intros Hok Hs Hx H1 H2. destruct (sbs_apart _ _ _ _ _ Hok x sb Hx Hs) as [|Hd]; [done|].
  unfold rdisj, sb_reg, spay, send in *. cbn in *. lia.
Qed.

(** An arena may lose free superblocks, its free blocks be merged, and its
    lists be rearranged; *)
Record shrunk A ag A' ag' : Prop := {
  sh_geo : rz_szB A' = rz_szB A /\ clientmem A' = clientmem A /\ min_sblock_szB A' = min_sblock_szB A /\
    min_unsplittable_sblock_szB A' = min_unsplittable_sblock_szB A /\ sblocks_size A' = sblocks_size A /\
    bytes_on_loan (stats A') = bytes_on_loan (stats A) /\ perm_bytes_on_loan (stats A') = perm_bytes_on_loan (stats A);
  sh_used : filter is_used (ag_blks ag') = filter is_used (ag_blks ag);
  sh_free b x : b ∈ ag_blks ag' -> is_free b -> in_blk b x -> exists c, c ∈ ag_blks ag /\ is_free c /\ in_blk c x;
  sh_regs r : r ∈ ag_regions ag' -> r ∈ ag_regions ag;
  sh_perm : ag_perm ag' = ag_perm ag /\ ag_chunks ag' = ag_chunks ag;
  sh_count : (length (ag_sbs ag') <= length (ag_sbs ag))%nat
}.

(** memory changes in its free blocks only. *)
Record quiet m o A ag m' o' A' ag' : Prop := {
  qu_bytes : bytes_ok m';
  qu_shrunk : shrunk A ag A' ag';
  qu_mem x : (forall b, b ∈ ag_blks ag -> is_free b -> ~ in_blk b x) -> m' x = m x;
  qu_mapped cl q k : 0 < k -> mapped o cl q k -> (forall r, r ∈ ag_regions ag -> rdisj r (q, k)) -> mapped o' cl q k;
  qu_space k : core_space o k -> core_space o' k
}.

Lemma shrunk_refl A ag : shrunk A ag A ag.
Proof using Type. split; try done. intros b x Hb Hf Hx. by exists b. Qed.

Lemma shrunk_deferred d A ag A' ag' : shrunk A ag A' ag' -> shrunk A ag (set_deferred d A') ag'.
Proof using Type. by intros []; split. Qed.

Lemma shrunk_trans A ag A1 ag1 A2 ag2 : shrunk A ag A1 ag1 -> shrunk A1 ag1 A2 ag2 -> shrunk A ag A2 ag2.
Proof using Type.
  intros [(G1 & G2 & G3 & G4 & G5 & G6 & G7) U1 K1 R1 (E1 & E2) N1] [(F1 & F2 & F3 & F4 & F5 & F6 & F7) U2 K2 R2 (D1 & D2) N2].
  split; [split_and!; congruence|congruence| |intros r Hr; by apply R1, R2|split; congruence|lia].
  intros b x Hb Hf Hx. destruct (K2 b x Hb Hf Hx) as (c & Hc & Hcf & Hcx). by apply (K1 c).
Qed.

Lemma quiet_refl m o A ag : bytes_ok m -> quiet m o A ag m o A ag.
Proof using Type. intros Hm. split; try done. apply shrunk_refl. Qed.

Lemma quiet_trans m o A ag m1 o1 A1 ag1 m2 o2 A2 ag2 : quiet m o A ag m1 o1 A1 ag1 -> quiet m1 o1 A1 ag1 m2 o2 A2 ag2 ->
  quiet m o A ag m2 o2 A2 ag2.
Proof using Type.
  intros [B1 H1 M1 P1 S1] [B2 H2 M2 P2 S2]. split; [done|by eapply shrunk_trans|..].
  - intros x Hx. rewrite M2; [by apply M1|]. intros b Hb Hf Hi. destruct (sh_free _ _ _ _ H1 b x Hb Hf Hi) as (c & Hc & Hcf & Hci). by apply (Hx c).
  - intros c q k Hk Hmp Hr. apply P2; [done|by apply P1|]. intros r Hr'. by apply Hr, H1.
  - intros k Hk. by apply S2, S1.
Qed.

(** The accounts of what is on loan are as they were. *)
Lemma quiet_inv hp m o A ag m' o' A' ag' : accounts hp A ag -> quiet m o A ag m' o' A' ag' -> arena_rest hp m' o' A' ag' -> arena_inv hp m' o' A' ag'.
Proof using Type.
  intros [C _] [_ [(E1 & E2 & _ & _ & _ & E3 & E4) U _ _ _ _] _ _ _] (Hok & Hty & Hm). split; [done|]. split; [done|]. split; [|done].
  rewrite E3, C, E4. unfold loaned, geo_of. by rewrite U, E1, E2.
Qed.

(** The superblock of an address *)
Lemma sb_of_addr hp m o A ag x y : arena_ok hp m o A ag -> x ∈ ag_sbs ag -> y ∈ ag_sbs ag -> saddr x = saddr y -> x = y.
Proof using Type.
  intros Hok Hx Hy E. destruct (sbs_apart _ _ _ _ _ Hok x y Hx Hy) as [|Hd]; [done|].
  destruct (ao_sbs _ _ _ _ _ Hok x Hx) as [[] _]. destruct (ao_sbs _ _ _ _ _ Hok y Hy) as [[] _].
  unfold rdisj, sb_reg in Hd. cbn in Hd. lia.
Qed.

(** The first block of a superblock *)
Lemma first_blk hp m o A ag sb : arena_ok hp m o A ag -> sb ∈ ag_sbs ag ->
  exists b l, sblks sb = b :: l /\ baddr b = spay sb /\ b ∈ ag_blks ag /\ (bend b = send sb -> l = []) /\ (l = [] -> bend b = send sb).
Proof using Type.
  intros Hok Hs. destruct (ao_sbs _ _ _ _ _ Hok sb Hs) as [Hw _]. pose proof (sw_tiles _ _ Hw) as Ht.
  pose proof (sw_bytes _ _ Hw). destruct (sblks sb) as [|b l] eqn:E; cbn in Ht; [unfold spay, send in *; lia|].
  destruct Ht as [E1 Ht]. exists b, l. split_and!; try done.
  - apply ag_blks_elem. exists sb. split; [done|]. rewrite E. by left.
  - intros Eb. destruct (tiles_bounds _ _ _ _ (ao_geo _ _ _ _ _ Hok) (fun c Hc => sw_blks _ _ Hw c ltac:(rewrite E; by right)) Ht) as (Hl & _).
    destruct l; [done|cbn in Hl; lia].
  - intros ->. done.
Qed.

Lemma arena_ok_deferred hp m o A ag d : arena_ok hp m o A ag ->
  (d = 0 \/ exists sb, sb ∈ ag_sbs ag /\ d = saddr sb /\ sunsplit sb = false) -> arena_ok hp m o (set_deferred d A) ag.
Proof using Type. intros Hok Hd. destruct Hok as [? ? ? ? ? ? ? ? ? ? ? ? Hp]. split; try done. by destruct Hp. Qed.

Lemma mapped_bytes_remove ag S1 sb S2 fl ch : ag_sbs ag = S1 ++ sb :: S2 ->
  mapped_bytes ag = mapped_bytes (AG (S1 ++ S2) fl (ag_perm ag) ch) + (32 + sbytes sb).
Proof using Type.
  intros Es. unfold mapped_bytes, ag_regions. cbn [ag_sbs ag_perm]. rewrite Es, !fmap_app, fmap_cons, !sumZ_app.
  change (sumZ snd (sb_reg sb :: (sb_reg <$> S2))) with (32 + sbytes sb + sumZ snd (sb_reg <$> S2)). lia.
Qed.

Lemma filter_used_remove S1 sb S2 : (forall b, b ∈ sblks sb -> is_free b) ->
  filter is_used ((S1 ++ S2) ≫= sblks) = filter is_used ((S1 ++ sb :: S2) ≫= sblks).
Proof using Type.
  intros Hf. rewrite !bind_app, !filter_app. cbn. rewrite filter_app.
  assert (filter is_used (sblks sb) = []) as ->; [|done].
  destruct (filter is_used (sblks sb)) as [|b l] eqn:E; [done|]. assert (b ∈ filter is_used (sblks sb)) as Hb by (rewrite E; by left).
  apply list_elem_of_filter in Hb as [Hu Hb]. specialize (Hf b Hb). unfold is_free, is_used in *. congruence.
Qed.

Section Ops.
Context (a : nat) (s : mst (OS := OS)).
Context (Ha : (a < length (vg_arena s))%nat).
Abbreviation hp := (hp_overhead_szB s).
Abbreviation St A m o := (at_arena a A m o s).

(** ** Searching *)

Lemma wp_findSb_loop A m o ag sb i (b : Z) Q : arena_ok hp m o A ag -> ag_sbs ag !! i = Some sb -> spay sb <= b < send sb ->
  Q (saddr sb) (St A m o) -> forall fuel min max, 0 <= min <= Z.of_nat i -> Z.of_nat i <= max <= sblocks_used A ->
  max - min < Z.of_nat fuel -> wp (findSb_loop fuel A b min max) (St A m o) Q.
Proof using Ha.
  intros Hok Hi Hb HQ fuel. pose proof (sbs_count _ _ _ _ _ Hok) as Hcount.
  destruct (ao_count _ _ _ _ _ Hok) as (Eu & _). pose proof (lookup_lt_Some _ _ _ Hi) as Hil.
  induction fuel as [|fuel IH]; intros min max Hmin Hmax Hf; [lia|]. cbn [findSb_loop].
  rewrite (proj2 (Z.ltb_ge _ _)) by lia. rewrite (u64_small (max - min)) by lia.
  pose proof (Z.div_mod (max - min) 2 ltac:(lia)) as Hdm. pose proof (Z.mod_pos_bound (max - min) 2 ltac:(lia)) as Hmb.
  set (pos := u64 (min + (max - min) / 2)). assert (pos = min + (max - min) / 2) as Ep by (apply u64_small; lia).
  assert (min <= pos /\ pos <= max /\ pos < sblocks_used A) as (Hp1 & Hp2 & Hp3) by lia.
  apply wp_bind, wp_m_assert; [by apply Z.ltb_lt|].
  destruct (lookup_lt_is_Some_2 (ag_sbs ag) (Z.to_nat pos)) as [x Hx]; [lia|].
  rewrite (array_lookup _ _ _ _ _ _ _ Hok Hx). apply wp_bind, wp_ld.
  assert (sb ∈ ag_sbs ag) as Hs by (by eapply list_elem_of_lookup_2). assert (x ∈ ag_sbs ag) as Hxs by (by eapply list_elem_of_lookup_2).
  destruct (ao_sbs _ _ _ _ _ Hok x Hxs) as [Hw [-> _]]. unfold payload_bytes. change (saddr x + 32) with (spay x).
  assert (spay x + sbytes x = send x) as -> by done.
  destruct (Z.leb_spec (spay x) b); [destruct (Z.ltb_spec b (send x))|]; cbn [andb].
  - apply wp_ret. assert (x = sb) as -> by (by eapply payload_sb). done.
  - assert (pos < Z.of_nat i) as Hlt.
    { destruct (Z.lt_trichotomy pos (Z.of_nat i)) as [|[E|Hgt]]; [done|exfalso|exfalso].
      - rewrite E, Nat2Z.id, Hi in Hx. injection Hx as ->. lia.
      - assert (slt sb x) by (eapply sorted_lookup; [by apply Hok|exact Hi|exact Hx|lia]). unfold slt, spay in *. lia. }
    rewrite u64_small by lia. apply IH; lia.
  - assert (Z.of_nat i < pos) as Hlt.
    { destruct (Z.lt_trichotomy pos (Z.of_nat i)) as [Hgt|[E|]]; [exfalso|exfalso|done].
      - assert (slt x sb) by (eapply sorted_lookup; [by apply Hok|exact Hx|exact Hi|lia]).
        pose proof (sw_bytes _ _ Hw). unfold slt, spay, send in *. lia.
      - rewrite E, Nat2Z.id, Hi in Hx. injection Hx as ->. lia. }
    rewrite u64_small by lia. apply IH; lia.
Qed.

Lemma wp_findSb A m o ag sb (b : Z) Q : arena_ok hp m o A ag -> sb ∈ ag_sbs ag -> spay sb <= b < send sb ->
  Q (saddr sb) (St A m o) -> wp (findSb a b) (St A m o) Q.
Proof using Ha.
  intros Hok [i Hi]%list_elem_of_lookup Hb HQ. apply wp_bind, wp_the_arena; [done|].
  destruct (ao_count _ _ _ _ _ Hok) as (Eu & _). pose proof (lookup_lt_Some _ _ _ Hi) as Hil.
  eapply wp_findSb_loop; [done..|lia|lia|lia].
Qed.

(** ** Checks *)

Lemma wp_redzones_ok g b A m o Q n : geo_ok g -> hp = g_hp g -> blk_wf g b -> tagged g m b -> redzones g m b ->
  forall i, 0 <= i -> i + Z.of_nat n <= g_rz g -> Q true (St A m o) -> wp (redzones_ok n (baddr b) i) (St A m o) Q.
Proof using Ha.
  intros Hg Hhp Hb Ht Hr. induction n as [|n IH]; intros i Hi Hn HQ; cbn [redzones_ok]; [by apply wp_ret|].
  destruct (Hr i ltac:(lia)) as [E1 E2]. apply wp_bind. unfold get_rz_lo_byte. eapply (wp_hp a s g); [done..|]. apply wp_gets.
  cbn [hmem at_arena]. rewrite E1, Z.eqb_refl. cbn [negb].
  apply wp_bind. unfold get_rz_hi_byte. apply wp_bind. eapply (wp_get_bszB a s g); [done..|]. apply wp_gets. cbn [hmem at_arena].
  rewrite E2, Z.eqb_refl. cbn [negb]. apply IH; [lia..|done].
Qed.

(** The checks of a block succeed. *)
Lemma wp_blockSane b A m o Q : let g := geo_of hp A in geo_ok g -> blk_wf g b -> tagged g m b -> (bused b = true -> blk_in g m b) ->
  Q true (St A m o) -> wp (blockSane a (baddr b)) (St A m o) Q.
Proof using Ha.
  intros g Hg Hb Ht Hin HQ. apply wp_bind, wp_the_arena; [done|]. destruct (clientmem A) eqn:Ec; [by apply wp_ret|].
  apply wp_bind. eapply (wp_is_inuse a s g); [done..|]. destruct (bused b) eqn:Eu; [|by apply wp_ret].
  destruct (Hin eq_refl) as [_ Hr]. pose proof (geo_sizes g Hg). pose proof (proj1 (proj2 Hg)).
  apply (wp_redzones_ok g); [done|done|done|done|by apply Hr|lia|unfold g in *; cbn in *; lia|done].
Qed.

(** A superblock with one block that is in use passes its check. *)
Lemma wp_unsplittableBlockSane sb b A m o ag Q : arena_ok hp m o A ag -> sb ∈ ag_sbs ag -> sblks sb = [b] -> bused b = true ->
  sunsplit sb = true -> Q true (St A m o) -> wp (unsplittableBlockSane a (saddr sb) (baddr b)) (St A m o) Q.
Proof using Ha.
  intros Hok Hs Eb Hu Hun HQ. set (g := geo_of hp A). pose proof (ao_geo _ _ _ _ _ Hok) as Hg.
  assert (b ∈ ag_blks ag) as Hb by (apply ag_blks_elem; exists sb; split; [done|rewrite Eb; by left]).
  pose proof (blks_wf _ _ _ _ _ Hok b Hb) as Hw. destruct (ao_used _ _ _ _ _ Hok b Hb Hu) as [Ht Hr].
  destruct (ao_sbs _ _ _ _ _ Hok sb Hs) as [Hws [E1 E2]]. rewrite Hun in E2.
  pose proof (sw_tiles _ _ Hws) as Htl. rewrite Eb in Htl. cbn in Htl. destruct Htl as [Eb1 Eb2].
  apply wp_bind, wp_blockSane; [done..|]. cbn [negb]. apply wp_bind, wp_ld. rewrite E2, Z.eqb_refl. cbn [negb].
  apply wp_bind, wp_ld. rewrite E1. unfold payload_bytes. change (saddr sb + 32) with (spay sb).
  rewrite Eb1, Z.eqb_refl. cbn [negb]. apply wp_bind. eapply (wp_get_bszB a s g) with (b := b); [done|done|done|by rewrite Eb1|done|done|]. apply wp_ret.
  unfold bend, send, spay in *. rewrite (proj2 (Z.eqb_eq _ _)) by lia. done.
Qed.

(** ** A superblock is given back *)

(** What the reclaim does to the statistics *)
Record reclaimed (st st' : Stats) (n : Z) : Prop := {
  rc_mapped : bytes_mmaped st' = u64 (bytes_mmaped st - n);
  rc_loan : bytes_on_loan st' = bytes_on_loan st;
  rc_perm : perm_bytes_on_loan st' = perm_bytes_on_loan st
}.

Lemma wp_reclaimSuperblock A m o ag S1 sb S2 Q : arena_ok hp m o A ag -> ag_sbs ag = S1 ++ sb :: S2 -> forall F m1,
  sb_in m1 sb ->
  (forall o' L st, am_munmap (clientmem A) (saddr sb) (32 + sbytes sb) o = Some o' -> length L = length (sblocks A) ->
     take (length (S1 ++ S2)) L = saddr <$> (S1 ++ S2) -> reclaimed (stats A) st (32 + sbytes sb) ->
     Q tt (St (set_stats st (set_sblocks L (sblocks_size A) (sblocks_used A - 1) (set_freelist F A))) m1 o')) ->
  wp (reclaimSuperblock a (saddr sb)) (St (set_freelist F A) m1 o) Q.
Proof using All.
  intros Hok Es F m1 [E1 E2] HQ. pose proof (ao_array _ _ _ _ _ Hok) as Har.
  destruct (ao_count _ _ _ _ _ Hok) as (C1 & C2 & C3 & _).
  assert (sb ∈ ag_sbs ag) as Hsb by (rewrite Es; apply elem_of_app; right; by left).
  destruct (ao_sbs _ _ _ _ _ Hok sb Hsb) as [Hw _]. pose proof (sw_end _ _ Hw). pose proof (sw_pos _ _ Hw). pose proof (sw_bytes _ _ Hw).
  assert (Z.to_nat (sblocks_used A) = length (ag_sbs ag)) as Eu by lia.
  rewrite Es in Har, Eu. rewrite length_app in Eu. cbn [length] in Eu.
  assert (forall k x, (k < length S1)%nat -> sblocks A !! k = Some x -> x <> saddr sb) as Hne.
  { intros k x Hk Hx ->. destruct (lookup_lt_is_Some_2 S1 k Hk) as [y Hy].
    assert (sblocks A !! k = Some (saddr y)) as Hy'.
    { eapply array_lookup; [done|]. rewrite Es. by rewrite lookup_app_l. }
    assert (slt y sb) as Hs. { pose proof (ao_sorted _ _ _ _ _ Hok) as Hs. rewrite Es in Hs.
      eapply StronglySorted_app_1_elem_of; [exact Hs|by eapply list_elem_of_lookup_2|by left]. }
    assert (y ∈ ag_sbs ag) as Hyin by (rewrite Es; apply elem_of_app; left; by eapply list_elem_of_lookup_2).
    destruct (ao_sbs _ _ _ _ _ Hok y Hyin) as [[] _]. unfold slt, send in *. simplify_eq. lia. }
  unfold reclaimSuperblock. apply wp_bind, wp_ld. rewrite E1. unfold send, sizeof_Superblock in *. rewrite u64_small by lia.
  apply wp_bind, wp_the_arena; [done|]. cbn [sblocks_used sblocks set_freelist].
  rewrite (find_index_at _ _ _ 0 (length S1)).
  2: lia.
  2: { apply (array_lookup _ _ _ _ _ _ _ Hok). rewrite Es. by apply list_lookup_middle. }
  2: { intros k x Hk. by apply Hne. }
  2: { intros k Hk. destruct (lookup_lt_is_Some_2 S1 k Hk) as [y Hy]. exists (saddr y). eapply array_lookup; [done|].
       rewrite Es. by rewrite lookup_app_l. }
  cbn [Nat.add].
  assert (forall L, L = <[(Z.to_nat (sblocks_used A) - 1)%nat := 0]> (shift_down (Z.to_nat (sblocks_used A) - length S1) (sblocks A) (length S1)) ->
    length L = length (sblocks A) /\ take (length (S1 ++ S2)) L = saddr <$> (S1 ++ S2)) as HL.
  { intros L ->. rewrite length_insert, shift_down_length. split; [done|].
    replace (length (S1 ++ S2)) with (Z.to_nat (sblocks_used A) - 1)%nat by (rewrite length_app; lia).
    rewrite <- (length_fmap saddr S1), fmap_app. apply (removed_array _ _ _ _ (saddr sb)).
    - rewrite length_app in Har. cbn [length] in Har. rewrite Eu, Har, fmap_app. done.
    - lia.
    - rewrite length_app. cbn. rewrite !length_fmap. lia. }
  destruct (HL _ eq_refl) as [HL1 HL2]. 
  apply wp_bind, wp_on_arena; [done|]. apply wp_bind, wp_on_stats; [done|]. apply wp_bind, wp_ld. rewrite E2.
  apply wp_bind, wp_on_stats; [done|]. apply wp_bind, wp_gets. cbn [os at_arena clientmem set_freelist].
  assert (mapped o (clientmem A) (saddr sb) (32 + sbytes sb)) as Hmp.
  { apply (ao_mapped _ _ _ _ _ Hok (sb_reg sb)). apply elem_of_app. left. apply list_elem_of_fmap. by exists sb. }
  destruct (munmap_ok (clientmem A) (saddr sb) (32 + sbytes sb) o ltac:(lia) Hmp) as (o' & Eo & _). rewrite Eo.
  apply wp_modify. unfold set_os. cbn [os at_arena hmem vg_arena client_inited nonclient_inited hp_overhead_szB client_rz_szB].
  refine (HQ o' _ _ Eo HL1 HL2 _). destruct ((if sunsplit sb then saddr sb else 0) =? 0); done.
Qed.

(** The free superblock [D] goes. *)
Lemma wp_reclaim_free A m o ag S1 D S2 b Q : arena_ok hp m o A ag -> mapped_ok A ag -> bytes_ok m -> ag_sbs ag = S1 ++ D :: S2 ->
  sblks D = [b] -> is_free b ->
  (forall m' o' A' ag', arena_ok hp m' o' A' ag' -> mapped_ok A' ag' -> quiet m o A ag m' o' A' ag' ->
     ag_sbs ag' = S1 ++ S2 -> deferred_reclaimed_sb A' = 0 -> Q tt (St A' m' o')) ->
  wp (unlinkBlock a (baddr b) (listNo (bsz b - g_ovh (geo_of hp A))) ;;; reclaimSuperblock a (saddr D) ;;; on_arena a (set_deferred 0)) (St A m o) Q.
Proof using All.
  intros Hok Hac Hm Es Eb Hf HQ. pose (g := geo_of hp A). pose proof (ao_geo _ _ _ _ _ Hok) as Hg.
  assert (D ∈ ag_sbs ag) as HD by (rewrite Es; apply elem_of_app; right; by left).
  assert (b ∈ ag_blks ag) as Hb by (apply ag_blks_elem; exists D; split; [done|rewrite Eb; by left]).
  assert (b ∈ mjoin (ag_fl ag)) as Hbf by (by apply (free_elem _ _ _ _ _ Hok)).
  pose proof (ao_lists _ _ _ _ _ Hok) as Hl. apply wp_bind. eapply (wp_take_listed a s g); [done..|].
  intros m1 F1 fl' Hm1 Hl1 Hjoin Hx1'.
  assert (sb_in m1 D) as HD1.
  { destruct (ao_sbs _ _ _ _ _ Hok D HD) as [_ [E1 E2]]. split; [rewrite <- E1|rewrite <- E2]; apply load_le_ext; intros z Hz; apply Hx1';
      intros (c & Hc & _ & Hci)%(free_link _ _ _ _ _ Hok);
      (apply (header_apart _ _ _ _ _ Hok D c z); [done|done|unfold spay; lia|done]). }
  apply wp_bind. eapply wp_reclaimSuperblock; [exact Hok|exact Es|exact HD1|]. intros o' L st Eo HL1 HL2 [R1 R2 R3].
  destruct (ao_sbs _ _ _ _ _ Hok D HD) as [Hw _]. pose proof (sw_bytes _ _ Hw).
  assert (sb_reg D ∈ ag_regions ag) as HDr by (apply elem_of_app; left; apply list_elem_of_fmap; by exists D).
  destruct (munmap_ok (clientmem A) (saddr D) (32 + sbytes D) o ltac:(lia)) as (o2 & Eo2 & Hmp & Hsp);
    [by apply (ao_mapped _ _ _ _ _ Hok (sb_reg D))|]. assert (o2 = o') as -> by congruence.
  apply wp_on_arena; [done|]. set (A' := set_deferred 0 _).
  assert (filter is_used ((S1 ++ S2) ≫= sblks) = filter is_used (ag_blks ag)) as Hu.
  { unfold ag_blks. rewrite Es. apply filter_used_remove. rewrite Eb. by intros c ->%list_elem_of_singleton. }
  apply (HQ m1 o' A' (AG (S1 ++ S2) fl' (ag_perm ag) (ag_chunks ag))); [| | |done|done].
  - eapply (arena_remove hp m o A ag S1 D S2 m1 o' _ st L 0 fl'); [done..| |done| |done|done|by left].
    + apply (Permutation_cons_inv (a := b)). rewrite <- Hjoin, (ao_free _ _ _ _ _ Hok). unfold ag_blks.
      rewrite Es, !bind_app. cbn. rewrite Eb, !filter_app. cbn [filter list_filter app]. rewrite decide_True by done.
      cbn. by rewrite <- Permutation_middle.
    + intros r Hr Hd Hmr. apply Hmp; [by apply (ao_mapped _ _ _ _ _ Hok)|done|]. unfold rdisj, sb_reg in Hd. cbn in Hd. lia.
  - unfold mapped_ok in *. cbn. rewrite R1, Hac, (mapped_bytes_remove ag S1 D S2 fl' (ag_chunks ag) Es). unfold u64. rewrite Zminus_mod_idemp_l. by rewrite Z.add_simpl_r.
  - split; try done.
    + split; try done.
      * intros c x Hc Hcf Hcx. exists c. split; [|done]. unfold ag_blks in *. cbn in Hc. rewrite Es. rewrite !bind_app, !elem_of_app in *. cbn.
        rewrite elem_of_app. tauto.
      * intros r. unfold ag_regions. cbn. rewrite Es, !fmap_app, fmap_cons, !elem_of_app, elem_of_cons. tauto.
      * cbn. rewrite Es, !length_app. cbn. lia.
    + intros x Hx. apply Hx1'. intros (c & Hc & Hcf & Hci)%(free_link _ _ _ _ _ Hok). by apply (Hx c).
    + intros c q k Hk Hmq Hr. apply Hmp; [done|done|]. specialize (Hr _ HDr). unfold rdisj, sb_reg in Hr. cbn in Hr. lia.
Qed.

(** The superblock that was deferred goes if it is still free; [new], or none,
    is deferred instead. *)
Lemma wp_deferred_reclaim A m o ag new Q : arena_ok hp m o A ag -> mapped_ok A ag -> bytes_ok m ->
  arena_tidy (fun p => p = deferred_reclaimed_sb A \/ p = new) ag ->
  (new = 0 \/ exists sb, sb ∈ ag_sbs ag /\ new = saddr sb /\ sunsplit sb = false) ->
  (forall m' o' A' ag', arena_rest hp m' o' A' ag' -> quiet m o A ag m' o' A' ag' -> deferred_reclaimed_sb A' = new ->
     Q tt (St A' m' o')) ->
  wp (deferred_reclaimSuperblock a new) (St A m o) Q.
Proof using All.
  intros Hok Hac Hm Hty Hnew HQ. set (d := deferred_reclaimed_sb A) in *.
  assert (forall x, x ∈ ag_sbs ag -> saddr x <> 0) as Hpos by (intros x Hx; destruct (ao_sbs _ _ _ _ _ Hok x Hx) as [[] _]; lia).
  assert ((forall sb b, sb ∈ ag_sbs ag -> sblks sb = [b] -> is_free b -> saddr sb = d -> saddr sb = new) ->
    Q tt (St (set_deferred new A) m o)) as Hkeep.
  { intros Hd. apply (HQ m o (set_deferred new A) ag); [|split; [done|apply shrunk_deferred, shrunk_refl|done..]|done]. split; [by apply arena_ok_deferred|].
    split; [|done]. intros sb Hs. eapply sb_tidy_mono; [|by apply Hty]. intros b Eb Hf [E|E]; [|done]. by apply (Hd sb b). }
  unfold deferred_reclaimSuperblock. apply wp_bind, wp_the_arena; [done|]. fold d.
  destruct (Z.eqb_spec d 0) as [Ed|Ed].
  - cbn [negb andb]. destruct (Z.eqb_spec new 0) as [->|]; cbn [negb andb].
    + apply wp_ret. assert (A = set_deferred 0 A) as -> by (rewrite <- Ed; unfold d; by destruct A).
      apply Hkeep. intros sb b Hs _ _ E. by destruct (Hpos sb Hs); congruence.
    + apply wp_bind, wp_ret, wp_on_arena; [done|]. apply Hkeep. intros sb b Hs _ _ E. by destruct (Hpos sb Hs); congruence.
  - rewrite andb_false_r. cbn [negb andb]. destruct (Z.eqb_spec d new) as [En|En]; cbn [negb].
    { apply wp_bind, wp_ret, wp_on_arena; [done|]. apply Hkeep. intros sb b _ _ _ E. congruence. }
    destruct (ao_deferred _ _ _ _ _ Hok) as [|(D & HD & EdD & HDu)]; [done|]. fold d in EdD.
    destruct (first_blk _ _ _ _ _ _ Hok HD) as (b & l & Eb & Eba & Hb & Hl1 & Hl2). pose proof (blks_wf _ _ _ _ _ Hok b Hb) as Hw.
    pose proof (ao_geo _ _ _ _ _ Hok) as Hg. destruct (ao_sbs _ _ _ _ _ Hok D HD) as [HwD [E1 E2]].
    pose proof (blk_tagged _ _ _ _ _ Hok b Hb) as Ht.
    apply wp_bind, wp_bind, wp_ld. rewrite EdD, E1. unfold payload_bytes. change (saddr D + 32) with (spay D). rewrite <- Eba.
    apply wp_bind, wp_blockSane; [exact Hg|exact Hw|exact Ht|exact (ao_used _ _ _ _ _ Hok b Hb)|].
    apply wp_bind, wp_m_assert; [done|]. apply wp_bind. eapply (wp_is_inuse a s (geo_of hp A)); [done..|].
    assert (forall sb c, sb ∈ ag_sbs ag -> sblks sb = [c] -> saddr sb = d -> c = b /\ l = []) as HDs.
    { intros sb c Hs Ec E. assert (sb = D) as -> by (eapply sb_of_addr; [exact Hok|done|done|congruence]). rewrite Eb in Ec. by injection Ec. }
    destruct (bused b) eqn:Eu.
    { apply wp_ret, wp_on_arena; [done|]. apply Hkeep. intros sb c Hs Ec Hf E. destruct (HDs sb c Hs Ec E) as [-> _]. unfold is_free in Hf. congruence. }
    apply wp_bind. eapply (wp_get_bszB a s (geo_of hp A)); [done..|].
    apply wp_bind. eapply (wp_bszB_to_pszB a s (geo_of hp A)); [done..|apply Hw|].
    destruct (Z.eqb_spec (baddr b + bsz b - 1) (baddr b + (sbytes D - 1))) as [Ee|Ee].
    2: { apply wp_ret, wp_on_arena; [done|]. apply Hkeep. intros sb c Hs Ec Hf E. destruct (HDs sb c Hs Ec E) as [_ ->].
         specialize (Hl2 eq_refl). unfold bend, send, spay in *. lia. }
    assert (l = []) as -> by (apply Hl1; unfold bend, send, spay in *; lia).
    apply wp_bind. apply (wp_pszB_to_listNo a s).
    { apply (payload_mod _ _ Hg). apply Hw. }
    destruct (list_elem_of_split _ _ HD) as (S1 & S2 & Es).
    eapply (wp_reclaim_free A m o ag S1 D S2 b); [done..|]. intros m' o' A' ag' Hok' Hac' Hq Es' Ed'.
    apply wp_on_arena; [done|]. assert (forall x, x ∈ ag_sbs ag' -> x ∈ ag_sbs ag /\ x <> D) as Hsub.
    { intros x Hx. rewrite Es' in Hx. destruct (sbs_others _ _ _ _ _ Hok S1 D S2 x Es Hx) as (? & ? & _). done. }
    apply (HQ m' o' (set_deferred new A') ag'); [|destruct Hq; split; [done|by apply shrunk_deferred|done..]|done]. split; [|split; [|done]].
    + apply arena_ok_deferred; [done|]. destruct Hnew as [|(x & Hx & Ex & Hxu)]; [by left|right]. exists x.
      rewrite Es'. rewrite Es in Hx. rewrite elem_of_app, elem_of_cons in Hx. rewrite elem_of_app. split; [|done].
      destruct Hx as [|[->|]]; [by left|congruence|by right].
    + intros x Hx. destruct (Hsub x Hx) as [Hx' Hne]. eapply sb_tidy_mono; [|by apply Hty]. intros c Ec Hf [E|E]; [|done].
      destruct Hne. eapply sb_of_addr; [exact Hok|done|done|congruence].
Qed.
End Ops.
End Superblocks.
