(* ===== verification/MallocInit.v ===== *)
(** The whole heap: its arenas are apart, so that an operation on one leaves
    the others alone; and its initialisation. *)
From stdpp Require Import base list sorting.
From Stdlib Require Import ZArith Lia.
From S2P Require Import Prelude Mem LibcMem Malloc MallocBlocks MallocLists MallocInv MallocSb.
Open Scope prog_scope.
Open Scope Z_scope.

(** ** The invariant of the heap *)

Definition zero_stats : Stats := mk_stats 0 0 0 0 0 0 0 0 0 0 0 0.
Definition zero_arena : Arena := mk_arena false 0 0 0 (replicate 112 0) [] 0 0 0 0 0 zero_stats.
Definition no_blocks : aghost := AG [] (replicate 112 []) [] [].

Section Heap.
Context {OS : Type} `{AddressSpaceLaws OS} (cfg : heap_config).
Abbreviation MST := (mst (OS := OS)).
Implicit Types (s : MST) (m : gmem) (o : OS) (A : Arena) (ag : aghost) (G : list aghost) (b c : blk) (sb : sblk).

(** The arena is initialised. *)
Definition up s (a : nat) : bool := if (a =? VG_AR_CLIENT)%nat then client_inited s else nonclient_inited s.

Record heap_ok s G : Prop := {
  ho_len : length (vg_arena s) = VG_N_ARENAS /\ length G = VG_N_ARENAS;
  ho_bytes : bytes_ok (hmem s);
  ho_hp : nonclient_inited s = true -> hp_overhead_szB s = if clo_profile_heap cfg then 16 else 0;
  ho_inited : client_inited s = true -> nonclient_inited s = true;
  ho_up a A ag : vg_arena s !! a = Some A -> G !! a = Some ag -> up s a = true ->
    arena_inv (hp_overhead_szB s) (hmem s) (os s) A ag /\ clientmem A = (a =? VG_AR_CLIENT)%nat;
  ho_down a A ag : vg_arena s !! a = Some A -> G !! a = Some ag -> up s a = false -> A = zero_arena /\ ag = no_blocks;
  ho_apart a a' ag ag' r q : a <> a' -> G !! a = Some ag -> G !! a' = Some ag' -> r ∈ ag_regions ag -> q ∈ ag_regions ag' -> rdisj r q;
  ho_rz rz : client_inited s = true -> malloc_replacement cfg = Some rz -> client_rz_szB s = rz;
  ho_rz_range : 0 <= client_rz_szB s <= MAX_REDZONE_SZB
}.

(** An arena that is initialised knows the size of the headers. *)
Lemma hp_of_up s G a : heap_ok s G -> up s a = true -> hp_overhead_szB s = if clo_profile_heap cfg then 16 else 0.
Proof using Type.
  intros Hok Hup. apply (ho_hp _ _ Hok). destruct (nonclient_inited s) eqn:En; [done|]. unfold up in Hup.
  destruct (a =? VG_AR_CLIENT)%nat; [|congruence]. by rewrite (ho_inited _ _ Hok Hup) in En.
Qed.

(** A region of another arena than [a] *)
Definition other_reg G (a : nat) (r : Z * Z) : Prop := exists a' ag, a' <> a /\ G !! a' = Some ag /\ r ∈ ag_regions ag.

(** An operation on one arena *)
Lemma heap_step s G a A ag m' o' A' ag' : heap_ok s G -> up s a = true -> vg_arena s !! a = Some A -> G !! a = Some ag ->
  arena_inv (hp_overhead_szB s) m' o' A' ag' -> clientmem A' = clientmem A -> bytes_ok m' ->
  (forall r, r ∈ ag_regions ag' -> r ∈ ag_regions ag \/ forall q, other_reg G a q -> rdisj r q) ->
  (forall q x, other_reg G a q -> in_reg q x -> m' x = hmem s x) ->
  (forall cl q, other_reg G a q -> 0 < q.2 -> mapped (os s) cl q.1 q.2 -> mapped o' cl q.1 q.2) ->
  heap_ok (at_arena a A' m' o' s) (<[a := ag']> G).
Proof using Type.
  intros [[L1 L2] Hb Hh Hi Hu Hd Hap Hrz Hrz'] Hup HA HG Hinv Hcl Hm' Hr Hx Hmp.
  assert (a < length (vg_arena s))%nat as Ha by (by eapply lookup_lt_Some).
  assert (forall a' B h, a' <> a -> (<[a := A']> (vg_arena s)) !! a' = Some B -> (<[a := ag']> G) !! a' = Some h ->
    vg_arena s !! a' = Some B /\ G !! a' = Some h) as Hoth.
  { intros a' B h Hne. rewrite !list_lookup_insert_ne by done. done. }
  split; cbn.
  - by rewrite !length_insert.
  - done.
  - done.
  - done.
  - intros a' B h HB Hh' Hup'. destruct (decide (a' = a)) as [->|Hne].
    + rewrite list_lookup_insert_eq in HB by lia. rewrite list_lookup_insert_eq in Hh' by lia. simplify_eq. split; [done|]. rewrite Hcl. by eapply Hu.
    + destruct (Hoth a' B h Hne HB Hh') as [HB' Hh'']. destruct (Hu a' B h HB' Hh'' Hup') as [(Hok & Hty & Hac) Hcl']. split; [|done].
      assert (forall r, r ∈ ag_regions h -> other_reg G a r) as Ho by (intros r Hr'; by exists a', h).
      split; [|by split]. eapply arena_ok_frame; [exact Hok|intros r x Hr'; by apply Hx, Ho|].
      intros r Hr'. apply Hmp; [by apply Ho|]. by apply (ao_mapped _ _ _ _ _ Hok r Hr').
  - intros a' B h HB Hh' Hup'. destruct (decide (a' = a)) as [->|Hne]; [unfold up in *; cbn in Hup'; congruence|].
    destruct (Hoth a' B h Hne HB Hh') as [HB' Hh'']. by eapply Hd.
  - intros a1 a2 g1 g2 r q Hne H1 H2 Hr1 Hr2. destruct (decide (a1 = a)) as [->|N1].
    + rewrite list_lookup_insert_eq in H1 by lia. rewrite list_lookup_insert_ne in H2 by done. simplify_eq.
      destruct (Hr r Hr1) as [Hr'|Hf]; [by apply (Hap a a2 ag g2)|]. apply Hf. by exists a2, g2.
    + destruct (decide (a2 = a)) as [->|N2].
      * rewrite list_lookup_insert_eq in H2 by lia. rewrite list_lookup_insert_ne in H1 by done. simplify_eq.
        destruct (Hr q Hr2) as [Hr'|Hf]; [by apply (Hap a1 a g1 ag)|]. assert (rdisj q r); [|unfold rdisj in *; lia]. apply Hf. by exists a1, g1.
      * rewrite list_lookup_insert_ne in H1, H2 by done. by apply (Hap a1 a2 g1 g2).
  - done.
  - done.
Qed.

(** Bytes in the arena [a] are not in another one's regions. *)
Lemma other_apart s G a ag r q x : heap_ok s G -> G !! a = Some ag -> r ∈ ag_regions ag -> in_reg r x -> other_reg G a q -> ~ in_reg q x.
Proof using Type.
  intros Hok HG Hr Hx (a' & h & Hne & Hh & Hq) Hi. assert (rdisj r q) as Hd by (by eapply (ho_apart _ _ Hok a a' ag h)).
  unfold rdisj, in_reg in *. lia.
Qed.

(** Free superblocks may go, and lists be rearranged, in any arena. *)
Record heap_quiet s G s' G' : Prop := {
  hq_len : length (vg_arena s') = length (vg_arena s) /\ length G' = length G;
  hq_flags : client_inited s' = client_inited s /\ nonclient_inited s' = nonclient_inited s /\
    hp_overhead_szB s' = hp_overhead_szB s /\ client_rz_szB s' = client_rz_szB s;
  hq_arena a A ag : vg_arena s !! a = Some A -> G !! a = Some ag -> exists A' ag', vg_arena s' !! a = Some A' /\ G' !! a = Some ag' /\
    shrunk A ag A' ag';
  hq_mem x : (forall a ag b, G !! a = Some ag -> b ∈ ag_blks ag -> is_free b -> ~ in_blk b x) -> hmem s' x = hmem s x;
  hq_space k : core_space (os s) k -> core_space (os s') k
}.

Lemma heap_quiet_refl s G : heap_quiet s G s G.
Proof using Type. split; try done. intros a A ag HA HG. exists A, ag. split; [done|split; [done|apply shrunk_refl]]. Qed.

Lemma lookup_len {T U} (l : list T) (k : list U) i x : length k = length l -> k !! i = Some x -> is_Some (l !! i).
Proof using Type. intros E Hi. apply lookup_lt_is_Some. apply lookup_lt_Some in Hi. lia. Qed.

Lemma heap_quiet_trans s G s1 G1 s2 G2 : length (vg_arena s) = length G ->
  heap_quiet s G s1 G1 -> heap_quiet s1 G1 s2 G2 -> heap_quiet s G s2 G2.
Proof using Type.
  intros El [(L1 & L1') (F1 & F2 & F3 & F4) A1 M1 S1] [(L2 & L2') (F5 & F6 & F7 & F8) A2 M2 S2]. split.
  - split; congruence.
  - split_and!; congruence.
  - intros a A ag HA HG. destruct (A1 a A ag HA HG) as (B & h & HB & Hh & K1). destruct (A2 a B h HB Hh) as (C & k & HC & Hk & K2).
    exists C, k. split; [done|]. split; [done|]. by eapply shrunk_trans.
  - intros x Hx. rewrite M2; [by apply M1|]. intros a h b Hh Hb Hf.
    destruct (lookup_len G G1 a h L1' Hh) as [ag HG]. destruct (lookup_len (vg_arena s) G a ag (eq_sym El) HG) as [A HA].
    destruct (A1 a A ag HA HG) as (B & h' & _ & Hh' & K). assert (h' = h) as -> by congruence. intros Hi.
    destruct (sh_free _ _ _ _ K b x Hb Hf Hi) as (c & Hc & Hcf & Hci). by apply (Hx a ag c).
  - intros k Hk. by apply S2, S1.
Qed.

Lemma quiet_step s G a A ag m' o' A' ag' : heap_ok s G -> up s a = true -> vg_arena s !! a = Some A -> G !! a = Some ag ->
  arena_inv (hp_overhead_szB s) m' o' A' ag' -> quiet (hmem s) (os s) A ag m' o' A' ag' ->
  heap_ok (at_arena a A' m' o' s) (<[a := ag']> G) /\ heap_quiet s G (at_arena a A' m' o' s) (<[a := ag']> G).
Proof using Type.
  intros Hok Hup HA HG Hinv [Hb Hsh Hmem Hmp Hsp]. destruct (ho_up _ _ Hok a A ag HA HG Hup) as [(Hao & _) _].
  assert (a < length (vg_arena s))%nat as Ha by (by eapply lookup_lt_Some). destruct (ho_len _ _ Hok) as [L1 L2].
  split.
  - eapply heap_step; [done..| |done| | |].
    + apply Hsh.
    + intros r Hr. left. by apply Hsh.
    + intros q x Hq Hx. apply Hmem. intros b Hbb Hf Hi. destruct (blk_region _ _ _ _ _ Hao b Hbb) as (r & Hr & Hin).
      exact (other_apart s G a ag r q x Hok HG Hr (Hin x Hi) Hq Hx).
    + intros cl q (a' & h & Hne & Hh & Hq) Hq2 Hm. apply Hmp; [done|done|]. intros r Hr.
      assert (rdisj r q) as Hd by (by eapply (ho_apart _ _ Hok a a' ag h)). by destruct q.
  - split; cbn.
    + by rewrite !length_insert.
    + done.
    + intros a' B h HB Hh. destruct (decide (a' = a)) as [->|Hne].
      * rewrite !list_lookup_insert_eq by lia. simplify_eq. by exists A', ag'.
      * rewrite !list_lookup_insert_ne by done. exists B, h. split; [done|]. split; [done|]. apply shrunk_refl.
    + intros x Hx. apply Hmem. intros b. by apply (Hx a).
    + done.
Qed.

(** ** New superblocks *)

Lemma wp_reclaim_deferred n : forall a s G Q, (a + n)%nat = VG_N_ARENAS -> heap_ok s G ->
  (forall s' G', heap_ok s' G' -> heap_quiet s G s' G' -> Q tt s') -> wp (reclaim_deferred n a) s Q.
Proof using Type.
  induction n as [|n IH]; intros a s G Q Hn Hok HQ; cbn [reclaim_deferred].
  { apply wp_ret. apply (HQ s G); [done|apply heap_quiet_refl]. }
  destruct (ho_len _ _ Hok) as [L1 L2].
  destruct (lookup_lt_is_Some_2 (vg_arena s) a) as [A HA]; [lia|]. destruct (lookup_lt_is_Some_2 G a) as [ag HG]; [lia|].
  assert (a < length (vg_arena s))%nat as Ha by lia.
  apply wp_bind. rewrite (at_arena_id a A s HA) at 1. apply wp_the_arena; [done|]. rewrite <- (at_arena_id a A s HA).
  destruct (Z.eqb_spec (deferred_reclaimed_sb A) 0) as [Ed|Ed].
  - apply wp_bind, wp_ret. eapply (IH (S a)); [lia|done|done].
  - destruct (up s a) eqn:Hup; [|by destruct (ho_down _ _ Hok a A ag HA HG Hup) as [-> _]].
    destruct (ho_up _ _ Hok a A ag HA HG Hup) as [(Hao & Hty & Hac) _].
    apply wp_bind. rewrite (at_arena_id a A s HA) at 1.
    eapply (wp_deferred_reclaim a s Ha); [exact Hao|apply Hac|apply Hok| |by left|].
    + intros sb Hs. eapply sb_tidy_mono; [|by apply Hty]. by left.
    + intros m' o' A' ag' Hrest Hq _. pose proof (quiet_inv _ _ _ _ _ _ _ _ _ Hac Hq Hrest) as Hinv. destruct (quiet_step s G a A ag m' o' A' ag') as [Hok' Hhq]; [done..|].
      eapply (IH (S a)); [lia|exact Hok'|]. intros s2 G2 Hok2 Hq2. apply (HQ s2 G2); [done|].
      eapply heap_quiet_trans; [congruence|exact Hhq|exact Hq2].
Qed.

(** The size of a superblock with [n] bytes for blocks *)
Definition sb_size (min n : Z) : Z := VG_PGROUNDUP (Z.max (n + 32) min).

Lemma sb_size_bounds min n : 0 <= n -> n + 2 ^ 13 < 2 ^ 64 -> 0 < min <= 2 ^ 22 ->
  n + 32 <= sb_size min n <= Z.max (n + 32) min + 4095 /\ sb_size min n mod 4096 = 0 /\ min <= sb_size min n.
Proof using Type.
  intros Hn Hlt Hm. unfold sb_size, VG_PGROUNDUP, VKI_PAGE_SIZE. rewrite u64_small by lia.
  change (4096 - 1) with (2 ^ 12 - 1). rewrite land_lnot by lia. change (2 ^ 12) with 4096.
  set (x := Z.max (n + 32) min + (4096 - 1)). pose proof (Z.div_mod x 4096 ltac:(lia)). pose proof (Z.mod_pos_bound x 4096 ltac:(lia)).
  split; [unfold x in *; lia|]. split; [|unfold x in *; lia].
  replace (x - x mod 4096) with (x / 4096 * 4096) by lia. by apply Z.mod_mul.
Qed.

(** What [newSuperblock] does after the deferred reclaims: the header of the
    new superblock at [p], of [n] bytes, is written. *)
Record new_sb A m o A' m' o' (p n : Z) (us : bool) : Prop := {
  ns_mmap : am_mmap (clientmem A) n o = Some (p, o');
  ns_bytes : bytes_ok m';
  ns_head : load_le 8 m' p = n - 32 /\ load_le 8 m' (p + 8) = if us then p else 0;
  ns_mem x : ~ (p <= x < p + 32) -> m' x = m x;
  ns_arena : exists st, A' = set_stats st A /\ bytes_mmaped st = u64 (bytes_mmaped (stats A) + n) /\
    bytes_on_loan st = bytes_on_loan (stats A) /\ perm_bytes_on_loan st = perm_bytes_on_loan (stats A);
  ns_unsplit : us = (min_unsplittable_sblock_szB A <=? n)
}.

Lemma wp_newSuperblock a s G A ag cszB k Q : heap_ok s G -> up s a = true -> vg_arena s !! a = Some A -> G !! a = Some ag ->
  0 <= cszB -> cszB + 2 ^ 13 < 2 ^ 64 -> 0 <= k -> (clientmem A = true \/ core_space (os s) (sb_size (min_sblock_szB A) cszB + 4096 + k)) ->
  (forall s' G' A' m' o' p us, heap_ok s' G' -> heap_quiet s G s' G' -> vg_arena s' !! a = Some A' ->
     forall A2, new_sb A' (hmem s') (os s') A2 m' o' p (sb_size (min_sblock_szB A) cszB) us -> Q p (at_arena a A2 m' o' s')) ->
  (clientmem A = true -> forall s' G', heap_ok s' G' -> heap_quiet s G s' G' -> Q 0 s') ->
  wp (newSuperblock a cszB) s Q.
Proof using Type.
  intros Hok Hup HA HG Hc Hlt Hk Hroom HQ HQ0. destruct (ho_up _ _ Hok a A ag HA HG Hup) as [(Hao & _) _].
  pose proof (ao_min _ _ _ _ _ Hao) as Hmin. destruct (sb_size_bounds _ _ Hc Hlt Hmin) as (Hs1 & Hs2 & Hs3).
  unfold newSuperblock. apply wp_bind. eapply wp_reclaim_deferred; [done|exact Hok|]. intros s' G' Hok' Hq.
  destruct (hq_arena _ _ _ _ Hq a A ag HA HG) as (A' & ag' & HA' & HG' & [(E1 & E2 & E3 & E4 & E5 & E6) _ _ _ _ _]).
  assert (up s' a = true) as Hup' by (unfold up in *; destruct (hq_flags _ _ _ _ Hq) as (-> & -> & _); done).
  destruct (ho_up _ _ Hok' a A' ag' HA' HG' Hup') as [(Hao' & _) _].
  assert (a < length (vg_arena s'))%nat as Ha by (by eapply lookup_lt_Some).
  rewrite (at_arena_id a A' s' HA'). apply wp_bind, wp_the_arena; [done|].
  rewrite E3. unfold sizeof_Superblock. rewrite (u64_small (cszB + 32)) by lia.
  assert (VG_PGROUNDUP (if cszB + 32 <? min_sblock_szB A then min_sblock_szB A else cszB + 32) = sb_size (min_sblock_szB A) cszB) as ->.
  { unfold sb_size. f_equal. destruct (Z.ltb_spec (cszB + 32) (min_sblock_szB A)); lia. }
  set (n := sb_size (min_sblock_szB A) cszB) in *. apply wp_bind, wp_gets. cbn [os at_arena].
  destruct (am_mmap (clientmem A') n (os s')) as [[p o']|] eqn:Em.
  2: { destruct (clientmem A') eqn:Ecl; [rewrite <- (at_arena_id a A' s' HA'); apply wp_ret; eapply HQ0; [congruence|done|done]|].
       destruct Hroom as [|Hroom]; [congruence|]. apply (hq_space _ _ _ _ Hq) in Hroom.
       destruct (mmap_core n k (os s')) as [? ?]; [lia|lia|done|congruence]. }
  destruct (mmap_ok (clientmem A') n (os s') p o' ltac:(lia) Em) as (P1 & P2 & P3 & P4 & P5).
  apply wp_bind, wp_modify. unfold set_os. cbn [at_arena hmem vg_arena client_inited nonclient_inited hp_overhead_szB client_rz_szB].
  apply wp_bind, wp_m_assert; [by rewrite (proj2 (Z.eqb_neq _ _)) by lia|].
  apply wp_bind, wp_m_assert.
  { unfold VG_MIN_MALLOC_SZB. rewrite (Z.div_mod p 4096), P2 by lia. replace (4096 * (p / 4096) + 0) with (p / 4096 * 256 * 16) by lia.
    by rewrite Z.mod_mul. }
  change (mk_mst (hmem s') o' (<[a:=A']> (vg_arena s')) (client_inited s') (nonclient_inited s') (hp_overhead_szB s') (client_rz_szB s'))
    with (at_arena a A' (hmem s') o' s').
  apply wp_bind, wp_sd, wp_bind, wp_sd. apply wp_bind, wp_on_stats; [done|]. apply wp_bind, wp_on_stats; [done|]. apply wp_ret.
  pose proof (ho_bytes _ _ Hok') as Hb.
  apply (HQ s' G' A' _ _ _ (min_unsplittable_sblock_szB A' <=? n) Hok' Hq HA'). split.
  - done.
  - by do 2 apply store_le_ok.
  - split.
    + rewrite load_store_other by lia. apply load_store_same; [done|]. cbn. lia.
    + apply load_store_same; [by apply store_le_ok|]. destruct (_ <=? n); cbn; lia.
  - intros x Hx. rewrite !store_le_outside by lia. done.
  - eexists. split; [reflexivity|]. cbn. destruct (_ <? _); done.
  - done.
Qed.
End Heap.

(** * Initialisation of the heap, and what an operation on one arena leaves
    alone. *)

(** The values the options may have *)
Record cfg_ok (cfg : heap_config) : Prop := {
  co_replacement rz : malloc_replacement cfg = Some rz -> 0 <= rz <= MAX_REDZONE_SZB;
  co_redzone : -1 <= clo_redzone_size cfg <= 4096;
  co_core_redzone : 0 <= clo_core_redzone_size cfg <= 4096
}.

Section Init.
Context {OS : Type} `{AddressSpaceLaws OS} (cfg : heap_config) (Hcfg : cfg_ok cfg).
Abbreviation MST := (mst (OS := OS)).
Implicit Types (s : MST) (m : gmem) (o : OS) (A : Arena) (ag : aghost) (G : list aghost) (b c : blk) (sb : sblk).

(** ** A new arena *)

Definition fresh_arena (a : nat) (rz min minu : Z) : Arena :=
  mk_arena (a =? VG_AR_CLIENT)%nat rz min minu (replicate (Z.to_nat N_MALLOC_LISTS) 0)
    (replicate (Z.to_nat SBLOCKS_SIZE_INITIAL) 0) SBLOCKS_SIZE_INITIAL 0 0 0 0
    (mk_stats 0 0 0 0 0 0 0 0 0 0 (25 * 1000 * 1000) 0).

Lemma no_lists_ok g m : fl_ok g m (replicate (Z.to_nat N_MALLOC_LISTS) 0) (replicate 112 []).
Proof using Type.
  assert (forall b, b ∈ mjoin (replicate 112 ([] : list blk)) -> False) as Hno.
  { intros b (l & Hb & Hl)%list_elem_of_join. apply elem_of_replicate_inv in Hl as ->. by apply not_elem_of_nil in Hb. }
  split; [done|done|by apply NoDup_nil|by intros b c ?%Hno| |].
  - intros i l b Hl Hb. apply lookup_replicate_1 in Hl as [-> _]. by apply not_elem_of_nil in Hb.
  - intros i l Hl. by apply lookup_replicate_1 in Hl as [-> _].
Qed.

Lemma fresh_inv hp m o a rz min minu : geo_ok (Geo hp rz (a =? VG_AR_CLIENT)%nat) -> 0 < min <= 2 ^ 22 ->
  arena_inv hp m o (fresh_arena a rz min minu) no_blocks.
Proof using Type.
  intros Hg Hmin. split; [|split].
  - split; try done.
    + constructor.
    + by intros sb ?%not_elem_of_nil.
    + apply no_lists_ok.
    + by intros b ?%not_elem_of_nil.
    + by left.
    + by intros r ?%not_elem_of_nil.
    + by intros r ?%not_elem_of_nil.
    + split; [by intros c ?%not_elem_of_nil| |by left]. split; [constructor|by intros c d ?%not_elem_of_nil].
  - by intros sb ?%not_elem_of_nil.
  - by split.
Qed.

Lemma wp_pad_redzone hp fuel rz s Q : hp = 0 \/ hp = 16 -> 0 <= rz -> rz + (- (8 + rz)) mod 16 <= 2 ^ 13 -> (- (8 + rz)) mod 16 < Z.of_nat fuel ->
  (forall rz', rz <= rz' <= rz + (- (8 + rz)) mod 16 -> (8 + rz') mod 16 = 0 -> Q rz' s) -> wp (pad_redzone (OS := OS) fuel hp rz) s Q.
Proof using Type.
  intros Hhp. revert rz. induction fuel as [|fuel IH]; intros rz Hrz Hrz' Hf HQ;
    pose proof (Z.mod_pos_bound (- (8 + rz)) 16 ltac:(lia)); [lia|].
  cbn [pad_redzone]. rewrite u64_small by lia. unfold VG_MIN_MALLOC_SZB.
  assert ((hp + 8 + rz) mod 16 = (8 + rz) mod 16) as ->.
  { destruct Hhp as [-> | ->]; [f_equal; lia|]. replace (16 + 8 + rz) with (8 + rz + 1 * 16) by lia. by rewrite Z.mod_add. }
  destruct (Z.eqb_spec 0 ((8 + rz) mod 16)) as [E|E]; [apply wp_ret, HQ; Z.div_mod_to_equations; lia|].
  assert ((- (8 + (rz + 1))) mod 16 = (- (8 + rz)) mod 16 - 1) as E' by (Z.div_mod_to_equations; lia).
  apply IH; [lia|lia|lia|]. intros rz' Hr Hm. apply HQ; [lia|done].
Qed.

Lemma wp_arena_init a rz min minu s Q : (a < length (vg_arena s))%nat -> hp_overhead_szB s = 0 \/ hp_overhead_szB s = 16 ->
  0 <= rz <= MAX_REDZONE_SZB -> min mod VKI_PAGE_SIZE = 0 ->
  (forall rz', geo_ok (Geo (hp_overhead_szB s) rz' (a =? VG_AR_CLIENT)%nat) ->
     Q tt (at_arena a (fresh_arena a rz' min minu) (hmem s) (os s) s)) ->
  wp (arena_init cfg a rz min minu) s Q.
Proof using Hcfg.
  intros Ha Hhp Hrz Hmin HQ. pose proof (co_redzone _ Hcfg). pose proof (co_core_redzone _ Hcfg). unfold MAX_REDZONE_SZB in *.
  unfold arena_init. apply wp_bind, wp_m_assert; [apply Z.leb_le; unfold MAX_REDZONE_SZB; lia|].
  set (rz1 := if (a =? VG_AR_CLIENT)%nat then _ else _). assert (0 <= rz1 <= 4096) as Hz1.
  { unfold rz1. destruct (a =? VG_AR_CLIENT)%nat.
    - destruct (Z.eqb_spec (clo_redzone_size cfg) (-1)); [lia|]. rewrite u64_small; lia.
    - rewrite (u64_small (clo_core_redzone_size cfg)) by lia. destruct (clo_core_redzone_size cfg =? rz); lia. }
  set (rz2 := if rz1 <? 8 then 8 else rz1). assert (8 <= rz2 <= 4096) as Hz2 by (unfold rz2; destruct (Z.ltb_spec rz1 8); lia).
  apply wp_bind, wp_gets. apply wp_bind. pose proof (Z.mod_pos_bound (- (8 + rz2)) 16 ltac:(lia)).
  apply wp_pad_redzone; [done|lia|lia|lia|]. intros rz' Hr Hm.
  apply wp_bind, wp_m_assert; [apply Z.eqb_eq; rewrite (u64_small (_ + 8 + rz')) by lia; rewrite !u64_small by lia; lia|].
  apply wp_bind, wp_m_assert; [by apply Z.eqb_eq|].
  destruct (lookup_lt_is_Some_2 _ _ Ha) as [A HA]. rewrite (at_arena_id a A s HA). apply wp_on_arena; [done|].
  apply HQ. split; [done|]. cbn. split; [lia|done].
Qed.

(** What initialisation leaves alone: arenas that were up, memory and the
    address space *)
Record init_step s s' : Prop := {
  is_mem : hmem s' = hmem s /\ os s' = os s;
  is_up a : up s a = true -> up s' a = true /\ vg_arena s' !! a = vg_arena s !! a;
  is_inited : nonclient_inited s = true -> nonclient_inited s' = true /\ hp_overhead_szB s' = hp_overhead_szB s;
  is_arena a A : vg_arena s' !! a = Some A -> vg_arena s !! a = Some A \/ up s a = false /\ exists rz min minu, A = fresh_arena a rz min minu
}.

Lemma all_down s G a ag : heap_ok cfg s G -> nonclient_inited s = false -> G !! a = Some ag -> ag = no_blocks.
Proof using Type.
  intros Hok Hn HG. destruct (ho_len _ _ _ Hok) as [L1 L2]. destruct (lookup_len (vg_arena s) G a ag ltac:(congruence) HG) as [A HA].
  eapply (ho_down _ _ _ Hok a A ag HA HG). unfold up. destruct (a =? VG_AR_CLIENT)%nat; [|done].
  destruct (client_inited s) eqn:E; [|done]. by rewrite (ho_inited _ _ _ Hok E) in Hn.
Qed.

Lemma client_init s G Q : heap_ok cfg s G -> nonclient_inited s = true -> client_inited s = false ->
  (forall s', heap_ok cfg s' G -> up s' VG_AR_CLIENT = true -> init_step s s' -> Q tt s') -> wp (ensure_mm_init cfg VG_AR_CLIENT) s Q.
Proof using Hcfg.
  intros Hok Hn Hc HQ. destruct (ho_len _ _ _ Hok) as [L1 L2]. pose proof (ho_hp _ _ _ Hok) as Hhp. pose proof (ho_rz_range _ _ _ Hok) as Hrz.
  unfold ensure_mm_init. apply wp_bind, wp_gets. rewrite Nat.eqb_refl. unfold id. rewrite Hc.
  assert (forall rz, 0 <= rz <= MAX_REDZONE_SZB -> (forall r, malloc_replacement cfg = Some r -> rz = r) ->
    wp (arena_init cfg VG_AR_CLIENT rz 4194304 (4194304 + 1) ;;;
        modify (fun s => mk_mst (hmem s) (os s) (vg_arena s) true (nonclient_inited s) (hp_overhead_szB s) (client_rz_szB s)))
      (mk_mst (hmem s) (os s) (vg_arena s) (client_inited s) (nonclient_inited s) (hp_overhead_szB s) rz) Q) as Hgo.
  { intros rz Hr Hrep. apply wp_bind, wp_arena_init; cbn [vg_arena hp_overhead_szB]; [rewrite L1; unfold VG_N_ARENAS, VG_AR_CLIENT; lia| |done|done|].
    { rewrite (Hhp Hn). destruct (clo_profile_heap cfg); [by right|by left]. }
    intros rz' Hg. apply wp_modify. unfold at_arena. cbn [vg_arena hmem os client_inited nonclient_inited hp_overhead_szB client_rz_szB].
    apply HQ; [|done|].
    - split; cbn; try done; try (by rewrite length_insert); try (by apply Hok).
      + intros a A ag HA HG Hup. unfold up in Hup. cbn in Hup. destruct (decide (a = VG_AR_CLIENT)) as [->|Hne].
        * rewrite list_lookup_insert_eq in HA by (rewrite L1; unfold VG_N_ARENAS, VG_AR_CLIENT; lia). injection HA as <-.
          destruct (lookup_lt_is_Some_2 (vg_arena s) VG_AR_CLIENT) as [A0 HA0]; [rewrite L1; unfold VG_N_ARENAS, VG_AR_CLIENT; lia|].
          destruct (ho_down _ _ _ Hok VG_AR_CLIENT A0 ag HA0 HG) as [_ ->]; [unfold up; by rewrite Nat.eqb_refl|].
          split; [|done]. apply fresh_inv; [by rewrite Nat.eqb_refl|lia].
        * rewrite list_lookup_insert_ne in HA by done. apply (ho_up _ _ _ Hok a A ag HA HG). unfold up.
          rewrite (proj2 (Nat.eqb_neq _ _) Hne) in *. done.
      + intros a A ag HA HG Hup. unfold up in Hup. cbn in Hup. destruct (a =? VG_AR_CLIENT)%nat; congruence.
      + intros r _ Er. by apply Hrep.
    - split; cbn; try done.
      + intros a Hup. destruct (decide (a = VG_AR_CLIENT)) as [->|Hne]; [unfold up in Hup; rewrite Nat.eqb_refl in Hup; congruence|].
        rewrite list_lookup_insert_ne by done. unfold up in *. cbn. rewrite (proj2 (Nat.eqb_neq _ _) Hne) in *. done.
      + intros a A. rewrite list_lookup_insert. case_decide as E; [|by left]. destruct E as [<- _]. intros [= <-]. right.
        split; [unfold up; by rewrite Nat.eqb_refl|by eexists _, _, _]. }
  destruct (malloc_replacement cfg) as [rz|] eqn:Er.
  - pose proof (co_replacement _ Hcfg rz Er) as Hr. rewrite (proj2 (Z.ltb_ge _ _)) by lia.
    apply wp_bind, wp_modify. apply wp_bind, wp_gets. cbn [client_rz_szB]. apply Hgo; [done|congruence].
  - apply wp_bind, wp_ret. apply wp_bind, wp_gets. destruct s. by apply Hgo.
Qed.

(** The arenas when the core's are initialised *)
Lemma core_arenas_ok s G A2 g0 g1 g3 g4 :
  heap_ok cfg s G -> nonclient_inited s = false -> vg_arena s !! VG_AR_CLIENT = Some A2 ->
  let hp := if clo_profile_heap cfg then 16 else 0 in
  (forall g, g ∈ [g0; g1; g3; g4] -> geo_ok (Geo hp g false)) ->
  let s' := mk_mst (hmem s) (os s) [fresh_arena 0 g0 4194304 (4194304 + 1); fresh_arena 1 g1 1048576 (1048576 + 1); A2;
              fresh_arena 3 g3 65536 (65536 + 1); fresh_arena 4 g4 65536 (65536 + 1)]
              (client_inited s) true hp (client_rz_szB s) in
  heap_ok cfg s' G /\ forall a, a <> VG_AR_CLIENT -> init_step s s' /\ up s' a = true.
Proof using Type.
  intros Hok Hn HA hp Hg s'. destruct (ho_len _ _ _ Hok) as [L1 L2].
  assert (client_inited s = false) as Hc. { destruct (client_inited s) eqn:E; [|done]. by rewrite (ho_inited _ _ _ Hok E) in Hn. }
  assert (forall a A, vg_arena s' !! a = Some A -> a = VG_AR_CLIENT /\ A = A2 \/
    a <> VG_AR_CLIENT /\ exists g min, g ∈ [g0; g1; g3; g4] /\ A = fresh_arena a g min (min + 1) /\ 0 < min <= 2 ^ 22) as Hcases.
  { intros a A. unfold s'. cbn [vg_arena]. unfold VG_AR_CLIENT. destruct a as [|[|[|[|[|a]]]]]; intros [= <-].
    - right. split; [done|]. exists g0, 4194304. split; [by left|]. split; [done|lia].
    - right. split; [done|]. exists g1, 1048576. split; [by right; left|]. split; [done|lia].
    - by left.
    - right. split; [done|]. exists g3, 65536. split; [by do 2 right; left|]. split; [done|lia].
    - right. split; [done|]. exists g4, 65536. split; [by do 3 right; left|]. split; [done|lia]. }
  split.
  - split; try (by apply Hok); try done.
    + intros a A ag HAa HG Hup. destruct (Hcases a A HAa) as [[-> ->]|(Hne & g & min & Hgi & -> & Hmin)].
      * unfold up in Hup. cbn in Hup. congruence.
      * rewrite (all_down s G a ag Hok Hn HG). split; [|done]. apply fresh_inv; [|done]. rewrite (proj2 (Nat.eqb_neq _ _) Hne). by apply Hg.
    + intros a A ag HAa HG Hup. destruct (Hcases a A HAa) as [[-> ->]|(Hne & _)].
      * apply (ho_down _ _ _ Hok VG_AR_CLIENT A2 ag HA HG). unfold up. rewrite Nat.eqb_refl. done.
      * unfold up in Hup. rewrite (proj2 (Nat.eqb_neq _ _) Hne) in Hup. done.
  - intros a Hne. split; [|unfold up; by rewrite (proj2 (Nat.eqb_neq _ _) Hne)]. split; [done| |congruence|].
    + intros a' Hup. unfold up in Hup. destruct (a' =? VG_AR_CLIENT)%nat; congruence.
    + intros a' A HAa. destruct (Hcases a' A HAa) as [[-> ->]|(Hne' & g & min & _ & -> & _)]; [by left|]. right.
      split; [unfold up; by rewrite (proj2 (Nat.eqb_neq _ _) Hne')|by eexists _, _, _].
Qed.

Lemma core_init a s G Q : heap_ok cfg s G -> nonclient_inited s = false -> a <> VG_AR_CLIENT ->
  (forall s', heap_ok cfg s' G -> up s' a = true -> init_step s s' -> Q tt s') -> wp (ensure_mm_init cfg a) s Q.
Proof using Hcfg.
  intros Hok Hn Hne HQ. destruct (ho_len _ _ _ Hok) as [L1 L2]. pose proof (core_arenas_ok s G) as Hfin.
  destruct s as [m o arenas ci ni hp rz]. cbn in L1, Hn. destruct arenas as [|A0 [|A1 [|A2 [|A3 [|A4 [|]]]]]]; try done. subst ni.
  set (hp' := if clo_profile_heap cfg then 16 else 0). assert (hp' = 0 \/ hp' = 16) as Hhp' by (unfold hp'; destruct (clo_profile_heap cfg); [by right|by left]).
  unfold ensure_mm_init. apply wp_bind, wp_gets. rewrite (proj2 (Nat.eqb_neq _ _) Hne). cbn [id nonclient_inited].
  apply wp_bind, wp_modify. cbn [hmem os vg_arena client_inited nonclient_inited client_rz_szB]. fold hp'.
  apply wp_bind, wp_arena_init; [cbn; unfold VG_AR_CORE; lia|done|done|done|]. intros g0 Hg0. unfold at_arena. cbn [hmem os vg_arena client_inited nonclient_inited client_rz_szB hp_overhead_szB insert list_insert VG_AR_CORE].
  apply wp_bind, wp_arena_init; [cbn; unfold VG_AR_DINFO; lia|done|done|done|]. intros g1 Hg1. unfold at_arena. cbn [hmem os vg_arena client_inited nonclient_inited client_rz_szB hp_overhead_szB insert list_insert VG_AR_DINFO].
  apply wp_bind, wp_arena_init; [cbn; unfold VG_AR_DEMANGLE; lia|done|done|done|]. intros g3 Hg3. unfold at_arena. cbn [hmem os vg_arena client_inited nonclient_inited client_rz_szB hp_overhead_szB insert list_insert VG_AR_DEMANGLE].
  apply wp_bind, wp_arena_init; [cbn; unfold VG_AR_TTAUX; lia|done|done|done|]. intros g4 Hg4. unfold at_arena. cbn [hmem os vg_arena client_inited nonclient_inited client_rz_szB hp_overhead_szB insert list_insert VG_AR_TTAUX].
  apply wp_modify. cbn [hmem os vg_arena client_inited nonclient_inited client_rz_szB hp_overhead_szB].
  destruct (Hfin A2 g0 g1 g3 g4 Hok eq_refl eq_refl) as [Hok' Hs].
  { intros g [->|[->|[->|[->|[]%not_elem_of_nil]%elem_of_cons]%elem_of_cons]%elem_of_cons]%elem_of_cons; done. }
  destruct (Hs a Hne) as [Hst Hup]. by apply HQ.
Qed.

Lemma wp_ensure_mm_init a s G Q : heap_ok cfg s G -> (a = VG_AR_CLIENT -> nonclient_inited s = true) ->
  (forall s', heap_ok cfg s' G -> up s' a = true -> init_step s s' -> Q tt s') -> wp (ensure_mm_init cfg a) s Q.
Proof using Hcfg.
  intros Hok Hcl HQ. destruct (up s a) eqn:Hup.
  - assert (init_step s s) as Hs by (split; try done; by left). specialize (HQ s Hok Hup Hs).
    unfold ensure_mm_init. apply wp_bind, wp_gets. unfold up, id in *. destruct (a =? VG_AR_CLIENT)%nat.
    + rewrite Hup. destruct (malloc_replacement cfg) as [rz|] eqn:Er; [|by apply wp_ret].
      apply wp_m_assert; [|done]. apply Z.eqb_eq. by apply (ho_rz _ _ _ Hok).
    + rewrite Hup. by apply wp_ret.
  - unfold up in Hup. destruct (Nat.eqb_spec a VG_AR_CLIENT) as [->|Hne].
    + apply (client_init s G); auto.
    + by apply (core_init a s G).
Qed.
End Init.
