(* ===== verification/MallocAlloc.v ===== *)
(** Allocation: the search for a free block that is big enough, which only
    turns lists around, and taking a block out of its list. *)
From stdpp Require Import base list sorting.
From Stdlib Require Import ZArith Lia.
From S2P Require Import Prelude Mem LibcMem Malloc MallocBlocks MallocLists MallocInv MallocSb MallocInit.
Open Scope prog_scope.
Open Scope Z_scope.

Lemma listNo_range n : 0 <= n -> 0 <= listNo n < N_MALLOC_LISTS.
Proof.
  intros Hn. unfold listNo, N_MALLOC_LISTS. pose proof (Z.div_pos n VG_MIN_MALLOC_SZB Hn ltac:(done)) as Hd.
  set (k := n / VG_MIN_MALLOC_SZB) in *. destruct (Z.ltb_spec k 64); [lia|]. unfold pszB_to_listNo_SLOW.
  repeat match goal with |- context [if ?b then _ else _] => destruct b end; lia.
Qed.

(** The block after another one in a circle *)
Lemma cyc_next g m l l1 b l2 : cyc g m l -> l = l1 ++ b :: l2 ->
  nx m b = match l2 with [] => head_addr l | c :: _ => baddr c end.
Proof.
  intros Hc ->. destruct (l1 ++ b :: l2) as [|x k] eqn:E; [by destruct l1|]. cbn [cyc] in Hc.
  rewrite app_comm_cons, <- E in Hc. destruct l2 as [|c l2].
  - rewrite <- app_assoc in Hc. cbn [app] in Hc. apply chain_two in Hc as (_ & [Hn _] & _). by rewrite Hn.
  - rewrite <- app_assoc in Hc. cbn [app] in Hc. apply chain_two in Hc as (_ & [Hn _] & _). by rewrite Hn.
Qed.

Section Scan.
Context {OS : Type} `{AddressSpaceLaws OS}.
Implicit Types (m : gmem) (o : OS) (A : Arena) (ag : aghost) (b c : blk) (sb : sblk).

(** The lists are turned around. *)
Definition turned A ag A' ag' : Prop := exists F fl, A' = set_freelist F A /\ mjoin fl ≡ₚ mjoin (ag_fl ag) /\
  ag' = AG (ag_sbs ag) fl (ag_perm ag) (ag_chunks ag).

Lemma turned_refl A ag : turned A ag A ag.
Proof using Type. exists (freelist A), (ag_fl ag). split; [by destruct A|]. split; [done|by destruct ag]. Qed.

Lemma turned_trans A ag A1 ag1 A2 ag2 : turned A ag A1 ag1 -> turned A1 ag1 A2 ag2 -> turned A ag A2 ag2.
Proof using Type.
  intros (F & fl & -> & Hp & ->) (F2 & fl2 & -> & Hp2 & ->). exists F2, fl2. split; [done|]. split; [|done]. by rewrite Hp2.
Qed.

Lemma turned_inv hp m o A ag F fl : arena_inv hp m o A ag -> fl_ok (geo_of hp A) m F fl -> mjoin fl ≡ₚ mjoin (ag_fl ag) ->
  arena_inv hp m o (set_freelist F A) (AG (ag_sbs ag) fl (ag_perm ag) (ag_chunks ag)).
Proof using Type.
  intros (Hok & Hty & Hac) Hl Hp. split; [|split; [done|by destruct Hac]].
  destruct Hok as [? ? ? ? ? ? ? Hf ? ? ? ? Hc]. split; try done; [cbn; by rewrite Hp, Hf|by destruct Hc].
Qed.

(** There is fuel enough for a list of all blocks. *)

Lemma heap_bytes_sbs hp m o A ag : arena_ok hp m o A ag -> 32 * Z.of_nat (length (ag_blks ag)) <= heap_bytes m (saddr <$> ag_sbs ag).
Proof using Type.
  intros Hok. unfold ag_blks. pose proof (ao_sbs _ _ _ _ _ Hok) as Hs. pose proof (ao_geo _ _ _ _ _ Hok) as Hg.
  induction (ag_sbs ag) as [|x l IH]; [done|]. cbn [mbind list_bind fmap list_fmap heap_bytes foldr]. rewrite length_app.
  destruct (Hs x ltac:(by left)) as [Hw [-> _]].
  destruct (tiles_bounds _ _ _ _ Hg (sw_blks _ _ Hw) (sw_tiles _ _ Hw)) as (Hb & _). unfold spay, send in Hb.
  specialize (IH (fun y Hy => Hs y (proj2 (elem_of_cons _ _ _) (or_intror Hy)))). unfold heap_bytes in IH. lia.
Qed.

Section Ops.
Context (a : nat) (s : mst (OS := OS)).
Context (Ha : (a < length (vg_arena s))%nat).
Abbreviation hp := (hp_overhead_szB s).
Abbreviation St A m o := (at_arena a A m o s).

(** *** One list *)

Lemma wp_scan_list A m o ag i l req Q : arena_inv hp m o A ag -> ag_fl ag !! i = Some l ->
  (forall c t, c ∈ l -> req <= bsz c -> Q (Some (baddr c), t) (St A m o)) ->
  (forall A' ag' t, arena_inv hp m o A' ag' -> turned A ag A' ag' -> Q (None, t) (St A' m o)) ->
  forall fuel l1 b l2 level total, l = l1 ++ b :: l2 -> (length (b :: l2) <= fuel)%nat ->
  wp (scan_list fuel a (Z.of_nat i) req (baddr b) level total) (St A m o) Q.
Proof using Ha.
  intros Hinv Hl HQ HN fuel. pose proof Hinv as (Hok & _). pose proof (ao_geo _ _ _ _ _ Hok) as Hg. set (g := geo_of hp A) in *.
  pose proof (ao_lists _ _ _ _ _ Hok) as Hls. destruct (fo_distinct g Hg _ _ _ _ _ Hls Hl) as (Hn & Hw & Hd).
  destruct (fo_list g _ _ _ _ _ Hls Hl) as (_ & HiF & HF & _). pose proof (fo_cyc _ _ _ _ Hls i l Hl) as Hc.
  assert (freelist A !! Z.to_nat (Z.of_nat i) = Some (head_addr l)) as HF' by (by rewrite Nat2Z.id).
  induction fuel as [|fuel IH]; intros l1 b l2 level total El Hf; [cbn in Hf; lia|]. cbn [scan_list].
  assert (b ∈ l) as Hb by (rewrite El; apply elem_of_app; right; by left). destruct (Hw b Hb) as [Hwb Htb].
  destruct l as [|x k] eqn:Ek; [by apply not_elem_of_nil in Hb|]. rewrite <- Ek in *.
  assert (x ∈ l) as Hx by (rewrite Ek; by left). destruct (Hw x Hx) as [Hwx Htx]. assert (head_addr l = baddr x) as Hhd by (by rewrite Ek).
  destruct (_ && _).
  - apply wp_bind. eapply wp_get_freelist; [done|exact HF'|]. rewrite Hhd.
    apply wp_bind, wp_m_assert; [rewrite (proj2 (Z.eqb_neq _ _)); [done|pose proof (proj1 Hwx); lia]|].
    apply wp_bind. eapply (wp_get_next a s g); [done..|].
    apply wp_bind, wp_set_freelist_at; [done|]. apply wp_ret. rewrite Nat2Z.id.
    destruct (rotation_to l x Hx) as [k' Hk'].
    assert (exists l', rotation l l' /\ nx m x = head_addr l') as (l' & Hrot & Hnx).
    { rewrite (cyc_next g m l [] x k Hc Ek). destruct k as [|y k]; [exists l; split; [exists [], l; by rewrite app_nil_r|by rewrite Hhd]|].
      exists (y :: k ++ [x]). split; [|done]. exists [x], (y :: k). by rewrite Ek. }
    rewrite Hnx. set (fl := <[i := l']> (ag_fl ag)). pose proof (rotation_perm _ _ Hrot) as Hp.
    assert (fl_ok g m (<[i := head_addr l']> (freelist A)) fl) as Hls'.
    { eapply fl_ok_update; [exact Hg|exact Hls|exact Hl| | | | | |done].
      - by rewrite Hp.
      - intros c Hc'. left. by rewrite <- Hp.
      - intros c d. rewrite !Hp. apply Hd.
      - intros c. rewrite Hp. intros Hc'. by apply (fo_item _ _ _ _ Hls i l c).
      - by eapply rotation_cyc. }
    assert (mjoin fl ≡ₚ mjoin (ag_fl ag)) as Hj.
    { unfold fl. rewrite join_insert by (by eapply lookup_lt_Some). rewrite (join_split i l (ag_fl ag)) by done. by rewrite Hp. }
    eapply HN; [by apply turned_inv|]. by exists (<[i := head_addr l']> (freelist A)), fl.
  - apply wp_bind. eapply (wp_get_bszB a s g); [done..|]. destruct (Z.leb_spec req (bsz b)).
    { apply wp_ret. by apply HQ. }
    apply wp_bind. eapply (wp_get_next a s g); [done..|]. rewrite (cyc_next g m l l1 b l2 Hc El).
    apply wp_bind. eapply wp_get_freelist; [done|exact HF'|]. rewrite Hhd.
    destruct l2 as [|c l2].
    + rewrite Z.eqb_refl. apply wp_ret. eapply HN; [done|apply turned_refl].
    + assert (c ∈ l) as Hcl by (rewrite El; apply elem_of_app; right; right; by left). destruct (Hw c Hcl) as [Hwc _].
      assert (c <> x) as Hne.
      { intros ->. rewrite El in Ek. destruct l1 as [|y l1]; cbn in Ek; injection Ek as -> Ek.
        - rewrite El in Hn. apply NoDup_cons in Hn as [Hn _]. apply Hn. by left.
        - rewrite El in Hn. apply NoDup_cons in Hn as [Hn _]. apply Hn. apply elem_of_app. right. right. by left. }
      rewrite (proj2 (Z.eqb_neq _ _)).
      2: { apply (addr_distinct g Hg); [done|done|by apply Hd]. }
      apply (IH (l1 ++ [b]) c l2); [by rewrite <- app_assoc|cbn in *; lia].
Qed.

(** *** The lists from one on *)

Definition found ag (req : Z) (r : option (Z * Z)) : Prop :=
  r = None \/ exists i l c, r = Some (baddr c, Z.of_nat i) /\ ag_fl ag !! i = Some l /\ c ∈ l /\ req <= bsz c.

Lemma wp_scan_lists m o req fuel n : forall A ag lno total Q, arena_inv hp m o A ag -> 0 <= lno -> lno + Z.of_nat n <= N_MALLOC_LISTS ->
  (length (ag_blks ag) <= fuel)%nat ->
  (forall A' ag' r t, arena_inv hp m o A' ag' -> turned A ag A' ag' -> found ag' req r -> Q (r, t) (St A' m o)) ->
  wp (scan_lists n fuel a lno req total) (St A m o) Q.
Proof using Ha.
  induction n as [|n IH]; intros A ag lno total Q Hinv Hlno Hn Hf HQ; cbn [scan_lists].
  { apply wp_ret. eapply HQ; [done|apply turned_refl|by left]. }
  pose proof Hinv as (Hok & _). pose proof (ao_lists _ _ _ _ _ Hok) as Hls. unfold N_MALLOC_LISTS in *.
  destruct (lookup_lt_is_Some_2 (ag_fl ag) (Z.to_nat lno)) as [l Hl]; [rewrite (fo_len _ _ _ _ Hls); unfold N_MALLOC_LISTS; lia|].
  destruct (fo_list _ _ _ _ _ _ Hls Hl) as (Hnd & _ & HF & _).
  apply wp_bind. eapply wp_get_freelist; [done|exact HF|].
  destruct l as [|b l]; [apply IH with (ag := ag); [done|lia|lia|done|done]|]. cbn [head_addr].
  destruct (fo_item _ _ _ _ Hls _ _ b Hl ltac:(by left)) as (Hw & _).
  rewrite (proj2 (Z.eqb_neq _ _)) by (pose proof (proj1 Hw); lia). apply wp_bind.
  assert (length (b :: l) <= length (ag_blks ag))%nat as Hlen.
  { apply submseteq_length, NoDup_submseteq; [done|]. intros c Hc. eapply (free_elem _ _ _ _ _ Hok), fo_elem; [exact Hls|exact Hl|done]. }
  replace lno with (Z.of_nat (Z.to_nat lno)) by lia.
  eapply (wp_scan_list A m o ag (Z.to_nat lno) (b :: l) req) with (l1 := []) (l2 := l); [done|done| | |done|lia].
  - intros c t Hc Hr. cbn [fst snd]. apply wp_ret. eapply HQ; [done|apply turned_refl|]. right. exists (Z.to_nat lno), (b :: l), c. split_and!; try done.
  - intros A' ag' t Hinv' Ht. cbn [fst snd]. replace (Z.of_nat (Z.to_nat lno)) with lno by lia.
    apply IH with (ag := ag'); [done|lia|lia| |].
    + destruct Ht as (F & fl & _ & _ & ->). done.
    + intros A2 ag2 r t2 Hi2 Ht2 Hfo. eapply HQ; [done|by eapply turned_trans|done].
Qed.

Lemma wp_scan_fuel A m o ag Q : arena_ok hp m o A ag ->
  (forall n, (length (ag_blks ag) < n)%nat -> Q n (St A m o)) -> wp (scan_fuel a) (St A m o) Q.
Proof using Ha.
  intros Hok HQ. apply wp_bind, wp_the_arena; [done|]. apply wp_bind, wp_gets. apply wp_ret. cbn [hmem at_arena].
  destruct (ao_count _ _ _ _ _ Hok) as (-> & _). rewrite Nat2Z.id, (ao_array _ _ _ _ _ Hok). apply HQ.
  pose proof (heap_bytes_sbs hp m o A ag Hok) as Hb. set (n := heap_bytes m (saddr <$> ag_sbs ag)) in *.
  assert (Z.of_nat (length (ag_blks ag)) <= n / 32) by (apply Z.div_le_lower_bound; lia). lia.
Qed.
End Ops.
End Scan.

(** * Allocation: a free block is taken out of its list, divided when enough of
    it is left over, or found in a new superblock. *)

Section Alloc.
Context {OS : Type} `{AddressSpaceLaws OS} (cfg : heap_config).
Implicit Types (m : gmem) (o : OS) (A : Arena) (ag : aghost) (b c : blk) (sb : sblk).

(** ** The block of a list is used *)

Section Take.
Context (a : nat) (s : mst (OS := OS)).
Context (Ha : (a < length (vg_arena s))%nat).
Context (Hhp : hp_overhead_szB s = if clo_profile_heap cfg then 16 else 0).
Abbreviation hp := (hp_overhead_szB s).
Abbreviation St A m o := (at_arena a A m o s).

Lemma wp_profile_cc p v b A m o Q : p = baddr b -> bytes_ok m ->
  (forall m', bytes_ok m' -> (forall x, ~ (baddr b <= x < baddr b + hp) -> m' x = m x) -> Q tt (St A m' o)) ->
  wp (profile_cc cfg p v) (St A m o) Q.
Proof using Ha Hhp.
  intros -> Hm HQ. unfold profile_cc, set_cc. destruct (clo_profile_heap cfg).
  - apply wp_bind, wp_m_assert; [done|]. apply wp_sd. apply HQ; [by apply store_le_ok|]. intros x Hx. apply store_le_outside. lia.
  - by apply wp_ret, HQ.
Qed.

Lemma free_listed m o A ag i l c : arena_ok hp m o A ag -> ag_fl ag !! i = Some l -> c ∈ l ->
  c ∈ ag_blks ag /\ bused c = false /\ listNo (bsz c - g_ovh (geo_of hp A)) = Z.of_nat i /\ tagged (geo_of hp A) m c /\ (i < 112)%nat.
Proof using Type.
  intros Hok Hl Hc. pose proof (ao_lists _ _ _ _ _ Hok) as Hls. destruct (fo_item _ _ _ _ Hls i l c Hl Hc) as (_ & Hf & Ht & E).
  split; [|split; [done|split; [done|split; [done|]]]].
  - eapply (free_elem _ _ _ _ _ Hok), fo_elem; [exact Hls|exact Hl|done].
  - apply lookup_lt_Some in Hl. rewrite (fo_len _ _ _ _ Hls) in Hl. exact Hl.
Qed.

(** The other free blocks are apart from the one that was taken out. *)
Lemma listed_apart g m F fl c fl1 : fl_ok g m F fl -> mjoin fl ≡ₚ c :: mjoin fl1 -> forall b, b ∈ mjoin fl1 -> bdisj b c.
Proof using Type.
  intros Hls Hp b Hb. pose proof (fo_nodup _ _ _ _ Hls) as Hnd. rewrite Hp in Hnd. apply NoDup_cons in Hnd as [Hnd _].
  apply (fo_apart _ _ _ _ Hls); [rewrite Hp; by right|rewrite Hp; by left|by intros ->].
Qed.

(** Taking the block [c] out of its list [i] *)
Lemma wp_take_out A m o ag i l c Q : arena_ok hp m o A ag -> bytes_ok m -> ag_fl ag !! i = Some l -> c ∈ l ->
  (forall m1 F fl, bytes_ok m1 -> fl_ok (geo_of hp A) m1 F fl -> mjoin (ag_fl ag) ≡ₚ c :: mjoin fl ->
     (forall x, ~ link_byte (geo_of hp A) (mjoin (ag_fl ag)) x -> m1 x = m x) -> Q tt (St (set_freelist F A) m1 o)) ->
  wp (unlinkBlock a (baddr c) (Z.of_nat i)) (St A m o) Q.
Proof using Ha.
  intros Hok Hm Hl Hc HQ. pose proof (ao_geo _ _ _ _ _ Hok) as Hg. pose proof (ao_lists _ _ _ _ _ Hok) as Hls.
  destruct (free_listed _ _ _ _ _ _ _ Hok Hl Hc) as (_ & _ & Ec & _). rewrite <- Ec.
  eapply (wp_take_listed a s (geo_of hp A)); [done..| |done|done]. eapply fo_elem; [exact Hls|exact Hl|done].
Qed.

(** A new free block [b] that is apart from all others is listed. *)
Lemma wp_list_block p n lno g A m o fl b Q : g = geo_of hp A -> geo_ok g -> p = baddr b -> n = bsz b -> lno = listNo (n - g_ovh g) ->
  bused b = false -> blk_wf g b -> fl_ok g m (freelist A) fl -> (forall c, c ∈ mjoin fl -> bdisj b c) -> bytes_ok m ->
  (forall m' F fl', bytes_ok m' -> fl_ok g m' F fl' -> mjoin fl' ≡ₚ b :: mjoin fl ->
     (forall x, ~ in_blk b x -> ~ link_byte g (mjoin fl) x -> m' x = m x) -> Q tt (St (set_freelist F A) m' o)) ->
  wp (mkFreeBlock a p n lno) (St A m o) Q.
Proof using All.
  intros -> Hg -> -> -> Hf Hw Hls Hd Hm HQ. set (i := listNo (bsz b - g_ovh (geo_of hp A))).
  pose proof (listNo_range (bsz b - g_ovh (geo_of hp A))) as Hi. fold i in Hi. destruct Hw as (W1 & W2 & W3 & W4 & W5).
  specialize (Hi ltac:(lia)). destruct (lookup_lt_is_Some_2 fl (Z.to_nat i)) as [l Hl].
  { rewrite (fo_len _ _ _ _ Hls). lia. }
  eapply (wp_mkFreeBlock a s (geo_of hp A)); [done..| |exact Hls|lia|exact Hl|done|done|]; [done|].
  intros m' Hm' Hls' Hx. eapply HQ; [done|exact Hls'| |].
  - rewrite (join_insert _ (l ++ [b])) by (by eapply lookup_lt_Some). rewrite (join_split (Z.to_nat i) l fl) by done.
    rewrite <- app_assoc. cbn [app]. by rewrite <- Permutation_middle.
  - intros x Hxb Hxl. apply Hx; [done|]. intros (d & Hdl & Hdx)%link_one. apply Hxl. eapply link_elem; [|done].
    eapply fo_elem; [exact Hls|exact Hl|done].
Qed.

(** What is done of the block [c]: all of it is used, or its first [req]
    bytes, and the rest is a free block. *)
Inductive taken (c : blk) (req : Z) : bool -> Z -> list blk -> Prop :=
  | taken_all split : taken c req split (bsz c) [Blk (baddr c) (bsz c) true]
  | taken_part : taken c req true req [Blk (baddr c) req true; Blk (baddr c + req) (bsz c - req) false].

Lemma set_lists_same A F : set_lists F (stats A) A = set_freelist F A.
Proof using Type. by destruct A. Qed.

(** The block [c] is taken out, and [r] bytes of it are in use. *)
Lemma wp_use_block {B} A m o ag i l c cc r (K : M (mst (OS := OS)) B) Q : let g := geo_of hp A in
  arena_ok hp m o A ag -> bytes_ok m -> ag_fl ag !! i = Some l -> c ∈ l -> g_ovh g <= r <= bsz c -> r mod 16 = 0 ->
  (forall m1 F fl, bytes_ok m1 -> fl_ok g m1 F fl -> mjoin (ag_fl ag) ≡ₚ c :: mjoin fl ->
     blk_in g m1 (Blk (baddr c) r true) -> (forall x, ~ in_blk c x -> ~ link_byte g (mjoin (ag_fl ag)) x -> m1 x = m x) ->
     wp K (St (set_freelist F A) m1 o) Q) ->
  wp (unlinkBlock a (baddr c) (Z.of_nat i) ;;; mkInuseBlock a (baddr c) r ;;; profile_cc cfg (baddr c) cc ;;; K) (St A m o) Q.
Proof using All.
  intros g Hok Hm Hl Hc Hr Hr16 HQ. pose proof (ao_geo _ _ _ _ _ Hok) as Hg. fold g in Hg. pose proof (ao_lists _ _ _ _ _ Hok) as Hls.
  destruct (free_listed _ _ _ _ _ _ _ Hok Hl Hc) as (Hcb & Hcf & _). pose proof (blks_wf _ _ _ _ _ Hok c Hcb) as (W1 & W2 & W3 & W4 & W5).
  fold g in W4. unfold bend in W5. destruct (geo_hp g Hg) as [Hh1 Hh2]. set (n := Blk (baddr c) r true).
  assert (blk_wf g n) as Hn by (unfold n; repeat split; cbn; try done; unfold bend; cbn; lia).
  assert (forall x, in_blk n x -> in_blk c x) as Hnc by (unfold in_blk, bend, n; cbn; intros x Hx; lia).
  apply wp_bind. eapply wp_take_out; [done..|]. intros m1 F fl Hm1 Hl1 Hp Hx1.
  apply wp_bind. eapply (wp_mkInuseBlock a s g Ha Hg eq_refl (baddr c) r n); [done..|]. intros m2 Hm2 Hin2 Hx2.
  apply wp_bind, (wp_profile_cc _ _ n); [done|done|]. intros m3 Hm3 Hx3. change hp with (g_hp g) in Hx3.
  assert (forall x, ~ in_blk c x -> m3 x = m1 x) as Hx13.
  { intros x Hx. rewrite Hx3, Hx2; [done|by intros ?%Hnc|]. intros Hi'. apply Hx, Hnc. unfold in_blk, bend, n in *. cbn in *. lia. }
  eapply HQ; [done| |exact Hp| |].
  - eapply fl_ok_ext; [done| |exact Hl1]. intros b x Hb Hi'. apply Hx13.
    pose proof (listed_apart _ _ _ _ _ _ Hls Hp b Hb). unfold bdisj, in_blk in *. lia.
  - eapply (blk_in_body g m2); [done|done| |done]. intros x Hi'. apply Hx3. unfold in_body, n in *. cbn in *. lia.
  - intros x Hxc Hxl. rewrite Hx13 by done. by apply Hx1.
Qed.

Lemma wp_take_block A m o ag S1 sb S2 l1 c l2 i l cc req split Q : arena_ok hp m o A ag -> bytes_ok m ->
  ag_sbs ag = S1 ++ sb :: S2 -> sblks sb = l1 ++ c :: l2 -> ag_fl ag !! i = Some l -> c ∈ l ->
  g_ovh (geo_of hp A) <= req <= bsz c -> req mod 16 = 0 ->
  (forall m' F fl mid r, taken c req split r mid -> req <= r -> bytes_ok m' ->
     arena_ok hp m' o (set_freelist F A) (swap_blks S1 sb S2 l1 mid l2 fl ag) ->
     (forall x, (forall b, b ∈ ag_blks ag -> is_free b -> ~ in_blk b x) -> m' x = m x) -> Q r (St (set_freelist F A) m' o)) ->
  wp (take_block cfg a cc (baddr c) (Z.of_nat i) req split) (St A m o) Q.
Proof using All.
  intros Hok Hm Es Eb Hl Hc Hreq Hr16 HQ. pose proof (ao_geo _ _ _ _ _ Hok) as Hg. pose (g := geo_of hp A). fold g in Hg, Hreq.
  destruct (free_listed _ _ _ _ _ _ _ Hok Hl Hc) as (Hcb & Hcf & Hcl & Hct & Hi). fold g in Hcl, Hct.
  pose proof (blks_wf _ _ _ _ _ Hok c Hcb) as Hw. fold g in Hw. pose proof (ao_lists _ _ _ _ _ Hok) as Hls.
  pose proof Hw as (W1 & W2 & W3 & W4 & W5).
  assert (sblks sb = l1 ++ [c] ++ l2) as Eb' by done. pose proof (geo_sizes g Hg) as Hgs. unfold bend in W5.
  destruct (geo_hp g Hg) as [Hh1 Hh2].
  destruct (ao_sbs _ _ _ _ _ Hok sb ltac:(rewrite Es; apply elem_of_app; right; by left)) as [Hws _].
  pose proof (sw_tiles _ _ Hws) as Ht. rewrite Eb' in Ht. apply blk_tiles_app in Ht as (lo & T1 & (hi & T2 & T3)%blk_tiles_app).
  cbn in T2. destruct T2 as [<- <-].
  destruct (fo_list _ _ _ _ _ _ Hls Hl) as (_ & _ & HF & _).
  unfold take_block. apply wp_bind, wp_m_assert; [apply Z.ltb_lt; unfold N_MALLOC_LISTS; lia|].
  apply wp_bind. eapply wp_get_freelist; [done|by rewrite Nat2Z.id|].
  apply wp_bind, wp_m_assert.
  { destruct l as [|x k]; [by apply not_elem_of_nil in Hc|]. cbn [head_addr].
    destruct (fo_item _ _ _ _ Hls _ _ x Hl ltac:(by left)) as ((Hx & _) & _). rewrite (proj2 (Z.eqb_neq _ _)); [done|lia]. }
  apply wp_bind. eapply (wp_get_bszB a s g); [done..|]. apply wp_bind, wp_m_assert; [apply Z.leb_le; lia|].
  apply wp_bind. eapply (wp_min_useful a s g); [done..|].
  assert (forall m' F fl mid r R, taken c req split r mid -> req <= r -> bytes_ok m' -> tiles (baddr c) mid (bend c) ->
    (forall b, b ∈ mid -> blk_wf g b) -> fl_ok g m' F fl -> mjoin (ag_fl ag) ≡ₚ c :: R -> mjoin fl ≡ₚ filter is_free mid ++ R ->
    (forall b, b ∈ mid -> is_used b -> blk_in g m' b) ->
    (forall x, ~ in_blk c x -> ~ link_byte g (mjoin (ag_fl ag)) x -> m' x = m x) -> Q r (St (set_freelist F A) m' o)) as Hend.
  { intros m' F fl mid r R Htk Hr Hm' Htl Hwf Hls' HR HR' Hu Hx. eapply (HQ m' F fl mid r); [done|done|done| |].
    - rewrite <- set_lists_same. eapply arena_swap; try done. cbn [filter list_filter]. rewrite decide_True by done. done.
    - intros x Hnf. apply Hx; [by apply Hnf|]. intros (b & Hb & Hbf & Hi')%(free_link _ _ _ _ _ Hok). by apply (Hnf b). }
  destruct ((g_ovh g <=? bsz c - req) && split) eqn:Esp.
  - apply andb_prop in Esp as [Ef ->]. apply Z.leb_le in Ef. set (rest := Blk (baddr c + req) (bsz c - req) false).
    assert (blk_wf g rest) as Hwr.
    { unfold rest. repeat split; cbn; try lia; [by rewrite Z.add_mod, W2, Hr16|by rewrite Zminus_mod, W3, Hr16|unfold bend; cbn; lia]. }
    assert (blk_wf g (Blk (baddr c) req true)) as Hwn by (repeat split; cbn; try done; try lia; unfold bend; cbn; lia).
    assert (forall x, in_blk rest x -> in_blk c x) as Hrc by (unfold in_blk, bend, rest; cbn; intros x Hx; lia).
    eapply wp_use_block; [done|done|done|done|exact Hreq|done|]. intros m1 F1 fl1 Hm1 Hls1 Hp1 Hin1 Hx1.
    pose proof (listed_apart _ _ _ _ _ _ Hls Hp1) as Hap.
    apply wp_bind. eapply (wp_bszB_to_pszB a s g); [done..|]. apply wp_bind, wp_pszB_to_listNo.
    { apply (payload_mod g); [done|]. apply Hwr. }
    apply wp_bind. eapply (wp_list_block _ _ _ g _ m1 o fl1 rest); [done..| | |].
    { intros b Hb. specialize (Hap b Hb). unfold bdisj, rest, bend in *. cbn. lia. }
    { done. }
    intros m2 F2 fl2 Hm2 Hls2 Hp2 Hx2.
    apply wp_bind, (wp_profile_cc _ _ rest); [done|done|]. intros m3 Hm3 Hx3. change hp with (g_hp g) in Hx3.
    assert (forall x, ~ in_blk c x -> ~ link_byte g (mjoin fl1) x -> m3 x = m1 x) as Hx13.
    { intros x Hxc Hxl. rewrite Hx3, Hx2; [done|by intros ?%Hrc|done|]. intros Hi'. apply Hxc, Hrc. unfold in_blk, bend, rest in *. cbn in *. lia. }
    assert (blk_in g m3 (Blk (baddr c) req true)) as Hin3.
    { eapply (blk_in_ext g m1); [done|done| |exact Hin1]. intros x Hi'. unfold in_blk, rest, bend in *. cbn in *.
      rewrite Hx3, Hx2; [done|lia| |lia]. intros (b & Hb & Hbl)%link_one. specialize (Hap b Hb).
      assert (blk_wf g b) as Hwb by (eapply blks_wf, (free_elem _ _ _ _ _ Hok); [exact Hok|rewrite Hp1; by right]).
      apply (link_in g Hg b x Hwb) in Hbl. unfold bdisj, in_blk, bend in *. lia. }
    eapply (wp_get_bszB a s g); [done|done|done|by instantiate (1 := Blk (baddr c) req true)|done|apply Hin3|].
    eapply (Hend m3 F2 fl2 [Blk (baddr c) req true; rest] req (mjoin fl1)); [constructor|lia|done|..].
    + cbn. unfold bend. cbn. split; [done|]. split; [done|]. lia.
    + intros b [->|[->|[]%not_elem_of_nil]%elem_of_cons]%elem_of_cons; done.
    + eapply fl_ok_body; [done| |exact Hls2]. intros b x Hb Hi'. apply Hx3. rewrite Hp2 in Hb. unfold in_body, rest in *.
      apply elem_of_cons in Hb as [->|Hb]; [cbn in *; lia|]. specialize (Hap b Hb). unfold bdisj, bend in *. cbn [baddr bsz] in *. lia.
    + done.
    + done.
    + intros b [->|[->|[]%not_elem_of_nil]%elem_of_cons]%elem_of_cons; done.
    + intros x Hxc Hxl. rewrite Hx13; [by apply Hx1|done|]. intros (b & Hb & Hbl)%link_one. apply Hxl.
      eapply link_elem; [|exact Hbl]. rewrite Hp1. by right.
  - eapply wp_use_block; [done|done|done|done|fold g; lia|done|]. intros m1 F1 fl1 Hm1 Hls1 Hp1 Hin1 Hx1. apply wp_ret.
    eapply (Hend m1 F1 fl1 [Blk (baddr c) (bsz c) true] (bsz c) (mjoin fl1)); [constructor|lia|done|by split| |done|done|done| |done];
      by intros b ->%list_elem_of_singleton.
Qed.
End Take.

(** ** A new superblock comes into the array *)

Lemma sorted_place (l : list sblk) sb : StronglySorted slt l -> (forall x, x ∈ l -> rdisj (sb_reg x) (sb_reg sb)) ->
  (forall x, x ∈ l -> 0 < sbytes x) -> 0 < sbytes sb ->
  exists l1 l2, l = l1 ++ l2 /\ (forall x, x ∈ l1 -> slt x sb) /\ (forall y, y ∈ l2 -> slt sb y).
Proof using Type.
  intros Hs Hd Hp Hsb. induction Hs as [|x l Hs IH Hx].
  { exists [], []. split; [done|]. by split; intros ? ?%not_elem_of_nil. }
  destruct (decide (saddr x < saddr sb)) as [Hlt|Hge].
  - destruct IH as (l1 & l2 & -> & H1 & H2); [intros y Hy; apply Hd; by right|intros y Hy; apply Hp; by right|].
    exists (x :: l1), l2. split; [done|]. split; [|done]. intros y [->|Hy]%elem_of_cons; [|by apply H1].
    specialize (Hd x ltac:(by left)). specialize (Hp x ltac:(by left)). unfold rdisj, sb_reg, slt, send in *. cbn in *. lia.
  - exists [], (x :: l). split; [done|]. split; [by intros ? ?%not_elem_of_nil|]. intros y Hy.
    assert (slt sb x) as Hsx.
    { specialize (Hd x ltac:(by left)). specialize (Hp x ltac:(by left)). unfold rdisj, sb_reg, slt, send in *. cbn in *. lia. }
    apply elem_of_cons in Hy as [->|Hy]; [done|]. rewrite Forall_forall in Hx. specialize (Hx y Hy). specialize (Hp x ltac:(by left)).
    unfold slt, send in *. lia.
Qed.

Section Insert.
Context (hp : Z) m o A ag (S1 S2 : list sblk) sb b m' o' (F : list Z) (st : Stats) (L : list Z) (sz : Z) (fl : list (list blk)).
Let g : geo := geo_of hp A.
Context (Hok : arena_ok hp m o A ag) (Es : ag_sbs ag = S1 ++ S2).
Context (Hw : sb_wf g sb) (Eb : sblks sb = [b]) (Hf : is_free b) (Hin : sb_in m' sb).
Context (Hd : forall r, r ∈ ag_regions ag -> rdisj r (sb_reg sb)).
Context (H1 : forall x, x ∈ S1 -> slt x sb) (H2 : forall y, y ∈ S2 -> slt sb y).
Context (Hfl : fl_ok g m' F fl) (Hp : mjoin fl ≡ₚ b :: mjoin (ag_fl ag)).
Context (Hx : forall x, ~ in_reg (sb_reg sb) x -> ~ link_byte g (mjoin (ag_fl ag)) x -> m' x = m x).
Context (Hmp : forall r, r ∈ ag_regions ag -> mapped o (clientmem A) r.1 r.2 -> mapped o' (clientmem A) r.1 r.2).
Context (Hmp' : mapped o' (clientmem A) (saddr sb) (32 + sbytes sb)).
Context (Hsz : sz = Z.of_nat (length L)) (Hsz' : sblocks_used A + 1 <= sz /\ sblocks_size A <= sz).
Context (HL : take (length (S1 ++ sb :: S2)) L = saddr <$> S1 ++ sb :: S2).

Lemma insert_kept c x : c ∈ ag_blks ag -> is_used c -> in_blk c x -> m' x = m x.
Proof using - cfg.
  intros Hc Hu Hi. destruct (blk_region _ _ _ _ _ Hok c Hc) as (r & Hr & Hri). apply Hx.
  - intros Hsx. specialize (Hd r Hr). specialize (Hri x Hi). unfold rdisj, in_reg in *. lia.
  - intros (d & Hdb & Hdf & Hdi)%(free_link _ _ _ _ _ Hok). destruct (blks_apart _ _ _ _ _ Hok) as [_ Hap].
    assert (bdisj c d) as Hcd by (apply Hap; [done|done|intros ->; unfold is_used in Hu; congruence]). unfold bdisj, in_blk in *. lia.
Qed.

Lemma insert_headers x : x ∈ ag_sbs ag -> sb_in m' x.
Proof using - cfg.
  intros Hs. destruct (ao_sbs _ _ _ _ _ Hok x Hs) as [Hwx [E1 E2]].
  assert (sb_reg x ∈ ag_regions ag) as Hr by (apply elem_of_app; left; apply list_elem_of_fmap; by exists x).
  specialize (Hd _ Hr). pose proof (sw_bytes _ _ Hwx). pose proof (sw_bytes _ _ Hw).
  assert (forall z, saddr x <= z < spay x -> m' z = m z) as Hz.
  { intros z Hz. apply Hx; [unfold rdisj, sb_reg, in_reg, spay in *; cbn in *; lia|].
    intros (c & Hc & _ & Hci)%(free_link _ _ _ _ _ Hok). by apply (header_apart _ _ _ _ _ Hok x c z). }
  split; [rewrite <- E1|rewrite <- E2]; apply load_le_ext; intros z Hzz; apply Hz; unfold spay; lia.
Qed.

Lemma arena_insert : arena_ok hp m' o' (set_lists F st (set_sblocks L sz (sblocks_used A + 1) A)) (AG (S1 ++ sb :: S2) fl (ag_perm ag) (ag_chunks ag)).
Proof using - cfg.
  pose proof Hok as [K1 K2 (C1 & C2 & C3 & C4) K4 K5 K6 K7 K8 K9 K10 K11 K12 K13].
  assert (forall x, x ∈ S1 ++ sb :: S2 <-> x = sb \/ x ∈ ag_sbs ag) as Hel.
  { intros x. rewrite Es, !elem_of_app, elem_of_cons. tauto. }
  assert (length (S1 ++ sb :: S2) = S (length (ag_sbs ag))) as El by (rewrite Es, !length_app; cbn; lia).
  split; cbn; try done.
  - rewrite El. lia.
  - rewrite Es in K5. rewrite StronglySorted_app in *. destruct K5 as (Q1 & Q2 & Q3). split_and!; [|done|].
    + intros x y Hi [->|Hy]%elem_of_cons; [by apply H1|by apply Q1].
    + constructor; [done|]. apply Forall_forall. exact H2.
  - intros x [->|Hs]%Hel; [by split|]. split; [by apply K6|by apply insert_headers].
  - unfold ag_blks. cbn. rewrite Hp, K8. unfold ag_blks. rewrite Es, !bind_app. cbn [mbind list_bind].
    rewrite Eb, !filter_app. rewrite (filter_cons_True _ b []), filter_nil by done. by rewrite (Permutation_app_swap_app _ [b]).
  - intros c Hc Hu. assert (c ∈ ag_blks ag) as Hcb.
    { unfold ag_blks in *. cbn in Hc. apply list_elem_of_bind in Hc as (x & Hcx & [->|Hs]%Hel).
      - rewrite Eb in Hcx. apply list_elem_of_singleton in Hcx as ->. unfold is_free in Hf. congruence.
      - apply list_elem_of_bind. by exists x. }
    eapply (blk_in_ext g m); [done|by eapply blks_wf| |by apply K9]. intros x Hi. by apply (insert_kept c).
  - destruct K10 as [|(x & Hs & E)]; [by left|]. right. exists x. split; [|done]. apply Hel. by right.
  - intros r Hr. assert (r = sb_reg sb \/ r ∈ ag_regions ag) as [->|Hr'].
    { unfold ag_regions in *. cbn in Hr. rewrite elem_of_app, list_elem_of_fmap in Hr. rewrite elem_of_app, list_elem_of_fmap.
      destruct Hr as [(x & -> & [->|Hs]%Hel)|Hr]; [by left|right; left; by exists x|right; by right]. }
    + destruct Hw. unfold send in *. cbn. split_and!; [lia|lia|lia|done].
    + destruct (K11 r Hr') as (? & ? & ? & ?). split_and!; try done. by apply Hmp.
  - intros r Hr. destruct (K12 r Hr) as [Q1 Q2]. split; [|done]. intros x [->|Hs]%Hel; [|by apply Q1].
    apply Hd. apply elem_of_app. by right.
  - by destruct K13.
Qed.
End Insert.
End Alloc.
