(* ===== verification/MallocRequest.v ===== *)
(** [arena_malloc]: initialisation, the search, a new superblock when there is
    no block, and the accounts. *)
From stdpp Require Import base list sorting.
From Stdlib Require Import ZArith Lia.
From S2P Require Import Prelude Mem LibcMem Malloc MallocBlocks MallocLists MallocInv MallocSb MallocInit MallocAlloc.
Open Scope prog_scope.
Open Scope Z_scope.

Section Request.
Context {OS : Type} `{AddressSpaceLaws OS} (cfg : heap_config) (Hcfg : cfg_ok cfg).
Abbreviation MST := (mst (OS := OS)).
Implicit Types (s : MST) (m : gmem) (o : OS) (A : Arena) (ag : aghost) (G : list aghost) (b c : blk) (sb : sblk).

(** ** What an operation leaves alone *)

(** The blocks in use, but for those of [skip], permanent blocks, and memory
    that is not the heap's *)
Record keeps (skip : blk -> Prop) G s G' s' : Prop := {
  kp_used a ag b x : G !! a = Some ag -> b ∈ ag_blks ag -> is_used b -> ~ skip b -> in_blk b x -> hmem s' x = hmem s x;
  kp_perm a ag r x : G !! a = Some ag -> r ∈ ag_perm ag -> in_reg r x -> hmem s' x = hmem s x;
  kp_outside x : (forall a ag r, G !! a = Some ag \/ G' !! a = Some ag -> r ∈ ag_regions ag -> ~ in_reg r x) -> hmem s' x = hmem s x
}.

(** An arena with a block, or a permanent one, is initialised. *)
Lemma arena_of s G a ag : heap_ok cfg s G -> G !! a = Some ag -> ag_regions ag <> [] ->
  exists A, vg_arena s !! a = Some A /\ up s a = true /\ arena_ok (hp_overhead_szB s) (hmem s) (os s) A ag.
Proof using Type.
  intros Hok HG Hr. destruct (ho_len _ _ _ Hok) as [L1 L2]. destruct (lookup_len (vg_arena s) G a ag ltac:(congruence) HG) as [A HA].
  exists A. split; [done|]. destruct (up s a) eqn:Hup; [split; [done|]; by apply (ho_up _ _ _ Hok a A ag HA HG Hup)|].
  by destruct (ho_down _ _ _ Hok a A ag HA HG Hup) as [_ ->].
Qed.

Lemma blk_regions ag b : b ∈ ag_blks ag -> ag_regions ag <> [].
Proof using Type.
  intros (sb & Hs & _)%ag_blks_elem E. assert (sb_reg sb ∈ ag_regions ag) as Hr by (apply elem_of_app; left; apply list_elem_of_fmap; by exists sb).
  rewrite E in Hr. by apply not_elem_of_nil in Hr.
Qed.

(** A byte is in one block at most, and not in a permanent region then. *)
Lemma blk_byte s G a a' ag ag' b c x : heap_ok cfg s G -> G !! a = Some ag -> G !! a' = Some ag' ->
  b ∈ ag_blks ag -> c ∈ ag_blks ag' -> in_blk b x -> in_blk c x -> a = a' /\ b = c.
Proof using Type.
  intros Hok HG HG' Hb Hc Hbx Hcx. destruct (arena_of s G a ag Hok HG (blk_regions _ _ Hb)) as (A & HA & _ & Ho).
  destruct (arena_of s G a' ag' Hok HG' (blk_regions _ _ Hc)) as (A' & HA' & _ & Ho').
  destruct (decide (a = a')) as [->|Hne].
  - split; [done|]. simplify_eq. destruct (decide (b = c)) as [|Hbc]; [done|]. destruct (blks_apart _ _ _ _ _ Ho) as [_ Hd].
    specialize (Hd b c Hb Hc Hbc). unfold bdisj, in_blk in *. lia.
  - destruct (blk_region _ _ _ _ _ Ho b Hb) as (r & Hr & Hrx). destruct (blk_region _ _ _ _ _ Ho' c Hc) as (q & Hq' & Hqx).
    pose proof (ho_apart _ _ _ Hok a a' ag ag' r q Hne HG HG' Hr Hq') as Hd. specialize (Hrx x Hbx). specialize (Hqx x Hcx).
    unfold rdisj, in_reg in *. lia.
Qed.

Lemma perm_byte s G a a' ag ag' r c x : heap_ok cfg s G -> G !! a = Some ag -> G !! a' = Some ag' ->
  r ∈ ag_perm ag -> c ∈ ag_blks ag' -> in_reg r x -> ~ in_blk c x.
Proof using Type.
  intros Hok HG HG' Hr Hc Hx Hcx. destruct (arena_of s G a' ag' Hok HG' (blk_regions _ _ Hc)) as (A' & HA' & _ & Ho').
  assert (r ∈ ag_regions ag) as Hrr by (apply elem_of_app; by right). destruct (decide (a = a')) as [->|Hne].
  - simplify_eq. apply ag_blks_elem in Hc as (sb & Hsb & Hcs). destruct (ao_perm _ _ _ _ _ Ho' r Hr) as [Hd _]. specialize (Hd sb Hsb).
    destruct (blk_place _ _ _ _ _ Ho' sb c Hsb Hcs). unfold rdisj, in_reg, sb_reg, in_blk, spay, send in *. cbn in *. lia.
  - destruct (blk_region _ _ _ _ _ Ho' c Hc) as (q & Hq' & Hqx). specialize (Hqx x Hcx).
    pose proof (ho_apart _ _ _ Hok a a' ag ag' r q Hne HG HG' Hrr Hq') as Hd. unfold rdisj, in_reg in *. lia.
Qed.

(** Changes in free blocks, in a new region, and in the blocks [skip] of one
    arena leave the rest alone. *)
Lemma keeps_intro (skip : blk -> Prop) s G s' G' (new : Z -> Prop) : heap_ok cfg s G ->
  (forall x, (forall a ag b, G !! a = Some ag -> b ∈ ag_blks ag -> is_free b \/ skip b -> ~ in_blk b x) -> ~ new x -> hmem s' x = hmem s x) ->
  (forall x, new x -> (forall a ag r, G !! a = Some ag -> r ∈ ag_regions ag -> ~ in_reg r x) /\
     exists a ag r, G' !! a = Some ag /\ r ∈ ag_regions ag /\ in_reg r x) ->
  keeps skip G s G' s'.
Proof using Type.
  intros Hok Hx Hnew.
  assert (forall a ag b x, G !! a = Some ag -> b ∈ ag_blks ag -> in_blk b x -> exists r, r ∈ ag_regions ag /\ in_reg r x) as Hbr.
  { intros a ag b x HG Hb Hi. destruct (arena_of s G a ag Hok HG (blk_regions _ _ Hb)) as (A & _ & _ & Ho).
    destruct (blk_region _ _ _ _ _ Ho b Hb) as (r & Hr & Hrx). exists r. split; [done|by apply Hrx]. }
  split.
  - intros a ag b x HG Hb Hu Hsk Hi. apply Hx.
    + intros a' ag' c HG' Hc Hf Hci. destruct (blk_byte s G a a' ag ag' b c x) as [_ ->]; try done.
      destruct Hf as [Hf|]; [unfold is_free, is_used in *; congruence|done].
    + intros Hn. destruct (Hnew x Hn) as [Hout _]. destruct (Hbr a ag b x HG Hb Hi) as (r & Hr & Hri). by apply (Hout a ag r).
  - intros a ag r x HG Hr Hi. apply Hx.
    + intros a' ag' c HG' Hc _. by apply (perm_byte s G a a' ag ag' r c x).
    + intros Hn. destruct (Hnew x Hn) as [Hout _]. apply (Hout a ag r); [done|apply elem_of_app; by right|done].
  - intros x Hout. apply Hx.
    + intros a ag b HG Hb _ Hi. destruct (Hbr a ag b x HG Hb Hi) as (r & Hr & Hri). by apply (Hout a ag r); [left| |].
    + intros Hn. destruct (Hnew x Hn) as (_ & a & ag & r & HG & Hr & Hri). by apply (Hout a ag r); [right| |].
Qed.

Lemma shrunk_arena s G s1 G1 a ag1 : heap_ok cfg s G -> heap_quiet s G s1 G1 -> G1 !! a = Some ag1 ->
  exists A A1 ag, vg_arena s !! a = Some A /\ vg_arena s1 !! a = Some A1 /\ G !! a = Some ag /\ shrunk A ag A1 ag1.
Proof using Type.
  intros Hok Hq HG1. destruct (ho_len _ _ _ Hok) as [L1 L2]. destruct (lookup_len G G1 a ag1 (proj2 (hq_len _ _ _ _ Hq)) HG1) as [ag HG].
  destruct (lookup_len (vg_arena s) G a ag ltac:(congruence) HG) as [A HA].
  destruct (hq_arena _ _ _ _ Hq a A ag HA HG) as (A1 & ag1' & HA1 & HG1' & Hs). assert (ag1' = ag1) as -> by congruence. by exists A, A1, ag.
Qed.

Lemma keeps_quiet skip s G s1 G1 G2 s2 : heap_ok cfg s G -> heap_quiet s G s1 G1 -> keeps skip G1 s1 G2 s2 -> keeps skip G s G2 s2.
Proof using Type.
  intros Hok Hq [K1 K2 K3]. destruct (ho_len _ _ _ Hok) as [L1 L2].
  assert (keeps (fun _ => False) G s G1 s1) as [Q1 Q2 Q3].
  { apply (keeps_intro _ _ _ _ _ (fun _ => False)); [done| |done]. intros x Hx _. apply (hq_mem _ _ _ _ Hq). intros a ag b HG Hb Hf. apply (Hx a ag b); auto. }
  assert (forall a ag, G !! a = Some ag -> exists A A1 ag1, G1 !! a = Some ag1 /\ shrunk A ag A1 ag1) as Hsh.
  { intros a ag HG. destruct (lookup_len (vg_arena s) G a ag ltac:(congruence) HG) as [A HA].
    destruct (hq_arena _ _ _ _ Hq a A ag HA HG) as (A1 & ag1 & _ & HG1 & Hs). by exists A, A1, ag1. }
  split.
  - intros a ag b x HG Hb Hu Hsk Hx. destruct (Hsh a ag HG) as (A & A1 & ag1 & HG1 & Hs).
    rewrite (K1 a ag1 b x); try done; [by apply (Q1 a ag b x); auto|].
    assert (b ∈ filter is_used (ag_blks ag)) as Hi by (by apply list_elem_of_filter). rewrite <- (sh_used _ _ _ _ Hs) in Hi.
    by apply list_elem_of_filter in Hi as [_ ?].
  - intros a ag r x HG Hr Hx. destruct (Hsh a ag HG) as (A & A1 & ag1 & HG1 & Hs).
    rewrite (K2 a ag1 r x); [by apply (Q2 a ag r x)|done|by rewrite (proj1 (sh_perm _ _ _ _ Hs))|done].
  - assert (forall x, (forall a ag r, G !! a = Some ag \/ G2 !! a = Some ag -> r ∈ ag_regions ag -> ~ in_reg r x) ->
      forall a ag r, G1 !! a = Some ag -> r ∈ ag_regions ag -> ~ in_reg r x) as H1.
    { intros x Hx a ag1 r HG1 Hr. destruct (shrunk_arena s G s1 G1 a ag1 Hok Hq HG1) as (A & A1 & ag & _ & _ & HG & Hs).
      apply (Hx a ag r); [by left|by apply Hs]. }
    intros x Hx. rewrite K3; [apply Q3|]; intros a ag r [HG|HG] Hr.
    + by apply (Hx a ag r); [left|].
    + by apply (H1 x Hx a ag r).
    + by apply (H1 x Hx a ag r).
    + by apply (Hx a ag r); [right|].
Qed.

(** ** A new superblock and its place in the array *)

Section Place.
Context (a : nat) (s : MST) (Ha : (a < length (vg_arena s))%nat).
Abbreviation hp := (hp_overhead_szB s).
Abbreviation St A m o := (at_arena a A m o s).

Lemma wp_grow_sblocks A m o k Q : sblocks_size A = Z.of_nat (length (sblocks A)) -> 0 <= sblocks_used A <= sblocks_size A ->
  0 < sblocks_size A -> 0 <= k -> core_space o (16 * sblocks_size A + 4096 + k) ->
  (forall o' L sz, take (Z.to_nat (sblocks_used A)) L = take (Z.to_nat (sblocks_used A)) (sblocks A) -> sz = Z.of_nat (length L) ->
     sblocks_used A < sz /\ sblocks_size A <= sz -> (sz = sblocks_size A \/ sz = 2 * sblocks_used A) ->
     (forall cl p n, 0 < n -> mapped o cl p n -> mapped o' cl p n) -> core_space o' k ->
     Q tt (St (set_sblocks L sz (sblocks_used A) A) m o')) ->
  wp (grow_sblocks a) (St A m o) Q.
Proof using All.
  intros Es Hu Hpos Hk Hsp HQ. unfold grow_sblocks. apply wp_bind, wp_the_arena; [done|].
  apply wp_bind, wp_m_assert; [apply Z.leb_le; lia|]. destruct (Z.eqb_spec (sblocks_used A) (sblocks_size A)) as [E|E].
  - apply wp_bind, wp_gets. cbn [os at_arena].
    destruct (mmap_core (8 * sblocks_size A * 2) k o) as [[p o'] Em]; [lia|done|by replace (8 * sblocks_size A * 2 + 4096 + k) with (16 * sblocks_size A + 4096 + k) by lia|].
    rewrite Em. apply wp_bind, wp_modify. unfold set_os. cbn [at_arena hmem vg_arena client_inited nonclient_inited hp_overhead_szB client_rz_szB].
    change (mk_mst m o' (<[a:=A]> (vg_arena s)) (client_inited s) (nonclient_inited s) hp (client_rz_szB s)) with (St A m o').
    apply wp_on_arena; [done|]. destruct (mmap_ok false (8 * sblocks_size A * 2) o p o' ltac:(lia) Em) as (_ & _ & _ & _ & Hmp).
    apply HQ.
    + rewrite take_app_le by (rewrite length_take; lia). by rewrite take_take, Nat.min_id.
    + rewrite length_app, length_take, length_replicate. lia.
    + lia.
    + right. lia.
    + intros cl q n Hn Hm. by apply Hmp.
    + eapply mmap_space; [| |exact Hsp|]; [|done|]. 2: { by replace (16 * sblocks_size A) with (8 * sblocks_size A * 2) by lia. } lia.
  - apply wp_ret. assert (A = set_sblocks (sblocks A) (sblocks_size A) (sblocks_used A) A) as -> by by destruct A.
    apply HQ; try done; [cbn; lia|by left|]. eapply space_less; [|exact Hsp]. lia.
Qed.

Lemma wp_insert_sblock A m o (S1 S2 : list sblk) p L sz Q : sz = Z.of_nat (length L) -> sblocks_used A = Z.of_nat (length (S1 ++ S2)) ->
  sblocks_used A < sz -> take (length (S1 ++ S2)) L = saddr <$> S1 ++ S2 ->
  (forall x, x ∈ S1 -> saddr x <= p) -> (forall x, x ∈ S2 -> p < saddr x) ->
  (forall L', length L' = length L -> take (S (length (S1 ++ S2))) L' = (saddr <$> S1) ++ p :: (saddr <$> S2) ->
     Q tt (St (set_sblocks L' sz (sblocks_used A + 1) A) m o)) ->
  wp (insert_sblock a p) (St (set_sblocks L sz (sblocks_used A) A) m o) Q.
Proof using All.
  intros Esz Eu Hlt Ht H1 H2 HQ. unfold insert_sblock. apply wp_bind, wp_the_arena; [done|]. cbn [sblocks_used sblocks_size set_sblocks sblocks].
  apply wp_bind, wp_m_assert; [by apply Z.ltb_lt|]. apply wp_on_arena; [done|].
  rewrite Eu, Nat2Z.id. rewrite fmap_app in Ht.
  assert (length (S1 ++ S2) = length ((saddr <$> S1) ++ (saddr <$> S2))) as El by (by rewrite !length_app, !length_fmap).
  pose proof (insert_down_spec (saddr <$> S1) p (saddr <$> S2) L) as Hid. rewrite <- El in Hid.
  rewrite Hid; [|done|lia| |].
  - rewrite <- Eu. apply HQ.
    + rewrite !length_app. cbn. rewrite !length_app, !length_fmap, length_drop. rewrite length_app in *. lia.
    + rewrite app_comm_cons, app_assoc, take_app_length'; [done|]. rewrite !length_app. cbn. rewrite !length_fmap. lia.
  - apply Forall_fmap, Forall_forall. exact H1.
  - apply Forall_fmap, Forall_forall. exact H2.
Qed.
End Place.

(** The accounts when a superblock of one free block is new *)
Lemma accounts_new hp A ag S1 S2 sb b fl st A' : accounts hp A ag -> ag_sbs ag = S1 ++ S2 -> sblks sb = [b] -> is_free b ->
  bytes_mmaped st = u64 (bytes_mmaped (stats A) + (32 + sbytes sb)) -> bytes_on_loan st = bytes_on_loan (stats A) ->
  perm_bytes_on_loan st = perm_bytes_on_loan (stats A) -> stats A' = st -> geo_of hp A' = geo_of hp A ->
  accounts hp A' (AG (S1 ++ sb :: S2) fl (ag_perm ag) (ag_chunks ag)).
Proof using Type.
  intros [A1 A2] Es Eb Hf E1 E2 E3 Est Eg. set (ag2 := AG (S1 ++ sb :: S2) fl (ag_perm ag) (ag_chunks ag)). split; rewrite Est, ?Eg.
  - rewrite E2, E3, A1. do 2 f_equal. unfold loaned, ag_blks, ag2. cbn [ag_sbs]. rewrite Es.
    rewrite (filter_used_remove S1 sb S2); [done|]. rewrite Eb. by intros c ->%list_elem_of_singleton.
  - rewrite E1, A2. rewrite (mapped_bytes_remove ag2 S1 sb S2 (ag_fl ag) (ag_chunks ag) eq_refl).
    assert (AG (S1 ++ S2) (ag_fl ag) (ag_perm ag2) (ag_chunks ag) = ag) as -> by (unfold ag2; cbn; rewrite <- Es; by destruct ag).
    unfold u64. by rewrite Zplus_mod_idemp_l.
Qed.

(** The arena [A1] of [s1] with the new superblock [sb] of one free block [b],
    which is in the list [i] *)
Record new_block s1 G1 (k req : Z) A1 ag1 A2 ag2 m2 (o2 : OS) (S1 S2 : list sblk) sb b (i : nat) (l : list blk) : Prop := {
  nb_ok : arena_ok (hp_overhead_szB s1) m2 o2 A2 ag2;
  nb_accounts : accounts (hp_overhead_szB s1) A2 ag2;
  nb_sbs : ag_sbs ag1 = S1 ++ S2 /\ ag_sbs ag2 = S1 ++ sb :: S2 /\ ag_perm ag2 = ag_perm ag1 /\ ag_chunks ag2 = ag_chunks ag1;
  nb_blk : sblks sb = [b] /\ is_free b /\ ag_fl ag2 !! i = Some l /\ b ∈ l /\ req <= bsz b;
  nb_bytes : bytes_ok m2;
  nb_mem x : ~ in_reg (sb_reg sb) x -> (forall c, c ∈ ag_blks ag1 -> is_free c -> ~ in_blk c x) -> m2 x = hmem s1 x;
  nb_fresh a h r : G1 !! a = Some h -> r ∈ ag_regions h -> rdisj r (sb_reg sb);
  nb_mapped cl q n : 0 < n -> mapped (os s1) cl q n -> mapped o2 cl q n;
  nb_space : core_space o2 k;
  nb_same : deferred_reclaimed_sb A2 = deferred_reclaimed_sb A1 /\ clientmem A2 = clientmem A1 /\ rz_szB A2 = rz_szB A1 /\
    min_unsplittable_sblock_szB A2 = min_unsplittable_sblock_szB A1 /\ perm_bytes_on_loan (stats A2) = perm_bytes_on_loan (stats A1);
  nb_size : sblocks_size A2 = sblocks_size A1 \/ sblocks_size A2 = 2 * Z.of_nat (length (ag_sbs ag1));
  nb_unsplit : sunsplit sb = (min_unsplittable_sblock_szB A1 <=? 32 + sbytes sb)
}.

(** The new superblock at [p] is put into the array, and its block into a
    list. *)
Lemma wp_place_superblock a s1 G1 A1 ag1 A2 m1 o1 p n us req k lit Q : heap_ok cfg s1 G1 -> up s1 a = true -> vg_arena s1 !! a = Some A1 ->
  G1 !! a = Some ag1 -> new_sb A1 (hmem s1) (os s1) A2 m1 o1 p n us -> g_ovh (geo_of (hp_overhead_szB s1) A1) <= req -> req + 32 <= n ->
  n < 2 ^ 64 -> n mod 4096 = 0 -> 0 <= k -> core_space o1 (16 * sblocks_size A1 + 4096 + k) ->
  (forall A3 ag3 m3 o3 S1 S2 sb b i l, new_block s1 G1 k req A1 ag1 A3 ag3 m3 o3 S1 S2 sb b i l ->
     Q (Some (baddr b, Z.of_nat i, negb (sunsplit sb))) (at_arena a A3 m3 o3 s1)) ->
  wp (grow_sblocks a ;;; insert_sblock a p ;;; n <- ld p ;; pszB <- bszB_to_pszB a n ;; lno <- pszB_to_listNo pszB ;;
      mkFreeBlock a (payload_bytes p) n lno ;;; profile_cc cfg (payload_bytes p) lit ;;;
      us <- ld (p + 8) ;; ret (Some (payload_bytes p, lno, us =? 0))) (at_arena a A2 m1 o1 s1) Q.
Proof using Hcfg.
  intros Hok Hup HA HG [N1 N2 [N3 N3'] N4 (st & -> & N5 & N6 & N7) N8] Hov Hn Hn64 Hn4 Hk Hsp HQ.
  destruct (ho_up _ _ _ Hok a A1 ag1 HA HG Hup) as [(Hao & Hty & Hac) _].
  assert (a < length (vg_arena s1))%nat as Ha by (by eapply lookup_lt_Some).
  pose proof (hp_of_up cfg s1 G1 a Hok Hup) as Hhp.
  set (g := geo_of (hp_overhead_szB s1) A1) in *. pose proof (ao_geo _ _ _ _ _ Hao) as Hg. fold g in Hg. destruct (geo_hp g Hg) as [Hh1 Hh2].
  destruct (mmap_ok (clientmem A1) n (os s1) p o1 ltac:(lia) N1) as (P1 & P2 & P3 & P4 & P5).
  destruct (ao_count _ _ _ _ _ Hao) as (C1 & C2 & C3 & C4).
  set (b := Blk (p + 32) (n - 32) false). set (sb := Sblk p (n - 32) us [b]).
  assert (forall a' h r, G1 !! a' = Some h -> r ∈ ag_regions h -> rdisj r (sb_reg sb)) as Hfresh.
  { intros a' h r Hh Hr. destruct (arena_of s1 G1 a' h Hok Hh) as (A' & _ & _ & Ho); [intros E; rewrite E in Hr; by apply not_elem_of_nil in Hr|].
    destruct (ao_mapped _ _ _ _ _ Ho r Hr) as (R1 & R2 & R3 & R4). destruct (P5 _ _ _ R2 R4) as [_ Hd]. unfold rdisj, sb_reg. cbn. lia. }
  assert (forall c x, c ∈ ag_blks ag1 -> in_blk c x -> ~ in_reg (sb_reg sb) x) as Hfb.
  { intros c x Hc Hi Hx. destruct (blk_region _ _ _ _ _ Hao c Hc) as (r & Hr & Hri). specialize (Hri x Hi).
    specialize (Hfresh a ag1 r HG Hr). unfold rdisj, in_reg in *. lia. }
  destruct (sorted_place (ag_sbs ag1) sb) as (S1 & S2 & Es & HS1 & HS2).
  { apply Hao. } { intros x Hx. apply (Hfresh a ag1); [done|]. apply elem_of_app. left. apply list_elem_of_fmap. by exists x. }
  { intros x Hx. by destruct (ao_sbs _ _ _ _ _ Hao x Hx) as [[] _]. } { cbn. lia. }
  apply wp_bind. apply (wp_grow_sblocks a s1 Ha (set_stats st A1) m1 o1 k); cbn [sblocks_size sblocks sblocks_used set_stats]; [done|lia|unfold SBLOCKS_SIZE_INITIAL in C4; lia|done|done|].
  intros o2 L sz HL Hsz [Hlt Hle] Hszs Hmp2 Hsp2.
  apply wp_bind. eapply (wp_insert_sblock a s1 Ha (set_stats st A1) m1 o2 S1 S2 p L sz); cbn [sblocks_used set_stats].
  { done. } { by rewrite C1, Es. } { done. }
  { rewrite C1, Nat2Z.id, Es in HL. rewrite HL. rewrite <- Es. apply Hao. }
  { intros x Hx. specialize (HS1 x Hx). destruct (ao_sbs _ _ _ _ _ Hao x ltac:(rewrite Es; apply elem_of_app; by left)) as [[] _]. unfold slt, send in HS1. cbn in HS1. lia. }
  { intros x Hx. specialize (HS2 x Hx). unfold slt, send in HS2. cbn in HS2. lia. }
  intros L' HL'1 HL'2. apply wp_bind, wp_ld. rewrite N3.
  apply wp_bind. eapply (wp_bszB_to_pszB a s1 g); [done..|lia|].
  assert (blk_wf g b) as Hwb.
  { assert (p mod 16 = 0 /\ (n - 32) mod 16 = 0) as [M1 M2] by (Z.div_mod_to_equations; lia).
    unfold b. repeat split; cbn; [lia|by rewrite Z.add_mod, M1|done|fold g; lia|unfold bend; cbn; lia]. }
  apply wp_bind, wp_pszB_to_listNo; [by apply payload_mod, Hwb|].
  assert (forall c, c ∈ mjoin (ag_fl ag1) -> bdisj b c) as Hdb.
  { intros c Hc%(free_elem _ _ _ _ _ Hao). destruct Hc as [Hc _]. pose proof (blks_wf _ _ _ _ _ Hao c Hc) as Hwc.
    destruct (blk_region _ _ _ _ _ Hao c Hc) as (r & Hr & Hri). specialize (Hfresh a ag1 r HG Hr).
    pose proof (blk_wf_pos _ c Hg Hwc) as (Hsc & _). pose proof (Hri (baddr c)) as R1. pose proof (Hri (bend c - 1)) as R2.
    unfold rdisj, in_reg, in_blk, bdisj, sb_reg, bend, b in *. cbn [baddr bsz fst snd saddr sbytes sb] in *. lia. }
  apply wp_bind. eapply (wp_list_block cfg a s1 Ha Hhp _ _ _ g _ m1 o2 (ag_fl ag1) b); [done|done|done|done|done|done|done| |done|done|].
  { eapply fl_ok_ext; [done| |apply (ao_lists _ _ _ _ _ Hao)]. intros c x Hc%(free_elem _ _ _ _ _ Hao) Hi. apply N4.
    intros Hx. apply (Hfb c x); [apply Hc|done|]. unfold in_reg, sb_reg. cbn. lia. }
  intros m3 F fl Hm3 Hls3 Hp3 Hx3.
  apply wp_bind, (wp_profile_cc cfg a s1 Ha Hhp _ _ b); [done|done|]. intros m4 Hm4 Hx4. change (hp_overhead_szB s1) with (g_hp g) in Hx4.
  assert (forall x, p <= x < p + 32 -> m4 x = m1 x) as Hhead.
  { intros x Hx. rewrite Hx4 by (cbn; lia). apply Hx3; [unfold in_blk, b; cbn; lia|].
    intros (c & Hc & _ & Hci)%(free_link _ _ _ _ _ Hao). apply (Hfb c x Hc Hci). unfold in_reg, sb_reg. cbn. lia. }
  assert (load_le 8 m4 p = n - 32 /\ load_le 8 m4 (p + 8) = if us then p else 0) as [E1 E2].
  { split; [rewrite <- N3|rewrite <- N3']; apply load_le_ext; intros x Hx; apply Hhead; lia. }
  apply wp_bind, wp_ld. rewrite E2. apply wp_ret.
  destruct (fo_join _ _ _ _ b Hls3) as (i & l & Hi & Hbl); [rewrite Hp3; by left|].
  destruct (fo_item _ _ _ _ Hls3 i l b Hi Hbl) as (_ & _ & _ & Ei).
  assert (((if us then p else 0) =? 0) = negb us) as -> by (destruct us; [apply Z.eqb_neq; lia|done]).
  change (payload_bytes p) with (baddr b). change (listNo (n - 32 - g_ovh g)) with (listNo (bsz b - g_ovh g)). rewrite Ei.
  change (negb us) with (negb (sunsplit sb)).
  assert (forall x, ~ in_reg (sb_reg sb) x -> ~ link_byte g (mjoin (ag_fl ag1)) x -> m4 x = hmem s1 x) as Hmem.
  { unfold in_reg, sb_reg. cbn. intros x Hx Hl. rewrite Hx4 by (unfold b; cbn [baddr]; lia). rewrite Hx3; [apply N4; lia|unfold in_blk, bend, b; cbn; lia|done]. }
  change (set_freelist F (set_sblocks L' sz (sblocks_used (set_stats st A1) + 1) (set_stats st A1)))
    with (set_lists F st (set_sblocks L' sz (sblocks_used A1 + 1) A1)).
  eapply (HQ _ (AG (S1 ++ sb :: S2) fl (ag_perm ag1) (ag_chunks ag1)) m4 o2 S1 S2 sb b i l). split; try done.
  - eapply (arena_insert _ (hmem s1) (os s1) A1 ag1 S1 S2 sb b); try done.
    + split; cbn; [done|Z.div_mod_to_equations; lia|lia|unfold send; cbn; lia|unfold spay, send, bend; cbn; split; [done|lia]| |].
      { by intros c ->%list_elem_of_singleton. } { unfold send. cbn. replace (p + 32 + (n - 32)) with (p + n) by lia. by rewrite Z.add_mod, P2, Hn4. }
    + intros r Hr. by apply (Hfresh a ag1).
    + eapply fl_ok_body; [done| |exact Hls3]. intros c x Hc Hi'. fold g in Hi'. apply Hx4. rewrite Hp3 in Hc.
      apply elem_of_cons in Hc as [->|Hc]; [unfold in_body in Hi'; lia|]. specialize (Hdb c Hc). unfold in_body, bdisj, bend, b in *.
      cbn [baddr bsz] in *. lia.
    + intros r Hr Hmr. destruct (ao_mapped _ _ _ _ _ Hao r Hr) as (_ & R2 & _). apply Hmp2; [done|]. by apply P5.
    + cbn. replace (32 + (n - 32)) with n by lia. apply Hmp2; [lia|done].
    + by rewrite HL'1.
    + lia.
    + rewrite fmap_app, fmap_cons. cbn [saddr sb]. rewrite <- HL'2. f_equal. rewrite !length_app. cbn. lia.
  - eapply (accounts_new _ A1 ag1 S1 S2 sb b fl st); try done. cbn. by replace (32 + (n - 32)) with n by lia.
  - split_and!; try done. unfold b. cbn. lia.
  - intros x Hx Hf. apply Hmem; [done|]. intros (c & Hc & Hcf & Hci)%(free_link _ _ _ _ _ Hao). by apply (Hf c).
  - intros cl q n' Hn' Hmq. apply Hmp2; [done|]. by apply P5.
  - cbn. destruct Hszs as [->| ->]; [by left|right]. by rewrite C1.
  - cbn. rewrite N8. by replace (32 + (n - 32)) with n by lia.
Qed.

Definition request_cost A (req : Z) : Z := sb_size (min_sblock_szB A) req + 4096 + (16 * sblocks_size A + 4096).

Lemma wp_new_free_block a s G A ag req k Q : heap_ok cfg s G -> up s a = true -> vg_arena s !! a = Some A -> G !! a = Some ag ->
  g_ovh (geo_of (hp_overhead_szB s) A) <= req -> req + 2 ^ 13 < 2 ^ 64 -> req mod 16 = 0 -> 0 <= k ->
  core_space (os s) (request_cost A req + k) ->
  (forall s1 G1 A1 ag1 A2 ag2 m2 o2 S1 S2 sb b i l, heap_ok cfg s1 G1 -> heap_quiet s G s1 G1 ->
     vg_arena s1 !! a = Some A1 -> G1 !! a = Some ag1 -> new_block s1 G1 k req A1 ag1 A2 ag2 m2 o2 S1 S2 sb b i l ->
     Q (Some (baddr b, Z.of_nat i, negb (sunsplit sb))) (at_arena a A2 m2 o2 s1)) ->
  (a = VG_AR_CLIENT -> forall s1 G1, heap_ok cfg s1 G1 -> heap_quiet s G s1 G1 -> Q None s1) ->
  wp (new_free_block cfg a req) s Q.
Proof using Hcfg.
  intros Hok Hup HA HG Hov Hlt H16 Hk Hsp HQ HQ0. destruct (ho_up _ _ _ Hok a A ag HA HG Hup) as [(Hao & _) Hcl].
  pose proof (ao_geo _ _ _ _ _ Hao) as Hg0. pose proof (geo_sizes _ Hg0) as Hgs.
  pose proof (ao_min _ _ _ _ _ Hao) as Hmin. destruct (sb_size_bounds (min_sblock_szB A) req ltac:(lia) Hlt Hmin) as (Hs1 & Hs2 & _).
  set (n := sb_size (min_sblock_szB A) req) in *. destruct (ao_count _ _ _ _ _ Hao) as (_ & _ & _ & Hsz). unfold SBLOCKS_SIZE_INITIAL in Hsz.
  unfold new_free_block. apply wp_bind. unfold request_cost in Hsp. fold n in Hsp.
  eapply (wp_newSuperblock cfg a s G A ag req (16 * sblocks_size A + 4096 + k)); [done..|lia|lia|lia| | |].
  { right. fold n. by replace (n + 4096 + (16 * sblocks_size A + 4096 + k)) with (n + 4096 + (16 * sblocks_size A + 4096) + k) by lia. }
  2: { intros Hc s1 G1 Hok1 Hq. rewrite Z.eqb_refl. assert (a = VG_AR_CLIENT) as -> by (apply Nat.eqb_eq; congruence).
       apply wp_bind, wp_m_assert; [done|]. by apply wp_ret, (HQ0 eq_refl s1 G1). }
  intros s1 G1 A1 m1 o1 p us Hok1 Hq HA1 A2 HN. fold n in HN.
  destruct (hq_arena _ _ _ _ Hq a A ag HA HG) as (A1' & ag1 & HA1' & HG1 & Hsh). assert (A1' = A1) as -> by congruence.
  pose proof HN as [N1 _ _ _ _ _]. destruct (mmap_ok (clientmem A1) n (os s1) p o1 ltac:(lia) N1) as (P1 & _).
  rewrite (proj2 (Z.eqb_neq _ _)) by lia.
  destruct Hsh as [(E1 & E2 & E3 & E4 & E5 & E6) _ _ _ _ _]. destruct (hq_flags _ _ _ _ Hq) as (F1 & F2 & F3 & F4).
  eapply (wp_place_superblock a s1 G1 A1 ag1 A2 m1 o1 p n us req k); [done| |done|done|done| |lia| |done|lia| |].
  - unfold up in *. by rewrite F1, F2.
  - unfold geo_of in *. by rewrite F3, E1, E2.
  - destruct (Z.max_spec (req + 32) (min_sblock_szB A)); lia.
  - rewrite E5. eapply (mmap_space (clientmem A1) n); [lia| | |exact N1]; [lia|]. apply (hq_space _ _ _ _ Hq).
    eapply space_less; [|exact Hsp]. lia.
  - intros A3 ag3 m3 o3 S1 S2 sb b i l Hnb. by apply (HQ s1 G1 A1 ag1 A3 ag3 m3 o3 S1 S2 sb b i l).
Qed.
End Request.
