(* ===== verification/MallocDone.v ===== *)
(** [arena_malloc], from initialisation to the block that is returned. *)
From stdpp Require Import base list sorting.
From Stdlib Require Import ZArith Lia.
From S2P Require Import Prelude Mem LibcMem Malloc MallocBlocks MallocLists MallocInv MallocSb MallocInit MallocAlloc MallocRequest.
Open Scope prog_scope.
Open Scope Z_scope.

Section Done.
Context {OS : Type} `{AddressSpaceLaws OS} (cfg : heap_config) (Hcfg : cfg_ok cfg).
Abbreviation MST := (mst (OS := OS)).
Implicit Types (s : MST) (m : gmem) (o : OS) (A : Arena) (ag : aghost) (G : list aghost) (b c : blk) (sb : sblk).

(** ** Statistics *)

Lemma wp_add_one_block a s A m o loaned Q : (a < length (vg_arena s))%nat ->
  (forall st, bytes_on_loan st = u64 (bytes_on_loan (stats A) + loaned) -> bytes_mmaped st = bytes_mmaped (stats A) ->
     perm_bytes_on_loan st = perm_bytes_on_loan (stats A) -> Q tt (at_arena a (set_stats st A) m o s)) ->
  wp (add_one_block_to_stats a loaned) (at_arena a A m o s) Q.
Proof using Type.
  intros Ha HQ. unfold add_one_block_to_stats. do 2 (apply wp_bind, wp_on_stats; [done|]). apply wp_on_stats; [done|].
  match goal with |- Q tt (at_arena a ?A' m o s) => change A' with (set_stats (stats A') A) end.
  apply HQ; cbn; destruct (_ <? _); cbn; try done; destruct (_ <=? _); done.
Qed.

(** ** Tidiness *)

(** The free block [c] of a tidy superblock is used. *)
Lemma tidy_taken (d : Z -> Prop) sb l1 c l2 req split r mid : merged (sblks sb) ->
  sblks sb = l1 ++ c :: l2 -> is_free c -> taken c req split r mid -> (sunsplit sb = true -> split = false /\ l1 = [] /\ l2 = []) ->
  sb_tidy d (Sblk (saddr sb) (sbytes sb) (sunsplit sb) (l1 ++ mid ++ l2)).
Proof using Type.
  intros Hm Eb Hf Ht Hu. rewrite Eb in Hm. destruct (merged_free l1 c l2 Hm Hf) as [_ H2].
  pose proof (merged_r (l1 ++ [c]) l2) as Hl2. rewrite <- app_assoc in Hl2. specialize (Hl2 Hm).
  split; cbn.
  - destruct Ht; cbn [app]; (apply merged_used; [done|by eapply merged_l|]); [done|]. split; [|done].
    destruct l2 as [|e l2]; [done|]. right. by apply (H2 e l2).
  - intros Hun. destruct (Hu Hun) as (-> & -> & ->). inversion Ht; subst. exists (Blk (baddr c) (bsz c) true). by rewrite app_nil_r.
  - intros b Eb' Hbf. exfalso. destruct Ht, l1 as [|e l1]; cbn in Eb'; try (by destruct l1); injection Eb' as <- _; done.
Qed.
(** Two regions without a common byte *)
Lemma rdisj_bytes r q : 0 < r.2 -> 0 < q.2 -> (forall x, in_reg r x -> ~ in_reg q x) -> rdisj r q.
Proof using Type.
  intros Hr Hq Hx. unfold rdisj, in_reg in *. specialize (Hx (Z.max r.1 q.1)). lia.
Qed.

(** ** What allocation does *)

(** No arena has more than [n] superblocks. *)
Definition array_room (n : Z) : Z := Z.max 50 (2 * n).
Definition small (n : Z) s G : Prop := forall a A ag, vg_arena s !! a = Some A -> G !! a = Some ag ->
  Z.of_nat (length (ag_sbs ag)) <= n /\ sblocks_size A <= array_room n.

(** The blocks in use and the permanent ones of the arenas other than [a] *)
Definition others_kept (a : nat) G G' : Prop := forall a' ag, a' <> a -> G !! a' = Some ag -> exists ag', G' !! a' = Some ag' /\
  filter is_used (ag_blks ag') = filter is_used (ag_blks ag) /\ ag_perm ag' = ag_perm ag /\ ag_chunks ag' = ag_chunks ag.

(** The layout of the blocks of an arena is settled once. *)
Definition geo_kept s s' : Prop := forall a A, up s a = true -> vg_arena s !! a = Some A ->
  exists A', vg_arena s' !! a = Some A' /\ geo_of (hp_overhead_szB s') A' = geo_of (hp_overhead_szB s) A.

Lemma geo_kept_arena a s A A' m o : vg_arena s !! a = Some A -> geo_of (hp_overhead_szB s) A' = geo_of (hp_overhead_szB s) A ->
  geo_kept s (at_arena a A' m o s).
Proof using Type.
  intros HA E a' B Hup HB. cbn [vg_arena at_arena hp_overhead_szB]. destruct (decide (a' = a)) as [->|Hne].
  - exists A'. rewrite list_lookup_insert_eq by (by eapply lookup_lt_Some). split; [done|]. assert (B = A) as -> by congruence. done.
  - exists B. by rewrite list_lookup_insert_ne.
Qed.

Lemma geo_kept_quiet s G s1 G1 s' : heap_ok cfg s G -> heap_quiet s G s1 G1 -> geo_kept s1 s' -> geo_kept s s'.
Proof using Type.
  intros Hok Hq Hk a A Hup HA. destruct (ho_len _ _ _ Hok) as [L1 L2]. destruct (lookup_len G (vg_arena s) a A ltac:(congruence) HA) as [ag HG].
  destruct (hq_arena _ _ _ _ Hq a A ag HA HG) as (A1 & ag1 & HA1 & _ & [(E1 & E2 & _) _ _ _ _ _]). destruct (hq_flags _ _ _ _ Hq) as (F1 & F2 & F3 & F4).
  destruct (Hk a A1) as (A' & HA' & E); [unfold up in *; by rewrite F1, F2|done|]. exists A'. split; [done|]. rewrite E. unfold geo_of. congruence.
Qed.

Lemma up_inited s G a : heap_ok cfg s G -> up s a = true -> nonclient_inited s = true.
Proof using Type. intros Hok Hup. unfold up in Hup. destruct (a =? VG_AR_CLIENT)%nat; [by apply (ho_inited _ _ _ Hok)|done]. Qed.

Lemma geo_kept_init s G s1 s' : heap_ok cfg s G -> init_step s s1 -> geo_kept s1 s' -> geo_kept s s'.
Proof using Type.
  intros Hok Hi Hk a A Hup HA. destruct (is_up _ _ Hi a Hup) as [Hup1 HA1]. destruct (is_inited _ _ Hi (up_inited s G a Hok Hup)) as [_ E1].
  rewrite HA in HA1. destruct (Hk a A Hup1 HA1) as (A' & HA' & E). exists A'. split; [done|]. by rewrite E, E1.
Qed.

(** The block [b] at the payload address [p] is new. *)
Record malloc_done a (req k : Z) s G (p : Z) b s' G' : Prop := {
  md_ok : heap_ok cfg s' G';
  md_up a' : up s a' = true \/ a' = a -> up s' a' = true;
  md_geo : geo_kept s s';
  md_inited : nonclient_inited s = true -> nonclient_inited s' = true;
  md_keeps : keeps (fun _ => False) G s G' s';
  md_others : others_kept a G G';
  md_space : core_space (os s') k;
  md_small n : 0 <= n -> small n s G -> small (n + 1) s' G';
  md_arena A : up s a = true -> vg_arena s !! a = Some A -> exists A', vg_arena s' !! a = Some A' /\
    min_unsplittable_sblock_szB A' = min_unsplittable_sblock_szB A /\ perm_bytes_on_loan (stats A') = perm_bytes_on_loan (stats A);
  md_place : exists A' ag ag' S1 sb l1 l2 S2, vg_arena s' !! a = Some A' /\ G !! a = Some ag /\ G' !! a = Some ag' /\
    p = baddr b + g_lo (geo_of (hp_overhead_szB s') A') /\ is_used b /\ req <= bsz b - g_ovh (geo_of (hp_overhead_szB s') A') /\
    filter is_used (ag_blks ag') ≡ₚ b :: filter is_used (ag_blks ag) /\ ag_perm ag' = ag_perm ag /\ ag_chunks ag' = ag_chunks ag /\
    ag_sbs ag' = S1 ++ sb :: S2 /\ sblks sb = l1 ++ b :: l2 /\ (forall l' c, l1 = l' ++ [c] -> is_used c) /\
    (sunsplit sb = true -> min_unsplittable_sblock_szB A' <= 32 + sbytes sb < 2 ^ 64 - 1 /\ l1 = [] /\ l2 = [])
}.

#[local] Set Implicit Arguments.

(** There is a free block [c], in the list [i] of the arena, which is now
    [A3]: in one of the old superblocks or in the region [new]. *)
Record ready a (k req : Z) s G A3 ag3 m3 (o3 : OS) (new : list (Z * Z)) S1 sb S2 l1 c l2 (i : nat) l (split : bool) : Prop := {
  rd_ok : arena_ok (hp_overhead_szB s) m3 o3 A3 ag3;
  rd_accounts : accounts (hp_overhead_szB s) A3 ag3;
  rd_bytes : bytes_ok m3;
  rd_sbs : ag_sbs ag3 = S1 ++ sb :: S2 /\ sblks sb = l1 ++ c :: l2;
  rd_blk : ag_fl ag3 !! i = Some l /\ c ∈ l /\ req <= bsz c;
  rd_tidy x : x ∈ S1 ++ S2 -> sb_tidy (fun p => p = deferred_reclaimed_sb A3) x;
  rd_merged : merged (sblks sb);
  rd_unsplit : sunsplit sb = true -> split = false /\ min_unsplittable_sblock_szB A3 <= 32 + sbytes sb < 2 ^ 64 - 1 /\ l1 = [] /\ l2 = [];
  rd_same : exists A ag, vg_arena s !! a = Some A /\ G !! a = Some ag /\ clientmem A3 = clientmem A /\ rz_szB A3 = rz_szB A /\
    (min_unsplittable_sblock_szB A3 = min_unsplittable_sblock_szB A /\ perm_bytes_on_loan (stats A3) = perm_bytes_on_loan (stats A)) /\
    filter is_used (ag_blks ag3) = filter is_used (ag_blks ag) /\ ag_perm ag3 = ag_perm ag /\ ag_chunks ag3 = ag_chunks ag /\
    (forall r, r ∈ ag_regions ag3 -> r ∈ ag_regions ag \/ r ∈ new) /\
    (forall b, b ∈ ag_blks ag3 -> is_free b -> b ∈ ag_blks ag \/ exists r, r ∈ new /\ forall x, in_blk b x -> in_reg r x) /\
    (length (ag_sbs ag3) <= S (length (ag_sbs ag)))%nat /\
    (sblocks_size A3 = sblocks_size A \/ sblocks_size A3 = 2 * Z.of_nat (length (ag_sbs ag)));
  rd_new r : r ∈ new -> r ∈ ag_regions ag3 /\ forall a' h q, G !! a' = Some h -> q ∈ ag_regions h -> rdisj q r;
  rd_mem x : (forall h b, G !! a = Some h -> b ∈ ag_blks h -> is_free b -> ~ in_blk b x) -> (forall r, r ∈ new -> ~ in_reg r x) ->
    m3 x = hmem s x;
  rd_mapped cl q n : 0 < n -> mapped (os s) cl q n -> mapped o3 cl q n;
  rd_space : core_space o3 k
}.

#[local] Unset Implicit Arguments.

Lemma taken_used c req split r mid : taken c req split r mid -> exists rest, mid = Blk (baddr c) r true :: rest /\ (forall b, b ∈ rest -> is_free b) /\
  filter is_used mid = [Blk (baddr c) r true].
Proof using Type.
  intros Ht. destruct Ht; (eexists; split; [reflexivity|]; split; [|done]).
  - by intros b ?%not_elem_of_nil.
  - by intros b ->%list_elem_of_singleton.
Qed.

Lemma swap_used ag S1 sb S2 l1 c l2 fl req split r mid : ag_sbs ag = S1 ++ sb :: S2 -> sblks sb = l1 ++ c :: l2 -> is_free c ->
  taken c req split r mid -> filter is_used (ag_blks (swap_blks S1 sb S2 l1 mid l2 fl ag)) ≡ₚ Blk (baddr c) r true :: filter is_used (ag_blks ag).
Proof using Type.
  intros Es Eb Hf Ht. destruct (taken_used _ _ _ _ _ Ht) as (_ & _ & _ & Eu).
  rewrite (ag_blks_split ag S1 sb S2 l1 [c] l2 Es Eb).
  rewrite (ag_blks_split (swap_blks S1 sb S2 l1 mid l2 fl ag) S1 (Sblk (saddr sb) (sbytes sb) (sunsplit sb) (l1 ++ mid ++ l2)) S2 l1 mid l2) by done.
  rewrite !filter_app, Eu. cbn [filter list_filter app]. rewrite decide_False by (unfold is_free, is_used in *; congruence). done.
Qed.
(** ** The block is taken *)

Section Finish.
Context (a : nat) (k req : Z) (s : MST) (G : list aghost) (A3 : Arena) (ag3 : aghost) (m3 : gmem) (o3 : OS) (new : list (Z * Z)).
Context (S1 : list sblk) (sb : sblk) (S2 : list sblk) (l1 : list blk) (c : blk) (l2 : list blk) (i : nat) (l : list blk) (split : bool).
Context (Hok : heap_ok cfg s G) (Hup : up s a = true).
Context (Hr : ready a k req s G A3 ag3 m3 o3 new S1 sb S2 l1 c l2 i l split).
Abbreviation hp := (hp_overhead_szB s).
Let g : geo := geo_of hp A3.

Lemma ready_free : c ∈ ag_blks ag3 /\ is_free c.
Proof using Hr.
  destruct Hr as [Ho _ _ _ (Hi & Hl & _) _ _ _ _ _ _ _ _]. destruct (free_listed s _ _ _ _ _ _ _ Ho Hi Hl) as (Hc & Hf & _). done.
Qed.

(** After the block is taken, and counted *)
Context (m' : gmem) (F : list Z) (fl : list (list blk)) (mid : list blk) (r : Z) (st : Stats).
Context (Ht : taken c req split r mid) (Hreq : req <= r) (Hm' : bytes_ok m').
Let A' : Arena := set_stats st (set_freelist F A3).
Let ag' : aghost := swap_blks S1 sb S2 l1 mid l2 fl ag3.
Let b : blk := Blk (baddr c) r true.
Context (Hok' : arena_ok hp m' o3 (set_freelist F A3) ag').
Context (Hx : forall x, (forall b, b ∈ ag_blks ag3 -> is_free b -> ~ in_blk b x) -> m' x = m3 x).
Context (L1 : bytes_on_loan st = u64 (bytes_on_loan (stats A3) + (r - g_ovh g))) (L2 : bytes_mmaped st = bytes_mmaped (stats A3)).
Context (L3 : perm_bytes_on_loan st = perm_bytes_on_loan (stats A3)).

Lemma finish_regs : ag_regions ag' = ag_regions ag3.
Proof using Hr. unfold ag'. eapply swap_regs. by apply Hr. Qed.

Lemma finish_used : filter is_used (ag_blks ag') ≡ₚ b :: filter is_used (ag_blks ag3).
Proof using Hr Ht. destruct (rd_sbs Hr) as [Es Eb]. eapply swap_used; [done|done|apply ready_free|done]. Qed.

Lemma finish_accounts : accounts hp A' ag'.
Proof using Hr Ht L1 L2 L3.
  destruct (rd_accounts Hr) as [C1 C2]. split; cbn [stats set_stats A'].
  - rewrite L1, L3, C1. unfold loaned, A'. cbn [geo_of rz_szB clientmem set_stats set_freelist]. change (geo_of hp (set_stats st (set_freelist F A3))) with g. fold g.
    rewrite (sumZ_perm _ _ _ finish_used). unfold sumZ at 2. cbn [foldr b bsz]. fold (sumZ (fun b => bsz b - g_ovh g) (filter is_used (ag_blks ag3))).
    unfold u64. rewrite Zplus_mod_idemp_l. f_equal. lia.
  - rewrite L2, C2. unfold mapped_bytes. by rewrite finish_regs.
Qed.

Lemma finish_tidy : arena_tidy (fun p => p = deferred_reclaimed_sb A') ag'.
Proof using Hr Ht.
  destruct (rd_sbs Hr) as [Es Eb]. destruct ready_free as [_ Hf].
  intros x Hi. unfold ag' in Hi. cbn in Hi. apply elem_of_app in Hi as [Hi|[->|Hi]%elem_of_cons].
  - apply (rd_tidy Hr). apply elem_of_app. by left.
  - eapply tidy_taken; [exact (rd_merged Hr)|done|done|exact Ht|].
    intros Hu. destruct (rd_unsplit Hr Hu) as (? & _ & ? & ?). done.
  - apply (rd_tidy Hr). apply elem_of_app. by right.
Qed.

Lemma finish_inv : arena_inv hp m' o3 A' ag'.
Proof using Hr Ht L1 L2 L3 Hok'.
  split; [|split; [apply finish_tidy|apply finish_accounts]]. unfold A'. destruct Hok' as [? ? ? ? ? ? ? ? ? ? ? ? Hc].
  split; try done. by destruct Hc.
Qed.
Lemma finish_mem x : (forall h b, G !! a = Some h -> b ∈ ag_blks h -> is_free b -> ~ in_blk b x) ->
  (forall q, q ∈ new -> ~ in_reg q x) -> m' x = hmem s x.
Proof using Hr Hx.
  intros Hf Hn. destruct (rd_same Hr) as (A & ag & HA & HG & _ & _ & _ & _ & _ & _ & _ & Hb & _). rewrite Hx; [by apply (rd_mem Hr)|].
  intros d Hd Hdf Hi. destruct (Hb d Hd Hdf) as [Hd'|(q & Hq & Hqi)]; [by apply (Hf ag d)|]. by apply (Hn q Hq), Hqi.
Qed.

Abbreviation s' := (at_arena a A' m' o3 s).
Abbreviation G' := (<[a := ag']> G).

Lemma finish_heap : heap_ok cfg s' G'.
Proof using Hok Hup Hr Ht L1 L2 L3 Hm' Hok' Hx.
  destruct (rd_same Hr) as (A & ag & HA & HG & Ecl & _ & _ & _ & _ & _ & Hre & Hb & _).
  eapply heap_step; [done|done|done|done|apply finish_inv|done|done| | |].
  - intros q Hq. rewrite finish_regs in Hq. destruct (Hre q Hq) as [|Hn]; [by left|right]. intros q' (a' & h & _ & Hh & Hq').
    assert (rdisj q' q) as Hd by (by apply (proj2 (rd_new Hr Hn) a' h)). unfold rdisj in *. lia.
  - intros q x (a' & h & Hne & Hh & Hq) Hi. apply finish_mem.
    + intros ag2 d HG2 Hd Hdf Hdi. assert (ag2 = ag) as -> by congruence. destruct (arena_of cfg s G a ag Hok HG (blk_regions _ _ Hd)) as (A2 & _ & _ & Ho2).
      destruct (blk_region _ _ _ _ _ Ho2 d Hd) as (q2 & Hq2 & Hqi). by apply (other_apart cfg s G a ag q2 q x Hok HG Hq2 (Hqi x Hdi)); [exists a', h|].
    + intros q2 Hq2 Hi2. assert (rdisj q q2) as Hd by (by apply (proj2 (rd_new Hr Hq2) a' h)). unfold rdisj, in_reg in *. lia.
  - intros cl q _ Hq Hmp. by apply (rd_mapped Hr).
Qed.
Lemma finish_keeps : keeps (fun _ => False) G s G' s'.
Proof using All.
  destruct (rd_same Hr) as (A & ag & HA & HG & _). assert (a < length G)%nat as Ha by (by eapply lookup_lt_Some).
  apply (keeps_intro cfg _ _ _ _ _ (fun x => exists q, q ∈ new /\ in_reg q x)); [done| |].
  - intros x Hf Hn. apply finish_mem; [intros h d Hh Hd Hdf; apply (Hf a h d); auto|]. intros q Hq Hi. apply Hn. by exists q.
  - intros x (q & Hq & Hi). destruct (rd_new Hr Hq) as [Hq3 Hd]. split.
    + intros a' h q2 Hh Hq2 Hi2. specialize (Hd a' h q2 Hh Hq2). unfold rdisj, in_reg in *. lia.
    + exists a, ag', q. rewrite list_lookup_insert_eq, finish_regs by done. done.
Qed.

Lemma finish_small n : 0 <= n -> small n s G -> small (n + 1) s' G'.
Proof using All.
  intros Hn Hs a' B h HB Hh. destruct (rd_same Hr) as (A & ag & HA & HG & _ & _ & _ & _ & _ & _ & _ & _ & Hc & Hz).
  destruct (decide (a' = a)) as [->|Hne].
  - cbn [vg_arena at_arena] in HB. rewrite list_lookup_insert_eq in HB by (by eapply lookup_lt_Some). rewrite list_lookup_insert_eq in Hh by (by eapply lookup_lt_Some).
    injection HB as <-. injection Hh as <-. destruct (Hs a A ag HA HG) as [H1 H2]. unfold array_room in *. destruct (rd_sbs Hr) as [Es _]. split.
    + unfold ag'. cbn [ag_sbs swap_blks]. rewrite Es in Hc. rewrite !length_app in *. cbn [length] in *. lia.
    + cbn [sblocks_size A' set_stats set_freelist]. lia.
  - cbn [vg_arena at_arena] in HB. rewrite list_lookup_insert_ne in HB by done. rewrite list_lookup_insert_ne in Hh by done. destruct (Hs a' B h HB Hh). unfold array_room in *. lia.
Qed.

Lemma finish_done reqp : reqp <= req - g_ovh g -> malloc_done a reqp k s G (baddr b + g_lo g) b s' G'.
Proof using All.
  intros Hrp. destruct (rd_same Hr) as (A & ag & HA & HG & Ecl & Erz & [Emu Epl] & Eu & Ep & Ec & _).
  destruct (rd_sbs Hr) as [Es Eb]. destruct ready_free as [_ Hf]. split.
  - apply finish_heap.
  - intros a' [?| ->]; done.
  - apply (geo_kept_arena a s A); [done|]. unfold A', geo_of. cbn. congruence.
  - done.
  - apply finish_keeps.
  - intros a' h Hne Hh. exists h. rewrite list_lookup_insert_ne by done. done.
  - apply (rd_space Hr).
  - apply finish_small.
  - intros B _ HB. assert (B = A) as -> by congruence. exists A'. split; [apply list_lookup_insert_eq; by eapply lookup_lt_Some|].
    cbn. split; congruence.
  - destruct (taken_used _ _ _ _ _ Ht) as (rest & Em & _). exists A', ag, ag', S1, (Sblk (saddr sb) (sbytes sb) (sunsplit sb) (l1 ++ mid ++ l2)), l1, (rest ++ l2), S2.
    split_and!; try done.
    + cbn. apply list_lookup_insert_eq. by eapply lookup_lt_Some.
    + apply list_lookup_insert_eq. by eapply lookup_lt_Some.
    + cbn [bsz b]. change (geo_of _ A') with g. lia.
    + rewrite finish_used. by rewrite Eu.
    + cbn [sblks]. by rewrite Em.
    + destruct (merged_free l1 c l2) as [H1 _]; [rewrite <- Eb; apply (rd_merged Hr)|done|]. done.
    + cbn. intros Hu. destruct (rd_unsplit Hr Hu) as (Es' & ? & ? & ->). split_and!; try done; [tauto..|].
      destruct Ht; [|done]. injection Em as <-. done.
Qed.
End Finish.

Lemma wp_finish a k req s G A3 ag3 m3 o3 new S1 sb S2 l1 c l2 i l split cc n reqp Q : heap_ok cfg s G -> up s a = true ->
  ready a k req s G A3 ag3 m3 o3 new S1 sb S2 l1 c l2 i l split -> g_ovh (geo_of (hp_overhead_szB s) A3) <= req -> req mod 16 = 0 ->
  reqp <= req - g_ovh (geo_of (hp_overhead_szB s) A3) ->
  (forall p b s' G', malloc_done a reqp k s G p b s' G' -> Q p s') ->
  wp (b_bszB <- take_block cfg a cc (baddr c) (Z.of_nat i) req split ;; loaned <- bszB_to_pszB a b_bszB ;;
      add_one_block_to_stats a loaned ;;; on_stats a (fun st => set_nsearches (u64 (nsearches st + n)) st) ;;;
      v <- get_block_payload a (baddr c) ;; m_assert (Z.land v (VG_MIN_MALLOC_SZB - 1) =? 0) ;;; ret v) (at_arena a A3 m3 o3 s) Q.
Proof using Hcfg.
  intros Hok Hup Hr Hov H16 Hrp HQ. pose proof (rd_ok Hr) as Hao. destruct (rd_sbs Hr) as [Es Eb]. destruct (rd_blk Hr) as (Hi & Hl & Hc).
  destruct (rd_same Hr) as (A & ag & HA & _). assert (a < length (vg_arena s))%nat as Ha by (by eapply lookup_lt_Some).
  pose proof (ao_geo _ _ _ _ _ Hao) as Hg. set (g := geo_of (hp_overhead_szB s) A3) in *. destruct (geo_sizes g Hg) as (_ & _ & _ & Hlo & _).
  destruct (ready_free _ _ _ _ _ _ _ _ _ _ _ _ _ _ _ _ _ _ _ Hr) as [Hcb _].
  destruct (blks_wf _ _ _ _ _ Hao c Hcb) as (_ & Hca & _).
  apply wp_bind. eapply (wp_take_block cfg a s Ha (hp_of_up cfg s G a Hok Hup)); [exact Hao|apply (rd_bytes Hr)|exact Es|exact Eb|done|done|done|done|].
  intros m' F fl mid r Ht Hle Hm' Hok' Hx. apply wp_bind. eapply (wp_bszB_to_pszB a s g); [done..|lia|].
  apply wp_bind, wp_add_one_block; [done|]. intros st L1 L2 L3. apply wp_bind, wp_on_stats; [done|].
  apply wp_bind. eapply (wp_get_block_payload a s g); [done..|].
  apply wp_bind, wp_m_assert.
  { unfold VG_MIN_MALLOC_SZB. change (16 - 1) with (Z.ones 4). rewrite Z.land_ones by lia. change (2 ^ 4) with 16. by rewrite Z.add_mod, Hca, Hlo. }
  apply wp_ret. eapply HQ. eapply (finish_done a k req s G A3 ag3 m3 o3 new S1 sb S2 l1 c l2 i l split Hok Hup Hr m' F fl mid r); try done.
Qed.
(** ** From the search to the block *)

(** A block was found in the lists. *)
Lemma ready_found a k req s G A3 ag3 c i l : heap_ok cfg s G -> up s a = true -> vg_arena s !! a = Some A3 -> G !! a = Some ag3 ->
  ag_fl ag3 !! i = Some l -> c ∈ l -> req <= bsz c -> core_space (os s) k ->
  exists S1 sb S2 l1 l2, ready a k req s G A3 ag3 (hmem s) (os s) [] S1 sb S2 l1 c l2 i l true.
Proof using Hcfg.
  intros Hok Hup HA HG Hi Hl Hc Hsp. destruct (ho_up _ _ _ Hok a A3 ag3 HA HG Hup) as [(Hao & Hty & Hac) _].
  destruct (free_listed s _ _ _ _ _ _ _ Hao Hi Hl) as (Hcb & Hcf & _). apply ag_blks_elem in Hcb as (sb & Hs & Hcs).
  destruct (list_elem_of_split _ _ Hs) as (S1 & S2 & Es). destruct (list_elem_of_split _ _ Hcs) as (l1 & l2 & Eb).
  exists S1, sb, S2, l1, l2. split; try done; try (by apply Hok).
  - intros x Hx. apply Hty. rewrite Es. rewrite elem_of_app in *. rewrite elem_of_cons. tauto.
  - by apply Hty.
  - intros Hu. destruct (st_unsplit _ _ (Hty sb Hs) Hu) as (b & Eb' & Hub). rewrite Eb' in Eb. rewrite Eb', list_elem_of_singleton in Hcs.
    subst b. unfold is_used in Hub. congruence.
  - exists A3, ag3. split_and!; try done; [by left|by left|lia|by left].
  - by intros r ?%not_elem_of_nil.
Qed.

(** A new superblock has one. *)
Lemma ready_new a k req s G A ag A2 ag2 m2 o2 S1 S2 sb b i l : heap_ok cfg s G -> up s a = true -> vg_arena s !! a = Some A -> G !! a = Some ag ->
  new_block s G k req A ag A2 ag2 m2 o2 S1 S2 sb b i l -> 
  ready a k req s G A2 ag2 m2 o2 [sb_reg sb] S1 sb S2 [] b [] i l (negb (sunsplit sb)).
Proof using Hcfg.
  intros Hok Hup HA HG [N1 N2 (N3 & N4 & N5 & N6) (N7 & N8 & N9 & N10 & N11) N12 N13 N14 N15 N16 (N17 & N18 & N19 & N20 & N20') N21 N22].
  destruct (ho_up _ _ _ Hok a A ag HA HG Hup) as [(Hao & Hty & Hac) _].
  destruct (ao_sbs _ _ _ _ _ N1 sb ltac:(rewrite N4; apply elem_of_app; right; by left)) as [Hw _].
  split; try done.
  - intros x Hx. rewrite N17. apply Hty. by rewrite N3.
  - by rewrite N7.
  - intros Hu. rewrite Hu in N22. symmetry in N22. apply Z.leb_le in N22. rewrite N20, Hu. destruct Hw. unfold send in *. split_and!; try done; lia.
  - exists A, ag. split_and!; try done.
    + unfold ag_blks. rewrite N3, N4. symmetry. apply filter_used_remove. rewrite N7. by intros x ->%list_elem_of_singleton.
    + unfold ag_regions. rewrite N3, N4, N5. intros r. rewrite !fmap_app, fmap_cons, !elem_of_app, elem_of_cons, list_elem_of_singleton. tauto.
    + unfold ag_blks. rewrite N3, N4, !bind_app. cbn [mbind list_bind]. rewrite N7. intros c. rewrite !elem_of_app, list_elem_of_singleton.
      intros [Hc|[->|Hc]] _; [left; by left| |left; by right]. right. exists (sb_reg sb). split; [by left|].
      destruct (blk_place _ _ _ _ _ N1 sb b) as [H1 H2]; [rewrite N4; apply elem_of_app; right; by left|rewrite N7; by left|].
      unfold in_blk, in_reg, sb_reg, spay, send in *. cbn. intros x Hx. lia.
    + rewrite N3, N4, !length_app. cbn. lia.
  - intros r ->%list_elem_of_singleton. split; [|done]. unfold ag_regions. rewrite N4, fmap_app, fmap_cons. apply elem_of_app. left. apply elem_of_app. right. by left.
  - intros x Hf Hn. apply N13; [by apply Hn; left|]. intros c Hc Hcf. by apply (Hf ag c).
Qed.

(** Allocation after a change that leaves the blocks in use alone *)
Lemma small_quiet n s G s1 G1 : heap_ok cfg s G -> heap_quiet s G s1 G1 -> small n s G -> small n s1 G1.
Proof using Hcfg.
  intros Hok Hq Hs a A1 ag1 HA1 HG1. destruct (shrunk_arena cfg s G s1 G1 a ag1 Hok Hq HG1) as (A & A1' & ag & HA & HA1' & HG & Hsh).
  assert (A1' = A1) as -> by congruence. destruct (Hs a A ag HA HG). destruct Hsh as [(_ & _ & _ & _ & -> & _) _ _ _ _ Hc]. lia.
Qed.

Lemma done_quiet a req k s G s1 G1 p b s' G' : heap_ok cfg s G -> heap_quiet s G s1 G1 -> malloc_done a req k s1 G1 p b s' G' ->
  malloc_done a req k s G p b s' G'.
Proof using Hcfg.
  intros Hok Hq [D1 D2 Dg D3 D4 D5 D6 D7 Da D8]. destruct (hq_flags _ _ _ _ Hq) as (F1 & F2 & F3 & F4). split; try done.
  - intros a' Ha. apply D2. unfold up in *. by rewrite F1, F2.
  - by eapply geo_kept_quiet.
  - by rewrite <- F2.
  - by eapply keeps_quiet.
  - intros a' ag Hne HG. destruct (ho_len _ _ _ Hok) as [Ln1 Ln2]. destruct (lookup_len (vg_arena s) G a' ag ltac:(congruence) HG) as [A HA].
    destruct (hq_arena _ _ _ _ Hq a' A ag HA HG) as (A1 & ag1 & _ & HG1 & [_ U _ _ (P & C) _]).
    destruct (D5 a' ag1 Hne HG1) as (ag' & HG' & U' & P' & C'). exists ag'. split_and!; congruence.
  - intros n Hn Hs. apply D7; [done|]. by apply (small_quiet n s G).
  - intros A Hup HA. destruct (ho_len _ _ _ Hok) as [Ln1 Ln2]. destruct (lookup_len G (vg_arena s) a A ltac:(congruence) HA) as [ag HG].
    destruct (hq_arena _ _ _ _ Hq a A ag HA HG) as (A1 & ag1 & HA1 & _ & [(E1 & E2 & E3 & E4 & E5 & E6 & E7) _ _ _ _ _]).
    destruct (Da A1) as (A' & HA' & M1 & M2); [unfold up in *; by rewrite F1, F2|done|]. exists A'. split_and!; congruence.
  - destruct D8 as (A' & ag1 & ag' & S1 & sb & l1 & l2 & S2 & E1 & E2 & E3 & E4 & E5 & E6 & E7 & E8 & E9 & E10).
    destruct (shrunk_arena cfg s G s1 G1 a ag1 Hok Hq E2) as (A & A1 & ag & _ & _ & HG & [_ U _ _ (P & C) _]).
    exists A', ag, ag', S1, sb, l1, l2, S2. rewrite <- U, <- P, <- C. done.
Qed.
Lemma keeps_mem skip s G s1 s' G' : hmem s1 = hmem s -> keeps skip G s1 G' s' -> keeps skip G s G' s'.
Proof using Type. intros E [K1 K2 K3]. split; rewrite <- E; done. Qed.

Lemma small_init n s G s1 : heap_ok cfg s G -> 0 <= n -> init_step s s1 -> small n s G -> small n s1 G.
Proof using Type.
  intros Hok Hn Hi Hs a A ag HA HG. destruct (is_arena _ _ Hi a A HA) as [HA0|(Hup & rz & mn & mu & ->)]; [by apply (Hs a A ag)|].
  cbn [sblocks_size fresh_arena]. unfold array_room, SBLOCKS_SIZE_INITIAL. destruct (ho_len _ _ _ Hok) as [N1 N2].
  destruct (lookup_len (vg_arena s) G a ag ltac:(congruence) HG) as [A0 HA0]. destruct (ho_down _ _ _ Hok a A0 ag HA0 HG Hup) as [_ ->]. cbn. lia.
Qed.

Lemma done_init a req k s G s1 p b s' G' : heap_ok cfg s G -> init_step s s1 -> malloc_done a req k s1 G p b s' G' ->
  malloc_done a req k s G p b s' G'.
Proof using Hcfg.
  intros Hok Hi [D1 D2 Dg D3 D4 D5 D6 D7 Da D8]. split; try done.
  - intros a' [Hup|Ha]; apply D2; [|by right]. left. by apply (is_up _ _ Hi a').
  - by eapply geo_kept_init.
  - intros Hn. apply D3. by apply (is_inited _ _ Hi).
  - eapply keeps_mem; [apply (is_mem _ _ Hi)|done].
  - intros n Hn Hs. apply D7; [done|]. by apply (small_init n s G).
  - intros A Hup HA. destruct (is_up _ _ Hi a Hup) as [Hup1 HA1]. apply Da; [done|]. by rewrite HA1.
Qed.

(** There is no memory for the client: nothing is changed that it sees. *)
Record malloc_none a s G s' G' : Prop := {
  mn_ok : heap_ok cfg s' G';
  mn_up a' : up s a' = true \/ a' = a -> up s' a' = true;
  mn_geo : geo_kept s s';
  mn_inited : nonclient_inited s = true -> nonclient_inited s' = true;
  mn_keeps : keeps (fun _ => False) G s G' s';
  mn_arenas a' ag : G !! a' = Some ag -> exists ag', G' !! a' = Some ag' /\
    filter is_used (ag_blks ag') = filter is_used (ag_blks ag) /\ ag_perm ag' = ag_perm ag /\ ag_chunks ag' = ag_chunks ag;
  mn_arena A : up s a = true -> vg_arena s !! a = Some A -> exists A', vg_arena s' !! a = Some A' /\
    min_unsplittable_sblock_szB A' = min_unsplittable_sblock_szB A /\ perm_bytes_on_loan (stats A') = perm_bytes_on_loan (stats A);
  mn_space k : core_space (os s) k -> core_space (os s') k;
  mn_small n : 0 <= n -> small n s G -> small n s' G'
}.

Lemma none_intro a s G s1 s' G' : heap_ok cfg s G -> init_step s s1 -> up s1 a = true -> heap_ok cfg s1 G -> heap_ok cfg s' G' -> heap_quiet s1 G s' G' ->
  malloc_none a s G s' G'.
Proof using Hcfg.
  intros Hok Hi Hup Hok1 Hok' Hq. destruct (hq_flags _ _ _ _ Hq) as (F1 & F2 & F3 & F4). destruct (is_mem _ _ Hi) as [Em Eo]. split; try done.
  - intros a' Ha. assert (up s1 a' = true) as Hu by (destruct Ha as [Ha| ->]; [by apply (is_up _ _ Hi a')|done]). unfold up in *. by rewrite F1, F2.
  - eapply geo_kept_init; [done|done|]. eapply geo_kept_quiet; [exact Hok1|exact Hq|]. intros a' A' _ HA'. by exists A'.
  - intros Hn. rewrite F2. by apply (is_inited _ _ Hi).
  - eapply keeps_mem; [exact Em|]. apply (keeps_intro cfg _ _ _ _ _ (fun _ => False)); [done| |done].
    intros x Hx _. apply (hq_mem _ _ _ _ Hq). intros a' ag b HG Hb Hf. apply (Hx a' ag b); auto.
  - intros a' ag HG. destruct (ho_len _ _ _ Hok1) as [Ln1 Ln2]. destruct (lookup_len (vg_arena s1) G a' ag ltac:(congruence) HG) as [A HA].
    destruct (hq_arena _ _ _ _ Hq a' A ag HA HG) as (A1 & ag1 & _ & HG1 & [_ U _ _ (P & C) _]). by exists ag1.
  - intros A Hua HA. destruct (is_up _ _ Hi a Hua) as [_ HA1]. rewrite HA in HA1. destruct (ho_len _ _ _ Hok1) as [Ln1 Ln2].
    destruct (lookup_len G (vg_arena s1) a A ltac:(congruence) HA1) as [ag HG].
    destruct (hq_arena _ _ _ _ Hq a A ag HA1 HG) as (A1 & ag1 & HA2 & _ & [(E1 & E2 & E3 & E4 & E5 & E6 & E7) _ _ _ _ _]). by exists A1.
  - intros k Hk. apply (hq_space _ _ _ _ Hq). by rewrite Eo.
  - intros n Hn Hs. apply (small_quiet n s1 G); [done|done|]. by apply (small_init n s G).
Qed.
(** What a request of [req] bytes may take of the address space when the
    arenas have at most [n] superblocks *)
Definition malloc_cost (n req : Z) : Z := Z.max (req + 2 ^ 19) (2 ^ 22) + 2 ^ 14 + 16 * array_room n.

Lemma align_req_bounds req : 0 <= req -> req + 16 <= 2 ^ 64 -> req <= align_req_pszB req <= req + 15 /\ align_req_pszB req mod 16 = 0.
Proof using Type.
  intros Hr Hlt. unfold align_req_pszB, VG_MIN_MALLOC_SZB. rewrite u64_small by lia. change (16 - 1) with (2 ^ 4 - 1). rewrite land_lnot by lia.
  change (2 ^ 4) with 16. set (x := req + (16 - 1)). pose proof (Z.div_mod x 16 ltac:(lia)). pose proof (Z.mod_pos_bound x 16 ltac:(lia)).
  split; [unfold x in *; lia|]. replace (x - x mod 16) with (x / 16 * 16) by lia. by apply Z.mod_mul.
Qed.

Lemma turned_quiet m o A ag A' ag' : bytes_ok m -> turned A ag A' ag' -> quiet m o A ag m o A' ag'.
Proof using Type. intros Hm (F & fl & -> & Hp & ->). split; try done. split; try done. intros b x Hb Hf Hx. by exists b. Qed.

(** The rest of [arena_malloc] after the search *)
Definition malloc_rest a cc (req : Z) (found : option (Z * Z) * Z) : M MST Z :=
  got <- (match found.1 with
          | Some (b, lno) => ret (Some (b, lno, true))
          | None => new_free_block cfg a req
          end) ;;
  match got with
  | None => ret 0
  | Some (b, lno, split) =>
      b_bszB <- take_block cfg a cc b lno req split ;;
      loaned <- bszB_to_pszB a b_bszB ;;
      add_one_block_to_stats a loaned ;;;
      on_stats a (fun st => set_nsearches (u64 (nsearches st + found.2)) st) ;;;
      v <- get_block_payload a b ;;
      m_assert (Z.land v (VG_MIN_MALLOC_SZB - 1) =? 0) ;;;
      ret v
  end.

Lemma wp_malloc_rest a cc req reqp r t k s G A ag Q : heap_ok cfg s G -> up s a = true -> vg_arena s !! a = Some A -> G !! a = Some ag ->
  g_ovh (geo_of (hp_overhead_szB s) A) <= req -> req mod 16 = 0 -> reqp <= req - g_ovh (geo_of (hp_overhead_szB s) A) ->
  req + 2 ^ 13 < 2 ^ 64 -> 0 <= k -> core_space (os s) (request_cost A req + k) -> found ag req r ->
  (forall p b s' G', malloc_done a reqp k s G p b s' G' -> Q p s') ->
  (a = VG_AR_CLIENT -> forall s1 G1, heap_ok cfg s1 G1 -> heap_quiet s G s1 G1 -> Q 0 s1) -> wp (malloc_rest a cc req (r, t)) s Q.
Proof using Hcfg.
  intros Hok Hup HA HG Hov H16 Hrp Hlt Hk Hsp Hf HQ HQ0. destruct (ho_up _ _ _ Hok a A ag HA HG Hup) as [(Hao & _) _].
  pose proof (ao_geo _ _ _ _ _ Hao) as Hg. pose proof (geo_sizes _ Hg) as Hgs. unfold malloc_rest. cbn [fst snd]. apply wp_bind.
  destruct Hf as [->|(i & l & c & -> & Hi & Hl & Hc)].
  - eapply (wp_new_free_block cfg Hcfg a s G A ag req k); [done..| |].
    + intros s1 G1 A1 ag1 A2 ag2 m2 o2 S1 S2 sb b i l Hok1 Hq HA1 HG1 Hnb.
      destruct (hq_arena _ _ _ _ Hq a A ag HA HG) as (A1' & ag1' & HA1' & HG1' & [(E1 & E2 & _) _ _ _ _ _]). assert (A1' = A1) as -> by congruence.
      destruct (hq_flags _ _ _ _ Hq) as (F1 & F2 & F3 & F4). assert (up s1 a = true) as Hup1 by (unfold up in *; by rewrite F1, F2).
      destruct (nb_same _ _ _ _ _ _ _ _ _ _ _ _ _ _ _ _ Hnb) as (_ & G1c & G1r & _).
      assert (geo_of (hp_overhead_szB s1) A2 = geo_of (hp_overhead_szB s) A) as Eg by (unfold geo_of; congruence).
      eapply (wp_finish a k req s1 G1 A2 ag2 m2 o2); [done|done|eapply ready_new; [exact Hok1|exact Hup1|exact HA1|exact HG1|exact Hnb]|by rewrite Eg|done|by rewrite Eg|].
      intros p b' s' G' Hd. apply (HQ p b' s' G'). by apply (done_quiet a reqp k s G s1 G1).
    + intros Ha s1 G1 Hok1 Hq. apply wp_ret. by apply (HQ0 Ha s1 G1).
  - apply wp_ret. destruct (ready_found a k req s G A ag c i l) as (S1 & sb & S2 & l1 & l2 & Hr); try done.
    { eapply space_less; [|exact Hsp]. unfold request_cost. pose proof (ao_min _ _ _ _ _ Hao) as Hmin.
      destruct (sb_size_bounds (min_sblock_szB A) req ltac:(lia) Hlt Hmin) as (? & _). destruct (ao_count _ _ _ _ _ Hao) as (_ & _ & _ & Hs50). unfold SBLOCKS_SIZE_INITIAL in Hs50. lia. }
    rewrite (at_arena_id a A s HA). eapply (wp_finish a k req s G A ag); [done|done|exact Hr|done..].
Qed.

Lemma wp_arena_malloc a cc req k n s G Q : heap_ok cfg s G -> (a < VG_N_ARENAS)%nat -> (a = VG_AR_CLIENT -> nonclient_inited s = true) ->
  cc <> 0 -> 0 <= req -> req + 2 ^ 20 < 2 ^ 64 -> 0 <= k -> 0 <= n -> small n s G -> core_space (os s) (malloc_cost n req + k) ->
  (forall p b s' G', malloc_done a req k s G p b s' G' -> Q p s') ->
  (a = VG_AR_CLIENT -> forall s' G', malloc_none a s G s' G' -> Q 0 s') -> wp (arena_malloc cfg a cc req) s Q.
Proof using Hcfg.
  intros Hok0 Han Hcl Hcc Hreq Hlt Hk Hn Hsm Hsp HQ HQ0. destruct (align_req_bounds req Hreq ltac:(lia)) as [Hal Hal16].
  unfold arena_malloc. apply wp_bind, (wp_ensure_mm_init cfg Hcfg a s G); [done|done|]. intros s1 Hok Hup Hi.
  destruct (is_mem _ _ Hi) as [Em Eo]. pose proof (small_init n s G s1 Hok0 Hn Hi Hsm) as Hsm1.
  destruct (ho_len _ _ _ Hok) as [N1 N2]. destruct (lookup_lt_is_Some_2 (vg_arena s1) a) as [A HA]; [lia|].
  destruct (lookup_lt_is_Some_2 G a) as [ag HG]; [lia|]. destruct (ho_up _ _ _ Hok a A ag HA HG Hup) as [Hinv Hacl]. pose proof Hinv as (Hao & _).
  pose proof (ao_geo _ _ _ _ _ Hao) as Hg. set (g := geo_of (hp_overhead_szB s1) A) in *. destruct (geo_sizes g Hg) as (_ & _ & Hov & _ & _ & Hov16).
  assert (a < length (vg_arena s1))%nat as Ha by lia. set (r16 := align_req_pszB req) in *.
  apply wp_bind, wp_m_assert; [apply Z.ltb_lt; unfold MAX_PSZB; lia|]. rewrite (at_arena_id a A s1 HA) at 1.
  apply wp_bind. eapply (wp_pszB_to_bszB a s1 g); [done..|lia|lia|]. apply wp_bind, wp_m_assert; [by rewrite (proj2 (Z.eqb_neq _ _))|].
  apply wp_bind, wp_pszB_to_listNo; [done|]. apply wp_bind. eapply wp_scan_fuel; [done|exact Hao|]. intros fuel Hfuel.
  pose proof (listNo_range r16 ltac:(lia)) as Hln. apply wp_bind.
  eapply (wp_scan_lists a s1 Ha (hmem s1) (os s1) (r16 + g_ovh g)); [exact Hinv|lia|lia|by apply Nat.lt_le_incl|].
  intros A' ag' r t Hinv' Ht Hfo.
  destruct (quiet_step cfg s1 G a A ag (hmem s1) (os s1) A' ag') as [Hok2 Hq2]; [done..| |]; [by apply turned_quiet, Ht; apply Hok|].
  assert (rz_szB A' = rz_szB A /\ clientmem A' = clientmem A /\ min_sblock_szB A' = min_sblock_szB A /\ sblocks_size A' = sblocks_size A) as (E1 & E2 & E3 & E4).
  { by destruct Ht as (F & fl & -> & _). }
  assert (geo_of (hp_overhead_szB s1) A' = g) as Eg by (unfold g, geo_of; congruence).
  eapply (wp_malloc_rest a cc (r16 + g_ovh g) req r t k _ (<[a := ag']> G) A' ag'); cbn [vg_arena at_arena hp_overhead_szB os]; rewrite ?Eg.
  { done. } { done. } { apply list_lookup_insert_eq. lia. } { apply list_lookup_insert_eq. lia. } { lia. } { by rewrite Z.add_mod, Hal16, Hov16. }
  { lia. } { lia. } { lia. }
  { rewrite Eo. eapply space_less; [|exact Hsp]. unfold request_cost, malloc_cost. rewrite E3, E4. destruct (Hsm1 a A ag HA HG) as [_ Hsz].
    pose proof (ao_min _ _ _ _ _ Hao) as Hmin. destruct (sb_size_bounds (min_sblock_szB A) (r16 + g_ovh g) ltac:(lia) ltac:(lia) Hmin) as (? & _). lia. }
  { done. }
  - intros p b s' G' Hd. apply (HQ p b s' G'). eapply done_init; [done|exact Hi|]. by eapply done_quiet.
  - intros Hac s2 G2 Hok3 Hq3. apply (HQ0 Hac s2 G2). eapply none_intro; [done|exact Hi|done|exact Hok|done|].
    eapply heap_quiet_trans; [congruence|exact Hq2|done].
Qed.
End Done.
