(* ===== verification/MallocFree.v ===== *)
(** Release: a block becomes free, adjacent free blocks are merged, and a
    superblock that is free as a whole goes. *)
From stdpp Require Import base list sorting.
From Stdlib Require Import ZArith Lia.
From S2P Require Import Prelude Mem LibcMem LibcMemProofs Malloc MallocBlocks MallocLists MallocInv MallocSb MallocInit MallocAlloc MallocRequest MallocDone.
Open Scope prog_scope.
Open Scope Z_scope.

Section Free.
Context {OS : Type} `{AddressSpaceLaws OS} (cfg : heap_config) (Hcfg : cfg_ok cfg).
Abbreviation MST := (mst (OS := OS)).
Implicit Types (m : gmem) (o : OS) (A : Arena) (ag : aghost) (G : list aghost) (b c : blk) (sb : sblk).

(** ** Two free blocks are merged *)

Section Merge.
Context (a : nat) (s : mst (OS := OS)).
Context (Ha : (a < length (vg_arena s))%nat).
Context (Hhp : hp_overhead_szB s = if clo_profile_heap cfg then 16 else 0).
Abbreviation hp := (hp_overhead_szB s).
Abbreviation St A m o := (at_arena a A m o s).

(** Two blocks that follow one another *)
Lemma adjacent A m o ag S1 sb S2 l1 x y l2 : arena_ok hp m o A ag -> ag_sbs ag = S1 ++ sb :: S2 -> sblks sb = l1 ++ x :: y :: l2 ->
  x ∈ ag_blks ag /\ y ∈ ag_blks ag /\ bend x = baddr y /\ tiles (spay sb) l1 (baddr x) /\ tiles (baddr x) [x; y] (bend y) /\ tiles (bend y) l2 (send sb).
Proof using Type.
  intros Hok Es Eb. destruct (ao_sbs _ _ _ _ _ Hok sb ltac:(rewrite Es; apply elem_of_app; right; by left)) as [Hws _].
  pose proof (sw_tiles _ _ Hws) as Ht. change (x :: y :: l2) with ([x; y] ++ l2) in Eb. rewrite Eb in Ht.
  apply blk_tiles_app in Ht as (lo & T1 & (hi & T2 & T3)%blk_tiles_app). cbn in T2. destruct T2 as (<- & E & <-).
  assert (forall b, b ∈ sblks sb -> b ∈ ag_blks ag) as Hin.
  { intros b Hb. apply ag_blks_elem. exists sb. split; [|done]. rewrite Es. apply elem_of_app. right. by left. }
  split_and!; try done; [apply Hin; rewrite Eb; apply elem_of_app; right; by left|apply Hin; rewrite Eb; apply elem_of_app; right; right; by left].
Qed.

Lemma wp_merge_two {B} A m o ag S1 sb S2 l1 x y l2 p q lit (K : Z -> Z -> M MST B) Q : let g := geo_of hp A in
  arena_ok hp m o A ag -> bytes_ok m -> ag_sbs ag = S1 ++ sb :: S2 -> sblks sb = l1 ++ x :: y :: l2 -> is_free x -> is_free y ->
  (p = x /\ q = y \/ p = y /\ q = x) ->
  (forall m' F fl z, z = Blk (baddr x) (bsz x + bsz y) false -> bytes_ok m' ->
     arena_ok hp m' o (set_freelist F A) (swap_blks S1 sb S2 l1 [z] l2 fl ag) ->
     (forall x, (forall b, b ∈ ag_blks ag -> is_free b -> ~ in_blk b x) -> m' x = m x) ->
     wp (K (bsz z) (listNo (bsz z - g_ovh g))) (St (set_freelist F A) m' o) Q) ->
  wp (unlinkBlock a (baddr p) (listNo (bsz p - g_ovh g)) ;;; other_pszB <- bszB_to_pszB a (bsz q) ;;
      other_listno <- pszB_to_listNo other_pszB ;; unlinkBlock a (baddr q) other_listno ;;;
      b_pszB <- bszB_to_pszB a (u64 (bsz p + bsz q)) ;; b_listno <- pszB_to_listNo b_pszB ;;
      mkFreeBlock a (baddr x) (u64 (bsz p + bsz q)) b_listno ;;; profile_cc cfg (baddr x) lit ;;;
      K (u64 (bsz p + bsz q)) b_listno) (St A m o) Q.
Proof using Ha Hhp.
  intros g Hok Hm Es Eb Hfx Hfy Hpq HQ. destruct (adjacent A m o ag S1 sb S2 l1 x y l2 Hok Es Eb) as (Hx & Hy & Exy & T1 & T2 & T3).
  pose proof (ao_geo _ _ _ _ _ Hok) as Hg. fold g in Hg. destruct (geo_hp g Hg) as [Hh1 Hh2]. pose proof (ao_lists _ _ _ _ _ Hok) as Hls.
  pose proof (blks_wf _ _ _ _ _ Hok x Hx) as Hwx. pose proof (blks_wf _ _ _ _ _ Hok y Hy) as Hwy. fold g in Hwx, Hwy.
  set (z := Blk (baddr x) (bsz x + bsz y) false).
  assert (blk_wf g z) as Hwz.
  { destruct Hwx as (X1 & X2 & X3 & X4 & X5), Hwy as (Y1 & Y2 & Y3 & Y4 & Y5). unfold z, bend in *. repeat split; cbn; try done; try lia.
    - by rewrite Z.add_mod, X3, Y3.
    - unfold bend. cbn. lia. }
  assert (p ∈ mjoin (ag_fl ag) /\ q ∈ mjoin (ag_fl ag) /\ p <> q) as (Hp & Hq & Hne).
  { rewrite !(free_elem _ _ _ _ _ Hok). assert (x <> y) by (intros ->; destruct Hwy as (? & ? & ? & ? & ?); unfold bend in *; lia).
    destruct Hpq as [[-> ->]|[-> ->]]; done. }
  assert (u64 (bsz p + bsz q) = bsz z) as Ez.
  { destruct Hwx as (X1 & X2 & X3 & X4 & X5), Hwy as (Y1 & Y2 & Y3 & Y4 & Y5). unfold bend in *. rewrite u64_small by (destruct Hpq as [[-> ->]|[-> ->]]; lia).
    unfold z. cbn. destruct Hpq as [[-> ->]|[-> ->]]; lia. }
  assert (blk_wf g q) as Hwq by (destruct Hpq as [[-> ->]|[-> ->]]; done).
  apply wp_bind. eapply (wp_take_listed a s g); [done..|]. intros m1 F1 fl1 Hm1 Hl1 Hj1 Hx1.
  apply wp_bind. eapply (wp_bszB_to_pszB a s g); [done..|apply Hwq|]. apply wp_bind, wp_pszB_to_listNo; [by apply payload_mod, Hwq|].
  assert (q ∈ mjoin fl1) as Hq1 by (rewrite Hj1 in Hq; apply elem_of_cons in Hq as [->|]; done).
  apply wp_bind. eapply (wp_take_listed a s g); [done..|]. intros m2 F2 fl2 Hm2 Hl2 Hj2 Hx2.
  assert (mjoin (ag_fl ag) ≡ₚ x :: y :: mjoin fl2) as Hj.
  { rewrite Hj1, Hj2. destruct Hpq as [[-> ->]|[-> ->]]; [done|constructor]. }
  assert (forall c, c ∈ mjoin fl2 -> c ∈ ag_blks ag /\ bdisj z c) as Hd.
  { intros c Hc. pose proof (fo_nodup _ _ _ _ Hls) as Hn. rewrite Hj in Hn. apply NoDup_cons in Hn as [Nx Hn]. apply NoDup_cons in Hn as [Ny _].
    assert (c ∈ mjoin (ag_fl ag)) as Hcf by (rewrite Hj; by do 2 right). apply (free_elem _ _ _ _ _ Hok) in Hcf as [Hcb _]. split; [done|].
    destruct (blks_apart _ _ _ _ _ Hok) as [_ Hap]. assert (bdisj x c) as D1 by (apply Hap; [done|done|intros ->; apply Nx; by right]).
    assert (bdisj y c) as D2 by (apply Hap; [done|done|by intros ->]). pose proof (blk_wf_pos g c Hg (blks_wf _ _ _ _ _ Hok c Hcb)) as (Hs & _).
    unfold z, bdisj, bend in *. cbn. lia. }
  rewrite Ez. apply wp_bind. eapply (wp_bszB_to_pszB a s g); [done..|apply Hwz|]. apply wp_bind, wp_pszB_to_listNo; [by apply payload_mod, Hwz|].
  apply wp_bind. eapply (wp_list_block cfg a s Ha Hhp _ _ _ g _ m2 o fl2 z); [done..|by intros c Hc; apply Hd|done|]. intros m3 F3 fl3 Hm3 Hl3 Hj3 Hx3.
  apply wp_bind. apply (wp_profile_cc cfg a s Ha Hhp _ _ z); [done|done|]. intros m4 Hm4 Hx4. change hp with (g_hp g) in Hx4.
  assert (forall v, ~ in_blk z v -> ~ link_byte g (mjoin (ag_fl ag)) v -> m4 v = m v) as Hall.
  { intros v Hv Hl. assert (forall l, (forall c, c ∈ l -> c ∈ mjoin (ag_fl ag)) -> ~ link_byte g l v) as Hsub.
    { intros l Hi (c & Hc & Hcl)%link_one. apply Hl. eapply link_elem; [|exact Hcl]. by apply Hi. }
    rewrite Hx4, Hx3, Hx2, Hx1; [done|done| |done| |].
    - apply Hsub. intros c Hc. rewrite Hj1. by right.
    - apply Hsub. intros c Hc. rewrite Hj. by do 2 right.
    - destruct Hwz as (_ & _ & _ & ? & _). unfold in_blk, bend in *. lia. }
  eapply (HQ m4 F3 fl3 z); [done|done| |].
  - rewrite <- (set_lists_same A F3). eapply (arena_swap hp m o A ag S1 sb S2 l1 [x; y] l2 (baddr x) (bend y)); try done.
    + cbn. split; [done|]. unfold z, bend in *. cbn. lia.
    + by intros b ->%list_elem_of_singleton.
    + eapply fl_ok_body; [done| |exact Hl3]. intros b v Hb Hi. fold g in Hi. apply Hx4. rewrite Hj3 in Hb. unfold in_body, z in *.
      apply elem_of_cons in Hb as [->|Hb]; [cbn in *; lia|]. destruct (Hd b Hb) as [_ Hdb]. destruct Hwz as (_ & _ & _ & ? & _).
      unfold bdisj, z, bend in *. cbn [baddr bsz] in *. lia.
    + cbn [filter list_filter]. rewrite !decide_True by done. exact Hj.
    + exact Hj3.
    + by intros b ->%list_elem_of_singleton.
    + intros v Hv Hl. apply Hall; [|done]. unfold in_blk, z, bend in *. cbn in *. lia.
  - intros v Hv. apply Hall.
    + intros Hi. destruct (decide (v < bend x)); [apply (Hv x)|apply (Hv y)]; try done; unfold in_blk, z, bend in *; cbn in *; lia.
    + intros (c & Hc & Hcf & Hci)%(free_link _ _ _ _ _ Hok). by apply (Hv c).
Qed.
(** ** The neighbours of a free block *)

(** The free block [b] may be next to other free ones; all else is tidy. *)
Record loose A m o ag S1 sb S2 l1 b l2 : Prop := {
  lo_ok : arena_ok hp m o A ag;
  lo_mapped : mapped_ok A ag;
  lo_bytes : bytes_ok m;
  lo_sbs : ag_sbs ag = S1 ++ sb :: S2 /\ sblks sb = l1 ++ b :: l2;
  lo_free : is_free b;
  lo_tidy x : x ∈ S1 ++ S2 -> sb_tidy (fun p => p = deferred_reclaimed_sb A) x;
  lo_merged : merged l1 /\ merged l2;
  lo_split : sunsplit sb = false
}.

Lemma merge_quiet A m o ag S1 sb S2 l1 x y l2 m' F fl : let z := Blk (baddr x) (bsz x + bsz y) false in
  let ag' := swap_blks S1 sb S2 l1 [z] l2 fl ag in
  arena_ok hp m o A ag -> ag_sbs ag = S1 ++ sb :: S2 -> sblks sb = l1 ++ x :: y :: l2 -> is_free x -> is_free y -> bytes_ok m' ->
  (forall v, (forall b, b ∈ ag_blks ag -> is_free b -> ~ in_blk b v) -> m' v = m v) ->
  quiet m o A ag m' o (set_freelist F A) ag' /\ (mapped_ok A ag -> mapped_ok (set_freelist F A) ag').
Proof using Ha.
  intros z ag' Hok Es Eb Hfx Hfy Hm' Hx. destruct (adjacent A m o ag S1 sb S2 l1 x y l2 Hok Es Eb) as (Hxi & Hyi & Exy & _).
  assert (filter is_used (ag_blks ag') = filter is_used (ag_blks ag)) as Eu.
  { unfold ag', swap_blks, ag_blks. cbn [ag_sbs]. rewrite Es, !bind_app. cbn [mbind list_bind sblks]. rewrite Eb, !filter_app. do 2 f_equal.
    cbn [app]. rewrite !filter_cons_False by (unfold is_used, is_free in *; cbn; congruence). done. }
  assert (ag_regions ag' = ag_regions ag) as Er by (by apply swap_regs).
  split; [split; [done| |done..]|].
  - split; try done.
    + intros b v Hb Hf Hv. apply swap_blks_elem in Hb as [->%list_elem_of_singleton|Hb].
      * unfold in_blk, bend, z in *. cbn in Hv. destruct (decide (v < baddr y)); [exists x|exists y]; unfold bend; split_and!; try done; lia.
      * exists b. split_and!; try done. rewrite (ag_blks_split ag S1 sb S2 l1 [x; y] l2 Es Eb). apply elem_of_app. by right.
    + by rewrite Er.
    + unfold ag'. cbn [swap_blks ag_sbs]. rewrite Es, !length_app. done.
  - unfold mapped_ok, mapped_bytes. by rewrite Er.
Qed.

(** The state after a merge *)
Lemma merge_loose A m o ag S1 sb S2 l1 x y l2 m' F fl : let z := Blk (baddr x) (bsz x + bsz y) false in
  let ag' := swap_blks S1 sb S2 l1 [z] l2 fl ag in
  arena_ok hp m o A ag -> mapped_ok A ag -> ag_sbs ag = S1 ++ sb :: S2 -> sblks sb = l1 ++ x :: y :: l2 -> is_free x -> is_free y -> bytes_ok m' ->
  (forall v, (forall b, b ∈ ag_blks ag -> is_free b -> ~ in_blk b v) -> m' v = m v) -> arena_ok hp m' o (set_freelist F A) ag' ->
  (forall x, x ∈ S1 ++ S2 -> sb_tidy (fun p => p = deferred_reclaimed_sb A) x) -> merged l1 -> merged l2 -> sunsplit sb = false ->
  loose (set_freelist F A) m' o ag' S1 (sb_swapped sb l1 l2 [z]) S2 l1 z l2 /\ quiet m o A ag m' o (set_freelist F A) ag'.
Proof using Ha.
  intros z ag' Hok Hac Es Eb Hfx Hfy Hm' Hx Hok' Hty Hl1 Hl2 Hsp. destruct (merge_quiet A m o ag S1 sb S2 l1 x y l2 m' F fl) as [Hq Hac']; try done.
  split; [|done]. split; try done. by apply Hac'.
Qed.
Lemma wp_merge_successor A m o ag S1 sb S2 l1 b l2 Q : loose A m o ag S1 sb S2 l1 b l2 ->
  (forall A' m' ag' sb' b' l2', loose A' m' o ag' S1 sb' S2 l1 b' l2' -> quiet m o A ag m' o A' ag' ->
     saddr sb' = saddr sb -> sbytes sb' = sbytes sb -> baddr b' = baddr b -> merged (b' :: l2') ->
     Q (bsz b', listNo (bsz b' - g_ovh (geo_of hp A))) (St A' m' o)) ->
  wp (merge_successor cfg a (spay sb + (sbytes sb - 1)) (baddr b) (bsz b) (listNo (bsz b - g_ovh (geo_of hp A)))) (St A m o) Q.
Proof using Ha Hhp.
  intros Hlo HQ. pose proof Hlo as [Hok Hac Hm [Es Eb] Hf Hty [Hl1 Hl2] Hsp]. set (g := geo_of hp A) in *. pose proof (ao_geo _ _ _ _ _ Hok) as Hg. fold g in Hg.
  pose proof (geo_sizes g Hg) as Hgs. assert (sb ∈ ag_sbs ag) as Hs by (rewrite Es; apply elem_of_app; right; by left).
  unfold merge_successor. apply wp_bind. eapply (wp_min_useful a s g); [done..|].
  destruct l2 as [|y l2].
  - destruct (ao_sbs _ _ _ _ _ Hok sb Hs) as [Hws _]. pose proof (sw_tiles _ _ Hws) as Ht. rewrite Eb in Ht.
    apply blk_tiles_app in Ht as (lo & _ & E1 & E2). cbn in E2. unfold bend, spay, send in *.
    rewrite (proj2 (Z.leb_gt _ _)) by lia. apply wp_bind, wp_m_assert; [apply Z.eqb_eq; lia|]. apply wp_ret.
    apply (HQ A m ag sb b []); try done. by apply quiet_refl.
  - destruct (adjacent A m o ag S1 sb S2 l1 b y l2 Hok Es Eb) as (Hbi & Hyi & E & _). fold (bend b). rewrite E.
    pose proof (blks_wf _ _ _ _ _ Hok y Hyi) as Hwy. fold g in Hwy. destruct (blk_place _ _ _ _ _ Hok sb y Hs) as [_ Hye].
    { rewrite Eb. apply elem_of_app. right. right. by left. }
    pose proof (blk_tagged _ _ _ _ _ Hok y Hyi) as Hty'. fold g in Hty'. pose proof (proj1 (proj2 (proj2 (proj2 Hwy)))) as Hov.
    rewrite (proj2 (Z.leb_le _ _)) by (unfold bend, send, spay in *; lia).
    apply wp_bind. eapply (wp_get_bszB a s g); [done..|]. apply wp_bind. eapply (wp_is_inuse a s g); [done..|].
    destruct (bused y) eqn:Eu.
    + apply wp_ret. apply (HQ A m ag sb b (y :: l2)); try done; [by apply quiet_refl|]. split; [by right|done].
    + eapply (wp_merge_two A m o ag S1 sb S2 l1 b y l2 b y _ (fun n lno => ret (n, lno))); [done..|by left|].
      intros m' F fl z -> Hm' Hok' Hx. apply wp_ret.
      destruct (merged_free [] y l2 Hl2 Eu) as [_ Hnext].
      destruct (merge_loose A m o ag S1 sb S2 l1 b y l2 m' F fl) as [Hlo' Hq]; [done..|by apply (merged_r [y])|done|].
      eapply HQ; [exact Hlo'|exact Hq|done..|]. split; [|by apply (merged_r [y])]. destruct l2 as [|c k]; [done|]. right. by apply (Hnext c k).
Qed.

Lemma wp_merge_predecessor A m o ag S1 sb S2 l1 b l2 Q : loose A m o ag S1 sb S2 l1 b l2 -> merged (b :: l2) ->
  (forall A' m' ag' sb' b' l1', loose A' m' o ag' S1 sb' S2 l1' b' l2 -> quiet m o A ag m' o A' ag' ->
     saddr sb' = saddr sb -> sbytes sb' = sbytes sb -> merged (sblks sb') -> Q (baddr b', bsz b') (St A' m' o)) ->
  wp (merge_predecessor cfg a (spay sb) (baddr b) (bsz b) (listNo (bsz b - g_ovh (geo_of hp A)))) (St A m o) Q.
Proof using Ha Hhp.
  intros Hlo Hbl HQ. pose proof Hlo as [Hok Hac Hm [Es Eb] Hf Hty [Hl1 Hl2] Hsp]. set (g := geo_of hp A) in *. pose proof (ao_geo _ _ _ _ _ Hok) as Hg. fold g in Hg.
  pose proof (geo_sizes g Hg) as Hgs. assert (sb ∈ ag_sbs ag) as Hs by (rewrite Es; apply elem_of_app; right; by left).
  unfold merge_predecessor. apply wp_bind. eapply (wp_min_useful a s g); [done..|].
  destruct (decide (l1 = [])) as [->|Hne].
  - destruct (ao_sbs _ _ _ _ _ Hok sb Hs) as [Hws _]. pose proof (sw_tiles _ _ Hws) as Ht. rewrite Eb in Ht. destruct Ht as [E _].
    rewrite (proj2 (Z.leb_gt _ _)) by lia. apply wp_bind, wp_m_assert; [apply Z.eqb_eq; lia|]. apply wp_ret.
    apply (HQ A m ag sb b []); [done|by apply quiet_refl|done|done|by rewrite Eb].
  - destruct (exists_last Hne) as (l1' & c & ->). rewrite <- app_assoc in Eb. cbn [app] in Eb.
    destruct (adjacent A m o ag S1 sb S2 l1' c b l2 Hok Es Eb) as (Hci & Hbi & E & _).
    pose proof (blks_wf _ _ _ _ _ Hok c Hci) as Hwc. fold g in Hwc. destruct (blk_place _ _ _ _ _ Hok sb c Hs) as [Hcs _].
    { rewrite Eb. apply elem_of_app. right. by left. }
    pose proof (blk_tagged _ _ _ _ _ Hok c Hci) as Htc. fold g in Htc. pose proof (proj1 (proj2 (proj2 (proj2 Hwc)))) as Hov.
    rewrite (proj2 (Z.leb_le _ _)) by (unfold bend in *; lia).
    unfold get_predecessor_block. apply wp_bind, wp_bind, wp_ld. rewrite <- E, (proj2 Htc). apply wp_bind. eapply (wp_plain a s g); [done..|]. apply wp_ret.
    replace (bend c - bsz c) with (baddr c) by (unfold bend; lia).
    apply wp_bind. eapply (wp_get_bszB a s g); [done..|]. apply wp_bind. eapply (wp_is_inuse a s g); [done..|].
    destruct (bused c) eqn:Eu.
    + apply wp_ret. rewrite E. apply (HQ A m ag sb b (l1' ++ [c])); [done|by apply quiet_refl|done|done|].
      rewrite Eb. apply merged_app. split; [done|]. split; [by left|done].
    + rewrite E. eapply (wp_merge_two A m o ag S1 sb S2 l1' c b l2 b c _ (fun n lno => ret (baddr c, n))); [done..|by right|].
      intros m' F fl z -> Hm' Hok' Hx. apply wp_ret. destruct (merged_free l1' c [] Hl1 Eu) as [Hprev _].
      destruct (merge_loose A m o ag S1 sb S2 l1' c b l2 m' F fl) as [Hlo' Hq]; [done..|by apply (merged_l l1' [c])|done|done|].
      eapply (HQ _ _ _ _ (Blk (baddr c) (bsz c + bsz b) false)); [exact Hlo'|exact Hq|done|done|]. unfold sb_swapped. cbn [sblks app].
      apply merged_between; [by apply (merged_l l1' [c])|done|done|]. apply (merged_free [] b l2); [exact Hbl|done].
Qed.
Lemma quiet_same m o A ag m' o' A' ag' : quiet m o A ag m' o' A' ag' -> geo_of hp A' = geo_of hp A.
Proof using Type. intros [_ [(E1 & E2 & _) _ _ _ _ _] _ _ _]. unfold geo_of. congruence. Qed.

Lemma wp_mergeWithFreeNeighbours A m o ag S1 sb S2 l1 b l2 Q : loose A m o ag S1 sb S2 l1 b l2 ->
  (forall m' o' A' ag', arena_rest hp m' o' A' ag' -> quiet m o A ag m' o' A' ag' -> Q tt (St A' m' o')) ->
  wp (mergeWithFreeNeighbours cfg a (saddr sb) (baddr b) (bsz b)) (St A m o) Q.
Proof using Ha Hhp.
  intros Hlo HQ. pose proof Hlo as [Hok _ _ [Es Eb] _ _ _ _]. set (g := geo_of hp A) in *. pose proof (ao_geo _ _ _ _ _ Hok) as Hg. fold g in Hg.
  assert (sb ∈ ag_sbs ag) as Hs by (rewrite Es; apply elem_of_app; right; by left).
  destruct (ao_sbs _ _ _ _ _ Hok sb Hs) as [_ [E1 _]].
  assert (b ∈ ag_blks ag) as Hb by (apply ag_blks_elem; exists sb; split; [done|rewrite Eb; apply elem_of_app; right; by left]).
  pose proof (blks_wf _ _ _ _ _ Hok b Hb) as Hw. fold g in Hw.
  unfold mergeWithFreeNeighbours. apply wp_bind, wp_ld. rewrite E1. unfold payload_bytes. fold (spay sb).
  apply wp_bind. eapply (wp_bszB_to_pszB a s g); [done..|apply Hw|]. apply wp_bind, wp_pszB_to_listNo; [by apply payload_mod, Hw|].
  apply wp_bind. eapply wp_merge_successor; [exact Hlo|]. intros A1 m1 ag1 sb1 b1 l2' Hlo1 Hq1 Ea1 Eb1 Ebb Hm1. cbn [fst snd].
  fold g. rewrite <- Ebb. change g with (geo_of hp A). rewrite <- (quiet_same _ _ _ _ _ _ _ _ Hq1). unfold spay. rewrite <- Ea1. fold (spay sb1).
  apply wp_bind. eapply wp_merge_predecessor; [exact Hlo1|done|]. intros A2 m2 ag2 sb2 b2 l1' Hlo2 Hq2 Ea2 Eb2 Hm2. cbn [fst snd].
  unfold spay. rewrite <- Eb1, <- Eb2, <- Ea2. fold (spay sb2). pose proof Hlo2 as [Hok2 Hac2 Hm2' [Es2 Esb2] Hf2 Hty2 _ Hsp2].
  assert (sb2 ∈ ag_sbs ag2) as Hs2 by (rewrite Es2; apply elem_of_app; right; by left).
  pose proof (quiet_trans _ _ _ _ _ _ _ _ _ _ _ _ Hq1 Hq2) as Hq.
  assert (forall (d : Z -> Prop) x, (forall p, p = deferred_reclaimed_sb A2 -> d p) ->
    (forall b, sblks sb2 = [b] -> is_free b -> d (saddr sb2)) -> x ∈ ag_sbs ag2 -> sb_tidy d x) as Hall.
  { intros d x Hd Hd2 Hx. rewrite Es2, elem_of_app, elem_of_cons in Hx. destruct Hx as [Hx|[->|Hx]].
    - eapply sb_tidy_mono; [|apply Hty2, elem_of_app; by left]. intros. by apply Hd.
    - split; [done|by rewrite Hsp2|done].
    - eapply sb_tidy_mono; [|apply Hty2, elem_of_app; by right]. intros. by apply Hd. }
  destruct ((spay sb2 =? baddr b2) && (baddr b2 + bsz b2 - 1 =? spay sb2 + (sbytes sb2 - 1))) eqn:Ew.
  - eapply (wp_deferred_reclaim a s Ha); [exact Hok2|done|done| |right; by exists sb2|].
    + intros x. apply Hall; [by left|by right].
    + intros m' o' A' ag' Hinv Hq3 _. apply (HQ m' o' A' ag'); [done|]. by eapply quiet_trans.
  - apply wp_ret. apply (HQ m2 o A2 ag2); [|done]. split; [done|]. split; [|done]. intros x. apply Hall; [done|].
    intros c Ec _. exfalso. destruct (ao_sbs _ _ _ _ _ Hok2 sb2 Hs2) as [Hws _]. pose proof (sw_tiles _ _ Hws) as Ht.
    rewrite Ec in Ht, Esb2. destruct l1' as [|? l1']; [|by destruct l1']. injection Esb2 as -> _. destruct Ht as [T1 T2]. cbn in T2.
    unfold bend, spay, send in *. apply andb_false_iff in Ew as [Ew|Ew]; apply Z.eqb_neq in Ew; lia.
Qed.
(** ** The block goes *)

Section Release.
Context (A : Arena) (m : gmem) (o : OS) (ag : aghost) (S1 : list sblk) (sb : sblk) (S2 : list sblk) (l1 : list blk) (b : blk) (l2 : list blk).
Context (Hinv : arena_inv hp m o A ag) (Es : ag_sbs ag = S1 ++ sb :: S2) (Eb : sblks sb = l1 ++ b :: l2) (Hu : is_used b).
Let g : geo := geo_of hp A.

Definition payload_byte (x : Z) : Prop := baddr b + g_lo g <= x < bend b - g_hi g.

Context (m1 : gmem) (Hm1 : bytes_ok m1) (Hpay : forall x, ~ payload_byte x -> m1 x = m x).
Context (st : Stats).

(** What becomes of the arena *)
Record freed m' (o' : OS) A' ag' : Prop := {
  fr_inv : arena_inv hp m' o' A' ag';
  fr_bytes : bytes_ok m';
  fr_used : filter is_used (ag_blks ag) ≡ₚ b :: filter is_used (ag_blks ag');
  fr_regs r : r ∈ ag_regions ag' -> r ∈ ag_regions ag;
  fr_same : ag_perm ag' = ag_perm ag /\ ag_chunks ag' = ag_chunks ag /\ clientmem A' = clientmem A /\ rz_szB A' = rz_szB A /\ sblocks_size A' = sblocks_size A /\
    (length (ag_sbs ag') <= length (ag_sbs ag))%nat;
  fr_mem x : (forall c, c ∈ ag_blks ag -> is_free c \/ c = b -> ~ in_blk c x) -> m' x = m x;
  fr_mapped cl q k : 0 < k -> mapped o cl q k -> (forall r, r ∈ ag_regions ag -> rdisj r (q, k)) -> mapped o' cl q k;
  fr_space k : core_space o k -> core_space o' k
}.

Lemma release_in : b ∈ ag_blks ag /\ sb ∈ ag_sbs ag /\ blk_wf g b.
Proof using Hinv Es Eb.
  destruct Hinv as (Hok & _). assert (sb ∈ ag_sbs ag) as Hs by (rewrite Es; apply elem_of_app; right; by left).
  assert (b ∈ ag_blks ag) as Hb by (apply ag_blks_elem; exists sb; split; [done|rewrite Eb; apply elem_of_app; right; by left]).
  split_and!; [done|done|by eapply blks_wf].
Qed.

Lemma release_tiles : exists lo hi, tiles (spay sb) l1 lo /\ tiles lo [b] hi /\ tiles hi l2 (send sb) /\ lo = baddr b /\ hi = bend b.
Proof using Hinv Es Eb.
  destruct release_in as (_ & Hs & _). destruct Hinv as (Hok & _). destruct (ao_sbs _ _ _ _ _ Hok sb Hs) as [Hws _].
  pose proof (sw_tiles _ _ Hws) as Ht. rewrite Eb in Ht. change (b :: l2) with ([b] ++ l2) in Ht.
  apply blk_tiles_app in Ht as (lo & T1 & (hi & T2 & T3)%blk_tiles_app). exists lo, hi. split_and!; try done; cbn in T2; by destruct T2.
Qed.

(** The payload is not the heap's. *)
Lemma release_payload : arena_ok hp m1 o (set_stats st A) ag.
Proof using Hinv Es Eb Hpay Hu.
  clear Ha Hhp Hcfg.
  destruct release_in as (Hb & Hs & Hw). destruct release_tiles as (lo & hi & T1 & T2 & T3 & -> & ->). destruct Hinv as (Hok & _).
  pose proof (ao_geo _ _ _ _ _ Hok) as Hg. fold g in Hg. pose proof (geo_sizes g Hg) as Hgs.
  assert (forall x, ~ in_blk b x -> m1 x = m x) as Hx.
  { intros x Hi. apply Hpay. unfold payload_byte, in_blk in *. lia. }
  assert (swap_blks S1 sb S2 l1 [b] l2 (ag_fl ag) ag = ag) as Eag.
  { unfold swap_blks. cbn [app]. rewrite <- Eb. destruct sb, ag. cbn in *. by rewrite Es. }
  rewrite <- Eag. change (set_stats st A) with (set_lists (freelist A) st A).
  assert (blk_in g m b) as Hin by (by apply (ao_used _ _ _ _ _ Hok)).
  assert (filter is_free [b] = []) as En.
  { cbn [filter list_filter]. rewrite decide_False; [done|]. unfold is_free, is_used in *. congruence. }
  eapply (arena_swap hp m o A ag S1 sb S2 l1 [b] l2 (baddr b) (bend b)) with (R := mjoin (ag_fl ag)); rewrite ?En; try done.
  - by intros c ->%list_elem_of_singleton.
  - eapply fl_ok_ext; [done| |apply (ao_lists _ _ _ _ _ Hok)]. intros c x [Hc Hcf]%(free_elem _ _ _ _ _ Hok) Hi. apply Hx.
    intros Hib. destruct (blks_apart _ _ _ _ _ Hok) as [_ Hd]. assert (bdisj b c) as Hbc.
    { apply Hd; [done|done|intros ->]. unfold is_used in Hu. congruence. }
    unfold bdisj, in_blk in *. lia.
  - intros c ->%list_elem_of_singleton _. eapply blk_in_admin; [done|done| |exact Hin].
    intros x Hi. apply Hpay. unfold admin_byte, payload_byte in *. fold g in Hi. lia.
  - intros x Hlo _. apply Hx. unfold in_blk. lia.
Qed.
Context (Hst : bytes_on_loan st = u64 (bytes_on_loan (stats A) - (bsz b - g_ovh g))).
Context (Hst' : bytes_mmaped st = bytes_mmaped (stats A) /\ perm_bytes_on_loan st = perm_bytes_on_loan (stats A)).

Lemma release_used : filter is_used (ag_blks ag) ≡ₚ b :: filter is_used ((S1 ≫= sblks) ++ l1 ++ l2 ++ (S2 ≫= sblks)).
Proof using Es Eb Hu. rewrite (ag_blks_split ag S1 sb S2 l1 [b] l2 Es Eb). cbn [app]. by rewrite filter_cons_True. Qed.

(** *** Among other blocks *)

Let f : blk := Blk (baddr b) (bsz b) false.

Lemma release_accounts A' ag' : stats A' = st -> geo_of hp A' = g -> ag_regions ag' = ag_regions ag ->
  filter is_used (ag_blks ag) ≡ₚ b :: filter is_used (ag_blks ag') -> accounts hp A' ag'.
Proof using All.
  intros E1 E2 E3 E4. destruct Hinv as (_ & _ & [C1 C2]). destruct Hst' as [H1 H2]. split; rewrite E1, ?E2.
  - rewrite Hst, H2, C1. unfold loaned. fold g. rewrite (sumZ_perm _ _ _ E4). unfold sumZ at 1. cbn [foldr].
    fold (sumZ (fun b => bsz b - g_ovh g) (filter is_used (ag_blks ag'))). unfold u64. rewrite Zminus_mod_idemp_l. f_equal. lia.
  - rewrite H1, C2. unfold mapped_bytes. by rewrite E3.
Qed.

Lemma wp_release lit Q : sunsplit sb = false -> (forall m' o' A' ag', freed m' o' A' ag' -> Q tt (St A' m' o')) ->
  wp (b_listno <- pszB_to_listNo (bsz b - g_ovh g) ;; mkFreeBlock a (baddr b) (bsz b) b_listno ;;; profile_cc cfg (baddr b) lit ;;;
      mergeWithFreeNeighbours cfg a (saddr sb) (baddr b) (bsz b)) (St (set_stats st A) m1 o) Q.
Proof using All.
  intros Hsp HQ. destruct release_in as (Hb & Hs & Hw). destruct release_tiles as (lo & hi & T1 & T2 & T3 & -> & ->). pose proof release_payload as Hok1.
  pose proof Hinv as (Hok & Hty & Hac). pose proof (ao_geo _ _ _ _ _ Hok) as Hg. fold g in Hg. destruct (geo_hp g Hg) as [Hh1 Hh2].
  pose proof (ao_lists _ _ _ _ _ Hok1) as Hls. change (geo_of hp (set_stats st A)) with g in Hls.
  apply wp_bind, wp_pszB_to_listNo; [by apply payload_mod, Hw|].
  assert (forall c, c ∈ mjoin (ag_fl ag) -> bdisj f c) as Hd.
  { intros c [Hc Hcf]%(free_elem _ _ _ _ _ Hok). destruct (blks_apart _ _ _ _ _ Hok) as [_ Hap]. 
    apply (Hap b c Hb Hc). intros ->. unfold is_used in Hu. congruence. }
  apply wp_bind. eapply (wp_list_block cfg a s Ha Hhp _ _ _ g _ m1 o (ag_fl ag) f); [done..|].
  intros m2 F fl Hm2 Hl2 Hj2 Hx2. apply wp_bind. apply (wp_profile_cc cfg a s Ha Hhp _ _ f); [done|done|]. intros m3 Hm3 Hx3. change hp with (g_hp g) in Hx3.
  set (ag' := swap_blks S1 sb S2 l1 [f] l2 fl ag). set (A' := set_freelist F (set_stats st A)).
  assert (forall v, ~ in_blk b v -> ~ link_byte g (mjoin (ag_fl ag)) v -> m3 v = m v) as Hall.
  { intros v Hv Hl. destruct Hw as (_ & _ & _ & Hov & _). rewrite Hx3, Hx2, Hpay; [done| |done|done|];
      unfold payload_byte, in_blk, f, bend in *; cbn [baddr]; pose proof (geo_sizes g Hg); lia. }
  assert (filter is_used (ag_blks ag) ≡ₚ b :: filter is_used (ag_blks ag')) as Hused.
  { rewrite release_used. f_equiv. unfold ag'. rewrite (ag_blks_split (swap_blks S1 sb S2 l1 [f] l2 fl ag) S1 (sb_swapped sb l1 l2 [f]) S2 l1 [f] l2) by done.
    cbn [app]. by rewrite filter_cons_False. }
  assert (ag_regions ag' = ag_regions ag) as Hre by (by apply swap_regs).
  assert (loose A' m3 o ag' S1 (sb_swapped sb l1 l2 [f]) S2 l1 f l2) as Hlo.
  { split; try done.
    - unfold A'. rewrite <- (set_lists_same (set_stats st A) F).
      eapply (arena_swap hp m1 o (set_stats st A) ag S1 sb S2 l1 [b] l2 (baddr b) (bend b)) with (R := mjoin (ag_fl ag)); try done.
      + by intros c ->%list_elem_of_singleton.
      + eapply fl_ok_body; [done| |exact Hl2]. intros c v Hc Hi. change (geo_of hp (set_stats st A)) with g in Hi. apply Hx3. rewrite Hj2 in Hc.
        unfold in_body in Hi. apply elem_of_cons in Hc as [->|Hc]; [cbn [f baddr] in *; lia|]. specialize (Hd c Hc). destruct Hw as (_ & _ & _ & ? & _).
        unfold bdisj, f, bend in *. cbn [baddr bsz] in *. lia.
      + cbn [filter list_filter]. rewrite decide_False by (unfold is_free, is_used in *; congruence). done.
      + by intros c ->%list_elem_of_singleton.
      + intros v Hv Hl. destruct Hw as (_ & _ & _ & Hov & _). rewrite Hx3, Hx2; [done| |done|]; unfold in_blk, f, bend in *; cbn [baddr bsz]; lia.
    - by apply release_accounts.
    - intros x Hx. apply Hty. rewrite Es. rewrite elem_of_app in *. rewrite elem_of_cons. tauto.
    - pose proof (st_merged _ _ (Hty sb Hs)) as Hmg. rewrite Eb in Hmg. split; [by eapply merged_l|].
      apply (merged_r (l1 ++ [b])). by rewrite <- app_assoc. }
  change (saddr sb) with (saddr (sb_swapped sb l1 l2 [f])). change (baddr b) with (baddr f). change (bsz b) with (bsz f).
  eapply wp_mergeWithFreeNeighbours; [exact Hlo|]. intros m' o' A2 ag2 Hrest Hq2. pose proof (quiet_inv _ _ _ _ _ _ _ _ _ (release_accounts A' ag' eq_refl eq_refl Hre Hused) Hq2 Hrest) as Hinv2.
  destruct Hq2 as [Hm' [(G1 & G2 & G3 & G4 & G5 & G6) U1 K1 R1 (E1 & E2) N1] M1 P1 Sp1].
  apply (HQ m' o' A2 ag2). split; try done.
  - by rewrite U1.
  - intros r Hr. rewrite <- Hre. by apply R1.
  - split_and!; try done. etransitivity; [exact N1|]. unfold ag'. cbn. rewrite Es, !length_app. done.
  - intros x Hx. rewrite M1, Hall; [done|apply Hx; [done|by right]| |].
    + intros (c & Hc & Hcf & Hci)%(free_link _ _ _ _ _ Hok). apply (Hx c); auto.
    + intros c Hc Hcf. apply swap_blks_elem in Hc as [->%list_elem_of_singleton|Hc]; [apply (Hx b Hb); by right|].
      apply Hx; [|by left]. by apply (others_elem ag S1 sb S2 l1 [b] l2).
  - intros cl q k Hk Hmp Hr. apply P1; [done|done|]. by rewrite Hre.
Qed.
(** *** Alone in its superblock *)

Lemma wp_release_whole Q : sunsplit sb = true -> (forall m' o' A' ag', freed m' o' A' ag' -> Q tt (St A' m' o')) ->
  wp (sane <- unsplittableBlockSane a (saddr sb) (baddr b) ;; m_assert sane ;;; reclaimSuperblock a (saddr sb)) (St (set_stats st A) m1 o) Q.
Proof using All.
  intros Hun HQ. destruct release_in as (Hb & Hs & Hw). pose proof release_payload as Hok1. pose proof release_used as Hru. pose proof Hinv as (Hok & Hty & Hac).
  destruct (st_unsplit _ _ (Hty sb Hs) Hun) as (b' & Eb' & _).
  assert (l1 = [] /\ l2 = [] /\ b' = b) as (-> & -> & ->).
  { rewrite Eb in Eb'. destruct l1 as [|? [|]]; cbn in Eb'; [by injection Eb' as -> ->|by injection Eb'|by injection Eb']. }
  apply wp_bind. eapply (wp_unsplittableBlockSane a s Ha); [exact Hok1|done..|]. apply wp_bind, wp_m_assert; [done|].
  change (set_stats st A) with (set_freelist (freelist A) (set_stats st A)).
  eapply wp_reclaimSuperblock; [done|exact Hok1|exact Es|by apply (ao_sbs _ _ _ _ _ Hok1)|].
  cbn [clientmem set_stats sblocks sblocks_size sblocks_used stats]. intros o' L st' Eo HL1 HL2 [R1 R2 R3].
  pose proof (sw_bytes _ _ (proj1 (ao_sbs _ _ _ _ _ Hok sb Hs))) as Hpos.
  assert (sb_reg sb ∈ ag_regions ag) as Hsr by (apply elem_of_app; left; apply list_elem_of_fmap; by exists sb).
  destruct (munmap_ok (clientmem A) (saddr sb) (32 + sbytes sb) o ltac:(lia)) as (o2 & Eo2 & Hmp & Hsp);
    [by apply (ao_mapped _ _ _ _ _ Hok (sb_reg sb))|]. assert (o2 = o') as -> by congruence.
  set (A' := set_stats st' _). set (ag' := AG (S1 ++ S2) (ag_fl ag) (ag_perm ag) (ag_chunks ag)).
  assert (filter is_used (ag_blks ag) ≡ₚ b :: filter is_used (ag_blks ag')) as Hused.
  { rewrite Hru. unfold ag_blks, ag'. cbn. by rewrite bind_app. }
  assert (arena_ok hp m1 o' A' ag') as Hok'.
  { eapply (arena_remove hp m1 o (set_stats st A) ag S1 sb S2 m1 o' (freelist A) st' L (deferred_reclaimed_sb A) (ag_fl ag)); try done.
    - apply (ao_lists _ _ _ _ _ Hok1).
    - rewrite (ao_free _ _ _ _ _ Hok), (ag_blks_split ag S1 sb S2 [] [b] [] Es Eb). cbn [app]. rewrite bind_app, filter_cons_False; [done|].
      unfold is_free, is_used in *. congruence.
    - intros r Hr Hd Hmr. apply Hmp; [by apply (ao_mapped _ _ _ _ _ Hok)|done|]. unfold rdisj, sb_reg in Hd. cbn in Hd. lia.
    - destruct (ao_deferred _ _ _ _ _ Hok) as [|(x & Hx & Ed & Hxu)]; [by left|right]. exists x. split; [|done].
      rewrite Es in Hx. rewrite elem_of_app, elem_of_cons in Hx. rewrite elem_of_app. destruct Hx as [|[->|]]; [by left|congruence|by right]. }
  apply (HQ m1 o' A' ag'). split; try done.
  - split; [done|]. split.
    + intros x Hx. apply Hty. rewrite Es. cbn in Hx. rewrite elem_of_app in *. rewrite elem_of_cons. tauto.
    + destruct Hac as [C1 C2], Hst' as [H1 H2]. split; cbn [stats A' set_stats].
      * rewrite R2, R3, Hst. cbn [stats]. rewrite H2, C1. unfold loaned. change (geo_of hp A') with g. fold g. rewrite (sumZ_perm _ _ _ Hused).
        unfold sumZ at 1. cbn [foldr]. fold (sumZ (fun b => bsz b - g_ovh g) (filter is_used (ag_blks ag'))). unfold u64. rewrite Zminus_mod_idemp_l. f_equal. lia.
      * rewrite R1, H1, C2, (mapped_bytes_remove ag S1 sb S2 (ag_fl ag) (ag_chunks ag) Es). unfold u64. rewrite Zminus_mod_idemp_l. by rewrite Z.add_simpl_r.
  - intros r. unfold ag_regions. cbn. rewrite Es, !fmap_app, fmap_cons, !elem_of_app, elem_of_cons. tauto.
  - split_and!; try done. cbn. rewrite Es, !length_app. cbn. lia.
  - intros x Hx. apply Hpay. intros Hi. apply (Hx b Hb); [by right|]. unfold payload_byte, in_blk in *.
    pose proof (geo_sizes g (ao_geo _ _ _ _ _ Hok)). lia.
  - intros cl q k Hk Hmq Hr. apply Hmp; [done|done|]. specialize (Hr _ Hsr). unfold rdisj, sb_reg in Hr. cbn in Hr. lia.
Qed.
End Release.
End Merge.
(** ** [arena_free] *)

Record free_done (a : nat) b s G s' G' : Prop := {
  fd_ok : heap_ok cfg s' G';
  fd_up a' : up s a' = true -> up s' a' = true;
  fd_geo : geo_kept s s';
  fd_inited : nonclient_inited s = true -> nonclient_inited s' = true;
  fd_keeps : keeps (fun c => c = b) G s G' s';
  fd_others : others_kept a G G';
  fd_arena : exists ag ag', G !! a = Some ag /\ G' !! a = Some ag' /\ filter is_used (ag_blks ag) ≡ₚ b :: filter is_used (ag_blks ag') /\
    ag_perm ag' = ag_perm ag /\ ag_chunks ag' = ag_chunks ag;
  fd_space k : core_space (os s) k -> core_space (os s') k;
  fd_small n : 0 <= n -> small n s G -> small n s' G'
}.

(** The arena of the block after the release *)
Lemma free_heap a s G A ag b m' o' A' ag' : heap_ok cfg s G -> up s a = true -> vg_arena s !! a = Some A -> G !! a = Some ag ->
  b ∈ ag_blks ag -> freed s A (hmem s) (os s) ag b m' o' A' ag' -> free_done a b s G (at_arena a A' m' o' s) (<[a := ag']> G).
Proof using Type.
  intros Hok Hup HA HG Hb [F1 F2 F3 F4 (F5 & F6 & F7 & F7' & F8 & F9) F10 F11 F12].
  assert (a < length (vg_arena s))%nat as Ha by (by eapply lookup_lt_Some). assert (a < length G)%nat as HaG by (by eapply lookup_lt_Some).
  destruct (ho_up _ _ _ Hok a A ag HA HG Hup) as [(Hao & _) _].
  split; try done.
  - eapply heap_step; [done..|exact F1|done|done|by intros r Hr; left; apply F4| |].
    + intros q x Hq Hx. apply F10. intros c Hc _ Hi. destruct (blk_region _ _ _ _ _ Hao c Hc) as (r & Hr & Hin).
      exact (other_apart cfg s G a ag r q x Hok HG Hr (Hin x Hi) Hq Hx).
    + intros cl q (a' & h & Hne & Hh & Hq) Hq2 Hm. apply F11; [done|done|]. intros r Hr.
      assert (rdisj r q) as Hd by (by eapply (ho_apart _ _ _ Hok a a' ag h)). by destruct q.
  - apply (geo_kept_arena a s A); [done|]. unfold geo_of. congruence.
  - apply (keeps_intro cfg _ _ _ _ _ (fun _ => False)); [done| |done]. intros x Hx _. apply F10. intros c Hc Hcf. by apply (Hx a ag c).
  - intros a' h Hne Hh. exists h. by rewrite list_lookup_insert_ne.
  - exists ag, ag'. by rewrite list_lookup_insert_eq.
  - intros n Hn Hs a' B h HB Hh. cbn [vg_arena at_arena] in HB. destruct (decide (a' = a)) as [->|Hne].
    + rewrite list_lookup_insert_eq in HB by done. rewrite list_lookup_insert_eq in Hh by done. injection HB as <-. injection Hh as <-.
      destruct (Hs a A ag HA HG) as [H1 H2]. rewrite F8. lia.
    + rewrite list_lookup_insert_ne in HB by done. rewrite list_lookup_insert_ne in Hh by done. by apply (Hs a').
Qed.

Lemma free_init a b s G s1 s' G' : heap_ok cfg s G -> init_step s s1 -> free_done a b s1 G s' G' -> free_done a b s G s' G'.
Proof using Type.
  intros Hok Hi [D1 D2 Dg D3 D4 D5 D6 D7 D8]. destruct (is_mem _ _ Hi) as [Em Eo]. split; try done.
  - intros a' Hup. apply D2. by apply (is_up _ _ Hi a').
  - by apply (geo_kept_init cfg s G s1).
  - intros Hn. apply D3. by apply (is_inited _ _ Hi).
  - by apply (keeps_mem _ s G s1).
  - by rewrite <- Eo.
  - intros n Hn Hs. apply D8; [done|]. by apply (small_init cfg n s G).
Qed.

Lemma wp_arena_free a ptr s G A ag b Q : heap_ok cfg s G -> vg_arena s !! a = Some A -> G !! a = Some ag -> b ∈ ag_blks ag -> is_used b ->
  ptr = baddr b + g_lo (geo_of (hp_overhead_szB s) A) -> (forall s' G', free_done a b s G s' G' -> Q tt s') -> wp (arena_free cfg a ptr) s Q.
Proof using Hcfg.
  intros Hok0 HA HG Hb Hu -> HQ. destruct (arena_of cfg s G a ag Hok0 HG (blk_regions _ _ Hb)) as (A0 & HA0 & Hup0 & _).
  assert (A0 = A) as -> by congruence. pose proof (up_inited cfg s G a Hok0 Hup0) as Hn0.
  unfold arena_free. apply wp_bind, (wp_ensure_mm_init cfg Hcfg a s G); [done|done|]. intros s1 Hok Hup Hi.
  destruct (is_up _ _ Hi a Hup0) as [_ HA1]. rewrite HA in HA1. destruct (is_inited _ _ Hi Hn0) as [_ <-].
  destruct (ho_up _ _ _ Hok a A ag HA1 HG Hup) as [Hinv Hcl]. pose proof Hinv as (Hao & Hty & Hac). set (g := geo_of (hp_overhead_szB s1) A) in *.
  pose proof (ao_geo _ _ _ _ _ Hao) as Hg. fold g in Hg. pose proof (geo_sizes g Hg) as Hgs. pose proof (hp_of_up cfg s1 G a Hok Hup) as Hhp.
  assert (a < length (vg_arena s1))%nat as Ha by (by eapply lookup_lt_Some).
  pose proof (blks_wf _ _ _ _ _ Hao b Hb) as Hw. fold g in Hw. pose proof (blk_tagged _ _ _ _ _ Hao b Hb) as Ht. fold g in Ht.
  apply ag_blks_elem in Hb as (sb & Hs & Hbs). destruct (list_elem_of_split _ _ Hs) as (S1 & S2 & Es). destruct (list_elem_of_split _ _ Hbs) as (l1 & l2 & Eb).
  assert (b ∈ ag_blks ag) as Hb by (apply ag_blks_elem; by exists sb). destruct (ao_sbs _ _ _ _ _ Hao sb Hs) as [_ [E1 E2]].
  destruct (blk_place _ _ _ _ _ Hao sb b Hs Hbs) as [P1 P2]. pose proof Hw as (W1 & W2 & W3 & W4 & W5).
  rewrite (proj2 (Z.eqb_neq _ _)) by lia. rewrite (at_arena_id a A s1 HA1) at 1.
  apply wp_bind. eapply (wp_get_payload_block a s1 g); [done..|]. rewrite Z.add_simpl_r.
  assert (forall Q, Q tt (at_arena a A (hmem s1) (os s1) s1) -> wp (if (a =? VG_AR_CLIENT)%nat then ret tt else
    u <- is_inuse_block (baddr b) ;; if u : bool then sane <- blockSane a (baddr b) ;; m_assert sane else fail) (at_arena a A (hmem s1) (os s1) s1) Q) as Hcheck.
  { intros Q' HQ'. destruct (a =? VG_AR_CLIENT)%nat; [by apply wp_ret|]. apply wp_bind. eapply (wp_is_inuse a s1 g); [done..|].
    rewrite Hu. apply wp_bind, wp_blockSane; [done..|by apply (ao_used _ _ _ _ _ Hao)|]. by apply wp_m_assert. }
  apply wp_bind, Hcheck, wp_bind. eapply (wp_get_bszB a s1 g); [done..|]. apply wp_bind. eapply (wp_bszB_to_pszB a s1 g); [done..|].
  apply wp_bind. eapply wp_findSb; [done|exact Hao|exact Hs|unfold bend in *; lia|]. apply wp_bind, wp_on_stats; [done|].
  match goal with |- context [set_stats ?x A] => set (st := x) end.
  assert (forall Q, (forall m1, bytes_ok m1 -> (forall x, ~ payload_byte s1 A b x -> m1 x = hmem s1 x) -> Q tt (at_arena a (set_stats st A) m1 (os s1) s1)) ->
    wp (if (a =? VG_AR_CLIENT)%nat then ret tt else modify (fun s => set_hmem (memset (hmem s) (baddr b + g_lo g) 221 (bsz b - g_ovh g)) s))
      (at_arena a (set_stats st A) (hmem s1) (os s1) s1) Q) as Hfill.
  { intros Q' HQ'. destruct (a =? VG_AR_CLIENT)%nat; [apply wp_ret, HQ'; [apply Hok|done]|]. apply wp_modify. unfold set_hmem. cbn [at_arena hmem os vg_arena client_inited nonclient_inited hp_overhead_szB client_rz_szB].
    pose proof (memset_fill (hmem s1) (baddr b + g_lo g) 221 (bsz b - g_ovh g) ltac:(lia)) as Hms. apply (HQ' (memset (hmem s1) (baddr b + g_lo g) 221 (bsz b - g_ovh g))).
    - intros x. rewrite Hms. unfold fill. destruct (_ && _); [done|]. apply Hok.
    - intros x Hx. rewrite Hms. unfold fill. destruct (_ && _) eqn:E; [|done]. destruct Hx. unfold payload_byte. change (geo_of (hp_overhead_szB s1) A) with g.
      apply andb_prop in E as [E3 E4]. apply Z.leb_le in E3. apply Z.ltb_lt in E4. unfold bend, g_ovh in *. lia. }
  apply wp_bind, Hfill. intros m1 Hm1 Hpay. apply wp_bind, wp_ld.
  assert (load_le 8 m1 (saddr sb + 8) = if sunsplit sb then saddr sb else 0) as ->.
  { rewrite <- E2. apply load_le_ext. intros x Hx. apply Hpay. unfold payload_byte, spay in *. fold g. lia. }
  assert (forall m' o' A' ag', freed s1 A (hmem s1) (os s1) ag b m' o' A' ag' -> Q tt (at_arena a A' m' o' s1)) as Hend.
  { intros m' o' A' ag' Hfr. eapply HQ. eapply free_init; [exact Hok0|exact Hi|]. by eapply free_heap. }
  destruct (sunsplit sb) eqn:Eun.
  - destruct (ao_sbs _ _ _ _ _ Hao sb Hs) as [Hws _]. rewrite (proj2 (Z.eqb_neq _ _)) by (pose proof (sw_pos _ _ Hws); lia).
    eapply (wp_release_whole a s1 Ha Hhp A (hmem s1) (os s1) ag S1 sb S2 l1 b l2); try done.
  - rewrite Z.eqb_refl. eapply (wp_release a s1 Ha Hhp A (hmem s1) (os s1) ag S1 sb S2 l1 b l2); try done.
Qed.
End Free.
