(* ===== verification/MallocClient.v ===== *)
(** What the users of the heap see: separate blocks of bytes; and the services
    on top of allocation and release. *)
From stdpp Require Import base list sorting gmap sets fin_maps.
From Stdlib Require Import ZArith Lia.
From S2P Require Import Prelude Mem LibcMem LibcMemProofs Malloc MallocApi MallocBlocks MallocLists MallocInv MallocSb MallocInit MallocAlloc MallocRequest MallocDone MallocFree XArray XArrayProofs.
Open Scope prog_scope.
Open Scope Z_scope.

Section Services.
Context {OS : Type} `{AddressSpaceLaws OS} (cfg : heap_config) (Hcfg : cfg_ok cfg).
Abbreviation MST := (mst (OS := OS)).
Implicit Types (s : MST) (m : gmem) (o : OS) (A : Arena) (ag : aghost) (G : list aghost) (b c : blk) (sb : sblk).

(** ** The payload of a block *)

(** What is in the payload is the user's. *)
Lemma heap_payload s G a A ag b m' : heap_ok cfg s G -> vg_arena s !! a = Some A -> G !! a = Some ag -> b ∈ ag_blks ag -> is_used b ->
  bytes_ok m' -> (forall x, ~ payload_byte s A b x -> m' x = hmem s x) -> heap_ok cfg (set_hmem m' s) G.
Proof using Type.
  intros Hok HA HG Hb Hu Hm' Hx. destruct (arena_of cfg s G a ag Hok HG (blk_regions _ _ Hb)) as (A0 & HA0 & Hup & _).
  assert (A0 = A) as -> by congruence. destruct (ho_up _ _ _ Hok a A ag HA HG Hup) as [Hinv Hcl]. pose proof Hinv as (Hao & Hty & Hac).
  pose proof Hb as (sb & Hs & Hbs)%ag_blks_elem. destruct (list_elem_of_split _ _ Hs) as (S1 & S2 & Es). destruct (list_elem_of_split _ _ Hbs) as (l1 & l2 & Eb).
  assert (a < length (vg_arena s))%nat as Ha by (by eapply lookup_lt_Some).
  assert (set_stats (stats A) A = A) as EA by (by destruct A).
  assert (arena_inv (hp_overhead_szB s) m' (os s) A ag) as Hinv'.
  { split; [|done]. rewrite <- EA. by eapply (release_payload s A (hmem s) (os s) ag S1 sb S2 l1 b l2). }
  assert (set_hmem m' s = at_arena a A m' (os s) s) as -> by (unfold set_hmem, at_arena; by rewrite list_insert_id).
  rewrite <- (list_insert_id G a ag HG). eapply heap_step; try done; [by intros r Hr; left|].
  intros q x Hq Hi. apply Hx. intros Hpx. destruct (blk_region _ _ _ _ _ Hao b Hb) as (r & Hr & Hin).
  apply (other_apart cfg s G a ag r q x Hok HG Hr); [|done|done]. apply Hin. unfold payload_byte, in_blk in *.
  pose proof (geo_sizes _ (ao_geo _ _ _ _ _ Hao)). lia.
Qed.
End Services.

(** * What the users of the heap see: separate blocks of bytes. *)

Section Held.
Context {OS : Type} `{AddressSpaceLaws OS} (cfg : heap_config) (Hcfg : cfg_ok cfg).
Abbreviation MST := (mst (OS := OS)).
Implicit Types (s : MST) (m : gmem) (o : OS) (A : Arena) (ag : aghost) (G : list aghost) (b c : blk) (sb : sblk) (d : list Z).

(** ** Blocks in use *)

Definition used_blk G (a : nat) b : Prop := exists ag, G !! a = Some ag /\ b ∈ ag_blks ag /\ is_used b.

(** A permanent block: an address and a length *)
Definition perm_blk G (a : nat) (w : Z * Z) : Prop := exists ag, G !! a = Some ag /\ w ∈ ag_chunks ag.

Lemma perm_bounds s G a w : heap_ok cfg s G -> perm_blk G a w -> exists ag r, G !! a = Some ag /\ r ∈ ag_perm ag /\ r ∈ ag_regions ag /\
  r.1 <= w.1 /\ 0 <= w.2 /\ w.1 + w.2 <= r.1 + r.2.
Proof using Type.
  intros Hok (ag & HG & Hw). destruct (ho_len _ _ _ Hok) as [L1 L2]. destruct (lookup_len (vg_arena s) G a ag ltac:(congruence) HG) as [A HA].
  destruct (up s a) eqn:Hup; [|destruct (ho_down _ _ _ Hok a A ag HA HG Hup) as [_ ->]; by apply not_elem_of_nil in Hw].
  destruct (ho_up _ _ _ Hok a A ag HA HG Hup) as [(Hao & _) _]. destruct (pe_chunk _ _ _ (ao_chunks _ _ _ _ _ Hao) w Hw) as (r & Hr & H1 & H2 & H3).
  exists ag, r. split_and!; try done. apply elem_of_app. by right.
Qed.

Lemma perm_region s G a w : heap_ok cfg s G -> perm_blk G a w -> exists ag r, G !! a = Some ag /\ r ∈ ag_perm ag /\ r ∈ ag_regions ag /\
  forall x, in_reg w x -> in_reg r x.
Proof using Type.
  intros Hok Hw. destruct (perm_bounds s G a w Hok Hw) as (ag & r & HG & Hr & Hr' & Hb). exists ag, r. split_and!; try done.
  unfold in_reg. intros x Hx. lia.
Qed.

(** Its bytes are in no other block. *)
Lemma perm_blk_byte s G a a' w b ag x : heap_ok cfg s G -> perm_blk G a w -> in_reg w x -> G !! a' = Some ag -> b ∈ ag_blks ag -> ~ in_blk b x.
Proof using Type.
  intros Hok Hc Hx HG Hb. destruct (perm_region s G a w Hok Hc) as (h & r & Hh & Hr & _ & Hin). by apply (perm_byte cfg s G a a' h ag r b x); [| | | | |apply Hin].
Qed.

Lemma keeps_chunk skip s G s' G' a w x : heap_ok cfg s G -> keeps skip G s G' s' -> perm_blk G a w -> in_reg w x -> hmem s' x = hmem s x.
Proof using Type.
  intros Hok Hk Hc Hx. destruct (perm_region s G a w Hok Hc) as (ag & r & HG & Hr & _ & Hin). eapply (kp_perm _ _ _ _ _ Hk a ag r); [done|done|by apply Hin].
Qed.

Lemma others_chunk a G G' ag ag' a' w : others_kept a G G' -> G !! a = Some ag -> G' !! a = Some ag' -> ag_chunks ag' = ag_chunks ag ->
  perm_blk G a' w -> perm_blk G' a' w.
Proof using Type.
  intros Ho HG HG' E (h & Hh & Hc). destruct (decide (a' = a)) as [->|Hne]; [exists ag'; split; [done|]; rewrite E; congruence|].
  destruct (Ho a' h Hne Hh) as (h' & Hh' & _ & _ & E'). exists h'. by rewrite E'.
Qed.

Lemma others_chunk_at a G ag ag' a' w : G !! a = Some ag -> ag_chunks ag' = ag_chunks ag -> perm_blk G a' w -> perm_blk (<[a := ag']> G) a' w.
Proof using Type.
  intros HG E. apply (others_chunk a G _ ag ag'); [|done|apply list_lookup_insert_eq; by eapply lookup_lt_Some|done].
  intros a2 h Hne Hh. exists h. by rewrite list_lookup_insert_ne.
Qed.

(** The payload of the block [b] of the arena [a] is at [p] and has the bytes
    [d]. *)
Definition held_by s G (p : Z) (a : nat) b d : Prop := used_blk G a b /\ exists A, vg_arena s !! a = Some A /\
  p = baddr b + g_lo (geo_of (hp_overhead_szB s) A) /\
  d = bytes_at (hmem s) p (Z.to_nat (bsz b - g_ovh (geo_of (hp_overhead_szB s) A))).

Definition held s G (p : Z) (a : nat) d : Prop := exists b, held_by s G p a b d.

Lemma held_facts s G p a b d : heap_ok cfg s G -> held_by s G p a b d -> exists A ag,
  vg_arena s !! a = Some A /\ G !! a = Some ag /\ up s a = true /\ arena_ok (hp_overhead_szB s) (hmem s) (os s) A ag /\ b ∈ ag_blks ag /\ is_used b /\
  let g := geo_of (hp_overhead_szB s) A in geo_ok g /\ blk_wf g b /\
  p = baddr b + g_lo g /\ Z.of_nat (length d) = bsz b - g_ovh g /\ d = bytes_at (hmem s) p (length d) /\ p mod 16 = 0.
Proof using Type.
  intros Hok ((ag & HG & Hb & Hu) & A & HA & -> & ->). destruct (arena_of cfg s G a ag Hok HG (blk_regions _ _ Hb)) as (A0 & HA0 & Hup & Hao).
  assert (A0 = A) as -> by congruence. exists A, ag. pose proof (ao_geo _ _ _ _ _ Hao) as Hg. pose proof (blks_wf _ _ _ _ _ Hao b Hb) as Hw.
  pose proof Hw as (W1 & W2 & W3 & W4 & W5). destruct (geo_sizes _ Hg) as (_ & _ & _ & Hlo & _).
  cbn zeta. rewrite bytes_at_length. split_and!; try done; [lia|by rewrite Z.add_mod, W2, Hlo].
Qed.

(** The payload is inside the block. *)
Lemma held_in s G p a b d x : heap_ok cfg s G -> held_by s G p a b d -> p - 16 <= x < p + Z.of_nat (length d) + 16 -> in_blk b x.
Proof using Type.
  intros Hok Hh Hx. destruct (held_facts _ _ _ _ _ _ Hok Hh) as (A & ag & _ & _ & _ & _ & _ & _ & Hg & Hw & -> & El & _).
  destruct (geo_sizes _ Hg) as (? & ? & ? & _). rewrite El in Hx. unfold g_ovh, in_blk, bend in *. lia.
Qed.

(** Different addresses are those of different blocks, which are apart. *)
Lemma held_apart s G p q a a' b b' d d' : heap_ok cfg s G -> held_by s G p a b d -> held_by s G q a' b' d' ->
  (p = q /\ a = a' /\ b = b' /\ d = d') \/ (p <> q /\ (a <> a' \/ b <> b') /\ (p + Z.of_nat (length d) < q \/ q + Z.of_nat (length d') < p)).
Proof using Type.
  intros Hok Hh Hh'. pose proof Hh as ((ag & HG & Hb & Hu) & A & HA & Ep & Ed). pose proof Hh' as ((ag' & HG' & Hb' & Hu') & A' & HA' & Eq & Ed').
  destruct (decide (a = a' /\ b = b')) as [[<- <-]|Hne]; [left; assert (A' = A) as -> by congruence; split_and!; congruence|right].
  assert (forall x, in_blk b x -> in_blk b' x -> False) as Hd.
  { intros x Hx Hx'. apply Hne. by apply (blk_byte cfg s G a a' ag ag' b b' x). }
  assert (p + Z.of_nat (length d) < q \/ q + Z.of_nat (length d') < p) as Hs.
  { destruct (decide (p + Z.of_nat (length d) < q \/ q + Z.of_nat (length d') < p)); [done|]. exfalso.
    apply (Hd (Z.max p q)); [eapply (held_in s G p a); [done|exact Hh|lia]|eapply (held_in s G q a'); [done|exact Hh'|lia]]. }
  split; [lia|]. split; [|done]. destruct (decide (a = a')) as [->|]; [right; by intros ->; apply Hne|by left].
Qed.

(** What a change leaves alone of the blocks but for [E] *)
Record change (E : nat -> blk -> Prop) s G s' G' : Prop := {
  ch_up a : up s a = true -> up s' a = true;
  ch_geo : geo_kept s s';
  ch_used a b : ~ E a b -> used_blk G a b <-> used_blk G' a b;
  ch_mem a b x : ~ E a b -> used_blk G a b -> in_blk b x -> hmem s' x = hmem s x;
  ch_perm a w : perm_blk G a w -> perm_blk G' a w;
  ch_pmem a w x : perm_blk G a w -> in_reg w x -> hmem s' x = hmem s x
}.

Lemma held_change E s G s' G' p a b d : heap_ok cfg s G -> heap_ok cfg s' G' -> change E s G s' G' -> ~ E a b ->
  held_by s G p a b d <-> held_by s' G' p a b d.
Proof using Type.
  intros Hok Hok' [_ C1 C2 C3 _ _] HE.
  assert (used_blk G a b -> exists A A', vg_arena s !! a = Some A /\ vg_arena s' !! a = Some A' /\
    geo_of (hp_overhead_szB s') A' = geo_of (hp_overhead_szB s) A /\ forall x, in_blk b x -> hmem s' x = hmem s x) as Hex.
  { intros Hu. pose proof Hu as (ag & HG & Hb & _). destruct (arena_of cfg s G a ag Hok HG (blk_regions _ _ Hb)) as (A & HA & Hup & _).
    destruct (C1 a A Hup HA) as (A' & HA' & Eg). exists A, A'. split_and!; try done. intros x Hx. by apply (C3 a b). }
  split; intros (Hu & B & HB & Ep & Ed).
  - destruct (Hex Hu) as (A & A' & HA & HA' & Eg & Hm). assert (B = A) as -> by congruence. split; [by apply C2|]. exists A'.
    rewrite Eg. split_and!; [done|done|]. rewrite Ed. apply bytes_at_ext. intros x Hx. symmetry. apply Hm.
    eapply (held_in s G p a b d); [done|split; [done|by exists A]|]. rewrite Ed, bytes_at_length. lia.
  - assert (used_blk G a b) as Hu' by (by apply C2). destruct (Hex Hu') as (A & A' & HA & HA' & Eg & Hm). assert (B = A') as -> by congruence.
    split; [done|]. exists A. rewrite <- Eg. split_and!; [done|done|]. rewrite Ed. apply bytes_at_ext. intros x Hx. apply Hm.
    eapply (held_in s' G' p a b d); [done|split; [by apply C2|by exists A']|]. rewrite Ed, bytes_at_length. lia.
Qed.
(** *** The changes of allocation and release *)

Lemma used_filter ag b : b ∈ filter is_used (ag_blks ag) <-> b ∈ ag_blks ag /\ is_used b.
Proof using Type. rewrite list_elem_of_filter. tauto. Qed.

Lemma used_blk_arena G a ag b : G !! a = Some ag -> used_blk G a b <-> b ∈ filter is_used (ag_blks ag).
Proof using Type. intros HG. rewrite used_filter. split; [intros (ag' & HG' & ?); by simplify_eq|intros ?; by exists ag]. Qed.

(** A block more, or a block less, in the arena [a] *)
Lemma used_more a G G' ag ag' b : others_kept a G G' -> others_kept a G' G -> G !! a = Some ag -> G' !! a = Some ag' ->
  filter is_used (ag_blks ag') ≡ₚ b :: filter is_used (ag_blks ag) ->
  forall a' b', ~ (a' = a /\ b' = b) -> used_blk G a' b' <-> used_blk G' a' b'.
Proof using Type.
  intros Ho Ho' HG HG' Hp a' b' HE. destruct (decide (a' = a)) as [->|Hne].
  - rewrite (used_blk_arena G a ag), (used_blk_arena G' a ag') by done. rewrite Hp, elem_of_cons. naive_solver.
  - split; intros (h & Hh & Hb); [destruct (Ho a' h Hne Hh) as (h' & Hh' & Eu & _)|destruct (Ho' a' h Hne Hh) as (h' & Hh' & Eu & _)];
      exists h'; (split; [done|]); apply used_filter; rewrite Eu; by apply used_filter.
Qed.

Lemma others_back a G G' : length G = length G' -> others_kept a G G' -> others_kept a G' G.
Proof using Type.
  intros El Ho a' h' Hne Hh'. destruct (lookup_len G G' a' h' ltac:(congruence) Hh') as [h Hh]. destruct (Ho a' h Hne Hh) as (h2 & Hh2 & ? & ? & ?).
  assert (h2 = h') as -> by congruence. by exists h.
Qed.

Lemma used_nodup s G a ag : heap_ok cfg s G -> G !! a = Some ag -> NoDup (filter is_used (ag_blks ag)).
Proof using Type.
  intros Hok HG. apply NoDup_filter. destruct (ag_regions ag) as [|r l] eqn:Er.
  - destruct (ag_blks ag) as [|b k] eqn:Eb; [constructor|]. destruct (blk_regions ag b); [rewrite Eb; by left|done].
  - destruct (arena_of cfg s G a ag Hok HG) as (A & _ & _ & Ho); [by rewrite Er|]. by apply (blks_apart _ _ _ _ _ Ho).
Qed.

Lemma malloc_change a req k s G p b s' G' : heap_ok cfg s G -> malloc_done cfg a req k s G p b s' G' ->
  change (fun a' b' => a' = a /\ b' = b) s G s' G' /\ ~ used_blk G a b /\
  exists d, held_by s' G' p a b d /\ req <= Z.of_nat (length d).
Proof using Type.
  intros Hok [D1 D2 Dg D3 K0 D5 D6 D7 _ (A' & ag & ag' & S1 & sb & l1 & l2 & S2 & E1 & E2 & E3 & E4 & E5 & E6 & E7 & E8 & E9 & E10 & E11 & E12 & E13)].
  pose proof K0 as [K1 K2 K3]. destruct (ho_len _ _ _ Hok) as [_ Ln]. destruct (ho_len _ _ _ D1) as [_ Ln'].
  assert (used_blk G' a b) as Hub by (rewrite (used_blk_arena G' a ag'), E7 by done; by left).
  split; [split; [auto|done| | | |]|split].
  - apply (used_more a G G' ag ag' b); [done|apply others_back; [congruence|done]|done..].
  - intros a' b' x HE (h & Hh & Hb & Hu) Hx. apply (K1 a' h b'); try done. by intros [].
  - intros a' w. by apply (others_chunk a G G' ag ag').
  - intros a' w x Hw Hx. by apply (keeps_chunk (fun _ => False) s G s' G' a' w).
  - rewrite (used_blk_arena G a ag) by done. pose proof (used_nodup s' G' a ag' D1 E3) as Hn. rewrite E7 in Hn. by apply NoDup_cons in Hn as [? _].
  - eexists. split; [split; [done|exists A'; by split_and!]|]. rewrite bytes_at_length.
    destruct Hub as (h & Hh & Hb & _). destruct (arena_of cfg s' G' a h D1 Hh (blk_regions _ _ Hb)) as (B & HB & _ & Hao).
    assert (B = A') as -> by congruence. pose proof (blks_wf _ _ _ _ _ Hao b Hb) as (_ & _ & _ & ? & _). lia.
Qed.

Lemma none_change a s G s' G' : heap_ok cfg s G -> malloc_none cfg a s G s' G' -> change (fun _ _ => False) s G s' G'.
Proof using Type.
  intros Hok [D1 D2 Dg D3 K0 D5 _ D6 D7]. pose proof K0 as [K1 K2 K3]. destruct (ho_len _ _ _ Hok) as [_ Ln]. destruct (ho_len _ _ _ D1) as [_ Ln'].
  split; [auto|done| | | |].
  - intros a' b' _. split; intros (h & Hh & Hb).
    + destruct (D5 a' h Hh) as (h' & Hh' & Eu & _). exists h'. split; [done|]. apply used_filter. rewrite Eu. by apply used_filter.
    + destruct (lookup_len G G' a' h ltac:(congruence) Hh) as [h0 Hh0]. destruct (D5 a' h0 Hh0) as (h' & Hh' & Eu & _).
      assert (h' = h) as -> by congruence. exists h0. split; [done|]. apply used_filter. rewrite <- Eu. by apply used_filter.
  - intros a' b' x _ (h & Hh & Hb & Hu) Hx. apply (K1 a' h b'); try done. by intros [].
  - intros a' w (h & Hh & Hw). destruct (D5 a' h Hh) as (h' & Hh' & _ & _ & E). exists h'. by rewrite E.
  - intros a' w x Hw Hx. by apply (keeps_chunk (fun _ => False) s G s' G' a' w).
Qed.

Lemma free_change a b s G s' G' : heap_ok cfg s G -> free_done cfg a b s G s' G' ->
  change (fun a' b' => a' = a /\ b' = b) s G s' G' /\ ~ used_blk G' a b.
Proof using Type.
  intros Hok [D1 D2 Dg D3 K0 D5 (ag & ag' & E1 & E2 & E3 & E4 & E5) D7 D8]. pose proof K0 as [K1 K2 K3]. destruct (ho_len _ _ _ Hok) as [_ Ln]. destruct (ho_len _ _ _ D1) as [_ Ln'].
  split; [split; [auto|done| | | |]|].
  - intros a' b' HE. symmetry. eapply (used_more a G' G ag' ag b); [apply others_back; [congruence|done]|done..].
  - intros a' b' x HE (h & Hh & Hb & Hu) Hx. apply (K1 a' h b'); try done. intros ->. apply HE. split; [|done].
    (* another arena has no such block *)
    assert (used_blk G a b) as (h2 & Hh2 & Hb2 & _) by (rewrite (used_blk_arena G a ag), E3 by done; by left).
    by apply (blk_byte cfg s G a' a h h2 b b x).
  - intros a' w. by apply (others_chunk a G G' ag ag').
  - intros a' w x Hw Hx. by apply (keeps_chunk (fun c => c = b) s G s' G' a' w).
  - rewrite (used_blk_arena G' a ag') by done. pose proof (used_nodup s G a ag Hok E1) as Hn. rewrite E3 in Hn. by apply NoDup_cons in Hn as [? _].
Qed.

Lemma payload_change s G p a b d m' : heap_ok cfg s G -> held_by s G p a b d -> bytes_ok m' ->
  (forall x, ~ (p <= x < p + Z.of_nat (length d)) -> m' x = hmem s x) ->
  heap_ok cfg (set_hmem m' s) G /\ change (fun a' b' => a' = a /\ b' = b) s G (set_hmem m' s) G /\
  held_by (set_hmem m' s) G p a b (bytes_at m' p (length d)).
Proof using Type.
  intros Hok Hh Hm' Hx. destruct (held_facts _ _ _ _ _ _ Hok Hh) as (A & ag & HA & HG & Hup & Hao & Hb & Hu & Hg & Hw & Ep & El & Ed & _).
  split; [|split; [split; [done|..]|]].
  - eapply (heap_payload cfg s G a A ag b); try done. intros x Hnx. apply Hx. intros Hi. apply Hnx. unfold payload_byte.
    unfold g_ovh, bend in *. lia.
  - intros a' B _ HB. by exists B.
  - done.
  - intros a' b' x HE (h & Hh' & Hb' & Hu') Hi. cbn. apply Hx. intros Hpx. apply HE.
    destruct (blk_byte cfg s G a' a h ag b' b x) as [-> ->]; try done. eapply (held_in s G p a b d); [done|done|lia].
  - done.
  - intros a' w x Hpw Hi. cbn. apply Hx. intros Hpx. apply (perm_blk_byte s G a' a w b ag x Hok Hpw Hi HG Hb). eapply (held_in s G p a b d); [done|done|lia].
  - split; [apply Hh|]. exists A. cbn [hp_overhead_szB set_hmem hmem vg_arena]. split_and!; [done|done|]. f_equal. lia.
Qed.

(** ** Calls *)

Lemma change_trans E E' s G s1 G1 s2 G2 : change E s G s1 G1 -> change E' s1 G1 s2 G2 ->
  change (fun a b => E a b \/ E' a b) s G s2 G2.
Proof using Type.
  intros [U1 C1 D1 M1 P1 X1] [U2 C2 D2 M2 P2 X2]. split.
  - intros a Hup. by apply U2, U1.
  - intros a A Hup HA. destruct (C1 a A Hup HA) as (A1 & HA1 & E1). destruct (C2 a A1 (U1 a Hup) HA1) as (A2 & HA2 & E2).
    exists A2. split; [done|]. congruence.
  - intros a b HE. rewrite D1 by tauto. apply D2. tauto.
  - intros a b x HE Hu Hx. rewrite (M2 a b), (M1 a b); try done; try tauto. apply D1; tauto.
  - intros a w Hw. by apply P2, P1.
  - intros a w x Hw Hx. rewrite (X2 a w); [by apply (X1 a w)|by apply P1|done].
Qed.

Lemma change_mono (E E' : nat -> blk -> Prop) s G s' G' : (forall a b, E a b -> E' a b) -> change E s G s' G' -> change E' s G s' G'.
Proof using Type.
  intros HE [U C D M P X]. split; [done|done| | |done|done].
  - intros a b Hn. apply D. intros ?. by apply Hn, HE.
  - intros a b x Hn. apply M. intros ?. by apply Hn, HE.
Qed.

(** The heap between calls: it has at most [n] superblocks in an arena, and
    there are [k] bytes for the core. *)
Record heap_at (n k : Z) s G : Prop := {
  ha_ok : heap_ok cfg s G;
  ha_inited : nonclient_inited s = true;
  ha_small : small n s G;
  ha_space : core_space (os s) k
}.

Definition only (a : nat) b : nat -> blk -> Prop := fun a' b' => a' = a /\ b' = b.
Definition nothing : nat -> blk -> Prop := fun _ _ => False.

Lemma heap_at_less n k k' s G : k' <= k -> heap_at n k s G -> heap_at n k' s G.
Proof using Type. intros Hk [? ? ? ?]. split; try done. by eapply space_less. Qed.

Lemma heap_at_more n n' k s G : n <= n' -> heap_at n k s G -> heap_at n' k s G.
Proof using Type.
  intros Hn [? ? Hs ?]. split; try done. intros a A ag HA HG. destruct (Hs a A ag HA HG). unfold array_room in *. lia.
Qed.

Lemma held_malloc a cc req n k s G Q : heap_at n (malloc_cost n req + k) s G -> (a < VG_N_ARENAS)%nat -> cc <> 0 -> 0 <= req -> req + 2 ^ 20 < 2 ^ 64 ->
  0 <= k -> 0 <= n ->
  (forall p b d s' G', heap_at (n + 1) k s' G' -> change (only a b) s G s' G' -> ~ used_blk G a b -> held_by s' G' p a b d ->
     req <= Z.of_nat (length d) -> Q p s') ->
  (a = VG_AR_CLIENT -> forall s' G', heap_at n (malloc_cost n req + k) s' G' -> change nothing s G s' G' -> Q 0 s') ->
  wp (arena_malloc cfg a cc req) s Q.
Proof using Hcfg.
  intros [Hok Hi Hs Hsp] Ha Hcc Hreq Hlt Hk Hn HQ HQ0. eapply (wp_arena_malloc cfg Hcfg a cc req k n s G); try done.
  - intros p b s' G' Hd. destruct (malloc_change a req k s G p b s' G' Hok Hd) as (Hc & Hnu & d & Hh & Hl).
    apply (HQ p b d s' G'); try done. destruct Hd. split; try done; auto.
  - intros Hac s' G' Hd. apply (HQ0 Hac s' G'); [|by eapply none_change]. destruct Hd. split; try done; auto.
Qed.

Lemma held_free a p n k s G b d Q : heap_at n k s G -> held_by s G p a b d -> 0 <= n ->
  (forall s' G', heap_at n k s' G' -> change (only a b) s G s' G' -> ~ used_blk G' a b -> Q tt s') ->
  wp (arena_free cfg a p) s Q.
Proof using Hcfg.
  intros [Hok Hi Hs Hsp] Hh Hn HQ. destruct (held_facts _ _ _ _ _ _ Hok Hh) as (A & ag & HA & HG & Hup & Hao & Hb & Hu & Hg & Hw & Ep & El & Ed & _).
  eapply (wp_arena_free cfg Hcfg a p s G A ag b); try done. intros s' G' Hd. destruct (free_change a b s G s' G' Hok Hd) as [Hc Hnu].
  apply (HQ s' G'); try done. destruct Hd. split; try done; auto.
Qed.

Lemma held_fill p a b d m' n k s G : heap_at n k s G -> held_by s G p a b d -> bytes_ok m' ->
  (forall x, ~ (p <= x < p + Z.of_nat (length d)) -> m' x = hmem s x) ->
  heap_at n k (set_hmem m' s) G /\ change (only a b) s G (set_hmem m' s) G /\ held_by (set_hmem m' s) G p a b (bytes_at m' p (length d)).
Proof using Type.
  intros [Hok Hi Hs Hsp] Hh Hm' Hx. destruct (payload_change s G p a b d m' Hok Hh Hm' Hx) as (Hok' & Hc & Hh'). by split_and!.
Qed.

Lemma held_ensure a n k s G Q : heap_at n k s G -> 0 <= n -> (a < VG_N_ARENAS)%nat ->
  (forall s', heap_at n k s' G -> change nothing s G s' G -> up s' a = true -> Q tt s') -> wp (ensure_mm_init cfg a) s Q.
Proof using Hcfg.
  intros [Hok Hi Hs Hsp] Hn Ha HQ. eapply (wp_ensure_mm_init cfg Hcfg a s G); [done|done|]. intros s' Hok' Hup Hst. destruct (is_mem _ _ Hst) as [Em Eo].
  apply HQ; [| |done].
  - split; [done|by apply (is_inited _ _ Hst)|by apply (small_init cfg n s G)|by rewrite Eo].
  - split.
    + intros a' Hup'. by apply (is_up _ _ Hst a').
    + eapply geo_kept_init; [done|done|]. intros a' A' _ HA'. by exists A'.
    + done.
    + intros a' b x _ _ _. by rewrite Em.
    + done.
    + intros a' w x _ _. by rewrite Em.
Qed.
End Held.

(** * The services on top of allocation and release, to their user: cleared
    blocks, sizes, reallocation and copies of strings. *)

Section Calls.
Context {OS : Type} `{AddressSpaceLaws OS} (cfg : heap_config) (Hcfg : cfg_ok cfg).
Abbreviation MST := (mst (OS := OS)).
Implicit Types (s : MST) (m : gmem) (o : OS) (A : Arena) (ag : aghost) (G : list aghost) (b c : blk) (sb : sblk) (d : list Z).
Abbreviation heap_at := (heap_at cfg).

Lemma held_pos s G p a b d : heap_ok cfg s G -> held_by s G p a b d -> 16 < p.
Proof using Type.
  intros Hok Hh. destruct (held_facts cfg _ _ _ _ _ _ Hok Hh) as (A & ag & _ & _ & _ & _ & _ & _ & Hg & (W & _) & -> & _).
  destruct (geo_sizes _ Hg) as (? & _). lia.
Qed.

Lemma bytes_fill m p v k n : Z.of_nat n <= k -> bytes_at (fill m p v k) p n = replicate n v.
Proof using Type.
  intros Hk. assert (forall i q, p <= q -> q + Z.of_nat i <= p + k -> bytes_at (fill m p v k) q i = replicate i v) as Hi; [|apply Hi; lia].
  induction i as [|i IH]; intros q Hq Hqi; cbn [bytes_at replicate]; [done|]. f_equal; [|apply IH; lia].
  unfold fill. rewrite (proj2 (Z.leb_le _ _)), (proj2 (Z.ltb_lt _ _)) by lia. done.
Qed.

(** ** Cleared blocks *)

Lemma held_calloc a cc nmemb size n k s G Q : heap_at n (malloc_cost n (nmemb * size) + k) s G -> (a < VG_N_ARENAS)%nat -> cc <> 0 ->
  0 <= nmemb <= nmemb * size -> 0 <= size <= nmemb * size -> nmemb * size + 2 ^ 20 < 2 ^ 64 -> 0 <= k -> 0 <= n ->
  (forall p b d s' G', heap_at (n + 1) k s' G' -> change (only a b) s G s' G' -> ~ used_blk G a b -> held_by s' G' p a b d ->
     nmemb * size <= Z.of_nat (length d) -> take (Z.to_nat (nmemb * size)) d = replicate (Z.to_nat (nmemb * size)) 0 -> Q p s') ->
  (a = VG_AR_CLIENT -> forall s' G', heap_at n (malloc_cost n (nmemb * size) + k) s' G' -> change nothing s G s' G' -> Q 0 s') ->
  wp (arena_calloc cfg a cc nmemb size) s Q.
Proof using Hcfg.
  intros Hat Ha Hcc Hnm Hsz Hlt Hk Hn HQ HQ0. unfold arena_calloc. rewrite u64_small by lia. set (t := nmemb * size) in *.
  apply wp_bind, wp_m_assert; [rewrite !(proj2 (Z.leb_le _ _)) by lia; done|]. apply wp_bind.
  eapply (held_malloc cfg Hcfg a cc t n k s G); try done; try lia.
  intros p b d s1 G1 Hat1 Hc1 Hnu Hh1 Hl. pose proof (ha_ok _ _ _ _ _ Hat1) as Hok1. pose proof (held_pos _ _ _ _ _ _ Hok1 Hh1) as Hp.
    rewrite (proj2 (Z.eqb_neq _ _)) by lia. apply wp_bind, wp_modify, wp_ret.
    pose proof (memset_fill (hmem s1) p 0 t ltac:(lia)) as Hms. set (m' := memset (hmem s1) p 0 t) in *.
    destruct (held_fill cfg p a b d m' _ _ s1 G1 Hat1 Hh1) as (Hat2 & Hc2 & Hh2).
    { intros x. rewrite Hms. unfold fill. destruct (_ && _); [done|]. apply Hok1. }
    { intros x Hx. rewrite Hms. unfold fill. destruct (_ && _) eqn:E; [|done]. apply andb_prop in E as [E1 E2].
      apply Z.leb_le in E1. apply Z.ltb_lt in E2. lia. }
    apply (HQ p b (bytes_at m' p (length d)) _ G1 Hat2); [|done|exact Hh2|by rewrite bytes_at_length|].
    + eapply change_mono; [|by eapply change_trans]. unfold only. cbn. tauto.
    + rewrite take_bytes_at by lia. rewrite (bytes_at_ext _ _ p (Z.to_nat t) (fun x _ => Hms x)). apply bytes_fill. lia.
Qed.

(** ** Sizes *)

Lemma held_usable a p n k s G b d Q : heap_at n k s G -> held_by s G p a b d -> Q (Z.of_nat (length d)) s ->
  wp (arena_malloc_usable_size a p) s Q.
Proof using Type.
  intros Hat Hh HQ. pose proof (ha_ok _ _ _ _ _ Hat) as Hok. destruct (held_facts cfg _ _ _ _ _ _ Hok Hh) as (A & ag & HA & HG & Hup & Hao & Hb & Hu & Hg & Hw & Ep & El & _).
  assert (a < length (vg_arena s))%nat as Ha by (by eapply lookup_lt_Some). set (g := geo_of (hp_overhead_szB s) A) in *.
  unfold arena_malloc_usable_size. rewrite El in HQ. rewrite (at_arena_id a A s HA) in HQ |- *. 
  apply wp_bind. eapply (wp_get_payload_block a s g); [done..|]. eapply (wp_get_pszB a s g); [done..| |done| |done].
  - rewrite Ep. lia.
  - by apply (blk_tagged _ _ _ _ _ Hao).
Qed.

(** ** Reallocation *)

(** The checks of [arena_realloc]: the block is sane and in use. *)
Lemma held_checks {B} a p b d n k s G (K : Z -> Z -> M MST B) Q : heap_at n k s G -> held_by s G p a b d ->
  wp (K (baddr b) (Z.of_nat (length d))) s Q ->
  wp (b <- get_payload_block a p ;; sane <- blockSane a b ;; m_assert sane ;;; u <- is_inuse_block b ;; m_assert u ;;;
      old_pszB <- get_pszB a b ;; K b old_pszB) s Q.
Proof using Type.
  intros Hat Hh HK. pose proof (ha_ok _ _ _ _ _ Hat) as Hok. destruct (held_facts cfg _ _ _ _ _ _ Hok Hh) as (A & ag & HA & HG & Hup & Hao & Hb & Hu & Hg & Hw & Ep & El & _).
  assert (a < length (vg_arena s))%nat as Ha by (by eapply lookup_lt_Some). set (g := geo_of (hp_overhead_szB s) A) in *. rewrite El in HK.
  pose proof (blk_tagged _ _ _ _ _ Hao b Hb) as Ht. fold g in Ht.
  rewrite (at_arena_id a A s HA) in HK |- *. apply wp_bind. eapply (wp_get_payload_block a s g); [done..|].
  replace (p - g_lo g) with (baddr b) by lia. apply wp_bind, wp_blockSane; [done..|by apply (ao_used _ _ _ _ _ Hao)|].
  apply wp_bind, wp_m_assert; [done|]. apply wp_bind. eapply (wp_is_inuse a s g); [done..|]. rewrite Hu.
  apply wp_bind, wp_m_assert; [done|]. apply wp_bind. by eapply (wp_get_pszB a s g).
Qed.

Lemma held_realloc a cc p b d req n k s G Q : heap_at n (malloc_cost n req + k) s G -> held_by s G p a b d -> a <> VG_AR_CLIENT -> cc <> 0 ->
  0 < req -> req + 2 ^ 20 < 2 ^ 64 -> 0 <= k -> 0 <= n ->
  (req <= Z.of_nat (length d) -> forall s', heap_at n (malloc_cost n req + k) s' G -> change nothing s G s' G -> Q p s') ->
  (Z.of_nat (length d) < req -> forall p' b' d' s' G', heap_at (n + 1) k s' G' -> change (fun a0 b0 => only a b a0 b0 \/ only a b' a0 b0) s G s' G' ->
     ~ used_blk G a b' -> ~ used_blk G' a b -> held_by s' G' p' a b' d' -> req <= Z.of_nat (length d') -> take (length d) d' = d -> Q p' s') ->
  wp (arena_realloc cfg a cc p req) s Q.
Proof using Hcfg.
  intros Hat Hh Hcl Hcc Hreq Hlt Hk Hn HQ HQ2. pose proof (ha_ok _ _ _ _ _ Hat) as Hok. pose proof (held_pos _ _ _ _ _ _ Hok Hh) as Hp.
  assert (a < VG_N_ARENAS)%nat as Ha.
  { destruct Hh as (_ & A & HA & _). apply lookup_lt_Some in HA. by rewrite (proj1 (ho_len _ _ _ Hok)) in HA. }
  unfold arena_realloc. apply wp_bind. eapply (held_ensure cfg Hcfg a n _ s G); [done..|]. intros s1 Hat1 Hc1 _. pose proof (ha_ok _ _ _ _ _ Hat1) as Hok1.
  assert (held_by s1 G p a b d) as Hh1 by (apply (held_change cfg nothing s G s1 G); try done; by intros []).
  apply wp_bind, wp_m_assert; [apply Z.ltb_lt; unfold MAX_PSZB; lia|]. rewrite !(proj2 (Z.eqb_neq _ _)) by lia.
  eapply held_checks; [exact Hat1|exact Hh1|]. destruct (Z.leb_spec req (Z.of_nat (length d))) as [Hle|Hgt]; [apply wp_ret; by apply HQ|].
  apply wp_bind. eapply (held_malloc cfg Hcfg a cc req n k s1 G); [done..|lia|done|done|done| |done].
  intros p' b' d1 s2 G2 Hat2 Hc2 Hnu Hh2 Hl. pose proof (ha_ok _ _ _ _ _ Hat2) as Hok2. pose proof (held_pos _ _ _ _ _ _ Hok2 Hh2) as Hp'.
  assert (b' <> b) as Hne by (intros ->; apply Hnu, Hh1).
  assert (held_by s2 G2 p a b d) as Hho by (apply (held_change cfg (only a b') s1 G s2 G2); try done; by intros [_ ->]).
  rewrite (proj2 (Z.eqb_neq _ _)) by lia. apply wp_bind, wp_modify. set (m' := memcpy (hmem s2) p' p (Z.of_nat (length d))).
  assert (p' + Z.of_nat (length d) <= p \/ p + Z.of_nat (length d) <= p') as Hsep.
  { destruct (held_apart cfg s2 G2 p' p a a b' b d1 d Hok2 Hh2 Hho) as [(_ & _ & ? & _)|(_ & _ & ?)]; [done|lia]. }
  assert (mem_eq m' (copy (hmem s2) p' p (Z.of_nat (length d)))) as Hcp by (apply memcpy_copied; [apply Hok2|lia..]).
  destruct (held_fill cfg p' a b' d1 m' _ _ s2 G2 Hat2 Hh2) as (Hat3 & Hc3 & Hh3).
  { intros x. rewrite Hcp. unfold copy. destruct (_ && _); apply Hok2. }
  { intros x Hx. rewrite Hcp. unfold copy. destruct (_ && _) eqn:E; [|done]. apply andb_prop in E as [E1 E2].
    apply Z.leb_le in E1. apply Z.ltb_lt in E2. lia. }
  pose proof (ha_ok _ _ _ _ _ Hat3) as Hok3.
  assert (held_by (set_hmem m' s2) G2 p a b d) as Hho3 by (apply (held_change cfg (only a b') s2 G2 (set_hmem m' s2) G2); try done; by intros [_ ->]).
  apply wp_bind. eapply (held_free cfg Hcfg a p _ _ (set_hmem m' s2) G2 b d); [done|done|lia|]. intros s4 G4 Hat4 Hc4 Hnu4. apply wp_ret.
  apply (HQ2 Hgt p' b' (bytes_at m' p' (length d1)) s4 G4); try done.
  - eapply change_mono; [|eapply change_trans; [exact Hc1|eapply change_trans; [exact Hc2|eapply change_trans; [exact Hc3|exact Hc4]]]].
    unfold only, nothing. cbn. tauto.
  - apply (held_change cfg (only a b) (set_hmem m' s2) G2 s4 G4); try done; [by apply Hat4|by intros [_ ?]].
  - by rewrite bytes_at_length.
  - rewrite take_bytes_at by lia. rewrite (copy_at _ _ _ _ _ _ Hcp) by lia. by destruct (held_facts cfg _ _ _ _ _ _ Hok2 Hho) as (? & ? & _ & _ & _ & _ & _ & _ & _ & _ & _ & _ & <- & _).
Qed.
End Calls.
