(* ===== verification/MallocAligned.v ===== *)
(** Aligned blocks: the front of a block that is large enough is given
    back. *)
From stdpp Require Import base list sorting.
From Stdlib Require Import ZArith Lia.
From S2P Require Import Prelude Mem LibcMem LibcMemProofs Adler XArray XArrayProofs Malloc MallocApi MallocBlocks MallocLists MallocInv MallocSb MallocInit MallocAlloc MallocRequest MallocDone MallocFree MallocClient.
Open Scope prog_scope.
Open Scope Z_scope.

Section Aligned.
Context {OS : Type} `{AddressSpaceLaws OS} (cfg : heap_config) (Hcfg : cfg_ok cfg).
Abbreviation MST := (mst (OS := OS)).
Implicit Types (m : gmem) (o : OS) (A : Arena) (ag : aghost) (G : list aghost) (b c : blk) (sb : sblk) (d : list Z).

(** ** The front of a block becomes free *)

Section Front.
Context (a : nat) (s : mst (OS := OS)).
Context (Ha : (a < length (vg_arena s))%nat).
Context (Hhp : hp_overhead_szB s = if clo_profile_heap cfg then 16 else 0).
Abbreviation hp := (hp_overhead_szB s).
Abbreviation St A m o := (at_arena a A m o s).

Definition front b (f : Z) : blk := Blk (baddr b) f false.
Definition back b (f : Z) : blk := Blk (baddr b + f) (bsz b - f) true.

Lemma wp_front {B} A m o ag S1 sb S2 l1 b l2 f lit cc (K : M MST B) Q : let g := geo_of hp A in
  arena_ok hp m o A ag -> bytes_ok m -> ag_sbs ag = S1 ++ sb :: S2 -> sblks sb = l1 ++ b :: l2 -> is_used b ->
  f mod 16 = 0 -> g_ovh g <= f -> f + g_ovh g <= bsz b ->
  (forall m' F fl, bytes_ok m' -> arena_ok hp m' o (set_freelist F A) (swap_blks S1 sb S2 l1 [front b f; back b f] l2 fl ag) ->
     (forall x, ~ in_blk b x -> (forall c, c ∈ ag_blks ag -> is_free c -> ~ in_blk c x) -> m' x = m x) ->
     wp K (St (set_freelist F A) m' o) Q) ->
  wp (frag_lno <- pszB_to_listNo (f - g_ovh g) ;; mkFreeBlock a (baddr b) f frag_lno ;;; profile_cc cfg (baddr b) lit ;;;
      mkInuseBlock a (baddr b + f) (bsz b - f) ;;; profile_cc cfg (baddr b + f) cc ;;; K) (St A m o) Q.
Proof using Ha Hhp.
  intros g Hok Hm Es Eb Hu H16 Hf1 Hf2 HQ. pose proof (ao_geo _ _ _ _ _ Hok) as Hg. fold g in Hg. destruct (geo_hp g Hg) as [Hh1 Hh2].
  assert (sb ∈ ag_sbs ag) as Hs by (rewrite Es; apply elem_of_app; right; by left).
  assert (b ∈ ag_blks ag) as Hb by (apply ag_blks_elem; exists sb; split; [done|rewrite Eb; apply elem_of_app; right; by left]).
  pose proof (blks_wf _ _ _ _ _ Hok b Hb) as Hw. fold g in Hw. pose proof Hw as (W1 & W2 & W3 & W4 & W5).
  assert (blk_wf g (front b f)) as Hwf by (unfold bend in *; repeat split; cbn; try done; unfold bend; cbn; lia).
  assert (blk_wf g (back b f)) as Hwb.
  { unfold bend in *; repeat split; cbn; try lia; [by rewrite Z.add_mod, W2, H16|by rewrite Zminus_mod, W3, H16|unfold bend; cbn; lia]. }
  assert (forall x, in_blk (front b f) x -> in_blk b x) as Hfin by (unfold in_blk, bend, front in *; cbn; lia).
  assert (forall x, in_blk (back b f) x -> in_blk b x) as Hbin by (unfold in_blk, bend, back in *; cbn; lia).
  destruct (ao_sbs _ _ _ _ _ Hok sb Hs) as [Hws _]. pose proof (sw_tiles _ _ Hws) as Ht. change (b :: l2) with ([b] ++ l2) in Eb.
  rewrite Eb in Ht. apply blk_tiles_app in Ht as (lo & T1 & (hi & T2 & T3)%blk_tiles_app). pose proof T2 as [<- <-].
  assert (forall c, c ∈ mjoin (ag_fl ag) -> bdisj b c) as Hd.
  { intros c [Hc Hcf]%(free_elem _ _ _ _ _ Hok). destruct (blks_apart _ _ _ _ _ Hok) as [_ Hap]. apply (Hap b c Hb Hc).
    intros ->. unfold is_used in Hu. congruence. }
  apply wp_bind, wp_pszB_to_listNo; [by apply payload_mod|].
  apply wp_bind. eapply (wp_list_block cfg a s Ha Hhp _ _ _ g _ m o (ag_fl ag) (front b f)); [done..|apply Hok| |done|].
  { intros c Hc. specialize (Hd c Hc). unfold bdisj, front, bend in *. cbn. lia. }
  intros m1 F fl Hm1 Hl1 Hj1 Hx1. apply wp_bind. apply (wp_profile_cc cfg a s Ha Hhp _ _ (front b f)); [done|done|]. intros m2 Hm2 Hx2.
  apply wp_bind. eapply (wp_mkInuseBlock a s g Ha Hg eq_refl _ _ (back b f)); [done..|]. intros m3 Hm3 Hin3 Hx3.
  apply wp_bind. apply (wp_profile_cc cfg a s Ha Hhp _ _ (back b f)); [done|done|]. intros m4 Hm4 Hx4. change hp with (g_hp g) in Hx2, Hx4.
  assert (forall x, ~ in_blk (back b f) x -> m4 x = m2 x) as Hx24.
  { intros x Hx. rewrite Hx4, Hx3; [done| |]; [intros Hi; by apply Hx|]. unfold in_blk, bend, back in *. cbn in *. lia. }
  assert (forall x, ~ in_blk b x -> m4 x = m1 x) as Hx14.
  { intros x Hx. rewrite Hx24, Hx2; [done| |by intros ?%Hbin]. unfold in_blk, bend, front in *. cbn in *. lia. }
  assert (forall x, ~ in_blk b x -> ~ link_byte g (mjoin (ag_fl ag)) x -> m4 x = m x) as Hall.
  { intros x Hx Hl. rewrite Hx14, Hx1; [done|by intros ?%Hfin|done|done]. }
  apply (HQ m4 F fl Hm4).
  - rewrite <- (set_lists_same A F).
    eapply (arena_swap hp m o A ag S1 sb S2 l1 [b] l2 (baddr b) (bend b)) with (R := mjoin (ag_fl ag)); try done.
    + cbn. unfold bend. cbn. split; [done|]. split; [done|]. lia.
    + by intros c [->| ->%list_elem_of_singleton]%elem_of_cons.
    + eapply fl_ok_body; [done| |exact Hl1]. intros c x Hc Hi. fold g in Hi. rewrite Hj1 in Hc. apply elem_of_cons in Hc as [->|Hc].
      * rewrite Hx24, Hx2; [done| |]; unfold in_body, in_blk, front, back, bend in *; cbn in *; lia.
      * specialize (Hd c Hc). apply Hx14. unfold in_body, in_blk, bdisj, bend in *. lia.
    + cbn [filter list_filter]. rewrite decide_False by (unfold is_free, is_used in *; congruence). done.
    + intros c [->| ->%list_elem_of_singleton]%elem_of_cons Hcu; [done|].
      eapply (blk_in_body g m3); [done|done| |done]. intros x Hi'. apply Hx4. unfold in_body, back in *. cbn in *. lia.
  - intros x Hx Hc. apply Hall; [done|]. intros (c & Hcb & Hcf & Hci)%(free_link _ _ _ _ _ Hok). by apply (Hc c).
Qed.
End Front.

Lemma front_tidy (d : Z -> Prop) sb l1 b l2 f : sb_tidy d sb -> sblks sb = l1 ++ b :: l2 -> (forall l' c, l1 = l' ++ [c] -> is_used c) ->
  sunsplit sb = false -> sb_tidy d (Sblk (saddr sb) (sbytes sb) (sunsplit sb) (l1 ++ [front b f; back b f] ++ l2)).
Proof using Type.
  intros [T1 T2 T3] Eb Hl Hu. rewrite Eb in T1. pose proof (merged_r (l1 ++ [b]) l2) as Hl2. rewrite <- app_assoc in Hl2. specialize (Hl2 T1).
  split; cbn [sblks sunsplit app].
  - apply merged_between; [by eapply merged_l| |done|by intros c k' [= <- _]]. by apply (merged_used [] (back b f) l2).
  - congruence.
  - intros c Ec _. by destruct l1 as [|? [|? [|]]].
Qed.

Record fronted (s : MST) A ag S1 sb S2 l1 b l2 (f : Z) m' fl A' : Prop := {
  ft_ok : arena_ok (hp_overhead_szB s) m' (os s) A' (swap_blks S1 sb S2 l1 [front b f; back b f] l2 fl ag);
  ft_accounts : accounts (hp_overhead_szB s) A' (swap_blks S1 sb S2 l1 [front b f; back b f] l2 fl ag);
  ft_same : deferred_reclaimed_sb A' = deferred_reclaimed_sb A /\ clientmem A' = clientmem A /\ rz_szB A' = rz_szB A /\ sblocks_size A' = sblocks_size A;
  ft_bytes : bytes_ok m';
  ft_mem x : ~ in_blk b x -> (forall c, c ∈ ag_blks ag -> is_free c -> ~ in_blk c x) -> m' x = hmem s x
}.

Lemma front_used ag S1 sb S2 l1 b l2 f fl : ag_sbs ag = S1 ++ sb :: S2 -> sblks sb = l1 ++ b :: l2 -> is_used b -> exists R,
  filter is_used (ag_blks ag) ≡ₚ b :: R /\
  filter is_used (ag_blks (swap_blks S1 sb S2 l1 [front b f; back b f] l2 fl ag)) ≡ₚ back b f :: R.
Proof using Type.
  intros Es Eb Hu. exists (filter is_used ((S1 ≫= sblks) ++ l1 ++ l2 ++ (S2 ≫= sblks))). split.
  - rewrite (ag_blks_split ag S1 sb S2 l1 [b] l2 Es Eb). cbn [app]. by rewrite filter_cons_True.
  - rewrite (ag_blks_split (swap_blks S1 sb S2 l1 [front b f; back b f] l2 fl ag) S1 (sb_swapped sb l1 l2 [front b f; back b f]) S2 l1 [front b f; back b f] l2) by done.
    cbn [app]. rewrite filter_cons_False, filter_cons_True by done. done.
Qed.

Lemma front_step n k (a : nat) (s : MST) G A ag S1 sb S2 l1 b l2 f m' fl A' : heap_at cfg n k s G -> up s a = true -> vg_arena s !! a = Some A -> G !! a = Some ag ->
  ag_sbs ag = S1 ++ sb :: S2 -> sblks sb = l1 ++ b :: l2 -> is_used b -> (forall l' c, l1 = l' ++ [c] -> is_used c) -> sunsplit sb = false ->
  0 < f < bsz b -> fronted s A ag S1 sb S2 l1 b l2 f m' fl A' ->
  let s' := at_arena a A' m' (os s) s in let G' := <[a := swap_blks S1 sb S2 l1 [front b f; back b f] l2 fl ag]> G in
  heap_at cfg n k s' G' /\ change (fun a0 b0 => only a b a0 b0 \/ only a (back b f) a0 b0) s G s' G' /\
  used_blk G' a (back b f) /\ ~ used_blk G' a b /\ ~ used_blk G a (back b f).
Proof using Type.
  intros [Hok Hin Hsm Hsp] Hup HA HG Es Eb Hu Hl Hun Hf [T1 T2 (T3 & T4 & T5 & T6) T7 T8] s' G'. set (ag' := swap_blks _ _ _ _ _ _ _ _) in *.
  destruct (ho_up _ _ _ Hok a A ag HA HG Hup) as [(Hao & Hty & Hac) _].
  assert (a < length (vg_arena s))%nat as Ha by (by eapply lookup_lt_Some). assert (a < length G)%nat as HaG by (by eapply lookup_lt_Some).
  assert (sb ∈ ag_sbs ag) as Hs by (rewrite Es; apply elem_of_app; right; by left).
  assert (b ∈ ag_blks ag) as Hb by (apply ag_blks_elem; exists sb; split; [done|rewrite Eb; apply elem_of_app; right; by left]).
  assert (ag_regions ag' = ag_regions ag) as Hre by (by apply swap_regs).
  assert (G' !! a = Some ag') as HG' by (by apply list_lookup_insert_eq).
  destruct (front_used ag S1 sb S2 l1 b l2 f fl Es Eb Hu) as (R & U1 & U2). fold ag' in U2.
  assert (heap_ok cfg s' G') as Hok'.
  { eapply heap_step; [done..| |done|done|intros r Hr; left; by rewrite <- Hre| |done].
    - split; [done|]. split; [|done]. rewrite T3. intros x Hx. cbn in Hx. rewrite elem_of_app, elem_of_cons in Hx.
      destruct Hx as [Hx|[->|Hx]]; [apply Hty; rewrite Es; apply elem_of_app; by left| |apply Hty; rewrite Es; apply elem_of_app; right; by right].
      apply (front_tidy _ sb l1 b l2 f); [by apply Hty|done..].
    - intros q x Hq Hx. assert (forall c, c ∈ ag_blks ag -> ~ in_blk c x) as Hno.
      { intros c Hc Hi. destruct (blk_region _ _ _ _ _ Hao c Hc) as (r & Hr & Hrin).
        exact (other_apart cfg s G a ag r q x Hok HG Hr (Hrin x Hi) Hq Hx). }
      apply T8; [by apply Hno|intros c Hc _; by apply Hno]. }
  assert (used_blk G' a (back b f)) as Hub by (rewrite (used_blk_arena G' a ag'), U2 by done; by left).
  assert (used_blk G a b) as Hub0 by (by exists ag).
  assert (back b f <> b) as Hne by (intros E; apply (f_equal baddr) in E; cbn in E; lia).
  assert (~ used_blk G a (back b f)) as Hnu.
  { intros (h & Hh & Hbb & _). assert (h = ag) as -> by congruence. apply Hne.
    destruct (blks_apart _ _ _ _ _ Hao) as [_ Hd]. destruct (decide (back b f = b)) as [|Hn]; [done|].
    specialize (Hd _ _ Hbb Hb Hn). unfold bdisj, back, bend in Hd. cbn in Hd. lia. }
  assert (~ used_blk G' a b) as Hnu'.
  { rewrite (used_blk_arena G' a ag'), U2, elem_of_cons by done. intros [E|Hr]; [done|]. pose proof (used_nodup cfg s G a ag Hok HG) as Hn.
    rewrite U1 in Hn. by apply NoDup_cons in Hn as [? _]. }
  split; [split; [done|done| |done]|split; [|done]].
  - intros a' B h HB Hh. cbn [vg_arena at_arena s'] in HB. unfold G' in Hh. destruct (decide (a' = a)) as [->|Hna].
    + rewrite list_lookup_insert_eq in HB by done. rewrite list_lookup_insert_eq in Hh by done. injection HB as <-. injection Hh as <-.
      destruct (Hsm a A ag HA HG) as [H1 H2]. rewrite T6. split; [|done]. cbn. rewrite Es, !length_app in *. done.
    + rewrite list_lookup_insert_ne in HB by done. rewrite list_lookup_insert_ne in Hh by done. by apply (Hsm a').
  - split; [done|apply (geo_kept_arena a s A); [done|unfold geo_of; congruence]| | | |].
    + intros a' b' HE. destruct (decide (a' = a)) as [->|Hna].
      * rewrite (used_blk_arena G a ag), (used_blk_arena G' a ag'), U1, U2, !elem_of_cons by done. unfold only in HE. naive_solver.
      * unfold used_blk, G'. by rewrite list_lookup_insert_ne.
    + intros a' b' x HE (h & Hh & Hb' & Hu') Hx. cbn. apply T8.
      * intros Hi. destruct (blk_byte cfg s G a' a h ag b' b x) as [-> ->]; try done. apply HE. by left.
      * intros c Hc Hcf Hi. destruct (blk_byte cfg s G a' a h ag b' c x) as [_ ->]; try done. unfold is_free, is_used in *. congruence.
    + intros a' w. by apply (others_chunk_at a G ag ag').
    + intros a' w x Hw Hi. cbn. apply T8; [|intros c Hc _]; by apply (perm_blk_byte cfg s G a' a w _ ag).
Qed.

(** ** [arena_memalign] *)

Lemma align_upwards_bounds q align : 0 < align -> q <= align_upwards q align < q + align /\ align_upwards q align mod align = 0.
Proof using Type.
  intros Ha. unfold align_upwards. pose proof (Z.div_mod q align ltac:(lia)). pose proof (Z.mod_pos_bound q align Ha).
  destruct (Z.eqb_spec (q mod align) 0); [lia|]. split; [lia|].
  replace (q - q mod align + align) with ((q / align + 1) * align) by lia. by apply Z.mod_mul; lia.
Qed.

(** The accounts, when [saved] is what they were before the allocation *)
Lemma memalign_accounts hp A ag A3 ag3 A5 S1 sb S2 l1 b l2 f fl st : let ag5 := swap_blks S1 sb S2 l1 [front b f; back b f] l2 fl ag3 in
  accounts hp A ag -> accounts hp A3 ag3 -> ag_sbs ag3 = S1 ++ sb :: S2 -> sblks sb = l1 ++ b :: l2 -> is_used b ->
  filter is_used (ag_blks ag3) ≡ₚ b :: filter is_used (ag_blks ag) -> stats A5 = st -> geo_of hp A5 = geo_of hp A ->
  perm_bytes_on_loan st = perm_bytes_on_loan (stats A) -> bytes_mmaped st = bytes_mmaped (stats A3) ->
  bytes_on_loan st = u64 (bytes_on_loan (stats A) + (bsz b - f - g_ovh (geo_of hp A))) -> accounts hp A5 ag5.
Proof using Type.
  intros ag5 [C1 _] [_ C2] Es Eb Hu Hp Est Eg E1 E2 E3. destruct (front_used ag3 S1 sb S2 l1 b l2 f fl Es Eb Hu) as (R & U1 & U2).
  assert (R ≡ₚ filter is_used (ag_blks ag)) as ER by (apply (Permutation_cons_inv (a := b)); by rewrite <- U1, Hp).
  split; rewrite Est.
  - rewrite E1, E3, C1, Eg. unfold loaned. change (ag_blks ag5) with (ag_blks (swap_blks S1 sb S2 l1 [front b f; back b f] l2 fl ag3)).
    rewrite (sumZ_perm _ _ _ U2). unfold sumZ at 2. cbn [foldr back bsz]. fold (sumZ (fun b => bsz b - g_ovh (geo_of hp A)) R).
    rewrite (sumZ_perm _ _ _ ER). unfold u64. rewrite Zplus_mod_idemp_l. f_equal. lia.
  - rewrite E2, C2. unfold mapped_bytes. f_equal. f_equal. symmetry. by apply swap_regs.
Qed.

(** From the block that was allocated to the aligned one *)
Definition memalign_rest a cc lit (align r16 m save saved base_p : Z) : M MST Z :=
  on_arena a (set_min_unsplittable save) ;;;
  on_stats a (set_on_loan saved) ;;;
  if base_p =? 0 then ret 0
  else
    base_b <- get_payload_block a base_p ;;
    lo <- overhead_szB_lo a ;;
    hi <- overhead_szB_hi a ;;
    let align_p := align_upwards (base_b + 2 * lo + hi) align in
    align_b <- get_payload_block a align_p ;;
    let frag_bszB := align_b - base_b in
    m_assert (m <=? frag_bszB) ;;;
    base_pszB_act <- get_pszB a base_b ;;
    frag_pszB <- bszB_to_pszB a frag_bszB ;;
    frag_lno <- pszB_to_listNo frag_pszB ;;
    mkFreeBlock a base_b frag_bszB frag_lno ;;;
    profile_cc cfg base_b lit ;;;
    mkInuseBlock a align_b (base_p + base_pszB_act + hi - align_b) ;;;
    profile_cc cfg align_b cc ;;;
    b1 <- get_payload_block a align_p ;;
    u <- is_inuse_block b1 ;;
    m_assert u ;;;
    pszB <- get_pszB a b1 ;;
    m_assert (r16 <=? pszB) ;;;
    on_stats a (fun s => set_on_loan (u64 (bytes_on_loan s + pszB)) s) ;;;
    on_stats a (fun s => if bytes_on_loan_max s <? bytes_on_loan s then set_on_loan_max (bytes_on_loan s) s else s) ;;;
    m_assert (align_p mod align =? 0) ;;;
    ret align_p.

(** The allocated block [b], and the arena before *)
Record based a (base : Z) (s3 : MST) G3 A ag A3 ag3 S1 sb S2 l1 b l2 : Prop := {
  ba_arena : vg_arena s3 !! a = Some A3 /\ G3 !! a = Some ag3 /\ up s3 a = true;
  ba_used : is_used b /\ base <= bsz b - g_ovh (geo_of (hp_overhead_szB s3) A3) /\ filter is_used (ag_blks ag3) ≡ₚ b :: filter is_used (ag_blks ag);
  ba_sbs : ag_sbs ag3 = S1 ++ sb :: S2 /\ sblks sb = l1 ++ b :: l2;
  ba_prev l' c : l1 = l' ++ [c] -> is_used c;
  ba_split : sunsplit sb = false;
  ba_before : accounts (hp_overhead_szB s3) A ag /\ geo_of (hp_overhead_szB s3) A3 = geo_of (hp_overhead_szB s3) A /\
    perm_bytes_on_loan (stats A3) = perm_bytes_on_loan (stats A)
}.

Lemma wp_memalign_rest a cc lit align r16 n k s3 G3 A ag A3 ag3 S1 sb S2 l1 b l2 base save Q : heap_at cfg n k s3 G3 ->
  based a base s3 G3 A ag A3 ag3 S1 sb S2 l1 b l2 -> 16 <= align -> align mod 16 = 0 -> 0 <= r16 ->
  base = r16 + g_ovh (geo_of (hp_overhead_szB s3) A3) + align ->
  (forall p f d s' G', heap_at cfg n k s' G' -> change (fun a0 b0 => only a b a0 b0 \/ only a (back b f) a0 b0) s3 G3 s' G' ->
     ~ used_blk G' a b -> ~ used_blk G3 a (back b f) -> held_by s' G' p a (back b f) d -> r16 <= Z.of_nat (length d) -> p mod align = 0 -> Q p s') ->
  wp (memalign_rest a cc lit align r16 (g_ovh (geo_of (hp_overhead_szB s3) A3)) save (bytes_on_loan (stats A))
        (baddr b + g_lo (geo_of (hp_overhead_szB s3) A3))) s3 Q.
Proof using Type.
  intros Hat [(HA3 & HG3 & Hup3) (Hu & Hbase & Hused) (Es & Eb) Hprev Hsplit (Hac & Egeo & Eperm)] Hal Hal16 Hr -> HQ. pose proof (ha_ok _ _ _ _ _ Hat) as Hok.
  destruct (ho_up _ _ _ Hok a A3 ag3 HA3 HG3 Hup3) as [(Hao & Hty & Hac3) _]. set (g := geo_of (hp_overhead_szB s3) A3) in *.
  pose proof (ao_geo _ _ _ _ _ Hao) as Hg. fold g in Hg. destruct (geo_sizes g Hg) as (Slo & Shi & Sov & Mlo & Mhi & Mov).
  assert (a < length (vg_arena s3))%nat as Ha by (by eapply lookup_lt_Some). pose proof (hp_of_up cfg s3 G3 a Hok Hup3) as Hhp.
  assert (b ∈ ag_blks ag3) as Hb. { apply ag_blks_elem. exists sb. rewrite Es, Eb. split; apply elem_of_app; right; by left. }
  pose proof (blks_wf _ _ _ _ _ Hao b Hb) as Hw. fold g in Hw. pose proof Hw as (W1 & W2 & W3 & W4 & W5).
  unfold memalign_rest. rewrite (at_arena_id a A3 s3 HA3) at 1. apply wp_bind, wp_on_arena; [done|]. apply wp_bind, wp_on_stats; [done|].
  rewrite (proj2 (Z.eqb_neq _ _)) by lia. set (A4 := set_stats _ _).
  assert (arena_ok (hp_overhead_szB s3) (hmem s3) (os s3) A4 ag3) as Hao4.
  { destruct Hao as [? ? ? ? ? ? ? ? ? ? ? ? Hc]. split; try done. by destruct Hc. }
  apply wp_bind. eapply (wp_get_payload_block a s3 g); [done..|]. rewrite Z.add_simpl_r.
  apply wp_bind. eapply (wp_overhead_lo a s3 g); [done..|]. apply wp_bind. eapply (wp_overhead_hi a s3 g); [done..|].
  destruct (align_upwards_bounds (baddr b + 2 * g_lo g + g_hi g) align ltac:(lia)) as [Hap Hapm]. set (p := align_upwards _ align) in *.
  apply wp_bind. eapply (wp_get_payload_block a s3 g); [done..|]. set (f := p - g_lo g - baddr b).
  assert (p mod 16 = 0) as Hp16.
  { rewrite (Z.div_mod p align), Hapm, Z.add_0_r, Z.mul_comm, Z.mul_mod, Hal16 by lia. by rewrite Z.mul_0_r. }
  assert (f mod 16 = 0) as Hf16 by (unfold f; rewrite Zminus_mod, W2, Z.sub_0_r, Z.mod_mod, Zminus_mod, Hp16, Mlo by lia; done).
  assert (g_ovh g <= f /\ f + g_ovh g + r16 <= bsz b) as [Hf1 Hf2] by (unfold f, g_ovh in *; lia).
  apply wp_bind, wp_m_assert; [apply Z.leb_le; lia|]. apply wp_bind.
  eapply (wp_get_pszB a s3 g); [done..|exact (blk_tagged _ _ _ _ _ Hao4 b Hb)|]. apply wp_bind. eapply (wp_bszB_to_pszB a s3 g); [done..|].
  replace (p - g_lo g) with (baddr b + f) by (unfold f; lia).
  replace (baddr b + g_lo g + (bsz b - g_ovh g) + g_hi g - (baddr b + f)) with (bsz b - f) by (unfold g_ovh; lia).
  eapply (wp_front a s3 Ha Hhp A4 (hmem s3) (os s3) ag3 S1 sb S2 l1 b l2 f); [exact Hao4|apply Hok|done|done|done|done|done| |].
  { change (geo_of (hp_overhead_szB s3) A4) with g. lia. }
  intros m' F fl Hm' Hok5 Hx5. set (ag5 := swap_blks _ _ _ _ _ _ _ _) in Hok5.
  assert (back b f ∈ ag_blks ag5) as Hbk by (apply swap_blks_elem; left; right; by left).
  pose proof (blks_wf _ _ _ _ _ Hok5 _ Hbk) as Hwk. pose proof (blk_tagged _ _ _ _ _ Hok5 _ Hbk) as Htk. change (geo_of (hp_overhead_szB s3) _) with g in Hwk, Htk.
  apply wp_bind. eapply (wp_get_payload_block a s3 g); [done..|]. replace (p - g_lo g) with (baddr (back b f)) by (cbn; unfold f; lia).
  apply wp_bind. eapply (wp_is_inuse a s3 g); [done..|]. apply wp_bind, wp_m_assert; [done|].
  apply wp_bind. eapply (wp_get_pszB a s3 g); [done..|]. cbn [bsz back]. apply wp_bind, wp_m_assert; [apply Z.leb_le; lia|].
  apply wp_bind, wp_on_stats; [done|]. apply wp_bind, wp_on_stats; [done|]. apply wp_bind, wp_m_assert; [by apply Z.eqb_eq|]. apply wp_ret.
  set (A6 := set_stats _ _).
  assert (exists st, A6 = set_stats st (set_freelist F A4) /\ bytes_on_loan st = u64 (bytes_on_loan (stats A) + (bsz b - f - g_ovh g)) /\
    bytes_mmaped st = bytes_mmaped (stats A3) /\ perm_bytes_on_loan st = perm_bytes_on_loan (stats A3)) as (st & E6 & L1 & L2 & L3).
  { unfold A6. eexists. split; [reflexivity|]. cbn. destruct (_ <? _); done. }
  clearbody A6. subst A6.
  assert (fronted s3 A3 ag3 S1 sb S2 l1 b l2 f m' fl (set_stats st (set_freelist F A4))) as Hft.
  { split; try done.
    - destruct Hok5 as [? ? ? ? ? ? ? ? ? ? ? ? Hc]. split; try done. by destruct Hc.
    - eapply (memalign_accounts _ A ag A3 ag3 _ S1 sb S2 l1 b l2 f fl st); try done; [by rewrite L3|by rewrite <- Egeo]. }
  destruct (front_step n k a s3 G3 A3 ag3 S1 sb S2 l1 b l2 f m' fl (set_stats st (set_freelist F A4)) Hat Hup3 HA3 HG3 Es Eb Hu Hprev Hsplit ltac:(lia) Hft)
    as (Hat' & Hch & Hub & Hnu & Hnu').
  apply (HQ p f (bytes_at m' p (Z.to_nat (bsz b - f - g_ovh g))) _ _ Hat' Hch Hnu Hnu'); [|rewrite bytes_at_length; lia|done].
  split; [exact Hub|]. exists (set_stats st (set_freelist F A4)). cbn [vg_arena at_arena hp_overhead_szB hmem]. split; [by apply list_lookup_insert_eq|].
  change (geo_of (hp_overhead_szB s3) _) with g. cbn [baddr bsz back]. split; [unfold f; lia|done].
Qed.

(** The threshold for superblocks that may not be divided, and the accounts,
    are changed. *)
Lemma heap_at_fields n k a (s : MST) G A ag mu st : heap_at cfg n k s G -> vg_arena s !! a = Some A -> G !! a = Some ag -> up s a = true ->
  let A' := set_stats st (set_min_unsplittable mu A) in accounts (hp_overhead_szB s) A' ag ->
  heap_at cfg n k (at_arena a A' (hmem s) (os s) s) G /\ change nothing s G (at_arena a A' (hmem s) (os s) s) G.
Proof using Type.
  intros [Hok Hin Hsm Hsp] HA HG Hup A' Hac. destruct (ho_up _ _ _ Hok a A ag HA HG Hup) as [(Hao & Hty & _) _].
  assert (heap_ok cfg (at_arena a A' (hmem s) (os s) s) G) as Hok'.
  { rewrite <- (list_insert_id G a ag HG). eapply heap_step; try done; [|apply Hok|by intros r Hr; left].
    split; [|by split]. destruct Hao as [? ? ? ? ? ? ? ? ? ? ? ? Hc]. split; try done. by destruct Hc. }
  split; [split; try done|split; try done].
  - intros a' B h HB Hh. cbn [vg_arena at_arena] in HB. destruct (decide (a' = a)) as [->|Hne].
    + rewrite list_lookup_insert_eq in HB by (by eapply lookup_lt_Some). injection HB as <-. by apply (Hsm a A h).
    + rewrite list_lookup_insert_ne in HB by done. by apply (Hsm a').
  - by apply (geo_kept_arena a s A).
Qed.

(** A block that was not there, and is not, does not count as changed. *)
Lemma change_drop (E E' : nat -> blk -> Prop) (s : MST) G (s' : MST) G' a b : change E s G s' G' -> ~ used_blk G a b -> ~ used_blk G' a b ->
  (forall a0 b0, E a0 b0 -> E' a0 b0 \/ (a0 = a /\ b0 = b)) -> change E' s G s' G'.
Proof using Type.
  intros [U C D M P X] N1 N2 HE. split; [done|done| | |done|done].
  - intros a0 b0 Hn. destruct (decide (a0 = a /\ b0 = b)) as [[-> ->]|Hne]; [done|]. apply D. intros Hi. destruct (HE _ _ Hi); [done|]. by apply Hne.
  - intros a0 b0 x Hn Hu. apply (M a0 b0); [|done]. intros Hi. destruct (HE _ _ Hi) as [|[-> ->]]; done.
Qed.

Lemma log2_pow2 e : 0 <= e < 32 -> (log2 (uint (2 ^ e)) =? -1) = false.
Proof using Type.
  intros He. apply Z.eqb_neq. rewrite uint_small by (split; [apply Z.pow_nonneg; lia|apply Z.pow_lt_mono_r; lia]).
  unfold log2. destruct (log2_loop_spec 32 0 (2 ^ e) ltac:(lia)) as [[_ Hn]|[Hr _]]; [|lia]. exfalso. by apply (Hn e); [lia|].
Qed.

Lemma held_memalign a cc e req n k (s : MST) G Q : heap_at cfg n (malloc_cost n (req + 2 ^ e + 2 ^ 19) + k) s G -> (a < VG_N_ARENAS)%nat -> cc <> 0 ->
  4 <= e <= 24 -> 0 <= req -> req + 2 ^ 26 < 2 ^ 64 -> 0 <= k -> 0 <= n ->
  (forall p b d s' G', heap_at cfg (n + 1) k s' G' -> change (only a b) s G s' G' -> ~ used_blk G a b -> held_by s' G' p a b d ->
     req <= Z.of_nat (length d) -> p mod 2 ^ e = 0 -> Q p s') ->
  (a = VG_AR_CLIENT -> forall s' G', heap_at cfg n (malloc_cost n (req + 2 ^ e + 2 ^ 19) + k) s' G' -> change nothing s G s' G' -> Q 0 s') ->
  wp (arena_memalign cfg a cc (2 ^ e) req) s Q.
Proof using Hcfg.
  intros Hat Ha Hcc He Hreq Hlt Hk Hn HQ HQ0. unfold arena_memalign.
  assert (2 ^ e = 16 * 2 ^ (e - 4) /\ 0 < 2 ^ (e - 4) /\ 2 ^ e <= 2 ^ 24) as (Ee & Hpe & Hle).
  { change 16 with (2 ^ 4). rewrite <- Z.pow_add_r by lia. split; [f_equal; lia|]. split; [apply Z.pow_pos_nonneg; lia|apply Z.pow_le_mono_r; lia]. }
  destruct (align_req_bounds req Hreq ltac:(lia)) as [Hal Hal16].
  apply wp_bind. eapply (held_ensure cfg Hcfg a n _ s G); [done..|]. intros s1 Hat1 Hc1 Hup. pose proof (ha_ok _ _ _ _ _ Hat1) as Hok1.
  destruct (ho_len _ _ _ Hok1) as [N1 N2]. destruct (lookup_lt_is_Some_2 (vg_arena s1) a) as [A HA]; [lia|].
  destruct (lookup_lt_is_Some_2 G a) as [ag HG]; [lia|]. destruct (ho_up _ _ _ Hok1 a A ag HA HG Hup) as [Hinv Hacl]. pose proof Hinv as (Hao & _ & Hac).
  pose proof (ao_geo _ _ _ _ _ Hao) as Hg. set (g := geo_of (hp_overhead_szB s1) A) in *. destruct (geo_sizes g Hg) as (_ & _ & Hov & _ & _ & Hov16).
  assert (a < length (vg_arena s1))%nat as Hal1 by lia.
  apply wp_bind, wp_m_assert; [apply Z.ltb_lt; unfold MAX_PSZB; lia|]. apply wp_bind, wp_m_assert; [by rewrite (proj2 (Z.eqb_neq _ _))|].
  unfold VG_MIN_MALLOC_SZB. rewrite (proj2 (Z.ltb_ge (2 ^ e) 16)), (proj2 (Z.ltb_ge (16 * 1024 * 1024) (2 ^ e))), log2_pow2 by lia.
  apply wp_bind, wp_m_assert. { rewrite Ee. apply Z.eqb_eq. rewrite Z.mul_comm. by rewrite Z.mod_mul. }
  set (r16 := align_req_pszB req) in *. rewrite (at_arena_id a A s1 HA). apply wp_bind. eapply (wp_min_useful a s1 g); [done..|].
  apply wp_bind, wp_the_arena; [done|]. rewrite u64_small by lia. apply wp_bind, wp_on_arena; [done|].
  set (A2 := set_min_unsplittable MAX_PSZB A). set (s2 := at_arena a A2 (hmem s1) (os s1) s1). set (base := r16 + g_ovh g + 2 ^ e).
  destruct (heap_at_fields n _ a s1 G A ag MAX_PSZB (stats A) Hat1 HA HG Hup) as [Hat2 Hc2]; [by destruct Hac|].
  change (set_stats (stats A) (set_min_unsplittable MAX_PSZB A)) with A2 in Hat2, Hc2. fold s2 in Hat2, Hc2.
  assert (vg_arena s2 !! a = Some A2) as HA2 by (by apply list_lookup_insert_eq).
  pose proof Hat2 as [Hok2 Hin2 Hsm2 Hsp2]. apply wp_bind. eapply (wp_arena_malloc cfg Hcfg a cc base k n s2 G); try done; [unfold base; lia|unfold base; lia| | |].
  { eapply space_less; [|exact Hsp2]. unfold malloc_cost, base. lia. }
  - intros p b s3 G3 Hd. destruct (malloc_change cfg a base k s2 G p b s3 G3 Hok2 Hd) as (Hc3 & Hnu & _).
    destruct Hd as [D1 D2 Dg D3 D4 D5 D6 D7 Da (A3 & ag' & ag3 & S1 & sb & l1 & l2 & S2 & E1 & E2 & E3 & -> & E5 & E6 & E7 & E8 & E9 & E10 & E11 & E12 & E13)].
    assert (ag' = ag) as -> by congruence. destruct (Da A2 Hup HA2) as (A3' & HA3' & M1 & M2). assert (A3' = A3) as -> by congruence.
    destruct (Dg a A2 Hup HA2) as (A3' & HA3'' & Eg). assert (A3' = A3) as -> by congruence. change (geo_of (hp_overhead_szB s2) A2) with g in Eg.
    assert (hp_overhead_szB s3 = hp_overhead_szB s1) as Ehp by (by apply (f_equal g_hp) in Eg). rewrite <- Eg.
    assert (heap_at cfg (n + 1) k s3 G3) as Hat3 by (split; [done|by apply D3|by apply D7|by try apply D6]).
    assert (based a base s3 G3 A ag A3 ag3 S1 sb S2 l1 b l2) as Hba.
    { split; try done; [split_and!; try done; apply D2; by right| |split_and!; [by rewrite Ehp|by rewrite Eg, Ehp|done]]. destruct (sunsplit sb) eqn:Eu; [|done].
      destruct (E13 eq_refl) as [Hb _]. rewrite M1 in Hb. change (min_unsplittable_sblock_szB A2) with MAX_PSZB in Hb. unfold MAX_PSZB in Hb. lia. }
    eapply (wp_memalign_rest a cc _ (2 ^ e) r16 (n + 1) k s3 G3 A ag A3 ag3 S1 sb S2 l1 b l2 base); [exact Hat3|exact Hba|lia| |lia|unfold base; by rewrite Eg|].
    { rewrite Ee, Z.mul_comm. by rewrite Z.mod_mul. }
    intros p f d s' G' Hat' Hch Hnu' Hnk Hh Hl Hpm. apply (HQ p (back b f) d s' G'); try done; [| |lia].
    + eapply (change_drop _ _ s G s' G' a b); [eapply change_trans; [exact Hc1|eapply change_trans; [exact Hc2|eapply change_trans; [exact Hc3|exact Hch]]]|done|done|].
      unfold only, nothing. cbn. tauto.
    + intros Hu. apply Hnk. destruct (decide (back b f = b)) as [E|]; [by rewrite E in Hh; destruct Hh|].
      apply (ch_used _ _ _ _ _ Hc3 a (back b f)); [by intros [_ ?]|done].
  - intros Hcl s3 G3 Hd. pose proof (none_change cfg a s2 G s3 G3 Hok2 Hd) as Hc3. destruct Hd as [D1 D2 Dg D3 D4 D5 Da D6 D7].
    destruct (D5 a ag HG) as (ag3 & HG3 & Eu & _). destruct (Da A2 Hup HA2) as (A3 & HA3 & M1 & M2).
    destruct (Dg a A2 Hup HA2) as (A3' & HA3' & Eg). assert (A3' = A3) as -> by congruence. change (geo_of (hp_overhead_szB s2) A2) with g in Eg.
    assert (heap_at cfg n (malloc_cost n (req + 2 ^ e + 2 ^ 19) + k) s3 G3) as Hat3 by (split; auto).
    assert (up s3 a = true) as Hup3 by (apply D2; by right). destruct (ho_up _ _ _ D1 a A3 ag3 HA3 HG3 Hup3) as [(_ & _ & [_ C2]) _].
    rewrite (at_arena_id a A3 s3 HA3). assert (a < length (vg_arena s3))%nat as Ha3 by (by eapply lookup_lt_Some).
    apply wp_bind, wp_on_arena; [done|]. apply wp_bind, wp_on_stats; [done|]. rewrite Z.eqb_refl. apply wp_ret.
    destruct (heap_at_fields n _ a s3 G3 A3 ag3 (min_unsplittable_sblock_szB A) (set_on_loan (bytes_on_loan (stats A)) (stats A3)) Hat3 HA3 HG3 Hup3) as [Hat4 Hc4].
    { split; [|done]. cbn [stats set_stats set_on_loan bytes_on_loan perm_bytes_on_loan]. destruct Hac as [C1 _]. rewrite C1, M2.
      unfold loaned. rewrite Eu. match goal with |- context [loaned ?x _] => idtac | |- u64 (sumZ (fun b => bsz b - g_ovh ?y) _ + _) = u64 (sumZ (fun b => bsz b - g_ovh ?x) _ + _) =>
        change x with (geo_of (hp_overhead_szB s3) A3) end. by rewrite Eg. }
    apply (HQ0 Hcl _ G3 Hat4). eapply change_mono; [|eapply change_trans; [exact Hc1|eapply change_trans; [exact Hc2|eapply change_trans; [exact Hc3|exact Hc4]]]].
    unfold nothing. tauto.
Qed.
End Aligned.
