(* ===== verification/MallocShrink.v ===== *)
(** Shrinking: the end of a block becomes free, or, when the block has its
    superblock for itself, is unmapped. *)
From stdpp Require Import base list sorting.
From Stdlib Require Import ZArith Lia.
From S2P Require Import Prelude Mem LibcMem LibcMemProofs XArray XArrayProofs Malloc MallocApi MallocBlocks MallocLists MallocInv MallocSb MallocInit MallocAlloc MallocRequest MallocDone MallocFree MallocClient.
Open Scope prog_scope.
Open Scope Z_scope.

(** The block [b] with [r] bytes, and what is left of it *)
Definition kept b (r : Z) : blk := Blk (baddr b) r true.
Definition cutoff b (r : Z) : blk := Blk (baddr b + r) (bsz b - r) false.

Lemma kept_wf g b r : blk_wf g b -> r mod 16 = 0 -> g_ovh g <= r <= bsz b -> blk_wf g (kept b r).
Proof. intros (W1 & W2 & W3 & W4 & W5) H16 Hr. unfold bend in *. repeat split; cbn; try done; [lia|unfold bend; cbn; lia]. Qed.

(** Rounding up to a page *)
Lemma page_up x : 0 <= x -> x + 4095 < 2 ^ 64 -> x <= VG_PGROUNDUP x < x + 4096 /\ VG_PGROUNDUP x mod 4096 = 0.
Proof.
  intros Hx Hlt. unfold VG_PGROUNDUP, VKI_PAGE_SIZE. rewrite u64_small by lia. change (4096 - 1) with (2 ^ 12 - 1). rewrite land_lnot by lia.
  change (2 ^ 12) with 4096. set (y := x + (4096 - 1)). pose proof (Z.div_mod y 4096 ltac:(lia)). pose proof (Z.mod_pos_bound y 4096 ltac:(lia)).
  split; [lia|]. replace (y - y mod 4096) with (y / 4096 * 4096) by lia. by apply Z.mod_mul.
Qed.

Section Shrink.
Context {OS : Type} `{AddressSpaceLaws OS} (cfg : heap_config) (Hcfg : cfg_ok cfg).
Abbreviation MST := (mst (OS := OS)).
Implicit Types (m : gmem) (o : OS) (A : Arena) (ag : aghost) (G : list aghost) (b c : blk) (sb : sblk) (d : list Z).

(** The arena after the block [b] has shrunk to [r] bytes *)
Record shrunk_to (hp : Z) A m o ag b (r : Z) m' (o' : OS) A' ag' : Prop := {
  sk_inv : arena_inv hp m' o' A' ag';
  sk_bytes : bytes_ok m';
  sk_used : exists R, filter is_used (ag_blks ag) ≡ₚ b :: R /\ filter is_used (ag_blks ag') ≡ₚ kept b r :: R;
  sk_regs q : q ∈ ag_regions ag' -> exists q0, q0 ∈ ag_regions ag /\ q0.1 <= q.1 /\ q.1 + q.2 <= q0.1 + q0.2;
  sk_same : geo_of hp A' = geo_of hp A /\ sblocks_size A' = sblocks_size A /\ ag_perm ag' = ag_perm ag /\ ag_chunks ag' = ag_chunks ag /\
    (length (ag_sbs ag') <= length (ag_sbs ag))%nat;
  sk_mem x : (in_blk b x -> baddr b + g_lo (geo_of hp A) <= x < baddr b + r - g_hi (geo_of hp A)) ->
    (forall c, c ∈ ag_blks ag -> is_free c -> ~ in_blk c x) -> (forall sb, sb ∈ ag_sbs ag -> ~ saddr sb <= x < spay sb) -> m' x = m x;
  sk_mapped cl q k : 0 < k -> mapped o cl q k -> (forall w, w ∈ ag_regions ag -> rdisj w (q, k)) -> mapped o' cl q k;
  sk_space k : core_space o k -> core_space o' k
}.

Lemma arena_stats hp m o A ag st : arena_ok hp m o A ag -> arena_ok hp m o (set_stats st A) ag.
Proof using Type. intros [? ? ? ? ? ? ? ? ? ? ? ? Hc]. split; try done. by destruct Hc. Qed.

Section Arena.
Context (a : nat) (s : mst (OS := OS)).
Context (Ha : (a < length (vg_arena s))%nat).
Context (Hhp : hp_overhead_szB s = if clo_profile_heap cfg then 16 else 0).
Abbreviation hp := (hp_overhead_szB s).
Abbreviation St A m o := (at_arena a A m o s).

(** ** Among other blocks *)

(** The two blocks in place of [b] *)
Lemma wp_cut {B} A m o ag S1 sb S2 l1 b l2 r lit (K : M MST B) Q : let g := geo_of hp A in
  arena_ok hp m o A ag -> bytes_ok m -> ag_sbs ag = S1 ++ sb :: S2 -> sblks sb = l1 ++ b :: l2 -> is_used b ->
  r mod 16 = 0 -> g_ovh g <= r -> r + g_ovh g <= bsz b ->
  (forall m' F fl, bytes_ok m' -> arena_ok hp m' o (set_freelist F A) (swap_blks S1 sb S2 l1 [kept b r; cutoff b r] l2 fl ag) ->
     (forall x, (in_blk b x -> baddr b + g_lo g <= x < baddr b + r - g_hi g) -> (forall c, c ∈ ag_blks ag -> is_free c -> ~ in_blk c x) -> m' x = m x) ->
     wp K (St (set_freelist F A) m' o) Q) ->
  wp (shrinkInuseBlock a (baddr b) r ;;; frag_pszB <- bszB_to_pszB a (bsz b - r) ;; frag_lno <- pszB_to_listNo frag_pszB ;;
      mkFreeBlock a (baddr b + r) (bsz b - r) frag_lno ;;; profile_cc cfg (baddr b + r) lit ;;; K) (St A m o) Q.
Proof using Ha Hhp.
  intros g Hok Hm Es Eb Hu H16 Hr1 Hr2 HQ. pose proof (ao_geo _ _ _ _ _ Hok) as Hg. fold g in Hg. destruct (geo_hp g Hg) as [Hh1 Hh2].
  assert (sb ∈ ag_sbs ag) as Hs by (rewrite Es; apply elem_of_app; right; by left).
  assert (b ∈ ag_blks ag) as Hb by (apply ag_blks_elem; exists sb; split; [done|rewrite Eb; apply elem_of_app; right; by left]).
  pose proof (blks_wf _ _ _ _ _ Hok b Hb) as Hw. fold g in Hw. pose proof Hw as (W1 & W2 & W3 & W4 & W5).
  pose proof (kept_wf g b r Hw H16 ltac:(pose proof (geo_sizes g Hg); lia)) as Hwk.
  assert (blk_wf g (cutoff b r)) as Hwc.
  { unfold bend in *; repeat split; cbn; try lia; [by rewrite Z.add_mod, W2, H16|by rewrite Zminus_mod, W3, H16|unfold bend; cbn; lia]. }
  destruct (ao_sbs _ _ _ _ _ Hok sb Hs) as [Hws _]. pose proof (sw_tiles _ _ Hws) as Ht. change (b :: l2) with ([b] ++ l2) in Eb.
  rewrite Eb in Ht. apply blk_tiles_app in Ht as (lo & T1 & (hi & T2 & T3)%blk_tiles_app). pose proof T2 as [<- <-].
  assert (forall c, c ∈ mjoin (ag_fl ag) -> bdisj b c) as Hd.
  { intros c [Hc Hcf]%(free_elem _ _ _ _ _ Hok). destruct (blks_apart _ _ _ _ _ Hok) as [_ Hap]. apply (Hap b c Hb Hc).
    intros ->. unfold is_used in Hu. congruence. }
  apply wp_bind. eapply (wp_shrinkInuseBlock a s g Ha Hg eq_refl _ _ (kept b r)); [done..|]. intros m1 Hm1 Hin1 Hx1.
  apply wp_bind. eapply (wp_bszB_to_pszB a s g); [done..|lia|]. apply wp_bind, wp_pszB_to_listNo; [by apply payload_mod, Hwc|].
  assert (fl_ok g m1 (freelist A) (ag_fl ag)) as Hls1.
  { eapply fl_ok_ext; [done| |apply (ao_lists _ _ _ _ _ Hok)]. intros c x Hc Hi. apply Hx1. specialize (Hd c Hc).
    pose proof (geo_sizes g Hg). unfold admin_byte, in_blk, bdisj, g_ovh, bend, kept in *. cbn [baddr bsz] in *. lia. }
  apply wp_bind. eapply (wp_list_block cfg a s Ha Hhp _ _ _ g _ m1 o (ag_fl ag) (cutoff b r)); [done..|exact Hls1| |done|].
  { intros c Hc. specialize (Hd c Hc). unfold bdisj, cutoff, bend in *. cbn. lia. }
  intros m2 F fl Hm2 Hl2 Hj2 Hx2. apply wp_bind. apply (wp_profile_cc cfg a s Ha Hhp _ _ (cutoff b r)); [done|done|]. intros m3 Hm3 Hx3.
  change hp with (g_hp g) in Hx3.
  assert (forall x, ~ in_blk (cutoff b r) x -> ~ link_byte g (mjoin (ag_fl ag)) x -> m3 x = m1 x) as Hx13.
  { intros x Hx Hl. rewrite Hx3, Hx2; [done|done|done|]. unfold in_blk, bend, cutoff in *. cbn in *. lia. }
  assert (forall x, (in_blk b x -> baddr b + g_lo g <= x < baddr b + r - g_hi g) -> ~ link_byte g (mjoin (ag_fl ag)) x -> m3 x = m x) as Hall.
  { intros x Hx Hl. rewrite Hx13, Hx1; [done| | |done]; pose proof (geo_sizes g Hg); unfold admin_byte, in_blk, g_ovh, kept, cutoff, bend in *; cbn in *; lia. }
  apply (HQ m3 F fl Hm3).
  - rewrite <- (set_lists_same A F).
    eapply (arena_swap hp m o A ag S1 sb S2 l1 [b] l2 (baddr b) (bend b)) with (R := mjoin (ag_fl ag)); try done.
    + cbn. unfold bend. cbn. split; [done|]. split; [done|]. lia.
    + by intros c [->| ->%list_elem_of_singleton]%elem_of_cons.
    + eapply fl_ok_body; [done| |exact Hl2]. intros c x Hc Hi. fold g in Hi. apply Hx3. rewrite Hj2 in Hc. apply elem_of_cons in Hc as [->|Hc].
      * unfold in_body in Hi. lia.
      * specialize (Hd c Hc). unfold in_body, bdisj, bend, cutoff in *. cbn in *. lia.
    + cbn [filter list_filter]. rewrite decide_False by (unfold is_free, is_used in *; congruence). done.
    + intros c [->| ->%list_elem_of_singleton]%elem_of_cons Hcu; [|done].
      eapply (blk_in_ext g m1); [done|done| |done]. intros x Hi'. apply Hx13; [unfold in_blk, bend, kept, cutoff in *; cbn in *; lia|].
      intros (c & Hc & Hcl)%link_one. specialize (Hd c Hc).
      assert (blk_wf g c) as Hwc' by (apply (free_elem _ _ _ _ _ Hok) in Hc as [Hc _]; by eapply blks_wf).
      pose proof (link_in g Hg c x Hwc' Hcl). unfold in_blk, bdisj, bend, kept in *. cbn in *. lia.
    + intros x Hx Hl. apply Hall; [|done]. unfold in_blk in *. lia.
  - intros x Hx Hc. apply Hall; [done|]. intros (c & Hcb & Hcf & Hci)%(free_link _ _ _ _ _ Hok). by apply (Hc c).
Qed.

Lemma shrink_accounts A ag A' ag' b r : accounts hp A ag -> geo_of hp A' = geo_of hp A ->
  (exists R, filter is_used (ag_blks ag) ≡ₚ b :: R /\ filter is_used (ag_blks ag') ≡ₚ kept b r :: R) ->
  bytes_on_loan (stats A') = u64 (u64 (bytes_on_loan (stats A) - (bsz b - g_ovh (geo_of hp A))) + (r - g_ovh (geo_of hp A))) ->
  perm_bytes_on_loan (stats A') = perm_bytes_on_loan (stats A) -> mapped_ok A' ag' -> accounts hp A' ag'.
Proof using Ha.
  intros [C1 _] Eg (R & U1 & U2) E1 E2 E3. split; [|done]. rewrite E1, E2, C1, Eg. unfold loaned. rewrite (sumZ_perm _ _ _ U1), (sumZ_perm _ _ _ U2).
  unfold sumZ. cbn [foldr kept bsz]. unfold u64. rewrite Zminus_mod_idemp_l, Zplus_mod_idemp_l. f_equal. lia.
Qed.

Lemma cut_used ag S1 sb S2 l1 b l2 r fl : ag_sbs ag = S1 ++ sb :: S2 -> sblks sb = l1 ++ b :: l2 -> is_used b -> exists R,
  filter is_used (ag_blks ag) ≡ₚ b :: R /\
  filter is_used (ag_blks (swap_blks S1 sb S2 l1 [kept b r; cutoff b r] l2 fl ag)) ≡ₚ kept b r :: R.
Proof using Ha.
  intros Es Eb Hu. exists (filter is_used ((S1 ≫= sblks) ++ l1 ++ l2 ++ (S2 ≫= sblks))). split.
  - rewrite (ag_blks_split ag S1 sb S2 l1 [b] l2 Es Eb). cbn [app]. by rewrite filter_cons_True.
  - rewrite (ag_blks_split (swap_blks S1 sb S2 l1 [kept b r; cutoff b r] l2 fl ag) S1 (sb_swapped sb l1 l2 [kept b r; cutoff b r]) S2 l1 [kept b r; cutoff b r] l2) by done.
    cbn [app]. rewrite filter_cons_True, filter_cons_False by done. done.
Qed.

(** The end of the block is free, and next to others perhaps. *)
Lemma cut_loose A m o ag S1 sb S2 l1 b l2 r m' F fl st : arena_inv hp m o A ag -> ag_sbs ag = S1 ++ sb :: S2 -> sblks sb = l1 ++ b :: l2 ->
  sunsplit sb = false -> bytes_ok m' -> bytes_mmaped st = bytes_mmaped (stats A) ->
  let A1 := set_freelist F (set_stats st A) in let ag1 := swap_blks S1 sb S2 l1 [kept b r; cutoff b r] l2 fl ag in arena_ok hp m' o A1 ag1 ->
  loose s A1 m' o ag1 S1 (sb_swapped sb l1 l2 [kept b r; cutoff b r]) S2 (l1 ++ [kept b r]) (cutoff b r) l2.
Proof using Ha.
  intros (Hok & Hty & Hac) Es Eb Hsp Hm' Est A1 ag1 Hok1. assert (sb ∈ ag_sbs ag) as Hs by (rewrite Es; apply elem_of_app; right; by left).
  pose proof (st_merged _ _ (Hty sb Hs)) as Hmg. rewrite Eb in Hmg. split; try done.
  - unfold mapped_ok. cbn [A1 stats set_freelist set_stats]. rewrite Est, (ac_mapped _ _ _ Hac). unfold mapped_bytes. f_equal. f_equal. symmetry. by apply swap_regs.
  - split; [done|]. cbn. by rewrite <- app_assoc.
  - intros x Hx. apply Hty. rewrite Es. rewrite elem_of_app in *. rewrite elem_of_cons. tauto.
  - split; [apply merged_used; [done|by eapply merged_l|done]|]. apply (merged_r (l1 ++ [b])). by rewrite <- app_assoc.
Qed.

Lemma wp_shrink_split {B} A m o ag S1 sb S2 l1 b l2 r lit (K : M MST B) Q : let g := geo_of hp A in
  arena_inv hp m o A ag -> bytes_ok m -> ag_sbs ag = S1 ++ sb :: S2 -> sblks sb = l1 ++ b :: l2 -> is_used b -> sunsplit sb = false ->
  r mod 16 = 0 -> g_ovh g <= r -> r + g_ovh g <= bsz b ->
  (forall m' o' A' ag', shrunk_to hp A m o ag b r m' o' A' ag' -> wp K (St A' m' o') Q) ->
  wp (on_stats a (fun s => set_on_loan (u64 (bytes_on_loan s - (bsz b - g_ovh g))) s) ;;;
      shrinkInuseBlock a (baddr b) r ;;; frag_pszB <- bszB_to_pszB a (bsz b - r) ;; frag_lno <- pszB_to_listNo frag_pszB ;;
      mkFreeBlock a (baddr b + r) (bsz b - r) frag_lno ;;; profile_cc cfg (baddr b + r) lit ;;;
      mergeWithFreeNeighbours cfg a (saddr sb) (baddr b + r) (bsz b - r) ;;; b_bszB <- get_bszB (baddr b) ;; pszB <- bszB_to_pszB a b_bszB ;;
      on_stats a (fun s => set_on_loan (u64 (bytes_on_loan s + pszB)) s) ;;; K) (St A m o) Q.
Proof using Ha Hhp.
  intros g Hinv Hm Es Eb Hu Hsp H16 Hr1 Hr2 HQ. pose proof Hinv as (Hok & Hty & Hac). apply wp_bind, wp_on_stats; [done|].
  set (st := set_on_loan _ _). pose proof (arena_stats _ _ _ _ _ st Hok) as Hok0.
  eapply (wp_cut (set_stats st A)); [exact Hok0|exact Hm|exact Es|exact Eb|done|done|done|done|]. intros m1 F fl Hm1 Hok1 Hx1. change (geo_of hp (set_stats st A)) with g in Hx1.
  set (ag1 := swap_blks _ _ _ _ _ _ _ _) in *. set (A1 := set_freelist F (set_stats st A)) in *.
  destruct (cut_used ag S1 sb S2 l1 b l2 r fl Es Eb Hu) as (R & U1 & U2). fold ag1 in U2.
  assert (ag_regions ag1 = ag_regions ag) as Hre by (by apply swap_regs).
  change (saddr sb) with (saddr (sb_swapped sb l1 l2 [kept b r; cutoff b r])). change (baddr b + r) with (baddr (cutoff b r)). change (bsz b - r) with (bsz (cutoff b r)).
  apply wp_bind. eapply (wp_mergeWithFreeNeighbours cfg a s Ha Hhp A1); [by eapply (cut_loose A m o ag)|].
  intros m2 o2 A2 ag2 (Hok2 & Hty2 & Hmp2) Hq. pose proof (quiet_same s _ _ _ _ _ _ _ _ Hq) as Eg. change (geo_of hp A1) with g in Eg.
  fold ag1 in Hq. destruct Hq as [Hm2 [(G1 & G2 & G3 & G4 & G5 & G6 & G7) K1 K2 K3 (K4 & K5) K6] M2 P2 Sp2]. change (sblocks_size A1) with (sblocks_size A) in G5.
  assert (kept b r ∈ filter is_used (ag_blks ag2)) as [_ Hk]%list_elem_of_filter by (rewrite K1, U2; by left).
  pose proof (blks_wf _ _ _ _ _ Hok2 _ Hk) as Hwk. pose proof (blk_tagged _ _ _ _ _ Hok2 _ Hk) as Htk. pose proof (ao_geo _ _ _ _ _ Hok2) as Hg2. rewrite Eg in Hwk, Htk, Hg2.
  assert (hp = g_hp g) as Ehp by done.
  apply wp_bind. eapply (wp_get_bszB a s g) with (b := kept b r); [done..|]. cbn [kept bsz].
  apply wp_bind. eapply (wp_bszB_to_pszB a s g); [done|done|done|by (rewrite <- Eg)|done|]. apply wp_bind, wp_on_stats; [done|].
  eapply HQ. split.
  - split; [by apply arena_stats|]. split; [done|]. eapply (shrink_accounts A ag _ ag2 b r Hac); [done|exists R; by rewrite K1| |done|done].
    cbn [stats set_stats]. cbn. rewrite G6. done.
  - done.
  - exists R. by rewrite K1.
  - intros q Hq%K3. rewrite Hre in Hq. exists q. split; [done|lia].
  - split_and!; try done. etransitivity; [exact K6|]. cbn. rewrite Es, !length_app. done.
  - intros x Hx Hc _. rewrite M2, Hx1; [done|done|done|]. intros c Hcb Hcf Hi. apply swap_blks_elem in Hcb as [[->| ->%list_elem_of_singleton]%elem_of_cons|Hcb].
    + done.
    + unfold in_blk, cutoff, bend in *. cbn in Hi. pose proof (geo_sizes g Hg2). fold g in Hx. lia.
    + apply (Hc c); [by apply (others_elem ag S1 sb S2 l1 [b] l2)|done|done].
  - intros cl q k Hk' Hmq Hw. apply P2; [done|done|]. by rewrite Hre.
  - intros k Hsk. by apply Sp2.
Qed.

(** ** Alone in its superblock *)

Definition trimmed sb b (r : Z) : sblk := Sblk (saddr sb) r true [kept b r].
Definition trim S1 sb S2 b (r : Z) ag : aghost := AG (S1 ++ trimmed sb b r :: S2) (ag_fl ag) (ag_perm ag) (ag_chunks ag).

Section Trim.
Context (A : Arena) (m : gmem) (o : OS) (ag : aghost) (S1 : list sblk) (sb : sblk) (S2 : list sblk) (b : blk) (r : Z).
Context (Hok : arena_ok hp m o A ag) (Es : ag_sbs ag = S1 ++ sb :: S2) (Eb : sblks sb = [b]) (Hu : is_used b) (Hun : sunsplit sb = true).
Let g : geo := geo_of hp A.
Context (H16 : r mod 16 = 0) (Hr : g_ovh g <= r) (Hr' : r < bsz b) (Hpage : (saddr sb + 32 + r) mod 4096 = 0).

Lemma trim_facts : sb ∈ ag_sbs ag /\ b ∈ ag_blks ag /\ blk_wf g b /\ baddr b = spay sb /\ bend b = send sb /\ sbytes sb = bsz b.
Proof using Hok Es Eb Ha.
  assert (sb ∈ ag_sbs ag) as Hs by (rewrite Es; apply elem_of_app; right; by left).
  assert (b ∈ ag_blks ag) as Hb by (apply ag_blks_elem; exists sb; split; [done|rewrite Eb; by left]).
  destruct (ao_sbs _ _ _ _ _ Hok sb Hs) as [Hws _]. pose proof (sw_tiles _ _ Hws) as Ht. rewrite Eb in Ht. destruct Ht as [E1 E2]. cbn in E2.
  split_and!; try done; [by eapply blks_wf|]. unfold bend, send, spay in *. lia.
Qed.

Lemma trim_elem x : x ∈ S1 ++ trimmed sb b r :: S2 -> x = trimmed sb b r \/ x ∈ S1 ++ S2.
Proof using Type. rewrite !elem_of_app, !elem_of_cons. tauto. Qed.

Lemma trim_blks c : c ∈ ag_blks (trim S1 sb S2 b r ag) -> c = kept b r \/ c ∈ ag_blks ag /\ c <> b.
Proof using Hok Es Eb Ha.
  intros (x & [->|Hx]%trim_elem & Hc)%ag_blks_elem; [left; by apply list_elem_of_singleton in Hc|right].
  destruct (sbs_others _ _ _ _ _ Hok S1 sb S2 x Es Hx) as (Hi & Hne & Hd). split; [apply ag_blks_elem; by exists x|]. intros ->.
  destruct trim_facts as (Hs & Hb & (W & _) & E1 & E2 & _). destruct (blk_place _ _ _ _ _ Hok x b Hi Hc) as [P1 P2].
  destruct (ao_sbs _ _ _ _ _ Hok sb Hs) as [[] _]. unfold rdisj, sb_reg, spay, send, bend in *. cbn in *. lia.
Qed.

Lemma trim_used : exists R, filter is_used (ag_blks ag) ≡ₚ b :: R /\ filter is_used (ag_blks (trim S1 sb S2 b r ag)) ≡ₚ kept b r :: R.
Proof using Es Eb Hu Ha.
  exists (filter is_used ((S1 ≫= sblks) ++ [] ++ [] ++ (S2 ≫= sblks))). split.
  - rewrite (ag_blks_split ag S1 sb S2 [] [b] [] Es Eb). cbn [app]. by rewrite filter_cons_True.
  - rewrite (ag_blks_split (trim S1 sb S2 b r ag) S1 (trimmed sb b r) S2 [] [kept b r] []) by done. cbn [app]. by rewrite filter_cons_True.
Qed.

Lemma trim_regs q : q ∈ ag_regions (trim S1 sb S2 b r ag) ->
  q = (saddr sb, 32 + r) \/ q ∈ ag_regions ag /\ rdisj q (sb_reg sb).
Proof using Hok Es Ha.
  unfold ag_regions. cbn [trim ag_sbs ag_perm]. rewrite elem_of_app, list_elem_of_fmap. intros [(x & -> & [->|Hx]%trim_elem)|Hq]; [by left|right..].
  - destruct (sbs_others _ _ _ _ _ Hok S1 sb S2 x Es Hx) as (Hi & _ & Hd). split; [|done]. apply elem_of_app. left. apply list_elem_of_fmap. by exists x.
  - split; [apply elem_of_app; by right|]. apply (ao_perm _ _ _ _ _ Hok q Hq). rewrite Es. apply elem_of_app. right. by left.
Qed.

Context (m' : gmem) (o' : OS).
Context (Hhead : load_le 8 m' (saddr sb) = r) (Hin : blk_in g m' (kept b r)).
Context (Hx : forall x, ~ saddr sb <= x < saddr sb + 8 -> ~ admin_byte g (kept b r) x -> m' x = m x).
Context (Hmp : forall cl q k, 0 < k -> mapped o cl q k -> q + k <= baddr b + r \/ bend b <= q -> mapped o' cl q k).

(** Bytes outside the header and the block *)
Lemma trim_mem x : ~ saddr sb <= x < saddr sb + 8 -> ~ in_blk b x -> m' x = m x.
Proof using Hx Hr Hr' Hok Ha.
  intros H1 H2. apply Hx; [done|]. pose proof (geo_sizes g (ao_geo _ _ _ _ _ Hok)). unfold admin_byte, in_blk, bend, kept, g_ovh in *. cbn in *. lia.
Qed.

Lemma trim_other c x : c ∈ ag_blks ag -> c <> b -> in_blk c x -> m' x = m x.
Proof using All.
  intros Hc Hne Hi. destruct trim_facts as (Hs & Hb & _). apply trim_mem.
  - intros Hh. apply (header_apart _ _ _ _ _ Hok sb c x Hs Hc); [unfold spay; lia|done].
  - intros Hib. destruct (blks_apart _ _ _ _ _ Hok) as [_ Hd]. specialize (Hd c b Hc Hb Hne). unfold in_blk, bdisj in *. lia.
Qed.

Lemma arena_trim st : arena_ok hp m' o' (set_stats st A) (trim S1 sb S2 b r ag).
Proof using All.
  pose proof Hok as [H1 H2 H3 H4 H5 H6 H7 H8 H9 H10 H11 H12 H13]. destruct trim_facts as (Hs & Hb & Hw & E1 & E2 & E3). destruct (H6 sb Hs) as [[V1 V2 V3 V4 V5 V6 V7] [I1 I2]].
  pose proof (geo_sizes g H1) as Hgs. assert (length (S1 ++ trimmed sb b r :: S2) = length (ag_sbs ag)) as El by (by rewrite Es, !length_app).
  split; cbn [trim ag_sbs ag_perm ag_chunks ag_fl]; try done.
  - by rewrite El.
  - rewrite El. cbn [sblocks set_stats]. by rewrite H4, Es, !fmap_app, !fmap_cons.
  - rewrite Es, StronglySorted_app in H5. destruct H5 as (K1 & K2 & K3). apply StronglySorted_inv in K3 as [K3 K4]. rewrite Forall_forall in K4.
    apply StronglySorted_app. split_and!; [|done|constructor; [done|]].
    + intros x y Hx' [->|Hy]%elem_of_cons; [|apply K1; [done|by right]]. specialize (K1 x sb Hx' ltac:(by left)). exact K1.
    + apply Forall_forall. intros y Hy. specialize (K4 y Hy). unfold slt, send in *. cbn. lia.
  - intros x [->|Hi]%trim_elem.
    + split; [|split; [done|]].
      * split; cbn; [done|done|lia|unfold send in *; cbn; lia| | |done].
        -- split; [done|]. unfold bend, spay, send in *. cbn in *. lia.
        -- intros c ->%list_elem_of_singleton. apply (kept_wf g); [done|done|lia].
      * rewrite Hun in I2. cbn [trimmed saddr sunsplit]. etransitivity; [|exact I2]. apply load_le_ext. intros x Hxi. apply trim_mem; unfold in_blk, spay in *; lia.
    + destruct (sbs_others _ _ _ _ _ Hok S1 sb S2 x Es Hi) as (Hxi & Hne & Hd). destruct (H6 x Hxi) as [Wx [J1 J2]]. split; [done|].
      pose proof (sw_bytes _ _ Wx). split; [rewrite <- J1|rewrite <- J2]; apply load_le_ext; intros z Hz;
        apply trim_mem; unfold in_blk, rdisj, sb_reg, spay, send, bend in *; cbn in *; lia.
  - eapply fl_ok_ext; [done| |done]. intros c x [Hc Hcf]%(free_elem _ _ _ _ _ Hok). apply trim_other; [done|]. intros ->. unfold is_used in Hu. congruence.
  - rewrite H8, (ag_blks_split ag S1 sb S2 [] [b] [] Es Eb), (ag_blks_split (trim S1 sb S2 b r ag) S1 (trimmed sb b r) S2 [] [kept b r] []) by done. cbn [app].
    rewrite !filter_cons_False by (unfold is_free, is_used in *; cbn; congruence). done.
  - intros c [->|[Hc Hne]]%trim_blks Hcu; [done|]. eapply (blk_in_ext g m); [done|by eapply blks_wf| |by apply H9]. intros x. by apply trim_other.
  - destruct H10 as [|(x & Hi & Ed & Hxu)]; [by left|right]. exists x. split; [|done]. rewrite Es, elem_of_app, elem_of_cons in Hi.
    rewrite elem_of_app, elem_of_cons. destruct Hi as [|[->|]]; [by left|congruence|by right; right].
  - destruct (H11 (sb_reg sb)) as (M1 & M2 & M3 & M4). { apply elem_of_app. left. apply list_elem_of_fmap. by exists sb. } cbn in M1, M2, M3, M4.
    intros q [->|[Hq Hd]]%trim_regs; cbn [fst snd].
    + unfold spay, send, bend in *. split_and!; [lia|lia|lia|]. apply Hmp; [lia| |lia]. eapply mapped_part; [exact M4|lia|lia|lia].
    + destruct (H11 q Hq) as (N1 & N2 & N3 & N4). split_and!; try done. apply Hmp; [done|done|]. unfold rdisj, sb_reg, spay, send, bend in *. cbn in *. lia.
  - intros q Hq. destruct (H12 q Hq) as [K1 K2]. split; [|done]. intros x [->|Hi]%trim_elem.
    + specialize (K1 sb Hs). unfold rdisj, sb_reg, trimmed in *. cbn in *. lia.
    + apply K1. rewrite Es. rewrite elem_of_app in *. rewrite elem_of_cons. tauto.
  - by destruct H13.
Qed.
End Trim.

Lemma wp_shrink_whole {B} A m o ag S1 sb S2 b req (K : M MST B) Q : let g := geo_of hp A in
  arena_inv hp m o A ag -> bytes_ok m -> ag_sbs ag = S1 ++ sb :: S2 -> sblks sb = [b] -> is_used b -> sunsplit sb = true ->
  g_ovh g <= req <= bsz b ->
  (forall r m' o' A' ag', req <= r < req + 4096 -> r mod 16 = 0 -> r < bsz b -> shrunk_to hp A m o ag b r m' o' A' ag' -> wp K (St A' m' o') Q) ->
  (bsz b < req + 8192 -> wp K (St A m o) Q) ->
  wp (n <- ld (saddr sb) ;;
      let sb_start := payload_bytes (saddr sb) in
      let sb_end := payload_bytes (saddr sb) + (n - 1) in
      sane <- unsplittableBlockSane a (saddr sb) (baddr b) ;;
      m_assert sane ;;;
      req_bszB <- pszB_to_bszB a (req - g_ovh g) ;;
      let frag := VG_PGROUNDUP (saddr sb + sizeof_Superblock + req_bszB) in
      let frag_bszB := u64 (sb_end - frag + 1) in
      (if VKI_PAGE_SIZE <=? frag_bszB then
        on_stats a (fun s => set_on_loan (u64 (bytes_on_loan s - (bsz b - g_ovh g))) s) ;;;
        let b_bszB := frag - sb_start in
        shrinkInuseBlock a (baddr b) b_bszB ;;;
        pszB <- bszB_to_pszB a b_bszB ;;
        on_stats a (fun s => set_on_loan (u64 (bytes_on_loan s + pszB)) s) ;;;
        sd (saddr sb) (u64 (n - frag_bszB)) ;;;
        A <- the_arena a ;;
        o <- gets os ;;
        (match am_munmap (clientmem A) frag frag_bszB o with
         | Some o => modify (set_os o)
         | None => fail
         end) ;;;
        on_stats a (fun s => set_mmaped (u64 (bytes_mmaped s - frag_bszB)) s) ;;;
        sane <- unsplittableBlockSane a (saddr sb) (baddr b) ;;
        m_assert sane
       else ret tt) ;;; K) (St A m o) Q.
Proof using Hcfg Ha Hhp.
  intros g Hinv Hm Es Eb Hu Hun Hreq HQ HQ0. pose proof Hinv as (Hok & Hty & Hac). destruct (trim_facts A m o ag S1 sb S2 b Hok Es Eb) as (Hs & Hb & Hw & E1 & E2 & E3).
  destruct (ao_sbs _ _ _ _ _ Hok sb Hs) as [[V1 V2 V3 V4 V5 V6 V7] [I1 I2]]. pose proof (ao_geo _ _ _ _ _ Hok) as Hg. fold g in Hg, Hw. pose proof (geo_sizes g Hg) as Hgs.
  apply wp_bind, wp_ld. rewrite I1. cbn zeta. apply wp_bind. eapply (wp_unsplittableBlockSane a s Ha); [exact Hok|done..|]. apply wp_bind, wp_m_assert; [done|].
  apply wp_bind. eapply (wp_pszB_to_bszB a s g); [done|done|done|done|lia|unfold bend, send in *; lia|]. rewrite Z.sub_add.
  apply wp_bind. unfold sizeof_Superblock. unfold payload_bytes. change (saddr sb + 32) with (spay sb). rewrite <- E1, E3. set (frag := VG_PGROUNDUP (baddr b + req)).
  assert (send sb mod 4096 = 0 /\ send sb <= 2 ^ 64 - 4096) as [V8 V9] by (split; [done|Z.div_mod_to_equations; lia]).
  unfold spay, bend in *. destruct (page_up (baddr b + req)) as [F1 F2]; [lia|lia|]. fold frag in F1, F2.
  assert (frag <= send sb) as F3 by (Z.div_mod_to_equations; lia).
  replace (baddr b + (bsz b - 1) - frag + 1) with (send sb - frag) by lia. rewrite (u64_small (send sb - frag)) by lia. set (r := frag - baddr b).
  destruct (Z.leb_spec VKI_PAGE_SIZE (send sb - frag)) as [Hle|Hlt]; unfold VKI_PAGE_SIZE in *; [|apply wp_ret, HQ0; lia].
  assert (r mod 16 = 0) as R16 by (unfold r; Z.div_mod_to_equations; lia). assert (req <= r < req + 4096 /\ r < bsz b) as [R1 R2] by (unfold r; lia).
  pose proof (kept_wf g b r Hw R16 ltac:(lia)) as Hwk.
  apply wp_bind, wp_on_stats; [done|]. apply wp_bind. eapply (wp_shrinkInuseBlock a s g Ha Hg eq_refl _ _ (kept b r)); [done..|]. intros m1 Hm1 Hin1 Hx1.
  apply wp_bind. eapply (wp_bszB_to_pszB a s g); [done..|lia|]. apply wp_bind, wp_on_stats; [done|]. apply wp_bind, wp_sd.
  rewrite (u64_small (bsz b - (send sb - frag))) by lia. replace (bsz b - (send sb - frag)) with r by (unfold r; lia). set (m2 := store_le 8 m1 (saddr sb) r).
  apply wp_bind, wp_the_arena; [done|]. apply wp_bind, wp_gets. cbn [os at_arena]. match goal with |- context [am_munmap ?c _ _ _] => change c with (clientmem A) end.
  destruct (ao_mapped _ _ _ _ _ Hok (sb_reg sb)) as (_ & _ & _ & M4). { apply elem_of_app. left. apply list_elem_of_fmap. by exists sb. } cbn in M4.
  destruct (munmap_ok (clientmem A) frag (send sb - frag) o ltac:(lia)) as (o2 & Eo & Hmp & Hsp). { eapply mapped_part; [exact M4|lia|unfold send; lia|lia]. }
  rewrite Eo. apply wp_bind, wp_modify. unfold set_os. cbn [at_arena hmem vg_arena client_inited nonclient_inited hp_overhead_szB client_rz_szB].
  match goal with |- wp _ ?S _ => match S with mk_mst ?mm ?oo (<[a := ?AA]> _) _ _ _ _ => change S with (St AA mm oo) end end.
  apply wp_bind, wp_on_stats; [done|]. set (st := set_mmaped _ _). 
  match goal with |- wp _ (St ?AA _ _) _ => change AA with (set_stats st A) end.
  assert (forall x, ~ saddr sb <= x < saddr sb + 8 -> ~ admin_byte g (kept b r) x -> m2 x = m x) as Hx2.
  { intros x H1 H2. unfold m2. rewrite store_le_outside by lia. by apply Hx1. }
  assert (bytes_ok m2) as Hm2 by (by apply store_le_ok).
  assert (blk_in g m2 (kept b r)) as Hin2.
  { eapply (blk_in_ext g m1); [done|done| |done]. intros x Hx. unfold m2, in_blk, kept in *. cbn in Hx. apply store_le_outside. lia. }
  assert (arena_ok hp m2 o2 (set_stats st A) (trim S1 sb S2 b r ag)) as Hok2.
  { eapply (arena_trim A m o ag S1 sb S2 b r Hok Es Eb Hu Hun); [done|fold g; lia|done|by replace (saddr sb + 32 + r) with frag by (unfold r; lia)|by (apply load_store_same; [done|cbn; lia])|done|done|].
    intros cl q k Hk Hmq Hq. apply Hmp; [done|done|]. unfold bend, r in *. lia. }
  apply wp_bind. change (saddr sb) with (saddr (trimmed sb b r)). change (baddr b) with (baddr (kept b r)).
  eapply (wp_unsplittableBlockSane a s Ha); [exact Hok2|cbn; apply elem_of_app; right; by left|done..|]. apply wp_m_assert; [done|].
  destruct (trim_used ag S1 sb S2 b r Es Eb Hu) as (R & U1 & U2).
  assert (mapped_bytes (trim S1 sb S2 b r ag) = mapped_bytes ag - (send sb - frag)) as Emp.
  { unfold mapped_bytes, ag_regions. cbn [trim ag_sbs ag_perm]. rewrite Es, !fmap_app, !fmap_cons, !sumZ_app. unfold sumZ, r, send. cbn. unfold r. lia. }
  apply (HQ r m2 o2 (set_stats st A) (trim S1 sb S2 b r ag) R1 R16 R2). split.
  - split; [done|]. split.
    + intros x [->|Hi]%trim_elem; [split; [done|by exists (kept b r)|by intros c [= <-]]|]. apply Hty. rewrite Es. rewrite elem_of_app in *. rewrite elem_of_cons. tauto.
    + eapply (shrink_accounts A ag _ _ b r Hac); [done|by exists R|done|done|]. unfold mapped_ok. rewrite Emp. cbn. rewrite (ac_mapped _ _ _ Hac). unfold u64. by rewrite Zminus_mod_idemp_l.
  - done.
  - by exists R.
  - intros q [->|[Hq _]]%(trim_regs A m o ag S1 sb S2 b r Hok Es); [|exists q; by split; [|lia]]. exists (sb_reg sb). split; [|cbn; lia].
    apply elem_of_app. left. apply list_elem_of_fmap. by exists sb.
  - split_and!; try done. cbn. by rewrite Es, !length_app.
  - intros x Hx _ Hh. apply Hx2; [specialize (Hh sb Hs); unfold spay in Hh; lia|]. unfold admin_byte, in_blk, bend, kept in *. cbn. unfold g_ovh in *. fold g in Hx. lia.
  - intros cl q k Hk Hmq Hq. apply Hmp; [done|done|]. assert (rdisj (sb_reg sb) (q, k)) as Hd.
    { apply Hq. apply elem_of_app. left. apply list_elem_of_fmap. by exists sb. } unfold rdisj, sb_reg, send in *. cbn in Hd. lia.
  - done.
Qed.
End Arena.

(** ** The heap after a block has shrunk *)

Lemma shrink_heap (a : nat) (s : MST) G A ag b r m' o' A' ag' : heap_ok cfg s G -> up s a = true -> vg_arena s !! a = Some A -> G !! a = Some ag ->
  b ∈ ag_blks ag -> shrunk_to (hp_overhead_szB s) A (hmem s) (os s) ag b r m' o' A' ag' -> heap_ok cfg (at_arena a A' m' o' s) (<[a := ag']> G).
Proof using Type.
  intros Hok Hup HA HG Hb [K1 K2 _ K4 (K5 & _) K6 K7 _]. destruct (ho_up _ _ _ Hok a A ag HA HG Hup) as [(Hao & _) _].
  eapply heap_step; [done..|exact K1| |done| | |].
  - by apply (f_equal g_client) in K5.
  - intros q (q0 & Hq0 & H1 & H2)%K4. right. intros w (a' & h & Hne & Hh & Hw). assert (rdisj q0 w) as Hd by (by eapply (ho_apart _ _ _ Hok a a' ag h)).
    unfold rdisj in *. lia.
  - intros q x Hq Hx. assert (forall w, w ∈ ag_regions ag -> ~ in_reg w x) as Hno.
    { intros w Hw Hi. exact (other_apart cfg s G a ag w q x Hok HG Hw Hi Hq Hx). }
    assert (forall c, c ∈ ag_blks ag -> ~ in_blk c x) as Hnb.
    { intros c Hc Hi. destruct (blk_region _ _ _ _ _ Hao c Hc) as (w & Hw & Hin). by apply (Hno w Hw), Hin. }
    apply K6; [by intros ?%Hnb|by intros c Hc _; apply Hnb|]. intros sb Hs Hi. apply (Hno (sb_reg sb)).
    + apply elem_of_app. left. apply list_elem_of_fmap. by exists sb.
    + pose proof (sw_bytes _ _ (proj1 (ao_sbs _ _ _ _ _ Hao sb Hs))). unfold in_reg, sb_reg, spay in *. cbn. lia.
  - intros cl q (a' & h & Hne & Hh & Hq) Hq2 Hm. apply K7; [done|done|]. intros w Hw.
    assert (rdisj w q) as Hd by (by eapply (ho_apart _ _ _ Hok a a' ag h)). by destruct q.
Qed.

Lemma shrink_step n k (a : nat) (s : MST) G A ag b r m' o' A' ag' : heap_at cfg n k s G -> up s a = true -> vg_arena s !! a = Some A -> G !! a = Some ag ->
  used_blk G a b -> r < bsz b -> shrunk_to (hp_overhead_szB s) A (hmem s) (os s) ag b r m' o' A' ag' ->
  let s' := at_arena a A' m' o' s in let G' := <[a := ag']> G in
  heap_at cfg n k s' G' /\ change (fun a0 b0 => only a b a0 b0 \/ only a (kept b r) a0 b0) s G s' G' /\
  used_blk G' a (kept b r) /\ ~ used_blk G' a b /\ ~ used_blk G a (kept b r).
Proof using Type.
  intros [Hok Hin Hsm Hsp] Hup HA HG Hub Hr Hsk s' G'. pose proof Hub as (ag0 & HG0 & Hb & Hu). assert (ag0 = ag) as -> by congruence.
  pose proof (shrink_heap a s G A ag b r m' o' A' ag' Hok Hup HA HG Hb Hsk) as Hok'. destruct Hsk as [K1 K2 (R & U1 & U2) K4 (Eg & E1 & E2 & E3 & E4) K6 _ K8].
  destruct (ho_up _ _ _ Hok a A ag HA HG Hup) as [(Hao & _) _]. assert (a < length G)%nat as HaG by (by eapply lookup_lt_Some).
  assert (a < length (vg_arena s))%nat as Ha by (by eapply lookup_lt_Some). assert (G' !! a = Some ag') as HG' by (by apply list_lookup_insert_eq).
  assert (kept b r <> b) as Hne by (intros E; apply (f_equal bsz) in E; cbn in E; lia).
  pose proof (used_nodup cfg s G a ag Hok HG) as Hn. rewrite U1 in Hn. apply NoDup_cons in Hn as [Hn _].
  assert (kept b r ∉ filter is_used (ag_blks ag)) as Hnk.
  { intros [_ Hk]%list_elem_of_filter. destruct (blks_apart _ _ _ _ _ Hao) as [_ Hd]. specialize (Hd _ _ Hk Hb Hne).
    pose proof (blk_wf_pos _ _ (ao_geo _ _ _ _ _ Hao) (blks_wf _ _ _ _ _ Hao _ Hk)) as (Hp & _).
    pose proof (geo_hp _ (ao_geo _ _ _ _ _ Hao)). unfold bdisj, kept, bend in *. cbn in *. lia. }
  split; [split; [done|done| |by apply K8]|split; [split|]].
  - intros a' B h HB Hh. cbn [vg_arena at_arena s'] in HB. unfold G' in Hh. destruct (decide (a' = a)) as [->|Hna].
    + rewrite list_lookup_insert_eq in HB by done. rewrite list_lookup_insert_eq in Hh by done. injection HB as <-. injection Hh as <-.
      destruct (Hsm a A ag HA HG) as [H1 H2]. rewrite E1. lia.
    + rewrite list_lookup_insert_ne in HB by done. rewrite list_lookup_insert_ne in Hh by done. by apply (Hsm a').
  - done.
  - by apply (geo_kept_arena a s A).
  - intros a' b' HE. destruct (decide (a' = a)) as [->|Hna].
    + rewrite (used_blk_arena G a ag), (used_blk_arena G' a ag'), U1, U2, !elem_of_cons by done. unfold only in HE. naive_solver.
    + unfold used_blk, G'. by rewrite list_lookup_insert_ne.
  - intros a' b' x HE (h & Hh & Hb' & Hu') Hx. cbn. apply K6.
    + intros Hi. destruct (blk_byte cfg s G a' a h ag b' b x) as [-> ->]; try done. destruct HE. by left.
    + intros c Hc Hcf Hi. destruct (blk_byte cfg s G a' a h ag b' c x) as [_ ->]; try done. unfold is_free, is_used in *. congruence.
    + intros sb Hs Hi. destruct (decide (a' = a)) as [->|Hna].
      * assert (h = ag) as -> by congruence. by apply (header_apart _ _ _ _ _ Hao sb b' x).
      * destruct (arena_of cfg s G a' h Hok Hh (blk_regions _ _ Hb')) as (B & _ & _ & Hao'). destruct (blk_region _ _ _ _ _ Hao' b' Hb') as (w & Hw & Hin').
        apply (other_apart cfg s G a ag (sb_reg sb) w x Hok HG); [| |by exists a', h|by apply Hin'].
        -- apply elem_of_app. left. apply list_elem_of_fmap. by exists sb.
        -- pose proof (sw_bytes _ _ (proj1 (ao_sbs _ _ _ _ _ Hao sb Hs))). unfold in_reg, sb_reg, spay in *. cbn. lia.
  - intros a' w. by apply (others_chunk_at a G ag ag').
  - intros a' w x Hw Hi. cbn. pose proof (perm_blk_byte cfg s G a' a w) as Hout. apply K6.
    + intros Hib. by destruct (Hout b ag x Hok Hw Hi HG Hb).
    + intros c Hc _. by apply (Hout c ag).
    + intros sb Hs Hix. destruct (perm_region cfg s G a' w Hok Hw) as (h & q & Hh & Hq & Hqr & Hqi). specialize (Hqi x Hi).
      assert (rdisj q (sb_reg sb)) as Hd.
      { destruct (decide (a' = a)) as [->|Hna].
        - assert (h = ag) as -> by congruence. by apply (ao_perm _ _ _ _ _ Hao q Hq).
        - apply (ho_apart _ _ _ Hok a' a h ag); [done|done|done|done|]. apply elem_of_app. left. apply list_elem_of_fmap. by exists sb. }
      pose proof (sw_bytes _ _ (proj1 (ao_sbs _ _ _ _ _ Hao sb Hs))). unfold rdisj, in_reg, sb_reg, spay in *. cbn in *. lia.
  - split; [|split].
    + rewrite (used_blk_arena G' a ag'), U2 by done. by left.
    + rewrite (used_blk_arena G' a ag'), U2, elem_of_cons by done. by intros [|].
    + by rewrite (used_blk_arena G a ag).
Qed.

(** ** [arena_realloc_shrink] *)

(** What is left in the block *)
Lemma shrink_held (a : nat) (s : MST) G A ag p b d r m' o' A' ag' : heap_ok cfg s G -> vg_arena s !! a = Some A -> G !! a = Some ag -> held_by s G p a b d ->
  g_ovh (geo_of (hp_overhead_szB s) A) <= r < bsz b -> shrunk_to (hp_overhead_szB s) A (hmem s) (os s) ag b r m' o' A' ag' ->
  used_blk (<[a := ag']> G) a (kept b r) ->
  held_by (at_arena a A' m' o' s) (<[a := ag']> G) p a (kept b r) (take (Z.to_nat (r - g_ovh (geo_of (hp_overhead_szB s) A))) d).
Proof using Type.
  intros Hok HA HG Hh Hr [_ _ _ _ (Eg & _) K6 _ _] Hub. destruct (held_facts cfg _ _ _ _ _ _ Hok Hh) as (A0 & ag0 & HA0 & HG0 & Hup & Hao & Hb & Hu & Hg & Hw & Ep & El & Ed & _).
  assert (A0 = A) as -> by congruence. assert (ag0 = ag) as -> by congruence. set (g := geo_of (hp_overhead_szB s) A) in *.
  split; [done|]. exists A'. cbn [vg_arena at_arena hp_overhead_szB hmem]. split; [apply list_lookup_insert_eq; by eapply lookup_lt_Some|]. rewrite Eg.
  split; [done|]. cbn [kept bsz]. rewrite Ed, take_bytes_at by lia. apply bytes_at_ext. intros x Hx. symmetry. pose proof (geo_sizes g Hg). apply K6.
  - intros _. unfold g_ovh in *. fold g. lia.
  - intros c Hc Hcf Hi. destruct (blks_apart _ _ _ _ _ Hao) as [_ Hd]. assert (c <> b) as Hne by (intros ->; unfold is_free, is_used in *; congruence).
    specialize (Hd c b Hc Hb Hne). unfold bdisj, in_blk, bend, g_ovh in *. lia.
  - intros sb Hs Hi. apply (header_apart _ _ _ _ _ Hao sb b x Hs Hb Hi). unfold in_blk, bend, g_ovh in *. lia.
Qed.

(** The final check, and what the user sees *)
Lemma shrink_end a p b d req n k (s : MST) G A ag r m' o' A' ag' Q : heap_at cfg n k s G -> held_by s G p a b d -> vg_arena s !! a = Some A ->
  G !! a = Some ag -> let g := geo_of (hp_overhead_szB s) A in req + g_ovh g <= r < req + 15 + g_ovh g + 4096 -> 0 <= req -> r < bsz b ->
  shrunk_to (hp_overhead_szB s) A (hmem s) (os s) ag b r m' o' A' ag' ->
  (forall b' d' s' G', heap_at cfg n k s' G' -> change (fun a0 b0 => only a b a0 b0 \/ only a b' a0 b0) s G s' G' ->
     ~ used_blk G' a b -> ~ used_blk G a b' -> held_by s' G' p a b' d' -> req <= Z.of_nat (length d') < req + 2 ^ 19 ->
     (length d' < length d)%nat -> d' = take (length d') d -> Q tt s') ->
  wp (sane <- blockSane a (baddr b) ;; m_assert sane) (at_arena a A' m' o' s) Q.
Proof using Hcfg.
  intros Hat Hh HA HG g Hr1 Hreq Hr2 Hsk HQ. pose proof (ha_ok _ _ _ _ _ Hat) as Hok.
  destruct (held_facts cfg _ _ _ _ _ _ Hok Hh) as (A0 & ag0 & HA0 & HG0 & Hup & _ & _ & _ & Hg & _ & _ & El & _).
  assert (A0 = A) as -> by congruence. fold g in Hg, El. pose proof (geo_sizes g Hg) as Hgs. assert (a < length (vg_arena s))%nat as Ha by (by eapply lookup_lt_Some).
  destruct (shrink_step n k a s G A ag b r m' o' A' ag' Hat Hup HA HG (proj1 Hh) Hr2 Hsk) as (Hat2 & Hc2 & Hk1 & Hk2 & Hk3).
  assert (g_ovh g <= r < bsz b) as Hrr by lia.
  pose proof (shrink_held a s G A ag p b d r m' o' A' ag' Hok HA HG Hh Hrr Hsk Hk1) as Hh2. fold g in Hh2. set (d' := take (Z.to_nat (r - g_ovh g)) d) in *.
  assert (Z.of_nat (length d') = r - g_ovh g) as Eld by (unfold d'; rewrite length_take; lia).
  pose proof (ha_ok _ _ _ _ _ Hat2) as Hok2. destruct (held_facts cfg _ _ _ _ _ _ Hok2 Hh2) as (A2 & ag2 & HA2 & HG2 & _ & Hao2 & Hb2 & Hu2 & Hg2 & Hw2 & _).
  assert (A2 = A') as ->. { cbn [vg_arena at_arena] in HA2. rewrite list_lookup_insert_eq in HA2 by done. congruence. }
  apply wp_bind. change (baddr b) with (baddr (kept b r)). eapply (wp_blockSane a s Ha); [exact Hg2|exact Hw2|by apply (blk_tagged _ _ _ _ _ Hao2)|by apply (ao_used _ _ _ _ _ Hao2)|].
  apply wp_m_assert; [done|].
  apply (HQ (kept b r) d' _ _ Hat2); [exact Hc2|done|exact Hk3|exact Hh2|lia|lia|by replace (length d') with (Z.to_nat (r - g_ovh g)) by lia].
Qed.

(** A block is given back from its end on, except for less than two pages or
    less than the overhead of a block. *)
Lemma held_shrink a p b d req n k (s : MST) G Q : heap_at cfg n k s G -> held_by s G p a b d -> 0 <= n -> 0 <= req <= Z.of_nat (length d) ->
  (forall s', heap_at cfg n k s' G -> change nothing s G s' G -> Z.of_nat (length d) < req + 2 ^ 19 -> Q tt s') ->
  (forall b' d' s' G', heap_at cfg n k s' G' -> change (fun a0 b0 => only a b a0 b0 \/ only a b' a0 b0) s G s' G' ->
     ~ used_blk G' a b -> ~ used_blk G a b' -> held_by s' G' p a b' d' -> req <= Z.of_nat (length d') < req + 2 ^ 19 ->
     (length d' < length d)%nat -> d' = take (length d') d -> Q tt s') ->
  wp (arena_realloc_shrink cfg a p req) s Q.
Proof using Hcfg.
  intros Hat Hh Hn Hreq HQ0 HQ. pose proof (ha_ok _ _ _ _ _ Hat) as Hok.
  assert (a < VG_N_ARENAS)%nat as HaN.
  { destruct Hh as (_ & A & HA & _). apply lookup_lt_Some in HA. by rewrite (proj1 (ho_len _ _ _ Hok)) in HA. }
  unfold arena_realloc_shrink. apply wp_bind. eapply (held_ensure cfg Hcfg a n _ s G); [done..|]. intros s1 Hat1 Hc1 _. pose proof (ha_ok _ _ _ _ _ Hat1) as Hok1.
  assert (held_by s1 G p a b d) as Hh1 by (apply (held_change cfg nothing s G s1 G); try done; by intros []).
  eapply held_checks; [exact Hat1|exact Hh1|].
  destruct (held_facts cfg _ _ _ _ _ _ Hok1 Hh1) as (A & ag & HA & HG & Hup & Hao & Hb & Hu & Hg & Hw & Ep & El & Ed & _).
  set (g := geo_of (hp_overhead_szB s1) A) in *. pose proof (geo_sizes g Hg) as Hgs. destruct Hw as (W1 & W2 & W3 & W4 & W5) eqn:EW; clear EW.
  assert (Z.of_nat (length d) mod 16 = 0) as Hd16 by (rewrite El; by apply payload_mod).
  destruct (align_req_bounds req ltac:(lia)) as [Hal1 Hal2]; [unfold bend in *; lia|]. set (r16 := align_req_pszB req) in *.
  assert (r16 <= Z.of_nat (length d)) as Hle by (Z.div_mod_to_equations; lia).
  apply wp_bind, wp_m_assert; [by apply Z.leb_le|].
  destruct (Z.eqb_spec (Z.of_nat (length d)) r16) as [Ee|Hne]; [apply wp_ret, HQ0; [done|done|lia]|].
  pose proof Hb as (sb & Hs & Hbs)%ag_blks_elem. destruct (list_elem_of_split _ _ Hs) as (S1 & S2 & Es). destruct (list_elem_of_split _ _ Hbs) as (l1 & l2 & Eb).
  assert (a < length (vg_arena s1))%nat as Ha by (by eapply lookup_lt_Some). pose proof (hp_of_up cfg s1 G a Hok1 Hup) as Hhp.
  destruct (ho_up _ _ _ Hok1 a A ag HA HG Hup) as [Hinv _]. pose proof (ho_bytes _ _ _ Hok1) as Hm.
  destruct (blk_place _ _ _ _ _ Hao sb b Hs Hbs) as [P1 P2]. destruct (ao_sbs _ _ _ _ _ Hao sb Hs) as [Hws [E1 E2]].
  rewrite (at_arena_id a A s1 HA). apply wp_bind. eapply wp_findSb; [done|exact Hao|exact Hs|unfold bend in *; lia|]. apply wp_bind, wp_ld. rewrite E2.
  assert (forall r m' o' A' ag', r16 + g_ovh g <= r < r16 + g_ovh g + 4096 -> r < bsz b -> shrunk_to (hp_overhead_szB s1) A (hmem s1) (os s1) ag b r m' o' A' ag' ->
    wp (sane <- blockSane a (baddr b) ;; m_assert sane) (at_arena a A' m' o' s1) Q) as Hend.
  { intros r m' o' A' ag' Hr1 Hr2 Hsk. eapply (shrink_end a p b d req n k s1 G A ag r); [exact Hat1|exact Hh1|exact HA|exact HG|fold g; lia|lia|done|exact Hsk|].
    intros b' d' s' G' K1 K2. apply HQ; [done|]. eapply change_mono; [|eapply change_trans; [exact Hc1|exact K2]]. unfold nothing. tauto. }
  destruct (sunsplit sb) eqn:Eun.
  - rewrite (proj2 (Z.eqb_neq _ _)) by (pose proof (sw_pos _ _ Hws); lia). cbn [negb].
    destruct (st_unsplit _ _ (proj1 (proj2 Hinv) sb Hs) Eun) as (b' & Eb' & _).
    assert (b' = b) as -> by (rewrite Eb in Eb'; destruct l1 as [|? [|]]; cbn in Eb'; [by injection Eb'|by injection Eb'|by injection Eb']).
    rewrite El. replace r16 with (r16 + g_ovh g - g_ovh g) by lia.
    eapply (wp_shrink_whole a s1 Ha Hhp A (hmem s1) (os s1) ag S1 sb S2 b (r16 + g_ovh g)); [exact Hinv|exact Hm|exact Es|exact Eb'|exact Hu|exact Eun|fold g; lia| |].
    + intros r m' o' A' ag' Hr1 Hr2 Hr3 Hsk. by apply (Hend r m' o' A' ag').
    + intros Hlt. apply wp_bind. eapply (wp_blockSane a s1 Ha); [done|by split_and!|by apply (blk_tagged _ _ _ _ _ Hao)|by apply (ao_used _ _ _ _ _ Hao)|].
      apply wp_m_assert; [done|]. rewrite <- (at_arena_id a A s1 HA). apply HQ0; [done|done|lia].
  - rewrite Z.eqb_refl. cbn [negb]. apply wp_bind. eapply (wp_pszB_to_bszB a s1 g); [done..|lia|unfold bend in *; lia|].
    apply wp_bind. eapply (wp_get_bszB a s1 g) with (b := b); [done..|by apply (blk_tagged _ _ _ _ _ Hao)|]. rewrite (u64_small (bsz b - _)) by (unfold bend in *; lia).
    apply wp_bind. eapply (wp_min_useful a s1 g); [done..|].
    destruct (Z.ltb_spec (bsz b - (r16 + g_ovh g)) (g_ovh g)) as [Hlt|Hge].
    + apply wp_ret. rewrite <- (at_arena_id a A s1 HA). apply HQ0; [done|done|lia].
    + rewrite El. set (r := r16 + g_ovh g) in *. 
      eapply (wp_shrink_split a s1 Ha Hhp A (hmem s1) (os s1) ag S1 sb S2 l1 b l2 r); [exact Hinv|exact Hm|exact Es|exact Eb|exact Hu|exact Eun| |fold g; lia|fold g; lia|].
      * unfold r. by rewrite Z.add_mod, Hal2, (proj2 (proj2 (proj2 (proj2 (proj2 Hgs))))).
      * intros m' o' A' ag' Hsk. apply (Hend r m' o' A' ag'); [lia|lia|done].
Qed.
End Shrink.
