(* ===== verification/MallocPerm.v ===== *)
(** Permanent blocks: cut off one after the other from regions that are never
    given back. *)
From stdpp Require Import base list sorting.
From Stdlib Require Import ZArith Lia.
From S2P Require Import Prelude Mem LibcMem LibcMemProofs XArray XArrayProofs Malloc MallocApi MallocBlocks MallocLists MallocInv MallocSb MallocInit MallocAlloc MallocRequest MallocDone MallocClient MallocShrink.
Open Scope prog_scope.
Open Scope Z_scope.

Section Perm.
Context {OS : Type} `{AddressSpaceLaws OS} (cfg : heap_config) (Hcfg : cfg_ok cfg).
Abbreviation MST := (mst (OS := OS)).
Implicit Types (s : MST) (m : gmem) (o : OS) (A : Arena) (ag : aghost) (G : list aghost) (b : blk) (sb : sblk) (r q w : Z * Z) (d : list Z).

(** ** The arena with another permanent block *)

(** The block [w], and the region it is in: one of the old ones, or a new
    one *)
Definition with_perm (new : list (Z * Z)) w ag : aghost := AG (ag_sbs ag) (ag_fl ag) (new ++ ag_perm ag) (w :: ag_chunks ag).

Lemma with_perm_regs new w ag r : r ∈ ag_regions (with_perm new w ag) <-> r ∈ new \/ r ∈ ag_regions ag.
Proof using Type. unfold ag_regions, with_perm. cbn. rewrite !elem_of_app. tauto. Qed.

Lemma arena_perm_ok hp m o A ag new w m' o' st cur lim : arena_ok hp m o A ag ->
  (forall r, r ∈ new -> 0 < r.1 /\ 0 < r.2 /\ r.1 + r.2 < 2 ^ 64 /\ mapped o' (clientmem A) r.1 r.2 /\ forall q, q ∈ ag_regions ag -> rdisj q r) ->
  (length new <= 1)%nat ->
  (forall r x, r ∈ ag_regions ag -> in_reg r x -> m' x = m x) ->
  (forall r, r ∈ ag_regions ag -> mapped o (clientmem A) r.1 r.2 -> mapped o' (clientmem A) r.1 r.2) ->
  perm_ok (set_perm_malloc cur lim A) (new ++ ag_perm ag) (w :: ag_chunks ag) ->
  arena_ok hp m' o' (set_perm_malloc cur lim (set_stats st A)) (with_perm new w ag).
Proof using Type.
  intros Hok Hnew Hl1 Hx Hmp Hpe. destruct (arena_ok_frame _ _ _ _ _ m' o' Hok Hx Hmp) as [H1 H2 H3 H4 H5 H6 H7 H8 H9 H10 H11 H12 H13].
  split; try done.
  - intros r [Hr|Hr]%with_perm_regs; [|by apply H11]. by destruct (Hnew r Hr) as (? & ? & ? & ? & _).
  - cbn. intros r. rewrite elem_of_app. intros [Hr|Hr].
    + destruct (Hnew r Hr) as (_ & _ & _ & _ & Hd). split.
      * intros sb Hs. assert (rdisj (sb_reg sb) r) as Hd'; [|unfold rdisj in *; lia]. apply Hd. apply elem_of_app. left. apply list_elem_of_fmap. by exists sb.
      * intros q. rewrite elem_of_app. intros [Hq|Hq] Hne; [|by apply Hd, elem_of_app; right].
        destruct new as [|r0 [|]]; [by apply not_elem_of_nil in Hq| |cbn in Hl1; lia].
        apply list_elem_of_singleton in Hq as ->. apply list_elem_of_singleton in Hr as ->. done.
    + destruct (H12 r Hr) as [K1 K2]. split; [done|]. intros q. rewrite elem_of_app. intros [Hq|Hq] Hne; [|by apply K2].
      destruct (Hnew q Hq) as (_ & _ & _ & _ & Hd). assert (rdisj r q) as Hd'; [by apply Hd, elem_of_app; right|unfold rdisj in *; lia].
  - destruct Hpe. by split.
Qed.

(** The block follows the last one, *)
Lemma perm_next A perm chunks size : perm_ok A perm chunks -> 0 < size -> perm_malloc_current A + size <= perm_malloc_limit A ->
  perm_ok (set_perm_malloc (perm_malloc_current A + size) (perm_malloc_limit A) A) perm ((perm_malloc_current A, size) :: chunks).
Proof using Type.
  intros [P1 [P2 P2'] P3] Hs Hle. destruct P3 as [(E1 & E2 & _)|(r & Hr & H1 & H2 & H3)]; [lia|]. set (cur := perm_malloc_current A) in *.
  assert (forall w, w ∈ chunks -> rdisj (cur, size) w) as Hd.
  { intros w Hw. unfold rdisj. cbn. destruct (H3 w Hw); [right; lia|left; lia]. }
  split.
  - intros w [->|Hw]%elem_of_cons; [|by apply P1]. exists r. cbn. split; [done|lia].
  - split.
    + rewrite filter_cons_True by (cbn; lia). constructor; [|done]. intros [_ Hw]%list_elem_of_filter. specialize (H3 _ Hw). cbn in H3. lia.
    + intros v w [->|Hv]%elem_of_cons [->|Hw]%elem_of_cons Hne; [done|by apply Hd| |by apply P2']. specialize (Hd v Hv). unfold rdisj in *. lia.
  - right. exists r. cbn. split; [done|]. split; [lia|]. split; [lia|]. intros w [->|Hw]%elem_of_cons; [left; cbn; lia|]. destruct (H3 w Hw); [left|right]; lia.
Qed.

(** or is the first one of a new region. *)
Lemma perm_first A perm chunks size p n : perm_ok A perm chunks -> 0 < size -> size < n -> (forall r, r ∈ perm -> rdisj r (p, n)) ->
  perm_ok (set_perm_malloc (p + size) (p + n - 1) A) ((p, n) :: perm) ((p, size) :: chunks).
Proof using Type.
  intros [P1 [P2 P2'] P3] Hs Hlt Hd.
  assert (forall w, w ∈ chunks -> w.1 + w.2 <= p \/ p + n <= w.1) as Hw.
  { intros w Hw. destruct (P1 w Hw) as (r & Hr & H1 & H2 & H3). specialize (Hd r Hr). unfold rdisj in Hd. cbn in Hd. lia. }
  split.
  - intros w [->|Hi]%elem_of_cons; [exists (p, n); cbn; split; [by left|lia]|]. destruct (P1 w Hi) as (r & Hr & Hin). exists r. split; [by right|done].
  - split.
    + rewrite filter_cons_True by (cbn; lia). constructor; [|done]. intros [_ Hi]%list_elem_of_filter. specialize (Hw _ Hi). cbn in Hw. lia.
    + intros v w [->|Hv]%elem_of_cons [->|Hi]%elem_of_cons Hne; [done| | |by apply P2'].
      * specialize (Hw _ Hi). unfold rdisj. cbn. lia.
      * specialize (Hw _ Hv). unfold rdisj. cbn. lia.
  - right. exists (p, n). cbn. split; [by left|]. split; [lia|]. split; [lia|]. intros w [->|Hi]%elem_of_cons; [left; cbn; lia|]. specialize (Hw _ Hi). lia.
Qed.

(** ** The heap with another permanent block *)

Lemma perm_accounts hp A ag A' new w st cur lim total : accounts hp A ag -> A' = set_perm_malloc cur lim (set_stats st A) ->
  bytes_on_loan st = u64 (bytes_on_loan (stats A) + w.2) -> perm_bytes_on_loan st = u64 (perm_bytes_on_loan (stats A) + w.2) ->
  bytes_mmaped st = u64 (bytes_mmaped (stats A) + total) -> sumZ snd new = total -> accounts hp A' (with_perm new w ag).
Proof using Type.
  intros [C1 C2] -> E1 E2 E3 E4. split; cbn [stats set_perm_malloc set_stats].
  - rewrite E1, E2, C1. change (loaned _ (with_perm new w ag)) with (loaned (geo_of hp A) ag). unfold u64. rewrite Zplus_mod_idemp_l, Zplus_mod_idemp_r. f_equal. lia.
  - rewrite E3, C2. unfold mapped_bytes, ag_regions. cbn [with_perm ag_sbs ag_perm]. rewrite !sumZ_app, E4. unfold u64. rewrite Zplus_mod_idemp_l. f_equal. lia.
Qed.

Lemma perm_step n k k' (a : nat) s G A ag new w m' o' A' : heap_at cfg n k s G -> up s a = true -> vg_arena s !! a = Some A -> G !! a = Some ag ->
  arena_ok (hp_overhead_szB s) m' o' A' (with_perm new w ag) -> accounts (hp_overhead_szB s) A' (with_perm new w ag) -> bytes_ok m' ->
  geo_of (hp_overhead_szB s) A' = geo_of (hp_overhead_szB s) A -> deferred_reclaimed_sb A' = deferred_reclaimed_sb A -> sblocks_size A' = sblocks_size A ->
  (forall r a' h q, r ∈ new -> G !! a' = Some h -> q ∈ ag_regions h -> rdisj q r) ->
  (forall x, (forall r, r ∈ new -> ~ in_reg r x) -> m' x = hmem s x) ->
  (forall cl y l, 0 < l -> mapped (os s) cl y l -> mapped o' cl y l) -> core_space o' k' ->
  let s' := at_arena a A' m' o' s in let G' := <[a := with_perm new w ag]> G in
  heap_at cfg n k' s' G' /\ change nothing s G s' G' /\ perm_blk G' a w.
Proof using Type.
  intros [Hok Hin Hsm Hsp] Hup HA HG Hao' Hac' Hm' Eg Ed Es Hnew Hx Hmp Hsp' s' G'. destruct (ho_up _ _ _ Hok a A ag HA HG Hup) as [(Hao & Hty & _) _].
  assert (a < length G)%nat as HaG by (by eapply lookup_lt_Some). assert (a < length (vg_arena s))%nat as Ha by (by eapply lookup_lt_Some).
  assert (forall a' h q x, G !! a' = Some h -> q ∈ ag_regions h -> in_reg q x -> m' x = hmem s x) as Hreg.
  { intros a' h q x Hh Hq Hi. apply Hx. intros r Hr Hir. specialize (Hnew r a' h q Hr Hh Hq). unfold rdisj, in_reg in *. lia. }
  assert (heap_ok cfg s' G') as Hok'.
  { eapply heap_step; [done..| |by apply (f_equal g_client) in Eg|done| | |].
    - split; [done|]. split; [|done]. rewrite Ed. exact Hty.
    - intros r [Hr|Hr]%with_perm_regs; [right|by left]. intros q (a' & h & _ & Hh & Hq). specialize (Hnew r a' h q Hr Hh Hq). unfold rdisj in *. lia.
    - intros q x (a' & h & _ & Hh & Hq). by apply (Hreg a' h).
    - intros cl q _ Hq. by apply Hmp. }
  assert (forall a' b, used_blk G a' b <-> used_blk G' a' b) as Hub.
  { intros a' b. unfold used_blk, G'. destruct (decide (a' = a)) as [->|Hne]; [|by rewrite list_lookup_insert_ne].
    rewrite HG, list_lookup_insert_eq by done. split; intros (h & [= <-] & Hb); by eexists. }
  split; [split; [done|done| |done]|split; [split|]].
  - intros a' B h HB Hh. cbn [vg_arena at_arena s'] in HB. unfold G' in Hh. destruct (decide (a' = a)) as [->|Hna].
    + rewrite list_lookup_insert_eq in HB by done. rewrite list_lookup_insert_eq in Hh by done. injection HB as <-. injection Hh as <-.
      rewrite Es. by apply (Hsm a A ag).
    + rewrite list_lookup_insert_ne in HB by done. rewrite list_lookup_insert_ne in Hh by done. by apply (Hsm a').
  - done.
  - by apply (geo_kept_arena a s A).
  - done.
  - intros a' b x _ (h & Hh & Hb & _) Hi. cbn. destruct (arena_of cfg s G a' h Hok Hh (blk_regions _ _ Hb)) as (B & _ & _ & Hao2).
    destruct (blk_region _ _ _ _ _ Hao2 b Hb) as (q & Hq & Hqi). by eapply (Hreg a' h q x), Hqi.
  - intros a' v (h & Hh & Hv). unfold perm_blk, G'. destruct (decide (a' = a)) as [->|Hne].
    + exists (with_perm new w ag). rewrite list_lookup_insert_eq by done. split; [done|]. right. congruence.
    + exists h. by rewrite list_lookup_insert_ne.
  - intros a' v x Hv Hi. destruct (perm_region cfg s G a' v Hok Hv) as (h & q & Hh & _ & Hq & Hqi). by eapply (Hreg a' h q x), Hqi.
  - exists (with_perm new w ag). unfold G'. rewrite list_lookup_insert_eq by done. split; [done|by left].
Qed.

(** It is apart from all others. *)
Lemma perm_new_apart s G a ag new w a' v : heap_ok cfg s (<[a := with_perm new w ag]> G) -> G !! a = Some ag -> 0 < w.2 -> perm_blk G a' v -> rdisj v w.
Proof using Type.
  intros Hok HG Hw (h & Hh & Hv). set (G' := <[a := with_perm new w ag]> G) in *. assert (a < length G)%nat as Ha by (by eapply lookup_lt_Some).
  assert (G' !! a = Some (with_perm new w ag)) as HG' by (by apply list_lookup_insert_eq). assert (perm_blk G' a w) as Hpw by (exists (with_perm new w ag); split; [done|by left]).
  destruct (perm_bounds cfg s G' a w Hok Hpw) as (h1 & r1 & Hh1 & _ & Hr1 & B1). assert (h1 = with_perm new w ag) as -> by congruence.
  destruct (decide (a' = a)) as [->|Hne].
  - assert (h = ag) as -> by congruence. destruct (arena_of cfg s G' a _ Hok HG') as (A & _ & _ & Hao).
    { intros E. rewrite E in Hr1. by apply not_elem_of_nil in Hr1. }
    destruct (pe_apart _ _ _ (ao_chunks _ _ _ _ _ Hao)) as [Hn Hd]. cbn [with_perm ag_chunks] in Hn, Hd. apply Hd; [by right|by left|]. intros ->.
    rewrite filter_cons_True in Hn by done. apply NoDup_cons in Hn as [Hn _]. apply Hn. by apply list_elem_of_filter.
  - assert (perm_blk G' a' v) as Hpv by (exists h; unfold G'; by rewrite list_lookup_insert_ne).
    destruct (perm_bounds cfg s G' a' v Hok Hpv) as (h2 & r2 & Hh2 & _ & Hr2 & B2).
    assert (rdisj r2 r1) as Hd by (by eapply (ho_apart _ _ _ Hok a' a)). unfold rdisj in *. lia.
Qed.

Lemma perm_held_apart s G a w p a' b d : heap_ok cfg s G -> perm_blk G a w -> held_by s G p a' b d -> p + Z.of_nat (length d) <= w.1 \/ w.1 + w.2 <= p \/ w.2 = 0.
Proof using Type.
  intros Hok Hw Hh. destruct (decide (p + Z.of_nat (length d) <= w.1 \/ w.1 + w.2 <= p \/ w.2 = 0)) as [|Hn]; [done|]. exfalso.
  destruct (perm_bounds cfg s G a w Hok Hw) as (ag & _ & _ & _ & _ & _ & B & _). pose proof Hh as ((h & Hh' & Hb & _) & _).
  apply (perm_blk_byte cfg s G a a' w b h (Z.max p w.1) Hok Hw); [unfold in_reg; lia|done|done|]. eapply (held_in cfg s G p a' b d); [done|done|lia].
Qed.

(** ** A new region *)

Lemma quiet_change s G s' G' : heap_ok cfg s G -> heap_ok cfg s' G' -> heap_quiet s G s' G' -> change nothing s G s' G'.
Proof using Type.
  intros Hok Hok' Hq. destruct (ho_len _ _ _ Hok) as [_ L2]. destruct (ho_len _ _ _ Hok') as [_ L2']. destruct (hq_flags _ _ _ _ Hq) as (F1 & F2 & _).
  assert (forall a ag, G !! a = Some ag -> exists ag', G' !! a = Some ag' /\ filter is_used (ag_blks ag') = filter is_used (ag_blks ag) /\ ag_chunks ag' = ag_chunks ag) as Hsh.
  { intros a ag HG. destruct (lookup_len G' G a ag ltac:(congruence) HG) as [ag' HG'].
    destruct (shrunk_arena cfg s G s' G' a ag' Hok Hq HG') as (A & A1 & h & _ & _ & Hh & Hs). assert (h = ag) as -> by congruence.
    exists ag'. split; [done|]. split; [apply Hs|apply Hs]. }
  split.
  - intros a. unfold up. by rewrite F1, F2.
  - apply (geo_kept_quiet cfg s G s' G'); [done|done|]. intros a A _ HA. by exists A.
  - intros a b _. split.
    + intros (h & Hh & Hb). destruct (Hsh a h Hh) as (h' & Hh' & Eu & _). exists h'. split; [done|]. apply used_filter. rewrite Eu. by apply used_filter.
    + intros (h & Hh & Hb). destruct (lookup_len G G' a h ltac:(congruence) Hh) as [h0 Hh0]. destruct (Hsh a h0 Hh0) as (h' & Hh' & Eu & _).
      assert (h' = h) as -> by congruence. exists h0. split; [done|]. apply used_filter. rewrite <- Eu. by apply used_filter.
  - intros a b x _ (h & Hh & Hb & Hu) Hx. apply (hq_mem _ _ _ _ Hq). intros a' h' c Hh' Hc Hf Hi.
    destruct (blk_byte cfg s G a a' h h' b c x) as [_ ->]; try done. unfold is_free, is_used in *. congruence.
  - intros a w (h & Hh & Hw). destruct (Hsh a h Hh) as (h' & Hh' & _ & E). exists h'. by rewrite E.
  - intros a w x Hw Hx. apply (hq_mem _ _ _ _ Hq). intros a' h' c Hh' Hc _. by apply (perm_blk_byte cfg s G a a' w c h' x).
Qed.

Lemma quiet_heap_at n k s G s' G' : heap_at cfg n k s G -> heap_ok cfg s' G' -> heap_quiet s G s' G' -> heap_at cfg n k s' G'.
Proof using Hcfg.
  intros [Hok Hin Hsm Hsp] Hok' Hq. destruct (hq_flags _ _ _ _ Hq) as (F1 & F2 & _). split; [done|by rewrite F2|by apply (small_quiet cfg Hcfg n s G)|by apply Hq].
Qed.

(** ** [arena_perm_malloc] *)

(** The size, rounded up to the alignment *)
Definition perm_size (size e : Z) : Z := size + (2 ^ e - 1) - (size + (2 ^ e - 1)) mod 2 ^ e.

Lemma perm_size_bounds size e : 0 < size -> 0 <= e -> size <= perm_size size e < size + 2 ^ e /\ perm_size size e mod 2 ^ e = 0.
Proof using Type.
  intros Hs He. unfold perm_size. assert (0 < 2 ^ e) as Hp by (by apply Z.pow_pos_nonneg). set (y := size + (2 ^ e - 1)).
  pose proof (Z.div_mod y (2 ^ e) ltac:(lia)). pose proof (Z.mod_pos_bound y (2 ^ e) Hp). split; [unfold y in *; lia|].
  replace (y - y mod 2 ^ e) with (y / 2 ^ e * 2 ^ e) by lia. by apply Z.mod_mul; lia.
Qed.

(** The accounts, and the end of the block *)
Definition perm_rest (a : nat) (size : Z) : M MST Z :=
  on_stats a (fun s : Stats => set_perm_loan (u64 (perm_bytes_on_loan s + size)) (u64 (perm_blocks s + 1)) s) ;;;
  add_one_block_to_stats a size ;;;
  on_arena a (fun A => set_perm_malloc (u64 (perm_malloc_current A + size)) (perm_malloc_limit A) A) ;;;
  A <- the_arena a ;; ret (u64 (perm_malloc_current A - size)).

Lemma wp_perm_rest (a : nat) s A m o size Q : (a < length (vg_arena s))%nat -> 0 <= perm_malloc_current A -> 0 <= size -> perm_malloc_current A + size < 2 ^ 64 ->
  (forall st, bytes_on_loan st = u64 (bytes_on_loan (stats A) + size) -> bytes_mmaped st = bytes_mmaped (stats A) ->
     perm_bytes_on_loan st = u64 (perm_bytes_on_loan (stats A) + size) ->
     Q (perm_malloc_current A) (at_arena a (set_perm_malloc (perm_malloc_current A + size) (perm_malloc_limit A) (set_stats st A)) m o s)) ->
  wp (perm_rest a size) (at_arena a A m o s) Q.
Proof using Type.
  intros Ha Hc Hs Hlt HQ. apply wp_bind, wp_on_stats; [done|]. apply wp_bind, wp_add_one_block; [done|]. intros st E1 E2 E3.
  apply wp_bind, wp_on_arena; [done|]. apply wp_bind, wp_the_arena; [done|]. apply wp_ret. cbn [perm_malloc_current perm_malloc_limit set_stats set_perm_malloc].
  rewrite (u64_small (perm_malloc_current A + size)) by lia. rewrite Z.add_simpl_r, u64_small by lia. by apply HQ.
Qed.

(** In a new region *)
Lemma wp_perm_new (a : nat) n k k' s G A ag A2 m2 o2 p us total size Q : heap_at cfg n k' s G -> up s a = true -> vg_arena s !! a = Some A -> G !! a = Some ag ->
  new_sb A (hmem s) (os s) A2 m2 o2 p total us -> 0 < size -> size + 32 <= total -> core_space o2 k ->
  (forall s' G', heap_at cfg n k s' G' -> change nothing s G s' G' -> perm_blk G' a (p, size) -> 0 < p ->
     (forall a' w, perm_blk G a' w -> rdisj w (p, size)) -> Q p s') ->
  wp (if p =? 0 then fail else n <- ld p ;; on_arena a (set_perm_malloc p (payload_bytes p + (n - 1)))) (at_arena a A2 m2 o2 s)
    (fun _ s' => wp (perm_rest a size) s' Q).
Proof using Hcfg.
  intros Hat Hup HA HG [M1 M2 [M3 _] M4 (st & -> & M5 & M6 & M7) _] Hsz Htot Hsp HQ. pose proof (ha_ok _ _ _ _ _ Hat) as Hok.
  destruct (mmap_ok (clientmem A) total (os s) p o2 ltac:(lia) M1) as (P1 & _ & P3 & P4 & P5). assert (p + total < 2 ^ 63) as P6 by (apply mapped_below in P4; lia).
  destruct (ho_up _ _ _ Hok a A ag HA HG Hup) as [(Hao & _ & Hac) _]. assert (a < length (vg_arena s))%nat as Hal by (by eapply lookup_lt_Some).
  assert (forall r a' h q, r ∈ [(p, total)] -> G !! a' = Some h -> q ∈ ag_regions h -> rdisj q r) as Hnew.
  { intros r a' h q ->%list_elem_of_singleton Hh Hq. destruct (arena_of cfg s G a' h Hok Hh) as (B & _ & _ & Hob); [by intros E; rewrite E in Hq; apply not_elem_of_nil in Hq|].
    destruct (ao_mapped _ _ _ _ _ Hob q Hq) as (R1 & R2 & R3 & R4). destruct (P5 _ _ _ R2 R4) as [_ Hd]. unfold rdisj. cbn. lia. }
  assert (forall x, (forall r, r ∈ [(p, total)] -> ~ in_reg r x) -> m2 x = hmem s x) as Hx.
  { intros x Hn. apply M4. intros Hx. apply (Hn (p, total)); [by left|]. unfold in_reg. cbn. lia. }
  rewrite (proj2 (Z.eqb_neq _ _)) by lia. apply wp_bind, wp_ld. rewrite M3. apply wp_on_arena; [done|]. unfold payload_bytes.
  replace (p + 32 + (total - 32 - 1)) with (p + total - 1) by lia. set (A4 := set_perm_malloc _ _ _).
  apply (wp_perm_rest a s A4 m2 o2 size); [done|cbn; lia|lia|cbn; lia|]. intros st' E1 E2 E3. cbn [A4 perm_malloc_current perm_malloc_limit set_perm_malloc].
  match goal with |- Q p (at_arena a ?x _ _ _) => set (A5 := x) end. change (stats A4) with st in E1, E2, E3.
  assert (A5 = set_perm_malloc (p + size) (p + total - 1) (set_stats st' A)) as E5 by done.
  destruct (perm_step n k' k a s G A ag [(p, total)] (p, size) m2 o2 A5 Hat Hup HA HG) as (Hat' & Hch & Hpb); [| |done|done|done|done|done|done| |done|].
  - rewrite E5. eapply (arena_perm_ok _ (hmem s) (os s)); [done| |done| | |].
    + intros r Hr. pose proof (fun q => Hnew r a ag q Hr HG) as Hd. apply list_elem_of_singleton in Hr as ->. cbn. split_and!; [lia|lia|lia|done|done].
    + intros r x Hr Hi. apply Hx. intros q Hq Hiq. specialize (Hnew q a ag r Hq HG Hr). unfold rdisj, in_reg in *. lia.
    + intros r Hr. apply P5. by apply (ao_mapped _ _ _ _ _ Hao).
    + apply perm_first; [apply Hao|done|lia|]. intros r Hr. apply (Hnew (p, total) a ag r); [by left|done|apply elem_of_app; by right].
  - eapply (perm_accounts _ A ag A5 [(p, total)] (p, size) st' _ _ total Hac E5); cbn [snd]; [by rewrite E1, M6|by rewrite E3, M7|by rewrite E2, M5|unfold sumZ; cbn; lia].
  - intros cl y l Hl Hm. by apply P5.
  - apply (HQ _ _ Hat' Hch Hpb); [done|]. intros a' w Hw. by apply (perm_new_apart _ _ _ _ _ _ a' w (ha_ok _ _ _ _ _ Hat') HG).
Qed.

Lemma held_perm (a : nat) e size n k s G Q : heap_at cfg n (malloc_cost n (size + 2 ^ e) + k) s G -> (a < VG_N_ARENAS)%nat -> a <> VG_AR_CLIENT ->
  0 < size -> 0 <= e -> size + 2 ^ e < 2 ^ 62 -> 0 <= k -> 0 <= n ->
  (forall p l s' G', heap_at cfg n k s' G' -> change nothing s G s' G' -> perm_blk G' a (p, l) -> 0 < p -> size <= l < size + 2 ^ e ->
     (forall a' w, perm_blk G a' w -> rdisj w (p, l)) -> Q p s') ->
  wp (arena_perm_malloc cfg a size (2 ^ e)) s Q.
Proof using Hcfg.
  intros Hat Ha Hcl Hsz He Hlt Hk Hn HQ. unfold arena_perm_malloc. assert (0 < 2 ^ e) as Hp by (by apply Z.pow_pos_nonneg).
  destruct (perm_size_bounds size e Hsz He) as [Hl1 _].
  apply wp_bind. eapply (held_ensure cfg Hcfg a n _ s G); [done..|]. intros s1 Hat1 Hc1 Hup. pose proof (ha_ok _ _ _ _ _ Hat1) as Hok1.
  cbn zeta. rewrite (u64_small (size + _)) by lia. rewrite land_lnot by done. fold (perm_size size e). set (l := perm_size size e) in *.
  destruct (ho_len _ _ _ Hok1) as [N1 N2]. destruct (lookup_lt_is_Some_2 (vg_arena s1) a) as [A HA]; [lia|].
  destruct (lookup_lt_is_Some_2 G a) as [ag HG]; [lia|]. destruct (ho_up _ _ _ Hok1 a A ag HA HG Hup) as [(Hao & Hty & Hac) Hacl].
  assert (a < length (vg_arena s1))%nat as Hal by lia. pose proof (ao_chunks _ _ _ _ _ Hao) as Hpe.
  rewrite (at_arena_id a A s1 HA). apply wp_bind, wp_the_arena; [done|].
  assert (0 <= perm_malloc_current A /\ perm_malloc_limit A < 2 ^ 63 /\ perm_malloc_current A <= perm_malloc_limit A) as (B1 & B2 & B3).
  { destruct (pe_rest _ _ _ Hpe) as [(E1 & E2 & _)|(r & Hr & H1 & H2 & _)]; [lia|].
    destruct (ao_mapped _ _ _ _ _ Hao r) as (R1 & R2 & R3 & R4); [apply elem_of_app; by right|]. apply mapped_below in R4; [lia|done]. }
  rewrite u64_small by lia. destruct (Z.ltb_spec (perm_malloc_limit A) (perm_malloc_current A + l)) as [Hno|Hroom].
  - rewrite <- (at_arena_id a A s1 HA). apply wp_bind, wp_bind. pose proof (ao_min _ _ _ _ _ Hao) as Hmin.
    destruct (sb_size_bounds (min_sblock_szB A) l) as (Hb1 & _); [lia|lia|done|].
    eapply (wp_newSuperblock cfg a s1 G A ag l k); [done..|lia|lia|done| | |].
    + right. eapply space_less; [|apply Hat1]. unfold malloc_cost, array_room. lia.
    + intros s2 G2 A2 m2 o2 p us Hok2 Hq HA2 A3 Hns. pose proof (quiet_heap_at n _ s1 G s2 G2 Hat1 Hok2 Hq) as Hat2. pose proof (quiet_change s1 G s2 G2 Hok1 Hok2 Hq) as Hc2.
      destruct (lookup_len G2 G a ag) as [ag2 HG2]; [by destruct (hq_len _ _ _ _ Hq)|done|].
      eapply (wp_perm_new a n k _ s2 G2 A2 ag2 A3 m2 o2 p us _ l); [exact Hat2|by apply Hc2|done|done|exact Hns|lia|lia| |].
      * eapply mmap_space; [|exact Hk| |apply Hns]; [lia|]. eapply space_less; [|apply Hat2]. unfold malloc_cost, array_room. lia.
      * intros s' G' Hat' Hc' Hpb Hp0 Hd. apply (HQ p l s' G' Hat'); [|done|done|lia|].
        -- eapply change_mono; [|eapply change_trans; [exact Hc1|eapply change_trans; [exact Hc2|exact Hc']]]. unfold nothing. tauto.
        -- intros a' w Hw. by apply (Hd a' w), Hc2, Hc1.
    + intros Ec. rewrite Hacl in Ec. by apply Nat.eqb_eq in Ec.
  - apply wp_bind, wp_ret. apply (wp_perm_rest a s1 A); [done|done|lia|lia|]. intros st E1 E2 E3.
    assert (0 < perm_malloc_current A) as Hcur.
    { destruct (pe_rest _ _ _ Hpe) as [(E4 & E5 & _)|(r & Hr & H1 & _)]; [lia|]. destruct (ao_mapped _ _ _ _ _ Hao r) as (R1 & _); [apply elem_of_app; by right|lia]. }
    destruct (perm_step n _ k a s1 G A ag [] (perm_malloc_current A, l) (hmem s1) (os s1)
      (set_perm_malloc (perm_malloc_current A + l) (perm_malloc_limit A) (set_stats st A)) Hat1 Hup HA HG) as (Hat' & Hch & Hpb);
      [| |apply Hok1|done|done|done| |done|done|eapply space_less; [|apply Hat1]; unfold malloc_cost, array_room; lia|].
    + eapply (arena_perm_ok _ (hmem s1) (os s1)); [done|by intros r ?%not_elem_of_nil|cbn; lia|done|done|]. apply perm_next; [done|lia|lia].
    + eapply (perm_accounts _ A ag _ [] (perm_malloc_current A, l) st _ _ 0 Hac); [done|done|done|by rewrite E2, Z.add_0_r, (ac_mapped _ _ _ Hac); unfold u64; rewrite Z.mod_mod|done].
    + by intros r a' h q ?%not_elem_of_nil.
    + apply (HQ (perm_malloc_current A) l _ _ Hat'); [|done|done|lia|].
      * eapply change_mono; [|eapply change_trans; [exact Hc1|exact Hch]]. unfold nothing. tauto.
      * intros a' w Hw. apply (perm_new_apart _ _ _ _ _ _ a' w (ha_ok _ _ _ _ _ Hat') HG); [cbn; lia|done].
Qed.

(** ** Writing to a permanent block *)

Lemma perm_perm_apart s G a a' v w : heap_ok cfg s G -> perm_blk G a v -> perm_blk G a' w -> v <> w -> rdisj v w.
Proof using Type.
  intros Hok Hv Hw Hne. destruct (perm_bounds cfg s G a v Hok Hv) as (g1 & r1 & Hg1 & _ & Hr1 & B1). destruct (perm_bounds cfg s G a' w Hok Hw) as (g2 & r2 & Hg2 & _ & Hr2 & B2).
  destruct (decide (a' = a)) as [->|Ha].
  - assert (g2 = g1) as -> by congruence. destruct (arena_of cfg s G a _ Hok Hg1) as (A & _ & _ & Hao); [by intros E; rewrite E in Hr1; apply not_elem_of_nil in Hr1|].
    destruct Hv as (h1 & Hh1 & Hv). destruct Hw as (h2 & Hh2 & Hw). apply (pe_apart _ _ _ (ao_chunks _ _ _ _ _ Hao)); congruence.
  - assert (rdisj r1 r2) as Hd by (by eapply (ho_apart _ _ _ Hok a a'); [apply not_eq_sym|..]). unfold rdisj in *. lia.
Qed.

Lemma held_mem s G m' p a b d : heap_ok cfg s G -> (forall a' ag b' x, G !! a' = Some ag -> b' ∈ ag_blks ag -> in_blk b' x -> m' x = hmem s x) ->
  held_by s G p a b d <-> held_by (set_hmem m' s) G p a b d.
Proof using Type.
  intros Hok Hx. assert (forall A n, used_blk G a b -> vg_arena s !! a = Some A -> n = Z.to_nat (bsz b - g_ovh (geo_of (hp_overhead_szB s) A)) ->
    bytes_at (hmem s) (baddr b + g_lo (geo_of (hp_overhead_szB s) A)) n = bytes_at m' (baddr b + g_lo (geo_of (hp_overhead_szB s) A)) n) as Hb.
  { intros A n Hu HA ->. apply bytes_at_ext. intros x Hi. symmetry. pose proof Hu as (ag & HG & Hb & _). apply (Hx a ag b x HG Hb).
    eapply (held_in cfg s G _ a b); [done|by split; [exact Hu|exists A]|]. rewrite bytes_at_length. lia. }
  split; intros (Hu & A & HA & -> & ->); (split; [done|]); exists A; (split; [done|]); (split; [done|]); cbn [hmem set_hmem hp_overhead_szB]; [|symmetry]; by apply Hb.
Qed.

Lemma perm_write n k s G a w m' : heap_at cfg n k s G -> perm_blk G a w -> bytes_ok m' -> (forall x, ~ in_reg w x -> m' x = hmem s x) ->
  heap_at cfg n k (set_hmem m' s) G /\ (forall p a' b d, held_by s G p a' b d <-> held_by (set_hmem m' s) G p a' b d).
Proof using Type.
  intros [Hok Hin Hsm Hsp] Hw Hm' Hx.
  assert (forall a' ag b' x, G !! a' = Some ag -> b' ∈ ag_blks ag -> in_blk b' x -> m' x = hmem s x) as Hb.
  { intros a' ag b' x HG Hb Hi. apply Hx. intros Hr. by apply (perm_blk_byte cfg s G a a' w b' ag x). }
  split; [|intros p a' b d; by apply held_mem]. split; try done. destruct (perm_region cfg s G a w Hok Hw) as (ag & r & HG & Hr & Hrr & Hri).
  destruct (arena_of cfg s G a ag Hok HG) as (A & HA & Hup & _); [by intros E; rewrite E in Hrr; apply not_elem_of_nil in Hrr|].
  destruct (ho_up _ _ _ Hok a A ag HA HG Hup) as [(Hao & Hty & Hac) _].
  assert (set_hmem m' s = at_arena a A m' (os s) s) as -> by (unfold set_hmem, at_arena; by rewrite list_insert_id).
  rewrite <- (list_insert_id G a ag HG). eapply heap_step; try done; [split; [|done]|by intros q Hq; left|].
  - eapply arena_ok_blocks; [done| |done]. intros sb x Hs Hi. apply Hx. intros Hwx. specialize (Hri x Hwx).
    destruct (ao_perm _ _ _ _ _ Hao r Hr) as [Hd _]. specialize (Hd sb Hs). unfold rdisj, in_reg in *. lia.
  - intros q x Hq Hi. apply Hx. intros Hwx. by apply (other_apart cfg s G a ag r q x Hok HG Hrr (Hri x Hwx) Hq).
Qed.
End Perm.
