(* ===== verification/MallocUse.v ===== *)
(** A user of the heap, who allocates, writes, reallocates, shrinks and frees
    blocks, and takes permanent ones: what it sees are maps from addresses to
    blocks of bytes. *)
From stdpp Require Import base gmap list sets fin_maps.
From Stdlib Require Import ZArith Lia.
From S2P Require Import Prelude Mem LibcMem LibcMemProofs XArray XArrayProofs Malloc MallocApi MallocBlocks MallocLists MallocInv MallocSb MallocInit MallocRequest MallocDone MallocFree MallocClient MallocAligned MallocShrink MallocPerm.
Open Scope prog_scope.
Open Scope Z_scope.

(** What a user does, on the arena [a] *)
Inductive heap_op :=
  | HMalloc (a : nat) (n : Z)
  | HCalloc (a : nat) (nmemb size : Z)
  | HMemalign (a : nat) (e n : Z)
  | HRealloc (a : nat) (p n : Z)
  | HShrink (a : nat) (p n : Z)
  | HFree (a : nat) (p : Z)
  | HSize (a : nat) (p : Z)
  | HWrite (p off v : Z)
  | HPerm (a : nat) (e n : Z)
  | HPermWrite (p off v : Z).

Section Use.
Context {OS : Type} `{AddressSpaceLaws OS} (cfg : heap_config) (Hcfg : cfg_ok cfg).
Abbreviation MST := (mst (OS := OS)).
Abbreviation heap_at := (heap_at cfg).
Implicit Types (s : MST) (G : list aghost) (X : gmap Z (nat * list Z)) (P : gmap Z (list Z)) (d : list Z) (p q n k : Z).

(** [cc] is the cost centre of the allocations. *)
Definition run_heap_op (cc : Z) (op : heap_op) : M MST Z :=
  match op with
  | HMalloc a n => arena_malloc cfg a cc n
  | HCalloc a nmemb size => arena_calloc cfg a cc nmemb size
  | HMemalign a e n => arena_memalign cfg a cc (2 ^ e) n
  | HRealloc a p n => arena_realloc cfg a cc p n
  | HShrink a p n => arena_realloc_shrink cfg a p n ;;; ret 0
  | HFree a p => arena_free cfg a p ;;; ret 0
  | HSize a p => arena_malloc_usable_size a p
  | HWrite p off v | HPermWrite p off v => sdb (p + off) v ;;; ret 0
  | HPerm a e n => arena_perm_malloc cfg a n (2 ^ e)
  end.

(** New memory is apart from all blocks, *)
Definition apart X P (p : Z) d : Prop := 0 < p /\
  (forall q a c, X !! q = Some (a, c) -> p + Z.of_nat (length d) <= q \/ q + Z.of_nat (length c) <= p) /\
  (forall q c, P !! q = Some c -> p + Z.of_nat (length d) <= q \/ q + Z.of_nat (length c) <= p).

(** and a new block that is not permanent is aligned. *)
Definition fresh X P (p : Z) d : Prop := apart X P p d /\ p mod 16 = 0 /\ X !! p = None.

(** What the operations do to the user's blocks [X] and to its permanent
    blocks [P]: only the client's arena may be out of memory. *)
Inductive use_step X P : heap_op -> Z -> gmap Z (nat * list Z) -> gmap Z (list Z) -> Prop :=
  | use_malloc a n p d : fresh X P p d -> n <= Z.of_nat (length d) -> use_step X P (HMalloc a n) p (<[p := (a, d)]> X) P
  | use_malloc_null n : use_step X P (HMalloc VG_AR_CLIENT n) 0 X P
  | use_calloc a nmemb size p d : fresh X P p d -> nmemb * size <= Z.of_nat (length d) ->
      take (Z.to_nat (nmemb * size)) d = replicate (Z.to_nat (nmemb * size)) 0 -> use_step X P (HCalloc a nmemb size) p (<[p := (a, d)]> X) P
  | use_calloc_null nmemb size : use_step X P (HCalloc VG_AR_CLIENT nmemb size) 0 X P
  | use_memalign a e n p d : fresh X P p d -> n <= Z.of_nat (length d) -> p mod 2 ^ e = 0 -> use_step X P (HMemalign a e n) p (<[p := (a, d)]> X) P
  | use_memalign_null e n : use_step X P (HMemalign VG_AR_CLIENT e n) 0 X P
  | use_realloc_same a p n d : X !! p = Some (a, d) -> n <= Z.of_nat (length d) -> use_step X P (HRealloc a p n) p X P
  | use_realloc a p n d p' d' : X !! p = Some (a, d) -> Z.of_nat (length d) < n -> fresh (delete p X) P p' d' -> n <= Z.of_nat (length d') ->
      take (length d) d' = d -> use_step X P (HRealloc a p n) p' (<[p' := (a, d')]> (delete p X)) P
  | use_shrink a p n d (k : nat) : X !! p = Some (a, d) -> n <= Z.of_nat k -> (k <= length d)%nat -> Z.of_nat k < n + 2 ^ 19 ->
      use_step X P (HShrink a p n) 0 (<[p := (a, take k d)]> X) P
  | use_free a p : use_step X P (HFree a p) 0 (delete p X) P
  | use_size a p d : X !! p = Some (a, d) -> use_step X P (HSize a p) (Z.of_nat (length d)) X P
  | use_write p off v a d : X !! p = Some (a, d) -> use_step X P (HWrite p off v) 0 (<[p := (a, <[Z.to_nat off := v]> d)]> X) P
  | use_perm a e n p d : apart X P p d -> n <= Z.of_nat (length d) < n + 2 ^ e -> use_step X P (HPerm a e n) p X (<[p := d]> P)
  | use_perm_write p off v d : P !! p = Some d -> use_step X P (HPermWrite p off v) 0 X (<[p := <[Z.to_nat off := v]> d]> P).

(** What it may ask for: blocks it has, and sizes up to [R] *)
Definition heap_op_ok (R : Z) X P (op : heap_op) : Prop :=
  match op with
  | HMalloc a n => (a < VG_N_ARENAS)%nat /\ 0 <= n <= R
  | HCalloc a nmemb size => (a < VG_N_ARENAS)%nat /\ 0 < nmemb /\ 0 < size /\ nmemb * size <= R
  | HMemalign a e n => (a < VG_N_ARENAS)%nat /\ 4 <= e <= 24 /\ 0 <= n <= R
  | HRealloc a p n => a <> VG_AR_CLIENT /\ (exists d, X !! p = Some (a, d)) /\ 0 < n <= R
  | HShrink a p n => exists d, X !! p = Some (a, d) /\ 0 <= n <= Z.of_nat (length d)
  | HFree a p | HSize a p => exists d, X !! p = Some (a, d)
  | HWrite p off v => 0 <= v < 256 /\ exists a d, X !! p = Some (a, d) /\ 0 <= off < Z.of_nat (length d)
  | HPerm a e n => (a < VG_N_ARENAS)%nat /\ a <> VG_AR_CLIENT /\ 0 <= e <= 24 /\ 0 < n <= R /\ n <= 2 ^ 61
  | HPermWrite p off v => 0 <= v < 256 /\ exists d, P !! p = Some d /\ 0 <= off < Z.of_nat (length d)
  end.

(** The user's blocks are those in use, *)
Definition blocks_are s G X : Prop := forall p a d, X !! p = Some (a, d) <-> held s G p a d.

(** and its permanent blocks are some of the heap's. *)
Definition perms_are s G P : Prop := forall p d, P !! p = Some d ->
  (0 < length d)%nat /\ (exists a, perm_blk G a (p, Z.of_nat (length d))) /\ d = bytes_at (hmem s) p (length d).

(** What one operation may take of the address space *)
Definition op_cost (R n : Z) : Z := malloc_cost n (R + 2 ^ 24 + 2 ^ 19).

Record user_has (R : Z) (i : nat) n s X P : Prop := {
  uh_heap : exists G, heap_at n (Z.of_nat i * op_cost R (n + Z.of_nat i)) s G /\ blocks_are s G X /\ perms_are s G P;
  uh_count : 0 <= n
}.

(** ** The map follows the heap *)

(** The blocks after a change: those that [E] leaves alone, and those of [E]
    that are there *)
Lemma blocks_change E s G s' G' X' : heap_ok cfg s G -> heap_ok cfg s' G' -> change E s G s' G' -> (forall a b, E a b \/ ~ E a b) ->
  (forall p a d, X' !! p = Some (a, d) <-> (exists b, ~ E a b /\ held_by s G p a b d) \/ (exists b, E a b /\ held_by s' G' p a b d)) ->
  blocks_are s' G' X'.
Proof using Type.
  intros Hok Hok' Hc Hdec HX p a d. rewrite HX. split.
  - intros [(b & HE & Hh)|(b & HE & Hh)]; exists b; [by apply (held_change cfg E s G s' G')|done].
  - intros (b & Hh). destruct (Hdec a b) as [HE|HE]; [right; by exists b|left]. exists b. split; [done|]. by apply (held_change cfg E s G s' G').
Qed.

Lemma only_dec a b a' b' : only a b a' b' \/ ~ only a b a' b'.
Proof using Type. unfold only. destruct (decide (a' = a)), (decide (b' = b)); tauto. Qed.

Lemma held_fun s G p a a' b b' d d' : heap_ok cfg s G -> held_by s G p a b d -> held_by s G p a' b' d' -> a = a' /\ b = b' /\ d = d'.
Proof using Type. intros Hok Hh Hh'. destruct (held_apart cfg s G p p a a' b b' d d' Hok Hh Hh') as [(_ & ? & ? & ?)|[? _]]; done. Qed.

Lemma blocks_same s G s' G' X : heap_ok cfg s G -> heap_ok cfg s' G' -> change nothing s G s' G' -> blocks_are s G X -> blocks_are s' G' X.
Proof using Type.
  intros Hok Hok' Hc HX. apply (blocks_change nothing s G s' G'); [done..|by right; intros []|].
  intros p a d. rewrite (HX p a d). split; [intros (b & Hh); left; exists b; by split; [intros []|]|].
  intros [(b & _ & Hh)|(b & [] & _)]. by exists b.
Qed.

(** Permanent blocks stay. *)
Lemma perms_change E s G s' G' P : change E s G s' G' -> perms_are s G P -> perms_are s' G' P.
Proof using Type.
  intros Hc HP p d Hp. destruct (HP p d Hp) as (Hl & (a & Ha) & Ed). split; [done|]. split; [exists a; by apply Hc|].
  rewrite Ed at 1. apply bytes_at_ext. intros x Hx. symmetry. apply (ch_pmem _ _ _ _ _ Hc a _ x Ha). unfold in_reg. cbn. lia.
Qed.

Lemma perms_apart s G P p a b d q c : heap_ok cfg s G -> perms_are s G P -> held_by s G p a b d -> P !! q = Some c ->
  p + Z.of_nat (length d) <= q \/ q + Z.of_nat (length c) <= p.
Proof using Type.
  intros Hok HP Hh Hq. destruct (HP q c Hq) as (Hl & (a' & Ha) & _). destruct (perm_held_apart cfg s G a' _ p a b d Hok Ha Hh) as [?|[?|E]]; cbn in *; lia.
Qed.

(** A block is new: it is fresh, *)
Lemma blocks_fresh s G s' G' X P p a b d : heap_ok cfg s G -> heap_ok cfg s' G' -> change (only a b) s G s' G' -> ~ used_blk G a b ->
  held_by s' G' p a b d -> blocks_are s G X -> perms_are s' G' P -> fresh X P p d.
Proof using Type.
  intros Hok Hok' Hc Hn Hh HX HP.
  assert (forall q a' c, X !! q = Some (a', c) -> p <> q /\ (p + Z.of_nat (length d) < q \/ q + Z.of_nat (length c) < p)) as Hap.
  { intros q a' c Hq. apply HX in Hq as (b' & Hh'). assert (~ only a b a' b') as HE by (intros [-> ->]; by apply Hn, Hh').
    assert (held_by s' G' q a' b' c) as Hh2 by (by apply (held_change cfg (only a b) s G s' G')).
    destruct (held_apart cfg s' G' p q a a' b b' d c Hok' Hh Hh2) as [(_ & -> & -> & _)|(? & _ & ?)]; [by destruct HE|done]. }
  split; [split; [by pose proof (held_pos cfg _ _ _ _ _ _ Hok' Hh); lia|split]|split].
  - intros q a' c Hq. destruct (Hap q a' c Hq) as [_ ?]. lia.
  - intros q c. by eapply perms_apart.
  - by destruct (held_facts cfg _ _ _ _ _ _ Hok' Hh) as (? & ? & _ & _ & _ & _ & _ & _ & _ & _ & _ & _ & _ & ?).
  - destruct (X !! p) as [[a' c]|] eqn:E; [|done]. by destruct (Hap p a' c E).
Qed.

(** and in the map. *)
Lemma blocks_add s G s' G' X p a b d : heap_ok cfg s G -> heap_ok cfg s' G' -> change (only a b) s G s' G' -> ~ used_blk G a b ->
  held_by s' G' p a b d -> blocks_are s G X -> blocks_are s' G' (<[p := (a, d)]> X).
Proof using Type.
  intros Hok Hok' Hc Hn Hh HX. apply (blocks_change (only a b) s G s' G'); [done..|by intros; apply only_dec|].
  intros q a' c. rewrite lookup_insert_Some. split.
  - intros [[<- [= <- <-]]|[Hne Hq]]; [right; by exists b|left]. apply HX in Hq as (b' & Hh'). exists b'. split; [|done].
    intros [-> ->]. by apply Hn, Hh'.
  - intros [(b' & HE & Hh')|(b' & [-> ->] & Hh')].
    + right. split; [|apply HX; by exists b']. intros <-. assert (held_by s' G' p a' b' c) as Hh2 by (by apply (held_change cfg (only a b) s G s' G')).
      destruct (held_fun s' G' p a a' b b' d c Hok' Hh Hh2) as (-> & -> & _). by destruct HE.
    + left. pose proof Hh as (_ & A & HA & -> & ->). destruct Hh' as (_ & A' & HA' & -> & ->). assert (A' = A) as -> by congruence. done.
Qed.

Lemma blocks_del s G s' G' X p a b d : heap_ok cfg s G -> heap_ok cfg s' G' -> change (only a b) s G s' G' -> ~ used_blk G' a b ->
  held_by s G p a b d -> blocks_are s G X -> blocks_are s' G' (delete p X).
Proof using Type.
  intros Hok Hok' Hc Hn Hh HX. apply (blocks_change (only a b) s G s' G'); [done..|by intros; apply only_dec|].
  intros q a' c. rewrite lookup_delete_Some. split.
  - intros [Hne Hq]. left. apply HX in Hq as (b' & Hh'). exists b'. split; [|done]. intros [-> ->]. apply Hne.
    destruct Hh as (_ & A & HA & -> & _). destruct Hh' as (_ & A' & HA' & -> & _). assert (A' = A) as -> by congruence. done.
  - intros [(b' & HE & Hh')|(b' & [-> ->] & Hh')]; [|by destruct Hn; apply Hh']. split; [|apply HX; by exists b'].
    intros <-. destruct (held_fun s G p a a' b b' d c Hok Hh Hh') as (-> & -> & _). by destruct HE.
Qed.

(** The bytes of a block are written. *)
Lemma blocks_write s G s' X p a b d d' : heap_ok cfg s G -> heap_ok cfg s' G -> change (only a b) s G s' G ->
  held_by s G p a b d -> held_by s' G p a b d' -> blocks_are s G X -> blocks_are s' G (<[p := (a, d')]> X).
Proof using Type.
  intros Hok Hok' Hc Hh Hh' HX. apply (blocks_change (only a b) s G s' G); [done..|by intros; apply only_dec|].
  intros q a' c. rewrite lookup_insert_Some. split.
  - intros [[<- [= <- <-]]|[Hne Hq]]; [right; by exists b|left]. apply HX in Hq as (b' & Hh2). exists b'. split; [|done].
    intros [-> ->]. apply Hne. destruct Hh as (_ & A & HA & -> & _). destruct Hh2 as (_ & A' & HA' & -> & _). assert (A' = A) as -> by congruence. done.
  - intros [(b' & HE & Hh2)|(b' & [-> ->] & Hh2)].
    + right. split; [|apply HX; by exists b']. intros <-. destruct (held_fun s G p a a' b b' d c Hok Hh Hh2) as (-> & -> & _). by destruct HE.
    + left. pose proof Hh' as (_ & A & HA & -> & ->). destruct Hh2 as (_ & A' & HA' & -> & ->). assert (A' = A) as -> by congruence. done.
Qed.

(** A block is replaced. *)
Lemma blocks_move s G s' G' X p p' a b b' d d' : heap_ok cfg s G -> heap_ok cfg s' G' ->
  change (fun a0 b0 => only a b a0 b0 \/ only a b' a0 b0) s G s' G' -> ~ used_blk G a b' -> ~ used_blk G' a b -> held_by s G p a b d ->
  held_by s' G' p' a b' d' -> blocks_are s G X -> (delete p X) !! p' = None -> blocks_are s' G' (<[p' := (a, d')]> (delete p X)).
Proof using Type.
  intros Hok Hok' Hc Hn Hn' Hh Hh' HX Hf. eapply blocks_change; [exact Hok|done|exact Hc| |].
  { intros a0 b0. pose proof (only_dec a b a0 b0). pose proof (only_dec a b' a0 b0). tauto. }
  intros q a' c. rewrite lookup_insert_Some, lookup_delete_Some. split.
  - intros [[<- [= <- <-]]|[Hne [Hne' Hq]]]; [right; exists b'; split; [by right|done]|left]. apply HX in Hq as (b2 & Hh2). exists b2. split; [|done].
    intros [[-> ->]|[-> ->]]; [|by apply Hn, Hh2]. apply Hne'. destruct Hh as (_ & A & HA & -> & _). destruct Hh2 as (_ & A' & HA' & -> & _).
    assert (A' = A) as -> by congruence. done.
  - intros [(b2 & HE & Hh2)|(b2 & [[-> ->]|[-> ->]] & Hh2)].
    + assert (p <> q) as Hpq.
      { intros <-. destruct (held_fun s G p a a' b b2 d c Hok Hh Hh2) as (-> & -> & _). apply HE. by left. }
      assert (X !! q = Some (a', c)) as Hq by (apply HX; by exists b2). right. split; [|done]. intros <-.
      rewrite lookup_delete_ne in Hf by done. congruence.
    + by destruct Hn'; apply Hh2.
    + left. pose proof Hh' as (_ & A & HA & -> & ->). destruct Hh2 as (_ & A' & HA' & -> & ->). assert (A' = A) as -> by congruence. done.
Qed.

Lemma fresh_move s G s' G' X P p p' a b b' d d' : heap_ok cfg s G -> heap_ok cfg s' G' ->
  change (fun a0 b0 => only a b a0 b0 \/ only a b' a0 b0) s G s' G' -> ~ used_blk G a b' -> held_by s G p a b d ->
  held_by s' G' p' a b' d' -> blocks_are s G X -> perms_are s' G' P -> fresh (delete p X) P p' d'.
Proof using Type.
  intros Hok Hok' Hc Hn Hh Hh' HX HP.
  assert (forall q a' c, (delete p X) !! q = Some (a', c) -> p' <> q /\ (p' + Z.of_nat (length d') < q \/ q + Z.of_nat (length c) < p')) as Hap.
  { intros q a' c [Hne Hq]%lookup_delete_Some. apply HX in Hq as (b2 & Hh2). assert (~ (only a b a' b2 \/ only a b' a' b2)) as HE.
    { intros [[-> ->]|[-> ->]]; [|by apply Hn, Hh2]. apply Hne. destruct Hh as (_ & A & HA & -> & _). destruct Hh2 as (_ & A' & HA' & -> & _).
      assert (A' = A) as -> by congruence. done. }
    assert (held_by s' G' q a' b2 c) as Hh3 by (by eapply (held_change cfg _ s G s' G' q a' b2 c Hok Hok' Hc HE)).
    destruct (held_apart cfg s' G' p' q a a' b' b2 d' c Hok' Hh' Hh3) as [(_ & -> & -> & _)|(? & _ & ?)]; [|done]. destruct HE. by right. }
  split; [split; [by pose proof (held_pos cfg _ _ _ _ _ _ Hok' Hh'); lia|split]|split].
  - intros q a' c Hq. destruct (Hap q a' c Hq) as [_ ?]. lia.
  - intros q c. by eapply perms_apart.
  - by destruct (held_facts cfg _ _ _ _ _ _ Hok' Hh') as (? & ? & _ & _ & _ & _ & _ & _ & _ & _ & _ & _ & _ & ?).
  - destruct ((delete p X) !! p') as [[a' c]|] eqn:E; [|done]. by destruct (Hap p' a' c E).
Qed.

(** A permanent block is new, *)
Lemma perms_add s G P p a l : perms_are s G P -> 0 < l -> perm_blk G a (p, l) -> perms_are s G (<[p := bytes_at (hmem s) p (Z.to_nat l)]> P).
Proof using Type.
  intros HP Hl Ha q d [[<- <-]|[_ Hq]]%lookup_insert_Some; [|by apply HP]. rewrite bytes_at_length. split; [lia|]. split; [|done].
  exists a. by rewrite Z2Nat.id by lia.
Qed.

Lemma apart_new s G s' G' X P p l a : heap_ok cfg s G -> heap_ok cfg s' G' -> change nothing s G s' G' -> blocks_are s G X -> perms_are s G P ->
  0 < p -> 0 < l -> perm_blk G' a (p, l) -> (forall a' w, perm_blk G a' w -> rdisj w (p, l)) -> apart X P p (bytes_at (hmem s') p (Z.to_nat l)).
Proof using Type.
  intros Hok Hok' Hc HX HP Hp Hl Ha Hd. unfold apart. rewrite bytes_at_length, Z2Nat.id by lia. split; [done|]. split.
  - intros q a' c (b & Hb)%HX. apply (held_change cfg nothing s G s' G') in Hb; [|done|done|done|by intros []].
    destruct (perm_held_apart cfg s' G' a _ q a' b c Hok' Ha Hb) as [?|[?|?]]; cbn in *; lia.
  - intros q c Hq. destruct (HP q c Hq) as (_ & (a' & Ha') & _). specialize (Hd a' _ Ha'). unfold rdisj in Hd. cbn in Hd. lia.
Qed.

(** or is written. *)
Lemma perms_write s G P p d off v : heap_ok cfg s G -> perms_are s G P -> P !! p = Some d -> 0 <= off < Z.of_nat (length d) ->
  perms_are (set_hmem (upd (hmem s) (p + off) v) s) G (<[p := <[Z.to_nat off := v]> d]> P).
Proof using Type.
  intros Hok HP Hp Hoff q c [[<- <-]|[Hne Hq]]%lookup_insert_Some.
  - destruct (HP p d Hp) as (Hl & Ha & Ed). rewrite length_insert. split; [done|]. split; [done|]. cbn. rewrite bytes_at_upd by lia. by rewrite Ed at 1.
  - destruct (HP q c Hq) as (Hl & (a & Ha) & Ed). split; [done|]. split; [by exists a|]. rewrite Ed at 1. apply bytes_at_ext. intros x Hx. cbn.
    destruct (HP p d Hp) as (Hlp & (a' & Ha') & _). assert (rdisj (p, Z.of_nat (length d)) (q, Z.of_nat (length c))) as Hd.
    { eapply (perm_perm_apart cfg s G a' a); [done|done|done|congruence]. }
    unfold rdisj in Hd. cbn in Hd. unfold upd. destruct (Z.eqb_spec x (p + off)); [lia|done].
Qed.

(** ** Every operation *)

Lemma cost_le R n i req : 0 <= n -> 0 <= R -> req <= R + 2 ^ 24 + 2 ^ 19 ->
  malloc_cost n req + Z.of_nat i * op_cost R (n + 1 + Z.of_nat i) <= Z.of_nat (S i) * op_cost R (n + Z.of_nat (S i)).
Proof using Type.
  intros Hn HR Hreq. replace (n + Z.of_nat (S i)) with (n + 1 + Z.of_nat i) by lia. replace (Z.of_nat (S i)) with (1 + Z.of_nat i) by lia.
  rewrite Z.mul_add_distr_r. assert (malloc_cost n req <= op_cost R (n + 1 + Z.of_nat i)); [|lia].
  unfold op_cost, malloc_cost, array_room. lia.
Qed.

Lemma user_keep R i n s G X P : 0 <= R -> 0 <= n -> heap_at n (Z.of_nat (S i) * op_cost R (n + Z.of_nat (S i))) s G -> blocks_are s G X -> perms_are s G P ->
  user_has R i (n + 1) s X P.
Proof using Type.
  intros HR Hn Hat HX HP. split; [|lia]. exists G. split; [|by split]. eapply heap_at_more; [|eapply heap_at_less; [|exact Hat]]; [lia|].
  pose proof (cost_le R n i 0 Hn HR ltac:(lia)). assert (0 <= malloc_cost n 0) by (unfold malloc_cost, array_room; lia). lia.
Qed.

Lemma user_new R i n k s G s' G' X P p a b d : k = Z.of_nat i * op_cost R (n + 1 + Z.of_nat i) -> 0 <= n -> heap_ok cfg s G ->
  heap_at (n + 1) k s' G' -> change (only a b) s G s' G' -> ~ used_blk G a b -> held_by s' G' p a b d -> blocks_are s G X -> perms_are s G P ->
  fresh X P p d /\ user_has R i (n + 1) s' (<[p := (a, d)]> X) P.
Proof using Type.
  intros -> Hn Hok Hat Hc Hnu Hh HX HP. pose proof (ha_ok _ _ _ _ _ Hat) as Hok'. pose proof (perms_change _ _ _ _ _ P Hc HP) as HP'.
  split; [by eapply (blocks_fresh s G s' G')|]. split; [|lia]. exists G'. split; [done|]. split; [|done]. by eapply (blocks_add s G s' G').
Qed.

Section Step.
Context (R : Z) (HR : 0 <= R) (HR64 : R + 2 ^ 27 < 2 ^ 64) (cc : Z) (Hcc : cc <> 0).

(** Reallocation, and shrinking in place *)
Lemma user_realloc i n s G X P a p m : let k := Z.of_nat i * op_cost R (n + 1 + Z.of_nat i) in
  heap_at n (malloc_cost n m + k) s G -> blocks_are s G X -> perms_are s G P -> 0 <= k -> 0 <= n -> heap_op_ok R X P (HRealloc a p m) ->
  (forall req s' G', 0 <= req -> heap_at n (malloc_cost n req + k) s' G' -> change nothing s G s' G' -> user_has R i (n + 1) s' X P) ->
  wp (arena_realloc cfg a cc p m) s (fun r s' => exists X' P', use_step X P (HRealloc a p m) r X' P' /\ user_has R i (n + 1) s' X' P').
Proof using All.
  intros k Hat HX HP Hk Hn (Ha & (d & Hd) & Hm) Hnone. pose proof (ha_ok _ _ _ _ _ Hat) as Hok. pose proof Hd as (b & Hh)%HX.
  eapply (held_realloc cfg Hcfg a cc p b d m n k s G); [exact Hat|done..|lia|lia|done|done| |].
  - intros Hle s' K1 K2. exists X, P. split; [by eapply use_realloc_same|apply (Hnone m s' G); [lia|done|done]].
  - intros Hgt p' b' d' s' G' K1 K2 K3 K4 K5 K6 K7. pose proof (ha_ok _ _ _ _ _ K1) as Hok'. pose proof (perms_change _ _ _ _ _ P K2 HP) as HP'.
    assert (fresh (delete p X) P p' d') as Hf by (by apply (fresh_move s G s' G' X P p p' a b b' d d')).
    exists (<[p' := (a, d')]> (delete p X)), P. split; [by eapply use_realloc|].
    split; [|lia]. exists G'. split; [done|]. split; [|done]. eapply (blocks_move s G s' G' X p p' a b b' d d'); try done. apply Hf.
Qed.

Lemma user_shrink i n s G X P a p m : let k := Z.of_nat i * op_cost R (n + 1 + Z.of_nat i) in
  heap_at n (malloc_cost n 0 + k) s G -> blocks_are s G X -> perms_are s G P -> 0 <= k -> 0 <= n -> heap_op_ok R X P (HShrink a p m) ->
  wp (arena_realloc_shrink cfg a p m) s (fun _ s' => exists X' P', use_step X P (HShrink a p m) 0 X' P' /\ user_has R i (n + 1) s' X' P').
Proof using All.
  intros k Hat HX HP Hk Hn (d & Hd & Hm). pose proof (ha_ok _ _ _ _ _ Hat) as Hok. pose proof Hd as (b & Hh)%HX.
  assert (0 <= malloc_cost n 0) as Hc0 by (unfold malloc_cost, array_room; lia).
  assert (forall s' G', heap_at n (malloc_cost n 0 + k) s' G' -> heap_at (n + 1) k s' G') as Hless.
  { intros s' G' K. eapply heap_at_more; [|eapply heap_at_less; [|exact K]]; lia. }
  eapply (held_shrink cfg Hcfg a p b d m n _ s G); [exact Hat|done|done|done| |].
  - intros s' K1 K2 Hlt. pose proof (ha_ok _ _ _ _ _ K1) as Hok'. exists (<[p := (a, take (length d) d)]> X), P. split; [by apply use_shrink; [done|lia| |]|].
    rewrite firstn_all, insert_id by done. split; [|lia]. exists G. split; [by apply Hless|]. split; [by apply (blocks_same s G s' G)|by apply (perms_change nothing s G)].
  - intros b' d' s' G' K1 K2 K3 K4 K5 K6 K7 K8. pose proof (ha_ok _ _ _ _ _ K1) as Hok'. exists (<[p := (a, take (length d') d)]> X), P.
    split; [apply use_shrink; [done|lia|lia|lia]|]. rewrite <- K8. split; [|lia]. exists G'. split; [by apply Hless|].
    split; [|by eapply perms_change]. rewrite <- (insert_delete_eq X).
    eapply (blocks_move s G s' G' X p p a b b' d d'); try done. apply lookup_delete_eq.
Qed.

(** Writing *)
Lemma user_write i n s G X P p off v : let k := Z.of_nat (S i) * op_cost R (n + Z.of_nat (S i)) in
  heap_at n k s G -> blocks_are s G X -> perms_are s G P -> 0 <= n -> heap_op_ok R X P (HWrite p off v) ->
  exists X', use_step X P (HWrite p off v) 0 X' P /\ user_has R i (n + 1) (set_hmem (upd (hmem s) (p + off) v) s) X' P.
Proof using All.
  intros k Hat HX HP Hn (Hv & a & d & Hd & Hoff). pose proof (ha_ok _ _ _ _ _ Hat) as Hok. pose proof Hd as (b & Hh)%HX.
  destruct (held_fill cfg p a b d (upd (hmem s) (p + off) v) _ _ s G Hat Hh) as (K1 & K2 & K3).
  { apply upd_ok; [apply Hok|done]. } { intros x Hx. unfold upd. destruct (Z.eqb_spec x (p + off)); [lia|done]. }
  eexists. split; [by eapply use_write|]. eapply user_keep; [done|done|exact K1| |by eapply perms_change].
  eapply (blocks_write s G _ X p a b d); try done; [by apply K1|]. rewrite bytes_at_upd in K3 by lia.
  destruct (held_facts cfg _ _ _ _ _ _ Hok Hh) as (? & ? & _ & _ & _ & _ & _ & _ & _ & _ & _ & _ & Ed & _). by rewrite <- Ed in K3.
Qed.

Lemma user_perm_write i n s G X P p off v : let k := Z.of_nat (S i) * op_cost R (n + Z.of_nat (S i)) in
  heap_at n k s G -> blocks_are s G X -> perms_are s G P -> 0 <= n -> heap_op_ok R X P (HPermWrite p off v) ->
  exists P', use_step X P (HPermWrite p off v) 0 X P' /\ user_has R i (n + 1) (set_hmem (upd (hmem s) (p + off) v) s) X P'.
Proof using All.
  intros k Hat HX HP Hn (Hv & d & Hd & Hoff). pose proof (ha_ok _ _ _ _ _ Hat) as Hok. destruct (HP p d Hd) as (Hl & (a & Ha) & _).
  destruct (perm_write cfg n k s G a _ (upd (hmem s) (p + off) v) Hat Ha) as [K1 K2].
  { apply upd_ok; [apply Hok|done]. } { unfold in_reg. cbn. intros x Hx. unfold upd. destruct (Z.eqb_spec x (p + off)); [lia|done]. }
  eexists. split; [by eapply use_perm_write|]. eapply user_keep; [done|done|exact K1| |by apply perms_write].
  intros q a' c. rewrite (HX q a' c). split; intros (b & Hb); exists b; by apply K2.
Qed.

Lemma wp_heap_op i n s X P op : user_has R (S i) n s X P -> heap_op_ok R X P op ->
  wp (run_heap_op cc op) s (fun r s' => exists X' P', use_step X P op r X' P' /\ user_has R i (n + 1) s' X' P').
Proof using All.
  intros [(G & Hat & HX & HP) Hn] Hop. pose proof (ha_ok _ _ _ _ _ Hat) as Hok. set (k := Z.of_nat i * op_cost R (n + 1 + Z.of_nat i)).
  assert (0 <= k) as Hk by (unfold k, op_cost, malloc_cost, array_room; nia).
  assert (forall req, req <= R + 2 ^ 24 + 2 ^ 19 -> heap_at n (malloc_cost n req + k) s G) as Hat'.
  { intros req Hreq. eapply heap_at_less; [|exact Hat]. by apply cost_le. }
  assert (forall req s' G', 0 <= req -> heap_at n (malloc_cost n req + k) s' G' -> change nothing s G s' G' -> user_has R i (n + 1) s' X P) as Hnone.
  { intros req s' G' Hreq K1 K2. split; [|lia]. exists G'. pose proof (ha_ok _ _ _ _ _ K1) as Hok'.
    split; [|split; [by apply (blocks_same s G s' G')|by apply (perms_change nothing s G)]].
    eapply heap_at_more; [|eapply heap_at_less; [|exact K1]]; [lia|]. assert (0 <= malloc_cost n req) by (unfold malloc_cost, array_room; lia). fold k. lia. }
  destruct op as [a m|a nm sz|a e m|a p m|a p m|a p|a p|p off v|a e m|p off v]; cbn [run_heap_op].
  - destruct Hop as [Ha Hm]. eapply (held_malloc cfg Hcfg a cc m n k s G); [apply Hat'; lia|done..|lia|lia|done|done| |].
    + intros p b d s' G' K1 K2 K3 K4 K5. destruct (user_new R i n k s G s' G' X P p a b d) as [Hf Hu]; [done..|].
      do 2 eexists. split; [by apply use_malloc|done].
    + intros -> s' G' K1 K2. do 2 eexists. split; [apply use_malloc_null|apply (Hnone m s' G'); [lia|done|done]].
  - destruct Hop as (Ha & Hnm & Hsz & Hm). eapply (held_calloc cfg Hcfg a cc nm sz n k s G); [apply Hat'; nia|done..|nia|nia|nia|done|done| |].
    + intros p b d s' G' K1 K2 K3 K4 K5 K6. destruct (user_new R i n k s G s' G' X P p a b d) as [Hf Hu]; [done..|].
      do 2 eexists. split; [by apply use_calloc|done].
    + intros -> s' G' K1 K2. do 2 eexists. split; [apply use_calloc_null|apply (Hnone (nm * sz) s' G'); [nia|done|done]].
  - destruct Hop as (Ha & He & Hm). assert (0 <= 2 ^ e <= 2 ^ 24) by (split; [apply Z.pow_nonneg; lia|apply Z.pow_le_mono_r; lia]).
    eapply (held_memalign cfg Hcfg a cc e m n k s G); [apply Hat'; lia|done..|lia|lia|done|done| |].
    + intros p b d s' G' K1 K2 K3 K4 K5 K6. destruct (user_new R i n k s G s' G' X P p a b d) as [Hf Hu]; [done..|].
      do 2 eexists. split; [by apply use_memalign|done].
    + intros -> s' G' K1 K2. do 2 eexists. split; [apply use_memalign_null|apply (Hnone (m + 2 ^ e + 2 ^ 19) s' G'); [lia|done|done]].
  - apply (user_realloc i n s G X P a p m); [apply Hat'; destruct Hop; lia|done..].
  - apply wp_bind. eapply wp_mono; [apply (user_shrink i n s G X P a p m); [apply (Hat' 0); lia|done..]|]. intros [] s' Hs. by apply wp_ret.
  - destruct Hop as (d & Hd). pose proof Hd as (b & Hh)%HX. apply wp_bind.
    eapply (held_free cfg Hcfg a p _ _ s G b d); [apply (Hat' 0); lia|done|done|]. intros s' G' K1 K2 K3. apply wp_ret.
    do 2 eexists. split; [apply use_free|]. split; [|lia]. exists G'. pose proof (ha_ok _ _ _ _ _ K1) as Hok'.
    split; [|split; [by eapply (blocks_del s G s' G' X p a b d)|by eapply perms_change]]. eapply heap_at_more; [|eapply heap_at_less; [|exact K1]]; [lia|].
    assert (0 <= malloc_cost n 0) by (unfold malloc_cost, array_room; lia). fold k. lia.
  - destruct Hop as (d & Hd). pose proof Hd as (b & Hh)%HX. eapply (held_usable cfg a p); [exact Hat|exact Hh|].
    do 2 eexists. split; [by eapply use_size|]. eapply user_keep; [done|done|exact Hat|exact HX|exact HP].
  - apply wp_bind. unfold sdb. apply wp_modify, wp_ret. destruct (user_write i n s G X P p off v Hat HX HP Hn Hop) as (X' & K1 & K2). by exists X', P.
  - destruct Hop as (Ha & Hne & He & Hm & Hm'). assert (0 < 2 ^ e <= 2 ^ 24) by (split; [apply Z.pow_pos_nonneg; lia|apply Z.pow_le_mono_r; lia]).
    eapply (held_perm cfg Hcfg a e m n k s G); [apply Hat'; lia|done..|lia|lia|lia|done|done|].
    intros p l s' G' K1 K2 K3 K4 K5 K6. pose proof (ha_ok _ _ _ _ _ K1) as Hok'. exists X, (<[p := bytes_at (hmem s') p (Z.to_nat l)]> P).
    split; [apply use_perm; [apply (apart_new s G s' G' X P p l a); try done; lia|rewrite bytes_at_length; lia]|]. split; [|lia]. exists G'.
    split; [by eapply heap_at_more; [|exact K1]; lia|]. split; [by apply (blocks_same s G s' G')|]. eapply perms_add; [by eapply perms_change|lia|exact K3].
  - apply wp_bind. unfold sdb. apply wp_modify, wp_ret. destruct (user_perm_write i n s G X P p off v Hat HX HP Hn Hop) as (P' & K1 & K2). by exists X, P'.
Qed.

(** ** A whole run *)

(** The user's next operation may depend on what the earlier ones returned. *)
Fixpoint run_heap_user (c : list Z -> heap_op) (i : nat) : M MST (list Z) :=
  match i with
  | O => ret []
  | S i => rs <- run_heap_user c i ;; r <- run_heap_op cc (c rs) ;; ret (rs ++ [r])
  end.

Inductive heap_trace (c : list Z -> heap_op) : nat -> list Z -> gmap Z (nat * list Z) -> gmap Z (list Z) -> Prop :=
  | htrace_nil : heap_trace c 0 [] ∅ ∅
  | htrace_snoc i rs X P r X' P' : heap_trace c i rs X P -> use_step X P (c rs) r X' P' -> heap_trace c (S i) (rs ++ [r]) X' P'.

(** Whatever the heap answers, the user asks only for what it may. *)
Definition heap_user_ok (c : list Z -> heap_op) (i : nat) : Prop :=
  forall j rs X P, (j < i)%nat -> heap_trace c j rs X P -> heap_op_ok R X P (c rs).

Lemma wp_run_heap_user (c : list Z -> heap_op) i (k : nat) n s : user_has R (i + k) n s ∅ ∅ -> heap_user_ok c i ->
  wp (run_heap_user c i) s (fun rs s' => exists X P, heap_trace c i rs X P /\ user_has R k (n + Z.of_nat i) s' X P).
Proof using All.
  revert k. induction i as [|i IH]; intros k Hu Hw; cbn [run_heap_user].
  - apply wp_ret. exists ∅, ∅. split; [constructor|]. by replace (n + Z.of_nat 0) with n by lia.
  - apply wp_bind. eapply wp_mono; [apply (IH (S k))|].
    + by replace (i + S k)%nat with (S i + k)%nat by lia.
    + intros j rs X P Hj. apply Hw. lia.
    + intros rs s1 (X & P & Ht & Hu1). apply wp_bind. eapply wp_mono; [apply (wp_heap_op k (n + Z.of_nat i) s1 X P (c rs) Hu1), (Hw i); [lia|done]|].
      intros r s2 (X' & P' & Hs & Hu2). apply wp_ret. exists X', P'. split; [by eapply htrace_snoc|].
      by replace (n + Z.of_nat (S i)) with (n + Z.of_nat i + 1) by lia.
Qed.
End Step.

(** The heap as the program starts *)
Definition heap_start (m : gmem) (o : OS) : MST := mk_mst m o (replicate VG_N_ARENAS zero_arena) false false (u64 (-1000000)) 8.

Lemma heap_start_ok m o : bytes_ok m -> heap_ok cfg (heap_start m o) (replicate VG_N_ARENAS no_blocks).
Proof using Type.
  intros Hm. split; try done.
  - intros a A ag _ _ Hup. unfold up in Hup. by destruct (_ =? _)%nat.
  - intros a A ag [-> _]%lookup_replicate_1 [-> _]%lookup_replicate_1. done.
  - intros a a' ag ag' r q _ [-> _]%lookup_replicate_1 _ Hr. by apply not_elem_of_nil in Hr.
Qed.

Lemma no_blocks_used s : ~ exists p a d, held s (replicate VG_N_ARENAS no_blocks) p a d.
Proof using Type.
  intros (p & a & d & b & (ag & HG & Hb & _) & _). apply lookup_replicate_1 in HG as [-> _]. by apply not_elem_of_nil in Hb.
Qed.

(** Once a core arena has been initialised, the user has the heap. *)
Lemma heap_start_user R i m o a : (a < VG_N_ARENAS)%nat -> a <> VG_AR_CLIENT -> bytes_ok m -> core_space o (Z.of_nat i * op_cost R (Z.of_nat i)) ->
  wp (ensure_mm_init cfg a) (heap_start m o) (fun _ s => user_has R i 0 s ∅ ∅).
Proof using Hcfg.
  intros Ha Hne Hm Hsp. pose proof (heap_start_ok m o Hm) as Hok. eapply (wp_ensure_mm_init cfg Hcfg a _ _); [exact Hok|done|].
  intros s' Hok' Hup Hst. destruct (is_mem _ _ Hst) as [Em Eo]. split; [|done]. exists (replicate VG_N_ARENAS no_blocks). split; [|split; [|by intros p d ?%lookup_empty_Some]].
  - split; [done| | |by rewrite Eo].
    + unfold up in Hup. by rewrite (proj2 (Nat.eqb_neq _ _) Hne) in Hup.
    + apply (small_init cfg 0 (heap_start m o)); try done. intros b A ag [-> _]%lookup_replicate_1 [-> _]%lookup_replicate_1. cbn. unfold array_room. lia.
  - intros p b d. split; [by intros ?%lookup_empty_Some|]. intros Hh. destruct (no_blocks_used s'). by exists p, b, d.
Qed.

(** ** The blocks and the accounts *)

(** The bytes of the user's blocks of the arena [a] *)
Definition lent X (a : nat) : Z :=
  sumZ (fun kv : Z * (nat * list Z) => Z.of_nat (length kv.2.2)) (filter (fun kv : Z * (nat * list Z) => kv.2.1 = a) (map_to_list X)).

Lemma sumZ_fmap {T U} (f : T -> U) (g : U -> Z) (l : list T) : sumZ g (f <$> l) = sumZ (fun x => g (f x)) l.
Proof using Type. induction l as [|x l IH]; [done|]. cbn. unfold sumZ in *. cbn. by rewrite IH. Qed.

Lemma sumZ_ext {T} (f g : T -> Z) (l : list T) : (forall x, x ∈ l -> f x = g x) -> sumZ f l = sumZ g l.
Proof using Type.
  induction l as [|x l IH]; intros Hx; [done|]. unfold sumZ in *. cbn. rewrite Hx by (by left). rewrite IH; [done|]. intros y Hy. apply Hx. by right.
Qed.

Lemma blocks_loaned s G X a A ag : heap_ok cfg s G -> blocks_are s G X -> vg_arena s !! a = Some A -> G !! a = Some ag -> up s a = true ->
  lent X a = loaned (geo_of (hp_overhead_szB s) A) ag.
Proof using Type.
  intros Hok HX HA HG Hup. destruct (ho_up _ _ _ Hok a A ag HA HG Hup) as [(Hao & _) _]. set (g := geo_of (hp_overhead_szB s) A) in *.
  set (f := fun b => (baddr b + g_lo g, (a, bytes_at (hmem s) (baddr b + g_lo g) (Z.to_nat (bsz b - g_ovh g))))).
  assert (filter (fun kv : Z * (nat * list Z) => kv.2.1 = a) (map_to_list X) ≡ₚ f <$> filter is_used (ag_blks ag)) as Hp.
  { apply NoDup_Permutation.
    - apply NoDup_filter, NoDup_map_to_list.
    - apply NoDup_fmap_2_strong; [|apply NoDup_filter, (blks_apart _ _ _ _ _ Hao)].
      intros b c [_ Hb]%list_elem_of_filter [_ Hc]%list_elem_of_filter [= E _]. destruct (decide (b = c)) as [|Hne]; [done|].
      pose proof (proj2 (blks_apart _ _ _ _ _ Hao) b c Hb Hc Hne) as Hd. pose proof (ao_geo _ _ _ _ _ Hao) as Hg.
      destruct (addr_distinct _ Hg b c (blks_wf _ _ _ _ _ Hao b Hb) (blks_wf _ _ _ _ _ Hao c Hc) Hd). lia.
    - intros [p [a' d]]. rewrite list_elem_of_filter, elem_of_map_to_list, (HX p a' d), list_elem_of_fmap. cbn. split.
      + intros [-> (b & (ag' & HG' & Hb & Hu) & A' & HA' & -> & ->)]. assert (A' = A) as -> by congruence. assert (ag' = ag) as -> by congruence.
        exists b. split; [done|]. by apply list_elem_of_filter.
      + intros (b & [= -> -> ->] & [Hu Hb]%list_elem_of_filter). split; [done|]. exists b. split; [by exists ag|]. by exists A. }
  unfold lent. rewrite (sumZ_perm _ _ _ Hp), sumZ_fmap. apply sumZ_ext. intros b [_ Hb]%list_elem_of_filter. cbn. rewrite bytes_at_length.
  pose proof (blks_wf _ _ _ _ _ Hao b Hb) as (_ & _ & _ & Hov & _). fold g in Hov. lia.
Qed.

Lemma blocks_down s G X a ag : blocks_are s G X -> G !! a = Some ag -> ag = no_blocks -> lent X a = 0.
Proof using Type.
  intros HX HG ->. unfold lent. destruct (filter _ _) as [|[p [a' d]] l] eqn:E; [done|].
  assert ((p, (a', d)) ∈ filter (fun kv : Z * (nat * list Z) => kv.2.1 = a) (map_to_list X)) as Hin by (rewrite E; by left).
  apply list_elem_of_filter in Hin as [Ea Hin%elem_of_map_to_list]. cbn in Ea. subst a'.
  apply HX in Hin as (b & (ag & HG' & Hb & _) & _). assert (ag = no_blocks) as -> by congruence. by apply not_elem_of_nil in Hb.
Qed.

Lemma blocks_accounts s G X a A : heap_ok cfg s G -> blocks_are s G X -> vg_arena s !! a = Some A ->
  bytes_on_loan (stats A) = u64 (lent X a + perm_bytes_on_loan (stats A)).
Proof using Type.
  intros Hok HX HA. destruct (lookup_lt_is_Some_2 G a) as [ag HG].
  { apply lookup_lt_Some in HA. destruct (ho_len _ _ _ Hok). lia. }
  destruct (up s a) eqn:Hup.
  - rewrite (blocks_loaned s G X a A ag) by done. by apply (ho_up _ _ _ Hok a A ag HA HG Hup).
  - destruct (ho_down _ _ _ Hok a A ag HA HG Hup) as [-> Hag]. by rewrite (blocks_down s G X a ag).
Qed.

End Use.
