(* ===== verification/RbTheorems.v ===== *)
(** Properties of the red-black tree and of the block index on it, with
    concrete instances. *)
From stdpp Require Import base gmap list fin_maps sets.
From Stdlib Require Import ZArith Lia.
From S2P Require Import Prelude RbTree RbInv RbInsert RbSearch RbDelete BlockIndex BlockTrack Printf LibcStr LogBuffer Mx Options Tool ToolProofs.
Open Scope prog_scope.
Open Scope Z_scope.

(** ** A concrete tree: 10 and 30 below 20 *)

Definition t3 : tree :=
  Node 2 BLACK 20 None (Node 1 RED 10 None Leaf Leaf) (Node 3 RED 30 None Leaf Leaf).
Definition s3 : rb_state :=
  mk_rb {[ 1%positive := mk_node (Some 2%positive) None None RED 10 None;
           2%positive := mk_node None (Some 1%positive) (Some 3%positive) BLACK 20 None;
           3%positive := mk_node (Some 2%positive) None None RED 30 None ]} (Some 2%positive).

Lemma s3_rep : Rep s3 t3.
Proof.
  split; [done|]. split; [by vm_compute|]. apply (bool_decide_unpack _). by vm_compute.
Defined.

Lemma t3_ok : rb_ok t3.
Proof. exists 1%nat. eauto with rbdb. Defined.

Lemma t3_ordered : ordered (inorder t3).
Proof.
  unfold ordered. cbn. repeat constructor; cbn; lia.
Defined.

(** The same tree with a fourth, red node 40 linked below 30 *)
Definition ctx4 : list frame :=
  [Fr R 3 RED 30 None Leaf; Fr R 2 BLACK 20 None (Node 1 RED 10 None Leaf Leaf)].
Definition s4 : rb_state :=
  mk_rb {[ 1%positive := mk_node (Some 2%positive) None None RED 10 None;
           2%positive := mk_node None (Some 1%positive) (Some 3%positive) BLACK 20 None;
           3%positive := mk_node (Some 2%positive) None (Some 4%positive) RED 30 None;
           4%positive := mk_node (Some 3%positive) None None RED 40 None ]} (Some 2%positive).

Lemma s4_rep : Rep s4 (plug ctx4 (Node 4 RED 40 None Leaf Leaf)).
Proof.
  split; [done|]. split; [by vm_compute|]. apply (bool_decide_unpack _). by vm_compute.
Defined.

(** ** The tree *)

(** C5. Insertion: [rb_insert_color], called on a freshly linked red node,
    returns, and leaves a red-black tree with the same entries in the same
    order (hence still a search tree); no node is allocated or lost. *)
Theorem rb_insert_color_correct s ctx l k d :
  Rep s (plug ctx (Node l RED k d Leaf Leaf)) -> rb_ok (plug ctx Leaf) ->
  exists s' t', rb_insert_color (Some l) s = Some (tt, s') /\ Rep s' t' /\ rb_ok t' /\
    inorder t' = before ctx ++ (l, k, d) :: after ctx /\
    dom (nodes s') = dom (nodes s).
Proof.
  intros HR Hok.
  assert (wp (rb_insert_color (Some l)) s (fun _ s' => exists t', Rep s' t' /\ rb_ok t' /\
    inorder t' = before ctx ++ (l, k, d) :: after ctx)) as Hw.
  { eapply wp_insert_color; [done..|]. eauto. }
  apply wp_run in Hw as ([] & s' & E & t' & ? & ? & ?). exists s', t'.
  split_and!; [done..|]. by eapply keeps_insert_color.
Qed.

Lemma rb_insert_color_correct_witness :
  exists s' t', rb_insert_color (Some 4%positive) s4 = Some (tt, s') /\ Rep s' t' /\ rb_ok t' /\
    inorder t' = before ctx4 ++ (4%positive, 40, None) :: after ctx4 /\
    dom (nodes s') = dom (nodes s4).
Proof. apply (rb_insert_color_correct s4 ctx4 4 40 None); [apply s4_rep|apply t3_ok]. Defined.

(** C4. Deletion: [rb_delete] of a key that is in the tree returns its node,
    removes exactly its entry and leaves a red-black tree; of any other key
    it returns null and changes nothing. *)
Theorem rb_delete_correct s t k :
  Rep s t -> rb_ok t -> ordered (inorder t) ->
  (~ has_key k (inorder t) /\ rb_delete k s = Some (None, s)) \/
  (exists s' t' z d es1 es2, rb_delete k s = Some (Some z, s') /\ Rep s' t' /\ rb_ok t' /\
    inorder t = es1 ++ (z, k, d) :: es2 /\ inorder t' = es1 ++ es2 /\ ordered (inorder t')).
Proof.
  intros HR Hok Ho.
  assert (wp (rb_delete k) s (fun p s' =>
    (~ has_key k (inorder t) /\ p = None /\ s' = s) \/
    (exists t' z d es1 es2, p = Some z /\ Rep s' t' /\ rb_ok t' /\
      inorder t = es1 ++ (z, k, d) :: es2 /\ inorder t' = es1 ++ es2))) as Hw.
  { eapply wp_delete; [done..| |]; [by left|].
    intros s' t' z d es1 es2 ? ? ? ?. right. by exists t', z, d, es1, es2. }
  apply wp_run in Hw as (p & s' & E & [(? & -> & ->)|(t' & z & d & es1 & es2 & -> & ? & ? & E1 & E2)]).
  - by left.
  - right. exists s', t', z, d, es1, es2. split_and!; try done.
    rewrite E2. rewrite E1 in Ho. by eapply ordered_remove.
Qed.

Lemma rb_delete_correct_witness :
  (~ has_key 20 (inorder t3) /\ rb_delete 20 s3 = Some (None, s3)) \/
  (exists s' t' z d es1 es2, rb_delete 20 s3 = Some (Some z, s') /\ Rep s' t' /\ rb_ok t' /\
    inorder t3 = es1 ++ (z, 20, d) :: es2 /\ inorder t' = es1 ++ es2 /\ ordered (inorder t')).
Proof. apply (rb_delete_correct s3 t3 20 s3_rep t3_ok t3_ordered). Defined.

(** Search: [rb_search_leq] returns the node with the greatest key that
    is at most [k], null when there is none, and changes nothing. *)
Theorem rb_search_leq_correct s t k :
  Rep s t -> ordered (inorder t) ->
  exists p, rb_search_leq k s = Some (p, s) /\
    match p with
    | Some l => exists e, e ∈ inorder t /\ eloc e = l /\ ekey e <= k /\
                  forall e', e' ∈ inorder t -> ekey e' <= k -> ekey e' <= ekey e
    | None => forall e, e ∈ inorder t -> k < ekey e
    end.
Proof.
  intros HR Ho. pose proof (wp_search_leq s t k HR Ho) as Hw.
  apply wp_run in Hw as (p & s' & E & -> & ->). eexists. split; [exact E|].
  destruct (entry_leq k (inorder t)) as [e|] eqn:El; cbn.
  - apply entry_leq_Some in El as (? & ? & ?); [|done]. by exists e.
  - by apply entry_leq_None.
Qed.

Lemma rb_search_leq_correct_witness :
  exists p, rb_search_leq 25 s3 = Some (p, s3) /\
    match p with
    | Some l => exists e, e ∈ inorder t3 /\ eloc e = l /\ ekey e <= 25 /\
                  forall e', e' ∈ inorder t3 -> ekey e' <= 25 -> ekey e' <= ekey e
    | None => forall e, e ∈ inorder t3 -> 25 < ekey e
    end.
Proof. apply (rb_search_leq_correct s3 t3 25 s3_rep t3_ordered). Defined.

(** ** The height of the tree *)

Lemma rb_height t c n : rb t c n ->
  (height t <= 2 * n + (if c then 1 else 0))%nat /\ 2 ^ Z.of_nat n <= Z.of_nat (length (locs t)) + 1.
Proof.
  induction 1 as [|l k d a b n Ha [IH1 IH2] Hb [IH3 IH4]|l k d a b ca cb n Ha [IH1 IH2] Hb [IH3 IH4]].
  - done.
  - rewrite length_locs_children. cbn. split; lia.
  - rewrite length_locs_children. cbn [height]. rewrite Nat2Z.inj_succ, Z.pow_succ_r by lia.
    split; [destruct ca, cb; lia|lia].
Qed.

(** Search cost: in a tree of [n] nodes the descent of
    [rb_search_leq] ends after at most [2 * log2 (n + 1) + 1] nodes. *)
Theorem rb_search_leq_cost s t k :
  Rep s t -> rb_ok t -> ordered (inorder t) ->
  rb_search_leq_loop (S (Z.to_nat (2 * Z.log2 (Z.of_nat (length (locs t)) + 1)))) k (root s) None s
  = rb_search_leq k s /\ is_Some (rb_search_leq k s).
Proof.
  intros HR [n Hn] Ho. destruct (rb_height _ _ _ Hn) as [Hh Hs]. cbn in Hh.
  apply Z.log2_le_mono in Hs. rewrite Z.log2_pow2 in Hs by lia.
  set (fuel := S _). assert (height t < fuel)%nat as Hf by lia. clearbody fuel.
  pose proof (wp_search_leq_loop fuel k s [] t None HR Ho Hf) as H1. rewrite <- (Rep_root _ _ HR) in H1.
  apply wp_run in H1 as (p & s1 & -> & -> & ->).
  pose proof (wp_search_leq s t k HR Ho) as H2. apply wp_run in H2 as (p' & s2 & -> & -> & ->).
  split; [|eauto]. by destruct (entry_leq k (inorder t)).
Qed.

Lemma rb_search_leq_cost_witness :
  rb_search_leq_loop (S (Z.to_nat (2 * Z.log2 (Z.of_nat (length (locs t3)) + 1)))) 25 (root s3) None s3
  = rb_search_leq 25 s3 /\ is_Some (rb_search_leq 25 s3).
Proof. apply (rb_search_leq_cost s3 t3 25 s3_rep t3_ok t3_ordered). Defined.

(** ** The block index *)

(** One tracked block *)
Definition b1 : Block := mk_block 4096 64 None false.
Definition bt1 : bt_state := mk_bt RB_ROOT {[ 1%positive := b1 ]} 2.

Lemma bt1_inv : bt_inv_at bt1 Leaf ∅ /\ blocks bt1 !! 1%positive = Some b1.
Proof.
  split; [|done]. split_and!; cbn.
  - split_and!; cbn; [done|done|constructor].
  - exists 0%nat. constructor.
  - constructor.
  - split; [intros e He; set_solver | intros k [b Hb]; set_solver].
  - constructor.
  - set_solver.
  - intros l [n Hl]. set_solver.
  - intros l [b Hl]. apply lookup_singleton_Some in Hl as [<- _]. lia.
Defined.

(** C33. [insert_block_rb] returns, and enters a new record in the index
    under its start address, unless that address is tracked already, when
    nothing changes: one record per address, in a red-black search tree. *)
Theorem insert_block_rb_correct s t T bl b :
  bt_inv_at s t T -> blocks s !! bl = Some b -> Some bl ∉ map snd (inorder t) ->
  exists s', insert_block_rb bl s = Some (tt, s') /\ bt_inv s' (track T b) /\ blocks s' = blocks s.
Proof.
  intros Hinv Hb Hn.
  assert (wp (insert_block_rb bl) s (fun _ s' => bt_inv s' (track T b) /\ blocks s' = blocks s)) as Hw.
  { eapply wp_insert_block_rb; [done..|]. auto. }
  apply wp_run in Hw as ([] & s' & E & ? & ?). eauto.
Qed.

Lemma insert_block_rb_correct_witness :
  exists s', insert_block_rb 1%positive bt1 = Some (tt, s') /\ bt_inv s' (track ∅ b1)
    /\ blocks s' = blocks bt1.
Proof.
  apply (insert_block_rb_correct bt1 Leaf ∅ 1%positive b1); [apply bt1_inv|apply bt1_inv|].
  apply not_elem_of_nil.
Defined.

(** C34. [find_block_containing] changes nothing and returns the record of
    the tracked block with the greatest start at or below the address when
    the address is below its end, null otherwise. *)
Theorem find_block_containing_correct s T addr : bt_inv s T ->
  exists p, find_block_containing addr s = Some (p, s) /\
    match p with
    | Some l => exists b, blocks s !! l = Some b /\ found_in T addr b
    | None => forall b, ~ found_in T addr b
    end.
Proof.
  intros Hinv.
  assert (wp (find_block_containing addr) s (fun p s' => s' = s /\
    match p with
    | Some l => exists b, blocks s !! l = Some b /\ found_in T addr b
    | None => forall b, ~ found_in T addr b
    end)) as Hw.
  { eapply wp_find_block; [done|..]; eauto. }
  apply wp_run in Hw as (p & s' & E & -> & Hp). eauto.
Qed.

Lemma find_block_containing_correct_witness :
  exists p, find_block_containing 5000 bt_init = Some (p, bt_init) /\
    match p with
    | Some l => exists b, blocks bt_init !! l = Some b /\ found_in ∅ 5000 b
    | None => forall b, ~ found_in ∅ 5000 b
    end.
Proof. apply (find_block_containing_correct bt_init ∅ 5000 bt_inv_init). Defined.

(** [free_rb_tree] returns, every node and every indexed record is
    freed exactly once, and the index is empty. *)
Theorem free_rb_tree_correct s t T : bt_inv_at s t T ->
  exists s', free_rb_tree s = Some (tt, s') /\ bt_inv s' ∅ /\ nodes (tracked_blocks s') = ∅ /\
    forall l, blocks s' !! l = if decide (Some l ∈ datas t) then None else blocks s !! l.
Proof.
  intros Hinv.
  assert (wp free_rb_tree s (fun _ s' => bt_inv s' ∅ /\ nodes (tracked_blocks s') = ∅ /\
    forall l, blocks s' !! l = if decide (Some l ∈ datas t) then None else blocks s !! l)) as Hw.
  { eapply wp_free_rb_tree; [done|]. auto. }
  apply wp_run in Hw as ([] & s' & E & ?). eauto.
Qed.

Lemma free_rb_tree_correct_witness :
  exists s', free_rb_tree bt1 = Some (tt, s') /\ bt_inv s' ∅ /\ nodes (tracked_blocks s') = ∅ /\
    forall l, blocks s' !! l = if decide (Some l ∈ datas Leaf) then None else blocks bt1 !! l.
Proof. apply (free_rb_tree_correct bt1 Leaf ∅). apply bt1_inv. Defined.
