(* ===== verification/ToolTheorems.v ===== *)
(** Properties of the tool: its log, the handlers of the allocation
    functions, and the choice of MX blocks, with concrete runs. *)
From stdpp Require Import base gmap list strings sets.
From Stdlib Require Import ZArith Lia Ascii String.
From S2P Require Import Prelude Mem LibcMem LibcMemProofs RbTree RbInv RbSearch BlockTrack BlockIndex Printf LibcStr LibcStrProofs LogBuffer Mx Options Tool ToolProofs ToolTrace ToolHeap Heap.
Open Scope prog_scope.
Open Scope Z_scope.

(** ** A concrete client *)

Definition pp0 (p : positive) : chars := str "   at main" .
Definition th0 : thread :=
  mk_thread (Some 1%positive) [(1000, Some (str "malloc")); (2000, Some (str "main"))].
Definition o8 : options := mk_options 8 true mx_default None false rm_default.
Definition tool0 : tool (H := gmap Z Z) := ml_init o8 ∅ (fun _ => 0).

(** Running an operation *)
Definition after (o : op) (s : tool (H := gmap Z Z)) : tool :=
  match handle pp0 o s with Some (_, s') => s' | None => s end.
Definition result (o : op) (s : tool (H := gmap Z Z)) : Z :=
  match handle pp0 o s with Some (r, _) => r | None => -1 end.

(** A block of 16 bytes, at 4096 *)
Definition tool1 : tool := after (OpMalloc th0 16) tool0.
Definition T1 : gmap Z Block := {[ 4096 := mk_block 4096 16 (Some 1%positive) true ]}.
Definition A1 : sizes := {[ 4096 := 16 ]}.


Lemma tool1_run : runs pp0 tool0 [OpMalloc th0 16] tool1.
Proof. econstructor; [vm_compute; reflexivity|constructor]. Defined.

(** ** The log *)

(** C1. The log of a run: whatever operations the client performs, the end
    of the run prints one entry per event, in order, and the log is
    self-consistent: it starts with nothing tracked, every free names a
    tracked block with its size, every store falls in the tracked block with
    the greatest start below it, and replaying it gives exactly the blocks
    tracked at the end. *)
Theorem log_faithful {H} `{ClientHeap H} pp o h m os (s : tool (H := H)) :
  runs pp (ml_init o h m) os s ->
  exists s' es T, ml_fini pp s = Some (tt, s') /\ out (lb s') = texts pp es /\
    log_ok ∅ es (sizes_of T) /\ bt_inv (bt s) T /\ nodes (tracked_blocks (bt s')) = ∅.
Proof.
  intros Hr. destruct (runs_advance pp _ _ _ Hr ∅ [] (ml_init_inv pp o h m)) as (T & es & Hlog & Hi).
  cbn [app] in Hi.
  assert (wp (ml_fini pp) s (fun _ s' => out (lb s') = texts pp es /\
    nodes (tracked_blocks (bt s')) = ∅)) as Hw by (eapply wp_ml_fini; eauto).
  apply wp_run in Hw as ([] & s' & E & Ho & Hn). exists s', es, T.
  split_and!; done || apply Hi.
Qed.

Lemma log_faithful_witness : exists s' es T, ml_fini pp0 tool1 = Some (tt, s') /\
  out (lb s') = texts pp0 es /\ log_ok ∅ es (sizes_of T) /\ bt_inv (bt tool1) T /\
  nodes (tracked_blocks (bt s')) = ∅.
Proof. exact (log_faithful pp0 o8 ∅ (fun _ => 0) [OpMalloc th0 16] tool1 tool1_run). Defined.







(** ** The allocation functions *)



(** [die_block] of an allocated block gives it back to the heap; if a
    tracked block starts there (and is the one found at its address), it is
    removed from the map and a FREE entry with its size is logged; otherwise
    map and log are as before. *)
Theorem die_block_correct {H} `{ClientHeapLaws H} pp (s : tool (H := H)) T es th p :
  tool_inv pp s T es -> p <> 0 -> is_Some (heap s !! p) ->
  exists s', die_block pp th p s = Some (tt, s') /\ heap s' = delete p (heap s) /\ gm s' = gm s /\
    ((exists b, found_in T p b /\ payload b = p /\
        tool_inv pp s' (delete p T) (es ++ [EFree p (req_szB b) (exe_context th)])) \/
     ((forall b, found_in T p b -> payload b <> p) /\ tool_inv pp s' T es)).
Proof.
  intros Hi Hp Ha. apply (wp_elim (die_block pp th p) s). eapply wp_die_block; [exact Hi|done..|].
  intros s' T' new Hu Hi' Eh Eg _ E. exists s'. split_and!; [done..|].
  destruct Hu as [(b & Hf & Eb & -> & ->)|(Hn & -> & ->)]; [left; eauto|right].
  by rewrite app_nil_r in Hi'.
Qed.

(** The same heap, with nothing tracked *)
Definition tool_live : tool := ml_init o8 ({[ 4096 := 16 ]} : gmap Z Z) (fun x => x mod 256).

Lemma die_block_correct_witness :
  exists s', die_block pp0 th0 4096 tool_live = Some (tt, s') /\
    heap s' = delete 4096 (heap tool_live) /\ gm s' = gm tool_live /\
    ((exists b, found_in ∅ 4096 b /\ payload b = 4096 /\
        tool_inv pp0 s' (delete 4096 ∅) ([] ++ [EFree 4096 (req_szB b) (exe_context th0)])) \/
     ((forall b, found_in ∅ 4096 b -> payload b <> 4096) /\ tool_inv pp0 s' ∅ [])).
Proof.
  apply (die_block_correct pp0 tool_live ∅ [] th0 4096); [apply ml_init_inv|lia|].
  eexists. vm_compute. reflexivity.
Defined.

(** C16. [ml_realloc] of an allocated block to a new size [n]: it fails and
    changes neither map, log, heap nor memory, or returns a fresh block whose
    first bytes, up to the smaller of the old and the new size, are the old
    block's, and no other byte of memory changes; the old block is freed. *)
Theorem realloc_correct {H} `{ClientHeapLaws H} pp (s : tool (H := H)) T es th p n :
  tool_inv pp s T es -> 0 < n -> p <> 0 -> is_Some (heap s !! p) ->
  exists r s', ml_realloc pp th p n s = Some (r, s') /\
    ((r = 0 /\ tool_inv pp s' T es /\ heap s' = heap s /\ gm s' = gm s) \/
     (exists k h T' new, old_size s T p k /\ heap_grows (heap s) h r n /\ heap s' = delete p h /\
        (0 <= k -> forall x, gm s' x =
           if (r <=? x) && (x <? r + Z.min k n) then gm s (p + (x - r)) else gm s x) /\
        log_ok (sizes_of T) new (sizes_of T') /\ tool_inv pp s' T' (es ++ new))).
Proof.
  intros Hi Hn Hp Ha.
  assert (ml_realloc pp th p n s = realloc_copy pp th p n s) as ->.
  { unfold ml_realloc. destruct (Z.eqb_spec p 0), (Z.eqb_spec n 0); [lia..|done]. }
  assert (eff n = n) as En by (unfold eff; destruct (Z.eqb_spec n 0); lia).
  apply (wp_elim (realloc_copy pp th p n) s). eapply wp_realloc_copy; [exact Hi|lia|done..| |].
  - intros s' Hi' Eh Eg _ E. exists 0, s'. split; [done|]. by left.
  - intros k q s' h Ho Hq _ Hg Eh Eg _ _ E. exists q, s'. split; [done|right]. rewrite En in Hg.
    destruct (realloc_copy_advances _ _ _ _ _ _ _ _ _ Hi E) as (T' & new & Hl & Hi').
    exists k, h, T', new. split_and!; try done. intros Hk x. rewrite Eg.
    by rewrite (memmove_copy (gm s) q p (Z.min k n) ltac:(lia) x).
Qed.

Lemma realloc_correct_witness :
  exists r s', ml_realloc pp0 th0 4096 64 tool_live = Some (r, s') /\
    ((r = 0 /\ tool_inv pp0 s' ∅ [] /\ heap s' = heap tool_live /\ gm s' = gm tool_live) \/
     (exists k h T' new, old_size tool_live ∅ 4096 k /\ heap_grows (heap tool_live) h r 64 /\
        heap s' = delete 4096 h /\
        (0 <= k -> forall x, gm s' x =
           if (r <=? x) && (x <? r + Z.min k 64) then gm tool_live (4096 + (x - r))
           else gm tool_live x) /\
        log_ok (sizes_of ∅) new (sizes_of T') /\ tool_inv pp0 s' T' ([] ++ new))).
Proof.
  apply (realloc_correct pp0 tool_live ∅ [] th0 4096 64); [apply ml_init_inv|lia|lia|].
  eexists. vm_compute. reflexivity.
Defined.

(** The tracking requests of a client: tracking a block enters it in the
    map, unless a tracked block starts at its address, and logs it; a size of
    zero is ignored; untracking the start of a tracked block removes it and
    logs the FREE, and is ignored elsewhere; both are answered with zero, and
    other requests are left alone. *)
Theorem client_requests_correct {H} `{ClientHeap H} pp (s : tool (H := H)) T es th a0 a1 a2 :
  tool_inv pp s T es ->
  exists s' T' new, tool_inv pp s' T' (es ++ new) /\ heap s' = heap s /\ gm s' = gm s /\
    if a0 =? VG_USERREQ__MEMLOG_TRACK_BLOCK then
      ml_handle_client_request pp th a0 a1 a2 s = Some ((true, Some 0), s') /\
      if 0 <? a2 then T' = track T (mk_block a1 a2 (exe_context th) false) /\
                      new = [EAlloc a1 a2 (exe_context th)]
      else T' = T /\ new = []
    else if a0 =? VG_USERREQ__MEMLOG_UNTRACK_BLOCK then
      ml_handle_client_request pp th a0 a1 a2 s = Some ((true, Some 0), s') /\
      untracked T a1 (exe_context th) T' new
    else ml_handle_client_request pp th a0 a1 a2 s = Some ((false, None), s) /\
      s' = s /\ T' = T /\ new = [].
Proof.
  intros Hi. unfold ml_handle_client_request.
  destruct (a0 =? VG_USERREQ__MEMLOG_TRACK_BLOCK).
  - destruct (0 <? a2).
    2:{ exists s, T, []. rewrite app_nil_r. by split_and!. }
    set (b := mk_block a1 a2 (exe_context th) false).
    assert (wp (bk <- on_bt (malloc_block b) ;; ret tt ;;; on_bt (insert_block_rb bk) ;;;
        on_lb (add_to_buffer pp LOG_ALLOC a1 0 a2 (exe_context th))) s (fun _ s' =>
      tool_inv pp s' (track T b) (es ++ [EAlloc a1 a2 (exe_context th)]) /\
      heap s' = heap s /\ gm s' = gm s)) as Hw.
    { eapply (wp_track pp s T es b (ret tt)); [exact Hi|intros s3; by exists s3|].
      intros s3 Hi3 (s1 & s2 & bl & Ef & -> & Es3). injection Ef as <-. split; [done|].
      by rewrite Es3. }
    apply wp_run in Hw as ([] & s' & E & Hi' & Eh & Eg).
    exists s', (track T b), [EAlloc a1 a2 (exe_context th)]. do 3 (split; [done|]). split; [|done].
    change (on_bt (malloc_block (mk_block a1 a2 (exe_context th) false))) with (on_bt (malloc_block b)).
    unfold bind in *. destruct (on_bt (malloc_block b) s) as [[l s1]|]; [|done].
    cbn [ret] in E |- *. unfold ret in E. by rewrite E.
  - destruct (a0 =? VG_USERREQ__MEMLOG_UNTRACK_BLOCK).
    2:{ exists s, T, []. rewrite app_nil_r. by split_and!. }
    assert (wp (untrack pp th a1) s (fun _ s' => exists T' new, tool_inv pp s' T' (es ++ new) /\
      untracked T a1 (exe_context th) T' new /\ heap s' = heap s /\ gm s' = gm s)) as Hw.
    { eapply wp_untrack; [exact Hi|]. intros b l T' new Hu Hi'. by exists T', new. }
    apply wp_run in Hw as ([] & s' & E & T' & new & Hi' & Hu & Eh & Eg).
    exists s', T', new. split_and!; try done. unfold bind. by rewrite E.
Qed.

Lemma client_requests_correct_witness :
  let a0 := VG_USERREQ__MEMLOG_TRACK_BLOCK in
  exists s' T' new, tool_inv pp0 s' T' ([] ++ new) /\ heap s' = heap tool0 /\ gm s' = gm tool0 /\
    if a0 =? VG_USERREQ__MEMLOG_TRACK_BLOCK then
      ml_handle_client_request pp0 th0 a0 512 24 tool0 = Some ((true, Some 0), s') /\
      if 0 <? 24 then T' = track ∅ (mk_block 512 24 (exe_context th0) false) /\
                      new = [EAlloc 512 24 (exe_context th0)]
      else T' = ∅ /\ new = []
    else if a0 =? VG_USERREQ__MEMLOG_UNTRACK_BLOCK then
      ml_handle_client_request pp0 th0 a0 512 24 tool0 = Some ((true, Some 0), s') /\
      untracked ∅ 512 (exe_context th0) T' new
    else ml_handle_client_request pp0 th0 a0 512 24 tool0 = Some ((false, None), tool0) /\
      s' = tool0 /\ T' = ∅ /\ new = [].
Proof.
  apply (client_requests_correct pp0 tool0 ∅ [] th0 VG_USERREQ__MEMLOG_TRACK_BLOCK 512 24).
  apply ml_init_inv.
Defined.

(** ** MX sites *)

(** [mx_site_selected] returns and changes nothing but the messages: with
    no sites and nothing to list every block is selected; otherwise it is
    selected just if one of the first sixteen frames is named and not an
    allocator's, and the first such frame's name or address is listed (any
    will do when no sites are). *)
Theorem mx_site_selected_correct {H} `{ClientHeap H} (s : tool (H := H)) th szB :
  exists s', mx_site_selected th szB s = Some (site_wanted s th, s') /\ same_core s s'.
Proof.
  apply (wp_elim (mx_site_selected th szB) s), wp_mx_site_selected. intros s' Hs E. exists s'. split; [|done]. done.
Qed.

(** [mx_load_sites] keeps the lines of the file that are neither empty
    nor comments, in order, up to the 4096th site, and ends. *)
Theorem mx_load_sites_correct {H} `{ClientHeap H} (o : options) h m name buf :
  clo_mx_round o = true -> clo_mx_sites_file o = Some name ->
  exists s' : tool (H := H), ml_post_clo_init (Some buf) (ml_init o h m) = Some (tt, s') /\
    mx_sites s' = take 4096 (sites_of buf) /\ opts s' = o.
Proof.
  intros Hr Hn. unfold ml_post_clo_init, bind, gets. cbn [opts ml_init]. rewrite Hr.
  rewrite (mx_load_sites_spec (ml_init o h m) name buf Hn). eexists. split; [done|]. split; [|done].
  unfold with_sites, add_sites. cbn [mx_sites ml_init List.length app].
  rewrite Nat.sub_0_r. done.
Qed.

Definition o_sites : options := mk_options 8 true mx_default (Some (str "sites.txt")) false rm_default.

Lemma mx_load_sites_correct_witness :
  exists s' : tool (H := gmap Z Z),
    ml_post_clo_init (Some (str ("# comment" ++ newline ++ "main" ++ newline ++ newline ++ "0x4005F0")))
      (ml_init o_sites ∅ (fun _ => 0)) = Some (tt, s') /\
    mx_sites s' = take 4096 (sites_of
      (str ("# comment" ++ newline ++ "main" ++ newline ++ newline ++ "0x4005F0"))) /\
    opts s' = o_sites.
Proof. by apply (mx_load_sites_correct o_sites ∅ (fun _ => 0) (str "sites.txt")). Defined.

Example two_sites : sites_of (str ("# comment" ++ newline ++ "main" ++ newline ++ newline ++ "0x4005F0"))
  = [str "main"; str "0x4005F0"].
Proof. vm_compute. reflexivity. Qed.
