(* ===== verification/MxTheorems.v ===== *)
(** Properties of the MX emulation: one element, one block, and the callback
    after a store, with concrete instances. *)
From stdpp Require Import base gmap list strings sets.
From Stdlib Require Import ZArith Lia.
From S2P Require Import Prelude Mem RbTree RbInv RbSearch BlockTrack BlockIndex Printf LibcStr LogBuffer Mx MxFloat MxQuant MxBlock MxStore Options Tool ToolProofs ToolTrace ToolHeap Heap ToolTheorems.
Open Scope prog_scope.
Open Scope Z_scope.

(** A client block of 20 binary64 elements, and one of them: 3.3 *)
Definition mem0 : gmem := fun x => x mod 256.
Definition bk0 : Block := mk_block 4096 160 None true.
Definition v33 : Z := 4614613358185178726.

Lemma mem0_ok : bytes_ok mem0.
Proof. intros a. unfold mem0. apply Z.mod_pos_bound. lia. Defined.

(** ** One element *)

(** C14. [mx_quantize] of a finite element keeps the sign and rounds the
    magnitude to the nearest multiple of its quantum, halves away from zero:
    the quantum is [mbits] below the element's leading bit, but not below
    that of the smallest exponent; in the top binade the significand is
    saturated at the greatest one; what the quantum does not shorten is
    unchanged; and the result is encoded exactly. *)
Theorem mx_quantize_rounds o f v shared t :
  opts_ok o -> known f -> elem f v -> finite f v ->
  fst (mx_quantize o f v shared t) = sgn f v + encode f (qmag o f shared (umag f (mag f v)))
  /\ (forall u, 0 <= u ->
        (forall n, quantum o f shared u = top o f shared -> n = nearest u (top o f shared) ->
           n <= mx_max_sig o) ->
        2 * Z.abs (qmag o f shared u - u) <= 2 ^ quantum o f shared u).
Proof.
  intros Ho Hf Hv Hfin. pose proof (known_ok f Hf) as Hok. split.
  - by apply quantize_spec.
  - intros u Hu Hn. by apply qmag_error.
Qed.

Lemma mx_quantize_rounds_witness :
  fst (mx_quantize mx_default FMT64 v33 (-7) stats0) =
    sgn FMT64 v33 + encode FMT64 (qmag mx_default FMT64 (-7) (umag FMT64 (mag FMT64 v33)))
  /\ (forall u, 0 <= u ->
        (forall n, quantum mx_default FMT64 (-7) u = top mx_default FMT64 (-7) ->
           n = nearest u (top mx_default FMT64 (-7)) -> n <= mx_max_sig mx_default) ->
        2 * Z.abs (qmag mx_default FMT64 (-7) u - u) <= 2 ^ quantum mx_default FMT64 (-7) u).
Proof.
  apply (mx_quantize_rounds mx_default FMT64 v33 (-7) stats0).
  - apply mx_default_ok.
  - by left.
  - split; [done|]. vm_compute. done.
  - vm_compute. done.
Defined.

(** The element 3.3 in a block with shared exponent -7 becomes 3.25. *)
Example quantize_33 : fst (mx_quantize mx_default FMT64 v33 (-7) stats0) = 4614500768194494464.
Proof. vm_compute. reflexivity. Qed.

(** [mx_quantize] is idempotent: rounding its result with the same shared
    exponent changes nothing, unless it is an infinity. *)
Theorem mx_quantize_idem o f v shared t t' :
  opts_ok o -> known f -> elem f v -> finite f v ->
  let w := fst (mx_quantize o f v shared t) in
  finite f w -> fst (mx_quantize o f w shared t') = w.
Proof.
  intros Ho Hf Hv Hfin w Hw. pose proof (known_ok f Hf) as Hok. subst w.
  rewrite (quantize_spec o Ho f Hok v shared t Hv Hfin) in *. fold (quantize o f shared v) in *.
  destruct (quantize_fields f Hf o Ho shared v Hv) as (Hew & Emag & _).
  rewrite (quantize_spec o Ho f Hok _ shared t' Hew Hw). apply (quantize_idem f Hf o Ho shared v Hv).
  destruct (Z.ltb_spec (Z.log2 (qmag o f shared (umag f (mag f v)))) (emask f - 1 + mant f)) as [|Hge];
    [done|].
  exfalso. unfold finite in Hw. rewrite Emag in Hw. unfold encode in Hw.
  apply Z.leb_le in Hge. rewrite Hge in Hw. unfold expo in Hw.
  rewrite Z.div_mul in Hw; [lia|]. apply Z.pow_nonzero; [done|]. pose proof (ok_mant f Hok). lia.
Qed.

Lemma mx_quantize_idem_witness :
  let w := fst (mx_quantize mx_default FMT64 v33 (-7) stats0) in
  fst (mx_quantize mx_default FMT64 w (-7) stats0) = w.
Proof.
  apply (mx_quantize_idem mx_default FMT64 v33 (-7) stats0 stats0).
  - apply mx_default_ok.
  - by left.
  - split; [done|]. vm_compute. done.
  - vm_compute. done.
  - vm_compute. done.
Defined.

(** ** One block *)

(** C31. [mx_encode_block] of the block's block [bi]: its elements become
    their reference encoding (all NaN if one is not finite or the greatest
    exponent is out of range, otherwise all rounded with the shared exponent
    of the greatest one), and no byte outside them changes. *)
Theorem mx_encode_block_correct o f bk bi m t :
  opts_ok o -> known f -> block_ok bk -> bytes_ok m -> 0 <= bi < nblocks f bk ->
  let m' := fst (mx_encode_block o f bk bi m t) in
  block_of f bk m' bi = encode_elems o f (block_of f bk m bi)
  /\ same_outside (at_block f bk bi) (Z.of_nat (count f bk bi) * esz f) m m' /\ bytes_ok m'.
Proof. intros. by apply encode_block_spec. Qed.

Lemma bk0_ok : block_ok bk0.
Proof. split; [done|split; done]. Defined.

Lemma mx_encode_block_correct_witness :
  let m' := fst (mx_encode_block mx_default FMT64 bk0 0 mem0 stats0) in
  block_of FMT64 bk0 m' 0 = encode_elems mx_default FMT64 (block_of FMT64 bk0 mem0 0)
  /\ same_outside (at_block FMT64 bk0 0) (Z.of_nat (count FMT64 bk0 0) * esz FMT64) mem0 m'
  /\ bytes_ok m'.
Proof.
  apply (mx_encode_block_correct mx_default FMT64 bk0 0 mem0 stats0).
  - apply mx_default_ok.
  - by left.
  - apply bk0_ok.
  - apply mem0_ok.
  - vm_compute. done.
Defined.

(** Re-encoding an encoded block changes no byte, when the greatest
    exponent a clamped scale allows is one of the format. *)
Theorem mx_encode_block_idem o f bk bi m t t' :
  opts_ok o -> known f -> block_ok bk -> bytes_ok m -> 0 <= bi < nblocks f bk -> clamp_ok f o ->
  let m' := fst (mx_encode_block o f bk bi m t) in
  fst (mx_encode_block o f bk bi m' t') = m'.
Proof. intros Ho Hf Hbk Hm Hbi Hc. exact (encode_block_idem o Ho f Hf bk Hbk m t t' bi Hm Hbi Hc). Qed.

Lemma mx_encode_block_idem_witness :
  let m' := fst (mx_encode_block mx_default FMT64 bk0 0 mem0 stats0) in
  fst (mx_encode_block mx_default FMT64 bk0 0 m' stats0) = m'.
Proof.
  apply (mx_encode_block_idem mx_default FMT64 bk0 0 mem0 stats0 stats0).
  - apply mx_default_ok.
  - by left.
  - apply bk0_ok.
  - apply mem0_ok.
  - vm_compute. done.
  - vm_compute. done.
Defined.

(** ** After a store *)

(** C13. The callback after a store of [n] bytes at [addr], in a state reached
    without tracking requests: if the address is in an MX block, exactly the
    32-element blocks that the store touches get their reference encoding,
    and no byte outside the block, or further than one 32-element block from
    the store, changes; if it is in no MX block, nothing changes. *)
Theorem mx_after_store_correct {H} `{ClientHeapLaws H} pp o h m os (s : tool (H := H)) addr n :
  allocated h = ∅ -> valid_runs pp (ml_init o h m) os s -> options_ok o -> bytes_ok (gm s) ->
  0 < n -> addr + n <= 2 ^ 64 ->
  exists T s', bt_inv (bt s) T /\ mx_after_store addr n s = Some (tt, s') /\
    bt s' = bt s /\ lb s' = lb s /\ heap s' = heap s /\ bytes_ok (gm s') /\
    let f := mx_format (clo_mx o) in
    ((exists bk, found_in T addr bk /\ mx bk = true /\
       (forall b, 0 <= b < nblocks f bk -> block_of f bk (gm s') b =
          if (at_block f bk b <? addr + n) && (addr <? at_block f bk (b + 1))
          then encode_elems (clo_mx o) f (block_of f bk (gm s) b) else block_of f bk (gm s) b) /\
       (forall x, x < addr - 256 \/ addr + n + 256 <= x \/ x < payload bk
            \/ payload bk + req_szB bk <= x -> gm s' x = gm s x)) \/
     ((forall bk, found_in T addr bk -> mx bk = false) /\ s' = s)).
Proof.
  intros Eh Hr Hopt Hm Hn Hend.
  destruct (valid_runs_spec pp _ _ _ Hr ∅ ∅ (agrees_init pp o h m Eh)) as (A & _ & Eo & T & Hag).
  cbn [opts ml_init] in Eo. destruct (ag_inv _ _ _ _ Hag) as [es [Hb _]]. exists T.
  apply (wp_elim (mx_after_store addr n) s). unfold mx_after_store. apply wp_bind, wp_on_bt.
  eapply wp_find_block; [exact Hb|..].
  2:{ intros Hno. rewrite set_bt_same. apply wp_ret. intros E. exists s. split_and!; try done.
      right. split; [|done]. intros bk Hf. by destruct (Hno bk). }
  intros bl bk Hbl Hf _. rewrite set_bt_same. apply wp_bind, wp_on_bt.
  eapply wp_load_block; [exact Hbl|]. rewrite set_bt_same. destruct (mx bk) eqn:Emx; cbn [negb].
  2:{ apply wp_ret. intros E. exists s. split_and!; try done. right. split; [|done].
      intros bk' Hf'. by rewrite (found_unique _ _ _ _ Hf' Hf). }
  apply wp_modify. intros E.
  destruct (agrees_found_inv _ _ _ _ _ _ Hag Hf) as [Hlk Ha].
  destruct (agrees_lookup _ _ _ _ _ _ Hag Hlk) as (_ & HA & _).
  destruct (ag_heap _ _ _ _ Hag _ _ HA) as (u & _ & Hsz & Hp & Hpu).
  assert (block_ok bk) as Hbk by (unfold block_ok; lia).
  pose proof (after_store_spec (clo_mx o) (ok_mx o Hopt) (mx_format (clo_mx o)) (known_format _)
    bk Hbk addr n (gm s) (stats s) eq_refl Ha Hn Hend Hm) as (Hbs & Hout & Hok).
  rewrite Eo in E. destruct (mx_after_store_in (clo_mx o) bk addr n (gm s) (stats s)) as [m' t'] eqn:Es.
  cbn [fst] in *. eexists. split; [done|]. split; [exact E|].
  split_and!; try done. left. exists bk. by split_and!.
Qed.

Lemma o8_ok : options_ok o8.
Proof. split; [done|apply mx_default_ok|done|by apply (bool_decide_unpack _)]. Defined.

Definition run_store : tool := after (OpMalloc th0 160) (ml_init o8 ∅ mem0).

Lemma run_store_runs : valid_runs pp0 (ml_init o8 ∅ mem0) [OpMalloc th0 160] run_store.
Proof. econstructor; [done|done|vm_compute; reflexivity|constructor]. Defined.

Lemma mx_after_store_correct_witness :
  exists T s', bt_inv (bt run_store) T /\ mx_after_store 4104 8 run_store = Some (tt, s') /\
    bt s' = bt run_store /\ lb s' = lb run_store /\ heap s' = heap run_store /\ bytes_ok (gm s') /\
    let f := mx_format mx_default in
    ((exists bk, found_in T 4104 bk /\ mx bk = true /\
       (forall b, 0 <= b < nblocks f bk -> block_of f bk (gm s') b =
          if (at_block f bk b <? 4104 + 8) && (4104 <? at_block f bk (b + 1))
          then encode_elems mx_default f (block_of f bk (gm run_store) b)
          else block_of f bk (gm run_store) b) /\
       (forall x, x < 4104 - 256 \/ 4104 + 8 + 256 <= x \/ x < payload bk
            \/ payload bk + req_szB bk <= x -> gm s' x = gm run_store x)) \/
     ((forall bk, found_in T 4104 bk -> mx bk = false) /\ s' = run_store)).
Proof.
  apply (mx_after_store_correct pp0 o8 ∅ mem0 [OpMalloc th0 160] run_store 4104 8).
  - done.
  - apply run_store_runs.
  - apply o8_ok.
  - vm_compute. apply mem0_ok.
  - done.
  - done.
Defined.
