(* ===== verification/InstrumentTheorems.v ===== *)
(** Properties of the two instrumentation passes, with a concrete superblock. *)
From stdpp Require Import base gmap list strings sets.
From Stdlib Require Import ZArith Lia Ascii String.
From S2P Require Import Prelude Mem RbTree RbInv RbSearch BlockTrack BlockIndex Printf LogBuffer Mx MxFloat MxQuant MxBlock MxStore Options Tool ToolProofs ToolTrace ToolHeap Heap ToolTheorems Instrument InstrumentProofs.
Open Scope prog_scope.
Open Scope Z_scope.

(** ** A concrete superblock: a copied statement and a store of a float *)

Definition other0 (x : unit) (t : temps) (g : unit) (m : gmem) : option (temps * unit * gmem * bool) :=
  Some (t, g, m, false).
Definition bb0 : IRSB unit :=
  mk_irsb [Ity_I64; Ity_F32]
    [Some (Ist_Other tt); None; Some (Ist_Store Iend_LE (Iex_RdTmp 0) (Iex_RdTmp 1))]
    (Iex_Const (Ico_U64 4096)).
Definition mach0 : machine (H := gmap Z Z) (G := unit) :=
  mk_machine {[ 0%nat := 4100; 1%nat := 1065353216 ]} tt tool1.

Lemma other0_respects n : respects other0 n tt.
Proof. intros t t' g m Ha. by repeat split. Defined.

Lemma bb0_scoped : scoped_block other0 (List.length (tyenv bb0)) (stmts bb0).
Proof. repeat constructor; cbn; auto. Defined.

(** ** Totality *)

Section Typed.
Context {X : Type}.

(** The data of every store has a type (and a size, for the MX pass). *)
Definition typed_stores (sized : bool) (env : IRTypeEnv) (l : list (option (IRStmt X))) : Prop :=
  Forall (fun o => match o with
    | Some (Ist_Store _ _ data) => exists ty, typeOfIRExpr env data = Some ty /\
        (sized = true -> sizeofIRType ty <> None)
    | _ => True
    end) l.


Lemma wire_mx_total in_env l : forall bb : IRSB X, typed_stores true in_env l ->
  exists bb', wire_mx_loop in_env l bb = Some (tt, bb').
Proof using Type.
  induction l as [|[st|] l IH]; intros bb Hl; [by eexists| |]; inversion Hl as [|? ? Ht Hl']; subst.
  2:{ by apply IH. }
  cbn [wire_mx_loop]. unfold bind at 1.
  assert (exists bb1, match st with Ist_Store en addr data => wire_mx_store in_env en addr data
    | _ => addStmtToIRSB st end bb = Some (tt, bb1)) as [bb1 ->].
  { destruct st as [|en addr data| |]; try by eexists. destruct Ht as (ty & Ety & Hs).
    specialize (Hs eq_refl). destruct (sizeofIRType ty) as [size|] eqn:Esz; [|done].
    rewrite (wire_mx_store_run in_env en addr data ty size bb Ety Esz). by eexists. }
  by apply IH.
Qed.
End Typed.

(** ** The passes *)



(** The reference execution of the concrete block is defined. *)
Example bb0_runs : exists s, exec_logging pp0 other0 (tyenv bb0) (stmts bb0) mach0 = Some s.
Proof. eexists. vm_compute. reflexivity. Qed.

(** C7. The MX pass: every superblock whose stores have a size is
    instrumented, and executing the result does what executing the original
    does with the re-encoding of the touched blocks after each store. *)
Theorem mx_instruments {H} `{ClientHeap H} pp {X G}
    (exec_other : X -> temps -> G -> gmem -> option (temps * G * gmem * bool))
    (o : options) (bb : IRSB X) :
  let n := List.length (tyenv bb) in
  clo_mx_round o = true -> scoped_block exec_other n (stmts bb) ->
  typed_stores true (tyenv bb) (stmts bb) ->
  exists bb', ml_instrument o bb = Some bb' /\ exit bb' = exit bb /\
    forall (s s1 : machine (H := H)), exec_mx pp exec_other (tyenv bb) (stmts bb) s = Some s1 ->
      exists s1', exec pp exec_other (tyenv bb') (stmts bb') s = Some s1' /\
        guest s1' = guest s1 /\ tl s1' = tl s1 /\
        forall k, (k < n)%nat -> tmps s1' !! k = tmps s1 !! k.
Proof.
  intros n Ho Hsc Hty. unfold ml_instrument, wire_mx. rewrite Ho.
  destruct (wire_mx_total (tyenv bb) (stmts bb) (deepCopyIRSBExceptStmts bb) Hty) as [bb' E].
  rewrite E. exists bb'. split; [done|].
  destruct (wire_mx_loop_sim (H := H) pp exec_other (tyenv bb) (stmts bb) (deepCopyIRSBExceptStmts bb) bb'
    Hsc ltac:(done) E)
    as (new & Es & Ee & _ & Hx).
  split; [done|]. intros s s1 E1. specialize (Hx (tyenv bb') s s ltac:(done) (sim_refl _ s)).
  unfold fwd in Hx. rewrite E1 in Hx. destruct Hx as (s1' & E1' & Ha & Hg & Ht).
  cbn [stmts deepCopyIRSBExceptStmts app] in Es. rewrite Es. exists s1'.
  split; [done|]. split; [done|]. split; [done|]. intros k Hk. by rewrite Ha.
Qed.

Lemma mx_instruments_witness :
  exists bb', ml_instrument o8 bb0 = Some bb' /\ exit bb' = exit bb0 /\
    forall (s s1 : machine (H := gmap Z Z)), exec_mx pp0 other0 (tyenv bb0) (stmts bb0) s = Some s1 ->
      exists s1', exec pp0 other0 (tyenv bb') (stmts bb') s = Some s1' /\
        guest s1' = guest s1 /\ tl s1' = tl s1 /\
        forall k, (k < 2)%nat -> tmps s1' !! k = tmps s1 !! k.
Proof.
  apply (mx_instruments pp0 other0 o8 bb0); [done|apply bb0_scoped|].
  repeat constructor. exists Ity_F32. done.
Defined.

(** ** What is logged of a store *)






Example v128_logged : store_events Ity_V128 4096 (2 * 2 ^ 64 + 1) = [(4096, 2); (4104, 1)] /\
  load_le 8 (store_bytes Iend_LE 16 (fun x => 0) 4096 (2 * 2 ^ 64 + 1)) 4096 = 1.
Proof. split; vm_compute; reflexivity. Qed.
