(* ===== verification/LibcTheorems.v ===== *)
(** Properties of the core's libc replacements, of the debug log's printf and
    of the sequence matcher, with concrete instances. *)
From stdpp Require Import base gmap list strings sets.
From Stdlib Require Import ZArith Lia Ascii String.
From S2P Require Import Prelude Mem LibcMem LibcMemProofs LibcSort LibcSortProofs Adler Printf PrintfProofs LibcStr LibcStrProofs BlockTrack LogBuffer Mx MxQuant Options SeqMatch ReplaceStr.
Open Scope prog_scope.
Open Scope Z_scope.

Definition counting : gmem := fun x => x mod 256.

Lemma counting_ok : bytes_ok counting.
Proof. intros a. unfold counting. apply Z.mod_pos_bound. lia. Defined.

(** ** Memory *)

(** [memcpy], by words when both addresses are aligned and by bytes
    otherwise, copies exactly [sz] bytes whenever the source does not start
    inside the destination's first [sz] bytes from below. *)
Theorem memcpy_correct m d s sz : bytes_ok m -> 0 <= sz -> d <= s \/ s + sz <= d ->
  forall x, memcpy m d s sz x = if (d <=? x) && (x <? d + sz) then m (s + (x - d)) else m x.
Proof. intros Hm Hsz Hs x. by apply (memcpy_copied m Hm d s sz Hs Hsz x). Qed.

Lemma memcpy_correct_witness :
  40 + 37 <= 1000 /\ forall x, memcpy counting 1000 40 37 x =
    if (1000 <=? x) && (x <? 1000 + 37) then counting (40 + (x - 1000)) else counting x.
Proof.
  split; [lia|]. apply (memcpy_correct counting 1000 40 37); [apply counting_ok|lia|right; lia].
Defined.

(** [memmove] copies [sz] bytes also between overlapping regions. *)
Theorem memmove_correct m d s sz : 0 <= sz ->
  forall x, memmove m d s sz x = if (d <=? x) && (x <? d + sz) then m (s + (x - d)) else m x.
Proof. intros Hsz x. by apply (memmove_copy m d s sz Hsz x). Qed.

Lemma memmove_correct_witness :
  42 < 40 + 37 /\ forall x, memmove counting 42 40 37 x =
    if (42 <=? x) && (x <? 42 + 37) then counting (40 + (x - 42)) else counting x.
Proof. split; [lia|]. apply (memmove_correct counting 42 40 37). lia. Defined.

(** [memset] sets exactly [sz] bytes to the low byte of [c], and
    [memcmp] returns zero just for equal regions, otherwise the difference of
    the first bytes that differ. *)
Theorem memset_memcmp_correct m d c sz p1 p2 n : 0 <= sz ->
  (forall x, memset m d c sz x = if (d <=? x) && (x <? d + sz) then c mod 256 else m x) /\
  (memcmp m p1 p2 n = 0 <-> forall i, 0 <= i < Z.of_nat n -> m (p1 + i) = m (p2 + i)) /\
  (memcmp m p1 p2 n <> 0 -> exists i, 0 <= i < Z.of_nat n /\
     memcmp m p1 p2 n = m (p1 + i) - m (p2 + i) /\
     forall j, 0 <= j < i -> m (p1 + j) = m (p2 + j)).
Proof.
  intros Hsz. split; [intros x; by apply (memset_fill m d c sz Hsz x)|]. apply memcmp_spec.
Qed.

Lemma memset_memcmp_correct_witness :
  (forall x, memset counting 13 511 70 x = if (13 <=? x) && (x <? 13 + 70) then 511 mod 256 else counting x) /\
  (memcmp counting 0 256 9 = 0 <->
     forall i, 0 <= i < Z.of_nat 9 -> counting (0 + i) = counting (256 + i)) /\
  (memcmp counting 0 256 9 <> 0 -> exists i, 0 <= i < Z.of_nat 9 /\
     memcmp counting 0 256 9 = counting (0 + i) - counting (256 + i) /\
     forall j, 0 <= j < i -> counting (0 + j) = counting (256 + j)).
Proof. apply (memset_memcmp_correct counting 13 511 70 0 256 9). lia. Defined.

(** [strlcpy] into a buffer of [sz > 0] bytes copies at most [sz - 1]
    characters, terminates them, and returns the length of the source; no
    other byte changes. *)
Theorem strlcpy_correct m d s n sz : cstr m s n -> 0 < sz < 2 ^ 64 -> s + n < d \/ d + sz <= s ->
  exists m', strlcpy (S (Z.to_nat n)) m d s sz = Some (m', n) /\
    let k := Z.min n (sz - 1) in
    forall x, m' x = if x =? d + k then 0
                     else if (d <=? x) && (x <? d + k) then m (s + (x - d)) else m x.
Proof.
  intros Hc Hsz Hd. destruct (strlcpy_spec (S (Z.to_nat n)) m d s n sz Hc ltac:(lia) Hsz Hd)
    as (m' & E & Hm'). exists m'. split; [done|]. intros k x. by rewrite (Hm' x).
Qed.

(** A string of 16 characters at 240 *)
Lemma counting_cstr : cstr counting 240 16.
Proof.
  split; [lia|]. split; [|done]. intros i Hi. unfold counting. rewrite Z.mod_small; lia.
Defined.

Lemma strlcpy_correct_witness :
  exists m', strlcpy (S (Z.to_nat 16)) counting 1000 240 8 = Some (m', 16) /\
    let k := Z.min 16 (8 - 1) in
    forall x, m' x = if x =? 1000 + k then 0
                     else if (1000 <=? x) && (x <? 1000 + k) then counting (240 + (x - 1000))
                     else counting x.
Proof. apply (strlcpy_correct counting 1000 240 16 8); [apply counting_cstr|lia|left; lia]. Defined.

(** ** Sorting *)

(** C35. [ssort] ends, and for every comparison that is a preorder it leaves
    the array sorted, a permutation of what it was, and the rest of memory
    as it was; so with its by-value and its general exchange. *)
Theorem ssort_correct {A} (cmp : A -> A -> Z) by_value (m : Z -> A) base n :
  preorder cmp -> 0 <= n ->
  let m' := ssort cmp by_value m base n in
  (forall i j, base <= i -> i < j -> j < base + n -> cmp (m' i) (m' j) <= 0) /\
  (forall x, x < base \/ base + n <= x -> m' x = m x) /\
  slice m' base (Z.to_nat n) ≡ₚ slice m base (Z.to_nat n).
Proof.
  intros Hc Hn m'. destruct (ssort_spec cmp Hc by_value m base n Hn) as [Hs [Ho Hp]]. done.
Qed.

Lemma sub_preorder : preorder Z.sub.
Proof. split; intros; lia. Defined.

Lemma ssort_correct_witness :
  let m' := ssort Z.sub true (fun x => (7 * x) mod 31) 0 31 in
  (forall i j, 0 <= i -> i < j -> j < 0 + 31 -> m' i - m' j <= 0) /\
  (forall x, x < 0 \/ 0 + 31 <= x -> m' x = (7 * x) mod 31) /\
  slice m' 0 (Z.to_nat 31) ≡ₚ slice (fun x => (7 * x) mod 31) 0 (Z.to_nat 31).
Proof. apply (ssort_correct Z.sub true (fun x => (7 * x) mod 31) 0 31); [apply sub_preorder|lia]. Defined.

(** ** Checksums *)

(** [adler32], with its unrolled loops and its reductions delayed to
    every 5552 bytes and done by shifts, is the Adler-32 sum computed byte by
    byte modulo 65521, and no 32-bit sum overflows on the way. *)
Theorem adler32_correct adler buf : bytes buf -> reduced (split_sums adler) ->
  let r := adler_ref buf (split_sums adler) in
  adler32 adler (Some buf) = r.2 * 65536 + r.1 /\ 0 <= r.1 < BASE /\ 0 <= r.2 < BASE.
Proof. intros Hb Hr. by apply adler32_spec. Qed.

Lemma adler32_correct_witness :
  let r := adler_ref [87; 105; 107; 105] (split_sums 1) in
  adler32 1 (Some [87; 105; 107; 105]) = r.2 * 65536 + r.1 /\ 0 <= r.1 < BASE /\ 0 <= r.2 < BASE.
Proof.
  apply (adler32_correct 1 [87; 105; 107; 105]).
  - unfold bytes. repeat constructor; done.
  - vm_compute. repeat split; done.
Defined.

(** ** Strings *)

(** C39. Printing a 64-bit number in decimal or hexadecimal and reading it
    back with [strtoull10] or [strtoull16] gives the number, and leaves what
    follows it. *)
Theorem printed_numbers_read_back w caps rest : 0 <= w < 2 ^ 64 ->
  rest = [] \/ is_hex_digit (cur rest) = None ->
  ascii_eqb (cur rest) "x" = false -> ascii_eqb (cur rest) "X" = false ->
  strtoull10 ((myvprintf_int64 0 10 0 false w).2 ++ rest) = (w, rest) /\
  strtoull16 ((myvprintf_int64 0 16 0 caps w).2 ++ rest) = (w, rest).
Proof.
  intros Hw Hr Hx HX. split.
  - apply strtoull10_printed; [done|]. destruct Hr as [|Hr]; [by left|right].
    revert Hr. unfold is_hex_digit, is_dec_digit. by destruct (in_range _ _ _).
  - by apply strtoull16_printed.
Qed.

Lemma printed_numbers_read_back_witness :
  strtoull10 ((myvprintf_int64 0 10 0 false 48879).2 ++ str ", size 8") = (48879, str ", size 8") /\
  strtoull16 ((myvprintf_int64 0 16 0 true 48879).2 ++ str ", size 8") = (48879, str ", size 8").
Proof. apply (printed_numbers_read_back 48879 true (str ", size 8")); [lia|by right|done|done]. Defined.

(** [strcmp] is a total order on strings: it is zero just for equal
    strings, antisymmetric and transitive, with results -1, 0 and 1. *)
Theorem strcmp_total_order s1 s2 s3 : no_nul s1 -> no_nul s2 -> no_nul s3 ->
  (strcmp s1 s2 = 0 <-> s1 = s2) /\ strcmp s2 s1 = - strcmp s1 s2 /\
  (strcmp s1 s2 = -1 -> strcmp s2 s3 = -1 -> strcmp s1 s3 = -1) /\
  (strcmp s1 s2 = -1 \/ strcmp s1 s2 = 0 \/ strcmp s1 s2 = 1).
Proof.
  intros L1 L2 L3. split; [by apply strcmp_eq|]. split; [apply strcmp_opp|].
  split; [by apply strcmp_trans|apply strcmp_cases].
Qed.

Lemma no_nul_dec (s : chars) : forallb (fun c => negb (ascii_eqb c NUL)) s = true -> no_nul s.
Proof.
  unfold no_nul. induction s as [|c s IH]; cbn [forallb]; intros E; constructor.
  - apply andb_prop in E as [E _]. intros ->. done.
  - apply andb_prop in E as [_ E]. by apply IH.
Defined.

Lemma strcmp_total_order_witness :
  let s1 := str "calloc" in let s2 := str "malloc" in let s3 := str "memalign" in
  (strcmp s1 s2 = 0 <-> s1 = s2) /\ strcmp s2 s1 = - strcmp s1 s2 /\
  (strcmp s1 s2 = -1 -> strcmp s2 s3 = -1 -> strcmp s1 s3 = -1) /\
  (strcmp s1 s2 = -1 \/ strcmp s1 s2 = 0 \/ strcmp s1 s2 = 1).
Proof.
  apply (strcmp_total_order (str "calloc") (str "malloc") (str "memalign")); by apply no_nul_dec.
Defined.

(** [strstr] of a non-empty needle returns the haystack from the first
    occurrence of the needle, and null just when there is none. *)
Theorem strstr_first needle h : needle <> [] -> no_nul needle -> no_nul h ->
  match strstr (Some h) needle with
  | Some r => exists p, h = p ++ r /\ needle `prefix_of` r /\
      forall p' r', h = p' ++ r' -> needle `prefix_of` r' -> (List.length p <= List.length p')%nat
  | None => ~ occurs needle h
  end.
Proof.
  intros Hne Hn Hh. pose proof (strstr_occurs needle h Hne Hn Hh) as Ho. revert Ho.
  cbn [strstr]. rewrite strlen_length, Nat2Z.id. pose proof (strstr_loop_spec needle h Hn Hh) as Hs.
  destruct (strstr_loop h needle (List.length needle)) as [r|]; intros Ho.
  - destruct Hs as (p & E & _ & Hp & Hmin). exists p. split_and!; [done..|].
    intros p' r' E' [q ->]. apply (Hmin p' (needle ++ q)); [done|by exists q|].
    by destruct needle.
  - intros Hocc. apply Ho in Hocc as [? ?]. done.
Qed.

Lemma strstr_first_witness :
  match strstr (Some (str "my_malloc_hook")) (str "malloc") with
  | Some r => exists p, str "my_malloc_hook" = p ++ r /\ str "malloc" `prefix_of` r /\
      forall p' r', str "my_malloc_hook" = p' ++ r' -> str "malloc" `prefix_of` r' ->
        (List.length p <= List.length p')%nat
  | None => ~ occurs (str "malloc") (str "my_malloc_hook")
  end.
Proof. apply (strstr_first (str "malloc") (str "my_malloc_hook")); [done|by apply no_nul_dec..]. Defined.

(** [strtok_r], called until it returns null, ends, and its tokens are the
    maximal runs of characters that are no delimiters. *)
Theorem strtok_r_tokens delim s saveptr :
  tokens_loop (S (List.length s)) delim (Some s) saveptr = Some (fields delim s).
Proof. apply (tokens_fields (S (List.length s)) delim (Some s) saveptr). lia. Qed.

(** ** The debug log's printf *)

(** The count [vprintf] returns is the number of characters it sent,
    modulo 2^32, for every format without [%#] and [*]. *)
Theorem vprintf_returns_length xml format args r out :
  debugLog_vprintf xml format args = Some (r, out) ->
  "#"%char ∉ format -> "*"%char ∉ format -> r = u32 (Z.of_nat (List.length out)).
Proof. intros E L1 L2. exact (vprintf_counted _ xml format args r out E L1 L2). Qed.

Lemma vprintf_returns_length_witness : 15 = u32 (Z.of_nat (List.length (str "Start 0xff,   7"))).
Proof.
  apply (vprintf_returns_length false (str "Start 0x%lx, %3d") [VWord 255; VWord 7]).
  - vm_compute. reflexivity.
  - apply (bool_decide_unpack _). vm_compute. done.
  - apply (bool_decide_unpack _). vm_compute. done.
Defined.

(** ** The command line *)

(** C40. Whatever the command line, if no argument ends the program the
    options are in the ranges the tool relies on. *)
Theorem options_in_range args o : process_args args ml_default = Some o ->
  1 <= clo_min_block_size o <= 1024 * 1024 * 1024 /\ opts_ok (clo_mx o) /\
  4 <= clo_mx_esz (clo_mx o) <= 8 /\
  clo_alignment (clo_rm o) ∈ map (Z.pow 2) [4; 5; 6; 7; 8; 9; 10; 11; 12].
Proof. intros E. by destruct (process_args_ok args ml_default o ml_default_ok E). Qed.

Definition args0 : list chars := [str "--min-block-size=64"; str "--mx-round=yes"; str "--mx-esz=4"].

Definition o_args0 : options :=
  match process_args args0 ml_default with Some o => o | None => ml_default end.

Lemma options_in_range_witness :
  1 <= clo_min_block_size o_args0 <= 1024 * 1024 * 1024 /\ opts_ok (clo_mx o_args0) /\
  4 <= clo_mx_esz (clo_mx o_args0) <= 8 /\
  clo_alignment (clo_rm o_args0) ∈ map (Z.pow 2) [4; 5; 6; 7; 8; 9; 10; 11; 12].
Proof. apply (options_in_range args0 o_args0). vm_compute. reflexivity. Defined.

(** * Properties of the sequence matcher, with concrete instances. *)



(** [string_match] terminates on any two strings of fewer than a million
    characters, and answers whether the second is in the language of the
    first, where [*] stands for any string and [?] for any character. *)
Theorem string_match_correct patt input :
  Z.of_nat (List.length patt) < 1000000 -> Z.of_nat (List.length input) < 1000000 ->
  exists b, string_match patt input = Some b /\ (b = true <-> glob patt input).
Proof. apply string_match_spec. Qed.

Lemma string_match_correct_witness :
  exists b, string_match (str "m*c?d") (str "magic.d") = Some b /\
    (b = true <-> glob (str "m*c?d") (str "magic.d")).
Proof. by apply (string_match_correct (str "m*c?d") (str "magic.d")). Defined.

(** ** The client's memory and string functions *)

(** C27. Whatever the overlap, the alignment and the size, the client's
    [memmove], [memcpy], [mempcpy] and [bcopy] leave the bytes at [src] at
    [dst] as if copied all at once and return what they document; the checked
    variants do the same, except that they end the program with memory
    untouched exactly when the destination is too small; [memset] sets
    exactly its bytes; and [memccpy] of regions that it may copy upwards
    stops after the first byte it looks for. *)
Theorem client_memory_copied m dst src n c : bytes_ok m -> 0 <= n -> 0 <= dst -> 0 <= src ->
  dst + n <= 2 ^ 64 -> src + n <= 2 ^ 64 ->
  let result := copy m dst src n in
  (mem_eq (fst (MEMMOVE m dst src n)) result /\ snd (MEMMOVE m dst src n) = dst) /\
  (mem_eq (fst (MEMCPY m dst src n)) result /\ snd (MEMCPY m dst src n) = dst) /\
  (mem_eq (fst (GLIBC25_MEMPCPY m dst src n)) result /\ snd (GLIBC25_MEMPCPY m dst src n) = dst + n) /\
  mem_eq (BCOPY m src dst n) result /\
  (forall size, if size <? n
     then GLIBC25___MEMMOVE_CHK m dst src n size = Terminated m /\
          GLIBC26___MEMCPY_CHK m dst src n size = Terminated m
     else returns (GLIBC25___MEMMOVE_CHK m dst src n size) result dst /\
          returns (GLIBC26___MEMCPY_CHK m dst src n size) result dst) /\
  (mem_eq (fst (MEMSET m dst c n)) (fill m dst (c mod 256) n) /\ snd (MEMSET m dst c n) = dst) /\
  (dst <= src \/ src + n <= dst -> exists m',
     match index_of (fun b => b =? c mod 256) (elts char m src (Z.to_nat n)) with
     | Some i => mem_eq m' (copy m dst src (i + 1)) /\ MEMCCPY m dst src c n = (m', dst + i + 1)
     | None => mem_eq m' result /\ MEMCCPY m dst src c n = (m', 0)
     end).
Proof.
  intros Hm Hn Hd Hs Hde Hse result.
  pose proof (MEMMOVE_OR_MEMCPY_copy m dst src n Hm Hn Hd Hs Hde Hse) as Hmove.
  pose proof (MEMMOVE_OR_MEMCPY_returns m dst src n) as Hret.
  pose proof (memmove_copy m dst src n Hn) as Hm'.
  split; [done|]. split; [done|]. split; [by apply (mempcpy_copy m dst src n)|].
  split; [unfold BCOPY; by rewrite moves_memmove|]. split; [intros size; by apply (checked_copy m dst src n size)|].
  split; [split; [by apply MEMSET_fill|done]|].
  intros Hsafe. pose proof (memccpy_loop_spec (as_byte c) (Z.to_nat n) m dst src Hm) as Hc.
  rewrite Z2Nat.id in Hc by done. apply Hc, Hsafe.
Qed.

Lemma client_memory_copied_witness :
  let result := copy counting 1003 1000 100 in
  mem_eq (fst (MEMMOVE counting 1003 1000 100)) result /\
  GLIBC25___MEMMOVE_CHK counting 1003 1000 100 99 = Terminated counting.
Proof.
  destruct (client_memory_copied counting 1003 1000 100 7 counting_ok
    ltac:(lia) ltac:(lia) ltac:(lia) ltac:(lia) ltac:(lia)) as ([H _] & _ & _ & _ & Hc & _).
  split; [exact H|]. exact (proj1 (Hc 99)).
Defined.

(** C28. Copying and appending a string that does not overlap what it
    overwrites: [strcpy], [stpcpy] and [strcat] write its characters and its
    NUL, so that the destination holds the string, [strncpy] and [stpncpy]
    write exactly [n] bytes, padded with NULs, [strncat] and [strlcat] what
    fits and a NUL, [strlcpy] what fits and returns the length of the source,
    and the checked copies end the program exactly when there is no room for
    the NUL, without writing behind the size they are told. *)
Theorem client_strings_copied m dst src l : bytes_ok m -> str_at char m src l -> str_apart dst src l ->
  (forall fuel, (List.length l < fuel)%nat -> exists m',
     STRCPY fuel m dst src = Some (m', dst) /\ STPCPY fuel m dst src = Some (m', dst + len l) /\
     mem_eq m' (copy m dst src (len l + 1)) /\ str_at char m' dst l /\
     forall d0 l0, str_at char m d0 l0 -> d0 + len l0 = dst -> (List.length l0 < fuel)%nat ->
       STRCAT fuel m d0 src = Some (m', d0) /\ str_at char m' d0 (l0 ++ l)) /\
  (forall n, 0 <= n -> let k := Z.min n (len l) in
     (exists m', STRNCPY m dst src n = (m', dst) /\ STPNCPY m dst src n = (m', dst + k) /\
        mem_eq m' (placed char m dst src k (n - k))) /\
     exists m', mem_eq m' (placed char m dst src k 1) /\
       forall fuel d0 l0, str_at char m d0 l0 -> d0 + len l0 = dst -> (List.length l0 < fuel)%nat ->
         STRNCAT fuel m d0 src n = Some (m', d0)) /\
  (forall fuel n, (List.length l < fuel)%nat -> 0 <= n ->
     (exists m', STRLCPY fuel m dst src n = Some (m', len l) /\
        mem_eq m' (if 0 <? n then placed char m dst src (Z.min (n - 1) (len l)) 1 else m)) /\
     forall d0 l0, str_at char m d0 l0 -> d0 + len l0 = dst -> exists m',
       STRLCAT fuel m d0 src n = Some (m', Z.min n (len l0) + len l) /\
       mem_eq m' (if len l0 <? n
                  then placed char m dst src (Z.min (n - 1 - len l0) (len l)) 1 else m)) /\
  (forall n, 0 <= n ->
     if len l <? n
     then returns (GLIBC25___STRCPY_CHK m dst src n) (copy m dst src (len l + 1)) dst /\
          returns (GLIBC25___STPCPY_CHK m dst src n) (copy m dst src (len l + 1)) (dst + len l)
     else terminates (GLIBC25___STRCPY_CHK m dst src n) (copy m dst src n) /\
          terminates (GLIBC25___STPCPY_CHK m dst src n) (copy m dst src n)).
Proof.
  intros Hm H Ha. split; [|split; [|split]].
  - intros fuel Hf. by apply strcpy_strcat.
  - intros n Hn. by apply (strncpy_strncat m Hm dst src l H Ha n Hn).
  - intros fuel n Hf Hn. split; [by apply STRLCPY_spec|].
    intros d0 l0 H0 <-. by apply STRLCAT_spec.
  - intros n Hn. by apply strcpy_checked.
Qed.

(** The characters from 240 to 255 *)
Definition high_chars : list Z := seqZ 240 16.

Lemma counting_str : str_at char counting 240 high_chars.
Proof. vm_compute. repeat (split; [reflexivity|]; split; [discriminate|]). reflexivity. Defined.

Lemma client_strings_copied_witness :
  (exists m', STRNCPY counting 1000 240 20 = (m', 1000) /\ STPNCPY counting 1000 240 20 = (m', 1016) /\
     mem_eq m' (placed char counting 1000 240 16 4)) /\
  terminates (GLIBC25___STRCPY_CHK counting 1000 240 16) (copy counting 1000 240 16).
Proof.
  destruct (client_strings_copied counting 1000 240 high_chars counting_ok counting_str
    ltac:(right; vm_compute; discriminate)) as (_ & Hn & _ & Hc).
  split; [exact (proj1 (Hn 20 ltac:(lia)))|]. exact (proj1 (Hc 16 ltac:(lia))).
Defined.

(** C29. Searching a string gives what its list of characters says: [strlen]
    and [strnlen] its length, [strchr] and [strrchr] the first and the last
    occurrence (the NUL is one of a NUL), [strchrnul] the first or the end,
    [strspn], [strcspn] and [strpbrk] the first character outside or inside a
    set, [strstr] (and [strcasestr], for a [tolower] that maps just a NUL to
    a NUL) the first occurrence of another string; [memchr], [memrchr],
    [rawmemchr] and [memmem] do the same on regions of memory. *)
Theorem client_strings_searched m s l c fuel : str_at char m s l -> (List.length l < fuel)%nat ->
  let is_c := fun x => x =? c mod 256 in
  STRLEN fuel m s = Some (len l) /\
  STRCHR fuel m s c = Some (ptr char s (index_of is_c (l ++ [0]))) /\
  STRRCHR fuel m s c = Some (ptr char s (last_index is_c (l ++ [0]))) /\
  GLIBC232_STRCHRNUL fuel m s c = Some (s + span_len (fun x => negb (is_c x)) l) /\
  (forall n, 0 <= n -> STRNLEN m s n = Z.min n (len l)) /\
  (forall a al, str_at char m a al -> (List.length al < fuel)%nat ->
     STRSPN fuel m s a = Some (span_len (member al) l) /\
     STRCSPN fuel m s a = Some (span_len (fun x => negb (member al x)) l) /\
     STRPBRK fuel m s a = Some (ptr char s (index_of (member al) l)) /\
     STRSTR fuel m s a = Some (ptr char s (first_match al l)) /\
     forall tolower, bytes_ok m ->
       (forall x, 0 <= x < 256 -> as_byte (tolower (as_HChar x)) = 0 <-> x = 0) ->
       let low := fun x => tolower (as_HChar x) in
       STRCASESTR tolower fuel m s a = Some (ptr char s (first_match (low <$> al) (low <$> l)))) /\
  forall p n, 0 <= n -> let bytes := elts char m p (Z.to_nat n) in
    MEMCHR m p c n = ptr char p (index_of is_c bytes) /\
    MEMRCHR m p c n = ptr char p (last_index is_c bytes) /\
    (forall i, index_of is_c bytes = Some i -> (Z.to_nat n <= fuel)%nat ->
       GLIBC232_RAWMEMCHR fuel m p c = Some (p + i)) /\
    forall q k, 0 <= k -> MEMMEM m p n q k = ptr char p (first_match (elts char m q (Z.to_nat k)) bytes).
Proof.
  intros H Hf is_c.
  split; [unfold STRLEN; rewrite (strlen_loop_spec char m s l); [done|by rewrite at_elt_0|done]|].
  split; [by apply strchr_loop_spec|]. split; [by apply STRRCHR_loop_spec|].
  split; [by apply strchrnul_loop_spec|].
  split; [intros n Hn; unfold STRNLEN; rewrite (take_before_nul char m l) by done; by rewrite Z2Nat.id|].
  split.
  - intros a al Ha Hal. split; [by apply STRSPN_spec|]. split; [by apply STRCSPN_spec|].
    split; [by apply STRPBRK_spec|]. split; [by apply STRSTR_spec|]. intros. by apply STRCASESTR_spec.
  - intros p n Hn bytes. split; [apply memchr_loop_spec|]. split; [apply memrchr_loop_spec|].
    split; [|intros; by apply MEMMEM_spec]. intros i Hi Hle. by eapply rawmemchr_loop_spec.
Qed.

Lemma client_strings_searched_witness :
  STRCHR 17 counting 240 (-11) = Some 245 /\ STRSTR 17 counting 240 250 = Some 250 /\
  MEMRCHR counting 3 4 600 = 516.
Proof.
  destruct (client_strings_searched counting 240 high_chars (-11) 17 counting_str ltac:(apply Nat.ltb_lt; reflexivity))
    as (_ & Hchr & _ & _ & _ & Hn & _).
  split; [exact Hchr|]. split.
  - assert (str_at char counting 250 (seqZ 250 6)) as Hs
      by (vm_compute; repeat (split; [reflexivity|]; split; [discriminate|]); reflexivity).
    exact (proj1 (proj2 (proj2 (proj2 (Hn 250 (seqZ 250 6) Hs ltac:(apply Nat.ltb_lt; reflexivity)))))).
  - destruct (client_strings_searched counting 240 high_chars 4 17 counting_str ltac:(apply Nat.ltb_lt; reflexivity))
      as (_ & _ & _ & _ & _ & _ & Hm).
    exact (proj1 (proj2 (Hm 3 600 ltac:(lia)))).
Defined.

(** C30. Comparing strings is the lexicographic order of their characters as
    unsigned bytes: all of them for [strcmp], the first [n] for [strncmp],
    after [tolower] for [strcasecmp] and [strncasecmp]; and [memcmp], which
    compares aligned regions by words first, returns the difference of the
    first bytes that differ. *)
Theorem client_strings_compared (tolower : Z -> Z) m s1 s2 l1 l2 fuel : bytes_ok m ->
  (forall c, 0 <= c < 256 -> as_byte (tolower c) = 0 <-> c = 0) ->
  str_at char m s1 l1 -> str_at char m s2 l2 -> (List.length l1 + List.length l2 < fuel)%nat ->
  let low := fun c => as_byte (tolower c) in
  STRCMP fuel m s1 s2 = Some (lex l1 l2) /\
  STRCASECMP tolower fuel m s1 s2 = Some (lex (low <$> l1) (low <$> l2)) /\
  forall n, 0 <= n -> let k := Z.to_nat n in
    STRNCMP m s1 s2 n = lex (take k l1) (take k l2) /\
    STRNCASECMP tolower m s1 s2 n = lex (tolower <$> take k l1) (tolower <$> take k l2) /\
    forall p q, MEMCMP m p q n = first_diff (elts char m p k) (elts char m q k).
Proof.
  intros Hm Ht H1 H2 Hf low. split; [|split].
  - unfold STRCMP. rewrite (char_cmp m Hm s1 s2 l1 l2 H1 H2 fuel Hf id), !list_fmap_id; [done|].
    intros c Hc. unfold id. lia.
  - apply (char_cmp m Hm s1 s2 l1 l2); [done|done|done|]. intros c Hc. split; [|by apply Ht].
    apply as_byte_range.
  - intros n Hn k. split; [|split].
    + unfold STRNCMP. rewrite (char_ncmp m s1 s2 l1 l2) by done. by rewrite !list_fmap_id.
    + by apply char_ncmp.
    + intros p q. by apply MEMCMP_spec.
Qed.

(** [tolower] of the C locale *)
Definition c_tolower (c : Z) : Z := if (65 <=? c) && (c <=? 90) then c + 32 else c.

Lemma c_tolower_nul c : 0 <= c < 256 -> as_byte (c_tolower c) = 0 <-> c = 0.
Proof.
  intros Hc. unfold as_byte, c_tolower. destruct (Z.leb_spec 65 c), (Z.leb_spec c 90); cbn [andb];
    rewrite Z.mod_small by lia; lia.
Defined.

Lemma client_strings_compared_witness :
  STRCMP 40 counting 240 250 = Some (-1) /\ STRNCMP counting 240 250 0 = 0 /\
  MEMCMP counting 8 264 4096 = 0 /\ MEMCMP counting 8 272 64 = -8.
Proof.
  assert (str_at char counting 250 (seqZ 250 6)) as Hs
    by (vm_compute; repeat (split; [reflexivity|]; split; [discriminate|]); reflexivity).
  destruct (client_strings_compared c_tolower counting 240 250 high_chars (seqZ 250 6) 40 counting_ok
    c_tolower_nul counting_str Hs ltac:(apply Nat.ltb_lt; reflexivity)) as (H & _ & Hn).
  split; [exact H|]. split; [exact (proj1 (Hn 0 ltac:(lia)))|]. split.
  - pose proof (proj2 (proj2 (Hn 4096 ltac:(lia))) 8 264) as E. rewrite E. vm_compute. reflexivity.
  - pose proof (proj2 (proj2 (Hn 64 ltac:(lia))) 8 272) as E. rewrite E. vm_compute. reflexivity.
Defined.

(** The functions on wide characters: as those on characters, with elements
    of four bytes and the order of [Int]. *)
Theorem client_wide_strings m s1 l1 fuel : bytes_ok m -> str_at wchar m s1 l1 ->
  (List.length l1 < fuel)%nat ->
  (WCSLEN fuel m s1 = Some (len l1) /\
   (forall n, 0 <= n -> WCSNLEN m s1 n = Z.min n (len l1)) /\
   forall c, let is_c := fun x => x =? c mod 2 ^ 32 in
     WCSCHR fuel m s1 c = Some (ptr wchar s1 (index_of is_c (l1 ++ [0]))) /\
     WCSRCHR fuel m s1 c = Some (ptr wchar s1 (last_index is_c (l1 ++ [0]))) /\
     forall p n, WMEMCHR m p c n = ptr wchar p (index_of is_c (elts wchar m p (Z.to_nat n)))) /\
  (forall dst, safe dst s1 (at_elt wchar 0 (len l1 + 1)) ->
     (exists m', WCSCPY fuel m dst s1 = Some (m', dst) /\
        mem_eq m' (copy m dst s1 (4 * (len l1 + 1))) /\ str_at wchar m' dst l1) /\
     forall n, 0 <= n -> let k := Z.min n (len l1) in
       exists m', WCSNCPY m dst s1 n = (m', dst) /\ WCPNCPY m dst s1 n = (m', at_elt wchar dst k) /\
         mem_eq m' (placed wchar m dst s1 k (n - k))) /\
  (forall p q n, WMEMCMP m p q n =
     lex (as_Int <$> elts wchar m p (Z.to_nat n)) (as_Int <$> elts wchar m q (Z.to_nat n))) /\
  forall s2 l2, str_at wchar m s2 l2 ->
    ((List.length l1 + List.length l2 < fuel)%nat ->
     WCSCMP fuel m s1 s2 = Some (lex (as_Int <$> l1 ++ [0]) (as_Int <$> l2 ++ [0]))) /\
    forall n, WCSNCMP m s1 s2 n =
      lex (as_Int <$> take (Z.to_nat n) l1) (as_Int <$> take (Z.to_nat n) l2).
Proof.
  intros Hm H1 Hf. split; [|split; [|split]].
  - split; [unfold WCSLEN; rewrite (strlen_loop_spec wchar m s1 l1); [done|by rewrite at_elt_0|done]|].
    split; [intros n Hn; unfold WCSNLEN; rewrite (take_before_nul wchar m l1) by done; by rewrite Z2Nat.id|].
    intros c is_c. split; [by apply strchr_loop_spec|]. split; [by apply STRRCHR_loop_spec|].
    intros p n. apply memchr_loop_spec.
  - intros dst Hs. destruct (wide_copied m dst s1 l1 Hm H1 Hs) as [Hc Hn]. split; [by apply Hc|done].
  - intros p q n. apply wmemcmp_loop_spec.
  - intros s2 l2 H2. split; [|intros n; by apply wide_ncmp]. intros Hf2.
    by apply wide_cmp.
Qed.

(** A string of the wide character -1 at 0, an empty one at 8: [wcscmp] puts
    the empty one behind, [wcsncmp] before. *)
Definition minus_one : gmem := fun x => if (0 <=? x) && (x <? 4) then 255 else 0.

Lemma wide_orders_differ : WCSCMP 3 minus_one 0 8 = Some (-1) /\ WCSNCMP minus_one 0 8 5 = 1.
Proof. vm_compute. split; reflexivity. Qed.
