(* ===== verification/XArrayTheorems.v ===== *)
(** Properties of the extensible arrays and of range maps, with concrete
    instances. *)
From stdpp Require Import base list.
From Stdlib Require Import ZArith Lia.
From S2P Require Import Prelude Mem LibcMem LibcMemProofs LibcSort LibcSortProofs XArray XArrayProofs XArrayOf RangeMap.
Open Scope prog_scope.
Open Scope Z_scope.

(** ** Concrete arrays: an empty one, and one of five bytes *)

Definition m256 : gmem := fun x => x mod 256.
Definition xs0 : st (H := positive) := mk_st m256 2000%positive.
Definition byte_cmp (x y : list Z) : Z := hd 0 x - hd 0 y.
Definition xa_empty : XArray := mk_xa 64 None 4 0 0 0 false.
Definition xa_five : XArray := mk_xa 64 (Some byte_cmp) 1 1000 5 8 false.

Lemma m256_ok : bytes_ok m256.
Proof. intros a. unfold m256. apply Z.mod_pos_bound. lia. Defined.

Lemma xa_empty_ok : xa_ok xs0 xa_empty.
Proof. split; [apply m256_ok|]. split; [done|]. split; [done|]. done. Defined.

Lemma xa_five_ok : xa_ok xs0 xa_five.
Proof. split; [apply m256_ok|]. split; [done|]. split; [done|]. split; [done|]. vm_compute. done. Defined.

Lemma byte_cmp_preorder : preorder byte_cmp.
Proof. split; unfold byte_cmp; intros; lia. Defined.

(** ** Adding and removing *)

(** [addToXA] returns the old number of elements and appends the element's
    bytes, growing the array when it is full; the array stays well-formed and
    all other allocated memory is untouched. *)
Theorem addToXA_appends {H} `{AllocatorLaws H} (xa : XArray) (s : st (H := H)) p :
  xa_ok s xa -> source s xa p ->
  exists xa' s', addToXA xa p s = Some ((usedsizeE xa, xa'), s') /\ xa_ok s' xa' /\
    frame s s' xa xa' /\ usedsizeE xa' = usedsizeE xa + 1 /\ elemSzB xa' = elemSzB xa /\
    contents (mem s') xa' = contents (mem s) xa ++ bytes_at (mem s) p (Z.to_nat (elemSzB xa)).
Proof.
  intros Hok Hs. apply (wp_elim (addToXA xa p) s). apply wp_addToXA; [done..|].
  intros xa' s' ? ? ? ? ? E. exists xa', s'. by split_and!.
Qed.

Lemma addToXA_appends_witness :
  exists xa' s', addToXA xa_empty 100 xs0 = Some ((usedsizeE xa_empty, xa'), s') /\ xa_ok s' xa' /\
    frame xs0 s' xa_empty xa' /\ usedsizeE xa' = usedsizeE xa_empty + 1 /\
    elemSzB xa' = elemSzB xa_empty /\
    contents (mem s') xa' =
      contents (mem xs0) xa_empty ++ bytes_at (mem xs0) 100 (Z.to_nat (elemSzB xa_empty)).
Proof.
  apply (addToXA_appends xa_empty xs0 100); [apply xa_empty_ok|].
  split; [done|]. split; [vm_compute; done|by left].
Defined.

(** [insertIndexXA] puts the element's bytes at the index and moves the
    elements from there on up by one. *)
Theorem insertIndexXA_inserts {H} `{AllocatorLaws H} (xa : XArray) (s : st (H := H)) i p :
  xa_ok s xa -> source s xa p -> 0 <= i <= usedsizeE xa ->
  exists xa' s', insertIndexXA xa i p s = Some (xa', s') /\ xa_ok s' xa' /\
    frame s s' xa xa' /\ usedsizeE xa' = usedsizeE xa + 1 /\ xsorted xa' = false /\
    contents (mem s') xa' = take (Z.to_nat (i * elemSzB xa)) (contents (mem s) xa) ++
      bytes_at (mem s) p (Z.to_nat (elemSzB xa)) ++
      drop (Z.to_nat (i * elemSzB xa)) (contents (mem s) xa).
Proof.
  intros Hok Hs Hi. apply (wp_elim (insertIndexXA xa i p) s). apply wp_insertIndexXA; [done..|].
  intros xa' s' ? ? ? ? ? ? E. exists xa', s'. by split_and!.
Qed.

Lemma insertIndexXA_inserts_witness :
  exists xa' s', insertIndexXA xa_five 2 100 xs0 = Some (xa', s') /\ xa_ok s' xa' /\
    frame xs0 s' xa_five xa' /\ usedsizeE xa' = usedsizeE xa_five + 1 /\ xsorted xa' = false /\
    contents (mem s') xa' = take (Z.to_nat (2 * 1)) (contents (mem xs0) xa_five) ++
      bytes_at (mem xs0) 100 (Z.to_nat 1) ++
      drop (Z.to_nat (2 * 1)) (contents (mem xs0) xa_five).
Proof.
  apply (insertIndexXA_inserts xa_five xs0 2 100); [apply xa_five_ok| |done].
  split; [done|]. split; [vm_compute; done|]. right. left. vm_compute. done.
Defined.

(** [removeIndexXA] removes exactly the element at the index and keeps the
    order of the others; [dropHeadXA] removes the first elements. *)
Theorem removeIndexXA_removes {H} `{AllocatorLaws H} (xa : XArray) (s : st (H := H)) i n :
  xa_ok s xa -> 0 <= i < usedsizeE xa -> 0 <= n <= usedsizeE xa ->
  (exists xa' s', removeIndexXA xa i s = Some (xa', s') /\ xa_ok s' xa' /\
     frame s s' xa xa' /\ usedsizeE xa' = usedsizeE xa - 1 /\ xsorted xa' = xsorted xa /\
     contents (mem s') xa' = take (Z.to_nat (i * elemSzB xa)) (contents (mem s) xa) ++
       drop (Z.to_nat ((i + 1) * elemSzB xa)) (contents (mem s) xa)) /\
  (exists xa' s', dropHeadXA xa n s = Some (xa', s') /\ xa_ok s' xa' /\
     frame s s' xa xa' /\ usedsizeE xa' = usedsizeE xa - n /\
     contents (mem s') xa' = drop (Z.to_nat (n * elemSzB xa)) (contents (mem s) xa)).
Proof.
  intros Hok Hi Hn. split.
  - apply (wp_elim (removeIndexXA xa i) s). apply wp_removeIndexXA; [done..|].
    intros xa' s' ? ? ? ? ? ? E. exists xa', s'. by split_and!.
  - apply (wp_elim (dropHeadXA xa n) s). apply wp_dropHeadXA; [done..|].
    intros xa' s' ? ? ? ? ? E. exists xa', s'. by split_and!.
Qed.

Lemma removeIndexXA_removes_witness :
  (exists xa' s', removeIndexXA xa_five 1 xs0 = Some (xa', s') /\ xa_ok s' xa' /\
     frame xs0 s' xa_five xa' /\ usedsizeE xa' = usedsizeE xa_five - 1 /\
     xsorted xa' = xsorted xa_five /\
     contents (mem s') xa' = take (Z.to_nat (1 * 1)) (contents (mem xs0) xa_five) ++
       drop (Z.to_nat ((1 + 1) * 1)) (contents (mem xs0) xa_five)) /\
  (exists xa' s', dropHeadXA xa_five 2 xs0 = Some (xa', s') /\ xa_ok s' xa' /\
     frame xs0 s' xa_five xa' /\ usedsizeE xa' = usedsizeE xa_five - 2 /\
     contents (mem s') xa' = drop (Z.to_nat (2 * 1)) (contents (mem xs0) xa_five)).
Proof. apply (removeIndexXA_removes xa_five xs0 1 2); [apply xa_five_ok|done|done]. Defined.

(** ** Sorting and lookup *)

Lemma sortXA_cmpFn {H} `{Allocator H} (xa xa' : XArray) (s s' : st (H := H)) :
  sortXA xa s = Some (xa', s') -> cmpFn xa' = cmpFn xa.
Proof.
  unfold sortXA. destruct (cmpFn xa) eqn:E; [|done]. unfold bind, on_mem, modify, ret.
  intros [= <- <-]. cbn. done.
Qed.

(** Sorted elements are in order for every key. *)
Lemma sorted_in_order {H} `{Allocator H} xa (s : st (H := H)) cmp key : preorder cmp ->
  sorted cmp (elem_at (mem s) xa) 0 (usedsizeE xa) -> in_order xa s cmp key.
Proof.
  intros Hc Hs i j Hi Hj. specialize (Hs i j ltac:(lia) ltac:(lia) ltac:(lia)). unfold sg. split.
  - intros Hlt. destruct (Z.ltb_spec (cmp key (elem_at (mem s) xa j)) 0) as [|Hge]; [done|].
    apply (cmp_opp _ Hc) in Hge. pose proof (cmp_trans _ Hc _ _ _ Hs Hge) as Hle.
    apply (cmp_opp _ Hc) in Hle. lia.
  - intros Hle. by apply (cmp_trans _ Hc _ _ _ Hle).
Qed.

(** C36. After [sortXA] the elements are sorted, a permutation of those before,
    and the rest of the allocated memory is untouched; and [lookupXA] of any key
    then gives exactly the range of the elements that equal it, or says that
    there is none. *)
Theorem sort_then_lookup {H} `{AllocatorLaws H} (xa : XArray) (s : st (H := H)) cmp key :
  xa_ok s xa -> cmpFn xa = Some cmp -> preorder cmp -> usedsizeE xa < 2 ^ 63 ->
  exists xa' s' r, sortXA xa s = Some (xa', s') /\ lookupXA xa' key s' = Some (r, s') /\
    xa_ok s' xa' /\ frame s s' xa xa' /\ usedsizeE xa' = usedsizeE xa /\
    sorted cmp (elem_at (mem s') xa') 0 (usedsizeE xa) /\
    slice (elem_at (mem s') xa') 0 (Z.to_nat (usedsizeE xa)) ≡ₚ
      slice (elem_at (mem s) xa) 0 (Z.to_nat (usedsizeE xa)) /\
    match r with
    | None => forall i, 0 <= i < usedsizeE xa -> cmp key (elem_at (mem s') xa' i) <> 0
    | Some (first, last) => 0 <= first <= last /\ last < usedsizeE xa /\
        forall i, 0 <= i < usedsizeE xa ->
          cmp key (elem_at (mem s') xa' i) = 0 <-> first <= i <= last
    end.
Proof.
  intros Hok Ec Hc Hsz. apply (wp_elim (sortXA xa) s). eapply wp_sortXA; [done..|].
  intros xa' s' Hok' Hfr Eu Ee Hxs _ Hsorted Hperm E. pose proof (sortXA_cmpFn _ _ _ _ E) as Ec'.
  assert (lookupXA xa' key s' = lookupXA_UNSAFE xa' key cmp s') as El.
  { unfold lookupXA. rewrite Ec', Ec. unfold bind, vg_assert. by rewrite Hxs. }
  rewrite <- Eu in Hsz. assert (in_order xa' s' cmp key) as Ho.
  { apply sorted_in_order; [done|]. by rewrite Eu. }
  apply (wp_elim (lookupXA_UNSAFE xa' key cmp) s').
  apply (wp_lookupXA_UNSAFE xa' s' cmp key Hok' Hsz _ Ho). intros r Hr Er. exists xa', s', r.
  split; [done|]. split; [by rewrite El|]. do 5 (split; [done|]).
  unfold looked_up in Hr. rewrite Eu in Hr. exact Hr.
Qed.

Lemma sort_then_lookup_witness :
  exists xa' s' r, sortXA xa_five xs0 = Some (xa', s') /\ lookupXA xa' [234] s' = Some (r, s') /\
    xa_ok s' xa' /\ frame xs0 s' xa_five xa' /\ usedsizeE xa' = usedsizeE xa_five /\
    sorted byte_cmp (elem_at (mem s') xa') 0 (usedsizeE xa_five) /\
    slice (elem_at (mem s') xa') 0 (Z.to_nat (usedsizeE xa_five)) ≡ₚ
      slice (elem_at (mem xs0) xa_five) 0 (Z.to_nat (usedsizeE xa_five)) /\
    match r with
    | None => forall i, 0 <= i < usedsizeE xa_five -> byte_cmp [234] (elem_at (mem s') xa' i) <> 0
    | Some (first, last) => 0 <= first <= last /\ last < usedsizeE xa_five /\
        forall i, 0 <= i < usedsizeE xa_five ->
          byte_cmp [234] (elem_at (mem s') xa' i) = 0 <-> first <= i <= last
    end.
Proof.
  apply (sort_then_lookup xa_five xs0 byte_cmp [234]);
    [apply xa_five_ok|done|apply byte_cmp_preorder|done].
Defined.

(** * Properties of the maps from ranges, on byte-level arrays of ranges. *)

(** ** A range in memory *)

(** The structure's three words, little-endian *)
#[export] Instance range_encoded : Encoded Range := {
  esize := 24;
  encode r := le_bytes 8 (key_min r) ++ le_bytes 8 (key_max r) ++ le_bytes 8 (val r);
  decode b := mk_range (le_word (take 8 b)) (le_word (take 8 (drop 8 b))) (le_word (drop 16 b))
}.

#[export] Instance range_encoded_laws : EncodedLaws Range range_words.
Proof.
  split.
  - done.
  - intros r. unfold encode, range_encoded. rewrite !Forall_app. auto using le_bytes_ok.
  - intros r. unfold encode, range_encoded. by rewrite !length_app, !le_bytes_length.
  - intros [a b v] ([? ?] & [? ?] & [? ?]). unfold decode, encode, range_encoded. cbn [key_min key_max val] in *.
    rewrite take_app_length' by (by rewrite le_bytes_length).
    rewrite drop_app_length' by (by rewrite le_bytes_length).
    rewrite take_app_length' by (by rewrite le_bytes_length).
    rewrite app_assoc, drop_app_length' by (by rewrite length_app, !le_bytes_length).
    by rewrite !le_word_bytes.
Qed.

(** The interface of extensible arrays for ranges in memory *)
#[export] Instance range_array {H} `{Allocator H} : XArrayOf (byte_array (H := H)) Range := byte_xarray.
#[export] Instance range_array_rep {H} `{Allocator H} : XArrayRep (byte_array (H := H)) Range :=
  byte_rep range_words.
#[export] Instance range_array_laws {H} `{AllocatorLaws H} : XArrayOfLaws (byte_array (H := H)) Range :=
  byte_laws range_words.

Lemma range_stored {H} `{Allocator H} r :
  range_words r -> velem (XArrayRep := range_array_rep (H := H)) r.
Proof. done. Qed.

Definition ba0 : byte_array (H := positive) :=
  mk_ba (mk_st (fun x => x mod 256) 2000%positive) (mk_xa 64 None 24 0 0 0 false) 1000.

Lemma ba0_empty : vrep ba0 ([] : list Range).
Proof.
  split; [split; [|by repeat split]|].
  - intros a. cbn. apply Z.mod_pos_bound. lia.
  - do 4 (split; [done|]). split; [done|]. split; [vm_compute; done|by left].
Defined.

(** C12. A map created with an initial value and then bound to values on any
    ranges of words, one after the other, denotes the function these bindings
    define on all words, and [lookupRangeMap] of a key gives the value there
    together with the largest range around the key on which the function has
    that value: no operation panics or fails an assertion.  A binding of an
    empty range fails. *)
Theorem range_map_correct {H} `{AllocatorLaws H} (s : byte_array (H := H)) init bs k :
  vrep s ([] : list Range) -> word init -> Forall valid_bind bs -> Z.of_nat (length bs) < 2 ^ 60 ->
  word k ->
  (exists a b v s', (newRangeMap init ;;; binds bs ;;; lookupRangeMap k) s = Some ((a, b, v), s') /\
     v = bound (fun _ => init) bs k /\ largest (bound (fun _ => init) bs) k a b v) /\
  (forall kmin kmax v, kmax < kmin -> bindRangeMap kmin kmax v s = None).
Proof.
  intros Hs Wi Hbs Hlen Wk. split.
  - apply (wp_elim (newRangeMap init ;;; binds bs ;;; lookupRangeMap k) s).
    apply wp_bind, (wp_newRangeMap range_stored); [done|done|]. intros s1 l1 Hr1 Hc1 Hd1 L1.
    apply wp_bind, (wp_binds range_stored bs Hbs s1 l1 (fun _ => init)); [done|done|lia|done|].
    intros s2 l2 Hr2 Hc2 L2 Hd2.
    apply (wp_lookupRangeMap range_stored s2 l2); [done|done|unfold fits; lia|done|].
    intros a b v Hl E. exists a, b, v, s2. split; [done|].
    apply (largest_ext _ _ _ _ _ _ Hd2) in Hl.
    pose proof Hl as (Hin & _ & _ & Hv & _). split; [symmetry; by apply Hv|done].
  - intros kmin kmax v Hlt. unfold bindRangeMap, bind, rm_assert.
    by rewrite (proj2 (Z.leb_gt _ _) Hlt).
Qed.

Lemma range_map_correct_witness :
  (exists a b v s',
     (newRangeMap 0 ;;; binds [(16, 31, 7); (2 ^ 64 - 8, 2 ^ 64 - 1, 1); (20, 40, 7)] ;;;
      lookupRangeMap 18) ba0 = Some ((a, b, v), s') /\
     v = bound (fun _ => 0) [(16, 31, 7); (2 ^ 64 - 8, 2 ^ 64 - 1, 1); (20, 40, 7)] 18 /\
     largest (bound (fun _ => 0) [(16, 31, 7); (2 ^ 64 - 8, 2 ^ 64 - 1, 1); (20, 40, 7)]) 18 a b v) /\
  (forall kmin kmax v, kmax < kmin -> bindRangeMap kmin kmax v ba0 = None).
Proof.
  apply (range_map_correct ba0 0 [(16, 31, 7); (2 ^ 64 - 8, 2 ^ 64 - 1, 1); (20, 40, 7)] 18);
    [apply ba0_empty|done| |done|done].
  apply (bool_decide_unpack _). vm_compute. done.
Defined.

(** What the two lookups of that run are *)
Example range_map_example :
  fmap fst ((newRangeMap 0 ;;; binds [(16, 31, 7); (20, 40, 7)] ;;; lookupRangeMap 18) ba0)
    = Some (16, 40, 7).
Proof. vm_compute. reflexivity. Qed.
