(* ===== verification/HashTheorems.v ===== *)
(** Properties of the hash table and of the execution contexts, with concrete
    instances. *)
From stdpp Require Import base gmap list fin_maps sets.
From Stdlib Require Import ZArith Lia.
From S2P Require Import Prelude Printf Chains HashTable HashTableProofs ExeContext ExeContextProofs.
Open Scope prog_scope.
Open Scope Z_scope.

Section Elements.
Context {D : Type}.
Implicit Types (t : VgHashTable D) (h : gmap loc (VgHashNode D)).

(** The nodes of a map *)
Definition values (m : gmap Z loc) : list loc := (map_to_list m).*2.

Lemma elem_of_values m l : l ∈ values m <-> exists k, m !! k = Some l.
Proof.
  unfold values. rewrite list_elem_of_fmap. split.
  - intros ([k l'] & -> & E%elem_of_map_to_list). by exists k.
  - intros (k & E). exists (k, l). split; [done|]. by apply elem_of_map_to_list.
Qed.

(** The elements of a table that agrees with a map are the map's nodes. *)
Lemma agrees_values pl m cs : agrees (D := D) pl m cs -> NoDup (concat cs) ->
  (forall l, l ∈ concat cs -> exists k d, pl !! l = Some (k, d)) -> concat cs ≡ₚ values m.
Proof.
  intros Ha Hnd Hpl. apply NoDup_Permutation; [done| |].
  - unfold values. apply NoDup_fmap_2_strong; [|apply NoDup_map_to_list].
    intros [k l] [k' l'] E%elem_of_map_to_list E'%elem_of_map_to_list Hl. cbn in Hl. subst l'.
    apply Ha in E as [_ (d & E)]. apply Ha in E' as [_ (d' & E')]. congruence.
  - intros l. rewrite elem_of_values. split.
    + intros Hl. destruct (Hpl l Hl) as (k & d & E). exists k. apply Ha. eauto.
    + intros (k & E). by apply Ha in E as [Hl _].
Qed.

Lemma ok_payload t cs l : ht_ok t cs -> l ∈ concat cs -> exists k d, payload (hnodes t) !! l = Some (k, d).
Proof.
  intros Hok (i & ls & Ei & Hl)%table_elem.
  destruct (table_lookup hnext (hnodes t) (chains t) cs i) as (p & ls' & Ep & Ei' & Hc);
    [apply Hok|rewrite (ok_chains_length _ _ Hok); by eapply lookup_lt_Some|].
  rewrite Ei in Ei'. injection Ei' as <-. destruct (chain_lookup _ _ _ _ _ Hc Hl) as (n & E).
  apply payload_lookup in E. eauto.
Qed.

Lemma agrees_empty pl : agrees (D := D) pl ∅ (replicate 769 []).
Proof.
  intros k l. rewrite lookup_empty, concat_replicate_nil. split; [done|].
  intros [Hl _]. by apply not_elem_of_nil in Hl.
Qed.

(** A run of operations from an empty table, as a rule *)
Lemma wp_run_new ops h (Q : list ptr -> VgHashTable D -> Prop) :
  valid_ops (payload h) ∅ ops -> Z.of_nat (length ops) < 2 ^ 32 ->
  (forall rs t cs m, (rs, m) = spec_ops (payload h) ∅ ops -> ht_ok t cs -> payload (hnodes t) = payload h ->
     agrees (payload h) m cs -> concat cs ≡ₚ values m -> Q rs t) ->
  wp (run_ops ops) (HT_construct h) Q.
Proof.
  intros Hv Hlt HQ. eapply wp_mono; [apply (wp_run_ops ops (HT_construct h) (replicate 769 []) ∅)|].
  - apply ok_construct.
  - apply agrees_empty.
  - done.
  - done.
  - intros rs t (Hrs & Hpay & cs & Hok & Ha). cbn [HT_construct hnodes] in *.
    eapply (HQ rs t cs); [|done|done|exact Ha|].
    + rewrite Hrs. by destruct (spec_ops _ _ _).
    + eapply agrees_values; [done|apply Hok|]. intros l Hl. rewrite <- Hpay. by eapply ok_payload.
Qed.
End Elements.

(** ** The properties *)

(** C10. A table that is created and given nodes with distinct keys, looked up
    and removed from in any order, behaves as a finite map from keys to nodes:
    every result is the map's, however often the table is resized, and no
    node's key or data is changed. *)
Theorem hash_table_is_map {D} (h : gmap loc (VgHashNode D)) ops :
  valid_ops (payload h) ∅ ops -> Z.of_nat (length ops) < 2 ^ 32 ->
  exists t, run_ops ops (HT_construct h) = Some ((spec_ops (payload h) ∅ ops).1, t) /\
    HT_count_nodes t = Z.of_nat (size (spec_ops (payload h) ∅ ops).2) /\
    payload (hnodes t) = payload h.
Proof.
  intros Hv Hlt. apply (wp_elim (run_ops ops) (HT_construct h)). apply wp_run_new; [done|done|].
  intros rs t cs m Hs Hok Hpay Ha Hval E. rewrite <- Hs. exists t. split; [done|]. split; [|done].
  unfold HT_count_nodes. rewrite (ok_count _ _ Hok), Hval. unfold values.
  by rewrite length_fmap, length_map_to_list.
Qed.

(** A client with four nodes, three of which share a chain *)
Definition client_nodes : gmap loc (VgHashNode Z) :=
  list_to_map [(1%positive, mk_hnode None 5 10); (2%positive, mk_hnode None (5 + 769) 20);
               (3%positive, mk_hnode None 6 30); (4%positive, mk_hnode None (5 + 2 * 769) 40)].

Definition client_ops : list ht_op :=
  [Add 1%positive; Add 2%positive; Add 3%positive; Lookup 774; Add 4%positive; Remove 774; Lookup 774;
   Lookup 5].

Lemma client_valid : valid_ops (payload client_nodes) ∅ client_ops.
Proof. vm_compute. repeat split. Defined.

Lemma hash_table_is_map_witness :
  exists t, run_ops client_ops (HT_construct client_nodes) =
      Some ([None; None; None; Some 2%positive; None; Some 2%positive; None; Some 1%positive], t) /\
    HT_count_nodes t = 3 /\ payload (hnodes t) = payload client_nodes.
Proof.
  destruct (hash_table_is_map client_nodes client_ops client_valid) as (t & E & Hc & Hp); [done|].
  exists t. split; [rewrite E; vm_compute; reflexivity|]. split; [|done]. rewrite Hc. vm_compute. reflexivity.
Defined.

(** C38. Iterating over such a table visits every element exactly once, also
    when elements are removed at the iterator on the way, and just those that
    are not removed are left. *)
Theorem hash_iteration {D} (h : gmap loc (VgHashNode D)) ops (p : loc -> bool) fuel :
  let m := (spec_ops (payload h) ∅ ops).2 in
  valid_ops (payload h) ∅ ops -> Z.of_nat (length ops) < 2 ^ 32 -> (size m < fuel)%nat ->
  exists visited left t,
    (run_ops ops ;;; HT_ResetIter ;;; vs <- iterate fuel p ;; arr <- HT_to_array ;; ret (vs, arr))
      (HT_construct h) = Some ((visited, left), t) /\
    visited ≡ₚ values m /\
    List.filter p visited ++ default [] left ≡ₚ values m /\
    Forall (fun l => p l = false) (default [] left).
Proof.
  intros m Hv Hlt Hf.
  apply (wp_elim (run_ops ops ;;; HT_ResetIter ;;; vs <- iterate fuel p ;; arr <- HT_to_array ;; ret (vs, arr))
    (HT_construct h)).
  apply wp_bind, wp_run_new; [done|done|]. intros rs t cs m' Hs Hok Hpay Ha Hval.
  assert (m' = m) as -> by (unfold m; by rewrite <- Hs).
  apply wp_bind. eapply wp_HT_ResetIter; [done|]. intros t1 Hi1 Hh1.
  apply wp_bind. eapply wp_iterate; [done| |].
  { rewrite Hval. unfold values. by rewrite length_fmap, length_map_to_list. }
  intros t2 cs2 Hok2 Hperm Hpay2. apply wp_bind. eapply wp_HT_to_array; [done|]. apply wp_ret.
  intros E. exists (concat cs), (match concat cs2 with [] => None | arr => Some arr end), t2.
  split; [done|]. split; [done|]. replace (default [] _) with (concat cs2) by by destruct (concat cs2).
  rewrite <- Hval. split; [by rewrite Hperm at 2|].
  apply Forall_forall. intros l Hl. apply not_true_is_false. intros Hp.
  pose proof (ok_nodup _ _ Hok) as Hnd. pose proof Hnd as Hnd'. rewrite Hperm in Hnd.
  apply NoDup_app in Hnd as (_ & Hd & _). apply (Hd l); [|done].
  apply list_elem_of_In, List.filter_In. split; [|done]. apply list_elem_of_In. rewrite Hperm. set_solver.
Qed.

Lemma hash_iteration_witness :
  exists visited left t,
    (run_ops client_ops ;;; HT_ResetIter ;;; vs <- iterate 9 (fun l => bool_decide (l = 1%positive)) ;;
     arr <- HT_to_array ;; ret (vs, arr)) (HT_construct client_nodes) = Some ((visited, left), t) /\
    visited ≡ₚ values (spec_ops (payload client_nodes) ∅ client_ops).2 /\
    List.filter (fun l => bool_decide (l = 1%positive)) visited ++ default [] left ≡ₚ
      values (spec_ops (payload client_nodes) ∅ client_ops).2 /\
    Forall (fun l => bool_decide (l = 1%positive) = false) (default [] left).
Proof.
  apply (hash_iteration client_nodes client_ops); [apply client_valid|done|].
  apply (bool_decide_unpack _). vm_compute. done.
Defined.

(** Destroying such a table frees each of its elements exactly once, and
    no other node of the client. *)
Theorem hash_destruct_frees {D} (h : gmap loc (VgHashNode D)) ops :
  valid_ops (payload h) ∅ ops -> Z.of_nat (length ops) < 2 ^ 32 ->
  exists t, (run_ops ops ;;; HT_destruct free_node) (HT_construct h) = Some (tt, t) /\
    forall l, payload (hnodes t) !! l =
      if decide (l ∈ values (spec_ops (payload h) ∅ ops).2) then None else payload h !! l.
Proof.
  intros Hv Hlt. apply (wp_elim (run_ops ops ;;; HT_destruct free_node) (HT_construct h)).
  apply wp_bind, wp_run_new; [done|done|]. intros rs t cs m Hs Hok Hpay Ha Hval. rewrite <- Hs. cbn [snd].
  eapply wp_HT_destruct; [done|]. intros t' Hw E. exists t'. split; [done|]. intros l.
  unfold payload at 1. rewrite lookup_fmap, (Hw l). rewrite <- Hpay. unfold payload. rewrite lookup_fmap.
  destruct (decide (l ∈ concat cs)), (decide (l ∈ values m)); try done; rewrite Hval in *; done.
Qed.

Lemma hash_destruct_frees_witness :
  exists t, (run_ops client_ops ;;; HT_destruct free_node) (HT_construct client_nodes) = Some (tt, t) /\
    forall l, payload (hnodes t) !! l =
      if decide (l ∈ values (spec_ops (payload client_nodes) ∅ client_ops).2) then None
      else payload client_nodes !! l.
Proof. apply (hash_destruct_frees client_nodes client_ops); [apply client_valid|done]. Defined.

(** * Properties of the execution contexts, with concrete instances. *)

(** A trace that the option [--num-callers] allows *)
Definition valid_trace (bs : Z) (tr : list Z) : Prop := tr <> [] /\ Z.of_nat (length tr) <= bs.

(** A run from the start, as a rule *)
Lemma wp_start_record bs trs (Q : list loc -> ec_state -> Prop) : 1 <= bs ->
  Forall (valid_trace bs) trs -> 4 * Z.of_nat (length trs) + 8 < 2 ^ 32 ->
  (forall rs s cs n, ec_ok s cs -> started s n ->
     Forall2 (fun tr r => exists u, contexts (ecs s) !! r = Some (u, 0, tr)) trs rs ->
     clo_backtrace_size s = bs -> ec_next_ecu s <= 8 + 4 * Z.of_nat (length trs) -> Q rs s) ->
  wp (init_ExeContext_storage ;;; record_all trs) (ec_start bs) Q.
Proof.
  intros Hbs Hv Hlen HQ. apply wp_bind, wp_init_storage; [done|].
  intros n s cs Hok Hst Hc Hn Eb. eapply wp_record_all; [done|done|by rewrite Eb|rewrite Hn; lia|].
  intros rs s' cs' Hok' Hst' _ Hall Hstat Hn'. apply (HQ rs s' cs' n); [done|done|done| |lia].
  unfold statics in Hstat. by injection Hstat as -> _ _.
Qed.



(** Archiving a range of code gives the archived epoch to exactly the
    contexts of the current epoch with an address in the range, and changes
    nothing else; recording an archived trace again gives a different
    context. *)
Theorem archive_epochs bs trs last_epoch text_avma len : 1 <= bs -> Forall (valid_trace bs) trs ->
  4 * Z.of_nat (length trs) + 12 < 2 ^ 32 -> last_epoch <> 0 ->
  exists rs s s', (init_ExeContext_storage ;;; record_all trs) (ec_start bs) = Some (rs, s) /\
    archive_ExeContext_in_range last_epoch text_avma len s = Some (tt, s') /\
    contexts (ecs s') = archived_ctx last_epoch text_avma len <$> contexts (ecs s) /\
    (forall i tr r, trs !! i = Some tr -> rs !! i = Some r -> in_text text_avma len tr = true ->
       get_ExeContext_epoch 77 r s = Some (77, s) /\
       get_ExeContext_epoch 77 r s' = Some (last_epoch, s') /\
       exists r' s'', make_ExeContext_from_StackTrace tr s' = Some (r', s'') /\ r' <> r).
Proof.
  intros Hbs Hv Hlen Hep. apply (wp_elim (init_ExeContext_storage ;;; record_all trs) (ec_start bs)).
  apply wp_start_record; [done|done|lia|]. intros rs s cs n Hok [Hi Hnull] Hall Ebs Hn E.
  apply (wp_elim (archive_ExeContext_in_range last_epoch text_avma len) s).
  eapply wp_archive; [done|done|]. intros s' Hok' Hc' Hst' Hn' E'. exists rs, s, s'.
  split; [done|]. split; [done|]. split; [done|]. intros i tr r T R Hin.
  destruct (Forall2_lookup_lr _ _ _ _ _ _ Hall T R) as (u & Eu).
  assert (contexts (ecs s') !! r = Some (u, last_epoch, tr)) as Eu'.
  { rewrite Hc', lookup_fmap, Eu. cbn. by rewrite Hin. }
  destruct (contexts_inv _ _ _ _ _ Eu) as (e & Ee & _ & He & _).
  destruct (contexts_inv _ _ _ _ _ Eu') as (e' & Ee' & _ & He' & _).
  unfold get_ExeContext_epoch, bind, eload, is_DiEpoch_INVALID, ret. rewrite Ee, Ee', He, He'.
  split; [done|]. split; [by rewrite (proj2 (Z.eqb_neq _ _) Hep)|].
  apply (wp_elim (make_ExeContext_from_StackTrace tr) s').
  unfold statics in Hst'. injection Hst' as H1 H2 H3.
  rewrite Forall_lookup in Hv. destruct (Hv _ _ T) as [Htr Hl].
  eapply wp_make_from_StackTrace; [done|split; [by rewrite H2|by rewrite H3]|done|by rewrite H1, Ebs|lia|].
  intros r' s'' cs'' Hok'' _ ((u' & Eu'') & _ & Hnew) E''. exists r', s''. split; [done|]. intros ->.
  destruct Hnew as [[Hsame _]|[Hnone _]]; [|congruence]. rewrite Hsame, Eu' in Eu''. congruence.
Qed.

Lemma archive_epochs_witness :
  exists rs s s',
    (init_ExeContext_storage ;;; record_all [[4096; 8192]; [5000]]) (ec_start 12) = Some (rs, s) /\
    archive_ExeContext_in_range 3 8000 500 s = Some (tt, s') /\
    contexts (ecs s') = archived_ctx 3 8000 500 <$> contexts (ecs s) /\
    (forall i tr r, [[4096; 8192]; [5000]] !! i = Some tr -> rs !! i = Some r -> in_text 8000 500 tr = true ->
       get_ExeContext_epoch 77 r s = Some (77, s) /\
       get_ExeContext_epoch 77 r s' = Some (3, s') /\
       exists r' s'', make_ExeContext_from_StackTrace tr s' = Some (r', s'') /\ r' <> r).
Proof.
  apply (archive_epochs 12 [[4096; 8192]; [5000]] 3 8000 500); [done| |done|done].
  repeat constructor; done.
Defined.

(** Comparing contexts: at low and medium resolution the top two or four
    addresses decide, and then the epochs, but only when both traces are that
    long: shorter equal traces of different epochs count as equal.  At high
    resolution the pointers decide. *)
Theorem eq_ExeContext_correct (s : ec_state) l1 l2 e1 e2 res :
  ecs s !! l1 = Some e1 -> ecs s !! l2 = Some e2 -> ips e1 <> [] -> ips e2 <> [] ->
  exists b s', eq_ExeContext res (Some l1) (Some l2) s = Some (b, s') /\ ecs s' = ecs s /\
    (b = true <->
     match res with
     | Vg_LowRes => take 2 (ips e1) = take 2 (ips e2) /\ ((length (ips e1) < 2)%nat \/ epoch e1 = epoch e2)
     | Vg_MedRes => take 4 (ips e1) = take 4 (ips e2) /\ ((length (ips e1) < 4)%nat \/ epoch e1 = epoch e2)
     | Vg_HighRes => l1 = l2
     end).
Proof.
  intros E1 E2 N1 N2. unfold eq_ExeContext, bind, eload, ec_assert, modify, ret. rewrite E1, E2.
  assert (forall e, ips e <> [] -> (1 <=? n_ips e) = true) as Hn.
  { intros e Hne. apply Z.leb_le. unfold n_ips. destruct (ips e); [done|cbn; lia]. }
  rewrite (Hn _ N1), (Hn _ N2). cbn [andb].
  destruct res; eexists _, _; (split; [done|]); (split; [done|]).
  - apply (eq_top_spec 2 0); lia.
  - apply (eq_top_spec 4 0); lia.
  - apply bool_decide_eq_true.
Qed.

(** Two contexts of one address, in different epochs *)
Definition two_epochs : ec_state :=
  set_ecs (<[1%positive := mk_ec None 4 3 [4096]]> (<[2%positive := mk_ec None 8 0 [4096]]> ∅)) (ec_start 12).

Lemma eq_ExeContext_correct_witness :
  exists b s', eq_ExeContext Vg_LowRes (Some 1%positive) (Some 2%positive) two_epochs = Some (b, s') /\
    ecs s' = ecs two_epochs /\
    (b = true <-> take 2 [4096] = take 2 [4096] /\ ((length [4096] < 2)%nat \/ 3 = 0)).
Proof.
  apply (eq_ExeContext_correct two_epochs 1 2 (mk_ec None 4 3 [4096]) (mk_ec None 8 0 [4096]) Vg_LowRes);
    done.
Defined.
