(* ===== verification/OSetTheorems.v ===== *)
(** Properties of the ordered sets, with concrete instances. *)
From stdpp Require Import base gmap list option sets fin_maps sorting.
From Stdlib Require Import ZArith Lia Sorting.Sorted.
From S2P Require Import Prelude Printf Chains OSet AvlProofs OSetShape OSetOps OSetProofs OSetIter OSetRuns Mem XArray PoolAlloc PoolAllocProofs PoolNodes.
Open Scope prog_scope.
Open Scope Z_scope.

(** ** Instances *)

(** An element that has its key after a word of data, and is compared by it *)
#[export] Instance pair_elem : OSetElem Z (Z * Z) := {
  key_of e := e.2; kword k := k; eword e := e.1; zero_elem _ := (0, 0)
}.

Definition cmp_second (k : Z) (e : Z * Z) : Z := k - e.2.

#[export] Instance pair_order : OSetOrder (Some cmp_second).
Proof.
  split; [split; cbn; unfold cmp_second; intros; lia|].
  intros k. split; cbn; unfold cmp_second; intros; lia.
Qed.

(** A pool that hands out ever new nodes: the nodes in use, and how many sets
    use it *)
#[export] Instance set_pool_ops : NodePool (gset loc * Z) := {
  np_alloc p := Some (fresh p.1, ({[fresh p.1]} ∪ p.1, p.2));
  np_free p l := if decide (l ∈ p.1) then Some (p.1 ∖ {[l]}, p.2) else None;
  np_addref p := (p.1, p.2 + 1);
  np_release p := if 0 <? p.2 then Some (p.2 - 1, (p.1, p.2 - 1)) else None;
  in_pool p l := bool_decide (l ∈ p.1)
}.

#[export] Instance set_pool_laws : NodePoolLaws (gset loc * Z).
Proof.
  refine {| pinv p := True; plive p := p.1; prefs p := p.2; proom _ _ := True |}; cbn.
  - intros p _ _ _. eexists _, _. do 3 (split; [done|]). split; [apply is_fresh|done].
  - intros p l _ Hl. rewrite decide_True by done. by eexists.
  - done.
  - intros p _ Hp. rewrite (proj2 (Z.ltb_lt _ _)) by done. by eexists.
  - intros p l _ Hl. by apply bool_decide_eq_true_2.
Defined.

(** ** The set as a collection *)




(** ** Sets of words *)

Section WordSets.
Context {P : Type} `{NodePoolLaws P}.
Abbreviation WS := (OSet Z Z P).







End WordSets.


(** ** Iteration *)

(** C25. An iteration that starts at a key gives exactly the elements that are
    not below the key, in order, for every set of fewer than 9,227,464
    elements: the iterator's stack of 32 entries suffices. *)
Theorem oset_iterate_from {K E P} `{OSetElem K E} `{NodePool P} (s : OSet K E P) t k :
  OSetOrder (ocmp s) -> set_ok s t -> Z.of_nat (length (elems t)) < ITER_MAX ->
  exists es s', es = filter (fun x => kcmp (ocmp s) k x.2 <= 0) (elems t) /\
    StronglySorted (before (ecmp (ocmp s))) es /\
    (OSetGen_ResetIterAt k ;;; nexts (S (length es))) s = Some ((Some <$> es.*1) ++ [None], s').
Proof.
  intros Ho Hok Hlen. pose proof Hok as [O1 O2 (O3 & O4 & O5) O6 O7]. pose proof (rep_length _ _ O2 O5) as Hsz.
  pose proof (iter_max_height t O3 Hlen) as HH. pose proof (height_length t). pose proof (height_pos t).
  set (es := from_key (kcmp (ocmp s) k) (elems t)).
  apply (wp_elim (OSetGen_ResetIterAt k ;;; nexts (S (length es))) s). apply wp_bind.
  eapply wp_ResetIterAt; [done|exact Hok|done|]. intros s1 stk R1 Hit.
  eapply (wp_nexts _ (height t)); [done|rewrite (restacked_onodes _ _ R1); lia|done|exact Hit|].
  intros s2 R2 E2. exists es, s2. split; [done|]. split.
  - unfold es, from_key, ordered in *. clear -O4. induction O4 as [|x l Hs IH Hx]; [constructor|].
    rewrite filter_cons. destruct (decide _); [|done]. constructor; [done|]. rewrite Forall_forall in Hx.
    apply Forall_forall. intros y [_ Hy]%list_elem_of_filter. by apply Hx.
  - rewrite E2. unfold given. fold es. rewrite take_ge by (rewrite length_fmap; lia).
    by replace (S (length es) - length es)%nat with 1%nat by lia.
Qed.

(** The set of the words that a tree holds *)
Definition tree_set {P} (t : tree Z) : OSet Z Z P :=
  mk_oset (memory t) None None 0 (u32 (Z.of_nat (length (elems t)))) (tptr t)
    (replicate STACK_MAX None) (replicate STACK_MAX 0) 0.

Lemma sparse_set_ok {P} `{NodePool P} h : set_ok (tree_set (P := P) (sparse h 1)) (sparse h 1).
Proof.
  split; [done| | |done|done].
  - cbn. by apply memory_rep, sparse_locs.
  - split_and!; [apply sparse_avl| |by apply sparse_locs]. unfold ordered. rewrite sparse_elems. apply sparse_sorted.
Qed.

Lemma sparse_length h o : Z.of_nat (length (elems (sparse h o))) = min_elems h.
Proof. rewrite sparse_elems, length_fmap, length_seqZ. pose proof (min_elems_mono h). lia. Qed.

Lemma oset_iterate_from_witness :
  exists es s', es = filter (fun x => kcmp None 4 x.2 <= 0) (elems (sparse 3 1)) /\
    StronglySorted (before (ecmp (K := Z) None)) es /\
    (OSetGen_ResetIterAt 4 ;;; nexts (S (length es))) (tree_set (P := gset loc * Z) (sparse 3 1)) =
      Some ((Some <$> es.*1) ++ [None], s').
Proof.
  apply (oset_iterate_from (tree_set (P := gset loc * Z) (sparse 3 1)) (sparse 3 1) 4);
    [apply word_order|apply sparse_set_ok|by rewrite sparse_length].
Defined.

(** Pushing a left spine that the stack has no room for *)
Lemma push_left_full {K E P} `{OSetElem K E} `{NodePool P} fuel t (s : OSet K E P) stk :
  rep (onodes s) t -> stack_is s stk -> (length stk <= STACK_MAX)%nat ->
  (STACK_MAX < length stk + spine_length t)%nat -> push_left fuel (tptr t) s = None.
Proof.
  revert t s stk. induction fuel as [|fuel IH]; [done|]. intros t s stk Hr Hs Hle Hlt.
  destruct t as [|b l e tl tr]; [cbn in Hlt; lia|]. destruct Hr as (E1 & Hl & _). cbn [push_left spine_length] in *.
  destruct (decide (length stk = STACK_MAX)) as [Hfull|Hroom].
  - unfold bind. by rewrite (stackPush_full s stk (Node b l e tl tr) 2) by (done || lia).
  - apply fails_bind. eapply (wp_stackPush s stk (Node b l e tl tr)); [done|lia|lia|]. intros s1 R1 S1.
    apply fails_bind. cbn [tptr]. eapply wp_aload; [rewrite (restacked_onodes _ _ R1); exact E1|]. cbn [aleft].
    destruct tl as [|b' l' e' x y] eqn:Etl; [cbn in Hlt; lia|]. rewrite <- Etl in *.
    assert (tptr tl = Some l') as Ep by (by rewrite Etl). rewrite Ep, <- Ep.
    eapply IH; [by rewrite (restacked_onodes _ _ R1)|exact S1|cbn; lia|cbn; lia].
Qed.

Lemma high_set_fails {P} `{NodePool P} h fuel : (STACK_MAX < h)%nat ->
  (OSetGen_ResetIter ;;; next_loop fuel) (tree_set (P := P) (sparse h 1)) = None.
Proof.
  intros Hh. pose proof (sparse_set_ok (P := P) h) as Hok. apply fails_bind.
  eapply wp_mono with (Q := fun _ s' => restacked (tree_set (sparse h 1)) s' /\ stack_is s' [(sparse h 1, 1)]).
  - unfold OSetGen_ResetIter. apply wp_bind, wp_stackClear. intros s1 R1 S1. apply wp_bind, wp_gets.
    destruct (restacked_rest _ _ R1) as (_ & -> & _). cbn [tree_set oroot].
    pose proof (sparse_spine h 1) as Hsp. destruct (sparse h 1) as [|b l e tl tr] eqn:Et; [cbn in Hsp; lia|].
    rewrite <- Et in *. assert (tptr (sparse h 1) = Some l) as Ep by (by rewrite Et). rewrite Ep, <- Ep.
    eapply wp_stackPush; [exact S1|cbn; unfold STACK_MAX; lia|lia|]. intros s2 R2 S2. split; [|done].
    by eapply restacked_trans.
  - intros _ s [R S1]. destruct fuel as [|fuel]; [done|]. cbn [next_loop]. apply fails_bind.
    eapply wp_stackPop; [exact S1|cbn; unfold STACK_MAX; lia|lia|]. intros s2 R2 S2. apply fails_bind, wp_gets.
    cbn [Z.eqb Pos.eqb]. unfold bind.
    rewrite (push_left_full _ (sparse h 1) s2 []); [done| |done|cbn; unfold STACK_MAX; lia|rewrite sparse_spine; cbn; lia].
    rewrite (restacked_onodes _ _ R2), (restacked_onodes _ _ R). apply Hok.
Qed.

(** C26. The bound on iteration is exact: there is a well-formed set of
    9,227,464 words, a balanced tree of height 33, whose iteration fails the
    assertion on the stack's depth at the first element. *)
Theorem oset_iterator_limit {P} `{NodePool P} :
  exists (s : OSet Z Z P) t, set_ok s t /\ ocmp s = None /\ Z.of_nat (length (elems t)) = ITER_MAX /\
    height t = 33 /\ forall fuel, (OSetGen_ResetIter ;;; next_loop fuel) s = None.
Proof.
  assert (exists h, h = 33%nat) as (h & Eh) by (by eexists).
  exists (tree_set (sparse h 1)), (sparse h 1). split; [apply sparse_set_ok|]. split; [done|].
  rewrite sparse_length, (proj2 (sparse_avl h 1)), Eh. split; [reflexivity|]. split; [done|].
  intros fuel. rewrite <- Eh. apply high_set_fails. rewrite Eh. unfold STACK_MAX. lia.
Qed.
