(* ===== verification/PoolTheorems.v ===== *)
(** Properties of the pool allocator, with concrete instances. *)
From stdpp Require Import base gmap list sets fin_maps.
From Stdlib Require Import ZArith Lia.
From S2P Require Import Prelude Mem XArray XArrayProofs XArrayOf PoolAlloc PoolAllocProofs OSet OSetIter PoolNodes.
Open Scope prog_scope.
Open Scope Z_scope.

(** ** What a client sees *)

(** A client takes elements, gives them back, and writes bytes to those it
    has. *)
Inductive pool_op := PAlloc | PFree (a : Z) | PWrite (a off b : Z).

Section Client.
Context {H : Type} `{AllocatorLaws H} `{!AllocatorSpace H}.
Abbreviation PST := (st (H := H)).
Implicit Types (p : pool_state (H := H)) (X : gmap Z (list Z)) (a b off v : Z).

Definition run_pool_op (o : pool_op) : M (pool_state (H := H)) Z := fun p =>
  match o with
  | PAlloc => match allocEltPA (pn_var p) (pn_pa p) (pn_st p) with
              | Some ((a, pa), s) => Some (a, mk_pool pa s (pn_var p))
              | None => None
              end
  | PFree a => match freeEltPA (pn_pa p) a (pn_st p) with
               | Some (pa, s) => Some (0, mk_pool pa s (pn_var p))
               | None => None
               end
  | PWrite a off b =>
      Some (0, mk_pool (pn_pa p) (mk_st (upd (mem (pn_st p)) (a + off) b) (heap (pn_st p))) (pn_var p))
  end.

(** To the client, memory is a map from its elements to their bytes. *)
Inductive pool_step (es : Z) X : pool_op -> Z -> gmap Z (list Z) -> Prop :=
  | step_alloc a c : X !! a = None -> 0 < a -> a mod 8 = 0 ->
      (forall b, is_Some (X !! b) -> a + es <= b \/ b + es <= a) ->
      Z.of_nat (length c) = es -> take 8 c = replicate 8 0 -> pool_step es X PAlloc a (<[a := c]> X)
  | step_free a : pool_step es X (PFree a) 0 (delete a X)
  | step_write a off b c : X !! a = Some c -> pool_step es X (PWrite a off b) 0 (<[a := <[Z.to_nat off := b]> c]> X).

(** What the client may ask for *)
Definition pool_op_ok (es : Z) X (o : pool_op) : Prop :=
  match o with
  | PAlloc => True
  | PFree a => is_Some (X !! a)
  | PWrite a off b => is_Some (X !! a) /\ 0 <= off < es /\ 0 <= b < 256
  end.

(** The client's map is in the pool's memory, and there is room for [k] more
    elements. *)
Record client_has (k : nat) p X : Prop := {
  ch_pool : exists ps fr, pool_is p ps (dom X) fr;
  ch_room : pa_room (pn_st p) (pn_pa p) k;
  ch_bytes a c : X !! a = Some c -> bytes_at (mem (pn_st p)) a (Z.to_nat (pa_elemSzB (pn_pa p))) = c
}.

Lemma same_elems_bytes s s' pa used a : same_elems (H := H) s s' pa used -> a ∈ used ->
  bytes_at (mem s') a (Z.to_nat (pa_elemSzB pa)) = bytes_at (mem s) a (Z.to_nat (pa_elemSzB pa)).
Proof using Type. intros Hs Ha. apply bytes_at_ext. intros x Hx. apply (Hs a); [done|lia]. Qed.

Lemma le_word_zero n l : length l = n -> Forall (fun y => 0 <= y < 256) l -> le_word l = 0 -> l = replicate n 0.
Proof using Type.
  revert n. induction l as [|y l IH]; intros n <- Hl E; [done|]. apply Forall_cons in Hl as [Hy Hl]. cbn in *.
  assert (0 <= le_word l) as Hw by (clear -Hl; induction Hl; cbn; lia).
  specialize (IH _ eq_refl Hl ltac:(lia)). assert (y = 0) as -> by lia. by f_equal.
Qed.

Lemma client_alloc k p X : client_has (S k) p X -> exists a p' X', run_pool_op PAlloc p = Some (a, p') /\
  pool_step (pa_elemSzB (pn_pa p)) X PAlloc a X' /\ client_has k p' X' /\ same_pool (pn_pa p) (pn_pa p').
Proof using All.
  intros [(ps & fr & Hok & Hv & Hn) Hr Hb]. cbn [run_pool_op].
  apply (wp_elim (allocEltPA (pn_var p) (pn_pa p)) (pn_st p)). eapply wp_allocEltPA; [done..|].
  intros a pa' ps' fr' s' Hok' Hnu Hk Hs Hsp Hz Hr' ->.
  assert (a ∈ {[a]} ∪ dom X) as Hin by set_solver. pose proof (used_slot _ _ _ _ _ _ Hok' Hin) as Hslot.
  destruct (slot_pool _ _ _ _ _ _ Hok' Hslot) as (q & _ & Hq & [B1 B2 _ _ _] & R1 & _).
  pose proof (pa_ok_size _ _ _ _ _ Hok') as (Hes & Hes8 & _ & _). pose proof Hsp as (_ & En & Ees & _).
  set (c := bytes_at (mem s') a (Z.to_nat (pa_elemSzB (pn_pa p)))).
  exists a, (mk_pool pa' s' (pn_var p)), (<[a := c]> X). split; [done|]. split; [|split; [|done]].
  - rewrite <- Ees. apply step_alloc; [by apply not_elem_of_dom|lia|eapply slot_aligned; [exact Hes8|exact B2|exact Hq]| | |].
    + intros b Hbx. apply elem_of_dom in Hbx. assert (b ∈ {[a]} ∪ dom X) as Hbin by set_solver.
      apply (slots_disjoint _ _ _ _ _ a b Hok' Hslot (used_slot _ _ _ _ _ _ Hok' Hbin)). by intros ->.
    + unfold c. rewrite bytes_at_length, Ees. lia.
    + unfold c. rewrite take_bytes_at by lia. apply le_word_zero; [apply bytes_at_length|apply bytes_at_ok; apply Hok'|].
      rewrite <- load_le_word; [done|apply Hok'].
  - split; cbn [pn_pa pn_st pn_var]; [|done|].
    + exists ps', fr'. rewrite dom_insert_L. split; [done|]. split; [by apply (kept_var p _ s' ps ps' Hv)|cbn; by rewrite En].
    + intros b d. rewrite Ees, lookup_insert_Some. intros [[<- <-]|[Hne Hd]]; [done|].
      rewrite (same_elems_bytes _ _ _ _ b Hs) by (by apply elem_of_dom). by apply Hb.
Qed.

Lemma client_free k p X a : client_has k p X -> is_Some (X !! a) -> exists p', run_pool_op (PFree a) p = Some (0, p') /\
  client_has k p' (delete a X) /\ same_pool (pn_pa p) (pn_pa p').
Proof using All.
  intros [(ps & fr & Hok & Hv & Hn) Hr Hb] Ha%elem_of_dom. cbn [run_pool_op].
  apply (wp_elim (freeEltPA (pn_pa p) a) (pn_st p)). eapply (wp_freeEltPA _ _ _ _ _ _ (pn_var p)); [done..|].
  intros s' pa' Hok' Hk Hs Eh ->. eexists. split; [done|]. split; [|done]. split; cbn [pn_pa pn_st pn_var].
  - exists ps, (a :: fr). rewrite dom_delete_L. split; [done|]. split; [by apply (kept_var p _ s' ps ps Hv)|done].
  - unfold pa_room. by rewrite Eh.
  - intros b c [Hne Hc]%lookup_delete_Some. cbn [pa_elemSzB pa' set_nextFree].
    rewrite (same_elems_bytes _ _ _ _ b Hs); [by apply Hb|]. rewrite elem_of_difference, elem_of_dom, elem_of_singleton.
    split; [by eexists|congruence].
Qed.

Lemma client_write k p X a off b c : client_has k p X -> X !! a = Some c -> 0 <= off < pa_elemSzB (pn_pa p) -> 0 <= b < 256 ->
  exists p', run_pool_op (PWrite a off b) p = Some (0, p') /\ client_has k p' (<[a := <[Z.to_nat off := b]> c]> X) /\
    same_pool (pn_pa p) (pn_pa p').
Proof using All.
  intros [(ps & fr & Hok & Hv & Hn) Hr Hb] Hc Hoff Hbb. eexists. split; [done|]. split; [|done].
  assert (a ∈ dom X) as Ha by (by apply elem_of_dom). assert (dom (<[a := <[Z.to_nat off := b]> c]> X) = dom X) as Ed.
  { rewrite dom_insert_L. set_solver. }
  split; cbn [pn_pa pn_st pn_var]; [|done|].
  - exists ps, fr. rewrite Ed. split; [|split; [destruct Hv; by split|done]].
    eapply pa_ok_client; [exact Hok|done|cbn; apply upd_ok; [apply Hok|done]|]. intros x. cbn. unfold upd.
    destruct (Z.eqb_spec x (a + off)) as [->|]; [left; exists a; split; [done|lia]|by right].
  - intros d e. rewrite lookup_insert_Some. intros [[<- <-]|[Hne Hd]].
    + rewrite <- (Hb a c Hc). cbn. apply bytes_at_upd. lia.
    + rewrite <- (Hb d e Hd). apply bytes_at_ext. intros x Hx. cbn. unfold upd. destruct (Z.eqb_spec x (a + off)) as [->|]; [|done].
      assert (d ∈ dom X) as Hdx by (by apply elem_of_dom).
      destruct (slots_disjoint _ _ _ _ _ a d Hok (used_slot _ _ _ _ _ _ Hok Ha) (used_slot _ _ _ _ _ _ Hok Hdx)); [done|lia|lia].
Qed.

Lemma client_has_le k p X : client_has (S k) p X -> client_has k p X.
Proof using Type.
  intros [(ps & fr & Hp) Hr Hb]. split; [by exists ps, fr| |done]. pose proof Hp as (Hok & _).
  pose proof (elem_cost_pos _ _ _ _ _ k Hok). unfold pa_room in *. eapply space_le; [|exact Hr].
  unfold elem_cost in *. nia.
Qed.

Lemma client_op k p X o : client_has (S k) p X -> pool_op_ok (pa_elemSzB (pn_pa p)) X o -> exists r p' X',
  run_pool_op o p = Some (r, p') /\ pool_step (pa_elemSzB (pn_pa p)) X o r X' /\ client_has k p' X' /\
  same_pool (pn_pa p) (pn_pa p').
Proof using All.
  intros Hc Ho. destruct o as [|a|a off b]; cbn [pool_op_ok] in Ho.
  - destruct (client_alloc _ _ _ Hc) as (a & p' & X' & E & Hs & Hc' & Hp). by exists a, p', X'.
  - apply client_has_le in Hc. destruct (client_free _ _ _ _ Hc Ho) as (p' & E & Hc' & Hp).
    exists 0, p', (delete a X). split; [done|]. split; [constructor|done].
  - apply client_has_le in Hc. destruct Ho as ([c Ec] & Hoff & Hb).
    destruct (client_write _ _ _ _ _ _ _ Hc Ec Hoff Hb) as (p' & E & Hc' & Hp). eexists 0, p', _. split; [done|].
    split; [by apply step_write|done].
Qed.

(** *** A client that chooses its operations by earlier results *)

Fixpoint run_client (c : list Z -> pool_op) (n : nat) : M (pool_state (H := H)) (list Z) :=
  match n with
  | O => ret []
  | S n => rs <- run_client c n ;; r <- run_pool_op (c rs) ;; ret (rs ++ [r])
  end.

Inductive client_trace (es : Z) (c : list Z -> pool_op) : nat -> list Z -> gmap Z (list Z) -> Prop :=
  | trace_nil : client_trace es c 0 [] ∅
  | trace_snoc n rs X r X' : client_trace es c n rs X -> pool_step es X (c rs) r X' ->
      client_trace es c (S n) (rs ++ [r]) X'.

(** Whatever happens, the client uses only elements it has. *)
Definition well_behaved (es : Z) (c : list Z -> pool_op) (n : nat) : Prop :=
  forall i rs X, (i < n)%nat -> client_trace es c i rs X -> pool_op_ok es X (c rs).

Lemma wp_run_client c n k p : client_has (n + k) p ∅ -> well_behaved (pa_elemSzB (pn_pa p)) c n ->
  wp (run_client c n) p (fun rs p' => exists X, client_trace (pa_elemSzB (pn_pa p)) c n rs X /\ client_has k p' X /\
    same_pool (pn_pa p) (pn_pa p')).
Proof using All.
  revert k. induction n as [|n IH]; intros k Hc Hw; cbn [run_client].
  - apply wp_ret. exists ∅. split; [constructor|done].
  - apply wp_bind. eapply wp_mono; [apply (IH (S k))|].
    + by replace (n + S k)%nat with (S n + k)%nat by lia.
    + intros i rs X Hi. apply Hw. lia.
    + intros rs p1 (X & Ht & Hc1 & Hsp). pose proof Hsp as (E1 & E2 & E3 & E4).
      destruct (client_op k p1 X (c rs)) as (r & p2 & X' & E & Hs & Hc2 & Hsp2);
        [done|rewrite E3; apply (Hw n); [lia|done]|].
      apply wp_bind. unfold wp at 1. rewrite E. apply wp_ret. exists X'. rewrite E3 in Hs.
      split; [by eapply trace_snoc|]. split; [done|]. destruct Hsp2 as (F1 & F2 & F3 & F4). split_and!; congruence.
Qed.

(** C18. To its client a pool allocator is a supply of separate objects: a new
    element is aligned, overlaps none that is in use, and starts with a zero
    word; what the client writes to an element stays there, whatever else is
    allocated, freed or written, until it is freed.  A client that uses only
    elements it has runs to its end. *)
Theorem pool_client (s : PST) v es n k (c : list Z -> pool_op) : bytes_ok (mem s) -> 0 < v -> live (heap s) v 8 ->
  8 <= es -> es mod 8 = 0 -> 100 <= n -> es * n < 2 ^ 64 ->
  space (heap s) (264 + Z.of_nat k * elem_cost (mk_pa 0 0 es n (mk_xa 0 None 8 0 0 0 false) 0) k) ->
  well_behaved es c k ->
  exists pa s' rs p X, newPA es n s = Some (pa, s') /\ run_client c k (mk_pool pa s' v) = Some (rs, p) /\
    client_trace es c k rs X /\
    (forall a d, X !! a = Some d -> bytes_at (mem (pn_st p)) a (Z.to_nat es) = d).
Proof using All.
  intros Hm Hv Hl Hes Hes8 Hn Hlt Hsp Hw.
  destruct (newPA_pool s v es n k) as (pa & s' & E & Hp & Enr & Ees & En & Hr); [done..|].
  exists pa, s'. apply (wp_elim (run_client c k) (mk_pool pa s' v)).
  eapply wp_mono; [apply (wp_run_client c k 0)|].
  - rewrite Nat.add_0_r. split; [|done|by intros a d ?%lookup_empty_Some]. exists [], []. by rewrite dom_empty_L.
  - cbn. by rewrite Ees.
  - cbn [pn_pa]. rewrite Ees. intros rs p (X & Ht & [_ _ Hb] & (_ & _ & Ep & _)) Er. exists rs, p, X.
    do 3 (split; [done|]). intros a d Hab. rewrite <- (Hb a d Hab), Ep. cbn. by rewrite Ees.
Qed.

(** C19. The size of a pool allocator is the number of its elements, in use and
    free.  Releasing a reference leaves it alone unless it is the last one:
    then every pool, the array of pools and both structures are given back to
    the underlying allocator, each exactly once. *)
Theorem pool_release (p : pool_state (H := H)) ps used fr : pool_is p ps used fr -> 0 < nrRef (pn_pa p) ->
  sizePA (pn_pa p) = Z.of_nat (size used + length fr) /\ NoDup (pool_blocks (pn_pa p) ps) /\
  (nrRef (pn_pa p) = 1 -> exists pa s', releasePA (pn_pa p) (pn_st p) = Some ((0, pa), s') /\
     heap s' = free_all (pool_blocks (pn_pa p) ps) (heap (pn_st p))) /\
  (1 < nrRef (pn_pa p) -> exists pa, releasePA (pn_pa p) (pn_st p) = Some ((nrRef (pn_pa p) - 1, pa), pn_st p) /\
     pool_is (mk_pool pa (pn_st p) (pn_var p)) ps used fr).
Proof using All.
  intros (Hok & Hv & Hn) Hpos. split; [|split; [by eapply pool_blocks_nodup|split]].
  - unfold sizePA, sizeXA. pose proof (slots_count _ _ _ _ _ Hok) as Hc. destruct (po_words _ _ _ _ _ Hok) as (_ & Eu & _).
    pose proof (pa_ok_size _ _ _ _ _ Hok) as (_ & _ & Hn' & _).
    rewrite Eu, u64_small, Z.mul_comm by nia. rewrite <- (slots_length (pa_elemSzB (pn_pa p))) by lia.
    rewrite <- (Permutation_length (po_slots _ _ _ _ _ Hok)), length_app. done.
  - intros E1. apply (wp_elim (releasePA (pn_pa p)) (pn_st p)). eapply wp_releasePA; [done|lia| |lia].
    intros _ ->. by eexists _, _.
  - intros Hlt. apply (wp_elim (releasePA (pn_pa p)) (pn_st p)). eapply wp_releasePA; [done|lia|lia|].
    intros _ ->. eexists. split; [done|]. split; [by apply pa_ok_refs|]. split; [destruct Hv; by split|cbn; lia].
Qed.
End Client.

(** ** Instances *)

(** Takes an element, writes 7 to its first byte, takes another, gives the
    first back, and takes one more *)
Definition some_client (rs : list Z) : pool_op :=
  match rs with
  | [] => PAlloc
  | [a] => PWrite a 0 7
  | [_; _] => PAlloc
  | [a; _; _] => PFree a
  | _ => PAlloc
  end.

Lemma some_client_ok : well_behaved 16 some_client 5.
Proof.
  intros i rs X Hi Ht. inversion Ht as [|? rs1 X1 r1 ? Ht1 S1]; subst; [done|].
  inversion Ht1 as [|? rs2 X2 r2 ? Ht2 S2]; subst.
  { inversion S1; subst. cbn. split; [|lia]. rewrite lookup_insert_eq. by eexists. }
  inversion Ht2 as [|? rs3 X3 r3 ? Ht3 S3]; subst; [done|].
  inversion Ht3 as [|? rs4 X4 r4 ? Ht4 S4]; subst.
  { cbn in *. inversion S3; subst. cbn in S2. inversion S2; subst. cbn in S1. inversion S1; subst. cbn.
    rewrite lookup_insert_ne; [rewrite lookup_insert_eq; by eexists|]. intros ->. by rewrite lookup_insert_eq in *. }
  inversion Ht4; subst; [|lia]. done.
Qed.

Lemma pool_client_witness : exists pa s' rs p X, newPA 16 100 s_arena = Some (pa, s') /\
    run_client some_client 5 (mk_pool pa s' 800) = Some (rs, p) /\ client_trace 16 some_client 5 rs X /\
    (forall a d, X !! a = Some d -> bytes_at (mem (pn_st p)) a (Z.to_nat 16) = d).
Proof.
  apply (pool_client s_arena 800 16 100 5 some_client); try done.
  apply some_client_ok.
Defined.

(** A pool allocator with one reference and one element in use *)
Lemma arena_pool : exists (p : pool_state (H := arena)) ps a fr, pool_is p ps {[a]} fr /\ nrRef (pn_pa p) = 1.
Proof.
  destruct (newPA_pool s_arena 800 16 100 1) as (pa & s' & _ & Hp & Enr & _ & _ & Hr); try done.
  set (p1 := mk_pool (set_nrRef 1 pa) s' 800).
  assert (pool_is p1 [] ∅ []) as Hp1.
  { destruct Hp as (Hok & Hv & _). split; [by apply pa_ok_refs|]. split; [destruct Hv; by split|done]. }
  destruct (node_alloc p1 [] ∅ [] 0 Hp1 Hr) as (l & p2 & ps & fr & _ & Hp2 & _ & _ & En).
  rewrite (right_id_L ∅ (∪)) in Hp2. by exists p2, ps, (Z.pos l), fr.
Qed.

Lemma pool_release_witness : exists (p : pool_state (H := arena)) ps a fr, nrRef (pn_pa p) = 1 /\
  sizePA (pn_pa p) = Z.of_nat (size ({[a]} : gset Z) + length fr) /\ NoDup (pool_blocks (pn_pa p) ps) /\
  (nrRef (pn_pa p) = 1 -> exists pa s', releasePA (pn_pa p) (pn_st p) = Some ((0, pa), s') /\
     heap s' = free_all (pool_blocks (pn_pa p) ps) (heap (pn_st p))) /\
  (1 < nrRef (pn_pa p) -> exists pa, releasePA (pn_pa p) (pn_st p) = Some ((nrRef (pn_pa p) - 1, pa), pn_st p) /\
     pool_is (mk_pool pa (pn_st p) (pn_var p)) ps {[a]} fr).
Proof.
  destruct arena_pool as (p & ps & a & fr & Hp & En). exists p, ps, a, fr. split; [done|].
  apply (pool_release p ps {[a]} fr); [done|lia].
Defined.
