(* ===== verification/MallocCheck.v ===== *)
(** The heap's checks of itself succeed: the classes of the free lists, and
    the walks over superblocks and lists. *)
From stdpp Require Import base list sorting gmap sets fin_maps.
From Stdlib Require Import ZArith Lia.
From S2P Require Import Prelude Mem LibcMem Adler Malloc MallocApi MallocBlocks MallocLists MallocInv MallocSb MallocInit MallocAlloc MallocClient.
Open Scope prog_scope.
Open Scope Z_scope.

(** ** Classes of sizes *)

Lemma listNo_step k : 0 <= k -> listNo (16 * k) <= listNo (16 * (k + 1)).
Proof.
  intros Hk. destruct (Z.le_gt_cases 9890 k) as [H|H].
  - unfold listNo, VG_MIN_MALLOC_SZB. rewrite !(Z.mul_comm 16), !Z.div_mul by lia. unfold pszB_to_listNo_SLOW.
    rewrite !(proj2 (Z.ltb_ge _ _)) by lia. done.
  - assert (forallb (fun n => listNo (16 * n) <=? listNo (16 * (n + 1))) (seqZ 0 9890) = true) as Hc by (vm_compute; done).
    rewrite forallb_forall in Hc. apply Z.leb_le, Hc, list_elem_of_In, elem_of_seqZ. lia.
Qed.

Lemma listNo_mono k n : 0 <= k <= n -> listNo (16 * k) <= listNo (16 * n).
Proof.
  intros [Hk Hn]. replace n with (k + Z.of_nat (Z.to_nat (n - k))) by lia. induction (Z.to_nat (n - k)) as [|j IH]; [by rewrite Z.add_0_r|].
  etransitivity; [exact IH|]. replace (k + Z.of_nat (S j)) with (k + Z.of_nat j + 1) by lia. apply listNo_step. lia.
Qed.

Lemma listNo_last k : 9890 <= k -> listNo (16 * k) = 111.
Proof.
  intros H. unfold listNo, VG_MIN_MALLOC_SZB. rewrite (Z.mul_comm 16), Z.div_mul by lia. unfold pszB_to_listNo_SLOW.
  by rewrite !(proj2 (Z.ltb_ge _ _)) by lia.
Qed.

Lemma listNo_top k : 0 <= k -> listNo (16 * k) <= 111.
Proof.
  intros Hk. destruct (Z.le_gt_cases 9890 k) as [H|H]; [by rewrite listNo_last|].
  rewrite <- (listNo_last 9890) by lia. apply listNo_mono. lia.
Qed.

Lemma min_pszB_loop_spec fuel i : forall k, 0 <= k -> i <= listNo (16 * (k + Z.of_nat fuel)) ->
  exists n, k <= n /\ min_pszB_loop fuel i (16 * k) = 16 * n /\ i <= listNo (16 * n) /\ forall j, k <= j < n -> listNo (16 * j) < i.
Proof.
  induction fuel as [|fuel IH]; intros k Hk Hi; cbn [min_pszB_loop].
  - exists k. rewrite Z.add_0_r in Hi. split_and!; try done. lia.
  - destruct (Z.ltb_spec (listNo (16 * k)) i) as [Hlt|Hge].
    + unfold VG_MIN_MALLOC_SZB. replace (16 * k + 16) with (16 * (k + 1)) by lia.
      destruct (IH (k + 1)) as (n & H1 & H2 & H3 & H4); [lia|by replace (k + 1 + Z.of_nat fuel) with (k + Z.of_nat (S fuel)) by lia|].
      exists n. split_and!; [lia|done|done|]. intros j Hj. destruct (decide (j = k)) as [->|]; [done|]. apply H4. lia.
    + exists k. split_and!; try done. lia.
Qed.

(** The first size of a list *)
Lemma listNo_min i : 0 <= i <= 111 -> exists n, 0 <= n /\ listNo_to_pszB_min i = 16 * n /\ forall k, 0 <= k -> i <= listNo (16 * k) <-> n <= k.
Proof.
  intros Hi. unfold listNo_to_pszB_min.
  destruct (min_pszB_loop_spec 9891 i 0) as (n & H1 & H2 & H3 & H4); [lia|change (0 + Z.of_nat 9891) with 9891; rewrite listNo_last by lia; lia|].
  exists n. split_and!; [done|exact H2|]. intros k Hk. split; intros H.
  - destruct (Z.le_gt_cases n k) as [|Hgt]; [done|]. specialize (H4 k ltac:(lia)). lia.
  - etransitivity; [exact H3|]. apply listNo_mono. lia.
Qed.

Lemma listNo_bounds i n : 0 <= i <= 111 -> 0 <= n < 2 ^ 64 -> n mod 16 = 0 ->
  listNo n = i <-> listNo_to_pszB_min i <= n <= listNo_to_pszB_max i.
Proof.
  intros Hi Hn Hm. assert (exists k, n = 16 * k) as [k ->] by (exists (n / 16); Z.div_mod_to_equations; lia).
  destruct (listNo_min i Hi) as (a & Ha & -> & Hmin). specialize (Hmin k ltac:(lia)). pose proof (listNo_top k ltac:(lia)) as Ht.
  unfold listNo_to_pszB_max, N_MALLOC_LISTS, MAX_PSZB. destruct (Z.eqb_spec i (112 - 1)) as [->|Hne]; [lia|].
  destruct (listNo_min (i + 1) ltac:(lia)) as (c & Hc & -> & Hmax). specialize (Hmax k ltac:(lia)). lia.
Qed.

(** The first sizes of the lists go up by 16 bytes, then in three exponential
    slopes of 16 lists each, by a factor of 1.05, 1.10 and 1.20. *)
Definition class_first (i : Z) : Z :=
  if i <? 64 then 16 * i
  else
    let a := Z.min (i - 64) 16 in
    let b := Z.min (i - 64 - a) 16 in
    let c := i - 64 - a - b in
    16 * (64 * 105 ^ a * 110 ^ b * 120 ^ c / 100 ^ (a + b + c)).

Lemma listNo_min_first i : 0 <= i < N_MALLOC_LISTS -> listNo_to_pszB_min i = class_first i.
Proof.
  intros Hi. assert (forallb (fun i => listNo_to_pszB_min i =? class_first i) (seqZ 0 112) = true) as Hc by (vm_compute; done).
  rewrite forallb_forall in Hc. apply Z.eqb_eq, Hc, list_elem_of_In, elem_of_seqZ. unfold N_MALLOC_LISTS in Hi. lia.
Qed.

(** ** Circles in both directions *)

Lemma cyc_linked g m l l1 b l2 x k : cyc g m l -> l = l1 ++ b :: l2 -> l = x :: k ->
  linked g m b (match l2 with [] => x | c :: _ => c end).
Proof.
  intros Hc E ->. cbn [cyc] in Hc. rewrite app_comm_cons, E, <- app_assoc in Hc. cbn [app] in Hc.
  destruct l2 as [|c l2]; by apply chain_two in Hc as (_ & Hl & _).
Qed.

Lemma uint_add x y : uint (uint x + y) = uint (x + y).
Proof. unfold uint. by rewrite Z.add_mod_idemp_l. Qed.

Lemma u64_add x y : u64 (u64 x + y) = u64 (x + y).
Proof. unfold u64. by rewrite Z.add_mod_idemp_l. Qed.

Section Check.
Context {OS : Type} `{AddressSpaceLaws OS}.
Implicit Types (m : gmem) (o : OS) (A : Arena) (ag : aghost) (b c : blk) (sb : sblk).

(** What the walk over blocks counts *)
Definition free_count (l : list blk) : Z := Z.of_nat (length (filter is_free l)).
Definition loan_of (g : geo) (l : list blk) : Z := sumZ (fun b => bsz b - g_ovh g) (filter is_used l).

Lemma free_count_cons b l : free_count (b :: l) = (if bused b then 0 else 1) + free_count l.
Proof using Type.
  unfold free_count. destruct (bused b) eqn:E; [rewrite filter_cons_False by (unfold is_free; congruence)|rewrite filter_cons_True by done; cbn]; lia.
Qed.

Lemma loan_of_cons g b l : loan_of g (b :: l) = (if bused b then bsz b - g_ovh g else 0) + loan_of g l.
Proof using Type.
  unfold loan_of. destruct (bused b) eqn:E; [rewrite filter_cons_True by done|rewrite filter_cons_False by (unfold is_used; congruence)]; [done|lia].
Qed.

Section Ops.
Context (a : nat) (s : mst (OS := OS)).
Context (Ha : (a < length (vg_arena s))%nat).
Abbreviation hp := (hp_overhead_szB s).
Abbreviation St A m o := (at_arena a A m o s).

(** *** Blocks *)

Lemma wp_check_blocks A m o ag sb Q : arena_ok hp m o A ag -> sb ∈ ag_sbs ag -> sbytes sb < 2 ^ 32 ->
  forall fuel l1 l2 last free loan, sblks sb = l1 ++ l2 -> merged l2 ->
  (last = true -> match l2 with [] => True | b :: _ => is_used b end) -> (length l2 < fuel)%nat ->
  forall i, tiles (spay sb + i) l2 (send sb) -> 0 <= i ->
  Q (uint (free + free_count l2), u64 (loan + loan_of (geo_of hp A) l2)) (St A m o) ->
  wp (check_blocks fuel a (saddr sb) i last (uint free) (u64 loan)) (St A m o) Q.
Proof using Ha.
  intros Hok Hs Hlt fuel. set (g := geo_of hp A). pose proof (ao_geo _ _ _ _ _ Hok : geo_ok g) as Hg.
  destruct (ao_sbs _ _ _ _ _ Hok sb Hs) as [Hw [E1 _]]. assert (A_geo g A) as HA by done.
  induction fuel as [|fuel IH]; intros l1 l2 last free loan El Hm Hlast Hf i Ht Hi HQ; [lia|]. cbn [check_blocks].
  apply wp_bind, wp_ld. rewrite E1. destruct l2 as [|b l2].
  { cbn in Ht. assert (i = sbytes sb) as -> by (unfold spay, send in Ht; lia). rewrite Z.ltb_irrefl. apply wp_ret.
    assert (free_count [] = 0) as E0 by done. assert (loan_of g [] = 0) as E2 by done. fold g in HQ. by rewrite E0, E2, !Z.add_0_r in HQ. }
  destruct Ht as [Eb Ht]. assert (b ∈ sblks sb) as Hbs by (rewrite El; apply elem_of_app; right; by left).
  assert (b ∈ ag_blks ag) as Hb by (apply ag_blks_elem; by exists sb). pose proof (blks_wf _ _ _ _ _ Hok b Hb : blk_wf g b) as Hwb.
  pose proof (blk_tagged _ _ _ _ _ Hok b Hb : tagged g m b) as Htb. destruct (blk_wf_pos g b Hg Hwb) as (Hsz & _).
  destruct (blk_place _ _ _ _ _ Hok sb b Hs Hbs) as [_ Hend]. pose proof Hend as Hend'. unfold bend, send in Hend'. unfold spay in Eb.
  pose proof (proj1 (proj2 (proj2 (geo_sizes g Hg)))) as Hov. pose proof (geo_hp g Hg) as [Hh _].
  rewrite (proj2 (Z.ltb_lt _ _)) by (unfold spay in *; lia). unfold payload_bytes. assert (saddr sb + 32 + i = baddr b) as -> by lia. unfold spay in Hend.
  apply wp_bind. eapply (wp_get_bszB_as_is a s g); [done..|]. apply wp_bind, wp_blockSane; [done..|by apply (ao_used _ _ _ _ _ Hok b Hb)|]. cbn [negb].
  apply wp_bind. eapply (wp_is_inuse a s g); [done..|].
  assert (negb (bused b) && last = false) as ->.
  { destruct last; [|by rewrite andb_false_r]. specialize (Hlast eq_refl). unfold is_used in Hlast. by rewrite Hlast. }
  assert (wp (plain <- mk_plain_bszB (btag b) ;;
     check_blocks fuel a (saddr sb) (uint (i + plain)) (negb (bused b)) (uint (free + if bused b then 0 else 1))
       (u64 (loan + if bused b then bsz b - g_ovh g else 0))) (St A m o) Q) as Hgo.
  { apply wp_bind. eapply (wp_plain a s g); [done..|]. assert (uint (i + bsz b) = i + bsz b) as -> by (apply uint_small; lia).
    apply (IH (l1 ++ [b]) l2); [by rewrite <- app_assoc|by destruct Hm| | |unfold bend in Ht|lia|].
    - intros Hn. destruct Hm as [Hm _]. destruct l2 as [|c l2]; [done|]. destruct Hm as [Hm|Hm]; [|done]. unfold is_used in Hm. by rewrite Hm in Hn.
    - cbn in Hf. lia.
    - by replace (spay sb + (i + bsz b)) with (baddr b + bsz b) by (unfold spay; lia).
    - rewrite <- !Z.add_assoc, <- free_count_cons, <- loan_of_cons. exact HQ. }
  apply wp_bind. destruct (bused b) eqn:Eu; cbn [negb].
  - apply wp_bind. assert (btag b = bsz b) as -> by (unfold btag; by rewrite Eu). eapply (wp_bszB_to_pszB a s g); [done..|by apply Hwb|]. apply wp_ret.
    rewrite Z.add_0_r in Hgo. rewrite u64_add. assert (btag b = bsz b) as E by (unfold btag; by rewrite Eu). by rewrite E in Hgo.
  - apply wp_ret. rewrite Z.add_0_r in Hgo. by rewrite uint_add.
Qed.

Lemma wp_check_sblocks A m o ag Q : arena_ok hp m o A ag -> arena_tidy (fun p => p = deferred_reclaimed_sb A) ag ->
  (forall sb, sb ∈ ag_sbs ag -> sbytes sb < 2 ^ 32) -> forall fuel, (length (ag_blks ag) < fuel)%nat ->
  forall l1 l2 free loan, ag_sbs ag = l1 ++ l2 ->
  Q (uint (free + free_count (l2 ≫= sblks)), u64 (loan + loan_of (geo_of hp A) (l2 ≫= sblks))) (St A m o) ->
  wp (check_sblocks fuel a (saddr <$> l2) (uint free) (u64 loan)) (St A m o) Q.
Proof using Ha.
  intros Hok Hty Hlt fuel Hf l1 l2. revert l1. induction l2 as [|sb l2 IH]; intros l1 free loan El HQ.
  { apply wp_ret. assert (free_count [] = 0) as E0 by done. assert (loan_of (geo_of hp A) [] = 0) as E2 by done.
    change ([] ≫= sblks) with ([] : list blk) in HQ. by rewrite E0, E2, !Z.add_0_r in HQ. }
  assert (sb ∈ ag_sbs ag) as Hs by (rewrite El; apply elem_of_app; right; by left). destruct (Hty sb Hs) as [Hm _ _].
  destruct (ao_sbs _ _ _ _ _ Hok sb Hs) as [Hw _]. cbn [fmap list_fmap check_sblocks]. apply wp_bind.
  eapply (wp_check_blocks A m o ag sb _ Hok Hs (Hlt sb Hs) fuel [] (sblks sb)); [done|done|done| | |done|].
  - unfold ag_blks in Hf. rewrite El, bind_app, length_app in Hf. cbn [mbind list_bind] in Hf. rewrite length_app in Hf. lia.
  - rewrite Z.add_0_r. by apply Hw.
  - cbn [fst snd]. apply (IH (l1 ++ [sb])); [by rewrite <- app_assoc|].
    cbn [mbind list_bind] in HQ. unfold free_count, loan_of in *. rewrite !filter_app, length_app, Nat2Z.inj_add, sumZ_app in HQ.
    by rewrite !Z.add_assoc in HQ.
Qed.

(** *** Lists *)

Lemma wp_check_list A m o ag i l x k Q : arena_ok hp m o A ag -> ag_fl ag !! i = Some l -> l = x :: k ->
  forall fuel l1 b l2 li, l = l1 ++ b :: l2 -> (length (b :: l2) <= fuel)%nat ->
  Q (uint (li + Z.of_nat (length (b :: l2)))) (St A m o) ->
  wp (check_list fuel a (baddr x) (Z.of_nat i) (baddr b) (uint li)) (St A m o) Q.
Proof using Ha.
  intros Hok Hl Hx fuel. set (g := geo_of hp A). pose proof (ao_geo _ _ _ _ _ Hok : geo_ok g) as Hg.
  pose proof (ao_lists _ _ _ _ _ Hok) as Hls. destruct (fo_distinct g Hg _ _ _ _ _ Hls Hl) as (Hn & Hw & Hd).
  pose proof (fo_cyc _ _ _ _ Hls i l Hl) as Hc. assert (A_geo g A) as HA by done.
  assert (Z.of_nat i <= 111) as Hi.
  { apply lookup_lt_Some in Hl. rewrite (fo_len _ _ _ _ Hls) in Hl. unfold N_MALLOC_LISTS in Hl. lia. }
  induction fuel as [|fuel IH]; intros l1 b l2 li El Hf HQ; [cbn in Hf; lia|]. cbn [check_list].
  assert (b ∈ l) as Hb by (rewrite El; apply elem_of_app; right; by left). destruct (Hw b Hb) as [Hwb Htb].
  destruct (cyc_linked g m l l1 b l2 x k Hc El Hx) as [Hnx Hpv]. set (c := match l2 with [] => x | c :: _ => c end) in *.
  assert (c ∈ l) as Hcl.
  { unfold c. destruct l2 as [|c' l2]; [rewrite Hx; by left|]. rewrite El. apply elem_of_app. right. right. by left. }
  destruct (Hw c Hcl) as [Hwc Htc]. apply wp_bind. eapply (wp_get_next a s g); [done..|]. rewrite Hnx.
  apply wp_bind. eapply (wp_get_prev a s g); [done..|]. rewrite Hpv, Z.eqb_refl. cbn [negb].
  apply wp_bind. eapply (wp_get_pszB a s g); [done..|].
  destruct (fo_item _ _ _ _ Hls i l c Hl Hcl) as (_ & _ & _ & Hno). pose proof Hwc as (W1 & W2 & W3 & W4 & W5).
  pose proof (geo_sizes g Hg) as Hgs.
  destruct (proj1 (listNo_bounds (Z.of_nat i) (bsz c - g_ovh g) ltac:(lia) ltac:(unfold bend in *; lia) (payload_mod g _ Hg W3)) Hno) as [B1 B2].
  rewrite (proj2 (Z.ltb_ge _ _) B1), (proj2 (Z.ltb_ge _ _) B2). cbn [orb]. rewrite uint_add. unfold c. clear Hcl Hwc Hnx Hpv Htc Hno W1 W2 W3 W4 W5 B1 B2 c.
  destruct l2 as [|c l2].
  - rewrite Z.eqb_refl. by apply wp_ret.
  - assert (c ∈ l) as Hcl by (rewrite El; apply elem_of_app; right; right; by left). destruct (Hw c Hcl) as [Hwc _].
    assert (x ∈ l) as Hxl by (rewrite Hx; by left). destruct (Hw x Hxl) as [Hwx _].
    assert (c <> x) as Hne.
    { intros ->. rewrite El in Hn, Hx. destruct l1 as [|y l1]; cbn in Hx; injection Hx as -> Ek.
      - apply NoDup_cons in Hn as [Hn _]. apply Hn. by left.
      - apply NoDup_cons in Hn as [Hn _]. apply Hn. apply elem_of_app. right. right. by left. }
    rewrite (proj2 (Z.eqb_neq _ _)) by (apply (addr_distinct g Hg); [done|done|by apply Hd]).
    apply (IH (l1 ++ [b]) c l2); [by rewrite <- app_assoc|cbn in *; lia|].
    replace (li + 1 + Z.of_nat (length (c :: l2))) with (li + Z.of_nat (length (b :: c :: l2))) by (cbn; lia). done.
Qed.

Lemma wp_check_lists A m o ag fuel Q : arena_ok hp m o A ag -> (length (ag_blks ag) < fuel)%nat ->
  forall n i li, (i + n = 112)%nat ->
  Q (uint (li + Z.of_nat (length (mjoin (drop i (ag_fl ag)))))) (St A m o) ->
  wp (check_lists n fuel a (Z.of_nat i) (uint li)) (St A m o) Q.
Proof using Ha.
  intros Hok Hf n. pose proof (ao_lists _ _ _ _ _ Hok) as Hls. pose proof (fo_len _ _ _ _ Hls) as Hlen. change (Z.to_nat N_MALLOC_LISTS) with 112%nat in Hlen.
  induction n as [|n IH]; intros i li Hi HQ; cbn [check_lists].
  { apply wp_ret. rewrite drop_ge in HQ by lia. by rewrite Z.add_0_r in HQ. }
  destruct (lookup_lt_is_Some_2 (ag_fl ag) i) as [l Hl]; [lia|].
  destruct (fo_list _ _ _ _ _ _ Hls Hl) as (Hnd & _ & HF & _). rewrite (drop_S _ _ _ Hl) in HQ. cbn [mjoin list_join] in HQ.
  rewrite length_app, Nat2Z.inj_add, Z.add_assoc in HQ.
  apply wp_bind. eapply wp_get_freelist; [done|by rewrite Nat2Z.id|]. apply wp_bind. replace (Z.of_nat i + 1) with (Z.of_nat (S i)) by lia.
  destruct l as [|b l]; cbn [head_addr].
  - apply wp_ret. apply IH; [lia|]. by rewrite Z.add_0_r in HQ.
  - destruct (fo_item _ _ _ _ Hls _ _ b Hl ltac:(by left)) as (Hw & _). rewrite (proj2 (Z.eqb_neq _ _)) by (pose proof (proj1 Hw); lia).
    apply (wp_check_list A m o ag i (b :: l) b l) with (l1 := []) (l2 := l); [done|done|done|done| |by apply IH; [lia|]].
    assert (length (b :: l) <= length (ag_blks ag))%nat; [|lia].
    apply submseteq_length, NoDup_submseteq; [done|]. intros c Hc. eapply (free_elem _ _ _ _ _ Hok), fo_elem; [exact Hls|exact Hl|done].
Qed.
End Ops.

(** ** The whole heap *)

Lemma wp_sanity_check_malloc_arena a s A ag Q : vg_arena s !! a = Some A -> arena_inv (hp_overhead_szB s) (hmem s) (os s) A ag ->
  (forall sb, sb ∈ ag_sbs ag -> sbytes sb < 2 ^ 32) -> Q tt s -> wp (sanity_check_malloc_arena a) s Q.
Proof using Type.
  intros HA (Hok & Hty & Hac) Hlt HQ. assert (a < length (vg_arena s))%nat as Ha by (by eapply lookup_lt_Some).
  rewrite (at_arena_id a A s HA) in HQ |- *. destruct (ao_count _ _ _ _ _ Hok) as (C1 & C2 & C3 & C4).
  apply wp_bind, wp_the_arena; [done|]. rewrite !(proj2 (Z.leb_le _ _)) by done. cbn [andb negb]. apply wp_bind, wp_ret.
  apply wp_bind. eapply wp_scan_fuel; [done|exact Hok|]. intros fuel Hf. apply wp_bind.
  rewrite C1, Nat2Z.id, (ao_array _ _ _ _ _ Hok). change 0 with (uint 0) at 1. change 0 with (u64 0) at 2.
  eapply (wp_check_sblocks a s Ha A _ _ ag _ Hok Hty Hlt fuel Hf [] (ag_sbs ag)); [done|]. rewrite !Z.add_0_l. fold (ag_blks ag). cbn [fst snd].
  assert (u64 (u64 (loan_of (geo_of (hp_overhead_szB s) A) (ag_blks ag)) + perm_bytes_on_loan (stats A)) = bytes_on_loan (stats A)) as ->.
  { by rewrite u64_add, (ac_loan _ _ _ Hac). }
  rewrite Z.eqb_refl. cbn [negb]. apply wp_bind. change 0 with (Z.of_nat 0) at 1. change 0 with (uint 0).
  apply (wp_check_lists a s Ha A _ _ ag fuel _ Hok Hf 112 0); [done|]. rewrite drop_0, (ao_free _ _ _ _ _ Hok), Z.add_0_l.
  unfold free_count. rewrite Z.eqb_refl. by apply wp_ret.
Qed.

(** *** All arenas *)

Lemma wp_sanity_check_malloc_all cfg s G Q : heap_ok cfg s G -> nonclient_inited s = true ->
  (forall a ag sb, G !! a = Some ag -> sb ∈ ag_sbs ag -> sbytes sb < 2 ^ 32) -> Q tt s -> wp sanity_check_malloc_all s Q.
Proof using Type.
  intros Hok Hn Hlt HQ. unfold sanity_check_malloc_all. destruct (ho_len _ _ _ Hok) as [L1 L2].
  assert (forall n i, (i + n = VG_N_ARENAS)%nat -> wp (sanity_check_from n i) s Q) as Hgo; [|by apply Hgo].
  induction n as [|n IH]; intros i Hi; cbn [sanity_check_from]; [by apply wp_ret|]. apply wp_bind, wp_gets, wp_bind.
  destruct ((i =? VG_AR_CLIENT)%nat && negb (client_inited s)) eqn:E; [apply wp_ret, IH; lia|].
  destruct (lookup_lt_is_Some_2 (vg_arena s) i) as [A HA]; [lia|]. destruct (lookup_lt_is_Some_2 G i) as [ag HG]; [lia|].
  assert (up s i = true) as Hup.
  { unfold up. destruct (i =? VG_AR_CLIENT)%nat; [|done]. by destruct (client_inited s). }
  eapply wp_sanity_check_malloc_arena; [exact HA|by apply (ho_up _ _ _ Hok i A ag)|intros sb; by apply (Hlt i)|]. apply IH. lia.
Qed.

(** ** Descriptions of addresses *)

Section Describe.
Context (a : nat) (s : mst (OS := OS)).
Context (Ha : (a < length (vg_arena s))%nat).
Abbreviation hp := (hp_overhead_szB s).
Abbreviation St A m o := (at_arena a A m o s).

Lemma wp_maybe_none A m o ag ad Q : arena_ok hp m o A ag -> (forall sb, sb ∈ ag_sbs ag -> ~ (spay sb <= ad < send sb)) ->
  Q None (St A m o) -> forall fuel min max, 0 <= min <= sblocks_used A -> max <= sblocks_used A -> max - min + 1 < Z.of_nat fuel -> min <= max + 1 ->
  wp (maybe_findSb_loop fuel A ad min max) (St A m o) Q.
Proof using Ha.
  intros Hok Hno HQ fuel. pose proof (sbs_count _ _ _ _ _ Hok) as Hcount. destruct (ao_count _ _ _ _ _ Hok) as (Eu & _).
  induction fuel as [|fuel IH]; intros min max Hmin Hmax Hf Hle; [lia|]. cbn [maybe_findSb_loop].
  destruct (Z.ltb_spec max min) as [Hlt|Hge]; [by apply wp_ret|]. rewrite (u64_small (max - min)) by lia.
  pose proof (Z.div_mod (max - min) 2 ltac:(lia)) as Hdm. pose proof (Z.mod_pos_bound (max - min) 2 ltac:(lia)) as Hmb.
  set (pos := u64 (min + (max - min) / 2)). assert (pos = min + (max - min) / 2) as Ep by (apply u64_small; lia).
  destruct (Z.leb_spec (sblocks_used A) pos) as [Hu|Hu]; [by apply wp_ret|].
  destruct (lookup_lt_is_Some_2 (ag_sbs ag) (Z.to_nat pos)) as [x Hx]; [lia|].
  rewrite (array_lookup _ _ _ _ _ _ _ Hok Hx). apply wp_bind, wp_ld.
  assert (x ∈ ag_sbs ag) as Hxs by (by eapply list_elem_of_lookup_2). destruct (ao_sbs _ _ _ _ _ Hok x Hxs) as [Hw [-> _]].
  unfold payload_bytes. change (saddr x + 32) with (spay x). assert (spay x + sbytes x = send x) as -> by done. specialize (Hno x Hxs).
  destruct (Z.leb_spec (spay x) ad); [destruct (Z.ltb_spec ad (send x)); [lia|]|]; cbn [andb].
  - rewrite u64_small by lia. apply IH; lia.
  - destruct (Z.eq_dec pos 0) as [Ez|Hz].
    + destruct fuel as [|fuel]; [lia|]. cbn [maybe_findSb_loop]. rewrite Ez. change (u64 (0 - 1)) with (2 ^ 64 - 1). assert (min = 0) as -> by lia.
      change (u64 (0 + u64 (2 ^ 64 - 1 - 0) / 2)) with (2 ^ 63 - 1). rewrite (proj2 (Z.ltb_ge _ _)) by lia.
      rewrite (proj2 (Z.leb_le _ _)) by lia. by apply wp_ret.
    + rewrite u64_small by lia. apply IH; lia.
Qed.

(** A search that succeeds is the same as one that must succeed. *)
Lemma maybe_find fuel A ad min max (s1 : mst (OS := OS)) r s2 : findSb_loop fuel A ad min max s1 = Some (r, s2) ->
  maybe_findSb_loop fuel A ad min max s1 = Some (Some r, s2).
Proof using Type.
  revert min max. induction fuel as [|fuel IH]; intros min max; [done|]. cbn [findSb_loop maybe_findSb_loop].
  destruct (max <? min); [done|]. set (pos := u64 _). unfold bind at 1, m_assert. destruct (Z.ltb_spec pos (sblocks_used A)); [|done].
  rewrite (proj2 (Z.leb_gt _ _)) by done. cbn. destruct (sblocks A !! Z.to_nat pos) as [sb|]; [|done]. unfold bind, ld, gets.
  destruct (_ && _); [by intros [= <- <-]|]. destruct (payload_bytes sb <=? ad); apply IH.
Qed.

Lemma wp_maybe_findSb A m o ag ad Q : arena_ok hp m o A ag ->
  ((forall sb, sb ∈ ag_sbs ag -> ~ (spay sb <= ad < send sb)) -> Q None (St A m o)) ->
  (forall sb, sb ∈ ag_sbs ag -> spay sb <= ad < send sb -> Q (Some (saddr sb)) (St A m o)) ->
  wp (maybe_findSb a ad) (St A m o) Q.
Proof using Ha.
  intros Hok HN HS. apply wp_bind, wp_the_arena; [done|]. destruct (ao_count _ _ _ _ _ Hok) as (Eu & _).
  destruct (decide (Exists (fun sb => spay sb <= ad < send sb) (ag_sbs ag))) as [Hx|Hx].
  - apply Exists_exists in Hx as (sb & Hs & Hb). pose proof Hs as [i Hi]%list_elem_of_lookup. pose proof (lookup_lt_Some _ _ _ Hi) as Hil.
    assert (wp (findSb_loop (S (S (Z.to_nat (sblocks_used A)))) A ad 0 (sblocks_used A)) (St A m o) (fun r s' => r = saddr sb /\ s' = St A m o)) as Hf.
    { eapply wp_findSb_loop; [done|done|exact Hi|done|done|lia|lia|lia]. }
    unfold wp in *. destruct (findSb_loop _ _ _ _ _ _) as [[r s']|] eqn:E; [|done]. destruct Hf as [-> ->].
    rewrite (maybe_find _ _ _ _ _ _ _ _ E). by apply HS.
  - eapply wp_maybe_none; [done| |apply HN|lia|lia|lia|lia]; intros sb Hs Hb; apply Hx, Exists_exists; by exists sb.
Qed.

Lemma wp_block_of_addr A m o ag sb ad b l2 Q : arena_ok hp m o A ag -> sb ∈ ag_sbs ag -> in_blk b ad ->
  Q (baddr b) (St A m o) -> forall fuel l0 l1 j p, sblks sb = l0 ++ l1 ++ b :: l2 -> (length l1 < fuel)%nat -> tiles (spay sb + j) (l1 ++ b :: l2) (send sb) ->
  wp (block_of_addr fuel (saddr sb) ad j p) (St A m o) Q.
Proof using Ha.
  intros Hok Hs Hin HQ fuel. set (g := geo_of hp A). pose proof (ao_geo _ _ _ _ _ Hok : geo_ok g) as Hg.
  destruct (ao_sbs _ _ _ _ _ Hok sb Hs) as [Hw [E1 _]].
  induction fuel as [|fuel IH]; intros l0 l1 j p El Hf Ht; [lia|]. cbn [block_of_addr]. apply wp_bind, wp_ld. rewrite E1.
  assert (forall c, c ∈ l1 ++ b :: l2 -> c ∈ sblks sb) as Hsub by (intros c Hc; rewrite El; apply elem_of_app; by right).
  assert (forall c, c ∈ sblks sb -> blk_wf g c /\ tagged g m c /\ bend c <= send sb /\ baddr c < bend c) as Hblk.
  { intros c Hc. assert (c ∈ ag_blks ag) as Hca by (apply ag_blks_elem; by exists sb). pose proof (blks_wf _ _ _ _ _ Hok c Hca : blk_wf g c) as Hwc.
    split; [done|]. split; [by apply (blk_tagged _ _ _ _ _ Hok)|]. split; [by apply (blk_place _ _ _ _ _ Hok sb c)|].
    destruct (blk_wf_pos g c Hg Hwc) as (? & _). pose proof (geo_hp g Hg). unfold bend. lia. }
  destruct (l1 ++ b :: l2) as [|c l] eqn:E; [by destruct l1|]. destruct Ht as [Ec Ht]. destruct (Hblk c) as (Hwc & Htc & Hend & Hpos); [apply Hsub; by left|].
  rewrite (proj2 (Z.ltb_lt _ _)) by (unfold send, spay in *; lia). unfold payload_bytes. assert (saddr sb + 32 + j = baddr c) as -> by (unfold spay in *; lia).
  apply wp_bind. eapply (wp_get_bszB_as_is a s g); [done..|]. apply wp_bind. eapply (wp_plain a s g); [done..|]. fold (bend c).
  destruct l1 as [|c' l1]; cbn in E; injection E as -> <-.
  - rewrite (proj2 (Z.ltb_lt _ _)) by apply Hin. by apply wp_ret.
  - assert (bend c <= baddr b) as Hcb.
    { assert (forall lo l, tiles lo (l ++ b :: l2) (send sb) -> (forall d, d ∈ l -> baddr d < bend d) -> lo <= baddr b) as Hlo.
      { clear. intros lo l. revert lo. induction l as [|d l IH]; intros lo Ht Hd; cbn in Ht; [lia|]. destruct Ht as [<- Ht].
        pose proof (Hd d ltac:(by left)). assert (bend d <= baddr b); [|lia]. apply IH; [done|]. intros e He. apply Hd. by right. }
      apply (Hlo _ l1); [done|]. intros d Hd. apply (Hblk d), Hsub. right. apply elem_of_app. by left. }
    rewrite (proj2 (Z.ltb_ge _ _)) by (unfold in_blk in Hin; lia).
    apply (IH (l0 ++ [c]) l1); [by rewrite El, <- app_assoc|cbn in Hf; lia|].
    by replace (spay sb + (j + bsz c)) with (bend c) by (unfold bend; lia).
Qed.
End Describe.

(** Any address in a block in use, or near it, is found there. *)
Lemma wp_describe_arena_addr cfg s G p a b d ad Q : heap_ok cfg s G -> nonclient_inited s = true -> held_by s G p a b d ->
  p - 16 <= ad < p + Z.of_nat (length d) + 16 ->
  Q (mk_aai a (Some a) (Z.of_nat (length d)) (ad - p) false) s -> wp (describe_arena_addr ad) s Q.
Proof using Type.
  intros Hok Hn Hh Had HQ. pose proof (held_in cfg s G p a b d ad Hok Hh Had) as Hin.
  destruct (held_facts cfg _ _ _ _ _ _ Hok Hh) as (A & ag & HA & HG & Hup & Hao & Hb & Hu & Hg & Hw & Ep & El & _).
  destruct (ho_len _ _ _ Hok) as [L1 L2]. unfold describe_arena_addr.
  assert (a < VG_N_ARENAS)%nat as HaN by (apply lookup_lt_Some in HA; lia).
  assert (forall n i, (i + n = VG_N_ARENAS)%nat -> (i <= a)%nat -> wp (describe_from n i ad) s Q) as Hgo; [|apply Hgo; [done|lia]].
  induction n as [|n IH]; intros i Hi Hia; [lia|]. cbn [describe_from]. apply wp_bind, wp_gets.
  destruct ((i =? VG_AR_CLIENT)%nat && negb (client_inited s)) eqn:E.
  { apply IH; [lia|]. destruct (decide (i = a)) as [->|]; [|lia]. unfold up in Hup.
    destruct (a =? VG_AR_CLIENT)%nat; [|done]. by rewrite Hup in E. }
  assert (up s i = true) as Hupi.
  { unfold up. destruct (i =? VG_AR_CLIENT)%nat; [|done]. by destruct (client_inited s). }
  destruct (lookup_lt_is_Some_2 (vg_arena s) i) as [B HB]; [lia|]. destruct (lookup_lt_is_Some_2 G i) as [h HGh]; [lia|].
  destruct (ho_up _ _ _ Hok i B h HB HGh Hupi) as [(Hbo & _) _]. assert (i < length (vg_arena s))%nat as Hil by lia.
  apply wp_bind. rewrite (at_arena_id i B s HB) at 1. apply (wp_maybe_findSb i s Hil B _ _ h); [done| |].
  - intros Hno. rewrite <- (at_arena_id i B s HB). apply IH; [lia|]. destruct (decide (i = a)) as [->|]; [|lia].
    assert (B = A) as -> by congruence. assert (h = ag) as -> by congruence. pose proof Hb as (sb & Hs & Hbs)%ag_blks_elem.
    destruct (Hno sb Hs). destruct (blk_place _ _ _ _ _ Hao sb b Hs Hbs). unfold in_blk in Hin. lia.
  - intros sb Hs Hsb. rewrite <- (at_arena_id i B s HB). assert (i = a) as ->.
    { destruct (decide (i = a)) as [|Hne]; [done|]. destruct (blk_region _ _ _ _ _ Hao b Hb) as (r & Hr & Hrx). exfalso.
      apply (other_apart cfg s G a ag r (sb_reg sb) ad Hok HG Hr); [by apply Hrx| |].
      - exists i, h. split; [done|]. split; [done|]. apply elem_of_app. left. apply list_elem_of_fmap. by exists sb.
      - unfold in_reg, sb_reg, spay, send in *. cbn. lia. }
    assert (B = A) as -> by congruence. assert (h = ag) as -> by congruence. clear HB HGh Hbo.
    pose proof Hb as (sb' & Hs' & Hbs)%ag_blks_elem. assert (sb' = sb) as ->.
    { eapply (payload_sb _ _ _ _ _ sb sb' ad Hao); [done|done|done|]. destruct (blk_place _ _ _ _ _ Hao sb' b Hs' Hbs). unfold in_blk in Hin. lia. }
    destruct (list_elem_of_split _ _ Hbs) as (l1 & l2 & Eb). set (g := geo_of (hp_overhead_szB s) A) in *.
    rewrite (at_arena_id a A s HA) in HQ |- *. pose proof (blk_tagged _ _ _ _ _ Hao b Hb : tagged g (hmem s) b) as Htb.
    apply wp_bind. eapply wp_scan_fuel; [done|exact Hao|]. intros fuel Hf. apply wp_bind.
    eapply (wp_block_of_addr a s Hil A _ _ ag sb ad b l2 _ Hao Hs Hin) with (l0 := []) (l1 := l1); [|done| |].
    2: { assert (length (sblks sb) <= length (ag_blks ag))%nat as Hl; [|rewrite Eb, length_app in Hl; cbn in Hl; lia].
         apply list_elem_of_split in Hs as (S1 & S2 & ES). unfold ag_blks. rewrite ES, bind_app, length_app. cbn [mbind list_bind]. rewrite length_app. lia. }
    2: { rewrite Z.add_0_r, <- Eb. by apply (ao_sbs _ _ _ _ _ Hao sb Hs). }
    apply wp_bind, wp_m_assert; [rewrite (proj2 (Z.eqb_neq _ _)); [done|pose proof (proj1 Hw); lia]|].
    apply wp_bind. eapply (wp_get_pszB a s g); [done..|]. apply wp_bind. eapply (wp_get_block_payload a s g); [done..|].
    apply wp_bind. eapply (wp_is_inuse a s g); [done..|]. apply wp_ret. unfold is_used in Hu. rewrite Hu, <- Ep, <- El. exact HQ.
Qed.
End Check.
