(* ===== verification/MallocTheorems.v ===== *)
(** The properties of the core's heap, with a user and an address space to
    instantiate them. *)
From stdpp Require Import base gmap list sets fin_maps sorting.
From Stdlib Require Import ZArith Lia.
From S2P Require Import Prelude Mem LibcMem XArray XArrayProofs Malloc MallocApi MallocBlocks MallocLists MallocInv MallocSb MallocInit MallocAlloc MallocRequest MallocClient MallocPerm MallocUse MallocCheck.
Open Scope prog_scope.
Open Scope Z_scope.

(** ** An address space *)

(** Mappings are taken in increasing order; a part of one may be given back. *)
Record bump := mk_bump { bump_next : Z; bump_live : list (bool * Z * Z) }.

Definition bump_mmap (client : bool) (n : Z) (o : bump) : option (Z * bump) :=
  let p := bump_next o in
  let next := p + (n + 4095) / 4096 * 4096 in
  if (4096 <=? p) && (p mod 4096 =? 0) && (next <? 2 ^ 63) then Some (p, mk_bump next ((client, p, n) :: bump_live o)) else None.

(** What is left of a mapping *)
Definition cut (client : bool) (p n : Z) (r : bool * Z * Z) : list (bool * Z * Z) :=
  let '(c, q, k) := r in
  if Bool.eqb c client then [(c, q, Z.min (p - q) k); (c, Z.max q (p + n), q + k - Z.max q (p + n))] else [r].

Definition bump_munmap (client : bool) (p n : Z) (o : bump) : option bump :=
  Some (mk_bump (bump_next o) (bump_live o ≫= cut client p n)).

#[export] Instance bump_space : AddressSpace bump := { am_mmap := bump_mmap; am_munmap := bump_munmap }.

Definition bump_byte (o : bump) (c : bool) (x : Z) : Prop := exists q k, (c, q, k) ∈ bump_live o /\ q <= x < q + k.
Definition bump_mapped (o : bump) (c : bool) (q k : Z) : Prop := (0 < k -> q + k <= bump_next o /\ q + k < 2 ^ 63) /\ forall x, q <= x < q + k -> bump_byte o c x.
Definition bump_room (o : bump) (k : Z) : Prop := 4096 <= bump_next o /\ bump_next o mod 4096 = 0 /\ bump_next o + k < 2 ^ 63.

Lemma bump_next_mmap c n o p o' : 0 < n -> bump_mmap c n o = Some (p, o') -> p = bump_next o /\ 4096 <= p /\ p mod 4096 = 0 /\
  p + n <= bump_next o' /\ bump_next o' < p + n + 4096 /\ bump_next o' mod 4096 = 0 /\ bump_next o' < 2 ^ 63 /\ bump_live o' = (c, p, n) :: bump_live o.
Proof.
  intros Hn. unfold bump_mmap. destruct (_ && _) eqn:E; [|done]. apply andb_prop in E as [[E1%Z.leb_le E2%Z.eqb_eq]%andb_prop E3%Z.ltb_lt].
  intros [= <- <-]. cbn. split_and!; try done; Z.div_mod_to_equations; lia.
Qed.

Lemma bump_munmap_byte c p n o c' x : bump_byte o c' x -> x < p \/ p + n <= x -> bump_byte (mk_bump (bump_next o) (bump_live o ≫= cut c p n)) c' x.
Proof.
  intros (q & k & Hq & Hx) Hp. destruct (Bool.eqb c' c) eqn:E.
  - destruct (Z.lt_ge_cases x p) as [Hlt|Hge].
    + exists q, (Z.min (p - q) k). split; [|lia]. cbn. apply list_elem_of_bind. exists (c', q, k). split; [|done]. cbn. rewrite E. by left.
    + exists (Z.max q (p + n)), (q + k - Z.max q (p + n)). split; [|lia]. cbn. apply list_elem_of_bind. exists (c', q, k). split; [|done]. cbn. rewrite E.
      right. by left.
  - exists q, k. split; [|done]. cbn. apply list_elem_of_bind. exists (c', q, k). split; [|done]. cbn. rewrite E. by left.
Qed.

#[export] Instance bump_laws : AddressSpaceLaws bump.
Proof.
  refine {| mapped := bump_mapped; core_space := bump_room |}.
  - intros c n o p o' Hn E. destruct (bump_next_mmap _ _ _ _ _ Hn E) as (-> & Hp & Hm & H1 & H2 & H3 & H4 & El).
    split_and!; [lia|done|lia| |].
    + split; [lia|]. intros x Hx. exists (bump_next o), n. rewrite El. split; [by left|done].
    + intros c' q k Hk [Hq Hb]. split; [|by left; apply Hq]. split; [specialize (Hq Hk); lia|]. intros x Hx.
      destruct (Hb x Hx) as (a & j & Ha & Hj). exists a, j. rewrite El. split; [by right|done].
  - intros n k o Hn Hk (H1 & H2 & H3). unfold am_mmap, bump_space, bump_mmap.
    rewrite (proj2 (Z.leb_le _ _)), (proj2 (Z.eqb_eq _ _)), (proj2 (Z.ltb_lt _ _)); [by eexists|Z.div_mod_to_equations; lia|done|done].
  - intros c n k o p o' Hn Hk (H1 & H2 & H3) E. destruct (bump_next_mmap _ _ _ _ _ Hn E) as (-> & Hp & Hm & K1 & K2 & K3 & K4 & El).
    split_and!; [lia|done|lia].
  - intros c p n o Hn [Hp Hb]. eexists. split; [done|]. split; [|done]. intros c' q k Hk [Hq Hb'] Hd. split; [done|].
    intros x Hx. apply bump_munmap_byte; [by apply Hb'|lia].
  - intros o c p n Hn [Hp _]. by apply Hp.
  - intros c p n q k o [Hp Hb] H1 H2 H3. split; [intros _; specialize (Hp ltac:(lia)); lia|]. intros x Hx. apply Hb. lia.
  - intros o k k' Hk (H1 & H2 & H3). split_and!; [done|done|lia].
Defined.

(** ** Runs *)

Section Theorems.
Context {OS : Type} `{AddressSpaceLaws OS}.

(** The heap is initialised, and used. *)
Definition user_run (cfg : heap_config) (cc : Z) (c : list Z -> heap_op) (n : nat) (m : gmem) (o : OS) : option (list Z * mst (OS := OS)) :=
  (ensure_mm_init cfg VG_AR_CORE ;;; run_heap_user cfg cc c n) (heap_start m o).

(** No request is greater than [R], and there is space for [n] of them. *)
Record user_fits (cfg : heap_config) (R cc : Z) (c : list Z -> heap_op) (n : nat) (m : gmem) (o : OS) : Prop := {
  uf_cfg : cfg_ok cfg;
  uf_bytes : bytes_ok m;
  uf_size : 0 <= R /\ R + 2 ^ 27 < 2 ^ 64;
  uf_cc : cc <> 0;
  uf_space : core_space o (Z.of_nat n * op_cost R (Z.of_nat n));
  uf_user : heap_user_ok R c n
}.

Lemma user_run_has cfg R cc c n m o : user_fits cfg R cc c n m o -> exists rs s X P, user_run cfg cc c n m o = Some (rs, s) /\
  heap_trace c n rs X P /\ user_has cfg R 0 (Z.of_nat n) s X P.
Proof.
  intros [Hcfg Hm [HR HR'] Hcc Hsp Hu].
  assert (wp (ensure_mm_init cfg VG_AR_CORE ;;; run_heap_user cfg cc c n) (heap_start m o) (fun rs s => exists X P, heap_trace c n rs X P /\
    user_has cfg R 0 (Z.of_nat n) s X P)) as Hw.
  { apply wp_bind. eapply wp_mono; [apply (heap_start_user cfg Hcfg R n m o VG_AR_CORE); [unfold VG_AR_CORE, VG_N_ARENAS; lia|done|done|done]|].
    intros [] s Hs. eapply wp_mono; [apply (wp_run_heap_user cfg Hcfg R HR HR' cc Hcc c n 0 0); [by rewrite Nat.add_0_r|done]|].
    intros rs s' (X & P & Ht & Hx). by exists X, P. }
  eapply wp_elim, wp_mono; [exact Hw|]. intros rs s (X & P & Ht & Hx) E. by exists rs, s, X, P.
Qed.



(** C23. Any address in a block that is in use, or within 16 bytes of it, is
    described as what it is: the arena, the size of the block, the offset in
    it, not free. *)
Theorem heap_describes cfg R cc c n m o (Hf : user_fits cfg R cc c n m o) : exists rs s X P,
  user_run cfg cc c n m o = Some (rs, s) /\ heap_trace c n rs X P /\
  forall p a d x, X !! p = Some (a, d) -> p - 16 <= x < p + Z.of_nat (length d) + 16 ->
    describe_arena_addr x s = Some (mk_aai a (Some a) (Z.of_nat (length d)) (x - p) false, s).
Proof.
  destruct (user_run_has _ _ _ _ _ _ _ Hf) as (rs & s & X & P & E & Ht & [(G & Hat & HX & _) _]). exists rs, s, X, P.
  do 2 (split; [done|]). intros p a d x (b & Hb)%HX Hx.
  assert (wp (describe_arena_addr x) s (fun r s' => r = mk_aai a (Some a) (Z.of_nat (length d)) (x - p) false /\ s' = s)) as Hw.
  { eapply (wp_describe_arena_addr cfg s G p a b d); [apply Hat|exact (ha_inited _ _ _ _ _ Hat)|done|done|by split]. }
  unfold wp in Hw. destruct (describe_arena_addr x s) as [[r s']|]; [|done]. by destruct Hw as [-> ->].
Qed.


End Theorems.

(** C24. The classes of the free lists partition the sizes as their comments
    say: the first 64 lists hold one multiple of 16 each, and the first sizes
    of the others go up exponentially, by 5%, 10% and 20%; a size belongs to
    the list [i] if and only if it is between the first and last sizes that
    the sanity check allows there. *)
Theorem free_list_classes (n i : Z) (Hn : 0 <= n < 2 ^ 64) (H16 : n mod 16 = 0) (Hi : 0 <= i < N_MALLOC_LISTS) :
  (listNo n = i <-> listNo_to_pszB_min i <= n <= listNo_to_pszB_max i) /\ listNo_to_pszB_min i = class_first i.
Proof. split; [|by apply listNo_min_first]. apply listNo_bounds; [unfold N_MALLOC_LISTS in Hi; lia|done|done]. Qed.

(** The check of [arena_calloc] against overflow misses a product of more than
    2^64, *)
Lemma calloc_overflow {OS : Type} `{AddressSpace OS} (cfg : heap_config) a cc (s : mst (OS := OS)) :
  arena_calloc cfg a cc (2 ^ 33) (2 ^ 32 + 1) s = arena_calloc cfg a cc 1 (2 ^ 33) s.
Proof. reflexivity. Qed.

(** and refuses a product of zero. *)
Lemma calloc_nothing {OS : Type} `{AddressSpace OS} (cfg : heap_config) a cc n (s : mst (OS := OS)) : 0 < n ->
  arena_calloc cfg a cc 0 n s = None.
Proof.
  intros Hn. unfold arena_calloc. rewrite Z.mul_0_l. change (u64 0) with 0. unfold bind at 1, m_assert.
  by rewrite (proj2 (Z.leb_gt n 0)) by done.
Qed.

(** ** An instance *)

Definition some_cfg : heap_config := {|
  clo_profile_heap := false; clo_redzone_size := -1; clo_core_redzone_size := 4; malloc_replacement := Some 16; literal := fun _ => 0 |}.

Definition some_space : bump := mk_bump 65536 [].

Definition some_user (rs : list Z) : heap_op :=
  match rs with
  | [] => HMalloc 1 100
  | [p] => HWrite p 99 7
  | [p; _] => HPerm 1 4 24
  | [p; _; q] => HPermWrite q 0 9
  | [p; _; q; _] => HShrink 1 p 40
  | [p; _; q; _; _] => HRealloc 1 p 5000
  | p :: _ :: q :: _ :: _ :: r :: _ => HFree 1 r
  end.

Lemma trace_inv c i rs X P : heap_trace c (S i) rs X P -> exists rs0 X0 P0 r, rs = rs0 ++ [r] /\ heap_trace c i rs0 X0 P0 /\ use_step X0 P0 (c rs0) r X P.
Proof. intros Ht. inversion Ht; subst. by do 4 eexists. Qed.

(** What the user has after each of its operations *)
Lemma some_trace_1 rs X P : heap_trace some_user 1 rs X P -> exists p d, rs = [p] /\ X !! p = Some (1%nat, d) /\ 100 <= Z.of_nat (length d).
Proof.
  intros (rs0 & X0 & P0 & r & -> & Ht & Hs)%trace_inv. inversion Ht; subst. cbn in Hs. inversion Hs; subst. exists r, d. by rewrite lookup_insert_eq.
Qed.

Lemma some_trace_2 rs X P : heap_trace some_user 2 rs X P -> exists p d, rs = [p; 0] /\ X !! p = Some (1%nat, d) /\ 100 <= Z.of_nat (length d).
Proof.
  intros (rs0 & X0 & P0 & r & -> & (p & d & -> & Hp & Hd)%some_trace_1 & Hs)%trace_inv. cbn in Hs. inversion Hs; subst. simplify_eq.
  exists p, (<[Z.to_nat 99 := 7]> d). by rewrite lookup_insert_eq, length_insert.
Qed.

Lemma some_trace_3 rs X P : heap_trace some_user 3 rs X P -> exists p d q c, rs = [p; 0; q] /\ X !! p = Some (1%nat, d) /\ 100 <= Z.of_nat (length d) /\
  P !! q = Some c /\ 24 <= Z.of_nat (length c).
Proof.
  intros (rs0 & X0 & P0 & r & -> & (p & d & -> & Hp & Hd)%some_trace_2 & Hs)%trace_inv. cbn in Hs. inversion Hs as [| | | | | | | | | | | | ? ? ? ? c Hap Hc|]; subst.
  exists p, d, r, c. rewrite lookup_insert_eq. by destruct Hc.
Qed.

Lemma some_trace_4 rs X P : heap_trace some_user 4 rs X P -> exists p d q, rs = [p; 0; q; 0] /\ X !! p = Some (1%nat, d) /\ 100 <= Z.of_nat (length d).
Proof.
  intros (rs0 & X0 & P0 & r & -> & (p & d & q & c & -> & Hp & Hd & _)%some_trace_3 & Hs)%trace_inv. cbn in Hs. inversion Hs; subst. by exists p, d, q.
Qed.

Lemma some_trace_5 rs X P : heap_trace some_user 5 rs X P -> exists p d q, rs = [p; 0; q; 0; 0] /\ X !! p = Some (1%nat, d) /\ 40 <= Z.of_nat (length d).
Proof.
  intros (rs0 & X0 & P0 & r & -> & (p & d & q & -> & Hp & Hd)%some_trace_4 & Hs)%trace_inv. cbn in Hs.
  inversion Hs as [| | | | | | | |? ? ? c k Hc Hk Hk'| | | | |]; subst. simplify_eq. exists p, (take k d), q. rewrite lookup_insert_eq, length_take. split_and!; [done|done|lia].
Qed.

Lemma some_trace_6 rs X P : heap_trace some_user 6 rs X P -> exists p q r d, rs = [p; 0; q; 0; 0; r] /\ X !! r = Some (1%nat, d).
Proof.
  intros (rs0 & X0 & P0 & r & -> & (p & d & q & -> & Hp & Hd)%some_trace_5 & Hs)%trace_inv. cbn in Hs. inversion Hs; subst; [by exists r, q, r, d|].
  exists p, q, r. eexists. by rewrite lookup_insert_eq.
Qed.

Lemma some_user_ok : heap_user_ok 5000 some_user 7.
Proof.
  intros i rs X P Hi Ht. destruct i as [|[|[|[|[|[|[|i]]]]]]]; [..|lia].
  - inversion Ht; subst. cbn. unfold VG_N_ARENAS. lia.
  - apply some_trace_1 in Ht as (p & d & -> & Hp & Hd). cbn. split; [lia|]. exists 1%nat, d. split; [done|lia].
  - apply some_trace_2 in Ht as (p & d & -> & Hp & Hd). cbn. unfold VG_N_ARENAS, VG_AR_CLIENT. lia.
  - apply some_trace_3 in Ht as (p & d & q & c & -> & Hp & Hd & Hq & Hc). cbn. split; [lia|]. exists c. split; [done|lia].
  - apply some_trace_4 in Ht as (p & d & q & -> & Hp & Hd). exists d. split; [done|lia].
  - apply some_trace_5 in Ht as (p & d & q & -> & Hp & Hd). cbn. split; [done|]. split; [by exists d|lia].
  - apply some_trace_6 in Ht as (p & q & r & d & -> & Hr). by exists d.
Qed.

Lemma some_user_fits : user_fits some_cfg 5000 1 some_user 7 (fun _ => 0) some_space.
Proof. split; [split; cbn; try lia; by intros rz [= <-]|done|lia|done|change (bump_room some_space (Z.of_nat 7 * op_cost 5000 (Z.of_nat 7))); vm_compute; repeat split; done|apply some_user_ok]. Qed.


(** A permanent block is aligned only if those before it are: the alignment
    rounds its size up, not its address. *)
Lemma perm_misaligned : match user_run some_cfg 1 (fun rs => match rs with [] => HPerm 1 2 4 | _ => HPerm 1 4 16 end) 2 (fun _ => 0) some_space with
  | Some ([p; q], _) => p mod 4 = 0 /\ q mod 16 = 4
  | _ => False
  end.
Proof. vm_compute. done. Qed.



Lemma heap_describes_witness : exists rs s X P,
  user_run some_cfg 1 some_user 7 (fun _ => 0) some_space = Some (rs, s) /\ heap_trace some_user 7 rs X P /\
  forall p a d x, X !! p = Some (a, d) -> p - 16 <= x < p + Z.of_nat (length d) + 16 ->
    describe_arena_addr x s = Some (mk_aai a (Some a) (Z.of_nat (length d)) (x - p) false, s).
Proof. exact (heap_describes some_cfg 5000 1 some_user 7 (fun _ => 0) some_space some_user_fits). Defined.


Lemma free_list_classes_witness :
  (listNo 1072 = 65 <-> listNo_to_pszB_min 65 <= 1072 <= listNo_to_pszB_max 65) /\ listNo_to_pszB_min 65 = class_first 65.
Proof. apply (free_list_classes 1072 65); [lia|reflexivity|unfold N_MALLOC_LISTS; lia]. Defined.
